(* ===== verification/_CoqProject ===== *)
-Q . S2P
Prelude.v
Ordering.v
Kernel.v
Digest.v
Json.v
Sqlite.v
Pairs.v
TaskGraph.v
TaskBlocked.v
TaskApply.v
TaskIntegrity.v
TaskInvariant.v
TaskClaims.v
TaskSchedule.v
TaskMessages.v
TaskSafety.v
TaskCoordinator.v
TaskStores.v
TaskClients.v
Workflow.v
WorkflowSafety.v
WorkflowCoordinator.v
WorkflowStores.v
WorkflowClients.v
WorkflowEngine.v
WorkflowDemo.v
Effect.v
EffectSafety.v
EffectCoordinator.v
EffectStores.v
EffectClients.v
EffectDemo.v
Governor.v
GovernorSafety.v
GovernorCircuit.v
GovernorStore.v
GovernorRefine.v
GovernorDemo.v
Handoff.v
HandoffSafety.v
HandoffCoordinator.v
HandoffStores.v
HandoffClients.v
HandoffDemo.v
Futures.v
Workers.v
Executor.v
ExecutorPaths.v
ExecutorSafety.v
ExecutorSweep.v
ExecutorDemo.v
Reconciler.v
ReconcilerSafety.v
ReconcilerDemo.v
Approval.v
ApprovalInbox.v
ApprovalStores.v
ApprovalHandler.v
ApprovalClients.v
ApprovalDemo.v
Journal.v
WaitDue.v
Completion.v
CompletionSafety.v
CompletionDemo.v
StateWait.v
StateEvent.v
StateProjection.v
StateReplay.v
StateLoop.v
StateIndex.v
StateSafety.v
StateStore.v
Temporal.v
TemporalSafety.v
TemporalRuns.v
TemporalSweep.v
StateEngine.v
StateDemo.v
TemporalDemo.v
