(* ===== verification/Prelude.v ===== *)
(** Y-Harness: verification of the durable orchestration core

    Y-Harness is a Rust harness for governed agents.  This library models the
    part of it that owns durable coordination and proves it correct:

      - the Task Graph (src/src/orchestration/mod.rs), a DAG of Tasks that
        workers claim under expiring, fenced leases, with dependency blocking,
        ordered messages, governed attempt bindings and a byte budget;
      - the Task Coordinator (src/src/orchestration/coordinator.rs), which
        stores revisioned graphs in memory or in SQLite and replaces them by
        compare-and-swap;
      - the Workflow Run (src/src/workflow/mod.rs), a state machine whose
        history of digest-bound transitions is replayed and checked after
        every command;
      - the Workflow Coordinator (src/src/workflow/coordinator.rs), which
        stores Runs in memory or in SQLite, applies idempotent commands at an
        expected revision and scans for due waits;
      - the Workflow engine (src/src/workflow/engine.rs), which links Runs to
        Task Graphs and gates completion on them;
      - the Effect ledger (src/src/effect/mod.rs), one record per external
        side effect: claims under leases, settlements, unknown outcomes and
        their reconciliation, as a replayed history;
      - the Effect Coordinator (src/src/effect/coordinator.rs, page.rs and
        engine.rs), which stores Effects in memory or in SQLite, binds each
        idempotency tuple to one Effect and lists them page by page;
      - the dispatch governor (src/src/effect/governor.rs), which admits
        dispatches by a window budget and a circuit breaker per lane, in
        memory or in SQLite;
      - the Effect executor (src/src/effect/executor.rs), which sweeps the
        pending Effects of a tenant: policy, claim, admission, dispatch to a
        connector and settlement, with bounded concurrency;
      - the Effect reconciler (src/src/effect/reconciler.rs), which sweeps the
        unknown Effects: policy, read-only lookup at the connector, and the
        command that settles what the lookup proved;
      - Human Handoffs (src/src/human_handoff), cases that wait for a person in
        a priority queue: claims under leases, resolution and cancellation as a
        replayed history, stored in memory or in SQLite, and the engine that
        opens a case only for a subject that exists;
      - the approval inbox (src/src/approval/mod.rs), requests of a run that
        wait for a person's decision, stored in memory or in SQLite within
        quotas per Turn, tenant and store, and the handler that polls the
        inbox until its request is settled, with the policy ports of the
        runtime (src/src/runtime/policy.rs);
      - the Temporal driver (src/src/temporal/mod.rs), a bounded tick that
        scans Workflow waits, Handoff claims, Effect leases and Agent Loop
        waits, fires what is due by deterministic commands and reports it, with
        the Agent Loop due index (src/src/state/wait_due.rs) it reads;
      - completion receipts (src/src/completion.rs), the evidence under which a
        Turn counts as completed, and the verifier registry
        (src/src/verification/mod.rs) whose manifest they bind;
      - the State journal (src/src/state/mod.rs), the append-only history of a
        Thread: its events and their validation, the waits of the Agent Loop,
        the replay that projects a journal to the Thread it records, the
        in-memory Event Store, and the State engine's maintenance of due waits;
      - the kernel contracts they share (src/src/kernel/types.rs,
        src/src/kernel/registry.rs), the guards on JSON values
        (src/src/json.rs) and the SQLite boundary (src/src/sqlite.rs).

    The Workflow engine calls the two coordinators; the coordinators call the
    aggregates; the executor calls the Effect Coordinator and the governor, the
    reconciler the Effect Coordinator, the handoff engine its coordinator, the
    approval handler the inbox, and the Temporal driver the Workflow, Handoff,
    Effect and State engines, the State engine an Event Store; every operation
    acts under an [AuthorityContext] of the kernel, whose tenant is part of
    every storage key.

    * Conventions

    A fallible function returns [result]; a method on [&mut self], or an
    operation on a store, is a computation in [M S], the state and error monad
    of this file, which also says what the state is when the call fails.  A
    machine integer is a [Z] whose [checked_add], [checked_sub], [saturating_sub]
    and [try_from] are written out at its width.  A string is the list of its
    Unicode scalar values, with its UTF-8 length and byte order.  A [BTreeMap]
    or [BTreeSet] is a [gmap] or [gset] whose iteration is sorted by key
    ([bt_iter], [bs_iter], [pairs_iter]); a [Vec] is a list.  An error message
    is its format template with its arguments; the text of an error reported by
    an external library is not modelled.  A future of the executor or of the
    reconciler is a [prog], the finite tree of the calls it makes; what the
    calls do, and how futures interleave, are step relations ([x_step], and
    [runs] with [rec_handles]).

    * Files

      - Prelude: text, errors, the two monads and their inversion tactics
        ([inv_ok], [inv_M], [inv_M_err]), integers, sorted iteration.
      - Kernel: [next_id] and [generate], capability names and origins,
        [ActorIdentity], [AuthorityContext], [ExecutionBinding], tenant storage
        keys, and the classes [Serialize], [Deserialize], [Codec] that stand for
        serde_json.
      - Digest: SHA-256 and its text.  Json: the shape check and the bounded
        writers.  Pairs: maps keyed by tenant and identity, and paging.
      - Sqlite: a [Connection] is a table and the list of pending statement
        failures; [transaction] rolls back; [keeps] is the class of
        computations that change no row, closed by the hints of [harness].
      - TaskGraph: the aggregate, one definition per method of [TaskGraph]
        (new, ready, claim_ready_governed, heartbeat, complete, fail, cancel,
        release_expired, send_message, messages_page_for, validate_integrity
        and their helpers).
      - TaskBlocked, TaskApply, TaskIntegrity, TaskInvariant, TaskClaims,
        TaskSchedule: lemmas about [validate_acyclic] and [blocked_mutations],
        [apply_task_mutations], the integrity check, the constructor and
        preservation, claims, and the step relation [task_step] with the
        scheduling invariant.
      - TaskMessages, TaskSafety: the properties of the Task Graph, and the
        graph on which they are exercised.
      - TaskCoordinator: snapshots, the trait as the class [TaskCoordinator],
        [MemoryStore], [SqliteStore], the row codec, opening a file.
      - TaskStores: the contract [CoordinatorLaws] and its two instances.
        TaskClients: concurrent clients, proved against the contract.
      - Workflow: the Run, one definition per function of workflow/mod.rs.
        WorkflowSafety: the validator as a replay, that the guards of [apply]
        imply it, and the properties of a Run.
      - WorkflowCoordinator, WorkflowStores, WorkflowClients: the
        stores of Runs, the due scan, the contract [WorkflowLaws] with its two
        instances, and the clients.
      - WorkflowEngine: the engine over any two coordinators that meet the
        contracts, with other clients acting at its suspension points.
        WorkflowDemo: the Run and the stores on which they are exercised.
      - Effect: the Effect, one definition per function of effect/mod.rs.
        EffectSafety: the validator as a replay, and the properties.
      - EffectCoordinator, EffectStores, EffectClients: the stores of Effects,
        the contract [EffectLaws] with its two instances, the clients, and that
        a stored Effect only moves forward.
        EffectDemo: the Effect and the store on which they are exercised.
      - Governor: policies, lanes, the trait as the class
        [EffectDispatchGovernor] and the in-memory governor.  GovernorSafety:
        what one decision does to a lane, and runs of a governor.
        GovernorCircuit: the circuit over a run.  GovernorStore: the SQLite
        governor.  GovernorRefine: that it implements the in-memory one.
        GovernorDemo: the lane on which they are exercised.
      - Futures: futures as trees of calls, their paths and their runs in an
        environment.  Workers: the bounded worker set of a sweep, and that it
        reports its whole work list in order.
      - Executor: registries, policies, configuration, one attempt
        ([execute_prepared]), the scan ([scan_pending]) and the worker loop
        ([sweep_start], [sweep_join], [sweep_report], on Workers).
        ExecutorPaths: what the calls do, how sweeps interleave, and the paths
        of one attempt.  ExecutorSafety: the executions.  ExecutorSweep: the
        worker loop, and how an executor is built.  ExecutorDemo: the sweep on
        which they are exercised.
      - Reconciler: the counterparts of the executor's definitions for
        reconciler.rs, [reconcile_prepared] and [scan_unknown] among them.
        ReconcilerSafety: the paths and the runs of one reconciliation, and the
        sweep.  ReconcilerDemo: the sweep on which they are exercised.
      - Handoff: the Human Handoff, one definition per function of
        human_handoff/mod.rs.  HandoffSafety: the life cycle
        ([handoff_moves]), that validator and guards follow it, and the
        properties.
      - HandoffCoordinator, HandoffStores, HandoffClients: the
        stores of Handoffs and the engine, the order of the queues, the contract
        [HandoffLaws] with its two instances, and the clients.  HandoffDemo: the
        Handoff and the store on which they are exercised.
      - Ordering: orders given by a comparison ([TotalCmp]), lists sorted by a
        key and the values of a map in that order.
      - Approval: requests, decisions, records, cursors and pages, one
        definition per function.  ApprovalInbox: the trait as the class
        [ApprovalInbox], the in-memory and the SQLite inbox.
        ApprovalStores: the binary search and the bounded selection, and the
        contract [ApprovalLaws] with its two instances.  ApprovalHandler: the policy
        ports and the polling handler.  ApprovalClients: the properties, proved
        against the contract.  ApprovalDemo: the records and the store on which
        they are exercised, and the two findings.
      - Journal: the data of a journal, Turns, executions, waits, items, events
        and receipts.  WaitDue: the Agent Loop due index, its reducer, pages and
        command identities, and what a command identity binds.
      - Temporal: the driver, one definition per function of temporal/mod.rs,
        over the engines it is given, the State engine through [StateWaits].
        TemporalSafety: the checked pages and the report.  TemporalRuns: what a
        tick does to the stores, with the contract of the State engine,
        [StateWaitsLaws].  TemporalSweep: sequences of ticks.  TemporalDemo: the
        stores on which they are exercised, and the finding.
      - Completion: one definition per function of completion.rs, and the
        verifier registry.  CompletionSafety: its properties.  CompletionDemo:
        the Turn on which they are exercised.
      - StateWait: waits of the Agent Loop, their evidence and the execution the
        items of a Turn project to.  StateEvent: validation and encoding of
        events, pending and stored.  StateProjection: [apply_events], one
        definition per loop and per check, and the checks on the Thread.
        StateReplay: what one event does, the invariant of a projected Thread,
        cutting a replay, what stays.  StateLoop: how the transitions of a wait
        follow each other.  StateIndex: the live-wait row over a journal.
        StateSafety: the properties.  StateDemo: the journal on which they are
        exercised.
      - StateStore: the in-memory Event Store, one definition per method, its
        invariant [store_ok] and its steps [store_step].  StateEngine: the
        operations of an Event Store ([EventStore]) and their contract
        ([EventStoreLaws], with the in-memory instance); discovery and
        settlement of due waits over any Event Store, which meet
        [StateWaitsLaws] ([engine_laws]), and the tick over this engine.

    * What the theorems show

      - Task Graph: every operation preserves the full integrity check of the
        code ([task_integrity_preserved]); a graph with work left always has a
        ready or a running Task ([task_deadlock_free]); settled Tasks never
        change ([task_terminal_absorbing]); running Tasks have completed
        dependencies ([task_schedule_safe]); a lease that is not the current
        one, or has expired, can do nothing ([task_fencing]); a failed
        operation changes nothing ([task_failure_atomic]); claims come in
        priority order and grant what they say ([task_claim_order],
        [task_claim_grants]); a governed Task is never retried without a
        binding ([task_governed_never_downgraded]); blocking is exactly
        reachability from a dead Task ([task_blocking_exact]); the cycle check
        decides acyclicity ([task_acyclic_decided]); message paging delivers
        each message once ([task_message_paging]).
      - Task Coordinator: any interleaving of clients moves each graph along
        its own operations ([coordinator_linearizable]), no update is lost
        ([coordinator_no_lost_update]), SQLite returns what the in-memory store
        returns but for its own limits ([sqlite_refines_memory]) and what was written
        ([sqlite_read_your_writes]).
      - Workflow Run: admitted commands always pass the validator
        ([workflow_apply_admitted]), the history determines the state
        ([workflow_history_determines]), commands are idempotent
        ([workflow_idempotent]), terminal Runs are fixed
        ([workflow_terminal_absorbing]), the timeout boundary is exact
        ([workflow_timeout_boundary]), a live Run can always be cancelled
        within the settlement reserve ([workflow_cancel_possible]) and
        histories are well formed ([workflow_history_wellformed]).
      - Workflow Coordinator and engine: each command takes effect once
        ([workflow_command_exactly_once]), the due scan misses nothing
        ([workflow_due_scan_complete]), tenants are isolated
        ([workflow_tenant_isolation]) and completion is gated on every linked
        Task ([engine_completion_gated]).
      - Effects: an uncertain attempt is never retried without reconciliation
        ([effect_no_blind_retry]); leases fence workers
        ([effect_lease_fencing]); an idempotency tuple has one durable Effect
        ([effect_unique_intent]); pages are exact ([effect_pages_exact]).
      - Dispatch governor: the budget of a window holds over any run
        ([governor_rate_limit]), an open circuit admits nothing
        ([governor_circuit_holds]), and the SQLite governor refines the
        in-memory one whatever statements fail ([governor_sqlite_refines]).
      - Effect executor: over any interleaving of sweeps, other clients,
        cancellations and dropped futures, an attempt enters a connector at
        most once ([executor_at_most_once]) and only permitted, claimed and
        admitted ([executor_entry_permitted]); reports agree with the ledger
        ([executor_reports_honest]) and are complete and bounded
        ([executor_sweep_complete], [executor_calls_bounded]); every executor
        that can be built is well formed ([executor_well_formed]).
      - Effect reconciler: an uncertain attempt is settled once
        ([reconciler_settles_once]), only with permission and with the
        validated answer of its connector ([reconciler_evidence]); reports
        agree with connector and ledger ([reconciler_reports_honest]) and are
        complete ([reconciler_sweep_complete]).
      - Human Handoffs: one actor owns a case at a time
        ([handoff_single_owner]); [apply] refines the life cycle
        ([handoff_apply_refines]); claims fence their owners
        ([handoff_fencing]); an open case can always be settled
        ([handoff_can_settle]); queue pages are exact and in order
        ([handoff_queue_exact]); no update is lost ([handoff_no_lost_update]);
        a case has an existing subject ([engine_requires_subject]).
      - Approvals: a record is settled at most once, and stays settled
        ([approval_settled_once]); an admitted request keeps its Turn within
        its quota ([approval_turn_capacity]); a page is the oldest records
        after its cursor ([approval_page_oldest]); abandoning a Turn leaves
        none of it pending ([approval_abandoned_turn]); the handler returns
        the stored decision ([handler_decision_durable]) and hears one that is
        taken while it polls ([handler_hears_decision]).
      - Temporal driver: over the modelled State engine a tick does what its
        report says and nothing else ([temporal_tick_honest]); the due entries
        of the pages its engines answered are attempted, each once
        ([temporal_report_exact]); a sweep of ticks misses no deadline beyond
        its first cursor ([temporal_sweep_complete]); a maintenance command is
        bound to one firing ([maintenance_command_binds]).
      - Completion: settled journals are exactly those whose Tool calls have
        one of four histories ([completion_settled_exact]); a receipt is valid
        for exactly the Turns with its evidence ([completion_receipt_exact]) and
        binds their text ([completion_receipt_binds]); a registry's manifest is
        always valid ([verification_registry_manifest]).
      - State journal: a replay may be cut anywhere
        ([journal_replay_incremental]); what is recorded stays
        ([journal_immutable]); every claim of a wait is justified and answered
        before the next transition ([agent_loop_claims_safe]); the due index
        keeps exactly the open wait ([wait_row_agrees]).
      - JSON: the shape check ends and is exact ([json_shape_exact]).

    * Bounds

    The recursions that are not structural carry fuel.  [visit] gets one
    more than the number of Tasks, the longest path without a repetition;
    [blocked_loop] gets one more than the number of Tasks, since every round but
    the last blocks a new one; [visit_error] of TaskBlocked (an error always names a
    Task on a cycle) and [blocked_loop_total] show that neither
    runs out.  [shape_loop] of Json gets one more than the bound on nodes, and
    [json_shape_exact] shows that it ends with an answer.  [hex_digits] gets the
    bit length of its argument.  [wal_loop] of the governor's store follows the
    list of the clock readings it is given.  [binary_search_loop] of the approval
    inbox gets the length of the list, and [binary_search_absent] shows that it
    finds the insertion point; [decide_loop] follows the list of the polls it
    is given.  [checked_events_loop] of StateStore reads one page per round, and
    [checked_events_ok] shows that one round more than the events of a stream
    is enough.  A [prog] is a finite tree, and an
    attempt of the executor makes at most fifteen calls, one of the reconciler
    at most six ([within_reconcile]).

    * Parameters

    serde_json is [Serialize] and [Deserialize], with the law [Codec] (decoding
    reads back what encoding wrote) where a store is read back.  SHA-256 is
    [Sha256] with [Sha256Laws] (32 bytes), of raw bytes [Sha256Bytes] with
    [Sha256BytesLaws]; the encodings of a completion are [CompletionCodec], of
    waits [WaitCodec] and of events [StateCodec]; the order of semantic versions is
    [SemverOrder] with [SemverLaws] (a total preorder).  The clock is the [now]
    argument of an operation, generated identities are its [fresh] argument,
    and SQLite failures are the [faults] of a connection.  Connectors, policies
    of the host, clocks and the tokio runtime are the answers of the calls of a
    [prog], over which the step relation quantifies; the time limits of a call
    are that any of its answers may be lost.  Every property that relies on
    such a law has a witness with a concrete instance.

    * Not modelled

    The runtime loop, the operations of the State engine other than the
    maintenance of due waits, its snapshots, forks and archives, the file and
    SQLite Event Stores, the protocol and transport layers, model providers,
    contexts, memories, skills, tools, process execution and the command line
    are outside this library; so are the migration of old database files and
    the worktrees of the Task runner.  What is proved of the Temporal driver
    holds for any Event Store that meets [EventStoreLaws]; only the in-memory
    one is shown to.
    The Task runner (src/src/orchestration/runner.rs), whose calls are modelled
    here, would be the next to be added. *)

From Stdlib Require Ascii String.
From Stdlib Require Import ZArith Lia.
From stdpp Require Import sorting base tactics list gmap numbers strings option.
From stdpp Require Import list.


#[global] Set Default Goal Selector "!".

(** * Text

    A Rust [String] is modelled by the list of its Unicode scalar values.
    [len()] counts UTF-8 bytes; the derived [Ord] of a string is the
    lexicographic order of its UTF-8 bytes, which is the lexicographic order
    of its scalar values. *)
Abbreviation str := (list N).

(** The text of an ASCII literal. *)
Definition lit (s : string) : str :=
  map Ascii.N_of_ascii (String.list_ascii_of_string s).

(** Number of UTF-8 bytes of one scalar value. *)
Definition char_len (c : N) : Z :=
  if (c <? 128)%N then 1
  else if (c <? 2048)%N then 2
  else if (c <? 65536)%N then 3 else 4.

(** [str::len]. *)
Definition str_len (s : str) : Z := foldr (λ c n, char_len c + n)%Z 0%Z s.

(** [str::is_empty]. *)
Definition str_is_empty (s : str) : bool :=
  match s with [] => true | _ => false end.

(** [char::is_control]: the Unicode category Cc. *)
Definition is_control (c : N) : bool :=
  (c <? 32)%N || ((127 <=? c)%N && (c <=? 159)%N).

(** [char::is_whitespace]: the Unicode property White_Space. *)
Definition is_whitespace (c : N) : bool :=
  ((9 <=? c)%N && (c <=? 13)%N) || (c =? 32)%N || (c =? 133)%N
  || (c =? 160)%N || (c =? 5760)%N || ((8192 <=? c)%N && (c <=? 8202)%N)
  || (c =? 8232)%N || (c =? 8233)%N || (c =? 8239)%N || (c =? 8287)%N
  || (c =? 12288)%N.

(** [s.trim().is_empty()]: every character is white space. *)
Definition trim_is_empty (s : str) : bool := forallb is_whitespace s.

(** [s.chars().any(char::is_control)]. *)
Definition any_control (s : str) : bool := existsb is_control s.

Definition is_ascii_digit (c : N) : bool := (48 <=? c)%N && (c <=? 57)%N.
Definition is_ascii_lowercase (c : N) : bool := (97 <=? c)%N && (c <=? 122)%N.
Definition is_ascii_uppercase (c : N) : bool := (65 <=? c)%N && (c <=? 90)%N.
Definition is_ascii_alphanumeric (c : N) : bool :=
  is_ascii_digit c || is_ascii_lowercase c || is_ascii_uppercase c.

(** Membership of a character in a literal set, [matches!(c, '_' | '-')]. *)
(** [str::eq_ignore_ascii_case]. *)
Definition to_ascii_lowercase (c : N) : N := if is_ascii_uppercase c then (c + 32)%N else c.
Definition eq_ignore_ascii_case (a b : str) : bool :=
  bool_decide (to_ascii_lowercase <$> a = to_ascii_lowercase <$> b).
Definition one_of (set : string) (c : N) : bool := bool_decide (c ∈ lit set).

(** The derived order of strings. *)
Fixpoint str_leb (a b : str) : bool :=
  match a, b with
  | [], _ => true
  | _ :: _, [] => false
  | x :: a, y :: b => (x <? y)%N || ((x =? y)%N && str_leb a b)
  end.
Definition str_le (a b : str) : Prop := str_leb a b = true.
Definition str_lt (a b : str) : Prop := str_leb b a = false.

#[global] Instance str_le_dec : RelDecision str_le.
Proof. intros a b. unfold str_le. apply _. Defined.
#[global] Instance str_lt_dec : RelDecision str_lt.
Proof. intros a b. unfold str_lt. apply _. Defined.

Lemma str_leb_refl a : str_leb a a = true.
Proof. induction a as [|x a IH]; simpl; [done|]. rewrite N.eqb_refl, IH. by rewrite orb_true_r. Qed.

Lemma str_leb_total a b : str_leb a b = true ∨ str_leb b a = true.
Proof.
  revert b. induction a as [|x a IH]; intros [|y b]; simpl; try tauto.
  destruct (N.ltb_spec x y), (N.ltb_spec y x), (N.eqb_spec x y), (N.eqb_spec y x);
    simpl; try tauto; try lia. apply IH.
Qed.

Lemma str_leb_trans a b c :
  str_leb a b = true → str_leb b c = true → str_leb a c = true.
Proof.
  revert b c. induction a as [|x a IH]; intros [|y b] [|z c]; simpl; try done.
  intros [H|[H H1]%andb_true_iff]%orb_true_iff [H'|[H' H1']%andb_true_iff]%orb_true_iff;
    rewrite ?N.ltb_lt, ?N.eqb_eq in *; subst;
    apply orb_true_iff; rewrite ?N.ltb_lt, ?andb_true_iff, ?N.eqb_eq;
    try (left; lia); try (left; done).
  right. split; [done|]. by eapply IH.
Qed.

Lemma str_leb_antisymm a b :
  str_leb a b = true → str_leb b a = true → a = b.
Proof.
  revert b. induction a as [|x a IH]; intros [|y b]; simpl; try done.
  intros [H|[H H1]%andb_true_iff]%orb_true_iff [H'|[H' H1']%andb_true_iff]%orb_true_iff;
    rewrite ?N.ltb_lt, ?N.eqb_eq in *; subst; try lia.
  f_equal. by apply IH.
Qed.

Lemma str_leb_strict a b : str_leb a b = true → a ≠ b → str_leb b a = false.
Proof.
  intros H Hn. destruct (str_leb b a) eqn:E; [|done]. exfalso. apply Hn. by apply str_leb_antisymm.
Qed.

#[global] Instance str_le_preorder : PreOrder str_le.
Proof. split; [intros a; apply str_leb_refl | intros a b c; apply str_leb_trans]. Qed.
#[global] Instance str_le_antisymm : AntiSymm (=) str_le.
Proof. intros a b. apply str_leb_antisymm. Qed.
#[global] Instance str_le_total : Total str_le.
Proof. intros a b. apply str_leb_total. Qed.

(** [Ordering::then_with] and the comparison of strings. *)
Definition then_with (c d : comparison) : comparison := match c with Eq => d | _ => c end.
Definition str_cmp (a b : str) : comparison :=
  if bool_decide (a = b) then Eq else if str_leb a b then Lt else Gt.

Lemma str_len_nonneg s : (0 ≤ str_len s)%Z.
Proof.
  induction s as [|c s IH]; simpl; [lia|]. unfold char_len.
  repeat case_match; lia.
Qed.

Lemma str_len_app s t : str_len (s ++ t) = (str_len s + str_len t)%Z.
Proof. induction s as [|c s IH]; simpl; [done|]. rewrite IH. lia. Qed.

(** * Results, errors and state

    [HarnessError] of src/src/kernel/types.rs, restricted to the variants the
    modelled components build. A [format!] message is kept as its template
    and the list of its interpolated arguments. *)
Inductive arg :=
| AStr (s : str)
| ALit (s : string)
| ANum (n : Z).

Record message := fmt { template : string; args : list arg }.

Inductive HarnessError :=
| InvalidConfiguration (m : message)
| InvalidCapability (m : message)
| DuplicateCapability (name : str)
| Model (m : message)
| Approval (m : message)
| ApprovalConflict (approval_id : str) (expected actual : Z)
| Verification (m : message)
| Orchestration (m : message)
| OrchestrationConflict (graph_id : str) (expected actual : Z)
| Workflow (m : message)
| WorkflowConflict (run_id : str) (expected actual : Z)
| HumanHandoff (m : message)
| HumanHandoffConflict (handoff_id : str) (expected actual : Z)
| Effect (m : message)
| EffectConflict (effect_id : str) (expected actual : Z)
| Temporal (m : message)
| State (m : message)
| StateConflict (thread_id : str) (expected actual : Z).

(** A message after a literal text without placeholders. *)
Definition prefixed (s : string) (m : message) : message :=
  fmt (String.append s (template m)) (args m).

(** [Display for HarnessError], the text [to_string] gives. *)
Definition error_text (e : HarnessError) : message :=
  match e with
  | InvalidConfiguration m => prefixed "invalid configuration: " m
  | InvalidCapability m => prefixed "invalid capability: " m
  | DuplicateCapability name => fmt "duplicate capability: {}" [AStr name]
  | Model m => prefixed "model error: " m
  | Approval m => prefixed "approval error: " m
  | ApprovalConflict approval_id expected actual =>
      fmt "approval conflict on {}: expected revision {}, found {}"
        [AStr approval_id; ANum expected; ANum actual]
  | Verification m => prefixed "verification error: " m
  | Orchestration m => prefixed "orchestration error: " m
  | OrchestrationConflict graph_id expected actual =>
      fmt "orchestration conflict on graph {}: expected revision {}, found {}"
        [AStr graph_id; ANum expected; ANum actual]
  | Workflow m => prefixed "workflow error: " m
  | WorkflowConflict run_id expected actual =>
      fmt "workflow conflict on run {}: expected revision {}, found {}"
        [AStr run_id; ANum expected; ANum actual]
  | HumanHandoff m => prefixed "human handoff error: " m
  | HumanHandoffConflict handoff_id expected actual =>
      fmt "human handoff conflict on {}: expected revision {}, found {}"
        [AStr handoff_id; ANum expected; ANum actual]
  | Effect m => prefixed "effect error: " m
  | EffectConflict effect_id expected actual =>
      fmt "effect conflict on {}: expected revision {}, found {}"
        [AStr effect_id; ANum expected; ANum actual]
  | Temporal m => prefixed "temporal driver error: " m
  | State m => prefixed "state error: " m
  | StateConflict thread_id expected actual =>
      fmt "state conflict on thread {}: expected stream version {}, found {}"
        [AStr thread_id; ANum expected; ANum actual]
  end.

(** Rust's [Result<A, HarnessError>]. *)
Inductive result (A : Type) :=
| Ok (a : A)
| Err (e : HarnessError).
Arguments Ok {A} a.
Arguments Err {A} e.

#[global] Instance result_ret : MRet result := λ A a, Ok a.
#[global] Instance result_bind : MBind result := λ A B f r,
  match r with Ok a => f a | Err e => Err e end.
#[global] Instance result_fmap : FMap result := λ A B f r,
  match r with Ok a => Ok (f a) | Err e => Err e end.

Definition is_ok {A} (r : result A) : bool :=
  match r with Ok _ => true | Err _ => false end.

(** [Result::map_err]. *)
Definition map_err {A} (f : HarnessError → HarnessError) (r : result A) : result A :=
  match r with Ok a => Ok a | Err e => Err (f e) end.

(** [Option::ok_or_else]. *)
Definition ok_or {A} (o : option A) (e : HarnessError) : result A :=
  match o with Some a => Ok a | None => Err e end.

(** [if cond { return Err(e) }]. *)
Definition reject_if (cond : bool) (e : HarnessError) : result () :=
  if cond then Err e else Ok ().

(** [for x in l { f(x)?; }]. *)
Fixpoint for_each {A} (f : A → result ()) (l : list A) : result () :=
  match l with
  | [] => Ok ()
  | x :: l => match f x with Ok _ => for_each f l | Err e => Err e end
  end.

(** [for x in l { s = f(s, x)?; }]. *)
Fixpoint fold_m {S A} (f : S → A → result S) (s : S) (l : list A) : result S :=
  match l with
  | [] => Ok s
  | x :: l => match f s x with Ok s' => fold_m f s' l | Err e => Err e end
  end.

(** A method on [&mut self]: the state after the call and what it returned.
    An error does not by itself undo a mutation. *)
Definition M (S A : Type) : Type := S → S * result A.

#[global] Instance M_ret {S} : MRet (M S) := λ A a s, (s, Ok a).
#[global] Instance M_bind {S} : MBind (M S) := λ A B f m s,
  match m s with
  | (s', Ok a) => f a s'
  | (s', Err e) => (s', Err e)
  end.

Definition lift {S A} (r : result A) : M S A := λ s, (s, r).
Definition get {S} : M S S := λ s, (s, Ok s).
Definition put {S} (s' : S) : M S () := λ s, (s', Ok ()).
Definition modify {S} (f : S → S) : M S () := λ s, (f s, Ok ()).

(** ** Inversion of the combinators *)

Lemma bind_ok {A B} (f : A → result B) (r : result A) b :
  r ≫= f = Ok b ↔ ∃ a, r = Ok a ∧ f a = Ok b.
Proof.
  destruct r as [a|e]; simpl; split.
  - intros H. by exists a.
  - intros (a' & [= ->] & H). done.
  - done.
  - intros (a' & [=] & _).
Qed.

Lemma M_bind_ok {S A B} (f : A → M S B) (m : M S A) s s' b :
  (m ≫= f) s = (s', Ok b) ↔ ∃ s1 a, m s = (s1, Ok a) ∧ f a s1 = (s', Ok b).
Proof.
  unfold mbind, M_bind. destruct (m s) as [s1 [a|e]] eqn:E; split.
  - intros H. by exists s1, a.
  - intros (? & ? & [= -> ->] & H). done.
  - done.
  - intros (? & ? & [=] & _).
Qed.

Lemma M_bind_err {S A B} (f : A → M S B) (m : M S A) s s' e :
  (m ≫= f) s = (s', Err e) ↔
  m s = (s', Err e) ∨ ∃ s1 a, m s = (s1, Ok a) ∧ f a s1 = (s', Err e).
Proof.
  unfold mbind, M_bind. destruct (m s) as [s1 [a|e']] eqn:E; split.
  - intros H. right. by exists s1, a.
  - intros [[=]|(? & ? & [= -> ->] & H)]. done.
  - intros [= -> ->]. by left.
  - intros [[= -> ->]|(? & ? & [=] & _)]. done.
Qed.

Lemma ok_or_ok {A} (o : option A) e a : ok_or o e = Ok a ↔ o = Some a.
Proof. destruct o; simpl; split; congruence. Qed.

Lemma map_err_ok {A} f (r : result A) a : map_err f r = Ok a ↔ r = Ok a.
Proof. destruct r; simpl; split; congruence. Qed.

Lemma reject_if_ok c e u : reject_if c e = Ok u ↔ c = false.
Proof. destruct c, u; simpl; split; congruence. Qed.

Lemma for_each_ok {A} (f : A → result ()) l u :
  for_each f l = Ok u ↔ ∀ x, x ∈ l → f x = Ok ().
Proof.
  destruct u. induction l as [|x l IH]; simpl.
  - split; [|done]. intros _ x Hx. inversion Hx.
  - destruct (f x) as [[]|e] eqn:E.
    + rewrite IH. split.
      * intros H y [->|Hy]%elem_of_cons; [done|]. by apply H.
      * intros H y Hy. apply H. by apply elem_of_cons; right.
    + split; [done|]. intros H. rewrite H in E; [done|]. apply elem_of_cons. by left.
Qed.

Lemma fold_m_app {S A} (f : S → A → result S) s l l' :
  fold_m f s (l ++ l') = fold_m f s l ≫= λ s', fold_m f s' l'.
Proof. revert s. induction l as [|x l IH]; intros s; simpl; [done|]. by destruct (f s x). Qed.

(** [fold_inv]: an invariant of the loop body is an invariant of the loop. *)
(** ** Replaying a list of events *)

Section replays.
Context {S A : Type} (step : S → A → result S) (start : S).

(** The events [l] lead from the start to [s]. *)
Definition replays (l : list A) (s : S) : Prop := fold_m step start l = Ok s.

Lemma replays_app l l' s' :
  replays (l ++ l') s' ↔ ∃ s, replays l s ∧ fold_m step s l' = Ok s'.
Proof.
  unfold replays. rewrite fold_m_app. destruct (fold_m step start l) as [s|e]; simpl; naive_solver.
Qed.

Lemma replays_snoc l x s' : replays (l ++ [x]) s' ↔ ∃ s, replays l s ∧ step s x = Ok s'.
Proof.
  rewrite replays_app. simpl. split; intros (s & Hs & Hx); exists s; (split; [done|]).
  - by destruct (step s x).
  - by rewrite Hx.
Qed.

Lemma replays_ind (P : list A → S → Prop) :
  P [] start →
  (∀ l x s s', replays l s → P l s → step s x = Ok s' → P (l ++ [x]) s') →
  ∀ l s, replays l s → P l s.
Proof.
  intros H0 Hs l. induction l as [|x l IH] using rev_ind; intros s Hl.
  - by injection Hl as <-.
  - apply replays_snoc in Hl as (s0 & Hl & Hx). eauto.
Qed.

(** A replay, cut at one of its events. *)
Lemma replays_cut l1 x l2 s' :
  replays (l1 ++ x :: l2) s' →
  ∃ s1 s2, replays l1 s1 ∧ step s1 x = Ok s2 ∧ replays (l1 ++ [x]) s2 ∧ fold_m step s2 l2 = Ok s'.
Proof.
  rewrite replays_app. simpl. intros (s1 & H1 & Hs). destruct (step s1 x) as [s2|] eqn:E; [|done].
  exists s1, s2. split_and!; try done. apply replays_snoc. eauto.
Qed.
End replays.

Lemma fold_m_inv {S A} (P : S → Prop) (f : S → A → result S) l s s' :
  P s → (∀ s1 x s2, x ∈ l → P s1 → f s1 x = Ok s2 → P s2) →
  fold_m f s l = Ok s' → P s'.
Proof.
  revert s. induction l as [|x l IH]; intros s Hs Hf; simpl; [congruence|].
  destruct (f s x) as [s1|] eqn:E; [|done]. intros H.
  eapply (IH s1); [|intros; eapply Hf; eauto using list_elem_of_further|done].
  eapply Hf; eauto using list_elem_of_here.
Qed.

(** * Machine integers *)

Definition u32_max : Z := 4294967295.
Definition u64_max : Z := 18446744073709551615.
Definition i64_max : Z := 9223372036854775807.
(** [usize] of the 64-bit targets the program is released for. *)
Definition usize_max : Z := u64_max.

Definition checked_add (max a b : Z) : option Z :=
  if (a + b <=? max)%Z then Some (a + b)%Z else None.
Definition checked_sub (a b : Z) : option Z :=
  if (b <=? a)%Z then Some (a - b)%Z else None.
Definition saturating_sub (a b : Z) : Z := Z.max 0 (a - b).

Lemma checked_add_Some max a b c :
  checked_add max a b = Some c ↔ (c = a + b ∧ a + b ≤ max)%Z.
Proof. unfold checked_add. destruct (Z.leb_spec (a + b) max); split; [intros [= <-]; lia|intros [-> ?]; done|done|lia]. Qed.

Lemma checked_sub_Some a b c : checked_sub a b = Some c ↔ (c = a - b ∧ b ≤ a)%Z.
Proof. unfold checked_sub. destruct (Z.leb_spec b a); split; [intros [= <-]; lia|intros [-> ?]; done|done|lia]. Qed.

(** [Vec::len] and the other collection lengths. *)
Definition len {A} (l : list A) : Z := Z.of_nat (length l).

(** [Vec::last]. *)
Abbreviation vec_last := stdpp.list_basics.list.last.

(** [(lo..=hi).contains(&x)]. *)
Definition in_range (lo hi x : Z) : bool := (lo <=? x)%Z && (x <=? hi)%Z.

(** * Ordered maps and sets

    [BTreeMap<String, V>] and [BTreeSet<String>] are stdpp's finite maps and
    sets; what the code observes of the order is the iteration, which is the
    key-sorted list of the entries. *)
Definition key_le {V} (p q : str * V) : Prop := str_le p.1 q.1.
#[global] Instance key_le_dec {V} : RelDecision (@key_le V).
Proof. intros p q. unfold key_le. apply _. Defined.
#[global] Instance key_le_trans {V} : Transitive (@key_le V).
Proof. intros p q r. unfold key_le. apply transitivity. Qed.
#[global] Instance key_le_total {V} : Total (@key_le V).
Proof. intros p q. unfold key_le. apply str_le_total. Qed.

(** [map.iter()], [map.keys()] and [map.values()]. *)
Definition bt_iter {V} (m : gmap str V) : list (str * V) :=
  merge_sort key_le (map_to_list m).
Definition bt_keys {V} (m : gmap str V) : list str := (bt_iter m).*1.
Definition bt_values {V} (m : gmap str V) : list V := (bt_iter m).*2.

(** [set.iter()]. *)
Definition bs_iter (s : gset str) : list str := merge_sort str_le (elements s).

Lemma bt_iter_perm {V} (m : gmap str V) : bt_iter m ≡ₚ map_to_list m.
Proof. apply merge_sort_Permutation. Qed.

Lemma elem_of_bt_iter {V} (m : gmap str V) k v : (k, v) ∈ bt_iter m ↔ m !! k = Some v.
Proof. rewrite bt_iter_perm. apply elem_of_map_to_list. Qed.

Lemma elem_of_bt_values {V} (m : gmap str V) v : v ∈ bt_values m ↔ ∃ k, m !! k = Some v.
Proof.
  unfold bt_values. rewrite list_elem_of_fmap. split.
  - intros ([k w] & -> & H%elem_of_bt_iter). by exists k.
  - intros [k H%elem_of_bt_iter]. by exists (k, v).
Qed.

Lemma elem_of_bt_keys {V} (m : gmap str V) k : k ∈ bt_keys m ↔ is_Some (m !! k).
Proof.
  unfold bt_keys. rewrite list_elem_of_fmap. split.
  - intros ([k' w] & -> & H%elem_of_bt_iter). by exists w.
  - intros [w H%elem_of_bt_iter]. by exists (k, w).
Qed.

Lemma elem_of_bs_iter (s : gset str) x : x ∈ bs_iter s ↔ x ∈ s.
Proof. unfold bs_iter. rewrite merge_sort_Permutation. apply elem_of_elements. Qed.

Lemma NoDup_bt_keys {V} (m : gmap str V) : NoDup (bt_keys m).
Proof. unfold bt_keys. rewrite bt_iter_perm. apply NoDup_fst_map_to_list. Qed.

Lemma Sorted_bt_iter {V} (m : gmap str V) : Sorted key_le (bt_iter m).
Proof. apply Sorted_merge_sort. apply _. Qed.

Lemma length_bt_iter {V} (m : gmap str V) : length (bt_iter m) = size m.
Proof. rewrite bt_iter_perm. apply length_map_to_list. Qed.

(** ** Sums over a map, independent of the order *)

Definition sum_z {A} (f : A → Z) (l : list A) : Z := foldr (λ a n, f a + n)%Z 0%Z l.

Lemma sum_z_app {A} (f : A → Z) l l' : sum_z f (l ++ l') = (sum_z f l + sum_z f l')%Z.
Proof. induction l as [|a l IH]; simpl; [done|]. unfold sum_z in *. lia. Qed.

Lemma sum_z_nonneg {A} (f : A → Z) l : (∀ a, a ∈ l → 0 ≤ f a)%Z → (0 ≤ sum_z f l)%Z.
Proof.
  induction l as [|a l IH]; simpl; intros H; [done|].
  pose proof (H a ltac:(left)). pose proof (IH ltac:(intros; apply H; by right)). lia.
Qed.

#[global] Instance sum_z_perm {A} (f : A → Z) : Proper (Permutation ==> eq) (sum_z f).
Proof. intros l l' H. induction H; unfold sum_z in *; simpl; lia. Qed.

Lemma sum_z_bt_insert {V} (f : str * V → Z) (m : gmap str V) k v w :
  m !! k = Some v →
  sum_z f (bt_iter (<[k:=w]> m)) = (sum_z f (bt_iter m) - f (k, v) + f (k, w))%Z.
Proof.
  intros Hk. rewrite !bt_iter_perm.
  rewrite <-(insert_delete_eq m k w).
  rewrite map_to_list_insert by apply lookup_delete_eq.
  rewrite <-(insert_id m k v Hk) at 2. rewrite <-(insert_delete_eq m k v).
  rewrite map_to_list_insert by apply lookup_delete_eq.
  simpl. unfold sum_z. simpl. lia.
Qed.

(** [fold_m] with checked additions computes the sum, when it fits. *)
Lemma fold_m_sum {A} (g : A → result Z) (f : A → Z) (max : Z) (e : HarnessError) l s :
  (∀ a, a ∈ l → g a = Ok (f a) ∧ 0 ≤ f a)%Z →
  (s + sum_z f l ≤ max)%Z →
  fold_m (λ t a, g a ≫= λ n, ok_or (checked_add max t n) e) s l = Ok (s + sum_z f l)%Z.
Proof.
  revert s. induction l as [|a l IH]; intros s Hg Hs; simpl; [f_equal; unfold sum_z; simpl; lia|].
  destruct (Hg a ltac:(left)) as [-> Ha]. simpl.
  assert (0 ≤ sum_z f l)%Z by (apply sum_z_nonneg; intros; by apply Hg; right).
  unfold sum_z in *. simpl in *.
  unfold checked_add. rewrite (proj2 (Z.leb_le _ _)) by lia. simpl.
  rewrite IH; [f_equal; lia|intros; apply Hg; by right|lia].
Qed.

(** Conversely, a successful loop computed the sum. *)
Lemma fold_m_sum_inv {A} (g : A → result Z) (max : Z) (e : HarnessError) l s t :
  fold_m (λ t a, g a ≫= λ n, ok_or (checked_add max t n) e) s l = Ok t →
  (∀ a, a ∈ l → ∃ n, g a = Ok n) ∧
  t = (s + sum_z (λ a, match g a with Ok n => n | Err _ => 0 end) l)%Z.
Proof.
  revert s. induction l as [|a l IH]; intros s; simpl.
  - intros [= ->]. split; [intros a Ha; inversion Ha|unfold sum_z; simpl; lia].
  - destruct (g a) as [n|] eqn:E; simpl; [|done].
    destruct (checked_add max s n) as [u|] eqn:C; simpl; [|done].
    apply checked_add_Some in C as [-> _]. intros [H1 H2]%IH. split.
    + intros b [->|Hb]%elem_of_cons; eauto.
    + unfold sum_z in *. simpl. rewrite ?E. lia.
Qed.

Lemma filter_sublist {A} (p : A → bool) (l : list A) : List.filter p l `sublist_of` l.
Proof.
  induction l as [|a l IH]; simpl; [done|].
  destruct (p a); [by apply sublist_skip|by apply sublist_cons].
Qed.

Lemma filter_all {A} (f : A → bool) l : (∀ x, x ∈ l → f x = true) → List.filter f l = l.
Proof.
  induction l as [|x l IH]; intros H; simpl; [done|].
  rewrite H by constructor. f_equal. apply IH. intros y Hy. apply H. by constructor.
Qed.

Lemma filter_none {A} (f : A → bool) l : (∀ x, x ∈ l → f x = false) → List.filter f l = [].
Proof.
  induction l as [|x l IH]; intros H; simpl; [done|].
  rewrite H by constructor. apply IH. intros y Hy. apply H. by constructor.
Qed.

Lemma filter_filter_and {A} (f f' : A → bool) l :
  List.filter f (List.filter f' l) = List.filter (λ x, f x && f' x) l.
Proof.
  induction l as [|x l IH]; simpl; [done|].
  destruct (f' x) eqn:E; simpl; rewrite IH; [by rewrite andb_true_r|by rewrite andb_false_r].
Qed.

Lemma elem_of_take_sub {A} n (l : list A) x : x ∈ take n l → x ∈ l.
Proof. intros Hx. rewrite <-(take_drop n l). apply elem_of_app. by left. Qed.

Lemma StronglySorted_filter {A} (R : relation A) (f : A → bool) l :
  StronglySorted R l → StronglySorted R (List.filter f l).
Proof.
  induction 1 as [|x l Hl IH Hx]; simpl; [constructor|].
  destruct (f x); [|done]. constructor; [done|]. rewrite Forall_forall in *.
  intros y [Hy _]%list_elem_of_In%filter_In. by apply Hx, list_elem_of_In.
Qed.

Lemma vec_last_Some_snoc {A} (l : list A) x : vec_last l = Some x → ∃ l', l = l' ++ [x].
Proof.
  destruct l as [|y l] using rev_ind; [done|]. unfold vec_last. rewrite last_snoc.
  intros [= ->]. by eexists.
Qed.

Lemma forallb_false {A} (p : A → bool) (l : list A) :
  forallb p l = false → ∃ a, a ∈ l ∧ p a = false.
Proof.
  induction l as [|a l IH]; simpl; [done|]. destruct (p a) eqn:E; simpl.
  - intros (b & ? & ?)%IH. exists b. split; [by right|done].
  - intros _. exists a. split; [by left|done].
Qed.

Lemma elem_of_snoc_ex {A} (P : A → Prop) (l : list A) x :
  (∃ y, y ∈ l ++ [x] ∧ P y) ↔ (∃ y, y ∈ l ∧ P y) ∨ P x.
Proof.
  setoid_rewrite elem_of_app. setoid_rewrite list_elem_of_singleton. naive_solver.
Qed.

Lemma existsb_iff {A} (f : A → bool) l : existsb f l = true ↔ ∃ x, x ∈ l ∧ f x = true.
Proof.
  rewrite existsb_exists. setoid_rewrite list_elem_of_In. done.
Qed.

(** In a list without repeated keys, [find] by key returns the element. *)
Lemma find_unique {A} (key : A → str) l (t : A) id :
  NoDup (key <$> l) → t ∈ l → key t = id →
  List.find (λ t0, bool_decide (key t0 = id)) l = Some t.
Proof.
  intros Hnd Ht <-. induction l as [|x l IH]; [by apply elem_of_nil in Ht|].
  apply NoDup_cons in Hnd as [Hx Hnd]. simpl. apply elem_of_cons in Ht as [->|Ht].
  - by rewrite bool_decide_eq_true_2.
  - rewrite bool_decide_eq_false_2; [by apply IH|]. intros E. apply Hx.
    apply list_elem_of_fmap. eauto.
Qed.

(** [collect::<Result<Vec<_>, _>>] of a fallible mapper. *)
Definition collect {A B} (f : A → result B) (l : list A) : result (list B) :=
  fold_m (λ acc x, y ← f x; Ok (acc ++ [y])) [] l.

(** A loop that maps a fallible function over a list. *)
Lemma fold_m_collect {A B} (f : A → result B) l : ∀ acc r,
  fold_m (λ acc x, y ← f x; Ok (acc ++ [y])) acc l = Ok r →
  ∃ r', r = acc ++ r' ∧ Forall2 (λ x y, f x = Ok y) l r'.
Proof.
  induction l as [|x l IH]; intros acc r Hf; simpl in Hf.
  - injection Hf as <-. exists []. rewrite app_nil_r. by split.
  - destruct (f x) as [y|] eqn:E; [|done]. simpl in Hf. apply IH in Hf as (r' & -> & Hr).
    exists (y :: r'). rewrite <-app_assoc. split; [done|]. by constructor.
Qed.

Lemma collect_ok {A B} (f : A → result B) l r : collect f l = Ok r → Forall2 (λ x y, f x = Ok y) l r.
Proof. by intros (r' & -> & Hr)%fold_m_collect. Qed.

(** A call that succeeds with a value satisfying [f]. *)
Definition succeeds {S A} (f : A → bool) (p : S * result A) : bool :=
  match p.2 with Ok a => f a | Err _ => false end.

Lemma succeeds_with {S A} (f : A → bool) (p : S * result A) :
  succeeds f p = true → ∃ a, p = (p.1, Ok a) ∧ f a = true.
Proof. destruct p as [s [a|e]]; [by exists a|discriminate]. Qed.

(** * Automation *)

Create HintDb harness.

(** Invert a successful computation: every [?] succeeded, every guard was
    false, every lookup found something. *)
Ltac inv_ok :=
  repeat match goal with
  | H : Ok _ = Ok _ |- _ => injection H as H
  | H : Err _ = Ok _ |- _ => discriminate H
  | H : Ok _ = Err _ |- _ => discriminate H
  | H : (_, _) = (_, _) |- _ => injection H as ?H ?H
  | H : (?r ≫= ?f) = Ok _ |- _ =>
      let a := fresh "a" in let H1 := fresh "H" in
      apply bind_ok in H as (a & H1 & H); cbv beta in H
  | H : reject_if _ _ = Ok _ |- _ => apply reject_if_ok in H
  | H : ok_or _ _ = Ok _ |- _ => apply ok_or_ok in H
  | H : map_err _ _ = Ok _ |- _ => apply map_err_ok in H
  | u : () |- _ => destruct u
  end.

(** Split a conjunction of boolean tests in the hypotheses. *)
Ltac bool_hyps :=
  repeat match goal with
  | H : _ && _ = true |- _ => apply andb_true_iff in H as [?H ?H]
  | H : _ || _ = false |- _ => apply orb_false_iff in H as [?H ?H]
  | H : negb _ = true |- _ => apply negb_true_iff in H
  | H : negb _ = false |- _ => apply negb_false_iff in H
  | H : (_ <=? _)%Z = true |- _ => apply Z.leb_le in H
  | H : (_ <=? _)%Z = false |- _ => apply Z.leb_gt in H
  | H : (_ <? _)%Z = true |- _ => apply Z.ltb_lt in H
  | H : (_ <? _)%Z = false |- _ => apply Z.ltb_ge in H
  | H : (_ =? _)%Z = true |- _ => apply Z.eqb_eq in H
  | H : (_ =? _)%Z = false |- _ => apply Z.eqb_neq in H
  | H : bool_decide _ = true |- _ => apply bool_decide_eq_true in H
  | H : bool_decide _ = false |- _ => apply bool_decide_eq_false in H
  end.

Lemma lift_eq {S A} (r : result A) (s s' : S) r' : lift r s = (s', r') ↔ s' = s ∧ r = r'.
Proof. unfold lift. split; [intros [= -> ->]; done|intros [-> ->]; done]. Qed.
Lemma get_eq {S} (s s' : S) r : get s = (s', r) ↔ s' = s ∧ r = Ok s.
Proof. unfold get. split; [intros [= <- <-]; done|intros [-> ->]; done]. Qed.
Lemma put_eq {S} (s s' t : S) r : put t s = (s', r) ↔ s' = t ∧ r = Ok ().
Proof. unfold put. split; [intros [= <- <-]; done|intros [-> ->]; done]. Qed.
Lemma modify_eq {S} (f : S → S) s s1 r : modify f s = (s1, r) ↔ s1 = f s ∧ r = Ok ().
Proof. unfold modify. split; [by intros [= <- <-]|by intros [-> ->]]. Qed.
Lemma mret_eq {S A} (a : A) (s s' : S) r : (mret a : M S A) s = (s', r) ↔ s' = s ∧ r = Ok a.
Proof. unfold mret, M_ret. split; [intros [= <- <-]; done|intros [-> ->]; done]. Qed.

(** Invert a successful stateful computation. *)
Ltac inv_M :=
  repeat match goal with
  | H : (_ ≫= _) _ = (_, Ok _) |- _ =>
      let s := fresh "s" in let a := fresh "a" in let H1 := fresh "H" in
      apply M_bind_ok in H as (s & a & H1 & H); cbv beta in H
  | H : lift _ _ = (_, _) |- _ => apply lift_eq in H as [? H]; subst
  | H : get _ = (_, Ok _) |- _ => apply get_eq in H as [? H]; injection H as ?; subst
  | H : put _ _ = (_, Ok _) |- _ => apply put_eq in H as [? H]; subst
  | H : modify _ _ = (_, Ok _) |- _ => apply modify_eq in H as [? H]; subst
  | H : mret _ _ = (_, Ok _) |- _ => apply mret_eq in H as [? H]; injection H as ?; subst
  end.

(** Walk a stateful computation that failed: every step before the failing
    one only read the state. *)
Ltac inv_M_err :=
  repeat match goal with
  | H : (_ ≫= _) _ = (_, Err _) |- _ =>
      let s := fresh "s" in let a := fresh "a" in let H1 := fresh "H" in
      apply M_bind_err in H as [H|(s & a & H1 & H)]; [|cbv beta in H]
  | H : lift _ _ = (_, _) |- _ => apply lift_eq in H as [? H]; subst
  | H : get _ = (_, Ok _) |- _ => apply get_eq in H as [? H]; injection H as ?; subst
  | H : get _ = (_, Err _) |- _ => apply get_eq in H as [? H]; discriminate H
  | H : put _ _ = (_, Err _) |- _ => apply put_eq in H as [? H]; discriminate H
  | H : modify _ _ = (_, Err _) |- _ => apply modify_eq in H as [? H]; discriminate H
  | H : mret _ _ = (_, Err _) |- _ => apply mret_eq in H as [? H]; discriminate H
  end.
