(* ===== verification/Ordering.v ===== *)
(** Total comparisons, and lists sorted by a key: what the paging queries of
    the coordinators ([sort_by], [ORDER BY]) share. *)

From Stdlib Require Import ZArith Lia.
From stdpp Require Import sorting base tactics list gmap relations numbers strings option.
From stdpp Require Import list.
From S2P Require Import Prelude.

(** * Total comparisons *)

Class TotalCmp {K} (cmp : K → K → comparison) : Prop := {
  cmp_eq a b : cmp a b = Eq ↔ a = b;
  cmp_flip a b : cmp b a = CompOpp (cmp a b);
  cmp_trans a b c : cmp a b = Lt → cmp b c = Lt → cmp a c = Lt;
}.

#[global] Instance Z_total_cmp : TotalCmp Z.compare.
Proof.
  split; intros *; [apply Z.compare_eq_iff|apply Z.compare_antisym|rewrite !Z.compare_lt_iff; lia].
Qed.

Lemma str_cmp_lt a b : str_cmp a b = Lt ↔ str_leb b a = false.
Proof.
  unfold str_cmp. destruct (decide (a = b)) as [->|Hn].
  - rewrite bool_decide_eq_true_2, str_leb_refl by done. done.
  - rewrite bool_decide_eq_false_2 by done. destruct (str_leb a b) eqn:E.
    + by rewrite (str_leb_strict a b).
    + split; [done|]. intros H. destruct (str_leb_total a b); congruence.
Qed.

#[global] Instance str_total_cmp : TotalCmp str_cmp.
Proof.
  split.
  - intros a b. unfold str_cmp. destruct (decide (a = b)) as [->|Hn].
    + by rewrite bool_decide_eq_true_2.
    + rewrite bool_decide_eq_false_2 by done. by destruct (str_leb a b).
  - intros a b. unfold str_cmp. destruct (decide (a = b)) as [->|Hn].
    + by rewrite !bool_decide_eq_true_2.
    + rewrite !bool_decide_eq_false_2 by congruence. destruct (str_leb a b) eqn:E.
      * by rewrite (str_leb_strict a b).
      * destruct (str_leb_total a b) as [?|H]; [congruence|]. by rewrite H.
  - intros a b c. rewrite !str_cmp_lt. intros H1 H2. apply not_true_is_false. intros H3.
    assert (str_leb a b = true) by (destruct (str_leb_total a b); congruence).
    assert (str_leb c b = true) by (by eapply str_leb_trans). congruence.
Qed.

#[global] Instance str_lt_trans : Transitive str_lt.
Proof.
  intros a b c H1 H2. apply str_cmp_lt in H1, H2. apply str_cmp_lt. by eapply cmp_trans.
Qed.

(** Lexicographic comparison by two projections. *)
Lemma then_total_cmp {K A B} (f : K → A) (g : K → B) (c : A → A → comparison)
    (d : B → B → comparison) `{!TotalCmp c, !TotalCmp d} :
  (∀ x y, f x = f y → g x = g y → x = y) →
  TotalCmp (λ x y, then_with (c (f x) (f y)) (d (g x) (g y))).
Proof.
  intros Hinj. assert (∀ a b, c a b = Eq → a = b) as Hc by (intros; by apply cmp_eq).
  split.
  - intros x y. split.
    + intros H. destruct (c (f x) (f y)) eqn:E; try done. simpl in H.
      apply Hinj; [by apply Hc|by apply (cmp_eq (cmp := d))].
    + intros ->. rewrite (proj2 (cmp_eq (f y) (f y)) eq_refl). simpl. by apply (cmp_eq (cmp := d)).
  - intros x y. rewrite (cmp_flip (f x) (f y)), (cmp_flip (g x) (g y)).
    destruct (c (f x) (f y)); simpl; [|done..]. by destruct (d (g x) (g y)).
  - intros x y z Hxy Hyz.
    destruct (c (f x) (f y)) eqn:E1; [|destruct (c (f y) (f z)) eqn:E2|]; try done; simpl in *.
    + apply Hc in E1. rewrite E1. destruct (c (f y) (f z)); [|done..]. simpl in *. by eapply cmp_trans.
    + apply Hc in E2. by rewrite <-E2, E1.
    + by rewrite (cmp_trans _ _ _ E1 E2).
Qed.

(** * Sorting by a key *)

Section sort.
Context {K : Type} (cmp : K → K → comparison) `{!TotalCmp cmp}.

(** Not after, and strictly before, by the key. *)
Definition key_not_after {A} (key : A → K) (x y : A) : Prop := cmp (key x) (key y) ≠ Gt.
Definition key_before {A} (key : A → K) (x y : A) : Prop := cmp (key x) (key y) = Lt.
#[global] Instance key_not_after_dec {A} (key : A → K) : RelDecision (key_not_after key).
Proof. intros x y. unfold key_not_after. apply _. Defined.

Definition key_sort {A} (key : A → K) : list A → list A := merge_sort (key_not_after key).

Lemma cmp_refl a : cmp a a = Eq.
Proof. by apply cmp_eq. Qed.

Lemma cmp_gt a b : cmp a b = Gt ↔ cmp b a = Lt.
Proof. rewrite (cmp_flip (cmp:=cmp) a b). by destruct (cmp a b). Qed.

#[global] Instance key_not_after_total {A} (key : A → K) : Total (key_not_after key).
Proof.
  intros x y. unfold key_not_after. rewrite (cmp_flip (cmp:=cmp) (key x) (key y)).
  destruct (cmp (key x) (key y)); [left|left|right]; done.
Qed.

#[global] Instance key_not_after_trans {A} (key : A → K) : Transitive (key_not_after key).
Proof.
  intros x y z. unfold key_not_after. rewrite !cmp_gt. intros H1 H2 H3.
  destruct (cmp (key x) (key y)) eqn:E.
  - apply cmp_eq in E. by rewrite <-E in H2.
  - apply H2. by eapply cmp_trans.
  - apply H1. by apply cmp_gt.
Qed.

Lemma key_not_after_antisym {A} (key : A → K) x y :
  key_not_after key x y → key_not_after key y x → key x = key y.
Proof.
  unfold key_not_after. rewrite (cmp_flip (cmp:=cmp) (key x) (key y)).
  destruct (cmp (key x) (key y)) eqn:E; [by apply cmp_eq in E|done..].
Qed.

Section one.
Context {A : Type} (key : A → K).
Implicit Types l : list A.

Lemma key_sort_perm l : key_sort key l ≡ₚ l.
Proof. apply merge_sort_Permutation. Qed.

Lemma key_sort_sorted l : StronglySorted (key_not_after key) (key_sort key l).
Proof. apply Sorted_StronglySorted; [apply _|]. apply Sorted_merge_sort. apply _. Qed.

(** With distinct keys there is one sorted arrangement. *)
Lemma key_sorted_unique l l' :
  StronglySorted (key_not_after key) l → StronglySorted (key_not_after key) l' →
  NoDup (key <$> l) → l ≡ₚ l' → l = l'.
Proof.
  intros H1 H2 Hnd Hp. eapply (StronglySorted_unique_strong (key_not_after key)); [|exact H1|exact H2|exact Hp].
  intros x y Hx Hy Hle Hle'. pose proof (key_not_after_antisym _ _ _ Hle Hle') as E.
  rewrite <-Hp in Hy. apply list_elem_of_lookup in Hx as [i Hi], Hy as [j Hj].
  assert (i = j) as <-; [|congruence].
  eapply NoDup_lookup; [exact Hnd|rewrite list_lookup_fmap, Hi; done|].
  rewrite list_lookup_fmap, Hj. simpl. by rewrite E.
Qed.

Lemma key_sorted_strict l :
  StronglySorted (key_not_after key) l → NoDup (key <$> l) → StronglySorted (key_before key) l.
Proof.
  induction 1 as [|x l Hl IH Hx]; intros Hnd; [constructor|].
  apply NoDup_cons in Hnd as [Hn Hnd]. constructor; [by apply IH|].
  rewrite Forall_forall in *. intros y Hy. specialize (Hx y Hy). unfold key_not_after in Hx.
  unfold key_before. destruct (cmp (key x) (key y)) eqn:E; [|done..].
  exfalso. apply Hn. apply cmp_eq in E. apply list_elem_of_fmap. eauto.
Qed.

(** Sorting one more element inserts it where it belongs. *)
Lemma key_sort_insert l1 l2 x :
  StronglySorted (key_not_after key) (l1 ++ l2) → NoDup (key <$> x :: l1 ++ l2) →
  (∀ y, y ∈ l1 → key_before key y x) → (∀ y, y ∈ l2 → key_before key x y) →
  key_sort key (x :: l1 ++ l2) = l1 ++ x :: l2.
Proof.
  intros Hs Hnd H1 H2. apply key_sorted_unique.
  - apply key_sort_sorted.
  - apply StronglySorted_app in Hs as (H12 & Hs1 & Hs2). apply StronglySorted_app. split_and!.
    + intros a b Ha [->|Hb]%elem_of_cons; [|by apply H12].
      unfold key_not_after. by rewrite (H1 a Ha).
    + done.
    + constructor; [done|]. apply Forall_forall. intros b Hb. unfold key_not_after. by rewrite (H2 b Hb).
  - by rewrite key_sort_perm.
  - rewrite key_sort_perm. apply Permutation_middle.
Qed.

(** A sorted list splits at a key it does not have. *)
Lemma key_sorted_split l x :
  StronglySorted (key_not_after key) l → key x ∉ key <$> l →
  ∃ l1 l2, l = l1 ++ l2 ∧ (∀ y, y ∈ l1 → key_before key y x) ∧ (∀ y, y ∈ l2 → key_before key x y).
Proof.
  induction 1 as [|y l Hl IH Hy]; intros Hn.
  { exists [], []. split_and!; [done|by intros ? ?%elem_of_nil..]. }
  rewrite fmap_cons, not_elem_of_cons in Hn. destruct Hn as [Hne Hn].
  destruct (cmp (key y) (key x)) eqn:E.
  - apply cmp_eq in E. congruence.
  - destruct (IH Hn) as (l1 & l2 & -> & H1 & H2). exists (y :: l1), l2. split_and!; [done| |done].
    intros z [->|Hz]%elem_of_cons; [done|by apply H1].
  - exists [], (y :: l). split_and!; [done|by intros ? ?%elem_of_nil|].
    apply cmp_gt in E. intros z [->|Hz]%elem_of_cons; [done|].
    rewrite Forall_forall in Hy. specialize (Hy z Hz). unfold key_not_after in Hy. unfold key_before.
    destruct (cmp (key y) (key z)) eqn:E2; [|by eapply cmp_trans|done].
    apply cmp_eq in E2. by rewrite <-E2.
Qed.
End one.

(** ** Translations that keep the keys *)

Section translate.
Context {A B : Type} (f : A → K) (g : B → K) (P : A → B → Prop).
Context (HP : ∀ x y, P x y → f x = g y).

Lemma key_sorted_Forall2 l k :
  StronglySorted (key_not_after f) l → Forall2 P l k → StronglySorted (key_not_after g) k.
Proof using HP.
  intros Hs. revert k. induction Hs as [|x l Hs IH Hx]; intros k HF; inversion HF as [|? y ? k2 Hxy HF2];
    subst; constructor; [by apply IH|].
  eapply Forall2_Forall_r; [exact HF2|]. eapply Forall_impl; [exact Hx|]. intros x' Hle y' Hxy'.
  unfold key_not_after in *. by rewrite <-(HP _ _ Hxy), <-(HP _ _ Hxy').
Qed.

Lemma key_sort_Forall2 l k :
  NoDup (g <$> k) → Forall2 P l k → Forall2 P (key_sort f l) (key_sort g k).
Proof using HP TotalCmp0.
  intros Hnd HF.
  destruct (Permutation_Forall2 (symmetry (key_sort_perm f l)) HF) as (k' & Hk & HF').
  assert (k' = key_sort g k) as <-; [|done]. apply (key_sorted_unique g).
  - eapply key_sorted_Forall2, HF'. apply key_sort_sorted.
  - apply key_sort_sorted.
  - by rewrite <-Hk.
  - by rewrite <-Hk, key_sort_perm.
Qed.
End translate.
End sort.

(** * Lists of map values *)

Lemma filter_perm {A} (f : A → bool) (l l' : list A) :
  l ≡ₚ l' → List.filter f l ≡ₚ List.filter f l'.
Proof.
  induction 1 as [|x l l' _ IH|x y l|l1 l2 l3 _ IH1 _ IH2]; simpl; [done|..].
  - destruct (f x); [by constructor|done].
  - destruct (f x), (f y); try done. constructor.
  - by rewrite IH1.
Qed.

Lemma filter_snd {A B} (f : B → bool) (l : list (A * B)) :
  List.filter f l.*2 = (List.filter (λ p, f p.2) l).*2.
Proof.
  induction l as [|[a b] l IH]; [done|]. unfold fmap in *. simpl. rewrite IH. by destruct (f b).
Qed.

Lemma filter_Forall2 {A B} (P : A → B → Prop) (f : A → bool) (g : B → bool) l k :
  (∀ x y, P x y → f x = g y) → Forall2 P l k → Forall2 P (List.filter f l) (List.filter g k).
Proof.
  intros Hfg. induction 1 as [|x y l k Hxy _ IH]; simpl; [constructor|].
  rewrite (Hfg x y Hxy). destruct (g y); [by constructor|done].
Qed.

Section values.
Context {V : Type}.
Implicit Types m : gmap str V.

Lemma bt_values_perm m : bt_values m ≡ₚ (map_to_list m).*2.
Proof. unfold bt_values. by rewrite bt_iter_perm. Qed.

Lemma bt_values_insert_new m k v : m !! k = None → bt_values (<[k:=v]> m) ≡ₚ v :: bt_values m.
Proof. intros Hk. by rewrite !bt_values_perm, map_to_list_insert. Qed.

Lemma bt_values_delete m k v : m !! k = Some v → bt_values m ≡ₚ v :: bt_values (delete k m).
Proof.
  intros Hk. rewrite <-(insert_delete_id m k v Hk) at 1. apply bt_values_insert_new, lookup_delete_eq.
Qed.

(** The number of values that satisfy a predicate. *)
Definition count_values (f : V → bool) m : Z := len (List.filter f (bt_values m)).

Lemma count_values_insert_new f m k v :
  m !! k = None → count_values f (<[k:=v]> m) = (count_values f m + if f v then 1 else 0)%Z.
Proof.
  intros Hk. unfold count_values, len. rewrite (filter_perm _ _ _ (bt_values_insert_new m k v Hk)).
  simpl. destruct (f v); simpl; lia.
Qed.

Lemma count_values_insert f m k v w :
  m !! k = Some v → f v = f w → count_values f (<[k:=w]> m) = count_values f m.
Proof.
  intros Hk Hf. unfold count_values, len. rewrite (filter_perm _ _ _ (bt_values_delete m k v Hk)).
  assert (bt_values (<[k:=w]> m) ≡ₚ w :: bt_values (delete k m)) as Hp.
  { rewrite <-(insert_delete_eq m k w). apply bt_values_insert_new, lookup_delete_eq. }
  rewrite (filter_perm _ _ _ Hp). simpl. by rewrite Hf; destruct (f w).
Qed.

Lemma count_values_nonneg f m : (0 ≤ count_values f m)%Z.
Proof. unfold count_values, len. lia. Qed.
End values.

Lemma bt_iter_sorted {V} (m : gmap str V) : StronglySorted key_le (bt_iter m).
Proof. apply Sorted_StronglySorted; [apply _|apply Sorted_bt_iter]. Qed.

(** Iterating over a map whose values are all translated. *)
Lemma bt_iter_imap {V W} (f : str → V → option W) (m : gmap str V) :
  (∀ k v, m !! k = Some v → is_Some (f k v)) →
  Forall2 (λ p q, p.1 = q.1 ∧ f p.1 p.2 = Some q.2) (bt_iter m) (bt_iter (map_imap f m)).
Proof.
  intros Hf. assert (∀ p, p ∈ bt_iter m → is_Some (f p.1 p.2)) as Hall
    by (intros [k v] H%elem_of_bt_iter; by eapply Hf).
  assert (∃ k, Forall2 (λ p q, p.1 = q.1 ∧ f p.1 p.2 = Some q.2) (bt_iter m) k) as [k Hk].
  { clear Hf. induction (bt_iter m) as [|p l IH]; [by exists []|].
    destruct (Hall p ltac:(left)) as [w Hw]. destruct IH as [k Hk]; [intros; apply Hall; by right|].
    exists ((p.1, w) :: k). by constructor. }
  assert (k = bt_iter (map_imap f m)) as <-; [|done].
  assert (Forall2 (λ (p : str * V) (q : str * W), p.1 = q.1) (bt_iter m) k) as Hk1
    by (eapply Forall2_impl; [exact Hk|by intros ? ? []]).
  assert (k.*1 = (bt_iter m).*1) as Hkeys.
  { clear -Hk1. induction Hk1 as [|p q l k Hpq _ IH]; [done|]. unfold fmap in *. simpl. by rewrite Hpq, IH. }
  eapply (StronglySorted_unique_strong key_le).
  - intros [a u] [b w] H1 H2 Hle Hle'. unfold key_le in *. simpl in *.
    assert (a = b) as -> by (by apply str_le_antisymm).
    apply list_elem_of_lookup in H1 as [i Hi]. destruct (Forall2_lookup_r _ _ _ _ _ Hk Hi) as ([? v] & Hl & Hq & Hfv).
    simpl in *. subst. apply list_elem_of_lookup_2, elem_of_bt_iter in Hl.
    apply elem_of_bt_iter in H2. rewrite map_lookup_imap, Hl in H2. simpl in H2. congruence.
  - pose proof (bt_iter_sorted m) as Hs. clear -Hs Hk1. revert k Hk1.
    induction Hs as [|p l Hs IH Hp]; intros k HF; inversion HF as [|? q ? k2 Hpq HF2]; subst;
      constructor; [by apply IH|].
    eapply Forall2_Forall_r; [exact HF2|]. eapply Forall_impl; [exact Hp|]. intros p' Hle q' Hq'.
    unfold key_le in *. by rewrite <-Hpq, <-Hq'.
  - apply bt_iter_sorted.
  - apply NoDup_Permutation.
    + apply (NoDup_fmap_1 fst). change (NoDup k.*1). rewrite Hkeys. apply NoDup_bt_keys.
    + apply (NoDup_fmap_1 fst). apply NoDup_bt_keys.
    + intros [a w]. rewrite elem_of_bt_iter, map_lookup_imap. split.
      * intros [i Hi]%list_elem_of_lookup.
        destruct (Forall2_lookup_r _ _ _ _ _ Hk Hi) as ([? v] & Hl & Hq & Hfv). simpl in *. subst.
        apply list_elem_of_lookup_2, elem_of_bt_iter in Hl. by rewrite Hl.
      * intros (v & Hv & Hw)%bind_Some. apply elem_of_bt_iter, list_elem_of_lookup in Hv as [i Hi].
        destruct (Forall2_lookup_l _ _ _ _ _ Hk Hi) as ([b w'] & Hl & Hq & Hfv). simpl in *. subst.
        rewrite Hw in Hfv. injection Hfv as ->. by eapply list_elem_of_lookup_2.
Qed.
