(* ===== verification/Kernel.v ===== *)
(** The kernel contracts every component shares, from
    src/src/kernel/types.rs and src/src/kernel/registry.rs: identities and
    their generator, capability names, actors, authority contexts and
    execution bindings.  The JSON codec ([serde_json]) is a parameter, the
    classes [Serialize] and [Deserialize]. *)

From Stdlib Require Import ZArith Lia.
From stdpp Require Import base tactics list gmap numbers strings option.
From stdpp Require Import list.
From S2P Require Import Prelude.

(** * The JSON codec, a library the sources call

    [to_json x] is the text [serde_json::to_string] (or the bytes of
    [to_vec]) of [x], [None] when the serializer reports an error. *)
Class Serialize (T : Type) := to_json : T → option str.
Class Deserialize (T : Type) := from_json : str → option T.

(** The documented round trip of serde on a derived pair. *)
Class Codec (T : Type) `{!Serialize T, !Deserialize T} : Prop :=
  codec_roundtrip (x : T) (s : str) : to_json x = Some s → from_json s = Some x.

(** [serde_json::to_vec(x).map_err(e)?.len()]. *)
Definition json_len {T} `{Serialize T} (e : HarnessError) (x : T) : result Z :=
  s ← ok_or (to_json x) e; Ok (str_len s).

Lemma json_len_nonneg {T} `{Serialize T} e (x : T) n : json_len e x = Ok n → (0 ≤ n)%Z.
Proof. unfold json_len. intros. inv_ok. subst. apply str_len_nonneg. Qed.

(** * Identities *)

Definition hex_digit (d : N) : N := (if d <? 10 then 48 + d else 87 + d)%N.

(** Hexadecimal digits of [n], least significant first; [fuel] bounds their
    number and [N.size_nat n] of them are always enough. *)
Fixpoint hex_digits (fuel : nat) (n : N) : list N :=
  match fuel with
  | O => []
  | S fuel => if (n =? 0)%N then [] else (n mod 16)%N :: hex_digits fuel (n / 16)
  end.

(** [format!("{n:x}")]. *)
Definition hex (n : N) : str :=
  if (n =? 0)%N then lit "0" else reverse (hex_digit <$> hex_digits (N.size_nat n) n).

(** The text [next_id] builds from the clock, the process and the counter. *)
Definition next_id (prefix : str) (timestamp pid sequence : N) : str :=
  prefix ++ lit "-" ++ hex timestamp ++ lit "-" ++ hex pid ++ lit "-" ++ hex sequence.

(** The identities one process generates: [NEXT_ID] is an [AtomicU64] that
    starts at one and is incremented (wrapping) by every call; the clock may
    return anything at each call. *)
Definition generate (prefix : str) (clock : N → N) (pid : N) (call : N) : str :=
  next_id prefix (clock call) pid ((1 + call) mod 18446744073709551616).

Section ids.
Definition hex_value (ds : list N) : N := foldr (λ d v, d + 16 * v)%N 0%N ds.

Lemma hex_digits_value fuel n :
  (N.size_nat n ≤ fuel)%nat → hex_value (hex_digits fuel n) = n.
Proof.
  revert n. induction fuel as [|fuel IH]; intros n Hn; simpl.
  - destruct n as [|p]; [done|]. destruct p; simpl in Hn; lia.
  - destruct (N.eqb_spec n 0) as [->|Hne]; [done|]. simpl. rewrite IH.
    + rewrite N.add_comm. symmetry. apply N.div_mod. lia.
    + destruct n as [|p]; [done|].
      change 16%N with (2 ^ 4)%N. rewrite <-N.shiftr_div_pow2.
      destruct p as [[[[]|[]|]|[[]|[]|]|]|[[[]|[]|]|[[]|[]|]|]|]; simpl in *; lia.
Qed.

Lemma hex_digits_small fuel n d : d ∈ hex_digits fuel n → (d < 16)%N.
Proof.
  revert n. induction fuel as [|fuel IH]; intros n; simpl; [by intros ?%elem_of_nil|].
  destruct (N.eqb_spec n 0); [by intros ?%elem_of_nil|].
  intros [->|H]%elem_of_cons; [apply N.mod_lt; lia|by eapply IH].
Qed.

Lemma hex_digit_inj d e : (d < 16)%N → (e < 16)%N → hex_digit d = hex_digit e → d = e.
Proof. unfold hex_digit. destruct (N.ltb_spec d 10), (N.ltb_spec e 10); lia. Qed.

Lemma fmap_hex_digit_inj (l k : list N) :
  (∀ d, d ∈ l → d < 16)%N → (∀ d, d ∈ k → d < 16)%N →
  hex_digit <$> l = hex_digit <$> k → l = k.
Proof.
  revert k. induction l as [|d l IH]; intros [|e k] Hl Hk; simpl; try done.
  intros [= H1 H2]. f_equal.
  - apply hex_digit_inj; [apply Hl; left|apply Hk; left|done].
  - apply IH; [intros; apply Hl; by right|intros; apply Hk; by right|done].
Qed.

Lemma hex_digits_nil fuel n : (N.size_nat n ≤ fuel)%nat → hex_digits fuel n = [] → n = 0%N.
Proof. intros H E. by rewrite <-(hex_digits_value fuel n), E. Qed.

Lemma hex_digits_zero n :
  hex_digit <$> hex_digits (N.size_nat n) n = [48%N] → n = 0%N.
Proof.
  intros E. destruct (hex_digits _ n) as [|d [|? ?]] eqn:D; simpl in E; [done| |done].
  injection E as E.
  assert (d < 16)%N as Hd by (apply (hex_digits_small (N.size_nat n) n); rewrite D; left).
  assert (d = 0)%N as ->.
  { apply hex_digit_inj; [done|done|]. by rewrite E. }
  rewrite <-(hex_digits_value (N.size_nat n) n), D by done. done.
Qed.

Lemma hex_inj n k : hex n = hex k → n = k.
Proof.
  unfold hex. destruct (N.eqb_spec n 0) as [->|Hn], (N.eqb_spec k 0) as [->|Hk]; [done| | |].
  - intros E%(f_equal reverse). rewrite reverse_involutive in E. symmetry in E.
    by apply hex_digits_zero in E.
  - intros E%(f_equal reverse). rewrite reverse_involutive in E.
    by apply hex_digits_zero in E.
  - intros E%(inj reverse)%fmap_hex_digit_inj; [|apply hex_digits_small..].
    rewrite <-(hex_digits_value (N.size_nat n) n), E by done.
    by apply hex_digits_value.
Qed.

Lemma hex_no_dash n : 45%N ∉ hex n.
Proof.
  unfold hex. destruct (n =? 0)%N.
  - vm_compute. intros H. apply list_elem_of_singleton in H. done.
  - rewrite elem_of_reverse, list_elem_of_fmap. intros (d & E & Hd%hex_digits_small).
    unfold hex_digit in E. destruct (N.ltb_spec d 10); lia.
Qed.

(** What follows the last separator is determined by the text. *)
Lemma last_segment_inj (x : N) s s' t t' :
  x ∉ t → x ∉ t' → s ++ x :: t = s' ++ x :: t' → t = t'.
Proof.
  intros Ht Ht' E%(f_equal reverse). rewrite !reverse_app, !reverse_cons in E.
  rewrite <-(reverse_involutive t), <-(reverse_involutive t'). f_equal.
  apply (f_equal (λ l, l)) in E. rewrite <-!app_assoc in E.
  assert (x ∉ reverse t) as H1 by by rewrite elem_of_reverse.
  assert (x ∉ reverse t') as H2 by by rewrite elem_of_reverse.
  revert E H1 H2. generalize (reverse t) (reverse t') (reverse s) (reverse s').
  clear. intros l. induction l as [|a l IH]; intros [|b k] u v; simpl; try done.
  - intros [= <- _] _ H. exfalso. apply H. left.
  - intros [= -> _] H _. exfalso. apply H. left.
  - intros [= <- E] H1 H2. f_equal. eapply (IH k u v); [done|..].
    + intros ?. apply H1. by right.
    + intros ?. apply H2. by right.
Qed.

Lemma next_id_last prefix t pid n :
  next_id prefix t pid n = (prefix ++ 45%N :: hex t ++ 45%N :: hex pid) ++ 45%N :: hex n.
Proof. unfold next_id. change (lit "-") with [45%N]. rewrite <-!app_assoc. simpl. by rewrite <-!app_assoc. Qed.

Lemma next_id_sequence_inj prefix prefix' t t' pid pid' n n' :
  next_id prefix t pid n = next_id prefix' t' pid' n' → n = n'.
Proof.
  rewrite !next_id_last. intros E. apply hex_inj.
  eapply last_segment_inj; [apply hex_no_dash..|exact E].
Qed.

(** Generated identities never repeat within a process: two calls of
    the generator, for any kinds of identity and whatever the clock
    returned, give different texts, up to the 2^64 calls after which the
    counter wraps. *)
Theorem generated_ids_unique (prefix prefix' : str) (clock clock' : N → N) (pid i j : N)
    (Hi : (i < 18446744073709551616)%N) (Hj : (j < 18446744073709551616)%N)
    (E : generate prefix clock pid i = generate prefix' clock' pid j) : i = j.
Proof.
  unfold generate in E. apply next_id_sequence_inj in E.
  destruct (N.eq_dec (1 + i)%N 18446744073709551616%N) as [Ei|Ni],
    (N.eq_dec (1 + j)%N 18446744073709551616%N) as [Ej|Nj]; [lia| | |].
  - rewrite Ei, N.Div0.mod_same, N.mod_small in E by lia. lia.
  - rewrite Ej, N.Div0.mod_same, N.mod_small in E by lia. lia.
  - rewrite !N.mod_small in E by lia. lia.
Qed.

Lemma generated_ids_unique_witness :
  generate (lit "task") (λ _, 7%N) 42 0 ≠ generate (lit "task") (λ _, 7%N) 42 1.
Proof.
  intros E. pose proof (generated_ids_unique (lit "task") (lit "task") (λ _, 7%N) (λ _, 7%N) 42 0 1
    eq_refl eq_refl E) as H. discriminate H.
Defined.
End ids.

(** * Capability names and portable coordinates *)

(** [validate_capability_name]: 1-64 lowercase ASCII characters, digits,
    ['.'], ['_'] or ['-']. *)
Definition capability_name_valid (name : str) : bool :=
  negb (str_is_empty name) && (str_len name <=? 64)%Z &&
  forallb (λ c, is_ascii_lowercase c || is_ascii_digit c || one_of "_-." c) name.

Definition validate_capability_name (kind : string) (name : str) : result () :=
  if capability_name_valid name then Ok ()
  else Err (InvalidCapability (fmt
    "{} name {:?} must be 1-64 lowercase ASCII characters, digits, '.', '_' or '-'"
    [ALit kind; AStr name])).

(** * Capability origins *)

Definition MAX_CAPABILITY_ORIGIN_ID_BYTES : Z := 256.

Inductive CapabilityOrigin :=
| BuiltIn
| TrustedExtension (id : str)
| External (id : str).

#[global] Instance CapabilityOrigin_eq : EqDecision CapabilityOrigin.
Proof. solve_decision. Defined.

Definition validate_capability_origin (origin : CapabilityOrigin) : result () :=
  match origin with
  | BuiltIn => Ok ()
  | TrustedExtension id | External id =>
      reject_if (trim_is_empty id || (MAX_CAPABILITY_ORIGIN_ID_BYTES <? str_len id)%Z
                 || any_control id)
        (InvalidCapability (fmt "capability origin id must be 1-{} non-control bytes"
          [ANum MAX_CAPABILITY_ORIGIN_ID_BYTES]))
  end.

(** The answer of a provider, [None] when it panicked. *)
Definition capture_capability_metadata {T} (label : string) (answer : option T) : result T :=
  ok_or answer (InvalidCapability (fmt "{} provider panicked" [ALit label])).

Definition validate_portable_coordinate (kind : string) (value : str) : result () :=
  let valid := negb (str_is_empty value) && (str_len value <=? 128)%Z &&
    forallb (λ c, is_ascii_alphanumeric c || one_of "._-/:+" c) value in
  if valid then Ok ()
  else Err (InvalidConfiguration (fmt "{} must be 1-128 portable ASCII bytes" [ALit kind])).

(** [is_lower_sha256]: 64 lowercase hexadecimal characters. *)
Definition is_lower_sha256 (value : str) : bool :=
  (str_len value =? 64)%Z &&
  forallb (λ c, is_ascii_digit c || ((97 <=? c)%N && (c <=? 102)%N)) value.

Lemma validate_capability_name_ok kind name u :
  validate_capability_name kind name = Ok u ↔ capability_name_valid name = true.
Proof. unfold validate_capability_name. destruct u, (capability_name_valid name); split; congruence. Qed.

(** * Actors and authority *)

Inductive ActorIdentity :=
| LocalProcess
| Authenticated (authority subject : str)
| UnattributedLegacy.

#[global] Instance ActorIdentity_eq : EqDecision ActorIdentity.
Proof. solve_decision. Defined.

Definition validate_actor_identity (kind field : string) (value : str) : message + () :=
  if trim_is_empty value || (256 <? str_len value)%Z || any_control value
  then inl (fmt "{} {} must be 1-256 non-control bytes" [ALit kind; ALit field])
  else inr ().

Definition validate_shape_message (a : ActorIdentity) (kind : string) : message + () :=
  match a with
  | LocalProcess | UnattributedLegacy => inr ()
  | Authenticated authority subject =>
      match validate_actor_identity kind "authority" authority with
      | inl m => inl m
      | inr _ => validate_actor_identity kind "subject" subject
      end
  end.

Definition validate_current_message (a : ActorIdentity) (kind : string) : message + () :=
  match validate_shape_message a kind with
  | inl m => inl m
  | inr _ =>
      match a with
      | UnattributedLegacy =>
          inl (fmt "{} cannot use the legacy unattributed identity" [ALit kind])
      | _ => inr ()
      end
  end.

(** [map_err(HarnessError::Approval)]. *)
Definition map_err_approval (r : message + ()) : result () :=
  match r with inl m => Err (Approval m) | inr u => Ok u end.

Definition actor_validate_shape (a : ActorIdentity) (kind : string) : result () :=
  map_err_approval (validate_shape_message a kind).
Definition actor_validate_current (a : ActorIdentity) (kind : string) : result () :=
  map_err_approval (validate_current_message a kind).

Record AuthorityContext := {
  actor : ActorIdentity;
  tenant_id : option str;
}.

Definition local_process : AuthorityContext :=
  {| actor := LocalProcess; tenant_id := None |}.

Definition validate_tenant_id (value : str) : result () :=
  if str_is_empty value || (128 <? str_len value)%Z ||
     negb (forallb (λ c, is_ascii_alphanumeric c || one_of "._-:" c) value)
  then Err (InvalidConfiguration (fmt
    "tenant identity must be 1-128 case-sensitive ASCII letters, digits, '.', '_', '-' or ':'"
    []))
  else Ok ().

(** [AuthorityContext::validate_current]. *)
Definition authority_validate_current (a : AuthorityContext) (kind : string) : result () :=
  _ ← actor_validate_current (actor a) kind;
  match tenant_id a with
  | Some t => validate_tenant_id t
  | None => Ok ()
  end.

Definition AuthorityContext_new (a : ActorIdentity) (t : option str) : result AuthorityContext :=
  let context := {| actor := a; tenant_id := t |} in
  _ ← authority_validate_current context "authority context";
  Ok context.

(** * Execution bindings *)

Record ExecutionBinding := {
  eb_issuer : str;
  eb_name : str;
  eb_version : str;
  eb_configuration_sha256 : str;
  eb_environment_sha256 : str;
  eb_revision : Z;
  eb_tenant_id : option str;
}.

#[global] Instance ExecutionBinding_eq : EqDecision ExecutionBinding.
Proof. solve_decision. Defined.

Definition binding_validate `{Serialize ExecutionBinding} (b : ExecutionBinding) : result () :=
  _ ← validate_capability_name "execution binding issuer" (eb_issuer b);
  _ ← validate_portable_coordinate "execution binding name" (eb_name b);
  _ ← validate_portable_coordinate "execution binding version" (eb_version b);
  _ ← reject_if (negb (is_lower_sha256 (eb_configuration_sha256 b))
                 || negb (is_lower_sha256 (eb_environment_sha256 b))
                 || (eb_revision b =? 0)%Z)
        (InvalidConfiguration (fmt
          "execution binding requires two lowercase SHA-256 digests and a non-zero revision" []));
  _ ← AuthorityContext_new LocalProcess (eb_tenant_id b);
  n ← json_len (InvalidConfiguration (fmt "execution binding cannot be encoded" [])) b;
  reject_if (2048 <? n)%Z (InvalidConfiguration (fmt "execution binding exceeds 2048 bytes" [])).

(** The tenant key of the stores, and back. *)
Definition tenant_storage_key (t : option str) : str := default [] t.

Definition tenant_from_storage_key (value : str) : result (option str) :=
  if str_is_empty value then Ok None
  else _ ← validate_tenant_id value; Ok (Some value).

Lemma validate_tenant_id_nonempty t u : validate_tenant_id t = Ok u → t ≠ [].
Proof. unfold validate_tenant_id. by destruct t. Qed.

Lemma authority_tenant_valid a kind u t :
  authority_validate_current a kind = Ok u → tenant_id a = Some t →
  validate_tenant_id t = Ok ().
Proof.
  unfold authority_validate_current. intros H E. rewrite E in H. inv_ok. done.
Qed.

(** A validated tenant survives the storage key. *)
Lemma tenant_key_roundtrip a kind u :
  authority_validate_current a kind = Ok u →
  tenant_from_storage_key (tenant_storage_key (tenant_id a)) = Ok (tenant_id a).
Proof.
  intros H. destruct (tenant_id a) as [t|] eqn:E; simpl; [|done].
  pose proof (authority_tenant_valid _ _ _ _ H E) as V.
  unfold tenant_from_storage_key. rewrite V.
  by destruct t; [by apply validate_tenant_id_nonempty in V|].
Qed.

(** Two validated tenants with the same storage key are the same tenant. *)
Lemma tenant_key_inj a b kind kind' u u' :
  authority_validate_current a kind = Ok u → authority_validate_current b kind' = Ok u' →
  tenant_storage_key (tenant_id a) = tenant_storage_key (tenant_id b) →
  tenant_id a = tenant_id b.
Proof.
  intros Ha%tenant_key_roundtrip Hb%tenant_key_roundtrip E. rewrite E in Ha. congruence.
Qed.

(** The tenant of a storage key. *)
Definition key_tenant (k : str) : option str := if str_is_empty k then None else Some k.

Lemma key_tenant_of a kind u :
  authority_validate_current a kind = Ok u →
  key_tenant (tenant_storage_key (tenant_id a)) = tenant_id a.
Proof.
  intros Ha%tenant_key_roundtrip. unfold tenant_from_storage_key in Ha. unfold key_tenant.
  destruct (str_is_empty _); inv_ok; done.
Qed.
