(* ===== verification/Digest.v ===== *)
(** SHA-256 and its hexadecimal text, which the Workflow and the Effect
    aggregates share ([lower_sha256] of src/src/effect/mod.rs, the digest of
    [command_digest] of src/src/workflow/mod.rs).  The hash function itself
    (the sha2 crate) is a parameter. *)

From Stdlib Require Import ZArith Lia.
From stdpp Require Import base tactics list gmap numbers strings option.
From stdpp Require Import list.
From S2P Require Import Prelude Kernel.

(** [Sha256::digest], the bytes of the digest of the bytes of a text. *)
Class Sha256 := sha256_digest : str → list N.

(** Documented shape of a SHA-256 digest: 32 bytes. *)
Class Sha256Laws `{!Sha256} : Prop := {
  sha256_length s : length (sha256_digest s) = 32%nat;
  sha256_bytes s b : b ∈ sha256_digest s → (b < 256)%N;
}.

(** ** Bytes *)

(** The same function on raw bytes, and the bytes of a text. *)
Class Sha256Bytes := sha256_of_bytes : list N → list N.

Class Sha256BytesLaws `{!Sha256Bytes} : Prop := {
  sha256_of_bytes_length l : length (sha256_of_bytes l) = 32%nat;
  sha256_of_bytes_bytes l b : b ∈ sha256_of_bytes l → (b < 256)%N;
}.

Definition utf8_char (c : N) : list N :=
  if (c <? 128)%N then [c]
  else if (c <? 2048)%N then [192 + c / 64; 128 + c mod 64]%N
  else if (c <? 65536)%N then [224 + c / 4096; 128 + (c / 64) mod 64; 128 + c mod 64]%N
  else [240 + c / 262144; 128 + (c / 4096) mod 64; 128 + (c / 64) mod 64; 128 + c mod 64]%N.
Definition utf8 (s : str) : list N := concat (utf8_char <$> s).

(** [to_be_bytes] of an integer of [n] bytes. *)
Fixpoint be_bytes (n : nat) (x : Z) : list N :=
  match n with
  | O => []
  | S n => Z.to_N (Z.land (Z.shiftr x (8 * Z.of_nat n)) 255) :: be_bytes n x
  end.

(** [u64::try_from] of a length. *)
Definition u64_of_len (n : Z) : option Z := if (n <=? u64_max)%Z then Some n else None.

(** [format!("{byte:02x}")]. *)
Definition hex_byte (b : N) : str := [hex_digit (b / 16); hex_digit (b mod 16)].

Definition lower_sha256 `{Sha256} (bytes : str) : str :=
  concat (hex_byte <$> sha256_digest bytes).

Lemma hex_digit_lower d :
  (d < 16)%N → is_ascii_digit (hex_digit d) ||
               ((97 <=? hex_digit d)%N && (hex_digit d <=? 102)%N) = true.
Proof.
  intros Hd. unfold hex_digit, is_ascii_digit. destruct (N.ltb_spec d 10).
  - rewrite (proj2 (N.leb_le 48 _)), (proj2 (N.leb_le _ 57)) by lia. done.
  - rewrite (proj2 (N.leb_le 97 _)), (proj2 (N.leb_le _ 102)) by lia. by rewrite orb_true_r.
Qed.

Lemma hex_digit_char_len d : (d < 16)%N → char_len (hex_digit d) = 1%Z.
Proof.
  intros Hd. unfold hex_digit, char_len.
  destruct (N.ltb_spec d 10); rewrite (proj2 (N.ltb_lt _ 128)) by lia; done.
Qed.

Lemma hex_bytes_lower l :
  (∀ b, b ∈ l → (b < 256)%N) →
  str_len (concat (hex_byte <$> l)) = (2 * len l)%Z ∧
  forallb (λ c, is_ascii_digit c || ((97 <=? c)%N && (c <=? 102)%N))
    (concat (hex_byte <$> l)) = true.
Proof.
  intros Hl. induction l as [|b l IH]; [done|].
  destruct IH as [IH1 IH2]; [intros; apply Hl; by right|].
  pose proof (Hl b ltac:(left)) as Hb.
  assert (b / 16 < 16)%N by (apply N.Div0.div_lt_upper_bound; lia).
  assert (b mod 16 < 16)%N by (apply N.mod_lt; lia).
  unfold fmap in *. simpl. rewrite !hex_digit_char_len, !hex_digit_lower, IH2 by done.
  simpl. split; [|done]. rewrite IH1. unfold len. simpl. lia.
Qed.

(** The text is the one every validator of a digest accepts. *)
Lemma lower_sha256_lower `{!Sha256, !Sha256Laws} s : is_lower_sha256 (lower_sha256 s) = true.
Proof.
  unfold is_lower_sha256, lower_sha256.
  destruct (hex_bytes_lower (sha256_digest s)) as [-> ->]; [apply sha256_bytes|].
  unfold len. by rewrite sha256_length.
Qed.

Lemma hex_bytes_inj l l' :
  Forall (λ b, b < 256)%N l → Forall (λ b, b < 256)%N l' →
  concat (hex_byte <$> l) = concat (hex_byte <$> l') → l = l'.
Proof.
  intros Hl. revert l'. induction Hl as [|b l Hb _ IH]; intros [|c l'] Hl' E; [done..|].
  apply Forall_cons in Hl' as [Hc Hl']. unfold fmap in E. simpl in E. injection E as E1 E2 E.
  apply hex_digit_inj in E1; [|apply N.Div0.div_lt_upper_bound; lia..].
  apply hex_digit_inj in E2; [|apply N.mod_lt; lia..].
  f_equal; [|by apply IH]. by rewrite (N.div_mod b 16), (N.div_mod c 16), E1, E2 by done.
Qed.
