(* ===== verification/Json.v ===== *)
(** The guards on JSON values and encodings, from src/src/json.rs: the shape
    check, a work list over the nodes of a value, and the writer that counts
    bytes up to a limit.

    [serde_json::Value] is the inductive type [Json]; an object lists its
    entries in key order, as the [BTreeMap] of serde_json does. *)

From Stdlib Require Import ZArith Lia.
From stdpp Require Import base tactics list gmap numbers strings option.
From stdpp Require Import list.
From S2P Require Import Prelude Kernel Digest.

Inductive Json :=
| JNull
| JBool (b : bool)
| JNumber (text : str)
| JString (s : str)
| JArray (values : list Json)
| JObject (values : list (str * Json)).

#[global] Instance Json_eq : EqDecision Json.
Proof.
  refine (fix go (x y : Json) {struct x} : Decision (x = y) :=
    let fix gol (l k : list Json) {struct l} : Decision (l = k) :=
      match l, k with
      | [], [] => left eq_refl
      | a :: l, b :: k =>
          match go a b, gol l k with
          | left _, left _ => left _
          | _, _ => right _
          end
      | _, _ => right _
      end in
    let fix goo (l k : list (str * Json)) {struct l} : Decision (l = k) :=
      match l, k with
      | [], [] => left eq_refl
      | (n, a) :: l, (m, b) :: k =>
          match decide (n = m), go a b, goo l k with
          | left _, left _, left _ => left _
          | _, _, _ => right _
          end
      | _, _ => right _
      end in
    match x, y with
    | JNull, JNull => left eq_refl
    | JBool a, JBool b => cast_if (decide (a = b))
    | JNumber a, JNumber b => cast_if (decide (a = b))
    | JString a, JString b => cast_if (decide (a = b))
    | JArray a, JArray b => cast_if (gol a b)
    | JObject a, JObject b => cast_if (goo a b)
    | _, _ => right _
    end); congruence.
Unshelve.
all: congruence.
Defined.

(** * The shape check *)

Definition MAX_JSON_DEPTH : Z := 64.
Definition MAX_JSON_NODES : Z := 65536.

Inductive BoundedJsonError := LimitExceeded | CannotEncode.

#[global] Instance BoundedJsonError_eq : EqDecision BoundedJsonError.
Proof. solve_decision. Defined.

(** The [Result] of this file. *)
Definition bounded (A : Type) : Type := BoundedJsonError + A.

(** The values directly inside a value: [values.iter()], [values.values()]. *)
Definition children (v : Json) : list Json :=
  match v with
  | JArray values => values
  | JObject values => values.*2
  | _ => []
  end.

Definition validate_children (visited pending depth children : Z) : bounded () :=
  if ((0 <? children)%Z && (MAX_JSON_DEPTH <=? depth)%Z)
     || (saturating_sub (saturating_sub MAX_JSON_NODES visited) pending <? children)%Z
  then inl LimitExceeded else inr ().

(** [usize::saturating_add]. *)
Definition saturating_add (max a b : Z) : Z := Z.min max (a + b).

(** Number of nodes of a value, and of the levels below its root. *)
Fixpoint json_nodes (v : Json) : nat :=
  match v with
  | JArray values => S (foldr (λ w n, json_nodes w + n)%nat 0%nat values)
  | JObject values => S (foldr (λ w n, json_nodes w.2 + n)%nat 0%nat values)
  | _ => 1%nat
  end.

Fixpoint json_depth (v : Json) : nat :=
  match v with
  | JArray values => foldr (λ w n, Nat.max (S (json_depth w)) n) 0%nat values
  | JObject values => foldr (λ w n, Nat.max (S (json_depth w.2)) n) 0%nat values
  | _ => 0%nat
  end.

(** The loop of [validate_value_shape]. The end of the [Vec] is the head of
    the list, so pushing the children in order leaves the last one on top.
    [None] is a loop that ran out of [fuel]. *)
Fixpoint shape_loop (fuel : nat) (pending : list (Json * Z)) (visited : Z)
    : option (bounded ()) :=
  match pending with
  | [] => Some (inr ())
  | (value, depth) :: pending =>
      match fuel with
      | O => None
      | S fuel =>
          match checked_add usize_max visited 1 with
          | None => Some (inl LimitExceeded)
          | Some visited =>
              if (MAX_JSON_DEPTH <? depth)%Z || (MAX_JSON_NODES <? visited)%Z
              then Some (inl LimitExceeded)
              else
                let child_depth := saturating_add usize_max depth 1 in
                let extend values :=
                  rev_append ((λ child, (child, child_depth)) <$> values) pending in
                match value with
                | JArray _ | JObject _ =>
                    match validate_children visited (len pending) depth
                            (len (children value)) with
                    | inl e => Some (inl e)
                    | inr _ => shape_loop fuel (extend (children value)) visited
                    end
                | _ => shape_loop fuel pending visited
                end
          end
      end
  end.

(** Every iteration removes a node, so the nodes of the value bound them. *)
Definition validate_value_shape (value : Json) : bounded () :=
  default (inl LimitExceeded) (shape_loop (json_nodes value) [(value, 0%Z)] 0%Z).

(** * Bounded encoding *)

Record CountingWriter := {
  cw_bytes : Z;
  cw_maximum : Z;
  cw_exceeded : bool;
}.

(** [write] of the counting writer: the writer after the call, and whether it
    accepted the buffer. *)
Definition counting_write (w : CountingWriter) (buffer : str) : CountingWriter * bool :=
  let exceeded :=
    ({| cw_bytes := cw_bytes w; cw_maximum := cw_maximum w; cw_exceeded := true |}, false) in
  match checked_add usize_max (cw_bytes w) (str_len buffer) with
  | None => exceeded
  | Some next =>
      if (cw_maximum w <? next)%Z then exceeded
      else ({| cw_bytes := next; cw_maximum := cw_maximum w; cw_exceeded := cw_exceeded w |}, true)
  end.

(** [to_writer] on the pieces of an encoding, up to the first refused one. *)
Fixpoint counting_write_all (w : CountingWriter) (pieces : list str) : CountingWriter * bool :=
  match pieces with
  | [] => (w, true)
  | p :: pieces =>
      match counting_write w p with
      | (w', true) => counting_write_all w' pieces
      | (w', false) => (w', false)
      end
  end.

(** [bounded_serialized_size], for an encoding that arrives in [pieces]. *)
Definition bounded_size_of (pieces : list str) (maximum : Z) : bounded Z :=
  match counting_write_all {| cw_bytes := 0; cw_maximum := maximum; cw_exceeded := false |} pieces with
  | (w, true) => inr (cw_bytes w)
  | (w, false) => if cw_exceeded w then inl LimitExceeded else inl CannotEncode
  end.

(** [bounded_serialized_size]; by [bounded_size_pieces] below it does not
    matter how serde_json cuts the text into pieces. *)
Definition bounded_serialized_size {T} `{Serialize T} (value : T) (maximum : Z) : bounded Z :=
  match to_json value with
  | Some text => bounded_size_of [text] maximum
  | None => inl CannotEncode
  end.

(** ** The count does not depend on the pieces *)

Lemma counting_write_all_exact w pieces :
  (0 ≤ cw_bytes w)%Z → (cw_bytes w ≤ cw_maximum w ≤ usize_max)%Z →
  counting_write_all w pieces =
    (let n := (cw_bytes w + str_len (concat pieces))%Z in
     if (n <=? cw_maximum w)%Z
     then ({| cw_bytes := n; cw_maximum := cw_maximum w; cw_exceeded := cw_exceeded w |}, true)
     else (let w' := (counting_write_all w pieces).1 in
           {| cw_bytes := cw_bytes w'; cw_maximum := cw_maximum w; cw_exceeded := true |}, false)).
Proof.
  revert w. induction pieces as [|p pieces IH]; intros [b m x]; simpl; intros H1 H2.
  - rewrite Z.add_0_r, (proj2 (Z.leb_le _ _)) by lia. done.
  - rewrite str_len_app. pose proof (str_len_nonneg p). pose proof (str_len_nonneg (concat pieces)).
    unfold counting_write. simpl. destruct (checked_add _ b _) as [n|] eqn:C.
    + apply checked_add_Some in C as [-> C]. destruct (Z.ltb_spec m (b + str_len p)).
      * rewrite (proj2 (Z.leb_gt _ _)) by lia. done.
      * rewrite IH by (simpl; lia). simpl. rewrite Z.add_assoc.
        destruct (_ <=? m)%Z; done.
    + unfold checked_add in C. destruct (Z.leb_spec (b + str_len p) usize_max); [done|].
      rewrite (proj2 (Z.leb_gt _ _)) by lia. done.
Qed.

Lemma bounded_size_pieces pieces maximum :
  (0 ≤ maximum ≤ usize_max)%Z →
  bounded_size_of pieces maximum =
    (if (str_len (concat pieces) <=? maximum)%Z
     then inr (str_len (concat pieces)) else inl LimitExceeded).
Proof.
  intros H. unfold bounded_size_of. rewrite counting_write_all_exact by (simpl; lia). simpl.
  by destruct (_ <=? maximum)%Z.
Qed.

Lemma bounded_serialized_size_exact {T} `{Serialize T} (value : T) (maximum n : Z) :
  (0 ≤ maximum ≤ usize_max)%Z →
  bounded_serialized_size value maximum = inr n ↔
  ∃ text, to_json value = Some text ∧ n = str_len text ∧ (n ≤ maximum)%Z.
Proof.
  intros Hm. unfold bounded_serialized_size. destruct (to_json value) as [text|]; [|naive_solver].
  rewrite bounded_size_pieces by done. simpl. rewrite app_nil_r.
  destruct (Z.leb_spec (str_len text) maximum); split.
  - intros [= <-]. eauto.
  - by intros (? & [= <-] & -> & _).
  - done.
  - intros (? & [= <-] & -> & ?). lia.
Qed.

(** ** The other two writers *)

Record BoundedVecWriter := {
  bw_bytes : str;
  bw_maximum : Z;
  bw_exceeded : bool;
}.

Definition vec_write (w : BoundedVecWriter) (buffer : str) : BoundedVecWriter * bool :=
  let refused :=
    match checked_add usize_max (str_len (bw_bytes w)) (str_len buffer) with
    | None => true
    | Some length => (bw_maximum w <? length)%Z
    end in
  if refused
  then ({| bw_bytes := bw_bytes w; bw_maximum := bw_maximum w; bw_exceeded := true |}, false)
  else ({| bw_bytes := bw_bytes w ++ buffer; bw_maximum := bw_maximum w;
           bw_exceeded := bw_exceeded w |}, true).

(** [to_bounded_json_vec]. *)
Definition to_bounded_json_vec {T} `{Serialize T} (value : T) (maximum : Z) : bounded str :=
  match to_json value with
  | Some text =>
      match vec_write {| bw_bytes := []; bw_maximum := maximum; bw_exceeded := false |} text with
      | (w, true) => inr (bw_bytes w)
      | (w, false) => if bw_exceeded w then inl LimitExceeded else inl CannotEncode
      end
  | None => inl CannotEncode
  end.

(** The hasher is the text it has absorbed: [update] is documented to digest
    the concatenation of its arguments. *)
Record DigestWriter := {
  dw_hasher : str;
  dw_bytes : Z;
  dw_maximum : Z;
  dw_exceeded : bool;
}.

Definition digest_write (w : DigestWriter) (buffer : str) : DigestWriter * bool :=
  let exceeded :=
    ({| dw_hasher := dw_hasher w; dw_bytes := dw_bytes w; dw_maximum := dw_maximum w;
        dw_exceeded := true |}, false) in
  match checked_add usize_max (dw_bytes w) (str_len buffer) with
  | None => exceeded
  | Some next =>
      if (dw_maximum w <? next)%Z then exceeded
      else ({| dw_hasher := dw_hasher w ++ buffer; dw_bytes := next; dw_maximum := dw_maximum w;
               dw_exceeded := dw_exceeded w |}, true)
  end.

(** The digits [HEX[byte >> 4]] and [HEX[byte & 0x0f]] of a digest. *)
Definition HEX : str := lit "0123456789abcdef".
Definition hex_pair (byte : N) : str :=
  omap (λ i, HEX !! N.to_nat i) [N.shiftr byte 4; N.land byte 15].

(** [bounded_serialized_sha256]. *)
Definition bounded_serialized_sha256 {T} `{Serialize T, Sha256} (value : T) (maximum : Z)
    : bounded str :=
  match to_json value with
  | Some text =>
      match digest_write {| dw_hasher := []; dw_bytes := 0; dw_maximum := maximum;
                            dw_exceeded := false |} text with
      | (w, true) => inr (concat (hex_pair <$> sha256_digest (dw_hasher w)))
      | (w, false) => if dw_exceeded w then inl LimitExceeded else inl CannotEncode
      end
  | None => inl CannotEncode
  end.

Lemma to_bounded_json_vec_exact {T} `{Serialize T} (value : T) (maximum : Z) :
  (0 ≤ maximum ≤ usize_max)%Z →
  to_bounded_json_vec value maximum =
  match to_json value with
  | None => inl CannotEncode
  | Some text => if (str_len text <=? maximum)%Z then inr text else inl LimitExceeded
  end.
Proof.
  intros Hm. unfold to_bounded_json_vec, vec_write. destruct (to_json value) as [text|]; [|done].
  cbn [bw_bytes bw_maximum bw_exceeded str_len foldr]. unfold checked_add. rewrite Z.add_0_l.
  destruct (Z.leb_spec (str_len text) usize_max), (Z.leb_spec (str_len text) maximum);
    try lia; simpl; rewrite ?(proj2 (Z.ltb_lt _ _)), ?(proj2 (Z.ltb_ge _ _)) by lia; done.
Qed.

(** The table's digits are the ones of [{byte:02x}]. *)
Lemma hex_pair_byte b : (b < 256)%N → hex_pair b = hex_byte b.
Proof.
  intros Hb. assert (∀ n, (n < 256)%nat → hex_pair (N.of_nat n) = hex_byte (N.of_nat n)) as Hall.
  { intros n Hn. apply (bool_decide_eq_true_1 (hex_pair (N.of_nat n) = hex_byte (N.of_nat n))).
    do 256 (destruct n as [|n]; [vm_compute; reflexivity|]). lia. }
  rewrite <-(N2Nat.id b). apply Hall. lia.
Qed.

(** The streaming digest is the digest of the whole encoding. *)
Lemma bounded_serialized_sha256_exact {T} `{Serialize T, !Sha256, !Sha256Laws} (value : T)
    (maximum : Z) :
  (0 ≤ maximum ≤ usize_max)%Z →
  bounded_serialized_sha256 value maximum =
  match to_bounded_json_vec value maximum with
  | inr text => inr (lower_sha256 text)
  | inl e => inl e
  end.
Proof.
  intros Hm. rewrite to_bounded_json_vec_exact by done.
  unfold bounded_serialized_sha256, digest_write. destruct (to_json value) as [text|]; [|done].
  cbn [dw_bytes dw_maximum dw_exceeded dw_hasher]. unfold checked_add. rewrite Z.add_0_l.
  destruct (Z.leb_spec (str_len text) usize_max), (Z.leb_spec (str_len text) maximum);
    try lia; simpl; rewrite ?(proj2 (Z.ltb_lt _ _)), ?(proj2 (Z.ltb_ge _ _)) by lia; try done.
  simpl. unfold lower_sha256. do 2 f_equal. apply list_fmap_ext. intros i b Hb. apply hex_pair_byte.
  apply (sha256_bytes text). by eapply list_elem_of_lookup_2.
Qed.

(** ** The shape check is exact *)

Definition stack_nodes (l : list (Json * Z)) : nat := foldr (λ p n, json_nodes p.1 + n)%nat 0%nat l.
Definition stack_fits (l : list (Json * Z)) : Prop :=
  ∀ v d, (v, d) ∈ l → (d + Z.of_nat (json_depth v) ≤ MAX_JSON_DEPTH)%Z.

Lemma children_nodes v :
  json_nodes v = S (foldr (λ w n, json_nodes w + n)%nat 0%nat (children v)).
Proof.
  destruct v as [| | | |l|l]; simpl; try done. f_equal.
  induction l as [|[k w] l IH]; simpl; [done|]. by rewrite IH.
Qed.

Lemma children_depth v d :
  (d + Z.of_nat (json_depth v) ≤ MAX_JSON_DEPTH)%Z ↔
  (d ≤ MAX_JSON_DEPTH)%Z ∧
  ∀ w, w ∈ children v → (d + 1 + Z.of_nat (json_depth w) ≤ MAX_JSON_DEPTH)%Z.
Proof.
  assert (∀ l, (d + Z.of_nat (foldr (λ w n, Nat.max (S (json_depth w)) n) 0%nat l) ≤ MAX_JSON_DEPTH)%Z ↔
    (d ≤ MAX_JSON_DEPTH)%Z ∧ ∀ w, w ∈ l → (d + 1 + Z.of_nat (json_depth w) ≤ MAX_JSON_DEPTH)%Z) as Hl.
  { induction l as [|w l IH]; simpl.
    - split; [intros H; split; [lia|by intros ? ?%elem_of_nil]|intros [H _]; lia].
    - setoid_rewrite elem_of_cons. split.
      + intros H. destruct IH as [IH _]. destruct IH as [IH1 IH2]; [lia|].
        split; [done|]. intros w' [->|Hw']; [lia|]. by apply IH2.
      + intros [H1 H2]. pose proof (H2 w (or_introl eq_refl)).
        destruct IH as [_ IH]. assert (d + _ ≤ MAX_JSON_DEPTH)%Z by (apply IH; eauto). lia. }
  destruct v as [| | | |l|l]; simpl; try (rewrite Z.add_0_r; split; [|tauto]; intros H;
    split; [done|by intros ? ?%elem_of_nil]); [apply Hl|].
  rewrite <-Hl. f_equiv. f_equiv. f_equiv. induction l as [|[k w] l IH]; simpl; [done|]. by rewrite IH.
Qed.

Lemma stack_nodes_push values d rest :
  stack_nodes (rev_append ((λ child, (child, d)) <$> values) rest) =
  (foldr (λ w n, json_nodes w + n)%nat 0%nat values + stack_nodes rest)%nat.
Proof.
  revert rest. induction values as [|v l IH]; intros rest; simpl; [done|].
  unfold fmap in IH. rewrite IH. simpl. lia.
Qed.

Lemma elem_of_push {A} (l k : list A) x : x ∈ rev_append l k ↔ x ∈ l ∨ x ∈ k.
Proof. rewrite rev_append_rev, elem_of_app. rewrite !list_elem_of_In, <-in_rev. done. Qed.

Lemma nodes_pos v : (1 ≤ json_nodes v)%nat.
Proof. rewrite children_nodes. lia. Qed.

Lemma len_nodes l : (length l ≤ foldr (λ w n, json_nodes w + n)%nat 0%nat l)%nat.
Proof. induction l as [|w l IH]; simpl; [done|]. pose proof (nodes_pos w). lia. Qed.

Lemma len_stack_nodes l : (length l ≤ stack_nodes l)%nat.
Proof. induction l as [|[w d] l IH]; simpl; [done|]. pose proof (nodes_pos w). lia. Qed.

Lemma stack_fits_cons v d rest :
  stack_fits ((v, d) :: rest) ↔
  (d ≤ MAX_JSON_DEPTH)%Z ∧
  (∀ w, w ∈ children v → (d + 1 + Z.of_nat (json_depth w) ≤ MAX_JSON_DEPTH)%Z) ∧ stack_fits rest.
Proof.
  unfold stack_fits. setoid_rewrite elem_of_cons. pose proof (children_depth v d) as Hc. split.
  - intros H. destruct (proj1 Hc (H v d (or_introl eq_refl))) as [? ?]. split_and!; eauto.
  - intros (H1 & H2 & H3) w e [[= -> ->]|Hw]; [by apply Hc|by apply H3].
Qed.

Lemma stack_fits_push values d rest :
  stack_fits (rev_append ((λ child, (child, d)) <$> values) rest) ↔
  (∀ w, w ∈ values → (d + Z.of_nat (json_depth w) ≤ MAX_JSON_DEPTH)%Z) ∧ stack_fits rest.
Proof.
  unfold stack_fits. setoid_rewrite elem_of_push. setoid_rewrite list_elem_of_fmap. naive_solver.
Qed.

(** The early check of the children rejects only what the loop would reject. *)
Lemma validate_children_sound v pending visited d :
  (0 ≤ visited)%Z →
  validate_children visited (len pending) d (len (children v)) = inr () ∨
  (∃ e, validate_children visited (len pending) d (len (children v)) = inl e) ∧
  ¬ ((visited + Z.of_nat (foldr (λ w n, json_nodes w + n)%nat 0%nat (children v) + stack_nodes pending)
       ≤ MAX_JSON_NODES)%Z ∧ stack_fits ((v, d) :: pending)).
Proof.
  intros Hv. unfold validate_children. rewrite stack_fits_cons. unfold MAX_JSON_DEPTH, MAX_JSON_NODES.
  pose proof (len_nodes (children v)). pose proof (len_stack_nodes pending).
  destruct (_ && _) eqn:E1; simpl.
  - right. split; [eauto|]. bool_hyps. intros (_ & _ & Hk & _). unfold len in *.
    destruct (children v) as [|w kids]; [simpl in *; lia|].
    specialize (Hk w (list_elem_of_here _ _)). lia.
  - destruct (Z.ltb_spec (saturating_sub (saturating_sub 65536 visited) (len pending))
      (len (children v))) as [E2|E2]; [|by left].
    right. split; [eauto|]. unfold saturating_sub, len in *. lia.
Qed.

Definition has_children (v : Json) : bool :=
  match v with JArray _ | JObject _ => true | _ => false end.

(** One iteration on a node within the limits. *)
Lemma shape_loop_step fuel v d rest visited :
  (0 ≤ d ≤ MAX_JSON_DEPTH)%Z → (0 ≤ visited < MAX_JSON_NODES)%Z →
  shape_loop (S fuel) ((v, d) :: rest) visited =
  (if has_children v then
     match validate_children (visited + 1) (len rest) d (len (children v)) with
     | inl e => Some (inl e)
     | inr _ => shape_loop fuel (rev_append ((λ child, (child, d + 1)%Z) <$> children v) rest)
                  (visited + 1)
     end
   else shape_loop fuel rest (visited + 1)).
Proof.
  intros Hd Hv. simpl. unfold MAX_JSON_DEPTH, MAX_JSON_NODES, checked_add, saturating_add in *.
  rewrite (proj2 (Z.leb_le _ usize_max)) by (unfold usize_max, u64_max; lia).
  rewrite (proj2 (Z.ltb_ge 64 d)), (proj2 (Z.ltb_ge 65536 _)) by lia.
  rewrite Z.min_r by (unfold usize_max, u64_max; lia). by destruct v.
Qed.

(** The loop with enough fuel: it has a result, and which one. *)
Lemma shape_loop_exact fuel pending visited :
  (stack_nodes pending ≤ fuel)%nat → (0 ≤ visited ≤ MAX_JSON_NODES)%Z →
  (∀ v d, (v, d) ∈ pending → 0 ≤ d)%Z →
  ∃ r, shape_loop fuel pending visited = Some r ∧
    (r = inr () ↔ (visited + Z.of_nat (stack_nodes pending) ≤ MAX_JSON_NODES)%Z ∧ stack_fits pending).
Proof.
  revert pending visited. induction fuel as [|fuel IH]; intros [|[v d] rest] visited Hf Hv Hd.
  1,3: exists (inr ()); split; [done|]; split; [intros _; split; [simpl; lia|by intros ? ? ?%elem_of_nil]|done].
  { simpl in Hf. pose proof (nodes_pos v). lia. }
  assert (0 ≤ d)%Z as Hd0 by (apply (Hd v); left).
  assert (stack_nodes ((v, d) :: rest) = S (foldr (λ w n, json_nodes w + n)%nat 0%nat (children v)
    + stack_nodes rest))%nat as Hn by (unfold stack_nodes; simpl; by rewrite children_nodes).
  destruct (decide (MAX_JSON_DEPTH < d ∨ MAX_JSON_NODES ≤ visited)%Z) as [Hbad|Hgood].
  { exists (inl LimitExceeded). split.
    - simpl. unfold checked_add. unfold MAX_JSON_NODES in *.
      rewrite (proj2 (Z.leb_le _ usize_max)) by (unfold usize_max, u64_max; lia).
      replace (_ || _) with true; [done|]. symmetry. apply orb_true_iff. rewrite !Z.ltb_lt. lia.
    - split; [done|]. rewrite Hn, stack_fits_cons. lia. }
  rewrite shape_loop_step by lia.
  assert (∀ kids, children v = kids →
    ∃ r, shape_loop fuel (rev_append ((λ child, (child, d + 1)%Z) <$> kids) rest) (visited + 1) = Some r
      ∧ (r = inr () ↔ (visited + Z.of_nat (stack_nodes ((v, d) :: rest)) ≤ MAX_JSON_NODES)%Z
           ∧ stack_fits ((v, d) :: rest))) as Hnext.
  { intros kids Ek. edestruct (IH (rev_append ((λ child, (child, d + 1)%Z) <$> kids) rest)
      (visited + 1)%Z) as (r & Hr & Hiff); [rewrite stack_nodes_push, <-Ek; lia|lia| |].
    - intros w e [(y & [= -> ->] & _)%list_elem_of_fmap|Hw]%elem_of_push; [lia|]. apply (Hd w). by right.
    - exists r. split; [done|]. rewrite Hiff, stack_fits_push, stack_fits_cons, stack_nodes_push, Hn, Ek.
      split; intros (H1 & H2); split_and!; naive_solver lia. }
  destruct (has_children v) eqn:Ev.
  - destruct (validate_children_sound v rest (visited + 1) d) as [->|[[e ->] Hno]];
      [lia|by apply Hnext|].
    exists (inl e). split; [done|]. split; [done|]. intros [H1 H2]. destruct Hno. rewrite Hn in H1.
    split; [lia|done].
  - assert (children v = []) as Hk by by destruct v. exact (Hnext [] Hk).
Qed.

(** C29: the shape check terminates within its work bound and decides exactly
    the documented limits: a value is accepted if and only if it has at most
    65,536 nodes and at most 64 levels below its root. *)
Theorem json_shape_exact (v : Json) :
  (∃ r, shape_loop (json_nodes v) [(v, 0%Z)] 0%Z = Some r ∧ validate_value_shape v = r) ∧
  (validate_value_shape v = inr () ↔
   (Z.of_nat (json_nodes v) ≤ MAX_JSON_NODES)%Z ∧ (Z.of_nat (json_depth v) ≤ MAX_JSON_DEPTH)%Z).
Proof.
  destruct (shape_loop_exact (json_nodes v) [(v, 0%Z)] 0%Z) as (r & Hr & Hiff).
  - simpl. lia.
  - unfold MAX_JSON_NODES. lia.
  - intros w d [= -> ->]%list_elem_of_singleton. lia.
  - unfold validate_value_shape. rewrite Hr. simpl. split; [eauto|]. rewrite Hiff. simpl.
    unfold stack_fits. split.
    + intros [H1 H2]. split; [lia|]. specialize (H2 v 0%Z (list_elem_of_here _ _)). lia.
    + intros [H1 H2]. split; [lia|]. intros w d [= -> ->]%list_elem_of_singleton. lia.
Qed.
