(* ===== verification/Sqlite.v ===== *)
(** The SQLite boundary the durable coordinators share: a connection whose
    statements may fail, immediate transactions, the integer columns
    ([i64]) that hold revisions, and the guard of src/src/sqlite.rs on the
    text it reads back.

    The database engine itself is not part of the sources. The model uses
    its documented behaviour: a failed statement reports an error and changes
    nothing, and an uncommitted transaction is rolled back.  Which statements
    fail is an input, the [faults] of the connection: statement [i] fails
    with the [i]-th entry, and statements past the end of the list succeed. *)

From Stdlib Require Import ZArith Lia.
From stdpp Require Import base tactics list gmap numbers strings option.
From stdpp Require Import list.
From S2P Require Import Prelude.

Record Connection (R : Type) := {
  rows : R;
  faults : list (option message);
}.
Arguments rows {R} c.
Arguments faults {R} c.

Section connection.
Context {R : Type} (wrap : message → HarnessError).

(** One statement of the connection, [map_err(|e| wrap(e.to_string()))]. *)
Definition sql_call : M (Connection R) () := λ s,
  match faults s with
  | [] => (s, Ok ())
  | None :: f => ({| rows := rows s; faults := f |}, Ok ())
  | Some m :: f => ({| rows := rows s; faults := f |}, Err (wrap m))
  end.

Definition select : M (Connection R) R := _ ← sql_call; s ← get; mret (rows s).

(** A statement that replaces the table. *)
Definition store (r : R) : M (Connection R) () :=
  _ ← sql_call; s ← get; put {| rows := r; faults := faults s |}.

(** [transaction_with_behavior(Immediate)], the body, [commit]; an early
    return drops the transaction, which rolls it back. *)
Definition transaction {A} (body : M (Connection R) A) : M (Connection R) A := λ s,
  match (_ ← sql_call; a ← body; _ ← sql_call; mret a) s with
  | (s', Ok a) => (s', Ok a)
  | (s', Err e) => ({| rows := rows s; faults := faults s' |}, Err e)
  end.

(** A transaction whose body may also return a value without committing, [inl]:
    the dropped transaction is rolled back. *)
Definition transaction_return {A} (body : M (Connection R) (A + A)) : M (Connection R) A := λ s,
  match (_ ← sql_call; body) s with
  | (s', Ok (inl a)) => ({| rows := rows s; faults := faults s' |}, Ok a)
  | (s', Ok (inr a)) =>
      match sql_call s' with
      | (s'', Ok _) => (s'', Ok a)
      | (s'', Err e) => ({| rows := rows s; faults := faults s'' |}, Err e)
      end
  | (s', Err e) => ({| rows := rows s; faults := faults s' |}, Err e)
  end.

(** [create_dir_all] when the path has a parent, then [Connection::open]. *)
Definition open_file (has_parent : bool) : M (Connection R) () :=
  _ ← (if has_parent then sql_call else mret ());
  sql_call.

(** [open_read_only] of src/src/sqlite.rs: the file is opened, then the
    connection is made query-only. *)
Definition open_read_only : M (Connection R) () := _ ← sql_call; sql_call.

(** The durable settings of an opened file: the busy timeout, then
    [PRAGMA journal_mode = WAL], which reports the [mode] it selected. *)
Definition require_wal (mode : str) : M (Connection R) () :=
  _ ← sql_call;
  _ ← sql_call;
  lift (reject_if (negb (eq_ignore_ascii_case mode (lit "wal")))
          (wrap (fmt "SQLite refused WAL mode and selected {}" [AStr mode]))).

Lemma sql_call_rows s s' r : sql_call s = (s', r) → rows s' = rows s.
Proof.
  unfold sql_call. destruct (faults s) as [|[m|] f]; intros [= <- <-]; done.
Qed.

Lemma select_rows s s' r :
  select s = (s', r) → rows s' = rows s ∧ ∀ t, r = Ok t → t = rows s.
Proof.
  unfold select. destruct r as [t|e]; intros H.
  - inv_M. match goal with H : sql_call _ = _ |- _ => apply sql_call_rows in H end.
    split; [done|]. intros t' [= <-]. congruence.
  - inv_M_err. apply sql_call_rows in H. done.
Qed.

Lemma store_ok t s s' u : store t s = (s', Ok u) → rows s' = t.
Proof. unfold store. intros H. inv_M. done. Qed.

Lemma store_err t s s' e : store t s = (s', Err e) → rows s' = rows s.
Proof. unfold store. intros H. inv_M_err. by apply sql_call_rows in H. Qed.

Lemma transaction_err {A} (body : M (Connection R) A) s s' e :
  transaction body s = (s', Err e) → rows s' = rows s.
Proof.
  unfold transaction. destruct ((_ ← sql_call; _) s) as [s1 [a|e']]; intros [= <- <-]; done.
Qed.

Lemma transaction_ok {A} (body : M (Connection R) A) s s' a :
  transaction body s = (s', Ok a) →
  ∃ s1 s2, rows s1 = rows s ∧ body s1 = (s2, Ok a) ∧ rows s' = rows s2.
Proof.
  unfold transaction. destruct ((_ ← sql_call; _) s) as [s3 [a'|e']] eqn:E; [|done].
  intros [= <- <-]. inv_M.
  repeat match goal with H : sql_call _ = _ |- _ => apply sql_call_rows in H end. eauto.
Qed.

Lemma transaction_return_err {A} (body : M (Connection R) (A + A)) s s' e :
  transaction_return body s = (s', Err e) → rows s' = rows s.
Proof.
  unfold transaction_return. destruct ((_ ← sql_call; _) s) as [s1 [[a|a]|e']]; [done| |by intros [= <- <-]].
  destruct (sql_call s1) as [s2 [u|e']]; [done|]. by intros [= <- <-].
Qed.

Lemma transaction_return_ok {A} (body : M (Connection R) (A + A)) s s' a :
  transaction_return body s = (s', Ok a) →
  ∃ s1 s2, rows s1 = rows s ∧
    (body s1 = (s2, Ok (inl a)) ∧ rows s' = rows s ∨ body s1 = (s2, Ok (inr a)) ∧ rows s' = rows s2).
Proof.
  unfold transaction_return. destruct ((_ ← sql_call; _) s) as [s1 [[b|b]|e']] eqn:E; [| |done].
  - intros [= <- <-]. inv_M.
    match goal with H : sql_call _ = _ |- _ => apply sql_call_rows in H end. eauto 10.
  - destruct (sql_call s1) as [s2 [u|e']] eqn:E2; [|done]. intros [= <- <-]. inv_M.
    repeat match goal with H : sql_call _ = _ |- _ => apply sql_call_rows in H end. eauto 10.
Qed.

(** Without pending faults nothing fails and nothing else changes. *)
Definition healthy (s : Connection R) : Prop := faults s = [].

Lemma sql_call_healthy s : healthy s → sql_call s = (s, Ok ()).
Proof. unfold healthy, sql_call. by intros ->. Qed.

Lemma select_healthy s : healthy s → select s = (s, Ok (rows s)).
Proof.
  intros H. unfold select, mbind, M_bind. by rewrite (sql_call_healthy s H).
Qed.

Lemma store_healthy t s :
  healthy s → store t s = ({| rows := t; faults := [] |}, Ok ()).
Proof.
  intros H. unfold store, mbind, M_bind. rewrite (sql_call_healthy s H).
  unfold get, put. by rewrite H.
Qed.

Lemma transaction_healthy {A} (body : M (Connection R) A) s s' a :
  healthy s → body s = (s', Ok a) → healthy s' → transaction body s = (s', Ok a).
Proof.
  intros H Hb H'. unfold transaction, mbind, M_bind.
  rewrite (sql_call_healthy s H), Hb. by rewrite (sql_call_healthy s' H').
Qed.

(** Computations that leave the table as it is, whatever fails. *)
Definition keeps {A} (m : M (Connection R) A) : Prop :=
  ∀ s s' r, m s = (s', r) → rows s' = rows s.

Lemma keeps_bind {A B} (m : M (Connection R) A) (k : A → M (Connection R) B) :
  keeps m → (∀ a, keeps (k a)) → keeps (m ≫= k).
Proof.
  intros Hm Hk s s' r. unfold mbind, M_bind. destruct (m s) as [s1 [a|e]] eqn:E.
  - intros H. rewrite (Hk _ _ _ _ H). exact (Hm _ _ _ E).
  - intros [= <- <-]. exact (Hm _ _ _ E).
Qed.
Lemma keeps_sql_call : keeps sql_call.
Proof. exact sql_call_rows. Qed.
Lemma keeps_get : keeps get.
Proof. by intros s s' r [= <- <-]. Qed.
Lemma keeps_lift {A} (r : result A) : keeps (lift r).
Proof. by intros s s' r' [= <- <-]. Qed.
Lemma keeps_mret {A} (a : A) : keeps (mret a).
Proof. by intros s s' r' [= <- <-]. Qed.
Lemma keeps_select : keeps select.
Proof. intros s s' r H. by apply select_rows in H as [? _]. Qed.
End connection.

#[export] Hint Resolve keeps_bind keeps_sql_call keeps_get keeps_lift keeps_mret keeps_select : harness.

(** Run the statements of a connection that has no pending fault. *)
Ltac run_healthy H :=
  unfold mbind, M_bind; repeat (rewrite (sql_call_healthy _ _ H) || rewrite (select_healthy _ _ H)).

Section opening.
Context {R : Type} (wrap : message → HarnessError).
Implicit Types s : Connection R.

Lemma keeps_open_file has_parent : keeps (R := R) (open_file wrap has_parent).
Proof. unfold open_file. destruct has_parent; auto with harness. Qed.
Lemma keeps_open_read_only : keeps (R := R) (open_read_only wrap).
Proof. unfold open_read_only. auto with harness. Qed.
Lemma keeps_require_wal mode : keeps (R := R) (require_wal wrap mode).
Proof. unfold require_wal. auto 10 with harness. Qed.

Lemma require_wal_ok mode s s' u :
  require_wal wrap mode s = (s', Ok u) → eq_ignore_ascii_case mode (lit "wal") = true.
Proof.
  unfold require_wal, reject_if. intros H. inv_M. by destruct (eq_ignore_ascii_case mode _).
Qed.

Lemma open_file_healthy has_parent s :
  healthy s → open_file wrap has_parent s = (s, Ok ()).
Proof.
  intros H. unfold open_file. destruct has_parent; run_healthy H; [done|].
  unfold mret, M_ret. by rewrite (sql_call_healthy wrap _ H).
Qed.
Lemma require_wal_healthy mode s :
  healthy s → eq_ignore_ascii_case mode (lit "wal") = true →
  require_wal wrap mode s = (s, Ok ()).
Proof. intros H Hw. unfold require_wal. rewrite Hw. by run_healthy H. Qed.
End opening.

#[export] Hint Resolve keeps_open_file keeps_open_read_only keeps_require_wal : harness.

(** [i64::try_from(revision)] and [u64::try_from(revision)]. *)
Definition i64_try_from (n : Z) (e : HarnessError) : result Z :=
  if (n <=? i64_max)%Z then Ok n else Err e.
Definition u64_try_from (n : Z) (e : HarnessError) : result Z :=
  if (0 <=? n)%Z then Ok n else Err e.

Lemma i64_try_from_ok n e m : i64_try_from n e = Ok m ↔ m = n ∧ (n ≤ i64_max)%Z.
Proof. unfold i64_try_from. destruct (Z.leb_spec n i64_max); split; [intros [= <-]; lia|intros [-> ?]; done|done|lia]. Qed.

Lemma u64_try_from_ok n e m : u64_try_from n e = Ok m ↔ m = n ∧ (0 ≤ n)%Z.
Proof. unfold u64_try_from. destruct (Z.leb_spec 0 n); split; [intros [= <-]; lia|intros [-> ?]; done|done|lia]. Qed.

(** [bounded_text] of src/src/sqlite.rs: the text of a column, refused when its
    byte length exceeds the maximum. *)
Definition bounded_text (wrap : message → HarnessError) (maximum_bytes : Z) (kind : string)
    (text : str) : result str :=
  _ ← reject_if (maximum_bytes <? str_len text)%Z
        (wrap (fmt "{} exceeds {} bytes" [ALit kind; ANum maximum_bytes]));
  Ok text.

(** [bounded_optional_text]: a column that may be NULL. *)
Definition bounded_optional_text (wrap : message → HarnessError) (maximum_bytes : Z) (kind : string)
    (text : option str) : result (option str) :=
  match text with
  | None => Ok None
  | Some text => text ← bounded_text wrap maximum_bytes kind text; Ok (Some text)
  end.
