(* ===== verification/Pairs.v ===== *)
(** Maps keyed by a tenant and an identity, as the coordinators keep them
    ([BTreeMap<(String, Id), _>], or a table with a composite primary key):
    their order, the range of one tenant, and paging by cursor. *)

From Stdlib Require Import ZArith Lia.
From stdpp Require Import sorting base tactics list gmap relations numbers strings option.
From stdpp Require Import list.
From S2P Require Import Prelude Ordering.

(** The order of the composite keys, as [BTreeMap] and the SQLite index have it. *)
Definition pair_leb (k k' : str * str) : bool :=
  (str_leb k.1 k'.1 && negb (str_leb k'.1 k.1)) || (bool_decide (k.1 = k'.1) && str_leb k.2 k'.2).
Definition entry_le {V} (p q : (str * str) * V) : Prop := pair_leb p.1 q.1 = true.
#[global] Instance entry_le_dec {V} : RelDecision (@entry_le V).
Proof. intros p q. unfold entry_le. apply _. Defined.

(** [map.iter()] on composite keys. *)
Definition pairs_iter {V} (m : gmap (str * str) V) : list ((str * str) * V) :=
  merge_sort entry_le (map_to_list m).

(** [Iterator::take_while]. *)
Fixpoint take_while {A} (f : A → bool) (l : list A) : list A :=
  match l with
  | [] => []
  | x :: l => if f x then x :: take_while f l else []
  end.

(** [after.is_none_or(|after| id > after)]. *)
Definition after_cursor (after : option str) (id : str) : bool :=
  match after with Some after => negb (str_leb id after) | None => true end.

(** [range((tenant, after)..).take_while(tenant).filter(after)], the values. *)
Definition range_after {V} (m : gmap (str * str) V) (tenant : str) (after : option str) : list V :=
  let start := (tenant, default [] after) in
  (List.filter (λ p : (str * str) * V, after_cursor after p.1.2)
    (take_while (λ p, bool_decide (p.1.1 = tenant))
      (List.filter (λ p, pair_leb start p.1) (pairs_iter m)))).*2.

(** ** The order of composite keys *)

Lemma pair_leb_iff k k' :
  pair_leb k k' = true ↔ (str_leb k.1 k'.1 = true ∧ k.1 ≠ k'.1) ∨ (k.1 = k'.1 ∧ str_leb k.2 k'.2 = true).
Proof.
  unfold pair_leb. rewrite orb_true_iff, !andb_true_iff, negb_true_iff, bool_decide_eq_true.
  split; (intros [[H1 H2]|H]; [left|by right]; split; [done|]).
  - intros E. rewrite E, str_leb_refl in H2. done.
  - by apply str_leb_strict.
Qed.

Lemma pair_leb_trans k k' k'' :
  pair_leb k k' = true → pair_leb k' k'' = true → pair_leb k k'' = true.
Proof.
  rewrite !pair_leb_iff. intros [[H1 N1]|[E1 H1]] [[H2 N2]|[E2 H2]].
  - left. split; [by eapply str_leb_trans|]. intros E. apply N1. rewrite <-E in H2.
    by apply str_leb_antisymm.
  - left. by rewrite <-E2.
  - left. by rewrite E1.
  - right. split; [congruence|by eapply str_leb_trans].
Qed.

Lemma pair_leb_total k k' : pair_leb k k' = true ∨ pair_leb k' k = true.
Proof.
  rewrite !pair_leb_iff. destruct (decide (k.1 = k'.1)) as [E|N].
  - destruct (str_leb_total k.2 k'.2); [left|right]; right; by split.
  - destruct (str_leb_total k.1 k'.1); [left|right]; left; split; congruence.
Qed.

Lemma pair_leb_antisymm k k' : pair_leb k k' = true → pair_leb k' k = true → k = k'.
Proof.
  rewrite !pair_leb_iff. destruct k as [a b], k' as [a' b']. simpl.
  intros [[H1 N1]|[E1 H1]] [[H2 N2]|[E2 H2]]; subst; try done.
  - exfalso. apply N1. by apply str_leb_antisymm.
  - f_equal. by apply str_leb_antisymm.
Qed.

#[global] Instance entry_le_trans {V} : Transitive (@entry_le V).
Proof. intros p q r. apply pair_leb_trans. Qed.
#[global] Instance entry_le_total {V} : Total (@entry_le V).
Proof. intros p q. apply pair_leb_total. Qed.

Section iter.
Context {V : Type}.
Implicit Types (m : gmap (str * str) V) (l : list ((str * str) * V)).

Lemma pairs_iter_perm m : pairs_iter m ≡ₚ map_to_list m.
Proof. apply merge_sort_Permutation. Qed.

Lemma elem_of_pairs_iter m k v : (k, v) ∈ pairs_iter m ↔ m !! k = Some v.
Proof. rewrite pairs_iter_perm. apply elem_of_map_to_list. Qed.

Lemma pairs_iter_sorted m : StronglySorted entry_le (pairs_iter m).
Proof. apply Sorted_StronglySorted; [apply _|]. apply Sorted_merge_sort. apply _. Qed.

Lemma pairs_iter_keys m : NoDup (pairs_iter m).*1.
Proof. rewrite pairs_iter_perm. apply NoDup_fst_map_to_list. Qed.

(** Two key-sorted lists of the same entries are the same list. *)
Lemma entries_unique l l' :
  StronglySorted entry_le l → StronglySorted entry_le l' → NoDup l.*1 → l ≡ₚ l' → l = l'.
Proof.
  intros H1 H2 Hnd Hp. eapply (StronglySorted_unique_strong entry_le); [|exact H1|exact H2|exact Hp].
  intros [k v] [k' v'] Hx Hy Hle Hle'. assert (k = k') as <- by (by apply pair_leb_antisymm).
  rewrite <-Hp in Hy. f_equal. apply list_elem_of_lookup in Hx as [i Hi], Hy as [j Hj].
  assert (i = j) as <-.
  { eapply NoDup_lookup; [exact Hnd|rewrite list_lookup_fmap, Hi; done|].
    by rewrite list_lookup_fmap, Hj. }
  congruence.
Qed.
End iter.

(** Iterating over a map whose values are all translated. *)
Lemma pairs_iter_imap {V W} (f : str * str → V → option W) (m : gmap (str * str) V) :
  pairs_iter (map_imap f m) = omap (λ p, pair p.1 <$> f p.1 p.2) (pairs_iter m).
Proof.
  apply entries_unique.
  - apply pairs_iter_sorted.
  - pose proof (pairs_iter_sorted m) as H. induction H as [|p l Hl IH Hp]; simpl; [constructor|].
    destruct (f p.1 p.2) as [w|]; simpl; [|done]. constructor; [done|].
    apply Forall_forall. intros q (p' & Hp' & Hq)%list_elem_of_omap.
    apply fmap_Some in Hq as (w' & _ & ->). exact (proj1 (Forall_forall _ _) Hp p' Hp').
  - apply pairs_iter_keys.
  - apply NoDup_Permutation.
    + eapply NoDup_fmap_1, pairs_iter_keys.
    + apply (NoDup_fmap_1 fst). assert ((omap (λ p, pair p.1 <$> f p.1 p.2) (pairs_iter m)).*1
        `sublist_of` (pairs_iter m).*1) as Hs.
      { induction (pairs_iter m) as [|p l IH]; simpl; [constructor|].
        destruct (f p.1 p.2); simpl; by constructor. }
      exact (sublist_NoDup _ _ (pairs_iter_keys m) Hs).
    + intros [k w]. rewrite elem_of_pairs_iter, map_lookup_imap, list_elem_of_omap. split.
      * intros (v & Hv & Hf)%bind_Some. exists (k, v). rewrite elem_of_pairs_iter. split; [done|].
        simpl. by rewrite Hf.
      * intros ([k' v] & Hv%elem_of_pairs_iter & Hf%fmap_Some). destruct Hf as (w' & Hw & [= -> ->]).
        simpl in *. by rewrite Hv.
Qed.

(** ** The values of one tenant after a cursor *)

Definition in_scope {V} (tenant : str) (after : option str) (p : (str * str) * V) : bool :=
  bool_decide (p.1.1 = tenant) && after_cursor after p.1.2.

Definition values_after {V} (v : gmap (str * str) V) (tenant : str) (after : option str) : list V :=
  (List.filter (in_scope tenant after) (pairs_iter v)).*2.

Lemma take_while_tenant {V} (tenant start : str) (l : list ((str * str) * V)) :
  StronglySorted entry_le l → (∀ p, p ∈ l → pair_leb (tenant, start) p.1 = true) →
  take_while (λ p, bool_decide (p.1.1 = tenant)) l
  = List.filter (λ p, bool_decide (p.1.1 = tenant)) l.
Proof.
  induction 1 as [|p l Hl IH Hp]; intros Hs; simpl; [done|].
  destruct (bool_decide (p.1.1 = tenant)) eqn:E.
  - f_equal. apply IH. intros q Hq. apply Hs. by right.
  - bool_hyps. symmetry. apply filter_none. intros q Hq. apply bool_decide_eq_false_2. intros Ht.
    pose proof (proj1 (Forall_forall _ _) Hp q Hq) as Hle. unfold entry_le in Hle.
    pose proof (Hs p ltac:(left)) as Hge. apply pair_leb_iff in Hle as [[H1 N1]|[H1 _]]; [|congruence].
    apply pair_leb_iff in Hge as [[H2 N2]|[H2 _]]; simpl in *; [|congruence].
    rewrite Ht in H1. apply N2. by apply str_leb_antisymm.
Qed.

Lemma range_after_values {V} (m : gmap (str * str) V) tenant after :
  range_after m tenant after = values_after m tenant after.
Proof.
  unfold range_after, values_after. f_equal. rewrite (take_while_tenant tenant (default [] after)).
  - rewrite !filter_filter_and. apply filter_ext. intros [[t i] sn]. unfold in_scope. simpl.
    destruct (bool_decide (t = tenant)) eqn:E; simpl; [|by rewrite !andb_false_r].
    bool_hyps. subst t. rewrite andb_true_r.
    destruct (after_cursor after i) eqn:Ea; simpl; [|done]. apply pair_leb_iff. right.
    simpl. split; [done|]. destruct after as [a|]; simpl in *; [|by destruct i].
    bool_hyps. destruct (str_leb_total a i); [done|congruence].
  - apply StronglySorted_filter, pairs_iter_sorted.
  - intros p [_ Hp]%list_elem_of_In%filter_In. done.
Qed.

Section scope.
Context {V : Type} (vid : V → str).
Implicit Types v : gmap (str * str) V.

Lemma elem_of_values_after v tenant after sn :
  sn ∈ values_after v tenant after ↔
  ∃ id, v !! (tenant, id) = Some sn ∧ after_cursor after id = true.
Proof.
  unfold values_after. rewrite list_elem_of_fmap. split.
  - intros ([[t i] sn'] & -> & [Hin Hs]%list_elem_of_In%filter_In). unfold in_scope in Hs. simpl in *.
    bool_hyps. subst t. exists i. split; [|done]. by apply elem_of_pairs_iter, list_elem_of_In.
  - intros (i & Hv & Ha). exists ((tenant, i), sn). split; [done|].
    apply list_elem_of_In, filter_In. split; [by apply list_elem_of_In, elem_of_pairs_iter|].
    unfold in_scope. simpl. by rewrite bool_decide_eq_true_2, Ha.
Qed.

(** The values are stored under their own identity. *)
Definition self_keyed v : Prop := ∀ key sn, v !! key = Some sn → vid sn = key.2.

Lemma values_after_sorted v tenant after :
  self_keyed v →
  StronglySorted (λ s s', str_leb (vid s) (vid s') = true ∧ vid s ≠ vid s')
    (values_after v tenant after).
Proof.
  intros Hk. unfold values_after.
  assert (StronglySorted entry_le (List.filter (in_scope tenant after) (pairs_iter v))) as Hs
    by (apply StronglySorted_filter, pairs_iter_sorted).
  assert (NoDup (List.filter (in_scope tenant after) (pairs_iter v)).*1) as Hnd.
  { eapply sublist_NoDup; [apply (pairs_iter_keys v)|]. apply fmap_sublist, filter_sublist. }
  assert (∀ p, p ∈ List.filter (in_scope tenant after) (pairs_iter v) →
    p.1.1 = tenant ∧ vid p.2 = p.1.2) as Hp.
  { intros [k sn] [Hin Hs']%list_elem_of_In%filter_In. unfold in_scope in Hs'. bool_hyps.
    split; [done|]. apply list_elem_of_In, elem_of_pairs_iter in Hin. simpl. by apply Hk. }
  revert Hs Hnd Hp. generalize (List.filter (in_scope tenant after) (pairs_iter v)).
  intros l Hs. induction Hs as [|p l Hs IH Hall]; intros Hnd Hp; [constructor|].
  apply NoDup_cons in Hnd as [Hn Hnd]. simpl. constructor.
  - apply IH; [done|]. intros q Hq. apply Hp. by right.
  - apply Forall_forall. intros s (q & -> & Hq)%list_elem_of_fmap.
    pose proof (proj1 (Forall_forall _ _) Hall q Hq) as Hle.
    destruct (Hp p ltac:(left)) as [T1 I1]. destruct (Hp q ltac:(by right)) as [T2 I2].
    rewrite I1, I2. unfold entry_le in Hle. apply pair_leb_iff in Hle as [[_ N]|[_ L]]; [congruence|].
    split; [done|]. intros E. apply Hn. apply list_elem_of_fmap. exists q. split; [|done].
    destruct p as [[a b] ?], q as [[c d] ?]. simpl in *. congruence.
Qed.

Lemma values_after_ids v tenant after :
  self_keyed v → NoDup (vid <$> values_after v tenant after).
Proof.
  intros Hs%(values_after_sorted v tenant after). induction Hs as [|s l Hs IH Hall]; [constructor|].
  unfold fmap in *. simpl. apply NoDup_cons. split; [|done].
  intros (s' & E & Hin)%list_elem_of_fmap.
  by destruct (proj1 (Forall_forall _ _) Hall s' Hin) as [_ N].
Qed.

(** The values after a stored one are those of the range with a larger identity. *)
Lemma values_after_from v tenant after sn :
  self_keyed v → sn ∈ values_after v tenant after →
  values_after v tenant (Some (vid sn))
  = List.filter (λ s, negb (str_leb (vid s) (vid sn))) (values_after v tenant after).
Proof.
  intros Hk (id & Hv & Ha)%elem_of_values_after.
  pose proof (Hk _ _ Hv) as Hid. simpl in Hid. unfold values_after.
  rewrite filter_snd, filter_filter_and. f_equal. apply filter_ext_in.
  intros [[t i] s] Hin%list_elem_of_In%elem_of_pairs_iter. apply Hk in Hin. simpl in Hin.
  unfold in_scope. simpl. destruct (bool_decide (t = tenant)); simpl; [|by rewrite andb_false_r].
  rewrite Hin, Hid. destruct (after_cursor after i) eqn:Ea; [by rewrite andb_true_r|].
  rewrite andb_false_r. apply negb_false_iff.
  destruct after as [a|]; [|done]. simpl in *. bool_hyps.
  destruct (str_leb_total id a); [congruence|]. by apply (str_leb_trans i a id).
Qed.

(** Continuing after the last visited value gives exactly the values not
    visited, also among those a filter keeps. *)
Lemma filtered_after_cursor v tenant after (f : V → bool) visited rest sn :
  self_keyed v → List.filter f (values_after v tenant after) = (visited ++ [sn]) ++ rest →
  List.filter f (values_after v tenant (Some (vid sn))) = rest.
Proof.
  intros Hk E. pose proof (StronglySorted_filter _ f _ (values_after_sorted v tenant after Hk)) as Hs.
  rewrite E in Hs.
  apply StronglySorted_app in Hs as (Hx & Hs1 & _). apply StronglySorted_app in Hs1 as (Hy & _ & _).
  assert (sn ∈ values_after v tenant after) as Hin.
  { assert (sn ∈ List.filter f (values_after v tenant after)) as Hf by (rewrite E; set_solver).
    by apply list_elem_of_In, filter_In in Hf as [?%list_elem_of_In _]. }
  rewrite (values_after_from v tenant after sn Hk Hin), filter_filter_and.
  assert (∀ l, List.filter (λ x, f x && negb (str_leb (vid x) (vid sn))) l
    = List.filter (λ x, negb (str_leb (vid x) (vid sn))) (List.filter f l)) as ->
    by (intros l; rewrite filter_filter_and; apply filter_ext; intros; apply andb_comm).
  rewrite E, !List.filter_app, (filter_none _ visited), (filter_all _ rest); simpl.
  - by rewrite str_leb_refl.
  - intros x Hr. destruct (Hx sn x) as [L N]; [set_solver|done|]. apply negb_true_iff.
    by apply str_leb_strict.
  - intros x Hr. apply negb_false_iff. apply (Hy x sn); [done|set_solver].
Qed.

Lemma values_after_cursor v tenant after visited rest sn :
  self_keyed v → values_after v tenant after = (visited ++ [sn]) ++ rest →
  values_after v tenant (Some (vid sn)) = rest.
Proof.
  intros Hk E. rewrite <-(filter_all (λ _, true) (values_after v tenant (Some (vid sn)))) by done.
  eapply (filtered_after_cursor v tenant after _ visited); [done|]. by rewrite filter_all.
Qed.
End scope.

(** A page of at most [limit] values, cut from one more value than fits. *)
Lemma page_cut {A} (limit : Z) (l : list A) :
  (1 ≤ limit)%Z →
  take (Z.to_nat limit) (take (Z.to_nat (limit + 1)) l) = take (Z.to_nat limit) l ∧
  ((limit <? len (take (Z.to_nat (limit + 1)) l))%Z = true ↔ drop (Z.to_nat limit) l ≠ []) ∧
  (drop (Z.to_nat limit) l ≠ [] → take (Z.to_nat limit) l ≠ []) ∧
  (len (take (Z.to_nat limit) l) ≤ limit)%Z ∧
  ((limit <? len (take (Z.to_nat (limit + 1)) l))%Z = true → len (take (Z.to_nat limit) l) = limit).
Proof.
  intros Hl. unfold len. rewrite Z.ltb_lt, <-!length_zero_iff_nil, length_drop, !length_take, take_take.
  split_and!; [f_equal; lia|split; lia|lia..].
Qed.
