(* ===== verification/TaskGraph.v ===== *)
(** The Task Graph aggregate of src/src/orchestration/mod.rs: a DAG of Tasks
    with fenced leases, ordered messages and attempt bindings, and every
    operation on it.  A method on [&mut self] is a computation in [M
    TaskGraph]; the generated identities are an argument ([fresh i] is the
    i-th identity the call generates, see [Kernel.generate]). *)

From Stdlib Require Import ZArith Lia.
From stdpp Require Import sorting base tactics list gmap numbers strings option.
From stdpp Require Import list.
From S2P Require Import Prelude Kernel.

(** * Constants *)

Definition MAX_TASKS : Z := 10000.
Definition MAX_CLAIMS_PER_BATCH : Z := 64.
Definition MAX_TASK_CAPABILITIES : Z := 64.
Definition MAX_DEPENDENCIES_PER_TASK : Z := 1024.
Definition MAX_ARTIFACTS_PER_COMPLETION : Z := 1024.
Definition MAX_MESSAGES : Z := 100000.
Definition MAX_TASK_ATTEMPT_BINDINGS : Z := 100000.
Definition MAX_MESSAGE_PAGE_ITEMS : Z := 256.
Definition MAX_MESSAGE_PAGE_BYTES : Z := 2097152.
Definition MAX_TASK_GRAPH_JSON_BYTES : Z := 67108864.
Definition TASK_GRAPH_BASE_CHARGE_BYTES : Z := 1024.
Definition ACTIVE_TASK_TERMINAL_RESERVE_BYTES : Z := 1024.
Definition MAX_TASK_TEXT_BYTES : Z := 65536.
Definition MAX_MESSAGE_BYTES : Z := 65536.
Definition MAX_URI_BYTES : Z := 4096.

(** * Data *)

Abbreviation TaskId := str.
Abbreviation TaskLeaseId := str.
Abbreviation TaskMessageId := str.
Abbreviation ArtifactId := str.
Abbreviation TaskCapabilitySet := (gset str).

Inductive WorkspaceMode := WsNone | WsIsolated | WsSharedReadOnly.

Record TaskDefinition := {
  td_id : TaskId;
  td_description : str;
  td_dependencies : gset TaskId;
  td_priority : Z;
  td_workspace : WorkspaceMode;
  td_required_capabilities : TaskCapabilitySet;
}.

Record TaskLease := {
  lease_id : TaskLeaseId;
  lease_owner : str;
  lease_attempt : Z;
  lease_expires_at_ms : Z;
}.

Record TaskAttemptBinding := {
  tab_task_id : TaskId;
  tab_lease_id : TaskLeaseId;
  tab_attempt : Z;
  tab_claimed_by : str;
  tab_claimed_at_ms : Z;
  tab_execution_binding : ExecutionBinding;
}.

Record TaskArtifact := {
  art_id : ArtifactId;
  art_producer : TaskId;
  art_uri : str;
  art_content_sha256 : str;
  art_media_type : str;
  art_size_bytes : Z;
}.

Record TaskCompletion := {
  tc_summary : str;
  tc_artifacts : list TaskArtifact;
}.

Inductive TaskStatus :=
| Pending
| Running (lease : TaskLease)
| Completed (completion : TaskCompletion)
| Failed (reason : str)
| Cancelled (reason : str)
| Blocked (reason : str).

Record TaskRecord := {
  tr_definition : TaskDefinition;
  tr_status : TaskStatus;
  tr_attempts : Z;
}.

Record TaskClaim := {
  claim_task : TaskDefinition;
  claim_lease : TaskLease;
  claim_execution_binding : option ExecutionBinding;
}.

Record TaskMessage := {
  msg_id : TaskMessageId;
  msg_sequence : Z;
  msg_from : TaskId;
  msg_to : TaskId;
  msg_body : str;
  msg_created_at_ms : Z;
}.

Record TaskMessagePage := {
  page_messages : list TaskMessage;
  page_next_after_sequence : option Z;
  page_has_more : bool;
}.

Record TaskGraph := {
  tasks : gmap TaskId TaskRecord;
  messages : list TaskMessage;
  attempt_bindings : list TaskAttemptBinding;
  next_message_sequence : Z;
  materialization_charge_bytes : Z;
}.

Record TaskMutation := {
  mut_id : TaskId;
  mut_status : TaskStatus;
  mut_attempts : Z;
  mut_attempt_binding : option TaskAttemptBinding;
}.

(** ** [derive(Eq)] *)

#[global] Instance WorkspaceMode_eq : EqDecision WorkspaceMode.
Proof. solve_decision. Defined.
#[global] Instance TaskDefinition_eq : EqDecision TaskDefinition.
Proof. solve_decision. Defined.
#[global] Instance TaskLease_eq : EqDecision TaskLease.
Proof. solve_decision. Defined.
#[global] Instance TaskAttemptBinding_eq : EqDecision TaskAttemptBinding.
Proof. solve_decision. Defined.
#[global] Instance TaskArtifact_eq : EqDecision TaskArtifact.
Proof. solve_decision. Defined.
#[global] Instance TaskCompletion_eq : EqDecision TaskCompletion.
Proof. solve_decision. Defined.
#[global] Instance TaskStatus_eq : EqDecision TaskStatus.
Proof. solve_decision. Defined.
#[global] Instance TaskRecord_eq : EqDecision TaskRecord.
Proof. solve_decision. Defined.
#[global] Instance TaskMessage_eq : EqDecision TaskMessage.
Proof. solve_decision. Defined.
#[global] Instance TaskGraph_eq : EqDecision TaskGraph.
Proof. solve_decision. Defined.

(** ** Status classes, the [matches!] patterns of the source *)

Definition is_pending (s : TaskStatus) : bool :=
  match s with Pending => true | _ => false end.
Definition is_completed (s : TaskStatus) : bool :=
  match s with Completed _ => true | _ => false end.
Definition is_terminal_status (s : TaskStatus) : bool :=
  match s with Completed _ | Failed _ | Cancelled _ | Blocked _ => true | _ => false end.
(** Failed, cancelled or blocked: the dependents cannot run. *)
Definition is_dead (s : TaskStatus) : bool :=
  match s with Failed _ | Cancelled _ | Blocked _ => true | _ => false end.
(** [TaskStatus::Running { lease } if lease.expires_at_ms <= now_ms]. *)
Definition is_expired (now_ms : Z) (s : TaskStatus) : bool :=
  match s with Running l => (lease_expires_at_ms l <=? now_ms)%Z | _ => false end.

(** * Validators *)

Definition orch (t : string) (a : list arg) : HarnessError := Orchestration (fmt t a).

Definition validate_task_id (task_id : TaskId) : result () :=
  reject_if (str_is_empty task_id || (256 <? str_len task_id)%Z || any_control task_id)
    (orch "Task identity must be 1-256 non-control bytes" []).

Definition validate_task_text (field : string) (value : str) : result () :=
  reject_if (trim_is_empty value || (MAX_TASK_TEXT_BYTES <? str_len value)%Z)
    (orch "{} must be 1-{} bytes" [ALit field; ANum MAX_TASK_TEXT_BYTES]).

(** [TaskCapabilitySet::validate]. *)
Definition capabilities_validate (c : TaskCapabilitySet) : result () :=
  _ ← reject_if (MAX_TASK_CAPABILITIES <? Z.of_nat (size c))%Z
        (InvalidCapability (fmt "Task capability set exceeds {} entries"
          [ANum MAX_TASK_CAPABILITIES]));
  for_each (validate_capability_name "Task execution capability") (bs_iter c).

(** [TaskCapabilitySet::new]. *)
Definition capabilities_new (l : list str) : result TaskCapabilitySet :=
  values ← fold_m (λ (values : gset str) c,
      _ ← reject_if (bool_decide (c ∈ values))
            (InvalidCapability (fmt "duplicate Task execution capability" []));
      Ok ({[c]} ∪ values)) ∅ l;
  _ ← capabilities_validate values;
  Ok values.

(** [TaskCapabilitySet::satisfies]. *)
Definition satisfies (worker requirements : TaskCapabilitySet) : bool :=
  bool_decide (requirements ⊆ worker).

Definition validate_task_definition (d : TaskDefinition) : result () :=
  _ ← validate_task_id (td_id d);
  _ ← capabilities_validate (td_required_capabilities d);
  _ ← reject_if (MAX_DEPENDENCIES_PER_TASK <? Z.of_nat (size (td_dependencies d)))%Z
        (orch "Task {} exceeds {} dependencies"
          [AStr (td_id d); ANum MAX_DEPENDENCIES_PER_TASK]);
  _ ← for_each validate_task_id (bs_iter (td_dependencies d));
  validate_task_text "Task description" (td_description d).

Definition validate_artifact (task_id : TaskId) (artifact_ids : gset ArtifactId)
    (a : TaskArtifact) : result (gset ArtifactId) :=
  _ ← reject_if (bool_decide (art_producer a ≠ task_id))
        (orch "Artifact {} producer does not match Task {}" [AStr (art_id a); AStr task_id]);
  _ ← reject_if (bool_decide (art_id a ∈ artifact_ids))
        (orch "duplicate Artifact {}" [AStr (art_id a)]);
  _ ← reject_if (trim_is_empty (art_uri a) || (MAX_URI_BYTES <? str_len (art_uri a))%Z)
        (orch "Artifact {} URI must be 1-{} bytes" [AStr (art_id a); ANum MAX_URI_BYTES]);
  _ ← reject_if (trim_is_empty (art_media_type a) || (255 <? str_len (art_media_type a))%Z)
        (orch "Artifact {} media type is invalid" [AStr (art_id a)]);
  _ ← reject_if (negb (is_lower_sha256 (art_content_sha256 a)))
        (orch "Artifact {} digest must be lowercase SHA-256" [AStr (art_id a)]);
  Ok ({[art_id a]} ∪ artifact_ids).

Definition validate_completion (task_id : TaskId) (c : TaskCompletion) : result () :=
  _ ← validate_task_text "Task completion summary" (tc_summary c);
  _ ← reject_if (MAX_ARTIFACTS_PER_COMPLETION <? len (tc_artifacts c))%Z
        (orch "Task completion exceeds {} Artifacts" [ANum MAX_ARTIFACTS_PER_COMPLETION]);
  _ ← fold_m (validate_artifact task_id) ∅ (tc_artifacts c);
  Ok ().

Definition current_lease (ts : gmap TaskId TaskRecord) (task_id : TaskId)
    (token : TaskLeaseId) (now_ms : Z) : result TaskLease :=
  record ← ok_or (ts !! task_id) (orch "Task {} does not exist" [AStr task_id]);
  match tr_status record with
  | Running lease =>
      _ ← reject_if (bool_decide (lease_id lease ≠ token))
            (orch "Task {} lease token is stale" [AStr task_id]);
      _ ← reject_if (lease_expires_at_ms lease <=? now_ms)%Z
            (orch "Task {} lease expired" [AStr task_id]);
      Ok lease
  | _ => Err (orch "Task {} is not running" [AStr task_id])
  end.

(** ** Depth-first search for dependency cycles

    [fuel] bounds the depth of the recursion; [S (size ts)] is always enough
    (see [validate_acyclic_error]). *)
Fixpoint visit (fuel : nat) (ts : gmap TaskId TaskRecord) (id : TaskId)
    (st : gset TaskId * gset TaskId) : result (gset TaskId * gset TaskId) :=
  match fuel with
  | O => Err (orch "recursion limit" [])
  | S fuel =>
      let '(visiting, visited) := st in
      if bool_decide (id ∈ visited) then Ok (visiting, visited)
      else if bool_decide (id ∈ visiting)
      then Err (orch "Task dependency cycle includes {}" [AStr id])
      else
        let visiting := {[id]} ∪ visiting in
        record ← ok_or (ts !! id) (orch "Task {} disappeared during validation" [AStr id]);
        st' ← fold_m (λ st dependency, visit fuel ts dependency st) (visiting, visited)
                (bs_iter (td_dependencies (tr_definition record)));
        let '(visiting, visited) := st' in
        Ok (visiting ∖ {[id]}, {[id]} ∪ visited)
  end.

Definition validate_acyclic (ts : gmap TaskId TaskRecord) : result () :=
  _ ← fold_m (λ st id, visit (S (size ts)) ts id st) (∅, ∅) (bt_keys ts);
  Ok ().

(** * Charges and operations, over the JSON codec *)

Section graph.
Context `{!Serialize ExecutionBinding, !Serialize (TaskId * TaskRecord),
          !Serialize TaskMessage, !Serialize TaskAttemptBinding}.

Definition task_materialization_charge_parts (task_id : TaskId) (d : TaskDefinition)
    (s : TaskStatus) (attempts : Z) : result Z :=
  encoded ← json_len (orch "encode Task record: {}" [])
              (task_id, {| tr_definition := d; tr_status := s; tr_attempts := attempts |});
  let reserve := match s with
                 | Pending | Running _ => ACTIVE_TASK_TERMINAL_RESERVE_BYTES
                 | _ => 0%Z
                 end in
  ok_or (checked_add usize_max encoded reserve) (orch "Task charge overflow" []).

Definition task_materialization_charge (task_id : TaskId) (r : TaskRecord) : result Z :=
  task_materialization_charge_parts task_id (tr_definition r) (tr_status r) (tr_attempts r).

Definition message_materialization_charge (m : TaskMessage) : result Z :=
  n ← json_len (orch "encode Task message: {}" []) m;
  ok_or (checked_add usize_max n 1) (orch "Task message charge overflow" []).

Definition attempt_binding_materialization_charge (b : TaskAttemptBinding) : result Z :=
  n ← json_len (orch "encode Task attempt binding: {}" []) b;
  ok_or (checked_add usize_max n 1) (orch "Task binding charge overflow" []).

Definition checked_graph_charge_add (left right : Z) : result Z :=
  ok_or (checked_add usize_max left right) (orch "Task Graph charge overflow" []).

Definition validate_graph_charge (charge : Z) : result () :=
  reject_if (MAX_TASK_GRAPH_JSON_BYTES <? charge)%Z
    (orch "Task Graph materialization charge exceeds {} bytes"
      [ANum MAX_TASK_GRAPH_JSON_BYTES]).

Definition calculate_materialization_charge (g : TaskGraph) : result Z :=
  total ← fold_m (λ total '(task_id, record),
            n ← task_materialization_charge task_id record;
            checked_graph_charge_add total n)
            TASK_GRAPH_BASE_CHARGE_BYTES (bt_iter (tasks g));
  total ← fold_m (λ total m,
            n ← message_materialization_charge m;
            checked_graph_charge_add total n) total (messages g);
  total ← fold_m (λ total b,
            n ← attempt_binding_materialization_charge b;
            checked_graph_charge_add total n) total (attempt_bindings g);
  _ ← validate_graph_charge total;
  Ok total.

Definition validate_attempt_binding (b : TaskAttemptBinding) : result () :=
  _ ← validate_task_id (tab_task_id b);
  _ ← validate_capability_name "worker" (tab_claimed_by b);
  _ ← reject_if (tab_attempt b =? 0)%Z
        (orch "Task attempt binding number must be positive" []);
  match binding_validate (tab_execution_binding b) with
  | Ok _ => Ok ()
  | Err _ => Err (orch "invalid Task attempt execution binding: {}" [])
  end.

(** ** Construction *)

Definition pending_record (d : TaskDefinition) : TaskRecord :=
  {| tr_definition := d; tr_status := Pending; tr_attempts := 0 |}.

(** One iteration of the first loop of [TaskGraph::new]. *)
Definition insert_definition (ts : gmap TaskId TaskRecord) (d : TaskDefinition)
    : result (gmap TaskId TaskRecord) :=
  _ ← validate_task_definition d;
  _ ← reject_if (bool_decide (is_Some (ts !! td_id d)))
        (orch "duplicate Task {}" [AStr (td_id d)]);
  Ok (<[td_id d := pending_record d]> ts).

(** One iteration of the second loop. *)
Definition check_dependencies (ts : gmap TaskId TaskRecord) (r : TaskRecord) : result () :=
  for_each (λ dependency,
    _ ← reject_if (bool_decide (dependency = td_id (tr_definition r)))
          (orch "Task {} depends on itself" [AStr (td_id (tr_definition r))]);
    reject_if (bool_decide (ts !! dependency = None))
      (orch "Task {} depends on missing Task {}"
        [AStr (td_id (tr_definition r)); AStr dependency]))
    (bs_iter (td_dependencies (tr_definition r))).

(** [TaskGraph::new]. *)
Definition TaskGraph_new (definitions : list TaskDefinition) : result TaskGraph :=
  _ ← reject_if (MAX_TASKS <? len definitions)%Z
        (orch "Task Graph exceeds {} Tasks" [ANum MAX_TASKS]);
  ts ← fold_m insert_definition ∅ definitions;
  _ ← for_each (check_dependencies ts) (bt_values ts);
  _ ← validate_acyclic ts;
  let graph := {| tasks := ts; messages := []; attempt_bindings := [];
                  next_message_sequence := 1; materialization_charge_bytes := 0 |} in
  charge ← calculate_materialization_charge graph;
  Ok {| tasks := ts; messages := []; attempt_bindings := [];
        next_message_sequence := 1; materialization_charge_bytes := charge |}.

(** ** Observers *)

Definition execution_binding_for_lease (g : TaskGraph) (l : TaskLeaseId)
    : option ExecutionBinding :=
  tab_execution_binding <$>
    List.find (λ b, bool_decide (tab_lease_id b = l)) (attempt_bindings g).

Definition is_terminal (g : TaskGraph) : bool :=
  forallb (λ r, is_terminal_status (tr_status r)) (bt_values (tasks g)).

Definition remaining_materialization_bytes (g : TaskGraph) : Z :=
  saturating_sub MAX_TASK_GRAPH_JSON_BYTES (materialization_charge_bytes g).

(** Every dependency of the record exists and is completed. *)
Definition dependencies_completed (ts : gmap TaskId TaskRecord) (r : TaskRecord) : bool :=
  forallb (λ dependency,
    match ts !! dependency with
    | Some d => is_completed (tr_status d)
    | None => false
    end) (bs_iter (td_dependencies (tr_definition r))).

(** Larger priorities first, then smaller identities. *)
Definition ready_le (a b : Z * TaskId) : Prop :=
  (b.1 < a.1)%Z ∨ (a.1 = b.1 ∧ str_le a.2 b.2).
#[global] Instance ready_le_dec : RelDecision ready_le.
Proof. intros a b. unfold ready_le. apply _. Defined.

Definition ready_key (r : TaskRecord) : Z * TaskId :=
  (td_priority (tr_definition r), td_id (tr_definition r)).

Definition ready_matching (g : TaskGraph) (worker : option TaskCapabilitySet) : list TaskId :=
  let ready := List.filter (λ r,
      is_pending (tr_status r) && dependencies_completed (tasks g) r &&
      match worker with
      | None => true
      | Some c => satisfies c (td_required_capabilities (tr_definition r))
      end) (bt_values (tasks g)) in
  snd <$> merge_sort ready_le (ready_key <$> ready).

Definition ready (g : TaskGraph) : list TaskId := ready_matching g None.
Definition ready_for (g : TaskGraph) (c : TaskCapabilitySet) : list TaskId :=
  ready_matching g (Some c).

(** ** Dependency blocking *)

(** [format!("dependency {dependency} did not complete")]. *)
Definition blocked_reason (dependency : TaskId) : str :=
  lit "dependency " ++ dependency ++ lit " did not complete".

Definition block_record (failed pending_overrides : gset TaskId) (r : TaskRecord)
    : option TaskMutation :=
  let id := td_id (tr_definition r) in
  if negb (bool_decide (id ∈ failed)) &&
     (is_pending (tr_status r) || bool_decide (id ∈ pending_overrides))
  then
    dependency ← List.find (λ d, bool_decide (d ∈ failed))
                   (bs_iter (td_dependencies (tr_definition r)));
    Some {| mut_id := id; mut_status := Blocked (blocked_reason dependency);
            mut_attempts := tr_attempts r; mut_attempt_binding := None |}
  else None.

(** The [loop] of [blocked_mutations]; each round adds at least one Task to
    [failed], so [S (size tasks)] rounds always reach the empty one (see
    [blocked_loop_total]). *)
Fixpoint blocked_loop (fuel : nat) (g : TaskGraph) (pending_overrides failed : gset TaskId)
    (mutations : list TaskMutation) : option (list TaskMutation) :=
  match fuel with
  | O => None
  | S fuel =>
      let newly_blocked :=
        omap (block_record failed pending_overrides) (bt_values (tasks g)) in
      match newly_blocked with
      | [] => Some mutations
      | _ => blocked_loop fuel g pending_overrides
               (list_to_set (mut_id <$> newly_blocked) ∪ failed)
               (mutations ++ newly_blocked)
      end
  end.

(** The identities of the records that are failed, cancelled or blocked. *)
Definition dead_ids (g : TaskGraph) : gset TaskId :=
  list_to_set ((λ r, td_id (tr_definition r)) <$>
    List.filter (λ r, is_dead (tr_status r)) (bt_values (tasks g))).

Definition blocked_mutations (g : TaskGraph) (pending_overrides : gset TaskId)
    (additional_failed : option TaskId) : list TaskMutation :=
  let failed := match additional_failed with
                | Some task_id => {[task_id]} ∪ dead_ids g
                | None => dead_ids g
                end in
  default [] (blocked_loop (S (size (tasks g))) g pending_overrides failed []).

(** ** The single place that mutates Task records *)

(** Loop state of the validation pass: mutated identities, bound leases and
    the running charge. *)
Record ApplyState := {
  as_seen : gset TaskId;
  as_lease_ids : gset TaskLeaseId;
  as_charge : Z;
}.

Definition check_mutation (ts : gmap TaskId TaskRecord) (st : ApplyState) (m : TaskMutation)
    : result ApplyState :=
  _ ← reject_if (bool_decide (mut_id m ∈ as_seen st))
        (orch "duplicate Task mutation {}" [AStr (mut_id m)]);
  current ← ok_or (ts !! mut_id m) (orch "Task {} does not exist" [AStr (mut_id m)]);
  current_charge ← task_materialization_charge (mut_id m) current;
  candidate_charge ← task_materialization_charge_parts (mut_id m)
                       (tr_definition current) (mut_status m) (mut_attempts m);
  charge ← ok_or (checked_sub (as_charge st) current_charge)
             (orch "Task Graph materialization charge is inconsistent" []);
  next_charge ← checked_graph_charge_add charge candidate_charge;
  let seen := {[mut_id m]} ∪ as_seen st in
  match mut_attempt_binding m with
  | None => Ok {| as_seen := seen; as_lease_ids := as_lease_ids st; as_charge := next_charge |}
  | Some evidence =>
      _ ← validate_attempt_binding evidence;
      match mut_status m with
      | Running lease =>
          _ ← reject_if (bool_decide (tab_task_id evidence ≠ mut_id m)
                         || bool_decide (tab_lease_id evidence ≠ lease_id lease)
                         || negb (tab_attempt evidence =? mut_attempts m)%Z
                         || negb (tab_attempt evidence =? lease_attempt lease)%Z
                         || bool_decide (tab_claimed_by evidence ≠ lease_owner lease))
                (orch "Task attempt binding does not match its lease" []);
          _ ← reject_if (bool_decide (tab_lease_id evidence ∈ as_lease_ids st))
                (orch "duplicate Task attempt binding lease" []);
          n ← attempt_binding_materialization_charge evidence;
          next_charge ← checked_graph_charge_add next_charge n;
          Ok {| as_seen := seen;
                as_lease_ids := {[tab_lease_id evidence]} ∪ as_lease_ids st;
                as_charge := next_charge |}
      | _ => Err (orch "Task attempt binding requires a running mutation" [])
      end
  end.

(** The body of the second loop: [get_mut] and the assignments, then the
    evidence. *)
Definition commit_mutation (g : TaskGraph) (m : TaskMutation) : TaskGraph :=
  {| tasks := alter (λ r, {| tr_definition := tr_definition r;
                             tr_status := mut_status m;
                             tr_attempts := mut_attempts m |}) (mut_id m) (tasks g);
     messages := messages g;
     attempt_bindings := attempt_bindings g ++ option_list (mut_attempt_binding m);
     next_message_sequence := next_message_sequence g;
     materialization_charge_bytes := materialization_charge_bytes g |}.

Definition set_charge (charge : Z) (g : TaskGraph) : TaskGraph :=
  {| tasks := tasks g; messages := messages g; attempt_bindings := attempt_bindings g;
     next_message_sequence := next_message_sequence g;
     materialization_charge_bytes := charge |}.

Definition apply_task_mutations (mutations : list TaskMutation) : M TaskGraph () :=
  g ← get;
  let appended := len (List.filter (λ m, match mut_attempt_binding m with
                                          | Some _ => true | None => false end) mutations) in
  _ ← lift (reject_if (match checked_add usize_max (len (attempt_bindings g)) appended with
                       | None => true
                       | Some count => (MAX_TASK_ATTEMPT_BINDINGS <? count)%Z
                       end)
        (orch "Task Graph exceeds {} attempt bindings" [ANum MAX_TASK_ATTEMPT_BINDINGS]));
  st ← lift (fold_m (check_mutation (tasks g))
        {| as_seen := ∅;
           as_lease_ids := list_to_set (tab_lease_id <$> attempt_bindings g);
           as_charge := materialization_charge_bytes g |} mutations);
  _ ← lift (validate_graph_charge (as_charge st));
  put (set_charge (as_charge st) (foldl commit_mutation g mutations)).

Definition status_mutation (task_id : TaskId) (s : TaskStatus) (attempts : Z) : TaskMutation :=
  {| mut_id := task_id; mut_status := s; mut_attempts := attempts;
     mut_attempt_binding := None |}.

(** ** Claiming work *)

Definition expired_ids (g : TaskGraph) (now_ms : Z) : gset TaskId :=
  list_to_set ((λ r, td_id (tr_definition r)) <$>
    List.filter (λ r, is_expired now_ms (tr_status r)) (bt_values (tasks g))).

(** The attempt-counter check of the first loop. *)
Definition check_attempts_left (g : TaskGraph) (now_ms : Z) (worker : TaskCapabilitySet)
    (r : TaskRecord) : result () :=
  let can_enter_pending := is_pending (tr_status r) || is_expired now_ms (tr_status r) in
  let claimable_after_maintenance :=
    can_enter_pending
    && satisfies worker (td_required_capabilities (tr_definition r))
    && dependencies_completed (tasks g) r in
  reject_if (claimable_after_maintenance && (tr_attempts r =? u32_max)%Z)
    (orch "Task {} attempt counter is exhausted" [AStr (td_id (tr_definition r))]).

(** The claim order: filtered, sorted and truncated. *)
Definition select_ready (g : TaskGraph) (expired blocked_ids : gset TaskId)
    (worker : TaskCapabilitySet) (maximum : Z) : list (Z * TaskId) :=
  let ready := List.filter (λ r,
      negb (bool_decide (td_id (tr_definition r) ∈ blocked_ids))
      && (is_pending (tr_status r) || bool_decide (td_id (tr_definition r) ∈ expired))
      && satisfies worker (td_required_capabilities (tr_definition r))
      && dependencies_completed (tasks g) r) (bt_values (tasks g)) in
  take (Z.to_nat maximum) (merge_sort ready_le (ready_key <$> ready)).

(** Expired leases that are neither blocked nor claimed again go back to
    pending. *)
Definition release_mutations (g : TaskGraph) (blocked_ids : gset TaskId)
    (mutations : list TaskMutation) (task_id : TaskId) : result (list TaskMutation) :=
  if bool_decide (task_id ∈ blocked_ids) then Ok mutations
  else
    record ← ok_or (tasks g !! task_id) (orch "expired Task {} disappeared" [AStr task_id]);
    Ok (mutations ++ [status_mutation task_id Pending (tr_attempts record)]).

(** One claimed Task: a fresh lease, its evidence and the claim. *)
Definition claim_one (fresh : nat → TaskLeaseId) (g : TaskGraph) (owner : str)
    (now_ms expires_at_ms : Z) (execution_binding : option ExecutionBinding)
    (st : list TaskMutation * list TaskClaim) (key : Z * TaskId)
    : result (list TaskMutation * list TaskClaim) :=
  let '(mutations, claims) := st in
  let task_id := key.2 in
  record ← ok_or (tasks g !! task_id) (orch "ready Task {} disappeared" [AStr task_id]);
  attempts ← ok_or (checked_add u32_max (tr_attempts record) 1)
               (orch "Task {} attempt overflow" [AStr task_id]);
  let lease := {| lease_id := fresh (length claims); lease_owner := owner;
                  lease_attempt := attempts; lease_expires_at_ms := expires_at_ms |} in
  let attempt_binding :=
    (λ b, {| tab_task_id := task_id; tab_lease_id := lease_id lease;
             tab_attempt := attempts; tab_claimed_by := owner;
             tab_claimed_at_ms := now_ms; tab_execution_binding := b |})
      <$> execution_binding in
  Ok (mutations ++ [{| mut_id := task_id; mut_status := Running lease;
                       mut_attempts := attempts; mut_attempt_binding := attempt_binding |}],
      claims ++ [{| claim_task := tr_definition record; claim_lease := lease;
                    claim_execution_binding := execution_binding |}]).

Definition claim_ready_governed (fresh : nat → TaskLeaseId) (owner : str)
    (now_ms lease_duration_ms maximum : Z) (execution_binding : option ExecutionBinding)
    (worker : TaskCapabilitySet) : M TaskGraph (list TaskClaim * bool) :=
  _ ← lift (validate_capability_name "worker" owner);
  _ ← lift (capabilities_validate worker);
  _ ← lift (match execution_binding with Some b => binding_validate b | None => Ok () end);
  _ ← lift (reject_if ((lease_duration_ms =? 0)%Z
                       || negb (in_range 1 MAX_CLAIMS_PER_BATCH maximum))
        (orch "lease duration must be positive and maximum claims must be 1-{}"
          [ANum MAX_CLAIMS_PER_BATCH]));
  expires_at_ms ← lift (ok_or (checked_add u64_max now_ms lease_duration_ms)
                          (orch "Task lease expiration overflow" []));
  g ← get;
  _ ← lift (for_each (check_attempts_left g now_ms worker) (bt_values (tasks g)));
  let expired := expired_ids g now_ms in
  let blocked := blocked_mutations g expired None in
  let blocked_ids := list_to_set (mut_id <$> blocked) in
  let ready := select_ready g expired blocked_ids worker maximum in
  _ ← lift (reject_if
        (bool_decide (execution_binding = None)
         && existsb (λ key, existsb (λ e, bool_decide (tab_task_id e = key.2))
                              (attempt_bindings g)) ready)
        (orch "a governed Task retry requires an execution binding" []));
  let selected : gset TaskId := list_to_set (snd <$> ready) in
  mutations ← lift (fold_m (release_mutations g blocked_ids) blocked
                      (bs_iter (expired ∖ selected)));
  mc ← lift (fold_m (claim_one fresh g owner now_ms expires_at_ms execution_binding)
               (mutations, []) ready);
  let changed := match mc.1 with [] => false | _ => true end in
  _ ← apply_task_mutations mc.1;
  mret (mc.2, changed).

(** [claim_ready_with_binding_and_capabilities] and the three entry points
    that fix the binding or the capabilities. *)
Definition claim_ready_with_binding_and_capabilities (fresh : nat → TaskLeaseId) (owner : str)
    (now_ms lease_duration_ms maximum : Z) (execution_binding : option ExecutionBinding)
    (worker : TaskCapabilitySet) : M TaskGraph (list TaskClaim) :=
  r ← claim_ready_governed fresh owner now_ms lease_duration_ms maximum
        execution_binding worker;
  mret r.1.

Definition claim_ready (fresh : nat → TaskLeaseId) (owner : str)
    (now_ms lease_duration_ms maximum : Z) : M TaskGraph (list TaskClaim) :=
  claim_ready_with_binding_and_capabilities fresh owner now_ms lease_duration_ms maximum
    None ∅.

Definition claim_ready_with_capabilities (fresh : nat → TaskLeaseId) (owner : str)
    (now_ms lease_duration_ms maximum : Z) (worker : TaskCapabilitySet)
    : M TaskGraph (list TaskClaim) :=
  claim_ready_with_binding_and_capabilities fresh owner now_ms lease_duration_ms maximum
    None worker.

Definition claim_ready_with_binding (fresh : nat → TaskLeaseId) (owner : str)
    (now_ms lease_duration_ms maximum : Z) (execution_binding : option ExecutionBinding)
    : M TaskGraph (list TaskClaim) :=
  claim_ready_with_binding_and_capabilities fresh owner now_ms lease_duration_ms maximum
    execution_binding ∅.

(** ** Heartbeat, settlement and maintenance *)

Definition heartbeat (task_id : TaskId) (token : TaskLeaseId) (now_ms expires_at_ms : Z)
    : M TaskGraph () :=
  g ← get;
  lease ← lift (current_lease (tasks g) task_id token now_ms);
  _ ← lift (reject_if ((expires_at_ms <=? now_ms)%Z
                       || (expires_at_ms <=? lease_expires_at_ms lease)%Z)
        (orch "heartbeat must extend the lease into the future" []));
  record ← lift (ok_or (tasks g !! task_id) (orch "Task {} does not exist" [AStr task_id]));
  apply_task_mutations [status_mutation task_id
    (Running {| lease_id := lease_id lease; lease_owner := lease_owner lease;
                lease_attempt := lease_attempt lease;
                lease_expires_at_ms := expires_at_ms |}) (tr_attempts record)].

Definition complete (task_id : TaskId) (token : TaskLeaseId) (now_ms : Z)
    (completion : TaskCompletion) : M TaskGraph () :=
  _ ← lift (validate_completion task_id completion);
  g ← get;
  _ ← lift (current_lease (tasks g) task_id token now_ms);
  record ← lift (ok_or (tasks g !! task_id) (orch "Task {} does not exist" [AStr task_id]));
  apply_task_mutations [status_mutation task_id (Completed completion) (tr_attempts record)].

Definition fail (task_id : TaskId) (token : TaskLeaseId) (now_ms : Z) (reason : str)
    : M TaskGraph () :=
  _ ← lift (validate_task_text "Task failure" reason);
  g ← get;
  _ ← lift (current_lease (tasks g) task_id token now_ms);
  record ← lift (ok_or (tasks g !! task_id) (orch "Task {} does not exist" [AStr task_id]));
  apply_task_mutations (status_mutation task_id (Failed reason) (tr_attempts record)
                        :: blocked_mutations g ∅ (Some task_id)).

Definition cancel (task_id : TaskId) (reason : str) : M TaskGraph () :=
  _ ← lift (validate_task_text "Task cancellation" reason);
  g ← get;
  record ← lift (ok_or (tasks g !! task_id) (orch "Task {} does not exist" [AStr task_id]));
  _ ← lift (reject_if (is_terminal_status (tr_status record))
        (orch "Task {} is already terminal" [AStr task_id]));
  apply_task_mutations (status_mutation task_id (Cancelled reason) (tr_attempts record)
                        :: blocked_mutations g ∅ (Some task_id)).

Definition release_expired (now_ms : Z) : M TaskGraph (list TaskId) :=
  g ← get;
  let mutations := (λ r, status_mutation (td_id (tr_definition r)) Pending (tr_attempts r))
    <$> List.filter (λ r, is_expired now_ms (tr_status r)) (bt_values (tasks g)) in
  _ ← apply_task_mutations mutations;
  mret (mut_id <$> mutations).

(** ** Messages *)

Definition send_message (fresh : TaskMessageId) (from to : TaskId) (body : str)
    (created_at_ms : Z) : M TaskGraph TaskMessage :=
  g ← get;
  _ ← lift (reject_if (MAX_MESSAGES <=? len (messages g))%Z
        (orch "Task Graph exceeds {} messages" [ANum MAX_MESSAGES]));
  _ ← lift (reject_if (bool_decide (tasks g !! from = None)
                       || bool_decide (tasks g !! to = None))
        (orch "Task messages require existing sender and receiver" []));
  _ ← lift (reject_if (trim_is_empty body || (MAX_MESSAGE_BYTES <? str_len body)%Z)
        (orch "Task message must be 1-{} bytes" [ANum MAX_MESSAGE_BYTES]));
  let sequence := next_message_sequence g in
  next_sequence ← lift (ok_or (checked_add u64_max sequence 1)
                          (orch "Task message sequence overflow" []));
  let message := {| msg_id := fresh; msg_sequence := sequence; msg_from := from; msg_to := to;
                    msg_body := body; msg_created_at_ms := created_at_ms |} in
  n ← lift (message_materialization_charge message);
  next_charge ← lift (checked_graph_charge_add (materialization_charge_bytes g) n);
  _ ← lift (validate_graph_charge next_charge);
  _ ← put {| tasks := tasks g; messages := messages g ++ [message];
             attempt_bindings := attempt_bindings g;
             next_message_sequence := next_sequence;
             materialization_charge_bytes := next_charge |};
  mret message.

Definition messages_for (g : TaskGraph) (task_id : TaskId) : list TaskMessage :=
  List.filter (λ m, bool_decide (msg_to m = task_id)) (messages g).

(** The loop of [messages_page_for]: the page so far, its bytes. *)
Fixpoint page_loop (limit bytes : Z) (acc : list TaskMessage) (l : list TaskMessage)
    : result (list TaskMessage * bool) :=
  match l with
  | [] => Ok (acc, false)
  | m :: l =>
      n ← message_materialization_charge m;
      next_bytes ← checked_graph_charge_add bytes n;
      if (len acc =? limit)%Z || (MAX_MESSAGE_PAGE_BYTES <? next_bytes)%Z
      then Ok (acc, true)
      else page_loop limit next_bytes (acc ++ [m]) l
  end.

Definition messages_page_for (g : TaskGraph) (task_id : TaskId) (after_sequence limit : Z)
    : result TaskMessagePage :=
  _ ← reject_if (bool_decide (tasks g !! task_id = None))
        (orch "Task {} does not exist" [AStr task_id]);
  _ ← reject_if (negb (in_range 1 MAX_MESSAGE_PAGE_ITEMS limit))
        (orch "Task message page limit must be 1-{}" [ANum MAX_MESSAGE_PAGE_ITEMS]);
  p ← page_loop limit 0 [] (List.filter (λ m,
        bool_decide (msg_to m = task_id) && (after_sequence <? msg_sequence m)%Z) (messages g));
  Ok {| page_messages := p.1;
        page_next_after_sequence := option_map msg_sequence (vec_last p.1);
        page_has_more := p.2 |}.

(** ** Integrity of a stored or mutated graph *)

Definition validate_execution_binding_tenant (g : TaskGraph) (tenant : option str)
    : result () :=
  match List.find (λ e, bool_decide (eb_tenant_id (tab_execution_binding e) ≠ tenant))
          (attempt_bindings g) with
  | Some e => Err (orch
      "Task {} attempt {} execution binding tenant does not match the Task Graph owner"
      [AStr (tab_task_id e); ANum (tab_attempt e)])
  | None => Ok ()
  end.

(** [id != &record.definition.id], then the definition. *)
Definition collect_definition (acc : list TaskDefinition) (p : TaskId * TaskRecord)
    : result (list TaskDefinition) :=
  _ ← reject_if (bool_decide (p.1 ≠ td_id (tr_definition p.2)))
        (orch "Task map key {} does not match definition {}"
          [AStr p.1; AStr (td_id (tr_definition p.2))]);
  Ok (acc ++ [tr_definition p.2]).

Definition check_record_status (r : TaskRecord) : result () :=
  match tr_status r with
  | Pending => Ok ()
  | Running lease =>
      _ ← validate_capability_name "worker" (lease_owner lease);
      reject_if ((tr_attempts r =? 0)%Z || negb (lease_attempt lease =? tr_attempts r)%Z)
        (orch "Task {} lease attempt does not match attempt counter"
          [AStr (td_id (tr_definition r))])
  | Completed completion => validate_completion (td_id (tr_definition r)) completion
  | Failed reason | Cancelled reason | Blocked reason =>
      validate_task_text "Task terminal reason" reason
  end.

(** Loop state over the evidence: lease identities, the bound attempts of
    each Task, and the evidence of each lease. *)
Record BindingIndex := {
  bi_lease_ids : gset TaskLeaseId;
  bi_attempts_by_task : gmap TaskId (gset Z);
  bi_evidence_by_lease : gmap TaskLeaseId TaskAttemptBinding;
}.

Definition index_binding (ts : gmap TaskId TaskRecord) (ix : BindingIndex)
    (e : TaskAttemptBinding) : result BindingIndex :=
  _ ← validate_attempt_binding e;
  record ← ok_or (ts !! tab_task_id e)
             (orch "Task attempt binding references missing Task {}" [AStr (tab_task_id e)]);
  _ ← reject_if ((tab_attempt e =? 0)%Z || (tr_attempts record <? tab_attempt e)%Z)
        (orch "Task {} attempt binding exceeds its attempt counter" [AStr (tab_task_id e)]);
  let attempts := default ∅ (bi_attempts_by_task ix !! tab_task_id e) in
  _ ← reject_if (bool_decide (tab_lease_id e ∈ bi_lease_ids ix)
                 || bool_decide (tab_attempt e ∈ attempts))
        (orch "duplicate Task attempt binding evidence" []);
  Ok {| bi_lease_ids := {[tab_lease_id e]} ∪ bi_lease_ids ix;
        bi_attempts_by_task :=
          <[tab_task_id e := {[tab_attempt e]} ∪ attempts]> (bi_attempts_by_task ix);
        bi_evidence_by_lease := <[tab_lease_id e := e]> (bi_evidence_by_lease ix) |}.

(** [bound_attempts.iter().next()]. *)
Definition first_attempt (s : gset Z) : option Z := head (merge_sort Z.le (elements s)).

Definition check_governed (ix : BindingIndex) (r : TaskRecord) : result () :=
  match bi_attempts_by_task ix !! td_id (tr_definition r) with
  | None => Ok ()
  | Some bound_attempts =>
      first ← ok_or (first_attempt bound_attempts)
                (orch "Task attempt binding index is empty" []);
      _ ← reject_if (existsb (λ attempt, negb (bool_decide (attempt ∈ bound_attempts)))
                       (seqZ first (tr_attempts r - first + 1)))
            (orch "Task {} has an unbound attempt after entering governed mode"
              [AStr (td_id (tr_definition r))]);
      match tr_status r with
      | Running lease =>
          e ← ok_or (bi_evidence_by_lease ix !! lease_id lease)
                (orch "running governed Task {} has no binding for its current lease"
                  [AStr (td_id (tr_definition r))]);
          reject_if (bool_decide (tab_task_id e ≠ td_id (tr_definition r))
                     || negb (tab_attempt e =? lease_attempt lease)%Z
                     || bool_decide (tab_claimed_by e ≠ lease_owner lease))
            (orch "running Task lease does not match its attempt binding" [])
      | _ => Ok ()
      end
  end.

(** One message at [index]: [st] is the index and the identities seen. *)
Definition check_message (ts : gmap TaskId TaskRecord) (st : Z * gset TaskMessageId)
    (m : TaskMessage) : result (Z * gset TaskMessageId) :=
  let '(index, ids) := st in
  expected ← ok_or (checked_add u64_max index 1) (orch "Task message sequence overflow" []);
  _ ← reject_if (negb (msg_sequence m =? expected)%Z)
        (orch "Task message sequence is not contiguous" []);
  _ ← reject_if (bool_decide (msg_id m ∈ ids))
        (orch "duplicate Task message {}" [AStr (msg_id m)]);
  _ ← reject_if (bool_decide (ts !! msg_from m = None) || bool_decide (ts !! msg_to m = None))
        (orch "Task message references a missing Task" []);
  _ ← reject_if (trim_is_empty (msg_body m) || (MAX_MESSAGE_BYTES <? str_len (msg_body m))%Z)
        (orch "Task message must be 1-{} bytes" [ANum MAX_MESSAGE_BYTES]);
  Ok ((index + 1)%Z, {[msg_id m]} ∪ ids).

Definition validate_integrity (g : TaskGraph) : result () :=
  _ ← reject_if (MAX_TASKS <? Z.of_nat (size (tasks g)))%Z
        (orch "Task Graph exceeds {} Tasks" [ANum MAX_TASKS]);
  definitions ← fold_m collect_definition [] (bt_iter (tasks g));
  _ ← TaskGraph_new definitions;
  _ ← for_each check_record_status (bt_values (tasks g));
  _ ← reject_if (MAX_TASK_ATTEMPT_BINDINGS <? len (attempt_bindings g))%Z
        (orch "Task Graph exceeds {} attempt bindings" [ANum MAX_TASK_ATTEMPT_BINDINGS]);
  ix ← fold_m (index_binding (tasks g))
         {| bi_lease_ids := ∅; bi_attempts_by_task := ∅; bi_evidence_by_lease := ∅ |}
         (attempt_bindings g);
  _ ← for_each (check_governed ix) (bt_values (tasks g));
  _ ← reject_if (MAX_MESSAGES <? len (messages g))%Z
        (orch "Task Graph exceeds {} messages" [ANum MAX_MESSAGES]);
  _ ← fold_m (check_message (tasks g)) (0%Z, ∅) (messages g);
  expected_next ← ok_or (checked_add u64_max (len (messages g)) 1)
                    (orch "Task message sequence overflow" []);
  _ ← reject_if (negb (next_message_sequence g =? expected_next)%Z)
        (orch "Task next message sequence is inconsistent" []);
  calculated_charge ← calculate_materialization_charge g;
  reject_if (negb (calculated_charge =? materialization_charge_bytes g)%Z)
    (orch "Task Graph materialization charge is inconsistent" []).
End graph.
