(* ===== verification/TaskBlocked.v ===== *)
(** The cycle check of src/src/orchestration/mod.rs ([validate_acyclic]) is
    sound and complete: it accepts a closed dependency map exactly when the
    dependency relation has no cycle, and the recursion bound is never
    reached.

    Dependency blocking ([blocked_mutations] of src/src/orchestration/mod.rs):
    the loop always terminates and computes the least set of Tasks that
    cannot run any more. *)

From Stdlib Require Import ZArith Lia.
From stdpp Require Import sorting base tactics list gmap relations numbers strings option.
From stdpp Require Import list.
From S2P Require Import Prelude Kernel TaskGraph.

(** [dep ts a b]: Task [a] depends on Task [b]. *)
Definition dep (ts : gmap TaskId TaskRecord) (a b : TaskId) : Prop :=
  ∃ r, ts !! a = Some r ∧ b ∈ td_dependencies (tr_definition r).

Definition acyclic (ts : gmap TaskId TaskRecord) : Prop := ∀ a, ¬ tc (dep ts) a a.

(** Every dependency is a Task of the map. *)
Definition closed_deps (ts : gmap TaskId TaskRecord) : Prop :=
  ∀ a b, dep ts a b → is_Some (ts !! b).

Section dfs.
Context (ts : gmap TaskId TaskRecord).

Abbreviation below := (Acc (λ y x, dep ts x y)).

(** A successful search restores [visiting], and every visited Task sits
    above a finite dependency tree. *)
Lemma visit_fold_sound fuel
    (IH : ∀ id V D V' D', visit fuel ts id (V, D) = Ok (V', D') →
          (∀ x, x ∈ D → below x) →
          V' = V ∧ D ⊆ D' ∧ id ∈ D' ∧ (∀ x, x ∈ D' → below x)) :
  ∀ l V D V' D',
  fold_m (λ st d, visit fuel ts d st) (V, D) l = Ok (V', D') →
  (∀ x, x ∈ D → below x) →
  V' = V ∧ D ⊆ D' ∧ (∀ d, d ∈ l → d ∈ D') ∧ (∀ x, x ∈ D' → below x).
Proof.
  induction l as [|d l IHl]; intros V D V' D'; simpl.
  - intros [= <- <-] HD. split_and!; [done|done| |done]. by intros ? ?%elem_of_nil.
  - destruct (visit fuel ts d (V, D)) as [[V1 D1]|] eqn:E; [|done].
    intros H HD. apply IH in E as (-> & HD1 & Hd & HA); [|done].
    apply IHl in H as (-> & HD2 & Hl & HA'); [|done].
    split_and!; [done|by etrans| |done].
    intros x [->|Hx]%elem_of_cons; [by apply HD2|by apply Hl].
Qed.

Lemma visit_sound fuel : ∀ id V D V' D',
  visit fuel ts id (V, D) = Ok (V', D') →
  (∀ x, x ∈ D → below x) →
  V' = V ∧ D ⊆ D' ∧ id ∈ D' ∧ (∀ x, x ∈ D' → below x).
Proof.
  induction fuel as [|fuel IH]; intros id V D V' D' H HD; [done|].
  cbn [visit] in H. case_bool_decide as H1.
  - injection H as <- <-. done.
  - case_bool_decide as H2; [done|]. inv_ok. destruct a0 as [V1 D1].
    injection H as <- <-. apply (visit_fold_sound fuel IH) in H3 as (-> & HD1 & Hl & HA); [|done].
    split_and!; [clear -H2; set_solver|clear -HD1; set_solver|clear; set_solver|].
    intros x [->%elem_of_singleton|Hx]%elem_of_union; [|auto].
    constructor. intros y (r & Hr & Hy). rewrite H0 in Hr. simplify_eq.
    apply HA, Hl. by apply elem_of_bs_iter.
Qed.

Lemma below_no_cycle x : below x → ¬ tc (dep ts) x x.
Proof.
  induction 1 as [x _ IH]. intros H.
  assert (∃ y, dep ts x y ∧ tc (dep ts) y y) as (y & Hxy & Hy).
  { inversion H; subst; [by exists x|]. exists y. split; [done|].
    eapply tc_r; done. }
  by eapply IH.
Qed.

Lemma validate_acyclic_sound u :
  validate_acyclic ts = Ok u → acyclic ts.
Proof.
  unfold validate_acyclic. intros H. inv_ok. destruct a as [V D].
  apply (visit_fold_sound _ (visit_sound _)) in H0 as (_ & _ & Hl & HA); [|set_solver].
  intros a Ha. assert (is_Some (ts !! a)) as Hs.
  { inversion Ha as [? ? (r & Hr & _)|? ? ? (r & Hr & _)]; subst; by exists r. }
  apply elem_of_bt_keys in Hs. by eapply below_no_cycle, Ha; apply HA, Hl.
Qed.

(** ** Completeness: a failed search names a Task on a cycle *)

Definition on_cycle_error (e : HarnessError) : Prop :=
  ∃ id, e = orch "Task dependency cycle includes {}" [AStr id] ∧ tc (dep ts) id id.

Hypothesis Hclosed : closed_deps ts.

Lemma visit_fold_error fuel
    (IH : ∀ id V D e, visit fuel ts id (V, D) = Err e →
          is_Some (ts !! id) → V ⊆ dom ts → (size ts < size V + fuel)%nat →
          (∀ v, v ∈ V → tc (dep ts) v id) → (∀ x, x ∈ D → below x) → on_cycle_error e) :
  ∀ l V D e,
  fold_m (λ st d, visit fuel ts d st) (V, D) l = Err e →
  (∀ d, d ∈ l → is_Some (ts !! d)) → V ⊆ dom ts → (size ts < size V + fuel)%nat →
  (∀ d v, d ∈ l → v ∈ V → tc (dep ts) v d) → (∀ x, x ∈ D → below x) → on_cycle_error e.
Proof.
  induction l as [|d l IHl]; intros V D e; simpl; [done|].
  intros H Hl HV Hs Hp HD.
  destruct (visit fuel ts d (V, D)) as [[V1 D1]|e1] eqn:E.
  - apply visit_sound in E as (-> & _ & _ & HA); [|done].
    eapply IHl; eauto using list_elem_of_further.
  - injection H as ->. eapply IH; eauto using list_elem_of_here.
Qed.

Lemma visit_error fuel : ∀ id V D e,
  visit fuel ts id (V, D) = Err e →
  is_Some (ts !! id) → V ⊆ dom ts → (size ts < size V + fuel)%nat →
  (∀ v, v ∈ V → tc (dep ts) v id) → (∀ x, x ∈ D → below x) → on_cycle_error e.
Proof.
  induction fuel as [|fuel IH]; intros id V D e H Hid HV Hs Hp HD.
  - exfalso. apply subseteq_size in HV. rewrite size_dom in HV. lia.
  - cbn [visit] in H. case_bool_decide as H1; [done|]. case_bool_decide as H2.
    + injection H as <-. exists id. split; [done|]. by apply Hp.
    + destruct Hid as [r Hr]. rewrite Hr in H. simpl in H.
      destruct (fold_m _ _ _) as [[V1 D1]|e1] eqn:E; [done|]. injection H as <-.
      assert (∀ d, d ∈ bs_iter (td_dependencies (tr_definition r)) → dep ts id d) as Hdep.
      { intros d Hd%elem_of_bs_iter. by exists r. }
      eapply (visit_fold_error fuel IH); [exact E|..].
      * intros d Hd. eapply Hclosed, Hdep, Hd.
      * apply union_subseteq; split; [|done]. apply singleton_subseteq_l, elem_of_dom. by exists r.
      * rewrite size_union by set_solver. rewrite size_singleton. lia.
      * intros d v Hd [->%elem_of_singleton|Hv]%elem_of_union.
        -- by apply tc_once, Hdep.
        -- eapply tc_r; [by apply Hp|by apply Hdep].
      * done.
Qed.

Lemma validate_acyclic_error e : validate_acyclic ts = Err e → on_cycle_error e.
Proof.
  unfold validate_acyclic. destruct (fold_m _ _ _) as [[V D]|e1] eqn:E; [done|].
  intros [= <-]. eapply (visit_fold_error _ (visit_error _)); [exact E|..].
  - intros d Hd. by apply elem_of_bt_keys.
  - set_solver.
  - rewrite size_empty. lia.
  - set_solver.
  - set_solver.
Qed.

Lemma validate_acyclic_complete : acyclic ts → validate_acyclic ts = Ok ().
Proof.
  intros Ha. destruct (validate_acyclic ts) as [[]|e] eqn:E; [done|].
  apply validate_acyclic_error in E as (id & _ & Hc). by apply Ha in Hc.
Qed.
End dfs.

(** An acyclic map is well founded along the dependencies: the form the
    progress argument uses. *)
Lemma acyclic_wf ts : closed_deps ts → acyclic ts → ∀ x, Acc (λ y x, dep ts x y) x.
Proof.
  intros Hc Ha x. pose proof (validate_acyclic_complete ts Hc Ha) as H.
  unfold validate_acyclic in H. inv_ok. destruct a as [V D].
  apply (visit_fold_sound _ _ (visit_sound _ _)) in H0 as (_ & _ & Hl & HA); [|set_solver].
  destruct (ts !! x) as [r|] eqn:E.
  - apply HA, Hl, elem_of_bt_keys. by exists r.
  - constructor. intros y (r & Hr & _). congruence.
Qed.

(** The identity a record declares. *)
Definition rec_id (r : TaskRecord) : TaskId := td_id (tr_definition r).

(** The map key of a record is the identity it declares. *)
Definition keyed (ts : gmap TaskId TaskRecord) : Prop :=
  ∀ id r, ts !! id = Some r → rec_id r = id.

Lemma keyed_elem ts r : keyed ts → r ∈ bt_values ts ↔ ts !! rec_id r = Some r.
Proof.
  intros Hk. rewrite elem_of_bt_values. split.
  - intros [k Hr]. by rewrite (Hk k r Hr).
  - intros Hr. eauto.
Qed.

Lemma keyed_ids ts : keyed ts → rec_id <$> bt_values ts = bt_keys ts.
Proof.
  intros Hk. unfold bt_values, bt_keys. rewrite <-list_fmap_compose.
  apply list_fmap_ext. intros i [k r] H. simpl. apply Hk, elem_of_bt_iter.
  by eapply list_elem_of_lookup_2.
Qed.

Lemma keyed_NoDup ts : keyed ts → NoDup (rec_id <$> bt_values ts).
Proof. intros Hk. rewrite keyed_ids by done. apply NoDup_bt_keys. Qed.

(** Identities of the records that satisfy a test. *)
Lemma elem_of_filter_ids ts (p : TaskRecord → bool) id :
  keyed ts →
  id ∈ rec_id <$> List.filter p (bt_values ts) ↔ ∃ r, ts !! id = Some r ∧ p r = true.
Proof.
  intros Hk. rewrite list_elem_of_fmap. split.
  - intros (r & -> & [Hr Hp]%list_elem_of_In%filter_In). exists r. split; [|done].
    apply keyed_elem; [done|]. by apply list_elem_of_In.
  - intros (r & Hr & Hp). exists r. split; [by rewrite (Hk id r Hr)|].
    apply list_elem_of_In, filter_In. split; [|done].
    apply list_elem_of_In, elem_of_bt_values. eauto.
Qed.

Lemma elem_of_dead_ids g id :
  keyed (tasks g) →
  id ∈ dead_ids g ↔ ∃ r, tasks g !! id = Some r ∧ is_dead (tr_status r) = true.
Proof. intros Hk. unfold dead_ids. rewrite elem_of_list_to_set. by apply (elem_of_filter_ids _ _ _ Hk). Qed.

Lemma elem_of_expired_ids g now id :
  keyed (tasks g) →
  id ∈ expired_ids g now ↔ ∃ r, tasks g !! id = Some r ∧ is_expired now (tr_status r) = true.
Proof. intros Hk. unfold expired_ids. rewrite elem_of_list_to_set. by apply (elem_of_filter_ids _ _ _ Hk). Qed.

Section blocked.
Context (g : TaskGraph) (overrides failed0 : gset TaskId).
Hypothesis Hkeyed : keyed (tasks g).

(** A record that the pass may block. *)
Definition may_block (id : TaskId) (r : TaskRecord) : Prop :=
  tasks g !! id = Some r ∧ id ∉ failed0 ∧
  (is_pending (tr_status r) = true ∨ id ∈ overrides).

(** Specification: some chain of dependencies reaches a failed Task. *)
Inductive blocked_by : TaskId → Prop :=
| blocked_failed id r d :
    may_block id r → d ∈ td_dependencies (tr_definition r) → d ∈ failed0 → blocked_by id
| blocked_chain id r d :
    may_block id r → d ∈ td_dependencies (tr_definition r) → blocked_by d → blocked_by id.

(** What one blocking mutation is. *)
Definition blocking (m : TaskMutation) : Prop :=
  ∃ r d, tasks g !! mut_id m = Some r ∧ d ∈ td_dependencies (tr_definition r) ∧
    (d ∈ failed0 ∨ blocked_by d) ∧
    mut_status m = Blocked (blocked_reason d) ∧
    mut_attempts m = tr_attempts r ∧ mut_attempt_binding m = None.

Lemma block_record_Some failed r m :
  block_record failed overrides r = Some m →
  mut_id m = rec_id r ∧ rec_id r ∉ failed ∧
  (is_pending (tr_status r) = true ∨ rec_id r ∈ overrides) ∧
  ∃ d, d ∈ td_dependencies (tr_definition r) ∧ d ∈ failed ∧
    m = {| mut_id := rec_id r; mut_status := Blocked (blocked_reason d);
           mut_attempts := tr_attempts r; mut_attempt_binding := None |}.
Proof.
  unfold block_record. fold (rec_id r). destruct (_ && _) eqn:B; [|done].
  apply andb_true_iff in B as [B1 B2]. bool_hyps.
  intros (d & Hd & [= <-])%bind_Some. simpl. apply find_some in Hd as [Hd1 Hd2].
  apply list_elem_of_In, elem_of_bs_iter in Hd1. bool_hyps.
  apply orb_true_iff in B2. rewrite bool_decide_eq_true in B2. eauto 10.
Qed.

Lemma block_record_None failed r d :
  block_record failed overrides r = None →
  rec_id r ∉ failed → (is_pending (tr_status r) = true ∨ rec_id r ∈ overrides) →
  d ∈ td_dependencies (tr_definition r) → d ∉ failed.
Proof.
  unfold block_record. fold (rec_id r). intros H H1 H2 Hd Hf.
  rewrite bool_decide_eq_false_2 in H by done.
  replace (is_pending _ || _) with true in H
    by (symmetry; apply orb_true_iff; by rewrite bool_decide_eq_true).
  simpl in H. apply bind_None in H as [H|(? & _ & ?)]; [|done].
  assert (bool_decide (d ∈ failed) = false) as F.
  { apply (find_none _ _ H). by apply list_elem_of_In, elem_of_bs_iter. }
  by apply bool_decide_eq_false in F.
Qed.

Lemma omap_ids_sublist failed (l : list TaskRecord) :
  mut_id <$> omap (block_record failed overrides) l `sublist_of` rec_id <$> l.
Proof.
  induction l as [|r l IH]; simpl; [done|].
  destruct (block_record failed overrides r) as [m|] eqn:E; simpl.
  - apply block_record_Some in E as (-> & _). by apply sublist_skip.
  - by apply sublist_cons.
Qed.

(** The state of the loop. *)
Record loop_inv (failed : gset TaskId) (ms : list TaskMutation) : Prop := {
  li_failed : ∀ id, id ∈ failed ↔ id ∈ failed0 ∨ id ∈ mut_id <$> ms;
  li_nodup : NoDup (mut_id <$> ms);
  li_new : ∀ id, id ∈ mut_id <$> ms → id ∉ failed0;
  li_blocked : ∀ id, id ∈ mut_id <$> ms → blocked_by id;
  li_sound : Forall blocking ms;
}.

Lemma loop_inv_nil : loop_inv failed0 [].
Proof.
  split; simpl; [intros id; split; [by left|intros [?|?%elem_of_nil]; done]|constructor
    |by intros ? ?%elem_of_nil|by intros ? ?%elem_of_nil|constructor].
Qed.

Abbreviation round failed := (omap (block_record failed overrides) (bt_values (tasks g))).

Lemma round_elem failed ms m :
  loop_inv failed ms → m ∈ round failed →
  mut_id m ∉ failed ∧ blocked_by (mut_id m) ∧ blocking m ∧ is_Some (tasks g !! mut_id m).
Proof.
  intros Hi (r & Hr%keyed_elem & Hb)%list_elem_of_omap; [|done].
  apply block_record_Some in Hb as (Hid & Hnf & Hp & d & Hd & Hdf & ->). simpl in *.
  assert (may_block (rec_id r) r) as Hm.
  { split_and!; [done| |done]. intros ?. apply Hnf, (li_failed _ _ Hi). by left. }
  apply (li_failed _ _ Hi) in Hdf.
  split_and!; [done| |exists r, d; split_and!; try done|by exists r].
  - destruct Hdf as [?|?%(li_blocked _ _ Hi)]; [by eapply blocked_failed|by eapply blocked_chain].
  - destruct Hdf as [?|?%(li_blocked _ _ Hi)]; auto.
Qed.

Lemma round_inv failed ms :
  loop_inv failed ms →
  loop_inv (list_to_set (mut_id <$> round failed) ∪ failed) (ms ++ round failed).
Proof.
  intros Hi.
  assert (∀ id, id ∈ mut_id <$> round failed → id ∉ failed ∧ blocked_by id) as Hr.
  { intros id (m & -> & Hm)%list_elem_of_fmap. by apply (round_elem failed ms) in Hm as (?&?&?). }
  split; rewrite ?fmap_app.
  - intros id. rewrite elem_of_union, elem_of_list_to_set, elem_of_app, (li_failed _ _ Hi). tauto.
  - apply NoDup_app. split_and!; [apply (li_nodup _ _ Hi)| |].
    + intros id H1 [H2 _]%Hr. apply H2, (li_failed _ _ Hi). by right.
    + eapply sublist_NoDup; [by apply keyed_NoDup|apply omap_ids_sublist].
  - intros id [H|[H _]%Hr]%elem_of_app; [by apply (li_new _ _ Hi)|].
    intros H'. apply H, (li_failed _ _ Hi). by left.
  - intros id [H|[_ H]%Hr]%elem_of_app; [by apply (li_blocked _ _ Hi)|done].
  - apply Forall_app. split; [apply (li_sound _ _ Hi)|].
    apply Forall_forall. intros m Hm. by apply (round_elem failed ms) in Hm as (_&_&?&_).
Qed.

(** The loop never runs out of rounds. *)
Lemma blocked_loop_total fuel failed ms :
  loop_inv failed ms → (size (dom (tasks g) ∖ failed) < fuel)%nat →
  ∃ ms' failed', blocked_loop fuel g overrides failed ms = Some ms' ∧
    loop_inv failed' ms' ∧ round failed' = [].
Proof.
  revert failed ms. induction fuel as [|fuel IH]; intros failed ms Hi Hf; [lia|].
  cbn [blocked_loop]. destruct (round failed) as [|m l] eqn:E.
  - by exists ms, failed.
  - apply IH; rewrite <-E; [by apply round_inv|].
    assert (m ∈ round failed) as Hm by (rewrite E; left).
    apply (round_elem failed ms) in Hm as (Hm1 & _ & _ & Hm2); [|done].
    eapply Nat.lt_le_trans; [|apply Nat.lt_succ_r, Hf].
    apply subset_size. split; [clear; set_solver|]. intros Hsub.
    assert (mut_id m ∈ dom (tasks g) ∖ failed) as H1.
    { apply elem_of_difference. by rewrite elem_of_dom. }
    apply Hsub, elem_of_difference in H1 as [_ H1]. apply H1.
    apply elem_of_union_l, elem_of_list_to_set, list_elem_of_fmap. exists m. split; [done|].
    rewrite E. left.
Qed.

(** The fixed point contains everything the specification blocks. *)
Lemma round_nil_closed failed ms :
  loop_inv failed ms → round failed = [] → ∀ id, blocked_by id → id ∈ mut_id <$> ms.
Proof.
  intros Hi Hr.
  assert (∀ id r d, may_block id r → d ∈ td_dependencies (tr_definition r) →
            d ∈ failed → id ∈ mut_id <$> ms) as Hstep.
  { intros id r d (H1 & H2 & H3) Hd Hdf. apply dec_stable. intros Hn.
    pose proof (Hkeyed id r H1) as <-.
    assert (block_record failed overrides r = None) as Hb.
    { destruct (block_record failed overrides r) as [m|] eqn:E; [|done].
      assert (m ∈ round failed) as Hm.
      { apply list_elem_of_omap. exists r. split; [|done]. by apply keyed_elem. }
      rewrite Hr in Hm. by apply elem_of_nil in Hm. }
    eapply block_record_None in Hb; [by apply Hb| |done|done].
    rewrite (li_failed _ _ Hi). tauto. }
  induction 1 as [id r d Hm Hd Hf|id r d Hm Hd _ IH]; eapply Hstep; eauto;
    apply (li_failed _ _ Hi); auto.
Qed.
End blocked.

(** The Tasks [blocked_mutations] starts from. *)
Definition initially_failed (g : TaskGraph) (additional : option TaskId) : gset TaskId :=
  match additional with Some t => {[t]} ∪ dead_ids g | None => dead_ids g end.

Lemma blocked_mutations_correct g overrides additional :
  keyed (tasks g) →
  let ms := blocked_mutations g overrides additional in
  let failed := initially_failed g additional in
  NoDup (mut_id <$> ms) ∧ Forall (blocking g overrides failed) ms ∧
  ∀ id, id ∈ mut_id <$> ms ↔ blocked_by g overrides failed id.
Proof.
  intros Hk ms failed.
  destruct (blocked_loop_total g overrides failed Hk (S (size (tasks g))) failed [])
    as (ms' & failed' & E & Hi & Hr).
  - apply loop_inv_nil.
  - apply Nat.lt_succ_r. rewrite <-size_dom. apply subseteq_size. clear; set_solver.
  - assert (ms = ms') as ->.
    { unfold ms, blocked_mutations. unfold failed, initially_failed in E.
      destruct additional; by rewrite E. }
    split_and!; [apply (li_nodup _ _ _ _ _ Hi)|apply (li_sound _ _ _ _ _ Hi)|].
    intros id. split; [apply (li_blocked _ _ _ _ _ Hi)|by eapply round_nil_closed].
Qed.
