(* ===== verification/TaskApply.v ===== *)
(** What [apply_task_mutations] of src/src/orchestration/mod.rs does: it is
    failure atomic, it changes exactly the mutated records, it never changes
    a definition, and it keeps the materialization charge exact. *)

From Stdlib Require Import ZArith Lia.
From stdpp Require Import sorting base tactics list gmap relations numbers strings option.
From stdpp Require Import list.
From S2P Require Import Prelude Kernel TaskGraph TaskBlocked.

(** ** Iteration and value maps *)

Lemma bt_iter_fmap {V W} (f : V → W) (m : gmap str V) :
  bt_iter (f <$> m) = prod_map id f <$> bt_iter m.
Proof.
  apply (Sorted_unique_strong key_le).
  - intros [k1 w1] [k2 w2] H1%elem_of_bt_iter H2 Ha Hb.
    unfold key_le in Ha, Hb. simpl in *.
    assert (k1 = k2) as -> by (by apply str_leb_antisymm).
    apply list_elem_of_fmap in H2 as ([k v] & [= -> ->] & H2%elem_of_bt_iter).
    rewrite lookup_fmap, H2 in H1. simpl in H1. congruence.
  - apply Sorted_bt_iter.
  - assert (∀ l : list (str * V), Sorted key_le l → Sorted key_le (prod_map id f <$> l)) as H.
    { induction 1 as [|a l Hs IH Hd]; simpl; constructor; [done|].
      destruct Hd; simpl; constructor. done. }
    apply H, Sorted_bt_iter.
  - rewrite !bt_iter_perm. by rewrite map_to_list_fmap.
Qed.

(** The immutable part of the records. *)
Definition defs (ts : gmap TaskId TaskRecord) : gmap TaskId TaskDefinition :=
  tr_definition <$> ts.

Lemma defs_values ts : tr_definition <$> bt_values ts = bt_values (defs ts).
Proof.
  unfold bt_values, defs. rewrite bt_iter_fmap, <-!list_fmap_compose.
  apply list_fmap_ext. by intros ? [? ?].
Qed.

Lemma defs_lookup ts ts' id r :
  defs ts' = defs ts → ts !! id = Some r →
  ∃ r', ts' !! id = Some r' ∧ tr_definition r' = tr_definition r.
Proof.
  intros E H. assert (defs ts' !! id = Some (tr_definition r)) as H1
    by (rewrite E; unfold defs; by rewrite lookup_fmap, H).
  unfold defs in H1. rewrite lookup_fmap in H1.
  apply fmap_Some in H1 as (r' & ? & ?). eauto.
Qed.

Lemma defs_size ts ts' : defs ts' = defs ts → size ts' = size ts.
Proof. unfold defs. intros E. by rewrite <-(map_size_fmap tr_definition ts), <-E, map_size_fmap. Qed.

(** The record a mutation produces. *)
Definition mutate (m : TaskMutation) (r : TaskRecord) : TaskRecord :=
  {| tr_definition := tr_definition r; tr_status := mut_status m;
     tr_attempts := mut_attempts m |}.

Abbreviation commit_all := (foldl commit_mutation).

Lemma commit_all_app g ms m : commit_all g (ms ++ [m]) = commit_mutation (commit_all g ms) m.
Proof. by rewrite foldl_app. Qed.

Lemma commit_all_defs ms g : defs (tasks (commit_all g ms)) = defs (tasks g).
Proof.
  revert g. induction ms as [|m ms IH]; intros g; simpl; [done|]. rewrite IH.
  unfold defs. simpl. apply map_eq. intros i. rewrite !lookup_fmap, lookup_alter.
  case_decide as Hd; [|done]. subst. by destruct (tasks g !! mut_id m).
Qed.

Lemma commit_all_rest ms g :
  messages (commit_all g ms) = messages g ∧
  next_message_sequence (commit_all g ms) = next_message_sequence g ∧
  materialization_charge_bytes (commit_all g ms) = materialization_charge_bytes g ∧
  attempt_bindings (commit_all g ms) = attempt_bindings g ++ omap mut_attempt_binding ms.
Proof.
  revert g. induction ms as [|m ms IH]; intros g; simpl; [by rewrite app_nil_r|].
  destruct (IH (commit_mutation g m)) as (-> & -> & -> & ->). simpl.
  split_and!; [done..|]. rewrite <-app_assoc. by destruct (mut_attempt_binding m).
Qed.

Lemma commit_all_other ms g id :
  id ∉ mut_id <$> ms → tasks (commit_all g ms) !! id = tasks g !! id.
Proof.
  revert g. induction ms as [|m ms IH]; intros g; simpl; [done|].
  intros [H1 H2]%not_elem_of_cons. rewrite IH by done. simpl.
  by rewrite lookup_alter_ne.
Qed.

Lemma commit_all_mutated ms g m r :
  NoDup (mut_id <$> ms) → m ∈ ms → tasks g !! mut_id m = Some r →
  tasks (commit_all g ms) !! mut_id m = Some (mutate m r).
Proof.
  revert g. induction ms as [|m' ms IH]; intros g; simpl; [by intros _ ?%elem_of_nil|].
  intros [Hn Hd]%NoDup_cons [<-|Hm]%elem_of_cons Hr.
  - rewrite commit_all_other by done. simpl. rewrite lookup_alter, decide_True by done.
    by rewrite Hr.
  - apply IH; [done..|]. simpl. rewrite lookup_alter_ne; [done|].
    intros E. apply Hn. rewrite E. apply list_elem_of_fmap. eauto.
Qed.

(** Every record after the commits is an old one, or a mutated one. *)
Lemma commit_all_lookup ms g id r' :
  NoDup (mut_id <$> ms) → tasks (commit_all g ms) !! id = Some r' →
  (id ∉ mut_id <$> ms ∧ tasks g !! id = Some r') ∨
  (∃ m r, m ∈ ms ∧ mut_id m = id ∧ tasks g !! id = Some r ∧ r' = mutate m r).
Proof.
  intros Hd Hr. destruct (decide (id ∈ mut_id <$> ms)) as [H|H].
  - right. apply list_elem_of_fmap in H as (m & -> & Hm).
    destruct (defs_lookup _ (tasks g) _ _ (eq_sym (commit_all_defs ms g)) Hr) as (r & Hr0 & _).
    exists m, r. split_and!; [done..|]. rewrite (commit_all_mutated _ _ _ _ Hd Hm Hr0) in Hr.
    congruence.
  - left. split; [done|]. by rewrite commit_all_other in Hr.
Qed.

Section apply.
Context `{!Serialize ExecutionBinding, !Serialize (TaskId * TaskRecord),
          !Serialize TaskMessage, !Serialize TaskAttemptBinding}.

(** ** The exact charge *)

Definition charge_or_zero (r : result Z) : Z := match r with Ok n => n | Err _ => 0 end.
Definition task_charge (p : TaskId * TaskRecord) : Z :=
  charge_or_zero (task_materialization_charge p.1 p.2).
Definition message_charge (m : TaskMessage) : Z :=
  charge_or_zero (message_materialization_charge m).
Definition binding_charge (b : TaskAttemptBinding) : Z :=
  charge_or_zero (attempt_binding_materialization_charge b).

Definition total_charge (g : TaskGraph) : Z :=
  (TASK_GRAPH_BASE_CHARGE_BYTES + sum_z task_charge (bt_iter (tasks g))
   + sum_z message_charge (messages g) + sum_z binding_charge (attempt_bindings g))%Z.

(** Every part of the graph can be encoded. *)
Definition encodable (g : TaskGraph) : Prop :=
  (∀ id r, tasks g !! id = Some r → is_ok (task_materialization_charge id r) = true) ∧
  Forall (λ m, is_ok (message_materialization_charge m) = true) (messages g) ∧
  Forall (λ b, is_ok (attempt_binding_materialization_charge b) = true) (attempt_bindings g).

Lemma task_charge_nonneg id r n : task_materialization_charge id r = Ok n → (0 ≤ n)%Z.
Proof.
  unfold task_materialization_charge, task_materialization_charge_parts. intros. inv_ok.
  apply json_len_nonneg in H0. apply checked_add_Some in H as [-> _].
  unfold ACTIVE_TASK_TERMINAL_RESERVE_BYTES. destruct (tr_status r); lia.
Qed.
Lemma message_charge_nonneg m n : message_materialization_charge m = Ok n → (0 ≤ n)%Z.
Proof.
  unfold message_materialization_charge. intros. inv_ok.
  apply json_len_nonneg in H0. apply checked_add_Some in H as [-> _]. lia.
Qed.
Lemma binding_charge_nonneg b n : attempt_binding_materialization_charge b = Ok n → (0 ≤ n)%Z.
Proof.
  unfold attempt_binding_materialization_charge. intros. inv_ok.
  apply json_len_nonneg in H0. apply checked_add_Some in H as [-> _]. lia.
Qed.

Lemma fold_m_ext {S A} (f f' : S → A → result S) s l :
  (∀ s a, f s a = f' s a) → fold_m f s l = fold_m f' s l.
Proof.
  intros H. revert s. induction l as [|a l IH]; intros s; simpl; [done|].
  rewrite H. by destruct (f' s a).
Qed.

(** A loop of checked charge additions, both ways. *)
Lemma charge_loop_ok {A} (c : A → result Z) l s :
  (∀ a, a ∈ l → is_ok (c a) = true) → (∀ a n, c a = Ok n → 0 ≤ n)%Z →
  (s + sum_z (λ a, charge_or_zero (c a)) l ≤ usize_max)%Z →
  fold_m (λ t a, n ← c a; checked_graph_charge_add t n) s l =
    Ok (s + sum_z (λ a, charge_or_zero (c a)) l)%Z.
Proof.
  intros H1 H2 H3. apply (fold_m_sum c (λ a, charge_or_zero (c a)) usize_max); [|done].
  intros a Ha. apply H1 in Ha. destruct (c a) as [n|] eqn:E; [|done]. simpl. eauto.
Qed.

Lemma charge_loop_inv {A} (c : A → result Z) l s t :
  fold_m (λ t a, n ← c a; checked_graph_charge_add t n) s l = Ok t →
  (∀ a, a ∈ l → is_ok (c a) = true) ∧ t = (s + sum_z (λ a, charge_or_zero (c a)) l)%Z.
Proof.
  intros [H1 H2]%(fold_m_sum_inv c usize_max _ l s t). split; [|done].
  intros a Ha. destruct (H1 a Ha) as [n ->]. done.
Qed.

Lemma task_loop_eq s l :
  fold_m (λ total '(task_id, record),
            n ← task_materialization_charge task_id record;
            checked_graph_charge_add total n) s l =
  fold_m (λ t p, n ← task_materialization_charge p.1 p.2; checked_graph_charge_add t n) s l.
Proof. apply fold_m_ext. by intros ? [? ?]. Qed.

Lemma sum_charge_nonneg {A} (c : A → result Z) l :
  (∀ a n, c a = Ok n → 0 ≤ n)%Z → (0 ≤ sum_z (λ a, charge_or_zero (c a)) l)%Z.
Proof.
  intros H. apply sum_z_nonneg. intros a _. destruct (c a) eqn:E; simpl; [eauto|lia].
Qed.

Lemma calculate_charge_ok g c :
  calculate_materialization_charge g = Ok c ↔
  encodable g ∧ c = total_charge g ∧ (c ≤ MAX_TASK_GRAPH_JSON_BYTES)%Z.
Proof.
  assert (0 ≤ sum_z task_charge (bt_iter (tasks g)))%Z
    by (apply sum_charge_nonneg; intros [id r] n; apply task_charge_nonneg).
  assert (0 ≤ sum_z message_charge (messages g))%Z
    by (apply sum_charge_nonneg, message_charge_nonneg).
  assert (0 ≤ sum_z binding_charge (attempt_bindings g))%Z
    by (apply sum_charge_nonneg, binding_charge_nonneg).
  unfold calculate_materialization_charge, encodable, total_charge. rewrite task_loop_eq.
  split.
  - intros HH. inv_ok. subst.
    apply (charge_loop_inv (λ p, task_materialization_charge p.1 p.2)) in H2 as [E1 ->].
    apply charge_loop_inv in H3 as [E2 ->]. apply charge_loop_inv in H4 as [E3 ->].
    unfold validate_graph_charge in H5. inv_ok. bool_hyps.
    split_and!; [|by apply Forall_forall..|done|done].
    intros id r Hr%elem_of_bt_iter. by apply (E1 (id, r)).
  - intros ((E1 & E2 & E3) & -> & Hc).
    unfold MAX_TASK_GRAPH_JSON_BYTES, TASK_GRAPH_BASE_CHARGE_BYTES in *.
    rewrite (charge_loop_ok (λ p, task_materialization_charge p.1 p.2)); simpl.
    2:{ intros [id r] Hr%elem_of_bt_iter. by apply E1. }
    2:{ intros [id r] n. apply task_charge_nonneg. }
    2:{ unfold usize_max, u64_max, task_charge in *. lia. }
    rewrite charge_loop_ok; simpl.
    2:{ by apply Forall_forall. }
    2:{ apply message_charge_nonneg. }
    2:{ unfold usize_max, u64_max, task_charge, message_charge in *. lia. }
    rewrite charge_loop_ok; simpl.
    2:{ by apply Forall_forall. }
    2:{ apply binding_charge_nonneg. }
    2:{ unfold usize_max, u64_max, task_charge, message_charge, binding_charge in *. lia. }
    unfold validate_graph_charge, MAX_TASK_GRAPH_JSON_BYTES, task_charge, message_charge, binding_charge in *.
    rewrite (proj2 (Z.ltb_ge _ _)) by lia. done.
Qed.

(** ** The validation pass *)

(** What the pass established about one mutation. *)
Definition mutation_checked (g : TaskGraph) (m : TaskMutation) : Prop :=
  is_Some (tasks g !! mut_id m) ∧
  ∀ e, mut_attempt_binding m = Some e →
    validate_attempt_binding e = Ok () ∧
    tab_lease_id e ∉ tab_lease_id <$> attempt_bindings g ∧
    ∃ lease, mut_status m = Running lease ∧ tab_task_id e = mut_id m ∧
      tab_lease_id e = lease_id lease ∧ tab_attempt e = mut_attempts m ∧
      tab_attempt e = lease_attempt lease ∧ tab_claimed_by e = lease_owner lease.

Record checked (g : TaskGraph) (ms : list TaskMutation) (st : ApplyState) : Prop := {
  ck_seen : ∀ id, id ∈ as_seen st ↔ id ∈ mut_id <$> ms;
  ck_nodup : NoDup (mut_id <$> ms);
  ck_leases : ∀ l, l ∈ as_lease_ids st ↔
    l ∈ tab_lease_id <$> attempt_bindings (commit_all g ms);
  ck_fresh : NoDup (tab_lease_id <$> omap mut_attempt_binding ms);
  ck_each : Forall (mutation_checked g) ms;
  ck_charge : as_charge st =
    (materialization_charge_bytes g - total_charge g + total_charge (commit_all g ms))%Z;
  ck_encodable : encodable g → encodable (commit_all g ms);
}.

Definition initial_apply_state (g : TaskGraph) : ApplyState :=
  {| as_seen := ∅; as_lease_ids := list_to_set (tab_lease_id <$> attempt_bindings g);
     as_charge := materialization_charge_bytes g |}.

Lemma checked_nil g : checked g [] (initial_apply_state g).
Proof.
  split; simpl; [|constructor| |constructor|constructor|lia|done].
  - intros id. clear. set_solver.
  - intros l. by rewrite elem_of_list_to_set.
Qed.

(** Committing one more mutation of an unmutated record. *)
Lemma commit_charge g m r c c' :
  tasks g !! mut_id m = Some r →
  task_materialization_charge (mut_id m) r = Ok c →
  task_materialization_charge (mut_id m) (mutate m r) = Ok c' →
  total_charge (commit_mutation g m) =
    (total_charge g - c + c' +
     match mut_attempt_binding m with Some e => binding_charge e | None => 0 end)%Z.
Proof.
  intros Hr Hc Hc'. unfold total_charge. simpl.
  assert (alter (λ r, {| tr_definition := tr_definition r; tr_status := mut_status m;
                         tr_attempts := mut_attempts m |}) (mut_id m) (tasks g)
          = <[mut_id m := mutate m r]> (tasks g)) as ->.
  { apply map_eq. intros i. rewrite lookup_alter, lookup_insert.
    case_decide; subst; [by rewrite Hr|done]. }
  rewrite (sum_z_bt_insert _ _ _ r _ Hr), sum_z_app.
  unfold task_charge at 2 3. simpl. rewrite Hc, Hc'. simpl.
  destruct (mut_attempt_binding m); unfold sum_z at 4; simpl; lia.
Qed.

Lemma commit_encodable g m r :
  tasks g !! mut_id m = Some r →
  is_ok (task_materialization_charge (mut_id m) (mutate m r)) = true →
  (∀ e, mut_attempt_binding m = Some e →
     is_ok (attempt_binding_materialization_charge e) = true) →
  encodable g → encodable (commit_mutation g m).
Proof.
  intros Hr Hc He (E1 & E2 & E3). split_and!; [|done|].
  - intros id r'. simpl. rewrite lookup_alter. case_decide; subst; [|apply E1].
    rewrite Hr. intros [= <-]. done.
  - simpl. apply Forall_app. split; [done|].
    destruct (mut_attempt_binding m); simpl; repeat constructor. by apply He.
Qed.

(** One more checked mutation extends the invariant of the pass. *)
Lemma checked_snoc g ms st m r c c' :
  checked g ms st → mut_id m ∉ mut_id <$> ms → tasks g !! mut_id m = Some r →
  task_materialization_charge (mut_id m) r = Ok c →
  task_materialization_charge (mut_id m) (mutate m r) = Ok c' →
  mutation_checked g m →
  (∀ e, mut_attempt_binding m = Some e →
     tab_lease_id e ∉ as_lease_ids st ∧
     is_ok (attempt_binding_materialization_charge e) = true) →
  checked g (ms ++ [m]) {|
    as_seen := {[mut_id m]} ∪ as_seen st;
    as_lease_ids := list_to_set (tab_lease_id <$> option_list (mut_attempt_binding m))
                    ∪ as_lease_ids st;
    as_charge := as_charge st - c + c' +
      match mut_attempt_binding m with Some e => binding_charge e | None => 0 end |}.
Proof.
  intros Hc Hseen Hcur Hcc Hcand Hm He.
  assert (tasks (commit_all g ms) !! mut_id m = Some r) as Hcur1
    by (by rewrite commit_all_other).
  pose proof (commit_charge _ _ _ _ _ Hcur1 Hcc Hcand) as Hchg.
  pose proof (ck_charge _ _ _ Hc) as Hchg0.
  split; simpl; rewrite ?commit_all_app; simpl; [| | | | |lia|].
  - intros id. rewrite fmap_app, elem_of_union, elem_of_app, (ck_seen _ _ _ Hc).
    simpl. rewrite elem_of_singleton, list_elem_of_singleton. tauto.
  - rewrite fmap_app. apply NoDup_app.
    split_and!; [apply (ck_nodup _ _ _ Hc)| |apply NoDup_singleton].
    by intros x Hx ->%list_elem_of_singleton.
  - intros l. rewrite fmap_app, elem_of_union, elem_of_app, (ck_leases _ _ _ Hc),
      elem_of_list_to_set. tauto.
  - rewrite omap_app, fmap_app. simpl. apply NoDup_app.
    destruct (mut_attempt_binding m) as [e|]; simpl; split_and!;
      [apply (ck_fresh _ _ _ Hc)| |apply NoDup_singleton
      |apply (ck_fresh _ _ _ Hc)|by intros ? _ ?%elem_of_nil|constructor].
    intros x Hx ->%list_elem_of_singleton. destruct (He e eq_refl) as [Hn _].
    apply Hn, (ck_leases _ _ _ Hc). destruct (commit_all_rest ms g) as (_ & _ & _ & ->).
    rewrite fmap_app, elem_of_app. by right.
  - apply Forall_app. split; [apply (ck_each _ _ _ Hc)|by apply Forall_singleton].
  - intros Hen. eapply commit_encodable; [exact Hcur1|by rewrite Hcand| |by apply (ck_encodable _ _ _ Hc)].
    intros e E. by apply He.
Qed.

Lemma check_mutation_step g ms st m st' :
  checked g ms st → check_mutation (tasks g) st m = Ok st' → checked g (ms ++ [m]) st'.
Proof.
  intros Hc H. unfold check_mutation, checked_graph_charge_add in H. inv_ok. bool_hyps.
  rename H0 into Hseen, H1 into Hcur, H2 into Hcc, H3 into Hcand.
  rewrite (ck_seen _ _ _ Hc) in Hseen.
  apply checked_sub_Some in H4 as [-> _]. apply checked_add_Some in H5 as [-> _].
  pose proof (checked_snoc g ms st m a0 a1 a2 Hc Hseen Hcur Hcc Hcand) as Hsn.
  unfold mutation_checked in Hsn.
  destruct (mut_attempt_binding m) as [e|] eqn:Eb.
  - inv_ok. destruct (mut_status m) as [|lease| | | |] eqn:Es; try done.
    inv_ok. bool_hyps. repeat match goal with H : ¬ (_ ≠ _) |- _ => apply dec_stable in H end.
    match goal with H : checked_add _ _ _ = _ |- _ => apply checked_add_Some in H as [-> _] end.
    match goal with H : attempt_binding_materialization_charge e = Ok _ |- _ => rename H into Hn end.
    match goal with H : tab_lease_id e ∉ _ |- _ => rename H into Hl end.
    subst st'. unfold binding_charge in Hsn. rewrite Hn in Hsn. simpl in Hsn.
    rewrite union_empty_r_L in Hsn. apply Hsn.
    + split; [by exists a0|]. intros e' [= <-]. split_and!; [done| |by exists lease].
      intros Hin. apply Hl, (ck_leases _ _ _ Hc). destruct (commit_all_rest ms g) as (_ & _ & _ & ->).
      rewrite fmap_app, elem_of_app. by left.
    + intros e' [= <-]. by rewrite Hn.
  - inv_ok. subst st'. simpl in Hsn. rewrite union_empty_l_L, Z.add_0_r in Hsn.
    apply Hsn; [|done]. split; [by exists a0|done].
Qed.

Lemma check_fold g ms st :
  fold_m (check_mutation (tasks g)) (initial_apply_state g) ms = Ok st → checked g ms st.
Proof.
  revert st. induction ms as [|m ms IH] using rev_ind; intros st.
  - intros [= <-]. apply checked_nil.
  - rewrite fold_m_app. intros H. inv_ok. simpl in H.
    destruct (check_mutation _ _ _) as [st1|] eqn:E; [|done]. injection H as <-.
    eapply check_mutation_step; [by apply IH|done].
Qed.

(** ** Outcomes of [apply_task_mutations] *)

Lemma length_new_bindings ms :
  len (omap mut_attempt_binding ms) =
  len (List.filter (λ m, match mut_attempt_binding m with
                         | Some _ => true | None => false end) ms).
Proof.
  unfold len. f_equal. induction ms as [|m ms IH]; simpl; [done|].
  destruct (mut_attempt_binding m); simpl; [f_equal|]; exact IH.
Qed.

(** On success the state is the committed one, with the recomputed charge. *)
Lemma apply_ok ms g g' u :
  apply_task_mutations ms g = (g', Ok u) →
  ∃ st, checked g ms st ∧ (as_charge st ≤ MAX_TASK_GRAPH_JSON_BYTES)%Z ∧
    (len (attempt_bindings (commit_all g ms)) ≤ MAX_TASK_ATTEMPT_BINDINGS)%Z ∧
    g' = set_charge (as_charge st) (commit_all g ms).
Proof.
  unfold apply_task_mutations, get, put, lift, mbind, M_bind, validate_graph_charge.
  destruct (reject_if _ _) eqn:E1; [|done]. inv_ok.
  destruct (fold_m _ _ _) as [st|] eqn:E2; [|done].
  destruct (reject_if _ _) eqn:E3; [|done]. inv_ok. intros [= <-]. bool_hyps.
  exists st. split_and!; [by apply check_fold|done| |done].
  destruct (checked_add _ _ _) as [n|] eqn:Ea; [|done]. bool_hyps.
  apply checked_add_Some in Ea as [-> _].
  destruct (commit_all_rest ms g) as (_ & _ & _ & ->).
  pose proof (length_new_bindings ms). unfold len in *. rewrite length_app. lia.
Qed.

(** On failure nothing was mutated. *)
Lemma apply_err ms g g' e : apply_task_mutations ms g = (g', Err e) → g' = g.
Proof.
  unfold apply_task_mutations, get, put, lift, mbind, M_bind.
  repeat (case_match; try congruence).
Qed.
End apply.
