(* ===== verification/TaskIntegrity.v ===== *)
(** The integrity check of a Task Graph ([validate_integrity] of
    src/src/orchestration/mod.rs) as a proposition: [integrity] is equivalent
    to the check, piece by piece, and is the invariant the operations
    preserve (TaskInvariant.v). *)

From Stdlib Require Import ZArith Lia.
From stdpp Require Import sorting base tactics list gmap relations numbers strings option.
From stdpp Require Import list.
From S2P Require Import Prelude Kernel TaskGraph TaskBlocked TaskApply.

(** ** Snoc lists of checked elements

    A loop that checks each element against those before it. *)
Inductive checked_list {A} (ok : list A → A → Prop) : list A → Prop :=
| cl_nil : checked_list ok []
| cl_snoc l a : checked_list ok l → ok l a → checked_list ok (l ++ [a]).

Lemma checked_list_snoc {A} (ok : list A → A → Prop) l a :
  checked_list ok (l ++ [a]) ↔ checked_list ok l ∧ ok l a.
Proof.
  split; [|by intros []; constructor].
  inversion 1 as [E|l' a' Hl Ha E]; [by destruct l|].
  apply app_inj_tail in E as [-> ->]. done.
Qed.

(** A loop whose state reflects the elements processed so far accepts exactly
    the checked lists. *)
Lemma fold_m_checked {A S} (ok : list A → A → Prop) (R : list A → S → Prop)
    (f : S → A → result S) s0 :
  R [] s0 →
  (∀ l s a s', R l s → f s a = Ok s' → ok l a ∧ R (l ++ [a]) s') →
  (∀ l s a, R l s → ok l a → ∃ s', f s a = Ok s') →
  ∀ l, (∀ s, fold_m f s0 l = Ok s → checked_list ok l ∧ R l s) ∧
       (checked_list ok l → ∃ s, fold_m f s0 l = Ok s).
Proof.
  intros H0 Hinv Hok l. induction l as [|a l [IH1 IH2]] using rev_ind.
  - split; [|eauto]. intros s [= <-]. split; [constructor|done].
  - rewrite checked_list_snoc. split.
    + intros s. rewrite fold_m_app. intros H. inv_ok. apply IH1 in H1 as [Hl HR].
      simpl in H. destruct (f _ a) as [s'|] eqn:E; [|done]. injection H as <-.
      destruct (Hinv _ _ _ _ HR E). split; [by constructor|done].
    + intros [Hl Ha]. destruct (IH2 Hl) as [s Hs]. destruct (IH1 s Hs) as [_ HR].
      destruct (Hok _ _ _ HR Ha) as [s' Hs'].
      exists s'. rewrite fold_m_app, Hs. simpl. by rewrite Hs'.
Qed.

Lemma checked_list_mono {A} (ok ok' : list A → A → Prop) l :
  (∀ l a, ok l a → ok' l a) → checked_list ok l → checked_list ok' l.
Proof. intros H. induction 1; constructor; auto. Qed.

Lemma collect_definitions ts defs0 l :
  fold_m collect_definition defs0 l = Ok ts →
  (∀ p, p ∈ l → p.1 = rec_id p.2) ∧ ts = defs0 ++ (tr_definition <$> l.*2).
Proof.
  revert defs0. induction l as [|[k r] l IH]; intros defs0; simpl.
  - intros [= <-]. split; [by intros ? ?%elem_of_nil|by rewrite app_nil_r].
  - unfold collect_definition at 1. simpl. destruct (reject_if _ _) eqn:E; simpl; [|done].
    inv_ok. bool_hyps. intros [H1 H2]%IH. split.
    + intros p [->|Hp]%elem_of_cons; [by apply dec_stable|auto].
    + by rewrite H2, <-app_assoc.
Qed.

Lemma collect_definitions_ok defs0 l :
  (∀ p, p ∈ l → p.1 = rec_id p.2) →
  fold_m collect_definition defs0 l = Ok (defs0 ++ (tr_definition <$> l.*2)).
Proof.
  revert defs0. induction l as [|[k r] l IH]; intros defs0 H; simpl; [by rewrite app_nil_r|].
  unfold collect_definition at 1. simpl.
  rewrite bool_decide_eq_false_2; [|intros Hn; apply Hn; apply (H (k, r)); left]. simpl.
  rewrite IH; [by rewrite <-app_assoc|]. intros p Hp. apply H. by right.
Qed.

(** The smallest element of a set of attempts. *)
Lemma first_attempt_spec s f :
  first_attempt s = Some f → f ∈ s ∧ ∀ a, a ∈ s → (f ≤ a)%Z.
Proof.
  unfold first_attempt. intros H.
  pose proof (merge_sort_Permutation Z.le (elements s)) as Hp.
  assert (StronglySorted Z.le (merge_sort Z.le (elements s))) as Hs
    by (apply StronglySorted_merge_sort; apply _).
  destruct (merge_sort Z.le (elements s)) as [|x l] eqn:E; [done|]. simpl in H. simplify_eq.
  apply StronglySorted_cons in Hs as [Hx _]. rewrite Forall_forall in Hx.
  split.
  - apply elem_of_elements. rewrite <-Hp. left.
  - intros a Ha. apply elem_of_elements in Ha. rewrite <-Hp in Ha.
    apply elem_of_cons in Ha as [->|Ha]; [lia|auto].
Qed.

Lemma first_attempt_None s : first_attempt s = None → s = ∅.
Proof.
  unfold first_attempt. pose proof (merge_sort_Permutation Z.le (elements s)) as Hp.
  destruct (merge_sort _ _) eqn:E; [|done]. intros _.
  apply leibniz_equiv, elements_empty_iff. symmetry. by apply Permutation_nil_l.
Qed.

Lemma attempt_range (s : gset Z) f n :
  existsb (λ a, negb (bool_decide (a ∈ s))) (seqZ f (n - f + 1)) = false ↔
  ∀ a, (f ≤ a ≤ n)%Z → a ∈ s.
Proof.
  rewrite <-not_true_iff_false, existsb_exists. split.
  - intros H a Ha. apply dec_stable. intros Hn. apply H. exists a.
    rewrite bool_decide_eq_false_2 by done. split; [|done].
    apply list_elem_of_In, elem_of_seqZ. lia.
  - intros H (a & Ha%list_elem_of_In%elem_of_seqZ & Hn). bool_hyps. apply Hn, H. lia.
Qed.

Section integrity.
Context `{!Serialize ExecutionBinding, !Serialize (TaskId * TaskRecord),
          !Serialize TaskMessage, !Serialize TaskAttemptBinding}.

(** ** Attempt bindings *)

(** One piece of evidence, against the evidence before it. *)
Definition binding_ok (ts : gmap TaskId TaskRecord) (bs : list TaskAttemptBinding)
    (e : TaskAttemptBinding) : Prop :=
  validate_attempt_binding e = Ok () ∧
  (∃ r, ts !! tab_task_id e = Some r ∧ tab_attempt e ≠ 0 ∧ tab_attempt e ≤ tr_attempts r)%Z ∧
  tab_lease_id e ∉ tab_lease_id <$> bs ∧
  (tab_task_id e, tab_attempt e) ∉ (λ b, (tab_task_id b, tab_attempt b)) <$> bs.

(** What the index records about the processed evidence. *)
Record index_of (bs : list TaskAttemptBinding) (ix : BindingIndex) : Prop := {
  ix_leases : ∀ l, l ∈ bi_lease_ids ix ↔ l ∈ tab_lease_id <$> bs;
  ix_attempts : ∀ t a, a ∈ default ∅ (bi_attempts_by_task ix !! t) ↔
    ∃ e, e ∈ bs ∧ tab_task_id e = t ∧ tab_attempt e = a;
  ix_governed : ∀ t, is_Some (bi_attempts_by_task ix !! t) ↔
    ∃ e, e ∈ bs ∧ tab_task_id e = t;
  ix_evidence : ∀ l e, bi_evidence_by_lease ix !! l = Some e ↔ e ∈ bs ∧ tab_lease_id e = l;
}.

Lemma pair_in_bindings (bs : list TaskAttemptBinding) t a :
  (t, a) ∈ (λ b, (tab_task_id b, tab_attempt b)) <$> bs ↔
  ∃ e, e ∈ bs ∧ tab_task_id e = t ∧ tab_attempt e = a.
Proof.
  rewrite list_elem_of_fmap. split.
  - intros (e & [= -> ->] & He). eauto.
  - intros (e & He & <- & <-). eauto.
Qed.

Lemma index_of_snoc bs ix e :
  index_of bs ix → tab_lease_id e ∉ tab_lease_id <$> bs →
  index_of (bs ++ [e])
    {| bi_lease_ids := {[tab_lease_id e]} ∪ bi_lease_ids ix;
       bi_attempts_by_task :=
         <[tab_task_id e := {[tab_attempt e]} ∪ default ∅ (bi_attempts_by_task ix !! tab_task_id e)]>
           (bi_attempts_by_task ix);
       bi_evidence_by_lease := <[tab_lease_id e := e]> (bi_evidence_by_lease ix) |}.
Proof.
  intros Hix Hn. split; simpl.
  - intros l. rewrite fmap_app, elem_of_union, elem_of_app, (ix_leases _ _ Hix). simpl.
    rewrite elem_of_singleton, list_elem_of_singleton. tauto.
  - intros t a. setoid_rewrite elem_of_app. setoid_rewrite list_elem_of_singleton.
    rewrite lookup_insert. case_decide as E; simpl.
    + subst. rewrite elem_of_union, elem_of_singleton, (ix_attempts _ _ Hix).
      split; [intros [->|(b & ?&?&?)]; eauto 10|intros (b & [?| ->] & ? & ?); eauto].
    + rewrite (ix_attempts _ _ Hix).
      split; [intros (b & ?&?&?); eauto 10|intros (b & [?| ->] & ? & ?); [eauto|done]].
  - intros t. setoid_rewrite elem_of_app. setoid_rewrite list_elem_of_singleton.
    rewrite lookup_insert. case_decide as E.
    + split; [intros _; eauto|eauto].
    + rewrite (ix_governed _ _ Hix).
      split; [intros (b & ?&?); eauto 10|intros (b & [?| ->] & ?); [eauto|done]].
  - intros l b. rewrite elem_of_app, list_elem_of_singleton, lookup_insert. case_decide as E.
    + subst. split; [intros [= <-]; auto|]. intros [[Hb| ->] El]; [|done].
      exfalso. apply Hn. rewrite <-El. apply list_elem_of_fmap. eauto.
    + rewrite (ix_evidence _ _ Hix). split; [intros []; auto|]. intros [[Hb| ->] El]; [auto|done].
Qed.

Definition empty_index : BindingIndex :=
  {| bi_lease_ids := ∅; bi_attempts_by_task := ∅; bi_evidence_by_lease := ∅ |}.

Lemma index_of_nil : index_of [] empty_index.
Proof.
  split; simpl.
  - intros l. clear. set_solver.
  - intros t a. rewrite lookup_empty. simpl. split; [clear; set_solver|].
    intros (e & ?%elem_of_nil & _). done.
  - intros t. rewrite lookup_empty. split; [intros []; done|]. by intros (e & ?%elem_of_nil & _).
  - intros l e. rewrite lookup_empty. split; [done|]. by intros [?%elem_of_nil _].
Qed.

Lemma index_binding_iff ts bs ix e :
  index_of bs ix →
  (∀ ix', index_binding ts ix e = Ok ix' → binding_ok ts bs e ∧ index_of (bs ++ [e]) ix') ∧
  (binding_ok ts bs e → ∃ ix', index_binding ts ix e = Ok ix').
Proof.
  intros Hix. unfold index_binding, binding_ok. split.
  - intros ix' H. inv_ok. bool_hyps. subst ix'.
    match goal with H : tab_attempt e ∉ _ |- _ =>
      rewrite (ix_attempts _ _ Hix), <-pair_in_bindings in H end.
    match goal with H : tab_lease_id e ∉ _ |- _ => rewrite (ix_leases _ _ Hix) in H end.
    split; [|by apply index_of_snoc]. split_and!; [done|eauto|done|done].
  - intros (Hv & (r & Hr & Ha & Hb) & Hl & Hp). rewrite Hv. simpl. rewrite Hr. simpl.
    rewrite (proj2 (Z.eqb_neq _ _)), (proj2 (Z.ltb_ge _ _)) by done. simpl.
    rewrite bool_decide_eq_false_2 by (by rewrite (ix_leases _ _ Hix)).
    rewrite bool_decide_eq_false_2 by (by rewrite (ix_attempts _ _ Hix), <-pair_in_bindings).
    simpl. eauto.
Qed.

Definition bindings_ok (ts : gmap TaskId TaskRecord) : list TaskAttemptBinding → Prop :=
  checked_list (binding_ok ts).

Lemma index_fold ts bs :
  (∀ ix, fold_m (index_binding ts) empty_index bs = Ok ix → bindings_ok ts bs ∧ index_of bs ix) ∧
  (bindings_ok ts bs → ∃ ix, fold_m (index_binding ts) empty_index bs = Ok ix).
Proof.
  apply (fold_m_checked (binding_ok ts) index_of).
  - apply index_of_nil.
  - intros l s a s' HR. by apply index_binding_iff.
  - intros l s a HR. by apply index_binding_iff.
Qed.

(** ** Governed Tasks *)

(** Once a Task has a bound attempt every later attempt is bound, and the
    current lease has its evidence. *)
Definition governed_ok (bs : list TaskAttemptBinding) (r : TaskRecord) : Prop :=
  (∀ e a, e ∈ bs → tab_task_id e = rec_id r → (tab_attempt e ≤ a ≤ tr_attempts r)%Z →
     ∃ e', e' ∈ bs ∧ tab_task_id e' = rec_id r ∧ tab_attempt e' = a) ∧
  (∀ lease, tr_status r = Running lease → (∃ e, e ∈ bs ∧ tab_task_id e = rec_id r) →
     ∃ e, e ∈ bs ∧ tab_lease_id e = lease_id lease ∧ tab_task_id e = rec_id r ∧
       tab_attempt e = lease_attempt lease ∧ tab_claimed_by e = lease_owner lease).

Lemma check_governed_iff bs ix r :
  index_of bs ix → check_governed ix r = Ok () ↔ governed_ok bs r.
Proof.
  intros Hix. unfold check_governed. fold (rec_id r).
  pose proof (ix_governed _ _ Hix (rec_id r)) as Hg.
  pose proof (ix_attempts _ _ Hix (rec_id r)) as Hatt.
  destruct (bi_attempts_by_task ix !! rec_id r) as [S|] eqn:E; simpl in Hatt.
  2:{ split; [|done]. intros _. assert (¬ ∃ e, e ∈ bs ∧ tab_task_id e = rec_id r) as Hno
        by (rewrite <-Hg; by intros []).
      split; [|tauto]. intros e a He Ht. exfalso. eauto. }
  destruct (first_attempt S) as [f|] eqn:Ef; simpl.
  2:{ apply first_attempt_None in Ef as ->. destruct (proj1 Hg ltac:(done)) as (e & He & Ht).
      exfalso. assert (tab_attempt e ∈ (∅ : gset Z)) by (apply Hatt; eauto). set_solver. }
  apply first_attempt_spec in Ef as [Hf Hmin].
  assert (existsb (λ a, negb (bool_decide (a ∈ S))) (seqZ f (tr_attempts r - f + 1)) = false ↔
    ∀ e a, e ∈ bs → tab_task_id e = rec_id r → (tab_attempt e ≤ a ≤ tr_attempts r)%Z →
     ∃ e', e' ∈ bs ∧ tab_task_id e' = rec_id r ∧ tab_attempt e' = a) as Hrange.
  { rewrite attempt_range. split.
    - intros Hx e a He Ht Ha. apply Hatt, Hx.
      assert (tab_attempt e ∈ S) as Hm%Hmin by (apply Hatt; eauto). lia.
    - intros Hall a Ha. apply Hatt in Hf as (e & He & Ht & <-). apply Hatt. eauto. }
  destruct (existsb _ _) eqn:Ex; simpl.
  { split; [done|]. intros [H _]. apply Hrange in H. done. }
  assert (∃ e, e ∈ bs ∧ tab_task_id e = rec_id r) as Hgov by (by apply Hg).
  unfold governed_ok. rewrite <-Hrange. clear Hrange.
  destruct (tr_status r) as [|lease| | | |]; try (split; [intros _; split; done|done]).
  destruct (bi_evidence_by_lease ix !! lease_id lease) as [e|] eqn:Ee; simpl.
  - apply (ix_evidence _ _ Hix) in Ee as [He Hl]. rewrite reject_if_ok. split.
    + intros Hb. bool_hyps. repeat match goal with H : ¬ (_ ≠ _) |- _ => apply dec_stable in H end.
      split; [done|]. intros ? [= <-] _. eauto 10.
    + intros [_ H]. destruct (H lease eq_refl Hgov) as (e' & He' & Hl' & Ht & Ha & Ho).
      assert (e' = e) as ->.
      { assert (bi_evidence_by_lease ix !! lease_id lease = Some e') as H1
          by (by apply (ix_evidence _ _ Hix)).
        assert (bi_evidence_by_lease ix !! lease_id lease = Some e) as H2
          by (by apply (ix_evidence _ _ Hix)). congruence. }
      rewrite Ht, Ha, Ho, Z.eqb_refl, !bool_decide_eq_false_2 by (by intros []). done.
  - split; [done|]. intros [_ H]. destruct (H lease eq_refl Hgov) as (e' & He' & Hl' & _).
    assert (bi_evidence_by_lease ix !! lease_id lease = Some e') as H1
      by (by apply (ix_evidence _ _ Hix)). congruence.
Qed.

(** ** Messages *)

Definition body_ok (body : str) : Prop :=
  trim_is_empty body = false ∧ (str_len body ≤ MAX_MESSAGE_BYTES)%Z.

Definition message_ok (ts : gmap TaskId TaskRecord) (ms : list TaskMessage) (m : TaskMessage)
    : Prop :=
  (len ms + 1 ≤ u64_max)%Z ∧ msg_sequence m = (len ms + 1)%Z ∧
  msg_id m ∉ msg_id <$> ms ∧
  is_Some (ts !! msg_from m) ∧ is_Some (ts !! msg_to m) ∧ body_ok (msg_body m).

Definition messages_ok (ts : gmap TaskId TaskRecord) : list TaskMessage → Prop :=
  checked_list (message_ok ts).

Definition message_state (ms : list TaskMessage) (st : Z * gset TaskMessageId) : Prop :=
  st.1 = len ms ∧ ∀ i, i ∈ st.2 ↔ i ∈ msg_id <$> ms.

Lemma check_message_iff ts ms st m :
  message_state ms st →
  (∀ st', check_message ts st m = Ok st' → message_ok ts ms m ∧ message_state (ms ++ [m]) st') ∧
  (message_ok ts ms m → ∃ st', check_message ts st m = Ok st').
Proof.
  destruct st as [i ids]. intros [Hi0 Hids]. simpl in Hi0, Hids. subst i. unfold check_message, message_ok, body_ok.
  split.
  - intros st' H. inv_ok. bool_hyps. subst st'.
    match goal with H : checked_add _ _ _ = _ |- _ => apply checked_add_Some in H as [-> ?] end.
    repeat match goal with H : ¬ (_ !! _ = None) |- _ => apply not_eq_None_Some in H end.
    match goal with H : msg_id m ∉ _ |- _ => rewrite Hids in H end.
    split; [by split_and!|]. split; simpl.
    + unfold len. rewrite length_app. simpl. lia.
    + intros j. rewrite fmap_app, elem_of_union, elem_of_app, Hids. simpl.
      rewrite elem_of_singleton, list_elem_of_singleton. tauto.
  - intros (Hm & Hs & Hi & Hf & Ht & Hb1 & Hb2).
    unfold checked_add. rewrite (proj2 (Z.leb_le _ _)) by done. simpl.
    rewrite Hs, Z.eqb_refl. simpl. rewrite (bool_decide_eq_false_2 (msg_id m ∈ ids)) by (by rewrite Hids). simpl.
    rewrite !bool_decide_eq_false_2 by (by apply not_eq_None_Some). simpl.
    rewrite Hb1. simpl. rewrite (proj2 (Z.ltb_ge _ _)) by done. simpl. eauto.
Qed.

Lemma message_fold ts ms :
  (∀ st, fold_m (check_message ts) (0%Z, ∅) ms = Ok st → messages_ok ts ms ∧ message_state ms st) ∧
  (messages_ok ts ms → ∃ st, fold_m (check_message ts) (0%Z, ∅) ms = Ok st).
Proof.
  apply (fold_m_checked (message_ok ts) message_state).
  - split; [done|]. intros i. simpl. clear. set_solver.
  - intros l s a s' HR. by apply check_message_iff.
  - intros l s a HR. by apply check_message_iff.
Qed.

(** ** The invariant *)

Record integrity (g : TaskGraph) : Prop := {
  in_size : (Z.of_nat (size (tasks g)) ≤ MAX_TASKS)%Z;
  in_keyed : keyed (tasks g);
  in_new : is_ok (TaskGraph_new (bt_values (defs (tasks g)))) = true;
  in_status : ∀ id r, tasks g !! id = Some r → check_record_status r = Ok ();
  in_bindings_len : (len (attempt_bindings g) ≤ MAX_TASK_ATTEMPT_BINDINGS)%Z;
  in_bindings : bindings_ok (tasks g) (attempt_bindings g);
  in_governed : ∀ id r, tasks g !! id = Some r → governed_ok (attempt_bindings g) r;
  in_messages_len : (len (messages g) ≤ MAX_MESSAGES)%Z;
  in_messages : messages_ok (tasks g) (messages g);
  in_next : next_message_sequence g = (len (messages g) + 1)%Z;
  in_charge : calculate_materialization_charge g = Ok (materialization_charge_bytes g);
}.

Lemma keyed_iter ts : keyed ts ↔ ∀ p, p ∈ bt_iter ts → p.1 = rec_id p.2.
Proof.
  split.
  - intros Hk [k r] H%elem_of_bt_iter. simpl. by rewrite (Hk k r H).
  - intros H id r Hr%elem_of_bt_iter%H. done.
Qed.

Lemma all_values ts (P : TaskRecord → Prop) :
  (∀ r, r ∈ bt_values ts → P r) ↔ ∀ id r, ts !! id = Some r → P r.
Proof. setoid_rewrite elem_of_bt_values. naive_solver. Qed.

Lemma integrity_sound g u : validate_integrity g = Ok u → integrity g.
Proof.
  unfold validate_integrity. fold empty_index. intros H. inv_ok. bool_hyps.
  match goal with H : fold_m collect_definition _ _ = _ |- _ =>
    apply collect_definitions in H as [Hk ->] end.
  apply keyed_iter in Hk. simpl in *.
  match goal with H : fold_m (index_binding _) _ _ = _ |- _ =>
    apply index_fold in H as [Hb Hix] end.
  match goal with H : fold_m (check_message _) _ _ = _ |- _ =>
    apply message_fold in H as [Hm _] end.
  match goal with H : checked_add _ _ _ = _ |- _ => apply checked_add_Some in H as [-> _] end.
  repeat match goal with H : for_each _ _ = _ |- _ =>
    rewrite for_each_ok, all_values in H end.
  split; try done.
  - change ((bt_iter (tasks g)).*2) with (bt_values (tasks g)) in *. rewrite <-defs_values.
    match goal with H : TaskGraph_new _ = Ok _ |- _ => by rewrite H end.
  - intros id r Hr. eapply check_governed_iff; eauto.
  - congruence.
Qed.

Lemma integrity_complete g : integrity g → validate_integrity g = Ok ().
Proof.
  intros [H1 H2 H3 H4 H5 H6 H7 H8 H9 H10 H11]. unfold validate_integrity. fold empty_index.
  rewrite (proj2 (Z.ltb_ge _ _)) by done. simpl.
  rewrite collect_definitions_ok by (by apply keyed_iter). simpl.
  change ((bt_iter (tasks g)).*2) with (bt_values (tasks g)). rewrite defs_values.
  destruct (TaskGraph_new _) as [g0|] eqn:E; [|done]. simpl.
  rewrite (proj2 (for_each_ok _ _ ()) (proj2 (all_values _ _) H4)). simpl.
  rewrite (proj2 (Z.ltb_ge _ _)) by done. simpl.
  destruct (proj2 (index_fold _ _) H6) as [ix Hix]. rewrite Hix. simpl.
  apply index_fold in Hix as [_ Hix].
  rewrite (proj2 (for_each_ok (check_governed ix) (bt_values (tasks g)) ())); simpl.
  2:{ apply all_values. intros id r Hr. by apply (check_governed_iff _ _ _ Hix), (H7 id). }
  rewrite (proj2 (Z.ltb_ge _ _)) by done. simpl.
  destruct (proj2 (message_fold _ _) H9) as [st Hst]. rewrite Hst. simpl.
  unfold checked_add. rewrite (proj2 (Z.leb_le _ _)).
  2:{ unfold MAX_MESSAGES, u64_max in *. lia. }
  simpl. rewrite H10, Z.eqb_refl. simpl. rewrite H11. simpl. by rewrite Z.eqb_refl.
Qed.
End integrity.
