(* ===== verification/TaskInvariant.v ===== *)
(** Construction of a Task Graph ([TaskGraph::new] of
    src/src/orchestration/mod.rs): exactly which definitions are accepted,
    and the graph they give.

    Every operation of the Task Graph preserves its integrity: a batch of
    [admissible] mutations does (section [apply_integrity]), and the
    mutations each operation builds are admissible. *)

From Stdlib Require Import ZArith Lia.
From stdpp Require Import sorting base tactics list gmap relations numbers strings option.
From stdpp Require Import list.
From S2P Require Import Prelude Kernel TaskGraph TaskBlocked TaskApply TaskIntegrity.

Section new.
Context `{!Serialize ExecutionBinding, !Serialize (TaskId * TaskRecord),
          !Serialize TaskMessage, !Serialize TaskAttemptBinding}.

(** The pending records of a list of definitions. *)
Definition pending_map (ds : list TaskDefinition) : gmap TaskId TaskRecord :=
  list_to_map ((λ d, (td_id d, pending_record d)) <$> ds).

Lemma pending_map_lookup ds id r :
  NoDup (td_id <$> ds) →
  pending_map ds !! id = Some r ↔ ∃ d, d ∈ ds ∧ id = td_id d ∧ r = pending_record d.
Proof.
  intros Hnd. unfold pending_map. rewrite <-elem_of_list_to_map.
  - rewrite list_elem_of_fmap. split; [intros (d & [= -> ->] & ?); eauto|].
    intros (d & ? & -> & ->). eauto.
  - by rewrite <-list_fmap_compose.
Qed.

Definition definition_ok (ds : list TaskDefinition) (d : TaskDefinition) : Prop :=
  validate_task_definition d = Ok () ∧ td_id d ∉ td_id <$> ds.

Lemma insert_fold ds :
  (∀ ts, fold_m insert_definition ∅ ds = Ok ts →
     checked_list definition_ok ds ∧ ts = pending_map ds) ∧
  (checked_list definition_ok ds → ∃ ts, fold_m insert_definition ∅ ds = Ok ts).
Proof.
  assert (∀ l id, pending_map l !! id = None ↔ id ∉ td_id <$> l) as Hnone.
  { intros l id. unfold pending_map. rewrite <-not_elem_of_list_to_map.
    by rewrite <-list_fmap_compose. }
  apply (fold_m_checked definition_ok (λ l ts, ts = pending_map l)); [done|..].
  - intros l ts d ts' -> H. unfold insert_definition in H. inv_ok. bool_hyps. subst ts'.
    rewrite <-eq_None_not_Some, Hnone in H1. split; [done|].
    unfold pending_map at 2. rewrite fmap_app. simpl.
    rewrite list_to_map_snoc; [done|]. by rewrite <-list_fmap_compose.
  - intros l ts d -> [H1 H2]. unfold insert_definition. rewrite H1. simpl.
    rewrite bool_decide_eq_false_2 by (by rewrite <-eq_None_not_Some, Hnone). simpl. eauto.
Qed.

Lemma definitions_checked ds :
  checked_list definition_ok ds ↔
  Forall (λ d, validate_task_definition d = Ok ()) ds ∧ NoDup (td_id <$> ds).
Proof.
  split.
  - induction 1 as [|l d _ [IH1 IH2] [H1 H2]]; [split; constructor|].
    split; [by apply Forall_app; split; [|apply Forall_singleton]|].
    rewrite fmap_app. apply NoDup_app. split_and!; [done| |apply NoDup_singleton].
    by intros x Hx ->%list_elem_of_singleton.
  - induction ds as [|d l IH] using rev_ind; [constructor|].
    rewrite fmap_app, Forall_app, Forall_singleton, NoDup_app. intros [[H1 H2] (H3 & H4 & _)].
    constructor; [by apply IH|]. split; [done|].
    intros Hin. apply (H4 _ Hin). by left.
Qed.

Lemma check_dependencies_ok ts r :
  check_dependencies ts r = Ok () ↔
  ∀ d, d ∈ td_dependencies (tr_definition r) → d ≠ rec_id r ∧ is_Some (ts !! d).
Proof.
  unfold check_dependencies. rewrite for_each_ok.
  setoid_rewrite elem_of_bs_iter. split; intros H d Hd; specialize (H d Hd).
  - inv_ok. bool_hyps. split; [done|]. by apply not_eq_None_Some.
  - destruct H as [H1 H2]. rewrite (bool_decide_eq_false_2 (d = td_id _)) by done. simpl.
    rewrite bool_decide_eq_false_2 by (by apply not_eq_None_Some). done.
Qed.

(** The definitions [TaskGraph::new] accepts. *)
Record valid_definitions (ds : list TaskDefinition) : Prop := {
  vd_len : (len ds ≤ MAX_TASKS)%Z;
  vd_valid : Forall (λ d, validate_task_definition d = Ok ()) ds;
  vd_unique : NoDup (td_id <$> ds);
  vd_closed : closed_deps (pending_map ds);
  vd_acyclic : acyclic (pending_map ds);
}.

Definition fresh_graph (ds : list TaskDefinition) (charge : Z) : TaskGraph :=
  {| tasks := pending_map ds; messages := []; attempt_bindings := [];
     next_message_sequence := 1; materialization_charge_bytes := charge |}.

Lemma new_ok ds g :
  TaskGraph_new ds = Ok g ↔
  valid_definitions ds ∧ ∃ charge,
    calculate_materialization_charge (fresh_graph ds 0) = Ok charge ∧ g = fresh_graph ds charge.
Proof.
  unfold TaskGraph_new. split.
  - intros H. inv_ok. bool_hyps. subst g.
    match goal with H : fold_m insert_definition _ _ = _ |- _ =>
      apply insert_fold in H as [[Hv Hu]%definitions_checked ->] end.
    match goal with H : for_each _ _ = _ |- _ => rename H into Hd end.
    match goal with H : validate_acyclic _ = _ |- _ => rename H into Ha end.
    split; [|eauto]. split; [done..| |by eapply validate_acyclic_sound].
    intros x y (r & Hr & Hy). rewrite for_each_ok in Hd.
    eapply check_dependencies_ok; [|exact Hy]. apply Hd, elem_of_bt_values. eauto.
  - intros [[H1 H2 H3 H4 H5] (c & Hc & ->)].
    rewrite (proj2 (Z.ltb_ge _ _)) by done. simpl.
    destruct (proj2 (insert_fold ds)) as [ts Hts]; [by apply definitions_checked|].
    rewrite Hts. simpl. apply insert_fold in Hts as [_ ->].
    rewrite (proj2 (for_each_ok _ _ ())); simpl.
    2:{ intros r [id Hr]%elem_of_bt_values. apply check_dependencies_ok. intros d Hd.
        assert (dep (pending_map ds) id d) as Hdep by (by exists r). split; [|by eapply H4].
        intros ->. apply (H5 id). apply tc_once.
        apply pending_map_lookup in Hr as (d' & _ & -> & ->); [exact Hdep|done]. }
    rewrite validate_acyclic_complete by done. simpl. unfold fresh_graph in Hc. rewrite Hc. done.
Qed.

(** Every key of the constructed map is the identity of its definition. *)
Lemma pending_map_keyed ds : NoDup (td_id <$> ds) → keyed (pending_map ds).
Proof. intros Hnd id r (d & _ & -> & ->)%pending_map_lookup; done. Qed.

(** The definitions of a keyed map rebuild its pending version. *)
Lemma pending_map_defs ts :
  keyed ts → NoDup (td_id <$> bt_values (defs ts)) ∧
  pending_map (bt_values (defs ts)) = pending_record <$> defs ts.
Proof.
  intros Hk. assert (NoDup (td_id <$> bt_values (defs ts))) as Hnd.
  { rewrite <-defs_values, <-list_fmap_compose.
    change (td_id ∘ tr_definition) with rec_id. by apply keyed_NoDup. }
  split; [done|]. apply map_eq. intros id. apply option_eq. intros r.
  rewrite pending_map_lookup by done. unfold defs. rewrite !lookup_fmap. split.
  - intros (d & [k Hd]%elem_of_bt_values & -> & ->).
    rewrite lookup_fmap in Hd. apply fmap_Some in Hd as (r & Hr & ->).
    pose proof (Hk _ _ Hr) as Hid. unfold rec_id in Hid. rewrite Hid, Hr. done.
  - rewrite fmap_Some. intros (d & Hd & ->). rewrite fmap_Some in Hd.
    destruct Hd as (r & Hr & ->). exists (tr_definition r).
    split_and!; [|symmetry; by apply Hk|done].
    apply elem_of_bt_values. exists id. by rewrite lookup_fmap, Hr.
Qed.

(** What an intact graph knows about its definitions. *)
Lemma integrity_definitions g :
  integrity g → valid_definitions (bt_values (defs (tasks g))).
Proof.
  intros Hi. pose proof (in_new g Hi) as Hn. destruct (TaskGraph_new _) as [g0|] eqn:E; [|done].
  by apply new_ok in E as [? _].
Qed.

Lemma integrity_definition_valid g id r :
  integrity g → tasks g !! id = Some r → validate_task_definition (tr_definition r) = Ok ().
Proof.
  intros Hi Hr. pose proof (vd_valid _ (integrity_definitions g Hi)) as Hv.
  rewrite Forall_forall in Hv. apply Hv. rewrite <-defs_values. apply list_elem_of_fmap.
  exists r. split; [done|]. apply elem_of_bt_values. eauto.
Qed.

Lemma dep_defs ts ts' a b : defs ts = defs ts' → dep ts a b → dep ts' a b.
Proof.
  intros E (r & Hr & Hb). destruct (defs_lookup ts ts' a r (eq_sym E) Hr) as (r' & Hr' & Hd).
  exists r'. rewrite Hd. done.
Qed.

Lemma integrity_dag g : integrity g → closed_deps (tasks g) ∧ acyclic (tasks g).
Proof.
  intros Hi. destruct (integrity_definitions g Hi) as [_ _ _ Hc Ha].
  destruct (pending_map_defs _ (in_keyed g Hi)) as [_ E]. rewrite E in Hc, Ha.
  assert (defs (pending_record <$> defs (tasks g)) = defs (tasks g)) as Hd.
  { unfold defs. rewrite <-!map_fmap_compose. done. }
  assert (∀ a b, dep (tasks g) a b → dep (pending_record <$> defs (tasks g)) a b) as Hdep
    by (intros a b; by apply dep_defs).
  split.
  - intros a b [r Hr]%Hdep%Hc. rewrite lookup_fmap in Hr. unfold defs in Hr.
    rewrite lookup_fmap in Hr. destruct (tasks g !! b) as [r'|]; [by exists r'|done].
  - assert (∀ x y, tc (dep (tasks g)) x y → tc (dep (pending_record <$> defs (tasks g))) x y) as Htc.
    { induction 1 as [x y H|x y z H _ IH]; [by apply tc_once, Hdep|].
      eapply tc_l; [by apply Hdep|done]. }
    intros a Hcyc. by apply (Ha a), Htc.
Qed.
End new.

Lemma checked_list_elem {A} (ok : list A → A → Prop) l a :
  checked_list ok l → a ∈ l → ∃ l0, ok l0 a.
Proof.
  induction 1 as [|l b Hl IH Hb]; [by intros ?%elem_of_nil|].
  intros [H| ->%list_elem_of_singleton]%elem_of_app; eauto.
Qed.

(** ** Well-typed graphs: the attempt counters are [u32] values *)
Definition typed (g : TaskGraph) : Prop :=
  ∀ id r, tasks g !! id = Some r → (0 ≤ tr_attempts r ≤ u32_max)%Z.

Section apply_integrity.
Context `{!Serialize ExecutionBinding, !Serialize (TaskId * TaskRecord),
          !Serialize TaskMessage, !Serialize TaskAttemptBinding}.

(** A mutation that keeps the attempt (heartbeat, settlement, requeue) or
    one that claims the next attempt. *)
Definition keeps_attempt (r : TaskRecord) (m : TaskMutation) : Prop :=
  mut_attempts m = tr_attempts r ∧ mut_attempt_binding m = None ∧
  ∀ lease', mut_status m = Running lease' → ∃ lease, tr_status r = Running lease ∧
    lease_id lease' = lease_id lease ∧ lease_attempt lease' = lease_attempt lease ∧
    lease_owner lease' = lease_owner lease.

Definition claims_attempt (g : TaskGraph) (r : TaskRecord) (m : TaskMutation) : Prop :=
  mut_attempts m = (tr_attempts r + 1)%Z ∧
  (mut_attempt_binding m = None → ∀ e, e ∈ attempt_bindings g → tab_task_id e ≠ mut_id m).

Definition admissible (g : TaskGraph) (m : TaskMutation) : Prop :=
  ∃ r, tasks g !! mut_id m = Some r ∧ check_record_status (mutate m r) = Ok () ∧
    (mut_attempts m ≤ u32_max)%Z ∧
    (keeps_attempt r m ∨ claims_attempt g r m).

(** Appending the evidence of a batch. *)
Lemma append_bindings_ok ts' bs l :
  bindings_ok ts' bs → NoDup (mut_id <$> l) →
  NoDup (tab_lease_id <$> omap mut_attempt_binding l) →
  (∀ m e, m ∈ l → mut_attempt_binding m = Some e →
     validate_attempt_binding e = Ok () ∧ tab_lease_id e ∉ tab_lease_id <$> bs ∧
     tab_task_id e = mut_id m ∧
     ∃ r', ts' !! mut_id m = Some r' ∧ (tab_attempt e ≤ tr_attempts r')%Z ∧
       (∀ b, b ∈ bs → tab_task_id b = mut_id m → (tab_attempt b < tab_attempt e)%Z)) →
  bindings_ok ts' (bs ++ omap mut_attempt_binding l).
Proof.
  intros Hold. induction l as [|m l IH] using rev_ind; intros Hnd Hfr Hnew;
    [simpl; by rewrite app_nil_r|].
  rewrite fmap_app in Hnd. rewrite omap_app, fmap_app in Hfr. rewrite omap_app.
  apply NoDup_app in Hnd as (Hnd & Hdis & _). apply NoDup_app in Hfr as (Hfr & Hfd & _).
  assert (∀ x, x ∈ l → x ∈ l ++ [m]) as Hl by (intros; apply elem_of_app; by left).
  assert (m ∈ l ++ [m]) as Hml by (apply elem_of_app; right; by left).
  specialize (IH Hnd Hfr (λ m' e Hm', Hnew m' e (Hl m' Hm'))).
  simpl in *. destruct (mut_attempt_binding m) as [e|] eqn:Ee; [|by rewrite app_nil_r].
  rewrite app_assoc. apply cl_snoc; [done|].
  destruct (Hnew m e Hml Ee) as (Hv & Hle & Ht & r & Hr & Hat & Hlt). split_and!; [done| | |].
  - exists r. rewrite Ht. split_and!; [done| |done].
    unfold validate_attempt_binding in Hv. inv_ok. by bool_hyps.
  - rewrite fmap_app. intros [H|H]%elem_of_app; [by apply Hle|].
    apply (Hfd _ H). simpl. by left.
  - rewrite pair_in_bindings. intros (b & [Hb|Hb]%elem_of_app & Hb1 & Hb2).
    + specialize (Hlt b Hb). rewrite Hb1, Ht in Hlt. specialize (Hlt eq_refl). lia.
    + apply list_elem_of_omap in Hb as (m' & Hm' & Eb).
      destruct (Hnew m' b (Hl _ Hm') Eb) as (_ & _ & Ht' & _).
      apply (Hdis (mut_id m)); [|simpl; by left].
      apply list_elem_of_fmap. exists m'. split; [congruence|done].
Qed.

Section batch.
Context (g : TaskGraph) (ms : list TaskMutation) (st : ApplyState).
Hypothesis Htyped : typed g.
Hypothesis Hint : integrity g.
Hypothesis Hck : checked g ms st.
Hypothesis Hadm : Forall (admissible g) ms.

Let ts' := tasks (commit_all g ms).
Let bs' := attempt_bindings (commit_all g ms).

Lemma batch_bindings : bs' = attempt_bindings g ++ omap mut_attempt_binding ms.
Proof. unfold bs'. by destruct (commit_all_rest ms g) as (_&_&_&->). Qed.

Lemma batch_attempts id r :
  tasks g !! id = Some r → ∃ r', ts' !! id = Some r' ∧ (tr_attempts r ≤ tr_attempts r')%Z.
Proof.
  intros Hr. destruct (decide (id ∈ mut_id <$> ms)) as [Hin|Hout].
  - apply list_elem_of_fmap in Hin as (m & -> & Hm). exists (mutate m r).
    split; [by apply (commit_all_mutated _ _ _ _ (ck_nodup _ _ _ Hck))|].
    rewrite Forall_forall in Hadm. destruct (Hadm m Hm) as (r0 & Hr0 & _ & _ & [Ha|Ha]);
      destruct Ha as [Ha _]; simplify_eq; simpl; lia.
  - exists r. unfold ts'. by rewrite commit_all_other.
Qed.

Lemma batch_typed : ∀ id r, ts' !! id = Some r → (0 ≤ tr_attempts r ≤ u32_max)%Z.
Proof.
  intros id r [[_ Hr]|(m & r0 & Hm & <- & Hr & ->)]%commit_all_lookup; [by eapply Htyped| |apply Hck].
  rewrite Forall_forall in Hadm. pose proof (Htyped _ _ Hr).
  destruct (Hadm m Hm) as (r1 & Hr1 & _ & ? & [Ha|Ha]); destruct Ha as [Ha _];
    simplify_eq; simpl; lia.
Qed.

Lemma old_binding_attempt e :
  e ∈ attempt_bindings g →
  ∃ r, tasks g !! tab_task_id e = Some r ∧ (tab_attempt e ≤ tr_attempts r)%Z.
Proof.
  intros He. destruct (checked_list_elem _ _ _ (in_bindings g Hint) He)
    as (l & _ & (r & ? & _ & ?) & _). eauto.
Qed.

(** New evidence comes from a mutation that claims its Task. *)
Lemma new_binding m e :
  m ∈ ms → mut_attempt_binding m = Some e →
  tab_task_id e = mut_id m ∧ tab_attempt e = mut_attempts m ∧
  ∃ r, tasks g !! mut_id m = Some r ∧ mut_attempts m = (tr_attempts r + 1)%Z.
Proof.
  intros Hm He. pose proof (ck_each _ _ _ Hck) as Hc. rewrite Forall_forall in Hc, Hadm.
  destruct (Hc m Hm) as [_ Hb]. destruct (Hb e He) as (_ & _ & lease & _ & ? & _ & ? & _).
  destruct (Hadm m Hm) as (r & ? & _ & _ & [(_ & ? & _)|[? _]]); [congruence|eauto].
Qed.

Lemma batch_bindings_ok : bindings_ok ts' bs'.
Proof.
  rewrite batch_bindings.
  apply append_bindings_ok; [|apply Hck|apply Hck|].
  - eapply checked_list_mono; [|apply (in_bindings g Hint)].
    intros l e (Hv & (r & Hr & Hz & Ha) & Hl & Hp). split_and!; [done| |done..].
    destruct (batch_attempts _ _ Hr) as (r' & ? & ?). exists r'. split_and!; [done..|lia].
  - intros m e Hm He. destruct (new_binding m e Hm He) as (Ht & Ha & r & Hr & Hat).
    pose proof (ck_each _ _ _ Hck) as Hc. rewrite Forall_forall in Hc.
    destruct (proj2 (Hc m Hm) e He) as (Hv & Hl & _).
    split_and!; [done..|]. exists (mutate m r). split_and!; [|simpl; lia|].
    + by apply (commit_all_mutated _ _ _ _ (ck_nodup _ _ _ Hck)).
    + intros b Hb Hbt. destruct (old_binding_attempt b Hb) as (r0 & Hr0 & ?).
      rewrite Hbt in Hr0. simplify_eq. lia.
Qed.

(** Evidence about a Task is old evidence, or the evidence of its
    mutation. *)
Lemma batch_evidence e id :
  e ∈ bs' → tab_task_id e = id →
  e ∈ attempt_bindings g ∨
  ∃ m, m ∈ ms ∧ mut_id m = id ∧ mut_attempt_binding m = Some e.
Proof.
  rewrite batch_bindings. intros [He|(m & Hm & He)%list_elem_of_omap]%elem_of_app Ht; [by left|].
  right. exists m. destruct (new_binding m e Hm He) as (? & _). split_and!; [done|congruence|done].
Qed.

Lemma same_mutation m m' : m ∈ ms → m' ∈ ms → mut_id m = mut_id m' → m = m'.
Proof.
  intros Hm Hm' E. pose proof (ck_nodup _ _ _ Hck) as Hnd.
  apply list_elem_of_lookup in Hm as [i Hi]. apply list_elem_of_lookup in Hm' as [j Hj].
  assert (i = j) as ->; [|congruence].
  eapply (NoDup_lookup _ i j (mut_id m) Hnd); rewrite list_lookup_fmap; [by rewrite Hi|].
  by rewrite Hj, E.
Qed.

Lemma old_evidence e : e ∈ attempt_bindings g → e ∈ bs'.
Proof. rewrite batch_bindings. intros ?. apply elem_of_app. by left. Qed.

(** A record whose evidence did not change. *)
Lemma governed_same r r' :
  rec_id r' = rec_id r → tr_attempts r' = tr_attempts r →
  (∀ lease', tr_status r' = Running lease' → ∃ lease, tr_status r = Running lease ∧
    lease_id lease' = lease_id lease ∧ lease_attempt lease' = lease_attempt lease ∧
    lease_owner lease' = lease_owner lease) →
  (∀ e, e ∈ bs' → tab_task_id e = rec_id r → e ∈ attempt_bindings g) →
  governed_ok (attempt_bindings g) r → governed_ok bs' r'.
Proof.
  intros Hid Hat Hst Hev [G1 G2]. unfold governed_ok. rewrite Hid, Hat. split.
  - intros e a He Ht Ha. destruct (G1 e a (Hev e He Ht) Ht Ha) as (e' & ? & ?).
    exists e'. split; [by apply old_evidence|done].
  - intros lease' Hl (e & He & Ht). destruct (Hst lease' Hl) as (lease & Hr & -> & -> & ->).
    destruct (G2 lease Hr) as (e' & ? & ?); [eauto|].
    exists e'. split; [by apply old_evidence|done].
Qed.

(** A record whose next attempt was claimed with evidence. *)
Lemma governed_claimed m r e :
  m ∈ ms → tasks g !! mut_id m = Some r → mut_attempt_binding m = Some e →
  governed_ok bs' (mutate m r).
Proof.
  intros Hm Hr He. destruct (new_binding m e Hm He) as (Ht & Ha & r0 & Hr0 & Hat).
  simplify_eq. pose proof (in_keyed g Hint _ _ Hr) as Hid.
  destruct (in_governed g Hint _ _ Hr) as [G1 _].
  pose proof (ck_each _ _ _ Hck) as Hc. rewrite Forall_forall in Hc.
  destruct (proj2 (Hc m Hm) e He) as (_ & _ & lease & Hl & _ & Hl1 & _ & Hl2 & Hl3).
  assert (e ∈ bs') as Hin
    by (rewrite batch_bindings; apply elem_of_app; right; apply list_elem_of_omap; eauto).
  assert (rec_id (mutate m r) = mut_id m) as Hid' by done.
  unfold governed_ok. rewrite Hid'. simpl. split.
  - intros e0 a He0 Ht0 Hrange. destruct (decide (a = mut_attempts m)) as [->|Hne];
      [exists e; split_and!; congruence|].
    destruct (batch_evidence e0 _ He0 Ht0) as [Hold|(m' & Hm' & Hmid & Hb)].
    + destruct (G1 e0 a Hold) as (e' & ? & ? & ?); [congruence|lia|].
      exists e'. split_and!; [by apply old_evidence|congruence|done].
    + assert (m' = m) as -> by (by apply same_mutation).
      assert (e0 = e) as -> by congruence. exfalso. lia.
  - intros lease' Hl' _. exists e. assert (lease' = lease) as -> by congruence.
    split_and!; congruence.
Qed.

Lemma batch_governed id r' : ts' !! id = Some r' → governed_ok bs' r'.
Proof.
  intros [[Hn Hr]|(m & r & Hm & <- & Hr & ->)]%commit_all_lookup; [| |apply Hck].
  - pose proof (in_keyed g Hint _ _ Hr) as Hid.
    eapply (governed_same r' r'); [done|done|eauto| |by eapply (in_governed g Hint)].
    intros e He Ht. destruct (batch_evidence e _ He Ht) as [?|(m & Hm & Hmid & _)]; [done|].
    exfalso. apply Hn. rewrite <-Hid, <-Hmid. apply list_elem_of_fmap. eauto.
  - destruct (mut_attempt_binding m) as [e|] eqn:Eb; [by eapply governed_claimed|].
    pose proof (in_keyed g Hint _ _ Hr) as Hid.
    assert (∀ e, e ∈ bs' → tab_task_id e = rec_id r → e ∈ attempt_bindings g) as Hev.
    { intros e He Ht. destruct (batch_evidence e _ He Ht) as [?|(m' & Hm' & Hmid & Hb)]; [done|].
      assert (m' = m) as -> by (apply same_mutation; [done|done|congruence]). congruence. }
    rewrite Forall_forall in Hadm.
    destruct (Hadm m Hm) as (r0 & Hr0 & _ & _ & [(Ha & _ & Hk)|[Ha Hno]]); simplify_eq.
    + eapply (governed_same r); [done|done|exact Hk|exact Hev|by eapply (in_governed g Hint)].
    + assert (∀ e, e ∈ bs' → tab_task_id e ≠ rec_id r) as Hnone.
      { intros e He Ht. eapply (Hno Eb e); [by apply Hev|congruence]. }
      split; [intros e a He Ht; exfalso; by eapply (Hnone e)
             |intros lease _ (e & He & Ht); exfalso; by eapply (Hnone e)].
Qed.

Lemma batch_integrity :
  (as_charge st ≤ MAX_TASK_GRAPH_JSON_BYTES)%Z →
  (len bs' ≤ MAX_TASK_ATTEMPT_BINDINGS)%Z →
  integrity (set_charge (as_charge st) (commit_all g ms)).
Proof.
  intros Hcap Hlen. pose proof (commit_all_defs ms g) as Hdefs.
  destruct (commit_all_rest ms g) as (Hmsg & Hnext & _ & _).
  assert (∀ id, is_Some (tasks g !! id) → is_Some (ts' !! id)) as Hdom.
  { intros id [r Hr]. destruct (batch_attempts _ _ Hr) as (r' & ? & _). eauto. }
  split; simpl.
  - rewrite (defs_size _ _ Hdefs). apply (in_size g Hint).
  - intros id r' Hr'. destruct (defs_lookup _ (tasks g) _ _ (eq_sym Hdefs) Hr') as (r & Hr & Hd).
    unfold rec_id. rewrite <-Hd. by apply (in_keyed g Hint).
  - rewrite Hdefs. apply (in_new g Hint).
  - intros id r' [[_ Hr]|(m & r & Hm & <- & Hr & ->)]%commit_all_lookup;
      [by eapply (in_status g Hint)| |apply Hck].
    rewrite Forall_forall in Hadm. destruct (Hadm m Hm) as (r0 & Hr0 & ? & _). congruence.
  - done.
  - apply batch_bindings_ok.
  - apply batch_governed.
  - rewrite Hmsg. apply (in_messages_len g Hint).
  - rewrite Hmsg. eapply checked_list_mono; [|apply (in_messages g Hint)].
    intros l e (? & ? & ? & ? & ? & ?). split_and!; auto.
  - rewrite Hnext, Hmsg. apply (in_next g Hint).
  - pose proof (in_charge g Hint) as (Hen & Hc & _)%calculate_charge_ok.
    apply calculate_charge_ok. split_and!; [by apply (ck_encodable _ _ _ Hck)| |done].
    pose proof (ck_charge _ _ _ Hck) as E. unfold total_charge in *. simpl. lia.
Qed.
End batch.

(** A successful batch of admissible mutations preserves integrity. *)
Lemma apply_integrity ms g g' u :
  typed g → integrity g → Forall (admissible g) ms →
  apply_task_mutations ms g = (g', Ok u) → integrity g' ∧ typed g'.
Proof.
  intros Ht Hi Ha (st & Hck & Hc & Hl & ->)%apply_ok. split.
  - by apply batch_integrity.
  - intros id r Hr. by eapply (batch_typed g ms st).
Qed.
End apply_integrity.

Section operations.
Context `{!Serialize ExecutionBinding, !Serialize (TaskId * TaskRecord),
          !Serialize TaskMessage, !Serialize TaskAttemptBinding}.

(** ** What each successful operation did *)

Lemma current_lease_ok ts id token now lease :
  current_lease ts id token now = Ok lease ↔
  ∃ r, ts !! id = Some r ∧ tr_status r = Running lease ∧ lease_id lease = token ∧
    (now < lease_expires_at_ms lease)%Z.
Proof.
  unfold current_lease. split.
  - intros H. inv_ok. destruct (tr_status a) eqn:E; try done. inv_ok. bool_hyps. subst.
    exists a. split_and!; try done. by apply dec_stable.
  - intros (r & -> & Hs & <- & Hn). simpl. rewrite Hs.
    rewrite bool_decide_eq_false_2 by tauto. simpl.
    by rewrite (proj2 (Z.leb_gt _ _)).
Qed.

Lemma heartbeat_ok g g' u id token now expires :
  heartbeat id token now expires g = (g', Ok u) →
  ∃ r lease, tasks g !! id = Some r ∧ tr_status r = Running lease ∧ lease_id lease = token ∧
    (now < lease_expires_at_ms lease)%Z ∧ (lease_expires_at_ms lease < expires)%Z ∧
    apply_task_mutations [status_mutation id
      (Running {| lease_id := lease_id lease; lease_owner := lease_owner lease;
                  lease_attempt := lease_attempt lease; lease_expires_at_ms := expires |})
      (tr_attempts r)] g = (g', Ok u).
Proof.
  unfold heartbeat. intros H. inv_M. inv_ok. bool_hyps.
  match goal with H : current_lease _ _ _ _ = _ |- _ =>
    apply current_lease_ok in H as (r & ? & ? & ? & ?) end.
  simplify_eq. eauto 10.
Qed.

Lemma complete_ok g g' u id token now c :
  complete id token now c g = (g', Ok u) →
  ∃ r lease, tasks g !! id = Some r ∧ tr_status r = Running lease ∧ lease_id lease = token ∧
    (now < lease_expires_at_ms lease)%Z ∧ validate_completion id c = Ok () ∧
    apply_task_mutations [status_mutation id (Completed c) (tr_attempts r)] g = (g', Ok u).
Proof.
  unfold complete. intros H. inv_M. inv_ok.
  match goal with H : current_lease _ _ _ _ = _ |- _ =>
    apply current_lease_ok in H as (r & ? & ? & ? & ?) end.
  simplify_eq. eauto 10.
Qed.

Lemma fail_ok g g' u id token now reason :
  fail id token now reason g = (g', Ok u) →
  ∃ r lease, tasks g !! id = Some r ∧ tr_status r = Running lease ∧ lease_id lease = token ∧
    (now < lease_expires_at_ms lease)%Z ∧ validate_task_text "Task failure" reason = Ok () ∧
    apply_task_mutations (status_mutation id (Failed reason) (tr_attempts r)
      :: blocked_mutations g ∅ (Some id)) g = (g', Ok u).
Proof.
  unfold fail. intros H. inv_M. inv_ok.
  match goal with H : current_lease _ _ _ _ = _ |- _ =>
    apply current_lease_ok in H as (r & ? & ? & ? & ?) end.
  simplify_eq. eauto 10.
Qed.

Lemma cancel_ok g g' u id reason :
  cancel id reason g = (g', Ok u) →
  ∃ r, tasks g !! id = Some r ∧ is_terminal_status (tr_status r) = false ∧
    validate_task_text "Task cancellation" reason = Ok () ∧
    apply_task_mutations (status_mutation id (Cancelled reason) (tr_attempts r)
      :: blocked_mutations g ∅ (Some id)) g = (g', Ok u).
Proof. unfold cancel. intros H. inv_M. inv_ok. eauto 10. Qed.

Definition release_batch (g : TaskGraph) (now : Z) : list TaskMutation :=
  (λ r, status_mutation (rec_id r) Pending (tr_attempts r))
    <$> List.filter (λ r, is_expired now (tr_status r)) (bt_values (tasks g)).

Lemma release_expired_ok g g' ids now :
  release_expired now g = (g', Ok ids) →
  ids = mut_id <$> release_batch g now ∧
  apply_task_mutations (release_batch g now) g = (g', Ok ()).
Proof. unfold release_expired. intros H. inv_M. inv_ok. done. Qed.

(** ** Their mutations are admissible *)

Lemma keep_admissible g id r s :
  typed g → tasks g !! id = Some r →
  check_record_status {| tr_definition := tr_definition r; tr_status := s;
                         tr_attempts := tr_attempts r |} = Ok () →
  (∀ lease', s = Running lease' → ∃ lease, tr_status r = Running lease ∧
    lease_id lease' = lease_id lease ∧ lease_attempt lease' = lease_attempt lease ∧
    lease_owner lease' = lease_owner lease) →
  admissible g (status_mutation id s (tr_attempts r)).
Proof.
  intros Ht Hr Hs Hl. exists r. split_and!; [done|done|by eapply Ht|]. left. done.
Qed.

Lemma validate_task_text_field f f' v : validate_task_text f v = Ok () → validate_task_text f' v = Ok ().
Proof. unfold validate_task_text. by rewrite !reject_if_ok. Qed.

Lemma validate_task_id_len id : validate_task_id id = Ok () → (str_len id ≤ 256)%Z.
Proof. unfold validate_task_id. rewrite reject_if_ok. intros. bool_hyps. done. Qed.

(** The generated reason is a valid reason. *)
Lemma blocked_reason_valid f d :
  validate_task_id d = Ok () → validate_task_text f (blocked_reason d) = Ok ().
Proof.
  intros Hd%validate_task_id_len. unfold validate_task_text, blocked_reason. rewrite reject_if_ok.
  apply orb_false_iff. split; [done|]. apply Z.ltb_ge.
  rewrite !str_len_app. change (str_len (lit "dependency ")) with 11%Z.
  change (str_len (lit " did not complete")) with 17%Z. unfold MAX_TASK_TEXT_BYTES. lia.
Qed.

Lemma dependency_id_valid g id r d :
  integrity g → tasks g !! id = Some r → d ∈ td_dependencies (tr_definition r) →
  validate_task_id d = Ok ().
Proof.
  intros Hi Hr Hd. pose proof (integrity_definition_valid g id r Hi Hr) as Hv.
  unfold validate_task_definition in Hv. inv_ok.
  match goal with H : for_each validate_task_id _ = _ |- _ => rewrite for_each_ok in H; apply H end.
  by apply elem_of_bs_iter.
Qed.

Lemma blocking_admissible g overrides failed m :
  typed g → integrity g → blocking g overrides failed m → admissible g m.
Proof.
  intros Ht Hi (r & d & Hr & Hd & _ & Hs & Ha & Hb). exists r.
  split_and!; [done| |rewrite Ha; by eapply Ht|left; split_and!; [done|done|congruence]].
  unfold check_record_status, mutate. simpl. rewrite Hs.
  eapply blocked_reason_valid, dependency_id_valid; eauto.
Qed.

Lemma blocked_admissible g overrides additional :
  typed g → integrity g → Forall (admissible g) (blocked_mutations g overrides additional).
Proof.
  intros Ht Hi.
  destruct (blocked_mutations_correct g overrides additional (in_keyed g Hi)) as (_ & Hf & _).
  eapply Forall_impl; [exact Hf|]. intros m. by apply blocking_admissible.
Qed.

Lemma release_admissible g now :
  typed g → integrity g → Forall (admissible g) (release_batch g now).
Proof.
  intros Ht Hi. apply Forall_forall. intros m (r & -> & [Hr _]%list_elem_of_In%filter_In)%list_elem_of_fmap.
  apply list_elem_of_In, (keyed_elem _ _ (in_keyed g Hi)) in Hr.
  apply keep_admissible; done.
Qed.
End operations.
