(* ===== verification/TaskClaims.v ===== *)
(** Claiming work ([claim_ready_governed] of src/src/orchestration/mod.rs):
    the batch of mutations a successful claim applies, the claims it returns,
    and that the batch is admissible. *)

From Stdlib Require Import ZArith Lia.
From stdpp Require Import sorting base tactics list gmap relations numbers strings option.
From stdpp Require Import list.
From S2P Require Import Prelude Kernel TaskGraph TaskBlocked TaskApply TaskIntegrity TaskInvariant.

Lemma nonempty_bool {A} (l : list A) :
  match l with [] => false | _ => true end = bool_decide (l ≠ []).
Proof. by destruct l. Qed.

(** ** The claim order *)

#[global] Instance ready_le_trans : Transitive ready_le.
Proof.
  intros a b c [H|[H1 H2]] [H'|[H1' H2']]; unfold ready_le; [left; lia..|].
  right. split; [congruence|by etrans].
Qed.
#[global] Instance ready_le_total : Total ready_le.
Proof.
  intros a b. unfold ready_le. destruct (Z.lt_trichotomy a.1 b.1) as [H|[H|H]]; [auto| |auto].
  destruct (str_le_total a.2 b.2); auto.
Qed.
#[global] Instance ready_le_antisymm : AntiSymm (=) ready_le.
Proof.
  intros [p i] [q j] [H|[H1 H2]] [H'|[H1' H2']]; simpl in *; try lia.
  f_equal; [done|]. by apply (anti_symm str_le).
Qed.

Lemma dependencies_completed_iff ts r :
  dependencies_completed ts r = true ↔
  ∀ d, d ∈ td_dependencies (tr_definition r) →
    ∃ r', ts !! d = Some r' ∧ is_completed (tr_status r') = true.
Proof.
  unfold dependencies_completed. rewrite forallb_forall. setoid_rewrite <-list_elem_of_In.
  setoid_rewrite elem_of_bs_iter. split; intros H d Hd; specialize (H d Hd).
  - destruct (ts !! d) as [r'|]; [eauto|done].
  - destruct H as (r' & -> & ?). done.
Qed.

(** A Task the pass may claim. *)
Definition claimable (g : TaskGraph) (expired blocked : gset TaskId) (worker : TaskCapabilitySet)
    (r : TaskRecord) : Prop :=
  tasks g !! rec_id r = Some r ∧ rec_id r ∉ blocked ∧
  (is_pending (tr_status r) = true ∨ rec_id r ∈ expired) ∧
  td_required_capabilities (tr_definition r) ⊆ worker ∧
  dependencies_completed (tasks g) r = true.

Section select.
Context (g : TaskGraph) (expired blocked : gset TaskId) (worker : TaskCapabilitySet).
Hypothesis Hkeyed : keyed (tasks g).

(** Everything claimable, in claim order, before truncation. *)
Definition all_ready : list (Z * TaskId) :=
  merge_sort ready_le (ready_key <$> List.filter (λ r,
      negb (bool_decide (td_id (tr_definition r) ∈ blocked))
      && (is_pending (tr_status r) || bool_decide (td_id (tr_definition r) ∈ expired))
      && satisfies worker (td_required_capabilities (tr_definition r))
      && dependencies_completed (tasks g) r) (bt_values (tasks g))).

Lemma select_ready_take maximum :
  select_ready g expired blocked worker maximum = take (Z.to_nat maximum) all_ready.
Proof. done. Qed.

Lemma elem_of_all_ready key :
  key ∈ all_ready ↔ ∃ r, claimable g expired blocked worker r ∧ key = ready_key r.
Proof.
  unfold all_ready. rewrite merge_sort_Permutation, list_elem_of_fmap.
  split; intros (r & H1 & H2).
  - exists r. split; [|done]. apply list_elem_of_In, filter_In in H2 as [Hr Hp].
    apply list_elem_of_In, keyed_elem in Hr; [|done]. bool_hyps.
    match goal with H : _ || _ = true |- _ => apply orb_true_iff in H; rewrite bool_decide_eq_true in H end.
    split_and!; try done. by eapply bool_decide_eq_true_1.
  - exists r. split; [done|]. destruct H1 as (Hr & Hb & Hp & Hc & Hd).
    apply list_elem_of_In, filter_In. split; [apply list_elem_of_In; by apply keyed_elem|].
    fold (rec_id r). rewrite Hd. unfold satisfies. rewrite (bool_decide_eq_true_2 _ Hc).
    rewrite (bool_decide_eq_false_2 _ Hb). simpl.
    replace (is_pending _ || _) with true; [done|].
    symmetry. apply orb_true_iff. by rewrite bool_decide_eq_true.
Qed.

Lemma NoDup_all_ready : NoDup all_ready.*2.
Proof.
  unfold all_ready. rewrite merge_sort_Permutation, <-list_fmap_compose.
  change (snd ∘ ready_key) with rec_id.
  eapply sublist_NoDup; [apply (keyed_NoDup _ Hkeyed)|].
  apply fmap_sublist, filter_sublist.
Qed.

Lemma Sorted_all_ready : StronglySorted ready_le all_ready.
Proof. apply StronglySorted_merge_sort; apply _. Qed.
End select.

Section claims.
Context `{!Serialize ExecutionBinding, !Serialize (TaskId * TaskRecord),
          !Serialize TaskMessage, !Serialize TaskAttemptBinding}.

(** ** The two loops *)

Definition released (g : TaskGraph) (blocked : gset TaskId) (l : list TaskId)
    : list TaskMutation :=
  omap (λ t, if bool_decide (t ∈ blocked) then None
             else (λ r, status_mutation t Pending (tr_attempts r)) <$> tasks g !! t) l.

Lemma release_fold g blocked acc l ms :
  fold_m (release_mutations g blocked) acc l = Ok ms → ms = acc ++ released g blocked l.
Proof.
  revert acc. induction l as [|t l IH]; intros acc; simpl; [intros [= <-]; by rewrite app_nil_r|].
  unfold release_mutations at 1. case_bool_decide as E.
  - intros ->%IH. done.
  - destruct (tasks g !! t) as [r|]; simpl; [|done]. intros ->%IH. by rewrite <-app_assoc.
Qed.

(** The lease, evidence, mutation and claim of one claimed Task. *)
Definition new_lease (fresh : nat → TaskLeaseId) (owner : str) (expires : Z) (i : nat)
    (r : TaskRecord) : TaskLease :=
  {| lease_id := fresh i; lease_owner := owner; lease_attempt := tr_attempts r + 1;
     lease_expires_at_ms := expires |}.

Definition new_evidence (lease : TaskLease) (now : Z) (id : TaskId) (b : ExecutionBinding)
    : TaskAttemptBinding :=
  {| tab_task_id := id; tab_lease_id := lease_id lease; tab_attempt := lease_attempt lease;
     tab_claimed_by := lease_owner lease; tab_claimed_at_ms := now;
     tab_execution_binding := b |}.

Definition claim_mutation (lease : TaskLease) (now : Z) (eb : option ExecutionBinding)
    (id : TaskId) : TaskMutation :=
  {| mut_id := id; mut_status := Running lease; mut_attempts := lease_attempt lease;
     mut_attempt_binding := new_evidence lease now id <$> eb |}.

Definition claimed (fresh : nat → TaskLeaseId) (g : TaskGraph) (owner : str)
    (now expires : Z) (eb : option ExecutionBinding) (i : nat) (key : Z * TaskId)
    (m : TaskMutation) (c : TaskClaim) : Prop :=
  ∃ r, tasks g !! key.2 = Some r ∧ (tr_attempts r + 1 ≤ u32_max)%Z ∧
    m = claim_mutation (new_lease fresh owner expires i r) now eb key.2 ∧
    c = {| claim_task := tr_definition r; claim_lease := new_lease fresh owner expires i r;
           claim_execution_binding := eb |}.

(** The loop produced one mutation and one claim per key, in order, with
    the identities generated from the [k]-th on. *)
Inductive claimed_list fresh g owner now expires eb
  : nat → list (Z * TaskId) → list TaskMutation → list TaskClaim → Prop :=
| claimed_nil k : claimed_list fresh g owner now expires eb k [] [] []
| claimed_cons k key keys m ms c cs :
    claimed fresh g owner now expires eb k key m c →
    claimed_list fresh g owner now expires eb (S k) keys ms cs →
    claimed_list fresh g owner now expires eb k (key :: keys) (m :: ms) (c :: cs).

Lemma claim_fold fresh g owner now expires eb keys ms cs ms' cs' :
  fold_m (claim_one fresh g owner now expires eb) (ms, cs) keys = Ok (ms', cs') →
  ∃ mk ck, ms' = ms ++ mk ∧ cs' = cs ++ ck ∧
    claimed_list fresh g owner now expires eb (length cs) keys mk ck.
Proof.
  revert ms cs. induction keys as [|key keys IH]; intros ms cs; simpl.
  - intros [= <- <-]. exists [], []. rewrite !app_nil_r. split_and!; [done..|constructor].
  - destruct (tasks g !! key.2) as [r|] eqn:Er; simpl; [|done].
    destruct (checked_add _ _ _) as [n|] eqn:En; simpl; [|done].
    apply checked_add_Some in En as [-> Hn].
    intros (mk & ck & -> & -> & Hk)%IH. rewrite length_app, Nat.add_1_r in Hk.
    eexists (_ :: mk), (_ :: ck). rewrite <-!app_assoc. split_and!; [done..|].
    constructor; [|done]. exists r. by split_and!.
Qed.

Lemma claimed_list_ids fresh g owner now expires eb k keys ms cs :
  claimed_list fresh g owner now expires eb k keys ms cs → mut_id <$> ms = keys.*2.
Proof.
  induction 1 as [|k key keys m ms c cs (r & _ & _ & -> & _) _ IH]; simpl; [done|]. f_equal. exact IH.
Qed.

Lemma claimed_list_elem fresh g owner now expires eb k keys ms cs m :
  claimed_list fresh g owner now expires eb k keys ms cs → m ∈ ms →
  ∃ i key c, key ∈ keys ∧ claimed fresh g owner now expires eb i key m c.
Proof.
  induction 1 as [|k key keys m' ms c cs Hc _ IH]; [by intros ?%elem_of_nil|].
  intros [->|Hm]%elem_of_cons.
  - exists k, key, c. split; [by left|done].
  - destruct (IH Hm) as (i & key' & c' & Hk & ?). exists i, key', c'. split; [by right|done].
Qed.

Lemma claimed_list_claim fresh g owner now expires eb k keys ms cs c :
  claimed_list fresh g owner now expires eb k keys ms cs → c ∈ cs →
  ∃ i key m, key ∈ keys ∧ m ∈ ms ∧ claimed fresh g owner now expires eb i key m c ∧ (k ≤ i)%nat.
Proof.
  induction 1 as [|k key keys m ms c' cs Hc _ IH]; [by intros ?%elem_of_nil|].
  intros [->|Hm]%elem_of_cons.
  - exists k, key, m. split_and!; [by left|by left|done|lia].
  - destruct (IH Hm) as (i & key' & m' & Hk & Hm' & ? & ?).
    exists i, key', m'. split_and!; [by right|by right|done|lia].
Qed.

(** ** The whole operation *)

Definition claim_blocked (g : TaskGraph) (now : Z) : list TaskMutation :=
  blocked_mutations g (expired_ids g now) None.
Definition claim_blocked_ids (g : TaskGraph) (now : Z) : gset TaskId :=
  list_to_set (mut_id <$> claim_blocked g now).
Definition claim_keys (g : TaskGraph) (now maximum : Z) (worker : TaskCapabilitySet)
    : list (Z * TaskId) :=
  select_ready g (expired_ids g now) (claim_blocked_ids g now) worker maximum.

Record claim_run fresh owner now duration maximum eb worker (g g' : TaskGraph)
    (claims : list TaskClaim) (changed : bool) : Prop := {
  cr_owner : capability_name_valid owner = true;
  cr_binding : ∀ b, eb = Some b → binding_validate b = Ok ();
  cr_duration : duration ≠ 0%Z;
  cr_maximum : (1 ≤ maximum ≤ MAX_CLAIMS_PER_BATCH)%Z;
  cr_no_overflow : (now + duration ≤ u64_max)%Z;
  cr_governed : eb = None → ∀ key e, key ∈ claim_keys g now maximum worker →
    e ∈ attempt_bindings g → tab_task_id e ≠ key.2;
  cr_batch : ∃ mk,
    claimed_list fresh g owner now (now + duration) eb 0
      (claim_keys g now maximum worker) mk claims ∧
    let ms := claim_blocked g now ++
      released g (claim_blocked_ids g now)
        (bs_iter (expired_ids g now ∖ list_to_set (claim_keys g now maximum worker).*2)) ++ mk in
    changed = bool_decide (ms ≠ []) ∧ apply_task_mutations ms g = (g', Ok ());
}.

Lemma claim_ok fresh owner now duration maximum eb worker g g' claims changed :
  claim_ready_governed fresh owner now duration maximum eb worker g = (g', Ok (claims, changed)) →
  claim_run fresh owner now duration maximum eb worker g g' claims changed.
Proof.
  unfold claim_ready_governed. intros H. inv_M. inv_ok. bool_hyps.
  repeat match goal with H : validate_capability_name _ _ = _ |- _ =>
    rewrite validate_capability_name_ok in H end.
  match goal with H : checked_add _ _ _ = _ |- _ => apply checked_add_Some in H as [-> ?] end.
  match goal with H : fold_m (release_mutations _ _) _ _ = _ |- _ => apply release_fold in H as -> end.
  match goal with H : in_range _ _ _ = true |- _ => unfold in_range in H; bool_hyps end.
  match goal with H : fold_m (claim_one _ _ _ _ _ _) _ _ = Ok ?p |- _ =>
    destruct p as [msf csf]; apply claim_fold in H as (mk & ck & -> & -> & Hcl) end.
  simpl in *.
  split; try done.
  - intros b ->. match goal with H : binding_validate _ = Ok _ |- _ => done end.
  - intros -> key e Hk He Ht.
    match goal with H : _ && existsb _ _ = false |- _ => rename H into Hg end.
    simpl in Hg.
    apply not_true_iff_false in Hg. apply Hg. apply existsb_exists. exists key.
    split; [by apply list_elem_of_In|]. apply existsb_exists. exists e.
    split; [by apply list_elem_of_In|]. by apply bool_decide_eq_true_2.
  - exists mk. rewrite app_assoc. simpl in *. split_and!; [done| |done].
    apply nonempty_bool.
Qed.

Lemma released_elem g blocked l m :
  m ∈ released g blocked l →
  ∃ t r, t ∈ l ∧ t ∉ blocked ∧ tasks g !! t = Some r ∧ m = status_mutation t Pending (tr_attempts r).
Proof.
  intros (t & Ht & Hm)%list_elem_of_omap. case_bool_decide; [done|].
  apply fmap_Some in Hm as (r & Hr & ->). eauto 10.
Qed.

Lemma claimed_admissible fresh g owner now expires eb i key m c :
  typed g → capability_name_valid owner = true →
  (eb = None → ∀ e, e ∈ attempt_bindings g → tab_task_id e ≠ key.2) →
  claimed fresh g owner now expires eb i key m c → admissible g m.
Proof.
  intros Ht Ho Hg (r & Hr & Hmax & -> & _). exists r. pose proof (Ht _ _ Hr).
  split_and!; [done| |done|].
  - unfold check_record_status, mutate. simpl.
    rewrite (proj2 (validate_capability_name_ok _ _ ()) Ho). simpl.
    rewrite Z.eqb_refl, (proj2 (Z.eqb_neq _ _)) by lia. done.
  - right. split; [done|]. simpl. intros Hn. apply Hg. by destruct eb.
Qed.

Lemma claim_admissible fresh owner now duration maximum eb worker g g' claims changed mk :
  typed g → integrity g →
  claim_run fresh owner now duration maximum eb worker g g' claims changed →
  claimed_list fresh g owner now (now + duration) eb 0 (claim_keys g now maximum worker) mk claims →
  Forall (admissible g) (claim_blocked g now ++
    released g (claim_blocked_ids g now)
      (bs_iter (expired_ids g now ∖ list_to_set (claim_keys g now maximum worker).*2)) ++ mk).
Proof.
  intros Ht Hi Hr Hc. apply Forall_app. split; [by apply blocked_admissible|].
  apply Forall_app. split; apply Forall_forall; intros m Hm.
  - apply released_elem in Hm as (t & r & _ & _ & Hr' & ->). by apply keep_admissible.
  - destruct (claimed_list_elem _ _ _ _ _ _ _ _ _ _ _ Hc Hm) as (i & key & c & Hk & Hcl).
    eapply claimed_admissible; [done|apply Hr| |exact Hcl].
    intros ->. intros e He. by eapply (cr_governed _ _ _ _ _ _ _ _ _ _ _ Hr).
Qed.
End claims.
