(* ===== verification/TaskSchedule.v ===== *)
(** The operations of a Task Graph as a step relation, and the invariants of
    every reachable graph: its own integrity check, and the scheduling
    invariant (a running Task has completed dependencies, a pending Task has
    none that failed) from which deadlock freedom follows.

    The scheduling invariant of a Task Graph and deadlock freedom: a running
    Task has completed dependencies, a pending Task has no failed one, and
    therefore a graph with work left has a ready or a running Task. *)

From Stdlib Require Import ZArith Lia.
From stdpp Require Import sorting base tactics list gmap relations numbers strings option.
From stdpp Require Import list.
From S2P Require Import Prelude Kernel TaskGraph TaskBlocked TaskApply TaskIntegrity TaskInvariant TaskClaims.

Section steps.
Context `{!Serialize ExecutionBinding, !Serialize (TaskId * TaskRecord),
          !Serialize TaskMessage, !Serialize TaskAttemptBinding}.

(** One call of a public operation, whatever it returned.  A message
    identity is fresh because [Kernel.generate] never repeats one. *)
Inductive task_step (g : TaskGraph) : TaskGraph → Prop :=
| step_claim fresh owner now duration maximum eb worker g' r :
    claim_ready_governed fresh owner now duration maximum eb worker g = (g', r) → task_step g g'
| step_heartbeat id token now expires g' r :
    heartbeat id token now expires g = (g', r) → task_step g g'
| step_complete id token now c g' r :
    complete id token now c g = (g', r) → task_step g g'
| step_fail id token now reason g' r :
    fail id token now reason g = (g', r) → task_step g g'
| step_cancel id reason g' r :
    cancel id reason g = (g', r) → task_step g g'
| step_release now g' r :
    release_expired now g = (g', r) → task_step g g'
| step_send fresh from to body created g' r :
    fresh ∉ msg_id <$> messages g →
    send_message fresh from to body created g = (g', r) → task_step g g'.

(** The graphs a host can hold. *)
Inductive reachable : TaskGraph → Prop :=
| reach_new ds g : TaskGraph_new ds = Ok g → reachable g
| reach_step g g' : reachable g → task_step g g' → reachable g'.

(** ** Failure atomicity *)

Lemma claim_err fresh owner now duration maximum eb worker g g' e :
  claim_ready_governed fresh owner now duration maximum eb worker g = (g', Err e) → g' = g.
Proof. unfold claim_ready_governed. intros H. inv_M_err; try done. by eapply apply_err. Qed.
Lemma heartbeat_err id token now expires g g' e :
  heartbeat id token now expires g = (g', Err e) → g' = g.
Proof. unfold heartbeat. intros H. inv_M_err; try done. by eapply apply_err. Qed.
Lemma complete_err id token now c g g' e : complete id token now c g = (g', Err e) → g' = g.
Proof. unfold complete. intros H. inv_M_err; try done. by eapply apply_err. Qed.
Lemma fail_err id token now reason g g' e : fail id token now reason g = (g', Err e) → g' = g.
Proof. unfold fail. intros H. inv_M_err; try done. by eapply apply_err. Qed.
Lemma cancel_err id reason g g' e : cancel id reason g = (g', Err e) → g' = g.
Proof. unfold cancel. intros H. inv_M_err; try done. by eapply apply_err. Qed.
Lemma release_err now g g' e : release_expired now g = (g', Err e) → g' = g.
Proof. unfold release_expired. intros H. inv_M_err; try done. by eapply apply_err. Qed.
Lemma send_err fresh from to body created g g' e :
  send_message fresh from to body created g = (g', Err e) → g' = g.
Proof. unfold send_message. intros H. inv_M_err; try done. Qed.

Lemma send_ok fresh from to body created g g' m :
  send_message fresh from to body created g = (g', Ok m) →
  m = {| msg_id := fresh; msg_sequence := next_message_sequence g; msg_from := from;
         msg_to := to; msg_body := body; msg_created_at_ms := created |} ∧
  (len (messages g) < MAX_MESSAGES)%Z ∧ is_Some (tasks g !! from) ∧ is_Some (tasks g !! to) ∧
  body_ok body ∧ (next_message_sequence g + 1 ≤ u64_max)%Z ∧
  ∃ n, message_materialization_charge m = Ok n ∧
    (materialization_charge_bytes g + n ≤ MAX_TASK_GRAPH_JSON_BYTES)%Z ∧
    g' = {| tasks := tasks g; messages := messages g ++ [m];
            attempt_bindings := attempt_bindings g;
            next_message_sequence := next_message_sequence g + 1;
            materialization_charge_bytes := materialization_charge_bytes g + n |}.
Proof.
  unfold send_message, validate_graph_charge, checked_graph_charge_add. intros H.
  inv_M. inv_ok. bool_hyps.
  repeat match goal with H : checked_add _ _ _ = _ |- _ => apply checked_add_Some in H as [-> ?] end.
  repeat match goal with H : ¬ (_ !! _ = None) |- _ => apply not_eq_None_Some in H end.
  split_and!; [reflexivity|assumption|assumption|assumption|by split|assumption|]. eauto.
Qed.

(** ** Mutating steps

    A step either leaves the graph alone, appends one message, or applies
    one batch of admissible mutations. *)
Inductive step_shape (g : TaskGraph) : TaskGraph → Prop :=
| shape_same : step_shape g g
| shape_batch ms g' :
    (typed g → integrity g → Forall (admissible g) ms) →
    apply_task_mutations ms g = (g', Ok ()) → step_shape g g'
| shape_send fresh from to body created g' m :
    fresh ∉ msg_id <$> messages g →
    send_message fresh from to body created g = (g', Ok m) → step_shape g g'.

Lemma step_has_shape g g' : task_step g g' → step_shape g g'.
Proof.
  destruct 1 as [fresh owner now dur mx eb w g' [[cs ch]|e] H|id tok now ex g' [[]|e] H
    |id tok now c g' [[]|e] H|id tok now reason g' [[]|e] H|id reason g' [[]|e] H
    |now g' [ids|e] H|fresh from to body cr g' [m|e] Hf H];
    try (first [apply claim_err in H|apply heartbeat_err in H|apply complete_err in H
      |apply fail_err in H|apply cancel_err in H|apply release_err in H|apply send_err in H];
      subst; constructor).
  - apply claim_ok in H as Hr. destruct (cr_batch _ _ _ _ _ _ _ _ _ _ _ Hr) as (mk & Hc & _ & Ha).
    eapply shape_batch; [|exact Ha]. intros Ht Hi. by eapply claim_admissible.
  - apply heartbeat_ok in H as (r & l & Hr & Hs & _ & _ & _ & Ha). eapply shape_batch; [|exact Ha].
    intros Ht Hi. apply Forall_singleton, keep_admissible; [done|done| |intros ? [= <-]; eauto].
    pose proof (in_status g Hi _ _ Hr) as Hst. unfold check_record_status in *. rewrite Hs in Hst. done.
  - apply complete_ok in H as (r & l & Hr & Hs & _ & _ & Hv & Ha). eapply shape_batch; [|exact Ha].
    intros Ht Hi. apply Forall_singleton, keep_admissible; [done|done| |done].
    unfold check_record_status. simpl. fold (rec_id r). by rewrite (in_keyed g Hi _ _ Hr).
  - apply fail_ok in H as (r & l & Hr & Hs & _ & _ & Hv & Ha). eapply shape_batch; [|exact Ha].
    intros Ht Hi. apply Forall_cons. split; [|by apply blocked_admissible].
    apply keep_admissible; [done|done| |done]. by eapply validate_task_text_field.
  - apply cancel_ok in H as (r & Hr & Hs & Hv & Ha). eapply shape_batch; [|exact Ha].
    intros Ht Hi. apply Forall_cons. split; [|by apply blocked_admissible].
    apply keep_admissible; [done|done| |done]. by eapply validate_task_text_field.
  - apply release_expired_ok in H as [_ Ha]. eapply shape_batch; [|exact Ha].
    intros Ht Hi. by apply release_admissible.
  - by eapply shape_send.
Qed.

(** ** Integrity of every reachable graph *)

Lemma send_integrity fresh from to body created g g' m :
  integrity g → fresh ∉ msg_id <$> messages g →
  send_message fresh from to body created g = (g', Ok m) → integrity g'.
Proof.
  intros Hi Hf (Em & Hl & Hfr & Hto & Hb & Hn & n & Hc & Hcap & ->)%send_ok.
  destruct Hi as [H1 H2 H3 H4 H5 H6 H7 H8 H9 H10 H11].
  split; simpl; try done.
  - unfold len in *. rewrite length_app. simpl. lia.
  - constructor; [done|]. subst m. split_and!; simpl; [rewrite H10 in Hn; lia|done..].
  - rewrite H10. unfold len. rewrite length_app. simpl. lia.
  - apply calculate_charge_ok in H11 as ((E1 & E2 & E3) & H11 & _).
    apply calculate_charge_ok. split_and!; [split_and!; [done| |done]| |done].
    + simpl. apply Forall_app. split; [done|]. apply Forall_singleton. by rewrite Hc.
    + rewrite H11. unfold total_charge. simpl. rewrite sum_z_app.
      change (sum_z message_charge [m]) with (message_charge m + 0)%Z.
      assert (message_charge m = n) as -> by (unfold message_charge; by rewrite Hc). lia.
Qed.

Lemma step_integrity g g' :
  typed g → integrity g → task_step g g' → integrity g' ∧ typed g'.
Proof.
  intros Ht Hi [|ms g1 Hadm Ha|? ? ? ? ? g1 m Hf Hs]%step_has_shape; [done| |].
  - by eapply apply_integrity; [..|exact Ha]; auto.
  - split; [by eapply send_integrity|].
    apply send_ok in Hs as (_ & _ & _ & _ & _ & _ & n & _ & _ & ->). done.
Qed.

Lemma new_integrity ds g : TaskGraph_new ds = Ok g → integrity g ∧ typed g.
Proof.
  intros Hn. pose proof Hn as Hn0. apply new_ok in Hn as ([Hlen Hval Hu Hc Ha] & c & Hcalc & ->).
  assert (∀ id r, pending_map ds !! id = Some r → ∃ d, d ∈ ds ∧ id = td_id d ∧ r = pending_record d)
    as Hlk by (intros id r; by apply pending_map_lookup).
  pose proof (pending_map_keyed ds Hu) as Hk.
  destruct (pending_map_defs _ Hk) as [Hnd Hpm].
  assert (pending_record <$> defs (pending_map ds) = pending_map ds) as Hpd.
  { apply map_eq. intros id. unfold defs. rewrite !lookup_fmap.
    destruct (pending_map ds !! id) as [r|] eqn:E; [|done].
    apply Hlk in E as (d & _ & _ & ->). done. }
  split.
  2:{ intros id r (d & _ & _ & ->)%Hlk. simpl. unfold u32_max. lia. }
  split; simpl; try done.
  - unfold pending_map. rewrite <-length_bt_iter, bt_iter_perm, map_to_list_to_map.
    + rewrite length_fmap. unfold len in Hlen. lia.
    + by rewrite <-list_fmap_compose.
  - assert (valid_definitions (bt_values (defs (pending_map ds)))) as Hvd.
    { split; [| |done|by rewrite Hpm, Hpd|by rewrite Hpm, Hpd].
      - rewrite <-defs_values. unfold len. rewrite length_fmap. unfold bt_values.
        rewrite length_fmap, bt_iter_perm. unfold pending_map.
        rewrite map_to_list_to_map by (by rewrite <-list_fmap_compose).
        rewrite length_fmap. done.
      - apply Forall_forall. intros d Hd. rewrite <-defs_values in Hd.
        apply list_elem_of_fmap in Hd as (r & -> & [id Hr]%elem_of_bt_values).
        apply Hlk in Hr as (d & Hd & _ & ->). by eapply Forall_forall in Hval. }
    assert (TaskGraph_new (bt_values (defs (pending_map ds))) = Ok (fresh_graph ds c)) as ->; [|done].
    apply new_ok. split; [done|]. exists c. unfold fresh_graph. rewrite Hpm, Hpd. done.
  - intros id r (d & _ & _ & ->)%Hlk. done.
  - constructor.
  - intros id r (d & _ & _ & ->)%Hlk. split; [by intros ? ? ?%elem_of_nil|done].
  - constructor.
Qed.

Lemma reachable_integrity g : reachable g → integrity g ∧ typed g.
Proof.
  induction 1 as [ds g H|g g' _ [IH1 IH2] Hs]; [by eapply new_integrity|by eapply step_integrity].
Qed.
End steps.

(** Failed, cancelled or blocked. *)
Definition dead (g : TaskGraph) (id : TaskId) : Prop :=
  ∃ r, tasks g !! id = Some r ∧ is_dead (tr_status r) = true.

Definition schedule (g : TaskGraph) : Prop :=
  ∀ id r, tasks g !! id = Some r →
    (∀ l, tr_status r = Running l → dependencies_completed (tasks g) r = true) ∧
    (tr_status r = Pending → ∀ d, d ∈ td_dependencies (tr_definition r) → ¬ dead g d).

Lemma is_pending_iff s : is_pending s = true ↔ s = Pending.
Proof. by destruct s. Qed.

Lemma is_expired_Running now s : is_expired now s = true → ∃ l, s = Running l.
Proof. destruct s; simpl; eauto; done. Qed.

Lemma completed_not_dead g r d :
  dependencies_completed (tasks g) r = true → d ∈ td_dependencies (tr_definition r) → ¬ dead g d.
Proof.
  rewrite dependencies_completed_iff. intros H Hd (r' & Hr' & Hdead).
  destruct (H d Hd) as (r2 & Hr2 & Hc). rewrite Hr' in Hr2. injection Hr2 as <-.
  by destruct (tr_status r').
Qed.

(** The Tasks a blocking pass touches were pending or expired. *)
Lemma blocked_by_source g overrides failed id :
  blocked_by g overrides failed id →
  ∃ r, tasks g !! id = Some r ∧ id ∉ failed ∧ (tr_status r = Pending ∨ id ∈ overrides).
Proof.
  destruct 1 as [id r d (H1 & H2 & H3) _ _|id r d (H1 & H2 & H3) _ _];
    rewrite is_pending_iff in H3; eauto.
Qed.

Section schedule.
Context `{!Serialize ExecutionBinding, !Serialize (TaskId * TaskRecord),
          !Serialize TaskMessage, !Serialize TaskAttemptBinding}.

Lemma apply_lookup ms g g' u id r' :
  apply_task_mutations ms g = (g', Ok u) → tasks g' !! id = Some r' →
  (id ∉ mut_id <$> ms ∧ tasks g !! id = Some r') ∨
  (∃ m r, m ∈ ms ∧ mut_id m = id ∧ tasks g !! id = Some r ∧ r' = mutate m r).
Proof. intros (st & Hck & _ & _ & ->)%apply_ok Hr. eapply commit_all_lookup; [apply Hck|done]. Qed.

Lemma apply_lookup_other ms g g' u id :
  apply_task_mutations ms g = (g', Ok u) → id ∉ mut_id <$> ms → tasks g' !! id = tasks g !! id.
Proof. intros (st & Hck & _ & _ & ->)%apply_ok Hr. simpl. by apply commit_all_other. Qed.

Lemma apply_lookup_mutated ms g g' u m r :
  apply_task_mutations ms g = (g', Ok u) → m ∈ ms → tasks g !! mut_id m = Some r →
  tasks g' !! mut_id m = Some (mutate m r).
Proof. intros (st & Hck & _ & _ & ->)%apply_ok. simpl. apply commit_all_mutated, Hck. Qed.

(** A batch preserves the invariant when it leaves completed Tasks alone,
    starts only Tasks whose dependencies completed, and blocks everything
    behind the Tasks it fails. *)
Lemma schedule_batch ms g g' :
  schedule g → apply_task_mutations ms g = (g', Ok ()) →
  (∀ m r, m ∈ ms → tasks g !! mut_id m = Some r → is_completed (tr_status r) = false) →
  (∀ m r l, m ∈ ms → tasks g !! mut_id m = Some r → mut_status m = Running l →
     dependencies_completed (tasks g) r = true) →
  (∀ id r d, tasks g !! id = Some r →
     (id ∉ mut_id <$> ms ∧ tr_status r = Pending) ∨
     (∃ m, m ∈ ms ∧ mut_id m = id ∧ mut_status m = Pending) →
     d ∈ td_dependencies (tr_definition r) →
     ¬ dead g d ∧ ∀ m, m ∈ ms → mut_id m = d → is_dead (mut_status m) = false) →
  schedule g'.
Proof.
  intros Hs Ha H1 H2 H3.
  assert (∀ r, dependencies_completed (tasks g) r = true →
               dependencies_completed (tasks g') r = true) as Hmono.
  { intros r. rewrite !dependencies_completed_iff. intros Hd d Hin.
    destruct (Hd d Hin) as (r' & Hr' & Hc). exists r'. split; [|done].
    rewrite (apply_lookup_other _ _ _ _ _ Ha); [done|].
    intros (m & -> & Hm)%list_elem_of_fmap. by rewrite (H1 m r' Hm Hr') in Hc. }
  assert (∀ d, dead g' d → dead g d ∨ ∃ m, m ∈ ms ∧ mut_id m = d ∧ is_dead (mut_status m) = true) as Hdead.
  { intros d (r' & Hr' & Hd).
    destruct (apply_lookup _ _ _ _ _ _ Ha Hr') as [[_ Hr]|(m & r & Hm & Hid & Hr & ->)];
      [left; by exists r'|right; eauto]. }
  intros id r' Hr'.
  destruct (apply_lookup _ _ _ _ _ _ Ha Hr') as [[Hn Hr]|(m & r & Hm & Hid & Hr & ->)].
  - destruct (Hs id r' Hr) as [S1 S2]. split; [intros l Hl; apply Hmono; eauto|].
    intros Hp d Hd [Hdd|(m & Hm & Hmid & Hmd)]%Hdead; [by apply (S2 Hp d Hd)|].
    destruct (H3 id r' d Hr) as [_ Hno]; [by left|done|]. by rewrite (Hno m Hm Hmid) in Hmd.
  - simpl. split; [intros l Hl; apply Hmono; subst id; exact (H2 m r l Hm Hr Hl)|].
    intros Hp d Hd Hdd. destruct (H3 id r d Hr) as [Hnd Hno]; [right; eauto|done|].
    apply Hdead in Hdd as [?|(m' & Hm' & Hmid' & Hmd')]; [done|].
    by rewrite (Hno m' Hm' Hmid') in Hmd'.
Qed.

(** Settling one Task as failed or cancelled. *)
Lemma schedule_settle g g' id r s att :
  keyed (tasks g) → schedule g → tasks g !! id = Some r →
  is_completed (tr_status r) = false → is_dead s = true →
  apply_task_mutations (status_mutation id s att :: blocked_mutations g ∅ (Some id)) g = (g', Ok ()) →
  schedule g'.
Proof.
  intros Hk Hs Hr Hc Hd Ha.
  destruct (blocked_mutations_correct g ∅ (Some id) Hk) as (_ & Hbl & Hby). simpl in Hby, Hbl.
  rewrite Forall_forall in Hbl.
  assert (∀ m, m ∈ blocked_mutations g ∅ (Some id) → blocked_by g ∅ ({[id]} ∪ dead_ids g) (mut_id m)) as Hm.
  { intros m Hm. apply Hby, list_elem_of_fmap. eauto. }
  assert (∀ m, m ∈ blocked_mutations g ∅ (Some id) → ∃ d, mut_status m = Blocked (blocked_reason d)) as Hst.
  { intros m (r' & d & _ & _ & _ & -> & _)%Hbl. eauto. }
  eapply schedule_batch; [done|exact Ha|..].
  - intros m r' [->|Hin]%elem_of_cons Hr'; [simpl in Hr'; congruence|].
    destruct (blocked_by_source _ _ _ _ (Hm m Hin)) as (r2 & Hr2 & _ & [Hp|?%not_elem_of_empty]); [|done].
    rewrite Hr' in Hr2. injection Hr2 as <-. by rewrite Hp.
  - intros m r' l [->|Hin]%elem_of_cons Hr' Hl; [simpl in Hl; by subst s|].
    destruct (Hst m Hin) as [d Hd']. congruence.
  - intros t rt d Ht [[Hn Hp]|(m & Hin & Hmid & Hmp)] Hdep.
    + assert (¬ dead g t) as Hnt.
      { intros (r' & Hr' & Hdr). simplify_eq. by rewrite Hp in Hdr. }
      split; [by apply (Hs t rt Ht)|]. intros m Hin Hmid.
      destruct (is_dead (mut_status m)) eqn:Em; [|done]. exfalso. apply Hn.
      simpl. apply elem_of_cons. right. apply Hby.
      apply not_elem_of_cons in Hn as [Hn _].
      assert (may_block g ∅ ({[id]} ∪ dead_ids g) t rt) as Hmay.
      { split_and!; [done| |left; by apply is_pending_iff].
        rewrite elem_of_union, elem_of_singleton, elem_of_dead_ids by done. tauto. }
      apply elem_of_cons in Hin as [->|Hin].
      * eapply blocked_failed; [exact Hmay|exact Hdep|]. simpl in Hmid. subst d.
        clear. set_solver.
      * eapply blocked_chain; [exact Hmay|exact Hdep|]. rewrite <-Hmid. by apply Hm.
    + exfalso. apply elem_of_cons in Hin as [->|Hin]; [simpl in Hmp; by subst s|].
      destruct (Hst m Hin) as [d' Hd']. congruence.
Qed.

(** The sources of the mutations of a claim. *)
Lemma claim_batch_source g now maximum worker owner fresh expires eb mk cs m :
  keyed (tasks g) →
  claimed_list fresh g owner now expires eb 0 (claim_keys g now maximum worker) mk cs →
  m ∈ claim_blocked g now ++ released g (claim_blocked_ids g now)
      (bs_iter (expired_ids g now ∖ list_to_set (claim_keys g now maximum worker).*2)) ++ mk →
  (∃ d, blocked_by g (expired_ids g now) (dead_ids g) (mut_id m) ∧
        mut_status m = Blocked (blocked_reason d)) ∨
  (mut_id m ∈ expired_ids g now ∧ mut_id m ∉ claim_blocked_ids g now ∧ mut_status m = Pending) ∨
  (∃ r l, claimable g (expired_ids g now) (claim_blocked_ids g now) worker r ∧
        mut_id m = rec_id r ∧ mut_status m = Running l).
Proof.
  intros Hk Hc [Hm|[Hm|Hm]%elem_of_app]%elem_of_app.
  - left. destruct (blocked_mutations_correct g (expired_ids g now) None Hk) as (_ & Hf & Hby).
    rewrite Forall_forall in Hf. destruct (Hf m Hm) as (r & d & _ & _ & _ & Hst & _).
    exists d. split; [|done]. apply Hby, list_elem_of_fmap. eauto.
  - right; left. apply released_elem in Hm as (t & r & Ht%elem_of_bs_iter & Hb & Hr & ->).
    apply elem_of_difference in Ht as [Ht _]. done.
  - right; right. destruct (claimed_list_elem _ _ _ _ _ _ _ _ _ _ _ Hc Hm)
      as (i & key & c & Hkey & (r & Hr & _ & -> & _)).
    unfold claim_keys in Hkey. rewrite select_ready_take in Hkey.
    apply elem_of_take in Hkey as (j & Hj & _). apply list_elem_of_lookup_2 in Hj.
    apply elem_of_all_ready in Hj as (r' & Hcl & ->); [|done]. simpl in *. eauto 10.
Qed.

Lemma claim_blocked_ids_iff g now id :
  keyed (tasks g) →
  id ∈ claim_blocked_ids g now ↔ blocked_by g (expired_ids g now) (dead_ids g) id.
Proof.
  intros Hk. unfold claim_blocked_ids. rewrite elem_of_list_to_set.
  by destruct (blocked_mutations_correct g (expired_ids g now) None Hk) as (_ & _ & ?).
Qed.

Lemma schedule_claim fresh owner now duration maximum eb worker g g' claims changed :
  keyed (tasks g) → schedule g →
  claim_run fresh owner now duration maximum eb worker g g' claims changed → schedule g'.
Proof.
  intros Hk Hs Hr. destruct (cr_batch _ _ _ _ _ _ _ _ _ _ _ Hr) as (mk & Hc & _ & Ha).
  pose proof (λ m, claim_batch_source g now maximum worker owner fresh _ eb mk claims m Hk Hc) as Hsrc.
  assert (∀ t r, tasks g !! t = Some r → t ∈ expired_ids g now → ∃ l, tr_status r = Running l) as Hexp.
  { intros t r Ht (r' & Ht' & He)%elem_of_expired_ids; [|done]. simplify_eq.
    by eapply is_expired_Running. }
  (* a Task left pending has no dependency blocked by this pass *)
  assert (∀ t r d, tasks g !! t = Some r → t ∉ claim_blocked_ids g now → ¬ dead g t →
      (is_pending (tr_status r) = true ∨ t ∈ expired_ids g now) →
      d ∈ td_dependencies (tr_definition r) → d ∉ claim_blocked_ids g now) as Hclosed.
  { intros t r d Ht Hb Hnd Hp Hd Hdb. apply Hb. rewrite claim_blocked_ids_iff in * by done.
    eapply blocked_chain; [|exact Hd|done]. split_and!; [done| |done].
    by rewrite elem_of_dead_ids. }
  eapply schedule_batch; [done|exact Ha|..].
  - intros m r Hm Hrm. destruct (Hsrc m Hm) as [(d & Hby & _)|[(He & _)|(r' & l & Hcl & Hid & _)]].
    + destruct (blocked_by_source _ _ _ _ Hby) as (r2 & Hr2 & _ & Hp).
      rewrite Hrm in Hr2. injection Hr2 as <-.
      destruct Hp as [->|He]; [done|]. by destruct (Hexp _ _ Hrm He) as [l ->].
    + by destruct (Hexp _ _ Hrm He) as [l ->].
    + destruct Hcl as (Hr' & _ & Hp & _). rewrite Hid, Hr' in Hrm. injection Hrm as <-.
      destruct Hp as [->%is_pending_iff|He]; [done|]. by destruct (Hexp _ _ Hr' He) as [l' ->].
  - intros m r l Hm Hrm Hst.
    destruct (Hsrc m Hm) as [(d & _ & Hb)|[(_ & _ & Hp)|(r' & l' & Hcl & Hid & _)]]; [congruence..|].
    destruct Hcl as (Hr' & _ & _ & _ & Hd). rewrite Hid, Hr' in Hrm. congruence.
  - intros t rt d Ht Hcase Hdep.
    assert (t ∉ claim_blocked_ids g now ∧ (tr_status rt = Pending ∨ ∃ l, tr_status rt = Running l) ∧
            (is_pending (tr_status rt) = true ∨ t ∈ expired_ids g now)) as (Hnb & Hst & Hpe).
    { destruct Hcase as [[Hn Hp]|(m & Hm & <- & Hmp)].
      - split_and!; [|by left|left; by apply is_pending_iff].
        intros Hb. apply Hn. rewrite fmap_app. apply elem_of_app. left.
        by apply elem_of_list_to_set in Hb.
      - destruct (Hsrc m Hm) as [(d' & _ & Hb)|[(He & Hb & _)|(r' & l' & _ & _ & Hr')]];
          [congruence| |congruence].
        split_and!; [done|right; by eapply Hexp|by right]. }
    assert (¬ dead g t) as Hnt.
    { intros (r' & Hr' & Hdr). simplify_eq. by destruct Hst as [E|[l E]]; rewrite E in Hdr. }
    split.
    + destruct (Hs t rt Ht) as [S1 S2]. destruct Hst as [Hp|[l Hl]]; [by apply S2|].
      eapply completed_not_dead; [by eapply S1|done].
    + intros m Hm Hmid. destruct (is_dead (mut_status m)) eqn:Em; [|done]. exfalso.
      eapply (Hclosed t rt d Ht Hnb Hnt Hpe Hdep). rewrite <-Hmid. apply claim_blocked_ids_iff; [done|].
      destruct (Hsrc m Hm) as [(d' & Hb & _)|[(_ & _ & Hp)|(r' & l' & _ & _ & Hr')]]; [done|..].
      * by rewrite Hp in Em.
      * by rewrite Hr' in Em.
Qed.

Lemma schedule_one g g' id r s att :
  schedule g → tasks g !! id = Some r → is_completed (tr_status r) = false →
  is_dead s = false → s ≠ Pending →
  (∀ l, s = Running l → dependencies_completed (tasks g) r = true) →
  apply_task_mutations [status_mutation id s att] g = (g', Ok ()) → schedule g'.
Proof.
  intros Hs Hr Hc Hd Hp Hrun Ha. eapply schedule_batch; [done|exact Ha|..].
  - intros m r' ->%list_elem_of_singleton Hr'. simpl in Hr'. congruence.
  - intros m r' l ->%list_elem_of_singleton Hr' Hl. simpl in *. simplify_eq. by eapply Hrun.
  - intros t rt d Ht [[_ Hpt]|(m & ->%list_elem_of_singleton & _ & Hmp)] Hdep; [|done].
    split; [by apply (Hs t rt Ht)|]. by intros m ->%list_elem_of_singleton _.
Qed.

Lemma schedule_release g g' now :
  keyed (tasks g) → schedule g →
  apply_task_mutations (release_batch g now) g = (g', Ok ()) → schedule g'.
Proof.
  intros Hk Hs Ha.
  assert (∀ m, m ∈ release_batch g now → mut_status m = Pending ∧
    ∃ r l, tasks g !! mut_id m = Some r ∧ tr_status r = Running l) as Hsrc.
  { intros m (r & -> & [Hr He]%list_elem_of_In%filter_In)%list_elem_of_fmap. split; [done|].
    apply list_elem_of_In, keyed_elem in Hr; [|done]. apply is_expired_Running in He as [l Hl].
    simpl. eauto. }
  eapply schedule_batch; [done|exact Ha|..].
  - intros m r Hm Hr. destruct (Hsrc m Hm) as [_ (r' & l & Hr' & Hl)]. simplify_eq. by rewrite Hl.
  - intros m r l Hm Hr Hl. destruct (Hsrc m Hm) as [E _]. congruence.
  - intros t rt d Ht Hcase Hdep. split.
    + destruct (Hs t rt Ht) as [S1 S2]. destruct Hcase as [[_ Hp]|(m & Hm & <- & _)]; [by apply S2|].
      destruct (Hsrc m Hm) as [_ (r' & l & Hr' & Hl)]. simplify_eq.
      eapply completed_not_dead; [by eapply S1|done].
    + intros m Hm _. destruct (Hsrc m Hm) as [-> _]. done.
Qed.

Lemma schedule_step g g' :
  keyed (tasks g) → schedule g → task_step g g' → schedule g'.
Proof.
  intros Hk Hs. destruct 1 as [fresh owner now dur mx eb w g' [[cs ch]|e] H|id tok now ex g' [[]|e] H
    |id tok now c g' [[]|e] H|id tok now reason g' [[]|e] H|id reason g' [[]|e] H
    |now g' [ids|e] H|fresh from to body cr g' [m|e] Hf H];
    try (first [apply claim_err in H|apply heartbeat_err in H|apply complete_err in H
      |apply fail_err in H|apply cancel_err in H|apply release_err in H|apply send_err in H];
      by subst).
  - apply claim_ok in H. by eapply schedule_claim.
  - apply heartbeat_ok in H as (r & l & Hr & Hl & _ & _ & _ & Ha).
    refine (schedule_one _ _ _ _ _ _ Hs Hr _ _ _ _ Ha); [by rewrite Hl|done|done|].
    intros l' _. destruct (Hs id r Hr) as [S1 _]. by eapply S1.
  - apply complete_ok in H as (r & l & Hr & Hl & _ & _ & _ & Ha).
    refine (schedule_one _ _ _ _ _ _ Hs Hr _ _ _ _ Ha); [by rewrite Hl|done..].
  - apply fail_ok in H as (r & l & Hr & Hl & _ & _ & _ & Ha).
    refine (schedule_settle _ _ _ _ _ _ Hk Hs Hr _ _ Ha); [by rewrite Hl|done].
  - apply cancel_ok in H as (r & Hr & Hl & _ & Ha).
    refine (schedule_settle _ _ _ _ _ _ Hk Hs Hr _ _ Ha); [by destruct (tr_status r)|done].
  - apply release_expired_ok in H as [_ Ha]. by eapply schedule_release.
  - apply send_ok in H as (_ & _ & _ & _ & _ & _ & n & _ & _ & ->). exact Hs.
Qed.

Lemma reachable_schedule g : reachable g → schedule g.
Proof.
  induction 1 as [ds g H|g g' Hg IH Hs].
  - apply new_ok in H as ([_ _ Hu _ _] & c & _ & ->). intros id r Hr. simpl in Hr.
    apply pending_map_lookup in Hr as (d & _ & _ & ->); [|done]. split; [done|].
    intros _ x _ (r & Hr & Hd). simpl in Hr.
    apply pending_map_lookup in Hr as (d' & _ & _ & ->); done.
  - apply (schedule_step g g'); [by apply in_keyed, reachable_integrity|done|done].
Qed.

(** ** Deadlock freedom *)

Lemma elem_of_ready g id :
  keyed (tasks g) →
  id ∈ ready g ↔ ∃ r, tasks g !! id = Some r ∧ tr_status r = Pending ∧
    dependencies_completed (tasks g) r = true.
Proof.
  intros Hk. unfold ready, ready_matching. rewrite merge_sort_Permutation.
  rewrite <-list_fmap_compose. change (snd ∘ ready_key) with rec_id.
  rewrite elem_of_filter_ids by done. setoid_rewrite andb_true_r.
  setoid_rewrite andb_true_iff. setoid_rewrite is_pending_iff. done.
Qed.

Lemma pending_has_ready g :
  keyed (tasks g) → closed_deps (tasks g) → schedule g →
  (∀ id r l, tasks g !! id = Some r → tr_status r ≠ Running l) →
  ∀ id, Acc (λ y x, dep (tasks g) x y) id →
  ∀ r, tasks g !! id = Some r → tr_status r = Pending → ready g ≠ [].
Proof.
  intros Hk Hc Hs Hrun. induction 1 as [id _ IH]. intros r Hr Hp.
  destruct (dependencies_completed (tasks g) r) eqn:Ed.
  - assert (id ∈ ready g) as Hin by (apply elem_of_ready; eauto).
    intros E. rewrite E in Hin. by apply elem_of_nil in Hin.
  - apply forallb_false in Ed as (d & Hd%elem_of_bs_iter & Hnc).
    destruct (Hc id d) as [r' Hr']; [by exists r|].
    rewrite Hr' in Hnc. apply (IH d (ex_intro _ r (conj Hr Hd)) r' Hr').
    destruct (Hs id r Hr) as [_ S2].
    destruct (tr_status r') eqn:E; [done| |done|..];
      exfalso; [by eapply Hrun|..]; apply (S2 Hp d Hd); exists r'; by rewrite E.
Qed.
End schedule.
