(* ===== verification/TaskMessages.v ===== *)
(** A concrete Task Graph on which the theorems are exercised: two Tasks, the
    second after the first, under a codec that encodes every value as the two
    bytes of an empty JSON object.

    Task messages: the cursor paging of [messages_page_for]
    (src/src/orchestration/mod.rs) delivers every message of a Task exactly
    once, in order, within its item and byte limits. *)

From Stdlib Require Import ZArith Lia.
From stdpp Require Import sorting base tactics list gmap relations numbers strings option.
From stdpp Require Import list.
From S2P Require Import Prelude Kernel TaskGraph TaskBlocked TaskApply TaskIntegrity.

Definition demo_json {T} : Serialize T := λ _, Some (lit "{}").
#[local] Existing Instance demo_json.

Definition demo_task (id : string) (deps : list string) : TaskDefinition :=
  {| td_id := lit id; td_description := lit "work";
     td_dependencies := list_to_set (lit <$> deps); td_priority := 0;
     td_workspace := WsNone; td_required_capabilities := ∅ |}.

Definition demo_definitions : list TaskDefinition :=
  [demo_task "a" []; demo_task "b" ["a"%string]].

(** The graph of a result, when there is one. *)
Definition demo_get (r : result TaskGraph) : TaskGraph :=
  match r with
  | Ok g => g
  | Err _ => {| tasks := ∅; messages := []; attempt_bindings := [];
                next_message_sequence := 1; materialization_charge_bytes := 0 |}
  end.

Definition demo_new : TaskGraph := demo_get (TaskGraph_new demo_definitions).

Definition demo_lease_ids (base : string) (i : nat) : TaskLeaseId :=
  lit base ++ repeat 48%N i.

(** Task [a] claimed at time 10 for 100 ms. *)
Definition demo_claimed : TaskGraph :=
  (claim_ready (demo_lease_ids "lease-") (lit "worker-1") 10 100 8 demo_new).1.

(** Task [a] claimed again at time 200, after its lease expired. *)
Definition demo_reclaimed : TaskGraph :=
  (claim_ready (demo_lease_ids "again-") (lit "worker-2") 200 100 8 demo_claimed).1.

Definition demo_binding : ExecutionBinding :=
  {| eb_issuer := lit "ops"; eb_name := lit "deploy"; eb_version := lit "1.0.0";
     eb_configuration_sha256 := repeat 97%N 64; eb_environment_sha256 := repeat 98%N 64;
     eb_revision := 1; eb_tenant_id := None |}.

(** Task [a] claimed under an execution binding. *)
Definition demo_governed : TaskGraph :=
  (claim_ready_with_binding (demo_lease_ids "lease-") (lit "worker-1") 10 100 8
     (Some demo_binding) demo_new).1.

Definition demo_completion : TaskCompletion := {| tc_summary := lit "done"; tc_artifacts := [] |}.

Definition demo_completed : TaskGraph :=
  (complete (lit "a") (lit "lease-") 20 demo_completion demo_claimed).1.

Definition demo_failed : TaskGraph :=
  (fail (lit "a") (lit "lease-") 20 (lit "boom") demo_claimed).1.

(** Two messages from [a] to [b]. *)
Definition demo_messages : TaskGraph :=
  (send_message (lit "m2") (lit "a") (lit "b") (lit "again") 6
     (send_message (lit "m1") (lit "a") (lit "b") (lit "hello") 5 demo_new).1).1.

Definition demo_status (g : TaskGraph) (id : string) : option TaskStatus :=
  tr_status <$> tasks g !! lit id.

(** The demonstration exercises every interesting branch. *)
Lemma demo_runs :
  is_ok (TaskGraph_new demo_definitions) = true ∧
  materialization_charge_bytes demo_new = 3076%Z ∧
  ready demo_new = [lit "a"] ∧
  (∃ l, demo_status demo_claimed "a" = Some (Running l) ∧ lease_id l = lit "lease-" ∧
        lease_attempt l = 1%Z) ∧
  (∃ l, demo_status demo_reclaimed "a" = Some (Running l) ∧ lease_id l = lit "again-" ∧
        lease_attempt l = 2%Z) ∧
  demo_status demo_completed "a" = Some (Completed demo_completion) ∧
  ready demo_completed = [lit "b"] ∧
  demo_status demo_failed "b" = Some (Blocked (blocked_reason (lit "a"))) ∧
  length (attempt_bindings demo_governed) = 1%nat ∧
  length (messages demo_messages) = 2%nat ∧
  validate_integrity demo_governed = Ok ().
Proof. vm_compute. split_and!; eauto. Qed.

Section messages.
Context `{!Serialize ExecutionBinding, !Serialize (TaskId * TaskRecord),
          !Serialize TaskMessage, !Serialize TaskAttemptBinding}.

(** The messages of a Task after a cursor. *)
Definition inbox (g : TaskGraph) (id : TaskId) (after : Z) : list TaskMessage :=
  List.filter (λ m, bool_decide (msg_to m = id) && (after <? msg_sequence m)%Z) (messages g).

(** The bytes a list of messages is charged. *)
Definition page_charge (l : list TaskMessage) : result Z :=
  fold_m (λ total m, n ← message_materialization_charge m; checked_graph_charge_add total n) 0%Z l.

Lemma page_charge_snoc l m b n b' :
  page_charge l = Ok b → message_materialization_charge m = Ok n →
  checked_graph_charge_add b n = Ok b' → page_charge (l ++ [m]) = Ok b'.
Proof.
  unfold page_charge. intros H1 H2 H3. rewrite fold_m_app, H1. simpl. rewrite H2. simpl. by rewrite H3.
Qed.

(** What one run of the page loop leaves. *)
Lemma page_loop_ok limit l : ∀ bytes acc page more,
  page_loop limit bytes acc l = Ok (page, more) →
  page_charge acc = Ok bytes → (len acc ≤ limit)%Z → (bytes ≤ MAX_MESSAGE_PAGE_BYTES)%Z →
  ∃ taken rest b, l = taken ++ rest ∧ page = acc ++ taken ∧ (len page ≤ limit)%Z ∧
    page_charge page = Ok b ∧ (b ≤ MAX_MESSAGE_PAGE_BYTES)%Z ∧
    (more = true ↔ rest ≠ []) ∧
    (∀ m rest', rest = m :: rest' → len page = limit ∨
       ∃ b', page_charge (page ++ [m]) = Ok b' ∧ (MAX_MESSAGE_PAGE_BYTES < b')%Z).
Proof.
  induction l as [|m l IH]; intros bytes acc page more H Hc Hl Hb; simpl in H.
  - injection H as <- <-. exists [], [], bytes. rewrite (app_nil_r acc). by split_and!.
  - inv_ok. destruct (_ || _) eqn:E.
    + match goal with H : Ok _ = Ok _ |- _ => injection H as <- <- end.
      exists [], (m :: l), bytes. rewrite (app_nil_r acc). split_and!; try done.
      intros m' rest' [= -> ->]. apply orb_true_iff in E as [E|E]; bool_hyps; [by left|right].
      eexists. split; [by eapply page_charge_snoc|done].
    + apply orb_false_iff in E as [E1 E2]. bool_hyps.
      match goal with H : page_loop _ _ _ _ = _ |- _ => apply IH in H as
        (taken & rest & b & -> & -> & ? & ? & ? & ? & ?) end.
      * exists (m :: taken), rest, b. rewrite <-app_assoc in *. by split_and!.
      * by eapply page_charge_snoc.
      * unfold len in *. rewrite length_app. simpl. lia.
      * lia.
Qed.

(** Stored messages are in strictly increasing sequence order. *)
Definition before (m m' : TaskMessage) : Prop := (msg_sequence m < msg_sequence m')%Z.

Lemma messages_sorted ts l :
  messages_ok ts l →
  StronglySorted before l ∧ ∀ m, m ∈ l → (1 ≤ msg_sequence m ≤ len l)%Z.
Proof.
  induction 1 as [|l a Hl [IH1 IH2] (_ & Ha & _)].
  { split; [constructor|by intros ? ?%elem_of_nil]. }
  split.
  - apply StronglySorted_app. split_and!; [|done|by repeat constructor].
    intros x y Hx%IH2 Hy%list_elem_of_singleton. subst y. unfold before. lia.
  - intros m. unfold len in *. rewrite length_app. simpl.
    intros [Hm| ->%list_elem_of_singleton]%elem_of_app; [apply IH2 in Hm|]; lia.
Qed.

Lemma inbox_after g id after cursor :
  (after ≤ cursor)%Z →
  inbox g id cursor = List.filter (λ m, (cursor <? msg_sequence m)%Z) (inbox g id after).
Proof.
  intros H. unfold inbox. rewrite filter_filter_and. apply filter_ext. intros m.
  destruct (bool_decide _), (Z.ltb_spec after (msg_sequence m)),
    (Z.ltb_spec cursor (msg_sequence m)); simpl; try done; lia.
Qed.

Lemma elem_of_inbox g id after m :
  m ∈ inbox g id after ↔ m ∈ messages g ∧ msg_to m = id ∧ (after < msg_sequence m)%Z.
Proof.
  unfold inbox. rewrite list_elem_of_In, filter_In, <-list_elem_of_In, andb_true_iff,
    bool_decide_eq_true, Z.ltb_lt. tauto.
Qed.

(** message paging: a page is a prefix of the messages addressed to the
    Task after the cursor, within the item and byte limits, and [has_more]
    tells whether something is left; continuing from the returned cursor
    yields exactly the rest. When no single message exceeds the page size, a
    page with more to come is not empty, so paging always advances. *)
Theorem task_message_paging (g : TaskGraph) (id : TaskId) (after limit : Z)
    (p : TaskMessagePage) (Hi : validate_integrity g = Ok ())
    (H : messages_page_for g id after limit = Ok p) :
  ∃ rest, inbox g id after = page_messages p ++ rest ∧
    (len (page_messages p) ≤ limit)%Z ∧
    (∃ b, page_charge (page_messages p) = Ok b ∧ (b ≤ MAX_MESSAGE_PAGE_BYTES)%Z) ∧
    (page_has_more p = true ↔ rest ≠ []) ∧
    (∀ cursor, page_next_after_sequence p = Some cursor →
       (after < cursor)%Z ∧ inbox g id cursor = rest) ∧
    ((∀ m n, m ∈ messages g → message_materialization_charge m = Ok n →
        (n ≤ MAX_MESSAGE_PAGE_BYTES)%Z) →
     page_has_more p = true → page_messages p ≠ []).
Proof.
  apply integrity_sound in Hi. destruct (messages_sorted _ _ (in_messages g Hi)) as [Hs _].
  unfold messages_page_for in H. inv_ok. unfold in_range in *. bool_hyps. fold (inbox g id after) in *.
  match goal with H : page_loop _ _ _ _ = Ok ?q |- _ => destruct q as [page more];
    apply page_loop_ok in H as (taken & rest & b & E & -> & ? & ? & ? & ? & Hstop) end;
    [|done|..]; [|unfold len; simpl; lia|done]. subst p.
  exists rest. simpl in *. split_and!; try done; [by exists b|..].
  - intros cursor Hc. destruct (vec_last taken) as [m|] eqn:El; [|done]. injection Hc as <-.
    apply vec_last_Some_snoc in El as [l ->].
    assert (m ∈ inbox g id after) as (_ & _ & Hm)%elem_of_inbox by (rewrite E; set_solver).
    split; [done|]. rewrite (inbox_after g id after) by lia.
    assert (StronglySorted before (inbox g id after)) as Hs'
      by (by apply StronglySorted_filter).
    rewrite E in *. apply StronglySorted_app in Hs' as (Hx & Hs1 & _).
    apply StronglySorted_app in Hs1 as (Hy & _ & _).
    rewrite List.filter_app, filter_none, filter_all; [done|..].
    + intros x Hx'. apply Z.ltb_lt. apply (Hx m x); [set_solver|done].
    + intros x [Hx'| ->%list_elem_of_singleton]%elem_of_app; apply Z.ltb_ge; [|done].
      apply Z.lt_le_incl, (Hy x m Hx'). set_solver.
  - intros Hsmall Hmore Hnil. subst taken. destruct rest as [|m rest]; [tauto|].
    destruct (Hstop m rest eq_refl) as [Hl|(b' & Hb' & Hlt)];
      [unfold len in *; simpl in *; lia|].
    simpl in Hb'. unfold page_charge in Hb'. simpl in Hb'.
    destruct (message_materialization_charge m) as [n|] eqn:En; [|done]. simpl in Hb'.
    unfold checked_graph_charge_add in Hb'. destruct (checked_add _ _ _) as [c|] eqn:Ec; [|done].
    apply checked_add_Some in Ec as [-> _]. injection Hb' as <-.
    assert (m ∈ inbox g id after) as [Hm _]%elem_of_inbox by (rewrite E; set_solver).
    pose proof (Hsmall m n Hm En). lia.
Qed.
End messages.

#[local] Existing Instance demo_json.

(** Paging the two messages to Task [b] one at a time. *)
Lemma task_message_paging_witness :
  let r := messages_page_for demo_messages (lit "b") 0 1 in
  ∃ p, r = Ok p ∧ page_has_more p = true ∧ page_messages p ≠ [] ∧
    page_next_after_sequence p = Some 1%Z ∧
    ∃ rest, inbox demo_messages (lit "b") 0 = page_messages p ++ rest ∧
      inbox demo_messages (lit "b") 1 = rest.
Proof.
  cbv zeta.
  destruct (messages_page_for demo_messages (lit "b") 0 1) as [p|e] eqn:E; [|by vm_compute in E].
  exists p. pose proof E as E'. vm_compute in E'. injection E' as E'.
  destruct (task_message_paging demo_messages (lit "b") 0 1 p) as (rest & H1 & _ & _ & _ & H2 & H3);
    [by vm_compute|exact E|].
  assert (page_has_more p = true) as Hm by (by rewrite <-E').
  assert (page_next_after_sequence p = Some 1%Z) as Hn by (by rewrite <-E').
  split_and!; [done|done| |done|].
  - apply H3; [|done]. intros m n Hin Hc. unfold message_materialization_charge in Hc.
    vm_compute in Hc. injection Hc as <-. by vm_compute.
  - exists rest. split; [done|]. by apply H2.
Defined.
