(* ===== verification/TaskSafety.v ===== *)
(** The properties of the Task Graph (src/src/orchestration/mod.rs): the
    integrity invariant, deadlock freedom, lease fencing, claim order,
    governed retries and terminal states. *)

From Stdlib Require Import ZArith Lia.
From stdpp Require Import sorting base tactics list gmap relations numbers strings option.
From stdpp Require Import list.
From S2P Require Import Prelude Kernel TaskGraph TaskBlocked TaskApply TaskIntegrity TaskInvariant TaskClaims TaskSchedule TaskMessages.

Section safety.
Context `{!Serialize ExecutionBinding, !Serialize (TaskId * TaskRecord),
          !Serialize TaskMessage, !Serialize TaskAttemptBinding}.

(** ** Helper lemmas *)

(** No batch touches a settled Task. *)
Lemma batch_active g g' ms :
  (∀ m r, m ∈ ms → tasks g !! mut_id m = Some r → is_terminal_status (tr_status r) = false) →
  apply_task_mutations ms g = (g', Ok ()) →
  ∀ id r, tasks g !! id = Some r → is_terminal_status (tr_status r) = true →
  tasks g' !! id = Some r.
Proof.
  intros Hact Ha id r Hr Ht. rewrite (apply_lookup_other _ _ _ _ _ Ha); [done|].
  intros (m & -> & Hm)%list_elem_of_fmap. by rewrite (Hact m r Hm Hr) in Ht.
Qed.

Lemma blocked_active g overrides additional m r :
  keyed (tasks g) →
  (∀ t r, tasks g !! t = Some r → t ∈ overrides → ∃ l, tr_status r = Running l) →
  m ∈ blocked_mutations g overrides additional → tasks g !! mut_id m = Some r →
  is_terminal_status (tr_status r) = false.
Proof.
  intros Hk Ho Hm Hr.
  destruct (blocked_mutations_correct g overrides additional Hk) as (_ & _ & Hby).
  assert (mut_id m ∈ mut_id <$> blocked_mutations g overrides additional) as Hin
    by (apply list_elem_of_fmap; eauto).
  apply Hby, blocked_by_source in Hin as (r' & Hr' & _ & Hp). rewrite Hr in Hr'.
  injection Hr' as <-. destruct Hp as [->|[l ->]%(Ho _ _ Hr)]; done.
Qed.

Lemma expired_running g now t r :
  keyed (tasks g) → tasks g !! t = Some r → t ∈ expired_ids g now → ∃ l, tr_status r = Running l.
Proof.
  intros Hk Hr (r' & Hr' & He)%elem_of_expired_ids; [|done]. simplify_eq.
  by eapply is_expired_Running.
Qed.

Lemma settled_stays g g' id r :
  keyed (tasks g) → task_step g g' → tasks g !! id = Some r →
  is_terminal_status (tr_status r) = true → tasks g' !! id = Some r.
Proof.
  intros Hk. destruct 1 as [fresh owner now dur mx eb w g' [[cs ch]|e] H|t tok now ex g' [[]|e] H
    |t tok now c g' [[]|e] H|t tok now reason g' [[]|e] H|t reason g' [[]|e] H
    |now g' [ids|e] H|fresh from to body cr g' [m|e] Hf H];
    try (first [apply claim_err in H|apply heartbeat_err in H|apply complete_err in H
      |apply fail_err in H|apply cancel_err in H|apply release_err in H|apply send_err in H];
      by subst).
  - apply claim_ok in H. destruct (cr_batch _ _ _ _ _ _ _ _ _ _ _ H) as (mk & Hc & _ & Ha).
    apply (batch_active _ _ _) with (2 := Ha). intros m rm Hm Hrm.
    pose proof (λ t r, expired_running g now t r Hk) as Hexp.
    destruct (claim_batch_source _ _ _ _ _ _ _ _ _ _ _ Hk Hc Hm)
      as [(d & Hby & _)|[(He & _)|(r' & l & (Hr' & _ & Hp & _) & Hid & _)]].
    + destruct (blocked_by_source _ _ _ _ Hby) as (r2 & Hr2 & _ & Hp). rewrite Hrm in Hr2.
      injection Hr2 as <-. destruct Hp as [->|[l ->]%(Hexp _ _ Hrm)]; done.
    + by destruct (Hexp _ _ Hrm He) as [l ->].
    + rewrite Hid, Hr' in Hrm. injection Hrm as <-.
      destruct Hp as [->%is_pending_iff|[l' ->]%(Hexp _ _ Hr')]; done.
  - apply heartbeat_ok in H as (r0 & l & Hr & Hl & _ & _ & _ & Ha).
    apply (batch_active _ _ _) with (2 := Ha). intros m rm ->%list_elem_of_singleton Hrm.
    simpl in Hrm. simplify_eq. by rewrite Hl.
  - apply complete_ok in H as (r0 & l & Hr & Hl & _ & _ & _ & Ha).
    apply (batch_active _ _ _) with (2 := Ha). intros m rm ->%list_elem_of_singleton Hrm.
    simpl in Hrm. simplify_eq. by rewrite Hl.
  - apply fail_ok in H as (r0 & l & Hr & Hl & _ & _ & _ & Ha).
    apply (batch_active _ _ _) with (2 := Ha). intros m rm [->|Hm]%elem_of_cons Hrm.
    + simpl in Hrm. simplify_eq. by rewrite Hl.
    + eapply blocked_active; [done| |exact Hm|done]. by intros ? ? _ ?%not_elem_of_empty.
  - apply cancel_ok in H as (r0 & Hr & Hl & _ & Ha).
    apply (batch_active _ _ _) with (2 := Ha). intros m rm [->|Hm]%elem_of_cons Hrm.
    + simpl in Hrm. by simplify_eq.
    + eapply blocked_active; [done| |exact Hm|done]. by intros ? ? _ ?%not_elem_of_empty.
  - apply release_expired_ok in H as [_ Ha].
    apply (batch_active _ _ _) with (2 := Ha).
    intros m rm (r' & -> & [Hr' He]%list_elem_of_In%filter_In)%list_elem_of_fmap Hrm.
    apply list_elem_of_In, keyed_elem in Hr'; [|done]. simpl in Hrm. simplify_eq.
    by apply is_expired_Running in He as [l ->].
  - apply send_ok in H as (_ & _ & _ & _ & _ & _ & n & _ & _ & ->). done.
Qed.

(** ** Invariants *)

(** C1: every public operation of a Task Graph (claim, heartbeat, complete,
    fail, cancel, release, send; successful or failed) turns a graph that
    passes [validate_integrity] into one that passes it, so the coordinator
    never rejects what the domain methods produced. *)
Theorem task_integrity_preserved (g g' : TaskGraph)
    (Ht : typed g) (Hi : validate_integrity g = Ok ()) (Hs : task_step g g') :
  validate_integrity g' = Ok () ∧ typed g'.
Proof.
  apply integrity_sound in Hi. destruct (step_integrity g g' Ht Hi Hs).
  split; [by apply integrity_complete|done].
Qed.

(** C2: no deadlock: in every reachable graph that still has unsettled
    Tasks, some Task is ready to be claimed or some Task is running. *)
Theorem task_deadlock_free (g : TaskGraph)
    (Hr : reachable g) (Hnt : is_terminal g = false) :
  ready g ≠ [] ∨ ∃ id r l, tasks g !! id = Some r ∧ tr_status r = Running l.
Proof.
  destruct (reachable_integrity g Hr) as [Hi _]. pose proof (in_keyed g Hi) as Hk.
  destruct (integrity_dag g Hi) as [Hc Ha].
  destruct (List.find (λ r, match tr_status r with Running _ => true | _ => false end)
    (bt_values (tasks g))) as [r|] eqn:Ef.
  - right. apply find_some in Ef as [[id Hin]%list_elem_of_In%elem_of_bt_values Hr'].
    exists id, r. destruct (tr_status r) as [|l| | | |]; try done. by exists l.
  - left. unfold is_terminal in Hnt. apply forallb_false in Hnt as (r & [id Hin]%elem_of_bt_values & Hst).
    assert (∀ id r l, tasks g !! id = Some r → tr_status r ≠ Running l) as Hrun.
    { intros id' r' l Hr' E. assert (r' ∈ bt_values (tasks g)) as Hv%list_elem_of_In
        by (apply elem_of_bt_values; eauto).
      pose proof (find_none _ _ Ef r' Hv) as Hn. simpl in Hn. by rewrite E in Hn. }
    eapply (pending_has_ready g Hk Hc (reachable_schedule g Hr) Hrun id); [by apply acyclic_wf|done|].
    destruct (tr_status r) eqn:E; try done. by eapply Hrun in Hin.
Qed.

(** settled Tasks are immutable: no operation changes the record of a
    Task that is completed, failed, cancelled or blocked. *)
Theorem task_terminal_absorbing (g g' : TaskGraph) (id : TaskId) (r : TaskRecord)
    (Hi : validate_integrity g = Ok ()) (Hs : task_step g g')
    (Hr : tasks g !! id = Some r) (Ht : is_terminal_status (tr_status r) = true) :
  tasks g' !! id = Some r.
Proof. eapply settled_stays; [by eapply in_keyed, integrity_sound|done..]. Qed.

(** C3: scheduling safety: in every reachable graph a running Task has only
    completed dependencies, and a pending Task has no failed, cancelled or
    blocked dependency. *)
Theorem task_schedule_safe (g : TaskGraph) (Hr : reachable g) :
  ∀ id r, tasks g !! id = Some r →
    (∀ l, tr_status r = Running l → dependencies_completed (tasks g) r = true) ∧
    (tr_status r = Pending → ∀ d, d ∈ td_dependencies (tr_definition r) →
       ∀ rd, tasks g !! d = Some rd → is_dead (tr_status rd) = false).
Proof.
  intros id r Hid. destruct (reachable_schedule g Hr id r Hid) as [S1 S2]. split; [done|].
  intros Hp d Hd rd Hrd. destruct (is_dead (tr_status rd)) eqn:E; [|done].
  exfalso. apply (S2 Hp d Hd). by exists rd.
Qed.

(** ** Fencing *)

(** C4: fencing: a heartbeat, completion or failure succeeds only for the
    holder of the current unexpired lease of a running Task; with any other
    token, or at or after the expiration, it returns an error and the graph
    is unchanged. *)
Theorem task_fencing (g : TaskGraph) (id : TaskId) (token : TaskLeaseId) (now : Z)
    (Hstale : ∀ r l, tasks g !! id = Some r → tr_status r = Running l →
              lease_id l = token → (lease_expires_at_ms l ≤ now)%Z) :
  ∀ expires completion reason,
    (∃ e, heartbeat id token now expires g = (g, Err e)) ∧
    (∃ e, complete id token now completion g = (g, Err e)) ∧
    (∃ e, fail id token now reason g = (g, Err e)).
Proof.
  intros expires completion reason.
  assert (∀ r l, tasks g !! id = Some r → tr_status r = Running l → lease_id l = token →
            (now < lease_expires_at_ms l)%Z → False) as Hno
    by (intros r l H1 H2 H3 ?; specialize (Hstale r l H1 H2 H3); lia).
  split_and!.
  - destruct (heartbeat _ _ _ _ g) as [g' [[]|e]] eqn:E.
    + apply heartbeat_ok in E as (r & l & ? & ? & ? & ? & _). by exfalso; eauto.
    + apply heartbeat_err in E as ->. eauto.
  - destruct (complete _ _ _ _ g) as [g' [[]|e]] eqn:E.
    + apply complete_ok in E as (r & l & ? & ? & ? & ? & _). by exfalso; eauto.
    + apply complete_err in E as ->. eauto.
  - destruct (fail _ _ _ _ g) as [g' [[]|e]] eqn:E.
    + apply fail_ok in E as (r & l & ? & ? & ? & ? & _). by exfalso; eauto.
    + apply fail_err in E as ->. eauto.
Qed.

(** C5: failure atomicity: an operation that returns an error has not
    changed the graph, whichever check failed. *)
Theorem task_failure_atomic (g g' : TaskGraph) (e : HarnessError)
    (H : (∃ f o n d m b w, claim_ready_governed f o n d m b w g = (g', Err e)) ∨
         (∃ i t n x, heartbeat i t n x g = (g', Err e)) ∨
         (∃ i t n c, complete i t n c g = (g', Err e)) ∨
         (∃ i t n r, fail i t n r g = (g', Err e)) ∨
         (∃ i r, cancel i r g = (g', Err e)) ∨
         (∃ n, release_expired n g = (g', Err e)) ∨
         (∃ f a b c n, send_message f a b c n g = (g', Err e))) :
  g' = g.
Proof.
  destruct H as [(?&?&?&?&?&?&?&H)|[(?&?&?&?&H)|[(?&?&?&?&H)|[(?&?&?&?&H)|[(?&?&H)|[(?&H)|(?&?&?&?&?&H)]]]]]];
    eauto using claim_err, heartbeat_err, complete_err, fail_err, cancel_err, release_err, send_err.
Qed.

(** ** Claims *)

Lemma claimed_list_keys fresh g owner now expires eb k keys ms cs :
  keyed (tasks g) → claimed_list fresh g owner now expires eb k keys ms cs →
  (td_id ∘ claim_task) <$> cs = keys.*2.
Proof.
  intros Hk. induction 1 as [|k key keys m ms c cs (r & Hr & _ & _ & ->) _ IH]; [done|].
  simpl. f_equal; [by apply (Hk _ _ Hr)|exact IH].
Qed.

(** Claimability at a point in time: pending or expired, dependencies
    completed, capabilities covered, not blocked by this pass. *)
Definition claimable_now (g : TaskGraph) (now : Z) (worker : TaskCapabilitySet)
    (r : TaskRecord) : Prop :=
  claimable g (expired_ids g now) (claim_blocked_ids g now) worker r.

Lemma claimable_now_source g now worker r :
  keyed (tasks g) → claimable_now g now worker r →
  tr_status r = Pending ∨ ∃ l, tr_status r = Running l ∧ (lease_expires_at_ms l ≤ now)%Z.
Proof.
  intros Hk (Hr & _ & [Hp|He] & _); [left; by apply is_pending_iff|right].
  apply elem_of_expired_ids in He as (r' & Hr' & He); [|done]. rewrite Hr in Hr'.
  injection Hr' as <-. destruct (tr_status r) as [|l| | | |]; try done.
  exists l. simpl in He. by bool_hyps.
Qed.

(** the claim order: a successful claim hands out claimable Tasks only,
    highest priority first and then by identity, at most [maximum] of them;
    it stops early only when nothing claimable is left, and a claimable
    Task that was passed over comes after every claimed one. *)
Theorem task_claim_order (g g' : TaskGraph) (fresh : nat → TaskLeaseId) (owner : str)
    (now duration maximum : Z) (eb : option ExecutionBinding) (worker : TaskCapabilitySet)
    (claims : list TaskClaim) (changed : bool)
    (Hi : validate_integrity g = Ok ())
    (H : claim_ready_governed fresh owner now duration maximum eb worker g
         = (g', Ok (claims, changed))) :
  ∃ keys, (td_id ∘ claim_task) <$> claims = keys.*2 ∧ StronglySorted ready_le keys ∧
    NoDup keys.*2 ∧ (len claims ≤ maximum)%Z ∧
    (∀ key, key ∈ keys → ∃ r, claimable_now g now worker r ∧ key = ready_key r) ∧
    (∀ r, claimable_now g now worker r → ready_key r ∉ keys →
       len claims = maximum ∧ ∀ key, key ∈ keys → ready_le key (ready_key r)).
Proof.
  apply integrity_sound in Hi. pose proof (in_keyed g Hi) as Hk. apply claim_ok in H.
  pose proof (cr_maximum _ _ _ _ _ _ _ _ _ _ _ H) as Hmax.
  destruct (cr_batch _ _ _ _ _ _ _ _ _ _ _ H) as (mk & Hc & _ & _).
  set (all := all_ready g (expired_ids g now) (claim_blocked_ids g now) worker) in *.
  assert (claim_keys g now maximum worker = take (Z.to_nat maximum) all) as Ek by done.
  pose proof (claimed_list_keys _ _ _ _ _ _ _ _ _ _ Hk Hc) as Hids.
  assert (length claims = length (claim_keys g now maximum worker)) as Hlen.
  { apply (f_equal length) in Hids. by rewrite !length_fmap in Hids. }
  pose proof (Sorted_all_ready g (expired_ids g now) (claim_blocked_ids g now) worker) as Hsort.
  fold all in Hsort. rewrite <-(take_drop (Z.to_nat maximum) all) in Hsort.
  apply StronglySorted_app in Hsort as (Hcross & Hs1 & _).
  exists (claim_keys g now maximum worker). rewrite Ek in *. split_and!; [done|done|..].
  - rewrite fmap_take. eapply sublist_NoDup; [apply (NoDup_all_ready g (expired_ids g now)
      (claim_blocked_ids g now) worker Hk)|apply sublist_take].
  - unfold len. rewrite Hlen, length_take. lia.
  - intros key (j & Hj & _)%elem_of_take. apply list_elem_of_lookup_2 in Hj.
    by apply elem_of_all_ready.
  - intros r Hr Hn. assert (ready_key r ∈ all) as Hin by (apply elem_of_all_ready; eauto).
    rewrite <-(take_drop (Z.to_nat maximum) all) in Hin.
    apply elem_of_app in Hin as [?|Hin]; [done|]. split; [|intros; by eapply Hcross].
    assert (Z.to_nat maximum < length all)%nat.
    { apply Nat.nle_gt. intros Hle. rewrite drop_ge in Hin by done. by apply elem_of_nil in Hin. }
    unfold len. rewrite Hlen, length_take. lia.
Qed.

(** what a claim grants: each claimed Task had no valid lease (it was
    pending or its lease had expired), its dependencies are completed and
    its capabilities covered; it is now running under the returned lease,
    with a generated identity, the next attempt number, the claiming owner
    and the requested expiration. *)
Theorem task_claim_grants (g g' : TaskGraph) (fresh : nat → TaskLeaseId) (owner : str)
    (now duration maximum : Z) (eb : option ExecutionBinding) (worker : TaskCapabilitySet)
    (claims : list TaskClaim) (changed : bool) (c : TaskClaim)
    (Hi : validate_integrity g = Ok ())
    (H : claim_ready_governed fresh owner now duration maximum eb worker g
         = (g', Ok (claims, changed)))
    (Hin : c ∈ claims) :
  ∃ r i, tasks g !! td_id (claim_task c) = Some r ∧ claim_task c = tr_definition r ∧
    (tr_status r = Pending ∨
       ∃ l, tr_status r = Running l ∧ (lease_expires_at_ms l ≤ now)%Z) ∧
    dependencies_completed (tasks g) r = true ∧
    td_required_capabilities (claim_task c) ⊆ worker ∧
    claim_lease c = {| lease_id := fresh i; lease_owner := owner;
                       lease_attempt := tr_attempts r + 1;
                       lease_expires_at_ms := now + duration |} ∧
    tasks g' !! td_id (claim_task c) =
      Some {| tr_definition := tr_definition r; tr_status := Running (claim_lease c);
              tr_attempts := tr_attempts r + 1 |}.
Proof.
  apply integrity_sound in Hi. pose proof (in_keyed g Hi) as Hk. apply claim_ok in H.
  destruct (cr_batch _ _ _ _ _ _ _ _ _ _ _ H) as (mk & Hc & _ & Ha).
  destruct (claimed_list_claim _ _ _ _ _ _ _ _ _ _ _ Hc Hin)
    as (i & key & m & Hkey & Hm & (r & Hr & _ & -> & ->) & _). simpl.
  pose proof (Hk _ _ Hr) as Hid. unfold rec_id in Hid. rewrite Hid.
  unfold claim_keys in Hkey. rewrite select_ready_take in Hkey.
  apply elem_of_take in Hkey as (j & Hj & _). apply list_elem_of_lookup_2 in Hj.
  apply elem_of_all_ready in Hj as (r' & Hcl & ->); [|done]. simpl in Hr.
  destruct Hcl as (Hr' & Hb & Hp & Hcap & Hdep). unfold rec_id in Hr'.
  rewrite Hr in Hr'. injection Hr' as <-.
  exists r, i. split_and!; try done.
  - eapply (claimable_now_source g now worker); [done|]. by split_and!; rewrite ?Hid.
  - match type of Hm with
    | ?m ∈ _ => refine (apply_lookup_mutated _ _ _ _ m r Ha _ Hr)
    end.
    apply elem_of_app; right; apply elem_of_app; by right.
Qed.

(** governed Tasks are never downgraded: in an intact graph every
    attempt of a Task from its first bound attempt on has its own evidence,
    and a claim without an execution binding never selects such a Task. *)
Theorem task_governed_never_downgraded (g : TaskGraph) (id : TaskId) (r : TaskRecord)
    (e : TaskAttemptBinding)
    (Hi : validate_integrity g = Ok ()) (Hr : tasks g !! id = Some r)
    (He : e ∈ attempt_bindings g) (Hid : tab_task_id e = id) :
  (∀ a, (tab_attempt e ≤ a ≤ tr_attempts r)%Z →
     ∃ e', e' ∈ attempt_bindings g ∧ tab_task_id e' = id ∧ tab_attempt e' = a) ∧
  (∀ fresh owner now duration maximum worker g' claims changed,
     claim_ready_governed fresh owner now duration maximum None worker g
       = (g', Ok (claims, changed)) →
     ∀ c, c ∈ claims → td_id (claim_task c) ≠ id).
Proof.
  apply integrity_sound in Hi. pose proof (in_keyed g Hi) as Hk. split.
  - intros a Ha. destruct (in_governed g Hi _ _ Hr) as [G1 _].
    rewrite (Hk _ _ Hr) in G1. by eapply G1.
  - intros fresh owner now duration maximum worker g' claims changed H c Hc E.
    apply claim_ok in H. destruct (cr_batch _ _ _ _ _ _ _ _ _ _ _ H) as (mk & Hcl & _ & _).
    destruct (claimed_list_claim _ _ _ _ _ _ _ _ _ _ _ Hcl Hc)
      as (i & key & m & Hkey & _ & (r' & Hr' & _ & _ & ->) & _). simpl in E.
    pose proof (Hk _ _ Hr') as Hid'. unfold rec_id in Hid'.
    eapply (cr_governed _ _ _ _ _ _ _ _ _ _ _ H eq_refl key e); [done|done|congruence].
Qed.

(** C6: failing or cancelling a Task blocks exactly the pending Tasks that
    some chain of dependencies leads to a failed, cancelled or blocked Task
    (the one being settled included), each once, with the deterministic
    reason; the loop that computes them always terminates. *)
Theorem task_blocking_exact (g : TaskGraph) (id : TaskId)
    (Hi : validate_integrity g = Ok ()) :
  let ms := blocked_mutations g ∅ (Some id) in
  NoDup (mut_id <$> ms) ∧
  (∀ t, t ∈ mut_id <$> ms ↔ blocked_by g ∅ ({[id]} ∪ dead_ids g) t) ∧
  (∀ m, m ∈ ms → ∃ r d, tasks g !! mut_id m = Some r ∧
     d ∈ td_dependencies (tr_definition r) ∧
     mut_status m = Blocked (blocked_reason d) ∧ mut_attempts m = tr_attempts r) ∧
  is_Some (blocked_loop (S (size (tasks g))) g ∅ ({[id]} ∪ dead_ids g) []).
Proof.
  apply integrity_sound in Hi. pose proof (in_keyed g Hi) as Hk. intros ms.
  destruct (blocked_mutations_correct g ∅ (Some id) Hk) as (H1 & H2 & H3).
  split_and!; [done|done| |].
  - intros m Hm. rewrite Forall_forall in H2.
    destruct (H2 m Hm) as (r & d & ? & ? & _ & ? & ? & _). eauto 10.
  - destruct (blocked_loop_total g ∅ ({[id]} ∪ dead_ids g) Hk (S (size (tasks g)))
      ({[id]} ∪ dead_ids g) []) as (ms' & f' & -> & _); [apply loop_inv_nil| |by eexists].
    apply Nat.lt_succ_r. rewrite <-size_dom. apply subseteq_size. clear; set_solver.
Qed.

(** C7: the cycle check decides acyclicity: on a closed dependency map it
    succeeds exactly when the dependency relation has no cycle, and
    otherwise its error names a Task that lies on one. *)
Theorem task_acyclic_decided (ts : gmap TaskId TaskRecord) (Hc : closed_deps ts) :
  (validate_acyclic ts = Ok () ↔ acyclic ts) ∧
  (∀ e, validate_acyclic ts = Err e →
     ∃ id, e = orch "Task dependency cycle includes {}" [AStr id] ∧ tc (dep ts) id id).
Proof.
  split; [split; [apply validate_acyclic_sound|by apply validate_acyclic_complete]|].
  intros e. by apply validate_acyclic_error.
Qed.

(** Construction: [TaskGraph::new] accepts exactly the lists of at most
    [MAX_TASKS] valid definitions with distinct identities and a closed
    acyclic dependency relation whose encoding fits; the graph has those
    Tasks, all pending and never attempted, and passes its own check. *)
Theorem task_new_exact (ds : list TaskDefinition) (g : TaskGraph) :
  (TaskGraph_new ds = Ok g ↔
   ((len ds ≤ MAX_TASKS)%Z ∧ Forall (λ d, validate_task_definition d = Ok ()) ds ∧
    NoDup (td_id <$> ds) ∧ closed_deps (pending_map ds) ∧ acyclic (pending_map ds)) ∧
   ∃ charge, calculate_materialization_charge (fresh_graph ds 0) = Ok charge ∧
             g = fresh_graph ds charge) ∧
  (TaskGraph_new ds = Ok g → validate_integrity g = Ok ()).
Proof.
  split.
  - rewrite new_ok. split.
    + intros [[] ?]. by split_and!.
    + intros [(?&?&?&?&?) ?]. by split.
  - intros H. apply integrity_complete. by eapply new_integrity.
Qed.
End safety.

(** ** Witnesses on the demonstration graph *)

#[local] Existing Instance demo_json.

Lemma demo_new_eq : TaskGraph_new demo_definitions = Ok demo_new.
Proof. vm_compute. reflexivity. Qed.

Lemma demo_claim_step : task_step demo_new demo_claimed.
Proof.
  eapply (step_claim demo_new (demo_lease_ids "lease-") (lit "worker-1") 10 100 8 None ∅).
  vm_compute. reflexivity.
Qed.

Lemma demo_complete_step : task_step demo_claimed demo_completed.
Proof. eapply step_complete. apply surjective_pairing. Qed.

Lemma demo_reachable : reachable demo_claimed.
Proof.
  eapply reach_step; [|exact demo_claim_step]. eapply reach_new, demo_new_eq.
Qed.

Lemma task_integrity_preserved_witness :
  validate_integrity demo_new = Ok () ∧ validate_integrity demo_claimed = Ok ().
Proof.
  split; [by vm_compute|].
  apply (task_integrity_preserved demo_new demo_claimed);
    [by eapply new_integrity, demo_new_eq|by vm_compute|exact demo_claim_step].
Defined.

Lemma task_deadlock_free_witness :
  is_terminal demo_claimed = false ∧
  (ready demo_claimed ≠ [] ∨
   ∃ id r l, tasks demo_claimed !! id = Some r ∧ tr_status r = Running l).
Proof.
  split; [by vm_compute|]. apply task_deadlock_free; [exact demo_reachable|by vm_compute].
Defined.

Lemma task_terminal_absorbing_witness :
  ∃ r, tasks demo_completed !! lit "a" = Some r ∧
    tr_status r = Completed demo_completion ∧
    tasks (cancel (lit "b") (lit "stop") demo_completed).1 !! lit "a" = Some r.
Proof.
  eexists. split; [by vm_compute|]. split; [done|].
  eapply (task_terminal_absorbing demo_completed);
    [by vm_compute|eapply step_cancel, surjective_pairing|by vm_compute|done].
Defined.

Lemma task_schedule_safe_witness :
  ∃ r l, tasks demo_claimed !! lit "a" = Some r ∧ tr_status r = Running l ∧
    dependencies_completed (tasks demo_claimed) r = true.
Proof.
  do 2 eexists. split; [by vm_compute|]. split; [reflexivity|].
  eapply (task_schedule_safe demo_claimed demo_reachable (lit "a")); by vm_compute.
Defined.

(** The first worker completes after its Task was handed to the second. *)
Lemma task_fencing_witness :
  ∃ e, complete (lit "a") (lit "lease-") 210 demo_completion demo_reclaimed
       = (demo_reclaimed, Err e).
Proof.
  assert (∀ r l, tasks demo_reclaimed !! lit "a" = Some r → tr_status r = Running l →
    lease_id l = lit "lease-" → (lease_expires_at_ms l ≤ 210)%Z) as Hstale.
  { intros r l Hr Hl Ht. vm_compute in Hr. injection Hr as <-. vm_compute in Hl.
    injection Hl as <-. vm_compute in Ht. discriminate Ht. }
  destruct (task_fencing demo_reclaimed (lit "a") (lit "lease-") 210 Hstale 0 demo_completion [])
    as (_ & H & _). exact H.
Defined.

Lemma task_failure_atomic_witness :
  ∃ e, cancel (lit "a") (lit "again") demo_completed
       = ((cancel (lit "a") (lit "again") demo_completed).1, Err e) ∧
  (cancel (lit "a") (lit "again") demo_completed).1 = demo_completed.
Proof.
  destruct (cancel (lit "a") (lit "again") demo_completed) as [g' [u|e]] eqn:E;
    [by vm_compute in E|]. exists e. split; [done|].
  apply (task_failure_atomic demo_completed g' e). do 4 right. left. by eauto.
Defined.

Lemma task_claim_order_witness :
  ∃ claims changed keys,
    claim_ready_governed (demo_lease_ids "lease-") (lit "worker-1") 10 100 8 None ∅ demo_new
      = (demo_claimed, Ok (claims, changed)) ∧
    (td_id ∘ claim_task) <$> claims = keys.*2 ∧ keys ≠ [] ∧ StronglySorted ready_le keys.
Proof.
  destruct (claim_ready_governed (demo_lease_ids "lease-") (lit "worker-1") 10 100 8 None ∅ demo_new)
    as [g' [[cs ch]|e]] eqn:E; [|by vm_compute in E].
  destruct (task_claim_order demo_new g' (demo_lease_ids "lease-") (lit "worker-1") 10 100 8 None ∅
    cs ch) as (keys & H1 & H2 & _); [by vm_compute|exact E|].
  exists cs, ch, keys. split_and!; [|done| |done].
  - vm_compute in E. injection E as <- <- <-. by vm_compute.
  - intros ->. vm_compute in E. injection E as _ <- _. by vm_compute in H1.
Defined.

Lemma task_claim_grants_witness :
  ∃ c claims changed,
    claim_ready_governed (demo_lease_ids "again-") (lit "worker-2") 200 100 8 None ∅ demo_claimed
      = (demo_reclaimed, Ok (claims, changed)) ∧ c ∈ claims ∧
    ∃ r l, tasks demo_claimed !! td_id (claim_task c) = Some r ∧ tr_status r = Running l ∧
      (lease_expires_at_ms l ≤ 200)%Z.
Proof.
  destruct (claim_ready_governed (demo_lease_ids "again-") (lit "worker-2") 200 100 8 None ∅
    demo_claimed) as [g' [[cs ch]|e]] eqn:E; [|by vm_compute in E].
  destruct cs as [|c cs]; [by vm_compute in E|].
  destruct (task_claim_grants demo_claimed g' (demo_lease_ids "again-") (lit "worker-2") 200 100 8
    None ∅ (c :: cs) ch c) as (r & i & H1 & _ & H2 & _); [by vm_compute|exact E|left|].
  exists c, (c :: cs), ch. split_and!; [|left|].
  - vm_compute in E. injection E as <- <- <- <-. by vm_compute.
  - destruct H2 as [H2|(l & H2 & H3)]; [|exists r, l; split_and!; assumption]. exfalso.
    vm_compute in E. injection E as _ <- _ _. vm_compute in H1. injection H1 as <-. discriminate H2.
Defined.

Lemma task_governed_never_downgraded_witness :
  ∃ e, e ∈ attempt_bindings demo_governed ∧
    ∀ fresh owner now duration maximum worker g' claims changed,
      claim_ready_governed fresh owner now duration maximum None worker demo_governed
        = (g', Ok (claims, changed)) →
      ∀ c, c ∈ claims → td_id (claim_task c) ≠ lit "a".
Proof.
  destruct (attempt_bindings demo_governed) as [|e es] eqn:E; [by vm_compute in E|].
  exists e. split; [left|].
  destruct (tasks demo_governed !! lit "a") as [r|] eqn:Er; [|by vm_compute in Er].
  destruct (task_governed_never_downgraded demo_governed (lit "a") r e) as [_ H];
    [by vm_compute|exact Er|rewrite E; left| |exact H].
  vm_compute in E. by injection E as <- _.
Defined.

Lemma task_blocking_exact_witness :
  (mut_id <$> blocked_mutations demo_claimed ∅ (Some (lit "a"))) = [lit "b"] ∧
  NoDup (mut_id <$> blocked_mutations demo_claimed ∅ (Some (lit "a"))).
Proof.
  split; [by vm_compute|]. apply (task_blocking_exact demo_claimed (lit "a")). by vm_compute.
Defined.

Lemma task_acyclic_decided_witness :
  validate_acyclic (tasks demo_new) = Ok () ∧ acyclic (tasks demo_new).
Proof.
  split; [by vm_compute|].
  apply (task_acyclic_decided (tasks demo_new)); [|by vm_compute].
  apply (integrity_dag demo_new). apply (integrity_sound demo_new ()). by vm_compute.
Defined.
