(* ===== verification/TaskCoordinator.v ===== *)
(** The atomic persistence of Task Graphs, from
    src/src/orchestration/coordinator.rs: revisioned snapshots, the
    [TaskCoordinator] trait, its in-memory and its SQLite implementation, and
    the codec of stored rows.  The wire codec ([serde_json] on the derived
    types) is a parameter. *)

From Stdlib Require Import ZArith Lia.
From stdpp Require Import sorting base tactics list gmap relations numbers strings option.
From stdpp Require Import list.
From S2P Require Import Prelude Kernel Sqlite TaskGraph.

Abbreviation TaskGraphId := str (only parsing).

Definition TASK_GRAPH_SCHEMA_VERSION : Z := 4.

Record TaskGraphSnapshot := {
  sn_id : TaskGraphId;
  sn_tenant_id : option str;
  sn_revision : Z;
  sn_graph : TaskGraph;
}.

(** What serde writes and reads of a graph: the charge is skipped. *)
Record TaskGraphWire := {
  wire_tasks : gmap TaskId TaskRecord;
  wire_messages : list TaskMessage;
  wire_attempt_bindings : list TaskAttemptBinding;
  wire_next_message_sequence : Z;
}.

Definition wire_of (g : TaskGraph) : TaskGraphWire :=
  {| wire_tasks := tasks g; wire_messages := messages g;
     wire_attempt_bindings := attempt_bindings g;
     wire_next_message_sequence := next_message_sequence g |}.

(** The body of a stored row ([StoredTaskGraphRef] and [StoredTaskGraph]). *)
Record StoredTaskGraph := {
  st_tenant_id : option str;
  st_graph : TaskGraphWire;
}.

#[global] Instance TaskGraphWire_eq : EqDecision TaskGraphWire.
Proof. solve_decision. Defined.
#[global] Instance StoredTaskGraph_eq : EqDecision StoredTaskGraph.
Proof. solve_decision. Defined.

(** * The trait *)

(** Operations on the shared store [S]; the methods without an authority are
    the trait's default methods, for the local process. *)
Class TaskCoordinator (S : Type) := {
  create_as : TaskGraphId → TaskGraph → AuthorityContext → M S TaskGraphSnapshot;
  load_as : TaskGraphId → AuthorityContext → M S (option TaskGraphSnapshot);
  compare_and_swap_as : TaskGraphSnapshot → AuthorityContext → M S TaskGraphSnapshot;
}.

Definition create {S} `{TaskCoordinator S} (graph_id : TaskGraphId) (graph : TaskGraph)
    : M S TaskGraphSnapshot :=
  create_as graph_id graph local_process.
Definition load {S} `{TaskCoordinator S} (graph_id : TaskGraphId)
    : M S (option TaskGraphSnapshot) :=
  load_as graph_id local_process.
Definition compare_and_swap {S} `{TaskCoordinator S} (snapshot : TaskGraphSnapshot)
    : M S TaskGraphSnapshot :=
  compare_and_swap_as snapshot local_process.

(** * Shared checks *)

Definition validate_graph_id (graph_id : TaskGraphId) : result () :=
  reject_if (str_is_empty graph_id || (256 <? str_len graph_id)%Z || any_control graph_id)
    (orch "Task Graph identity must be 1-256 non-control bytes" []).

Definition graph_does_not_exist (graph_id : TaskGraphId) : HarnessError :=
  orch "Task Graph {} does not exist" [AStr graph_id].

Definition validate_schema_version (schema_version : Z) : result () :=
  if (schema_version =? TASK_GRAPH_SCHEMA_VERSION)%Z then Ok ()
  else Err (orch "unsupported Task Graph schema version {}" [ANum schema_version]).

Definition sql_revision (revision : Z) : result Z :=
  i64_try_from revision (orch "Task Graph revision exceeds SQLite" []).
Definition revision_from_sql (revision : Z) : result Z :=
  u64_try_from revision (orch "stored Task Graph revision is invalid" []).

Definition storage_key (authority : AuthorityContext) (graph_id : TaskGraphId)
    : str * TaskGraphId :=
  (tenant_storage_key (tenant_id authority), graph_id).

Section coordinator.
Context `{!Serialize ExecutionBinding, !Serialize (TaskId * TaskRecord),
          !Serialize TaskMessage, !Serialize TaskAttemptBinding,
          !Serialize TaskGraphWire, !Serialize StoredTaskGraph, !Deserialize StoredTaskGraph}.

(** [Deserialize for TaskGraph]: the derived wire type, then the charge. *)
Definition deserialize (w : TaskGraphWire) : option TaskGraph :=
  let graph charge :=
    {| tasks := wire_tasks w; messages := wire_messages w;
       attempt_bindings := wire_attempt_bindings w;
       next_message_sequence := wire_next_message_sequence w;
       materialization_charge_bytes := charge |} in
  match calculate_materialization_charge (graph 0%Z) with
  | Ok charge => Some (graph charge)
  | Err _ => None
  end.

Definition validate_graph (g : TaskGraph) (tenant : option str) : result () :=
  _ ← validate_integrity g;
  _ ← validate_execution_binding_tenant g tenant;
  n ← json_len (orch "encode Task Graph: {}" []) (wire_of g);
  reject_if (MAX_TASK_GRAPH_JSON_BYTES <? n)%Z
    (orch "Task Graph snapshot exceeds {} bytes" [ANum MAX_TASK_GRAPH_JSON_BYTES]).

Definition encode_graph (g : TaskGraph) (tenant : option str) : result str :=
  _ ← validate_integrity g;
  _ ← validate_execution_binding_tenant g tenant;
  json ← ok_or (to_json {| st_tenant_id := tenant; st_graph := wire_of g |})
           (orch "encode Task Graph: {}" []);
  _ ← reject_if (MAX_TASK_GRAPH_JSON_BYTES <? str_len json)%Z
        (orch "Task Graph snapshot exceeds {} bytes" [ANum MAX_TASK_GRAPH_JSON_BYTES]);
  Ok json.

Definition decode_snapshot (id : TaskGraphId) (stored_tenant : str)
    (schema_version revision : Z) (graph_json : str) : result TaskGraphSnapshot :=
  _ ← validate_schema_version schema_version;
  _ ← reject_if (MAX_TASK_GRAPH_JSON_BYTES <? str_len graph_json)%Z
        (orch "stored Task Graph snapshot exceeds {} bytes" [ANum MAX_TASK_GRAPH_JSON_BYTES]);
  stored ← ok_or (from_json graph_json : option StoredTaskGraph)
             (orch "decode Task Graph: {}" []);
  graph ← ok_or (deserialize (st_graph stored)) (orch "decode Task Graph: {}" []);
  tenant ← tenant_from_storage_key stored_tenant;
  _ ← reject_if (bool_decide (st_tenant_id stored ≠ tenant))
        (orch "stored Task Graph tenant projection does not match its body" []);
  _ ← validate_integrity graph;
  _ ← validate_execution_binding_tenant graph tenant;
  rev ← revision_from_sql revision;
  Ok {| sn_id := id; sn_tenant_id := tenant; sn_revision := rev; sn_graph := graph |}.

(** * [MemoryTaskCoordinator] *)

Definition MemoryStore : Type := gmap (str * TaskGraphId) TaskGraphSnapshot.

Definition mem_create_as (graph_id : TaskGraphId) (graph : TaskGraph)
    (authority : AuthorityContext) : M MemoryStore TaskGraphSnapshot :=
  _ ← lift (authority_validate_current authority "Task Coordinator authority");
  _ ← lift (validate_graph_id graph_id);
  _ ← lift (validate_graph graph (tenant_id authority));
  graphs ← get;
  let key := storage_key authority graph_id in
  _ ← lift (reject_if (bool_decide (is_Some (graphs !! key)))
              (orch "Task Graph {} already exists" [AStr graph_id]));
  let snapshot := {| sn_id := graph_id; sn_tenant_id := tenant_id authority;
                     sn_revision := 1; sn_graph := graph |} in
  _ ← put (<[key := snapshot]> graphs);
  mret snapshot.

Definition mem_load_as (graph_id : TaskGraphId) (authority : AuthorityContext)
    : M MemoryStore (option TaskGraphSnapshot) :=
  _ ← lift (authority_validate_current authority "Task Coordinator authority");
  _ ← lift (validate_graph_id graph_id);
  graphs ← get;
  mret (graphs !! storage_key authority graph_id).

Definition mem_compare_and_swap_as (snapshot : TaskGraphSnapshot)
    (authority : AuthorityContext) : M MemoryStore TaskGraphSnapshot :=
  _ ← lift (authority_validate_current authority "Task Coordinator authority");
  _ ← lift (validate_graph_id (sn_id snapshot));
  _ ← lift (validate_graph (sn_graph snapshot) (tenant_id authority));
  _ ← lift (reject_if (bool_decide (sn_tenant_id snapshot ≠ tenant_id authority))
              (graph_does_not_exist (sn_id snapshot)));
  graphs ← get;
  let key := storage_key authority (sn_id snapshot) in
  current ← lift (ok_or (graphs !! key) (graph_does_not_exist (sn_id snapshot)));
  _ ← lift (reject_if (negb (sn_revision current =? sn_revision snapshot)%Z)
              (OrchestrationConflict (sn_id snapshot) (sn_revision snapshot)
                 (sn_revision current)));
  next_revision ← lift (ok_or (checked_add u64_max (sn_revision snapshot) 1)
                          (orch "Task Graph revision overflow" []));
  let saved := {| sn_id := sn_id snapshot; sn_tenant_id := sn_tenant_id snapshot;
                  sn_revision := next_revision; sn_graph := sn_graph snapshot |} in
  _ ← put (<[key := saved]> graphs);
  mret saved.

#[global] Instance MemoryTaskCoordinator : TaskCoordinator MemoryStore := {|
  create_as := mem_create_as;
  load_as := mem_load_as;
  compare_and_swap_as := mem_compare_and_swap_as;
|}.

(** * [SqliteTaskCoordinator] *)

(** A row of [task_graphs]; its primary key is the key of the map. *)
Record Row := {
  row_schema_version : Z;
  row_revision : Z;
  row_graph_json : str;
}.

Definition SqliteStore : Type := Connection (gmap (str * TaskGraphId) Row).

(** [INSERT OR IGNORE]: the rows after it and the number of rows changed. *)
Definition insert_or_ignore (key : str * TaskGraphId) (row : Row)
    (t : gmap (str * TaskGraphId) Row) : gmap (str * TaskGraphId) Row * Z :=
  match t !! key with
  | Some _ => (t, 0%Z)
  | None => (<[key := row]> t, 1%Z)
  end.

(** [UPDATE .. SET revision, graph_json WHERE key AND revision = expected]. *)
Definition update_where_revision (key : str * TaskGraphId) (expected next : Z) (json : str)
    (t : gmap (str * TaskGraphId) Row) : gmap (str * TaskGraphId) Row * Z :=
  match t !! key with
  | Some row =>
      if (row_revision row =? expected)%Z
      then (<[key := {| row_schema_version := row_schema_version row;
                        row_revision := next; row_graph_json := json |}]> t, 1%Z)
      else (t, 0%Z)
  | None => (t, 0%Z)
  end.

Definition sql_create_as (graph_id : TaskGraphId) (graph : TaskGraph)
    (authority : AuthorityContext) : M SqliteStore TaskGraphSnapshot :=
  _ ← lift (authority_validate_current authority "Task Coordinator authority");
  _ ← lift (validate_graph_id graph_id);
  json ← lift (encode_graph graph (tenant_id authority));
  s ← get;
  let '(t, changed) := insert_or_ignore (storage_key authority graph_id)
    {| row_schema_version := TASK_GRAPH_SCHEMA_VERSION; row_revision := 1;
       row_graph_json := json |} (rows s) in
  _ ← store Orchestration t;
  _ ← lift (reject_if (negb (changed =? 1)%Z)
              (orch "Task Graph {} already exists" [AStr graph_id]));
  mret {| sn_id := graph_id; sn_tenant_id := tenant_id authority; sn_revision := 1;
          sn_graph := graph |}.

(** The row the [SELECT] of [load_as] returns, within its text bounds. *)
Definition read_row (stored_tenant : str) (row : Row) : result (str * Z * Z * str) :=
  tenant ← bounded_text Orchestration 256 "stored Task tenant" stored_tenant;
  json ← bounded_text Orchestration MAX_TASK_GRAPH_JSON_BYTES "stored Task Graph snapshot"
           (row_graph_json row);
  Ok (tenant, row_schema_version row, row_revision row, json).

Definition load_row (graph_id : TaskGraphId) (stored_tenant : str) (row : option Row)
    : result (option TaskGraphSnapshot) :=
  match row with
  | None => Ok None
  | Some row =>
      p ← read_row stored_tenant row;
      let '(tenant, schema_version, revision, json) := p in
      snapshot ← decode_snapshot graph_id tenant schema_version revision json;
      Ok (Some snapshot)
  end.

Definition sql_load_as (graph_id : TaskGraphId) (authority : AuthorityContext)
    : M SqliteStore (option TaskGraphSnapshot) :=
  _ ← lift (authority_validate_current authority "Task Coordinator authority");
  _ ← lift (validate_graph_id graph_id);
  t ← select Orchestration;
  lift (load_row graph_id (tenant_storage_key (tenant_id authority))
          (t !! storage_key authority graph_id)).

(** The body of the immediate transaction of [compare_and_swap_as]. *)
Definition swap_body (graph_id : TaskGraphId) (key : str * TaskGraphId)
    (expected expected_sql next_sql : Z) (json : str) : M SqliteStore () :=
  t ← select Orchestration;
  row ← lift (ok_or (t !! key) (graph_does_not_exist graph_id));
  _ ← lift (validate_schema_version (row_schema_version row));
  actual ← lift (revision_from_sql (row_revision row));
  _ ← lift (reject_if (negb (actual =? expected)%Z)
              (OrchestrationConflict graph_id expected actual));
  let '(t', changed) := update_where_revision key expected_sql next_sql json t in
  _ ← store Orchestration t';
  lift (reject_if (negb (changed =? 1)%Z)
          (orch "Task Graph CAS changed an unexpected row count" [])).

Definition sql_compare_and_swap_as (snapshot : TaskGraphSnapshot)
    (authority : AuthorityContext) : M SqliteStore TaskGraphSnapshot :=
  _ ← lift (authority_validate_current authority "Task Coordinator authority");
  _ ← lift (validate_graph_id (sn_id snapshot));
  _ ← lift (reject_if (bool_decide (sn_tenant_id snapshot ≠ tenant_id authority))
              (graph_does_not_exist (sn_id snapshot)));
  json ← lift (encode_graph (sn_graph snapshot) (sn_tenant_id snapshot));
  let expected := sn_revision snapshot in
  next_revision ← lift (ok_or (checked_add u64_max expected 1)
                          (orch "Task Graph revision overflow" []));
  expected_sql ← lift (sql_revision expected);
  next_sql ← lift (sql_revision next_revision);
  let key := (tenant_storage_key (sn_tenant_id snapshot), sn_id snapshot) in
  _ ← transaction Orchestration
        (swap_body (sn_id snapshot) key expected expected_sql next_sql json);
  mret {| sn_id := sn_id snapshot; sn_tenant_id := sn_tenant_id snapshot;
          sn_revision := next_revision; sn_graph := sn_graph snapshot |}.

#[global] Instance SqliteTaskCoordinator : TaskCoordinator SqliteStore := {|
  create_as := sql_create_as;
  load_as := sql_load_as;
  compare_and_swap_as := sql_compare_and_swap_as;
|}.
End coordinator.

(** * The table of the database file *)

(** One row of [PRAGMA table_info]. *)
Record Column := {
  col_name : str;
  col_not_null : Z;
  col_primary_key : Z;
}.

(** The loop variables of [validate_current_table]. *)
Record TableInfo := {
  column_count : Z;
  tenant_primary_key : Z;
  graph_primary_key : Z;
  tenant_not_null : bool;
  graph_not_null : bool;
  schema_not_null : bool;
  revision_not_null : bool;
  graph_json_not_null : bool;
}.

Definition note_column (i : TableInfo) (c : Column) : TableInfo :=
  let n := bool_decide (col_not_null c = 1%Z) in
  let name s := bool_decide (col_name c = lit s) in
  {| column_count := Z.min usize_max (column_count i + 1);
     tenant_primary_key := if name "tenant_id" then col_primary_key c else tenant_primary_key i;
     graph_primary_key := if name "graph_id" then col_primary_key c else graph_primary_key i;
     tenant_not_null := if name "tenant_id" then n else tenant_not_null i;
     graph_not_null := if name "graph_id" then n else graph_not_null i;
     schema_not_null := if name "schema_version" then n else schema_not_null i;
     revision_not_null := if name "revision" then n else revision_not_null i;
     graph_json_not_null := if name "graph_json" then n else graph_json_not_null i |}.

Definition no_columns : TableInfo :=
  {| column_count := 0; tenant_primary_key := 0; graph_primary_key := 0;
     tenant_not_null := false; graph_not_null := false; schema_not_null := false;
     revision_not_null := false; graph_json_not_null := false |}.

(** The columns are those of the current schema. *)
Definition columns_current (i : TableInfo) : bool :=
  (column_count i =? 5)%Z && tenant_not_null i && graph_not_null i && schema_not_null i
  && revision_not_null i && graph_json_not_null i && (tenant_primary_key i =? 1)%Z
  && (graph_primary_key i =? 2)%Z.

(** The table of the database file, when it exists. *)
Definition Database : Type := option (list Column * gmap (str * TaskGraphId) Row).

(** The [for] over the rows of [PRAGMA table_info], each of which is read. *)
Fixpoint note_columns (i : TableInfo) (columns : list Column) : M (Connection Database) TableInfo :=
  match columns with
  | [] => mret i
  | c :: columns => _ ← sql_call Orchestration; note_columns (note_column i c) columns
  end.

(** [SELECT schema_version .. WHERE schema_version != 4 LIMIT 1]: any such row,
    here the first one the map lists. *)
Definition unsupported_row (t : gmap (str * TaskGraphId) Row) : option Row :=
  snd <$> List.find (λ p : _ * Row, negb (row_schema_version p.2 =? TASK_GRAPH_SCHEMA_VERSION)%Z)
            (map_to_list t).

(** [validate_current_table]; a missing table has no columns. *)
Definition validate_current_table : M (Connection Database) () :=
  _ ← sql_call Orchestration;
  db ← select Orchestration;
  let table := default ([], ∅) db in
  i ← note_columns no_columns table.1;
  _ ← lift (reject_if (negb (columns_current i))
        (orch "SQLite Task Graph migration required; run `yh task-migrate <database> <backup>` before opening this store" []));
  _ ← sql_call Orchestration;
  match unsupported_row table.2 with
  | Some row => lift (Err (orch "unsupported Task Graph schema version {}" [ANum (row_schema_version row)]))
  | None => mret ()
  end.

(** The columns [CREATE TABLE IF NOT EXISTS] declares. *)
Definition task_graphs_columns : list Column :=
  [ {| col_name := lit "tenant_id"; col_not_null := 1; col_primary_key := 1 |};
    {| col_name := lit "graph_id"; col_not_null := 1; col_primary_key := 2 |};
    {| col_name := lit "schema_version"; col_not_null := 1; col_primary_key := 0 |};
    {| col_name := lit "revision"; col_not_null := 1; col_primary_key := 0 |};
    {| col_name := lit "graph_json"; col_not_null := 1; col_primary_key := 0 |} ].

(** The first calls of [open]: the file and its settings. *)
Definition open_settings (has_parent : bool) (mode : str) : M (Connection Database) () :=
  _ ← open_file Orchestration has_parent;
  require_wal Orchestration mode.

(** [SqliteTaskCoordinator::open]: the settings, the bootstrap batch, the table
    check. *)
Definition sqlite_open (has_parent : bool) (mode : str) : M (Connection Database) SqliteStore :=
  _ ← open_settings has_parent mode;
  c ← get;
  let table := default (task_graphs_columns, ∅) (rows c) in
  _ ← store Orchestration (Some table);
  _ ← validate_current_table;
  c ← get;
  mret {| rows := table.2; faults := faults c |}.

(** [SqliteTaskCoordinator::validate_existing]. *)
Definition validate_existing : M (Connection Database) () :=
  _ ← open_read_only Orchestration;
  _ ← sql_call Orchestration;
  db ← select Orchestration;
  match db with
  | Some _ => validate_current_table
  | None => mret ()
  end.
