(* ===== verification/TaskStores.v ===== *)
(** The contract of a Task Coordinator, and the proof that the in-memory and
    the SQLite coordinator of src/src/orchestration/coordinator.rs meet it.

    The contract [CoordinatorLaws] describes a store by its abstract content,
    a map from (tenant key, graph identity) to the current snapshot.  SQLite
    meets it for every schedule of statement failures, provided the wire codec
    reads back what it wrote ([Codec]). *)

From Stdlib Require Import ZArith Lia.
From stdpp Require Import sorting base tactics list gmap relations numbers strings option.
From stdpp Require Import list.
From S2P Require Import Prelude Kernel Sqlite TaskGraph TaskIntegrity TaskCoordinator.

Section laws.
Context `{!Serialize ExecutionBinding, !Serialize (TaskId * TaskRecord),
          !Serialize TaskMessage, !Serialize TaskAttemptBinding}.

Definition valid_authority (a : AuthorityContext) : Prop :=
  authority_validate_current a "Task Coordinator authority" = Ok ().

Definition graph_valid (g : TaskGraph) (tenant : option str) : Prop :=
  validate_integrity g = Ok () ∧ validate_execution_binding_tenant g tenant = Ok ().

(** What holds of the snapshot stored under a key. *)
Definition stored_ok (key : str * TaskGraphId) (sn : TaskGraphSnapshot) : Prop :=
  sn_id sn = key.2 ∧ tenant_from_storage_key key.1 = Ok (sn_tenant_id sn) ∧
  graph_valid (sn_graph sn) (sn_tenant_id sn) ∧ (1 ≤ sn_revision sn)%Z.

Definition first_snapshot (id : TaskGraphId) (a : AuthorityContext) (g : TaskGraph)
    : TaskGraphSnapshot :=
  {| sn_id := id; sn_tenant_id := tenant_id a; sn_revision := 1; sn_graph := g |}.

Definition next_snapshot (sn : TaskGraphSnapshot) : TaskGraphSnapshot :=
  {| sn_id := sn_id sn; sn_tenant_id := sn_tenant_id sn;
     sn_revision := sn_revision sn + 1; sn_graph := sn_graph sn |}.

Class CoordinatorLaws (S : Type) `{!TaskCoordinator S} := {
  coord_inv : S → Prop;
  coord_view : S → gmap (str * TaskGraphId) TaskGraphSnapshot;
  coord_stored s key sn :
    coord_inv s → coord_view s !! key = Some sn → stored_ok key sn;
  create_law id g a s s' r :
    coord_inv s → create_as id g a s = (s', r) → coord_inv s' ∧
    match r with
    | Ok sn => valid_authority a ∧ coord_view s !! storage_key a id = None ∧
        sn = first_snapshot id a g ∧
        coord_view s' = <[storage_key a id := sn]> (coord_view s)
    | Err _ => coord_view s' = coord_view s
    end;
  load_law id a s s' r :
    coord_inv s → load_as id a s = (s', r) →
    coord_inv s' ∧ coord_view s' = coord_view s ∧
    ∀ o, r = Ok o → valid_authority a ∧ o = coord_view s !! storage_key a id;
  cas_law sn a s s' r :
    coord_inv s → compare_and_swap_as sn a s = (s', r) → coord_inv s' ∧
    match r with
    | Ok saved => valid_authority a ∧ sn_tenant_id sn = tenant_id a ∧
        (∃ current, coord_view s !! storage_key a (sn_id sn) = Some current ∧
                    sn_revision current = sn_revision sn) ∧
        saved = next_snapshot sn ∧
        coord_view s' = <[storage_key a (sn_id sn) := saved]> (coord_view s)
    | Err _ => coord_view s' = coord_view s
    end;
}.
End laws.

Section stores.
Context `{!Serialize ExecutionBinding, !Serialize (TaskId * TaskRecord),
          !Serialize TaskMessage, !Serialize TaskAttemptBinding,
          !Serialize TaskGraphWire, !Serialize StoredTaskGraph, !Deserialize StoredTaskGraph}.

Lemma valid_key a id (sn : TaskGraphSnapshot) :
  valid_authority a → sn_tenant_id sn = tenant_id a →
  tenant_from_storage_key (storage_key a id).1 = Ok (sn_tenant_id sn).
Proof. intros Ha ->. by eapply tenant_key_roundtrip. Qed.

Lemma validate_graph_valid g t : validate_graph g t = Ok () → graph_valid g t.
Proof. unfold validate_graph. intros H. inv_ok. by split. Qed.

(** ** Memory *)

Definition mem_inv (s : MemoryStore) : Prop := map_Forall stored_ok s.

#[global] Program Instance MemoryLaws : CoordinatorLaws MemoryStore := {|
  coord_inv := mem_inv;
  coord_view s := s;
|}.
Next Obligation. intros s key sn H Hk. by apply H. Qed.
Next Obligation.
  intros id g a s s' [sn|e] Hi H; simpl in H; unfold mem_create_as in H.
  - inv_M. inv_ok. bool_hyps.
    match goal with H : validate_graph _ _ = _ |- _ => apply validate_graph_valid in H end.
    match goal with H : ¬ is_Some _ |- _ => apply eq_None_not_Some in H end.
    split; [|by split_and!]. apply map_Forall_insert_2; [|done].
    split_and!; [done|by apply valid_key|done|done].
  - inv_M_err; done.
Qed.
Next Obligation.
  intros id a s s' [o|e] Hi H; simpl in H; unfold mem_load_as in H.
  - inv_M. inv_ok. split_and!; [done|done|]. intros o' [= <-]. done.
  - inv_M_err; done.
Qed.
Next Obligation.
  intros sn a s s' [sv|e] Hi H; simpl in H; unfold mem_compare_and_swap_as in H.
  - inv_M. inv_ok. bool_hyps.
    match goal with H : validate_graph _ _ = _ |- _ => apply validate_graph_valid in H end.
    match goal with H : ¬ (_ ≠ _) |- _ => apply dec_stable in H end.
    match goal with H : checked_add _ _ _ = _ |- _ => apply checked_add_Some in H as [-> _] end.
    split; [|by split_and!; eauto].
    match goal with H : _ !! _ = Some ?c |- _ => pose proof (Hi _ c H) as (_ & _ & _ & ?) end.
    apply map_Forall_insert_2; [|done].
    split_and!; [done|by apply valid_key| |simpl; lia]. simpl. congruence.
  - inv_M_err; done.
Qed.

(** ** The codec of stored rows *)

Context `{!Codec StoredTaskGraph}.

Lemma deserialize_wire_of g : integrity g → deserialize (wire_of g) = Some g.
Proof.
  intros Hi. pose proof (in_charge g Hi) as Hc. destruct g as [ts ms bs n c].
  unfold deserialize. simpl. change (calculate_materialization_charge _)
    with (calculate_materialization_charge {| tasks := ts; messages := ms;
      attempt_bindings := bs; next_message_sequence := n; materialization_charge_bytes := c |}).
  by rewrite Hc.
Qed.

Lemma encode_ok g t json :
  encode_graph g t = Ok json →
  graph_valid g t ∧ (str_len json ≤ MAX_TASK_GRAPH_JSON_BYTES)%Z ∧
  to_json {| st_tenant_id := t; st_graph := wire_of g |} = Some json.
Proof. unfold encode_graph. intros H. inv_ok. bool_hyps. subst. by split_and!. Qed.

(** What [encode_graph] wrote, [decode_snapshot] reads back. *)
Lemma decode_encode id a rev g json :
  valid_authority a → encode_graph g (tenant_id a) = Ok json → (0 ≤ rev)%Z →
  decode_snapshot id (tenant_storage_key (tenant_id a)) TASK_GRAPH_SCHEMA_VERSION rev json
  = Ok {| sn_id := id; sn_tenant_id := tenant_id a; sn_revision := rev; sn_graph := g |}.
Proof.
  intros Ha ([Hi Ht] & Hl & Hj)%encode_ok Hr. unfold decode_snapshot. simpl.
  rewrite (proj2 (Z.ltb_ge _ _) Hl). simpl. rewrite (codec_roundtrip _ _ Hj). simpl.
  rewrite (deserialize_wire_of g) by (by eapply integrity_sound). simpl.
  rewrite (tenant_key_roundtrip _ _ _ Ha). simpl.
  rewrite (bool_decide_eq_false_2 (tenant_id a ≠ tenant_id a)) by (intros E; by apply E). simpl.
  rewrite Hi, Ht. simpl. unfold revision_from_sql, u64_try_from.
  by rewrite (proj2 (Z.leb_le _ _) Hr).
Qed.

Lemma tenant_key_len a :
  valid_authority a → (str_len (tenant_storage_key (tenant_id a)) ≤ 128)%Z.
Proof.
  intros Ha. destruct (tenant_id a) as [t|] eqn:E; [|done]. simpl.
  pose proof (authority_tenant_valid _ _ _ _ Ha E) as Hv. unfold validate_tenant_id in Hv.
  destruct (_ || _) eqn:Eb; [done|]. by bool_hyps.
Qed.

Lemma load_encoded id a rev g json :
  valid_authority a → encode_graph g (tenant_id a) = Ok json → (0 ≤ rev)%Z →
  load_row id (tenant_storage_key (tenant_id a))
    (Some {| row_schema_version := TASK_GRAPH_SCHEMA_VERSION; row_revision := rev;
             row_graph_json := json |})
  = Ok (Some {| sn_id := id; sn_tenant_id := tenant_id a; sn_revision := rev; sn_graph := g |}).
Proof.
  intros Ha He Hr. pose proof (tenant_key_len a Ha) as Hl.
  pose proof (encode_ok _ _ _ He) as (_ & Hj & _). unfold load_row, read_row, bounded_text.
  rewrite (proj2 (Z.ltb_ge 256 _)) by lia. cbn [reject_if mbind result_bind row_graph_json].
  rewrite (proj2 (Z.ltb_ge MAX_TASK_GRAPH_JSON_BYTES _)) by done.
  cbn [reject_if mbind result_bind row_schema_version row_revision].
  by rewrite (decode_encode id a rev g json Ha He Hr).
Qed.

Lemma decode_ok id t v rev json sn :
  decode_snapshot id t v rev json = Ok sn →
  sn_id sn = id ∧ tenant_from_storage_key t = Ok (sn_tenant_id sn) ∧
  graph_valid (sn_graph sn) (sn_tenant_id sn) ∧ sn_revision sn = rev ∧
  v = TASK_GRAPH_SCHEMA_VERSION.
Proof.
  unfold decode_snapshot, validate_schema_version, revision_from_sql. intros H. inv_ok.
  match goal with H : u64_try_from _ _ = _ |- _ => apply u64_try_from_ok in H as [-> _] end.
  destruct (Z.eqb_spec v TASK_GRAPH_SCHEMA_VERSION); [|done]. subst sn. by split_and!.
Qed.

(** ** SQLite *)

Definition row_view (key : str * TaskGraphId) (row : Row) : option TaskGraphSnapshot :=
  match load_row key.2 key.1 (Some row) with Ok o => o | Err _ => None end.

Definition row_ok (key : str * TaskGraphId) (row : Row) : Prop :=
  is_Some (row_view key row) ∧ (1 ≤ row_revision row)%Z.

Definition sql_inv (s : SqliteStore) : Prop := map_Forall row_ok (rows s).
Definition sql_view (s : SqliteStore) : gmap (str * TaskGraphId) TaskGraphSnapshot :=
  map_imap row_view (rows s).

Lemma row_view_Some key row sn :
  row_view key row = Some sn ↔ load_row key.2 key.1 (Some row) = Ok (Some sn).
Proof. unfold row_view. destruct (load_row _ _ _) as [[]|] eqn:E; split; congruence. Qed.

Lemma load_row_ok id t row sn :
  load_row id t (Some row) = Ok (Some sn) →
  decode_snapshot id t (row_schema_version row) (row_revision row) (row_graph_json row) = Ok sn.
Proof.
  unfold load_row, read_row, bounded_text. intros H. inv_ok. subst. inv_ok.
  by subst.
Qed.

Lemma load_row_Some id t row o : load_row id t (Some row) = Ok o → is_Some o.
Proof. unfold load_row, read_row, bounded_text. intros H. inv_ok. subst. inv_ok. by subst. Qed.

Lemma sql_view_lookup s key : sql_view s !! key = rows s !! key ≫= row_view key.
Proof. unfold sql_view. apply map_lookup_imap. Qed.

Lemma sql_view_insert s s' key row sn :
  rows s' = <[key := row]> (rows s) → row_view key row = Some sn →
  sql_view s' = <[key := sn]> (sql_view s).
Proof.
  intros E Hv. apply map_eq. intros k. rewrite sql_view_lookup, E.
  destruct (decide (k = key)) as [->|Hne].
  - rewrite !lookup_insert_eq. done.
  - rewrite !lookup_insert_ne by done. by rewrite sql_view_lookup.
Qed.

Lemma sql_inv_insert s s' key row sn :
  rows s' = <[key := row]> (rows s) → row_view key row = Some sn → (1 ≤ row_revision row)%Z →
  sql_inv s → sql_inv s'.
Proof.
  intros E Hv Hr Hi. unfold sql_inv. rewrite E. apply map_Forall_insert_2; [|done].
  split; [by rewrite Hv|done].
Qed.

Lemma sql_same s s' : rows s' = rows s → sql_inv s → sql_inv s' ∧ sql_view s' = sql_view s.
Proof. unfold sql_inv, sql_view. by intros ->. Qed.

Lemma sql_view_None s key : sql_inv s → rows s !! key = None ↔ sql_view s !! key = None.
Proof.
  intros Hi. rewrite sql_view_lookup. destruct (rows s !! key) as [row|] eqn:E; simpl; [|done].
  destruct (Hi _ _ E) as [[sn ->] _]. done.
Qed.

Lemma sql_create_ok id g a s s' sn :
  sql_create_as id g a s = (s', Ok sn) →
  valid_authority a ∧ rows s !! storage_key a id = None ∧ sn = first_snapshot id a g ∧
  ∃ json, encode_graph g (tenant_id a) = Ok json ∧
    rows s' = <[storage_key a id := {| row_schema_version := TASK_GRAPH_SCHEMA_VERSION;
                  row_revision := 1; row_graph_json := json |}]> (rows s).
Proof.
  unfold sql_create_as, insert_or_ignore. intros H. inv_M.
  destruct (_ !! storage_key a id) as [row|] eqn:E; inv_M; inv_ok; [done|].
  match goal with H : store _ _ _ = _ |- _ => apply store_ok in H end.
  split_and!; [done|done|done|]. eauto.
Qed.

Lemma sql_create_err id g a s s' e : sql_create_as id g a s = (s', Err e) → rows s' = rows s.
Proof.
  unfold sql_create_as, insert_or_ignore. intros H. inv_M_err; try done.
  destruct (_ !! storage_key a id) as [row|] eqn:E; inv_M_err; try done;
    first [by eapply store_err|by eapply store_ok].
Qed.

Lemma sql_cas_ok sn a s s' sv :
  sql_compare_and_swap_as sn a s = (s', Ok sv) →
  valid_authority a ∧ sn_tenant_id sn = tenant_id a ∧ sv = next_snapshot sn ∧
  ∃ row json, rows s !! storage_key a (sn_id sn) = Some row ∧
    row_schema_version row = TASK_GRAPH_SCHEMA_VERSION ∧
    row_revision row = sn_revision sn ∧ encode_graph (sn_graph sn) (tenant_id a) = Ok json ∧
    rows s' = <[storage_key a (sn_id sn) :=
                  {| row_schema_version := row_schema_version row;
                     row_revision := sn_revision sn + 1; row_graph_json := json |}]> (rows s).
Proof.
  unfold sql_compare_and_swap_as, sql_revision, revision_from_sql. intros H. inv_M. inv_ok.
  bool_hyps.
  match goal with H : ¬ (_ ≠ _) |- _ => apply dec_stable in H as Ht end.
  repeat match goal with
  | H : i64_try_from _ _ = _ |- _ => apply i64_try_from_ok in H as [-> ?]
  | H : checked_add _ _ _ = _ |- _ => apply checked_add_Some in H as [-> _]
  | H : transaction _ _ _ = _ |- _ => apply transaction_ok in H as (s1 & s2 & Hs1 & H & Hs2)
  end.
  unfold swap_body, revision_from_sql in *. inv_M. inv_ok. bool_hyps.
  match goal with H : select _ _ = _ |- _ => apply select_rows in H as [Hs3 Hsel];
    specialize (Hsel _ eq_refl) as -> end.
  match goal with H : u64_try_from _ _ = _ |- _ => apply u64_try_from_ok in H as [-> _] end.
  unfold storage_key. rewrite Ht, Hs1 in *.
  match goal with H : rows s !! _ = Some ?row |- _ => rename row into rw; rename H into Hrow end.
  unfold update_where_revision in *. rewrite Hrow in *.
  match goal with H : row_revision rw = _ |- _ => rewrite H in *; rewrite Z.eqb_refl in * end.
  inv_M. match goal with H : store _ _ _ = _ |- _ => apply store_ok in H as Hst end.
  split_and!; [done|done|unfold next_snapshot; by rewrite Ht|]. exists rw. eexists. split_and!; [done| |done|done|congruence].
  unfold validate_schema_version in *. destruct (Z.eqb_spec (row_schema_version rw) TASK_GRAPH_SCHEMA_VERSION); done.
Qed.

Lemma sql_cas_err sn a s s' e :
  sql_compare_and_swap_as sn a s = (s', Err e) → rows s' = rows s.
Proof.
  unfold sql_compare_and_swap_as. intros H. inv_M_err; try done. by eapply transaction_err.
Qed.

#[global] Program Instance SqliteLaws : CoordinatorLaws SqliteStore := {|
  coord_inv := sql_inv;
  coord_view := sql_view;
|}.
Next Obligation.
  intros s key sn Hi Hv. rewrite sql_view_lookup in Hv.
  apply bind_Some in Hv as (row & Hrow & Hv). destruct (Hi _ _ Hrow) as [_ Hr].
  apply row_view_Some, load_row_ok, decode_ok in Hv as (? & ? & ? & ? & _). split_and!; [done|done|done|lia].
Qed.
Next Obligation.
  intros id g a s s' [sn|e] Hi H; simpl in H.
  - apply sql_create_ok in H as (Ha & Hn & -> & json & Hj & Hrows).
    assert (row_view (storage_key a id) {| row_schema_version := TASK_GRAPH_SCHEMA_VERSION;
      row_revision := 1; row_graph_json := json |} = Some (first_snapshot id a g)) as Hv.
    { apply row_view_Some. by apply load_encoded. }
    split; [by eapply sql_inv_insert|]. split_and!; [done| |done|by eapply sql_view_insert].
    by apply sql_view_None.
  - apply sql_create_err in H. by apply sql_same.
Qed.
Next Obligation.
  intros id a s s' r Hi H. simpl in H. unfold sql_load_as in H. destruct r as [o|e].
  - inv_M. inv_ok.
    match goal with H : select _ _ = _ |- _ => apply select_rows in H as [Hs Hsel];
      specialize (Hsel _ eq_refl) as -> end.
    destruct (sql_same _ _ Hs Hi) as [? ?]. split_and!; [done|done|].
    intros o' [= <-]. split; [done|]. rewrite sql_view_lookup. unfold row_view.
    destruct (rows s !! storage_key a id) as [row|]; [|simpl in *; congruence].
    cbn [mbind option_bind]. change (storage_key a id).2 with id.
    change (storage_key a id).1 with (tenant_storage_key (tenant_id a)). by rewrite H.
  - inv_M_err; try done.
    + apply select_rows in H as [Hs _]. destruct (sql_same _ _ Hs Hi). by split_and!.
    + match goal with H : select _ _ = _ |- _ => apply select_rows in H as [Hs _] end.
      destruct (sql_same _ _ Hs Hi). by split_and!.
Qed.
Next Obligation.
  intros sn a s s' [sv|e] Hi H; simpl in H.
  - apply sql_cas_ok in H as (Ha & Ht & -> & row & json & Hrow & Hv & Hr & Hj & Hrows).
    destruct (Hi _ _ Hrow) as [[cur Hcur] H1].
    assert (row_view (storage_key a (sn_id sn)) {| row_schema_version := row_schema_version row;
      row_revision := sn_revision sn + 1; row_graph_json := json |} = Some (next_snapshot sn)) as Hv'.
    { apply row_view_Some. rewrite Hv. unfold next_snapshot. rewrite Ht.
      apply load_encoded; [done|done|lia]. }
    split; [eapply sql_inv_insert; [done|done|simpl; lia|done]|].
    split_and!; [done|done| |done|by eapply sql_view_insert].
    exists cur. rewrite sql_view_lookup, Hrow. split; [done|].
    apply row_view_Some, load_row_ok, decode_ok in Hcur as (_ & _ & _ & -> & _). done.
  - apply sql_cas_err in H. by apply sql_same.
Qed.
End stores.
