(* ===== verification/TaskClients.v ===== *)
(** Concurrent clients of a Task Coordinator, proved against the contract
    [CoordinatorLaws] and so true of the in-memory and of the SQLite
    coordinator (src/src/orchestration/coordinator.rs): clients load
    snapshots, mutate their copy with the domain methods of the Task Graph
    and compare-and-swap it back, in any interleaving and under any
    authorities. *)

From Stdlib Require Import ZArith Lia.
From stdpp Require Import sorting base tactics list gmap relations numbers strings option.
From stdpp Require Import list.
From S2P Require Import Prelude Kernel Sqlite TaskGraph TaskIntegrity TaskSchedule TaskMessages TaskCoordinator TaskStores.

(** A client's copy: the snapshot it was given and the graph it made of it. *)
Record Held := { held_base : TaskGraphSnapshot; held_graph : TaskGraph }.

Definition held_snapshot (h : Held) : TaskGraphSnapshot :=
  {| sn_id := sn_id (held_base h); sn_tenant_id := sn_tenant_id (held_base h);
     sn_revision := sn_revision (held_base h); sn_graph := held_graph h |}.

Definition hold (sn : TaskGraphSnapshot) : Held :=
  {| held_base := sn; held_graph := sn_graph sn |}.

(** The copies a call hands to its caller. *)
Definition handed (r : result TaskGraphSnapshot) : list Held :=
  match r with Ok sn => [hold sn] | Err _ => [] end.
Definition handed_option (r : result (option TaskGraphSnapshot)) : list Held :=
  match r with Ok (Some sn) => [hold sn] | _ => [] end.

Definition key_of (sn : TaskGraphSnapshot) : str * TaskGraphId :=
  (tenant_storage_key (sn_tenant_id sn), sn_id sn).

Lemma tenant_from_storage_key_inv k t : tenant_from_storage_key k = Ok t → tenant_storage_key t = k.
Proof.
  unfold tenant_from_storage_key. destruct (str_is_empty k) eqn:E.
  - intros [= <-]. by destruct k.
  - intros H. inv_ok. by subst.
Qed.

Section clients.
Context `{!Serialize ExecutionBinding, !Serialize (TaskId * TaskRecord),
          !Serialize TaskMessage, !Serialize TaskAttemptBinding}.
Context {S : Type} `{!TaskCoordinator S, !CoordinatorLaws S}.

Inductive client_step : S * list Held → S * list Held → Prop :=
| client_create id ds g a s s' r hs :
    TaskGraph_new ds = Ok g → create_as id g a s = (s', r) →
    client_step (s, hs) (s', hs ++ handed r)
| client_load id a s s' r hs :
    load_as id a s = (s', r) → client_step (s, hs) (s', hs ++ handed_option r)
| client_mutate s hs i h g' :
    hs !! i = Some h → task_step (held_graph h) g' →
    client_step (s, hs) (s, <[i := {| held_base := held_base h; held_graph := g' |}]> hs)
| client_swap a s s' r hs i h :
    hs !! i = Some h → compare_and_swap_as (held_snapshot h) a s = (s', r) →
    client_step (s, hs) (s', hs ++ handed r).

Definition initial (st : S * list Held) : Prop :=
  coord_inv st.1 ∧ coord_view st.1 = ∅ ∧ st.2 = [].

Definition execution (st : S * list Held) : Prop := ∃ st0, initial st0 ∧ rtc client_step st0 st.

(** A snapshot some client may hold: the store has moved on from it, or it
    is still the stored one. *)
Definition observed (s : S) (sn : TaskGraphSnapshot) : Prop :=
  ∃ cur, coord_view s !! key_of sn = Some cur ∧ (sn_revision sn ≤ sn_revision cur)%Z ∧
    (sn_revision sn = sn_revision cur → cur = sn).

Record client_inv (st : S * list Held) : Prop := {
  ci_store : coord_inv st.1;
  ci_stored : ∀ key sn, coord_view st.1 !! key = Some sn → reachable (sn_graph sn);
  ci_held : ∀ h, h ∈ st.2 → observed st.1 (held_base h) ∧
    reachable (sn_graph (held_base h)) ∧
    rtc task_step (sn_graph (held_base h)) (held_graph h);
}.

(** How one call may change a stored snapshot. *)
Definition evolves (s s' : S) : Prop := ∀ key,
  (∀ cur, coord_view s !! key = Some cur → ∃ cur', coord_view s' !! key = Some cur' ∧
     (cur' = cur ∨ sn_revision cur' = (sn_revision cur + 1)%Z ∧
                   rtc task_step (sn_graph cur) (sn_graph cur'))) ∧
  (∀ cur', coord_view s !! key = None → coord_view s' !! key = Some cur' →
     sn_revision cur' = 1%Z ∧ ∃ ds, TaskGraph_new ds = Ok (sn_graph cur')).

Lemma stored_key s key sn :
  coord_inv s → coord_view s !! key = Some sn → key = key_of sn.
Proof.
  intros Hi Hv. destruct (coord_stored _ _ _ Hi Hv) as (H1 & H2%tenant_from_storage_key_inv & _).
  destruct key as [t i]. simpl in *. unfold key_of. congruence.
Qed.

Lemma evolves_same s s' : coord_view s' = coord_view s → evolves s s'.
Proof.
  intros E key. rewrite E. split; [eauto|]. intros cur' H1 H2. congruence.
Qed.

Lemma reachable_rtc g g' : reachable g → rtc task_step g g' → reachable g'.
Proof. intros Hr. induction 1; [done|]. eauto using reach_step. Qed.

Lemma observed_evolves s s' sn : evolves s s' → observed s sn → observed s' sn.
Proof.
  intros He (cur & Hcur & Hle & Heq). destruct (He (key_of sn)) as [H _].
  destruct (H cur Hcur) as (cur' & H1 & [->|[H2 _]]); [by exists cur|].
  exists cur'. split_and!; [done|lia|lia].
Qed.

Lemma observed_stored s key sn :
  coord_inv s → coord_view s !! key = Some sn → observed s sn.
Proof. intros Hi Hv. exists sn. rewrite <-(stored_key s key sn Hi Hv). by split_and!. Qed.

(** A swap that succeeds replaces the very snapshot the client started from. *)
Lemma swap_base s h a s' sv :
  coord_inv s → observed s (held_base h) →
  compare_and_swap_as (held_snapshot h) a s = (s', Ok sv) →
  coord_view s !! key_of (held_base h) = Some (held_base h) ∧
  coord_view s' = <[key_of (held_base h) := next_snapshot (held_snapshot h)]> (coord_view s) ∧
  sv = next_snapshot (held_snapshot h).
Proof.
  intros Hi (cur & Hcur & _ & Heq) H.
  apply cas_law in H as (_ & Ha & Ht & (cur' & Hcur' & Hr) & -> & Hv); [|done].
  assert (storage_key a (sn_id (held_snapshot h)) = key_of (held_base h)) as Ek
    by (unfold storage_key, key_of; simpl in *; by rewrite Ht).
  rewrite Ek in *. rewrite Hcur in Hcur'. injection Hcur' as <-. simpl in Hr.
  rewrite (Heq (eq_sym Hr)) in Hcur. done.
Qed.

Lemma step_evolves s hs s' hs' :
  client_inv (s, hs) → client_step (s, hs) (s', hs') → coord_inv s' ∧ evolves s s'.
Proof.
  intros [Hi Hst Hh] Hstep. simpl in *. inversion Hstep as
    [id ds g a ? ? r ? Hn H|id a ? ? r ? H|? ? i h g' Hin H|a ? ? r ? i h Hin H]; subst.
  - apply create_law in H as [Hi' H]; [|done]. split; [done|].
    destruct r as [sn|e]; [|by apply evolves_same].
    destruct H as (Ha & Hnone & -> & Hv). intros key. rewrite Hv.
    destruct (decide (key = storage_key a id)) as [->|Hne].
    + rewrite lookup_insert_eq. split; [congruence|]. intros cur' _ [= <-]. simpl. eauto.
    + rewrite lookup_insert_ne by done. split; [eauto|congruence].
  - apply load_law in H as (Hi' & Hv & _); [|done]. split; [done|by apply evolves_same].
  - split; [done|by apply evolves_same].
  - assert (coord_inv s') as Hi' by (by eapply cas_law in H as [? _]). split; [done|].
    destruct (Hh h) as (Ho & _ & Hsteps); [by eapply list_elem_of_lookup_2|].
    destruct r as [sv|e]; [|apply cas_law in H as [_ H]; [by apply evolves_same|done]].
    apply swap_base in H as (Hb & Hv & _); [|done..]. intros key. rewrite Hv.
    destruct (decide (key = key_of (held_base h))) as [->|Hne].
    + rewrite lookup_insert_eq, Hb. split; [|done]. intros cur [= <-].
      eexists. split; [done|]. by right.
    + rewrite lookup_insert_ne by done. split; [eauto|congruence].
Qed.

Lemma evolves_reachable s s' :
  evolves s s' → (∀ key sn, coord_view s !! key = Some sn → reachable (sn_graph sn)) →
  ∀ key sn, coord_view s' !! key = Some sn → reachable (sn_graph sn).
Proof.
  intros He Hs key sn Hv. destruct (He key) as [H1 H2].
  destruct (coord_view s !! key) as [cur|] eqn:E.
  - destruct (H1 cur eq_refl) as (cur' & E' & Hc). rewrite Hv in E'. injection E' as <-.
    destruct Hc as [->|[_ ?]]; eauto using reachable_rtc.
  - destruct (H2 sn eq_refl Hv) as [_ [ds Hn]]. by eapply reach_new.
Qed.

(** What a call hands out is what is stored after it. *)
Lemma handed_stored s hs s' hs' h :
  client_inv (s, hs) → client_step (s, hs) (s', hs') → h ∈ hs' →
  (∃ h0, h0 ∈ hs ∧ held_base h = held_base h0 ∧
     rtc task_step (held_graph h0) (held_graph h)) ∨
  (∃ key, coord_view s' !! key = Some (held_base h)) ∧ held_graph h = sn_graph (held_base h).
Proof.
  intros [Hi Hst Hh] Hstep. simpl in *. inversion Hstep as
    [id ds g a ? ? r ? Hn H|id a ? ? r ? H|? ? i h' g' Hin H|a ? ? r ? i h' Hin H]; subst.
  - intros [?|Hr]%elem_of_app; [left; exists h; by split_and!|right]. destruct r as [sn|e]; [|by inversion Hr].
    apply list_elem_of_singleton in Hr as ->. apply create_law in H as (_ & _ & _ & _ & ->); [|done].
    simpl. split; [|done]. exists (storage_key a id). apply lookup_insert_eq.
  - intros [?|Hr]%elem_of_app; [left; exists h; by split_and!|right].
    destruct r as [[sn|]|e]; [|by inversion Hr..].
    apply list_elem_of_singleton in Hr as ->. apply load_law in H as (_ & Hv & Hl); [|done].
    destruct (Hl _ eq_refl) as [_ Hl']. split; [|done]. exists (storage_key a id). simpl. by rewrite Hv.
  - intros [j Hj]%list_elem_of_lookup_1. left. destruct (decide (i = j)) as [->|Hne].
    + rewrite list_lookup_insert_eq in Hj by (by eapply lookup_lt_Some). injection Hj as <-.
      exists h'. split_and!; [by eapply list_elem_of_lookup_2|done|by apply rtc_once].
    + rewrite list_lookup_insert_ne in Hj by done. exists h.
      split_and!; [by eapply list_elem_of_lookup_2|done|done].
  - intros [?|Hr]%elem_of_app; [left; exists h; by split_and!|right]. destruct r as [sv|e]; [|by inversion Hr].
    apply list_elem_of_singleton in Hr as ->.
    destruct (Hh h') as (Ho & _); [by eapply list_elem_of_lookup_2|].
    apply swap_base in H as (_ & -> & ->); [|done..]. simpl. split; [|done].
    eexists. apply lookup_insert_eq.
Qed.

Lemma client_step_inv st st' : client_inv st → client_step st st' → client_inv st'.
Proof.
  destruct st as [s hs], st' as [s' hs']. intros Hinv Hstep.
  destruct (step_evolves _ _ _ _ Hinv Hstep) as [Hi' He].
  pose proof (evolves_reachable _ _ He (ci_stored _ Hinv)) as Hr.
  split; [done|done|]. intros h Hin. simpl in *.
  destruct (handed_stored _ _ _ _ _ Hinv Hstep Hin) as [(h0 & Hh0 & -> & Hsteps)|[[key Hk] ->]].
  - destruct (ci_held _ Hinv h0 Hh0) as (Ho & Hb & H0). split_and!; [by eapply observed_evolves|done|].
    by etrans.
  - split_and!; [by eapply observed_stored|by eapply Hr|done].
Qed.

Lemma execution_inv st : execution st → client_inv st.
Proof.
  intros (st0 & (Hi & Hv & Hh) & Hs). revert st Hs. refine (rtc_ind_r _ _ _ _).
  - split; [done|rewrite Hv; intros ? ? Hl; by rewrite lookup_empty in Hl|].
    rewrite Hh. by intros ? ?%elem_of_nil.
  - intros y z _ Hyz Hy. by eapply client_step_inv.
Qed.

Lemma rtc_evolves s hs s' hs' key cur :
  client_inv (s, hs) → rtc client_step (s, hs) (s', hs') →
  coord_view s !! key = Some cur →
  client_inv (s', hs') ∧
  ∃ cur', coord_view s' !! key = Some cur' ∧ (sn_revision cur ≤ sn_revision cur')%Z.
Proof.
  intros Hinv Hs Hcur.
  refine (rtc_ind_r (λ st, client_inv st ∧ ∃ cur', coord_view st.1 !! key = Some cur' ∧
    (sn_revision cur ≤ sn_revision cur')%Z) _ _ _ _ Hs); [by split; [|exists cur]|].
  intros [s1 hs1] [s2 hs2] _ Hstep (Hi1 & c1 & Hc1 & Hle). simpl in *.
  split; [by eapply client_step_inv|].
  destruct (step_evolves _ _ _ _ Hi1 Hstep) as [_ He]. destruct (He key) as [H _].
  destruct (H c1 Hc1) as (c2 & Hc2 & [->|[Hr _]]); [by eauto|]. exists c2. split; [done|lia].
Qed.

(** C19: concurrent clients cannot corrupt a graph: whatever they
    interleave, one call changes a stored snapshot at most by advancing its
    revision by one along a sequence of domain operations from the very
    graph that was stored; stored graphs never disappear, new ones are
    freshly constructed, and each is a graph the domain methods can reach,
    owned by the tenant of its key. *)
Theorem coordinator_linearizable (s s' : S) (hs hs' : list Held)
    (He : execution (s, hs)) (Hs : client_step (s, hs) (s', hs')) :
  evolves s s' ∧
  ∀ key sn, coord_view s' !! key = Some sn → reachable (sn_graph sn) ∧ stored_ok key sn.
Proof.
  apply execution_inv in He. destruct (step_evolves _ _ _ _ He Hs) as [Hi' Hev].
  split; [done|]. intros key sn Hv. split; [|by eapply coord_stored].
  by eapply (ci_stored _ (client_step_inv _ _ He Hs)).
Qed.

(** no lost update: after a swap succeeded, and whatever happened
    since, every swap from the same or an older revision of that graph is
    refused and changes nothing. *)
Theorem coordinator_no_lost_update (s s1 s2 s3 : S) (hs hs2 : list Held) (i : nat) (h : Held)
    (a a' : AuthorityContext) (sv sn : TaskGraphSnapshot) (r : result TaskGraphSnapshot)
    (He : execution (s, hs)) (Hh : hs !! i = Some h)
    (Hwin : compare_and_swap_as (held_snapshot h) a s = (s1, Ok sv))
    (Hrest : rtc client_step (s1, hs ++ [hold sv]) (s2, hs2))
    (Hkey : key_of sn = key_of sv)
    (Hold : (sn_revision sn ≤ sn_revision (held_base h))%Z)
    (Hlose : compare_and_swap_as sn a' s2 = (s3, r)) :
  (∃ e, r = Err e) ∧ coord_view s3 = coord_view s2.
Proof.
  apply execution_inv in He. pose proof (client_swap a s s1 (Ok sv) hs i h Hh Hwin) as Hstep.
  pose proof (client_step_inv _ _ He Hstep) as Hinv1.
  destruct (ci_held _ He h) as (Ho & _); [by eapply list_elem_of_lookup_2|].
  apply swap_base in Hwin as (_ & Hv & ->); [|apply He|done].
  assert (coord_view s1 !! key_of (held_base h) = Some (next_snapshot (held_snapshot h))) as H1
    by (rewrite Hv; apply lookup_insert_eq).
  destruct (rtc_evolves _ _ _ _ _ _ Hinv1 Hrest H1) as (Hinv2 & cur & Hcur & Hle). simpl in Hle.
  apply cas_law in Hlose as [_ H]; [|apply Hinv2]. destruct r as [sv'|e]; [exfalso|by eauto].
  destruct H as (_ & Ht & (cur' & Hcur' & Hr) & _).
  assert (storage_key a' (sn_id sn) = key_of (held_base h)) as Ek.
  { etrans; [|exact Hkey]. unfold storage_key, key_of. by rewrite Ht. }
  rewrite Ek, Hcur in Hcur'. injection Hcur' as <-. lia.
Qed.

(** Tenant isolation: a call under one authority returns only graphs of
    its tenant and leaves the snapshot of every other tenant as it was. *)
Theorem coordinator_tenant_isolation (s : S) (a : AuthorityContext) (Hi : coord_inv s) :
  (∀ id s' sn, load_as id a s = (s', Ok (Some sn)) →
     sn_tenant_id sn = tenant_id a ∧ sn_id sn = id) ∧
  (∀ s', (∃ id g r, create_as id g a s = (s', r)) ∨ (∃ id r, load_as id a s = (s', r)) ∨
         (∃ sn r, compare_and_swap_as sn a s = (s', r)) →
   ∀ key sn, coord_view s !! key = Some sn → sn_tenant_id sn ≠ tenant_id a →
     coord_view s' !! key = Some sn).
Proof.
  split.
  - intros id s' sn H. apply load_law in H as (_ & _ & H); [|done].
    destruct (H _ eq_refl) as [Ha Hl]. symmetry in Hl.
    destruct (coord_stored _ _ _ Hi Hl) as (H1 & H2 & _). split; [|done].
    pose proof (tenant_key_roundtrip _ _ _ Ha) as H3. simpl in H2. congruence.
  - intros s' H key sn Hk Ht.
    assert (∀ id (Ha : valid_authority a), key ≠ storage_key a id) as Hne.
    { intros id Ha ->. destruct (coord_stored _ _ _ Hi Hk) as (_ & H2 & _).
      pose proof (tenant_key_roundtrip _ _ _ Ha) as H3. simpl in H2. congruence. }
    destruct H as [(id & g & r & H)|[(id & r & H)|(sn' & r & H)]].
    + apply create_law in H as [_ H]; [|done]. destruct r; [|by rewrite H].
      destruct H as (Ha & _ & _ & ->). by rewrite lookup_insert_ne by (intros E; by eapply Hne).
    + apply load_law in H as (_ & -> & _); done.
    + apply cas_law in H as [_ H]; [|done]. destruct r; [|by rewrite H].
      destruct H as (Ha & _ & _ & _ & ->). by rewrite lookup_insert_ne by (intros E; by eapply Hne).
Qed.
End clients.

(** ** SQLite against memory *)

Section refinement.
Context `{!Serialize ExecutionBinding, !Serialize (TaskId * TaskRecord),
          !Serialize TaskMessage, !Serialize TaskAttemptBinding,
          !Serialize TaskGraphWire, !Serialize StoredTaskGraph, !Deserialize StoredTaskGraph,
          !Codec StoredTaskGraph}.

Definition refines {A} (x : SqliteStore * result A) (y : MemoryStore * result A) : Prop :=
  x.2 = y.2 ∧ sql_view x.1 = y.1 ∧ healthy x.1 ∧ sql_inv x.1.

Lemma refines_same {A} s (r : result A) :
  sql_inv s → healthy s → refines (s, r) (sql_view s, r).
Proof. by intros. Qed.

Lemma load_row_view s a id :
  sql_inv s → load_row id (tenant_storage_key (tenant_id a)) (rows s !! storage_key a id)
              = Ok (sql_view s !! storage_key a id).
Proof.
  intros Hi. rewrite sql_view_lookup. destruct (rows s !! storage_key a id) as [row|] eqn:E; [|done].
  destruct (Hi _ _ E) as [[sn Hsn] _]. cbn [mbind option_bind]. rewrite Hsn.
  by apply row_view_Some in Hsn.
Qed.

Lemma refines_load s id a :
  sql_inv s → healthy s → refines (sql_load_as id a s) (mem_load_as id a (sql_view s)).
Proof.
  intros Hi Hh. unfold sql_load_as, mem_load_as, mbind, M_bind, lift, mret, M_ret, get.
  destruct (authority_validate_current _ _) as [u|e]; [|by apply refines_same].
  destruct (validate_graph_id id) as [u'|e]; [|by apply refines_same].
  rewrite (select_healthy _ _ Hh), (load_row_view s a id Hi). by apply refines_same.
Qed.

Lemma refines_create s id g a json :
  sql_inv s → healthy s → encode_graph g (tenant_id a) = Ok json →
  validate_graph g (tenant_id a) = Ok () →
  refines (sql_create_as id g a s) (mem_create_as id g a (sql_view s)).
Proof.
  intros Hi Hh Hj Hg. destruct (sql_create_as id g a s) as [s' r] eqn:E.
  pose proof (create_law id g a s s' r Hi E) as [Hi' Hr].
  revert E. unfold sql_create_as, mem_create_as, mbind, M_bind, lift, mret, M_ret, get, put.
  destruct (authority_validate_current _ _) as [u|e];
    [|intros [= <- <-]; by apply refines_same].
  destruct (validate_graph_id id) as [u'|e]; [|intros [= <- <-]; by apply refines_same].
  rewrite Hj, Hg. unfold insert_or_ignore. destruct (rows s !! storage_key a id) as [row|] eqn:Er.
  - rewrite (bool_decide_eq_true_2 (is_Some (sql_view s !! storage_key a id))).
    2: { apply not_eq_None_Some. intros H%sql_view_None; [congruence|done]. }
    rewrite (store_healthy _ _ _ Hh). simpl. intros [= <- <-]. unfold refines. simpl. split_and!; try done.
  - rewrite (bool_decide_eq_false_2 (is_Some (sql_view s !! storage_key a id))).
    2: { apply eq_None_not_Some. by apply sql_view_None. }
    rewrite (store_healthy _ _ _ Hh). simpl. intros [= <- <-]. destruct Hr as (_ & _ & _ & Hv).
    unfold refines. simpl. split_and!; try done.
Qed.

Lemma row_view_revision s key row sn :
  rows s !! key = Some row → sql_view s !! key = Some sn → sn_revision sn = row_revision row ∧
    row_schema_version row = TASK_GRAPH_SCHEMA_VERSION.
Proof.
  intros Hr Hv. rewrite sql_view_lookup, Hr in Hv. cbn [mbind option_bind] in Hv.
  by apply row_view_Some, load_row_ok, decode_ok in Hv as (_ & _ & _ & ? & ?).
Qed.

(** The transaction on a healthy connection, branch by branch. *)
Lemma swap_body_healthy s id key n json :
  sql_inv s → healthy s →
  match sql_view s !! key with
  | None => swap_body id key n n (n + 1) json s = (s, Err (graph_does_not_exist id))
  | Some cur =>
      if (sn_revision cur =? n)%Z
      then ∃ s', swap_body id key n n (n + 1) json s = (s', Ok ()) ∧ healthy s'
      else swap_body id key n n (n + 1) json s
           = (s, Err (OrchestrationConflict id n (sn_revision cur)))
  end.
Proof.
  intros Hi Hh. unfold swap_body, mbind, M_bind, lift.
  rewrite (select_healthy _ _ Hh). destruct (sql_view s !! key) as [cur|] eqn:Ev.
  2: { apply sql_view_None in Ev; [|done]. by rewrite Ev. }
  destruct (rows s !! key) as [row|] eqn:Er; [|apply sql_view_None in Er; [congruence|done]].
  destruct (row_view_revision s key row cur Er Ev) as [-> Hsv]. destruct (Hi _ _ Er) as [_ Hpos].
  simpl. unfold validate_schema_version, revision_from_sql, u64_try_from.
  rewrite Hsv, (proj2 (Z.leb_le 0 _)) by lia. simpl.
  destruct (row_revision row =? n)%Z eqn:En; simpl; [|done].
  unfold update_where_revision. rewrite Er, En, (store_healthy _ _ _ Hh). by eexists.
Qed.

Lemma refines_swap s sn a json :
  sql_inv s → healthy s → encode_graph (sn_graph sn) (tenant_id a) = Ok json →
  validate_graph (sn_graph sn) (tenant_id a) = Ok () → (sn_revision sn < i64_max)%Z →
  refines (sql_compare_and_swap_as sn a s) (mem_compare_and_swap_as sn a (sql_view s)).
Proof.
  intros Hi Hh Hj Hg Hlt. destruct (sql_compare_and_swap_as sn a s) as [s' r] eqn:E.
  pose proof (cas_law sn a s s' r Hi E) as [Hi' Hr].
  revert E. unfold sql_compare_and_swap_as, mem_compare_and_swap_as, sql_revision, i64_try_from,
    checked_add. unfold mbind, M_bind, lift, mret, M_ret, get, put. rewrite Hg.
  destruct (authority_validate_current _ _) as [u|e];
    [|intros [= <- <-]; by apply refines_same].
  destruct (validate_graph_id _) as [u'|e]; [|intros [= <- <-]; by apply refines_same].
  destruct (decide (sn_tenant_id sn = tenant_id a)) as [Ht|Ht].
  2: { rewrite (bool_decide_eq_true_2 (sn_tenant_id sn ≠ tenant_id a)) by done.
       intros [= <- <-]. by apply refines_same. }
  rewrite (bool_decide_eq_false_2 (sn_tenant_id sn ≠ tenant_id a)) by (intros Hn; by apply Hn).
  simpl. rewrite Ht, Hj. unfold i64_max, u64_max in *.
  rewrite (proj2 (Z.leb_le (sn_revision sn + 1) 18446744073709551615)) by lia. simpl.
  rewrite (proj2 (Z.leb_le (sn_revision sn) 9223372036854775807)) by lia.
  rewrite (proj2 (Z.leb_le (sn_revision sn + 1) 9223372036854775807)) by lia.
  pose proof (swap_body_healthy s (sn_id sn) (storage_key a (sn_id sn)) (sn_revision sn) json Hi Hh)
    as Hb. unfold storage_key in *.
  unfold MemoryStore. destruct (sql_view s !! _) as [cur|]; simpl.
  - destruct (sn_revision cur =? sn_revision sn)%Z eqn:En; simpl.
    + destruct Hb as (s1 & Hb & Hh1).
      rewrite (transaction_healthy _ _ _ _ _ Hh Hb Hh1). intros [= <- <-].
      destruct Hr as (_ & _ & _ & _ & Hv). unfold refines. simpl. by split_and!.
    + unfold transaction, mbind, M_bind. rewrite (sql_call_healthy _ _ Hh), Hb.
      intros [= <- <-]. unfold refines. by split_and!.
  - unfold transaction, mbind, M_bind. rewrite (sql_call_healthy _ _ Hh), Hb.
    intros [= <- <-]. unfold refines. by split_and!.
Qed.

(** What the two stores do with an input that neither of them may answer
    alike: authority and identity are checked first by both. *)
Definition checked_alike (id : TaskGraphId) (a : AuthorityContext) : Prop :=
  valid_authority a ∧ validate_graph_id id = Ok ().

Lemma create_unchecked s id g a :
  sql_inv s → healthy s → ¬ checked_alike id a →
  refines (sql_create_as id g a s) (mem_create_as id g a (sql_view s)).
Proof.
  intros Hi Hh Hn. unfold checked_alike, valid_authority in Hn.
  unfold sql_create_as, mem_create_as, mbind, M_bind, lift.
  destruct (authority_validate_current _ _) as [[]|e]; [|by apply refines_same].
  destruct (validate_graph_id id) as [[]|e]; [|by apply refines_same]. by destruct Hn.
Qed.

Lemma swap_unchecked s sn a :
  sql_inv s → healthy s → ¬ checked_alike (sn_id sn) a →
  refines (sql_compare_and_swap_as sn a s) (mem_compare_and_swap_as sn a (sql_view s)).
Proof.
  intros Hi Hh Hn. unfold checked_alike, valid_authority in Hn.
  unfold sql_compare_and_swap_as, mem_compare_and_swap_as, mbind, M_bind, lift.
  destruct (authority_validate_current _ _) as [[]|e]; [|by apply refines_same].
  destruct (validate_graph_id _) as [[]|e]; [|by apply refines_same]. by destruct Hn.
Qed.

(** Both encodings of a graph: the row SQLite writes and the graph alone,
    which memory measures. *)
Lemma create_split s id g a :
  sql_inv s → healthy s → checked_alike id a →
  match encode_graph g (tenant_id a), validate_graph g (tenant_id a) with
  | Ok _, Ok _ => refines (sql_create_as id g a s) (mem_create_as id g a (sql_view s))
  | Ok _, Err e => mem_create_as id g a (sql_view s) = (sql_view s, Err e)
  | Err e, _ => sql_create_as id g a s = (s, Err e)
  end.
Proof.
  intros Hi Hh [Ha Hid]. destruct (encode_graph g (tenant_id a)) as [json|e] eqn:Ej.
  - destruct (validate_graph g (tenant_id a)) as [[]|e] eqn:Eg; [by eapply refines_create|].
    unfold mem_create_as, mbind, M_bind, lift. by rewrite Ha, Hid, Eg.
  - unfold sql_create_as, mbind, M_bind, lift. by rewrite Ha, Hid, Ej.
Qed.

(** The revision a swap writes must be an [i64] as well as a [u64]. *)
Lemma swap_revision_refused s sn a json :
  checked_alike (sn_id sn) a → sn_tenant_id sn = tenant_id a →
  encode_graph (sn_graph sn) (tenant_id a) = Ok json → (i64_max ≤ sn_revision sn)%Z →
  sql_compare_and_swap_as sn a s
  = (s, Err (if (sn_revision sn =? u64_max)%Z || (u64_max <? sn_revision sn)%Z
             then orch "Task Graph revision overflow" []
             else orch "Task Graph revision exceeds SQLite" [])).
Proof.
  intros [Ha Hid] Ht Hj Hr. unfold sql_compare_and_swap_as, mbind, M_bind, lift.
  rewrite Ha, Hid, (bool_decide_eq_false_2 (sn_tenant_id sn ≠ tenant_id a)) by (intros Hn; by apply Hn).
  rewrite Ht, Hj. unfold reject_if, checked_add, sql_revision, i64_try_from, i64_max, u64_max in *.
  destruct (Z.leb_spec (sn_revision sn + 1) 18446744073709551615) as [H1|H1]; simpl.
  - rewrite (proj2 (Z.eqb_neq _ _)), (proj2 (Z.ltb_ge _ _)) by lia. simpl.
    destruct (Z.leb_spec (sn_revision sn) 9223372036854775807); [|done].
    by rewrite (proj2 (Z.leb_gt (sn_revision sn + 1) 9223372036854775807)) by lia.
  - by destruct (Z.eqb_spec (sn_revision sn) 18446744073709551615),
      (Z.ltb_spec 18446744073709551615 (sn_revision sn)); simpl; [..|lia].
Qed.

Lemma swap_split s sn a :
  sql_inv s → healthy s → checked_alike (sn_id sn) a →
  match validate_graph (sn_graph sn) (tenant_id a) with
  | Err e => mem_compare_and_swap_as sn a (sql_view s) = (sql_view s, Err e)
  | Ok _ =>
      if decide (sn_tenant_id sn = tenant_id a) then
        match encode_graph (sn_graph sn) (tenant_id a) with
        | Err e => sql_compare_and_swap_as sn a s = (s, Err e)
        | Ok _ =>
            if (sn_revision sn <? i64_max)%Z
            then refines (sql_compare_and_swap_as sn a s) (mem_compare_and_swap_as sn a (sql_view s))
            else ∃ e, sql_compare_and_swap_as sn a s = (s, Err e)
        end
      else refines (sql_compare_and_swap_as sn a s) (mem_compare_and_swap_as sn a (sql_view s))
  end.
Proof.
  intros Hi Hh Hc. pose proof Hc as [Ha Hid].
  destruct (validate_graph _ _) as [[]|e] eqn:Eg.
  2: { unfold mem_compare_and_swap_as, mbind, M_bind, lift. by rewrite Ha, Hid, Eg. }
  destruct (decide _) as [Ht|Ht].
  - destruct (encode_graph _ _) as [json|e] eqn:Ej.
    + destruct (Z.ltb_spec (sn_revision sn) i64_max); [by eapply refines_swap|].
      eexists. by eapply swap_revision_refused.
    + unfold sql_compare_and_swap_as, mbind, M_bind, lift.
      rewrite Ha, Hid, (bool_decide_eq_false_2 (sn_tenant_id sn ≠ tenant_id a)) by (intros Hn; by apply Hn).
      by rewrite Ht, Ej.
  - unfold sql_compare_and_swap_as, mem_compare_and_swap_as, mbind, M_bind, lift.
    rewrite Ha, Hid, Eg, (bool_decide_eq_true_2 (sn_tenant_id sn ≠ tenant_id a)) by done.
    by apply refines_same.
Qed.

(** C21: SQLite refines memory, and where it does not, it refuses: on a
    connection without failures every load returns exactly what the in-memory
    coordinator returns on the abstract content (success or error alike) and
    leaves exactly its content; so do a creation and a swap whenever the
    authority or the identity is refused, and whenever both encodings of the
    graph (the row SQLite writes, the graph memory measures) fit and, for a
    swap, the next revision is one an [i64] can hold or the tenants differ.
    In the remaining cases one store refuses and changes nothing: SQLite, with
    the encoding's own error, when the row cannot be encoded, and with an
    error when the revision is at or above [i64::MAX]; memory, with the
    validation's error, when only the graph alone is over its bounds. *)
Theorem sqlite_refines_memory (s : SqliteStore) (a : AuthorityContext)
    (Hi : coord_inv s) (Hh : healthy s) :
  (∀ id, refines (load_as id a s) (load_as id a (coord_view s))) ∧
  (∀ id g,
     (¬ checked_alike id a → refines (create_as id g a s) (create_as id g a (coord_view s))) ∧
     (checked_alike id a →
      match encode_graph g (tenant_id a), validate_graph g (tenant_id a) with
      | Ok _, Ok _ => refines (create_as id g a s) (create_as id g a (coord_view s))
      | Ok _, Err e => create_as id g a (coord_view s) = (coord_view s, Err e)
      | Err e, _ => create_as id g a s = (s, Err e)
      end)) ∧
  (∀ sn,
     (¬ checked_alike (sn_id sn) a →
      refines (compare_and_swap_as sn a s) (compare_and_swap_as sn a (coord_view s))) ∧
     (checked_alike (sn_id sn) a →
      match validate_graph (sn_graph sn) (tenant_id a) with
      | Err e => compare_and_swap_as sn a (coord_view s) = (coord_view s, Err e)
      | Ok _ =>
          if decide (sn_tenant_id sn = tenant_id a) then
            match encode_graph (sn_graph sn) (tenant_id a) with
            | Err e => compare_and_swap_as sn a s = (s, Err e)
            | Ok _ =>
                if (sn_revision sn <? i64_max)%Z
                then refines (compare_and_swap_as sn a s) (compare_and_swap_as sn a (coord_view s))
                else ∃ e, compare_and_swap_as sn a s = (s, Err e)
            end
          else refines (compare_and_swap_as sn a s) (compare_and_swap_as sn a (coord_view s))
      end)).
Proof.
  split_and!.
  - intros. by apply refines_load.
  - intros id g. split; intros Hc; [by apply create_unchecked|by apply create_split].
  - intros sn. split; intros Hc; [by apply swap_unchecked|by apply swap_split].
Qed.

(** a durable write survives: a graph that was created or swapped
    under an authority is what a load under it returns, whatever statement
    failures happened before, as long as the load's own statement works. *)
Theorem sqlite_read_your_writes (s s' : SqliteStore) (a : AuthorityContext)
    (sn saved : TaskGraphSnapshot) (Hi : coord_inv s)
    (H : compare_and_swap_as sn a s = (s', Ok saved) ∨
         create_as (sn_id sn) (sn_graph sn) a s = (s', Ok saved))
    (Hok : ∀ m f, faults s' ≠ Some m :: f) :
  ∃ s'', load_as (sn_id sn) a s' = (s'', Ok (Some saved)).
Proof.
  assert (coord_inv s' ∧ valid_authority a ∧ validate_graph_id (sn_id sn) = Ok () ∧
          coord_view s' !! storage_key a (sn_id sn) = Some saved) as (Hi' & Ha & Hid & Hv).
  { destruct H as [H|H].
    - pose proof H as H0. apply cas_law in H as (Hi' & Ha & _ & _ & _ & ->); [|done].
      unfold compare_and_swap_as in H0. simpl in H0. unfold sql_compare_and_swap_as in H0. inv_M. inv_ok.
      split_and!; [done|done|done|apply lookup_insert_eq].
    - pose proof H as H0. apply create_law in H as (Hi' & Ha & _ & _ & ->); [|done].
      unfold create_as in H0. simpl in H0. unfold sql_create_as in H0. inv_M. inv_ok.
      split_and!; [done|done|done|apply lookup_insert_eq]. }
  simpl. unfold sql_load_as, mbind, M_bind, lift. rewrite Ha, Hid.
  destruct (select Orchestration s') as [s2 [t|e]] eqn:E.
  - apply select_rows in E as [_ E]. specialize (E t eq_refl) as ->.
    rewrite (load_row_view s' a (sn_id sn) Hi'). exists s2. f_equal. f_equal. exact Hv.
  - exfalso. unfold select in E. inv_M_err. unfold sql_call in E.
    destruct (faults s') as [|[m|] f] eqn:Ef; [done| |done]. by eapply Hok.
Qed.
End refinement.

(** ** Opening a database file *)

Section opening.
Context `{!Serialize ExecutionBinding, !Serialize (TaskId * TaskRecord),
          !Serialize TaskMessage, !Serialize TaskAttemptBinding,
          !Serialize TaskGraphWire, !Serialize StoredTaskGraph, !Deserialize StoredTaskGraph,
          !Codec StoredTaskGraph}.

Lemma keeps_note_columns cs i : keeps (note_columns i cs).
Proof. revert i. induction cs as [|c cs IH]; intros i; simpl; auto with harness. Qed.

Lemma keeps_validate_table : keeps validate_current_table.
Proof.
  unfold validate_current_table. repeat (apply keeps_bind; [auto using keeps_note_columns with harness|intros ?]).
  destruct (unsupported_row _); auto with harness.
Qed.

Lemma note_columns_ok cs i c c' i' :
  note_columns i cs c = (c', Ok i') → i' = foldl note_column i cs.
Proof.
  revert i c. induction cs as [|col cs IH]; simpl; intros i c H; inv_M; [done|]. by eapply IH.
Qed.
Lemma note_columns_healthy cs i c :
  healthy c → note_columns i cs c = (c, Ok (foldl note_column i cs)).
Proof.
  intros H. revert i. induction cs as [|col cs IH]; intros i; simpl; [done|].
  run_healthy H. apply IH.
Qed.

(** The table passes the check: its columns and the version of every row. *)
Definition table_current (db : Database) : bool :=
  let table := default ([], ∅) db in
  columns_current (foldl note_column no_columns table.1)
  && bool_decide (unsupported_row table.2 = None).

Lemma validate_table_ok c c' u :
  validate_current_table c = (c', Ok u) → table_current (rows c) = true.
Proof.
  unfold validate_current_table, table_current. intros H. inv_M.
  match goal with H : select _ _ = _ |- _ => apply select_rows in H as [_ Hdb] end.
  specialize (Hdb _ eq_refl). subst.
  repeat match goal with H : sql_call _ _ = _ |- _ => apply sql_call_rows in H end.
  match goal with H : note_columns _ _ _ = _ |- _ => apply note_columns_ok in H end. subst.
  rewrite <- H0. unfold reject_if in H3. destruct (columns_current _); [|done].
  destruct (unsupported_row _); [by inv_M|done].
Qed.

Lemma validate_table_healthy c :
  healthy c → is_ok (validate_current_table c).2 = table_current (rows c) ∧
    healthy (validate_current_table c).1.
Proof.
  intros H. unfold validate_current_table, table_current. run_healthy H.
  rewrite (note_columns_healthy _ _ _ H). unfold lift, reject_if.
  destruct (columns_current _); simpl; [|done]. rewrite (sql_call_healthy _ _ H).
  destruct (unsupported_row _); simpl; by rewrite ?bool_decide_eq_true, ?bool_decide_eq_false.
Qed.

Lemma table_current_rows db :
  table_current db = true →
  ∀ key row, default ∅ (snd <$> db) !! key = Some row →
    row_schema_version row = TASK_GRAPH_SCHEMA_VERSION.
Proof.
  unfold table_current, unsupported_row. intros H key row Hr. bool_hyps.
  apply fmap_None in H0. destruct db as [[cs t]|]; simpl in *; [|by rewrite lookup_empty in Hr].
  apply elem_of_map_to_list, list_elem_of_In in Hr.
  pose proof (find_none _ _ H0 _ Hr) as Hn. simpl in Hn. by bool_hyps.
Qed.

Lemma keeps_open_settings has_parent mode : keeps (open_settings has_parent mode).
Proof. unfold open_settings. auto with harness. Qed.

Lemma open_settings_wal has_parent mode c c' u :
  open_settings has_parent mode c = (c', Ok u) → eq_ignore_ascii_case mode (lit "wal") = true.
Proof. unfold open_settings. intros H. inv_M. by apply require_wal_ok in H. Qed.

Lemma open_settings_healthy has_parent mode c :
  healthy c → eq_ignore_ascii_case mode (lit "wal") = true →
  open_settings has_parent mode c = (c, Ok ()).
Proof.
  intros H Hw. unfold open_settings, mbind, M_bind.
  rewrite (open_file_healthy _ _ _ H). by apply require_wal_healthy.
Qed.

(** The table [CREATE TABLE IF NOT EXISTS] leaves. *)
Definition bootstrapped (db : Database) : Database :=
  Some (default (task_graphs_columns, ∅) db).

Lemma open_ok has_parent mode c c' s :
  sqlite_open has_parent mode c = (c', Ok s) →
  eq_ignore_ascii_case mode (lit "wal") = true ∧
  rows s = default ∅ (snd <$> rows c) ∧ rows c' = Some (default (task_graphs_columns, ∅) (rows c)) ∧
  table_current (rows c') = true.
Proof.
  unfold sqlite_open. intros H. inv_M. rename H0 into Hset, H2 into Hst, H3 into Hv.
  pose proof (open_settings_wal _ _ _ _ _ Hset) as Hw. apply keeps_open_settings in Hset.
  apply store_ok in Hst. pose proof (validate_table_ok _ _ _ Hv) as Hcur.
  apply keeps_validate_table in Hv. simpl. unfold Database in *. rewrite Hset in *.
  split_and!; [done|by destruct (rows c) as [[]|]|congruence|by rewrite Hv].
Qed.

Lemma open_rows has_parent mode c c' r :
  sqlite_open has_parent mode c = (c', r) → is_Some (rows c) → rows c' = rows c.
Proof.
  intros H [table Ht]. destruct r as [s|e].
  - apply open_ok in H as (_ & _ & -> & _). unfold Database in *. by rewrite Ht.
  - unfold sqlite_open in H. inv_M_err.
    + by apply keeps_open_settings in H.
    + apply keeps_open_settings in H0. apply store_err in H. exact (eq_trans H H0).
    + apply keeps_open_settings in H0. apply store_ok in H2. apply keeps_validate_table in H.
      refine (eq_trans H (eq_trans H2 _)). change (bootstrapped (rows s) = rows c).
      rewrite H0. unfold bootstrapped. by rewrite Ht.
Qed.

Lemma validate_existing_healthy c :
  healthy c → is_ok (validate_existing c).2 = match rows c with Some _ => table_current (rows c) | None => true end.
Proof.
  intros H. unfold validate_existing, open_read_only. run_healthy H.
  destruct (rows c) as [table|] eqn:E; [|done]. rewrite <- E. by apply validate_table_healthy.
Qed.

Lemma open_healthy has_parent mode c c' r :
  sqlite_open has_parent mode c = (c', r) → healthy c →
  eq_ignore_ascii_case mode (lit "wal") = true →
  is_ok r = table_current (Some (default (task_graphs_columns, ∅) (rows c))).
Proof.
  intros E H Hw. unfold sqlite_open, mbind, M_bind in E.
  rewrite (open_settings_healthy _ _ _ H Hw) in E. unfold get at 1 in E.
  rewrite (store_healthy _ _ _ H) in E.
  destruct (validate_table_healthy
    {| rows := Some (default (task_graphs_columns, ∅) (rows c)); faults := [] |} eq_refl) as [Hv _].
  simpl rows in Hv. rewrite <- Hv.
  destruct (validate_current_table _) as [c1 [u|e]]; by injection E as <- <-.
Qed.

(** Opening: whatever the file system or SQLite refuses, an existing
    table is left as it is; a coordinator is only returned in WAL mode, over
    exactly the rows of the file, all of the current schema version; without
    failures a file opens exactly when [validate_existing] accepts it, and a
    new one opens into an empty coordinator that satisfies the store
    invariant. *)
Theorem sqlite_open_exact (has_parent : bool) (mode : str) (c : Connection Database) :
  let '(c', r) := sqlite_open has_parent mode c in
  (∀ table, rows c = Some table → rows c' = rows c) ∧
  (∀ s, r = Ok s →
     eq_ignore_ascii_case mode (lit "wal") = true ∧
     rows s = default ∅ (snd <$> rows c) ∧ rows c' = Some (default (task_graphs_columns, ∅) (rows c)) ∧
     ∀ key row, rows s !! key = Some row → row_schema_version row = TASK_GRAPH_SCHEMA_VERSION) ∧
  (healthy c → eq_ignore_ascii_case mode (lit "wal") = true →
     is_ok r = is_ok (validate_existing c).2 ∧
     (rows c = None → ∃ s, r = Ok s ∧ coord_inv s ∧ coord_view s = ∅)).
Proof.
  destruct (sqlite_open has_parent mode c) as [c' r] eqn:E. split_and!.
  - intros table Ht. apply (open_rows _ _ _ _ _ E). by exists table.
  - intros s ->. destruct (open_ok _ _ _ _ _ E) as (Hw & Hs & Hc & Hcur).
    split_and!; [done|done|done|]. intros key row Hr. apply (table_current_rows _ Hcur key).
    rewrite Hc. rewrite Hs in Hr. unfold Database in *. by destruct (rows c) as [[]|].
  - intros Hh Hw. rewrite (validate_existing_healthy c Hh), (open_healthy _ _ _ _ _ E Hh Hw).
    split; [by unfold Database in *; destruct (rows c)|]. intros Hn.
    pose proof (open_healthy _ _ _ _ _ E Hh Hw) as Hok. rewrite Hn in Hok.
    destruct r as [s|e]; [|by vm_compute in Hok]. exists s. split; [done|].
    destruct (open_ok _ _ _ _ _ E) as (_ & Hs & _). rewrite Hn in Hs. simpl in Hs.
    split; [|apply map_eq; intros k; simpl; rewrite sql_view_lookup, Hs, !lookup_empty; done].
    simpl. unfold sql_inv. rewrite Hs. apply map_Forall_empty.
Qed.
End opening.

(** ** Witnesses: one coordinator, two workers, a codec for three graphs *)

#[local] Existing Instance demo_json.

Definition demo_documents : list StoredTaskGraph :=
  (λ g, {| st_tenant_id := None; st_graph := wire_of g |}) <$>
    [demo_new; demo_claimed; demo_completed].

(** Documents are written as their position in the list, and nothing else
    can be written. *)
Definition demo_encode : Serialize StoredTaskGraph := λ x,
  (λ p : nat * _, repeat 48%N p.1) <$> list_find (x =.) demo_documents.
Definition demo_decode : Deserialize StoredTaskGraph := λ s, demo_documents !! length s.
#[local] Existing Instance demo_encode.
#[local] Existing Instance demo_decode.

#[local] Instance demo_codec : Codec StoredTaskGraph.
Proof.
  intros x s. unfold to_json, demo_encode, from_json, demo_decode. intros H.
  apply fmap_Some in H as ([i y] & (Hi & <- & _)%list_find_Some & ->). simpl.
  by rewrite repeat_length.
Qed.

Definition demo_id : TaskGraphId := lit "graph-1".

Definition demo_empty : SqliteStore := {| rows := ∅; faults := [] |}.
Definition demo_created : SqliteStore := (create demo_id demo_new demo_empty).1.
Definition demo_snapshot : TaskGraphSnapshot := first_snapshot demo_id local_process demo_new.
Definition demo_held : Held := {| held_base := demo_snapshot; held_graph := demo_claimed |}.
Definition demo_swapped : SqliteStore := (compare_and_swap (held_snapshot demo_held) demo_created).1.

Lemma demo_new_ok : TaskGraph_new demo_definitions = Ok demo_new.
Proof. vm_compute. reflexivity. Qed.

Lemma demo_new_claimed : task_step demo_new demo_claimed.
Proof.
  eapply (step_claim demo_new (demo_lease_ids "lease-") (lit "worker-1") 10 100 8 None ∅).
  vm_compute. reflexivity.
Qed.

Lemma demo_create_call :
  create_as demo_id demo_new local_process demo_empty = (demo_created, Ok demo_snapshot).
Proof. vm_compute. reflexivity. Qed.

Lemma demo_swap_call :
  compare_and_swap_as (held_snapshot demo_held) local_process demo_created
  = (demo_swapped, Ok (next_snapshot (held_snapshot demo_held))).
Proof. vm_compute. reflexivity. Qed.

Lemma demo_empty_inv : coord_inv demo_empty.
Proof. apply map_Forall_empty. Qed.

Lemma demo_created_inv : coord_inv demo_created.
Proof. exact (proj1 (create_law _ _ _ _ _ _ demo_empty_inv demo_create_call)). Qed.

Lemma demo_execution : execution (demo_created, [demo_held]).
Proof.
  exists (demo_empty, []). split; [split; [exact demo_empty_inv|]; split; [|done]|].
  { apply map_eq. intros k. unfold coord_view. simpl. by rewrite sql_view_lookup, !lookup_empty. }
  eapply rtc_l; [eapply client_create; [exact demo_new_ok|exact demo_create_call]|].
  apply rtc_once. refine (client_mutate _ [hold demo_snapshot] 0 (hold demo_snapshot) demo_claimed _ _);
    [reflexivity|exact demo_new_claimed].
Qed.

Lemma coordinator_linearizable_witness :
  evolves demo_created demo_swapped ∧
  (∀ key sn, coord_view demo_swapped !! key = Some sn → reachable (sn_graph sn)).
Proof.
  destruct (coordinator_linearizable demo_created demo_swapped [demo_held]
    ([demo_held] ++ handed (Ok (next_snapshot (held_snapshot demo_held))))) as [H1 H2].
  - exact demo_execution.
  - refine (client_swap local_process _ _ _ _ 0 demo_held _ _); [reflexivity|exact demo_swap_call].
  - split; [exact H1|]. intros key sn H. exact (proj1 (H2 key sn H)).
Defined.

(** The slower worker's swap from the first revision is refused. *)
Lemma coordinator_no_lost_update_witness :
  ∃ s3 e, compare_and_swap_as demo_snapshot local_process demo_swapped = (s3, Err e) ∧
    coord_view s3 = coord_view demo_swapped.
Proof.
  destruct (compare_and_swap_as demo_snapshot local_process demo_swapped) as [s3 r] eqn:E.
  destruct (coordinator_no_lost_update demo_created demo_swapped demo_swapped s3 [demo_held]
    ([demo_held] ++ [hold (next_snapshot (held_snapshot demo_held))]) 0 demo_held
    local_process local_process (next_snapshot (held_snapshot demo_held)) demo_snapshot r)
    as [[e ->] Hv].
  - exact demo_execution.
  - reflexivity.
  - exact demo_swap_call.
  - apply rtc_refl.
  - reflexivity.
  - reflexivity.
  - exact E.
  - exists s3, e. split; [reflexivity|exact Hv].
Defined.

Definition demo_tenant : AuthorityContext :=
  {| actor := LocalProcess; tenant_id := Some (lit "acme") |}.

Lemma coordinator_tenant_isolation_witness :
  ∃ sn, coord_view demo_created !! key_of demo_snapshot = Some sn ∧
    ∀ s', (∃ id r, load_as id demo_tenant demo_created = (s', r)) →
      coord_view s' !! key_of demo_snapshot = Some sn.
Proof.
  exists demo_snapshot.
  assert (coord_view demo_created !! key_of demo_snapshot = Some demo_snapshot) as Hv.
  { rewrite (proj2 (proj2 (proj2 (proj2 (create_law _ _ _ _ _ _ demo_empty_inv demo_create_call))))).
    apply lookup_insert_eq. }
  split; [exact Hv|]. intros s' H.
  destruct (coordinator_tenant_isolation demo_created demo_tenant demo_created_inv) as [_ H2].
  apply (H2 s'); [right; left; exact H|exact Hv|discriminate].
Defined.

Lemma sqlite_refines_memory_witness :
  refines (compare_and_swap_as (held_snapshot demo_held) local_process demo_created)
          (compare_and_swap_as (held_snapshot demo_held) local_process (coord_view demo_created)).
Proof.
  destruct (sqlite_refines_memory demo_created local_process demo_created_inv) as (_ & _ & H);
    [vm_compute; reflexivity|].
  refine (proj2 (H (held_snapshot demo_held)) _). split; vm_compute; reflexivity.
Defined.

Lemma sqlite_read_your_writes_witness :
  ∃ s'', load_as demo_id local_process demo_swapped
         = (s'', Ok (Some (next_snapshot (held_snapshot demo_held)))).
Proof.
  apply (sqlite_read_your_writes demo_created demo_swapped local_process (held_snapshot demo_held)).
  - exact demo_created_inv.
  - left. exact demo_swap_call.
  - vm_compute. discriminate.
Defined.

Lemma sqlite_open_exact_witness :
  ∃ s, (sqlite_open true (lit "WAL") {| rows := None; faults := [] |}).2 = Ok s ∧
    coord_inv s ∧ coord_view s = ∅.
Proof.
  pose proof (sqlite_open_exact true (lit "WAL") {| rows := None; faults := [] |}) as H.
  destruct (sqlite_open true (lit "WAL") {| rows := None; faults := [] |}) as [db' r].
  exact (proj2 (proj2 (proj2 H) eq_refl eq_refl) eq_refl).
Defined.
