(* ===== verification/Workflow.v ===== *)
(** The durable Workflow Run, from src/src/workflow/mod.rs: definitions, waits,
    commands, immutable transitions, the validator that replays them, and
    [new] and [apply].

    Libraries the sources call are parameters: the JSON codec ([Serialize]),
    SHA-256 ([Sha256] of Digest.v) and the order of semantic versions ([SemverOrder]; a
    version is represented by its text). *)

From Stdlib Require Import ZArith Lia.
From stdpp Require Import sorting base tactics list gmap relations numbers strings option.
From stdpp Require Import list.
From S2P Require Import Prelude Kernel Digest.

(** [semver::Version]'s [<=]. *)
Class SemverOrder := version_le : str → str → bool.

(** * Constants *)

Definition MAX_WORKFLOW_WORK_TRANSITIONS : Z := 4096.
Definition WORKFLOW_SETTLEMENT_TRANSITION_RESERVE : Z := 2.
Definition MAX_WORKFLOW_TRANSITIONS : Z :=
  MAX_WORKFLOW_WORK_TRANSITIONS + WORKFLOW_SETTLEMENT_TRANSITION_RESERVE.
Definition MAX_WORKFLOW_WORK_JSON_BYTES : Z := 16777216.
Definition MAX_WORKFLOW_COMMAND_JSON_BYTES : Z := 131072.
Definition MAX_WORKFLOW_TEXT_BYTES : Z := 65536.
Definition MAX_WORKFLOW_IDEMPOTENCY_BYTES : Z := 256.
Definition WORKFLOW_SETTLEMENT_JSON_BYTE_RESERVE : Z :=
  MAX_WORKFLOW_COMMAND_JSON_BYTES * 2 + 16384.
Definition MAX_WORKFLOW_JSON_BYTES : Z :=
  MAX_WORKFLOW_WORK_JSON_BYTES + WORKFLOW_SETTLEMENT_JSON_BYTE_RESERVE.

(** * Data *)

Abbreviation WorkflowCommandId := str (only parsing).
Abbreviation WorkflowWaitId := str (only parsing).
Abbreviation WorkflowSignalId := str (only parsing).
Abbreviation WorkflowRunId := str (only parsing).

Inductive WorkflowCapacityClass := Work | Settlement.

Record WorkflowDefinition := {
  wd_name : str;
  wd_version : str;
  wd_content_sha256 : str;
}.

Record WorkflowCreateRequest := {
  cr_command_id : WorkflowCommandId;
  cr_definition : WorkflowDefinition;
  cr_task_graph_id : str;
}.

Inductive WorkflowWait :=
| WaitSignal (id : WorkflowWaitId) (name source : str) (expires_at_ms : option Z)
| WaitTimer (id : WorkflowWaitId) (due_at_ms : Z)
| WaitRetry (id : WorkflowWaitId) (activity : str) (attempt due_at_ms : Z)
    (idempotency_key : str).

Definition wait_id (w : WorkflowWait) : WorkflowWaitId :=
  match w with WaitSignal id _ _ _ | WaitTimer id _ | WaitRetry id _ _ _ _ => id end.

Inductive WorkflowStatus :=
| WfRunning
| WfWaiting (wait : WorkflowWait)
| WfCompleted (summary : str)
| WfFailed (reason : str)
| WfCancelled (reason : str).

(** [WorkflowStatus::is_terminal]. *)
Definition wf_terminal (s : WorkflowStatus) : bool :=
  match s with WfCompleted _ | WfFailed _ | WfCancelled _ => true | _ => false end.

Inductive WorkflowCommandKind :=
| WaitForSignal (wait_id : WorkflowWaitId) (name source : str) (expires_at_ms : option Z)
| WaitUntil (wait_id : WorkflowWaitId) (due_at_ms : Z)
| ScheduleRetry (wait_id : WorkflowWaitId) (activity : str) (attempt due_at_ms : Z)
    (idempotency_key : str)
| DeliverSignal (wait_id : WorkflowWaitId) (signal_id : WorkflowSignalId) (name source : str)
    (idempotency_key : str)
| WakeDue (wait_id : WorkflowWaitId)
| MigrateDefinition (definition : WorkflowDefinition)
| CmdComplete (summary : str)
| CmdFail (reason : str)
| CmdCancel (reason : str).

Record WorkflowCommand := {
  cmd_id : WorkflowCommandId;
  cmd_kind : WorkflowCommandKind;
}.

Definition command_capacity_class (k : WorkflowCommandKind) : WorkflowCapacityClass :=
  match k with
  | DeliverSignal _ _ _ _ _ | WakeDue _ | CmdComplete _ | CmdFail _ | CmdCancel _ => Settlement
  | WaitForSignal _ _ _ _ | WaitUntil _ _ | ScheduleRetry _ _ _ _ _ | MigrateDefinition _ => Work
  end.

Inductive WorkflowWakeReason := SignalTimeout | TimerDue | RetryDue.

Inductive WorkflowTransitionKind :=
| Created (definition : WorkflowDefinition) (task_graph_id : str)
| WaitStarted (wait : WorkflowWait)
| SignalDelivered (wait_id : WorkflowWaitId) (signal_id : WorkflowSignalId) (name source : str)
    (idempotency_key : str)
| WaitDue (wait_id : WorkflowWaitId) (reason : WorkflowWakeReason)
| DefinitionMigrated (from to : WorkflowDefinition)
| TrCompleted (summary : str)
| TrFailed (reason : str)
| TrCancelled (reason : str).

Definition transition_capacity_class (k : WorkflowTransitionKind) : WorkflowCapacityClass :=
  match k with
  | SignalDelivered _ _ _ _ _ | WaitDue _ _ | TrCompleted _ | TrFailed _ | TrCancelled _ =>
      Settlement
  | Created _ _ | WaitStarted _ | DefinitionMigrated _ _ => Work
  end.

Record WorkflowTransition := {
  wt_sequence : Z;
  wt_command_id : WorkflowCommandId;
  wt_command_sha256 : str;
  wt_applied_at_ms : Z;
  wt_actor : ActorIdentity;
  wt_kind : WorkflowTransitionKind;
}.

Inductive WorkflowApplyOutcome := Applied | Duplicate.

Record WorkflowRun := {
  wr_definition : WorkflowDefinition;
  wr_task_graph_id : str;
  wr_status : WorkflowStatus;
  wr_transitions : list WorkflowTransition;
  wr_charge : Z;
}.

(** What serde writes and reads of a Run: the charge is skipped. *)
Record WorkflowRunWire := {
  rw_definition : WorkflowDefinition;
  rw_task_graph_id : str;
  rw_status : WorkflowStatus;
  rw_transitions : list WorkflowTransition;
}.

Definition run_wire (r : WorkflowRun) : WorkflowRunWire :=
  {| rw_definition := wr_definition r; rw_task_graph_id := wr_task_graph_id r;
     rw_status := wr_status r; rw_transitions := wr_transitions r |}.

#[global] Instance WorkflowCapacityClass_eq : EqDecision WorkflowCapacityClass.
Proof. solve_decision. Defined.
#[global] Instance WorkflowDefinition_eq : EqDecision WorkflowDefinition.
Proof. solve_decision. Defined.
#[global] Instance WorkflowWait_eq : EqDecision WorkflowWait.
Proof. solve_decision. Defined.
#[global] Instance WorkflowStatus_eq : EqDecision WorkflowStatus.
Proof. solve_decision. Defined.
#[global] Instance WorkflowWakeReason_eq : EqDecision WorkflowWakeReason.
Proof. solve_decision. Defined.
#[global] Instance WorkflowTransitionKind_eq : EqDecision WorkflowTransitionKind.
Proof. solve_decision. Defined.
#[global] Instance WorkflowTransition_eq : EqDecision WorkflowTransition.
Proof. solve_decision. Defined.
#[global] Instance WorkflowRunWire_eq : EqDecision WorkflowRunWire.
Proof. solve_decision. Defined.

(** * Validators *)

Definition wf (t : string) (a : list arg) : HarnessError := Prelude.Workflow (fmt t a).

Definition validate_identity (kind : string) (value : str) : result () :=
  reject_if (trim_is_empty value || (MAX_WORKFLOW_IDEMPOTENCY_BYTES <? str_len value)%Z
             || any_control value)
    (wf "{} identity must be 1-{} non-control bytes"
      [ALit kind; ANum MAX_WORKFLOW_IDEMPOTENCY_BYTES]).

Definition validate_idempotency_key (kind : string) (value : str) : result () :=
  reject_if (trim_is_empty value || (MAX_WORKFLOW_IDEMPOTENCY_BYTES <? str_len value)%Z
             || any_control value)
    (wf "{} idempotency key must be 1-{} non-control bytes"
      [ALit kind; ANum MAX_WORKFLOW_IDEMPOTENCY_BYTES]).

(** Control characters other than line feed, carriage return and tab. *)
Definition is_text_control (c : N) : bool :=
  is_control c && negb ((c =? 10)%N || (c =? 13)%N || (c =? 9)%N).

Definition validate_text (kind : string) (value : str) : result () :=
  reject_if (trim_is_empty value || (MAX_WORKFLOW_TEXT_BYTES <? str_len value)%Z
             || existsb is_text_control value)
    (wf "{} must be 1-{} bounded text bytes" [ALit kind; ANum MAX_WORKFLOW_TEXT_BYTES]).

Definition validate_digest (kind : string) (value : str) : result () :=
  reject_if (negb (is_lower_sha256 value)) (wf "{} digest must be lowercase SHA-256" [ALit kind]).

Definition validate_application_time (value : Z) : result () :=
  reject_if (value =? 0)%Z (wf "Workflow application time must be positive" []).

Definition validate_definition (d : WorkflowDefinition) : result () :=
  _ ← validate_capability_name "Workflow definition" (wd_name d);
  validate_digest "Workflow definition" (wd_content_sha256 d).

Definition validate_wait (w : WorkflowWait) : result () :=
  _ ← validate_identity "Workflow wait" (wait_id w);
  match w with
  | WaitSignal _ name source expires_at_ms =>
      _ ← validate_capability_name "Workflow signal" name;
      _ ← validate_capability_name "Workflow signal source" source;
      reject_if (bool_decide (expires_at_ms = Some 0%Z))
        (wf "Workflow signal expiration must be positive" [])
  | WaitTimer _ due_at_ms =>
      reject_if (due_at_ms =? 0)%Z (wf "Workflow timer due time must be positive" [])
  | WaitRetry _ activity attempt due_at_ms idempotency_key =>
      _ ← validate_capability_name "Workflow retry activity" activity;
      _ ← validate_idempotency_key "Workflow retry" idempotency_key;
      reject_if ((attempt =? 0)%Z || (due_at_ms =? 0)%Z)
        (wf "Workflow retry attempt and due time must be positive" [])
  end.

Definition validate_create_request (r : WorkflowCreateRequest) : result () :=
  _ ← validate_identity "Workflow command" (cr_command_id r);
  _ ← validate_definition (cr_definition r);
  validate_identity "Workflow Task Graph" (cr_task_graph_id r).

Definition validate_transition_capacity (current_transitions : Z)
    (class : WorkflowCapacityClass) : result () :=
  _ ← reject_if (MAX_WORKFLOW_TRANSITIONS <=? current_transitions)%Z
        (wf "Workflow Run exceeds {} transitions" [ANum MAX_WORKFLOW_TRANSITIONS]);
  reject_if (bool_decide (class = Work) && (MAX_WORKFLOW_WORK_TRANSITIONS <=? current_transitions)%Z)
    (wf "Workflow Run has only its settlement transition reserve remaining" []).

Definition validate_materialization_capacity (encoded_bytes : Z)
    (class : WorkflowCapacityClass) : result () :=
  _ ← reject_if (MAX_WORKFLOW_JSON_BYTES <? encoded_bytes)%Z
        (wf "Workflow Run exceeds {} encoded bytes" [ANum MAX_WORKFLOW_JSON_BYTES]);
  reject_if (bool_decide (class = Work) && (MAX_WORKFLOW_WORK_JSON_BYTES <? encoded_bytes)%Z)
    (wf "Workflow Run has only its settlement encoded-byte reserve remaining" []).

Definition due_reason (w : WorkflowWait) (applied_at_ms : Z) : result WorkflowWakeReason :=
  let not_due := Err (wf "Workflow wait is not due" []) in
  match w with
  | WaitSignal _ _ _ (Some expires) =>
      if (expires <=? applied_at_ms)%Z then Ok SignalTimeout else not_due
  | WaitSignal _ _ _ None => Err (wf "signal wait has no due boundary" [])
  | WaitTimer _ due => if (due <=? applied_at_ms)%Z then Ok TimerDue else not_due
  | WaitRetry _ _ _ due _ => if (due <=? applied_at_ms)%Z then Ok RetryDue else not_due
  end.

(** The [match] of the [WakeDue] branch of [apply_kind], which the code writes
    out again. *)
Definition wake_reason (w : WorkflowWait) (applied_at_ms : Z) : result WorkflowWakeReason :=
  let not_due := Err (wf "Workflow wait is not due" []) in
  match w with
  | WaitSignal _ _ _ (Some expires) =>
      if (expires <=? applied_at_ms)%Z then Ok SignalTimeout else not_due
  | WaitTimer _ due => if (due <=? applied_at_ms)%Z then Ok TimerDue else not_due
  | WaitRetry _ _ _ due _ => if (due <=? applied_at_ms)%Z then Ok RetryDue else not_due
  | WaitSignal _ _ _ None => Err (wf "signal wait has no due boundary" [])
  end.

(** The start of a wait and the definition change, as the committed command. *)
Definition wait_command (w : WorkflowWait) : WorkflowCommandKind :=
  match w with
  | WaitSignal id name source expires => WaitForSignal id name source expires
  | WaitTimer id due => WaitUntil id due
  | WaitRetry id activity attempt due key => ScheduleRetry id activity attempt due key
  end.

Section workflow.
Context `{!Serialize WorkflowCreateRequest, !Serialize WorkflowCommand,
          !Serialize WorkflowRunWire, sha : !Sha256, semver : !SemverOrder}.

Definition command_digest {T} `{Serialize T} (value : T) : result str :=
  encoded ← ok_or (to_json value) (wf "cannot encode Workflow command" []);
  _ ← reject_if (MAX_WORKFLOW_COMMAND_JSON_BYTES <? str_len encoded)%Z
        (wf "Workflow command exceeds {} encoded bytes" [ANum MAX_WORKFLOW_COMMAND_JSON_BYTES]);
  Ok (lower_sha256 encoded).

Definition validate_command (c : WorkflowCommand) : result () :=
  _ ← validate_identity "Workflow command" (cmd_id c);
  _ ← command_digest c;
  Ok ().

Definition transition_digest (t : WorkflowTransition) : result str :=
  let digest kind := command_digest {| cmd_id := wt_command_id t; cmd_kind := kind |} in
  match wt_kind t with
  | Created definition task_graph_id =>
      command_digest {| cr_command_id := wt_command_id t; cr_definition := definition;
                        cr_task_graph_id := task_graph_id |}
  | WaitStarted wait => digest (wait_command wait)
  | SignalDelivered wait_id signal_id name source key =>
      digest (DeliverSignal wait_id signal_id name source key)
  | WaitDue wait_id _ => digest (WakeDue wait_id)
  | DefinitionMigrated _ to => digest (MigrateDefinition to)
  | TrCompleted summary => digest (CmdComplete summary)
  | TrFailed reason => digest (CmdFail reason)
  | TrCancelled reason => digest (CmdCancel reason)
  end.

Definition encoded_size_for (r : WorkflowRun) (class : WorkflowCapacityClass) : result Z :=
  encoded ← ok_or (to_json (run_wire r)) (wf "cannot encode Workflow Run" []);
  _ ← validate_materialization_capacity (str_len encoded) class;
  Ok (str_len encoded).

Definition encoded_size (r : WorkflowRun) : result Z := encoded_size_for r Settlement.

(** ** Replay *)

(** The variables of the loop of [validate]. *)
Record Replay := {
  rp_expected_sequence : Z;
  rp_command_ids : gmap str str;
  rp_wait_ids : gset str;
  rp_signal_ids : gset str;
  rp_definition : option WorkflowDefinition;
  rp_status : option WorkflowStatus;
  rp_task_graph : option str;
  rp_previous_applied_at_ms : Z;
}.

Definition replay_start : Replay :=
  {| rp_expected_sequence := 1; rp_command_ids := ∅; rp_wait_ids := ∅; rp_signal_ids := ∅;
     rp_definition := None; rp_status := None; rp_task_graph := None;
     rp_previous_applied_at_ms := 0 |}.

(** The projection variables a transition kind reads and writes. *)
Record Projection := {
  pj_wait_ids : gset str;
  pj_signal_ids : gset str;
  pj_definition : option WorkflowDefinition;
  pj_status : option WorkflowStatus;
  pj_task_graph : option str;
}.

Definition with_status (p : Projection) (s : WorkflowStatus) : Projection :=
  {| pj_wait_ids := pj_wait_ids p; pj_signal_ids := pj_signal_ids p;
     pj_definition := pj_definition p; pj_status := Some s;
     pj_task_graph := pj_task_graph p |}.

(** [matches!(projected_status, Some(WorkflowStatus::Running))]. *)
Definition status_running (s : option WorkflowStatus) : bool :=
  match s with Some WfRunning => true | _ => false end.
Definition status_waiting (s : option WorkflowStatus) : bool :=
  match s with Some (WfWaiting _) => true | _ => false end.
(** [projected_status.is_none_or(WorkflowStatus::is_terminal)]. *)
Definition status_settled (s : option WorkflowStatus) : bool :=
  match s with Some s => wf_terminal s | None => true end.

(** The [match] on the transition kind. *)
Definition replay_kind (t : WorkflowTransition) (p : Projection) : result Projection :=
  match wt_kind t with
  | Created definition task_graph_id =>
      if (wt_sequence t =? 1)%Z then
        _ ← validate_definition definition;
        _ ← validate_identity "Workflow Task Graph" task_graph_id;
        Ok {| pj_wait_ids := pj_wait_ids p; pj_signal_ids := pj_signal_ids p;
              pj_definition := Some definition; pj_status := Some WfRunning;
              pj_task_graph := Some task_graph_id |}
      else Err (wf "Workflow creation must be the first transition" [])
  | WaitStarted wait =>
      _ ← reject_if (negb (status_running (pj_status p)))
            (wf "Workflow wait does not follow running state" []);
      _ ← validate_wait wait;
      _ ← reject_if (bool_decide (wait_id wait ∈ pj_wait_ids p))
            (wf "Workflow contains duplicate wait identities" []);
      Ok {| pj_wait_ids := {[wait_id wait]} ∪ pj_wait_ids p;
            pj_signal_ids := pj_signal_ids p; pj_definition := pj_definition p;
            pj_status := Some (WfWaiting wait); pj_task_graph := pj_task_graph p |}
  | SignalDelivered wid signal_id name source key =>
      _ ← validate_identity "Workflow signal" signal_id;
      _ ← validate_capability_name "Workflow signal" name;
      _ ← validate_capability_name "Workflow signal source" source;
      _ ← validate_idempotency_key "Workflow signal" key;
      _ ← reject_if (bool_decide (signal_id ∈ pj_signal_ids p))
            (wf "Workflow contains duplicate signal identities" []);
      match pj_status p with
      | Some (WfWaiting (WaitSignal id expected_name expected_source expires)) =>
          _ ← reject_if (bool_decide (id ≠ wid) || bool_decide (expected_name ≠ name)
                         || bool_decide (expected_source ≠ source))
                (wf "Workflow signal transition differs from its wait" []);
          _ ← reject_if (match expires with
                         | Some e => (e <=? wt_applied_at_ms t)%Z | None => false end)
                (wf "Workflow signal transition crossed its timeout" []);
          Ok {| pj_wait_ids := pj_wait_ids p; pj_signal_ids := {[signal_id]} ∪ pj_signal_ids p;
                pj_definition := pj_definition p; pj_status := Some WfRunning;
                pj_task_graph := pj_task_graph p |}
      | _ => Err (wf "Workflow signal does not follow a signal wait" [])
      end
  | WaitDue wid reason =>
      match pj_status p with
      | Some (WfWaiting wait) =>
          let differs := Err (wf "Workflow due transition differs from its wait" []) in
          if bool_decide (wait_id wait ≠ wid) then differs
          else
            actual ← due_reason wait (wt_applied_at_ms t);
            if bool_decide (actual ≠ reason) then differs else Ok (with_status p WfRunning)
      | _ => Err (wf "Workflow due transition does not follow a wait" [])
      end
  | DefinitionMigrated from to =>
      _ ← reject_if (negb (status_waiting (pj_status p))
                     || bool_decide (pj_definition p ≠ Some from))
            (wf "Workflow definition migration has no matching safe boundary" []);
      _ ← validate_definition to;
      _ ← reject_if (bool_decide (wd_name to ≠ wd_name from)
                     || version_le (wd_version to) (wd_version from)
                     || bool_decide (wd_content_sha256 to = wd_content_sha256 from))
            (wf "Workflow definition migration is not monotonic" []);
      Ok {| pj_wait_ids := pj_wait_ids p; pj_signal_ids := pj_signal_ids p;
            pj_definition := Some to; pj_status := pj_status p;
            pj_task_graph := pj_task_graph p |}
  | TrCompleted summary =>
      _ ← reject_if (negb (status_running (pj_status p)))
            (wf "Workflow completion does not follow running state" []);
      _ ← validate_text "Workflow completion summary" summary;
      Ok (with_status p (WfCompleted summary))
  | TrFailed reason =>
      _ ← reject_if (status_settled (pj_status p))
            (wf "Workflow failure does not follow nonterminal state" []);
      _ ← validate_text "Workflow failure reason" reason;
      Ok (with_status p (WfFailed reason))
  | TrCancelled reason =>
      _ ← reject_if (status_settled (pj_status p))
            (wf "Workflow cancellation does not follow nonterminal state" []);
      _ ← validate_text "Workflow cancellation reason" reason;
      Ok (with_status p (WfCancelled reason))
  end.

Definition replay_projection (rp : Replay) : Projection :=
  {| pj_wait_ids := rp_wait_ids rp; pj_signal_ids := rp_signal_ids rp;
     pj_definition := rp_definition rp; pj_status := rp_status rp;
     pj_task_graph := rp_task_graph rp |}.

(** One iteration of the loop of [validate]. *)
Definition replay_step (rp : Replay) (t : WorkflowTransition) : result Replay :=
  _ ← reject_if (negb (wt_sequence t =? rp_expected_sequence rp)%Z)
        (wf "Workflow transition sequence is not contiguous" []);
  expected ← ok_or (checked_add u64_max (rp_expected_sequence rp) 1)
               (wf "Workflow sequence overflow" []);
  _ ← validate_identity "Workflow command" (wt_command_id t);
  _ ← validate_digest "Workflow command" (wt_command_sha256 t);
  _ ← validate_application_time (wt_applied_at_ms t);
  _ ← reject_if (wt_applied_at_ms t <? rp_previous_applied_at_ms rp)%Z
        (wf "Workflow transition time is not monotonic" []);
  _ ← map_err (λ e, Prelude.Workflow (error_text e))
        (actor_validate_shape (wt_actor t) "Workflow transition actor");
  digest ← transition_digest t;
  _ ← reject_if (bool_decide (wt_command_sha256 t ≠ digest))
        (wf "Workflow transition command digest differs from its content" []);
  _ ← reject_if ((MAX_WORKFLOW_WORK_TRANSITIONS <? wt_sequence t)%Z
                 && bool_decide (transition_capacity_class (wt_kind t) = Work))
        (wf "Workflow work transition consumed the settlement reserve" []);
  _ ← reject_if (bool_decide (is_Some (rp_command_ids rp !! wt_command_id t)))
        (wf "Workflow contains duplicate command identities" []);
  p ← replay_kind t (replay_projection rp);
  Ok {| rp_expected_sequence := expected;
        rp_command_ids := <[wt_command_id t := wt_command_sha256 t]> (rp_command_ids rp);
        rp_wait_ids := pj_wait_ids p; rp_signal_ids := pj_signal_ids p;
        rp_definition := pj_definition p; rp_status := pj_status p;
        rp_task_graph := pj_task_graph p;
        rp_previous_applied_at_ms := wt_applied_at_ms t |}.

(** [WorkflowRun::validate]. *)
Definition validate (r : WorkflowRun) : result () :=
  _ ← validate_definition (wr_definition r);
  _ ← validate_identity "Workflow Task Graph" (wr_task_graph_id r);
  _ ← reject_if (bool_decide (wr_transitions r = [])
                 || (MAX_WORKFLOW_TRANSITIONS <? len (wr_transitions r))%Z)
        (wf "Workflow Run must retain 1-{} transitions" [ANum MAX_WORKFLOW_TRANSITIONS]);
  rp ← fold_m replay_step replay_start (wr_transitions r);
  reject_if (bool_decide (rp_definition rp ≠ Some (wr_definition r))
             || bool_decide (rp_task_graph rp ≠ Some (wr_task_graph_id r))
             || bool_decide (rp_status rp ≠ Some (wr_status r)))
    (wf "Workflow projection differs from immutable transitions" []).

(** [Deserialize for WorkflowRun]. *)
Definition run_deserialize (w : WorkflowRunWire) : option WorkflowRun :=
  let run charge :=
    {| wr_definition := rw_definition w; wr_task_graph_id := rw_task_graph_id w;
       wr_status := rw_status w; wr_transitions := rw_transitions w; wr_charge := charge |} in
  match (_ ← validate (run 0%Z); encoded_size (run 0%Z)) with
  | Ok charge => Some (run charge)
  | Err _ => None
  end.

(** ** Construction and commands *)

Definition with_charge (r : WorkflowRun) (charge : Z) : WorkflowRun :=
  {| wr_definition := wr_definition r; wr_task_graph_id := wr_task_graph_id r;
     wr_status := wr_status r; wr_transitions := wr_transitions r; wr_charge := charge |}.

(** [WorkflowRun::new]. *)
Definition WorkflowRun_new (request : WorkflowCreateRequest) (applied_at_ms : Z)
    (authority : AuthorityContext) : result WorkflowRun :=
  _ ← validate_create_request request;
  _ ← validate_application_time applied_at_ms;
  _ ← authority_validate_current authority "Workflow creation authority";
  digest ← command_digest request;
  let transition :=
    {| wt_sequence := 1; wt_command_id := cr_command_id request; wt_command_sha256 := digest;
       wt_applied_at_ms := applied_at_ms; wt_actor := actor authority;
       wt_kind := Created (cr_definition request) (cr_task_graph_id request) |} in
  let run :=
    {| wr_definition := cr_definition request; wr_task_graph_id := cr_task_graph_id request;
       wr_status := WfRunning; wr_transitions := [transition]; wr_charge := 0 |} in
  _ ← validate run;
  charge ← encoded_size run;
  Ok (with_charge run charge).

Definition create_matches (r : WorkflowRun) (request : WorkflowCreateRequest) : result bool :=
  digest ← command_digest request;
  Ok (match head (wr_transitions r) with
      | Some t => bool_decide (wt_command_id t = cr_command_id request)
                  && bool_decide (wt_command_sha256 t = digest)
      | None => false
      end).

Definition recognizes_command (r : WorkflowRun) (c : WorkflowCommand) : result bool :=
  _ ← validate_command c;
  digest ← command_digest c;
  match List.find (λ t, bool_decide (wt_command_id t = cmd_id c)) (wr_transitions r) with
  | None => Ok false
  | Some existing =>
      if bool_decide (wt_command_sha256 existing = digest) then Ok true
      else Err (wf "Workflow command {} was reused with different content" [AStr (cmd_id c)])
  end.

Definition require_running (r : WorkflowRun) (action : string) : result () :=
  match wr_status r with
  | WfRunning => Ok ()
  | _ => Err (wf "Workflow must be running to {}" [ALit action])
  end.

Definition require_nonterminal (r : WorkflowRun) (action : string) : result () :=
  if wf_terminal (wr_status r) then Err (wf "terminal Workflow cannot {}" [ALit action])
  else Ok ().

(** The transition started the wait [id]. *)
Definition starts_wait (id : WorkflowWaitId) (t : WorkflowTransition) : bool :=
  match wt_kind t with WaitStarted w => bool_decide (wait_id w = id) | _ => false end.
(** The transition delivered the signal [id]. *)
Definition delivers_signal (id : WorkflowSignalId) (t : WorkflowTransition) : bool :=
  match wt_kind t with SignalDelivered _ s _ _ _ => bool_decide (s = id) | _ => false end.

Definition ensure_new_wait_id (r : WorkflowRun) (id : WorkflowWaitId) : result () :=
  _ ← validate_identity "Workflow wait" id;
  reject_if (existsb (starts_wait id) (wr_transitions r))
    (wf "Workflow wait {} is already committed" [AStr id]).

Definition set_status (r : WorkflowRun) (s : WorkflowStatus) : WorkflowRun :=
  {| wr_definition := wr_definition r; wr_task_graph_id := wr_task_graph_id r;
     wr_status := s; wr_transitions := wr_transitions r; wr_charge := wr_charge r |}.

Definition start_wait (r : WorkflowRun) (w : WorkflowWait)
    : WorkflowRun * WorkflowTransitionKind :=
  (set_status r (WfWaiting w), WaitStarted w).

(** [WorkflowRun::apply_kind], on the copy [apply] makes: the mutated Run and
    the transition, or the error that discards the copy. *)
Definition apply_kind (r : WorkflowRun) (kind : WorkflowCommandKind) (applied_at_ms : Z)
    : result (WorkflowRun * WorkflowTransitionKind) :=
  match kind with
  | WaitForSignal wid name source expires =>
      _ ← require_running r "start a signal wait";
      _ ← reject_if (match expires with Some e => (e <=? applied_at_ms)%Z | None => false end)
            (wf "signal wait expiration must be later than application time" []);
      _ ← validate_capability_name "Workflow signal" name;
      _ ← validate_capability_name "Workflow signal source" source;
      _ ← ensure_new_wait_id r wid;
      Ok (start_wait r (WaitSignal wid name source expires))
  | WaitUntil wid due_at_ms =>
      _ ← require_running r "start a timer wait";
      _ ← reject_if (due_at_ms <=? applied_at_ms)%Z
            (wf "timer due time must be later than application time" []);
      _ ← ensure_new_wait_id r wid;
      Ok (start_wait r (WaitTimer wid due_at_ms))
  | ScheduleRetry wid activity attempt due_at_ms idempotency_key =>
      _ ← require_running r "schedule a retry";
      _ ← validate_capability_name "Workflow retry activity" activity;
      _ ← validate_idempotency_key "Workflow retry" idempotency_key;
      _ ← reject_if (attempt =? 0)%Z (wf "Workflow retry attempt must be positive" []);
      _ ← reject_if (due_at_ms <=? applied_at_ms)%Z
            (wf "Workflow retry due time must be later than application time" []);
      _ ← ensure_new_wait_id r wid;
      Ok (start_wait r (WaitRetry wid activity attempt due_at_ms idempotency_key))
  | DeliverSignal wid signal_id name source key =>
      _ ← validate_capability_name "Workflow signal" name;
      _ ← validate_capability_name "Workflow signal source" source;
      _ ← validate_idempotency_key "Workflow signal" key;
      _ ← validate_identity "Workflow signal" signal_id;
      _ ← reject_if (existsb (delivers_signal signal_id) (wr_transitions r))
            (wf "Workflow signal {} is already committed" [AStr signal_id]);
      match wr_status r with
      | WfWaiting (WaitSignal id expected_name expected_source expires) =>
          _ ← reject_if (bool_decide (id ≠ wid) || bool_decide (expected_name ≠ name)
                         || bool_decide (expected_source ≠ source))
                (wf "Workflow signal does not match the current wait" []);
          _ ← reject_if (match expires with Some e => (e <=? applied_at_ms)%Z | None => false end)
                (wf "Workflow signal arrived at or after the timeout boundary" []);
          Ok (set_status r WfRunning, SignalDelivered wid signal_id name source key)
      | _ => Err (wf "Workflow is not waiting for a signal" [])
      end
  | WakeDue wid =>
      match wr_status r with
      | WfWaiting wait =>
          _ ← reject_if (bool_decide (wait_id wait ≠ wid))
                (wf "Workflow wake does not match the current wait" []);
          reason ← wake_reason wait applied_at_ms;
          Ok (set_status r WfRunning, WaitDue wid reason)
      | _ => Err (wf "Workflow has no current wait to wake" [])
      end
  | MigrateDefinition definition =>
      _ ← reject_if (negb (status_waiting (Some (wr_status r))))
            (wf "Workflow definition migration requires a durable wait boundary" []);
      _ ← validate_definition definition;
      _ ← reject_if (bool_decide (wd_name definition ≠ wd_name (wr_definition r))
                     || version_le (wd_version definition) (wd_version (wr_definition r))
                     || bool_decide (wd_content_sha256 definition
                                     = wd_content_sha256 (wr_definition r)))
            (wf "Workflow migration requires the same name, a newer version, and a different digest"
              []);
      Ok ({| wr_definition := definition; wr_task_graph_id := wr_task_graph_id r;
             wr_status := wr_status r; wr_transitions := wr_transitions r;
             wr_charge := wr_charge r |},
          DefinitionMigrated (wr_definition r) definition)
  | CmdComplete summary =>
      _ ← require_running r "complete";
      _ ← validate_text "Workflow completion summary" summary;
      Ok (set_status r (WfCompleted summary), TrCompleted summary)
  | CmdFail reason =>
      _ ← require_nonterminal r "fail";
      _ ← validate_text "Workflow failure reason" reason;
      Ok (set_status r (WfFailed reason), TrFailed reason)
  | CmdCancel reason =>
      _ ← require_nonterminal r "cancel";
      _ ← validate_text "Workflow cancellation reason" reason;
      Ok (set_status r (WfCancelled reason), TrCancelled reason)
  end.

Definition push_transition (r : WorkflowRun) (t : WorkflowTransition) : WorkflowRun :=
  {| wr_definition := wr_definition r; wr_task_graph_id := wr_task_graph_id r;
     wr_status := wr_status r; wr_transitions := wr_transitions r ++ [t];
     wr_charge := wr_charge r |}.

(** [WorkflowRun::apply]. *)
Definition wf_apply (command : WorkflowCommand) (applied_at_ms : Z)
    (authority : AuthorityContext) : M WorkflowRun WorkflowApplyOutcome :=
  self ← get;
  recognized ← lift (recognizes_command self command);
  if (recognized : bool) then mret Duplicate else
  _ ← lift (validate_application_time applied_at_ms);
  _ ← lift (authority_validate_current authority "Workflow command authority");
  digest ← lift (command_digest command);
  let class := command_capacity_class (cmd_kind command) in
  _ ← lift (validate_transition_capacity (len (wr_transitions self)) class);
  _ ← lift (reject_if (match vec_last (wr_transitions self) with
                       | Some t => (applied_at_ms <? wt_applied_at_ms t)%Z
                       | None => false
                       end)
              (wf "Workflow application time cannot move backwards" []));
  p ← lift (apply_kind self (cmd_kind command) applied_at_ms);
  sequence ← lift (ok_or (checked_add u64_max (len (wr_transitions p.1)) 1)
                     (wf "Workflow sequence overflow" []));
  let next := push_transition p.1
    {| wt_sequence := sequence; wt_command_id := cmd_id command; wt_command_sha256 := digest;
       wt_applied_at_ms := applied_at_ms; wt_actor := actor authority; wt_kind := p.2 |} in
  _ ← lift (validate next);
  charge ← lift (encoded_size_for next class);
  _ ← put (with_charge next charge);
  mret Applied.
End workflow.
