(* ===== verification/WorkflowSafety.v ===== *)
(** Replaying the transitions of a Workflow Run (src/src/workflow/mod.rs): what
    the loop of [validate] computes, and the agreement between the guards of
    [apply] and the validator.

    The properties of the Workflow Run (src/src/workflow/mod.rs): replay,
    idempotent commands, fenced waits, terminal states and the settlement
    reserve. *)

From Stdlib Require Import ZArith Lia.
From stdpp Require Import sorting base tactics list gmap relations numbers strings option.
From stdpp Require Import list.
From S2P Require Import Prelude Kernel Digest Workflow.

(** The validator and the wake-up command agree on when a wait is due. *)
Lemma wake_reason_due w now : wake_reason w now = due_reason w now.
Proof. done. Qed.

Section replay.
Context `{!Serialize WorkflowCreateRequest, !Serialize WorkflowCommand,
          !Serialize WorkflowRunWire, sha : !Sha256, semver : !SemverOrder}.

(** ** Digests *)

Lemma digest_lower `{!Sha256Laws, Serialize T} (x : T) d :
  command_digest x = Ok d → is_lower_sha256 d = true.
Proof.
  unfold command_digest. intros Hx. inv_ok. subst d. apply lower_sha256_lower.
Qed.

(** ** What the loop computes *)

Definition replayed : list WorkflowTransition → Replay → Prop := replays replay_step replay_start.

(** The parts of a successful iteration. *)
Lemma replay_step_ok rp t rp' :
  replay_step rp t = Ok rp' →
  wt_sequence t = rp_expected_sequence rp ∧
  rp_expected_sequence rp' = (rp_expected_sequence rp + 1)%Z ∧
  wt_applied_at_ms t ≠ 0%Z ∧ (rp_previous_applied_at_ms rp ≤ wt_applied_at_ms t)%Z ∧
  rp_previous_applied_at_ms rp' = wt_applied_at_ms t ∧
  transition_digest t = Ok (wt_command_sha256 t) ∧
  ((MAX_WORKFLOW_WORK_TRANSITIONS < wt_sequence t)%Z →
     transition_capacity_class (wt_kind t) = Settlement) ∧
  rp_command_ids rp !! wt_command_id t = None ∧
  rp_command_ids rp' = <[wt_command_id t := wt_command_sha256 t]> (rp_command_ids rp) ∧
  replay_kind t (replay_projection rp) = Ok (replay_projection rp').
Proof.
  unfold replay_step, validate_application_time. intros Hs. inv_ok.
  match goal with H : checked_add _ _ _ = _ |- _ => apply checked_add_Some in H as [-> _] end.
  bool_hyps. subst rp'. simpl.
  match goal with H : ¬ (_ ≠ _) |- _ => apply dec_stable in H end.
  match goal with H : ¬ is_Some _ |- _ => apply eq_None_not_Some in H end.
  match goal with H : (_ && _) = false |- _ => rename H into Hw end.
  match goal with H : replay_kind _ _ = Ok ?p |- _ => destruct p end.
  split_and!; try done; [congruence|].
  intros Hlt. rewrite (proj2 (Z.ltb_lt _ _) Hlt) in Hw. simpl in Hw. bool_hyps.
  by destruct (transition_capacity_class _).
Qed.

(** The fields of the loop state, as facts about the transitions. *)
Record replay_inv (l : list WorkflowTransition) (rp : Replay) : Prop := {
  ri_sequence : rp_expected_sequence rp = (len l + 1)%Z;
  ri_commands : ∀ id, is_Some (rp_command_ids rp !! id) ↔ ∃ t, t ∈ l ∧ wt_command_id t = id;
  ri_waits : ∀ id, id ∈ rp_wait_ids rp ↔ ∃ t, t ∈ l ∧ starts_wait id t = true;
  ri_signals : ∀ id, id ∈ rp_signal_ids rp ↔ ∃ t, t ∈ l ∧ delivers_signal id t = true;
  ri_time : rp_previous_applied_at_ms rp = default 0%Z (wt_applied_at_ms <$> vec_last l);
  ri_definition : ∀ d, rp_definition rp = Some d → validate_definition d = Ok ();
  ri_graph : ∀ g, rp_task_graph rp = Some g → validate_identity "Workflow Task Graph" g = Ok ();
  ri_wait : ∀ w, rp_status rp = Some (WfWaiting w) → wait_id w ∈ rp_wait_ids rp;
}.

Lemma replay_kind_ids t p p' :
  replay_kind t p = Ok p' →
  (∀ id, id ∈ pj_wait_ids p' ↔ id ∈ pj_wait_ids p ∨ starts_wait id t = true) ∧
  (∀ id, id ∈ pj_signal_ids p' ↔ id ∈ pj_signal_ids p ∨ delivers_signal id t = true).
Proof.
  unfold replay_kind, starts_wait, delivers_signal. intros Hk.
  destruct (wt_kind t) as [d g|w|wid sid n s k|wid reason|from to|x|x|x].
  1: destruct (wt_sequence t =? 1)%Z; [|done].
  all: try (inv_ok; subst p'; simpl; split; intros; naive_solver).
  - inv_ok. subst p'. simpl. split; intros id; rewrite ?elem_of_union, ?elem_of_singleton,
      ?bool_decide_eq_true; naive_solver.
  - inv_ok. destruct (pj_status p) as [[|[]| | |]|]; try done. inv_ok. subst p'. simpl.
    split; intros id'; rewrite ?elem_of_union, ?elem_of_singleton, ?bool_decide_eq_true; naive_solver.
  - destruct (pj_status p) as [[|w| | |]|]; try done. destruct (bool_decide _); [done|]. inv_ok.
    destruct (bool_decide _); [done|]. inv_ok. subst p'. simpl. naive_solver.
Qed.

Lemma replay_kind_valid t p p' :
  replay_kind t p = Ok p' →
  (∀ d, pj_definition p = Some d → validate_definition d = Ok ()) →
  (∀ g, pj_task_graph p = Some g → validate_identity "Workflow Task Graph" g = Ok ()) →
  (∀ w, pj_status p = Some (WfWaiting w) → wait_id w ∈ pj_wait_ids p) →
  (∀ d, pj_definition p' = Some d → validate_definition d = Ok ()) ∧
  (∀ g, pj_task_graph p' = Some g → validate_identity "Workflow Task Graph" g = Ok ()) ∧
  (∀ w, pj_status p' = Some (WfWaiting w) → wait_id w ∈ pj_wait_ids p').
Proof.
  unfold replay_kind. intros Hk Hd Hg Hw.
  destruct (wt_kind t) as [d g|w|wid sid n s k|wid reason|from to|x|x|x].
  1: destruct (wt_sequence t =? 1)%Z; [|done].
  3: inv_ok; destruct (pj_status p) as [[|[]| | |]|]; try done.
  4: destruct (pj_status p) as [[|w| | |]|]; try done; destruct (bool_decide _); [done|]; inv_ok;
     destruct (bool_decide _); [done|].
  all: inv_ok; subst p'; simpl; split_and!; intros; simplify_eq; try done; eauto.
  apply elem_of_union. left. by apply elem_of_singleton.
Qed.

Lemma replayed_inv l rp : replayed l rp → replay_inv l rp.
Proof.
  revert l rp. apply replays_ind.
  - split; try done; simpl.
    + intros id. rewrite lookup_empty. split; [by intros []|by intros (? & ?%elem_of_nil & _)].
    + intros id. rewrite elem_of_empty. split; [done|by intros (? & ?%elem_of_nil & _)].
    + intros id. rewrite elem_of_empty. split; [done|by intros (? & ?%elem_of_nil & _)].
  - intros l t rp rp' _ [I1 I2 I3 I4 I5 I6 I7 I8] Hs.
    apply replay_step_ok in Hs as (H1 & H2 & _ & _ & H5 & _ & _ & _ & H9 & Hk).
    destruct (replay_kind_ids _ _ _ Hk) as [Hw Hg].
    destruct (replay_kind_valid _ _ _ Hk I6 I7 I8) as (V1 & V2 & V3).
    split; try done.
    + rewrite H2, I1. unfold len. rewrite length_app. simpl. lia.
    + intros id. rewrite elem_of_snoc_ex, H9, <-I2, lookup_insert_is_Some. 
      destruct (decide (wt_command_id t = id)); naive_solver.
    + intros id. rewrite elem_of_snoc_ex, <-I3. apply Hw.
    + intros id. rewrite elem_of_snoc_ex, <-I4. apply Hg.
    + rewrite H5, last_snoc. done.
Qed.

(** A Run the validator accepts. *)
Record valid_run (r : WorkflowRun) (rp : Replay) : Prop := {
  vr_length : (1 ≤ len (wr_transitions r) ≤ MAX_WORKFLOW_TRANSITIONS)%Z;
  vr_replay : replayed (wr_transitions r) rp;
  vr_definition : rp_definition rp = Some (wr_definition r);
  vr_graph : rp_task_graph rp = Some (wr_task_graph_id r);
  vr_status : rp_status rp = Some (wr_status r);
}.

Lemma validate_iff r : validate r = Ok () ↔ ∃ rp, valid_run r rp.
Proof.
  unfold validate. split.
  - intros Hv. inv_ok. bool_hyps.
    repeat match goal with H : ¬ (_ ≠ _) |- _ => apply dec_stable in H end.
    match goal with H : fold_m _ _ _ = Ok ?rp |- _ => exists rp end.
    split; try done. split; [|done].
    destruct (wr_transitions r); [done|]. unfold len. simpl. lia.
  - intros [rp [[L1 L2] Hr Hd Hg Hs]]. pose proof (replayed_inv _ _ Hr) as Hi.
    rewrite (ri_definition _ _ Hi _ Hd), (ri_graph _ _ Hi _ Hg). simpl.
    rewrite (bool_decide_eq_false_2 (wr_transitions r = [])) by (by intros E; rewrite E in L1).
    rewrite (proj2 (Z.ltb_ge _ _) L2). simpl. rewrite Hr. simpl. rewrite Hd, Hg, Hs.
    rewrite !bool_decide_eq_false_2 by (intros Hn; by apply Hn). done.
Qed.

(** ** The guards of [apply_kind] and the validator agree *)

Lemma validate_identity_kind k k' s :
  validate_identity k s = Ok () → validate_identity k' s = Ok ().
Proof. unfold validate_identity. by destruct (_ || _ || _). Qed.

Lemma ensure_new_ok r rp id :
  replay_inv (wr_transitions r) rp → ensure_new_wait_id r id = Ok () →
  validate_identity "Workflow wait" id = Ok () ∧ id ∉ rp_wait_ids rp.
Proof.
  intros Hi He. unfold ensure_new_wait_id in He. inv_ok. split; [done|].
  intros Hin%(ri_waits _ _ Hi)%existsb_iff. congruence.
Qed.

Lemma require_running_ok r a u : require_running r a = Ok u → wr_status r = WfRunning.
Proof. unfold require_running. by destruct (wr_status r). Qed.

Lemma require_nonterminal_ok r a u :
  require_nonterminal r a = Ok u → wf_terminal (wr_status r) = false.
Proof. unfold require_nonterminal. by destruct (wf_terminal _). Qed.

(** What a Run and a projection have in common after the same event. *)
Definition projects (r : WorkflowRun) (p : Projection) : Prop :=
  pj_definition p = Some (wr_definition r) ∧ pj_status p = Some (wr_status r) ∧
  pj_task_graph p = Some (wr_task_graph_id r).

Lemma start_wait_replays r rp w t :
  replay_inv (wr_transitions r) rp → projects r (replay_projection rp) →
  wr_status r = WfRunning → wt_kind t = WaitStarted w →
  validate_wait w = Ok () → ensure_new_wait_id r (wait_id w) = Ok () →
  ∃ p', replay_kind t (replay_projection rp) = Ok p' ∧
    projects (set_status r (WfWaiting w)) p'.
Proof.
  intros Hi (P1 & P2 & P3) Hrun Hk Hw [_ Hn]%(ensure_new_ok _ _ _ Hi).
  unfold replay_kind. rewrite Hk, P2, Hrun. simpl. rewrite Hw. simpl.
  rewrite (bool_decide_eq_false_2 (wait_id w ∈ rp_wait_ids rp)) by done. simpl.
  eexists. split; [done|]. by split_and!.
Qed.

Lemma apply_kind_frame r kind now r' k :
  apply_kind r kind now = Ok (r', k) →
  wr_transitions r' = wr_transitions r ∧ wr_task_graph_id r' = wr_task_graph_id r ∧
  transition_capacity_class k = command_capacity_class kind ∧
  wf_terminal (wr_status r) = false.
Proof.
  unfold apply_kind, start_wait. intros Ha.
  destruct kind; simpl in Ha; inv_ok; subst; try done;
    repeat match goal with
    | H : require_running _ _ = _ |- _ => apply require_running_ok in H as Hst
    | H : require_nonterminal _ _ = _ |- _ => apply require_nonterminal_ok in H as Hst
    end; try (rewrite Hst); try done.
  - destruct (wr_status r) as [|[]| | |] eqn:Hst; try done. inv_ok. by subst.
  - destruct (wr_status r) as [|w| | |] eqn:Hst; try done. inv_ok. by subst.
  - bool_hyps. by destruct (wr_status r).
Qed.

Lemma apply_kind_digest r kind now r' k t :
  apply_kind r kind now = Ok (r', k) → wt_kind t = k →
  transition_digest t = command_digest {| cmd_id := wt_command_id t; cmd_kind := kind |}.
Proof.
  unfold apply_kind, start_wait, transition_digest. intros Ha <-.
  destruct kind; simpl in Ha; inv_ok; try done;
    try match goal with H : _ = wt_kind t |- _ => by rewrite <-H end.
  - destruct (wr_status r) as [|[]| | |]; try done. inv_ok.
    match goal with H : _ = wt_kind t |- _ => by rewrite <-H end.
  - destruct (wr_status r) as [|w| | |]; try done. inv_ok.
    match goal with H : _ = wt_kind t |- _ => by rewrite <-H end.
Qed.

(** Replays the checks that already succeeded. *)
Ltac use_checks :=
  repeat (simpl; match goal with
  | H : ?x = Ok _ |- context [?x] => rewrite H
  | H : ?b = false |- context [reject_if ?b] => rewrite H
  | |- context [bool_decide (?x ≠ ?x)] =>
      rewrite (bool_decide_eq_false_2 (x ≠ x)) by (intros Hn; by apply Hn)
  | H : require_running _ _ = Ok _ |- _ => apply require_running_ok in H; rewrite H in *
  | H : require_nonterminal _ _ = Ok _ |- _ => apply require_nonterminal_ok in H
  end).

Lemma new_wait_valid r rp kind now r' w :
  replay_inv (wr_transitions r) rp → (0 < now)%Z →
  apply_kind r kind now = Ok (r', WaitStarted w) →
  r' = set_status r (WfWaiting w) ∧ wr_status r = WfRunning ∧ validate_wait w = Ok () ∧
  ensure_new_wait_id r (wait_id w) = Ok ().
Proof.
  intros Hi Hnow Ha. unfold apply_kind, start_wait in Ha.
  destruct kind as [wid n s e|wid due|wid act att due key|wid sid n s key|wid|d|x|x|x];
    inv_ok; try done.
  4: destruct (wr_status r) as [|[]| | |]; try done; inv_ok; done.
  4: destruct (wr_status r); try done; inv_ok; done.
  all: subst r' w; split_and!; [done|by eapply require_running_ok| |done].
  all: match goal with H : ensure_new_wait_id _ _ = _ |- _ =>
         apply (ensure_new_ok _ _ _ Hi) in H as [Hid _] end.
  all: unfold validate_wait; cbn [wait_id]; rewrite Hid; use_checks.
  - rewrite (bool_decide_eq_false_2 (e = Some 0%Z)); [done|]. intros ->. bool_hyps. lia.
  - bool_hyps. by rewrite (proj2 (Z.eqb_neq due 0)) by lia.
  - bool_hyps. rewrite (proj2 (Z.eqb_neq att 0)) by done.
    by rewrite (proj2 (Z.eqb_neq due 0)) by lia.
Qed.

(** Whatever [apply_kind] accepts, the validator accepts with the same result. *)
Lemma apply_kind_replays r rp kind now r' k t :
  replay_inv (wr_transitions r) rp → projects r (replay_projection rp) →
  apply_kind r kind now = Ok (r', k) → (0 < now)%Z →
  wt_kind t = k → wt_applied_at_ms t = now →
  ∃ p', replay_kind t (replay_projection rp) = Ok p' ∧ projects r' p'.
Proof.
  intros Hi Hp Ha Hnow Hk Ht.
  assert ((∃ w, k = WaitStarted w) ∨ ∀ w, k ≠ WaitStarted w) as [[w ->]|Hnw]
    by (destruct k; eauto; by right).
  { apply (new_wait_valid _ _ _ _ _ _ Hi Hnow) in Ha as (-> & ? & ? & ?).
    by eapply start_wait_replays. }
  destruct Hp as (P1 & P2 & P3). simpl in P1, P2, P3. unfold apply_kind, start_wait in Ha.
  unfold replay_kind. rewrite Hk.
  destruct kind as [wid n s e|wid due|wid act att due key|wid sid n s key|wid|d|x|x|x]; inv_ok;
    try (by exfalso; eapply Hnw).
  - destruct (wr_status r) as [|[id en es e| |]| | |] eqn:Hst; try done. inv_ok. subst r' k.
    rewrite Ht. simpl. rewrite P2, (bool_decide_eq_false_2 (sid ∈ rp_signal_ids rp))
      by (intros Hin%(ri_signals _ _ Hi)%existsb_iff; congruence).
    use_checks. eexists. split; [done|]. by split_and!.
  - destruct (wr_status r) as [|w| | |] eqn:Hst; try done. rewrite wake_reason_due in Ha.
    inv_ok. subst r' k. rewrite Ht. simpl. rewrite P2.
    match goal with H : bool_decide _ = false |- _ => rewrite H end.
    use_checks. eexists. split; [done|]. by split_and!.
  - subst r' k. simpl in *. rewrite P1, P2.
    rewrite (bool_decide_eq_false_2 (Some (wr_definition r) ≠ Some (wr_definition r)))
      by (intros Hn; by apply Hn).
    rewrite orb_false_r. use_checks. eexists. split; [done|]. by split_and!.
  - subst r' k. simpl in *. rewrite P2. use_checks. eexists. split; [done|]. by split_and!.
  - subst r' k. simpl in *. rewrite P2. use_checks. eexists. split; [done|]. by split_and!.
  - subst r' k. simpl in *. rewrite P2. use_checks. eexists. split; [done|]. by split_and!.
Qed.
End replay.

Section safety.
Context `{!Serialize WorkflowCreateRequest, !Serialize WorkflowCommand,
          !Serialize WorkflowRunWire, sha : !Sha256, semver : !SemverOrder,
          laws : !Sha256Laws}.

(** ** Inversion of [apply] *)

(** The Run [apply] commits, before its charge. *)
Definition next_run (p : WorkflowRun * WorkflowTransitionKind) (c : WorkflowCommand)
    (digest : str) (now : Z) (a : AuthorityContext) : WorkflowRun :=
  push_transition p.1
    {| wt_sequence := len (wr_transitions p.1) + 1; wt_command_id := cmd_id c;
       wt_command_sha256 := digest; wt_applied_at_ms := now; wt_actor := actor a;
       wt_kind := p.2 |}.

(** The guards [apply] evaluates before it builds the next Run. *)
Record admitted (r : WorkflowRun) (c : WorkflowCommand) (now : Z) (a : AuthorityContext)
    (digest : str) (p : WorkflowRun * WorkflowTransitionKind) : Prop := {
  ad_new : recognizes_command r c = Ok false;
  ad_time : now ≠ 0%Z;
  ad_authority : authority_validate_current a "Workflow command authority" = Ok ();
  ad_digest : command_digest c = Ok digest;
  ad_capacity : validate_transition_capacity (len (wr_transitions r))
                  (command_capacity_class (cmd_kind c)) = Ok ();
  ad_monotone : ∀ t, vec_last (wr_transitions r) = Some t → (wt_applied_at_ms t ≤ now)%Z;
  ad_kind : apply_kind r (cmd_kind c) now = Ok p;
}.

Lemma apply_applied c now a r r' :
  wf_apply c now a r = (r', Ok Applied) →
  ∃ digest p charge, admitted r c now a digest p ∧
    validate (next_run p c digest now a) = Ok () ∧
    encoded_size_for (next_run p c digest now a) (command_capacity_class (cmd_kind c)) = Ok charge ∧
    r' = with_charge (next_run p c digest now a) charge.
Proof.
  unfold wf_apply. intros Ha. inv_M.
  match goal with b : bool |- _ => destruct b; inv_M; [done|] end.
  inv_ok.
  match goal with H : checked_add _ _ _ = _ |- _ => apply checked_add_Some in H as [-> _] end.
  match goal with p : (WorkflowRun * WorkflowTransitionKind)%type |- _ => rename p into pk end.
  unfold validate_application_time in *. inv_ok. bool_hyps.
  match goal with H : command_digest _ = Ok ?d |- _ => exists d, pk end.
  match goal with H : encoded_size_for _ _ = Ok ?n |- _ => exists n end.
  apply mret_eq in Ha as [-> _]. split_and!; [|done..]. split; try done.
  intros t Hl. rewrite Hl in *. by bool_hyps.
Qed.

Lemma apply_other c now a r r' res :
  wf_apply c now a r = (r', res) → res ≠ Ok Applied → r' = r.
Proof.
  unfold wf_apply. intros Ha Hn. destruct res as [o|e].
  - inv_M. match goal with b : bool |- _ => destruct b; inv_M; [done|] end. done.
  - inv_M_err; try done. match goal with b : bool |- _ => destruct b; inv_M_err; done end.
Qed.

(** ** The validator accepts what the guards accept *)

Lemma recognizes_false r c :
  recognizes_command r c = Ok false →
  validate_identity "Workflow command" (cmd_id c) = Ok () ∧
  ∀ t, t ∈ wr_transitions r → wt_command_id t ≠ cmd_id c.
Proof.
  unfold recognizes_command, validate_command. intros Hr. inv_ok.
  destruct (List.find _ _) as [t|] eqn:E; [by destruct (bool_decide _)|]. split; [done|].
  intros t Ht%list_elem_of_In Hid. pose proof (find_none _ _ E t Ht) as Hn. simpl in Hn.
  by bool_hyps.
Qed.

Lemma authority_actor_shape a kind kind' u :
  authority_validate_current a kind = Ok u →
  ∃ u', validate_shape_message (actor a) kind' = inr u'.
Proof.
  unfold authority_validate_current, actor_validate_current, map_err_approval,
    validate_current_message, validate_shape_message, validate_actor_identity.
  intros Ha. inv_ok. destruct (actor a) as [|auth sub|]; [by eexists| |by eexists].
  destruct (trim_is_empty auth || _ || _); [done|]. destruct (trim_is_empty sub || _ || _); [done|].
  by eexists.
Qed.

Lemma capacity_ok n class :
  validate_transition_capacity n class = Ok () →
  (n < MAX_WORKFLOW_TRANSITIONS)%Z ∧ (class = Work → (n < MAX_WORKFLOW_WORK_TRANSITIONS)%Z).
Proof.
  unfold validate_transition_capacity. intros Hc. inv_ok.
  match goal with H : _ && _ = false |- _ => rename H into Hw end. bool_hyps. split; [done|].
  intros ->. rewrite bool_decide_eq_true_2 in Hw by done. simpl in Hw. by bool_hyps.
Qed.

Lemma next_replay r rp c now a digest p :
  valid_run r rp → (0 < now)%Z → admitted r c now a digest p →
  ∃ rp', valid_run (next_run p c digest now a) rp'.
Proof.
  intros [Hlen Hr Hd Hg Hs] Hnow [A1 A2 A3 A4 A5 A6 A7]. destruct p as [r' k].
  pose proof (replayed_inv _ _ Hr) as Hi.
  destruct (apply_kind_frame _ _ _ _ _ A7) as (F1 & F2 & F3 & _).
  apply capacity_ok in A5 as [C1 C2]. apply recognizes_false in A1 as [R1 R2].
  set (t := {| wt_sequence := len (wr_transitions r') + 1; wt_command_id := cmd_id c;
    wt_command_sha256 := digest; wt_applied_at_ms := now; wt_actor := actor a; wt_kind := k |}).
  destruct (apply_kind_replays r rp _ _ _ _ t Hi ltac:(by split_and!) A7 Hnow eq_refl eq_refl)
    as (p' & Hp & P1 & P2 & P3).
  assert (transition_digest t = Ok digest) as Hdig.
  { rewrite (apply_kind_digest r (cmd_kind c) now r' k t A7 eq_refl). by destruct c. }
  destruct (authority_actor_shape _ _ "Workflow transition actor" _ A3) as [u Hsh].
  assert (rp_command_ids rp !! cmd_id c = None) as Hnew.
  { apply eq_None_not_Some. intros (t0 & Ht0 & E)%(ri_commands _ _ Hi). by eapply R2. }
  assert (rp_previous_applied_at_ms rp ≤ now)%Z as Hprev.
  { rewrite (ri_time _ _ Hi). destruct (vec_last (wr_transitions r)) as [t0|] eqn:El; simpl; [|lia].
    by apply A6. }
  assert (∃ rp', replay_step rp t = Ok rp' ∧ replay_projection rp' = p') as (rp' & Hstep & <-).
  { unfold replay_step. cbn [wt_sequence wt_command_id wt_command_sha256 wt_applied_at_ms wt_actor
      wt_kind t]. rewrite (ri_sequence _ _ Hi), F1, Z.eqb_refl. unfold checked_add.
    unfold MAX_WORKFLOW_TRANSITIONS, MAX_WORKFLOW_WORK_TRANSITIONS,
      WORKFLOW_SETTLEMENT_TRANSITION_RESERVE in *.
    rewrite (proj2 (Z.leb_le _ u64_max)) by (unfold u64_max; lia). simpl.
    rewrite R1. unfold validate_digest, validate_application_time.
    rewrite (digest_lower c digest A4), (proj2 (Z.eqb_neq now 0)), (proj2 (Z.ltb_ge _ _) Hprev) by done.
    simpl. unfold actor_validate_shape. rewrite Hsh. simpl. rewrite Hdig. simpl.
    rewrite (bool_decide_eq_false_2 (digest ≠ digest)) by (intros Hn; by apply Hn). simpl.
    rewrite F3. destruct (decide (command_capacity_class (cmd_kind c) = Work)) as [Hw|Hw].
    - rewrite (proj2 (Z.ltb_ge 4096 _)) by (specialize (C2 Hw); lia). simpl. rewrite Hnew, Hp. simpl.
      eexists. split; [done|]. by destruct p'.
    - rewrite (bool_decide_eq_false_2 (_ = Work)) by done. rewrite andb_false_r. simpl.
      rewrite Hnew, Hp. simpl. eexists. split; [done|]. by destruct p'. }
  exists rp'. split; simpl in P1, P2, P3; [..|simpl; congruence].
  - simpl. rewrite F1. unfold len in *. rewrite length_app. simpl. lia.
  - change (replayed (wr_transitions r' ++ [t]) rp'). rewrite F1. apply replays_snoc. by exists rp.
  - exact P1.
  - exact P3.
Qed.

(** ** Steps of a Run *)

(** One call of [apply], with any command, clock and authority. *)
Definition wf_step (r r' : WorkflowRun) : Prop :=
  ∃ c now a res, (0 ≤ now)%Z ∧ wf_apply c now a r = (r', res).

Lemma validate_with_charge r n : validate (with_charge r n) = validate r.
Proof. done. Qed.

Lemma step_cases r r' :
  wf_step r r' → r' = r ∨
  ∃ c now a digest p charge, (0 < now)%Z ∧ admitted r c now a digest p ∧
    validate (next_run p c digest now a) = Ok () ∧
    r' = with_charge (next_run p c digest now a) charge.
Proof.
  intros (c & now & a & res & Hnow & Ha). destruct res as [[]|e].
  - apply apply_applied in Ha as (digest & p & charge & Had & Hv & _ & ->). right.
    exists c, now, a, digest, p, charge. split_and!; try done.
    pose proof (ad_time _ _ _ _ _ _ Had). lia.
  - left. by eapply apply_other.
  - left. by eapply apply_other.
Qed.

Lemma step_validate r r' : validate r = Ok () → wf_step r r' → validate r' = Ok ().
Proof.
  intros Hv [->|(c & now & a & d & p & n & _ & _ & Hv' & ->)]%step_cases; [done|].
  by rewrite validate_with_charge.
Qed.

Lemma step_extends r r' : wf_step r r' → ∃ ts, wr_transitions r' = wr_transitions r ++ ts.
Proof.
  intros [->|(c & now & a & d & [r1 k] & n & _ & Had & _ & ->)]%step_cases.
  - exists []. by rewrite app_nil_r.
  - simpl. destruct (apply_kind_frame _ _ _ _ _ (ad_kind _ _ _ _ _ _ Had)) as [-> _]. eauto.
Qed.

Lemma steps_validate r r' : validate r = Ok () → rtc wf_step r r' → validate r' = Ok ().
Proof. intros Hv. induction 1; [done|]. eauto using step_validate. Qed.

Lemma steps_extend r r' : rtc wf_step r r' → ∃ ts, wr_transitions r' = wr_transitions r ++ ts.
Proof.
  induction 1 as [r|r r1 r2 Hs _ [ts IH]]; [exists []; by rewrite app_nil_r|].
  apply step_extends in Hs as [ts0 E]. exists (ts0 ++ ts). by rewrite IH, E, app_assoc.
Qed.

(** ** The history of a valid Run *)

Lemma replayed_history l rp :
  replayed l rp →
  (∀ i t, l !! i = Some t → wt_sequence t = (Z.of_nat i + 1)%Z) ∧
  StronglySorted (λ t t', (wt_applied_at_ms t ≤ wt_applied_at_ms t')%Z) l ∧
  (∀ t, t ∈ l → (wt_applied_at_ms t ≤ rp_previous_applied_at_ms rp)%Z) ∧
  NoDup (wt_command_id <$> l) ∧
  (∀ t, t ∈ l → transition_digest t = Ok (wt_command_sha256 t)) ∧
  (∀ t, t ∈ l → (MAX_WORKFLOW_WORK_TRANSITIONS < wt_sequence t)%Z →
     transition_capacity_class (wt_kind t) = Settlement).
Proof.
  revert l rp. apply replays_ind.
  - split_and!; [done|constructor|by intros ? ?%elem_of_nil|constructor|by intros ? ?%elem_of_nil..].
  - intros l t rp rp' Hl (I1 & I2 & I3 & I4 & I5 & I6) Hs. pose proof (replayed_inv _ _ Hl) as Hi.
    apply replay_step_ok in Hs as (S1 & S2 & S3 & S4 & S5 & S6 & S7 & S8 & _).
    split_and!.
    + intros i t' [Hi'|[Hi' Ht]]%lookup_app_Some; [eauto|].
      apply list_lookup_singleton_Some in Ht as [Hz <-]. rewrite S1, (ri_sequence _ _ Hi).
      unfold len. lia.
    + apply StronglySorted_app. split_and!; [|done|by repeat constructor].
      intros x y Hx ->%list_elem_of_singleton. specialize (I3 x Hx). lia.
    + intros t' [Ht| ->%list_elem_of_singleton]%elem_of_app; [specialize (I3 t' Ht)|]; lia.
    + rewrite fmap_app. apply NoDup_app. split_and!; [done| |apply NoDup_singleton].
      intros id (t' & -> & Ht')%list_elem_of_fmap E%list_elem_of_singleton.
      apply eq_None_not_Some in S8. apply S8, (ri_commands _ _ Hi). eauto.
    + intros t' [Ht| ->%list_elem_of_singleton]%elem_of_app; eauto.
    + intros t' [Ht| ->%list_elem_of_singleton]%elem_of_app; eauto.
Qed.

Lemma settlement_room l rp s :
  replayed l rp → rp_status rp = Some s → wf_terminal s = false →
  (len l ≤ MAX_WORKFLOW_WORK_TRANSITIONS + 1)%Z ∧
  (∀ w, s = WfWaiting w → (len l ≤ MAX_WORKFLOW_WORK_TRANSITIONS)%Z).
Proof.
  intros Hl. revert s. revert l rp Hl. refine (replays_ind _ _ (λ l rp, ∀ s, rp_status rp = Some s →
    wf_terminal s = false → (len l ≤ _)%Z ∧ (∀ w, s = WfWaiting w → (len l ≤ _)%Z)) _ _); [done|].
  intros l t rp rp' Hl IH Hs s Hst Ht. pose proof (replayed_inv _ _ Hl) as Hi.
  apply replay_step_ok in Hs as (S1 & _ & _ & _ & _ & _ & S7 & _ & _ & Hk).
  rewrite (ri_sequence _ _ Hi) in S1. unfold len in *. rewrite length_app. simpl.
  destruct (decide (Z.of_nat (length l) + 1 ≤ MAX_WORKFLOW_WORK_TRANSITIONS)%Z) as [Hle|Hgt].
  { split; intros; lia. }
  specialize (S7 ltac:(lia)). unfold replay_kind in Hk.
  destruct (wt_kind t) as [d g|w|wid sid n so k|wid reason|from to|x|x|x]; try done.
  - inv_ok. simpl in *. destruct (rp_status rp) as [[|[]| | |]|] eqn:Es; try done. inv_ok.
    destruct rp'. simpl in *. simplify_eq. destruct (IH _ eq_refl eq_refl) as [_ Hw].
    specialize (Hw _ eq_refl). split; [lia|done].
  - simpl in *. destruct (rp_status rp) as [[|w| | |]|] eqn:Es; try done.
    destruct (bool_decide _); [done|]. inv_ok. destruct (bool_decide _); [done|]. inv_ok.
    destruct rp'. simpl in *. simplify_eq. destruct (IH _ eq_refl eq_refl) as [_ Hw].
    specialize (Hw _ eq_refl). split; [lia|done].
  - inv_ok. destruct rp'. simpl in *. simplify_eq.
  - inv_ok. destruct rp'. simpl in *. simplify_eq.
  - inv_ok. destruct rp'. simpl in *. simplify_eq.
Qed.

Lemma next_validate r c now a digest p :
  validate r = Ok () → (0 < now)%Z → admitted r c now a digest p →
  validate (next_run p c digest now a) = Ok ().
Proof.
  intros [rp Hr]%validate_iff Hnow Had. apply validate_iff. by eapply next_replay.
Qed.

Lemma apply_admitted_run r c now a digest p charge :
  validate r = Ok () → (0 < now)%Z → admitted r c now a digest p →
  encoded_size_for (next_run p c digest now a) (command_capacity_class (cmd_kind c)) = Ok charge →
  wf_apply c now a r = (with_charge (next_run p c digest now a) charge, Ok Applied).
Proof.
  intros Hv Hnow Had Hsize. pose proof (next_validate _ _ _ _ _ _ Hv Hnow Had) as Hn.
  apply validate_iff in Hv as [rp Hr].
  pose proof (vr_length _ _ Hr) as Hlen. destruct Had as [A1 A2 A3 A4 A5 A6 A7]. destruct p as [r' k].
  destruct (apply_kind_frame _ _ _ _ _ A7) as (F1 & _).
  apply capacity_ok in A5 as HC. unfold next_run in *. cbn [fst snd] in *.
  unfold wf_apply, validate_application_time, mbind, M_bind, lift, get, put, mret, M_ret.
  rewrite A1, (proj2 (Z.eqb_neq now 0)) by done. simpl. rewrite A3, A4, A5.
  replace (match vec_last (wr_transitions r) with
           | Some t => (now <? wt_applied_at_ms t)%Z | None => false end) with false.
  2: { destruct (vec_last (wr_transitions r)) as [t|]; [|done]. symmetry. apply Z.ltb_ge. by apply A6. }
  simpl. rewrite A7. simpl. unfold checked_add.
  unfold MAX_WORKFLOW_TRANSITIONS, MAX_WORKFLOW_WORK_TRANSITIONS,
    WORKFLOW_SETTLEMENT_TRANSITION_RESERVE in *.
  rewrite (proj2 (Z.leb_le _ u64_max)) by (rewrite F1; unfold u64_max; lia). simpl.
  rewrite Hn, Hsize. done.
Qed.

(** ** Properties *)

(** C25: [apply] is total on what its guards admit: on a valid Run, a new
    command that passes the clock, authority, capacity and status guards,
    and whose result fits its encoding, is applied; the validator [apply]
    runs on the result never rejects it. *)
Theorem workflow_apply_admitted (r : WorkflowRun) (c : WorkflowCommand) (now : Z)
    (a : AuthorityContext) (digest : str) (p : WorkflowRun * WorkflowTransitionKind)
    (charge : Z)
    (Hv : validate r = Ok ()) (Hnow : (0 < now)%Z) (Had : admitted r c now a digest p)
    (Hsize : encoded_size_for (next_run p c digest now a)
               (command_capacity_class (cmd_kind c)) = Ok charge) :
  wf_apply c now a r = (with_charge (next_run p c digest now a) charge, Ok Applied) ∧
  validate (with_charge (next_run p c digest now a) charge) = Ok ().
Proof.
  split; [by apply apply_admitted_run|]. rewrite validate_with_charge. by eapply next_validate.
Qed.

(** event sourcing: every sequence of [apply] calls from a valid Run
    gives a valid Run that extends the history and never rewrites it, and
    the definition, the status and the linked graph of a valid Run are
    determined by its transitions alone. *)
Theorem workflow_history_determines (r r1 r2 : WorkflowRun)
    (Hv : validate r = Ok ()) (H1 : rtc wf_step r r1) (H2 : rtc wf_step r r2) :
  validate r1 = Ok () ∧ (∃ ts, wr_transitions r1 = wr_transitions r ++ ts) ∧
  (wr_transitions r1 = wr_transitions r2 →
     wr_definition r1 = wr_definition r2 ∧ wr_status r1 = wr_status r2 ∧
     wr_task_graph_id r1 = wr_task_graph_id r2).
Proof.
  pose proof (steps_validate _ _ Hv H1) as V1. pose proof (steps_validate _ _ Hv H2) as V2.
  split_and!; [done|by apply steps_extend|]. intros E.
  apply validate_iff in V1 as [rp1 [_ R1 D1 G1 S1]]. apply validate_iff in V2 as [rp2 [_ R2 D2 G2 S2]].
  unfold replayed, replays in *. rewrite E, R2 in R1. injection R1 as <-.
  rewrite D1 in D2. rewrite S1 in S2. rewrite G1 in G2. by simplify_eq.
Qed.

(** commands are idempotent: once a command was applied, sending it
    again, at any later time and by any authority, reports a duplicate and
    changes nothing; a different command under the same identity is an
    error that changes nothing. *)
Theorem workflow_idempotent (r r1 r2 : WorkflowRun) (c : WorkflowCommand) (now : Z)
    (a : AuthorityContext) (Hv : validate r = Ok ()) (Hnow : (0 ≤ now)%Z)
    (Ha : wf_apply c now a r = (r1, Ok Applied)) (Hlater : rtc wf_step r1 r2) :
  (∀ now' a', wf_apply c now' a' r2 = (r2, Ok Duplicate)) ∧
  (∀ c' now' a', cmd_id c' = cmd_id c → command_digest c' ≠ command_digest c →
     ∃ e, wf_apply c' now' a' r2 = (r2, Err e)).
Proof.
  assert (validate r2 = Ok ()) as Hv2
    by (eapply steps_validate, Hlater; eapply step_validate; [exact Hv|]; unfold wf_step; eauto 10).
  apply apply_applied in Ha as (digest & [r' k] & charge & Had & _ & _ & ->).
  apply steps_extend in Hlater as [ts Hts]. simpl in Hts.
  set (t := {| wt_sequence := _; wt_command_id := _ |}) in Hts.
  assert (t ∈ wr_transitions r2) as Ht by (rewrite Hts; set_solver).
  apply validate_iff in Hv2 as [rp [_ Hr _ _ _]].
  destruct (replayed_history _ _ Hr) as (_ & _ & _ & Hnd & _).
  assert (List.find (λ t0, bool_decide (wt_command_id t0 = cmd_id c)) (wr_transitions r2) = Some t)
    as Hfind by (by apply (find_unique wt_command_id)).
  pose proof (ad_digest _ _ _ _ _ _ Had) as Hdig.
  assert (validate_command c = Ok ()) as Hvc.
  { unfold validate_command. destruct (recognizes_false _ _ (ad_new _ _ _ _ _ _ Had)) as [-> _].
    simpl. by rewrite Hdig. }
  split.
  - intros now' a'. unfold wf_apply, recognizes_command, mbind, M_bind, lift, get, mret, M_ret. simpl.
    rewrite Hvc. simpl. rewrite Hdig. simpl. rewrite Hfind. simpl. by rewrite bool_decide_eq_true_2.
  - intros c' now' a' Hid Hne. unfold wf_apply, recognizes_command, mbind, M_bind, lift, get. simpl.
    destruct (validate_command c') as [[]|e]; simpl; [|by eexists].
    destruct (command_digest c') as [d'|e]; simpl; [|by eexists]. rewrite Hid, Hfind. simpl.
    rewrite bool_decide_eq_false_2 by congruence. by eexists.
Qed.

(** terminal states are final: no call changes a completed, failed or
    cancelled Run, so a settled Run stays exactly as it is. *)
Theorem workflow_terminal_absorbing (r r' : WorkflowRun)
    (Ht : wf_terminal (wr_status r) = true) (Hs : rtc wf_step r r') : r' = r.
Proof.
  induction Hs as [r|r r1 r2 Hs _ IH]; [done|].
  apply step_cases in Hs as [->|(c & now & a & d & [r3 k] & n & _ & Had & _)]; [auto|].
  destruct (apply_kind_frame _ _ _ _ _ (ad_kind _ _ _ _ _ _ Had)) as (_ & _ & _ & Hn). congruence.
Qed.

(** *** Waits *)

(** The wait [id] was started and is no longer the current one. *)
Definition wait_settled (r : WorkflowRun) (id : WorkflowWaitId) : Prop :=
  existsb (starts_wait id) (wr_transitions r) = true ∧
  ∀ w, wr_status r = WfWaiting w → wait_id w ≠ id.

Lemma apply_kind_wait r kind now r' k w :
  apply_kind r kind now = Ok (r', k) → wr_status r' = WfWaiting w →
  wr_status r = WfWaiting w ∨ ensure_new_wait_id r (wait_id w) = Ok ().
Proof.
  unfold apply_kind, start_wait. intros Ha Hw. destruct kind; inv_ok; subst; simpl in *; simplify_eq;
    try (right; done); try (left; done).
  - destruct (wr_status r) as [|[]| | |]; try done. inv_ok. subst. simpl in *. simplify_eq.
  - destruct (wr_status r) as [|v| | |]; try done. inv_ok. subst. simpl in *. simplify_eq.
Qed.

Lemma wait_settled_step r r' id : wait_settled r id → wf_step r r' → wait_settled r' id.
Proof.
  intros [Hs Hc] [->|(c & now & a & d & [r1 k] & n & _ & Had & _ & ->)]%step_cases; [by split|].
  pose proof (ad_kind _ _ _ _ _ _ Had) as Hk.
  destruct (apply_kind_frame _ _ _ _ _ Hk) as [F1 _]. split; simpl.
  - rewrite F1, existsb_app, Hs. done.
  - intros w Hw. destruct (apply_kind_wait _ _ _ _ _ _ Hk Hw) as [?|He]; [by apply Hc|].
    intros E. unfold ensure_new_wait_id in He. inv_ok. rewrite E in *. congruence.
Qed.

(** waits are fenced: a signal or a wake-up addressed to a wait that has
    already been settled is refused, then and at every later time. *)
Theorem workflow_wait_fencing (r r' : WorkflowRun) (id : WorkflowWaitId)
    (Hw : wait_settled r id) (Hs : rtc wf_step r r') :
  ∀ cid now a,
    (∀ sid name source key r'',
       wf_apply {| cmd_id := cid; cmd_kind := DeliverSignal id sid name source key |} now a r'
         ≠ (r'', Ok Applied)) ∧
    (∀ r'', wf_apply {| cmd_id := cid; cmd_kind := WakeDue id |} now a r' ≠ (r'', Ok Applied)).
Proof.
  assert (wait_settled r' id) as [_ Hc].
  { induction Hs as [|r r1 r2 Hs _ IH]; [done|]. apply IH. by eapply wait_settled_step. }
  intros cid now a. split; [intros sid name source key|]; intros r'' Ha;
    apply apply_applied in Ha as (d & [r1 k] & n & Had & _);
    pose proof (ad_kind _ _ _ _ _ _ Had) as Hk; simpl in Hk; inv_ok.
  - destruct (wr_status r') as [|[wid ? ? ?| |]| | |] eqn:E; try done. inv_ok. bool_hyps.
    apply (Hc _ eq_refl). simpl. by apply dec_stable.
  - destruct (wr_status r') as [|w| | |] eqn:E; try done. inv_ok. bool_hyps.
    apply (Hc _ eq_refl). by apply dec_stable.
Qed.

(** a timeout and a signal never both win: for a signal wait that
    expires at [e], the signal is accepted only before [e] and the wake-up
    only at or after it; a timer or a retry wakes only at or after its due
    time. *)
Theorem workflow_timeout_boundary (r : WorkflowRun) (w : WorkflowWait)
    (Hw : wr_status r = WfWaiting w) :
  (∀ c now a r' sid name source key,
     wf_apply c now a r = (r', Ok Applied) →
     cmd_kind c = DeliverSignal (wait_id w) sid name source key →
     ∃ e, w = WaitSignal (wait_id w) name source e ∧
          (∀ t, e = Some t → (now < t)%Z) ∧ wr_status r' = WfRunning) ∧
  (∀ c now a r',
     wf_apply c now a r = (r', Ok Applied) → cmd_kind c = WakeDue (wait_id w) →
     wr_status r' = WfRunning ∧
     match w with
     | WaitSignal _ _ _ e => ∃ t, e = Some t ∧ (t ≤ now)%Z
     | WaitTimer _ due | WaitRetry _ _ _ due _ => (due ≤ now)%Z
     end).
Proof.
  split.
  - intros c now a r' sid name source key (d & [r1 k] & n & Had & _ & _ & ->)%apply_applied Hk.
    pose proof (ad_kind _ _ _ _ _ _ Had) as Ha. rewrite Hk in Ha. simpl in Ha. inv_ok.
    rewrite Hw in Ha. destruct w as [wid en es e| |]; try done. inv_ok. bool_hyps.
    repeat match goal with H : ¬ (_ ≠ _) |- _ => apply dec_stable in H end. subst. simpl.
    exists e. split_and!; [done| |done]. intros t ->. by bool_hyps.
  - intros c now a r' (d & [r1 k] & n & Had & _ & _ & ->)%apply_applied Hk.
    pose proof (ad_kind _ _ _ _ _ _ Had) as Ha. rewrite Hk in Ha. simpl in Ha. rewrite Hw in Ha.
    inv_ok. subst. simpl. split; [done|]. unfold wake_reason in *.
    destruct w as [wid en es [e|]|wid due|wid act att due key]; try done.
    + destruct (Z.leb_spec e now); [|done]. by exists e.
    + by destruct (Z.leb_spec due now).
    + by destruct (Z.leb_spec due now).
Qed.

(** settlement is always possible: a valid Run that is not terminal has
    room for the transition that cancels it (and, while it waits, for two),
    so a fresh cancel command with a valid reason succeeds whenever its
    encoding fits, however many commands were applied before. *)
Theorem workflow_cancel_possible (r : WorkflowRun) (cid reason digest : str) (now charge : Z)
    (a : AuthorityContext)
    (Hv : validate r = Ok ()) (Hnt : wf_terminal (wr_status r) = false)
    (Hnew : recognizes_command r {| cmd_id := cid; cmd_kind := CmdCancel reason |} = Ok false)
    (Hdig : command_digest {| cmd_id := cid; cmd_kind := CmdCancel reason |} = Ok digest)
    (Hauth : authority_validate_current a "Workflow command authority" = Ok ())
    (Hnow : (0 < now)%Z)
    (Hclock : ∀ t, t ∈ wr_transitions r → (wt_applied_at_ms t ≤ now)%Z)
    (Htext : validate_text "Workflow cancellation reason" reason = Ok ())
    (Hsize : encoded_size_for (next_run (set_status r (WfCancelled reason), TrCancelled reason)
               {| cmd_id := cid; cmd_kind := CmdCancel reason |} digest now a) Settlement
             = Ok charge) :
  (len (wr_transitions r) ≤ MAX_WORKFLOW_WORK_TRANSITIONS + 1)%Z ∧
  (∀ w, wr_status r = WfWaiting w → (len (wr_transitions r) ≤ MAX_WORKFLOW_WORK_TRANSITIONS)%Z) ∧
  ∃ r', wf_apply {| cmd_id := cid; cmd_kind := CmdCancel reason |} now a r = (r', Ok Applied) ∧
    wr_status r' = WfCancelled reason.
Proof.
  pose proof Hv as Hv0. apply validate_iff in Hv0 as [rp Hr].
  destruct (settlement_room _ _ _ (vr_replay _ _ Hr) (vr_status _ _ Hr) Hnt) as [H1 H2].
  split_and!; [done|done|]. eexists. split.
  - eapply (apply_admitted_run r); [done|done| |exact Hsize].
    split; simpl; try done; [lia| | |].
    + unfold validate_transition_capacity. unfold MAX_WORKFLOW_TRANSITIONS,
        MAX_WORKFLOW_WORK_TRANSITIONS, WORKFLOW_SETTLEMENT_TRANSITION_RESERVE in *.
      rewrite (proj2 (Z.leb_gt (4096 + 2) _)) by lia. done.
    + intros t Ht. apply Hclock. by apply last_Some_elem_of.
    + unfold require_nonterminal. rewrite Hnt. simpl. by rewrite Htext.
  - done.
Qed.

(** the history is well formed: in a valid Run the transitions are
    numbered from one without gaps, in non-decreasing time, each command
    identity occurs once, each recorded digest is the digest of the content,
    and only settlements use the reserve. *)
Theorem workflow_history_wellformed (r : WorkflowRun) (Hv : validate r = Ok ()) :
  (∀ i t, wr_transitions r !! i = Some t → wt_sequence t = (Z.of_nat i + 1)%Z) ∧
  StronglySorted (λ t t', (wt_applied_at_ms t ≤ wt_applied_at_ms t')%Z) (wr_transitions r) ∧
  NoDup (wt_command_id <$> wr_transitions r) ∧
  (∀ t, t ∈ wr_transitions r → transition_digest t = Ok (wt_command_sha256 t)) ∧
  (∀ t, t ∈ wr_transitions r → (MAX_WORKFLOW_WORK_TRANSITIONS < wt_sequence t)%Z →
     transition_capacity_class (wt_kind t) = Settlement) ∧
  (len (wr_transitions r) ≤ MAX_WORKFLOW_TRANSITIONS)%Z.
Proof.
  apply validate_iff in Hv as [rp [Hl Hr _ _ _]].
  destruct (replayed_history _ _ Hr) as (H1 & H2 & _ & H4 & H5 & H6). split_and!; try done. lia.
Qed.

(** *** Migration *)

(** [semver::Version] is totally ordered. *)
Class SemverLaws : Prop := {
  version_total x y : version_le x y = true ∨ version_le y x = true;
  version_trans x y z : version_le x y = true → version_le y z = true → version_le x z = true;
}.

(** The definition is the same, or a strictly newer version of the same name. *)
Definition migrates (d d' : WorkflowDefinition) : Prop :=
  wd_name d' = wd_name d ∧ (d' = d ∨ version_le (wd_version d') (wd_version d) = false).

Lemma apply_kind_migrates r kind now r' k :
  apply_kind r kind now = Ok (r', k) →
  migrates (wr_definition r) (wr_definition r') ∧ wr_task_graph_id r' = wr_task_graph_id r.
Proof.
  unfold apply_kind, start_wait, migrates. intros Ha. destruct kind; inv_ok; subst; simpl in *;
    try (split; [split; [done|by left]|done]).
  - destruct (wr_status r) as [|[]| | |]; try done. inv_ok. subst. simpl.
    split; [split; [done|by left]|done].
  - destruct (wr_status r) as [|v| | |]; try done. inv_ok. subst. simpl.
    split; [split; [done|by left]|done].
  - bool_hyps. split; [split; [by apply dec_stable|by right]|done].
Qed.

(** Migration is monotone: over any sequence of calls a Run keeps its
    linked Task Graph and the name of its definition, and its definition is
    unchanged or of a strictly newer version, so an older implementation
    never takes a Run back. *)
Theorem workflow_migration_monotone (Hsem : SemverLaws) (r r' : WorkflowRun)
    (Hs : rtc wf_step r r') :
  wr_task_graph_id r' = wr_task_graph_id r ∧ migrates (wr_definition r) (wr_definition r').
Proof.
  induction Hs as [r|r r1 r2 Hs _ [IH1 [IH2 IH3]]]; [split; [done|]; split; [done|by left]|].
  assert (migrates (wr_definition r) (wr_definition r1) ∧ wr_task_graph_id r1 = wr_task_graph_id r)
    as [[M1 M2] M3].
  { apply step_cases in Hs as [->|(c & now & a & d & [r3 k] & n & _ & Had & _ & ->)].
    - split; [split; [done|by left]|done].
    - simpl. by eapply apply_kind_migrates, (ad_kind _ _ _ _ _ _ Had). }
  split; [congruence|]. split; [congruence|].
  destruct IH3 as [->|IH3]; [done|]. destruct M2 as [E|M2]; [rewrite E in IH3; by right|]. right.
  destruct (version_le (wd_version (wr_definition r2)) (wd_version (wr_definition r))) eqn:E; [|done].
  destruct (version_total (wd_version (wr_definition r)) (wd_version (wr_definition r1))) as [Hle|Hle];
    [|congruence].
  by rewrite (version_trans _ _ _ E Hle) in IH3.
Qed.
End safety.
