(* ===== verification/WorkflowCoordinator.v ===== *)
(** The atomic persistence of Workflow Runs, from
    src/src/workflow/coordinator.rs: revisioned snapshots, the
    [WorkflowCoordinator] trait, its in-memory and its SQLite implementation,
    the due-wait scan and the store's schema check. *)

From Stdlib Require Import ZArith Lia.
From stdpp Require Import sorting base tactics list gmap relations numbers strings option.
From stdpp Require Import list.
From S2P Require Import Prelude Kernel Digest Sqlite Pairs Workflow.

Definition WORKFLOW_RUN_SCHEMA_VERSION : Z := 1.
Definition MAX_WORKFLOW_SCAN_PAGE : Z := 256.

Record WorkflowRunSnapshot := {
  ws_id : WorkflowRunId;
  ws_tenant_id : option str;
  ws_revision : Z;
  ws_run : WorkflowRun;
}.

Record WorkflowCommandResult := {
  wcr_snapshot : WorkflowRunSnapshot;
  wcr_outcome : WorkflowApplyOutcome;
}.

Record WorkflowDueWait := {
  dw_run_id : WorkflowRunId;
  dw_tenant_id : option str;
  dw_revision : Z;
  dw_wait_id : WorkflowWaitId;
  dw_due_at_ms : Z;
}.

Record WorkflowDueScanPage := {
  sp_due : list WorkflowDueWait;
  sp_next_after_run_id : option WorkflowRunId;
  sp_has_more : bool;
  sp_scanned : Z;
}.

(** * The trait *)

Class WorkflowCoordinator (W : Type) := {
  wf_create_as : WorkflowRunId → WorkflowCreateRequest → Z → AuthorityContext →
                 M W WorkflowRunSnapshot;
  wf_load_as : WorkflowRunId → AuthorityContext → M W (option WorkflowRunSnapshot);
  wf_scan_due_as : Z → option WorkflowRunId → Z → AuthorityContext → M W WorkflowDueScanPage;
  wf_apply_as : WorkflowRunId → Z → WorkflowCommand → Z → AuthorityContext →
                M W WorkflowCommandResult;
}.

(** The trait's default methods: the unscoped operations act as the local
    process, and a coordinator that does not override the scan refuses it. *)
Definition wf_create {W} `{WorkflowCoordinator W} (run_id : WorkflowRunId)
    (request : WorkflowCreateRequest) (applied_at_ms : Z) : M W WorkflowRunSnapshot :=
  wf_create_as run_id request applied_at_ms local_process.
Definition wf_load {W} `{WorkflowCoordinator W} (run_id : WorkflowRunId)
    : M W (option WorkflowRunSnapshot) :=
  wf_load_as run_id local_process.
Definition wf_scan_due {W} `{WorkflowCoordinator W} (at_ms : Z)
    (after_run_id : option WorkflowRunId) (scan_limit : Z) : M W WorkflowDueScanPage :=
  wf_scan_due_as at_ms after_run_id scan_limit local_process.
Definition wf_apply_local {W} `{WorkflowCoordinator W} (run_id : WorkflowRunId)
    (expected_revision : Z) (command : WorkflowCommand) (applied_at_ms : Z)
    : M W WorkflowCommandResult :=
  wf_apply_as run_id expected_revision command applied_at_ms local_process.
Definition default_scan_due_as {W} (_ : Z) (_ : option WorkflowRunId) (_ : Z)
    (_ : AuthorityContext) : M W WorkflowDueScanPage :=
  lift (Err (wf "Workflow Coordinator does not support temporal discovery" [])).

(** * Shared checks *)

Definition validate_run_access (run_id : WorkflowRunId) (authority : AuthorityContext)
    : result () :=
  _ ← authority_validate_current authority "Workflow Coordinator authority";
  validate_identity "Workflow Run" run_id.

Definition validate_due_scan (at_ms : Z) (after_run_id : option WorkflowRunId)
    (scan_limit : Z) (authority : AuthorityContext) : result () :=
  _ ← authority_validate_current authority "Workflow temporal scan authority";
  _ ← reject_if (at_ms =? 0)%Z (wf "Workflow temporal scan time must be positive" []);
  _ ← match after_run_id with
      | Some run_id => validate_identity "Workflow scan cursor" run_id
      | None => Ok ()
      end;
  reject_if (negb (in_range 1 MAX_WORKFLOW_SCAN_PAGE scan_limit))
    (wf "Workflow scan limit must be 1-{}" [ANum MAX_WORKFLOW_SCAN_PAGE]).

Definition validate_expected_revision (revision : Z) : result () :=
  reject_if (revision =? 0)%Z (wf "Workflow revision must be positive" []).

Definition missing_run (run_id : WorkflowRunId) : HarnessError :=
  wf "Workflow Run {} does not exist" [AStr run_id].

Definition run_key (run_id : WorkflowRunId) (tenant : option str) : str * WorkflowRunId :=
  (tenant_storage_key tenant, run_id).

Definition wf_sql_revision (revision : Z) : result Z :=
  i64_try_from revision (wf "Workflow revision exceeds SQLite" []).

(** * The due-wait scan *)

Definition due_wait (s : WorkflowStatus) : option (WorkflowWaitId * Z) :=
  match s with
  | WfWaiting (WaitSignal id _ _ (Some due)) | WfWaiting (WaitTimer id due)
  | WfWaiting (WaitRetry id _ _ due _) => Some (id, due)
  | _ => None
  end.

(** What the loop of [page_from_scan] pushes for one snapshot. *)
Definition due_entry (at_ms : Z) (s : WorkflowRunSnapshot) : option WorkflowDueWait :=
  match due_wait (wr_status (ws_run s)) with
  | Some (id, due) =>
      if (due <=? at_ms)%Z
      then Some {| dw_run_id := ws_id s; dw_tenant_id := ws_tenant_id s;
                   dw_revision := ws_revision s; dw_wait_id := id; dw_due_at_ms := due |}
      else None
  | None => None
  end.

Definition page_from_scan (visited : list WorkflowRunSnapshot) (scan_limit at_ms : Z)
    : WorkflowDueScanPage :=
  let has_more := (scan_limit <? len visited)%Z in
  let visited := take (Z.to_nat scan_limit) visited in
  {| sp_due := omap (due_entry at_ms) visited;
     sp_next_after_run_id := option_map ws_id (vec_last visited);
     sp_has_more := has_more;
     sp_scanned := len visited |}.

(** A row of [workflow_runs]; its primary key is the key of the map. *)
Record RunRow := {
  rr_schema_version : Z;
  rr_revision : Z;
  rr_run_json : str;
}.

Abbreviation RunTable := (gmap (str * str) RunRow).
Abbreviation MemoryRuns := (gmap (str * str) WorkflowRunSnapshot).

Abbreviation SqliteRuns := (Connection RunTable).

Section coordinator.
Context `{!Serialize WorkflowCreateRequest, !Serialize WorkflowCommand,
          !Serialize WorkflowRunWire, !Deserialize WorkflowRunWire,
          sha : !Sha256, semver : !SemverOrder}.

(** * [MemoryWorkflowCoordinator] *)

Definition mem_wf_create_as (run_id : WorkflowRunId) (request : WorkflowCreateRequest)
    (applied_at_ms : Z) (authority : AuthorityContext) : M MemoryRuns WorkflowRunSnapshot :=
  _ ← lift (validate_run_access run_id authority);
  runs ← (get : M MemoryRuns MemoryRuns);
  let key := run_key run_id (tenant_id authority) in
  match runs !! key with
  | Some existing =>
      matches ← lift (create_matches (ws_run existing) request);
      if (matches : bool) then mret existing
      else lift (Err (wf "Workflow Run {} already exists with different creation content"
                        [AStr run_id]))
  | None =>
      run ← lift (WorkflowRun_new request applied_at_ms authority);
      let snapshot := {| ws_id := run_id; ws_tenant_id := tenant_id authority;
                         ws_revision := 1; ws_run := run |} in
      _ ← put (<[key := snapshot]> runs);
      mret snapshot
  end.

Definition mem_wf_load_as (run_id : WorkflowRunId) (authority : AuthorityContext)
    : M MemoryRuns (option WorkflowRunSnapshot) :=
  _ ← lift (validate_run_access run_id authority);
  runs ← (get : M MemoryRuns MemoryRuns);
  mret (runs !! run_key run_id (tenant_id authority)).

Definition mem_scan_due_as (at_ms : Z) (after_run_id : option WorkflowRunId)
    (scan_limit : Z) (authority : AuthorityContext) : M MemoryRuns WorkflowDueScanPage :=
  _ ← lift (validate_due_scan at_ms after_run_id scan_limit authority);
  runs ← (get : M MemoryRuns MemoryRuns);
  let visited := take (Z.to_nat (Z.min usize_max (scan_limit + 1)))
    (range_after runs (tenant_storage_key (tenant_id authority)) after_run_id) in
  mret (page_from_scan visited scan_limit at_ms).

(** [run.apply(..)] on a copy of the Run. *)
Definition apply_copy (run : WorkflowRun) (command : WorkflowCommand) (applied_at_ms : Z)
    (authority : AuthorityContext) : result (WorkflowRun * WorkflowApplyOutcome) :=
  match wf_apply command applied_at_ms authority run with
  | (run', Ok outcome) => Ok (run', outcome)
  | (_, Err e) => Err e
  end.

Definition mem_wf_apply_as (run_id : WorkflowRunId) (expected_revision : Z)
    (command : WorkflowCommand) (applied_at_ms : Z) (authority : AuthorityContext)
    : M MemoryRuns WorkflowCommandResult :=
  _ ← lift (validate_run_access run_id authority);
  _ ← lift (validate_expected_revision expected_revision);
  runs ← (get : M MemoryRuns MemoryRuns);
  let key := run_key run_id (tenant_id authority) in
  current ← lift (ok_or (runs !! key) (missing_run run_id));
  recognized ← lift (recognizes_command (ws_run current) command);
  if (recognized : bool)
  then mret {| wcr_snapshot := current; wcr_outcome := Duplicate |}
  else
    _ ← lift (reject_if (negb (ws_revision current =? expected_revision)%Z)
                (WorkflowConflict run_id expected_revision (ws_revision current)));
    p ← lift (apply_copy (ws_run current) command applied_at_ms authority);
    revision ← lift (ok_or (checked_add u64_max (ws_revision current) 1)
                       (wf "Workflow revision overflow" []));
    let saved := {| ws_id := ws_id current; ws_tenant_id := ws_tenant_id current;
                    ws_revision := revision; ws_run := p.1 |} in
    _ ← put (<[key := saved]> runs);
    mret {| wcr_snapshot := saved; wcr_outcome := p.2 |}.

#[global] Instance MemoryWorkflowCoordinator : WorkflowCoordinator MemoryRuns := {|
  wf_create_as := mem_wf_create_as;
  wf_load_as := mem_wf_load_as;
  wf_scan_due_as := mem_scan_due_as;
  wf_apply_as := mem_wf_apply_as;
|}.

(** * [SqliteWorkflowCoordinator] *)

Definition encode_run (run : WorkflowRun) : result str :=
  _ ← validate run;
  encoded ← ok_or (to_json (run_wire run)) (wf "cannot encode Workflow Run" []);
  _ ← reject_if (MAX_WORKFLOW_JSON_BYTES <? str_len encoded)%Z
        (wf "Workflow Run exceeds {} encoded bytes" [ANum MAX_WORKFLOW_JSON_BYTES]);
  Ok encoded.

Definition wf_decode_snapshot (run_id : WorkflowRunId) (tenant : option str)
    (schema_version revision : Z) (encoded : str) : result WorkflowRunSnapshot :=
  _ ← reject_if (negb (schema_version =? WORKFLOW_RUN_SCHEMA_VERSION)%Z)
        (wf "Workflow Run {} uses unsupported schema {}" [AStr run_id; ANum schema_version]);
  revision ← u64_try_from revision (wf "Workflow revision is invalid" []);
  _ ← validate_expected_revision revision;
  wire ← ok_or (from_json encoded : option WorkflowRunWire) (wf "decode Workflow Run: {}" []);
  run ← ok_or (run_deserialize wire) (wf "decode Workflow Run: {}" []);
  _ ← validate run;
  Ok {| ws_id := run_id; ws_tenant_id := tenant; ws_revision := revision; ws_run := run |}.

(** [load_snapshot], after its [SELECT] returned the row. *)
Definition decode_row (run_id : WorkflowRunId) (tenant : option str) (row : RunRow)
    : result WorkflowRunSnapshot :=
  encoded ← bounded_text Prelude.Workflow MAX_WORKFLOW_JSON_BYTES "Workflow Run" (rr_run_json row);
  wf_decode_snapshot run_id tenant (rr_schema_version row) (rr_revision row) encoded.

Definition load_snapshot (run_id : WorkflowRunId) (tenant : option str)
    : M SqliteRuns (option WorkflowRunSnapshot) :=
  t ← (select Prelude.Workflow : M SqliteRuns RunTable);
  match t !! run_key run_id tenant with
  | None => mret None
  | Some row => snapshot ← lift (decode_row run_id tenant row); mret (Some snapshot)
  end.

Definition sql_wf_create_as (run_id : WorkflowRunId) (request : WorkflowCreateRequest)
    (applied_at_ms : Z) (authority : AuthorityContext) : M SqliteRuns WorkflowRunSnapshot :=
  _ ← lift (validate_run_access run_id authority);
  transaction Prelude.Workflow (
    loaded ← load_snapshot run_id (tenant_id authority);
    match loaded with
    | Some existing =>
        matches ← lift (create_matches (ws_run existing) request);
        if (matches : bool) then mret existing
        else lift (Err (wf "Workflow Run {} already exists with different creation content"
                          [AStr run_id]))
    | None =>
        run ← lift (WorkflowRun_new request applied_at_ms authority);
        encoded ← lift (encode_run run);
        s ← (get : M SqliteRuns SqliteRuns);
        _ ← store Prelude.Workflow (<[run_key run_id (tenant_id authority) :=
              {| rr_schema_version := WORKFLOW_RUN_SCHEMA_VERSION; rr_revision := 1;
                 rr_run_json := encoded |}]> (rows s));
        mret {| ws_id := run_id; ws_tenant_id := tenant_id authority; ws_revision := 1;
                ws_run := run |}
    end).

Definition sql_wf_load_as (run_id : WorkflowRunId) (authority : AuthorityContext)
    : M SqliteRuns (option WorkflowRunSnapshot) :=
  _ ← lift (validate_run_access run_id authority);
  load_snapshot run_id (tenant_id authority).

(** The rows of the [SELECT] of [scan_due_as], before its [LIMIT]. *)
Definition select_rows_after (t : RunTable) (tenant : str) (after : str)
    : list (WorkflowRunId * RunRow) :=
  (λ p : (str * str) * RunRow, (p.1.2, p.2)) <$>
    List.filter (λ p, bool_decide (p.1.1 = tenant) && negb (str_leb p.1.2 after)) (pairs_iter t).

(** The row mapper of the [SELECT]: bounded texts. *)
Definition read_run_row (p : WorkflowRunId * RunRow) : result (WorkflowRunId * RunRow) :=
  _ ← bounded_text Prelude.Workflow MAX_WORKFLOW_IDEMPOTENCY_BYTES "Workflow Run identity" p.1;
  _ ← bounded_text Prelude.Workflow MAX_WORKFLOW_JSON_BYTES "Workflow Run" (rr_run_json p.2);
  Ok p.

Definition sql_scan_due_as (at_ms : Z) (after_run_id : option WorkflowRunId)
    (scan_limit : Z) (authority : AuthorityContext) : M SqliteRuns WorkflowDueScanPage :=
  _ ← lift (validate_due_scan at_ms after_run_id scan_limit authority);
  fetch ← lift (ok_or (checked_add usize_max scan_limit 1) (wf "Workflow scan limit overflow" []));
  _ ← lift (i64_try_from fetch (wf "Workflow scan limit exceeds SQLite" []));
  t ← (select Prelude.Workflow : M SqliteRuns RunTable);
  let found := take (Z.to_nat fetch)
    (select_rows_after t (tenant_storage_key (tenant_id authority)) (default [] after_run_id)) in
  rows ← lift (fold_m (λ acc p, p ← read_run_row p; Ok (acc ++ [p])) [] found);
  visited ← lift (fold_m (λ acc (p : WorkflowRunId * RunRow),
              snapshot ← wf_decode_snapshot p.1 (tenant_id authority)
                           (rr_schema_version p.2) (rr_revision p.2) (rr_run_json p.2);
              Ok (acc ++ [snapshot])) [] rows);
  mret (page_from_scan visited scan_limit at_ms).

(** [UPDATE .. WHERE key AND revision = expected]. *)
Definition update_run (key : str * WorkflowRunId) (expected next : Z) (json : str)
    (t : RunTable) : RunTable * Z :=
  match t !! key with
  | Some row =>
      if (rr_revision row =? expected)%Z
      then (<[key := {| rr_schema_version := rr_schema_version row; rr_revision := next;
                        rr_run_json := json |}]> t, 1%Z)
      else (t, 0%Z)
  | None => (t, 0%Z)
  end.

(** The body of the transaction of [apply_as]. *)
Definition wf_apply_body (run_id : WorkflowRunId) (expected_revision : Z)
    (command : WorkflowCommand) (applied_at_ms : Z) (authority : AuthorityContext)
    : M SqliteRuns WorkflowCommandResult :=
  loaded ← load_snapshot run_id (tenant_id authority);
  current ← lift (ok_or loaded (missing_run run_id));
  recognized ← lift (recognizes_command (ws_run current) command);
  if (recognized : bool)
  then mret {| wcr_snapshot := current; wcr_outcome := Duplicate |}
  else
    _ ← lift (reject_if (negb (ws_revision current =? expected_revision)%Z)
                (WorkflowConflict run_id expected_revision (ws_revision current)));
    p ← lift (apply_copy (ws_run current) command applied_at_ms authority);
    revision ← lift (ok_or (checked_add u64_max (ws_revision current) 1)
                       (wf "Workflow revision overflow" []));
    encoded ← lift (encode_run p.1);
    next_sql ← lift (wf_sql_revision revision);
    current_sql ← lift (wf_sql_revision (ws_revision current));
    s ← (get : M SqliteRuns SqliteRuns);
    let u := update_run (run_key run_id (tenant_id authority)) current_sql next_sql encoded (rows s) in
    _ ← store Prelude.Workflow u.1;
    _ ← lift (reject_if (negb (u.2 =? 1)%Z)
                (wf "Workflow atomic update changed an unexpected row count" []));
    mret {| wcr_snapshot := {| ws_id := run_id; ws_tenant_id := ws_tenant_id current;
                               ws_revision := revision; ws_run := p.1 |};
            wcr_outcome := p.2 |}.

Definition sql_wf_apply_as (run_id : WorkflowRunId) (expected_revision : Z)
    (command : WorkflowCommand) (applied_at_ms : Z) (authority : AuthorityContext)
    : M SqliteRuns WorkflowCommandResult :=
  _ ← lift (validate_run_access run_id authority);
  _ ← lift (validate_expected_revision expected_revision);
  transaction Prelude.Workflow
    (wf_apply_body run_id expected_revision command applied_at_ms authority).

#[global] Instance SqliteWorkflowCoordinator : WorkflowCoordinator SqliteRuns := {|
  wf_create_as := sql_wf_create_as;
  wf_load_as := sql_wf_load_as;
  wf_scan_due_as := sql_scan_due_as;
  wf_apply_as := sql_wf_apply_as;
|}.

(** * The tables of the database file *)

Record WorkflowDatabase := {
  db_meta : option (list (Z * Z));
  db_runs : option RunTable;
}.

Definition invalid_run_row (p : (str * WorkflowRunId) * RunRow) : bool :=
  negb (rr_schema_version p.2 =? WORKFLOW_RUN_SCHEMA_VERSION)%Z || (rr_revision p.2 <=? 0)%Z
  || (128 <? len p.1.1)%Z || (len p.1.2 =? 0)%Z || (256 <? len p.1.2)%Z
  || (MAX_WORKFLOW_JSON_BYTES <? str_len (rr_run_json p.2))%Z.

(** [validate_store]: the two queries and their checks. *)
Definition validate_store (meta : list (Z * Z)) (t : RunTable) : M (Connection WorkflowDatabase) () :=
  _ ← sql_call Prelude.Workflow;
  _ ← lift (reject_if (bool_decide (meta ≠ [(1, WORKFLOW_RUN_SCHEMA_VERSION)%Z]))
              (wf "SQLite Workflow store schema is unknown or malformed" []));
  _ ← sql_call Prelude.Workflow;
  lift (reject_if (negb (len (List.filter invalid_run_row (pairs_iter t)) =? 0)%Z)
          (wf "SQLite Workflow store contains invalid row metadata" [])).

(** The two [table_exists] queries. *)
Definition tables_exist : M (Connection WorkflowDatabase) WorkflowDatabase :=
  _ ← sql_call Prelude.Workflow;
  select Prelude.Workflow.

Definition initialize_or_validate : M (Connection WorkflowDatabase) () :=
  db ← tables_exist;
  match db_meta db, db_runs db with
  | None, None =>
      transaction Prelude.Workflow
        (store Prelude.Workflow
          {| db_meta := Some [(1, WORKFLOW_RUN_SCHEMA_VERSION)%Z]; db_runs := Some ∅ |})
  | Some meta, Some t => validate_store meta t
  | _, _ => lift (Err (wf "SQLite Workflow store is partial" []))
  end.

Definition validate_existing_store : M (Connection WorkflowDatabase) () :=
  db ← tables_exist;
  match db_meta db, db_runs db with
  | None, None => mret ()
  | Some meta, Some t => validate_store meta t
  | _, _ => lift (Err (wf "SQLite Workflow store is partial" []))
  end.

Definition configure_connection (mode : str) : M (Connection WorkflowDatabase) () :=
  _ ← require_wal Prelude.Workflow mode;
  sql_call Prelude.Workflow.

(** [SqliteWorkflowCoordinator::open] and [validate_existing]. *)
Definition wf_sqlite_open (has_parent : bool) (mode : str)
    : M (Connection WorkflowDatabase) SqliteRuns :=
  _ ← open_file Prelude.Workflow has_parent;
  _ ← configure_connection mode;
  _ ← initialize_or_validate;
  c ← (get : M (Connection WorkflowDatabase) (Connection WorkflowDatabase));
  mret ({| rows := default ∅ (db_runs (rows c)); faults := faults c |} : SqliteRuns).

Definition wf_validate_existing : M (Connection WorkflowDatabase) () :=
  _ ← open_read_only Prelude.Workflow;
  _ ← sql_call Prelude.Workflow;
  validate_existing_store.
End coordinator.
