(* ===== verification/WorkflowStores.v ===== *)
(** The contract of a Workflow Coordinator, and the proof that the in-memory
    and the SQLite coordinator of src/src/workflow/coordinator.rs meet it, the
    latter for every schedule of statement failures. *)

From Stdlib Require Import ZArith Lia.
From stdpp Require Import sorting base tactics list gmap relations numbers strings option.
From stdpp Require Import list.
From S2P Require Import Prelude Kernel Digest Sqlite Pairs Workflow WorkflowSafety WorkflowCoordinator.

Section laws.
Context `{!Serialize WorkflowCreateRequest, !Serialize WorkflowCommand,
          !Serialize WorkflowRunWire, sha : !Sha256, semver : !SemverOrder}.

(** A stored Run: valid, and charged for its encoding. *)
Definition run_ok (r : WorkflowRun) : Prop :=
  validate r = Ok () ∧ encoded_size r = Ok (wr_charge r).

Definition run_stored_ok (key : str * WorkflowRunId) (sn : WorkflowRunSnapshot) : Prop :=
  ws_id sn = key.2 ∧ ws_tenant_id sn = key_tenant key.1 ∧ run_ok (ws_run sn) ∧
  (1 ≤ ws_revision sn)%Z ∧ key.2 ≠ [] ∧ (str_len key.2 ≤ MAX_WORKFLOW_IDEMPOTENCY_BYTES)%Z.

Definition first_run (id : WorkflowRunId) (a : AuthorityContext) (run : WorkflowRun)
    : WorkflowRunSnapshot :=
  {| ws_id := id; ws_tenant_id := tenant_id a; ws_revision := 1; ws_run := run |}.

Definition next_run_snapshot (cur : WorkflowRunSnapshot) (run : WorkflowRun)
    : WorkflowRunSnapshot :=
  {| ws_id := ws_id cur; ws_tenant_id := ws_tenant_id cur;
     ws_revision := ws_revision cur + 1; ws_run := run |}.

Class WorkflowLaws (W : Type) `{!WorkflowCoordinator W} := {
  wc_inv : W → Prop;
  wc_view : W → gmap (str * WorkflowRunId) WorkflowRunSnapshot;
  wc_stored s key sn : wc_inv s → wc_view s !! key = Some sn → run_stored_ok key sn;
  wc_create_law id req now a s s' r :
    wc_inv s → wf_create_as id req now a s = (s', r) → wc_inv s' ∧
    match r with
    | Ok sn => validate_run_access id a = Ok () ∧
        ((wc_view s !! run_key id (tenant_id a) = Some sn ∧
          create_matches (ws_run sn) req = Ok true ∧ wc_view s' = wc_view s) ∨
         (wc_view s !! run_key id (tenant_id a) = None ∧
          ∃ run, WorkflowRun_new req now a = Ok run ∧ sn = first_run id a run ∧
            wc_view s' = <[run_key id (tenant_id a) := sn]> (wc_view s)))
    | Err _ => wc_view s' = wc_view s
    end;
  wc_load_law id a s s' r :
    wc_inv s → wf_load_as id a s = (s', r) →
    wc_inv s' ∧ wc_view s' = wc_view s ∧
    ∀ o, r = Ok o → validate_run_access id a = Ok () ∧
      o = wc_view s !! run_key id (tenant_id a);
  wc_scan_law at_ms after limit a s s' r :
    wc_inv s → wf_scan_due_as at_ms after limit a s = (s', r) →
    wc_inv s' ∧ wc_view s' = wc_view s ∧
    ∀ page, r = Ok page → validate_due_scan at_ms after limit a = Ok () ∧
      page = page_from_scan (take (Z.to_nat (limit + 1))
        (values_after (wc_view s) (tenant_storage_key (tenant_id a)) after)) limit at_ms;
  wc_apply_law id rev c now a s s' r :
    wc_inv s → wf_apply_as id rev c now a s = (s', r) → wc_inv s' ∧
    match r with
    | Ok res => validate_run_access id a = Ok () ∧
        ∃ cur, wc_view s !! run_key id (tenant_id a) = Some cur ∧
        ((recognizes_command (ws_run cur) c = Ok true ∧ wc_view s' = wc_view s ∧
          res = {| wcr_snapshot := cur; wcr_outcome := Duplicate |}) ∨
         (ws_revision cur = rev ∧ ∃ run, wf_apply c now a (ws_run cur) = (run, Ok Applied) ∧
          res = {| wcr_snapshot := next_run_snapshot cur run; wcr_outcome := Applied |} ∧
          wc_view s' = <[run_key id (tenant_id a) := next_run_snapshot cur run]> (wc_view s)))
    | Err _ => wc_view s' = wc_view s
    end;
  (** The store's own machinery works: no statement is going to fail. *)
  wc_healthy : W → Prop;
  (** A working store answers a command its Run already knows before it looks
      at the expected revision. *)
  wc_recognize_law id rev c now a s cur :
    wc_inv s → wc_healthy s → validate_run_access id a = Ok () →
    validate_expected_revision rev = Ok () →
    wc_view s !! run_key id (tenant_id a) = Some cur →
    match recognizes_command (ws_run cur) c with
    | Ok true => ∃ s', wc_healthy s' ∧
        wf_apply_as id rev c now a s
        = (s', Ok {| wcr_snapshot := cur; wcr_outcome := Duplicate |})
    | Ok false => True
    | Err e => ∃ s', wf_apply_as id rev c now a s = (s', Err e)
    end;
}.
End laws.

Section stores.
Context `{!Serialize WorkflowCreateRequest, !Serialize WorkflowCommand,
          !Serialize WorkflowRunWire, !Deserialize WorkflowRunWire,
          sha : !Sha256, semver : !SemverOrder}.

(** ** Runs the domain methods produce can be stored *)

Lemma encoded_size_settle r class n :
  encoded_size_for r class = Ok n → encoded_size (with_charge r n) = Ok n.
Proof.
  unfold encoded_size, encoded_size_for, validate_materialization_capacity. intros He. inv_ok.
  subst n. change (run_wire (with_charge r (str_len a))) with (run_wire r).
  match goal with H : to_json _ = Some _ |- _ => rewrite H end. simpl.
  match goal with H : (MAX_WORKFLOW_JSON_BYTES <? _)%Z = false |- _ => rewrite H end. done.
Qed.

Lemma new_run_ok req now a r : WorkflowRun_new req now a = Ok r → run_ok r.
Proof.
  unfold WorkflowRun_new. intros Hn. inv_ok. subst r. split; [done|].
  by eapply encoded_size_settle.
Qed.

Lemma apply_run_ok c now a r r' : wf_apply c now a r = (r', Ok Applied) → run_ok r'.
Proof.
  intros (d & p & n & _ & Hv & He & ->)%apply_applied. split; [done|].
  by eapply encoded_size_settle.
Qed.

Lemma apply_copy_applied c now a r p :
  apply_copy r c now a = Ok p → recognizes_command r c = Ok false →
  wf_apply c now a r = (p.1, Ok Applied) ∧ p.2 = Applied.
Proof.
  unfold apply_copy. intros Ha Hr. destruct (wf_apply c now a r) as [r' [[]|e]] eqn:E; inv_ok; subst.
  - done.
  - exfalso. unfold wf_apply in E. inv_M.
    match goal with b : bool |- _ => destruct b; [congruence|] end. by inv_M.
Qed.

Lemma access_key id a :
  validate_run_access id a = Ok () →
  key_tenant (tenant_storage_key (tenant_id a)) = tenant_id a ∧ id ≠ [] ∧
  (str_len id ≤ MAX_WORKFLOW_IDEMPOTENCY_BYTES)%Z.
Proof.
  unfold validate_run_access, validate_identity. intros Hv. inv_ok. bool_hyps.
  split_and!; [by eapply key_tenant_of| |done]. by intros ->.
Qed.

(** ** Memory *)

Definition mem_runs_inv (s : MemoryRuns) : Prop := map_Forall run_stored_ok s.

Lemma mem_create_cases (id : str) (req : WorkflowCreateRequest) (now : Z)
    (a : AuthorityContext) (s s' : MemoryRuns) (sn : WorkflowRunSnapshot) :
  mem_wf_create_as id req now a s = (s', Ok sn) →
  validate_run_access id a = Ok () ∧
  ((s !! run_key id (tenant_id a) = Some sn ∧ create_matches (ws_run sn) req = Ok true ∧ s' = s) ∨
   (s !! run_key id (tenant_id a) = None ∧
    ∃ run, WorkflowRun_new req now a = Ok run ∧ sn = first_run id a run ∧
      s' = <[run_key id (tenant_id a) := sn]> s)).
Proof.
  unfold mem_wf_create_as. intros Hc. inv_M.
  match goal with H : validate_run_access _ _ = Ok ?u |- _ => destruct u end. split; [done|].
  destruct (_ !! _) as [ex|] eqn:E.
  - left. inv_M. match goal with b : bool |- _ => destruct b end; [|by inv_M]. inv_M. done.
  - right. inv_M. split; [done|]. by eauto.
Qed.

#[global] Program Instance MemoryWorkflowLaws : WorkflowLaws MemoryRuns := {|
  wc_inv := mem_runs_inv;
  wc_view s := s;
  wc_healthy _ := True;
|}.
Next Obligation. intros s key sn Hi Hk. by apply Hi. Qed.
Next Obligation.
  intros id req now a s s' [sn|e] Hi Hc; simpl in Hc.
  - apply mem_create_cases in Hc as [Hv Hc]. split; [|done].
    destruct Hc as [(_ & _ & ->)|(_ & run & Hn & -> & ->)]; [done|].
    apply map_Forall_insert_2; [|done]. destruct (access_key _ _ Hv) as (K1 & K2 & K3).
    split_and!; [done|by symmetry|by eapply new_run_ok|done|done|done].
  - unfold mem_wf_create_as in Hc. inv_M_err; try done.
    destruct (_ !! _) as [ex|] eqn:E; inv_M_err; try done.
    match goal with b : bool |- _ => destruct b end; inv_M_err; done.
Qed.
Next Obligation.
  intros id a s s' [o|e] Hi Hl; simpl in Hl; unfold mem_wf_load_as in Hl.
  - inv_M. inv_ok. split_and!; [done|done|]. by intros o' [= <-].
  - inv_M_err; done.
Qed.
Next Obligation.
  intros at_ms after limit a s s' [p|e] Hi Hl; simpl in Hl; unfold mem_scan_due_as in Hl.
  - inv_M. inv_ok. split_and!; [done|done|]. intros p' [= <-]. split; [done|].
    rewrite range_after_values. f_equal. f_equal. unfold validate_due_scan, in_range in *. inv_ok.
    bool_hyps. unfold MAX_WORKFLOW_SCAN_PAGE, usize_max, u64_max in *. lia.
  - inv_M_err; done.
Qed.
Next Obligation.
  intros id rev c now a s s' r Hi Ha; simpl in Ha; unfold mem_wf_apply_as in Ha.
  destruct r as [res|e].
  - inv_M. match goal with b : bool |- _ => destruct b end; inv_M; inv_ok.
    { split; [done|]. split; [done|]. eexists. split; [done|]. by left. }
    bool_hyps.
    match goal with H : checked_add _ _ _ = _ |- _ => apply checked_add_Some in H as [-> _] end.
    match goal with H : apply_copy _ _ _ _ = Ok _ |- _ =>
      apply apply_copy_applied in H as [Hap ->]; [|done] end.
    match goal with H : _ !! _ = Some ?cur |- _ => rename cur into sn; rename H into Hcur end.
    split; [|split; [done|]; exists sn; split; [done|]; right; split; [done|]; by eauto].
    destruct (Hi _ _ Hcur) as (K1 & K2 & _ & K4 & K5 & K6).
    apply map_Forall_insert_2; [|done].
    split_and!; [done|done|by eapply apply_run_ok|simpl; lia|done|done].
  - inv_M_err; try done. match goal with b : bool |- _ => destruct b end; inv_M_err; done.
Qed.
Next Obligation.
  intros id rev c now a s cur _ _ Hv Hrev Hcur. simpl. unfold mem_wf_apply_as.
  unfold mbind, M_bind, lift, get. rewrite Hv, Hrev. simpl in Hcur. rewrite Hcur. simpl.
  destruct (recognizes_command (ws_run cur) c) as [[]|e]; [|done|by exists s]. by exists s.
Qed.

(** ** The codec of stored rows *)

Context `{!Codec WorkflowRunWire}.

Lemma run_deserialize_wire r : run_ok r → run_deserialize (run_wire r) = Some r.
Proof.
  intros [Hv He]. destruct r as [d g st ts n]. unfold run_deserialize. simpl.
  change (validate _) with (validate {| wr_definition := d; wr_task_graph_id := g; wr_status := st;
    wr_transitions := ts; wr_charge := n |}).
  change (encoded_size _) with (encoded_size {| wr_definition := d; wr_task_graph_id := g;
    wr_status := st; wr_transitions := ts; wr_charge := n |}).
  rewrite Hv. simpl. by rewrite He.
Qed.

Lemma decode_encoded id tenant rev run json :
  run_ok run → encode_run run = Ok json → (1 ≤ rev)%Z →
  decode_row id tenant {| rr_schema_version := WORKFLOW_RUN_SCHEMA_VERSION; rr_revision := rev;
                          rr_run_json := json |}
  = Ok {| ws_id := id; ws_tenant_id := tenant; ws_revision := rev; ws_run := run |}.
Proof.
  intros Hok He Hr. unfold encode_run in He. inv_ok. bool_hyps. subst json.
  unfold decode_row, bounded_text, wf_decode_snapshot, validate_expected_revision, u64_try_from. simpl.
  rewrite (proj2 (Z.ltb_ge MAX_WORKFLOW_JSON_BYTES _)) by done. simpl.
  rewrite (proj2 (Z.leb_le 0 rev)) by lia. simpl. rewrite (proj2 (Z.eqb_neq rev 0)) by lia. simpl.
  match goal with H : to_json _ = Some _ |- _ => rewrite (codec_roundtrip _ _ H) end. simpl.
  rewrite (run_deserialize_wire run Hok). simpl. by rewrite (proj1 Hok).
Qed.

Lemma decode_row_ok id tenant row sn :
  decode_row id tenant row = Ok sn →
  ws_id sn = id ∧ ws_tenant_id sn = tenant ∧ ws_revision sn = rr_revision row ∧
  rr_schema_version row = WORKFLOW_RUN_SCHEMA_VERSION ∧
  (str_len (rr_run_json row) ≤ MAX_WORKFLOW_JSON_BYTES)%Z ∧
  wf_decode_snapshot id tenant (rr_schema_version row) (rr_revision row) (rr_run_json row) = Ok sn.
Proof.
  unfold decode_row, bounded_text. intros Hd. inv_ok. bool_hyps. subst. pose proof Hd as Hd'.
  unfold wf_decode_snapshot in Hd. inv_ok. bool_hyps. subst sn. simpl.
  match goal with H : u64_try_from _ _ = _ |- _ => apply u64_try_from_ok in H as [-> _] end.
  by split_and!.
Qed.

(** ** SQLite *)

Definition run_row_view (key : str * WorkflowRunId) (row : RunRow) : option WorkflowRunSnapshot :=
  match decode_row key.2 (key_tenant key.1) row with Ok sn => Some sn | Err _ => None end.

Definition run_row_ok (key : str * WorkflowRunId) (row : RunRow) : Prop :=
  ∃ sn, run_row_view key row = Some sn ∧ run_stored_ok key sn.

Definition sql_runs_inv (s : SqliteRuns) : Prop := map_Forall run_row_ok (rows s).
Definition sql_runs_view (s : SqliteRuns) : gmap (str * WorkflowRunId) WorkflowRunSnapshot :=
  map_imap run_row_view (rows s).

Lemma run_row_view_Some key row sn :
  run_row_view key row = Some sn ↔ decode_row key.2 (key_tenant key.1) row = Ok sn.
Proof. unfold run_row_view. destruct (decode_row _ _ _); split; congruence. Qed.

Lemma sql_runs_lookup s key : sql_runs_view s !! key = rows s !! key ≫= run_row_view key.
Proof. unfold sql_runs_view. apply map_lookup_imap. Qed.

Lemma sql_runs_same s s' :
  rows s' = rows s → sql_runs_inv s → sql_runs_inv s' ∧ sql_runs_view s' = sql_runs_view s.
Proof. unfold sql_runs_inv, sql_runs_view. by intros ->. Qed.

Lemma sql_runs_insert s s' key row sn :
  rows s' = <[key := row]> (rows s) → run_row_view key row = Some sn →
  run_stored_ok key sn → sql_runs_inv s →
  sql_runs_inv s' ∧ sql_runs_view s' = <[key := sn]> (sql_runs_view s).
Proof.
  intros E Hv Hok Hi. split.
  - unfold sql_runs_inv. rewrite E. apply map_Forall_insert_2; [by exists sn|done].
  - apply map_eq. intros k. rewrite sql_runs_lookup, E. destruct (decide (k = key)) as [->|Hne].
    + by rewrite !lookup_insert_eq.
    + rewrite !lookup_insert_ne by done. by rewrite sql_runs_lookup.
Qed.

Lemma load_snapshot_ok id a s s' r :
  sql_runs_inv s → validate_run_access id a = Ok () →
  load_snapshot id (tenant_id a) s = (s', r) →
  rows s' = rows s ∧ ∀ o, r = Ok o → o = sql_runs_view s !! run_key id (tenant_id a).
Proof.
  intros Hi (Hk & _)%access_key Hl. unfold load_snapshot in Hl.
  apply (f_equal (λ x, x)) in Hl. unfold mbind at 1, M_bind in Hl.
  destruct (select _ s) as [s1 [t|e]] eqn:Es; apply select_rows in Es as [Hs Ht].
  2: { injection Hl as <- <-. done. }
  specialize (Ht t eq_refl) as ->. rewrite sql_runs_lookup. unfold run_row_view, run_key in *. simpl.
  rewrite Hk. destruct (rows s !! _) as [row|] eqn:Er; simpl.
  - unfold lift, mbind, M_bind in Hl.
    destruct (decode_row id (tenant_id a) row) as [sn|e] eqn:Ed; injection Hl as <- <-; [|done].
    split; [done|]. intros o [= <-]. done.
  - injection Hl as <- <-. split; [done|]. by intros o [= <-].
Qed.

Lemma stored_first id a run :
  validate_run_access id a = Ok () → run_ok run →
  run_stored_ok (run_key id (tenant_id a)) (first_run id a run).
Proof.
  intros (K1 & K2 & K3)%access_key Hok. by split_and!.
Qed.

(** A row written from an encoded Run reads back as its snapshot. *)
Lemma run_row_encoded id a rev run json :
  validate_run_access id a = Ok () → run_ok run → encode_run run = Ok json → (1 ≤ rev)%Z →
  run_row_view (run_key id (tenant_id a))
    {| rr_schema_version := WORKFLOW_RUN_SCHEMA_VERSION; rr_revision := rev; rr_run_json := json |}
  = Some {| ws_id := id; ws_tenant_id := tenant_id a; ws_revision := rev; ws_run := run |}.
Proof.
  intros (K1 & _)%access_key Hok He Hr. apply run_row_view_Some. simpl. rewrite K1.
  by apply decode_encoded.
Qed.

Lemma sql_create_law id req now a s s' r :
  sql_runs_inv s → sql_wf_create_as id req now a s = (s', r) → sql_runs_inv s' ∧
  match r with
  | Ok sn => validate_run_access id a = Ok () ∧
      ((sql_runs_view s !! run_key id (tenant_id a) = Some sn ∧
        create_matches (ws_run sn) req = Ok true ∧ sql_runs_view s' = sql_runs_view s) ∨
       (sql_runs_view s !! run_key id (tenant_id a) = None ∧
        ∃ run, WorkflowRun_new req now a = Ok run ∧ sn = first_run id a run ∧
          sql_runs_view s' = <[run_key id (tenant_id a) := sn]> (sql_runs_view s)))
  | Err _ => sql_runs_view s' = sql_runs_view s
  end.
Proof.
  intros Hi Hc. unfold sql_wf_create_as in Hc. destruct r as [sn|e].
  2: { inv_M_err; [done|]. apply transaction_err in Hc. by apply sql_runs_same. }
  inv_M. match goal with H : validate_run_access _ _ = Ok ?u |- _ => destruct u; rename H into Hv end.
  apply transaction_ok in Hc as (s1 & s2 & Hs1 & Hc & Hs2).
  destruct (sql_runs_same _ _ Hs1 Hi) as [Hi1 Hv1]. inv_M.
  match goal with H : load_snapshot _ _ _ = _ |- _ =>
    apply load_snapshot_ok in H as [Hs3 Hl]; [|done..]; specialize (Hl _ eq_refl) as -> end.
  rewrite Hv1 in Hc. destruct (sql_runs_view s !! _) as [ex|] eqn:E.
  - inv_M. match goal with b : bool |- _ => destruct b end; [|by inv_M]. inv_M.
    destruct (sql_runs_same s s') as [? ?]; [congruence|done|]. split; [done|]. split; [done|]. by left.
  - inv_M. match goal with H : store _ _ _ = _ |- _ => apply store_ok in H as Hst end.
    match goal with H : WorkflowRun_new _ _ _ = Ok ?run |- _ => rename run into nr; rename H into Hn end.
    pose proof (new_run_ok _ _ _ _ Hn) as Hok.
    match goal with H : encode_run _ = Ok ?j |- _ => rename H into He end.
    rewrite Hs3, Hs1 in Hst. rewrite Hst in Hs2.
    destruct (sql_runs_insert s s' _ _ (first_run id a nr) Hs2) as [? ?];
      [by apply run_row_encoded|by apply stored_first|done|].
    split; [done|]. split; [done|]. right. split; [done|]. by eauto.
Qed.

Lemma sql_apply_law id rev c now a s s' r :
  sql_runs_inv s → sql_wf_apply_as id rev c now a s = (s', r) → sql_runs_inv s' ∧
  match r with
  | Ok res => validate_run_access id a = Ok () ∧
      ∃ cur, sql_runs_view s !! run_key id (tenant_id a) = Some cur ∧
      ((recognizes_command (ws_run cur) c = Ok true ∧ sql_runs_view s' = sql_runs_view s ∧
        res = {| wcr_snapshot := cur; wcr_outcome := Duplicate |}) ∨
       (ws_revision cur = rev ∧ ∃ run, wf_apply c now a (ws_run cur) = (run, Ok Applied) ∧
        res = {| wcr_snapshot := next_run_snapshot cur run; wcr_outcome := Applied |} ∧
        sql_runs_view s' = <[run_key id (tenant_id a) := next_run_snapshot cur run]> (sql_runs_view s)))
  | Err _ => sql_runs_view s' = sql_runs_view s
  end.
Proof.
  intros Hi Ha. unfold sql_wf_apply_as in Ha. destruct r as [res|e].
  2: { inv_M_err; [done|done|]. apply transaction_err in Ha. by apply sql_runs_same. }
  inv_M. inv_ok. match goal with H : validate_run_access _ _ = _ |- _ => rename H into Hv end.
  apply transaction_ok in Ha as (s1 & s2 & Hs1 & Ha & Hs2).
  destruct (sql_runs_same _ _ Hs1 Hi) as [Hi1 Hv1]. unfold wf_apply_body in Ha. inv_M.
  match goal with H : load_snapshot _ _ _ = _ |- _ =>
    apply load_snapshot_ok in H as [Hs3 Hl]; [|done..]; specialize (Hl _ eq_refl) as -> end.
  inv_ok. match goal with H : sql_runs_view s1 !! _ = Some ?c |- _ =>
    rewrite Hv1 in H; rename c into cur; rename H into Hcur end.
  match goal with b : bool |- _ => destruct b end; inv_M.
  { destruct (sql_runs_same s s') as [? ?]; [congruence|done|]. split; [done|]. split; [done|].
    exists cur. split; [done|]. by left. }
  inv_ok. bool_hyps. unfold wf_sql_revision in *.
  repeat match goal with
  | H : i64_try_from _ _ = _ |- _ => apply i64_try_from_ok in H as [-> _]
  | H : checked_add _ _ _ = _ |- _ => apply checked_add_Some in H as [-> _]
  | H : store _ _ _ = _ |- _ => apply store_ok in H as Hst
  end.
  match goal with H : apply_copy _ _ _ _ = Ok ?p |- _ =>
    destruct p as [nr o]; apply apply_copy_applied in H as [Hap Ho]; [|done]; simpl in Hap, Ho; subst o end.
  match goal with H : encode_run _ = Ok ?j |- _ => rename H into He; simpl in He end.
  assert (∃ row, rows s !! run_key id (tenant_id a) = Some row ∧
    run_row_view (run_key id (tenant_id a)) row = Some cur) as (row & Hrow & Hview).
  { rewrite sql_runs_lookup in Hcur. by apply bind_Some in Hcur. }
  destruct (Hi _ _ Hrow) as (cur' & Hview' & Hst_ok). rewrite Hview in Hview'. injection Hview' as <-.
  apply run_row_view_Some, decode_row_ok in Hview as (D1 & D2 & D3 & D4 & _).
  destruct Hst_ok as (K1 & K2 & K3 & K4 & K5 & K6).
  pose proof (access_key _ _ Hv) as (A1 & _). simpl in D1, D2. rewrite A1 in D2.
  unfold update_run in *. rewrite Hs3, Hs1, Hrow, <-D3, Z.eqb_refl in *. simpl in Hst.
  pose proof (apply_run_ok _ _ _ _ _ Hap) as Hok.
  rewrite Hst in Hs2. destruct (sql_runs_insert s s' _ _ (next_run_snapshot cur nr) Hs2) as [? ?];
    [| |done|].
  - rewrite D4. unfold next_run_snapshot. rewrite D1, D2. eapply run_row_encoded; try done. lia.
  - split_and!; [done|done|done|simpl; lia|done|done].
  - split; [done|]. split; [done|]. exists cur. split; [done|]. right. split; [done|].
    exists nr. split_and!; [done| |done]. unfold next_run_snapshot. by rewrite D1.
Qed.

Lemma select_rows_runs (t : RunTable) (a : AuthorityContext) (after : option WorkflowRunId) :
  map_Forall run_row_ok t →
  key_tenant (tenant_storage_key (tenant_id a)) = tenant_id a →
  Forall2 (λ (p : WorkflowRunId * RunRow) sn, decode_row p.1 (tenant_id a) p.2 = Ok sn ∧
             (str_len p.1 ≤ MAX_WORKFLOW_IDEMPOTENCY_BYTES)%Z)
    (select_rows_after t (tenant_storage_key (tenant_id a)) (default [] after))
    (values_after (map_imap run_row_view t) (tenant_storage_key (tenant_id a)) after).
Proof.
  intros Hok Hk. unfold select_rows_after, values_after. rewrite pairs_iter_imap.
  assert (∀ p, p ∈ pairs_iter t → run_row_ok p.1 p.2) as Hall
    by (intros [k row] Hin%elem_of_pairs_iter; by apply Hok).
  induction (pairs_iter t) as [|[[tn i] row] l IH]; [constructor|].
  destruct (Hall (tn, i, row) ltac:(left)) as (sn & Hv & (K1 & K2 & _ & _ & K5 & K6)). simpl in *.
  assert (negb (str_leb i (default [] after)) = after_cursor after i) as Ec.
  { destruct after as [c|]; simpl; [done|]. by destruct i. }
  rewrite Ec, Hv. simpl. unfold in_scope at 1. simpl.
  destruct (bool_decide (tn = tenant_storage_key (tenant_id a)) && after_cursor after i) eqn:Es.
  - unfold fmap in *. simpl. constructor; [|apply IH; intros; apply Hall; by right].
    apply run_row_view_Some in Hv. simpl in Hv. bool_hyps. subst tn. rewrite Hk in Hv. done.
  - apply IH. intros. apply Hall. by right.
Qed.

Lemma sql_scan_law at_ms after limit a s s' r :
  sql_runs_inv s → sql_scan_due_as at_ms after limit a s = (s', r) →
  rows s' = rows s ∧
  ∀ page, r = Ok page → validate_due_scan at_ms after limit a = Ok () ∧
    page = page_from_scan (take (Z.to_nat (limit + 1))
      (values_after (sql_runs_view s) (tenant_storage_key (tenant_id a)) after)) limit at_ms.
Proof.
  intros Hi Hl. unfold sql_scan_due_as in Hl. destruct r as [page|e].
  2: { inv_M_err; try done; (split; [|done]);
       match goal with H : select _ _ = _ |- _ => by apply select_rows in H as [? _] end. }
  inv_M. inv_ok.
  match goal with H : checked_add _ _ _ = _ |- _ => apply checked_add_Some in H as [-> _] end.
  match goal with H : select _ _ = _ |- _ => apply select_rows in H as [Hs Hsel];
    specialize (Hsel _ eq_refl) as -> end.
  split; [done|]. intros page' [= <-]. split; [done|]. f_equal.
  match goal with H : validate_due_scan _ _ _ _ = _ |- _ => rename H into Hv end.
  assert (key_tenant (tenant_storage_key (tenant_id a)) = tenant_id a) as Hk
    by (unfold validate_due_scan in Hv; inv_ok; by eapply key_tenant_of).
  pose proof (Forall2_take _ _ _ (Z.to_nat (limit + 1)) (select_rows_runs (rows s) a after Hi Hk)) as HF.
  match goal with H : fold_m _ [] (take _ _) = Ok ?l |- _ =>
    apply (fold_m_collect read_run_row) in H as (l' & -> & Hread) end.
  assert (l' = take (Z.to_nat (limit + 1)) (select_rows_after (rows s)
    (tenant_storage_key (tenant_id a)) (default [] after))) as ->.
  { clear -Hread. induction Hread as [|x y l l' Hxy _ IH]; [done|]. rewrite IH. f_equal.
    unfold read_run_row in Hxy. inv_ok. done. }
  match goal with H : fold_m _ [] ([] ++ _) = Ok ?l |- _ =>
    apply (fold_m_collect (λ p : WorkflowRunId * RunRow, wf_decode_snapshot p.1 (tenant_id a)
      (rr_schema_version p.2) (rr_revision p.2) (rr_run_json p.2))) in H as (vis & -> & Hdec) end.
  simpl in *. change (sql_runs_view s) with (map_imap run_row_view (rows s)).
  revert HF Hdec. generalize (take (Z.to_nat (limit + 1)) (values_after (map_imap run_row_view (rows s))
    (tenant_storage_key (tenant_id a)) after)).
  clear. generalize (take (Z.to_nat (limit + 1)) (select_rows_after (rows s)
    (tenant_storage_key (tenant_id a)) (default [] after))). intros l out HF.
  revert vis. induction HF as [|p sn l out [Hd _] _ IH]; intros vis Hdec;
    inversion Hdec as [|? sn' ? vis' Hsn Hrest]; subst; [done|].
  apply decode_row_ok in Hd as (_ & _ & _ & _ & _ & Hd). rewrite Hd in Hsn. injection Hsn as <-.
  f_equal. by apply IH.
Qed.

Lemma load_snapshot_healthy id a s :
  sql_runs_inv s → healthy s → validate_run_access id a = Ok () →
  load_snapshot id (tenant_id a) s = (s, Ok (sql_runs_view s !! run_key id (tenant_id a))).
Proof.
  intros Hi Hh (Hk & _)%access_key. unfold load_snapshot, mbind at 1, M_bind.
  rewrite (select_healthy _ _ Hh), sql_runs_lookup. unfold run_key in *.
  destruct (rows s !! _) as [row|] eqn:Er; [|done]. simpl.
  destruct (Hi _ _ Er) as (sn & Hv & _). rewrite Hv. apply run_row_view_Some in Hv. simpl in Hv.
  rewrite Hk in Hv. unfold mbind, M_bind, lift. by rewrite Hv.
Qed.

Lemma sql_recognize_law id rev c now a s cur :
  sql_runs_inv s → healthy s → validate_run_access id a = Ok () →
  validate_expected_revision rev = Ok () →
  sql_runs_view s !! run_key id (tenant_id a) = Some cur →
  match recognizes_command (ws_run cur) c with
  | Ok true => ∃ s', healthy s' ∧
      sql_wf_apply_as id rev c now a s
      = (s', Ok {| wcr_snapshot := cur; wcr_outcome := Duplicate |})
  | Ok false => True
  | Err e => ∃ s', sql_wf_apply_as id rev c now a s = (s', Err e)
  end.
Proof.
  intros Hi Hh Hv Hrev Hcur. pose proof (load_snapshot_healthy id a s Hi Hh Hv) as Hl.
  rewrite Hcur in Hl. destruct (recognizes_command (ws_run cur) c) as [[]|e] eqn:Er; [|done|].
  - assert (wf_apply_body id rev c now a s
            = (s, Ok {| wcr_snapshot := cur; wcr_outcome := Duplicate |})) as Eb.
    { unfold wf_apply_body, mbind, M_bind, lift. rewrite Hl. simpl. by rewrite Er. }
    exists s. split; [done|]. unfold sql_wf_apply_as, mbind, M_bind, lift. rewrite Hv, Hrev.
    by apply transaction_healthy.
  - assert (wf_apply_body id rev c now a s = (s, Err e)) as Eb.
    { unfold wf_apply_body, mbind, M_bind, lift. rewrite Hl. simpl. by rewrite Er. }
    eexists. unfold sql_wf_apply_as, mbind, M_bind, lift. rewrite Hv, Hrev.
    unfold transaction, mbind, M_bind. by rewrite (sql_call_healthy _ _ Hh), Eb.
Qed.

#[global] Program Instance SqliteWorkflowLaws : WorkflowLaws SqliteRuns := {|
  wc_inv := sql_runs_inv;
  wc_view := sql_runs_view;
  wc_healthy := healthy;
|}.
Next Obligation.
  intros s key sn Hi Hv. rewrite sql_runs_lookup in Hv. apply bind_Some in Hv as (row & Hrow & Hv).
  destruct (Hi _ _ Hrow) as (sn' & Hv' & Hok). congruence.
Qed.
Next Obligation. intros id req now a s s' r Hi Hc. exact (sql_create_law _ _ _ _ _ _ _ Hi Hc). Qed.
Next Obligation.
  intros id a s s' r Hi Hl. simpl in Hl. unfold sql_wf_load_as in Hl.
  unfold mbind at 1, M_bind, lift in Hl.
  destruct (validate_run_access id a) as [[]|e] eqn:Hv; [|injection Hl as <- <-; done].
  apply load_snapshot_ok in Hl as [Hs Hr]; [|done..]. destruct (sql_runs_same _ _ Hs Hi).
  split_and!; [done|done|]. intros o Ho. split; [done|]. by apply Hr.
Qed.
Next Obligation.
  intros at_ms after limit a s s' r Hi Hl. simpl in Hl. apply sql_scan_law in Hl as [Hs Hr]; [|done].
  destruct (sql_runs_same _ _ Hs Hi). by split_and!.
Qed.
Next Obligation. intros id rev c now a s s' r Hi Hc. exact (sql_apply_law _ _ _ _ _ _ _ _ Hi Hc). Qed.
Next Obligation.
  intros id rev c now a s cur Hi Hh Hv Hrev Hcur. exact (sql_recognize_law _ _ _ _ _ _ _ Hi Hh Hv Hrev Hcur).
Qed.
End stores.
