(* ===== verification/WorkflowClients.v ===== *)
(** Clients of a Workflow Coordinator, proved against the contract
    [WorkflowLaws] and so true of the in-memory and of the SQLite coordinator
    (src/src/workflow/coordinator.rs): how stored Runs evolve, exactly-once
    commands, due-wait discovery, tenant isolation and opening a file. *)

From Stdlib Require Import ZArith Lia.
From stdpp Require Import sorting base tactics list gmap relations numbers strings option.
From stdpp Require Import list.
From S2P Require Import Prelude Kernel Digest Sqlite Pairs Workflow WorkflowSafety WorkflowCoordinator WorkflowStores.

(** A waiting Run of a page is reported exactly when a wake-up of it at that
    time would succeed. *)
Lemma due_entry_reported visited at_ms sn w :
  NoDup (ws_id <$> visited) → sn ∈ visited → wr_status (ws_run sn) = WfWaiting w →
  is_ok (wake_reason w at_ms) = true ↔
  ∃ d, d ∈ omap (due_entry at_ms) visited ∧ dw_run_id d = ws_id sn ∧ dw_wait_id d = wait_id w.
Proof.
  intros Hnd Hin Hw. split.
  - intros Hd. unfold is_ok, wake_reason in Hd.
    assert (∃ d, due_entry at_ms sn = Some d ∧ dw_run_id d = ws_id sn ∧ dw_wait_id d = wait_id w)
      as (d & Hd' & ?).
    { unfold due_entry, due_wait. rewrite Hw.
      destruct w as [id n s [e|]|id due|id act att due key]; simpl; try done;
        destruct (_ <=? at_ms)%Z; try done; by eexists. }
    exists d. split; [|done]. apply list_elem_of_omap. by exists sn.
  - intros (d & (sn' & Hin' & Hd)%list_elem_of_omap & Hid & _).
    assert (ws_id sn' = ws_id sn) as Eid.
    { unfold due_entry in Hd. destruct (due_wait _) as [[]|]; [|done].
      destruct (_ <=? _)%Z; [|done]. by injection Hd as <-. }
    apply list_elem_of_lookup in Hin as [i Hi], Hin' as [j Hj].
    assert (i = j) as <-.
    { eapply NoDup_lookup; [exact Hnd|rewrite list_lookup_fmap, Hi; done|].
      rewrite list_lookup_fmap, Hj. simpl. by rewrite Eid. }
    rewrite Hi in Hj. injection Hj as <-. unfold due_entry, due_wait in Hd. rewrite Hw in Hd.
    destruct w as [id n s [e|]|id due|id act att due key]; simpl in *; try done;
      destruct (_ <=? at_ms)%Z; done.
Qed.

Section clients.
Context `{!Serialize WorkflowCreateRequest, !Serialize WorkflowCommand,
          !Serialize WorkflowRunWire, sha : !Sha256, semver : !SemverOrder}.
Context {W : Type} `{!WorkflowCoordinator W, !WorkflowLaws W}.

(** One call of the coordinator, by anyone, successful or not. *)
Inductive wc_step (s : W) : W → Prop :=
| wc_create id req now a s' r :
    (0 ≤ now)%Z → wf_create_as id req now a s = (s', r) → wc_step s s'
| wc_load id a s' r : wf_load_as id a s = (s', r) → wc_step s s'
| wc_scan at_ms after limit a s' r :
    wf_scan_due_as at_ms after limit a s = (s', r) → wc_step s s'
| wc_apply id rev c now a s' r :
    (0 ≤ now)%Z → wf_apply_as id rev c now a s = (s', r) → wc_step s s'.

Definition wc_execution (s : W) : Prop :=
  ∃ s0, wc_inv s0 ∧ wc_view s0 = ∅ ∧ rtc wc_step s0 s.

(** How one call may change a stored Run. *)
Definition run_evolves (s s' : W) : Prop := ∀ key,
  (∀ cur, wc_view s !! key = Some cur → ∃ cur', wc_view s' !! key = Some cur' ∧
     (cur' = cur ∨ ws_revision cur' = (ws_revision cur + 1)%Z ∧
        ∃ c now a, (0 ≤ now)%Z ∧ wf_apply c now a (ws_run cur) = (ws_run cur', Ok Applied))) ∧
  (∀ cur', wc_view s !! key = None → wc_view s' !! key = Some cur' →
     ws_revision cur' = 1%Z ∧ ∃ req now a, WorkflowRun_new req now a = Ok (ws_run cur')).

Lemma run_evolves_same s s' : wc_view s' = wc_view s → run_evolves s s'.
Proof. intros E key. rewrite E. split; [eauto|]. intros cur' H1 H2. congruence. Qed.

Lemma run_evolves_insert s s' key cur' :
  wc_view s' = <[key := cur']> (wc_view s) →
  (∀ cur, wc_view s !! key = Some cur → cur' = cur ∨ ws_revision cur' = (ws_revision cur + 1)%Z ∧
     ∃ c now a, (0 ≤ now)%Z ∧ wf_apply c now a (ws_run cur) = (ws_run cur', Ok Applied)) →
  (wc_view s !! key = None →
     ws_revision cur' = 1%Z ∧ ∃ req now a, WorkflowRun_new req now a = Ok (ws_run cur')) →
  run_evolves s s'.
Proof.
  intros E H1 H2 k. rewrite E. destruct (decide (k = key)) as [->|Hne].
  - rewrite lookup_insert_eq. split; [eauto|]. intros c Hn [= <-]. auto.
  - rewrite lookup_insert_ne by done. split; [eauto|congruence].
Qed.

Lemma wc_step_evolves s s' : wc_inv s → wc_step s s' → wc_inv s' ∧ run_evolves s s'.
Proof.
  intros Hi. destruct 1 as [id req now a s' r Hnow Hc|id a s' r Hl|at_ms af li a s' r Hl
    |id rev c now a s' r Hnow Ha].
  - apply wc_create_law in Hc as [Hi' Hr]; [|done]. split; [done|].
    destruct r as [sn|e]; [|by apply run_evolves_same].
    destruct Hr as [_ [(_ & _ & Hv)|(Hn & run & Hnew & -> & Hv)]]; [by apply run_evolves_same|].
    eapply run_evolves_insert; [exact Hv|congruence|]. intros _. simpl. eauto.
  - apply wc_load_law in Hl as (Hi' & Hv & _); [|done]. split; [done|by apply run_evolves_same].
  - apply wc_scan_law in Hl as (Hi' & Hv & _); [|done]. split; [done|by apply run_evolves_same].
  - apply wc_apply_law in Ha as [Hi' Hr]; [|done]. split; [done|].
    destruct r as [res|e]; [|by apply run_evolves_same].
    destruct Hr as (_ & cur & Hcur & [(_ & Hv & _)|(_ & run & Hap & _ & Hv)]);
      [by apply run_evolves_same|].
    eapply run_evolves_insert; [exact Hv| |congruence]. intros cur0 E. rewrite Hcur in E.
    injection E as <-. right. split; [done|]. simpl. by exists c, now, a.
Qed.

Lemma new_run_length req now a r : WorkflowRun_new req now a = Ok r → length (wr_transitions r) = 1%nat.
Proof. unfold WorkflowRun_new. intros Hn. inv_ok. by subst r. Qed.

Lemma apply_length c now a r r' :
  wf_apply c now a r = (r', Ok Applied) →
  ∃ t, wr_transitions r' = wr_transitions r ++ [t].
Proof.
  intros (d & [r1 k] & n & Had & _ & _ & ->)%apply_applied. simpl.
  destruct (apply_kind_frame _ _ _ _ _ (ad_kind _ _ _ _ _ _ Had)) as [-> _]. eauto.
Qed.

(** The revision of a stored Run counts its transitions. *)
Definition counted (s : W) : Prop :=
  ∀ key sn, wc_view s !! key = Some sn → ws_revision sn = len (wr_transitions (ws_run sn)).

Lemma evolves_counted s s' : run_evolves s s' → counted s → counted s'.
Proof.
  intros He Hc key sn Hv. destruct (He key) as [H1 H2].
  destruct (wc_view s !! key) as [cur|] eqn:E.
  - destruct (H1 cur eq_refl) as (cur' & E' & Hcase). rewrite Hv in E'. injection E' as <-.
    destruct Hcase as [->|(Hr & c & now & a & _ & [t Ht]%apply_length)]; [by eapply Hc|].
    rewrite Hr, (Hc _ _ E), Ht. unfold len. rewrite length_app. simpl. lia.
  - destruct (H2 sn eq_refl Hv) as (-> & req & now & a & Hn%new_run_length). unfold len. by rewrite Hn.
Qed.

Lemma wc_execution_inv s : wc_execution s → wc_inv s ∧ counted s.
Proof.
  intros (s0 & Hi & Hv & Hs).
  assert (counted s0) as Hc by (intros ? ? E; by rewrite Hv, lookup_empty in E). clear Hv.
  induction Hs as [s0|s0 s1 s2 Hs _ IH]; [done|].
  destruct (wc_step_evolves _ _ Hi Hs) as [Hi' He]. apply IH; [done|by eapply evolves_counted].
Qed.

(** stored Runs only move forward: whatever clients do, one call changes
    a stored Run at most by one applied command, advancing its revision by
    one; Runs never disappear and new ones are freshly created. Every stored
    Run is valid, and its revision is the number of its transitions, so it
    never exceeds the transition limit and cannot overflow. *)
Theorem workflow_store_evolves (s s' : W) (He : wc_execution s) (Hs : wc_step s s') :
  run_evolves s s' ∧
  ∀ key sn, wc_view s' !! key = Some sn →
    run_stored_ok key sn ∧ ws_revision sn = len (wr_transitions (ws_run sn)) ∧
    (1 ≤ ws_revision sn ≤ MAX_WORKFLOW_TRANSITIONS)%Z.
Proof.
  apply wc_execution_inv in He as [Hi Hc]. destruct (wc_step_evolves _ _ Hi Hs) as [Hi' Hev].
  split; [done|]. intros key sn Hv. pose proof (wc_stored _ _ _ Hi' Hv) as Hok.
  pose proof (evolves_counted _ _ Hev Hc _ _ Hv) as Hn. split_and!; [done|done|apply Hok|].
  destruct Hok as (_ & _ & [[rp Hr]%validate_iff _] & _). rewrite Hn. apply (vr_length _ _ Hr).
Qed.

Lemma steps_run s s' key cur :
  wc_inv s → rtc wc_step s s' → wc_view s !! key = Some cur →
  wc_inv s' ∧ ∃ cur', wc_view s' !! key = Some cur' ∧ rtc wf_step (ws_run cur) (ws_run cur').
Proof.
  intros Hi Hs. revert cur. induction Hs as [s|s s1 s2 Hs _ IH]; intros cur Hcur; [by split; [|exists cur]|].
  destruct (wc_step_evolves _ _ Hi Hs) as [Hi1 He]. destruct (He key) as [H1 _].
  destruct (H1 cur Hcur) as (c1 & Hc1 & Hcase). destruct (IH Hi1 c1 Hc1) as (Hi2 & c2 & Hc2 & Hr).
  split; [done|]. exists c2. split; [done|].
  destruct Hcase as [->|(_ & c & now & a & Hnow & Hap)]; [done|].
  eapply rtc_l; [|exact Hr]. exists c, now, a, (Ok Applied). done.
Qed.

Lemma recognizes_valid r c b : recognizes_command r c = Ok b → validate_command c = Ok ().
Proof. unfold recognizes_command. by destruct (validate_command c) as [[]|e]. Qed.

(** What the store holds of a command that was applied, however long ago. *)
Lemma applied_remembered (s s1 s2 : W) id rev now c a res :
  wc_inv s → wf_apply_as id rev c now a s = (s1, Ok res) → wcr_outcome res = Applied →
  rtc wc_step s1 s2 →
  wc_inv s2 ∧ ∃ cur t, wc_view s2 !! run_key id (tenant_id a) = Some cur ∧
    validate (ws_run cur) = Ok () ∧ NoDup (wt_command_id <$> wr_transitions (ws_run cur)) ∧
    validate_command c = Ok () ∧ t ∈ wr_transitions (ws_run cur) ∧
    wt_command_id t = cmd_id c ∧ command_digest c = Ok (wt_command_sha256 t).
Proof.
  intros Hi Ha Hout Hlater. apply wc_apply_law in Ha as [Hi1 (_ & cur & Hcur & Hcase)]; [|done].
  destruct Hcase as [(_ & _ & ->)|(_ & run & Hap & -> & Hv)]; [done|].
  destruct (steps_run s1 s2 (run_key id (tenant_id a)) (next_run_snapshot cur run) Hi1 Hlater)
    as (Hi2 & cur2 & Hcur2 & Hsteps); [by rewrite Hv, lookup_insert_eq|]. simpl in Hsteps.
  split; [done|]. destruct (wc_stored _ _ _ Hi2 Hcur2) as (_ & _ & [Hval _] & _).
  pose proof Hval as [rp [_ Hr _ _ _]]%validate_iff.
  destruct (replayed_history _ _ Hr) as (_ & _ & _ & Hnd & _).
  apply apply_applied in Hap as (digest & [r1 k] & n & Had & _ & _ & ->).
  apply steps_extend in Hsteps as [ts E]. simpl in E.
  exists cur2. rewrite E in *. eexists. split; [done|]. split; [done|]. split; [done|].
  split; [exact (recognizes_valid _ _ _ (ad_new _ _ _ _ _ _ Had))|].
  split; [apply elem_of_app; left; apply elem_of_app; right; by apply list_elem_of_singleton|].
  split; [done|exact (ad_digest _ _ _ _ _ _ Had)].
Qed.

(** A Run that holds a command recognizes it by identity and digest. *)
Lemma remembered_recognizes r t (c c' : WorkflowCommand) :
  NoDup (wt_command_id <$> wr_transitions r) → t ∈ wr_transitions r →
  wt_command_id t = cmd_id c → cmd_id c' = cmd_id c → validate_command c' = Ok () →
  recognizes_command r c' =
  match command_digest c' with
  | Err e => Err e
  | Ok d => if bool_decide (wt_command_sha256 t = d) then Ok true
            else Err (wf "Workflow command {} was reused with different content" [AStr (cmd_id c)])
  end.
Proof.
  intros Hnd Ht Htid Hid Hv. unfold recognizes_command. rewrite Hv.
  cbn [mbind result_bind]. destruct (command_digest c') as [d|e]; [|done]. cbn [mbind result_bind].
  by rewrite Hid, (find_unique wt_command_id _ t (cmd_id c) Hnd Ht Htid).
Qed.

(** C26: exactly-once commands: after a command was applied to a Run, and
    whatever happened in between, every retry of it on a working store, under
    any authority of the tenant the store admits, with any positive expected
    revision (current or stale) and any clock, is answered [Ok]: a duplicate
    of the Run as it is, changing nothing and leaving the store working.  A
    command with other content under its identity is refused there, whether
    its revision is current or not.  On any store, failing statements
    included, no call under the identity changes anything, and the only
    success is the duplicate of the same content. *)
Theorem workflow_command_exactly_once (s s1 s2 : W) (id : WorkflowRunId) (rev now : Z)
    (c : WorkflowCommand) (a : AuthorityContext) (res : WorkflowCommandResult)
    (Hi : wc_inv s) (Ha : wf_apply_as id rev c now a s = (s1, Ok res))
    (Hout : wcr_outcome res = Applied) (Hlater : rtc wc_step s1 s2) :
  ∃ cur, wc_view s2 !! run_key id (tenant_id a) = Some cur ∧
  (∀ rev' now' a', wc_healthy s2 → tenant_id a' = tenant_id a → validate_run_access id a' = Ok () →
     (0 < rev')%Z →
     ∃ s3, wf_apply_as id rev' c now' a' s2
           = (s3, Ok {| wcr_snapshot := cur; wcr_outcome := Duplicate |}) ∧
       wc_view s3 = wc_view s2 ∧ wc_healthy s3) ∧
  (∀ rev' c' now' a', wc_healthy s2 → tenant_id a' = tenant_id a →
     validate_run_access id a' = Ok () → (0 < rev')%Z → cmd_id c' = cmd_id c →
     validate_command c' = Ok () → (∃ d, command_digest c' = Ok d ∧ command_digest c ≠ Ok d) →
     (wf_apply_as id rev' c' now' a' s2).2
     = Err (wf "Workflow command {} was reused with different content" [AStr (cmd_id c)])) ∧
  (∀ rev' c' now' a' s3 r, tenant_id a' = tenant_id a → cmd_id c' = cmd_id c →
     wf_apply_as id rev' c' now' a' s2 = (s3, r) →
     wc_view s3 = wc_view s2 ∧
     ∀ res', r = Ok res' → command_digest c' = command_digest c ∧
       res' = {| wcr_snapshot := cur; wcr_outcome := Duplicate |}).
Proof.
  destruct (applied_remembered s s1 s2 id rev now c a res Hi Ha Hout Hlater)
    as (Hi2 & cur & t & Hcur & Hval & Hnd & Hc & Ht & Htid & Hd).
  assert (∀ rev', (0 < rev')%Z → validate_expected_revision rev' = Ok ()) as Hrev
    by (intros rev' ?; unfold validate_expected_revision; by rewrite (proj2 (Z.eqb_neq rev' 0)) by lia).
  exists cur. split; [done|]. split_and!.
  - intros rev' now' a' Hh Htn Hacc Hp.
    pose proof (wc_recognize_law id rev' c now' a' s2 cur Hi2 Hh Hacc (Hrev _ Hp)) as Hlaw.
    rewrite Htn, (remembered_recognizes _ t c c Hnd Ht Htid eq_refl Hc), Hd in Hlaw.
    rewrite bool_decide_eq_true_2 in Hlaw by done.
    destruct (Hlaw Hcur) as (s3 & Hh3 & E). exists s3. split_and!; [done| |done].
    apply wc_apply_law in E as [_ (_ & cur' & _ & [(_ & Hv & _)|(_ & run & _ & E & _)])]; done.
  - intros rev' c' now' a' Hh Htn Hacc Hp Hid Hv (d & Hd' & Hne).
    pose proof (wc_recognize_law id rev' c' now' a' s2 cur Hi2 Hh Hacc (Hrev _ Hp)) as Hlaw.
    rewrite Htn, (remembered_recognizes _ t c c' Hnd Ht Htid Hid Hv), Hd' in Hlaw.
    rewrite bool_decide_eq_false_2 in Hlaw by congruence. by destruct (Hlaw Hcur) as (s3 & ->).
  - intros rev' c' now' a' s3 r Htn Hid E. apply wc_apply_law in E as [_ Hcase]; [|done].
    destruct r as [res'|e]; [|done]. destruct Hcase as (_ & cur' & Hcur' & Hcase).
    rewrite Htn, Hcur in Hcur'. injection Hcur' as <-.
    destruct Hcase as [(Hrec & Hv & ->)|(_ & run & Hap & _)].
    + split; [done|]. intros res' [= <-]. split; [|done].
      rewrite (remembered_recognizes _ t c c' Hnd Ht Htid Hid (recognizes_valid _ _ _ Hrec)) in Hrec.
      destruct (command_digest c') as [d|]; [|done]. destruct (bool_decide _) eqn:E; [|done].
      bool_hyps. congruence.
    + exfalso. apply apply_applied in Hap as (d & p & n & Had & _).
      destruct (recognizes_false _ _ (ad_new _ _ _ _ _ _ Had)) as [_ Hno].
      apply (Hno t Ht). congruence.
Qed.

(** due-wait discovery is complete: a page reports exactly the due waits
    among the Runs it visited, and continuing from its cursor covers exactly
    the Runs it did not visit, so that paging until [has_more] is false
    reports every due wait of the tenant once, in identity order; each page
    with Runs left visits at least one, so paging terminates. *)
Theorem workflow_due_scan_complete (s s' : W) (at_ms limit : Z) (after : option WorkflowRunId)
    (a : AuthorityContext) (page : WorkflowDueScanPage)
    (Hi : wc_inv s) (Hs : wf_scan_due_as at_ms after limit a s = (s', Ok page)) :
  let runs after := values_after (wc_view s) (tenant_storage_key (tenant_id a)) after in
  ∃ visited rest, runs after = visited ++ rest ∧
    sp_due page = omap (due_entry at_ms) visited ∧ sp_scanned page = len visited ∧
    (len visited ≤ limit)%Z ∧ (sp_has_more page = true ↔ rest ≠ []) ∧
    (rest ≠ [] → visited ≠ []) ∧
    (∀ cursor, sp_next_after_run_id page = Some cursor → runs (Some cursor) = rest) ∧
    (∀ sn w, sn ∈ visited → wr_status (ws_run sn) = WfWaiting w →
       is_ok (wake_reason w at_ms) = true ↔
       ∃ d, d ∈ sp_due page ∧ dw_run_id d = ws_id sn ∧ dw_wait_id d = wait_id w).
Proof.
  intros runs. apply wc_scan_law in Hs as (_ & _ & Hp); [|done].
  destruct (Hp page eq_refl) as [Hv ->]. clear Hp.
  assert (1 ≤ limit)%Z as Hl
    by (unfold validate_due_scan, in_range in Hv; inv_ok; bool_hyps; lia).
  assert (self_keyed ws_id (wc_view s)) as Hk
    by (intros key sn Hkey; by destruct (wc_stored _ _ _ Hi Hkey)).
  exists (take (Z.to_nat limit) (runs after)), (drop (Z.to_nat limit) (runs after)).
  unfold page_from_scan. fold (runs after). cbn [sp_due sp_scanned sp_has_more sp_next_after_run_id].
  assert (take (Z.to_nat limit) (take (Z.to_nat (limit + 1)) (runs after))
          = take (Z.to_nat limit) (runs after)) as -> by (rewrite take_take; f_equal; lia).
  split_and!; [by rewrite take_drop|done|done| | | | |].
  - unfold len. rewrite length_take. lia.
  - unfold len. rewrite length_take, Z.ltb_lt. rewrite <-length_zero_iff_nil, length_drop. lia.
  - rewrite <-!length_zero_iff_nil, length_drop, length_take. lia.
  - intros cursor Hc. destruct (vec_last (take (Z.to_nat limit) (runs after))) as [sn|] eqn:El;
      [|done]. injection Hc as <-. apply vec_last_Some_snoc in El as [l El].
    eapply (values_after_cursor ws_id _ _ after l _ sn Hk). by rewrite <-El, take_drop.
  - intros sn w Hin Hw. apply due_entry_reported; [|done|done].
    eapply sublist_NoDup; [by apply (values_after_ids ws_id (wc_view s) (tenant_storage_key (tenant_id a)) after)|].
    apply fmap_sublist, sublist_take.
Qed.

(** tenant isolation of Workflow Runs: a call under one authority
    returns only Runs of its tenant and leaves every other tenant's Run as
    it was. *)
Theorem workflow_tenant_isolation (s s' : W) (a : AuthorityContext) (Hi : wc_inv s) :
  (∀ id sn, wf_load_as id a s = (s', Ok (Some sn)) → ws_tenant_id sn = tenant_id a) ∧
  ((∃ id req now r, wf_create_as id req now a s = (s', r)) ∨
   (∃ id rev c now r, wf_apply_as id rev c now a s = (s', r)) →
   ∀ key sn, wc_view s !! key = Some sn → ws_tenant_id sn ≠ tenant_id a →
     wc_view s' !! key = Some sn).
Proof.
  split.
  - intros id sn Hl. apply wc_load_law in Hl as (_ & _ & Hr); [|done].
    destruct (Hr _ eq_refl) as [Hv Hl]. symmetry in Hl.
    destruct (wc_stored _ _ _ Hi Hl) as (_ & -> & _). simpl. by destruct (access_key _ _ Hv).
  - intros Hc key sn Hk Ht.
    assert (∀ id, validate_run_access id a = Ok () → key ≠ run_key id (tenant_id a)) as Hne.
    { intros id Hv ->. destruct (wc_stored _ _ _ Hi Hk) as (_ & E & _). simpl in E.
      destruct (access_key _ _ Hv) as [E' _]. congruence. }
    destruct Hc as [(id & req & now & r & Hc)|(id & rev & c & now & r & Hc)].
    + apply wc_create_law in Hc as [_ Hr]; [|done]. destruct r as [sn'|e]; [|by rewrite Hr].
      destruct Hr as [Hv [(_ & _ & ->)|(_ & run & _ & _ & ->)]]; [done|].
      rewrite lookup_insert_ne; [done|]. intros E. by eapply Hne.
    + apply wc_apply_law in Hc as [_ Hr]; [|done]. destruct r as [res|e]; [|by rewrite Hr].
      destruct Hr as (Hv & cur & _ & [(_ & -> & _)|(_ & run & _ & _ & ->)]); [done|].
      rewrite lookup_insert_ne; [done|]. intros E. by eapply Hne.
Qed.
End clients.

(** ** Opening a database file *)

Section opening.
Implicit Types c : Connection WorkflowDatabase.

(** What the bootstrap transaction leaves. *)
Definition fresh_store : WorkflowDatabase :=
  {| db_meta := Some [(1, WORKFLOW_RUN_SCHEMA_VERSION)%Z]; db_runs := Some ∅ |}.

(** Both tables, with their contents checked. *)
Definition store_current (db : WorkflowDatabase) : bool :=
  match db_meta db, db_runs db with
  | Some meta, Some t =>
      bool_decide (meta = [(1, WORKFLOW_RUN_SCHEMA_VERSION)%Z])
      && (len (List.filter invalid_run_row (pairs_iter t)) =? 0)%Z
  | _, _ => false
  end.
Definition store_absent (db : WorkflowDatabase) : bool :=
  match db_meta db, db_runs db with None, None => true | _, _ => false end.

Lemma keeps_validate_store meta t : keeps (validate_store meta t).
Proof. unfold validate_store. auto 10 with harness. Qed.
Lemma keeps_tables_exist : keeps tables_exist.
Proof. unfold tables_exist. auto with harness. Qed.

Lemma validate_store_ok meta t c c' u :
  validate_store meta t c = (c', Ok u) →
  store_current {| db_meta := Some meta; db_runs := Some t |} = true.
Proof.
  unfold validate_store, reject_if, store_current. intros H. inv_M. simpl.
  destruct (bool_decide_reflect (meta ≠ [(1, WORKFLOW_RUN_SCHEMA_VERSION)%Z])) as [|Hn]; [done|].
  apply dec_stable in Hn as ->. rewrite bool_decide_eq_true_2 by done.
  by destruct (len _ =? 0)%Z.
Qed.

Lemma validate_store_healthy meta t c :
  healthy c → validate_store meta t c = (c, (validate_store meta t c).2) ∧
  is_ok (validate_store meta t c).2
  = store_current {| db_meta := Some meta; db_runs := Some t |}.
Proof.
  intros H. unfold validate_store, reject_if, store_current. run_healthy H. simpl.
  destruct (bool_decide_reflect (meta ≠ [(1, WORKFLOW_RUN_SCHEMA_VERSION)%Z])) as [Hn|Hn].
  - by rewrite bool_decide_eq_false_2.
  - apply dec_stable in Hn as ->. simpl. run_healthy H. by destruct (len _ =? 0)%Z.
Qed.

Lemma tables_exist_ok c c' db : tables_exist c = (c', Ok db) → db = rows c ∧ rows c' = rows c.
Proof.
  unfold tables_exist. intros H. inv_M. apply sql_call_rows in H0.
  apply select_rows in H as [Hr H]. rewrite (H _ eq_refl). split; congruence.
Qed.

Lemma initialize_ok c c' u :
  initialize_or_validate c = (c', Ok u) →
  (store_absent (rows c) = true ∧ rows c' = fresh_store) ∨
  (store_current (rows c) = true ∧ rows c' = rows c).
Proof.
  unfold initialize_or_validate. intros H. inv_M. apply tables_exist_ok in H0 as [-> Hs].
  destruct (rows c) as [[meta|] [t|]]; simpl in *; try (inv_M; done).
  - right. split; [by apply validate_store_ok in H|]. apply keeps_validate_store in H. congruence.
  - left. split; [done|]. apply transaction_ok in H as (s1 & s2 & _ & Hb & ->).
    by apply store_ok in Hb.
Qed.

Lemma initialize_err c c' e : initialize_or_validate c = (c', Err e) → rows c' = rows c.
Proof.
  unfold initialize_or_validate. intros H. inv_M_err.
  - by apply keeps_tables_exist in H.
  - apply tables_exist_ok in H0 as [-> Hs]. rewrite <- Hs.
    destruct (rows c) as [[meta|] [t|]]; simpl in *;
      try (by apply keeps_lift in H); [by apply keeps_validate_store in H|by apply transaction_err in H].
Qed.

Lemma tables_exist_healthy c : healthy c → tables_exist c = (c, Ok (rows c)).
Proof. intros H. unfold tables_exist. by run_healthy H. Qed.

Lemma initialize_healthy c :
  healthy c → is_ok (initialize_or_validate c).2 = is_ok (validate_existing_store c).2.
Proof.
  intros H. unfold initialize_or_validate, validate_existing_store, mbind, M_bind.
  rewrite (tables_exist_healthy c H). destruct (rows c) as [[meta|] [t|]]; simpl; try done.
  fold fresh_store. by rewrite (transaction_healthy Prelude.Workflow
    (store Prelude.Workflow fresh_store) c _ () H (store_healthy Prelude.Workflow fresh_store c H) eq_refl).
Qed.

Lemma wf_open_ok has_parent mode c c' s :
  wf_sqlite_open has_parent mode c = (c', Ok s) →
  eq_ignore_ascii_case mode (lit "wal") = true ∧ rows s = default ∅ (db_runs (rows c)) ∧
  ((store_absent (rows c) = true ∧ rows c' = fresh_store) ∨
   (store_current (rows c) = true ∧ rows c' = rows c)).
Proof.
  unfold wf_sqlite_open, configure_connection. intros H. inv_M.
  apply keeps_open_file in H0. apply sql_call_rows in H1.
  apply require_wal_ok in H4 as Hw. apply keeps_require_wal in H4.
  apply initialize_ok in H2. rewrite H1, H4, H0 in H2. split; [done|]. split; [|done].
  simpl. destruct H2 as [[Ha ->]|[_ ->]]; [|done].
  unfold store_absent in Ha. by destruct (rows c) as [[] []].
Qed.

Lemma wf_open_err has_parent mode c c' e :
  wf_sqlite_open has_parent mode c = (c', Err e) → rows c' = rows c.
Proof.
  intros H. unfold wf_sqlite_open in H.
  assert (keeps (configure_connection mode)) as Hk
    by (unfold configure_connection; auto with harness).
  inv_M_err.
  - by apply keeps_open_file in H.
  - apply keeps_open_file in H0. apply Hk in H. congruence.
  - apply keeps_open_file in H0. apply Hk in H1. apply initialize_err in H. congruence.
Qed.

Lemma store_current_rows db key row :
  store_current db = true → default ∅ (db_runs db) !! key = Some row →
  invalid_run_row (key, row) = false.
Proof.
  unfold store_current. destruct db as [[meta|] [t|]]; simpl; try done. intros H Hr. bool_hyps.
  destruct (invalid_run_row (key, row)) eqn:E; [|done].
  assert ((key, row) ∈ List.filter invalid_run_row (pairs_iter t)) as Hin.
  { apply list_elem_of_In, filter_In. split; [|done]. apply list_elem_of_In, elem_of_pairs_iter, Hr. }
  unfold len in *. destruct (List.filter _ _); [by apply not_elem_of_nil in Hin|simpl in *; lia].
Qed.

(** Opening the Workflow store: a refused or failed open leaves the file
    as it was, a store is only returned in WAL mode and over exactly the Runs
    of the file, each row of the current schema, with a positive revision and
    bounded identity and document; a file with only one of the two tables is
    never opened; and without failures a file opens exactly when
    [validate_existing] accepts it. *)
Theorem workflow_open_exact (has_parent : bool) (mode : str) (c : Connection WorkflowDatabase) :
  let '(c', r) := wf_sqlite_open has_parent mode c in
  (rows c' = rows c ∨ (is_ok r = true ∧ store_absent (rows c) = true ∧ rows c' = fresh_store)) ∧
  (∀ s, r = Ok s →
     eq_ignore_ascii_case mode (lit "wal") = true ∧ rows s = default ∅ (db_runs (rows c)) ∧
     ∀ key row, rows s !! key = Some row → invalid_run_row (key, row) = false) ∧
  (is_ok r = true → store_absent (rows c) = true ∨ store_current (rows c) = true) ∧
  (healthy c → eq_ignore_ascii_case mode (lit "wal") = true →
     is_ok r = is_ok (wf_validate_existing c).2).
Proof.
  destruct (wf_sqlite_open has_parent mode c) as [c' r] eqn:E. split_and!.
  - destruct r as [s|e]; [|left; by eapply wf_open_err].
    apply wf_open_ok in E as (_ & _ & [[Ha ->]|[_ ->]]); [by right|by left].
  - intros s ->. apply wf_open_ok in E as (Hw & Hs & Hst). split_and!; [done|done|].
    intros key row. rewrite Hs. destruct Hst as [[Ha _]|[Hc _]]; [|by apply store_current_rows].
    unfold store_absent in Ha. by destruct (rows c) as [[] []].
  - destruct r as [s|e]; [|done]. apply wf_open_ok in E as (_ & _ & [[Ha _]|[Hc _]]); auto.
  - intros H Hw. unfold wf_sqlite_open, configure_connection, mbind, M_bind in E.
    rewrite (open_file_healthy _ _ _ H), (require_wal_healthy _ _ _ H Hw), (sql_call_healthy _ _ H) in E.
    unfold wf_validate_existing, open_read_only. run_healthy H.
    rewrite <- (initialize_healthy c H).
    destruct (initialize_or_validate c) as [c1 [u|e]]; by injection E as <- <-.
Qed.
End opening.

(** A new file. *)
Definition demo_new_file : Connection WorkflowDatabase :=
  {| rows := {| db_meta := None; db_runs := None |}; faults := [] |}.

Lemma workflow_open_exact_witness :
  is_ok (wf_sqlite_open true (lit "WAL") demo_new_file).2
  = is_ok (wf_validate_existing demo_new_file).2 ∧
  is_ok (wf_validate_existing demo_new_file).2 = true.
Proof.
  pose proof (workflow_open_exact true (lit "WAL") demo_new_file) as H.
  destruct (wf_sqlite_open true (lit "WAL") demo_new_file) as [c' r].
  split; [exact (proj2 (proj2 (proj2 H)) eq_refl eq_refl)|reflexivity].
Defined.
