(* ===== verification/WorkflowEngine.v ===== *)
(** The Workflow engine, from src/src/workflow/engine.rs: it composes a
    Workflow Coordinator with a Task Coordinator, links a Run only to an
    existing graph of the same tenant, and completes a Run only when every
    linked Task is complete.

    The engine awaits between its calls to the coordinators, so other clients
    may act in between: [await k] is what they do to both stores at the [k]-th
    suspension point. *)

From Stdlib Require Import ZArith Lia.
From stdpp Require Import sorting base tactics list gmap relations numbers strings option.
From stdpp Require Import list.
From S2P Require Import Prelude Kernel Digest Sqlite Pairs TaskGraph TaskBlocked TaskApply TaskIntegrity TaskInvariant TaskSchedule TaskSafety TaskCoordinator TaskStores TaskClients Workflow WorkflowSafety WorkflowCoordinator WorkflowStores WorkflowClients.

(** [graph.tasks().all(|record| matches!(record.status, Completed { .. }))]. *)
Definition all_completed (g : TaskGraph) : bool :=
  forallb (λ r, is_completed (tr_status r)) (bt_values (tasks g)).

Definition is_complete_command (k : WorkflowCommandKind) : bool :=
  match k with CmdComplete _ => true | _ => false end.

Section engine.
Context `{!Serialize ExecutionBinding, !Serialize (TaskId * TaskRecord),
          !Serialize TaskMessage, !Serialize TaskAttemptBinding}.
Context `{!Serialize WorkflowCreateRequest, !Serialize WorkflowCommand,
          !Serialize WorkflowRunWire, sha : !Sha256, semver : !SemverOrder}.
Context {T W : Type} `{!TaskCoordinator T, !WorkflowCoordinator W}.
Context (await : nat → T * W → T * W).

Definition on_tasks {A} (m : M T A) : M (T * W) A := λ st,
  let '(t', r) := m st.1 in ((t', st.2), r).
Definition on_workflows {A} (m : M W A) : M (T * W) A := λ st,
  let '(w', r) := m st.2 in ((st.1, w'), r).
(** A suspension point. *)
Definition yield (k : nat) : M (T * W) () := λ st, (await k st, Ok ()).

(** [WorkflowEngine::create_as]. *)
Definition engine_create_as (run_id : WorkflowRunId) (request : WorkflowCreateRequest)
    (applied_at_ms : Z) (authority : AuthorityContext) : M (T * W) WorkflowRunSnapshot :=
  graph ← on_tasks (load_as (cr_task_graph_id request) authority);
  _ ← lift (reject_if (bool_decide (¬ is_Some graph))
              (wf "Workflow Task Graph {} does not exist in the authority boundary"
                [AStr (cr_task_graph_id request)]));
  _ ← yield 0;
  on_workflows (wf_create_as run_id request applied_at_ms authority).

(** [WorkflowEngine::load_as] and [scan_due_as]. *)
Definition engine_load_as (run_id : WorkflowRunId) (authority : AuthorityContext)
    : M (T * W) (option WorkflowRunSnapshot) :=
  on_workflows (wf_load_as run_id authority).
Definition engine_scan_due_as (at_ms : Z) (after_run_id : option WorkflowRunId)
    (scan_limit : Z) (authority : AuthorityContext) : M (T * W) WorkflowDueScanPage :=
  on_workflows (wf_scan_due_as at_ms after_run_id scan_limit authority).

(** The completion check of [apply_as] on an unrecognized command. *)
Definition check_completion (run : WorkflowRun) (authority : AuthorityContext)
    : M (T * W) () :=
  let graph_id := wr_task_graph_id run in
  loaded ← on_tasks (load_as graph_id authority);
  graph ← lift (ok_or loaded
            (wf "Workflow Task Graph {} is no longer available" [AStr graph_id]));
  lift (reject_if (negb (all_completed (sn_graph graph)))
          (wf "Workflow cannot complete before every linked Task completes" [])).

(** [WorkflowEngine::apply_as]. *)
Definition engine_apply_as (run_id : WorkflowRunId) (expected_revision : Z)
    (command : WorkflowCommand) (applied_at_ms : Z) (authority : AuthorityContext)
    : M (T * W) WorkflowCommandResult :=
  let apply := on_workflows (wf_apply_as run_id expected_revision command applied_at_ms authority) in
  if is_complete_command (cmd_kind command) then
    loaded ← on_workflows (wf_load_as run_id authority);
    run ← lift (ok_or loaded (wf "Workflow Run {} does not exist" [AStr run_id]));
    recognized ← lift (recognizes_command (ws_run run) command);
    if (recognized : bool) then _ ← yield 0; apply
    else
      _ ← yield 1;
      _ ← check_completion (ws_run run) authority;
      _ ← yield 2;
      apply
  else apply.

(** The unscoped [create], [load], [scan_due] and [apply]. *)
Definition engine_create (run_id : WorkflowRunId) (request : WorkflowCreateRequest)
    (applied_at_ms : Z) : M (T * W) WorkflowRunSnapshot :=
  engine_create_as run_id request applied_at_ms local_process.
Definition engine_load (run_id : WorkflowRunId) : M (T * W) (option WorkflowRunSnapshot) :=
  engine_load_as run_id local_process.
Definition engine_scan_due (at_ms : Z) (after_run_id : option WorkflowRunId)
    (scan_limit : Z) : M (T * W) WorkflowDueScanPage :=
  engine_scan_due_as at_ms after_run_id scan_limit local_process.
Definition engine_apply (run_id : WorkflowRunId) (expected_revision : Z)
    (command : WorkflowCommand) (applied_at_ms : Z) : M (T * W) WorkflowCommandResult :=
  engine_apply_as run_id expected_revision command applied_at_ms local_process.

(** ** Environment *)

Context `{!CoordinatorLaws T, !WorkflowLaws W}.

(** What other clients may do: graphs and Runs stay, and move only along
    their domain operations ([coordinator_linearizable] and
    [workflow_store_evolves] show that clients of the coordinators do just
    that). *)
Definition tasks_sound (t : T) : Prop :=
  coord_inv t ∧ ∀ key sn, coord_view t !! key = Some sn → reachable (sn_graph sn).
Definition tasks_move (t t' : T) : Prop :=
  tasks_sound t' ∧ ∀ key cur, coord_view t !! key = Some cur → ∃ cur',
    coord_view t' !! key = Some cur' ∧ rtc task_step (sn_graph cur) (sn_graph cur').
Definition runs_move (w w' : W) : Prop :=
  wc_inv w' ∧ ∀ key cur, wc_view w !! key = Some cur → ∃ cur',
    wc_view w' !! key = Some cur' ∧ rtc wf_step (ws_run cur) (ws_run cur').

Lemma all_completed_iff g :
  all_completed g = true ↔ ∀ id r, tasks g !! id = Some r → is_completed (tr_status r) = true.
Proof.
  unfold all_completed. rewrite forallb_forall. split.
  - intros Ha id r Hr. apply Ha, list_elem_of_In, elem_of_bt_values. eauto.
  - intros Ha r [id Hr]%list_elem_of_In%elem_of_bt_values. eauto.
Qed.

Lemma step_lookup_back g g' id r' :
  task_step g g' → tasks g' !! id = Some r' → is_Some (tasks g !! id).
Proof.
  intros [|ms g1 Hadm Ha|? ? ? ? ? g1 m Hf Hs]%step_has_shape Hr; [by eexists| |].
  - apply (apply_lookup _ _ _ _ _ _ Ha) in Hr as [[_ ?]|(m & r & _ & _ & ? & _)]; by eexists.
  - apply send_ok in Hs as (_ & _ & _ & _ & _ & _ & n & _ & _ & ->). by eexists.
Qed.

(** Once every Task is completed, no operation changes that. *)
Lemma all_completed_steps g g' :
  typed g → integrity g → rtc task_step g g' → all_completed g = true → all_completed g' = true.
Proof.
  intros Ht Hi Hs. induction Hs as [g|g g1 g2 Hs _ IH]; [done|]. intros Hc.
  destruct (step_integrity _ _ Ht Hi Hs) as [Hi1 Ht1]. apply IH; [done|done|].
  apply all_completed_iff. intros id r' Hr'.
  destruct (step_lookup_back _ _ _ _ Hs Hr') as [r Hr].
  pose proof (proj1 (all_completed_iff g) Hc _ _ Hr) as Hcr.
  rewrite (settled_stays g g1 id r (in_keyed g Hi) Hs Hr) in Hr'; [by injection Hr' as <-|].
  by destruct (tr_status r).
Qed.

(** Clients of the coordinators are such an environment. *)
Lemma client_steps_move t hs t' hs' :
  client_inv (t, hs) → rtc client_step (t, hs) (t', hs') → tasks_move t t'.
Proof.
  intros Hinv Hs. refine (proj2 (rtc_ind_r (λ st, client_inv st ∧ tasks_move t st.1) _ _ _ _ Hs)).
  - split; [done|]. split; [split; apply Hinv|]. intros key cur Hcur. exists cur. by split.
  - intros [t1 hs1] [t2 hs2] _ Hstep [Hi1 [_ Hm]]. pose proof (client_step_inv _ _ Hi1 Hstep) as Hi2.
    split; [done|]. split; [split; apply Hi2|]. intros key cur Hcur.
    destruct (Hm key cur Hcur) as (c1 & Hc1 & Hr1).
    destruct (step_evolves _ _ _ _ Hi1 Hstep) as [_ Hev].
    destruct (proj1 (Hev key) c1 Hc1) as (c2 & Hc2 & [->|[_ Hr2]]); exists c2 || exists c1;
      (split; [done|]); [done|by etrans].
Qed.

Lemma coordinator_steps_move w w' : wc_inv w → rtc wc_step w w' → runs_move w w'.
Proof.
  intros Hi Hs. split.
  - clear -Hi Hs. induction Hs as [w|w w1 w2 Hs _ IH]; [done|]. apply IH. by eapply wc_step_evolves.
  - intros key cur Hcur. by destruct (steps_run _ _ _ _ Hi Hs Hcur) as (_ & ? & ? & ?); eauto.
Qed.

(** *** The two properties of the engine *)

Lemma on_tasks_eq {A} (m : M T A) t w st r :
  on_tasks m (t, w) = (st, r) → ∃ t', m t = (t', r) ∧ st = (t', w).
Proof. unfold on_tasks. simpl. destruct (m t) as [t' r']. intros [= <- <-]. eauto. Qed.

Lemma on_workflows_eq {A} (m : M W A) t w st r :
  on_workflows m (t, w) = (st, r) → ∃ w', m w = (w', r) ∧ st = (t, w').
Proof. unfold on_workflows. simpl. destruct (m w) as [w' r']. intros [= <- <-]. eauto. Qed.

Lemma steps_graph r r' : rtc wf_step r r' → wr_task_graph_id r' = wr_task_graph_id r.
Proof.
  induction 1 as [r|r r1 r2 Hs _ IH]; [done|]. rewrite IH.
  apply step_cases in Hs as [->|(c & now & a & d & [r3 k] & n & _ & Had & _ & ->)]; [done|]. simpl.
  by destruct (apply_kind_frame _ _ _ _ _ (ad_kind _ _ _ _ _ _ Had)) as (_ & -> & _).
Qed.

(** The environment acts as clients of the coordinators do. *)
Definition environment_sound : Prop := ∀ k t w,
  tasks_sound t → wc_inv w →
  tasks_move t (await k (t, w)).1 ∧ runs_move w (await k (t, w)).2.

(** A recognized command stays recognized, and is answered as a duplicate. *)
Lemma recognized_duplicate r r' c :
  validate r = Ok () → rtc wf_step r r' → recognizes_command r c = Ok true →
  ∀ now a r'', wf_apply c now a r' ≠ (r'', Ok Applied).
Proof.
  intros Hv Hs Hr now a r'' (d & p & n & Had & _)%apply_applied.
  destruct (recognizes_false _ _ (ad_new _ _ _ _ _ _ Had)) as [_ Hno].
  unfold recognizes_command in Hr. inv_ok.
  destruct (List.find _ _) as [t|] eqn:E; [|done]. apply find_some in E as [Hin Hid].
  apply list_elem_of_In in Hin. bool_hyps. apply steps_extend in Hs as [ts Hts].
  apply (Hno t); [|done]. rewrite Hts. apply elem_of_app. by left.
Qed.

(** The check passed: the linked graph was there, complete. *)
Lemma check_completion_ok run a t w st u :
  tasks_sound t → check_completion run a (t, w) = (st, Ok u) →
  ∃ t' gsn, st = (t', w) ∧ tasks_sound t' ∧
    coord_view t' !! storage_key a (wr_task_graph_id run) = Some gsn ∧
    all_completed (sn_graph gsn) = true.
Proof.
  intros [Hi Hr] Hc. unfold check_completion in Hc. inv_M. inv_ok. bool_hyps.
  match goal with H : on_tasks _ _ = _ |- _ => apply on_tasks_eq in H as (t' & Hl & ->) end.
  apply load_law in Hl as (Hi' & Hv & Hl); [|done]. destruct (Hl _ eq_refl) as [_ Hg].
  exists t'. eexists. split_and!; [done| |by rewrite Hv, <-Hg|done].
  split; [done|]. rewrite Hv. done.
Qed.

Lemma await_sound k t w :
  environment_sound → tasks_sound t → wc_inv w →
  ∃ t' w', await k (t, w) = (t', w') ∧ tasks_move t t' ∧ runs_move w w'.
Proof.
  intros He Ht Hw. destruct (He k t w Ht Hw) as [H1 H2].
  destruct (await k (t, w)) as [t' w']. eauto.
Qed.

Lemma yield_eq k st st' u : yield k st = (st', Ok u) → st' = await k st.
Proof. unfold yield. by intros [= <-]. Qed.

(** A completion that was applied came from the unrecognized branch. *)
Lemma engine_complete_phases id rev c now a t w st' res summary :
  environment_sound → tasks_sound t → wc_inv w →
  engine_apply_as id rev c now a (t, w) = (st', Ok res) →
  cmd_kind c = CmdComplete summary → wcr_outcome res = Applied →
  ∃ t3 w3 w' cur cur3 gsn,
    wc_view w !! run_key id (tenant_id a) = Some cur ∧
    wc_inv w3 ∧ wc_view w3 !! run_key id (tenant_id a) = Some cur3 ∧
    rtc wf_step (ws_run cur) (ws_run cur3) ∧
    coord_view t3 !! storage_key a (wr_task_graph_id (ws_run cur)) = Some gsn ∧
    all_completed (sn_graph gsn) = true ∧
    st' = (t3, w') ∧ wf_apply_as id rev c now a w3 = (w', Ok res).
Proof.
  intros He Ht Hw Ha Hk Hout. unfold engine_apply_as in Ha. rewrite Hk in Ha. cbn in Ha. inv_M.
  match goal with H : on_workflows _ _ = _ |- _ => apply on_workflows_eq in H as (w0 & Hl & ->) end.
  apply wc_load_law in Hl as (Hw0 & Hv0 & Hl); [|done]. destruct (Hl _ eq_refl) as [_ ->]. clear Hl.
  inv_ok. match goal with H : wc_view w !! _ = Some ?c |- _ => rename c into cur; rename H into Hcur end.
  assert (wc_view w0 !! run_key id (tenant_id a) = Some cur) as Hcur0 by (by rewrite Hv0).
  match goal with b : bool |- _ => destruct b eqn:Eb end; inv_M.
  - exfalso. match goal with H : yield _ _ = _ |- _ => apply yield_eq in H as -> end.
    destruct (await_sound 0 t w0 He Ht Hw0) as (t1 & w1 & Ew & _ & [Hw1 Hm]). rewrite Ew in Ha.
    apply on_workflows_eq in Ha as (w' & Ha & ->). apply wc_apply_law in Ha as [_ Hr]; [|done].
    destruct Hr as (_ & cur1 & Hcur1 & [(_ & _ & ->)|(_ & run & Hap & _)]); [done|].
    destruct (Hm _ _ Hcur0) as (cur1' & E & Hs). rewrite Hcur1 in E. injection E as <-.
    destruct (wc_stored _ _ _ Hw Hcur) as (_ & _ & [Hval _] & _).
    by eapply (recognized_duplicate _ _ _ Hval Hs) in Hap.
  - repeat match goal with H : yield _ _ = _ |- _ => apply yield_eq in H; subst end.
    destruct (await_sound 1 t w0 He Ht Hw0) as (t1 & w1 & Ew & [Ht1 _] & [Hw1 Hm1]).
    match goal with H : check_completion _ _ _ = _ |- _ => rewrite Ew in H;
      destruct (check_completion_ok _ _ _ _ _ _ Ht1 H) as (t2 & gsn & -> & Ht2 & Hg & Hall) end.
    destruct (await_sound 2 t2 w1 He Ht2 Hw1) as (t3 & w3 & Ew3 & [Ht3 Hg3] & [Hw3 Hm3]).
    rewrite Ew3 in Ha. apply on_workflows_eq in Ha as (w' & Ha & ->).
    destruct (Hm1 _ _ Hcur0) as (cur1 & Hcur1 & Hs1). destruct (Hm3 _ _ Hcur1) as (cur3 & Hcur3 & Hs3).
    destruct (Hg3 _ _ Hg) as (gsn3 & Hgsn3 & Hgs).
    destruct (reachable_integrity _ (proj2 Ht2 _ _ Hg)) as [Hgi Hgt].
    exists t3, w3, w', cur, cur3, gsn3. split_and!; try done; [by etrans|].
    by eapply all_completed_steps.
Qed.

(** C27: completion is gated on the Tasks: whatever other clients do between
    the engine's calls, when a completion is applied through the engine the
    Run is stored as completed, and its linked Task Graph, of the same
    tenant, is stored with every Task completed. *)
Theorem engine_completion_gated (id : WorkflowRunId) (rev now : Z) (c : WorkflowCommand)
    (a : AuthorityContext) (t t' : T) (w w' : W) (res : WorkflowCommandResult) (summary : str)
    (He : environment_sound) (Ht : tasks_sound t) (Hw : wc_inv w)
    (Ha : engine_apply_as id rev c now a (t, w) = ((t', w'), Ok res))
    (Hk : cmd_kind c = CmdComplete summary) (Hout : wcr_outcome res = Applied) :
  wr_status (ws_run (wcr_snapshot res)) = WfCompleted summary ∧
  wc_view w' !! run_key id (tenant_id a) = Some (wcr_snapshot res) ∧
  ∃ gsn, coord_view t' !! storage_key a (wr_task_graph_id (ws_run (wcr_snapshot res))) = Some gsn ∧
    ∀ tid r, tasks (sn_graph gsn) !! tid = Some r → is_completed (tr_status r) = true.
Proof.
  destruct (engine_complete_phases _ _ _ _ _ _ _ _ _ _ He Ht Hw Ha Hk Hout)
    as (t3 & w3 & w4 & cur & cur3 & gsn & Hcur & Hw3 & Hcur3 & Hs & Hg & Hall & [= -> ->] & Hap).
  apply wc_apply_law in Hap as [_ Hr]; [|done].
  destruct Hr as (_ & cur3' & E & [(_ & _ & ->)|(_ & run & Hap & -> & Hv)]); [done|].
  rewrite Hcur3 in E. injection E as <-. simpl.
  apply apply_applied in Hap as (d & [r1 k] & n & Had & _ & _ & ->).
  pose proof (ad_kind _ _ _ _ _ _ Had) as Hkind. rewrite Hk in Hkind. simpl in Hkind. inv_ok. subst r1 k.
  simpl. split_and!; [done|by rewrite Hv, lookup_insert_eq|].
  exists gsn. rewrite (steps_graph _ _ Hs). split; [done|]. by apply all_completed_iff.
Qed.

(** a Run is only linked to a graph that exists: when the engine creates
    a Run, the requested Task Graph is stored under the authority's tenant,
    and a new Run is linked to it. *)
Theorem engine_create_linked (id : WorkflowRunId) (req : WorkflowCreateRequest) (now : Z)
    (a : AuthorityContext) (t t' : T) (w w' : W) (sn : WorkflowRunSnapshot)
    (He : environment_sound) (Ht : tasks_sound t) (Hw : wc_inv w)
    (Hc : engine_create_as id req now a (t, w) = ((t', w'), Ok sn)) :
  (∃ gsn, coord_view t' !! storage_key a (cr_task_graph_id req) = Some gsn ∧
          sn_tenant_id gsn = tenant_id a) ∧
  wc_view w' !! run_key id (tenant_id a) = Some sn ∧
  (create_matches (ws_run sn) req = Ok true ∨ wr_task_graph_id (ws_run sn) = cr_task_graph_id req).
Proof.
  unfold engine_create_as in Hc. inv_M. inv_ok. bool_hyps.
  match goal with H : on_tasks _ _ = _ |- _ => apply on_tasks_eq in H as (t1 & Hl & ->) end.
  match goal with H : yield _ _ = _ |- _ => apply yield_eq in H; subst end.
  apply load_law in Hl as (Ht1 & Hv1 & Hl); [|apply Ht]. destruct (Hl _ eq_refl) as [Hauth ->].
  match goal with H : ¬ ¬ is_Some _ |- _ => apply dec_stable in H as [g Hg] end.
  assert (tasks_sound t1) as Hts by (split; [done|]; rewrite Hv1; apply Ht).
  destruct (await_sound 0 t1 w He Hts Hw) as (t2 & w2 & E & [Ht2 Hm] & [Hw2 _]). rewrite E in Hc.
  apply on_workflows_eq in Hc as (w3 & Hc & [= -> ->]).
  rewrite <-Hv1 in Hg. destruct (Hm _ _ Hg) as (g2 & Hg2 & _). split.
  { exists g2. split; [done|]. destruct (coord_stored _ _ _ (proj1 Ht2) Hg2) as (_ & Hk & _).
    simpl in Hk. rewrite (tenant_key_roundtrip _ _ _ Hauth) in Hk. congruence. }
  apply wc_create_law in Hc as [_ (_ & Hcase)]; [|done].
  destruct Hcase as [(Hold & Hmatch & ->)|(_ & run & Hnew & -> & ->)]; [by split; [|left]|].
  split; [apply lookup_insert_eq|right]. unfold WorkflowRun_new in Hnew. inv_ok. by subst run.
Qed.
End engine.
