(* ===== verification/WorkflowDemo.v ===== *)
(** A concrete Workflow Run on which the Workflow theorems are exercised: a Run
    that waits for a signal, linked to the demonstration Task Graph, under a
    codec that encodes every value as the two bytes of an empty JSON object, a
    constant digest and the textual order of versions. *)

From Stdlib Require Import ZArith Lia.
From stdpp Require Import sorting base tactics list gmap relations numbers strings option.
From stdpp Require Import list.
From S2P Require Import Prelude Kernel Digest Sqlite Pairs TaskGraph TaskSchedule TaskMessages TaskCoordinator TaskStores TaskClients Workflow WorkflowSafety WorkflowCoordinator WorkflowStores WorkflowClients WorkflowEngine.

#[local] Existing Instance demo_json.
(** A digest that tells one text from the others. *)
Definition marked_text : str := lit "stopped" ++ [34%N].
#[local] Instance demo_sha : Sha256 := λ text,
  repeat (if bool_decide (marked_text `suffix_of` text) then 205%N else 171%N) 32.
#[local] Instance demo_sha_laws : Sha256Laws.
Proof.
  split; [done|]. intros s b Hb. unfold sha256_digest, demo_sha in Hb.
  apply list_elem_of_In, repeat_spec in Hb as ->. case_bool_decide; lia.
Qed.
#[local] Instance demo_semver : SemverOrder := str_leb.
Lemma demo_semver_laws : SemverLaws.
Proof. split; [apply str_leb_total|apply str_leb_trans]. Qed.

Definition demo_definition (version : string) (digit : N) : WorkflowDefinition :=
  {| wd_name := lit "deploy"; wd_version := lit version;
     wd_content_sha256 := repeat digit 64 |}.

Definition demo_request : WorkflowCreateRequest :=
  {| cr_command_id := lit "create-1"; cr_definition := demo_definition "1.0.0" 97;
     cr_task_graph_id := demo_id |}.

Definition demo_run_get (r : result WorkflowRun) : WorkflowRun :=
  match r with
  | Ok r => r
  | Err _ => {| wr_definition := demo_definition "0.0.0" 97; wr_task_graph_id := [];
                wr_status := WfRunning; wr_transitions := []; wr_charge := 0 |}
  end.

Definition demo_run : WorkflowRun :=
  demo_run_get (WorkflowRun_new demo_request 100 local_process).

Definition demo_command (id : string) (kind : WorkflowCommandKind) : WorkflowCommand :=
  {| cmd_id := lit id; cmd_kind := kind |}.

Definition demo_wait : WorkflowCommand :=
  demo_command "wait-1" (WaitForSignal (lit "w1") (lit "approved") (lit "inbox") (Some 200%Z)).
Definition demo_signal : WorkflowCommand :=
  demo_command "signal-1" (DeliverSignal (lit "w1") (lit "s1") (lit "approved") (lit "inbox") (lit "k1")).
Definition demo_migrate : WorkflowCommand :=
  demo_command "migrate-1" (MigrateDefinition (demo_definition "1.1.0" 98)).
Definition demo_cancel : WorkflowCommand := demo_command "cancel-1" (CmdCancel (lit "stop")).

Definition demo_apply (c : WorkflowCommand) (now : Z) (r : WorkflowRun) : WorkflowRun :=
  (wf_apply c now local_process r).1.

Definition demo_waiting : WorkflowRun := demo_apply demo_wait 110 demo_run.
Definition demo_migrated : WorkflowRun := demo_apply demo_migrate 120 demo_waiting.
Definition demo_signalled : WorkflowRun := demo_apply demo_signal 130 demo_waiting.
Definition demo_cancelled : WorkflowRun := demo_apply demo_cancel 140 demo_signalled.

(** The demonstration exercises the branches it is meant to. *)
Lemma demo_workflow_runs :
  is_ok (WorkflowRun_new demo_request 100 local_process) = true ∧
  wr_status demo_waiting = WfWaiting (WaitSignal (lit "w1") (lit "approved") (lit "inbox") (Some 200%Z)) ∧
  wr_definition demo_migrated = demo_definition "1.1.0" 98 ∧
  wr_status demo_signalled = WfRunning ∧
  wr_status demo_cancelled = WfCancelled (lit "stop") ∧
  length (wr_transitions demo_cancelled) = 4%nat ∧
  is_ok (wf_apply demo_signal 200 local_process demo_waiting).2 = false.
Proof. vm_compute. split_and!; reflexivity. Qed.

Lemma demo_wait_applied : wf_apply demo_wait 110 local_process demo_run = (demo_waiting, Ok Applied).
Proof. vm_compute. reflexivity. Qed.
Lemma demo_signal_applied :
  wf_apply demo_signal 130 local_process demo_waiting = (demo_signalled, Ok Applied).
Proof. vm_compute. reflexivity. Qed.
Lemma demo_migrate_applied :
  wf_apply demo_migrate 120 local_process demo_waiting = (demo_migrated, Ok Applied).
Proof. vm_compute. reflexivity. Qed.
Lemma demo_cancel_applied :
  wf_apply demo_cancel 140 local_process demo_signalled = (demo_cancelled, Ok Applied).
Proof. vm_compute. reflexivity. Qed.

Lemma demo_applied_step c now r r' :
  (0 ≤ now)%Z → wf_apply c now local_process r = (r', Ok Applied) → wf_step r r'.
Proof. intros Hn Ha. by exists c, now, local_process, (Ok Applied). Qed.

Lemma demo_run_steps : rtc wf_step demo_run demo_signalled.
Proof.
  eapply rtc_l; [exact (demo_applied_step _ 110 _ _ ltac:(lia) demo_wait_applied)|].
  apply rtc_once. exact (demo_applied_step _ 130 _ _ ltac:(lia) demo_signal_applied).
Qed.

(** ** Witnesses of the Run properties *)

Lemma workflow_apply_admitted_witness :
  wf_apply demo_wait 110 local_process demo_run = (demo_waiting, Ok Applied) ∧
  validate demo_waiting = Ok ().
Proof.
  destruct (apply_applied demo_wait 110 local_process demo_run demo_waiting demo_wait_applied)
    as (d & p & n & Had & _ & Hn & E). rewrite E.
  apply (workflow_apply_admitted demo_run demo_wait 110 local_process d p n);
    [vm_compute; reflexivity|lia|exact Had|exact Hn].
Defined.

Lemma workflow_history_determines_witness :
  validate demo_signalled = Ok () ∧ wr_definition demo_signalled = wr_definition demo_signalled.
Proof.
  destruct (workflow_history_determines demo_run demo_signalled demo_signalled) as (H1 & _ & H2);
    [vm_compute; reflexivity|exact demo_run_steps|exact demo_run_steps|].
  split; [exact H1|exact (proj1 (H2 eq_refl))].
Defined.

Lemma workflow_idempotent_witness :
  wf_apply demo_wait 300 local_process demo_signalled = (demo_signalled, Ok Duplicate).
Proof.
  destruct (workflow_idempotent demo_run demo_waiting demo_signalled demo_wait 110 local_process)
    as [H _]; [vm_compute; reflexivity|lia|exact demo_wait_applied| |apply H].
  apply rtc_once. exact (demo_applied_step _ 130 _ _ ltac:(lia) demo_signal_applied).
Defined.

Lemma workflow_terminal_absorbing_witness :
  demo_apply (demo_command "fail-1" (CmdFail (lit "late"))) 150 demo_cancelled = demo_cancelled.
Proof.
  apply (workflow_terminal_absorbing demo_cancelled); [vm_compute; reflexivity|].
  apply rtc_once. eexists (demo_command "fail-1" (CmdFail (lit "late"))), 150%Z, local_process, _.
  split; [lia|]. apply surjective_pairing.
Defined.

Lemma workflow_wait_fencing_witness :
  wait_settled demo_signalled (lit "w1") ∧
  wf_apply (demo_command "wake-1" (WakeDue (lit "w1"))) 500 local_process demo_signalled
    ≠ (demo_signalled, Ok Applied).
Proof.
  assert (wait_settled demo_signalled (lit "w1")) as Hw.
  { split; [vm_compute; reflexivity|]. intros w Hw. vm_compute in Hw. discriminate Hw. }
  split; [exact Hw|].
  destruct (workflow_wait_fencing demo_signalled demo_signalled (lit "w1")) with
    (cid := lit "wake-1") (now := 500%Z) (a := local_process) as [_ H];
    [exact Hw|apply rtc_refl|exact (H demo_signalled)].
Defined.

Lemma workflow_timeout_boundary_witness :
  ∃ e, Some 200%Z = e ∧ (∀ t, e = Some t → (130 < t)%Z) ∧ wr_status demo_signalled = WfRunning.
Proof.
  destruct (workflow_timeout_boundary demo_waiting
    (WaitSignal (lit "w1") (lit "approved") (lit "inbox") (Some 200%Z))) as [H _];
    [vm_compute; reflexivity|].
  destruct (H demo_signal 130%Z local_process demo_signalled (lit "s1") (lit "approved") (lit "inbox")
    (lit "k1") demo_signal_applied eq_refl) as (e & E & H1 & H2).
  exists e. split; [by injection E|]. split; [exact H1|exact H2].
Defined.

Lemma workflow_cancel_possible_witness :
  ∃ r', wf_apply demo_cancel 140 local_process demo_signalled = (r', Ok Applied) ∧
    wr_status r' = WfCancelled (lit "stop").
Proof.
  destruct (workflow_cancel_possible demo_signalled (lit "cancel-1") (lit "stop")
    (lower_sha256 []) 140 2 local_process) as (_ & _ & H);
    [vm_compute; reflexivity..| | | |exact H].
  - intros t Ht. apply list_elem_of_In in Ht. vm_compute in Ht.
    destruct Ht as [<-|[<-|[<-|[]]]]; vm_compute; discriminate.
  - vm_compute. reflexivity.
  - vm_compute. reflexivity.
Defined.

Lemma workflow_history_wellformed_witness :
  NoDup (wt_command_id <$> wr_transitions demo_cancelled).
Proof.
  destruct (workflow_history_wellformed demo_cancelled) as (_ & _ & H & _);
    [vm_compute; reflexivity|exact H].
Defined.

Lemma workflow_migration_monotone_witness :
  migrates (wr_definition demo_waiting) (wr_definition demo_migrated) ∧
  wr_definition demo_migrated ≠ wr_definition demo_waiting.
Proof.
  split.
  - apply (workflow_migration_monotone demo_semver_laws demo_waiting demo_migrated).
    apply rtc_once. exact (demo_applied_step _ 120 _ _ ltac:(lia) demo_migrate_applied).
  - vm_compute. discriminate.
Defined.

(** ** Witnesses of the coordinator and engine properties *)

Definition demo_run_id : WorkflowRunId := lit "run-1".

Definition demo_no_runs : MemoryRuns := ∅.
Definition demo_runs_created : MemoryRuns :=
  (wf_create_as demo_run_id demo_request 100 local_process demo_no_runs).1.
Definition demo_runs_waiting : MemoryRuns :=
  (wf_apply_as demo_run_id 1 demo_wait 110 local_process demo_runs_created).1.

Lemma demo_no_runs_inv : wc_inv demo_no_runs.
Proof. apply map_Forall_empty. Qed.

Lemma demo_runs_create_step : wc_step demo_no_runs demo_runs_created.
Proof.
  refine (wc_create _ demo_run_id demo_request 100 local_process _ _ _ (surjective_pairing _)). lia.
Qed.

Lemma demo_runs_wait_step : wc_step demo_runs_created demo_runs_waiting.
Proof.
  refine (wc_apply _ demo_run_id 1 demo_wait 110 local_process _ _ _ (surjective_pairing _)). lia.
Qed.

Lemma demo_runs_created_inv : wc_inv demo_runs_created.
Proof. exact (proj1 (wc_step_evolves _ _ demo_no_runs_inv demo_runs_create_step)). Qed.
Lemma demo_runs_waiting_inv : wc_inv demo_runs_waiting.
Proof. exact (proj1 (wc_step_evolves _ _ demo_runs_created_inv demo_runs_wait_step)). Qed.

Lemma workflow_store_evolves_witness :
  run_evolves demo_runs_created demo_runs_waiting ∧
  ∃ sn, wc_view demo_runs_waiting !! run_key demo_run_id None = Some sn ∧
    ws_revision sn = len (wr_transitions (ws_run sn)).
Proof.
  destruct (workflow_store_evolves demo_runs_created demo_runs_waiting) as [H1 H2].
  - exists demo_no_runs. split; [exact demo_no_runs_inv|]. split; [reflexivity|].
    apply rtc_once. exact demo_runs_create_step.
  - exact demo_runs_wait_step.
  - split; [exact H1|].
    destruct (wc_view demo_runs_waiting !! run_key demo_run_id None) as [sn|] eqn:E;
      [|vm_compute in E; discriminate E].
    exists sn. split; [reflexivity|]. exact (proj1 (proj2 (H2 _ _ E))).
Defined.

Definition is_applied (o : WorkflowApplyOutcome) : bool :=
  match o with Applied => true | Duplicate => false end.

Lemma demo_wait_call :
  succeeds (λ res, is_applied (wcr_outcome res))
    (wf_apply_as demo_run_id 1 demo_wait 110 local_process demo_runs_created) = true.
Proof. vm_compute. reflexivity. Qed.
Lemma demo_wait_again :
  succeeds (λ _, true)
    (wf_apply_as demo_run_id 1 demo_wait 190 local_process demo_runs_waiting) = true.
Proof. vm_compute. reflexivity. Qed.
Lemma demo_scan_call :
  succeeds (λ page, bool_decide (sp_due page ≠ []))
    (wf_scan_due_as 250 None 8 local_process demo_runs_waiting) = true.
Proof. vm_compute. reflexivity. Qed.

Lemma is_applied_true o : is_applied o = true → o = Applied.
Proof. by destruct o. Qed.

(** The waiting command again, at the revision it was applied at, and another
    command under its identity. *)
Definition demo_wait_other : WorkflowCommand :=
  demo_command "wait-1" (CmdCancel (lit "other")).

Lemma workflow_command_exactly_once_witness :
  ∃ cur s3, wc_view demo_runs_waiting !! run_key demo_run_id None = Some cur ∧
    ws_revision cur = 2%Z ∧
    wf_apply_as demo_run_id 1 demo_wait 190 local_process demo_runs_waiting
    = (s3, Ok {| wcr_snapshot := cur; wcr_outcome := Duplicate |}) ∧
    ∀ s4 r, wf_apply_as demo_run_id 2 demo_wait_other 190 local_process demo_runs_waiting = (s4, r) →
      s4 = demo_runs_waiting.
Proof.
  destruct (succeeds_with _ _ demo_wait_call) as (res & E & Ho).
  destruct (workflow_command_exactly_once demo_runs_created demo_runs_waiting demo_runs_waiting
    demo_run_id 1 110 demo_wait local_process res) as (cur & Hcur & H1 & _ & H3).
  - exact demo_runs_created_inv.
  - exact E.
  - exact (is_applied_true _ Ho).
  - apply rtc_refl.
  - destruct (H1 1%Z 190%Z local_process) as (s3 & E3 & _);
      [exact I|reflexivity|vm_compute; reflexivity|lia|].
    exists cur, s3. split; [exact Hcur|]. split; [|split; [exact E3|]].
    + vm_compute in Hcur. injection Hcur as <-. reflexivity.
    + intros s4 r E4. exact (proj1 (H3 2%Z demo_wait_other 190%Z local_process s4 r eq_refl eq_refl E4)).
Defined.

Lemma workflow_due_scan_complete_witness :
  ∃ page visited rest,
    (wf_scan_due_as 250 None 8 local_process demo_runs_waiting).2 = Ok page ∧
    values_after (wc_view demo_runs_waiting) [] None = visited ++ rest ∧
    sp_due page = omap (due_entry 250) visited ∧ sp_due page ≠ [].
Proof.
  destruct (succeeds_with _ _ demo_scan_call) as (page & E & Hne).
  destruct (workflow_due_scan_complete demo_runs_waiting
    (wf_scan_due_as 250 None 8 local_process demo_runs_waiting).1 250 8 None local_process page)
    as (visited & rest & H1 & H2 & _); [exact demo_runs_waiting_inv|exact E|].
  exists page, visited, rest. split; [exact (f_equal snd E)|].
  split; [exact H1|]. split; [exact H2|exact (bool_decide_eq_true_1 _ Hne)].
Defined.

Lemma workflow_tenant_isolation_witness :
  ∃ sn, wc_view demo_runs_created !! run_key demo_run_id None = Some sn ∧
    wc_view (wf_apply_as demo_run_id 1 demo_wait 110 demo_tenant demo_runs_created).1
      !! run_key demo_run_id None = Some sn.
Proof.
  destruct (wc_view demo_runs_created !! run_key demo_run_id None) as [sn|] eqn:E;
    [|vm_compute in E; discriminate E].
  exists sn. split; [reflexivity|].
  destruct (workflow_tenant_isolation demo_runs_created
    (wf_apply_as demo_run_id 1 demo_wait 110 demo_tenant demo_runs_created).1 demo_tenant
    demo_runs_created_inv) as [_ H].
  apply (H (or_intror (ex_intro _ demo_run_id (ex_intro _ 1%Z (ex_intro _ demo_wait
    (ex_intro _ 110%Z (ex_intro _ _ (surjective_pairing _)))))))); [exact E|].
  destruct (wc_stored _ _ _ demo_runs_created_inv E) as (_ & -> & _). discriminate.
Defined.

(** A Task Graph whose only Task is completed, stored in memory. *)
Definition demo_single : TaskGraph :=
  demo_get (TaskGraph_new [demo_task "a" []]).
Definition demo_single_claimed : TaskGraph :=
  (claim_ready (demo_lease_ids "lease-") (lit "worker-1") 10 100 8 demo_single).1.
Definition demo_single_done : TaskGraph :=
  (complete (lit "a") (lit "lease-") 20 demo_completion demo_single_claimed).1.

Definition demo_graphs : MemoryStore :=
  (create demo_id demo_single_done (∅ : MemoryStore)).1.

Lemma demo_single_reachable : reachable demo_single_done.
Proof.
  eapply reach_step; [eapply reach_step; [eapply reach_new|]|].
  - instantiate (1 := demo_single). instantiate (1 := [demo_task "a" []]). vm_compute. reflexivity.
  - instantiate (1 := demo_single_claimed).
    eapply (step_claim demo_single (demo_lease_ids "lease-") (lit "worker-1") 10 100 8 None ∅).
    vm_compute. reflexivity.
  - eapply step_complete. apply surjective_pairing.
Qed.

Lemma demo_graphs_call :
  create_as demo_id demo_single_done local_process (∅ : MemoryStore)
  = (demo_graphs, Ok (first_snapshot demo_id local_process demo_single_done)).
Proof. vm_compute. reflexivity. Qed.

Lemma demo_graphs_sound : tasks_sound demo_graphs.
Proof.
  assert (coord_inv (∅ : MemoryStore)) as H0 by apply map_Forall_empty.
  destruct (create_law _ _ _ _ _ _ H0 demo_graphs_call) as (Hi & _ & _ & _ & Hv).
  split; [exact Hi|]. intros key sn Hk. rewrite Hv in Hk.
  apply lookup_insert_Some in Hk as [[_ <-]|[_ Hk]]; [exact demo_single_reachable|].
  simpl in Hk. unfold MemoryStore in Hk. by rewrite lookup_empty in Hk.
Qed.

(** No other client acts. *)
Definition demo_await : nat → MemoryStore * MemoryRuns → MemoryStore * MemoryRuns := λ _ st, st.

Lemma demo_environment : environment_sound demo_await.
Proof.
  intros k t w Ht Hw. split; (split; [done|]); intros key cur Hc; exists cur; by split.
Qed.

Definition demo_complete : WorkflowCommand := demo_command "complete-1" (CmdComplete (lit "done")).

Lemma demo_engine_complete_call :
  succeeds (λ res, is_applied (wcr_outcome res))
    (engine_apply_as demo_await demo_run_id 1 demo_complete 150 local_process
      (demo_graphs, demo_runs_created)) = true.
Proof. vm_compute. reflexivity. Qed.
Lemma demo_engine_create_call :
  succeeds (λ _, true)
    (engine_create_as demo_await demo_run_id demo_request 100 local_process
      (demo_graphs, demo_no_runs)) = true.
Proof. vm_compute. reflexivity. Qed.

Lemma engine_completion_gated_witness :
  ∃ res,
    (engine_apply_as demo_await demo_run_id 1 demo_complete 150 local_process
      (demo_graphs, demo_runs_created)).2 = Ok res ∧
    wr_status (ws_run (wcr_snapshot res)) = WfCompleted (lit "done").
Proof.
  destruct (succeeds_with _ _ demo_engine_complete_call) as (res & E & Ho).
  rewrite (surjective_pairing (engine_apply_as _ _ _ _ _ _ _).1) in E.
  destruct (engine_completion_gated demo_await demo_run_id 1 150 demo_complete local_process
    demo_graphs _ demo_runs_created _ res (lit "done") demo_environment demo_graphs_sound
    demo_runs_created_inv E eq_refl (is_applied_true _ Ho)) as (H & _).
  exists res. split; [exact (f_equal snd E)|exact H].
Defined.

Lemma engine_create_linked_witness :
  ∃ t' w' sn gsn,
    engine_create_as demo_await demo_run_id demo_request 100 local_process
      (demo_graphs, demo_no_runs) = ((t', w'), Ok sn) ∧
    coord_view t' !! storage_key local_process demo_id = Some gsn.
Proof.
  destruct (succeeds_with _ _ demo_engine_create_call) as (sn & E & _).
  rewrite (surjective_pairing (engine_create_as _ _ _ _ _ _).1) in E.
  destruct (engine_create_linked demo_await demo_run_id demo_request 100 local_process demo_graphs _
    demo_no_runs _ sn demo_environment demo_graphs_sound demo_no_runs_inv E) as ((gsn & H & _) & _).
  eexists _, _, sn, gsn. split; [exact E|exact H].
Defined.
