(* ===== verification/Effect.v ===== *)
(** The durable Effect, from src/src/effect/mod.rs: one external side effect
    that workers execute under expiring leases.  An attempt whose outcome is
    not known makes the Effect [Unknown]; only a reconciliation leaves that
    state.  This file has the data, the validators, the validator that
    replays the transitions, [new] and [apply].

    The JSON codec and SHA-256 are parameters. *)

From Stdlib Require Import ZArith Lia.
From stdpp Require Import sorting base tactics list gmap relations numbers strings option.
From stdpp Require Import list.
From S2P Require Import Prelude Kernel Digest Json.

(** * Constants *)

Definition MAX_EFFECT_TRANSITIONS : Z := 4096.
Definition MAX_EFFECT_JSON_BYTES : Z := 16777216.
Definition MAX_EFFECT_COMMAND_JSON_BYTES : Z := 131072.
Definition MAX_EFFECT_INPUT_BYTES : Z := 131072.
Definition MAX_EFFECT_IDENTITY_BYTES : Z := 256.
Definition MIN_EFFECT_LEASE_MS : Z := 1000.
Definition MAX_EFFECT_LEASE_MS : Z := 604800000.
Definition MAX_EFFECT_ATTEMPTS : Z := 1000000.

(** * Data *)

Abbreviation EffectId := str (only parsing).
Abbreviation EffectCommandId := str (only parsing).
Abbreviation EffectLeaseId := str (only parsing).

Record EffectOperation := {
  eo_capability : str;
  eo_operation : str;
}.

Record EffectCreateRequest := {
  er_command_id : EffectCommandId;
  er_operation : EffectOperation;
  er_idempotency_key : str;
  er_input : Json;
  er_not_before_ms : Z;
}.

Record EffectReceipt := {
  rc_source : str;
  rc_external_id : str;
  rc_observed_at_ms : Z;
  rc_response_sha256 : str;
}.

Record EffectLease := {
  el_id : EffectLeaseId;
  el_owner : ActorIdentity;
  el_attempt : Z;
  el_claimed_at_ms : Z;
  el_expires_at_ms : Z;
}.

Inductive EffectStatus :=
| EsPending (next_attempt not_before_ms : Z)
| EsClaimed (lease : EffectLease)
| EsUnknown (attempt : Z) (lease_id : EffectLeaseId) (reason_code : str)
| EsApplied (attempt : Z) (receipt : EffectReceipt)
| EsRejected (attempt : Z) (reason_code : str)
| EsCancelled (reason_code : str).

(** [EffectStatus::is_terminal]. *)
Definition eff_terminal (s : EffectStatus) : bool :=
  match s with EsApplied _ _ | EsRejected _ _ | EsCancelled _ => true | _ => false end.

Inductive EffectCommandKind :=
| EcClaim (lease_id : EffectLeaseId) (lease_duration_ms : Z)
| EcRenewLease (lease_id : EffectLeaseId) (lease_duration_ms : Z)
| EcRecordApplied (lease_id : EffectLeaseId) (receipt : EffectReceipt)
| EcRecordNotApplied (lease_id : EffectLeaseId) (reason_code : str) (retry_at_ms : option Z)
| EcRecordUnknown (lease_id : EffectLeaseId) (reason_code : str)
| EcExpireLease (lease_id : EffectLeaseId)
| EcReconcileApplied (lease_id : EffectLeaseId) (attempt : Z) (receipt : EffectReceipt)
| EcReconcileNotApplied (lease_id : EffectLeaseId) (attempt : Z) (reason_code : str)
    (retry_at_ms : option Z)
| EcCancel (reason_code : str).

Record EffectCommand := {
  ec_id : EffectCommandId;
  ec_kind : EffectCommandKind;
}.

Inductive EffectApplyOutcome := EffApplied | EffDuplicate.

Inductive EffectTransitionKind :=
| EtCreated (tenant_id : option str) (operation : EffectOperation) (idempotency_key : str)
    (input : Json) (input_sha256 : str) (not_before_ms : Z)
| EtClaimed (lease_id : EffectLeaseId) (attempt lease_duration_ms : Z)
| EtLeaseRenewed (lease_id : EffectLeaseId) (lease_duration_ms previous_expires_at_ms : Z)
| EtApplied (lease_id : EffectLeaseId) (attempt : Z) (receipt : EffectReceipt) (reconciled : bool)
| EtNotApplied (lease_id : EffectLeaseId) (attempt : Z) (reason_code : str)
    (retry_at_ms : option Z) (reconciled : bool)
| EtBecameUnknown (lease_id : EffectLeaseId) (attempt : Z) (reason_code : str) (expired : bool)
| EtCancelled (reason_code : str).

Record EffectTransition := {
  et_sequence : Z;
  et_command_id : EffectCommandId;
  et_command_sha256 : str;
  et_applied_at_ms : Z;
  et_actor : ActorIdentity;
  et_kind : EffectTransitionKind;
}.

Record Effect := {
  ef_tenant_id : option str;
  ef_operation : EffectOperation;
  ef_idempotency_key : str;
  ef_input : Json;
  ef_input_sha256 : str;
  ef_created_at_ms : Z;
  ef_status : EffectStatus;
  ef_transitions : list EffectTransition;
  ef_charge : Z;
}.

(** What serde writes and reads of an Effect: the charge is skipped. *)
Record EffectWire := {
  ew_tenant_id : option str;
  ew_operation : EffectOperation;
  ew_idempotency_key : str;
  ew_input : Json;
  ew_input_sha256 : str;
  ew_created_at_ms : Z;
  ew_status : EffectStatus;
  ew_transitions : list EffectTransition;
}.

Definition effect_wire (e : Effect) : EffectWire :=
  {| ew_tenant_id := ef_tenant_id e; ew_operation := ef_operation e;
     ew_idempotency_key := ef_idempotency_key e; ew_input := ef_input e;
     ew_input_sha256 := ef_input_sha256 e; ew_created_at_ms := ef_created_at_ms e;
     ew_status := ef_status e; ew_transitions := ef_transitions e |}.

Record AttributedCommand (T : Type) := {
  ac_actor : ActorIdentity;
  ac_tenant_id : option str;
  ac_command : T;
}.
Arguments ac_actor {T} a.
Arguments ac_tenant_id {T} a.
Arguments ac_command {T} a.

#[global] Instance EffectOperation_eq : EqDecision EffectOperation.
Proof. solve_decision. Defined.
#[global] Instance EffectReceipt_eq : EqDecision EffectReceipt.
Proof. solve_decision. Defined.
#[global] Instance EffectLease_eq : EqDecision EffectLease.
Proof. solve_decision. Defined.
#[global] Instance EffectStatus_eq : EqDecision EffectStatus.
Proof. solve_decision. Defined.
#[global] Instance EffectTransitionKind_eq : EqDecision EffectTransitionKind.
Proof. solve_decision. Defined.
#[global] Instance EffectTransition_eq : EqDecision EffectTransition.
Proof. solve_decision. Defined.
#[global] Instance EffectWire_eq : EqDecision EffectWire.
Proof. solve_decision. Defined.
#[global] Instance Effect_eq : EqDecision Effect.
Proof. solve_decision. Defined.

(** * Validators *)

Definition eff (t : string) (a : list arg) : HarnessError := Prelude.Effect (fmt t a).

(** [map_err(|error| HarnessError::Effect(error.to_string()))]. *)
Definition to_effect (e : HarnessError) : HarnessError := Prelude.Effect (error_text e).

Definition bounded_error (kind : string) (maximum : Z) (error : BoundedJsonError) : HarnessError :=
  let detail :=
    match error with
    | LimitExceeded => "exceeds its encoded-byte limit"
    | CannotEncode => "cannot be encoded"
    end in
  eff "Effect {} {}; limit is {} bytes" [ALit kind; ALit detail; ANum maximum].

(** [bounded_serialized_size(value, maximum).map_err(...)]. *)
Definition effect_size {T} `{Serialize T} (kind : string) (value : T) (maximum : Z) : result Z :=
  match bounded_serialized_size value maximum with
  | inr n => Ok n
  | inl e => Err (bounded_error kind maximum e)
  end.

Definition eff_invalid_history {A} (detail : string) : result A :=
  Err (eff "Effect transition history is invalid: {}" [ALit detail]).

Definition eff_validate_application_time (value : Z) : result () :=
  reject_if (value =? 0)%Z (eff "Effect application time must be positive" []).

Definition eff_validate_digest (value : str) (kind : string) : result () :=
  reject_if (negb (is_lower_sha256 value))
    (eff "Effect {} digest must be lowercase SHA-256" [ALit kind]).

Definition validate_authority (a : AuthorityContext) (kind : string) : result () :=
  map_err to_effect (authority_validate_current a kind).

Definition validate_tenant (t : option str) : result () :=
  map_err to_effect (match t with Some t => validate_tenant_id t | None => Ok () end).

Definition validate_actor (a : ActorIdentity) : result () :=
  map_err to_effect (actor_validate_current a "Effect actor").

Definition eff_validate_identity (kind : string) (value : str) : result () :=
  reject_if (trim_is_empty value || (MAX_EFFECT_IDENTITY_BYTES <? str_len value)%Z
             || any_control value)
    (eff "{} must be 1-{} non-control bytes" [ALit kind; ANum MAX_EFFECT_IDENTITY_BYTES]).

Definition validate_attempt (attempt : Z) : result () :=
  reject_if ((attempt =? 0)%Z || (MAX_EFFECT_ATTEMPTS <? attempt)%Z)
    (eff "Effect attempt must be 1-{}" [ANum MAX_EFFECT_ATTEMPTS]).

Definition lease_expiration (applied_at_ms duration_ms : Z) : result Z :=
  ok_or (checked_add u64_max applied_at_ms duration_ms)
    (eff "Effect lease expiration overflow" []).

Definition eff_validate_lease_duration (duration_ms : Z) : result () :=
  reject_if (negb (in_range MIN_EFFECT_LEASE_MS MAX_EFFECT_LEASE_MS duration_ms))
    (eff "Effect lease must be {}-{} milliseconds"
      [ANum MIN_EFFECT_LEASE_MS; ANum MAX_EFFECT_LEASE_MS]).

(** The transition claimed the lease [id]. *)
Definition claims_lease (id : EffectLeaseId) (t : EffectTransition) : bool :=
  match et_kind t with EtClaimed existing _ _ => bool_decide (existing = id) | _ => false end.

Definition validate_new_lease_id (transitions : list EffectTransition) (lease_id : EffectLeaseId)
    : result () :=
  _ ← eff_validate_identity "Effect lease" lease_id;
  reject_if (existsb (claims_lease lease_id) transitions)
    (eff "Effect lease {} is already committed" [AStr lease_id]).

Definition validate_unknown (status : EffectStatus) (lease_id : EffectLeaseId) (attempt : Z)
    : result () :=
  match status with
  | EsUnknown current_attempt current_lease _ =>
      reject_if (negb (current_attempt =? attempt)%Z || bool_decide (current_lease ≠ lease_id))
        (eff "Effect reconciliation does not match the uncertain attempt and lease" [])
  | _ => Err (eff "Effect must be unknown before reconciliation" [])
  end.

(** [active_owned_lease], and [active_owned_lease_mut], whose text is the same. *)
Definition active_owned_lease (status : EffectStatus) (lease_id : EffectLeaseId)
    (actor : ActorIdentity) (applied_at_ms : Z) (action : string) : result EffectLease :=
  match status with
  | EsClaimed lease =>
      _ ← reject_if (bool_decide (el_id lease ≠ lease_id) || bool_decide (el_owner lease ≠ actor))
            (eff "Effect {} does not match the current owner and lease" [ALit action]);
      _ ← reject_if (el_expires_at_ms lease <=? applied_at_ms)%Z
            (eff "Effect lease expired before {}" [ALit action]);
      Ok lease
  | _ => Err (eff "Effect must be claimed to {}" [ALit action])
  end.

Definition active_projected_lease (status : EffectStatus) (lease_id : EffectLeaseId)
    (actor : ActorIdentity) (applied_at_ms : Z) (action : string) : result EffectLease :=
  map_err (λ _, eff "Effect history has invalid {} evidence" [ALit action])
    (active_owned_lease status lease_id actor applied_at_ms action).

Definition validate_retry_time (value : option Z) (applied_at_ms : Z) : result () :=
  _ ← reject_if (match value with Some retry => (retry <? applied_at_ms)%Z | None => false end)
        (eff "Effect retry time cannot precede settlement" []);
  match value with
  | Some value => eff_validate_application_time value
  | None => Ok ()
  end.

Definition settled_not_applied (attempt : Z) (reason_code : str) (retry_at_ms : option Z)
    : result EffectStatus :=
  match retry_at_ms with
  | Some not_before_ms =>
      next_attempt ← ok_or
        (match checked_add u32_max attempt 1 with
         | Some next => if (next <=? MAX_EFFECT_ATTEMPTS)%Z then Some next else None
         | None => None
         end) (eff "Effect attempt overflow" []);
      Ok (EsPending next_attempt not_before_ms)
  | None => Ok (EsRejected attempt reason_code)
  end.

Definition validate_receipt (receipt : EffectReceipt) (applied_at_ms : Z) : result () :=
  _ ← map_err to_effect (validate_capability_name "Effect receipt source" (rc_source receipt));
  _ ← eff_validate_identity "Effect receipt external identity" (rc_external_id receipt);
  _ ← eff_validate_application_time (rc_observed_at_ms receipt);
  _ ← reject_if (applied_at_ms <? rc_observed_at_ms receipt)%Z
        (eff "Effect receipt observation time exceeds settlement time" []);
  eff_validate_digest (rc_response_sha256 receipt) "receipt response".

Definition validate_operation (o : EffectOperation) : result () :=
  _ ← map_err to_effect (validate_capability_name "Effect capability" (eo_capability o));
  map_err to_effect (validate_capability_name "Effect operation" (eo_operation o)).

Definition transition_command_kind (kind : EffectTransitionKind) : result EffectCommandKind :=
  match kind with
  | EtClaimed lease_id _ lease_duration_ms => Ok (EcClaim lease_id lease_duration_ms)
  | EtLeaseRenewed lease_id lease_duration_ms _ => Ok (EcRenewLease lease_id lease_duration_ms)
  | EtApplied lease_id attempt receipt reconciled =>
      Ok (if reconciled then EcReconcileApplied lease_id attempt receipt
          else EcRecordApplied lease_id receipt)
  | EtNotApplied lease_id attempt reason_code retry_at_ms reconciled =>
      Ok (if reconciled then EcReconcileNotApplied lease_id attempt reason_code retry_at_ms
          else EcRecordNotApplied lease_id reason_code retry_at_ms)
  | EtBecameUnknown lease_id _ reason_code expired =>
      Ok (if expired then EcExpireLease lease_id else EcRecordUnknown lease_id reason_code)
  | EtCancelled reason_code => Ok (EcCancel reason_code)
  | EtCreated _ _ _ _ _ _ => Err (eff "cannot reconstruct creation as an Effect command" [])
  end.

Record EffectProjection := {
  ep_tenant_id : option str;
  ep_operation : EffectOperation;
  ep_idempotency_key : str;
  ep_input : Json;
  ep_input_sha256 : str;
  ep_created_at_ms : Z;
  ep_status : EffectStatus;
}.

Definition ep_with_status (p : EffectProjection) (s : EffectStatus) : EffectProjection :=
  {| ep_tenant_id := ep_tenant_id p; ep_operation := ep_operation p;
     ep_idempotency_key := ep_idempotency_key p; ep_input := ep_input p;
     ep_input_sha256 := ep_input_sha256 p; ep_created_at_ms := ep_created_at_ms p;
     ep_status := s |}.

#[global] Instance EffectProjection_eq : EqDecision EffectProjection.
Proof. solve_decision. Defined.

(** The variables of the loop of [validate]. *)
Record EffectReplay := {
  ey_projection : option EffectProjection;
  ey_command_ids : gset str;
  ey_lease_ids : gset str;
  ey_previous_time : Z;
}.

Section effect.
Context `{!Serialize Json, !Serialize (AttributedCommand EffectCreateRequest),
          !Serialize (AttributedCommand EffectCommand), !Serialize EffectCommand,
          !Serialize EffectWire, sha : !Sha256}.

(** The encoder of an Effect is the one of the fields it does not skip. *)
#[local] Instance effect_serialize : Serialize Effect := λ e, to_json (effect_wire e).

Definition eff_encoded_size (e : Effect) : result Z := effect_size "aggregate" e MAX_EFFECT_JSON_BYTES.

Definition validate_input (input : Json) : result () :=
  _ ← match validate_value_shape input with
      | inr u => Ok u
      | inl _ => Err (eff "invalid Effect input shape" [])
      end;
  size ← effect_size "input" input MAX_EFFECT_INPUT_BYTES;
  reject_if (size =? 0)%Z (eff "Effect input is empty" []).

Definition value_sha256 (value : Json) : result str :=
  _ ← validate_input value;
  encoded ← ok_or (to_json value) (eff "cannot encode Effect input" []);
  Ok (lower_sha256 encoded).

Definition eff_validate_command (c : EffectCommand) : result () :=
  _ ← eff_validate_identity "Effect command" (ec_id c);
  _ ← effect_size "command" c MAX_EFFECT_COMMAND_JSON_BYTES;
  Ok ().

Definition eff_validate_create_request (r : EffectCreateRequest) : result () :=
  _ ← eff_validate_identity "Effect creation command" (er_command_id r);
  _ ← validate_operation (er_operation r);
  _ ← eff_validate_identity "Effect idempotency key" (er_idempotency_key r);
  _ ← validate_input (er_input r);
  eff_validate_application_time (er_not_before_ms r).

Definition attributed_digest {T} `{Serialize (AttributedCommand T)} (actor : ActorIdentity)
    (tenant_id : option str) (command : T) : result str :=
  _ ← validate_actor actor;
  _ ← validate_tenant tenant_id;
  let attributed := {| ac_actor := actor; ac_tenant_id := tenant_id; ac_command := command |} in
  size ← effect_size "command" attributed MAX_EFFECT_COMMAND_JSON_BYTES;
  _ ← reject_if (size =? 0)%Z (eff "Effect command encoding is empty" []);
  encoded ← ok_or (to_json attributed) (eff "cannot encode Effect command" []);
  Ok (lower_sha256 encoded).

Definition eff_transition_digest (t : EffectTransition) (tenant_id : option str) : result str :=
  match et_kind t with
  | EtCreated created_tenant_id operation idempotency_key input _ not_before_ms =>
      _ ← reject_if (bool_decide (created_tenant_id ≠ tenant_id))
            (eff "Effect creation tenant differs from aggregate tenant" []);
      attributed_digest (et_actor t) tenant_id
        {| er_command_id := et_command_id t; er_operation := operation;
           er_idempotency_key := idempotency_key; er_input := input;
           er_not_before_ms := not_before_ms |}
  | kind =>
      kind ← transition_command_kind kind;
      attributed_digest (et_actor t) tenant_id {| ec_id := et_command_id t; ec_kind := kind |}
  end.

(** * The validator *)

(** [apply_projected_kind]: the status and the lease identities after the
    transition [t].  The branch of a creation is unreachable in the code; its
    caller handles that kind. *)
Definition apply_projected_kind (t : EffectTransition) (status : EffectStatus)
    (lease_ids : gset str) : result (EffectStatus * gset str) :=
  let now := et_applied_at_ms t in
  match et_kind t with
  | EtClaimed lease_id attempt lease_duration_ms =>
      match status with
      | EsPending next_attempt not_before_ms =>
          if (now <? not_before_ms)%Z || negb (attempt =? next_attempt)%Z
          then eff_invalid_history "claim differs from pending attempt or eligibility"
          else
            _ ← eff_validate_identity "Effect lease" lease_id;
            _ ← eff_validate_lease_duration lease_duration_ms;
            if bool_decide (lease_id ∈ lease_ids)
            then eff_invalid_history "lease identity was reused"
            else
              expires_at_ms ← lease_expiration now lease_duration_ms;
              Ok (EsClaimed {| el_id := lease_id; el_owner := et_actor t; el_attempt := attempt;
                               el_claimed_at_ms := now; el_expires_at_ms := expires_at_ms |},
                  {[lease_id]} ∪ lease_ids)
      | _ => eff_invalid_history "claim does not follow pending state"
      end
  | EtLeaseRenewed lease_id lease_duration_ms previous_expires_at_ms =>
      _ ← eff_validate_lease_duration lease_duration_ms;
      lease ← active_projected_lease status lease_id (et_actor t) now "renewal";
      if negb (el_expires_at_ms lease =? previous_expires_at_ms)%Z
      then eff_invalid_history "renewal prior expiration differs from current lease"
      else
        next ← lease_expiration now lease_duration_ms;
        if (next <=? el_expires_at_ms lease)%Z
        then eff_invalid_history "renewal does not extend the current lease"
        else
          Ok (EsClaimed {| el_id := el_id lease; el_owner := el_owner lease;
                           el_attempt := el_attempt lease;
                           el_claimed_at_ms := el_claimed_at_ms lease;
                           el_expires_at_ms := next |}, lease_ids)
  | EtApplied lease_id attempt receipt reconciled =>
      _ ← validate_receipt receipt now;
      _ ← (if (reconciled : bool) then validate_unknown status lease_id attempt
           else
             lease ← active_projected_lease status lease_id (et_actor t) now "settlement";
             if negb (el_attempt lease =? attempt)%Z
             then eff_invalid_history "applied attempt differs from active lease" else Ok ());
      Ok (EsApplied attempt receipt, lease_ids)
  | EtNotApplied lease_id attempt reason_code retry_at_ms reconciled =>
      _ ← validate_capability_name "Effect not-applied reason" reason_code;
      _ ← validate_retry_time retry_at_ms now;
      _ ← (if (reconciled : bool) then validate_unknown status lease_id attempt
           else
             lease ← active_projected_lease status lease_id (et_actor t) now "settlement";
             if negb (el_attempt lease =? attempt)%Z
             then eff_invalid_history "not-applied attempt differs from active lease" else Ok ());
      settled ← settled_not_applied attempt reason_code retry_at_ms;
      Ok (settled, lease_ids)
  | EtBecameUnknown lease_id attempt reason_code expired =>
      _ ← validate_capability_name "Effect uncertainty reason" reason_code;
      match status with
      | EsClaimed lease =>
          if bool_decide (el_id lease ≠ lease_id) || negb (el_attempt lease =? attempt)%Z
          then eff_invalid_history "unknown transition differs from active lease"
          else
            _ ← (if (expired : bool) then
                   if bool_decide (reason_code ≠ lit "lease.expired")
                      || (now <? el_expires_at_ms lease)%Z
                   then eff_invalid_history "lease-expiration evidence is inconsistent" else Ok ()
                 else
                   if bool_decide (el_owner lease ≠ et_actor t) || (el_expires_at_ms lease <=? now)%Z
                   then eff_invalid_history "worker uncertainty report is not actively leased"
                   else Ok ());
            Ok (EsUnknown attempt lease_id reason_code, lease_ids)
      | _ => eff_invalid_history "unknown transition does not follow claimed state"
      end
  | EtCancelled reason_code =>
      _ ← validate_capability_name "Effect cancellation reason" reason_code;
      match status with
      | EsPending 1 _ => Ok (EsCancelled reason_code, lease_ids)
      | _ => eff_invalid_history "cancellation follows a claimed attempt"
      end
  | EtCreated _ _ _ _ _ _ => Err (eff "unreachable" [])
  end.

Definition apply_projection_transition (t : EffectTransition)
    (projection : option EffectProjection) (lease_ids : gset str)
    : result (option EffectProjection * gset str) :=
  match et_kind t with
  | EtCreated tenant_id operation idempotency_key input input_sha256 not_before_ms =>
      _ ← reject_if (bool_decide (is_Some projection) || negb (et_sequence t =? 1)%Z)
            (eff "Effect creation must be the first transition" []);
      _ ← validate_operation operation;
      _ ← validate_tenant tenant_id;
      _ ← eff_validate_identity "Effect idempotency key" idempotency_key;
      _ ← validate_input input;
      _ ← eff_validate_digest input_sha256 "input";
      digest ← value_sha256 input;
      _ ← reject_if (bool_decide (digest ≠ input_sha256))
            (eff "Effect creation input digest differs from input" []);
      _ ← eff_validate_application_time not_before_ms;
      Ok (Some {| ep_tenant_id := tenant_id; ep_operation := operation;
                  ep_idempotency_key := idempotency_key; ep_input := input;
                  ep_input_sha256 := input_sha256; ep_created_at_ms := et_applied_at_ms t;
                  ep_status := EsPending 1 not_before_ms |}, lease_ids)
  | _ =>
      p ← ok_or projection (eff "Effect transition precedes creation" []);
      next ← apply_projected_kind t (ep_status p) lease_ids;
      Ok (Some (ep_with_status p next.1), next.2)
  end.

Definition effect_replay_start : EffectReplay :=
  {| ey_projection := None; ey_command_ids := ∅; ey_lease_ids := ∅; ey_previous_time := 0 |}.

(** One iteration of the loop of [validate]. *)
Definition effect_replay_step (tenant_id : option str) (y : EffectReplay) (t : EffectTransition)
    : result EffectReplay :=
  expected_sequence ← ok_or (checked_add u64_max (Z.of_nat (size (ey_command_ids y))) 1)
                        (eff "Effect sequence overflow" []);
  _ ← reject_if (negb (et_sequence t =? expected_sequence)%Z)
        (eff "Effect transition sequence is not contiguous" []);
  _ ← eff_validate_identity "Effect command" (et_command_id t);
  _ ← eff_validate_digest (et_command_sha256 t) "command";
  _ ← eff_validate_application_time (et_applied_at_ms t);
  _ ← reject_if (et_applied_at_ms t <? ey_previous_time y)%Z
        (eff "Effect transition time is not monotonic" []);
  _ ← validate_actor (et_actor t);
  digest ← eff_transition_digest t tenant_id;
  _ ← reject_if (bool_decide (et_command_sha256 t ≠ digest))
        (eff "Effect command digest differs from transition content" []);
  _ ← reject_if (bool_decide (et_command_id t ∈ ey_command_ids y))
        (eff "Effect contains duplicate command identities" []);
  next ← apply_projection_transition t (ey_projection y) (ey_lease_ids y);
  Ok {| ey_projection := next.1; ey_command_ids := {[et_command_id t]} ∪ ey_command_ids y;
        ey_lease_ids := next.2; ey_previous_time := et_applied_at_ms t |}.

(** What the Effect itself claims to be. *)
Definition effect_projection (e : Effect) : EffectProjection :=
  {| ep_tenant_id := ef_tenant_id e; ep_operation := ef_operation e;
     ep_idempotency_key := ef_idempotency_key e; ep_input := ef_input e;
     ep_input_sha256 := ef_input_sha256 e; ep_created_at_ms := ef_created_at_ms e;
     ep_status := ef_status e |}.

(** [Effect::validate]. *)
Definition eff_validate (e : Effect) : result () :=
  _ ← validate_tenant (ef_tenant_id e);
  _ ← validate_operation (ef_operation e);
  _ ← eff_validate_identity "Effect idempotency key" (ef_idempotency_key e);
  _ ← validate_input (ef_input e);
  _ ← eff_validate_digest (ef_input_sha256 e) "input";
  digest ← value_sha256 (ef_input e);
  _ ← reject_if (bool_decide (digest ≠ ef_input_sha256 e))
        (eff "Effect input digest differs from durable input" []);
  _ ← eff_validate_application_time (ef_created_at_ms e);
  _ ← reject_if (bool_decide (ef_transitions e = [])
                 || (MAX_EFFECT_TRANSITIONS <? len (ef_transitions e))%Z)
        (eff "Effect must retain 1-{} transitions" [ANum MAX_EFFECT_TRANSITIONS]);
  y ← fold_m (effect_replay_step (ef_tenant_id e)) effect_replay_start (ef_transitions e);
  projection ← ok_or (ey_projection y) (eff "Effect has no creation transition" []);
  reject_if (bool_decide (projection ≠ effect_projection e))
    (eff "Effect projection differs from immutable transition history" []).

Definition eff_with_charge (e : Effect) (charge : Z) : Effect :=
  {| ef_tenant_id := ef_tenant_id e; ef_operation := ef_operation e;
     ef_idempotency_key := ef_idempotency_key e; ef_input := ef_input e;
     ef_input_sha256 := ef_input_sha256 e; ef_created_at_ms := ef_created_at_ms e;
     ef_status := ef_status e; ef_transitions := ef_transitions e; ef_charge := charge |}.

(** [Deserialize for Effect]. *)
Definition effect_deserialize (w : EffectWire) : option Effect :=
  let effect :=
    {| ef_tenant_id := ew_tenant_id w; ef_operation := ew_operation w;
       ef_idempotency_key := ew_idempotency_key w; ef_input := ew_input w;
       ef_input_sha256 := ew_input_sha256 w; ef_created_at_ms := ew_created_at_ms w;
       ef_status := ew_status w; ef_transitions := ew_transitions w; ef_charge := 0 |} in
  match (_ ← eff_validate effect; eff_encoded_size effect) with
  | Ok charge => Some (eff_with_charge effect charge)
  | Err _ => None
  end.

(** * Construction and commands *)

(** [Effect::new]. *)
Definition Effect_new (request : EffectCreateRequest) (applied_at_ms : Z)
    (authority : AuthorityContext) : result Effect :=
  _ ← eff_validate_create_request request;
  _ ← eff_validate_application_time applied_at_ms;
  _ ← validate_authority authority "Effect creation authority";
  input_sha256 ← value_sha256 (er_input request);
  command_sha256 ← attributed_digest (actor authority) (tenant_id authority) request;
  let transition :=
    {| et_sequence := 1; et_command_id := er_command_id request;
       et_command_sha256 := command_sha256; et_applied_at_ms := applied_at_ms;
       et_actor := actor authority;
       et_kind := EtCreated (tenant_id authority) (er_operation request)
         (er_idempotency_key request) (er_input request) input_sha256 (er_not_before_ms request) |} in
  let effect :=
    {| ef_tenant_id := tenant_id authority; ef_operation := er_operation request;
       ef_idempotency_key := er_idempotency_key request; ef_input := er_input request;
       ef_input_sha256 := input_sha256; ef_created_at_ms := applied_at_ms;
       ef_status := EsPending 1 (er_not_before_ms request);
       ef_transitions := [transition]; ef_charge := 0 |} in
  _ ← eff_validate effect;
  charge ← eff_encoded_size effect;
  Ok (eff_with_charge effect charge).

Definition eff_create_matches (e : Effect) (request : EffectCreateRequest)
    (authority : AuthorityContext) : result bool :=
  _ ← validate_authority authority "Effect creation replay authority";
  if bool_decide (ef_tenant_id e ≠ tenant_id authority) then Ok false
  else
    digest ← attributed_digest (actor authority) (tenant_id authority) request;
    Ok (match head (ef_transitions e) with
        | Some t => bool_decide (et_command_id t = er_command_id request)
                    && bool_decide (et_command_sha256 t = digest)
        | None => false
        end).

Definition eff_recognizes_command (e : Effect) (c : EffectCommand) (authority : AuthorityContext)
    : result bool :=
  _ ← eff_validate_command c;
  _ ← validate_authority authority "Effect command replay authority";
  if bool_decide (ef_tenant_id e ≠ tenant_id authority) then Ok false
  else
    digest ← attributed_digest (actor authority) (tenant_id authority) c;
    match List.find (λ t, bool_decide (et_command_id t = ec_id c)) (ef_transitions e) with
    | None => Ok false
    | Some existing =>
        if bool_decide (et_command_sha256 existing = digest) then Ok true
        else Err (eff
          "Effect command {} was reused by a different actor or with different content"
          [AStr (ec_id c)])
    end.

Definition eff_set_status (e : Effect) (s : EffectStatus) : Effect :=
  {| ef_tenant_id := ef_tenant_id e; ef_operation := ef_operation e;
     ef_idempotency_key := ef_idempotency_key e; ef_input := ef_input e;
     ef_input_sha256 := ef_input_sha256 e; ef_created_at_ms := ef_created_at_ms e;
     ef_status := s; ef_transitions := ef_transitions e; ef_charge := ef_charge e |}.

Definition eff_push_transition (e : Effect) (t : EffectTransition) : Effect :=
  {| ef_tenant_id := ef_tenant_id e; ef_operation := ef_operation e;
     ef_idempotency_key := ef_idempotency_key e; ef_input := ef_input e;
     ef_input_sha256 := ef_input_sha256 e; ef_created_at_ms := ef_created_at_ms e;
     ef_status := ef_status e; ef_transitions := ef_transitions e ++ [t]; ef_charge := ef_charge e |}.

(** [Effect::apply_kind], on the copy [apply] makes: the next status and the
    transition, or the error that discards the copy. *)
Definition eff_apply_kind (e : Effect) (kind : EffectCommandKind) (now : Z) (actor : ActorIdentity)
    : result (EffectStatus * EffectTransitionKind) :=
  let status := ef_status e in
  match kind with
  | EcClaim lease_id lease_duration_ms =>
      match status with
      | EsPending next_attempt not_before_ms =>
          _ ← reject_if (now <? not_before_ms)%Z (eff "Effect is not eligible for claim" []);
          _ ← validate_new_lease_id (ef_transitions e) lease_id;
          _ ← eff_validate_lease_duration lease_duration_ms;
          _ ← validate_attempt next_attempt;
          expires_at_ms ← lease_expiration now lease_duration_ms;
          Ok (EsClaimed {| el_id := lease_id; el_owner := actor; el_attempt := next_attempt;
                           el_claimed_at_ms := now; el_expires_at_ms := expires_at_ms |},
              EtClaimed lease_id next_attempt lease_duration_ms)
      | _ => Err (eff "Effect must be pending before claim" [])
      end
  | EcRenewLease lease_id lease_duration_ms =>
      _ ← eff_validate_lease_duration lease_duration_ms;
      lease ← active_owned_lease status lease_id actor now "renew";
      let previous_expires_at_ms := el_expires_at_ms lease in
      expires_at_ms ← lease_expiration now lease_duration_ms;
      _ ← reject_if (expires_at_ms <=? previous_expires_at_ms)%Z
            (eff "Effect renewal must extend the current lease" []);
      Ok (EsClaimed {| el_id := el_id lease; el_owner := el_owner lease;
                       el_attempt := el_attempt lease;
                       el_claimed_at_ms := el_claimed_at_ms lease;
                       el_expires_at_ms := expires_at_ms |},
          EtLeaseRenewed lease_id lease_duration_ms previous_expires_at_ms)
  | EcRecordApplied lease_id receipt =>
      _ ← validate_receipt receipt now;
      lease ← active_owned_lease status lease_id actor now "settle";
      Ok (EsApplied (el_attempt lease) receipt,
          EtApplied lease_id (el_attempt lease) receipt false)
  | EcRecordNotApplied lease_id reason_code retry_at_ms =>
      _ ← validate_capability_name "Effect not-applied reason" reason_code;
      _ ← validate_retry_time retry_at_ms now;
      lease ← active_owned_lease status lease_id actor now "settle";
      settled ← settled_not_applied (el_attempt lease) reason_code retry_at_ms;
      Ok (settled, EtNotApplied lease_id (el_attempt lease) reason_code retry_at_ms false)
  | EcRecordUnknown lease_id reason_code =>
      _ ← validate_capability_name "Effect uncertainty reason" reason_code;
      lease ← active_owned_lease status lease_id actor now "report";
      Ok (EsUnknown (el_attempt lease) lease_id reason_code,
          EtBecameUnknown lease_id (el_attempt lease) reason_code false)
  | EcExpireLease lease_id =>
      match status with
      | EsClaimed lease =>
          _ ← reject_if (bool_decide (el_id lease ≠ lease_id))
                (eff "Effect expiration does not match the current lease" []);
          _ ← reject_if (now <? el_expires_at_ms lease)%Z (eff "Effect lease is not expired" []);
          let reason_code := lit "lease.expired" in
          Ok (EsUnknown (el_attempt lease) lease_id reason_code,
              EtBecameUnknown lease_id (el_attempt lease) reason_code true)
      | _ => Err (eff "Effect has no current lease to expire" [])
      end
  | EcReconcileApplied lease_id attempt receipt =>
      _ ← validate_receipt receipt now;
      _ ← validate_unknown status lease_id attempt;
      Ok (EsApplied attempt receipt, EtApplied lease_id attempt receipt true)
  | EcReconcileNotApplied lease_id attempt reason_code retry_at_ms =>
      _ ← validate_capability_name "Effect reconciliation reason" reason_code;
      _ ← validate_retry_time retry_at_ms now;
      _ ← validate_unknown status lease_id attempt;
      settled ← settled_not_applied attempt reason_code retry_at_ms;
      Ok (settled, EtNotApplied lease_id attempt reason_code retry_at_ms true)
  | EcCancel reason_code =>
      _ ← validate_capability_name "Effect cancellation reason" reason_code;
      match status with
      | EsPending 1 _ => Ok (EsCancelled reason_code, EtCancelled reason_code)
      | _ => Err (eff "only a never-claimed pending Effect may be cancelled" [])
      end
  end.

(** [Effect::apply]. *)
Definition eff_apply (command : EffectCommand) (applied_at_ms : Z)
    (authority : AuthorityContext) : M Effect EffectApplyOutcome :=
  self ← get;
  recognized ← lift (eff_recognizes_command self command authority);
  if (recognized : bool) then mret EffDuplicate else
  _ ← lift (eff_validate_application_time applied_at_ms);
  _ ← lift (validate_authority authority "Effect command authority");
  _ ← lift (reject_if (MAX_EFFECT_TRANSITIONS <=? len (ef_transitions self))%Z
              (eff "Effect exceeds {} transitions" [ANum MAX_EFFECT_TRANSITIONS]));
  _ ← lift (reject_if (match vec_last (ef_transitions self) with
                       | Some t => (applied_at_ms <? et_applied_at_ms t)%Z
                       | None => false
                       end)
              (eff "Effect application time cannot move backwards" []));
  digest ← lift (attributed_digest (actor authority) (tenant_id authority) command);
  p ← lift (eff_apply_kind self (ec_kind command) applied_at_ms (actor authority));
  sequence ← lift (ok_or (checked_add u64_max (len (ef_transitions self)) 1)
                     (eff "Effect sequence overflow" []));
  let next := eff_push_transition (eff_set_status self p.1)
    {| et_sequence := sequence; et_command_id := ec_id command; et_command_sha256 := digest;
       et_applied_at_ms := applied_at_ms; et_actor := actor authority; et_kind := p.2 |} in
  _ ← lift (eff_validate next);
  charge ← lift (eff_encoded_size next);
  _ ← put (eff_with_charge next charge);
  mret EffApplied.
End effect.
