(* ===== verification/EffectSafety.v ===== *)
(** Replaying the transitions of an Effect (src/src/effect/mod.rs): what the
    loop of [validate] computes, and the agreement between the guards of
    [apply] and the validator.

    The properties of the Effect (src/src/effect/mod.rs): what its commands
    are, that an uncertain attempt is never retried blindly, that leases
    fence workers, and that commands are idempotent and bound to an actor. *)

From Stdlib Require Import ZArith Lia.
From stdpp Require Import sorting base tactics list gmap relations numbers strings option.
From stdpp Require Import list.
From S2P Require Import Prelude Kernel Digest Json Effect.

Section replay.
Context `{!Serialize Json, !Serialize (AttributedCommand EffectCreateRequest),
          !Serialize (AttributedCommand EffectCommand), !Serialize EffectCommand,
          !Serialize EffectWire, sha : !Sha256}.

(** ** What the loop computes *)

Definition eff_replayed (tenant : option str) : list EffectTransition → EffectReplay → Prop :=
  replays (effect_replay_step tenant) effect_replay_start.

(** The parts of a successful iteration. *)
Record step_facts (tenant : option str) (y : EffectReplay) (t : EffectTransition)
    (y' : EffectReplay) : Prop := {
  sf_sequence : et_sequence t = (Z.of_nat (size (ey_command_ids y)) + 1)%Z;
  sf_time : (ey_previous_time y ≤ et_applied_at_ms t)%Z;
  sf_time' : ey_previous_time y' = et_applied_at_ms t;
  sf_digest : eff_transition_digest t tenant = Ok (et_command_sha256 t);
  sf_fresh : et_command_id t ∉ ey_command_ids y;
  sf_commands : ey_command_ids y' = {[et_command_id t]} ∪ ey_command_ids y;
  sf_projection : apply_projection_transition t (ey_projection y) (ey_lease_ids y)
                  = Ok (ey_projection y', ey_lease_ids y');
}.

Lemma effect_replay_step_ok tenant y t y' :
  effect_replay_step tenant y t = Ok y' → step_facts tenant y t y'.
Proof.
  unfold effect_replay_step. intros Hs. inv_ok.
  match goal with H : checked_add _ _ _ = _ |- _ => apply checked_add_Some in H as [-> _] end.
  bool_hyps. subst y'.
  match goal with H : ¬ (_ ≠ _) |- _ => apply dec_stable in H end.
  match goal with H : apply_projection_transition _ _ _ = Ok ?p |- _ => destruct p end.
  split; simpl; congruence.
Qed.

(** How one transition moves the projection. *)
Lemma projection_cases t p ids p' ids' :
  apply_projection_transition t p ids = Ok (p', ids') →
  (∃ tn o k i d nb q, et_kind t = EtCreated tn o k i d nb ∧ p = None ∧ p' = Some q ∧ ids' = ids ∧
     et_sequence t = 1%Z ∧ ep_status q = EsPending 1 nb) ∨
  (∃ q s, (∀ tn o k i d nb, et_kind t ≠ EtCreated tn o k i d nb) ∧ p = Some q ∧
     p' = Some (ep_with_status q s) ∧ apply_projected_kind t (ep_status q) ids = Ok (s, ids')).
Proof.
  unfold apply_projection_transition. intros Hp.
  destruct (et_kind t) as [tn o k i d nb|lid at' dur|lid dur prev|lid at' rec b|lid at' rs rt b|lid at' rs b|rs] eqn:Ek.
  1: { left. inv_ok. bool_hyps. match goal with H : ¬ is_Some _ |- _ => apply eq_None_not_Some in H end.
       subst. eauto 15. }
  all: right; inv_ok; subst;
    match goal with H : apply_projected_kind _ _ _ = Ok ?n |- _ => destruct n as [s ids1] end;
    simpl in *; subst; eexists _, _; split_and!; try done.
Qed.

(** The leases the loop has seen are the claimed ones. *)
Lemma projected_leases t s ids s' ids' :
  apply_projected_kind t s ids = Ok (s', ids') →
  ∀ id, id ∈ ids' ↔ id ∈ ids ∨ claims_lease id t = true.
Proof.
  unfold apply_projected_kind, claims_lease, eff_invalid_history. intros Hk id.
  destruct (et_kind t) as [tn o k i d nb|lid at' dur|lid dur prev|lid at' rec b|lid at' rs rt b|lid at' rs b|rs];
    [done|..]; try (inv_ok; repeat (case_match; inv_ok); simplify_eq; naive_solver).
  destruct s; try done. destruct (_ || _); [done|]. inv_ok. destruct (bool_decide _); [done|].
  inv_ok. subst. rewrite elem_of_union, elem_of_singleton, bool_decide_eq_true. naive_solver.
Qed.

Record eff_replay_inv (l : list EffectTransition) (y : EffectReplay) : Prop := {
  ei_size : Z.of_nat (size (ey_command_ids y)) = len l;
  ei_commands : ∀ id, id ∈ ey_command_ids y ↔ ∃ t, t ∈ l ∧ et_command_id t = id;
  ei_leases : ∀ id, id ∈ ey_lease_ids y ↔ ∃ t, t ∈ l ∧ claims_lease id t = true;
  ei_time : ey_previous_time y = default 0%Z (et_applied_at_ms <$> vec_last l);
}.

Lemma eff_replayed_inv tenant l y : eff_replayed tenant l y → eff_replay_inv l y.
Proof.
  revert l y. apply replays_ind.
  - split; try done; simpl; intros id; rewrite elem_of_empty;
      (split; [done|by intros (? & ?%elem_of_nil & _)]).
  - intros l t y y' _ [I1 I2 I3 I4] [S1 S2 S3 S4 S5 S6 S7]%effect_replay_step_ok. split.
    + rewrite S6. rewrite size_union by set_solver. rewrite size_singleton. unfold len in *. rewrite length_app.
      simpl. lia.
    + intros id. rewrite elem_of_snoc_ex, S6, <-I2. set_solver.
    + intros id. rewrite elem_of_snoc_ex, <-I3.
      apply projection_cases in S7 as [(tn & o & k & i & d & nb & q & Ek & _ & _ & -> & _)|
        (q & s & _ & _ & _ & Hk)].
      * unfold claims_lease. rewrite Ek. naive_solver.
      * by eapply projected_leases.
    + rewrite S3, last_snoc. done.
Qed.

(** ** The validator *)

(** The checks of [validate] on the fixed fields. *)
Definition effect_header (e : Effect) : Prop :=
  validate_tenant (ef_tenant_id e) = Ok () ∧ validate_operation (ef_operation e) = Ok () ∧
  eff_validate_identity "Effect idempotency key" (ef_idempotency_key e) = Ok () ∧
  validate_input (ef_input e) = Ok () ∧ eff_validate_digest (ef_input_sha256 e) "input" = Ok () ∧
  value_sha256 (ef_input e) = Ok (ef_input_sha256 e) ∧
  eff_validate_application_time (ef_created_at_ms e) = Ok ().

Record valid_effect (e : Effect) (y : EffectReplay) : Prop := {
  ve_header : effect_header e;
  ve_length : (1 ≤ len (ef_transitions e) ≤ MAX_EFFECT_TRANSITIONS)%Z;
  ve_replay : eff_replayed (ef_tenant_id e) (ef_transitions e) y;
  ve_projection : ey_projection y = Some (effect_projection e);
}.

Lemma eff_validate_iff e : eff_validate e = Ok () ↔ ∃ y, valid_effect e y.
Proof.
  unfold eff_validate. split.
  - intros Hv. inv_ok. bool_hyps.
    match goal with H : ¬ (_ ≠ ef_input_sha256 e) |- _ => apply dec_stable in H; subst end.
    match goal with H : fold_m _ _ _ = Ok ?y |- _ => exists y end.
    match goal with H : ¬ (_ ≠ effect_projection e) |- _ => apply dec_stable in H; subst end.
    split; [by split_and!|split; [|done]|done|done].
    destruct (ef_transitions e); [done|]. unfold len. simpl. lia.
  - intros [y [(H1 & H2 & H3 & H4 & H5 & H6 & H7) [L1 L2] Hr Hp]].
    rewrite H1, H2, H3, H4, H5, H6, H7. simpl.
    rewrite (bool_decide_eq_false_2 (_ ≠ ef_input_sha256 e)) by (intros Hn; by apply Hn).
    rewrite (bool_decide_eq_false_2 (ef_transitions e = [])) by (intros E; by rewrite E in L1).
    rewrite (proj2 (Z.ltb_ge _ _) L2). simpl. rewrite Hr. simpl. rewrite Hp. simpl.
    rewrite bool_decide_eq_false_2 by (intros Hn; by apply Hn). done.
Qed.

(** ** The guards of [apply_kind] and the validator agree *)

Lemma active_lease_ok s lid actor now action lease :
  active_owned_lease s lid actor now action = Ok lease ↔
  s = EsClaimed lease ∧ el_id lease = lid ∧ el_owner lease = actor ∧ (now < el_expires_at_ms lease)%Z.
Proof.
  unfold active_owned_lease. split.
  - intros Ha. destruct s; try done. inv_ok. bool_hyps. subst.
    repeat match goal with H : ¬ (_ ≠ _) |- _ => apply dec_stable in H end. done.
  - intros (-> & <- & <- & Hlt). rewrite !bool_decide_eq_false_2 by (intros Hn; by apply Hn).
    simpl. by rewrite (proj2 (Z.leb_gt _ _) Hlt).
Qed.

Lemma validate_unknown_ok s lid attempt u :
  validate_unknown s lid attempt = Ok u ↔ ∃ reason, s = EsUnknown attempt lid reason.
Proof.
  unfold validate_unknown. destruct s; try naive_solver. rewrite reject_if_ok. split.
  - intros Hu. bool_hyps.
    match goal with H : ¬ (_ ≠ _) |- _ => apply dec_stable in H end. subst. eauto.
  - intros [reason [= -> -> ->]]. rewrite Z.eqb_refl, bool_decide_eq_false_2; [done|].
    intros Hn. by apply Hn.
Qed.

Lemma new_lease_ok e y lid u :
  eff_replay_inv (ef_transitions e) y → validate_new_lease_id (ef_transitions e) lid = Ok u →
  eff_validate_identity "Effect lease" lid = Ok () ∧ lid ∉ ey_lease_ids y.
Proof.
  intros Hi He. unfold validate_new_lease_id in He. inv_ok. split; [done|].
  intros Hin%(ei_leases _ _ Hi)%existsb_iff. congruence.
Qed.

(** The committed transition names the command. *)
Lemma eff_apply_kind_command e kind now actor s k :
  eff_apply_kind e kind now actor = Ok (s, k) → transition_command_kind k = Ok kind.
Proof.
  unfold eff_apply_kind. intros Ha. destruct kind; repeat (inv_ok; case_match; try done);
    inv_ok; by subst.
Qed.

Lemma validate_capability_name_kind kind kind' name u :
  validate_capability_name kind name = Ok u → validate_capability_name kind' name = Ok u.
Proof. rewrite !validate_capability_name_ok. done. Qed.

Lemma active_lease_action s lid actor now action action' lease :
  active_owned_lease s lid actor now action = Ok lease →
  active_owned_lease s lid actor now action' = Ok lease.
Proof. rewrite !active_lease_ok. done. Qed.

(** Replays the checks that already succeeded. *)
Ltac eff_checks :=
  repeat (simpl; match goal with
  | H : ?x = Ok _ |- context [?x] => rewrite H
  | H : validate_capability_name _ ?n = Ok _ |- context [validate_capability_name ?k ?n] =>
      rewrite (validate_capability_name_kind _ k _ _ H)
  | H : active_owned_lease ?s ?l ?a ?n _ = Ok _ |- context [active_owned_lease ?s ?l ?a ?n ?x] =>
      rewrite (active_lease_action _ _ _ _ _ x _ H)
  | |- context [Z.eqb ?x ?x] => rewrite Z.eqb_refl
  | |- context [bool_decide (?x ≠ ?x)] =>
      rewrite (bool_decide_eq_false_2 (x ≠ x)) by (intros Hn; by apply Hn)
  | H : ?b = false |- context [?b] => rewrite H
  end).

(** Whatever [apply_kind] accepts, the validator accepts with the same status. *)
Lemma eff_apply_kind_replays e y kind now actor s k t :
  eff_replay_inv (ef_transitions e) y → eff_apply_kind e kind now actor = Ok (s, k) →
  et_kind t = k → et_applied_at_ms t = now → et_actor t = actor →
  ∃ ids', apply_projected_kind t (ef_status e) (ey_lease_ids y) = Ok (s, ids').
Proof.
  intros Hi Ha Hk <- <-. unfold eff_apply_kind in Ha. unfold apply_projected_kind, active_projected_lease.
  destruct kind as [lid dur|lid dur|lid rec|lid rs rt|lid rs|lid|lid at' rec|lid at' rs rt|rs]; inv_ok.
  - destruct (ef_status e) as [n nb| | | | |]; try done. inv_ok. subst s k. rewrite Hk.
    match goal with H : validate_new_lease_id _ _ = _ |- _ =>
      apply (new_lease_ok _ _ _ _ Hi) in H as [Hid Hnew] end.
    eff_checks. rewrite (bool_decide_eq_false_2 (lid ∈ _)) by done. eff_checks. eauto.
  - subst s k. rewrite Hk. eff_checks. eauto.
  - subst s k. rewrite Hk. eff_checks. eauto.
  - subst s k. rewrite Hk. eff_checks. eauto.
  - subst s k. rewrite Hk. eff_checks.
    match goal with H : active_owned_lease _ _ _ _ _ = _ |- _ =>
      apply active_lease_ok in H as (-> & <- & Hown & Hlt) end.
    rewrite Hown. eff_checks. rewrite (proj2 (Z.leb_gt _ _) Hlt). eff_checks. eauto.
  - destruct (ef_status e) as [|lease| | | |]; try done. inv_ok. subst s k. rewrite Hk.
    match goal with H : bool_decide (el_id _ ≠ _) = false |- _ => rename H into Hid end.
    eff_checks. eauto.
  - subst s k. rewrite Hk. eff_checks. eauto.
  - subst s k. rewrite Hk. eff_checks. eauto.
  - destruct (ef_status e) as [[] nb| | | | |]; try done. case_match; try done. inv_ok. subst s k.
    rewrite Hk. eff_checks. eauto.
Qed.
End replay.

(** Number of attempts the transitions claim. *)
Definition is_claim (t : EffectTransition) : bool :=
  match et_kind t with EtClaimed _ _ _ => true | _ => false end.
Definition claims (l : list EffectTransition) : Z := len (List.filter is_claim l).

(** The transitions claim the attempt [k] under the lease [lid]. *)
Definition claimed_by (l : list EffectTransition) (lid : EffectLeaseId) (k : Z) : Prop :=
  ∃ t d, t ∈ l ∧ et_kind t = EtClaimed lid k d.

(** How each status follows from the transitions before it. *)
Definition status_follows (l : list EffectTransition) (s : EffectStatus) : Prop :=
  match s with
  | EsPending n nb =>
      n = (claims l + 1)%Z ∧
      ((n = 1%Z ∧ ∃ t tn o k i d, l = [t] ∧ et_kind t = EtCreated tn o k i d nb) ∨
       (∃ l0 t lid reason rec, l = l0 ++ [t] ∧ claimed_by l lid (n - 1) ∧
          et_kind t = EtNotApplied lid (n - 1) reason (Some nb) rec))
  | EsClaimed lease => el_attempt lease = claims l ∧ claimed_by l (el_id lease) (el_attempt lease)
  | EsUnknown k lid reason =>
      k = claims l ∧ claimed_by l lid k ∧
      ∃ l0 t x, l = l0 ++ [t] ∧ et_kind t = EtBecameUnknown lid k reason x
  | EsApplied k receipt =>
      k = claims l ∧ ∃ l0 t lid x, l = l0 ++ [t] ∧ et_kind t = EtApplied lid k receipt x
  | EsRejected k reason =>
      k = claims l ∧ ∃ l0 t lid x, l = l0 ++ [t] ∧ et_kind t = EtNotApplied lid k reason None x
  | EsCancelled reason => claims l = 0%Z
  end.

Lemma claims_snoc l t : claims (l ++ [t]) = (claims l + if is_claim t then 1 else 0)%Z.
Proof.
  unfold claims. rewrite List.filter_app. unfold len. rewrite length_app. simpl.
  destruct (is_claim t); simpl; lia.
Qed.

Lemma claimed_by_snoc l t lid k : claimed_by l lid k → claimed_by (l ++ [t]) lid k.
Proof. intros (u & d & Hu & Hk). exists u, d. split; [set_solver|done]. Qed.

Lemma settled_ok k reason rt s :
  settled_not_applied k reason rt = Ok s →
  match rt with
  | Some nb => s = EsPending (k + 1) nb ∧ (k + 1 ≤ MAX_EFFECT_ATTEMPTS)%Z
  | None => s = EsRejected k reason
  end.
Proof.
  unfold settled_not_applied. intros Hs. destruct rt as [nb|]; inv_ok; [|done].
  destruct (checked_add _ k 1) as [n|] eqn:C; [|done]. apply checked_add_Some in C as [-> _].
  destruct (Z.leb_spec (k + 1) MAX_EFFECT_ATTEMPTS); simplify_eq. done.
Qed.

Section safety.
Context `{!Serialize Json, !Serialize (AttributedCommand EffectCreateRequest),
          !Serialize (AttributedCommand EffectCommand), !Serialize EffectCommand,
          !Serialize EffectWire, sha : !Sha256}.

(** ** The history of a valid Effect *)

(** The owner of a settlement in the transitions: an active lease, or the
    uncertain attempt that is reconciled. *)
Lemma settlement_owner (rec : bool) s lid k now actor action detail (u : ()) :
  (if rec then validate_unknown s lid k
   else lease ← active_projected_lease s lid actor now action;
        if negb (el_attempt lease =? k)%Z then eff_invalid_history detail else Ok ()) = Ok u →
  (rec = true ∧ ∃ reason, s = EsUnknown k lid reason) ∨
  (rec = false ∧ ∃ lease, s = EsClaimed lease ∧ el_id lease = lid ∧ el_attempt lease = k).
Proof.
  destruct rec; [rewrite validate_unknown_ok; by left|]. intros Hs. right. split; [done|].
  unfold active_projected_lease, eff_invalid_history in Hs. inv_ok.
  match goal with H : active_owned_lease _ _ _ _ _ = _ |- _ =>
    apply active_lease_ok in H as (-> & <- & _ & _) end.
  destruct (Z.eqb_spec (el_attempt a) k); [eauto|done].
Qed.

Lemma projected_follows l t s ids s' ids' :
  status_follows l s → apply_projected_kind t s ids = Ok (s', ids') →
  status_follows (l ++ [t]) s'.
Proof.
  unfold apply_projected_kind, eff_invalid_history. intros Hf Hk.
  destruct (et_kind t) as [tn o k i d nb|lid k dur|lid dur prev|lid k rec b|lid k rs rt b|lid k rs b|rs] eqn:Ek;
    [done|..]; inv_ok.
  - destruct s as [n nb| | | | |]; try done. destruct (_ || _) eqn:E; [done|]. bool_hyps. inv_ok.
    destruct (bool_decide _); [done|]. inv_ok. subst. destruct Hf as [-> _]. simpl.
    rewrite claims_snoc. unfold is_claim. rewrite Ek. split; [done|]. exists t, dur. set_solver.
  - unfold active_projected_lease in *. inv_ok.
    match goal with H : active_owned_lease _ _ _ _ _ = _ |- _ =>
      apply active_lease_ok in H as (-> & _) end.
    destruct (negb _); [done|]. inv_ok. destruct (_ <=? _)%Z; [done|]. inv_ok. subst. simpl in *.
    rewrite claims_snoc. unfold is_claim. rewrite Ek, Z.add_0_r.
    destruct Hf. auto using claimed_by_snoc.
  - apply settlement_owner in H0 as [[-> [reason ->]]|[-> (lease & -> & <- & <-)]]; subst; simpl in *;
      rewrite claims_snoc; unfold is_claim; rewrite Ek, Z.add_0_r; naive_solver.
  - match goal with H : settled_not_applied _ _ _ = _ |- _ => apply settled_ok in H as Hs end.
    assert (k = claims l ∧ claimed_by l lid k) as [Hn Hc].
    { apply settlement_owner in H1 as [[-> [reason ->]]|[-> (lease & -> & <- & <-)]];
        simpl in Hf; naive_solver. }
    destruct rt as [nb|]; [destruct Hs as [-> _]|]; subst; simpl;
      rewrite claims_snoc; unfold is_claim; rewrite Ek, Z.add_0_r; [|eauto 10].
    split; [done|]. right. replace (claims l + 1 - 1)%Z with (claims l) by lia.
    eexists _, _, _, _, _. eauto using claimed_by_snoc.
  - destruct s as [|lease| | | |]; try done. destruct (_ || _) eqn:E; [done|]. bool_hyps. inv_ok.
    match goal with H : ¬ (_ ≠ _) |- _ => apply dec_stable in H end. subst. simpl in *.
    rewrite claims_snoc. unfold is_claim. rewrite Ek, Z.add_0_r. destruct Hf.
    eauto 10 using claimed_by_snoc.
  - destruct s as [[|[]|] nb| | | | |]; try done. inv_ok. subst. destruct Hf as [Hn _]. simpl.
    rewrite claims_snoc. unfold is_claim. rewrite Ek. lia.
Qed.

Lemma eff_replayed_follows tenant l y :
  eff_replayed tenant l y →
  match ey_projection y with
  | Some p => status_follows l (ep_status p)
  | None => l = []
  end.
Proof.
  revert l y. apply replays_ind; [done|].
  intros l t y y' _ IH [_ _ _ _ _ _ Hp]%effect_replay_step_ok.
  apply projection_cases in Hp as [(tn & o & k & i & d & nb & q & Ek & Hn & -> & _ & _ & Hs)|
    (q & s & _ & Hq & -> & Hk)].
  - rewrite Hn in IH. subst l. rewrite Hs. simpl. unfold claims, is_claim. simpl. rewrite Ek.
    split; [done|]. left. split; [done|]. eauto 10.
  - rewrite Hq in IH. simpl. by eapply projected_follows.
Qed.

(** A transition leaves a settled Effect nowhere to go, and an uncertain one
    only by reconciliation. *)
Lemma projected_sources t s ids s' ids' :
  apply_projected_kind t s ids = Ok (s', ids') →
  eff_terminal s = false ∧
  (∀ k lid reason, s = EsUnknown k lid reason →
     (∃ receipt, et_kind t = EtApplied lid k receipt true) ∨
     (∃ rs rt, et_kind t = EtNotApplied lid k rs rt true)) ∧
  (∀ lid k receipt rec, et_kind t = EtApplied lid k receipt rec → s' = EsApplied k receipt) ∧
  (∀ lid k dur, et_kind t = EtClaimed lid k dur →
     lid ∉ ids ∧ ∃ nb, s = EsPending k nb ∧ (nb ≤ et_applied_at_ms t)%Z) ∧
  (∀ lid k reason x, et_kind t = EtBecameUnknown lid k reason x → s' = EsUnknown k lid reason).
Proof.
  unfold apply_projected_kind, eff_invalid_history, active_projected_lease. intros Hk.
  destruct (et_kind t) as [tn o k i d nb|lid k dur|lid dur prev|lid k rec b|lid k rs rt b|lid k rs b|rs] eqn:Ek;
    [done|..]; inv_ok.
  - destruct s as [n nb| | | | |]; try done. destruct (_ || _) eqn:E; [done|]. bool_hyps. inv_ok.
    destruct (bool_decide _) eqn:E'; [done|]. bool_hyps. subst. naive_solver.
  - match goal with H : active_owned_lease _ _ _ _ _ = _ |- _ =>
      apply active_lease_ok in H as (-> & _) end. naive_solver.
  - apply settlement_owner in H0 as [[-> [reason ->]]|[-> (lease & -> & <- & <-)]]; subst; naive_solver.
  - apply settlement_owner in H1 as [[-> [reason ->]]|[-> (lease & -> & <- & <-)]]; subst; naive_solver.
  - destruct s as [|lease| | | |]; try done. destruct (_ || _) eqn:E; [done|]. inv_ok. naive_solver.
  - destruct s as [[|[]|] nb| | | | |]; done.
Qed.

Lemma lease_ids_NoDup tenant l y :
  eff_replayed tenant l y →
  ∀ i j t t' lid, l !! i = Some t → l !! j = Some t' →
    claims_lease lid t = true → claims_lease lid t' = true → i = j.
Proof.
  revert l y. refine (replays_ind _ _ (λ l _, ∀ i j t t' lid, l !! i = Some t → l !! j = Some t' →
    claims_lease lid t = true → claims_lease lid t' = true → i = j) _ _); [done|].
  intros l t y y' Hl IH [_ _ _ _ _ _ Hp]%effect_replay_step_ok. pose proof (eff_replayed_inv _ _ _ Hl) as Hi.
  assert (∀ lid, claims_lease lid t = true → ∀ i u, l !! i = Some u → claims_lease lid u = true → False)
    as Hnew.
  { intros lid Hc i u Hu Hcu. unfold claims_lease in Hc.
    apply projection_cases in Hp as [(tn & o & k & i' & d & nb & q & Ek & _)|(q & s & _ & _ & _ & Hk)].
    - by rewrite Ek in Hc.
    - apply projected_sources in Hk as (_ & _ & _ & Hk & _).
      destruct (et_kind t) as [|lid' k dur| | | | |]; try done. bool_hyps. subst.
      destruct (Hk _ _ _ eq_refl) as [Hk' _]. apply Hk', (ei_leases _ _ Hi).
      exists u. split; [by eapply list_elem_of_lookup_2|done]. }
  intros i j u v lid Hu Hv Hcu Hcv.
  apply lookup_app_Some in Hu as [Hu|[Li Hu]], Hv as [Hv|[Lj Hv]]; [eauto|..].
  - apply list_lookup_singleton_Some in Hv as [_ <-]. by destruct (Hnew _ Hcv _ _ Hu Hcu).
  - apply list_lookup_singleton_Some in Hu as [_ <-]. by destruct (Hnew _ Hcu _ _ Hv Hcv).
  - apply list_lookup_singleton_Some in Hv as [? _], Hu as [? _]. lia.
Qed.

(** A claim in a valid history, with the state it found. *)
Lemma claim_follows tenant l1 t lid k dur y1 y2 :
  eff_replayed tenant l1 y1 → effect_replay_step tenant y1 t = Ok y2 → et_kind t = EtClaimed lid k dur →
  ∃ nb, status_follows l1 (EsPending k nb) ∧ (nb ≤ et_applied_at_ms t)%Z.
Proof.
  intros Hl [_ _ _ _ _ _ Hp]%effect_replay_step_ok Ek. apply eff_replayed_follows in Hl.
  apply projection_cases in Hp as [(? & ? & ? & ? & ? & ? & ? & Ek' & _)|(q & s & _ & Hq & _ & Hk)];
    [congruence|].
  rewrite Hq in Hl. apply projected_sources in Hk as (_ & _ & _ & Hk & _).
  destruct (Hk _ _ _ Ek) as [_ (nb & E & Hle)]. rewrite E in Hl. eauto.
Qed.

(** The status a transition leaves, and the transition after it. *)
Lemma step_after tenant l1 t p l2 y' :
  eff_replayed tenant (l1 ++ t :: p :: l2) y' →
  ∃ y1 y2 q s ids', eff_replayed tenant l1 y1 ∧ effect_replay_step tenant y1 t = Ok y2 ∧
    ey_projection y2 = Some q ∧ apply_projected_kind p (ep_status q) (ey_lease_ids y2) = Ok (s, ids').
Proof.
  intros (y1 & y2 & Hl & Hs & Hl2 & Hrest)%replays_cut. simpl in Hrest.
  destruct (effect_replay_step tenant y2 p) as [y3|] eqn:E; [|done].
  apply effect_replay_step_ok in E as [_ _ _ _ _ _ Hp].
  apply projection_cases in Hp as [(? & ? & ? & ? & ? & ? & ? & _ & Hn & _)|(q & s & _ & Hq & _ & Hk)].
  - apply eff_replayed_follows in Hl2. rewrite Hn in Hl2. by destruct l1.
  - exists y1, y2, q, s, (ey_lease_ids y3). eauto.
Qed.

Lemma step_status tenant y1 t y2 q :
  effect_replay_step tenant y1 t = Ok y2 → ey_projection y2 = Some q →
  (∀ tn o k i d nb, et_kind t ≠ EtCreated tn o k i d nb) →
  ∃ q1, ey_projection y1 = Some q1 ∧
    apply_projected_kind t (ep_status q1) (ey_lease_ids y1) = Ok (ep_status q, ey_lease_ids y2).
Proof.
  intros [_ _ _ _ _ _ Hp]%effect_replay_step_ok Hq Hc.
  apply projection_cases in Hp as [(? & ? & ? & ? & ? & ? & ? & Ek & _)|(q1 & s & _ & Hq1 & Hq2 & Hk)].
  - by apply Hc in Ek.
  - rewrite Hq in Hq2. injection Hq2 as ->. eauto.
Qed.

(** C8: an uncertain attempt is never retried blindly.  In the history of a
    valid Effect the claims are numbered 1, 2, 3, ... under distinct leases;
    each claim after the first comes right after the transition that settled
    the previous attempt as not applied, under the lease that had claimed it
    and with an explicit retry time that has passed.  An attempt that became
    unknown is followed only by its own reconciliation, and nothing follows
    an applied settlement, so there is at most one. *)
Theorem effect_no_blind_retry (e : Effect) (Hv : eff_validate e = Ok ()) :
  (∀ l1 t l2 lid k dur, ef_transitions e = l1 ++ t :: l2 → et_kind t = EtClaimed lid k dur →
     k = (claims l1 + 1)%Z ∧ (claims l1 = 0%Z ∨
     ∃ l0 p lid' reason retry rec, l1 = l0 ++ [p] ∧ claimed_by l1 lid' (k - 1) ∧
       et_kind p = EtNotApplied lid' (k - 1) reason (Some retry) rec ∧
       (retry ≤ et_applied_at_ms t)%Z)) ∧
  (∀ i j t t' lid, ef_transitions e !! i = Some t → ef_transitions e !! j = Some t' →
     claims_lease lid t = true → claims_lease lid t' = true → i = j) ∧
  (∀ l1 t p l2 lid k reason x, ef_transitions e = l1 ++ t :: p :: l2 →
     et_kind t = EtBecameUnknown lid k reason x →
     (∃ receipt, et_kind p = EtApplied lid k receipt true) ∨
     (∃ rs rt, et_kind p = EtNotApplied lid k rs rt true)) ∧
  (∀ l1 t l2 lid k receipt rec, ef_transitions e = l1 ++ t :: l2 →
     et_kind t = EtApplied lid k receipt rec → l2 = []).
Proof.
  apply eff_validate_iff in Hv as [y [_ _ Hr _]]. split_and!.
  - intros l1 t l2 lid k dur El Ek. rewrite El in Hr.
    apply replays_cut in Hr as (y1 & y2 & Hl & Hs & _).
    destruct (claim_follows _ _ _ _ _ _ _ _ Hl Hs Ek) as (nb & [-> Hf] & Hle). split; [done|].
    destruct Hf as [[? _]|(l0 & p & lid' & reason & rec & ? & ? & ?)]; [left; lia|right]. eauto 12.
  - by eapply lease_ids_NoDup.
  - intros l1 t p l2 lid k reason x El Ek. rewrite El in Hr.
    apply step_after in Hr as (y1 & y2 & q & s & ids' & Hl & Hs & Hq & Hk).
    destruct (step_status _ _ _ _ _ Hs Hq) as (q1 & _ & Hk1); [congruence|].
    apply projected_sources in Hk1 as (_ & _ & _ & _ & Hk1). apply projected_sources in Hk as (_ & Hk & _).
    eapply Hk. by eapply Hk1.
  - intros l1 t [|p l2] lid k receipt rec El Ek; [done|]. rewrite El in Hr.
    apply step_after in Hr as (y1 & y2 & q & s & ids' & Hl & Hs & Hq & Hk).
    destruct (step_status _ _ _ _ _ Hs Hq) as (q1 & _ & Hk1); [congruence|].
    apply projected_sources in Hk1 as (_ & _ & Hk1 & _). apply projected_sources in Hk as (Hk & _).
    by rewrite (Hk1 _ _ _ _ Ek) in Hk.
Qed.

(** ** Inversion of [apply] *)

(** The Effect [apply] commits, before its charge. *)
Definition next_effect (e : Effect) (p : EffectStatus * EffectTransitionKind) (c : EffectCommand)
    (digest : str) (now : Z) (a : AuthorityContext) : Effect :=
  eff_push_transition (eff_set_status e p.1)
    {| et_sequence := len (ef_transitions e) + 1; et_command_id := ec_id c;
       et_command_sha256 := digest; et_applied_at_ms := now; et_actor := actor a;
       et_kind := p.2 |}.

(** The guards [apply] evaluates before it builds the next Effect. *)
Record eff_admitted (e : Effect) (c : EffectCommand) (now : Z) (a : AuthorityContext)
    (digest : str) (p : EffectStatus * EffectTransitionKind) : Prop := {
  ea_new : eff_recognizes_command e c a = Ok false;
  ea_time : now ≠ 0%Z;
  ea_authority : validate_authority a "Effect command authority" = Ok ();
  ea_capacity : (len (ef_transitions e) < MAX_EFFECT_TRANSITIONS)%Z;
  ea_monotone : ∀ t, vec_last (ef_transitions e) = Some t → (et_applied_at_ms t ≤ now)%Z;
  ea_digest : attributed_digest (actor a) (tenant_id a) c = Ok digest;
  ea_kind : eff_apply_kind e (ec_kind c) now (actor a) = Ok p;
}.

Lemma eff_apply_applied c now a e e' :
  eff_apply c now a e = (e', Ok EffApplied) →
  ∃ digest p charge, eff_admitted e c now a digest p ∧
    eff_validate (next_effect e p c digest now a) = Ok () ∧
    eff_encoded_size (next_effect e p c digest now a) = Ok charge ∧
    e' = eff_with_charge (next_effect e p c digest now a) charge.
Proof.
  unfold eff_apply. intros Ha. inv_M.
  match goal with b : bool |- _ => destruct b; inv_M; [done|] end.
  inv_ok.
  match goal with H : checked_add _ _ _ = _ |- _ => apply checked_add_Some in H as [-> _] end.
  match goal with p : (EffectStatus * EffectTransitionKind)%type |- _ => rename p into pk end.
  unfold eff_validate_application_time in *. inv_ok. bool_hyps.
  match goal with H : attributed_digest _ _ _ = Ok ?d |- _ => exists d, pk end.
  match goal with H : eff_encoded_size _ = Ok ?n |- _ => exists n end.
  apply mret_eq in Ha as [-> _]. split_and!; [|done..]. split; try done.
  intros t Hl. rewrite Hl in *. by bool_hyps.
Qed.

Lemma eff_apply_other c now a e e' res :
  eff_apply c now a e = (e', res) → res ≠ Ok EffApplied → e' = e.
Proof.
  unfold eff_apply. intros Ha Hn. destruct res as [o|x].
  - inv_M. match goal with b : bool |- _ => destruct b; inv_M; [done|] end. done.
  - inv_M_err; try done. match goal with b : bool |- _ => destruct b; inv_M_err; done end.
Qed.

(** ** The validator accepts what the guards accept *)

Lemma eff_recognizes_false e c a :
  eff_recognizes_command e c a = Ok false →
  eff_validate_identity "Effect command" (ec_id c) = Ok () ∧
  (ef_tenant_id e = tenant_id a → ∀ t, t ∈ ef_transitions e → et_command_id t ≠ ec_id c).
Proof.
  unfold eff_recognizes_command, eff_validate_command. intros Hr. inv_ok. split; [done|]. intros Ht.
  rewrite bool_decide_eq_false_2 in Hr by (intros Hn; by apply Hn). inv_ok.
  destruct (List.find _ _) as [t|] eqn:E; [by destruct (bool_decide _)|].
  intros t Hin%list_elem_of_In Hid. pose proof (find_none _ _ E t Hin) as Hn. simpl in Hn.
  by bool_hyps.
Qed.

Lemma attributed_lower `{!Sha256Laws, Serialize (AttributedCommand T)} actor tenant (x : T) d :
  attributed_digest actor tenant x = Ok d →
  is_lower_sha256 d = true ∧ validate_actor actor = Ok ().
Proof.
  unfold attributed_digest. intros Hx. inv_ok. subst d.
  split; [apply lower_sha256_lower|done].
Qed.

Lemma header_next e p c d now a : effect_header e → effect_header (next_effect e p c d now a).
Proof. done. Qed.

Lemma next_digest e s k c d now a :
  eff_apply_kind e (ec_kind c) now (actor a) = Ok (s, k) →
  attributed_digest (actor a) (tenant_id a) c = Ok d → ∀ t, et_kind t = k →
  et_actor t = actor a → et_command_id t = ec_id c →
  eff_transition_digest t (tenant_id a) = Ok d.
Proof.
  intros Hk Hd t Et Ea Ec. unfold eff_transition_digest. rewrite Et, Ea, Ec.
  pose proof (eff_apply_kind_command _ _ _ _ _ _ Hk) as Hc.
  destruct k; try (rewrite Hc; simpl; by destruct c). done.
Qed.

Lemma eff_next_valid `{!Sha256Laws} e y c now a digest p :
  valid_effect e y → (0 < now)%Z → ef_tenant_id e = tenant_id a → eff_admitted e c now a digest p →
  ∃ y', valid_effect (next_effect e p c digest now a) y'.
Proof.
  intros [Hh Hlen Hr Hp] Hnow Htn [A1 A2 A3 A4 A5 A6 A7]. destruct p as [s k].
  pose proof (eff_replayed_inv _ _ _ Hr) as Hi. apply eff_recognizes_false in A1 as [R1 R2].
  destruct (attributed_lower _ _ _ _ A6) as [Hlow Hact].
  set (t := {| et_sequence := len (ef_transitions e) + 1; et_command_id := ec_id c;
    et_command_sha256 := digest; et_applied_at_ms := now; et_actor := actor a; et_kind := k |}).
  destruct (eff_apply_kind_replays e y _ _ _ _ _ t Hi A7 eq_refl eq_refl eq_refl) as [ids' Hk].
  assert (apply_projection_transition t (ey_projection y) (ey_lease_ids y) =
    Ok (Some (ep_with_status (effect_projection e) s), ids')) as Hproj.
  { unfold apply_projection_transition. rewrite Hp. cbn [et_kind t ok_or].
    destruct k; try (simpl; rewrite Hk; done). by apply eff_apply_kind_command in A7. }
  assert (ey_previous_time y ≤ now)%Z as Hprev.
  { rewrite (ei_time _ _ Hi). destruct (vec_last (ef_transitions e)) as [t0|] eqn:El; simpl; [|lia].
    by apply A5. }
  assert (ec_id c ∉ ey_command_ids y) as Hnew.
  { intros (t0 & Ht0 & E)%(ei_commands _ _ Hi). by eapply R2. }
  assert (∃ y', effect_replay_step (tenant_id a) y t = Ok y' ∧
    ey_projection y' = Some (ep_with_status (effect_projection e) s)) as (y' & Hstep & Hy').
  { unfold effect_replay_step. cbn [et_sequence et_command_id et_command_sha256 et_applied_at_ms
      et_actor t]. rewrite (ei_size _ _ Hi). unfold checked_add, MAX_EFFECT_TRANSITIONS in *.
    rewrite (proj2 (Z.leb_le _ u64_max)) by (unfold u64_max; lia). simpl. rewrite Z.eqb_refl. simpl.
    rewrite R1. unfold eff_validate_digest, eff_validate_application_time.
    rewrite Hlow, (proj2 (Z.eqb_neq now 0)), (proj2 (Z.ltb_ge _ _) Hprev), Hact by done. simpl.
    fold t. rewrite (next_digest _ _ _ _ _ _ _ A7 A6 t eq_refl eq_refl eq_refl). simpl.
    rewrite (bool_decide_eq_false_2 (digest ≠ digest)) by (intros Hn; by apply Hn).
    rewrite (bool_decide_eq_false_2 (ec_id c ∈ _)) by done. simpl. rewrite Hproj. simpl. eauto. }
  exists y'. split; [by apply header_next| |simpl; rewrite Htn; apply replays_snoc; rewrite Htn in Hr; eauto|done].
  simpl. unfold len in *. rewrite length_app. simpl. unfold MAX_EFFECT_TRANSITIONS in *. lia.
Qed.

(** [apply] is total on what its guards admit: on a valid Effect, a new
    command of the Effect's tenant that passes the clock, authority, capacity
    and status guards, and whose result fits its encoding, is applied; the
    validator [apply] runs on the result never rejects it. *)
Theorem effect_apply_admitted (laws : Sha256Laws) (e : Effect) (c : EffectCommand) (now : Z)
    (a : AuthorityContext) (digest : str) (p : EffectStatus * EffectTransitionKind) (charge : Z)
    (Hv : eff_validate e = Ok ()) (Hnow : (0 < now)%Z) (Htenant : ef_tenant_id e = tenant_id a)
    (Had : eff_admitted e c now a digest p)
    (Hsize : eff_encoded_size (next_effect e p c digest now a) = Ok charge) :
  eff_apply c now a e = (eff_with_charge (next_effect e p c digest now a) charge, Ok EffApplied) ∧
  eff_validate (eff_with_charge (next_effect e p c digest now a) charge) = Ok ().
Proof.
  assert (eff_validate (next_effect e p c digest now a) = Ok ()) as Hn.
  { apply eff_validate_iff in Hv as [y Hy]. apply eff_validate_iff. by eapply eff_next_valid. }
  split; [|done]. destruct Had as [A1 A2 A3 A4 A5 A6 A7].
  unfold eff_apply, eff_validate_application_time, mbind, M_bind, lift, get, put, mret, M_ret.
  rewrite A1, (proj2 (Z.eqb_neq now 0)) by done. simpl. rewrite A3, (proj2 (Z.leb_gt _ _) A4).
  replace (match vec_last (ef_transitions e) with
           | Some t => (now <? et_applied_at_ms t)%Z | None => false end) with false.
  2: { destruct (vec_last (ef_transitions e)) as [t|]; [|done]. symmetry. apply Z.ltb_ge. by apply A5. }
  simpl. rewrite A6, A7. simpl. unfold checked_add, MAX_EFFECT_TRANSITIONS in *.
  rewrite (proj2 (Z.leb_le _ u64_max)) by (unfold u64_max; lia). simpl.
  unfold next_effect in Hn, Hsize. by rewrite Hn, Hsize.
Qed.

(** ** Steps of an Effect *)

(** One call of [apply], with any command, clock and authority. *)
Definition eff_step (e e' : Effect) : Prop :=
  ∃ c now a res, (0 ≤ now)%Z ∧ eff_apply c now a e = (e', res).

Lemma eff_step_cases e e' :
  eff_step e e' → e' = e ∨
  ∃ c now a digest p charge, (0 < now)%Z ∧ eff_admitted e c now a digest p ∧
    eff_validate (next_effect e p c digest now a) = Ok () ∧
    e' = eff_with_charge (next_effect e p c digest now a) charge.
Proof.
  intros (c & now & a & res & Hnow & Ha). destruct res as [[]|x].
  - apply eff_apply_applied in Ha as (digest & p & charge & Had & Hv & _ & ->). right.
    exists c, now, a, digest, p, charge. split_and!; try done.
    pose proof (ea_time _ _ _ _ _ _ Had). lia.
  - left. by eapply eff_apply_other.
  - left. by eapply eff_apply_other.
Qed.

Lemma eff_step_validate e e' : eff_validate e = Ok () → eff_step e e' → eff_validate e' = Ok ().
Proof. by intros Hv [->|(c & now & a & d & p & n & _ & _ & Hv' & ->)]%eff_step_cases. Qed.

Lemma eff_step_extends e e' :
  eff_step e e' → (∃ ts, ef_transitions e' = ef_transitions e ++ ts) ∧
  ef_tenant_id e' = ef_tenant_id e ∧ ef_operation e' = ef_operation e ∧
  ef_idempotency_key e' = ef_idempotency_key e.
Proof.
  intros [->|(c & now & a & d & p & n & _ & _ & _ & ->)]%eff_step_cases; simpl; [|eauto].
  split; [exists []; by rewrite app_nil_r|done].
Qed.

Lemma eff_steps_validate e e' : eff_validate e = Ok () → rtc eff_step e e' → eff_validate e' = Ok ().
Proof. intros Hv. induction 1; [done|]. eauto using eff_step_validate. Qed.

Lemma eff_steps_extend e e' :
  rtc eff_step e e' → (∃ ts, ef_transitions e' = ef_transitions e ++ ts) ∧
  ef_tenant_id e' = ef_tenant_id e ∧ ef_operation e' = ef_operation e ∧
  ef_idempotency_key e' = ef_idempotency_key e.
Proof.
  induction 1 as [e|e e1 e2 Hs _ ([ts IH] & I1 & I2 & I3)].
  - split; [exists []; by rewrite app_nil_r|done].
  - apply eff_step_extends in Hs as ([ts0 E] & E1 & E2 & E3).
    split; [|by rewrite I1, I2, I3]. exists (ts0 ++ ts). by rewrite IH, E, app_assoc.
Qed.

(** ** Leases *)

(** The lease a command of the worker names. *)
Definition worker_lease (k : EffectCommandKind) : option EffectLeaseId :=
  match k with
  | EcRenewLease lid _ | EcRecordApplied lid _ | EcRecordNotApplied lid _ _
  | EcRecordUnknown lid _ => Some lid
  | _ => None
  end.

(** The lease was claimed and is no longer the current one. *)
Definition lease_settled (e : Effect) (lid : EffectLeaseId) : Prop :=
  existsb (claims_lease lid) (ef_transitions e) = true ∧
  ∀ lease, ef_status e = EsClaimed lease → el_id lease ≠ lid.

Lemma worker_command_owner e k now actor p lid :
  eff_apply_kind e k now actor = Ok p → worker_lease k = Some lid →
  ∃ lease, ef_status e = EsClaimed lease ∧ el_id lease = lid ∧ el_owner lease = actor ∧
    (now < el_expires_at_ms lease)%Z.
Proof.
  unfold eff_apply_kind. intros Hk Hw. destruct k; simplify_eq/=; inv_ok;
    match goal with H : active_owned_lease _ _ _ _ _ = _ |- _ => apply active_lease_ok in H end; eauto.
Qed.

Lemma expire_command_lease e lid now actor p :
  eff_apply_kind e (EcExpireLease lid) now actor = Ok p →
  ∃ lease, ef_status e = EsClaimed lease ∧ el_id lease = lid ∧ (el_expires_at_ms lease ≤ now)%Z ∧
    p.1 = EsUnknown (el_attempt lease) lid (lit "lease.expired").
Proof.
  simpl. intros Hk. destruct (ef_status e) as [|lease| | | |]; try done. inv_ok. bool_hyps. subst.
  match goal with H : ¬ (_ ≠ _) |- _ => apply dec_stable in H end. eauto.
Qed.

Lemma apply_kind_not_terminal e k now actor p :
  eff_apply_kind e k now actor = Ok p → eff_terminal (ef_status e) = false.
Proof.
  unfold eff_apply_kind. intros Hk. destruct k; inv_ok;
    repeat match goal with
    | H : active_owned_lease _ _ _ _ _ = _ |- _ => apply active_lease_ok in H as (-> & _)
    | H : validate_unknown _ _ _ = _ |- _ => apply validate_unknown_ok in H as [? ->]
    end; try done; by destruct (ef_status e).
Qed.

(** A claim, or no new lease. *)
Lemma apply_kind_lease e k now actor s t lease :
  eff_apply_kind e k now actor = Ok (s, t) → s = EsClaimed lease →
  (∃ lease0, ef_status e = EsClaimed lease0 ∧ el_id lease0 = el_id lease) ∨
  validate_new_lease_id (ef_transitions e) (el_id lease) = Ok ().
Proof.
  unfold eff_apply_kind. intros Hk ->. destruct k; inv_ok; try discriminate.
  - destruct (ef_status e); try done. inv_ok. subst. simpl. by right.
  - match goal with H : active_owned_lease _ _ _ _ _ = _ |- _ => apply active_lease_ok in H as (-> & _) end.
    subst. left. eauto.
  - match goal with H : settled_not_applied _ _ _ = _ |- _ => apply settled_ok in H end.
    by destruct retry_at_ms as [nb|]; destruct_and?; simplify_eq.
  - by destruct (ef_status e); inv_ok.
  - match goal with H : settled_not_applied _ _ _ = _ |- _ => apply settled_ok in H end.
    by destruct retry_at_ms as [nb|]; destruct_and?; simplify_eq.
  - destruct (ef_status e) as [[|[]|]| | | | |]; inv_ok; done.
Qed.

Lemma lease_settled_step e e' lid : lease_settled e lid → eff_step e e' → lease_settled e' lid.
Proof.
  intros [Hs Hc] [->|(c & now & a & d & [s k] & n & _ & Had & _ & ->)]%eff_step_cases; [by split|].
  pose proof (ea_kind _ _ _ _ _ _ Had) as Hk. split; simpl.
  - by rewrite existsb_app, Hs.
  - intros lease -> E. destruct (apply_kind_lease _ _ _ _ _ _ _ Hk eq_refl) as [(l0 & Hl0 & E0)|Hn].
    + apply (Hc _ Hl0). congruence.
    + unfold validate_new_lease_id in Hn. inv_ok. rewrite E in *. congruence.
Qed.

Lemma terminal_steps e e1 :
  eff_terminal (ef_status e) = true → rtc eff_step e e1 → e1 = e.
Proof.
  intros Ht Hsteps. induction Hsteps as [|e e0 e1 Hs _ IH]; [done|].
  apply eff_step_cases in Hs as [->|(c & now & a & d & [s k] & n & _ & Had & Hv & _)]; [auto|].
  pose proof (apply_kind_not_terminal _ _ _ _ _ (ea_kind _ _ _ _ _ _ Had)). congruence.
Qed.

(** leases fence workers: a worker's command takes effect only for the
    owner of the current lease and strictly before it expires, the expiry
    command only at or after that time, and it makes the attempt unknown; a
    lease that was settled or replaced is refused then and ever after; and no
    call changes an applied, rejected or cancelled Effect. *)
Theorem effect_lease_fencing (e : Effect) :
  (∀ c now a e' lid, eff_apply c now a e = (e', Ok EffApplied) → worker_lease (ec_kind c) = Some lid →
     ∃ lease, ef_status e = EsClaimed lease ∧ el_id lease = lid ∧ el_owner lease = actor a ∧
       (now < el_expires_at_ms lease)%Z) ∧
  (∀ c now a e' lid, eff_apply c now a e = (e', Ok EffApplied) → ec_kind c = EcExpireLease lid →
     ∃ lease, ef_status e = EsClaimed lease ∧ el_id lease = lid ∧
       (el_expires_at_ms lease ≤ now)%Z ∧
       ef_status e' = EsUnknown (el_attempt lease) lid (lit "lease.expired")) ∧
  (∀ lid e1, lease_settled e lid → rtc eff_step e e1 →
     ∀ c now a e2, worker_lease (ec_kind c) = Some lid ∨ ec_kind c = EcExpireLease lid →
       eff_apply c now a e1 ≠ (e2, Ok EffApplied)) ∧
  (eff_terminal (ef_status e) = true → ∀ e1, rtc eff_step e e1 → e1 = e).
Proof.
  split_and!.
  - intros c now a e' lid (d & p & n & Had & _)%eff_apply_applied Hw.
    by eapply worker_command_owner, Hw; apply (ea_kind _ _ _ _ _ _ Had).
  - intros c now a e' lid (d & p & n & Had & _ & _ & ->)%eff_apply_applied Hk.
    pose proof (ea_kind _ _ _ _ _ _ Had) as Ha. rewrite Hk in Ha.
    by apply expire_command_lease in Ha.
  - intros lid e1 Hl Hsteps c now a e2 Hc (d & p & n & Had & _)%eff_apply_applied.
    assert (lease_settled e1 lid) as [_ Hno].
    { induction Hsteps as [|e e0 e1 Hs _ IH]; [done|]. eauto using lease_settled_step. }
    pose proof (ea_kind _ _ _ _ _ _ Had) as Hk. destruct Hc as [Hw|Hx].
    + destruct (worker_command_owner _ _ _ _ _ _ Hk Hw) as (lease & Hst & E & _). by eapply Hno.
    + rewrite Hx in Hk. apply expire_command_lease in Hk as (lease & Hst & E & _). by eapply Hno.
  - intros Ht e1. by apply terminal_steps.
Qed.

(** ** Idempotence *)

Lemma eff_replayed_history tenant l y :
  eff_replayed tenant l y →
  (∀ i t, l !! i = Some t → et_sequence t = (Z.of_nat i + 1)%Z) ∧
  NoDup (et_command_id <$> l) ∧
  (∀ t, t ∈ l → eff_transition_digest t tenant = Ok (et_command_sha256 t)).
Proof.
  revert l y. refine (replays_ind _ _ (λ l _, _ ∧ NoDup (et_command_id <$> l) ∧ _) _ _).
  - split_and!; [done|constructor|by intros ? ?%elem_of_nil].
  - intros l t y y' Hl (I1 & I2 & I3) [S1 S2 S3 S4 S5 S6 _]%effect_replay_step_ok.
    pose proof (eff_replayed_inv _ _ _ Hl) as Hi. split_and!.
    + intros i t' [Hi'|[Hi' Ht]]%lookup_app_Some; [eauto|].
      apply list_lookup_singleton_Some in Ht as [Hz <-]. rewrite S1, (ei_size _ _ Hi).
      unfold len. lia.
    + rewrite fmap_app. apply NoDup_app. split_and!; [done| |apply NoDup_singleton].
      intros id (t' & -> & Ht')%list_elem_of_fmap E%list_elem_of_singleton.
      apply S5, (ei_commands _ _ Hi). eauto.
    + intros t' [Ht| ->%list_elem_of_singleton]%elem_of_app; eauto.
Qed.

(** commands are idempotent and bound to their actor: once a command
    was applied, sending it again by the same authority, at any later time,
    reports a duplicate and changes nothing; under the same identity, other
    content or another actor of the tenant is an error that changes nothing,
    whenever its attributed digest differs. *)
Theorem effect_idempotent (e e1 e2 : Effect) (c : EffectCommand) (now : Z) (a : AuthorityContext)
    (Hv : eff_validate e = Ok ()) (Hnow : (0 ≤ now)%Z) (Htenant : ef_tenant_id e = tenant_id a)
    (Ha : eff_apply c now a e = (e1, Ok EffApplied)) (Hlater : rtc eff_step e1 e2) :
  (∀ now', eff_apply c now' a e2 = (e2, Ok EffDuplicate)) ∧
  (∀ c' now' a', ec_id c' = ec_id c → tenant_id a' = tenant_id a →
     attributed_digest (actor a') (tenant_id a') c' ≠ attributed_digest (actor a) (tenant_id a) c →
     ∃ x, eff_apply c' now' a' e2 = (e2, Err x)).
Proof.
  assert (eff_validate e2 = Ok ()) as Hv2
    by (eapply eff_steps_validate, Hlater; eapply eff_step_validate; [exact Hv|];
        unfold eff_step; eauto 10).
  apply eff_apply_applied in Ha as (digest & [s k] & charge & Had & _ & _ & ->).
  apply eff_steps_extend in Hlater as ([ts Hts] & Htn & _). simpl in Hts, Htn.
  set (t := {| et_sequence := _; et_command_id := _ |}) in Hts.
  assert (t ∈ ef_transitions e2) as Ht by (rewrite Hts; set_solver).
  apply eff_validate_iff in Hv2 as [y [_ _ Hr _]].
  destruct (eff_replayed_history _ _ _ Hr) as (_ & Hnd & _).
  assert (List.find (λ t0, bool_decide (et_command_id t0 = ec_id c)) (ef_transitions e2) = Some t)
    as Hfind by (by apply (find_unique et_command_id)).
  destruct Had as [A1 A2 A3 A4 A5 A6 A7].
  assert (eff_validate_command c = Ok () ∧ validate_authority a "Effect command replay authority" = Ok ())
    as [Hvc Hva].
  { unfold eff_recognizes_command in A1. inv_ok. done. }
  split.
  - intros now'. unfold eff_apply, eff_recognizes_command, mbind, M_bind, lift, get, mret, M_ret. simpl.
    rewrite Hvc, Hva, Htn, Htenant. simpl. rewrite (bool_decide_eq_false_2 (_ ≠ _)) by (intros Hn; by apply Hn).
    rewrite A6. simpl. rewrite Hfind. simpl. by rewrite bool_decide_eq_true_2.
  - intros c' now' a' Hid Ht' Hne. unfold eff_apply, eff_recognizes_command, mbind, M_bind, lift, get. simpl.
    destruct (eff_validate_command c') as [[]|x]; simpl; [|by eexists].
    destruct (validate_authority a' _) as [[]|x]; simpl; [|by eexists].
    rewrite Htn, Htenant, Ht', (bool_decide_eq_false_2 (_ ≠ _)) by (intros Hn; by apply Hn).
    rewrite Ht', A6 in Hne.
    destruct (attributed_digest (actor a') (tenant_id a) c') as [d'|x]; simpl; [|by eexists].
    rewrite Hid, Hfind. simpl. rewrite bool_decide_eq_false_2 by congruence. by eexists.
Qed.
End safety.
