(* ===== verification/EffectCoordinator.v ===== *)
(** The atomic persistence of Effects, from src/src/effect/coordinator.rs:
    revisioned snapshots, the [EffectCoordinator] trait, its in-memory and its
    SQLite implementation, lifecycle pages, the scan for expired leases and
    the schema check; the page check of src/src/effect/page.rs, and the
    forwarding of src/src/effect/engine.rs. *)

From Stdlib Require Import ZArith Lia.
From stdpp Require Import sorting base tactics list gmap relations numbers strings option.
From stdpp Require Import list.
From S2P Require Import Prelude Kernel Digest Json Sqlite Pairs Effect.

Definition EFFECT_LEDGER_SCHEMA_VERSION : Z := 1.
Definition MAX_EFFECT_PAGE : Z := 256.
Definition MAX_EFFECT_STATUS_BYTES : Z := 9.
Definition MAX_EFFECT_CAPABILITY_BYTES : Z := 128.

Record EffectSnapshot := {
  es_id : EffectId;
  es_tenant_id : option str;
  es_revision : Z;
  es_effect : Effect;
}.

#[global] Instance EffectSnapshot_eq : EqDecision EffectSnapshot.
Proof. solve_decision. Defined.

(** [EffectPageCursor], a record of one identity. *)
Record EffectPageCursor := { pc_effect_id : EffectId }.

#[global] Instance EffectPageCursor_eq : EqDecision EffectPageCursor.
Proof. solve_decision. Defined.

Record EffectPage := {
  pg_effects : list EffectSnapshot;
  pg_next_cursor : option EffectPageCursor;
  pg_has_more : bool;
}.

Record EffectCommandResult := {
  ecr_snapshot : EffectSnapshot;
  ecr_outcome : EffectApplyOutcome;
}.

Record EffectDueLease := {
  dl_effect_id : EffectId;
  dl_tenant_id : option str;
  dl_revision : Z;
  dl_lease_id : EffectLeaseId;
  dl_attempt : Z;
  dl_expires_at_ms : Z;
}.

Record EffectDueScanPage := {
  edp_due : list EffectDueLease;
  edp_next_after_effect_id : option EffectId;
  edp_has_more : bool;
  edp_scanned : Z;
}.

(** * The trait *)

Class EffectCoordinator (W : Type) := {
  eff_create_as : EffectId → EffectCreateRequest → Z → AuthorityContext → M W EffectSnapshot;
  eff_load_as : EffectId → AuthorityContext → M W (option EffectSnapshot);
  eff_list_as : option str → option EffectPageCursor → Z → AuthorityContext → M W EffectPage;
  eff_scan_due_as : Z → option EffectId → Z → AuthorityContext → M W EffectDueScanPage;
  eff_apply_as : EffectId → Z → EffectCommand → Z → AuthorityContext → M W EffectCommandResult;
}.

(** The trait's default methods: the unscoped operations act as the local
    process. *)
Section defaults.
Context {W : Type} `{EffectCoordinator W}.
Definition eff_create (effect_id : EffectId) (request : EffectCreateRequest) (applied_at_ms : Z)
    : M W EffectSnapshot := eff_create_as effect_id request applied_at_ms local_process.
Definition eff_load (effect_id : EffectId) : M W (option EffectSnapshot) :=
  eff_load_as effect_id local_process.
Definition eff_list (status : option str) (after : option EffectPageCursor) (limit : Z)
    : M W EffectPage := eff_list_as status after limit local_process.
Definition eff_scan_due (at_ms : Z) (after : option EffectId) (scan_limit : Z)
    : M W EffectDueScanPage := eff_scan_due_as at_ms after scan_limit local_process.
Definition eff_apply_local (effect_id : EffectId) (expected_revision : Z)
    (command : EffectCommand) (applied_at_ms : Z) : M W EffectCommandResult :=
  eff_apply_as effect_id expected_revision command applied_at_ms local_process.
End defaults.

(** * Shared checks *)

Definition validate_effect_access (effect_id : EffectId) (authority : AuthorityContext)
    : result () :=
  _ ← map_err to_effect (authority_validate_current authority "Effect Coordinator authority");
  eff_validate_identity "Effect" effect_id.

Definition status_name (s : EffectStatus) : str :=
  match s with
  | EsPending _ _ => lit "pending"
  | EsClaimed _ => lit "claimed"
  | EsUnknown _ _ _ => lit "unknown"
  | EsApplied _ _ => lit "applied"
  | EsRejected _ _ => lit "rejected"
  | EsCancelled _ => lit "cancelled"
  end.

Definition status_names : list str :=
  [lit "pending"; lit "claimed"; lit "unknown"; lit "applied"; lit "rejected"; lit "cancelled"].

Definition validate_status_filter (status : str) : result () :=
  if bool_decide (status ∈ status_names) then Ok ()
  else Err (eff "Effect status filter is unknown" []).

Definition validate_list (status : option str) (after : option EffectPageCursor) (limit : Z)
    (authority : AuthorityContext) : result () :=
  _ ← map_err to_effect (authority_validate_current authority "Effect list authority");
  _ ← match status with Some status => validate_status_filter status | None => Ok () end;
  _ ← match after with
      | Some cursor => eff_validate_identity "Effect page cursor" (pc_effect_id cursor)
      | None => Ok ()
      end;
  reject_if (negb (in_range 1 MAX_EFFECT_PAGE limit))
    (eff "Effect page limit must be 1-{}" [ANum MAX_EFFECT_PAGE]).

Definition eff_validate_due_scan (at_ms : Z) (after_effect_id : option EffectId) (scan_limit : Z)
    (authority : AuthorityContext) : result () :=
  _ ← map_err to_effect (authority_validate_current authority "Effect due-scan authority");
  _ ← eff_validate_application_time at_ms;
  _ ← match after_effect_id with
      | Some effect_id => eff_validate_identity "Effect scan cursor" effect_id
      | None => Ok ()
      end;
  reject_if (negb (in_range 1 MAX_EFFECT_PAGE scan_limit))
    (eff "Effect scan limit must be 1-{}" [ANum MAX_EFFECT_PAGE]).

Definition eff_validate_expected_revision (revision : Z) : result () :=
  reject_if (revision =? 0)%Z (eff "Effect revision must be positive" []).

Definition missing_effect (effect_id : EffectId) : HarnessError :=
  eff "Effect {} does not exist" [AStr effect_id].

Definition different_content (effect_id : EffectId) : HarnessError :=
  eff "Effect {} already exists with different creation content" [AStr effect_id].
Definition bound_key : HarnessError :=
  eff "Effect idempotency key is already bound to different creation content" [].

Definition effect_key (effect_id : EffectId) (tenant : option str) : str * EffectId :=
  (tenant_storage_key tenant, effect_id).

(** [idempotency_coordinate]. *)
Definition idempotency_coordinate (tenant : str) (o : EffectOperation) (key : str)
    : str * str * str * str :=
  (tenant, eo_capability o, eo_operation o, key).

(** [page_from_candidates]. *)
Definition page_from_candidates (candidates : list EffectSnapshot) (limit : Z) : EffectPage :=
  let has_more := (limit <? len candidates)%Z in
  let candidates := take (Z.to_nat limit) candidates in
  {| pg_effects := candidates;
     pg_next_cursor := (λ s, {| pc_effect_id := es_id s |}) <$> vec_last candidates;
     pg_has_more := has_more |}.

(** What the [filter_map] of [due_page_from_scan] keeps of one snapshot. *)
Definition due_lease (at_ms : Z) (s : EffectSnapshot) : option EffectDueLease :=
  match ef_status (es_effect s) with
  | EsClaimed lease =>
      if (el_expires_at_ms lease <=? at_ms)%Z
      then Some {| dl_effect_id := es_id s; dl_tenant_id := es_tenant_id s;
                   dl_revision := es_revision s; dl_lease_id := el_id lease;
                   dl_attempt := el_attempt lease; dl_expires_at_ms := el_expires_at_ms lease |}
      else None
  | _ => None
  end.

Definition due_page_from_scan (visited : list EffectSnapshot) (scan_limit at_ms : Z)
    : EffectDueScanPage :=
  let has_more := (scan_limit <? len visited)%Z in
  let visited := take (Z.to_nat scan_limit) visited in
  {| edp_due := omap (due_lease at_ms) visited;
     edp_next_after_effect_id := option_map es_id (vec_last visited);
     edp_has_more := has_more;
     edp_scanned := len visited |}.

(** [status.is_none_or(|status| status_name(..) == status)]. *)
Definition has_status (status : option str) (s : EffectSnapshot) : bool :=
  match status with
  | Some status => bool_decide (status_name (ef_status (es_effect s)) = status)
  | None => true
  end.

(** * The in-memory ledger *)

Record MemoryEffects := {
  me_effects : gmap (str * EffectId) EffectSnapshot;
  me_idempotency : gmap (str * str * str * str) EffectId;
}.

(** A row of [effects]; its primary key is the key of the map. *)
Record EffectRow := {
  ex_schema_version : Z;
  ex_revision : Z;
  ex_capability : str;
  ex_operation : str;
  ex_idempotency_key : str;
  ex_created_at_ms : Z;
  ex_status : str;
  ex_effect_json : str;
}.

Abbreviation EffectTable := (gmap (str * str) EffectRow).
Abbreviation SqliteEffects := (Connection EffectTable).

(** [sql_error]. *)
Definition eff_sql (m : message) : HarnessError :=
  Prelude.Effect (prefixed "SQLite Effect Ledger: " m).

Definition eff_sql_revision (revision : Z) : result Z :=
  i64_try_from revision (eff "Effect revision exceeds SQLite" []).
Definition sql_time (value : Z) : result Z :=
  i64_try_from value (eff "Effect time exceeds SQLite" []).

Section coordinator.
Context `{!Serialize Json, !Serialize (AttributedCommand EffectCreateRequest),
          !Serialize (AttributedCommand EffectCommand), !Serialize EffectCommand,
          !Serialize EffectWire, !Deserialize EffectWire, sha : !Sha256}.

(** * [MemoryEffectCoordinator] *)

Definition request_coordinate (tenant : str) (request : EffectCreateRequest)
    : str * str * str * str :=
  idempotency_coordinate tenant (er_operation request) (er_idempotency_key request).

Definition mem_eff_create_as (effect_id : EffectId) (request : EffectCreateRequest)
    (applied_at_ms : Z) (authority : AuthorityContext) : M MemoryEffects EffectSnapshot :=
  _ ← lift (validate_effect_access effect_id authority);
  proposed ← lift (Effect_new request applied_at_ms authority);
  let tenant := tenant_storage_key (tenant_id authority) in
  let identity := effect_key effect_id (tenant_id authority) in
  let idempotency := request_coordinate tenant request in
  state ← (get : M MemoryEffects MemoryEffects);
  match me_effects state !! identity with
  | Some existing =>
      matches ← lift (eff_create_matches (es_effect existing) request authority);
      if (matches : bool) then mret existing else lift (Err (different_content effect_id))
  | None =>
      match me_idempotency state !! idempotency with
      | Some existing_id =>
          existing ← lift (ok_or (me_effects state !! (tenant, existing_id))
                             (eff "Effect idempotency index points to missing state" []));
          matches ← lift (eff_create_matches (es_effect existing) request authority);
          if (matches : bool) then mret existing else lift (Err bound_key)
      | None =>
          let snapshot := {| es_id := effect_id; es_tenant_id := tenant_id authority;
                             es_revision := 1; es_effect := proposed |} in
          _ ← put {| me_effects := <[identity := snapshot]> (me_effects state);
                     me_idempotency := <[idempotency := effect_id]> (me_idempotency state) |};
          mret snapshot
      end
  end.

Definition mem_eff_load_as (effect_id : EffectId) (authority : AuthorityContext)
    : M MemoryEffects (option EffectSnapshot) :=
  _ ← lift (validate_effect_access effect_id authority);
  state ← (get : M MemoryEffects MemoryEffects);
  mret (me_effects state !! effect_key effect_id (tenant_id authority)).

(** The iteration over [effects] that keeps one tenant after a cursor. *)
Definition mem_candidates (effects : gmap (str * EffectId) EffectSnapshot) (tenant : str)
    (after : option EffectId) : list EffectSnapshot :=
  (List.filter (λ p : (str * str) * EffectSnapshot,
     bool_decide (p.1.1 = tenant) && after_cursor after p.1.2) (pairs_iter effects)).*2.

(** [limit.saturating_add(1)]. *)
Definition one_more (limit : Z) : nat := Z.to_nat (saturating_add usize_max limit 1).

Definition mem_eff_list_as (status : option str) (after : option EffectPageCursor) (limit : Z)
    (authority : AuthorityContext) : M MemoryEffects EffectPage :=
  _ ← lift (validate_list status after limit authority);
  state ← (get : M MemoryEffects MemoryEffects);
  let candidates := take (one_more limit) (List.filter (has_status status)
    (mem_candidates (me_effects state) (tenant_storage_key (tenant_id authority))
      (pc_effect_id <$> after))) in
  mret (page_from_candidates candidates limit).

Definition mem_eff_scan_due_as (at_ms : Z) (after_effect_id : option EffectId)
    (scan_limit : Z) (authority : AuthorityContext) : M MemoryEffects EffectDueScanPage :=
  _ ← lift (eff_validate_due_scan at_ms after_effect_id scan_limit authority);
  state ← (get : M MemoryEffects MemoryEffects);
  let visited := take (one_more scan_limit)
    (mem_candidates (me_effects state) (tenant_storage_key (tenant_id authority))
      after_effect_id) in
  mret (due_page_from_scan visited scan_limit at_ms).

(** [effect.apply(..)] on a copy of the Effect. *)
Definition eff_apply_copy (effect : Effect) (command : EffectCommand) (applied_at_ms : Z)
    (authority : AuthorityContext) : result (Effect * EffectApplyOutcome) :=
  match eff_apply command applied_at_ms authority effect with
  | (effect', Ok outcome) => Ok (effect', outcome)
  | (_, Err e) => Err e
  end.

Definition mem_eff_apply_as (effect_id : EffectId) (expected_revision : Z)
    (command : EffectCommand) (applied_at_ms : Z) (authority : AuthorityContext)
    : M MemoryEffects EffectCommandResult :=
  _ ← lift (validate_effect_access effect_id authority);
  _ ← lift (eff_validate_expected_revision expected_revision);
  let key := effect_key effect_id (tenant_id authority) in
  state ← (get : M MemoryEffects MemoryEffects);
  current ← lift (ok_or (me_effects state !! key) (missing_effect effect_id));
  recognized ← lift (eff_recognizes_command (es_effect current) command authority);
  if (recognized : bool)
  then mret {| ecr_snapshot := current; ecr_outcome := EffDuplicate |}
  else
    _ ← lift (reject_if (negb (es_revision current =? expected_revision)%Z)
                (EffectConflict effect_id expected_revision (es_revision current)));
    p ← lift (eff_apply_copy (es_effect current) command applied_at_ms authority);
    revision ← lift (ok_or (checked_add u64_max (es_revision current) 1)
                       (eff "Effect revision overflow" []));
    let snapshot := {| es_id := effect_id; es_tenant_id := es_tenant_id current;
                       es_revision := revision; es_effect := p.1 |} in
    _ ← put {| me_effects := <[key := snapshot]> (me_effects state);
               me_idempotency := me_idempotency state |};
    mret {| ecr_snapshot := snapshot; ecr_outcome := p.2 |}.

#[global] Instance MemoryEffectCoordinator : EffectCoordinator MemoryEffects := {|
  eff_create_as := mem_eff_create_as;
  eff_load_as := mem_eff_load_as;
  eff_list_as := mem_eff_list_as;
  eff_scan_due_as := mem_eff_scan_due_as;
  eff_apply_as := mem_eff_apply_as;
|}.

(** * [SqliteEffectCoordinator] *)

Definition encode_effect (effect : Effect) : result str :=
  _ ← eff_validate effect;
  encoded ← ok_or (to_json (effect_wire effect)) (eff "cannot encode Effect" []);
  _ ← reject_if (MAX_EFFECT_JSON_BYTES <? str_len encoded)%Z
        (eff "Effect exceeds {} encoded bytes" [ANum MAX_EFFECT_JSON_BYTES]);
  Ok encoded.

(** [read_row]: the bounded texts of the columns, in column order. *)
Definition read_effect_row (p : EffectId * EffectRow) : result (EffectId * EffectRow) :=
  let text maximum kind value := bounded_text eff_sql maximum kind value in
  _ ← text MAX_EFFECT_IDENTITY_BYTES "Effect identity"%string p.1;
  _ ← text MAX_EFFECT_CAPABILITY_BYTES "Effect capability"%string (ex_capability p.2);
  _ ← text MAX_EFFECT_CAPABILITY_BYTES "Effect operation"%string (ex_operation p.2);
  _ ← text MAX_EFFECT_IDENTITY_BYTES "Effect idempotency key"%string (ex_idempotency_key p.2);
  _ ← text MAX_EFFECT_STATUS_BYTES "Effect status"%string (ex_status p.2);
  _ ← text MAX_EFFECT_JSON_BYTES "Effect aggregate"%string (ex_effect_json p.2);
  Ok p.

Definition decode_effect_row (tenant : option str) (p : EffectId * EffectRow)
    : result EffectSnapshot :=
  let row := p.2 in
  _ ← reject_if (negb (ex_schema_version row =? EFFECT_LEDGER_SCHEMA_VERSION)%Z)
        (eff "Effect {} uses unsupported schema {}" [AStr p.1; ANum (ex_schema_version row)]);
  revision ← u64_try_from (ex_revision row) (eff "invalid Effect revision" []);
  _ ← eff_validate_expected_revision revision;
  created_at_ms ← u64_try_from (ex_created_at_ms row) (eff "invalid Effect creation time" []);
  wire ← ok_or (from_json (ex_effect_json row) : option EffectWire) (eff "decode Effect: {}" []);
  effect ← ok_or (effect_deserialize wire) (eff "decode Effect: {}" []);
  _ ← eff_validate effect;
  _ ← reject_if (negb (revision =? len (ef_transitions effect))%Z
                 || bool_decide (ef_tenant_id effect ≠ tenant)
                 || bool_decide (eo_capability (ef_operation effect) ≠ ex_capability row)
                 || bool_decide (eo_operation (ef_operation effect) ≠ ex_operation row)
                 || bool_decide (ef_idempotency_key effect ≠ ex_idempotency_key row)
                 || negb (ef_created_at_ms effect =? created_at_ms)%Z
                 || bool_decide (status_name (ef_status effect) ≠ ex_status row))
        (eff "Effect SQLite projection differs from aggregate" []);
  Ok {| es_id := p.1; es_tenant_id := tenant; es_revision := revision; es_effect := effect |}.

(** A row the query returned, read and decoded. *)
Definition load_effect_row (tenant : option str) (p : EffectId * EffectRow) : result EffectSnapshot :=
  p ← read_effect_row p; decode_effect_row tenant p.

Definition load_effect_snapshot (effect_id : EffectId) (tenant : option str)
    : M SqliteEffects (option EffectSnapshot) :=
  t ← (select eff_sql : M SqliteEffects EffectTable);
  match t !! effect_key effect_id tenant with
  | None => mret None
  | Some row => snapshot ← lift (load_effect_row tenant (effect_id, row)); mret (Some snapshot)
  end.

(** The columns of the [UNIQUE] constraint. *)
Definition row_coordinate (key : str * EffectId) (row : EffectRow) : str * str * str * str :=
  (key.1, ex_capability row, ex_operation row, ex_idempotency_key row).

(** The row a [SELECT] by the unique columns returns. *)
Definition find_coordinate (t : EffectTable) (c : str * str * str * str)
    : option ((str * EffectId) * EffectRow) :=
  List.find (λ p, bool_decide (row_coordinate p.1 p.2 = c)) (pairs_iter t).

Definition load_by_idempotency (tenant : option str) (request : EffectCreateRequest)
    : M SqliteEffects (option EffectSnapshot) :=
  t ← (select eff_sql : M SqliteEffects EffectTable);
  match find_coordinate t (request_coordinate (tenant_storage_key tenant) request) with
  | None => mret None
  | Some (key, row) => snapshot ← lift (load_effect_row tenant (key.2, row)); mret (Some snapshot)
  end.

(** [INSERT INTO effects]: the constraints of the table, then the new table
    and the number of changed rows. *)
Definition insert_effect (key : str * EffectId) (row : EffectRow) (t : EffectTable)
    : option (EffectTable * Z) :=
  match t !! key, find_coordinate t (row_coordinate key row) with
  | None, None =>
      if (0 <? ex_revision row)%Z && (0 <? ex_created_at_ms row)%Z
      then Some (<[key := row]> t, 1%Z) else None
  | _, _ => None
  end.

Definition sql_eff_create_as (effect_id : EffectId) (request : EffectCreateRequest)
    (applied_at_ms : Z) (authority : AuthorityContext) : M SqliteEffects EffectSnapshot :=
  _ ← lift (validate_effect_access effect_id authority);
  effect ← lift (Effect_new request applied_at_ms authority);
  transaction eff_sql (
    loaded ← load_effect_snapshot effect_id (tenant_id authority);
    match loaded with
    | Some existing =>
        matches ← lift (eff_create_matches (es_effect existing) request authority);
        if (matches : bool) then mret existing else lift (Err (different_content effect_id))
    | None =>
        bound ← load_by_idempotency (tenant_id authority) request;
        match bound with
        | Some existing =>
            matches ← lift (eff_create_matches (es_effect existing) request authority);
            if (matches : bool) then mret existing else lift (Err bound_key)
        | None =>
            encoded ← lift (encode_effect effect);
            created_at_ms ← lift (sql_time (ef_created_at_ms effect));
            s ← (get : M SqliteEffects SqliteEffects);
            u ← lift (ok_or (insert_effect (effect_key effect_id (tenant_id authority))
                   {| ex_schema_version := EFFECT_LEDGER_SCHEMA_VERSION; ex_revision := 1;
                      ex_capability := eo_capability (ef_operation effect);
                      ex_operation := eo_operation (ef_operation effect);
                      ex_idempotency_key := ef_idempotency_key effect;
                      ex_created_at_ms := created_at_ms;
                      ex_status := status_name (ef_status effect);
                      ex_effect_json := encoded |} (rows s))
                   (eff_sql (fmt "constraint failed" [])));
            _ ← store eff_sql u.1;
            _ ← lift (reject_if (negb (u.2 =? 1)%Z)
                        (eff "Effect creation changed an unexpected row count" []));
            mret {| es_id := effect_id; es_tenant_id := tenant_id authority; es_revision := 1;
                    es_effect := effect |}
        end
    end).

Definition sql_eff_load_as (effect_id : EffectId) (authority : AuthorityContext)
    : M SqliteEffects (option EffectSnapshot) :=
  _ ← lift (validate_effect_access effect_id authority);
  load_effect_snapshot effect_id (tenant_id authority).

(** The rows of the paging queries, before their [LIMIT]. *)
Definition select_effects_after (t : EffectTable) (tenant after : str) (status : option str)
    : list (EffectId * EffectRow) :=
  (λ p : (str * str) * EffectRow, (p.1.2, p.2)) <$>
    List.filter (λ p, bool_decide (p.1.1 = tenant) && negb (str_leb p.1.2 after)
      && match status with Some status => bool_decide (ex_status p.2 = status) | None => true end)
      (pairs_iter t).

(** The page query: every row is read, then every row is decoded. *)
Definition select_snapshots (status : option str) (after : str) (fetch : Z)
    (authority : AuthorityContext) : M SqliteEffects (list EffectSnapshot) :=
  t ← (select eff_sql : M SqliteEffects EffectTable);
  rows ← lift (collect read_effect_row (take (Z.to_nat fetch)
            (select_effects_after t (tenant_storage_key (tenant_id authority)) after status)));
  lift (collect (decode_effect_row (tenant_id authority)) rows).

Definition sql_eff_list_as (status : option str) (after : option EffectPageCursor) (limit : Z)
    (authority : AuthorityContext) : M SqliteEffects EffectPage :=
  _ ← lift (validate_list status after limit authority);
  fetch ← lift (ok_or (checked_add usize_max limit 1) (eff "Effect page limit overflow" []));
  _ ← lift (i64_try_from fetch (eff "Effect page limit exceeds SQLite" []));
  candidates ← select_snapshots status (default [] (pc_effect_id <$> after)) fetch authority;
  mret (page_from_candidates candidates limit).

Definition sql_eff_scan_due_as (at_ms : Z) (after_effect_id : option EffectId)
    (scan_limit : Z) (authority : AuthorityContext) : M SqliteEffects EffectDueScanPage :=
  _ ← lift (eff_validate_due_scan at_ms after_effect_id scan_limit authority);
  fetch ← lift (ok_or (checked_add usize_max scan_limit 1) (eff "Effect scan limit overflow" []));
  _ ← lift (i64_try_from fetch (eff "Effect scan limit exceeds SQLite" []));
  visited ← select_snapshots None (default [] after_effect_id) fetch authority;
  mret (due_page_from_scan visited scan_limit at_ms).

(** [UPDATE .. WHERE key AND revision = expected]. *)
Definition update_effect (key : str * EffectId) (expected next : Z) (status json : str)
    (t : EffectTable) : EffectTable * Z :=
  match t !! key with
  | Some row =>
      if (ex_revision row =? expected)%Z
      then (<[key := {| ex_schema_version := ex_schema_version row; ex_revision := next;
                        ex_capability := ex_capability row; ex_operation := ex_operation row;
                        ex_idempotency_key := ex_idempotency_key row;
                        ex_created_at_ms := ex_created_at_ms row; ex_status := status;
                        ex_effect_json := json |}]> t, 1%Z)
      else (t, 0%Z)
  | None => (t, 0%Z)
  end.

(** The body of the transaction of [apply_as]. *)
Definition eff_apply_body (effect_id : EffectId) (expected_revision : Z)
    (command : EffectCommand) (applied_at_ms : Z) (authority : AuthorityContext)
    : M SqliteEffects EffectCommandResult :=
  loaded ← load_effect_snapshot effect_id (tenant_id authority);
  current ← lift (ok_or loaded (missing_effect effect_id));
  recognized ← lift (eff_recognizes_command (es_effect current) command authority);
  if (recognized : bool)
  then mret {| ecr_snapshot := current; ecr_outcome := EffDuplicate |}
  else
    _ ← lift (reject_if (negb (es_revision current =? expected_revision)%Z)
                (EffectConflict effect_id expected_revision (es_revision current)));
    p ← lift (eff_apply_copy (es_effect current) command applied_at_ms authority);
    revision ← lift (ok_or (checked_add u64_max (es_revision current) 1)
                       (eff "Effect revision overflow" []));
    encoded ← lift (encode_effect p.1);
    next_sql ← lift (eff_sql_revision revision);
    current_sql ← lift (eff_sql_revision (es_revision current));
    s ← (get : M SqliteEffects SqliteEffects);
    let u := update_effect (effect_key effect_id (tenant_id authority)) current_sql next_sql
               (status_name (ef_status p.1)) encoded (rows s) in
    _ ← store eff_sql u.1;
    _ ← lift (reject_if (negb (u.2 =? 1)%Z)
                (eff "Effect atomic update changed an unexpected row count" []));
    mret {| ecr_snapshot := {| es_id := effect_id; es_tenant_id := es_tenant_id current;
                               es_revision := revision; es_effect := p.1 |};
            ecr_outcome := p.2 |}.

Definition sql_eff_apply_as (effect_id : EffectId) (expected_revision : Z)
    (command : EffectCommand) (applied_at_ms : Z) (authority : AuthorityContext)
    : M SqliteEffects EffectCommandResult :=
  _ ← lift (validate_effect_access effect_id authority);
  _ ← lift (eff_validate_expected_revision expected_revision);
  transaction eff_sql (eff_apply_body effect_id expected_revision command applied_at_ms authority).

#[global] Instance SqliteEffectCoordinator : EffectCoordinator SqliteEffects := {|
  eff_create_as := sql_eff_create_as;
  eff_load_as := sql_eff_load_as;
  eff_list_as := sql_eff_list_as;
  eff_scan_due_as := sql_eff_scan_due_as;
  eff_apply_as := sql_eff_apply_as;
|}.
End coordinator.

(** * The tables of the database file *)

Record EffectDatabase := {
  edb_meta : option (list (Z * Z));
  edb_effects : option EffectTable;
}.

Definition invalid_effect_row (p : (str * EffectId) * EffectRow) : bool :=
  let out_of maximum s := (str_len s =? 0)%Z || (maximum <? str_len s)%Z in
  negb (ex_schema_version p.2 =? EFFECT_LEDGER_SCHEMA_VERSION)%Z || (ex_revision p.2 <=? 0)%Z
  || (128 <? str_len p.1.1)%Z
  || out_of MAX_EFFECT_IDENTITY_BYTES p.1.2
  || out_of MAX_EFFECT_CAPABILITY_BYTES (ex_capability p.2)
  || out_of MAX_EFFECT_CAPABILITY_BYTES (ex_operation p.2)
  || out_of MAX_EFFECT_IDENTITY_BYTES (ex_idempotency_key p.2)
  || (ex_created_at_ms p.2 <=? 0)%Z
  || negb (bool_decide (ex_status p.2 ∈ status_names))
  || (MAX_EFFECT_JSON_BYTES <? str_len (ex_effect_json p.2))%Z.

Definition eff_validate_store (meta : list (Z * Z)) (t : EffectTable)
    : M (Connection EffectDatabase) () :=
  _ ← sql_call eff_sql;
  _ ← lift (reject_if (bool_decide (meta ≠ [(1, EFFECT_LEDGER_SCHEMA_VERSION)%Z]))
              (eff "SQLite Effect Ledger schema is unknown or malformed" []));
  _ ← sql_call eff_sql;
  lift (reject_if (negb (len (List.filter invalid_effect_row (pairs_iter t)) =? 0)%Z)
          (eff "SQLite Effect Ledger contains invalid row metadata" [])).

(** The two [table_exists] queries. *)
Definition eff_tables_exist : M (Connection EffectDatabase) EffectDatabase :=
  _ ← sql_call eff_sql;
  select eff_sql.

Definition partial_ledger : HarnessError := eff "SQLite Effect Ledger is partial" [].

Definition eff_initialize_or_validate : M (Connection EffectDatabase) () :=
  db ← eff_tables_exist;
  match edb_meta db, edb_effects db with
  | None, None =>
      transaction eff_sql (store eff_sql
        {| edb_meta := Some [(1, EFFECT_LEDGER_SCHEMA_VERSION)%Z]; edb_effects := Some ∅ |})
  | Some meta, Some t => eff_validate_store meta t
  | _, _ => lift (Err partial_ledger)
  end.

Definition eff_validate_existing_store : M (Connection EffectDatabase) () :=
  db ← eff_tables_exist;
  match edb_meta db, edb_effects db with
  | None, None => mret ()
  | Some meta, Some t => eff_validate_store meta t
  | _, _ => lift (Err partial_ledger)
  end.

(** The busy timeout, [PRAGMA journal_mode = WAL], which reports the [mode]
    it selected, and the last batch of settings. *)
Definition eff_configure_connection (mode : str) : M (Connection EffectDatabase) () :=
  _ ← sql_call eff_sql;
  _ ← sql_call eff_sql;
  _ ← lift (reject_if (negb (eq_ignore_ascii_case mode (lit "wal")))
              (eff "SQLite refused WAL mode and selected {}" [AStr mode]));
  sql_call eff_sql.

(** [SqliteEffectCoordinator::open] and [validate_existing]. *)
Definition eff_sqlite_open (mode : str) : M (Connection EffectDatabase) SqliteEffects :=
  _ ← sql_call eff_sql;
  _ ← eff_configure_connection mode;
  _ ← eff_initialize_or_validate;
  c ← (get : M (Connection EffectDatabase) (Connection EffectDatabase));
  mret ({| rows := default ∅ (edb_effects (rows c)); faults := faults c |} : SqliteEffects).

Definition eff_validate_existing (path_exists : bool) : M (Connection EffectDatabase) () :=
  if path_exists
  then _ ← open_read_only eff_sql; eff_validate_existing_store
  else mret ().

(** * The page check of the consumers, src/src/effect/page.rs *)

Inductive EffectPageState := StatePending | StateUnknown.

Definition page_state_name (s : EffectPageState) : str :=
  match s with StatePending => lit "pending" | StateUnknown => lit "unknown" end.

Definition page_state_matches (s : EffectPageState) (status : EffectStatus) : bool :=
  match s, status with
  | StatePending, EsPending _ _ => true
  | StateUnknown, EsUnknown _ _ _ => true
  | _, _ => false
  end.

Section page.
Context `{!Serialize Json, !Serialize (AttributedCommand EffectCreateRequest),
          !Serialize (AttributedCommand EffectCommand), !Serialize EffectCommand,
          !Serialize EffectWire, sha : !Sha256}.

Definition page_error (consumer : string) (s : EffectPageState) (detail : string) : HarnessError :=
  eff "{} {} page {}" [ALit consumer; AStr (page_state_name s); ALit detail].

(** The loop over the snapshots; [previous] is the last identity seen. *)
Fixpoint validate_page_effects (consumer : string) (authority : AuthorityContext)
    (expected : EffectPageState) (previous : option EffectId) (l : list EffectSnapshot)
    : result () :=
  match l with
  | [] => Ok ()
  | s :: l =>
      _ ← eff_validate (es_effect s);
      _ ← reject_if (bool_decide (es_tenant_id s ≠ tenant_id authority)
                     || bool_decide (ef_tenant_id (es_effect s) ≠ tenant_id authority)
                     || negb (es_revision s =? len (ef_transitions (es_effect s)))%Z
                     || negb (page_state_matches expected (ef_status (es_effect s))))
            (page_error consumer expected "projection is invalid");
      _ ← reject_if (match previous with Some prior => str_leb (es_id s) prior | None => false end)
            (page_error consumer expected "identities are not ordered");
      validate_page_effects consumer authority expected (Some (es_id s)) l
  end.

Definition validate_effect_page (consumer : string) (page : EffectPage)
    (after : option EffectPageCursor) (limit : Z) (authority : AuthorityContext)
    (expected : EffectPageState) : result () :=
  _ ← reject_if (limit <? len (pg_effects page))%Z
        (page_error consumer expected "exceeds scan limit");
  let expected_cursor := (λ s, {| pc_effect_id := es_id s |}) <$> vec_last (pg_effects page) in
  _ ← reject_if (bool_decide (pg_next_cursor page ≠ expected_cursor)
                 || (pg_has_more page && negb (len (pg_effects page) =? limit)%Z))
        (page_error consumer expected "has inconsistent continuation");
  validate_page_effects consumer authority expected (pc_effect_id <$> after) (pg_effects page).
End page.
