(* ===== verification/EffectStores.v ===== *)
(** The contract of an Effect Coordinator, and the proof that the in-memory
    and the SQLite coordinator of src/src/effect/coordinator.rs meet it, the
    latter for every schedule of statement failures. *)

From Stdlib Require Import ZArith Lia.
From stdpp Require Import sorting base tactics list gmap relations numbers strings option.
From stdpp Require Import list.
From S2P Require Import Prelude Kernel Digest Json Sqlite Pairs Effect EffectSafety EffectCoordinator.

(** The idempotency tuple of a stored Effect. *)
Definition coordinate (key : str * EffectId) (sn : EffectSnapshot) : str * str * str * str :=
  idempotency_coordinate key.1 (ef_operation (es_effect sn)) (ef_idempotency_key (es_effect sn)).

(** Each idempotency tuple belongs to at most one stored Effect. *)
Definition coords_unique (v : gmap (str * EffectId) EffectSnapshot) : Prop :=
  ∀ k k' sn sn', v !! k = Some sn → v !! k' = Some sn' →
    coordinate k sn = coordinate k' sn' → k = k'.

Lemma coords_unique_update v k sn sn' :
  v !! k = Some sn → coordinate k sn' = coordinate k sn → coords_unique v →
  coords_unique (<[k := sn']> v).
Proof.
  intros Hk E Hu k1 k2 s1 s2. rewrite !lookup_insert_Some.
  intros [[<- <-]|[N1 H1]] [[<- <-]|[N2 H2]] Ec; [done|..|by eapply Hu].
  - eapply Hu; [exact Hk|exact H2|congruence].
  - eapply Hu; [exact H1|exact Hk|congruence].
Qed.

Lemma coords_unique_insert v k sn :
  (∀ k' sn', v !! k' = Some sn' → coordinate k' sn' ≠ coordinate k sn) → coords_unique v →
  coords_unique (<[k := sn]> v).
Proof.
  intros Hn Hu k1 k2 s1 s2. rewrite !lookup_insert_Some.
  intros [[<- <-]|[N1 H1]] [[<- <-]|[N2 H2]] Ec; [done|..|by eapply Hu].
  - by destruct (Hn _ _ H2).
  - by destruct (Hn _ _ H1).
Qed.

Definition first_effect (id : EffectId) (a : AuthorityContext) (e : Effect) : EffectSnapshot :=
  {| es_id := id; es_tenant_id := tenant_id a; es_revision := 1; es_effect := e |}.

Definition next_effect_snapshot (cur : EffectSnapshot) (e : Effect) : EffectSnapshot :=
  {| es_id := es_id cur; es_tenant_id := es_tenant_id cur; es_revision := es_revision cur + 1;
     es_effect := e |}.

Section laws.
Context `{!Serialize Json, !Serialize (AttributedCommand EffectCreateRequest),
          !Serialize (AttributedCommand EffectCommand), !Serialize EffectCommand,
          !Serialize EffectWire, sha : !Sha256}.

(** A stored Effect: valid, and charged for its encoding. *)
Definition effect_ok (e : Effect) : Prop :=
  eff_validate e = Ok () ∧ eff_encoded_size e = Ok (ef_charge e).

Definition effect_stored_ok (key : str * EffectId) (sn : EffectSnapshot) : Prop :=
  es_id sn = key.2 ∧ es_tenant_id sn = key_tenant key.1 ∧
  ef_tenant_id (es_effect sn) = key_tenant key.1 ∧ effect_ok (es_effect sn) ∧
  es_revision sn = len (ef_transitions (es_effect sn)) ∧
  key.2 ≠ [] ∧ (str_len key.2 ≤ MAX_EFFECT_IDENTITY_BYTES)%Z.

Class EffectLaws (W : Type) `{!EffectCoordinator W} := {
  ec_inv : W → Prop;
  ec_view : W → gmap (str * EffectId) EffectSnapshot;
  ec_stored s key sn : ec_inv s → ec_view s !! key = Some sn → effect_stored_ok key sn;
  ec_unique s : ec_inv s → coords_unique (ec_view s);
  ec_create_law id req now a s s' r :
    ec_inv s → eff_create_as id req now a s = (s', r) → ec_inv s' ∧
    match r with
    | Ok sn => validate_effect_access id a = Ok () ∧
        ((∃ id', ec_view s !! effect_key id' (tenant_id a) = Some sn ∧
            (id' = id ∨ ec_view s !! effect_key id (tenant_id a) = None ∧
               coordinate (effect_key id' (tenant_id a)) sn
               = request_coordinate (tenant_storage_key (tenant_id a)) req) ∧
            eff_create_matches (es_effect sn) req a = Ok true ∧ ec_view s' = ec_view s) ∨
         (ec_view s !! effect_key id (tenant_id a) = None ∧
          (∀ key sn', ec_view s !! key = Some sn' →
             coordinate key sn' ≠ request_coordinate (tenant_storage_key (tenant_id a)) req) ∧
          ∃ e, Effect_new req now a = Ok e ∧ sn = first_effect id a e ∧
            ec_view s' = <[effect_key id (tenant_id a) := sn]> (ec_view s)))
    | Err _ => ec_view s' = ec_view s
    end;
  ec_load_law id a s s' r :
    ec_inv s → eff_load_as id a s = (s', r) →
    ec_inv s' ∧ ec_view s' = ec_view s ∧
    ∀ o, r = Ok o → validate_effect_access id a = Ok () ∧
      o = ec_view s !! effect_key id (tenant_id a);
  ec_list_law status after limit a s s' r :
    ec_inv s → eff_list_as status after limit a s = (s', r) →
    ec_inv s' ∧ ec_view s' = ec_view s ∧
    ∀ page, r = Ok page → validate_list status after limit a = Ok () ∧
      page = page_from_candidates (take (Z.to_nat (limit + 1)) (List.filter (has_status status)
        (values_after (ec_view s) (tenant_storage_key (tenant_id a)) (pc_effect_id <$> after)))) limit;
  ec_scan_law at_ms after limit a s s' r :
    ec_inv s → eff_scan_due_as at_ms after limit a s = (s', r) →
    ec_inv s' ∧ ec_view s' = ec_view s ∧
    ∀ page, r = Ok page → eff_validate_due_scan at_ms after limit a = Ok () ∧
      page = due_page_from_scan (take (Z.to_nat (limit + 1))
        (values_after (ec_view s) (tenant_storage_key (tenant_id a)) after)) limit at_ms;
  ec_apply_law id rev c now a s s' r :
    ec_inv s → eff_apply_as id rev c now a s = (s', r) → ec_inv s' ∧
    match r with
    | Ok res => validate_effect_access id a = Ok () ∧
        ∃ cur, ec_view s !! effect_key id (tenant_id a) = Some cur ∧
        ((eff_recognizes_command (es_effect cur) c a = Ok true ∧ ec_view s' = ec_view s ∧
          res = {| ecr_snapshot := cur; ecr_outcome := EffDuplicate |}) ∨
         (es_revision cur = rev ∧ ∃ e, eff_apply c now a (es_effect cur) = (e, Ok EffApplied) ∧
          res = {| ecr_snapshot := next_effect_snapshot cur e; ecr_outcome := EffApplied |} ∧
          ec_view s' = <[effect_key id (tenant_id a) := next_effect_snapshot cur e]> (ec_view s)))
    | Err _ => ec_view s' = ec_view s
    end;
}.

(** ** Effects the domain methods produce can be stored *)

Lemma encoded_with_charge e n : eff_encoded_size e = Ok n → eff_encoded_size (eff_with_charge e n) = Ok n.
Proof. done. Qed.

Lemma new_effect_ok req now a e :
  Effect_new req now a = Ok e →
  effect_ok e ∧ ef_tenant_id e = tenant_id a ∧ ef_operation e = er_operation req ∧
  ef_idempotency_key e = er_idempotency_key req ∧ len (ef_transitions e) = 1%Z ∧
  ef_created_at_ms e = now ∧ ef_status e = EsPending 1 (er_not_before_ms req).
Proof. unfold Effect_new. intros Hn. inv_ok. by subst e. Qed.

Lemma apply_effect_ok c now a e e' :
  eff_apply c now a e = (e', Ok EffApplied) →
  effect_ok e' ∧ ef_tenant_id e' = ef_tenant_id e ∧ ef_operation e' = ef_operation e ∧
  ef_idempotency_key e' = ef_idempotency_key e ∧ ef_created_at_ms e' = ef_created_at_ms e ∧
  len (ef_transitions e') = (len (ef_transitions e) + 1)%Z.
Proof.
  intros (d & p & n & _ & Hv & He & ->)%eff_apply_applied. split; [done|]. split_and!; try done.
  simpl. unfold len. rewrite length_app. simpl. lia.
Qed.

Lemma eff_apply_copy_applied c now a e p :
  eff_apply_copy e c now a = Ok p → eff_recognizes_command e c a = Ok false →
  eff_apply c now a e = (p.1, Ok EffApplied) ∧ p.2 = EffApplied.
Proof.
  unfold eff_apply_copy. intros Ha Hr. destruct (eff_apply c now a e) as [e' [[]|x]] eqn:E; inv_ok; subst.
  - done.
  - exfalso. unfold eff_apply in E. inv_M.
    match goal with b : bool |- _ => destruct b; [congruence|] end. by inv_M.
Qed.

Lemma effect_access_key id a :
  validate_effect_access id a = Ok () →
  key_tenant (tenant_storage_key (tenant_id a)) = tenant_id a ∧ id ≠ [] ∧
  (str_len id ≤ MAX_EFFECT_IDENTITY_BYTES)%Z.
Proof.
  unfold validate_effect_access, eff_validate_identity. intros Hv. inv_ok. bool_hyps.
  split_and!; [by eapply key_tenant_of| |done]. by intros ->.
Qed.

Lemma stored_first_effect id req now a e :
  validate_effect_access id a = Ok () → Effect_new req now a = Ok e →
  effect_stored_ok (effect_key id (tenant_id a)) (first_effect id a e).
Proof.
  intros (K1 & K2 & K3)%effect_access_key (H1 & H2 & _ & _ & H3 & _)%new_effect_ok.
  split_and!; simpl; congruence.
Qed.

Lemma stored_next_effect key cur c now a e :
  effect_stored_ok key cur → eff_apply c now a (es_effect cur) = (e, Ok EffApplied) →
  effect_stored_ok key (next_effect_snapshot cur e) ∧
  coordinate key (next_effect_snapshot cur e) = coordinate key cur.
Proof.
  intros (K1 & K2 & K3 & K4 & K5 & K6 & K7) (H1 & H2 & H3 & H4 & H5 & H6)%apply_effect_ok.
  split; [split_and!; simpl; congruence|]. unfold coordinate. simpl. by rewrite H3, H4.
Qed.

Lemma validate_list_limit status after limit a :
  validate_list status after limit a = Ok () → (1 ≤ limit ≤ MAX_EFFECT_PAGE)%Z.
Proof. unfold validate_list, in_range. intros Hv. inv_ok. by bool_hyps. Qed.

Lemma due_scan_limit at_ms after limit a :
  eff_validate_due_scan at_ms after limit a = Ok () → (1 ≤ limit ≤ MAX_EFFECT_PAGE)%Z.
Proof. unfold eff_validate_due_scan, in_range. intros Hv. inv_ok. by bool_hyps. Qed.

Lemma one_more_page limit : (1 ≤ limit ≤ MAX_EFFECT_PAGE)%Z → one_more limit = Z.to_nat (limit + 1).
Proof.
  unfold one_more, saturating_add, MAX_EFFECT_PAGE, usize_max, u64_max. intros H. f_equal. lia.
Qed.
End laws.

(** * The in-memory ledger *)

Section memory.
Context `{!Serialize Json, !Serialize (AttributedCommand EffectCreateRequest),
          !Serialize (AttributedCommand EffectCommand), !Serialize EffectCommand,
          !Serialize EffectWire, sha : !Sha256}.

(** The idempotency index lists exactly the stored tuples. *)
Definition index_exact (s : MemoryEffects) : Prop :=
  ∀ c id, me_idempotency s !! c = Some id ↔
    ∃ sn, me_effects s !! (c.1.1.1, id) = Some sn ∧ coordinate (c.1.1.1, id) sn = c.

Definition mem_effects_inv (s : MemoryEffects) : Prop :=
  map_Forall effect_stored_ok (me_effects s) ∧ index_exact s.

Lemma coordinate_tenant key sn : (coordinate key sn).1.1.1 = key.1.
Proof. done. Qed.

Lemma index_unique s : index_exact s → coords_unique (me_effects s).
Proof.
  intros Hx k k' sn sn' Hk Hk' E. destruct k as [t i], k' as [t' i'].
  assert (t = t') as <- by exact (f_equal (λ c, c.1.1.1) E).
  assert (me_idempotency s !! coordinate (t, i) sn = Some i) as H1 by (apply Hx; eauto).
  assert (me_idempotency s !! coordinate (t, i) sn = Some i') as H2 by (apply Hx; eauto).
  congruence.
Qed.

Lemma index_insert s key sn :
  me_effects s !! key = None → me_idempotency s !! coordinate key sn = None → index_exact s →
  index_exact {| me_effects := <[key := sn]> (me_effects s);
                 me_idempotency := <[coordinate key sn := key.2]> (me_idempotency s) |}.
Proof.
  intros Hk Hc Hx c id. simpl. destruct key as [t i]. rewrite lookup_insert_Some. split.
  - intros [[<- <-]|[Hne Hi]].
    + exists sn. by rewrite lookup_insert_eq.
    + apply Hx in Hi as (sn' & Hsn & E). exists sn'. split; [|done].
      rewrite lookup_insert_ne; [done|]. intros [= ? ->]. simplify_eq.
  - intros (sn' & Hsn & E). apply lookup_insert_Some in Hsn as [[[= Et <-] <-]|[Hne Hsn]].
    + left. simpl. split; [|done]. rewrite <-E. by rewrite <-Et.
    + right. split; [|by apply Hx; eauto]. intros <-.
      assert (me_idempotency s !! coordinate (t, i) sn = Some id) by (apply Hx; eauto). congruence.
Qed.

Lemma index_update s key sn sn' :
  me_effects s !! key = Some sn → coordinate key sn' = coordinate key sn → index_exact s →
  index_exact {| me_effects := <[key := sn']> (me_effects s); me_idempotency := me_idempotency s |}.
Proof.
  intros Hk E Hx c id. simpl. rewrite (Hx c id). destruct (decide ((c.1.1.1, id) = key)) as [<-|Hne].
  - setoid_rewrite lookup_insert_eq. split; intros (x & Hx' & Hc).
    + rewrite Hk in Hx'. injection Hx' as <-. exists sn'. split; [done|]. by rewrite E.
    + injection Hx' as <-. exists sn. split; [done|]. by rewrite <-E.
  - by setoid_rewrite lookup_insert_ne.
Qed.

Lemma mem_eff_create_cases id req now a (s s' : MemoryEffects) sn :
  mem_eff_create_as id req now a s = (s', Ok sn) →
  validate_effect_access id a = Ok () ∧
  ((∃ id', me_effects s !! effect_key id' (tenant_id a) = Some sn ∧
      (id' = id ∨ me_effects s !! effect_key id (tenant_id a) = None ∧
         me_idempotency s !! request_coordinate (tenant_storage_key (tenant_id a)) req = Some id') ∧
      eff_create_matches (es_effect sn) req a = Ok true ∧ s' = s) ∨
   (me_effects s !! effect_key id (tenant_id a) = None ∧
    me_idempotency s !! request_coordinate (tenant_storage_key (tenant_id a)) req = None ∧
    ∃ e, Effect_new req now a = Ok e ∧ sn = first_effect id a e ∧
      s' = {| me_effects := <[effect_key id (tenant_id a) := sn]> (me_effects s);
              me_idempotency := <[request_coordinate (tenant_storage_key (tenant_id a)) req := id]>
                (me_idempotency s) |})).
Proof.
  unfold mem_eff_create_as. intros Hc. inv_M. inv_ok. split; [done|].
  destruct (me_effects _ !! effect_key id _) as [ex|] eqn:E.
  - left. inv_M. match goal with b : bool |- _ => destruct b end; [|by inv_M]. inv_M.
    exists id. split_and!; try done. by left.
  - destruct (me_idempotency _ !! _) as [id'|] eqn:Ei.
    + left. inv_M. inv_ok. match goal with b : bool |- _ => destruct b end; [|by inv_M]. inv_M.
      exists id'. split_and!; try done. by right.
    + right. inv_M. split_and!; try done. by eexists.
Qed.

#[global] Program Instance MemoryEffectLaws : EffectLaws MemoryEffects := {|
  ec_inv := mem_effects_inv;
  ec_view s := me_effects s;
|}.
Next Obligation. intros s key sn [Hi _] Hk. by apply Hi. Qed.
Next Obligation. intros s [_ Hx]. by apply index_unique. Qed.
Next Obligation.
  intros id req now a s s' [sn|e] [Hi Hx] Hc; simpl in Hc.
  - apply mem_eff_create_cases in Hc as [Hv [(id' & Hid & Hor & Hm & ->)|(Hn & Hni & e & Hnew & -> & ->)]].
    + split; [done|]. split; [done|]. left. exists id'. split_and!; try done.
      destruct Hor as [->|[Hn Hid']]; [by left|right]. split; [done|].
      apply Hx in Hid' as (sn' & Hsn & E). simpl in Hsn, E. unfold effect_key in *. congruence.
    + pose proof (stored_first_effect _ _ _ _ _ Hv Hnew) as Hst.
      assert (coordinate (effect_key id (tenant_id a)) (first_effect id a e)
        = request_coordinate (tenant_storage_key (tenant_id a)) req) as Ec.
      { apply new_effect_ok in Hnew as (_ & _ & H1 & H2 & _). unfold coordinate, request_coordinate.
        simpl. by rewrite H1, H2. }
      split; [split|].
      * by apply map_Forall_insert_2.
      * rewrite <-Ec. apply (index_insert s (effect_key id (tenant_id a))); [done|by rewrite Ec|done].
      * split; [done|]. right. split_and!; [done| |eauto]. intros key sn' Hk E.
        assert (me_idempotency s !! coordinate key sn' = Some key.2) as Hk'
          by (apply Hx; exists sn'; by destruct key). congruence.
  - unfold mem_eff_create_as in Hc. inv_M_err; try done.
    destruct (me_effects _ !! effect_key id _) as [ex|] eqn:E; [|destruct (me_idempotency _ !! _) as [id'|]];
      inv_M_err; try done; match goal with b : bool |- _ => destruct b end; inv_M_err; done.
Qed.
Next Obligation.
  intros id a s s' [o|e] Hi Hl; simpl in Hl; unfold mem_eff_load_as in Hl.
  - inv_M. inv_ok. split_and!; [done|done|]. by intros o' [= <-].
  - inv_M_err; done.
Qed.
Next Obligation.
  intros status after limit a s s' [p|e] Hi Hl; simpl in Hl; unfold mem_eff_list_as in Hl.
  - inv_M. inv_ok. split_and!; [done|done|]. intros p' [= <-]. split; [done|].
    match goal with H : validate_list _ _ _ _ = _ |- _ => apply validate_list_limit in H end.
    by rewrite one_more_page.
  - inv_M_err; done.
Qed.
Next Obligation.
  intros at_ms after limit a s s' [p|e] Hi Hl; simpl in Hl; unfold mem_eff_scan_due_as in Hl.
  - inv_M. inv_ok. split_and!; [done|done|]. intros p' [= <-]. split; [done|].
    match goal with H : eff_validate_due_scan _ _ _ _ = _ |- _ => apply due_scan_limit in H end.
    by rewrite one_more_page.
  - inv_M_err; done.
Qed.
Next Obligation.
  intros id rev c now a s s' r [Hi Hx] Ha; simpl in Ha; unfold mem_eff_apply_as in Ha.
  destruct r as [res|e].
  - inv_M. match goal with b : bool |- _ => destruct b end; inv_M; inv_ok.
    { split; [done|]. split; [done|]. eexists. split; [done|]. by left. }
    bool_hyps.
    match goal with H : checked_add _ _ _ = _ |- _ => apply checked_add_Some in H as [-> _] end.
    match goal with H : eff_apply_copy _ _ _ _ = Ok _ |- _ =>
      apply eff_apply_copy_applied in H as [Hap ->]; [|done] end.
    match goal with H : _ !! _ = Some ?cur |- _ => rename cur into sn; rename H into Hcur end.
    destruct (stored_next_effect _ _ _ _ _ _ (Hi _ _ Hcur) Hap) as [Hst Ec].
    assert (id = es_id sn) as -> by (by destruct (Hi _ _ Hcur) as [-> _]).
    split; [split|split; [done|]; exists sn; split; [done|]; right; split; [done|]; by eauto].
    + by apply map_Forall_insert_2.
    + by eapply index_update.
  - inv_M_err; try done. match goal with b : bool |- _ => destruct b end; inv_M_err; done.
Qed.
End memory.

(** * The SQLite ledger *)

Section sqlite.
Context `{!Serialize Json, !Serialize (AttributedCommand EffectCreateRequest),
          !Serialize (AttributedCommand EffectCommand), !Serialize EffectCommand,
          !Serialize EffectWire, !Deserialize EffectWire, !Codec EffectWire, sha : !Sha256}.

(** ** The codec of stored rows *)

Lemma effect_deserialize_wire e :
  effect_ok e → effect_deserialize (effect_wire e) = Some e.
Proof.
  intros [Hv He]. destruct e as [tn o k i d c st ts n]. unfold effect_deserialize. simpl.
  change (eff_validate _) with (eff_validate {| ef_tenant_id := tn; ef_operation := o;
    ef_idempotency_key := k; ef_input := i; ef_input_sha256 := d; ef_created_at_ms := c;
    ef_status := st; ef_transitions := ts; ef_charge := n |}).
  change (eff_encoded_size _) with (eff_encoded_size {| ef_tenant_id := tn; ef_operation := o;
    ef_idempotency_key := k; ef_input := i; ef_input_sha256 := d; ef_created_at_ms := c;
    ef_status := st; ef_transitions := ts; ef_charge := n |}).
  rewrite Hv. simpl. by rewrite He.
Qed.

(** The row that stores an Effect. *)
Definition row_of (e : Effect) (revision : Z) (json : str) : EffectRow :=
  {| ex_schema_version := EFFECT_LEDGER_SCHEMA_VERSION; ex_revision := revision;
     ex_capability := eo_capability (ef_operation e); ex_operation := eo_operation (ef_operation e);
     ex_idempotency_key := ef_idempotency_key e; ex_created_at_ms := ef_created_at_ms e;
     ex_status := status_name (ef_status e); ex_effect_json := json |}.

(** The columns agree with the decoded Effect. *)
Record row_matches (tenant : option str) (id : EffectId) (row : EffectRow) (sn : EffectSnapshot)
    : Prop := {
  rm_id : es_id sn = id;
  rm_tenant : es_tenant_id sn = tenant;
  rm_row : row = row_of (es_effect sn) (es_revision sn) (ex_effect_json row);
  rm_created : (0 ≤ ef_created_at_ms (es_effect sn))%Z;
  rm_read : read_effect_row (id, row) = Ok (id, row);
  rm_decode : decode_effect_row tenant (id, row) = Ok sn;
}.

Lemma load_effect_row_ok tenant id row sn :
  load_effect_row tenant (id, row) = Ok sn → row_matches tenant id row sn.
Proof.
  unfold load_effect_row. intros Hl. inv_ok.
  assert (a = (id, row)) as ->
    by (match goal with H : read_effect_row _ = _ |- _ => unfold read_effect_row in H; inv_ok; done end).
  pose proof Hl as Hd. unfold decode_effect_row in Hl. inv_ok. bool_hyps. subst sn. simpl in *.
  repeat match goal with
  | H : ¬ (_ ≠ _) |- _ => apply dec_stable in H
  | H : u64_try_from _ _ = _ |- _ => apply u64_try_from_ok in H as [-> ?]
  end.
  split; simpl; try done; [|congruence]. destruct row; unfold row_of; simpl in *. congruence.
Qed.

Lemma effect_text_bounds e :
  eff_validate e = Ok () →
  (str_len (eo_capability (ef_operation e)) ≤ MAX_EFFECT_CAPABILITY_BYTES)%Z ∧
  (str_len (eo_operation (ef_operation e)) ≤ MAX_EFFECT_CAPABILITY_BYTES)%Z ∧
  (str_len (ef_idempotency_key e) ≤ MAX_EFFECT_IDENTITY_BYTES)%Z ∧
  (str_len (status_name (ef_status e)) ≤ MAX_EFFECT_STATUS_BYTES)%Z.
Proof.
  intros [y [(_ & Ho & Hk & _) _ _ _]]%eff_validate_iff. unfold validate_operation in Ho. inv_ok.
  repeat match goal with H : validate_capability_name _ _ = _ |- _ =>
    apply validate_capability_name_ok in H; unfold capability_name_valid in H end.
  unfold eff_validate_identity in Hk. inv_ok. bool_hyps.
  unfold MAX_EFFECT_CAPABILITY_BYTES. split_and!; try lia. by destruct (ef_status e).
Qed.

Lemma load_row_encoded tenant id e rev json :
  effect_ok e → encode_effect e = Ok json → rev = len (ef_transitions e) →
  ef_tenant_id e = tenant → (0 ≤ ef_created_at_ms e)%Z → (str_len id ≤ MAX_EFFECT_IDENTITY_BYTES)%Z →
  load_effect_row tenant (id, row_of e rev json)
  = Ok {| es_id := id; es_tenant_id := tenant; es_revision := rev; es_effect := e |}.
Proof.
  intros Hok He Hrev Htn Hc Hid. destruct (effect_text_bounds e (proj1 Hok)) as (B1 & B2 & B3 & B4).
  assert (1 ≤ rev)%Z as Hr.
  { destruct Hok as [Hv _]. apply eff_validate_iff in Hv as [y Hy]. pose proof (ve_length _ _ Hy). lia. }
  unfold encode_effect in He. inv_ok. bool_hyps. subst json.
  unfold load_effect_row, read_effect_row, bounded_text. simpl.
  rewrite !(proj2 (Z.ltb_ge _ _)) by done. simpl. unfold decode_effect_row. simpl.
  unfold u64_try_from, eff_validate_expected_revision.
  rewrite (proj2 (Z.leb_le 0 rev)) by lia. simpl. rewrite (proj2 (Z.eqb_neq rev 0)) by lia. simpl.
  rewrite (proj2 (Z.leb_le 0 _)) by done. simpl.
  match goal with H : to_json _ = Some _ |- _ => rewrite (codec_roundtrip _ _ H) end. simpl.
  rewrite (effect_deserialize_wire e Hok). simpl. rewrite (proj1 Hok). simpl.
  rewrite Htn, <-Hrev, !Z.eqb_refl, !bool_decide_eq_false_2 by (intros Hn; by apply Hn). done.
Qed.

(** ** The view of a table *)

Definition effect_row_view (key : str * EffectId) (row : EffectRow) : option EffectSnapshot :=
  match load_effect_row (key_tenant key.1) (key.2, row) with Ok sn => Some sn | Err _ => None end.

Definition effect_row_ok (key : str * EffectId) (row : EffectRow) : Prop :=
  ∃ sn, effect_row_view key row = Some sn ∧ effect_stored_ok key sn.

Definition sql_effects_view (s : SqliteEffects) : gmap (str * EffectId) EffectSnapshot :=
  map_imap effect_row_view (rows s).
Definition sql_effects_inv (s : SqliteEffects) : Prop :=
  map_Forall effect_row_ok (rows s) ∧ coords_unique (sql_effects_view s).

Lemma effect_row_view_Some key row sn :
  effect_row_view key row = Some sn ↔ load_effect_row (key_tenant key.1) (key.2, row) = Ok sn.
Proof. unfold effect_row_view. destruct (load_effect_row _ _); split; congruence. Qed.

Lemma sql_effects_lookup s key : sql_effects_view s !! key = rows s !! key ≫= effect_row_view key.
Proof. unfold sql_effects_view. apply map_lookup_imap. Qed.

Lemma sql_effects_same s s' :
  rows s' = rows s → sql_effects_inv s → sql_effects_inv s' ∧ sql_effects_view s' = sql_effects_view s.
Proof. unfold sql_effects_inv, sql_effects_view. by intros ->. Qed.

Lemma sql_effects_insert s s' key row sn :
  rows s' = <[key := row]> (rows s) → effect_row_view key row = Some sn → effect_stored_ok key sn →
  coords_unique (<[key := sn]> (sql_effects_view s)) → sql_effects_inv s →
  sql_effects_inv s' ∧ sql_effects_view s' = <[key := sn]> (sql_effects_view s).
Proof.
  intros E Hv Hok Hu [Hi _].
  assert (sql_effects_view s' = <[key := sn]> (sql_effects_view s)) as Hview.
  { apply map_eq. intros k. rewrite sql_effects_lookup, E. destruct (decide (k = key)) as [->|Hne].
    - by rewrite !lookup_insert_eq.
    - rewrite !lookup_insert_ne by done. by rewrite sql_effects_lookup. }
  split; [split|done]; [|by rewrite Hview]. rewrite E. apply map_Forall_insert_2; [by exists sn|done].
Qed.

(** Every row of a consistent table is in its view. *)
Lemma sql_row_view s key row :
  sql_effects_inv s → rows s !! key = Some row →
  ∃ sn, sql_effects_view s !! key = Some sn ∧ effect_stored_ok key sn ∧
    row_matches (key_tenant key.1) key.2 row sn ∧ coordinate key sn = row_coordinate key row.
Proof.
  intros [Hi _] Hr. destruct (Hi _ _ Hr) as (sn & Hv & Hok). exists sn.
  rewrite sql_effects_lookup, Hr. split; [done|]. split; [done|].
  apply effect_row_view_Some, load_effect_row_ok in Hv. split; [done|]. rewrite (rm_row _ _ _ _ Hv). done.
Qed.

Lemma find_coordinate_Some t c key row :
  find_coordinate t c = Some (key, row) → t !! key = Some row ∧ row_coordinate key row = c.
Proof.
  unfold find_coordinate. intros [Hin Hc]%find_some. bool_hyps. split; [|done].
  by apply elem_of_pairs_iter, list_elem_of_In.
Qed.

Lemma find_coordinate_None t c key row :
  find_coordinate t c = None → t !! key = Some row → row_coordinate key row ≠ c.
Proof.
  unfold find_coordinate. intros Hf Hr. pose proof (find_none _ _ Hf (key, row)) as Hn.
  simpl in Hn. intros E. rewrite bool_decide_eq_true_2 in Hn by done.
  discriminate Hn. by apply list_elem_of_In, elem_of_pairs_iter.
Qed.

Lemma load_effect_ok id a s s' r :
  sql_effects_inv s → validate_effect_access id a = Ok () →
  load_effect_snapshot id (tenant_id a) s = (s', r) →
  rows s' = rows s ∧ ∀ o, r = Ok o → o = sql_effects_view s !! effect_key id (tenant_id a).
Proof.
  intros Hi (Hk & _)%effect_access_key Hl. unfold load_effect_snapshot in Hl. unfold mbind at 1, M_bind in Hl.
  destruct (select _ s) as [s1 [t|e]] eqn:Es; apply select_rows in Es as [Hs Ht].
  2: { injection Hl as <- <-. done. }
  specialize (Ht t eq_refl) as ->. rewrite sql_effects_lookup. unfold effect_row_view, effect_key in *.
  simpl. rewrite Hk. destruct (rows s !! _) as [row|] eqn:Er; simpl.
  - unfold lift, mbind, M_bind in Hl.
    destruct (load_effect_row (tenant_id a) (id, row)) as [sn|e] eqn:Ed; injection Hl as <- <-; [|done].
    split; [done|]. by intros o [= <-].
  - injection Hl as <- <-. split; [done|]. by intros o [= <-].
Qed.

Lemma load_idempotency_ok id req a s s' r :
  sql_effects_inv s → validate_effect_access id a = Ok () →
  load_by_idempotency (tenant_id a) req s = (s', r) →
  rows s' = rows s ∧ ∀ o, r = Ok o →
    let c := request_coordinate (tenant_storage_key (tenant_id a)) req in
    match o with
    | Some sn => ∃ id', sql_effects_view s !! effect_key id' (tenant_id a) = Some sn ∧
        coordinate (effect_key id' (tenant_id a)) sn = c
    | None => (∀ key sn, sql_effects_view s !! key = Some sn → coordinate key sn ≠ c) ∧
        find_coordinate (rows s) c = None
    end.
Proof.
  intros Hi (Hk & _)%effect_access_key Hl. unfold load_by_idempotency in Hl. unfold mbind at 1, M_bind in Hl.
  destruct (select _ s) as [s1 [t|e]] eqn:Es; apply select_rows in Es as [Hs Ht].
  2: { injection Hl as <- <-. done. }
  specialize (Ht t eq_refl) as ->. destruct (find_coordinate _ _) as [[key row]|] eqn:Ef.
  - apply find_coordinate_Some in Ef as [Hr Hc].
    destruct (sql_row_view _ _ _ Hi Hr) as (sn & Hv & _ & Hm & Hcoord).
    assert (key.1 = tenant_storage_key (tenant_id a)) as Et by exact (f_equal (λ c, c.1.1.1) Hc).
    unfold lift, mbind, M_bind in Hl. rewrite sql_effects_lookup, Hr in Hv. simpl in Hv.
    pose proof Hv as Hv'. apply effect_row_view_Some in Hv. rewrite Et, Hk in Hv. rewrite Hv in Hl.
    injection Hl as <- <-. split; [done|]. intros o [= <-]. exists key.2.
    unfold effect_key. rewrite <-Et. destruct key as [tn i]. simpl.
    rewrite sql_effects_lookup, Hr. split; [done|]. rewrite Hcoord, Hc. by rewrite <-Et.
  - injection Hl as <- <-. split; [done|]. intros o [= <-]. split; [|done].
    intros key sn Hv. rewrite sql_effects_lookup in Hv. apply bind_Some in Hv as (row & Hr & Hv).
    destruct (sql_row_view _ _ _ Hi Hr) as (sn' & Hv' & _ & _ & Hc).
    rewrite sql_effects_lookup, Hr in Hv'. simpl in Hv'. rewrite Hv in Hv'. injection Hv' as <-.
    rewrite Hc. by eapply find_coordinate_None.
Qed.

(** ** The operations *)

Lemma insert_effect_ok key row t u :
  insert_effect key row t = Some u →
  t !! key = None ∧ find_coordinate t (row_coordinate key row) = None ∧
  (0 < ex_created_at_ms row)%Z ∧ u = (<[key := row]> t, 1%Z).
Proof.
  unfold insert_effect. destruct (t !! key); [done|]. destruct (find_coordinate _ _); [done|].
  destruct (_ && _) eqn:E; [|done]. bool_hyps. by intros [= <-].
Qed.

Lemma sql_eff_create_law id req now a s s' r :
  sql_effects_inv s → sql_eff_create_as id req now a s = (s', r) → sql_effects_inv s' ∧
  match r with
  | Ok sn => validate_effect_access id a = Ok () ∧
      ((∃ id', sql_effects_view s !! effect_key id' (tenant_id a) = Some sn ∧
          (id' = id ∨ sql_effects_view s !! effect_key id (tenant_id a) = None ∧
             coordinate (effect_key id' (tenant_id a)) sn
             = request_coordinate (tenant_storage_key (tenant_id a)) req) ∧
          eff_create_matches (es_effect sn) req a = Ok true ∧ sql_effects_view s' = sql_effects_view s) ∨
       (sql_effects_view s !! effect_key id (tenant_id a) = None ∧
        (∀ key sn', sql_effects_view s !! key = Some sn' →
           coordinate key sn' ≠ request_coordinate (tenant_storage_key (tenant_id a)) req) ∧
        ∃ e, Effect_new req now a = Ok e ∧ sn = first_effect id a e ∧
          sql_effects_view s' = <[effect_key id (tenant_id a) := sn]> (sql_effects_view s)))
  | Err _ => sql_effects_view s' = sql_effects_view s
  end.
Proof.
  intros Hi Hc. unfold sql_eff_create_as in Hc. destruct r as [sn|e].
  2: { inv_M_err; [done|done|]. apply transaction_err in Hc. by apply sql_effects_same. }
  inv_M. inv_ok. match goal with H : validate_effect_access _ _ = _ |- _ => rename H into Hv end.
  match goal with H : Effect_new _ _ _ = Ok ?e |- _ => rename e into ne; rename H into Hnew end.
  apply transaction_ok in Hc as (s1 & s2 & Hs1 & Hc & Hs2).
  destruct (sql_effects_same _ _ Hs1 Hi) as [Hi1 Hv1]. inv_M.
  match goal with H : load_effect_snapshot _ _ _ = _ |- _ =>
    apply load_effect_ok in H as [Hs3 Hl]; [|done..]; specialize (Hl _ eq_refl) as -> end.
  rewrite Hv1 in Hc. destruct (sql_effects_view s !! _) as [ex|] eqn:E.
  { inv_M. match goal with b : bool |- _ => destruct b end; [|by inv_M]. inv_M.
    destruct (sql_effects_same s s') as [? ?]; [congruence|done|]. split; [done|]. split; [done|].
    left. exists id. split_and!; try done. by left. }
  inv_M. match goal with H : load_by_idempotency _ _ ?s3 = _ |- _ =>
    eapply load_idempotency_ok in H as [Hs4 Hlc];
      [|eapply sql_effects_same; [exact Hs3|done]|done]; specialize (Hlc _ eq_refl); rename s3 into sm end.
  assert (sql_effects_view sm = sql_effects_view s) as Hvm
    by (rewrite <-Hv1; by apply sql_effects_same).
  match goal with o : option EffectSnapshot |- _ => destruct o as [ex|] end.
  - destruct Hlc as (id' & Hid & Hcoord). rewrite Hvm in Hid. inv_M.
    match goal with b : bool |- _ => destruct b end; [|by inv_M]. inv_M.
    destruct (sql_effects_same s s') as [? ?]; [congruence|done|]. split; [done|]. split; [done|].
    left. exists id'. split_and!; try done. by right.
  - destruct Hlc as [Hfree _]. rewrite Hvm in Hfree. inv_M. inv_ok. unfold sql_time in *.
    match goal with H : i64_try_from _ _ = _ |- _ => apply i64_try_from_ok in H as [-> _] end.
    match goal with H : insert_effect _ _ _ = Some _ |- _ =>
      apply insert_effect_ok in H as (_ & _ & Hpos & ->) end.
    match goal with H : store _ _ _ = _ |- _ => apply store_ok in H as Hst end. simpl in Hst, Hpos.
    match goal with H : encode_effect _ = Ok ?j |- _ => rename H into He end.
    match goal with H : rows ?s5 = rows sm |- _ => rewrite H, Hs3, Hs1 in Hst end.
    rewrite Hst in Hs2. pose proof (new_effect_ok _ _ _ _ Hnew) as (N1 & N2 & N3 & N4 & N5 & _).
    pose proof (effect_access_key _ _ Hv) as (K1 & _ & K3).
    destruct (sql_effects_insert s s' _ _ (first_effect id a ne) Hs2) as [? ?].
    + apply effect_row_view_Some. simpl. rewrite K1. apply (load_row_encoded _ _ ne 1); try done. lia.
    + by eapply stored_first_effect.
    + apply coords_unique_insert; [|apply Hi]. intros k' sn' Hk'. unfold coordinate at 2. simpl.
      rewrite N3, N4. by apply Hfree.
    + done.
    + split; [done|]. split; [done|]. right. split_and!; try done. eauto.
Qed.

Lemma sql_eff_apply_law id rev c now a s s' r :
  sql_effects_inv s → sql_eff_apply_as id rev c now a s = (s', r) → sql_effects_inv s' ∧
  match r with
  | Ok res => validate_effect_access id a = Ok () ∧
      ∃ cur, sql_effects_view s !! effect_key id (tenant_id a) = Some cur ∧
      ((eff_recognizes_command (es_effect cur) c a = Ok true ∧ sql_effects_view s' = sql_effects_view s ∧
        res = {| ecr_snapshot := cur; ecr_outcome := EffDuplicate |}) ∨
       (es_revision cur = rev ∧ ∃ e, eff_apply c now a (es_effect cur) = (e, Ok EffApplied) ∧
        res = {| ecr_snapshot := next_effect_snapshot cur e; ecr_outcome := EffApplied |} ∧
        sql_effects_view s'
        = <[effect_key id (tenant_id a) := next_effect_snapshot cur e]> (sql_effects_view s)))
  | Err _ => sql_effects_view s' = sql_effects_view s
  end.
Proof.
  intros Hi Ha. unfold sql_eff_apply_as in Ha. destruct r as [res|e].
  2: { inv_M_err; [done|done|]. apply transaction_err in Ha. by apply sql_effects_same. }
  inv_M. inv_ok. match goal with H : validate_effect_access _ _ = _ |- _ => rename H into Hv end.
  apply transaction_ok in Ha as (s1 & s2 & Hs1 & Ha & Hs2).
  destruct (sql_effects_same _ _ Hs1 Hi) as [Hi1 Hv1]. unfold eff_apply_body in Ha. inv_M.
  match goal with H : load_effect_snapshot _ _ _ = _ |- _ =>
    apply load_effect_ok in H as [Hs3 Hl]; [|done..]; specialize (Hl _ eq_refl) as -> end.
  inv_ok. match goal with H : sql_effects_view s1 !! _ = Some ?c |- _ =>
    rewrite Hv1 in H; rename c into cur; rename H into Hcur end.
  match goal with b : bool |- _ => destruct b end; inv_M.
  { destruct (sql_effects_same s s') as [? ?]; [congruence|done|]. split; [done|]. split; [done|].
    exists cur. split; [done|]. by left. }
  inv_ok. bool_hyps. unfold eff_sql_revision in *.
  repeat match goal with
  | H : i64_try_from _ _ = _ |- _ => apply i64_try_from_ok in H as [-> _]
  | H : checked_add _ _ _ = _ |- _ => apply checked_add_Some in H as [-> _]
  | H : store _ _ _ = _ |- _ => apply store_ok in H as Hst
  end.
  match goal with H : eff_apply_copy _ _ _ _ = Ok ?p |- _ =>
    destruct p as [ne o]; apply eff_apply_copy_applied in H as [Hap Ho]; [|done]; simpl in Hap, Ho; subst o end.
  match goal with H : encode_effect _ = Ok ?j |- _ => rename H into He; simpl in He end.
  pose proof Hcur as Hcur'. rewrite sql_effects_lookup in Hcur'. apply bind_Some in Hcur' as (row & Hrow & Hview).
  destruct (sql_row_view _ _ _ Hi Hrow) as (cur' & Hview' & Hst_ok & Hm & _).
  rewrite Hcur in Hview'. injection Hview' as <-. destruct Hm as [M1 M2 M3 M4 _ _].
  destruct (stored_next_effect _ _ _ _ _ _ Hst_ok Hap) as [Hst' Hcoord].
  destruct (apply_effect_ok _ _ _ _ _ Hap) as (A1 & A2 & A3 & A4 & A5 & A6).
  pose proof (effect_access_key _ _ Hv) as (K1 & _ & K3). destruct Hst_ok as (_ & _ & S3 & _ & S5 & _).
  simpl in M1, M2, S3. rewrite K1 in M2, S3.
  unfold update_effect in *. rewrite Hs3, Hs1, Hrow in *.
  assert (ex_revision row = es_revision cur) as Erev by (by rewrite M3).
  rewrite Erev, Z.eqb_refl in *. simpl in Hst. rewrite Hst in Hs2.
  destruct (sql_effects_insert s s' _ _ (next_effect_snapshot cur ne) Hs2) as [? ?].
  - apply effect_row_view_Some. simpl. rewrite K1, M3. simpl. rewrite <-A3, <-A4, <-A5.
    unfold next_effect_snapshot. rewrite M1, M2. apply (load_row_encoded _ _ ne); try done; lia || congruence.
  - done.
  - eapply coords_unique_update; [exact Hcur|exact Hcoord|apply Hi].
  - done.
  - split; [done|]. split; [done|]. exists cur. split; [done|]. right. split; [done|].
    exists ne. split_and!; [done| |done]. unfold next_effect_snapshot. by rewrite M1.
Qed.

(** The page query finds the rows of exactly the stored Effects in scope. *)
Lemma select_effects_rows s (a : AuthorityContext) (after : option EffectId) status :
  sql_effects_inv s → key_tenant (tenant_storage_key (tenant_id a)) = tenant_id a →
  Forall2 (λ p sn, load_effect_row (tenant_id a) p = Ok sn)
    (select_effects_after (rows s) (tenant_storage_key (tenant_id a)) (default [] after) status)
    (List.filter (has_status status)
      (values_after (sql_effects_view s) (tenant_storage_key (tenant_id a)) after)).
Proof.
  intros [Hok _] Hk. unfold select_effects_after, values_after, sql_effects_view.
  rewrite pairs_iter_imap.
  assert (∀ p, p ∈ pairs_iter (rows s) → effect_row_ok p.1 p.2) as Hall
    by (intros [k row] Hin%elem_of_pairs_iter; by apply Hok).
  induction (pairs_iter (rows s)) as [|[[tn i] row] l IH]; [constructor|].
  destruct (Hall (tn, i, row) ltac:(left)) as (sn & Hv & _ & _ & _ & _ & _ & K6 & _). simpl in *.
  assert (negb (str_leb i (default [] after)) = after_cursor after i) as Ec.
  { destruct after as [c|]; simpl; [done|]. by destruct i. }
  rewrite Ec, Hv. simpl. unfold in_scope at 1. simpl.
  specialize (IH ltac:(intros; apply Hall; by right)).
  destruct (bool_decide (tn = tenant_storage_key (tenant_id a)) && after_cursor after i) eqn:Es; simpl; [|done].
  apply effect_row_view_Some in Hv. simpl in Hv. bool_hyps. subst tn. rewrite Hk in Hv.
  pose proof (load_effect_row_ok _ _ _ _ Hv) as [_ _ M3 _ _ _].
  assert (match status with Some st => bool_decide (ex_status row = st) | None => true end
    = has_status status sn) as -> by (rewrite M3; by destruct status).
  unfold fmap in *. simpl. destruct (has_status status sn); simpl; [by constructor|done].
Qed.

Lemma select_snapshots_ok status after limit a s s' r :
  sql_effects_inv s → key_tenant (tenant_storage_key (tenant_id a)) = tenant_id a →
  select_snapshots status (default [] after) limit a s = (s', r) →
  rows s' = rows s ∧ ∀ l, r = Ok l →
    l = take (Z.to_nat limit) (List.filter (has_status status)
          (values_after (sql_effects_view s) (tenant_storage_key (tenant_id a)) after)).
Proof.
  intros Hi Hk Hl. unfold select_snapshots in Hl. destruct r as [l|e].
  2: { inv_M_err; (split; [|done]);
       match goal with H : select _ _ = _ |- _ => by apply select_rows in H as [? _] end. }
  inv_M. match goal with H : select _ _ = _ |- _ => apply select_rows in H as [Hs Hsel];
    specialize (Hsel _ eq_refl) as -> end.
  split; [done|]. intros l' [= <-].
  pose proof (Forall2_take _ _ _ (Z.to_nat limit) (select_effects_rows s a after status Hi Hk)) as HF.
  match goal with H : collect read_effect_row _ = Ok _ |- _ =>
    apply (fold_m_collect read_effect_row) in H as (l' & -> & Hread) end.
  match goal with H : _ = Ok l |- _ =>
    apply (fold_m_collect (decode_effect_row (tenant_id a))) in H as (out & -> & Hdec) end.
  simpl in *. clear Hi Hk Hs. revert l' HF out Hdec Hread. generalize (take (Z.to_nat limit) (List.filter (has_status status)
    (values_after (sql_effects_view s) (tenant_storage_key (tenant_id a)) after))).
  generalize (take (Z.to_nat limit) (select_effects_after (rows s)
    (tenant_storage_key (tenant_id a)) (default [] after) status)). clear.
  intros rs k l' HF. revert l'. induction HF as [|p sn rs k Hp _ IH]; intros l' out Hdec Hread.
  - inversion Hread; subst. by inversion Hdec.
  - inversion Hread as [|? p' ? l2 Hp' Hrest]; subst. inversion Hdec as [|? sn' ? out' Hsn Hout]; subst.
    destruct p as [i row]. apply load_effect_row_ok in Hp as [_ _ _ _ Hr Hd].
    rewrite Hr in Hp'. injection Hp' as <-. rewrite Hd in Hsn. injection Hsn as <-.
    f_equal. by eapply IH.
Qed.

Lemma sql_eff_list_law status after limit a s s' r :
  sql_effects_inv s → sql_eff_list_as status after limit a s = (s', r) →
  rows s' = rows s ∧ ∀ page, r = Ok page → validate_list status after limit a = Ok () ∧
    page = page_from_candidates (take (Z.to_nat (limit + 1)) (List.filter (has_status status)
      (values_after (sql_effects_view s) (tenant_storage_key (tenant_id a)) (pc_effect_id <$> after)))) limit.
Proof.
  intros Hi Hl. unfold sql_eff_list_as in Hl.
  destruct (validate_list status after limit a) as [[]|e] eqn:Hv; [|by injection Hl as <- <-].
  assert (key_tenant (tenant_storage_key (tenant_id a)) = tenant_id a) as Hk
    by (unfold validate_list in Hv; inv_ok; by eapply key_tenant_of).
  destruct r as [page|e].
  - inv_M. inv_ok. match goal with H : checked_add _ _ _ = _ |- _ => apply checked_add_Some in H as [-> _] end.
    match goal with H : select_snapshots _ _ _ _ _ = _ |- _ =>
      apply select_snapshots_ok in H as [Hs Hr]; [|done..] end.
    split; [done|]. intros p [= <-]. by rewrite <-(Hr _ eq_refl).
  - inv_M_err; try done. match goal with H : select_snapshots _ _ _ _ _ = _ |- _ =>
      apply select_snapshots_ok in H as [Hs _]; [|done..] end. by split.
Qed.

Lemma sql_eff_scan_law at_ms after limit a s s' r :
  sql_effects_inv s → sql_eff_scan_due_as at_ms after limit a s = (s', r) →
  rows s' = rows s ∧ ∀ page, r = Ok page → eff_validate_due_scan at_ms after limit a = Ok () ∧
    page = due_page_from_scan (take (Z.to_nat (limit + 1))
      (values_after (sql_effects_view s) (tenant_storage_key (tenant_id a)) after)) limit at_ms.
Proof.
  intros Hi Hl. unfold sql_eff_scan_due_as in Hl.
  destruct (eff_validate_due_scan at_ms after limit a) as [[]|e] eqn:Hv; [|by injection Hl as <- <-].
  assert (key_tenant (tenant_storage_key (tenant_id a)) = tenant_id a) as Hk
    by (unfold eff_validate_due_scan in Hv; inv_ok; by eapply key_tenant_of).
  destruct r as [page|e].
  - inv_M. inv_ok. match goal with H : checked_add _ _ _ = _ |- _ => apply checked_add_Some in H as [-> _] end.
    match goal with H : select_snapshots _ _ _ _ _ = _ |- _ =>
      apply select_snapshots_ok in H as [Hs Hr]; [|done..] end.
    split; [done|]. intros p [= <-]. rewrite (Hr _ eq_refl). by rewrite (filter_all (has_status None)).
  - inv_M_err; try done. match goal with H : select_snapshots _ _ _ _ _ = _ |- _ =>
      apply select_snapshots_ok in H as [Hs _]; [|done..] end. by split.
Qed.

#[global] Program Instance SqliteEffectLaws : EffectLaws SqliteEffects := {|
  ec_inv := sql_effects_inv;
  ec_view := sql_effects_view;
|}.
Next Obligation.
  intros s key sn Hi Hv. rewrite sql_effects_lookup in Hv. apply bind_Some in Hv as (row & Hrow & Hv).
  destruct (sql_row_view _ _ _ Hi Hrow) as (sn' & Hv' & Hok & _).
  rewrite sql_effects_lookup, Hrow in Hv'. simpl in Hv'. congruence.
Qed.
Next Obligation. by intros s [_ Hu]. Qed.
Next Obligation. intros id req now a s s' r Hi Hc. exact (sql_eff_create_law _ _ _ _ _ _ _ Hi Hc). Qed.
Next Obligation.
  intros id a s s' r Hi Hl. simpl in Hl. unfold sql_eff_load_as in Hl.
  unfold mbind at 1, M_bind, lift in Hl.
  destruct (validate_effect_access id a) as [[]|e] eqn:Hv; [|injection Hl as <- <-; done].
  apply load_effect_ok in Hl as [Hs Hr]; [|done..]. destruct (sql_effects_same _ _ Hs Hi).
  split_and!; [done|done|]. intros o Ho. split; [done|]. by apply Hr.
Qed.
Next Obligation.
  intros status after limit a s s' r Hi Hl. simpl in Hl. apply sql_eff_list_law in Hl as [Hs Hr]; [|done].
  destruct (sql_effects_same _ _ Hs Hi). by split_and!.
Qed.
Next Obligation.
  intros at_ms after limit a s s' r Hi Hl. simpl in Hl. apply sql_eff_scan_law in Hl as [Hs Hr]; [|done].
  destruct (sql_effects_same _ _ Hs Hi). by split_and!.
Qed.
Next Obligation. intros id rev c now a s s' r Hi Hc. exact (sql_eff_apply_law _ _ _ _ _ _ _ _ Hi Hc). Qed.
End sqlite.
