(* ===== verification/EffectClients.v ===== *)
(** Clients of an Effect Coordinator, proved against the contract
    [EffectLaws] and so true of the in-memory and of the SQLite coordinator
    (src/src/effect/coordinator.rs): one Effect per idempotency tuple, how
    stored Effects evolve, and the pages workers discover work with.

    The ledger seen by the futures that work on it: whatever clients do, a
    stored Effect is what commands have made of it, and it only moves forward
    (src/src/effect/coordinator.rs).  Proved against the contract
    [EffectLaws]. *)

From Stdlib Require Import ZArith Lia.
From stdpp Require Import sorting base tactics list gmap relations numbers strings option.
From stdpp Require Import list.
From S2P Require Import Prelude Kernel Digest Json Sqlite Pairs Effect EffectSafety EffectCoordinator EffectStores.

Section clients.
Context `{!Serialize Json, !Serialize (AttributedCommand EffectCreateRequest),
          !Serialize (AttributedCommand EffectCommand), !Serialize EffectCommand,
          !Serialize EffectWire, sha : !Sha256}.
Context {W : Type} `{!EffectCoordinator W, !EffectLaws W}.

(** One call of the coordinator, by anyone, successful or not. *)
Inductive ec_step (s : W) : W → Prop :=
| ec_create id req now a s' r :
    (0 ≤ now)%Z → eff_create_as id req now a s = (s', r) → ec_step s s'
| ec_load id a s' r : eff_load_as id a s = (s', r) → ec_step s s'
| ec_list status after limit a s' r : eff_list_as status after limit a s = (s', r) → ec_step s s'
| ec_scan at_ms after limit a s' r :
    eff_scan_due_as at_ms after limit a s = (s', r) → ec_step s s'
| ec_apply id rev c now a s' r :
    (0 ≤ now)%Z → eff_apply_as id rev c now a s = (s', r) → ec_step s s'.

Definition ec_execution (s : W) : Prop :=
  ∃ s0, ec_inv s0 ∧ ec_view s0 = ∅ ∧ rtc ec_step s0 s.

(** How one call may change a stored Effect. *)
Definition effect_evolves (s s' : W) : Prop := ∀ key,
  (∀ cur, ec_view s !! key = Some cur → ∃ cur', ec_view s' !! key = Some cur' ∧
     coordinate key cur' = coordinate key cur ∧
     (cur' = cur ∨ es_revision cur' = (es_revision cur + 1)%Z ∧
        ∃ c now a, (0 ≤ now)%Z ∧
          eff_apply c now a (es_effect cur) = (es_effect cur', Ok EffApplied))) ∧
  (∀ cur', ec_view s !! key = None → ec_view s' !! key = Some cur' →
     es_revision cur' = 1%Z ∧ ∃ req now a, Effect_new req now a = Ok (es_effect cur')).

Lemma effect_evolves_same s s' : ec_view s' = ec_view s → effect_evolves s s'.
Proof. intros E key. rewrite E. split; [eauto|]. intros cur' H1 H2. congruence. Qed.

Lemma effect_evolves_insert s s' key cur' :
  ec_view s' = <[key := cur']> (ec_view s) →
  (∀ cur, ec_view s !! key = Some cur → coordinate key cur' = coordinate key cur ∧
     (cur' = cur ∨ es_revision cur' = (es_revision cur + 1)%Z ∧
        ∃ c now a, (0 ≤ now)%Z ∧
          eff_apply c now a (es_effect cur) = (es_effect cur', Ok EffApplied))) →
  (ec_view s !! key = None →
     es_revision cur' = 1%Z ∧ ∃ req now a, Effect_new req now a = Ok (es_effect cur')) →
  effect_evolves s s'.
Proof.
  intros E H1 H2 k. rewrite E. destruct (decide (k = key)) as [->|Hne].
  - rewrite lookup_insert_eq. split; [|intros c Hn [= <-]; auto]. intros cur Hc. exists cur'. eauto.
  - rewrite lookup_insert_ne by done. split; [eauto|congruence].
Qed.

Lemma ec_step_evolves s s' : ec_inv s → ec_step s s' → ec_inv s' ∧ effect_evolves s s'.
Proof.
  intros Hi. destruct 1 as [id req now a s' r Hnow Hc|id a s' r Hl|st af li a s' r Hl
    |at_ms af li a s' r Hl|id rev c now a s' r Hnow Ha].
  - apply ec_create_law in Hc as [Hi' Hr]; [|done]. split; [done|].
    destruct r as [sn|e]; [|by apply effect_evolves_same].
    destruct Hr as [_ [(_ & _ & _ & _ & Hv)|(Hn & _ & e & Hnew & -> & Hv)]];
      [by apply effect_evolves_same|].
    eapply effect_evolves_insert; [exact Hv|congruence|]. intros _. simpl. eauto.
  - apply ec_load_law in Hl as (Hi' & Hv & _); [|done]. split; [done|by apply effect_evolves_same].
  - apply ec_list_law in Hl as (Hi' & Hv & _); [|done]. split; [done|by apply effect_evolves_same].
  - apply ec_scan_law in Hl as (Hi' & Hv & _); [|done]. split; [done|by apply effect_evolves_same].
  - apply ec_apply_law in Ha as [Hi' Hr]; [|done]. split; [done|].
    destruct r as [res|e]; [|by apply effect_evolves_same].
    destruct Hr as (_ & cur & Hcur & [(_ & Hv & _)|(_ & e & Hap & _ & Hv)]);
      [by apply effect_evolves_same|].
    eapply effect_evolves_insert; [exact Hv| |congruence]. intros cur0 E. rewrite Hcur in E.
    injection E as <-. destruct (stored_next_effect _ _ _ _ _ _ (ec_stored _ _ _ Hi Hcur) Hap) as [_ ?].
    split; [done|]. right. split; [done|]. simpl. by exists c, now, a.
Qed.

Lemma ec_execution_inv s : ec_execution s → ec_inv s.
Proof.
  intros (s0 & Hi & _ & Hs). induction Hs as [s0|s0 s1 s2 Hs _ IH]; [done|].
  by destruct (ec_step_evolves _ _ Hi Hs); auto.
Qed.

(** C22: one durable Effect per idempotency tuple: whatever clients do, two
    stored Effects never share tenant, capability, operation and key; a call
    never removes an Effect or changes its tuple, and changes it at most by
    one applied command that advances its revision by one; the revision is the
    number of transitions and stays within the limit.  A creation that names
    a bound tuple never adds an Effect: it returns the bound one, whatever
    fresh identity the caller proposed, or fails. *)
Theorem effect_unique_intent (s s' : W) (He : ec_execution s) (Hs : ec_step s s') :
  effect_evolves s s' ∧ coords_unique (ec_view s') ∧
  (∀ key sn, ec_view s' !! key = Some sn →
     eff_validate (es_effect sn) = Ok () ∧ es_revision sn = len (ef_transitions (es_effect sn)) ∧
     (1 ≤ es_revision sn ≤ MAX_EFFECT_TRANSITIONS)%Z) ∧
  (∀ id req now a r key cur, eff_create_as id req now a s = (s', r) →
     ec_view s !! key = Some cur →
     coordinate key cur = request_coordinate (tenant_storage_key (tenant_id a)) req →
     ec_view s' = ec_view s ∧
     ∀ sn, r = Ok sn → ec_view s !! effect_key id (tenant_id a) = None → sn = cur).
Proof.
  apply ec_execution_inv in He as Hi. destruct (ec_step_evolves _ _ Hi Hs) as [Hi' Hev].
  split_and!; [done|by apply ec_unique| |].
  - intros key sn Hv. destruct (ec_stored _ _ _ Hi' Hv) as (_ & _ & _ & [Hval _] & Hrev & _).
    split_and!; [done|done|..]; apply eff_validate_iff in Hval as [y Hy];
      pose proof (ve_length _ _ Hy); lia.
  - intros id req now a r key cur Hc Hcur Hcoord. apply ec_create_law in Hc as [_ Hr]; [|done].
    destruct r as [sn|e]; [|by split].
    destruct Hr as [_ [(id' & Hid & Hor & _ & Hv)|(_ & Hfree & _)]]; [|by destruct (Hfree _ _ Hcur)].
    split; [done|]. intros sn' [= <-] Hn. destruct Hor as [->|[_ Hc']]; [congruence|].
    assert (key = effect_key id' (tenant_id a)) as ->
      by (eapply (ec_unique s Hi); [exact Hcur|exact Hid|congruence]).
    congruence.
Qed.

(** ** Pages *)

Lemma view_self_keyed s : ec_inv s → self_keyed es_id (ec_view s).
Proof. intros Hi key sn Hk. by destruct (ec_stored _ _ _ Hi Hk). Qed.

(** The check of the consumers accepts a sorted list of stored Effects. *)
Lemma page_effects_accepted consumer a expected previous l :
  (∀ sn, sn ∈ l → eff_validate (es_effect sn) = Ok () ∧ es_tenant_id sn = tenant_id a ∧
     ef_tenant_id (es_effect sn) = tenant_id a ∧
     es_revision sn = len (ef_transitions (es_effect sn)) ∧
     page_state_matches expected (ef_status (es_effect sn)) = true) →
  StronglySorted (λ s s', str_leb (es_id s) (es_id s') = true ∧ es_id s ≠ es_id s') l →
  (∀ p sn, previous = Some p → sn ∈ l → str_leb (es_id sn) p = false) →
  validate_page_effects consumer a expected previous l = Ok ().
Proof.
  intros Hall Hs. revert previous. induction Hs as [|sn l Hs IH Hx]; intros previous Hp; simpl; [done|].
  destruct (Hall sn ltac:(left)) as (-> & -> & -> & -> & Hm). simpl.
  rewrite Hm, Z.eqb_refl, !bool_decide_eq_false_2 by (intros Hn; by apply Hn). simpl.
  assert (match previous with Some prior => str_leb (es_id sn) prior | None => false end = false) as ->.
  { destruct previous as [p|]; [|done]. apply (Hp p); [done|by left]. }
  simpl. apply IH; [intros; apply Hall; by right|]. intros p sn' [= <-] Hin.
  destruct (proj1 (Forall_forall _ _) Hx sn' Hin). by apply str_leb_strict.
Qed.

Lemma has_status_state expected sn :
  has_status (Some (page_state_name expected)) sn = page_state_matches expected (ef_status (es_effect sn)).
Proof. unfold has_status. by destruct expected, (ef_status (es_effect sn)). Qed.

Lemma list_page_accepted s consumer expected after limit a :
  ec_inv s → validate_list (Some (page_state_name expected)) after limit a = Ok () →
  validate_effect_page consumer
    (page_from_candidates (take (Z.to_nat (limit + 1))
      (List.filter (has_status (Some (page_state_name expected)))
        (values_after (ec_view s) (tenant_storage_key (tenant_id a)) (pc_effect_id <$> after)))) limit)
    after limit a expected = Ok ().
Proof.
  intros Hi Hv. pose proof (validate_list_limit _ _ _ _ Hv) as [Hlim _].
  assert (key_tenant (tenant_storage_key (tenant_id a)) = tenant_id a) as Ht
    by (unfold validate_list in Hv; inv_ok; by eapply key_tenant_of).
  set (l := List.filter _ _). destruct (page_cut limit l Hlim) as (T1 & _ & _ & T4 & T5).
  assert (StronglySorted (λ s s', str_leb (es_id s) (es_id s') = true ∧ es_id s ≠ es_id s') l) as Hsort
    by (by apply StronglySorted_filter, values_after_sorted, view_self_keyed).
  unfold validate_effect_page, page_from_candidates. cbn [pg_effects pg_next_cursor pg_has_more].
  rewrite T1, (proj2 (Z.ltb_ge _ _) T4).
  rewrite bool_decide_eq_false_2 by (intros Hn; by apply Hn). simpl.
  assert ((limit <? len (take (Z.to_nat (limit + 1)) l))%Z
    && negb (len (take (Z.to_nat limit) l) =? limit)%Z = false) as ->.
  { destruct (limit <? _)%Z; [|done]. by rewrite (T5 eq_refl), Z.eqb_refl. }
  simpl. apply page_effects_accepted.
  - intros sn Hin. assert (sn ∈ l) as Hl by (by eapply elem_of_take_sub).
    apply list_elem_of_In, filter_In in Hl as [Hl%list_elem_of_In Hst].
    apply elem_of_values_after in Hl as (id & Hk & _).
    destruct (ec_stored _ _ _ Hi Hk) as (_ & K2 & K3 & [K4 _] & K5 & _). simpl in K2, K3.
    rewrite has_status_state in Hst. rewrite Ht in *. by split_and!.
  - rewrite <-(take_drop (Z.to_nat limit) l) in Hsort. by apply StronglySorted_app in Hsort as (_ & ? & _).
  - intros p sn Hp Hin. assert (sn ∈ l) as Hl by (by eapply elem_of_take_sub).
    apply list_elem_of_In, filter_In in Hl as [Hl%list_elem_of_In _].
    apply elem_of_values_after in Hl as (id & Hk & Ha). rewrite Hp in Ha. simpl in Ha.
    destruct (ec_stored _ _ _ Hi Hk) as (-> & _). simpl. by bool_hyps.
Qed.

(** discovery is exact: a lifecycle page holds the first matching
    Effects of the tenant after the cursor, in identity order; its consumers'
    check accepts it; and continuing from its cursor covers exactly the
    matching Effects it left out.  A due scan reports exactly the expired
    leases of the Effects it visited. *)
Theorem effect_pages_exact (s s' : W) (limit : Z) (a : AuthorityContext) (Hi : ec_inv s) :
  (∀ consumer expected after page,
     eff_list_as (Some (page_state_name expected)) after limit a s = (s', Ok page) →
     let matching after := List.filter (has_status (Some (page_state_name expected)))
       (values_after (ec_view s) (tenant_storage_key (tenant_id a)) after) in
     validate_effect_page consumer page after limit a expected = Ok () ∧
     ∃ rest, matching (pc_effect_id <$> after) = pg_effects page ++ rest ∧
       (pg_has_more page = true ↔ rest ≠ []) ∧ (rest ≠ [] → pg_effects page ≠ []) ∧
       ∀ cursor, pg_next_cursor page = Some cursor → matching (Some (pc_effect_id cursor)) = rest) ∧
  (∀ at_ms after page, eff_scan_due_as at_ms after limit a s = (s', Ok page) →
     let sweep after := values_after (ec_view s) (tenant_storage_key (tenant_id a)) after in
     ∃ visited rest, sweep after = visited ++ rest ∧ edp_due page = omap (due_lease at_ms) visited ∧
       (edp_has_more page = true ↔ rest ≠ []) ∧ (rest ≠ [] → visited ≠ []) ∧
       ∀ cursor, edp_next_after_effect_id page = Some cursor → sweep (Some cursor) = rest).
Proof.
  pose proof (view_self_keyed s Hi) as Hk.
  split.
  - intros consumer expected after page Hl matching. apply ec_list_law in Hl as (_ & _ & Hp); [|done].
    destruct (Hp page eq_refl) as [Hv ->]. clear Hp. pose proof (validate_list_limit _ _ _ _ Hv) as [Hlim _].
    fold (matching (pc_effect_id <$> after)).
    destruct (page_cut limit (matching (pc_effect_id <$> after)) Hlim) as (T1 & T2 & T3 & _).
    split; [by eapply list_page_accepted|].
    unfold page_from_candidates. cbn [pg_effects pg_next_cursor pg_has_more]. rewrite T1.
    exists (drop (Z.to_nat limit) (matching (pc_effect_id <$> after))).
    split_and!; [by rewrite take_drop|done|done|]. intros cursor Hc.
    destruct (vec_last _) as [sn|] eqn:El; [|done]. injection Hc as <-. simpl.
    apply vec_last_Some_snoc in El as [l El].
    eapply (filtered_after_cursor es_id _ _ (pc_effect_id <$> after) _ l _ sn Hk). by rewrite <-El, take_drop.
  - intros at_ms after page Hl sweep. apply ec_scan_law in Hl as (_ & _ & Hp); [|done].
    destruct (Hp page eq_refl) as [Hv ->]. clear Hp. pose proof (due_scan_limit _ _ _ _ Hv) as [Hlim _].
    fold (sweep after). destruct (page_cut limit (sweep after) Hlim) as (T1 & T2 & T3 & _).
    exists (take (Z.to_nat limit) (sweep after)), (drop (Z.to_nat limit) (sweep after)).
    unfold due_page_from_scan. cbn [edp_due edp_has_more edp_next_after_effect_id]. rewrite T1.
    split_and!; [by rewrite take_drop|done|done|done|]. intros cursor Hc.
    destruct (vec_last _) as [sn|] eqn:El; [|done]. injection Hc as <-.
    apply vec_last_Some_snoc in El as [l El].
    eapply (values_after_cursor es_id _ _ after l _ sn Hk). by rewrite <-El, take_drop.
Qed.
End clients.

Section ledger.
Context `{!Serialize Json, !Serialize (AttributedCommand EffectCreateRequest),
          !Serialize (AttributedCommand EffectCommand), !Serialize EffectCommand,
          !Serialize EffectWire, sha : !Sha256}.
Context {W : Type} `{!EffectCoordinator W, !EffectLaws W}.

Abbreviation view := (gmap (str * EffectId) EffectSnapshot).

(** ** The ledger only moves forward *)

(** The stored Effect of [key] is [e], or what commands have made of it. *)
Definition reached (v : view) (key : str * EffectId) (e : Effect) : Prop :=
  ∃ cur, v !! key = Some cur ∧ rtc eff_step e (es_effect cur) ∧ eff_validate e = Ok ().

Lemma reached_evolves (w w' : W) key e :
  effect_evolves w w' → reached (ec_view w) key e → reached (ec_view w') key e.
Proof.
  intros Hev (cur & Hc & Hs & Hv). destruct (Hev key) as [Hk _].
  destruct (Hk cur Hc) as (cur' & Hc' & _ & [->|(_ & c & now & a & Hnow & Ha)]); [by exists cur|].
  exists cur'. split_and!; [done| |done]. eapply rtc_r; [done|]. by exists c, now, a, (Ok EffApplied).
Qed.

Lemma stored_valid (w : W) key cur :
  ec_inv w → ec_view w !! key = Some cur → eff_validate (es_effect cur) = Ok ().
Proof. intros Hi Hc. by destruct (ec_stored _ _ _ Hi Hc) as (_ & _ & _ & [? _] & _). Qed.

Lemma reached_here (w : W) key cur :
  ec_inv w → ec_view w !! key = Some cur → reached (ec_view w) key (es_effect cur).
Proof. intros Hi Hc. exists cur. eauto using stored_valid, rtc_refl. Qed.

Lemma valid_follows e : eff_validate e = Ok () → status_follows (ef_transitions e) (ef_status e).
Proof.
  intros [y [_ _ Hr Hp]]%eff_validate_iff. apply eff_replayed_follows in Hr. by rewrite Hp in Hr.
Qed.

Lemma steps_claims e e' : rtc eff_step e e' → (claims (ef_transitions e) ≤ claims (ef_transitions e'))%Z.
Proof.
  intros ([ts ->] & _)%eff_steps_extend. unfold claims, len. rewrite List.filter_app, length_app. lia.
Qed.

Lemma reached_terminal v key e :
  reached v key e → eff_terminal (ef_status e) = true → ∃ cur, v !! key = Some cur ∧ es_effect cur = e.
Proof. intros (cur & Hc & Hs & _) Ht. exists cur. split; [done|]. by apply terminal_steps. Qed.

Lemma ec_steps_reached (w w' : W) key e :
  ec_inv w → rtc ec_step w w' → reached (ec_view w) key e → ec_inv w' ∧ reached (ec_view w') key e.
Proof.
  intros Hi Hs. induction Hs as [w|w w1 w2 Hs _ IH]; [done|]. intros Hr.
  destruct (ec_step_evolves _ _ Hi Hs) as [Hi1 Hev]. apply IH; [done|]. by eapply reached_evolves.
Qed.
End ledger.
