(* ===== verification/EffectDemo.v ===== *)
(** A concrete Effect on which the Effect theorems are exercised: its first
    attempt is reported unknown and reconciled as not applied, its second is
    applied; under a codec that encodes every value as the two bytes of an
    empty JSON object, and a constant digest. *)

From Stdlib Require Import ZArith Lia.
From stdpp Require Import sorting base tactics list gmap relations numbers strings option.
From stdpp Require Import list.
From S2P Require Import Prelude Kernel Digest Json Sqlite Pairs TaskMessages Effect EffectSafety EffectCoordinator EffectStores EffectClients.

#[local] Existing Instance demo_json.
#[local] Instance effect_sha : Sha256 := λ _, repeat 171%N 32.
Lemma effect_sha_laws : Sha256Laws.
Proof.
  split; [done|]. intros s b Hb. apply list_elem_of_In, repeat_spec in Hb as ->. lia.
Qed.

Definition demo_effect_request : EffectCreateRequest :=
  {| er_command_id := lit "create-1";
     er_operation := {| eo_capability := lit "mail"; eo_operation := lit "send" |};
     er_idempotency_key := lit "order-7"; er_input := JObject [(lit "to", JString (lit "ops"))];
     er_not_before_ms := 100 |}.

Definition demo_effect_get (r : result Effect) : Effect :=
  match r with
  | Ok e => e
  | Err _ =>
      {| ef_tenant_id := None; ef_operation := er_operation demo_effect_request;
         ef_idempotency_key := []; ef_input := JNull; ef_input_sha256 := []; ef_created_at_ms := 0;
         ef_status := EsCancelled []; ef_transitions := []; ef_charge := 0 |}
  end.

Definition demo_effect : Effect :=
  demo_effect_get (Effect_new demo_effect_request 100 local_process).

Definition demo_effect_command (id : string) (kind : EffectCommandKind) : EffectCommand :=
  {| ec_id := lit id; ec_kind := kind |}.
Definition demo_receipt : EffectReceipt :=
  {| rc_source := lit "mail"; rc_external_id := lit "m-1"; rc_observed_at_ms := 600;
     rc_response_sha256 := repeat 97%N 64 |}.

Definition demo_claim : EffectCommand := demo_effect_command "claim-1" (EcClaim (lit "l1") 1000).
Definition demo_unknown : EffectCommand :=
  demo_effect_command "unknown-1" (EcRecordUnknown (lit "l1") (lit "timeout")).
Definition demo_reconcile : EffectCommand :=
  demo_effect_command "reconcile-1"
    (EcReconcileNotApplied (lit "l1") 1 (lit "absent") (Some 500%Z)).
Definition demo_reclaim : EffectCommand := demo_effect_command "claim-2" (EcClaim (lit "l2") 1000).
Definition demo_settle : EffectCommand :=
  demo_effect_command "applied-2" (EcRecordApplied (lit "l2") demo_receipt).

Definition demo_effect_apply (c : EffectCommand) (now : Z) (e : Effect) : Effect :=
  (eff_apply c now local_process e).1.

Definition demo_claimed : Effect := demo_effect_apply demo_claim 200 demo_effect.
Definition demo_uncertain : Effect := demo_effect_apply demo_unknown 300 demo_claimed.
Definition demo_reconciled : Effect := demo_effect_apply demo_reconcile 400 demo_uncertain.
Definition demo_reclaimed : Effect := demo_effect_apply demo_reclaim 500 demo_reconciled.
Definition demo_settled : Effect := demo_effect_apply demo_settle 600 demo_reclaimed.

(** The demonstration exercises the branches it is meant to. *)
Lemma demo_effect_runs :
  is_ok (Effect_new demo_effect_request 100 local_process) = true ∧
  ef_status demo_uncertain = EsUnknown 1 (lit "l1") (lit "timeout") ∧
  ef_status demo_reconciled = EsPending 2 500 ∧
  ef_status demo_settled = EsApplied 2 demo_receipt ∧
  length (ef_transitions demo_settled) = 6%nat ∧
  is_ok (eff_apply demo_reclaim 350 local_process demo_uncertain).2 = false ∧
  is_ok (eff_apply demo_reclaim 499 local_process demo_reconciled).2 = false.
Proof. vm_compute. split_and!; reflexivity. Qed.

Lemma demo_claim_applied :
  eff_apply demo_claim 200 local_process demo_effect = (demo_claimed, Ok EffApplied).
Proof. vm_compute. reflexivity. Qed.
Lemma demo_unknown_applied :
  eff_apply demo_unknown 300 local_process demo_claimed = (demo_uncertain, Ok EffApplied).
Proof. vm_compute. reflexivity. Qed.

(** ** Witnesses *)

Lemma effect_no_blind_retry_witness :
  ∃ l0 p lid reason retry rec t, ef_transitions demo_settled !! 4%nat = Some t ∧
    et_kind t = EtClaimed (lit "l2") 2 1000 ∧ take 4 (ef_transitions demo_settled) = l0 ++ [p] ∧
    et_kind p = EtNotApplied lid 1 reason (Some retry) rec ∧ (retry ≤ et_applied_at_ms t)%Z.
Proof.
  destruct (ef_transitions demo_settled !! 4%nat) as [t|] eqn:Et; [|exfalso; vm_compute in Et; discriminate Et].
  assert (et_kind t = EtClaimed (lit "l2") 2 1000) as Ek.
  { vm_compute in Et. injection Et as <-. reflexivity. }
  destruct (effect_no_blind_retry demo_settled) as (H & _); [vm_compute; reflexivity|].
  destruct (H _ _ _ _ _ _ (eq_sym (take_drop_middle _ _ _ Et)) Ek)
    as [_ [Hz|(l0 & p & lid & reason & retry & rec & E & Hc & Hp & Hle)]].
  - exfalso. vm_compute in Hz. discriminate Hz.
  - exists l0, p, lid, reason, retry, rec, t. split_and!; [done|done|exact E|exact Hp|exact Hle].
Defined.

Lemma effect_apply_admitted_witness :
  eff_apply demo_claim 200 local_process demo_effect = (demo_claimed, Ok EffApplied) ∧
  eff_validate demo_claimed = Ok ().
Proof.
  destruct (eff_apply_applied demo_claim 200 local_process demo_effect demo_claimed demo_claim_applied)
    as (d & p & n & Had & _ & Hn & E). rewrite E.
  apply (effect_apply_admitted effect_sha_laws demo_effect demo_claim 200 local_process d p n);
    [vm_compute; reflexivity|lia|vm_compute; reflexivity|exact Had|exact Hn].
Defined.

Lemma effect_lease_fencing_witness :
  demo_effect_apply (demo_effect_command "cancel-1" (EcCancel (lit "late"))) 700 demo_settled
  = demo_settled.
Proof.
  destruct (effect_lease_fencing demo_settled) as (_ & _ & _ & H).
  apply H; [vm_compute; reflexivity|]. apply rtc_once.
  eexists (demo_effect_command "cancel-1" (EcCancel (lit "late"))), 700%Z, local_process, _.
  split; [lia|]. apply surjective_pairing.
Defined.

Lemma effect_idempotent_witness :
  eff_apply demo_claim 900 local_process demo_uncertain = (demo_uncertain, Ok EffDuplicate).
Proof.
  destruct (effect_idempotent demo_effect demo_claimed demo_uncertain demo_claim 200 local_process)
    as [H _]; [vm_compute; reflexivity|lia|vm_compute; reflexivity|exact demo_claim_applied| |apply H].
  apply rtc_once. exists demo_unknown, 300%Z, local_process, (Ok EffApplied).
  split; [lia|exact demo_unknown_applied].
Defined.

(** *** Stores *)

Definition demo_ledger : MemoryEffects := {| me_effects := ∅; me_idempotency := ∅ |}.
Definition demo_stored : MemoryEffects :=
  (eff_create_as (lit "e1") demo_effect_request 100 local_process demo_ledger).1.

Lemma demo_ledger_inv : ec_inv demo_ledger.
Proof.
  split; [apply map_Forall_empty|]. intros c id. simpl. rewrite lookup_empty. split; [done|].
  intros (sn & Hs & _). by rewrite lookup_empty in Hs.
Qed.

Lemma demo_effect_create_call :
  succeeds (λ sn, bool_decide (es_id sn = lit "e1"))
    (eff_create_as (lit "e1") demo_effect_request 100 local_process demo_ledger) = true.
Proof. vm_compute. reflexivity. Qed.

(** The same tuple under another identity: the first Effect is returned. *)
Lemma demo_create_again :
  succeeds (λ sn, bool_decide (es_id sn = lit "e1"))
    (eff_create_as (lit "e2") demo_effect_request 150 local_process demo_stored) = true.
Proof. vm_compute. reflexivity. Qed.

Lemma demo_list_call :
  succeeds (λ page, bool_decide (pg_effects page ≠ []))
    (eff_list_as (Some (page_state_name StatePending)) None 5 local_process demo_stored) = true.
Proof. vm_compute. reflexivity. Qed.

Lemma demo_stored_execution : ec_execution demo_stored.
Proof.
  exists demo_ledger. split_and!; [apply demo_ledger_inv|done|]. apply rtc_once.
  eapply (ec_create demo_ledger (lit "e1") demo_effect_request 100 local_process); [lia|].
  apply surjective_pairing.
Qed.

Lemma demo_stored_inv : ec_inv demo_stored.
Proof. apply ec_execution_inv, demo_stored_execution. Qed.

(** The stored Effect carries the tuple of the request. *)
Lemma demo_stored_lookup :
  ∃ cur, ec_view demo_stored !! effect_key (lit "e1") None = Some cur ∧
    coordinate (effect_key (lit "e1") None) cur = request_coordinate [] demo_effect_request.
Proof. eexists. split; vm_compute; reflexivity. Qed.

Lemma effect_unique_intent_witness :
  ∃ s' sn, eff_create_as (lit "e2") demo_effect_request 150 local_process demo_stored = (s', Ok sn) ∧
    ec_view s' = ec_view demo_stored ∧ coords_unique (ec_view s').
Proof.
  destruct (succeeds_with _ _ demo_create_again) as (sn & E & _).
  destruct (succeeds_with _ _ demo_effect_create_call) as (sn1 & E1 & _).
  eexists _, sn. split; [exact E|].
  destruct (effect_unique_intent demo_stored _ demo_stored_execution
    (ec_create demo_stored (lit "e2") demo_effect_request 150 local_process _ _ ltac:(lia) E))
    as (_ & Hu & _ & H).
  split; [|exact Hu].
  destruct (demo_stored_lookup) as (cur & Hcur & Hc).
  exact (proj1 (H _ _ _ _ _ _ _ E Hcur Hc)).
Defined.

Lemma effect_pages_exact_witness :
  ∃ s' page, eff_list_as (Some (page_state_name StatePending)) None 5 local_process demo_stored
      = (s', Ok page) ∧
    validate_effect_page "Executor" page None 5 local_process StatePending = Ok () ∧
    pg_effects page ≠ [].
Proof.
  destruct (succeeds_with _ _ demo_list_call) as (page & E & Hne).
  eexists _, page. split; [exact E|].
  destruct (effect_pages_exact demo_stored (eff_list_as (Some (page_state_name StatePending)) None 5
    local_process demo_stored).1 5 local_process demo_stored_inv) as [H _].
  destruct (H "Executor"%string StatePending None page E) as [Hv _].
  split; [exact Hv|]. by apply bool_decide_eq_true in Hne.
Defined.
