(* ===== verification/Governor.v ===== *)
(** Admission control for the dispatch of Effects, from
    src/src/effect/governor.rs: policies, lanes with a fixed-window budget and
    a circuit breaker, admissions and their settlement, the
    [EffectDispatchGovernor] trait and its in-memory implementation.  The
    durable implementation is in GovernorStore.v.

    [decide] and [apply_settlement] change a lane in place and may fail after
    they have begun to change it, so they are computations on the lane's
    state that keep their partial changes on an error, as the code does. *)

From Stdlib Require Import ZArith Lia.
From stdpp Require Import base tactics list gmap numbers strings option.
From stdpp Require Import list.
From S2P Require Import Prelude Kernel Digest Json Effect.

Definition EFFECT_DISPATCH_GOVERNOR_SCHEMA_VERSION : Z := 1.
Definition MAX_POLICY_ID_BYTES : Z := 128.
Definition MAX_POLICY_JSON_BYTES : Z := 4096.
Definition MAX_LANE_STATE_JSON_BYTES : Z := 4096.
Definition MAX_ADMISSION_JSON_BYTES : Z := 8192.
Definition MAX_ADMISSIONS : Z := 1000000.
Definition MAX_LANES : Z := 1000000.
Definition MAX_RATE_LIMIT : Z := 1000000.
Definition MAX_WINDOW_MS : Z := 86400000.
Definition MAX_FAILURE_THRESHOLD : Z := 1000000.
Definition MAX_OPEN_DURATION_MS : Z := 604800000.
Definition MAX_PROBE_LEASE_MS : Z := 86400000.
Definition MIN_ADMISSION_RETENTION_MS : Z := 604800000.
Definition MAX_ADMISSION_RETENTION_MS : Z := 31536000000.

(** * Data *)

Record EffectDispatchGovernorPolicy := {
  gp_policy_id : str;
  gp_max_dispatches_per_window : Z;
  gp_window_ms : Z;
  gp_failure_threshold : Z;
  gp_open_duration_ms : Z;
  gp_probe_lease_ms : Z;
  gp_admission_retention_ms : Z;
}.

Record EffectDispatchAdmissionRequest := {
  dr_admission_id : EffectLeaseId;
  dr_operation : EffectOperation;
  dr_policy : EffectDispatchGovernorPolicy;
  dr_admitted_at_ms : Z;
}.

Inductive EffectDispatchAdmissionDecision :=
| AdAllow
| AdAllowProbe
| AdRateLimited (retry_at_ms : Z)
| AdCircuitOpen (retry_at_ms : Z).

Inductive EffectDispatchSettlement :=
| DsHealthy
| DsAvailabilityFailure
| DsAbandoned.

Record LaneState := {
  ls_policy_sha256 : str;
  ls_last_observed_at_ms : Z;
  ls_window_started_at_ms : Z;
  ls_window_count : Z;
  ls_consecutive_failures : Z;
  ls_circuit_epoch : Z;
  ls_open_until_ms : option Z;
  ls_probe_admission_id : option EffectLeaseId;
  ls_probe_expires_at_ms : option Z;
}.

Record AdmissionRecord := {
  ar_operation : EffectOperation;
  ar_policy : EffectDispatchGovernorPolicy;
  ar_policy_sha256 : str;
  ar_admitted_at_ms : Z;
  ar_expires_at_ms : Z;
  ar_circuit_epoch : Z;
  ar_decision : EffectDispatchAdmissionDecision;
  ar_settlement : option EffectDispatchSettlement;
}.

Record LaneKey := {
  lk_tenant_id : str;
  lk_capability : str;
  lk_operation : str;
  lk_policy_id : str;
}.

#[global] Instance EffectDispatchGovernorPolicy_eq : EqDecision EffectDispatchGovernorPolicy.
Proof. solve_decision. Defined.
#[global] Instance EffectDispatchAdmissionDecision_eq : EqDecision EffectDispatchAdmissionDecision.
Proof. solve_decision. Defined.
#[global] Instance EffectDispatchSettlement_eq : EqDecision EffectDispatchSettlement.
Proof. solve_decision. Defined.
#[global] Instance LaneState_eq : EqDecision LaneState.
Proof. solve_decision. Defined.
#[global] Instance AdmissionRecord_eq : EqDecision AdmissionRecord.
Proof. solve_decision. Defined.
#[global] Instance LaneKey_eq : EqDecision LaneKey.
Proof. solve_decision. Defined.
#[global] Instance LaneKey_countable : Countable LaneKey.
Proof.
  refine (inj_countable' (λ k, (lk_tenant_id k, lk_capability k, lk_operation k, lk_policy_id k))
    (λ p, {| lk_tenant_id := p.1.1.1; lk_capability := p.1.1.2; lk_operation := p.1.2;
             lk_policy_id := p.2 |}) _).
  by intros [].
Defined.

(** [MemoryState]. *)
Record GovernorState := {
  gs_lanes : gmap LaneKey LaneState;
  gs_admissions : gmap (str * EffectLeaseId) AdmissionRecord;
}.

Record ValidatedAdmission := {
  va_admission_id : EffectLeaseId;
  va_operation : EffectOperation;
  va_policy : EffectDispatchGovernorPolicy;
  va_policy_sha256 : str;
  va_admitted_at_ms : Z;
  va_lane : LaneKey;
}.

(** * Errors and validators *)

Definition GOVERNOR : string := "Effect dispatch governor: ".

(** [governor_error]. *)
Definition gov (t : string) (a : list arg) : HarnessError :=
  Prelude.Effect (prefixed GOVERNOR (fmt t a)).

(** [effect_error]. *)
Definition gov_effect_error (e : HarnessError) : HarnessError :=
  Prelude.Effect (prefixed GOVERNOR (error_text e)).

Definition gov_validate_operation (o : EffectOperation) : result () :=
  _ ← map_err gov_effect_error
        (validate_capability_name "Effect dispatch-governor capability" (eo_capability o));
  map_err gov_effect_error
    (validate_capability_name "Effect dispatch-governor operation" (eo_operation o)).

Definition gov_validate_digest (value : str) : result () :=
  reject_if (negb (is_lower_sha256 value)) (gov "policy digest is not lowercase SHA-256" []).

Definition fixed_window_start (now_ms window_ms : Z) : Z := now_ms - now_ms mod window_ms.

(** [tenant_key] of an authority. *)
Definition gov_tenant (a : AuthorityContext) : str := default [] (tenant_id a).

Definition lane_key (o : EffectOperation) (p : EffectDispatchGovernorPolicy) (tenant : str)
    : LaneKey :=
  {| lk_tenant_id := tenant; lk_capability := eo_capability o; lk_operation := eo_operation o;
     lk_policy_id := gp_policy_id p |}.

(** * Lanes *)

(** Assignments to the fields of a lane. *)
Definition set_observed (now : Z) (l : LaneState) : LaneState :=
  {| ls_policy_sha256 := ls_policy_sha256 l; ls_last_observed_at_ms := now;
     ls_window_started_at_ms := ls_window_started_at_ms l; ls_window_count := ls_window_count l;
     ls_consecutive_failures := ls_consecutive_failures l; ls_circuit_epoch := ls_circuit_epoch l;
     ls_open_until_ms := ls_open_until_ms l; ls_probe_admission_id := ls_probe_admission_id l;
     ls_probe_expires_at_ms := ls_probe_expires_at_ms l |}.
Definition set_window (started count : Z) (l : LaneState) : LaneState :=
  {| ls_policy_sha256 := ls_policy_sha256 l; ls_last_observed_at_ms := ls_last_observed_at_ms l;
     ls_window_started_at_ms := started; ls_window_count := count;
     ls_consecutive_failures := ls_consecutive_failures l; ls_circuit_epoch := ls_circuit_epoch l;
     ls_open_until_ms := ls_open_until_ms l; ls_probe_admission_id := ls_probe_admission_id l;
     ls_probe_expires_at_ms := ls_probe_expires_at_ms l |}.
Definition set_failures (n : Z) (l : LaneState) : LaneState :=
  {| ls_policy_sha256 := ls_policy_sha256 l; ls_last_observed_at_ms := ls_last_observed_at_ms l;
     ls_window_started_at_ms := ls_window_started_at_ms l; ls_window_count := ls_window_count l;
     ls_consecutive_failures := n; ls_circuit_epoch := ls_circuit_epoch l;
     ls_open_until_ms := ls_open_until_ms l; ls_probe_admission_id := ls_probe_admission_id l;
     ls_probe_expires_at_ms := ls_probe_expires_at_ms l |}.
Definition set_epoch (n : Z) (l : LaneState) : LaneState :=
  {| ls_policy_sha256 := ls_policy_sha256 l; ls_last_observed_at_ms := ls_last_observed_at_ms l;
     ls_window_started_at_ms := ls_window_started_at_ms l; ls_window_count := ls_window_count l;
     ls_consecutive_failures := ls_consecutive_failures l; ls_circuit_epoch := n;
     ls_open_until_ms := ls_open_until_ms l; ls_probe_admission_id := ls_probe_admission_id l;
     ls_probe_expires_at_ms := ls_probe_expires_at_ms l |}.
Definition set_open (until : option Z) (l : LaneState) : LaneState :=
  {| ls_policy_sha256 := ls_policy_sha256 l; ls_last_observed_at_ms := ls_last_observed_at_ms l;
     ls_window_started_at_ms := ls_window_started_at_ms l; ls_window_count := ls_window_count l;
     ls_consecutive_failures := ls_consecutive_failures l; ls_circuit_epoch := ls_circuit_epoch l;
     ls_open_until_ms := until; ls_probe_admission_id := ls_probe_admission_id l;
     ls_probe_expires_at_ms := ls_probe_expires_at_ms l |}.
Definition set_probe (id : option EffectLeaseId) (expires : option Z) (l : LaneState) : LaneState :=
  {| ls_policy_sha256 := ls_policy_sha256 l; ls_last_observed_at_ms := ls_last_observed_at_ms l;
     ls_window_started_at_ms := ls_window_started_at_ms l; ls_window_count := ls_window_count l;
     ls_consecutive_failures := ls_consecutive_failures l; ls_circuit_epoch := ls_circuit_epoch l;
     ls_open_until_ms := ls_open_until_ms l; ls_probe_admission_id := id;
     ls_probe_expires_at_ms := expires |}.

(** [decide]. *)
Definition decide_lane (request : ValidatedAdmission)
    : M LaneState (EffectDispatchAdmissionDecision * Z) :=
  let now := va_admitted_at_ms request in
  lane ← get;
  _ ← lift (reject_if (now <? ls_last_observed_at_ms lane)%Z
              (gov "trusted admission clock moved backwards" []));
  _ ← modify (set_observed now);
  lane ← get;
  let expired :=
    match ls_probe_expires_at_ms lane with Some deadline => (deadline <=? now)%Z | None => false end in
  _ ← (if expired then modify (set_probe None None) else mret ());
  lane ← get;
  match ls_open_until_ms lane with
  | Some open_until =>
      if (now <? open_until)%Z then mret (AdCircuitOpen open_until, ls_circuit_epoch lane)
      else
        match ls_probe_expires_at_ms lane with
        | Some probe_until => mret (AdCircuitOpen probe_until, ls_circuit_epoch lane)
        | None =>
            probe_until ← lift (ok_or (checked_add u64_max now (gp_probe_lease_ms (va_policy request)))
                                  (gov "probe lease time overflow" []));
            _ ← modify (set_probe (Some (va_admission_id request)) (Some probe_until));
            mret (AdAllowProbe, ls_circuit_epoch lane)
        end
  | None =>
      let window_started := fixed_window_start now (gp_window_ms (va_policy request)) in
      _ ← (if negb (ls_window_started_at_ms lane =? window_started)%Z
           then modify (set_window window_started 0) else mret ());
      lane ← get;
      if (gp_max_dispatches_per_window (va_policy request) <=? ls_window_count lane)%Z
      then
        retry_at_ms ← lift (ok_or (checked_add u64_max window_started (gp_window_ms (va_policy request)))
                              (gov "rate-limit retry time overflow" []));
        mret (AdRateLimited retry_at_ms, ls_circuit_epoch lane)
      else
        count ← lift (ok_or (checked_add u32_max (ls_window_count lane) 1)
                        (gov "rate-limit counter overflow" []));
        _ ← modify (set_window (ls_window_started_at_ms lane) count);
        mret (AdAllow, ls_circuit_epoch lane)
  end.

(** [lane.circuit_epoch += 1; lane.open_until_ms = Some(effective + duration)]. *)
Definition open_circuit (effective_at_ms open_duration_ms : Z) : M LaneState () :=
  lane ← get;
  epoch ← lift (ok_or (checked_add u64_max (ls_circuit_epoch lane) 1) (gov "circuit epoch overflow" []));
  _ ← modify (set_epoch epoch);
  until ← lift (ok_or (checked_add u64_max effective_at_ms open_duration_ms)
                  (gov "circuit retry time overflow" []));
  _ ← modify (set_open (Some until));
  modify (set_probe None None).

Definition is_probe (d : EffectDispatchAdmissionDecision) : bool :=
  match d with AdAllowProbe => true | _ => false end.

Definition apply_settlement (admission_id : EffectLeaseId) (record : AdmissionRecord)
    (settlement : EffectDispatchSettlement) (settled_at_ms : Z) : M LaneState () :=
  lane ← get;
  if negb (ar_circuit_epoch record =? ls_circuit_epoch lane)%Z then mret ()
  else
    let probe := is_probe (ar_decision record) in
    if probe && bool_decide (ls_probe_admission_id lane ≠ Some admission_id) then mret ()
    else
      let effective_at_ms := Z.max settled_at_ms (ls_last_observed_at_ms lane) in
      _ ← modify (set_observed effective_at_ms);
      match probe, settlement with
      | true, DsHealthy =>
          modify (λ l, set_failures 0 (set_probe None None (set_open None l)))
      | true, DsAvailabilityFailure =>
          _ ← open_circuit effective_at_ms (gp_open_duration_ms (ar_policy record));
          modify (set_failures (gp_failure_threshold (ar_policy record)))
      | true, DsAbandoned => modify (set_probe None None)
      | false, DsHealthy => modify (set_failures 0)
      | false, DsAvailabilityFailure =>
          failures ← lift (ok_or (checked_add u32_max (ls_consecutive_failures lane) 1)
                             (gov "failure counter overflow" []));
          _ ← modify (set_failures failures);
          if (gp_failure_threshold (ar_policy record) <=? failures)%Z
          then open_circuit effective_at_ms (gp_open_duration_ms (ar_policy record))
          else mret ()
      | false, DsAbandoned => mret ()
      end.

Definition initial_lane (request : ValidatedAdmission) : LaneState :=
  {| ls_policy_sha256 := va_policy_sha256 request;
     ls_last_observed_at_ms := va_admitted_at_ms request;
     ls_window_started_at_ms :=
       fixed_window_start (va_admitted_at_ms request) (gp_window_ms (va_policy request));
     ls_window_count := 0; ls_consecutive_failures := 0; ls_circuit_epoch := 1;
     ls_open_until_ms := None; ls_probe_admission_id := None; ls_probe_expires_at_ms := None |}.

Definition admission_record (request : ValidatedAdmission) (circuit_epoch : Z)
    (decision : EffectDispatchAdmissionDecision) : result AdmissionRecord :=
  expires_at_ms ← ok_or (checked_add u64_max (va_admitted_at_ms request)
                           (gp_admission_retention_ms (va_policy request)))
                    (gov "admission retention time overflow" []);
  Ok {| ar_operation := va_operation request; ar_policy := va_policy request;
        ar_policy_sha256 := va_policy_sha256 request;
        ar_admitted_at_ms := va_admitted_at_ms request; ar_expires_at_ms := expires_at_ms;
        ar_circuit_epoch := circuit_epoch; ar_decision := decision; ar_settlement := None |}.

Definition validate_duplicate (existing : AdmissionRecord) (request : ValidatedAdmission)
    : result () :=
  reject_if (bool_decide (ar_operation existing ≠ va_operation request)
             || bool_decide (gp_policy_id (ar_policy existing) ≠ gp_policy_id (va_policy request))
             || bool_decide (ar_policy_sha256 existing ≠ va_policy_sha256 request))
    (gov "admission identity is already bound to different content" []).

Definition validate_settlement_record (record : AdmissionRecord)
    (settlement : EffectDispatchSettlement) (settled_at_ms : Z) : result () :=
  _ ← reject_if (match ar_decision record with AdAllow | AdAllowProbe => false | _ => true end)
        (gov "denied admission cannot be settled" []);
  _ ← reject_if (settled_at_ms <? ar_admitted_at_ms record)%Z
        (gov "settlement time precedes admission" []);
  reject_if (match ar_settlement record with
             | Some existing => bool_decide (existing ≠ settlement)
             | None => false
             end) (gov "admission is already settled with different evidence" []).

Definition validate_settlement (admission_id : EffectLeaseId) (settled_at_ms : Z)
    (authority : AuthorityContext) : result () :=
  _ ← map_err gov_effect_error
        (authority_validate_current authority "Effect dispatch-governor authority");
  _ ← eff_validate_identity "Effect dispatch admission" admission_id;
  eff_validate_application_time settled_at_ms.

Definition validate_lane_policy (lane : LaneState) (digest : str) : result () :=
  if bool_decide (ls_policy_sha256 lane = digest) then Ok ()
  else Err (gov "policy_id is already bound to different parameters" []).

Definition validate_lane_state (lane : LaneState) : result () :=
  _ ← gov_validate_digest (ls_policy_sha256 lane);
  _ ← reject_if ((ls_last_observed_at_ms lane =? 0)%Z || (ls_circuit_epoch lane =? 0)%Z
                 || (MAX_FAILURE_THRESHOLD <? ls_consecutive_failures lane)%Z)
        (gov "lane counters are invalid" []);
  _ ← reject_if (negb (bool_decide (is_Some (ls_probe_admission_id lane) ↔
                                    is_Some (ls_probe_expires_at_ms lane))))
        (gov "lane probe evidence is partial" []);
  reject_if (bool_decide (ls_open_until_ms lane = Some 0%Z)
             || bool_decide (ls_probe_expires_at_ms lane = Some 0%Z))
    (gov "lane deadline is invalid" []).

(** * The trait *)

Class EffectDispatchGovernor (W : Type) := {
  admit_as : EffectDispatchAdmissionRequest → AuthorityContext →
             M W EffectDispatchAdmissionDecision;
  settle_as : EffectLeaseId → EffectDispatchSettlement → Z → AuthorityContext → M W ();
}.

Section governor.
Context `{!Serialize EffectDispatchGovernorPolicy, sha : !Sha256}.

Definition policy_digest (policy : EffectDispatchGovernorPolicy) : result str :=
  encoded ← ok_or (to_json policy) (gov "cannot encode dispatch-governor policy" []);
  _ ← reject_if (MAX_POLICY_JSON_BYTES <? str_len encoded)%Z
        (gov "dispatch-governor policy is too large" []);
  Ok (lower_sha256 encoded).

(** [EffectDispatchGovernorPolicy::validate]. *)
Definition gp_validate (p : EffectDispatchGovernorPolicy) : result () :=
  _ ← map_err gov_effect_error
        (validate_capability_name "Effect dispatch-governor policy" (gp_policy_id p));
  _ ← reject_if (MAX_POLICY_ID_BYTES <? str_len (gp_policy_id p))%Z
        (gov "policy_id exceeds {} bytes" [ANum MAX_POLICY_ID_BYTES]);
  _ ← reject_if (negb (in_range 1 MAX_RATE_LIMIT (gp_max_dispatches_per_window p)))
        (gov "max_dispatches_per_window must be 1-{}" [ANum MAX_RATE_LIMIT]);
  _ ← reject_if (negb (in_range 1 MAX_WINDOW_MS (gp_window_ms p)))
        (gov "window_ms must be 1-{}" [ANum MAX_WINDOW_MS]);
  _ ← reject_if (negb (in_range 1 MAX_FAILURE_THRESHOLD (gp_failure_threshold p)))
        (gov "failure_threshold must be 1-{}" [ANum MAX_FAILURE_THRESHOLD]);
  _ ← reject_if (negb (in_range 1 MAX_OPEN_DURATION_MS (gp_open_duration_ms p)))
        (gov "open_duration_ms must be 1-{}" [ANum MAX_OPEN_DURATION_MS]);
  _ ← reject_if (negb (in_range 1 MAX_PROBE_LEASE_MS (gp_probe_lease_ms p)))
        (gov "probe_lease_ms must be 1-{}" [ANum MAX_PROBE_LEASE_MS]);
  _ ← reject_if (negb (in_range MIN_ADMISSION_RETENTION_MS MAX_ADMISSION_RETENTION_MS
                         (gp_admission_retention_ms p)))
        (gov "admission_retention_ms must be {}-{}"
          [ANum MIN_ADMISSION_RETENTION_MS; ANum MAX_ADMISSION_RETENTION_MS]);
  let minimum_retention :=
    Z.max (Z.max (gp_window_ms p) (gp_open_duration_ms p)) (gp_probe_lease_ms p) in
  _ ← reject_if (gp_admission_retention_ms p <? minimum_retention)%Z
        (gov "admission_retention_ms must cover every governor duration" []);
  _ ← policy_digest p;
  Ok ().

Definition validate_admission_record (r : AdmissionRecord) : result () :=
  _ ← gov_validate_operation (ar_operation r);
  _ ← gp_validate (ar_policy r);
  _ ← gov_validate_digest (ar_policy_sha256 r);
  digest ← policy_digest (ar_policy r);
  _ ← reject_if (bool_decide (digest ≠ ar_policy_sha256 r))
        (gov "admission policy digest is invalid" []);
  _ ← eff_validate_application_time (ar_admitted_at_ms r);
  _ ← reject_if ((ar_expires_at_ms r <=? ar_admitted_at_ms r)%Z || (ar_circuit_epoch r =? 0)%Z)
        (gov "admission timing or epoch is invalid" []);
  match ar_decision r with
  | AdRateLimited retry_at_ms | AdCircuitOpen retry_at_ms =>
      reject_if (retry_at_ms <? ar_admitted_at_ms r)%Z
        (gov "admission retry time precedes admission" [])
  | _ => Ok ()
  end.

(** [ValidatedAdmission::new]. *)
Definition ValidatedAdmission_new (request : EffectDispatchAdmissionRequest)
    (authority : AuthorityContext) : result ValidatedAdmission :=
  _ ← map_err gov_effect_error
        (authority_validate_current authority "Effect dispatch-governor authority");
  _ ← eff_validate_identity "Effect dispatch admission" (dr_admission_id request);
  _ ← gov_validate_operation (dr_operation request);
  _ ← gp_validate (dr_policy request);
  _ ← eff_validate_application_time (dr_admitted_at_ms request);
  policy_sha256 ← policy_digest (dr_policy request);
  Ok {| va_admission_id := dr_admission_id request; va_operation := dr_operation request;
        va_policy := dr_policy request; va_policy_sha256 := policy_sha256;
        va_admitted_at_ms := dr_admitted_at_ms request;
        va_lane := lane_key (dr_operation request) (dr_policy request) (gov_tenant authority) |}.

(** * [MemoryEffectDispatchGovernor] *)

Definition prune_memory (at_ms : Z) (s : GovernorState) : GovernorState :=
  {| gs_lanes := gs_lanes s;
     gs_admissions := filter (λ p, (at_ms < ar_expires_at_ms p.2)%Z) (gs_admissions s) |}.

Definition insert_lane (key : LaneKey) (l : LaneState) (s : GovernorState) : GovernorState :=
  {| gs_lanes := <[key := l]> (gs_lanes s); gs_admissions := gs_admissions s |}.
Definition insert_admission (key : str * EffectLeaseId) (r : AdmissionRecord) (s : GovernorState)
    : GovernorState :=
  {| gs_lanes := gs_lanes s; gs_admissions := <[key := r]> (gs_admissions s) |}.

(** A computation on the lane a key refers to ([&mut LaneState]). *)
Definition with_lane {A} (key : LaneKey) (lane : LaneState) (m : M LaneState A)
    : M GovernorState A := λ s,
  match m lane with (lane', r) => (insert_lane key lane' s, r) end.

Definition mem_admit_as (request : EffectDispatchAdmissionRequest) (authority : AuthorityContext)
    : M GovernorState EffectDispatchAdmissionDecision :=
  validated ← lift (ValidatedAdmission_new request authority);
  _ ← modify (prune_memory (va_admitted_at_ms validated));
  state ← (get : M GovernorState GovernorState);
  let admission_key := (lk_tenant_id (va_lane validated), va_admission_id validated) in
  match gs_admissions state !! admission_key with
  | Some existing =>
      _ ← lift (validate_duplicate existing validated);
      mret (ar_decision existing)
  | None =>
      _ ← lift (reject_if (MAX_ADMISSIONS <=? Z.of_nat (size (gs_admissions state)))%Z
                  (gov "admission capacity exhausted" []));
      _ ← lift (reject_if (bool_decide (gs_lanes state !! va_lane validated = None)
                           && (MAX_LANES <=? Z.of_nat (size (gs_lanes state)))%Z)
                  (gov "lane capacity exhausted" []));
      let lane := default (initial_lane validated) (gs_lanes state !! va_lane validated) in
      _ ← modify (insert_lane (va_lane validated) lane);
      _ ← lift (validate_lane_policy lane (va_policy_sha256 validated));
      decided ← with_lane (va_lane validated) lane (decide_lane validated);
      record ← lift (admission_record validated decided.2 decided.1);
      _ ← modify (insert_admission admission_key record);
      mret decided.1
  end.

(** [record.settlement = Some(settlement)]. *)
Definition ar_settled (settlement : EffectDispatchSettlement) (r : AdmissionRecord)
    : AdmissionRecord :=
  {| ar_operation := ar_operation r; ar_policy := ar_policy r;
     ar_policy_sha256 := ar_policy_sha256 r; ar_admitted_at_ms := ar_admitted_at_ms r;
     ar_expires_at_ms := ar_expires_at_ms r; ar_circuit_epoch := ar_circuit_epoch r;
     ar_decision := ar_decision r; ar_settlement := Some settlement |}.

Definition mem_settle_as (admission_id : EffectLeaseId) (settlement : EffectDispatchSettlement)
    (settled_at_ms : Z) (authority : AuthorityContext) : M GovernorState () :=
  _ ← lift (validate_settlement admission_id settled_at_ms authority);
  let tenant := gov_tenant authority in
  let key := (tenant, admission_id) in
  state ← (get : M GovernorState GovernorState);
  record ← lift (ok_or (gs_admissions state !! key)
                   (gov "admission does not exist or retention expired" []));
  _ ← lift (validate_settlement_record record settlement settled_at_ms);
  match ar_settlement record with
  | Some _ => mret ()
  | None =>
      let lane_key := lane_key (ar_operation record) (ar_policy record) tenant in
      lane ← lift (ok_or (gs_lanes state !! lane_key) (gov "admission lane is missing" []));
      _ ← with_lane lane_key lane (apply_settlement admission_id record settlement settled_at_ms);
      modify (insert_admission key (ar_settled settlement record))
  end.

#[global] Instance MemoryEffectDispatchGovernor : EffectDispatchGovernor GovernorState := {|
  admit_as := mem_admit_as;
  settle_as := mem_settle_as;
|}.
End governor.
