(* ===== verification/GovernorSafety.v ===== *)
(** The lanes of the dispatch governor: what [decide] and [apply_settlement]
    of Governor.v do to a lane on every branch, written without the state
    monad, and the invariant of a lane against the admissions it has granted.

    What the dispatch governor guarantees over any sequence of calls: the
    budget of a window is never exceeded, an open circuit admits nothing and
    a half-open one admits a single probe, admissions are idempotent, and
    tenants do not see one another.

    A run is a sequence of admissions and settlements by any callers.  A call
    that fails either leaves the partial changes of the in-memory store or
    is rolled back, so the theorems hold of both stores. *)

From stdpp Require Import base tactics list gmap numbers strings option.
From Stdlib Require Import ZArith Lia.
From stdpp Require Import base tactics list gmap numbers strings option relations.
From stdpp Require Import list.
From S2P Require Import Prelude Kernel Digest Json Effect Governor.
Local Open Scope Z_scope.

(** * One decision *)

(** The lane after the clock was observed and an expired probe released. *)
Definition observed (now : Z) (l : LaneState) : LaneState :=
  let l := set_observed now l in
  if match ls_probe_expires_at_ms l with Some deadline => deadline <=? now | None => false end
  then set_probe None None l else l.

(** The lane with its window rolled to the one [now] lies in. *)
Definition rolled (now window_ms : Z) (l : LaneState) : LaneState :=
  if ls_window_started_at_ms l =? fixed_window_start now window_ms then l
  else set_window (fixed_window_start now window_ms) 0 l.

(** The outcomes of [decide]. *)
Inductive decided (r : ValidatedAdmission) (l : LaneState) :
    LaneState → result (EffectDispatchAdmissionDecision * Z) → Prop :=
| decided_backwards e :
    va_admitted_at_ms r < ls_last_observed_at_ms l → decided r l l (Err e)
| decided_open u :
    ls_last_observed_at_ms l ≤ va_admitted_at_ms r →
    ls_open_until_ms l = Some u → va_admitted_at_ms r < u →
    decided r l (observed (va_admitted_at_ms r) l) (Ok (AdCircuitOpen u, ls_circuit_epoch l))
| decided_probing u p :
    ls_last_observed_at_ms l ≤ va_admitted_at_ms r →
    ls_open_until_ms l = Some u → u ≤ va_admitted_at_ms r →
    ls_probe_expires_at_ms l = Some p → va_admitted_at_ms r < p →
    decided r l (observed (va_admitted_at_ms r) l) (Ok (AdCircuitOpen p, ls_circuit_epoch l))
| decided_probe u :
    ls_last_observed_at_ms l ≤ va_admitted_at_ms r →
    ls_open_until_ms l = Some u → u ≤ va_admitted_at_ms r →
    (∀ p, ls_probe_expires_at_ms l = Some p → p ≤ va_admitted_at_ms r) →
    decided r l
      (set_probe (Some (va_admission_id r))
         (Some (va_admitted_at_ms r + gp_probe_lease_ms (va_policy r)))
         (observed (va_admitted_at_ms r) l))
      (Ok (AdAllowProbe, ls_circuit_epoch l))
| decided_probe_overflow e :
    ls_last_observed_at_ms l ≤ va_admitted_at_ms r →
    u64_max < va_admitted_at_ms r + gp_probe_lease_ms (va_policy r) →
    decided r l (observed (va_admitted_at_ms r) l) (Err e)
| decided_limited :
    ls_last_observed_at_ms l ≤ va_admitted_at_ms r →
    ls_open_until_ms l = None →
    gp_max_dispatches_per_window (va_policy r) ≤
      ls_window_count (rolled (va_admitted_at_ms r) (gp_window_ms (va_policy r)) l) →
    decided r l
      (rolled (va_admitted_at_ms r) (gp_window_ms (va_policy r)) (observed (va_admitted_at_ms r) l))
      (Ok (AdRateLimited (fixed_window_start (va_admitted_at_ms r) (gp_window_ms (va_policy r))
                          + gp_window_ms (va_policy r)), ls_circuit_epoch l))
| decided_allow :
    ls_last_observed_at_ms l ≤ va_admitted_at_ms r →
    ls_open_until_ms l = None →
    ls_window_count (rolled (va_admitted_at_ms r) (gp_window_ms (va_policy r)) l) <
      gp_max_dispatches_per_window (va_policy r) →
    decided r l
      (set_window (fixed_window_start (va_admitted_at_ms r) (gp_window_ms (va_policy r)))
         (ls_window_count (rolled (va_admitted_at_ms r) (gp_window_ms (va_policy r)) l) + 1)
         (observed (va_admitted_at_ms r) l))
      (Ok (AdAllow, ls_circuit_epoch l))
| decided_window_overflow e :
    ls_last_observed_at_ms l ≤ va_admitted_at_ms r →
    ls_open_until_ms l = None →
    u64_max < va_admitted_at_ms r + gp_window_ms (va_policy r)
      ∨ u32_max ≤ ls_window_count (rolled (va_admitted_at_ms r) (gp_window_ms (va_policy r)) l) →
    decided r l
      (rolled (va_admitted_at_ms r) (gp_window_ms (va_policy r)) (observed (va_admitted_at_ms r) l))
      (Err e).

Lemma observed_fields now l :
  ls_policy_sha256 (observed now l) = ls_policy_sha256 l ∧
  ls_last_observed_at_ms (observed now l) = now ∧
  ls_window_started_at_ms (observed now l) = ls_window_started_at_ms l ∧
  ls_window_count (observed now l) = ls_window_count l ∧
  ls_consecutive_failures (observed now l) = ls_consecutive_failures l ∧
  ls_circuit_epoch (observed now l) = ls_circuit_epoch l ∧
  ls_open_until_ms (observed now l) = ls_open_until_ms l.
Proof. unfold observed. case_match; done. Qed.

Lemma observed_probe now l p :
  ls_probe_expires_at_ms (observed now l) = Some p ↔
  ls_probe_expires_at_ms l = Some p ∧ now < p.
Proof.
  unfold observed. simpl. destruct (ls_probe_expires_at_ms l) as [q|] eqn:E; simpl.
  - destruct (Z.leb_spec q now); simpl; rewrite ?E; split; naive_solver lia.
  - rewrite E. naive_solver.
Qed.

Lemma observed_probing now l x :
  ls_probe_expires_at_ms l = Some x → now < x → observed now l = set_observed now l.
Proof.
  intros H Hx. unfold observed. simpl. rewrite H. by destruct (Z.leb_spec x now); [lia|].
Qed.

Lemma fixed_window_start_le now w : 0 < w → 0 ≤ now → 0 ≤ fixed_window_start now w ≤ now.
Proof.
  intros Hw Hn. unfold fixed_window_start.
  pose proof (Z.mod_pos_bound now w Hw). pose proof (Z.mod_le now w Hn Hw). lia.
Qed.

Lemma fixed_window_start_mono a b w :
  0 < w → a ≤ b → fixed_window_start a w ≤ fixed_window_start b w.
Proof.
  intros Hw Hab. unfold fixed_window_start. rewrite !Z.mod_eq by lia.
  pose proof (Z.div_le_mono a b w Hw Hab). nia.
Qed.

Lemma decide_lane_decided r l l' res :
  0 < gp_window_ms (va_policy r) → 0 ≤ va_admitted_at_ms r →
  decide_lane r l = (l', res) → decided r l l' res.
Proof.
  intros Hw Hn. set (now := va_admitted_at_ms r).
  pose proof (fixed_window_start_le now _ Hw Hn) as Hf.
  unfold decide_lane. fold now. unfold mbind, M_bind, mret, M_ret, get, modify, lift, reject_if.
  destruct (Z.ltb_spec now (ls_last_observed_at_ms l)) as [Hb|Hb].
  { intros [= <- <-]. by apply decided_backwards. }
  assert (∀ A (k : () → M LaneState A),
    match (if match ls_probe_expires_at_ms (set_observed now l) with
              | Some deadline => deadline <=? now | None => false end
           then λ s, (set_probe None None s, Ok ()) else λ s, (s, Ok ())) (set_observed now l) with
    | (s', Ok a) => k a s'
    | (s', Err e) => (s', Err e)
    end = k () (observed now l)) as Hobs.
  { intros A k. unfold observed. simpl. by destruct (match ls_probe_expires_at_ms l with Some deadline => deadline <=? now | None => false end). }
  rewrite Hobs. clear Hobs.
  destruct (observed_fields now l) as (_ & _ & Hs & Hc & _ & He & Ho). rewrite Ho, He.
  destruct (ls_open_until_ms l) as [u|] eqn:Eo.
  - destruct (Z.ltb_spec now u) as [Hu|Hu].
    { intros [= <- <-]. by apply decided_open. }
    destruct (ls_probe_expires_at_ms (observed now l)) as [p|] eqn:Ep.
    { intros [= <- <-]. apply observed_probe in Ep as [Ep ?]. by eapply decided_probing. }
    unfold checked_add, ok_or. destruct (Z.leb_spec (now + gp_probe_lease_ms (va_policy r)) u64_max).
    + intros [= <- <-]. eapply decided_probe; [done..|]. intros p Hp.
      destruct (Z.le_gt_cases p now) as [?|Hlt]; [done|].
      by rewrite (proj2 (observed_probe now l p) (conj Hp Hlt)) in Ep.
    + intros [= <- <-]. by apply decided_probe_overflow.
  - set (ws := fixed_window_start now (gp_window_ms (va_policy r))) in *.
    assert (∀ A (k : () → M LaneState A),
      match (if negb (ls_window_started_at_ms (observed now l) =? ws)
             then λ s, (set_window ws 0 s, Ok ()) else λ s, (s, Ok ())) (observed now l) with
      | (s', Ok a) => k a s'
      | (s', Err e) => (s', Err e)
      end = k () (rolled now (gp_window_ms (va_policy r)) (observed now l))) as Hr.
    { intros A k. unfold rolled. fold ws. by destruct (_ =? ws). }
    rewrite Hr. clear Hr.
    assert (ls_window_count (rolled now (gp_window_ms (va_policy r)) (observed now l)) =
            ls_window_count (rolled now (gp_window_ms (va_policy r)) l)) as ->.
    { unfold rolled. rewrite Hs. fold ws. by destruct (_ =? ws). }
    assert (ls_window_started_at_ms (rolled now (gp_window_ms (va_policy r)) (observed now l)) = ws) as ->.
    { unfold rolled. rewrite Hs. fold ws. destruct (Z.eqb_spec (ls_window_started_at_ms l) ws); [congruence|done]. }
    assert (ls_circuit_epoch (rolled now (gp_window_ms (va_policy r)) (observed now l)) =
            ls_circuit_epoch l) as ->.
    { unfold rolled. by destruct (_ =? _). }
    unfold checked_add, ok_or.
    destruct (Z.leb_spec (gp_max_dispatches_per_window (va_policy r))
      (ls_window_count (rolled now (gp_window_ms (va_policy r)) l))).
    + destruct (Z.leb_spec (ws + gp_window_ms (va_policy r)) u64_max); intros [= <- <-].
      * by apply decided_limited.
      * apply decided_window_overflow; [done..|]. left. fold now. lia.
    + destruct (Z.leb_spec (ls_window_count (rolled now (gp_window_ms (va_policy r)) l) + 1) u32_max);
        intros [= <- <-].
      * assert (∀ n, set_window ws n (rolled now (gp_window_ms (va_policy r)) (observed now l)) =
                     set_window ws n (observed now l)) as ->.
        { intros n. unfold rolled. by destruct (_ =? _). }
        by apply decided_allow.
      * apply decided_window_overflow; [done..|]. right. fold now. lia.
Qed.

(** * One settlement *)

(** The lane after its circuit was opened at [now]. *)
Definition opened (now duration : Z) (l : LaneState) : LaneState :=
  set_probe None None (set_open (Some (now + duration)) (set_epoch (ls_circuit_epoch l + 1) l)).

Lemma open_circuit_ok now d l l' u :
  open_circuit now d l = (l', Ok u) → l' = opened now d l ∧ now + d ≤ u64_max ∧
  ls_circuit_epoch l + 1 ≤ u64_max.
Proof.
  unfold open_circuit. intros H. inv_M. inv_ok.
  repeat match goal with H : checked_add _ _ _ = Some _ |- _ => apply checked_add_Some in H as [-> ?] end.
  done.
Qed.

Lemma open_circuit_err now d l l' e :
  open_circuit now d l = (l', Err e) →
  l' = l ∨ l' = set_epoch (ls_circuit_epoch l + 1) l.
Proof.
  unfold open_circuit. unfold mbind, M_bind, get, lift, modify, ok_or.
  destruct (checked_add _ _ 1) as [n|] eqn:E1; [|intros [= <- _]; by left].
  apply checked_add_Some in E1 as [-> _].
  destruct (checked_add _ now d) as [m|] eqn:E2; intros [=]. by right.
Qed.

(** The settlement concerns the lane as it is now. *)
Definition current (id : EffectLeaseId) (r : AdmissionRecord) (l : LaneState) : Prop :=
  ar_circuit_epoch r = ls_circuit_epoch l ∧
  (ar_decision r = AdAllowProbe → ls_probe_admission_id l = Some id).

(** The outcomes of [apply_settlement] on a current admission. *)
Inductive settled (r : AdmissionRecord) (now : Z) (l : LaneState) :
    EffectDispatchSettlement → LaneState → Prop :=
| settled_probe_healthy :
    ar_decision r = AdAllowProbe →
    settled r now l DsHealthy (set_failures 0 (set_probe None None (set_open None (set_observed now l))))
| settled_probe_failure :
    ar_decision r = AdAllowProbe → now + gp_open_duration_ms (ar_policy r) ≤ u64_max →
    settled r now l DsAvailabilityFailure
      (set_failures (gp_failure_threshold (ar_policy r))
         (opened now (gp_open_duration_ms (ar_policy r)) (set_observed now l)))
| settled_probe_abandoned :
    ar_decision r = AdAllowProbe →
    settled r now l DsAbandoned (set_probe None None (set_observed now l))
| settled_healthy :
    ar_decision r ≠ AdAllowProbe →
    settled r now l DsHealthy (set_failures 0 (set_observed now l))
| settled_failure :
    ar_decision r ≠ AdAllowProbe →
    ls_consecutive_failures l + 1 < gp_failure_threshold (ar_policy r) →
    settled r now l DsAvailabilityFailure
      (set_failures (ls_consecutive_failures l + 1) (set_observed now l))
| settled_opens :
    ar_decision r ≠ AdAllowProbe →
    gp_failure_threshold (ar_policy r) ≤ ls_consecutive_failures l + 1 →
    now + gp_open_duration_ms (ar_policy r) ≤ u64_max →
    settled r now l DsAvailabilityFailure
      (opened now (gp_open_duration_ms (ar_policy r))
         (set_failures (ls_consecutive_failures l + 1) (set_observed now l)))
| settled_abandoned :
    ar_decision r ≠ AdAllowProbe →
    settled r now l DsAbandoned (set_observed now l).

(** A settlement that failed on an overflow: it may have noted the time, the
    failure and a new epoch, and nothing else. *)
Definition overflowed (now : Z) (l l' : LaneState) : Prop :=
  ∃ failures epoch, ls_circuit_epoch l ≤ epoch ∧
    l' = set_epoch epoch (set_failures failures (set_observed now l)).

Lemma set_epoch_same l : set_epoch (ls_circuit_epoch l) l = l.
Proof. by destruct l. Qed.
Lemma set_failures_same l : set_failures (ls_consecutive_failures l) l = l.
Proof. by destruct l. Qed.

Lemma open_circuit_overflowed now d n l l' e :
  open_circuit now d (set_failures n (set_observed now l)) = (l', Err e) → overflowed now l l'.
Proof.
  intros [->| ->]%open_circuit_err.
  - exists n, (ls_circuit_epoch l). split; [lia|]. by destruct l.
  - exists n, (ls_circuit_epoch l + 1). split; [lia|]. done.
Qed.

Lemma apply_settlement_cases id r st t l l' res :
  apply_settlement id r st t l = (l', res) →
  (¬ current id r l ∧ l' = l ∧ res = Ok ()) ∨
  (current id r l ∧
   let now := Z.max t (ls_last_observed_at_ms l) in
   (res = Ok () ∧ settled r now l st l') ∨ (is_ok res = false ∧ overflowed now l l')).
Proof.
  unfold apply_settlement. unfold mbind at 1, M_bind at 1, get.
  destruct (Z.eqb_spec (ar_circuit_epoch r) (ls_circuit_epoch l)) as [He|He]; simpl.
  2:{ intros [= <- <-]. left. split; [|done]. by intros [? _]. }
  destruct (is_probe (ar_decision r) && _) eqn:Ep.
  { intros [= <- <-]. left. split; [|done]. intros [_ Hc].
    apply andb_true_iff in Ep as [E1 E2%bool_decide_eq_true]. apply E2, Hc.
    by destruct (ar_decision r). }
  intros H. right.
  assert (is_probe (ar_decision r) = true ↔ ar_decision r = AdAllowProbe) as Hp
    by (by destruct (ar_decision r)).
  split.
  { split; [done|]. intros Hd. apply Hp in Hd. rewrite Hd in Ep. simpl in Ep.
    by apply bool_decide_eq_false, dec_stable in Ep. }
  set (now := Z.max t (ls_last_observed_at_ms l)) in *.
  unfold mbind at 1, M_bind at 1, modify at 1 in H.
  destruct (is_probe (ar_decision r)) eqn:Eq.
  - pose proof (proj1 Hp eq_refl) as Hd. destruct st.
    + injection H as <- <-. left. split; [done|]. by apply settled_probe_healthy.
    + unfold mbind, M_bind in H. destruct (open_circuit _ _ _) as [l1 [[]|e]] eqn:Eo.
      * apply open_circuit_ok in Eo as (-> & Ho & _). injection H as <- <-. left. split; [done|].
        by apply settled_probe_failure.
      * injection H as <- <-. right. split; [done|].
        eapply (open_circuit_overflowed now _ (ls_consecutive_failures l)).
        rewrite <-Eo. f_equal.
    + injection H as <- <-. left. split; [done|]. by apply settled_probe_abandoned.
  - assert (ar_decision r ≠ AdAllowProbe) as Hn by (intros Hd; apply Hp in Hd; congruence).
    destruct st.
    + injection H as <- <-. left. split; [done|]. by apply settled_healthy.
    + unfold mbind, M_bind, lift, ok_or, modify in H.
      destruct (checked_add u32_max _ 1) as [n|] eqn:Ec.
      2:{ injection H as <- <-. right. split; [done|].
          exists (ls_consecutive_failures l), (ls_circuit_epoch l). split; [lia|]. by destruct l. }
      apply checked_add_Some in Ec as [-> Hc].
      destruct (Z.leb_spec (gp_failure_threshold (ar_policy r)) (ls_consecutive_failures l + 1)).
      * destruct res as [[]|e].
        -- apply open_circuit_ok in H as (-> & ? & _). left. split; [done|]. by apply settled_opens.
        -- apply open_circuit_overflowed in H. by right.
      * injection H as <- <-. left. split; [done|]. by apply settled_failure.
    + injection H as <- <-. left. split; [done|]. by apply settled_abandoned.
Qed.

Section safety.
Context `{!Serialize EffectDispatchGovernorPolicy, sha : !Sha256}.

(** * One call *)

Definition admission_key (v : ValidatedAdmission) : str * EffectLeaseId :=
  (lk_tenant_id (va_lane v), va_admission_id v).

(** The lane a fresh admission is decided on. *)
Definition lane_of (v : ValidatedAdmission) (s : GovernorState) : LaneState :=
  default (initial_lane v) (gs_lanes s !! va_lane v).

(** The record of an admission that fits. *)
Definition record_of (v : ValidatedAdmission) (epoch : Z) (d : EffectDispatchAdmissionDecision)
    : AdmissionRecord :=
  {| ar_operation := va_operation v; ar_policy := va_policy v;
     ar_policy_sha256 := va_policy_sha256 v; ar_admitted_at_ms := va_admitted_at_ms v;
     ar_expires_at_ms := va_admitted_at_ms v + gp_admission_retention_ms (va_policy v);
     ar_circuit_epoch := epoch; ar_decision := d; ar_settlement := None |}.

(** What an admission does once its request is valid. *)
Inductive admitted (v : ValidatedAdmission) (s : GovernorState) :
    GovernorState → result EffectDispatchAdmissionDecision → Prop :=
| admitted_refused e :
    admitted v s (prune_memory (va_admitted_at_ms v) s) (Err e)
| admitted_duplicate existing :
    gs_admissions (prune_memory (va_admitted_at_ms v) s) !! admission_key v = Some existing →
    validate_duplicate existing v = Ok () →
    admitted v s (prune_memory (va_admitted_at_ms v) s) (Ok (ar_decision existing))
| admitted_failed lane' res e :
    gs_admissions (prune_memory (va_admitted_at_ms v) s) !! admission_key v = None →
    ls_policy_sha256 (lane_of v s) = va_policy_sha256 v →
    decided v (lane_of v s) lane' res →
    admitted v s (insert_lane (va_lane v) lane' (prune_memory (va_admitted_at_ms v) s)) (Err e)
| admitted_fresh lane' d epoch :
    gs_admissions (prune_memory (va_admitted_at_ms v) s) !! admission_key v = None →
    ls_policy_sha256 (lane_of v s) = va_policy_sha256 v →
    decided v (lane_of v s) lane' (Ok (d, epoch)) →
    va_admitted_at_ms v + gp_admission_retention_ms (va_policy v) ≤ u64_max →
    Z.of_nat (size (gs_admissions (prune_memory (va_admitted_at_ms v) s))) < MAX_ADMISSIONS →
    (gs_lanes s !! va_lane v = None → Z.of_nat (size (gs_lanes s)) < MAX_LANES) →
    admitted v s
      (insert_admission (admission_key v) (record_of v epoch d)
         (insert_lane (va_lane v) lane' (prune_memory (va_admitted_at_ms v) s))) (Ok d).

Lemma insert_lane_twice k l l' s : insert_lane k l' (insert_lane k l s) = insert_lane k l' s.
Proof. unfold insert_lane. simpl. by rewrite insert_insert_eq. Qed.
Lemma insert_lane_same k l s : gs_lanes s !! k = Some l → insert_lane k l s = s.
Proof. intros H. unfold insert_lane. rewrite insert_id by done. by destruct s. Qed.

Lemma admission_record_ok v epoch d r :
  admission_record v epoch d = Ok r →
  r = record_of v epoch d ∧ va_admitted_at_ms v + gp_admission_retention_ms (va_policy v) ≤ u64_max.
Proof.
  unfold admission_record. intros H. inv_ok.
  match goal with H : checked_add _ _ _ = Some _ |- _ => apply checked_add_Some in H as [-> ?] end.
  done.
Qed.

(** What validation establishes of a request. *)
Lemma gp_validate_ok p :
  gp_validate p = Ok () →
  1 ≤ gp_max_dispatches_per_window p ≤ MAX_RATE_LIMIT ∧ 1 ≤ gp_window_ms p ≤ MAX_WINDOW_MS ∧
  1 ≤ gp_failure_threshold p ≤ MAX_FAILURE_THRESHOLD ∧
  1 ≤ gp_open_duration_ms p ≤ MAX_OPEN_DURATION_MS ∧
  1 ≤ gp_probe_lease_ms p ≤ MAX_PROBE_LEASE_MS ∧
  MIN_ADMISSION_RETENTION_MS ≤ gp_admission_retention_ms p ≤ MAX_ADMISSION_RETENTION_MS ∧
  ∃ digest, policy_digest p = Ok digest.
Proof.
  unfold gp_validate. intros H. inv_ok. unfold in_range in *. bool_hyps.
  split_and!; try lia. eauto.
Qed.

Lemma ValidatedAdmission_new_ok req a v :
  ValidatedAdmission_new req a = Ok v →
  va_admission_id v = dr_admission_id req ∧ va_operation v = dr_operation req ∧
  va_policy v = dr_policy req ∧ va_admitted_at_ms v = dr_admitted_at_ms req ∧
  va_lane v = lane_key (dr_operation req) (dr_policy req) (gov_tenant a) ∧
  policy_digest (va_policy v) = Ok (va_policy_sha256 v) ∧
  gp_validate (va_policy v) = Ok () ∧ va_admitted_at_ms v ≠ 0.
Proof.
  unfold ValidatedAdmission_new, eff_validate_application_time. intros H. inv_ok. subst v. simpl.
  bool_hyps. split_and!; done.
Qed.

Lemma mem_admit_admitted req a v s s' r :
  0 ≤ dr_admitted_at_ms req → ValidatedAdmission_new req a = Ok v →
  mem_admit_as req a s = (s', r) → admitted v s s' r.
Proof.
  intros Hn Hv. pose proof (ValidatedAdmission_new_ok _ _ _ Hv) as (_ & _ & _ & Hat & _ & _ & Hp & _).
  apply gp_validate_ok in Hp as (_ & Hw & _).
  unfold mem_admit_as. rewrite Hv. unfold mbind, M_bind, lift, modify, get, reject_if.
  fold (admission_key v). set (s0 := prune_memory (va_admitted_at_ms v) s).
  destruct (gs_admissions s0 !! admission_key v) as [existing|] eqn:Ek.
  { destruct (validate_duplicate existing v) as [[]|e] eqn:Ed; intros [= <- <-];
      [by apply admitted_duplicate|apply admitted_refused]. }
  destruct (Z.leb_spec MAX_ADMISSIONS (Z.of_nat (size (gs_admissions s0)))) as [Hm|Hm];
    [intros [= <- <-]; apply admitted_refused|].
  destruct (bool_decide _ && _) eqn:El; [intros [= <- <-]; apply admitted_refused|].
  change (gs_lanes s0) with (gs_lanes s) in *. fold (lane_of v s).
  unfold validate_lane_policy. destruct (bool_decide_reflect (ls_policy_sha256 (lane_of v s) = va_policy_sha256 v)) as [Hs|Hs].
  2:{ intros [= <- <-]. unfold lane_of in *. destruct (gs_lanes s !! va_lane v) as [l|] eqn:Ell; [|done].
      simpl. rewrite (insert_lane_same _ _ s0) by done. apply admitted_refused. }
  unfold with_lane. destruct (decide_lane v (lane_of v s)) as [lane' res] eqn:Edl.
  apply decide_lane_decided in Edl; [|lia..]. rewrite insert_lane_twice.
  destruct res as [[d epoch]|e]; [|intros [= <- <-]; by eapply admitted_failed].
  simpl. destruct (admission_record v epoch d) as [r'|e] eqn:Er;
    [|intros [= <- <-]; by eapply admitted_failed].
  apply admission_record_ok in Er as [-> Hx]. intros [= <- <-].
  apply admitted_fresh; try done. intros Hno. rewrite (bool_decide_true _ Hno) in El. simpl in El.
  apply Z.leb_gt in El. done.
Qed.

(** What a settlement does. *)
Inductive settlement_done (id : EffectLeaseId) (st : EffectDispatchSettlement) (t : Z) (tenant : str)
    (s : GovernorState) : GovernorState → result () → Prop :=
| settlement_refused e : settlement_done id st t tenant s s (Err e)
| settlement_repeated r :
    gs_admissions s !! (tenant, id) = Some r → ar_settlement r = Some st →
    settlement_done id st t tenant s s (Ok ())
| settlement_moved r lane lane' res :
    gs_admissions s !! (tenant, id) = Some r → ar_settlement r = None →
    validate_settlement_record r st t = Ok () →
    gs_lanes s !! lane_key (ar_operation r) (ar_policy r) tenant = Some lane →
    apply_settlement id r st t lane = (lane', res) →
    settlement_done id st t tenant s
      (let s' := insert_lane (lane_key (ar_operation r) (ar_policy r) tenant) lane' s in
       if is_ok res then insert_admission (tenant, id) (ar_settled st r) s' else s') res.

Lemma mem_settle_done id st t a s s' r :
  mem_settle_as id st t a s = (s', r) → settlement_done id st t (gov_tenant a) s s' r.
Proof.
  unfold mem_settle_as, mbind, M_bind, lift, modify, get, ok_or, with_lane.
  destruct (validate_settlement id t a) as [[]|e]; [|intros [= <- <-]; apply settlement_refused].
  destruct (gs_admissions s !! (gov_tenant a, id)) as [rec|] eqn:Er;
    [|intros [= <- <-]; apply settlement_refused].
  destruct (validate_settlement_record rec st t) as [[]|e] eqn:Ev;
    [|intros [= <- <-]; apply settlement_refused].
  destruct (ar_settlement rec) as [st'|] eqn:Es.
  { intros [= <- <-]. eapply settlement_repeated; [done|].
    unfold validate_settlement_record in Ev. inv_ok. rewrite Es in *. bool_hyps.
    f_equal. by apply dec_stable. }
  destruct (gs_lanes s !! _) as [lane|] eqn:El; [|intros [= <- <-]; apply settlement_refused].
  destruct (apply_settlement id rec st t lane) as [lane' res] eqn:Ea.
  pose proof (settlement_moved id st t (gov_tenant a) s rec lane lane' res Er Es Ev El Ea) as Hm.
  destruct res as [[]|e]; intros [= <- <-]; exact Hm.
Qed.

(** * Runs *)

(** One admission that was decided afresh: a repeated one returns what was
    recorded and is not dispatched again. *)
Record Attempt := {
  at_lane : LaneKey;
  at_id : EffectLeaseId;
  at_policy : EffectDispatchGovernorPolicy;
  at_sha : str;
  at_time : Z;
  at_answer : result EffectDispatchAdmissionDecision;
}.

Definition attempts (req : EffectDispatchAdmissionRequest) (a : AuthorityContext)
    (s : GovernorState) (r : result EffectDispatchAdmissionDecision) : list Attempt :=
  match ValidatedAdmission_new req a with
  | Err _ => []
  | Ok v =>
      match gs_admissions (prune_memory (va_admitted_at_ms v) s) !! admission_key v with
      | Some _ => []
      | None => [{| at_lane := va_lane v; at_id := va_admission_id v; at_policy := va_policy v;
                    at_sha := va_policy_sha256 v; at_time := va_admitted_at_ms v; at_answer := r |}]
      end
  end.

(** A call of any caller.  [may] tells which admissions the callers settle.
    A call that fails for whatever reason may also be rolled back. *)
Inductive gov_step (may : str * EffectLeaseId → Prop) (s : GovernorState) :
    list Attempt → GovernorState → Prop :=
| step_admit req a s' r :
    0 ≤ dr_admitted_at_ms req → mem_admit_as req a s = (s', r) →
    gov_step may s (attempts req a s r) s'
| step_settle id st t a s' r :
    may (gov_tenant a, id) → mem_settle_as id st t a s = (s', r) → gov_step may s [] s'
| step_admit_rolled_back req a r :
    is_ok r = false → gov_step may s (attempts req a s r) s
| step_settle_rolled_back : gov_step may s [] s.

Inductive gov_steps (may : str * EffectLeaseId → Prop) (s : GovernorState) :
    list Attempt → GovernorState → Prop :=
| steps_none : gov_steps may s [] s
| steps_more tr s1 new s2 :
    gov_steps may s tr s1 → gov_step may s1 new s2 → gov_steps may s (new ++ tr) s2.

(** The calls of a run settle whatever they like. *)
Definition anything (key : str * EffectLeaseId) : Prop := True.

Definition gov_empty : GovernorState := {| gs_lanes := ∅; gs_admissions := ∅ |}.

(** * The budget of a window *)

Definition is_dispatch (k : LaneKey) (w x : Z) (e : Attempt) : bool :=
  bool_decide (at_lane e = k) && match at_answer e with Ok AdAllow => true | _ => false end
  && (fixed_window_start (at_time e) w =? x).

(** Admissions of lane [k] that were allowed in the window that starts at [x]. *)
Definition dispatched (tr : list Attempt) (k : LaneKey) (w x : Z) : Z :=
  len (List.filter (is_dispatch k w x) tr).

(** The invariant of a lane against the run, for the policy [p] it was created with. *)
Record window_inv (p : EffectDispatchGovernorPolicy) (tr : list Attempt) (k : LaneKey)
    (l : LaneState) : Prop := {
  wi_start : ∃ t0, t0 ≤ ls_last_observed_at_ms l ∧
    ls_window_started_at_ms l = fixed_window_start t0 (gp_window_ms p);
  wi_seen : ∀ e, e ∈ tr → at_lane e = k → is_ok (at_answer e) = true →
    at_sha e = ls_policy_sha256 l ∧ at_time e ≤ ls_last_observed_at_ms l;
  wi_past : ∀ e, e ∈ tr → at_lane e = k → at_answer e = Ok AdAllow →
    fixed_window_start (at_time e) (gp_window_ms p) ≤ ls_window_started_at_ms l;
  wi_count : dispatched tr k (gp_window_ms p) (ls_window_started_at_ms l) ≤ ls_window_count l
             ≤ gp_max_dispatches_per_window p;
  wi_bound : ∀ x, dispatched tr k (gp_window_ms p) x ≤ gp_max_dispatches_per_window p;
}.

Lemma dispatched_app tr tr' k w x :
  dispatched (tr ++ tr') k w x = dispatched tr k w x + dispatched tr' k w x.
Proof. unfold dispatched. rewrite List.filter_app. unfold len. rewrite length_app. lia. Qed.

Lemma dispatched_none tr k w x :
  (∀ e, e ∈ tr → at_lane e = k → at_answer e ≠ Ok AdAllow) → dispatched tr k w x = 0.
Proof.
  intros H. unfold dispatched. rewrite filter_none; [done|]. intros e He. unfold is_dispatch.
  destruct (bool_decide_reflect (at_lane e = k)) as [Hk|]; [|done].
  pose proof (H e He Hk). by destruct (at_answer e) as [[]|].
Qed.

(** Windows only move forward with the clock. *)
Lemma window_inv_roll p tr k l now :
  0 < gp_window_ms p → window_inv p tr k l → ls_last_observed_at_ms l ≤ now →
  window_inv p tr k (rolled now (gp_window_ms p) (observed now l)).
Proof.
  intros Hw [[t0 [Ht0 Hs]] Hseen Hpast Hc Hb] Hn.
  destruct (observed_fields now l) as (Esha & Elast & Est & Ecnt & _ & _ & _).
  pose proof (fixed_window_start_mono t0 now _ Hw ltac:(lia)) as Hm.
  unfold rolled. rewrite Est. destruct (Z.eqb_spec (ls_window_started_at_ms l)
    (fixed_window_start now (gp_window_ms p))) as [E|E].
  - split; rewrite ?Esha, ?Elast, ?Est, ?Ecnt; try done; [exists t0; by split; [lia|]|].
    intros e He Hk Ho. destruct (Hseen e He Hk Ho). split; [done|lia].
  - split; simpl; rewrite ?Esha, ?Elast; try done.
    + exists now. by split.
    + intros e He Hk Ho. destruct (Hseen e He Hk Ho). split; [done|lia].
    + intros e He Hk Ho. pose proof (Hpast e He Hk Ho). lia.
    + assert (dispatched tr k (gp_window_ms p) (fixed_window_start now (gp_window_ms p)) = 0) as ->.
      { unfold dispatched. rewrite filter_none; [done|]. intros e He. unfold is_dispatch.
        destruct (bool_decide_reflect (at_lane e = k)) as [Hk|]; [|done].
        destruct (at_answer e) as [[]|] eqn:Ea; try done. simpl.
        pose proof (Hpast e He Hk Ea). apply Z.eqb_neq. lia. }
      pose proof (Hb 0). unfold dispatched, len in *. lia.
Qed.

Lemma window_inv_observed p tr k l now :
  window_inv p tr k l → ls_last_observed_at_ms l ≤ now → window_inv p tr k (observed now l).
Proof.
  intros [[t0 [Ht0 Hs]] Hseen Hpast Hc Hb] Hn.
  destruct (observed_fields now l) as (Esha & Elast & Est & Ecnt & _ & _ & _).
  split; rewrite ?Esha, ?Elast, ?Est, ?Ecnt; try done; [exists t0; by split; [lia|]|].
  intros e He Hk Ho. destruct (Hseen e He Hk Ho). split; [done|lia].
Qed.

(** A lane that agrees on the window and the policy and has a later clock. *)
Lemma window_inv_same p tr k l l' :
  window_inv p tr k l → ls_policy_sha256 l' = ls_policy_sha256 l →
  ls_window_started_at_ms l' = ls_window_started_at_ms l →
  ls_window_count l' = ls_window_count l →
  ls_last_observed_at_ms l ≤ ls_last_observed_at_ms l' → window_inv p tr k l'.
Proof.
  intros [[t0 [Ht0 Hs]] Hseen Hpast Hc Hb] E1 E2 E3 Hn.
  split; rewrite ?E1, ?E2, ?E3; try done; [exists t0; by split; [lia|]|].
  intros e He Hk Ho. destruct (Hseen e He Hk Ho). split; [done|lia].
Qed.

(** Attempts that dispatch nothing on the lane. *)
Lemma window_inv_idle p tr k l new :
  window_inv p tr k l →
  (∀ e, e ∈ new → at_lane e = k → at_answer e ≠ Ok AdAllow ∧
     (is_ok (at_answer e) = true → at_sha e = ls_policy_sha256 l ∧ at_time e ≤ ls_last_observed_at_ms l)) →
  window_inv p (new ++ tr) k l.
Proof.
  intros [Hs Hseen Hpast Hc Hb] Hnew.
  assert (∀ x, dispatched (new ++ tr) k (gp_window_ms p) x = dispatched tr k (gp_window_ms p) x) as Hd.
  { intros x. rewrite dispatched_app, dispatched_none; [lia|]. intros e He Hk. by destruct (Hnew e He Hk). }
  split; try done.
  - intros e [He|He]%elem_of_app Hk Ho; [by apply (Hnew e He Hk)|by apply Hseen].
  - intros e [He|He]%elem_of_app Hk Ho; [by destruct (Hnew e He Hk)|by apply Hpast].
  - by rewrite Hd.
  - intros x. by rewrite Hd.
Qed.

(** One more dispatch in the current window. *)
Lemma window_inv_dispatch p tr k l e :
  0 < gp_window_ms p → window_inv p tr k l → at_lane e = k → at_answer e = Ok AdAllow →
  ls_last_observed_at_ms l = at_time e → at_sha e = ls_policy_sha256 l →
  ls_window_started_at_ms l = fixed_window_start (at_time e) (gp_window_ms p) →
  ls_window_count l < gp_max_dispatches_per_window p →
  window_inv p (e :: tr) k (set_window (ls_window_started_at_ms l) (ls_window_count l + 1) l).
Proof.
  intros Hw [Hs Hseen Hpast Hc Hb] Hk Ha Hlast Hsha Hst Hlt.
  assert (∀ x, dispatched (e :: tr) k (gp_window_ms p) x = dispatched tr k (gp_window_ms p) x +
    (if fixed_window_start (at_time e) (gp_window_ms p) =? x then 1 else 0)) as Hd.
  { intros x. change (e :: tr) with ([e] ++ tr). rewrite dispatched_app.
    unfold dispatched at 1. simpl. unfold is_dispatch. rewrite Ha, bool_decide_true by done. simpl.
    destruct (_ =? x); unfold len; simpl; lia. }
  split; simpl; try done.
  - intros e' [->|He]%elem_of_cons Hk' Ho; [by split; [|lia]|by apply Hseen].
  - intros e' [->|He]%elem_of_cons Hk' Ho; [by rewrite Hst|by apply Hpast].
  - rewrite Hd, Hst, Z.eqb_refl, <-Hst. lia.
  - intros x. rewrite Hd. destruct (Z.eqb_spec (fixed_window_start (at_time e) (gp_window_ms p)) x) as [<-|];
      [rewrite <-Hst; lia|]. pose proof (Hb x). lia.
Qed.

(** The attempt of a decision; its answer is an error or what was decided. *)
Definition attempt_of (v : ValidatedAdmission) (r : result EffectDispatchAdmissionDecision)
    : Attempt :=
  {| at_lane := va_lane v; at_id := va_admission_id v; at_policy := va_policy v;
     at_sha := va_policy_sha256 v; at_time := va_admitted_at_ms v; at_answer := r |}.

Lemma initial_lane_window p tr v :
  1 ≤ gp_max_dispatches_per_window p → va_policy v = p →
  (∀ e, e ∈ tr → at_lane e = va_lane v → is_ok (at_answer e) = false) →
  window_inv p tr (va_lane v) (initial_lane v).
Proof.
  intros Hm Hp Hno.
  assert (∀ x, dispatched tr (va_lane v) (gp_window_ms p) x = 0) as Hd.
  { intros x. apply dispatched_none. intros e He Hk Ha. specialize (Hno e He Hk). by rewrite Ha in Hno. }
  split; simpl.
  - exists (va_admitted_at_ms v). rewrite Hp. by split.
  - intros e He Hk Ho. by rewrite (Hno e He Hk) in Ho.
  - intros e He Hk Ho. specialize (Hno e He Hk). by rewrite Ho in Hno.
  - rewrite Hd. lia.
  - intros x. rewrite Hd. lia.
Qed.

Lemma decided_window p tr v l l' res r :
  0 < gp_window_ms p → window_inv p tr (va_lane v) l → va_policy v = p →
  ls_policy_sha256 l = va_policy_sha256 v → decided v l l' res →
  (is_ok r = false ∨ ∃ d epoch, res = Ok (d, epoch) ∧ r = Ok d) →
  window_inv p (attempt_of v r :: tr) (va_lane v) l' ∧ ls_policy_sha256 l' = ls_policy_sha256 l.
Proof.
  intros Hw Hi Hp Hsha Hd Hr.
  assert (∀ l1, window_inv p tr (va_lane v) l1 → ls_policy_sha256 l1 = ls_policy_sha256 l →
    r ≠ Ok AdAllow → (is_ok r = true → va_admitted_at_ms v ≤ ls_last_observed_at_ms l1) →
    window_inv p (attempt_of v r :: tr) (va_lane v) l1) as Hidle.
  { intros l1 H1 H2 H3 H4. apply (window_inv_idle _ _ _ _ [attempt_of v r]); [done|].
    intros e ->%list_elem_of_singleton _. simpl. split; [done|]. intros Ho. split; [congruence|auto]. }
  destruct (observed_fields (va_admitted_at_ms v) l) as (Esha & Elast & Est & Ecnt & _).
  assert (ls_policy_sha256 (rolled (va_admitted_at_ms v) (gp_window_ms p)
            (observed (va_admitted_at_ms v) l)) = ls_policy_sha256 l ∧
          ls_last_observed_at_ms (rolled (va_admitted_at_ms v) (gp_window_ms p)
            (observed (va_admitted_at_ms v) l)) = va_admitted_at_ms v) as [Rsha Rlast].
  { unfold rolled. by destruct (_ =? _). }
  pose proof (window_inv_observed p tr (va_lane v) l (va_admitted_at_ms v) Hi) as Hobs.
  pose proof (window_inv_roll p tr (va_lane v) l (va_admitted_at_ms v) Hw Hi) as Hroll.
  destruct Hd; rewrite ?Hp in *.
  - split; [|done]. destruct Hr as [Hr|(? & ? & [=] & _)]. apply Hidle; try done; [by intros ->|congruence].
  - split; [|done]. apply Hidle; [auto|done| |simpl; lia]. destruct Hr as [Hr|(? & ? & [= <- <-] & ->)]; [by intros ->|done].
  - split; [|done]. apply Hidle; [auto|done| |simpl; lia]. destruct Hr as [Hr|(? & ? & [= <- <-] & ->)]; [by intros ->|done].
  - split; [|done]. apply Hidle; [|done| |simpl; lia].
    + by apply (window_inv_same _ _ _ (observed (va_admitted_at_ms v) l)); [auto|..].
    + destruct Hr as [Hr|(? & ? & [= <- <-] & ->)]; [by intros ->|done].
  - split; [|done]. destruct Hr as [Hr|(? & ? & [=] & _)]. apply Hidle; [auto|done|by intros ->|congruence].
  - split; [|done]. apply Hidle; [auto|done| |lia]. destruct Hr as [Hr|(? & ? & [= <- <-] & ->)]; [by intros ->|done].
  - split; [|done].
    set (now := va_admitted_at_ms v) in *. set (l1 := rolled now (gp_window_ms p) (observed now l)) in *.
    assert (ls_window_started_at_ms l1 = fixed_window_start now (gp_window_ms p) ∧
            ls_window_count l1 = ls_window_count (rolled now (gp_window_ms p) l)) as [Ls Lc].
    { subst l1. unfold rolled. rewrite Est. destruct (Z.eqb_spec (ls_window_started_at_ms l)
        (fixed_window_start now (gp_window_ms p))); simpl; by rewrite ?Est, ?Ecnt. }
    assert (∀ n, set_window (fixed_window_start now (gp_window_ms p)) n (observed now l) =
                 set_window (ls_window_started_at_ms l1) n l1) as ->.
    { intros n. rewrite Ls. subst l1. unfold rolled. by destruct (_ =? _). }
    rewrite <-Lc. destruct Hr as [Hr|(? & ? & [= <- <-] & ->)].
    + apply Hidle; [|done|by intros ->|simpl; lia].
      destruct (Hroll ltac:(done)) as [R1 R2 R3 R4 R5]. split; simpl; try done. lia.
    + apply window_inv_dispatch; try done; [auto| |lia]. by rewrite Rsha.
  - split; [|done]. destruct Hr as [Hr|(? & ? & [=] & _)]. apply Hidle; [auto|done|by intros ->|congruence].
Qed.

Lemma settlement_window p tr k l l' id r st t res :
  window_inv p tr k l → apply_settlement id r st t l = (l', res) →
  window_inv p tr k l' ∧ ls_policy_sha256 l' = ls_policy_sha256 l.
Proof.
  intros Hi Ha.
  assert (ls_policy_sha256 l' = ls_policy_sha256 l ∧
          ls_window_started_at_ms l' = ls_window_started_at_ms l ∧
          ls_window_count l' = ls_window_count l ∧
          ls_last_observed_at_ms l ≤ ls_last_observed_at_ms l') as (E1 & E2 & E3 & E4).
  { apply apply_settlement_cases in Ha as [(_ & -> & _)|(_ & [[_ Hs]|[_ (f & n & _ & ->)]])];
      [split_and!; done| |simpl; split_and!; lia || done].
    destruct Hs; simpl; split_and!; lia || done. }
  split; [|done]. by eapply window_inv_same.
Qed.

(** * All lanes of a run *)

(** On a lane the digest of a policy determines the policy: no two policies
    used under one [policy_id] collide. *)
Definition policies (pol : LaneKey → str → EffectDispatchGovernorPolicy) (tr : list Attempt) : Prop :=
  ∀ e, e ∈ tr → at_policy e = pol (at_lane e) (at_sha e).

Record run_inv (pol : LaneKey → str → EffectDispatchGovernorPolicy) (tr : list Attempt)
    (s : GovernorState) : Prop := {
  ri_window : ∀ k l, gs_lanes s !! k = Some l →
    window_inv (pol k (ls_policy_sha256 l)) tr k l ∧ gp_validate (pol k (ls_policy_sha256 l)) = Ok ();
  ri_lane : ∀ e, e ∈ tr → is_ok (at_answer e) = true → is_Some (gs_lanes s !! at_lane e);
}.

Lemma attempts_Some req a s r v existing :
  ValidatedAdmission_new req a = Ok v →
  gs_admissions (prune_memory (va_admitted_at_ms v) s) !! admission_key v = Some existing →
  attempts req a s r = [].
Proof. unfold attempts. by intros -> ->. Qed.

Lemma attempts_None req a s r v :
  ValidatedAdmission_new req a = Ok v →
  gs_admissions (prune_memory (va_admitted_at_ms v) s) !! admission_key v = None →
  attempts req a s r = [attempt_of v r].
Proof. unfold attempts. by intros -> ->. Qed.

Lemma attempts_failed req a s r e :
  is_ok r = false → e ∈ attempts req a s r → is_ok (at_answer e) = false.
Proof.
  unfold attempts. intros Hr. destruct (ValidatedAdmission_new req a) as [v|]; [|by intros ?%elem_of_nil].
  destruct (_ !! _); [by intros ?%elem_of_nil|]. by intros ->%list_elem_of_singleton.
Qed.

(** Failed attempts and changes that keep the lanes. *)
Lemma run_inv_failed pol tr s s' new :
  run_inv pol tr s → gs_lanes s' = gs_lanes s →
  (∀ e, e ∈ new → is_ok (at_answer e) = false) → run_inv pol (new ++ tr) s'.
Proof.
  intros [Hw Hl] E Hnew. split; rewrite ?E.
  - intros k l Hk. destruct (Hw k l Hk) as [Hi Hv]. split; [|done].
    apply window_inv_idle; [done|]. intros e He _. specialize (Hnew e He).
    by destruct (at_answer e) as [d|]; [discriminate Hnew|].
  - intros e [He|He]%elem_of_app Ho; [by rewrite (Hnew e He) in Ho|by apply Hl].
Qed.

(** One lane moves and one attempt is added. *)
Lemma run_inv_moved pol tr s s' v lane' r :
  run_inv pol tr s → gs_lanes s' = <[va_lane v := lane']> (gs_lanes s) →
  ls_policy_sha256 lane' = va_policy_sha256 v → gp_validate (pol (va_lane v) (va_policy_sha256 v)) = Ok () →
  window_inv (pol (va_lane v) (va_policy_sha256 v)) (attempt_of v r :: tr) (va_lane v) lane' →
  run_inv pol (attempt_of v r :: tr) s'.
Proof.
  intros [Hw Hl] E Hsha Hval Hi. split; rewrite E.
  - intros k l [[<- <-]|[Hne Hk]]%lookup_insert_Some; [by rewrite Hsha|].
    destruct (Hw k l Hk) as [Hi' Hv]. split; [|done].
    apply (window_inv_idle _ _ _ _ [attempt_of v r]); [done|].
    by intros e ->%list_elem_of_singleton Hk'.
  - intros e He Ho. destruct (decide (at_lane e = va_lane v)) as [->|Hne].
    + rewrite lookup_insert_eq. eauto.
    + rewrite lookup_insert_ne by done. apply Hl; [|done].
      by apply elem_of_cons in He as [->|He].
Qed.

Lemma run_inv_admitted pol tr s req a v s1 r :
  run_inv pol tr s → ValidatedAdmission_new req a = Ok v →
  policies pol (attempts req a s r ++ tr) → admitted v s s1 r →
  run_inv pol (attempts req a s r ++ tr) s1.
Proof.
  intros Hi Hv Hpol Ha.
  pose proof (ValidatedAdmission_new_ok _ _ _ Hv) as (_ & _ & _ & _ & _ & _ & Hval & Hne).
  assert (∀ lane' res r', gs_admissions (prune_memory (va_admitted_at_ms v) s) !! admission_key v = None →
    ls_policy_sha256 (lane_of v s) = va_policy_sha256 v → decided v (lane_of v s) lane' res →
    r = r' → (is_ok r' = false ∨ ∃ d epoch, res = Ok (d, epoch) ∧ r' = Ok d) →
    ls_policy_sha256 lane' = va_policy_sha256 v ∧
    gp_validate (pol (va_lane v) (va_policy_sha256 v)) = Ok () ∧
    window_inv (pol (va_lane v) (va_policy_sha256 v)) (attempt_of v r' :: tr) (va_lane v) lane') as Hmove.
  { intros lane' res r' Hno Hsha Hd -> Hr. rewrite (attempts_None _ _ _ _ _ Hv Hno) in Hpol.
    pose proof (Hpol _ (list_elem_of_here _ _)) as Hp. simpl in Hp.
    destruct (decided_window (va_policy v) tr v (lane_of v s) lane' res r') as [Hi' Hs']; try done.
    - apply gp_validate_ok in Hval. lia.
    - unfold lane_of in *. destruct (gs_lanes s !! va_lane v) as [l|] eqn:El; simpl in *.
      + destruct (ri_window _ _ _ Hi _ _ El) as [? _]. by rewrite Hp, <-Hsha.
      + apply initial_lane_window; [apply gp_validate_ok in Hval; lia|done|].
        intros e He Hk. apply not_true_is_false. intros Ho.
        destruct (ri_lane _ _ _ Hi e He Ho) as [? Hs]. rewrite Hk in Hs. congruence.
    - rewrite <-Hp. split_and!; [congruence|done|done]. }
  destruct Ha as [e|existing Hex _|lane' res e Hno Hsha Hd|lane' d epoch Hno Hsha Hd _ _ _].
  - apply (run_inv_failed _ _ s); [done..|]. intros e' He'. exact (attempts_failed _ _ _ (Err e) _ eq_refl He').
  - rewrite (attempts_Some _ _ _ _ _ _ Hv Hex). apply (run_inv_failed _ _ s _ []); [done..|]. by intros ? ?%elem_of_nil.
  - rewrite (attempts_None _ _ _ _ _ Hv Hno).
    destruct (Hmove lane' res (Err e)) as (? & ? & ?); [by auto..|].
    by apply (run_inv_moved _ _ s _ _ lane').
  - rewrite (attempts_None _ _ _ _ _ Hv Hno).
    destruct (Hmove lane' (Ok (d, epoch)) (Ok d)) as (? & ? & ?); [by eauto..|].
    by apply (run_inv_moved _ _ s _ _ lane').
Qed.

Lemma run_inv_step may pol tr s new s' :
  run_inv pol tr s → policies pol (new ++ tr) → gov_step may s new s' → run_inv pol (new ++ tr) s'.
Proof.
  intros Hi Hpol Hst. revert Hpol.
  destruct Hst as [req a s1 r Hn Hm|id st t a s1 r _ Hm|req a r Hr|]; intros Hpol.
  - destruct (ValidatedAdmission_new req a) as [v|e] eqn:Hv.
    + pose proof (mem_admit_admitted _ _ _ _ _ _ Hn Hv Hm) as Ha. by eapply run_inv_admitted.
    + unfold mem_admit_as in Hm. rewrite Hv in Hm. injection Hm as <- <-. unfold attempts. by rewrite Hv.
  - simpl. destruct (mem_settle_done _ _ _ _ _ _ _ Hm) as [e|rec Hr Hst|rec lane lane' res Hr Hst _ Hl Ha];
      [done..|].
    destruct Hi as [Hw Hlane].
    set (k := lane_key (ar_operation rec) (ar_policy rec) (gov_tenant a)) in *.
    assert (∀ s2, gs_lanes s2 = <[k := lane']> (gs_lanes s) → run_inv pol tr s2) as Hgo.
    { intros s2 E. destruct (Hw _ _ Hl) as [Hi Hv].
      destruct (settlement_window _ _ _ _ _ _ _ _ _ _ Hi Ha) as [Hi' Hs']. split; rewrite E.
      - intros k' l [[<- <-]|[Hne Hk]]%lookup_insert_Some; [by rewrite Hs'|by apply Hw].
      - intros e He Ho. destruct (decide (at_lane e = k)) as [->|Hne];
          [rewrite lookup_insert_eq; eauto|rewrite lookup_insert_ne by done; by apply Hlane]. }
    simpl. destruct (is_ok res); by apply Hgo.
  - apply (run_inv_failed _ _ s); [done..|]. intros e He. exact (attempts_failed _ _ _ _ _ Hr He).
  - exact Hi.
Qed.

Lemma run_inv_steps may pol tr s :
  gov_steps may gov_empty tr s → policies pol tr → run_inv pol tr s.
Proof.
  intros H. induction H as [|tr s1 new s2 _ IH Hs]; intros Hpol.
  - split; [by intros k l; simpl; rewrite lookup_empty|by intros e ?%elem_of_nil].
  - eapply run_inv_step; [|done..]. apply IH. intros e He. apply Hpol, elem_of_app. by right.
Qed.

(** C20: the budget of every lane and window: among the admissions of a run that
    were decided afresh on one lane, at most [max_dispatches_per_window]
    normal dispatches were allowed in each window of the lane's policy. *)
Theorem governor_rate_limit (pol : LaneKey → str → EffectDispatchGovernorPolicy)
    (tr : list Attempt) (s : GovernorState) (e : Attempt) (x : Z)
    (Hrun : gov_steps anything gov_empty tr s) (Hpol : policies pol tr)
    (He : e ∈ tr) (Hok : is_ok (at_answer e) = true) :
  dispatched tr (at_lane e) (gp_window_ms (at_policy e)) x ≤
    gp_max_dispatches_per_window (at_policy e).
Proof.
  pose proof (run_inv_steps _ _ _ _ Hrun Hpol) as [Hw Hl].
  destruct (Hl e He Hok) as [l Hk]. destruct (Hw _ _ Hk) as [Hi _].
  destruct (wi_seen _ _ _ _ Hi e He eq_refl Hok) as [Hs _].
  rewrite (Hpol e He), Hs. apply (wi_bound _ _ _ _ Hi).
Qed.
End safety.
