(* ===== verification/GovernorCircuit.v ===== *)
(** The circuit breaker of the dispatch governor over any run: an open
    circuit admits nothing before its deadline, a half-open one admits one
    probe at a time, an admission is decided and settled once, and a call of
    one tenant moves no lane of another. *)

From Stdlib Require Import ZArith Lia.
From stdpp Require Import base tactics list gmap numbers strings option relations.
From stdpp Require Import list.
From S2P Require Import Prelude Kernel Digest Json Effect Governor GovernorSafety.

Local Open Scope Z_scope.

(** * One lane *)

(** A lane against the admissions [R] recorded for it: none is from a later
    epoch or time, and in the epoch of an open circuit only probes that came
    at its deadline or later were admitted. *)
Record lane_circ (R : AdmissionRecord → Prop) (l : LaneState) : Prop := {
  lc_past r : R r → ar_circuit_epoch r ≤ ls_circuit_epoch l ∧
                    ar_admitted_at_ms r ≤ ls_last_observed_at_ms l;
  lc_open r u : R r → ls_open_until_ms l = Some u → ar_circuit_epoch r = ls_circuit_epoch l →
    ar_decision r ≠ AdAllow ∧ (ar_decision r = AdAllowProbe → u ≤ ar_admitted_at_ms r);
}.

Lemma lane_circ_sub (R R' : AdmissionRecord → Prop) l :
  (∀ r, R' r → R r) → lane_circ R l → lane_circ R' l.
Proof. intros H [H1 H2]. split; eauto. Qed.

(** The lane moved on in time, with its circuit as it was or in a new epoch. *)
Lemma lane_circ_later R l l' :
  lane_circ R l → ls_last_observed_at_ms l ≤ ls_last_observed_at_ms l' →
  (ls_circuit_epoch l < ls_circuit_epoch l' ∨
   ls_circuit_epoch l' = ls_circuit_epoch l ∧
     (ls_open_until_ms l' = ls_open_until_ms l ∨ ls_open_until_ms l' = None)) →
  lane_circ R l'.
Proof.
  intros [H1 H2] Ht Hc. split.
  - intros r Hr. destruct (H1 r Hr). lia.
  - intros r u Hr Ho He. destruct (H1 r Hr) as [Hle _].
    destruct Hc as [Hc|[Hc [Hc'|Hc']]]; [lia| |congruence]. apply H2; congruence.
Qed.

Lemma decided_moves v l l' res :
  decided v l l' res →
  ls_last_observed_at_ms l ≤ ls_last_observed_at_ms l' ∧
  ls_circuit_epoch l' = ls_circuit_epoch l ∧ ls_open_until_ms l' = ls_open_until_ms l ∧
  (∀ d epoch, res = Ok (d, epoch) →
     ls_last_observed_at_ms l' = va_admitted_at_ms v ∧ epoch = ls_circuit_epoch l ∧
     (ls_open_until_ms l = None ∨
      ∃ u, ls_open_until_ms l = Some u ∧ d ≠ AdAllow ∧
           (d = AdAllowProbe → u ≤ va_admitted_at_ms v))).
Proof.
  intros Hd.
  destruct (observed_fields (va_admitted_at_ms v) l) as (_ & El & _ & _ & _ & Ee & Eo).
  assert (∀ w l1, rolled (va_admitted_at_ms v) w (observed (va_admitted_at_ms v) l) = l1 →
    ls_last_observed_at_ms l1 = va_admitted_at_ms v ∧ ls_circuit_epoch l1 = ls_circuit_epoch l ∧
    ls_open_until_ms l1 = ls_open_until_ms l) as Hr.
  { intros w l1 <-. unfold rolled. by destruct (_ =? _). }
  destruct Hd; simpl; rewrite ?El, ?Ee, ?Eo;
    try (destruct (Hr (gp_window_ms (va_policy v)) _ eq_refl) as (-> & -> & ->));
    (split_and!; [lia|done|done|intros d' epoch' [= <- <-]]); (split_and!; [done|done|]); eauto 6.
  - right. exists u. by split_and!.
Qed.

Lemma decided_circ R v l l' res :
  lane_circ R l → decided v l l' res →
  lane_circ R l' ∧ ∀ d epoch, res = Ok (d, epoch) → lane_circ (λ r, R r ∨ r = record_of v epoch d) l'.
Proof.
  intros Hc Hd. destruct (decided_moves _ _ _ _ Hd) as (Hl & He & Ho & Hok).
  assert (lane_circ R l') as Hc' by (apply (lane_circ_later R l); auto).
  split; [done|]. intros d epoch Hres. destruct (Hok d epoch Hres) as (Hn & Hep & Hu).
  destruct Hc' as [H1 H2]. split.
  - intros r [Hr| ->]; [by apply H1|]. simpl. lia.
  - intros r u [Hr| ->] Hu' Her; [by apply H2|]. simpl.
    destruct Hu as [Hu|(u' & Hu & ? & ?)]; [congruence|]. assert (u' = u) as -> by congruence. done.
Qed.

Lemma settlement_circ R l l' id r st t res :
  lane_circ R l → apply_settlement id r st t l = (l', res) → lane_circ R l'.
Proof.
  intros Hc Ha.
  apply apply_settlement_cases in Ha as [(_ & -> & _)|(_ & [[_ Hs]|[_ (f & n & Hn & ->)]])]; [done|..].
  - apply (lane_circ_later R l); [done|..]; destruct Hs; simpl; try lia; auto.
  - apply (lane_circ_later R l); [done|simpl; lia|]. simpl. destruct (decide (n = ls_circuit_epoch l)); auto with lia.
Qed.

(** ** Deadlines *)

(** The circuit is open until [u], or that time has been observed. *)
Definition barred (u : Z) (l : LaneState) : Prop :=
  ls_open_until_ms l = Some u ∨ u ≤ ls_last_observed_at_ms l.

Lemma barred_decided u v l l' res :
  barred u l → decided v l l' res →
  barred u l' ∧ (va_admitted_at_ms v < u → is_ok res = false ∨ ∃ epoch, res = Ok (AdCircuitOpen u, epoch)).
Proof.
  intros Hb Hd. pose proof (decided_moves _ _ _ _ Hd) as (Hl & _ & Ho & _).
  split. { destruct Hb as [Hb|Hb]; [left; congruence|right; lia]. }
  intros Hu. destruct Hb as [Hb|Hb].
  - destruct Hd; try (by left); simplify_eq; [eauto|lia..].
  - destruct Hd; try (by left); lia.
Qed.

Lemma allowed_decision r st t :
  validate_settlement_record r st t = Ok () →
  ar_decision r = AdAllow ∨ ar_decision r = AdAllowProbe.
Proof. unfold validate_settlement_record. intros H. inv_ok. destruct (ar_decision r); by auto. Qed.

Lemma barred_settlement R u l l' id r st t res :
  lane_circ R l → R r → validate_settlement_record r st t = Ok () → barred u l →
  apply_settlement id r st t l = (l', res) → barred u l'.
Proof.
  intros Hc Hr Hv Hb Ha. pose proof (lc_past _ _ Hc r Hr) as [_ Hp].
  assert (ls_last_observed_at_ms l ≤ ls_last_observed_at_ms l') as Hl.
  { apply apply_settlement_cases in Ha as [(_ & -> & _)|(_ & [[_ Hs]|[_ (f & n & _ & ->)]])];
      [done| |simpl; lia]. destruct Hs; simpl; lia. }
  destruct Hb as [Hb|Hb]; [|right; lia].
  pose proof (allowed_decision _ _ _ Hv) as Hd.
  apply apply_settlement_cases in Ha as [(_ & -> & _)|([He _] & [[_ Hs]|[_ (f & n & _ & ->)]])];
    [by left| |by left].
  destruct (lc_open _ _ Hc r u Hr Hb He) as [Hna Hpr].
  destruct Hs; try (by left); try (destruct Hd; congruence); right; specialize (Hpr ltac:(done)); lia.
Qed.

(** Probe [i] holds the open circuit until [x], or that time has been observed. *)
Definition probing (i : EffectLeaseId) (x : Z) (l : LaneState) : Prop :=
  (is_Some (ls_open_until_ms l) ∧ ls_probe_admission_id l = Some i ∧ ls_probe_expires_at_ms l = Some x) ∨
  x ≤ ls_last_observed_at_ms l.

(** The answer dispatches nothing. *)
Definition no_dispatch (r : result EffectDispatchAdmissionDecision) : Prop :=
  r ≠ Ok AdAllow ∧ r ≠ Ok AdAllowProbe.

Lemma probing_decided i x v l l' res :
  probing i x l → decided v l l' res →
  probing i x l' ∧
  (va_admitted_at_ms v < x → is_ok res = false ∨ ∃ t epoch, res = Ok (AdCircuitOpen t, epoch)).
Proof.
  intros Hb Hd. pose proof (decided_moves _ _ _ _ Hd) as (Hl & _ & Ho & _).
  destruct Hb as [([u Hu] & Hi & Hx)|Hb].
  - destruct (Z.le_gt_cases x (va_admitted_at_ms v)) as [Hxn|Hxn].
    + split; [|lia]. destruct (observed_fields (va_admitted_at_ms v) l) as (_ & El & _).
      destruct Hd; try congruence; try (right; simpl; lia).
    + pose proof (observed_probing _ _ _ Hx Hxn) as Eobs.
      assert (probing i x (set_observed (va_admitted_at_ms v) l)) as Hk by (left; split_and!; eauto).
      destruct Hd as [| | |u' ? ? ? Hno| | | |]; try congruence; rewrite ?Eobs.
      * split; [left; split_and!; eauto|by left].
      * split; [done|right; eauto].
      * split; [done|right; eauto].
      * specialize (Hno x Hx). lia.
      * split; [done|by left].
  - split; [right; lia|]. intros Hn. destruct Hd; try (by left); lia.
Qed.

Lemma probing_settlement R i x l l' id r st t res :
  lane_circ R l → R r → validate_settlement_record r st t = Ok () → id ≠ i → probing i x l →
  apply_settlement id r st t l = (l', res) → probing i x l'.
Proof.
  intros Hc Hr Hv Hne Hb Ha. pose proof (allowed_decision _ _ _ Hv) as Hd.
  apply apply_settlement_cases in Ha as [(_ & -> & _)|([He Hpr] & Hs)]; [done|].
  destruct Hb as [([u Hu] & Hi & Hx)|Hb].
  - destruct (lc_open _ _ Hc r u Hr Hu He) as [Hna _]. destruct Hd as [Hd|Hd]; [done|].
    specialize (Hpr Hd). congruence.
  - right. destruct Hs as [[_ Hs]|[_ (f & n & _ & ->)]]; [|simpl; lia]. destruct Hs; simpl; lia.
Qed.

(** * One step of a run *)

Section circuit.
Context `{!Serialize EffectDispatchGovernorPolicy, sha : !Sha256}.

(** The admissions recorded for a lane. *)
Definition recorded (s : GovernorState) (k : LaneKey) (r : AdmissionRecord) : Prop :=
  ∃ tenant id, gs_admissions s !! (tenant, id) = Some r ∧
               lane_key (ar_operation r) (ar_policy r) tenant = k.

Record circ_inv (s : GovernorState) : Prop := {
  ci_lane k l : gs_lanes s !! k = Some l → lane_circ (recorded s k) l;
  ci_exists k r : recorded s k r → is_Some (gs_lanes s !! k);
}.

(** How a step may move one lane. *)
Inductive lane_move (may : str * EffectLeaseId → Prop) (s : GovernorState) (k : LaneKey) (l : LaneState) :
    list Attempt → LaneState → Prop :=
| move_none new :
    (∀ e, e ∈ new → at_lane e = k → is_ok (at_answer e) = false) → lane_move may s k l new l
| move_decided v res r l' :
    va_lane v = k → decided v l l' res →
    (is_ok r = false ∨ ∃ d epoch, res = Ok (d, epoch) ∧ r = Ok d) →
    lane_move may s k l [attempt_of v r] l'
| move_settled id r st t res l' :
    may (lk_tenant_id k, id) → recorded s k r → validate_settlement_record r st t = Ok () →
    apply_settlement id r st t l = (l', res) → lane_move may s k l [] l'.

Lemma recorded_pruned s k r at_ms : recorded (prune_memory at_ms s) k r → recorded s k r.
Proof. intros (tn & id & [H _]%map_lookup_filter_Some & Hk). by exists tn, id. Qed.

Lemma circ_inv_pruned s at_ms : circ_inv s → circ_inv (prune_memory at_ms s).
Proof.
  intros [H1 H2]. split.
  - intros k l Hl. apply (lane_circ_sub (recorded s k)); [|by apply H1]. intros r. apply recorded_pruned.
  - intros k r Hr. apply (H2 k r). by eapply recorded_pruned.
Qed.

Lemma circ_inv_insert_lane s k l :
  circ_inv s → lane_circ (recorded s k) l → circ_inv (insert_lane k l s).
Proof.
  intros [H1 H2] Hl. split; simpl.
  - intros k' l' [[<- <-]|[Hne Hk]]%lookup_insert_Some; [exact Hl|by apply H1].
  - intros k' r Hr. destruct (decide (k = k')) as [->|]; [rewrite lookup_insert_eq; eauto|].
    rewrite lookup_insert_ne by done. by eapply H2.
Qed.

Lemma recorded_insert s tn id r' k r :
  recorded (insert_admission (tn, id) r' s) k r →
  recorded s k r ∨ r = r' ∧ lane_key (ar_operation r) (ar_policy r) tn = k.
Proof.
  intros (tn' & id' & H & Hk). simpl in H.
  apply lookup_insert_Some in H as [[[= <- <-] <-]|[_ H]]; [by right|].
  left. by exists tn', id'.
Qed.

Lemma circ_inv_insert_admission s tn id r l :
  circ_inv s → gs_lanes s !! lane_key (ar_operation r) (ar_policy r) tn = Some l →
  lane_circ (λ r', recorded s (lane_key (ar_operation r) (ar_policy r) tn) r' ∨ r' = r) l →
  circ_inv (insert_admission (tn, id) r s).
Proof.
  intros [H1 H2] Hl Hc. split; simpl.
  - intros k' l' Hk'. destruct (decide (k' = lane_key (ar_operation r) (ar_policy r) tn)) as [->|Hne].
    + assert (l' = l) as -> by congruence. apply (lane_circ_sub _ _ _ ltac:(clear Hc) Hc) || idtac.
      eapply lane_circ_sub; [|exact Hc]. intros r' [?|[-> _]]%recorded_insert; auto.
    + eapply lane_circ_sub; [|by apply H1]. intros r' [?|[-> ?]]%recorded_insert; [done|congruence].
  - intros k' r' [?|[-> <-]]%recorded_insert; [by eapply H2|eauto].
Qed.

Lemma lane_circ_initial v s :
  circ_inv s → gs_lanes s !! va_lane v = None → lane_circ (recorded s (va_lane v)) (initial_lane v).
Proof.
  intros [_ H2] Hn. split; intros r; intros; destruct (H2 (va_lane v) r) as [? ?]; congruence || done.
Qed.

Lemma circ_admitted may s v s' r :
  circ_inv s → va_lane v = lane_key (va_operation v) (va_policy v) (lk_tenant_id (va_lane v)) →
  admitted v s s' r →
  circ_inv s' ∧ ∀ k l, gs_lanes s !! k = Some l → ∃ l', gs_lanes s' !! k = Some l' ∧
    lane_move may s k l
      (match gs_admissions (prune_memory (va_admitted_at_ms v) s) !! admission_key v with
       | Some _ => [] | None => [attempt_of v r] end) l'.
Proof.
  intros Hi Hlane Ha. pose proof (circ_inv_pruned s (va_admitted_at_ms v) Hi) as Hpi.
  set (s0 := prune_memory (va_admitted_at_ms v) s) in *.
  assert (lane_circ (recorded s0 (va_lane v)) (lane_of v s)) as Hlc.
  { unfold lane_of. destruct (gs_lanes s !! va_lane v) as [l|] eqn:El; simpl; [by apply (ci_lane _ Hpi)|].
    by apply lane_circ_initial. }
  assert (∀ lane' res, decided v (lane_of v s) lane' res → gs_admissions s0 !! admission_key v = None →
    (is_ok r = false ∨ ∃ d epoch, res = Ok (d, epoch) ∧ r = Ok d) →
    ∀ k l, gs_lanes s !! k = Some l → ∃ l', <[va_lane v := lane']> (gs_lanes s) !! k = Some l' ∧
      lane_move may s k l [attempt_of v r] l') as Hmove.
  { intros lane' res Hd Hno Hr k l Hk. destruct (decide (va_lane v = k)) as [E|Hne].
    - rewrite E, lookup_insert_eq. eexists. split; [done|]. apply (move_decided _ _ _ _ v res); [done| |done].
      unfold lane_of in Hd. rewrite E, Hk in Hd. exact Hd.
    - rewrite lookup_insert_ne by done. exists l. split; [done|]. apply move_none.
      by intros e ->%list_elem_of_singleton Hk'. }
  destruct Ha as [e|existing Hex _|lane' res e Hno Hsha Hd|lane' d epoch Hno Hsha Hd _ _ _].
  - split; [done|]. intros k l Hk. exists l. split; [done|]. apply move_none. intros e'.
    destruct (_ !! admission_key v); [by intros ?%elem_of_nil|by intros ->%list_elem_of_singleton].
  - split; [done|]. intros k l Hk. exists l. split; [done|]. fold s0 in Hex. rewrite Hex. apply move_none.
    by intros ? ?%elem_of_nil.
  - fold s0 in Hno. rewrite Hno. destruct (decided_circ _ _ _ _ _ Hlc Hd) as [Hc _].
    split; [by apply circ_inv_insert_lane|]. eapply Hmove; eauto.
  - fold s0 in Hno. rewrite Hno. destruct (decided_circ _ _ _ _ _ Hlc Hd) as [Hc Hc']. split; [|eapply Hmove; eauto].
    unfold admission_key. apply (circ_inv_insert_admission _ _ _ _ lane').
    + by apply circ_inv_insert_lane.
    + simpl. rewrite <-Hlane. by rewrite lookup_insert_eq.
    + simpl. rewrite <-Hlane. eapply lane_circ_sub; [|by eapply Hc'].
      by intros r' [Hr'| ->]; [left|right].
Qed.

Lemma circ_settled may s id st t tenant s' r :
  circ_inv s → may (tenant, id) → settlement_done id st t tenant s s' r →
  circ_inv s' ∧ ∀ k l, gs_lanes s !! k = Some l → ∃ l', gs_lanes s' !! k = Some l' ∧
    lane_move may s k l [] l'.
Proof.
  intros Hi Hmay Hd.
  assert (circ_inv s ∧ ∀ k l, gs_lanes s !! k = Some l → ∃ l', gs_lanes s !! k = Some l' ∧
    lane_move may s k l [] l') as Hsame.
  { split; [done|]. intros k l Hk. exists l. split; [done|]. apply move_none. by intros ? ?%elem_of_nil. }
  destruct Hd as [e|rec Hr Hst|rec lane lane' res Hr Hst Hv Hl Ha]; [done..|]. clear Hsame.
  set (k0 := lane_key (ar_operation rec) (ar_policy rec) tenant) in *.
  assert (recorded s k0 rec) as Hrec by (by exists tenant, id).
  pose proof (settlement_circ _ _ _ _ _ _ _ _ (ci_lane _ Hi _ _ Hl) Ha) as Hc.
  assert (∀ k l, gs_lanes s !! k = Some l → ∃ l', <[k0 := lane']> (gs_lanes s) !! k = Some l' ∧
    lane_move may s k l [] l') as Hmove.
  { intros k l Hk. destruct (decide (k0 = k)) as [<-|Hne].
    - rewrite lookup_insert_eq. exists lane'. split; [done|]. assert (l = lane) as -> by congruence.
      by eapply move_settled.
    - rewrite lookup_insert_ne by done. exists l. split; [done|]. apply move_none. by intros ? ?%elem_of_nil. }
  simpl. destruct (is_ok res); (split; [|exact Hmove]); [|by apply circ_inv_insert_lane].
  apply (circ_inv_insert_admission _ _ _ _ lane').
  - by apply circ_inv_insert_lane.
  - simpl. fold k0. by rewrite lookup_insert_eq.
  - simpl. fold k0. destruct Hc as [C1 C2]. split.
    + intros r' [Hr'| ->]; [by apply C1|]. exact (C1 rec Hrec).
    + intros r' u [Hr'| ->] Hu He; [by apply C2|]. exact (C2 rec u Hrec Hu He).
Qed.

Lemma circ_step may s new s' :
  circ_inv s → gov_step may s new s' →
  circ_inv s' ∧ ∀ k l, gs_lanes s !! k = Some l → ∃ l', gs_lanes s' !! k = Some l' ∧
    lane_move may s k l new l'.
Proof.
  intros Hi Hst.
  assert (∀ new', (∀ e, e ∈ new' → is_ok (at_answer e) = false) →
    circ_inv s ∧ ∀ k l, gs_lanes s !! k = Some l →
      ∃ l', gs_lanes s !! k = Some l' ∧ lane_move may s k l new' l') as Hsame.
  { intros new' Hnew. split; [done|]. intros k l Hk. exists l. split; [done|]. apply move_none. auto. }
  destruct Hst as [req a s1 r Hn Hm|id st t a s1 r Hmay Hm|req a r Hr|].
  - destruct (ValidatedAdmission_new req a) as [v|e] eqn:Hv.
    + pose proof (mem_admit_admitted _ _ _ _ _ _ Hn Hv Hm) as Ha.
      pose proof (ValidatedAdmission_new_ok _ _ _ Hv) as (_ & Ho & Hp & _ & Hlane & _).
      assert (attempts req a s r =
        match gs_admissions (prune_memory (va_admitted_at_ms v) s) !! admission_key v with
        | Some _ => [] | None => [attempt_of v r] end) as ->.
      { unfold attempts. by rewrite Hv. }
      apply circ_admitted; [done| |done]. by rewrite Hlane, Ho, Hp.
    + unfold mem_admit_as in Hm. rewrite Hv in Hm. injection Hm as <- <-.
      apply Hsame. intros e' He'. exact (attempts_failed _ _ _ (Err e) _ eq_refl He').
  - apply mem_settle_done in Hm. by eapply circ_settled.
  - apply Hsame. intros e He. exact (attempts_failed _ _ _ _ _ Hr He).
  - apply Hsame. by intros ? ?%elem_of_nil.
Qed.

Lemma circ_inv_empty : circ_inv gov_empty.
Proof.
  split; [intros k l; simpl; by rewrite lookup_empty|].
  intros k r (tn & id & H & _). simpl in H. by rewrite lookup_empty in H.
Qed.

Lemma circ_steps may s tr s' : circ_inv s → gov_steps may s tr s' → circ_inv s'.
Proof. intros Hi H. induction H as [|tr s1 new s2 _ IH Hs]; [done|]. by eapply circ_step. Qed.

(** A property of a lane that every move keeps bounds the answers of a run. *)
Lemma lane_steps may (Q : LaneState → Prop) (A : Attempt → Prop) k s tr s' :
  circ_inv s →
  (∀ s l new l', circ_inv s → gs_lanes s !! k = Some l → Q l → lane_move may s k l new l' →
     Q l' ∧ ∀ e, e ∈ new → at_lane e = k → A e) →
  (∃ l, gs_lanes s !! k = Some l ∧ Q l) → gov_steps may s tr s' →
  (∃ l, gs_lanes s' !! k = Some l ∧ Q l) ∧ ∀ e, e ∈ tr → at_lane e = k → A e.
Proof.
  intros Hi Hmove Hq Hsteps. induction Hsteps as [|tr s1 new s2 H1 IH Hs];
    [split; [done|by intros ? ?%elem_of_nil]|].
  destruct IH as [(l & Hl & HQ) HA]. pose proof (circ_steps _ _ _ _ Hi H1) as Hi1.
  destruct (circ_step _ _ _ _ Hi1 Hs) as [_ Hm]. destruct (Hm k l Hl) as (l' & Hl' & Hlm).
  destruct (Hmove _ _ _ _ Hi1 Hl HQ Hlm) as [HQ' HA']. split; [eauto|].
  intros e [He|He]%elem_of_app Hk; auto.
Qed.

Lemma barred_move may s k l new l' u :
  circ_inv s → gs_lanes s !! k = Some l → barred u l → lane_move may s k l new l' →
  barred u l' ∧ ∀ e, e ∈ new → at_lane e = k →
    at_time e < u → is_ok (at_answer e) = false ∨ at_answer e = Ok (AdCircuitOpen u).
Proof.
  intros Hi Hl Hb [new' Hno|v res r l1 Hv Hd Hr|id r st t res l1 _ Hrec Hv Ha].
  - split; [done|]. intros e He Hk _. left. by apply Hno.
  - destruct (barred_decided _ _ _ _ _ Hb Hd) as [Hb' Hans]. split; [done|].
    intros e ->%list_elem_of_singleton _ Ht. simpl in *. destruct Hr as [Hr|(d & ep & -> & ->)]; [by left|].
    destruct (Hans Ht) as [[=]|[ep' [= -> ->]]]. by right.
  - split; [|by intros ? ?%elem_of_nil]. eapply barred_settlement; [|done..]. by apply (ci_lane _ Hi).
Qed.

Lemma probing_move may s k l new l' i x :
  (∀ id, may (lk_tenant_id k, id) → id ≠ i) →
  circ_inv s → gs_lanes s !! k = Some l → probing i x l → lane_move may s k l new l' →
  probing i x l' ∧ ∀ e, e ∈ new → at_lane e = k →
    at_time e < x → is_ok (at_answer e) = false ∨ ∃ t, at_answer e = Ok (AdCircuitOpen t).
Proof.
  intros Hmay Hi Hl Hb [new' Hno|v res r l1 Hv Hd Hr|id r st t res l1 Hm Hrec Hv Ha].
  - split; [done|]. intros e He Hk _. left. by apply Hno.
  - destruct (probing_decided _ _ _ _ _ _ Hb Hd) as [Hb' Hans]. split; [done|].
    intros e ->%list_elem_of_singleton _ Ht. simpl in *. destruct Hr as [Hr|(d & ep & -> & ->)]; [by left|].
    destruct (Hans Ht) as [[=]|(t & ep' & [= -> ->])]. eauto.
  - split; [|by intros ? ?%elem_of_nil].
    eapply probing_settlement; [by apply (ci_lane _ Hi)|done|done|by apply Hmay|done..].
Qed.

(** The step that admitted a probe left it in charge of its lane. *)
Lemma probe_granted may s e s' :
  gov_step may s [e] s' → at_answer e = Ok AdAllowProbe →
  ∃ l, gs_lanes s' !! at_lane e = Some l ∧
       probing (at_id e) (at_time e + gp_probe_lease_ms (at_policy e)) l.
Proof.
  intros Hs He. remember [e] as new eqn:En. destruct Hs as [req a s1 r Hn Hm| |req a r Hr|]; [|done| |done].
  2:{ pose proof (attempts_failed req a s r e Hr) as Hf. rewrite En, He in Hf.
      discriminate (Hf (list_elem_of_here _ _)). }
  unfold attempts in En. destruct (ValidatedAdmission_new req a) as [v|] eqn:Hv; [|done].
  destruct (_ !! admission_key v) as [existing|] eqn:Ex; [done|].
  injection En as <-. simpl in *.
  pose proof (mem_admit_admitted _ _ _ _ _ _ Hn Hv Hm) as Ha. rewrite He in *.
  inversion Ha as [|existing Hex _ Hs Hd|lane' res ? ? ? ? |lane' d epoch Hno Hsha Hd _ _ _ Hs Hd']; subst;
    [simpl in *; congruence|].
  exists lane'. simpl. rewrite lookup_insert_eq. split; [done|].
  inversion Hd; subst. left. simpl.
  destruct (observed_fields (va_admitted_at_ms v) (lane_of v s)) as (_ & _ & _ & _ & _ & _ & ->).
  split_and!; [eauto|done..].
Qed.

(** the circuit holds: in any run, while the circuit of a lane is open until
    [u], no admission decided on the lane before [u] is dispatched: it is
    answered by an error or by that deadline.  After a probe was admitted,
    none of the lane's admissions is dispatched before the probe's lease
    ends, unless the probe itself is settled. *)
Theorem governor_circuit_holds (tr : list Attempt) (s : GovernorState)
    (Hrun : gov_steps anything gov_empty tr s) :
  (∀ k l u new s' e,
     gs_lanes s !! k = Some l → ls_open_until_ms l = Some u → gov_steps anything s new s' →
     e ∈ new → at_lane e = k → at_time e < u →
     is_ok (at_answer e) = false ∨ at_answer e = Ok (AdCircuitOpen u)) ∧
  (∀ probe s1 new s' e,
     gov_step anything s [probe] s1 → at_answer probe = Ok AdAllowProbe →
     gov_steps (λ key, key ≠ (lk_tenant_id (at_lane probe), at_id probe)) s1 new s' →
     e ∈ new → at_lane e = at_lane probe →
     at_time e < at_time probe + gp_probe_lease_ms (at_policy probe) →
     is_ok (at_answer e) = false ∨ ∃ t, at_answer e = Ok (AdCircuitOpen t)).
Proof.
  pose proof (circ_steps _ _ _ _ circ_inv_empty Hrun) as Hi. split.
  - intros k l u new s' e Hl Hu Hnew He Hk Ht.
    destruct (lane_steps anything (barred u) (λ e, at_time e < u →
      is_ok (at_answer e) = false ∨ at_answer e = Ok (AdCircuitOpen u)) k s new s' Hi) as [_ HA]; eauto.
    + intros s0 l0 new0 l0' Hi0 Hl0 Hb Hm. by eapply barred_move.
    + exists l. split; [done|by left].
  - intros probe s1 new s' e Hstep Hp Hnew He Hk Ht.
    pose proof (circ_step _ _ _ _ Hi Hstep) as [Hi1 _].
    destruct (lane_steps (λ key, key ≠ (lk_tenant_id (at_lane probe), at_id probe))
      (probing (at_id probe) (at_time probe + gp_probe_lease_ms (at_policy probe)))
      (λ e, at_time e < at_time probe + gp_probe_lease_ms (at_policy probe) →
        is_ok (at_answer e) = false ∨ ∃ t, at_answer e = Ok (AdCircuitOpen t))
      (at_lane probe) s1 new s' Hi1) as [_ HA]; eauto.
    + intros s0 l0 new0 l0' Hi0 Hl0 Hb Hm. eapply probing_move; [|done..]. simpl. congruence.
    + by eapply probe_granted.
Qed.

(** * Admissions and settlements are recorded once *)

(** A request for a recorded admission. *)
Lemma admit_recorded req a s v rec :
  ValidatedAdmission_new req a = Ok v → gs_admissions s !! admission_key v = Some rec →
  va_admitted_at_ms v < ar_expires_at_ms rec →
  mem_admit_as req a s =
    (prune_memory (va_admitted_at_ms v) s,
     match validate_duplicate rec v with Ok _ => Ok (ar_decision rec) | Err e => Err e end).
Proof.
  intros Hv Hk Hx. unfold mem_admit_as. rewrite Hv. unfold mbind, M_bind, lift, modify, get.
  fold (admission_key v).
  assert (gs_admissions (prune_memory (va_admitted_at_ms v) s) !! admission_key v = Some rec) as ->.
  { simpl. by apply map_lookup_filter_Some. }
  by destruct (validate_duplicate rec v) as [[]|].
Qed.

(** What an answered admission has recorded. *)
Lemma admit_records req a s s1 d :
  0 ≤ dr_admitted_at_ms req → mem_admit_as req a s = (s1, Ok d) →
  ∃ v rec, ValidatedAdmission_new req a = Ok v ∧
    admission_key v = (gov_tenant a, dr_admission_id req) ∧
    gs_admissions s1 !! admission_key v = Some rec ∧ ar_decision rec = d ∧
    validate_duplicate rec v = Ok ().
Proof.
  intros Hn Hm. destruct (ValidatedAdmission_new req a) as [v|e] eqn:Hv.
  2:{ unfold mem_admit_as in Hm. by rewrite Hv in Hm. }
  exists v. pose proof (ValidatedAdmission_new_ok _ _ _ Hv) as (Hid & _ & _ & _ & Hl & _).
  pose proof (mem_admit_admitted _ _ _ _ _ _ Hn Hv Hm) as Ha.
  assert (admission_key v = (gov_tenant a, dr_admission_id req)) as Hk
    by (unfold admission_key; by rewrite Hid, Hl).
  inversion Ha as [|rec Hex Hdup|lane' res e|lane' d' epoch Hno Hsha Hd]; subst.
  - by exists rec.
  - exists (record_of v epoch d). simpl. rewrite lookup_insert_eq. split_and!; [done..|].
    unfold validate_duplicate. simpl. by rewrite !bool_decide_false by (intros Hc; by apply Hc).
Qed.

Lemma validate_duplicate_ok rec v u :
  validate_duplicate rec v = Ok u ↔
  ar_operation rec = va_operation v ∧ gp_policy_id (ar_policy rec) = gp_policy_id (va_policy v) ∧
  ar_policy_sha256 rec = va_policy_sha256 v.
Proof.
  unfold validate_duplicate. rewrite reject_if_ok, !orb_false_iff, !bool_decide_eq_false.
  split; [intros [[?%dec_stable ?%dec_stable] ?%dec_stable]; done|naive_solver].
Qed.

(** A request with the content of a recorded one, at another time. *)
Lemma ValidatedAdmission_again req again a v :
  ValidatedAdmission_new req a = Ok v → dr_admission_id again = dr_admission_id req →
  dr_operation again = dr_operation req → dr_policy again = dr_policy req →
  dr_admitted_at_ms again ≠ 0 →
  ValidatedAdmission_new again a =
    Ok {| va_admission_id := va_admission_id v; va_operation := va_operation v;
          va_policy := va_policy v; va_policy_sha256 := va_policy_sha256 v;
          va_admitted_at_ms := dr_admitted_at_ms again; va_lane := va_lane v |}.
Proof.
  intros Hv Hid Ho Hp Ht. unfold ValidatedAdmission_new, eff_validate_application_time in *.
  rewrite Hid, Ho, Hp. inv_ok. subst v. simpl.
  repeat match goal with H : _ = Ok _ |- _ => rewrite H; clear H end. simpl.
  unfold reject_if. by rewrite (proj2 (Z.eqb_neq _ _)).
Qed.

(** The record, or the record once it was settled. *)
Definition possibly_settled (rec rec' : AdmissionRecord) : Prop :=
  rec' = rec ∨ ∃ st, rec' = ar_settled st rec.

Lemma settle_again id st t a s s1 t' st' :
  mem_settle_as id st t a s = (s1, Ok ()) → t' ≠ 0 →
  (∀ rec, gs_admissions s !! (gov_tenant a, id) = Some rec → ar_admitted_at_ms rec ≤ t') →
  ∃ r, mem_settle_as id st' t' a s1 = (s1, r) ∧ (is_ok r = true ↔ st' = st).
Proof.
  intros Hm Ht Hadm.
  assert (validate_settlement id t' a = Ok ()) as Hvs.
  { unfold mem_settle_as in Hm. inv_M. unfold validate_settlement, eff_validate_application_time in *.
    inv_ok. repeat match goal with H : _ = Ok () |- _ => rewrite H; clear H end. simpl.
    unfold reject_if. by rewrite (proj2 (Z.eqb_neq _ _)). }
  assert (∃ rec, gs_admissions s1 !! (gov_tenant a, id) = Some rec ∧ ar_settlement rec = Some st ∧
    ar_admitted_at_ms rec ≤ t' ∧ (ar_decision rec = AdAllow ∨ ar_decision rec = AdAllowProbe))
    as (rec & Hr & Hst & Hat & Hd).
  { pose proof Hm as Hv. unfold mem_settle_as in Hv. inv_M. inv_ok.
    apply mem_settle_done in Hm. inversion Hm as [|rec Hr Hst|rec lane lane' res Hr Hst Hval Hl Ha]; subst.
    - exists rec. split_and!; [done..|by apply Hadm|]. simplify_eq. by eapply allowed_decision.
    - exists (ar_settled st rec). simpl. rewrite lookup_insert_eq. split_and!; [done..|by apply Hadm|].
      by eapply allowed_decision. }
  unfold mem_settle_as, mbind, M_bind, lift, get, ok_or. rewrite Hvs, Hr.
  unfold validate_settlement_record. rewrite Hst.
  rewrite (proj2 (Z.ltb_ge _ _)) by done.
  assert (match ar_decision rec with AdAllow | AdAllowProbe => false | _ => true end = false) as ->
    by (by destruct Hd as [-> | ->]).
  simpl. destruct (bool_decide_reflect (st ≠ st')) as [Hne|He%dec_stable]; simpl.
  - eexists. split; [done|]. split; [done|by intros ->].
  - eexists. split; [done|]. by split.
Qed.

(** Admissions are idempotent: whatever was answered for an admission
    identity is recorded; until the record expires, the same request gets
    the same answer at any time, a request with other content an error, and
    neither moves any lane.  A settlement counts once: repeating it changes
    nothing, and contradicting it is an error that changes nothing. *)
Theorem governor_idempotent (req : EffectDispatchAdmissionRequest) (a : AuthorityContext)
    (s s1 : GovernorState) (d : EffectDispatchAdmissionDecision)
    (Hn : 0 ≤ dr_admitted_at_ms req) (Hadmit : mem_admit_as req a s = (s1, Ok d)) :
  ∃ rec, gs_admissions s1 !! (gov_tenant a, dr_admission_id req) = Some rec ∧ ar_decision rec = d ∧
    (∀ again s2 rec', gs_admissions s2 !! (gov_tenant a, dr_admission_id req) = Some rec' →
       possibly_settled rec rec' → dr_admission_id again = dr_admission_id req →
       0 < dr_admitted_at_ms again < ar_expires_at_ms rec →
       ∃ s3 r, mem_admit_as again a s2 = (s3, r) ∧ gs_lanes s3 = gs_lanes s2 ∧
         (dr_operation again = dr_operation req → dr_policy again = dr_policy req → r = Ok d) ∧
         (dr_operation again ≠ dr_operation req ∨
          gp_policy_id (dr_policy again) ≠ gp_policy_id (dr_policy req) → is_ok r = false)) ∧
    (∀ st t s2 s3, gs_admissions s2 !! (gov_tenant a, dr_admission_id req) = Some rec →
       mem_settle_as (dr_admission_id req) st t a s2 = (s3, Ok ()) →
       ∀ st' t', ar_admitted_at_ms rec ≤ t' → t' ≠ 0 →
       ∃ r, mem_settle_as (dr_admission_id req) st' t' a s3 = (s3, r) ∧ (is_ok r = true ↔ st' = st)).
Proof.
  destruct (admit_records _ _ _ _ _ Hn Hadmit) as (v & rec & Hv & Hk & Hr & Hd & Hdup).
  exists rec. rewrite <-Hk. split_and!; [done..| |].
  - intros again s2 rec' Hr2 Hps Hid Ht.
    assert (ar_decision rec' = d ∧ ar_expires_at_ms rec' = ar_expires_at_ms rec ∧
      ar_operation rec' = ar_operation rec ∧ ar_policy rec' = ar_policy rec ∧
      ar_policy_sha256 rec' = ar_policy_sha256 rec) as (E1 & E2 & E3 & E4 & E5)
      by (destruct Hps as [->|[st ->]]; done).
    destruct (ValidatedAdmission_new again a) as [v2|e] eqn:Hv2.
    + pose proof (ValidatedAdmission_new_ok _ _ _ Hv2) as (Hid2 & Ho2 & Hp2 & Hat2 & Hl2 & _).
      pose proof (ValidatedAdmission_new_ok _ _ _ Hv) as (_ & Ho & Hp & _).
      apply validate_duplicate_ok in Hdup as (Hdo & Hdp & Hds).
      rewrite (admit_recorded again a s2 v2 rec' Hv2);
        [|by unfold admission_key in *; rewrite Hid2, Hl2, Hid; simpl; rewrite <-Hk|lia].
      do 2 eexists. split; [done|]. split; [done|]. split.
      * intros Heo Hep. pose proof (ValidatedAdmission_again _ _ _ _ Hv Hid Heo Hep ltac:(lia)) as Hv2'.
        rewrite Hv2 in Hv2'. injection Hv2' as ->.
        by rewrite (proj2 (validate_duplicate_ok rec' _ ())), E1 by (simpl; split_and!; congruence).
      * intros Hne. destruct (validate_duplicate rec' v2) as [u|e] eqn:E; [|done].
        apply validate_duplicate_ok in E as (Eo & Ep & _). destruct Hne as [Hne|Hne]; destruct Hne; congruence.
    + exists s2, (Err e). unfold mem_admit_as. rewrite Hv2. split_and!; try done.
      intros Ho Hp. pose proof (ValidatedAdmission_again _ _ _ _ Hv Hid Ho Hp ltac:(lia)). congruence.
  - intros st t s2 s3 Hr2 Hs st' t' Hat Ht'. apply (settle_again _ _ _ _ _ _ _ _ Hs Ht').
    intros rec' Hr'. rewrite Hk in Hr2. congruence.
Qed.

(** * Tenants *)

(** Tenants are isolated: a call of one tenant leaves every lane of another
    tenant as it was, and every admission of another tenant, except those
    whose retention has ended. *)
Theorem governor_tenant_isolation (a : AuthorityContext) (s : GovernorState) :
  (∀ req s' r, 0 ≤ dr_admitted_at_ms req → mem_admit_as req a s = (s', r) →
     (∀ k, lk_tenant_id k ≠ gov_tenant a → gs_lanes s' !! k = gs_lanes s !! k) ∧
     ∀ tenant id, tenant ≠ gov_tenant a →
       gs_admissions s' !! (tenant, id) = gs_admissions s !! (tenant, id) ∨
       ∃ rec, gs_admissions s !! (tenant, id) = Some rec ∧
              ar_expires_at_ms rec ≤ dr_admitted_at_ms req ∧ gs_admissions s' !! (tenant, id) = None) ∧
  (∀ id st t s' r, mem_settle_as id st t a s = (s', r) →
     (∀ k, lk_tenant_id k ≠ gov_tenant a → gs_lanes s' !! k = gs_lanes s !! k) ∧
     ∀ tenant id', tenant ≠ gov_tenant a → gs_admissions s' !! (tenant, id') = gs_admissions s !! (tenant, id')).
Proof.
  split.
  - intros req s' r Hn Hm. destruct (ValidatedAdmission_new req a) as [v|e] eqn:Hv.
    2:{ unfold mem_admit_as in Hm. rewrite Hv in Hm. injection Hm as <- _. auto. }
    pose proof (ValidatedAdmission_new_ok _ _ _ Hv) as (_ & _ & _ & Hat & Hl & _).
    assert (∀ tenant id, gs_admissions (prune_memory (va_admitted_at_ms v) s) !! (tenant, id) =
              gs_admissions s !! (tenant, id) ∨
            ∃ rec, gs_admissions s !! (tenant, id) = Some rec ∧
              ar_expires_at_ms rec ≤ dr_admitted_at_ms req ∧
              gs_admissions (prune_memory (va_admitted_at_ms v) s) !! (tenant, id) = None) as Hpr.
    { intros tenant id. simpl. destruct (gs_admissions s !! (tenant, id)) as [rec|] eqn:E.
      - destruct (Z.lt_ge_cases (va_admitted_at_ms v) (ar_expires_at_ms rec)).
        + left. by apply map_lookup_filter_Some.
        + right. exists rec. split_and!; [done|lia|]. apply map_lookup_filter_None. right.
          intros rec' E' Hlt. simpl in Hlt. assert (rec' = rec) as -> by congruence. lia.
      - left. apply map_lookup_filter_None. by left. }
    assert (lk_tenant_id (va_lane v) = gov_tenant a) as Ht by (by rewrite Hl).
    destruct (mem_admit_admitted _ _ _ _ _ _ Hn Hv Hm); simpl; split; intros; try done; try by apply Hpr.
    + apply lookup_insert_ne. congruence.
    + apply lookup_insert_ne. congruence.
    + rewrite lookup_insert_ne by (unfold admission_key; congruence). by apply Hpr.
  - intros id st t s' r Hm. apply mem_settle_done in Hm as []; [done..|]. simpl.
    destruct (is_ok res); simpl;
      (split; [intros k Hne; apply lookup_insert_ne; intros <-; by apply Hne|intros tenant id' Hne]);
      [apply lookup_insert_ne; congruence|done].
Qed.
End circuit.
