(* ===== verification/GovernorStore.v ===== *)
(** The durable dispatch governor of src/src/effect/governor.rs: its tables,
    the transactions of admission and settlement, and the check of the
    database file.  The wire codec of the stored documents is a parameter. *)

From Stdlib Require Import ZArith Lia.
From stdpp Require Import base tactics list gmap numbers strings option.
From stdpp Require Import list.
From S2P Require Import Prelude Kernel Digest Json Sqlite Effect Governor.

(** * Tables *)

Record MetaRow := {
  mr_singleton : Z;
  mr_schema_version : Z;
  mr_lane_count : Z;
  mr_admission_count : Z;
}.

#[global] Instance MetaRow_eq : EqDecision MetaRow.
Proof. solve_decision. Defined.

Record LaneRow := {
  lr_policy_sha256 : str;
  lr_state_json : str;
}.

Record AdmissionRow := {
  dx_expires_at_ms : Z;
  dx_settlement : option str;
  dx_admission_json : str;
}.

(** The tables; the primary keys are the keys of the maps. *)
Record GovernorTables := {
  gt_meta : list MetaRow;
  gt_lanes : gmap LaneKey LaneRow;
  gt_admissions : gmap (str * EffectLeaseId) AdmissionRow;
}.

Abbreviation SqliteGovernor := (Connection GovernorTables).

Definition with_meta (m : list MetaRow) (t : GovernorTables) : GovernorTables :=
  {| gt_meta := m; gt_lanes := gt_lanes t; gt_admissions := gt_admissions t |}.
Definition with_lanes (m : gmap LaneKey LaneRow) (t : GovernorTables) : GovernorTables :=
  {| gt_meta := gt_meta t; gt_lanes := m; gt_admissions := gt_admissions t |}.
Definition with_admissions (m : gmap (str * EffectLeaseId) AdmissionRow) (t : GovernorTables)
    : GovernorTables :=
  {| gt_meta := gt_meta t; gt_lanes := gt_lanes t; gt_admissions := m |}.

(** [sql_error]. *)
Definition gov_sql (m : message) : HarnessError :=
  Prelude.Effect (prefixed GOVERNOR (prefixed "SQLite: " m)).

Definition gov_sql_time (value : Z) : result Z :=
  i64_try_from value (gov "time exceeds SQLite" []).

(** * Statements *)

(** [UPDATE .. SET lane_count = lane_count + ?1, .. WHERE singleton = 1]: the
    new rows unless a [CHECK] fails, and the number of changed rows. *)
Definition update_meta (lane_delta admission_delta : Z) (m : list MetaRow)
    : option (list MetaRow * Z) :=
  let step r :=
    if (mr_singleton r =? 1)%Z
    then {| mr_singleton := mr_singleton r; mr_schema_version := mr_schema_version r;
            mr_lane_count := mr_lane_count r + lane_delta;
            mr_admission_count := mr_admission_count r + admission_delta |}
    else r in
  let m' := step <$> m in
  if forallb (λ r, (0 <=? mr_lane_count r)%Z && (0 <=? mr_admission_count r)%Z) m'
  then Some (m', len (List.filter (λ r, mr_singleton r =? 1)%Z m)) else None.

Definition gov_tables : M SqliteGovernor GovernorTables :=
  s ← (get : M SqliteGovernor SqliteGovernor); mret (rows s).

Definition update_counts (lane_delta admission_delta : Z) : M SqliteGovernor () :=
  t ← gov_tables;
  u ← lift (ok_or (update_meta lane_delta admission_delta (gt_meta t))
              (gov_sql (fmt "constraint failed" [])));
  _ ← store gov_sql (with_meta u.1 t);
  lift (reject_if (negb (u.2 =? 1)%Z)
          (gov "metadata count update changed an unexpected row count" [])).

Definition prune_sql (at_ms : Z) : M SqliteGovernor () :=
  at_ms ← lift (gov_sql_time at_ms);
  t ← gov_tables;
  let kept := filter (λ p, (at_ms < dx_expires_at_ms p.2)%Z) (gt_admissions t) in
  let deleted := (Z.of_nat (size (gt_admissions t)) - Z.of_nat (size kept))%Z in
  _ ← store gov_sql (with_admissions kept t);
  if (deleted =? 0)%Z then mret ()
  else
    deleted ← lift (i64_try_from deleted (gov "pruned admission count exceeds SQLite" []));
    update_counts 0 (- deleted).

Definition load_counts : M SqliteGovernor (Z * Z) :=
  t ← (select gov_sql : M SqliteGovernor GovernorTables);
  r ← lift (ok_or (List.find (λ r, mr_singleton r =? 1)%Z (gt_meta t))
              (gov_sql (fmt "Query returned no rows" [])));
  mret (mr_lane_count r, mr_admission_count r).

Definition settlement_name (s : EffectDispatchSettlement) : str :=
  match s with
  | DsHealthy => lit "healthy"
  | DsAvailabilityFailure => lit "availability_failure"
  | DsAbandoned => lit "abandoned"
  end.

Definition parse_settlement (value : str) : result EffectDispatchSettlement :=
  if bool_decide (value = lit "healthy") then Ok DsHealthy
  else if bool_decide (value = lit "availability_failure") then Ok DsAvailabilityFailure
  else if bool_decide (value = lit "abandoned") then Ok DsAbandoned
  else Err (gov "SQLite admission settlement is invalid" []).

(** [record.settlement = column]. *)
Definition with_settlement (column : option EffectDispatchSettlement) (r : AdmissionRecord)
    : AdmissionRecord :=
  {| ar_operation := ar_operation r; ar_policy := ar_policy r;
     ar_policy_sha256 := ar_policy_sha256 r; ar_admitted_at_ms := ar_admitted_at_ms r;
     ar_expires_at_ms := ar_expires_at_ms r; ar_circuit_epoch := ar_circuit_epoch r;
     ar_decision := ar_decision r; ar_settlement := column |}.

Definition encode_bounded {T} `{Serialize T} (value : T) (maximum : Z) (kind : string) : result str :=
  encoded ← ok_or (to_json value) (gov "cannot encode {}" [ALit kind]);
  _ ← reject_if (maximum <? str_len encoded)%Z
        (gov "{} exceeds {} bytes" [ALit kind; ANum maximum]);
  Ok encoded.

Section store.
Context `{!Serialize EffectDispatchGovernorPolicy, sha : !Sha256,
          !Serialize LaneState, !Deserialize LaneState,
          !Serialize AdmissionRecord, !Deserialize AdmissionRecord}.

(** The mapper of [load_lane]. *)
Definition decode_lane (row : LaneRow) : result LaneState :=
  encoded ← bounded_text gov_sql MAX_LANE_STATE_JSON_BYTES "Effect governor lane" (lr_state_json row);
  lane ← ok_or (from_json encoded : option LaneState) (gov "cannot decode SQLite lane state" []);
  _ ← reject_if (bool_decide (lr_policy_sha256 row ≠ ls_policy_sha256 lane))
        (gov "SQLite lane digest disagrees with state" []);
  _ ← validate_lane_state lane;
  Ok lane.

Definition load_lane (key : LaneKey) : M SqliteGovernor (option LaneState) :=
  t ← (select gov_sql : M SqliteGovernor GovernorTables);
  match gt_lanes t !! key with
  | None => mret None
  | Some row => lane ← lift (decode_lane row); mret (Some lane)
  end.

(** The upsert of [save_lane] always changes one row. *)
Definition save_lane (key : LaneKey) (lane : LaneState) : M SqliteGovernor () :=
  encoded ← lift (encode_bounded lane MAX_LANE_STATE_JSON_BYTES "lane state");
  t ← gov_tables;
  store gov_sql (with_lanes (<[key := {| lr_policy_sha256 := ls_policy_sha256 lane;
                                        lr_state_json := encoded |}]> (gt_lanes t)) t).

(** The mapper of [load_admission]. *)
Definition decode_admission (row : AdmissionRow) : result AdmissionRecord :=
  encoded ← bounded_text gov_sql MAX_ADMISSION_JSON_BYTES "Effect governor admission"
              (dx_admission_json row);
  record ← ok_or (from_json encoded : option AdmissionRecord) (gov "cannot decode SQLite admission" []);
  _ ← validate_admission_record record;
  expires ← gov_sql_time (ar_expires_at_ms record);
  _ ← reject_if (negb (dx_expires_at_ms row =? expires)%Z)
        (gov "SQLite admission expiry disagrees with state" []);
  column ← match dx_settlement row with
           | None => Ok None
           | Some value => settlement ← parse_settlement value; Ok (Some settlement)
           end;
  _ ← reject_if (bool_decide (is_Some (ar_settlement record))
                 && bool_decide (ar_settlement record ≠ column))
        (gov "SQLite admission settlement disagrees with state" []);
  Ok (with_settlement column record).

Definition load_admission (tenant : str) (admission_id : EffectLeaseId)
    : M SqliteGovernor (option AdmissionRecord) :=
  t ← (select gov_sql : M SqliteGovernor GovernorTables);
  match gt_admissions t !! (tenant, admission_id) with
  | None => mret None
  | Some row => record ← lift (decode_admission row); mret (Some record)
  end.

(** The [INSERT] of [save_admission], with the constraints of the table. *)
Definition save_admission (tenant : str) (admission_id : EffectLeaseId) (record : AdmissionRecord)
    : M SqliteGovernor () :=
  encoded ← lift (encode_bounded record MAX_ADMISSION_JSON_BYTES "admission");
  expires ← lift (gov_sql_time (ar_expires_at_ms record));
  t ← gov_tables;
  _ ← lift (reject_if (bool_decide (is_Some (gt_admissions t !! (tenant, admission_id)))
                       || (expires <=? 0)%Z) (gov_sql (fmt "constraint failed" [])));
  store gov_sql (with_admissions
    (<[(tenant, admission_id) := {| dx_expires_at_ms := expires; dx_settlement := None;
                                    dx_admission_json := encoded |}]> (gt_admissions t)) t).

(** [UPDATE .. SET settlement .. WHERE .. AND settlement IS NULL]. *)
Definition update_settlement (key : str * EffectLeaseId) (settlement : EffectDispatchSettlement)
    (t : GovernorTables) : GovernorTables * Z :=
  match gt_admissions t !! key with
  | Some row =>
      match dx_settlement row with
      | None =>
          (with_admissions (<[key := {| dx_expires_at_ms := dx_expires_at_ms row;
                                        dx_settlement := Some (settlement_name settlement);
                                        dx_admission_json := dx_admission_json row |}]>
                              (gt_admissions t)) t, 1%Z)
      | Some _ => (t, 0%Z)
      end
  | None => (t, 0%Z)
  end.

(** * [SqliteEffectDispatchGovernor] *)

(** The writes of a fresh admission, at the end of [admit_as]. *)
Definition gov_save_fresh (validated : ValidatedAdmission) (new_lane : bool) (lane : LaneState)
    (decision : EffectDispatchAdmissionDecision) (epoch : Z)
    : M SqliteGovernor EffectDispatchAdmissionDecision :=
  _ ← save_lane (va_lane validated) lane;
  _ ← (if new_lane then update_counts 1 0 else mret ());
  record ← lift (admission_record validated epoch decision);
  _ ← save_admission (lk_tenant_id (va_lane validated)) (va_admission_id validated) record;
  _ ← update_counts 0 1;
  mret decision.

(** The body of the transaction of [admit_as]. *)
Definition gov_admit_body (validated : ValidatedAdmission)
    : M SqliteGovernor EffectDispatchAdmissionDecision :=
  _ ← prune_sql (va_admitted_at_ms validated);
  existing ← load_admission (lk_tenant_id (va_lane validated)) (va_admission_id validated);
  match existing with
  | Some existing =>
      _ ← lift (validate_duplicate existing validated);
      mret (ar_decision existing)
  | None =>
      counts ← load_counts;
      _ ← lift (reject_if (MAX_ADMISSIONS <=? counts.2)%Z (gov "admission capacity exhausted" []));
      existing_lane ← load_lane (va_lane validated);
      let new_lane := bool_decide (existing_lane = None) in
      _ ← lift (reject_if (new_lane && (MAX_LANES <=? counts.1)%Z)
                  (gov "lane capacity exhausted" []));
      let lane := default (initial_lane validated) existing_lane in
      _ ← lift (validate_lane_policy lane (va_policy_sha256 validated));
      decided ← lift (match decide_lane validated lane with
                      | (lane', Ok p) => Ok (lane', p)
                      | (_, Err e) => Err e
                      end);
      gov_save_fresh validated new_lane decided.1 decided.2.1 decided.2.2
  end.

Definition sql_admit_as (request : EffectDispatchAdmissionRequest) (authority : AuthorityContext)
    : M SqliteGovernor EffectDispatchAdmissionDecision :=
  validated ← lift (ValidatedAdmission_new request authority);
  transaction gov_sql (gov_admit_body validated).

(** The body of the transaction of [settle_as]. *)
Definition gov_settle_body (admission_id : EffectLeaseId) (settlement : EffectDispatchSettlement)
    (settled_at_ms : Z) (tenant : str) : M SqliteGovernor () :=
  loaded ← load_admission tenant admission_id;
  record ← lift (ok_or loaded (gov "admission does not exist or retention expired" []));
  _ ← lift (validate_settlement_record record settlement settled_at_ms);
  match ar_settlement record with
  | Some _ => mret ()
  | None =>
      let key := lane_key (ar_operation record) (ar_policy record) tenant in
      loaded ← load_lane key;
      lane ← lift (ok_or loaded (gov "admission lane is missing" []));
      lane ← lift (match apply_settlement admission_id record settlement settled_at_ms lane with
                   | (lane', Ok _) => Ok lane'
                   | (_, Err e) => Err e
                   end);
      _ ← save_lane key lane;
      t ← gov_tables;
      let u := update_settlement (tenant, admission_id) settlement t in
      _ ← store gov_sql u.1;
      lift (reject_if (negb (u.2 =? 1)%Z) (gov "settlement changed an unexpected row count" []))
  end.

Definition sql_settle_as (admission_id : EffectLeaseId) (settlement : EffectDispatchSettlement)
    (settled_at_ms : Z) (authority : AuthorityContext) : M SqliteGovernor () :=
  _ ← lift (validate_settlement admission_id settled_at_ms authority);
  transaction gov_sql (gov_settle_body admission_id settlement settled_at_ms (gov_tenant authority)).

#[global] Instance SqliteEffectDispatchGovernor : EffectDispatchGovernor SqliteGovernor := {|
  admit_as := sql_admit_as;
  settle_as := sql_settle_as;
|}.
End store.

(** * The database file *)

Record GovernorDatabase := {
  gd_meta : option (list MetaRow);
  gd_lanes : option (gmap LaneKey LaneRow);
  gd_admissions : option (gmap (str * EffectLeaseId) AdmissionRow);
}.

Definition invalid_lane_row (p : LaneKey * LaneRow) : bool :=
  let out_of maximum s := (str_len s =? 0)%Z || (maximum <? str_len s)%Z in
  (128 <? str_len (lk_tenant_id p.1))%Z || out_of 128%Z (lk_capability p.1)
  || out_of 128%Z (lk_operation p.1) || out_of MAX_POLICY_ID_BYTES (lk_policy_id p.1)
  || negb (len (lr_policy_sha256 p.2) =? 64)%Z
  || (MAX_LANE_STATE_JSON_BYTES <? str_len (lr_state_json p.2))%Z.

Definition invalid_admission_row (p : (str * EffectLeaseId) * AdmissionRow) : bool :=
  (128 <? str_len p.1.1)%Z || (str_len p.1.2 =? 0)%Z || (256 <? str_len p.1.2)%Z
  || (dx_expires_at_ms p.2 <=? 0)%Z
  || match dx_settlement p.2 with
     | Some s => negb (bool_decide (s ∈ [lit "healthy"; lit "availability_failure"; lit "abandoned"]))
     | None => false
     end
  || (MAX_ADMISSION_JSON_BYTES <? str_len (dx_admission_json p.2))%Z.

(** [validate_store]: five queries, then one decision over their results;
    the first one is checked before the others run. *)
Definition gov_validate_store (meta : list MetaRow) (lanes : gmap LaneKey LaneRow)
    (admissions : gmap (str * EffectLeaseId) AdmissionRow) : M (Connection GovernorDatabase) () :=
  let malformed := gov "SQLite schema is unknown or malformed" [] in
  _ ← sql_call gov_sql;
  m ← lift (match meta with [m] => Ok m | _ => Err malformed end);
  _ ← lift (reject_if (negb (mr_singleton m =? 1)%Z
                       || negb (mr_schema_version m =? EFFECT_DISPATCH_GOVERNOR_SCHEMA_VERSION)%Z
                       || (mr_lane_count m <? 0)%Z || (mr_admission_count m <? 0)%Z) malformed);
  _ ← sql_call gov_sql;
  _ ← sql_call gov_sql;
  _ ← sql_call gov_sql;
  _ ← sql_call gov_sql;
  lift (reject_if (existsb invalid_lane_row (map_to_list lanes)
                   || existsb invalid_admission_row (map_to_list admissions)
                   || negb (mr_lane_count m =? Z.of_nat (size lanes))%Z
                   || negb (mr_admission_count m =? Z.of_nat (size admissions))%Z
                   || (MAX_LANES <? Z.of_nat (size lanes))%Z
                   || (MAX_ADMISSIONS <? Z.of_nat (size admissions))%Z)
          (gov "SQLite store contains invalid row metadata" [])).

(** The three [table_exists] queries. *)
Definition store_tables : M (Connection GovernorDatabase) GovernorDatabase :=
  _ ← sql_call gov_sql;
  _ ← sql_call gov_sql;
  select gov_sql.

Definition new_meta : list MetaRow :=
  [{| mr_singleton := 1; mr_schema_version := EFFECT_DISPATCH_GOVERNOR_SCHEMA_VERSION;
      mr_lane_count := 0; mr_admission_count := 0 |}].

Definition gov_initialize_or_validate : M (Connection GovernorDatabase) () :=
  transaction gov_sql (
    db ← store_tables;
    match gd_meta db, gd_lanes db, gd_admissions db with
    | None, None, None =>
        store gov_sql {| gd_meta := Some new_meta; gd_lanes := Some ∅; gd_admissions := Some ∅ |}
    | Some meta, Some lanes, Some admissions => gov_validate_store meta lanes admissions
    | _, _, _ => lift (Err (gov "SQLite store is partial" []))
    end).

Definition gov_validate_existing_store : M (Connection GovernorDatabase) () :=
  db ← store_tables;
  match gd_meta db, gd_lanes db, gd_admissions db with
  | None, None, None => mret ()
  | Some meta, Some lanes, Some admissions => gov_validate_store meta lanes admissions
  | _, _, _ => lift (Err (gov "SQLite store is partial" []))
  end.

(** The loop around [PRAGMA journal_mode = WAL]: a locked database is tried
    again until the deadline.  [clock] lists the answers of the successive
    tests [Instant::now() < deadline], the rest of which are false;
    [sqlite_locked] tells which failures are the busy or locked codes. *)
Fixpoint wal_loop (sqlite_locked : message → bool) (clock : list bool) (mode : str)
    : M (Connection GovernorDatabase) str := λ s,
  match sql_call Prelude.Effect s with
  | (s', Ok _) => (s', Ok mode)
  | (s', Err (Prelude.Effect m)) =>
      match sqlite_locked m, clock with
      | true, true :: clock => wal_loop sqlite_locked clock mode s'
      | _, _ => (s', Err (gov_sql m))
      end
  | (s', Err e) => (s', Err e)
  end.

Definition gov_configure_connection (sqlite_locked : message → bool) (clock : list bool) (mode : str)
    : M (Connection GovernorDatabase) () :=
  _ ← sql_call gov_sql;
  mode ← wal_loop sqlite_locked clock mode;
  _ ← lift (reject_if (negb (eq_ignore_ascii_case mode (lit "wal")))
              (gov "SQLite refused WAL mode and selected {}" [AStr mode]));
  sql_call gov_sql.

(** [SqliteEffectDispatchGovernor::open] and [validate_existing]. *)
Definition gov_sqlite_open (sqlite_locked : message → bool) (clock : list bool) (mode : str)
    : M (Connection GovernorDatabase) SqliteGovernor :=
  _ ← sql_call gov_sql;
  _ ← gov_configure_connection sqlite_locked clock mode;
  _ ← gov_initialize_or_validate;
  c ← (get : M (Connection GovernorDatabase) (Connection GovernorDatabase));
  mret ({| rows := {| gt_meta := default [] (gd_meta (rows c));
                      gt_lanes := default ∅ (gd_lanes (rows c));
                      gt_admissions := default ∅ (gd_admissions (rows c)) |};
           faults := faults c |} : SqliteGovernor).

Definition gov_validate_existing (path_exists : bool) : M (Connection GovernorDatabase) () :=
  if path_exists
  then _ ← open_read_only gov_sql; gov_validate_existing_store
  else mret ().
