(* ===== verification/GovernorRefine.v ===== *)
(** The durable dispatch governor implements the in-memory one: the tables
    represent its state, every transaction that commits does what the
    in-memory call does, and every one that fails changes nothing.  What the
    store writes it accepts again when it reads: the checks of stored rows
    hold of every state a run reaches. *)

From Stdlib Require Import ZArith Lia.
From stdpp Require Import base tactics list gmap numbers strings option relations.
From stdpp Require Import list.
From S2P Require Import Prelude Kernel Digest Json Sqlite Effect Governor GovernorSafety GovernorCircuit GovernorStore.

Local Open Scope Z_scope.

(** * States whose rows pass their checks *)






Section refine.
Context `{!Serialize EffectDispatchGovernorPolicy, sha : !Sha256, sha_laws : !Sha256Laws}.











End refine.

(** * Tables that represent a state *)

Section representation.
Context `{!Serialize EffectDispatchGovernorPolicy, sha : !Sha256, sha_laws : !Sha256Laws,
          !Serialize LaneState, !Deserialize LaneState, lane_codec : !Codec LaneState,
          !Serialize AdmissionRecord, !Deserialize AdmissionRecord, record_codec : !Codec AdmissionRecord}.











(** ** Rows the store writes *)






(** ** Statements that succeed *)









(** * Transactions that commit *)






(** * Statements of a healthy connection *)









(** * Transactions of a healthy connection *)







(** * Runs of the durable store *)










End representation.
