(* ===== verification/GovernorDemo.v ===== *)
(** A concrete lane on which the governor theorems are exercised: two
    dispatches use up a window, a failure opens the circuit, and a probe is
    admitted at its deadline; and an admission that fails in the in-memory
    store after it has begun to change a lane. *)

From Stdlib Require Import ZArith Lia.
From stdpp Require Import base tactics list gmap numbers strings option relations.
From stdpp Require Import list.
From S2P Require Import Prelude Kernel Digest Json Sqlite Effect EffectDemo Governor GovernorSafety GovernorCircuit GovernorStore GovernorRefine.

Local Open Scope Z_scope.

#[local] Instance gov_demo_policy_json : Serialize EffectDispatchGovernorPolicy := λ _, Some (lit "{}").
#[local] Existing Instance effect_sha.

Definition gov_demo_policy : EffectDispatchGovernorPolicy :=
  {| gp_policy_id := lit "mail-v1"; gp_max_dispatches_per_window := 2; gp_window_ms := 1000;
     gp_failure_threshold := 1; gp_open_duration_ms := 5000; gp_probe_lease_ms := 2000;
     gp_admission_retention_ms := 604800000 |}.

Definition gov_demo_request (id : string) (at_ms : Z) : EffectDispatchAdmissionRequest :=
  {| dr_admission_id := lit id;
     dr_operation := {| eo_capability := lit "mail"; eo_operation := lit "send" |};
     dr_policy := gov_demo_policy; dr_admitted_at_ms := at_ms |}.

Definition gov_demo_lane : LaneKey :=
  lane_key {| eo_capability := lit "mail"; eo_operation := lit "send" |} gov_demo_policy [].

Definition gov_demo_admit (id : string) (at_ms : Z) (s : GovernorState)
    : GovernorState * result EffectDispatchAdmissionDecision :=
  mem_admit_as (gov_demo_request id at_ms) local_process s.

Definition gov1 := gov_demo_admit "a1" 100 gov_empty.
Definition gov2 := gov_demo_admit "a2" 200 gov1.1.
Definition gov3 := gov_demo_admit "a3" 300 gov2.1.
Definition gov4 := mem_settle_as (lit "a1") DsAvailabilityFailure 400 local_process gov3.1.
Definition gov5 := gov_demo_admit "a5" 1500 gov4.1.
Definition gov6 := gov_demo_admit "a6" 5400 gov5.1.
Definition gov7 := gov_demo_admit "a7" 5500 gov6.1.

(** The demonstration exercises the branches it is meant to. *)
Lemma gov_demo_runs :
  gov1.2 = Ok AdAllow ∧ gov2.2 = Ok AdAllow ∧ gov3.2 = Ok (AdRateLimited 1000) ∧
  gov4.2 = Ok () ∧ gov5.2 = Ok (AdCircuitOpen 5400) ∧ gov6.2 = Ok AdAllowProbe ∧
  gov7.2 = Ok (AdCircuitOpen 7400) ∧
  ls_open_until_ms <$> (gs_lanes gov4.1 !! gov_demo_lane) = Some (Some 5400).
Proof. vm_compute. split_and!; reflexivity. Qed.

Definition gov_demo_attempts (id : string) (at_ms : Z) (s : GovernorState)
    (r : result EffectDispatchAdmissionDecision) : list Attempt :=
  attempts (gov_demo_request id at_ms) local_process s r.

Lemma gov_demo_step may id at_ms s :
  0 ≤ at_ms →
  gov_step may s (gov_demo_attempts id at_ms s (gov_demo_admit id at_ms s).2) (gov_demo_admit id at_ms s).1.
Proof. intros H. apply step_admit; [exact H|]. apply surjective_pairing. Qed.

(** The first three admissions, newest first. *)
Definition gov_demo_trace : list Attempt :=
  gov_demo_attempts "a3" 300 gov2.1 gov3.2 ++ gov_demo_attempts "a2" 200 gov1.1 gov2.2 ++
  gov_demo_attempts "a1" 100 gov_empty gov1.2 ++ [].

Lemma gov_demo_steps : gov_steps anything gov_empty gov_demo_trace gov3.1.
Proof.
  eapply steps_more; [|by apply gov_demo_step]. eapply steps_more; [|by apply gov_demo_step].
  eapply steps_more; [apply steps_none|by apply gov_demo_step].
Qed.

Definition gov_demo_first : Attempt :=
  default {| at_lane := gov_demo_lane; at_id := []; at_policy := gov_demo_policy; at_sha := [];
             at_time := 0; at_answer := Ok AdAllow |} (last gov_demo_trace).

Lemma gov_demo_policies :
  Forall (λ e, at_policy e = gov_demo_policy ∧ at_lane e = gov_demo_lane) gov_demo_trace.
Proof. vm_compute. repeat constructor. Qed.

(** The budget of the window is used up and not exceeded. *)
Lemma governor_rate_limit_witness :
  dispatched gov_demo_trace (at_lane gov_demo_first) 1000 0 = 2 ∧
  dispatched gov_demo_trace (at_lane gov_demo_first) (gp_window_ms (at_policy gov_demo_first)) 0 ≤
    gp_max_dispatches_per_window (at_policy gov_demo_first).
Proof.
  split; [vm_compute; reflexivity|].
  apply (governor_rate_limit (λ _ _, gov_demo_policy) gov_demo_trace gov3.1 gov_demo_first 0);
    [exact gov_demo_steps| | |vm_compute; reflexivity].
  - intros e He. exact (proj1 (proj1 (Forall_forall _ _) gov_demo_policies e He)).
  - unfold gov_demo_first. destruct (last gov_demo_trace) as [e|] eqn:E.
    + apply last_Some in E as [l' E]. rewrite E. simpl. apply elem_of_app. right. by left.
    + exfalso. vm_compute in E. discriminate E.
Defined.

Lemma gov_demo_settle_steps :
  gov_steps anything gov_empty ([] ++ gov_demo_trace) gov4.1.
Proof.
  eapply steps_more; [exact gov_demo_steps|]. eapply step_settle; [exact I|]. apply surjective_pairing.
Qed.

(** An admission while the circuit is open is answered by its deadline. *)
Lemma governor_circuit_holds_witness :
  Forall (λ e, at_answer e = Ok (AdCircuitOpen 5400)) (gov_demo_attempts "a5" 1500 gov4.1 gov5.2) ∧
  length (gov_demo_attempts "a5" 1500 gov4.1 gov5.2) = 1%nat.
Proof.
  split; [|vm_compute; reflexivity]. apply Forall_forall. intros e He.
  destruct (gs_lanes gov4.1 !! gov_demo_lane) as [l|] eqn:El; [|exfalso; vm_compute in El; discriminate El].
  destruct (governor_circuit_holds _ _ gov_demo_settle_steps) as [H _].
  assert (ls_open_until_ms l = Some 5400) as Hu
    by (pose proof gov_demo_runs as (_ & _ & _ & _ & _ & _ & _ & E); rewrite El in E; by injection E).
  assert (e ∈ gov_demo_attempts "a5" 1500 gov4.1 gov5.2 ++ []) as He' by (by rewrite app_nil_r).
  assert (is_ok (at_answer e) = true ∧ at_lane e = gov_demo_lane ∧ at_time e < 5400) as (Hok & Hl & Ht).
  { vm_compute in He. apply list_elem_of_singleton in He. subst e. vm_compute. auto. }
  destruct (H gov_demo_lane l 5400 _ gov5.1 e El Hu
    (steps_more _ _ _ _ _ _ (steps_none _ _) (gov_demo_step anything "a5" 1500 gov4.1 ltac:(lia))) He' Hl Ht)
    as [E|E]; [congruence|exact E].
Defined.

Lemma gov_demo_first_admitted : gov_demo_admit "a1" 100 gov_empty = (gov1.1, Ok AdAllow).
Proof. vm_compute. reflexivity. Qed.
Lemma gov_demo_settled :
  mem_settle_as (lit "a1") DsAvailabilityFailure 400 local_process gov1.1 =
  ((mem_settle_as (lit "a1") DsAvailabilityFailure 400 local_process gov1.1).1, Ok ()).
Proof. vm_compute. reflexivity. Qed.

(** Settling twice changes nothing. *)
Lemma governor_idempotent_witness :
  ∃ s r, mem_settle_as (lit "a1") DsAvailabilityFailure 900 local_process s = (s, r) ∧ is_ok r = true.
Proof.
  destruct (governor_idempotent (gov_demo_request "a1" 100) local_process gov_empty gov1.1 AdAllow)
    as (rec & Hr & _ & _ & H); [vm_compute; discriminate|exact gov_demo_first_admitted|].
  assert (ar_admitted_at_ms rec = 100) as Hat.
  { revert Hr. vm_compute. intros [= <-]. reflexivity. }
  destruct (H DsAvailabilityFailure 400 gov1.1 _ Hr gov_demo_settled DsAvailabilityFailure 900)
    as (r & E & Hok); [lia|lia|].
  eexists _, r. split; [exact E|]. by apply Hok.
Defined.

(** An admission whose retention overflows fails; the in-memory store keeps
    the lane it has created and the dispatch it has counted, where the
    durable store rolls back. *)
Lemma memory_failed_admission_moves_lane :
  let call := gov_demo_admit "a9" (u64_max - 5) gov_empty in
  is_ok call.2 = false ∧
  ls_window_count <$> (gs_lanes call.1 !! gov_demo_lane) = Some 1 ∧ gs_admissions call.1 = ∅.
Proof. vm_compute. split_and!; reflexivity. Qed.

(** ** The durable store, under a codec that knows one lane and one record *)






