(* ===== verification/Handoff.v ===== *)
(** The durable Human Handoff, from src/src/human_handoff/mod.rs: a case in an
    operator queue that one actor at a time owns under an expiring claim, until
    it is resolved or cancelled.  This file has the data, the validators, the
    validator that replays the transitions, [new] and [apply].

    The JSON codec and SHA-256 are parameters. *)

From Stdlib Require Import ZArith Lia.
From stdpp Require Import sorting base tactics list gmap relations numbers strings option.
From stdpp Require Import list.
From S2P Require Import Prelude Kernel Digest Json.

(** * Constants *)

Definition MAX_HANDOFF_WORK_TRANSITIONS : Z := 4096.
Definition HANDOFF_SETTLEMENT_TRANSITION_RESERVE : Z := 2.
Definition MAX_HANDOFF_TRANSITIONS : Z :=
  MAX_HANDOFF_WORK_TRANSITIONS + HANDOFF_SETTLEMENT_TRANSITION_RESERVE.
Definition MAX_HANDOFF_WORK_JSON_BYTES : Z := 16777216.
Definition MAX_HANDOFF_COMMAND_JSON_BYTES : Z := 131072.
Definition MAX_HANDOFF_TEXT_BYTES : Z := 65536.
Definition MAX_HANDOFF_IDENTITY_BYTES : Z := 256.
Definition MAX_HANDOFF_QUEUE_BYTES : Z := 64.
Definition MIN_HANDOFF_LEASE_MS : Z := 1000.
Definition MAX_HANDOFF_LEASE_MS : Z := 604800000.
Definition HANDOFF_SETTLEMENT_JSON_BYTE_RESERVE : Z := MAX_HANDOFF_COMMAND_JSON_BYTES * 2 + 16384.
Definition MAX_HANDOFF_JSON_BYTES : Z :=
  MAX_HANDOFF_WORK_JSON_BYTES + HANDOFF_SETTLEMENT_JSON_BYTE_RESERVE.

(** * Data *)

Abbreviation HumanHandoffId := str (only parsing).
Abbreviation HumanHandoffCommandId := str (only parsing).
Abbreviation HumanHandoffClaimId := str (only parsing).

Inductive HumanHandoffCapacityClass := HcWork | HcSettlement.

Inductive HumanHandoffSubject :=
| HsThread (thread_id : str)
| HsWorkflowRun (run_id : str).

Record HumanHandoffCreateRequest := {
  hr_command_id : HumanHandoffCommandId;
  hr_subject : HumanHandoffSubject;
  hr_queue : str;
  hr_reason_code : str;
  hr_priority : Z;
}.

Record HumanHandoffClaim := {
  hl_id : HumanHandoffClaimId;
  hl_owner : ActorIdentity;
  hl_claimed_at_ms : Z;
  hl_expires_at_ms : Z;
}.

Inductive HumanHandoffStatus :=
| HQueued
| HClaimed (claim : HumanHandoffClaim)
| HResolved (outcome_code summary : str)
| HCancelled (reason_code : str).

(** [HumanHandoffStatus::is_terminal]. *)
Definition handoff_terminal (s : HumanHandoffStatus) : bool :=
  match s with HResolved _ _ | HCancelled _ => true | _ => false end.

Inductive HumanHandoffCommandKind :=
| HkClaim (claim_id : HumanHandoffClaimId) (lease_duration_ms : Z)
| HkRenewClaim (claim_id : HumanHandoffClaimId) (lease_duration_ms : Z)
| HkReleaseClaim (claim_id : HumanHandoffClaimId) (reason_code : str)
| HkExpireClaim (claim_id : HumanHandoffClaimId)
| HkResolve (claim_id : HumanHandoffClaimId) (outcome_code summary : str)
| HkCancel (reason_code : str).

Record HumanHandoffCommand := {
  hc_id : HumanHandoffCommandId;
  hc_kind : HumanHandoffCommandKind;
}.

(** [HumanHandoffCommandKind::capacity_class]. *)
Definition handoff_command_class (k : HumanHandoffCommandKind) : HumanHandoffCapacityClass :=
  match k with
  | HkReleaseClaim _ _ | HkExpireClaim _ | HkResolve _ _ _ | HkCancel _ => HcSettlement
  | HkClaim _ _ | HkRenewClaim _ _ => HcWork
  end.

Inductive HumanHandoffApplyOutcome := HandoffApplied | HandoffDuplicate.

Inductive HumanHandoffTransitionKind :=
| HtCreated (subject : HumanHandoffSubject) (queue reason_code : str) (priority : Z)
| HtClaimed (claim_id : HumanHandoffClaimId) (lease_duration_ms : Z)
| HtClaimRenewed (claim_id : HumanHandoffClaimId) (lease_duration_ms previous_expires_at_ms : Z)
| HtClaimReleased (claim_id : HumanHandoffClaimId) (reason_code : str)
| HtClaimExpired (claim_id : HumanHandoffClaimId)
| HtResolved (claim_id : HumanHandoffClaimId) (outcome_code summary : str)
| HtCancelled (reason_code : str).

Record HumanHandoffTransition := {
  ht_sequence : Z;
  ht_command_id : HumanHandoffCommandId;
  ht_command_sha256 : str;
  ht_applied_at_ms : Z;
  ht_actor : ActorIdentity;
  ht_kind : HumanHandoffTransitionKind;
}.

(** [HumanHandoffTransitionKind::capacity_class]. *)
Definition handoff_transition_class (k : HumanHandoffTransitionKind) : HumanHandoffCapacityClass :=
  match k with
  | HtClaimReleased _ _ | HtClaimExpired _ | HtResolved _ _ _ | HtCancelled _ => HcSettlement
  | HtCreated _ _ _ _ | HtClaimed _ _ | HtClaimRenewed _ _ _ => HcWork
  end.

Record HumanHandoff := {
  hh_subject : HumanHandoffSubject;
  hh_queue : str;
  hh_reason_code : str;
  hh_priority : Z;
  hh_requested_at_ms : Z;
  hh_status : HumanHandoffStatus;
  hh_transitions : list HumanHandoffTransition;
  hh_charge : Z;
}.

(** What serde writes and reads of a Handoff: the charge is skipped. *)
Record HumanHandoffWire := {
  hw_subject : HumanHandoffSubject;
  hw_queue : str;
  hw_reason_code : str;
  hw_priority : Z;
  hw_requested_at_ms : Z;
  hw_status : HumanHandoffStatus;
  hw_transitions : list HumanHandoffTransition;
}.

Definition handoff_wire (h : HumanHandoff) : HumanHandoffWire :=
  {| hw_subject := hh_subject h; hw_queue := hh_queue h; hw_reason_code := hh_reason_code h;
     hw_priority := hh_priority h; hw_requested_at_ms := hh_requested_at_ms h;
     hw_status := hh_status h; hw_transitions := hh_transitions h |}.

(** [AttributedCommand] of this file. *)
Record HandoffAttributed (T : Type) := {
  ha_actor : ActorIdentity;
  ha_command : T;
}.
Arguments ha_actor {T} h.
Arguments ha_command {T} h.

#[global] Instance HumanHandoffCapacityClass_eq : EqDecision HumanHandoffCapacityClass.
Proof. solve_decision. Defined.
#[global] Instance HumanHandoffSubject_eq : EqDecision HumanHandoffSubject.
Proof. solve_decision. Defined.
#[global] Instance HumanHandoffClaim_eq : EqDecision HumanHandoffClaim.
Proof. solve_decision. Defined.
#[global] Instance HumanHandoffStatus_eq : EqDecision HumanHandoffStatus.
Proof. solve_decision. Defined.
#[global] Instance HumanHandoffTransitionKind_eq : EqDecision HumanHandoffTransitionKind.
Proof. solve_decision. Defined.
#[global] Instance HumanHandoffTransition_eq : EqDecision HumanHandoffTransition.
Proof. solve_decision. Defined.
#[global] Instance HumanHandoff_eq : EqDecision HumanHandoff.
Proof. solve_decision. Defined.

(** * Validators *)

Definition hhe (t : string) (a : list arg) : HarnessError := Prelude.HumanHandoff (fmt t a).

Definition handoff_bounded_error (kind : string) (maximum : Z) (error : BoundedJsonError)
    : HarnessError :=
  let detail :=
    match error with
    | LimitExceeded => "exceeds its encoded-byte limit"
    | CannotEncode => "cannot be encoded"
    end in
  hhe "Human Handoff {} {}; limit is {} bytes" [ALit kind; ALit detail; ANum maximum].

(** [bounded_serialized_size(value, maximum).map_err(...)]. *)
Definition handoff_size {T} `{Serialize T} (kind : string) (value : T) (maximum : Z) : result Z :=
  match bounded_serialized_size value maximum with
  | inr n => Ok n
  | inl e => Err (handoff_bounded_error kind maximum e)
  end.

Definition handoff_validate_application_time (value : Z) : result () :=
  reject_if (value =? 0)%Z (hhe "Human Handoff application time must be positive" []).

Definition handoff_validate_digest (value : str) : result () :=
  reject_if (negb (is_lower_sha256 value))
    (hhe "Human Handoff command digest must be lowercase SHA-256" []).

Definition handoff_validate_actor (a : ActorIdentity) : result () :=
  _ ← map_err (λ e, Prelude.HumanHandoff (error_text e))
        (actor_validate_shape a "Human Handoff actor");
  reject_if (bool_decide (a = UnattributedLegacy))
    (hhe "Human Handoff cannot use a legacy unattributed actor" []).

Definition handoff_validate_identity (kind : string) (value : str) : result () :=
  reject_if (trim_is_empty value || (MAX_HANDOFF_IDENTITY_BYTES <? str_len value)%Z
             || any_control value)
    (hhe "{} must be 1-{} non-control bytes" [ALit kind; ANum MAX_HANDOFF_IDENTITY_BYTES]).

Definition handoff_validate_text (kind : string) (value : str) : result () :=
  _ ← reject_if (trim_is_empty value || (MAX_HANDOFF_TEXT_BYTES <? str_len value)%Z)
        (hhe "{} must be 1-{} bytes" [ALit kind; ANum MAX_HANDOFF_TEXT_BYTES]);
  reject_if (any_control value) (hhe "{} must not contain control characters" [ALit kind]).

Definition handoff_lease_expiration (applied_at_ms duration_ms : Z) : result Z :=
  ok_or (checked_add u64_max applied_at_ms duration_ms)
    (hhe "Human Handoff lease expiration overflow" []).

Definition handoff_validate_lease_duration (duration_ms : Z) : result () :=
  reject_if (negb (in_range MIN_HANDOFF_LEASE_MS MAX_HANDOFF_LEASE_MS duration_ms))
    (hhe "Human Handoff lease must be {}-{} milliseconds"
      [ANum MIN_HANDOFF_LEASE_MS; ANum MAX_HANDOFF_LEASE_MS]).

Definition validate_subject (s : HumanHandoffSubject) : result () :=
  match s with
  | HsThread thread_id => handoff_validate_identity "Human Handoff Thread" thread_id
  | HsWorkflowRun run_id => handoff_validate_identity "Human Handoff Workflow Run" run_id
  end.

Definition handoff_validate_create_request (r : HumanHandoffCreateRequest) : result () :=
  _ ← handoff_validate_identity "Human Handoff command" (hr_command_id r);
  _ ← validate_subject (hr_subject r);
  _ ← validate_capability_name "Human Handoff queue" (hr_queue r);
  validate_capability_name "Human Handoff reason" (hr_reason_code r).

(** The transition claimed under the identity [id]. *)
Definition claims_under (id : HumanHandoffClaimId) (t : HumanHandoffTransition) : bool :=
  match ht_kind t with HtClaimed existing _ => bool_decide (existing = id) | _ => false end.

Definition validate_new_claim_id (transitions : list HumanHandoffTransition)
    (claim_id : HumanHandoffClaimId) : result () :=
  _ ← handoff_validate_identity "Human Handoff claim" claim_id;
  reject_if (existsb (claims_under claim_id) transitions)
    (hhe "Human Handoff claim {} is already committed" [AStr claim_id]).

(** [active_owned_claim], and [active_owned_claim_mut], whose text is the same. *)
Definition active_owned_claim (status : HumanHandoffStatus) (claim_id : HumanHandoffClaimId)
    (actor : ActorIdentity) (applied_at_ms : Z) (action : string) : result HumanHandoffClaim :=
  match status with
  | HClaimed claim =>
      _ ← reject_if (bool_decide (hl_id claim ≠ claim_id) || bool_decide (hl_owner claim ≠ actor))
            (hhe "Human Handoff {} does not match the current owner and claim" [ALit action]);
      _ ← reject_if (hl_expires_at_ms claim <=? applied_at_ms)%Z
            (hhe "Human Handoff claim expired before {}" [ALit action]);
      Ok claim
  | _ => Err (hhe "Human Handoff must be claimed to {}" [ALit action])
  end.

Definition validate_projected_owner (status : option HumanHandoffStatus)
    (claim_id : HumanHandoffClaimId) (actor : ActorIdentity) (applied_at_ms : Z)
    (action : string) : result () :=
  match status with
  | Some (HClaimed claim) =>
      reject_if (bool_decide (hl_id claim ≠ claim_id) || bool_decide (hl_owner claim ≠ actor)
                 || (hl_expires_at_ms claim <=? applied_at_ms)%Z)
        (hhe "Human Handoff {} differs from its active claim" [ALit action])
  | _ => Err (hhe "Human Handoff {} does not follow claimed state" [ALit action])
  end.

Definition handoff_transition_capacity (current_transitions : Z)
    (class : HumanHandoffCapacityClass) : result () :=
  _ ← reject_if (MAX_HANDOFF_TRANSITIONS <=? current_transitions)%Z
        (hhe "Human Handoff exceeds {} transitions" [ANum MAX_HANDOFF_TRANSITIONS]);
  reject_if (bool_decide (class = HcWork) && (MAX_HANDOFF_WORK_TRANSITIONS <=? current_transitions)%Z)
    (hhe "Human Handoff has only its settlement transition reserve remaining" []).

Definition handoff_materialization_capacity (encoded_bytes : Z)
    (class : HumanHandoffCapacityClass) : result () :=
  _ ← reject_if (MAX_HANDOFF_JSON_BYTES <? encoded_bytes)%Z
        (hhe "Human Handoff exceeds {} encoded bytes" [ANum MAX_HANDOFF_JSON_BYTES]);
  reject_if (bool_decide (class = HcWork) && (MAX_HANDOFF_WORK_JSON_BYTES <? encoded_bytes)%Z)
    (hhe "Human Handoff has only its settlement encoded-byte reserve remaining" []).

(** The command a transition was committed for; [None] for the creation. *)
Definition handoff_transition_command (k : HumanHandoffTransitionKind)
    : option HumanHandoffCommandKind :=
  match k with
  | HtCreated _ _ _ _ => None
  | HtClaimed claim_id lease_duration_ms => Some (HkClaim claim_id lease_duration_ms)
  | HtClaimRenewed claim_id lease_duration_ms _ => Some (HkRenewClaim claim_id lease_duration_ms)
  | HtClaimReleased claim_id reason_code => Some (HkReleaseClaim claim_id reason_code)
  | HtClaimExpired claim_id => Some (HkExpireClaim claim_id)
  | HtResolved claim_id outcome_code summary => Some (HkResolve claim_id outcome_code summary)
  | HtCancelled reason_code => Some (HkCancel reason_code)
  end.

(** * Replay *)

(** The [projected_*] variables of [validate], which the creation sets
    together. *)
Record HandoffProjection := {
  hp_subject : HumanHandoffSubject;
  hp_queue : str;
  hp_reason_code : str;
  hp_priority : Z;
  hp_requested_at_ms : Z;
  hp_status : HumanHandoffStatus;
}.

#[global] Instance HandoffProjection_eq : EqDecision HandoffProjection.
Proof. solve_decision. Defined.

Definition hp_with_status (p : HandoffProjection) (s : HumanHandoffStatus) : HandoffProjection :=
  {| hp_subject := hp_subject p; hp_queue := hp_queue p; hp_reason_code := hp_reason_code p;
     hp_priority := hp_priority p; hp_requested_at_ms := hp_requested_at_ms p; hp_status := s |}.

(** The variables of the loop of [validate]. *)
Record HandoffReplay := {
  hy_expected_sequence : Z;
  hy_command_ids : gset str;
  hy_claim_ids : gset str;
  hy_projection : option HandoffProjection;
  hy_previous_time : Z;
}.

Definition handoff_replay_start : HandoffReplay :=
  {| hy_expected_sequence := 1; hy_command_ids := ∅; hy_claim_ids := ∅; hy_projection := None;
     hy_previous_time := 0 |}.

(** The [match] of the loop: the projection and the claim identities after the
    transition [t]. *)
Definition handoff_replay_kind (t : HumanHandoffTransition) (projection : option HandoffProjection)
    (claim_ids : gset str) : result (option HandoffProjection * gset str) :=
  let now := ht_applied_at_ms t in
  let status := hp_status <$> projection in
  let set s := (λ p, hp_with_status p s) <$> projection in
  match ht_kind t with
  | HtCreated subject queue reason_code priority =>
      if (ht_sequence t =? 1)%Z then
        _ ← validate_subject subject;
        _ ← validate_capability_name "Human Handoff queue" queue;
        _ ← validate_capability_name "Human Handoff reason" reason_code;
        Ok (Some {| hp_subject := subject; hp_queue := queue; hp_reason_code := reason_code;
                    hp_priority := priority; hp_requested_at_ms := now; hp_status := HQueued |},
            claim_ids)
      else Err (hhe "Human Handoff creation must be the first transition" [])
  | HtClaimed claim_id lease_duration_ms =>
      match status with
      | Some HQueued =>
          _ ← handoff_validate_identity "Human Handoff claim" claim_id;
          _ ← handoff_validate_lease_duration lease_duration_ms;
          _ ← reject_if (bool_decide (claim_id ∈ claim_ids))
                (hhe "Human Handoff contains duplicate claim identities" []);
          expires_at_ms ← handoff_lease_expiration now lease_duration_ms;
          Ok (set (HClaimed {| hl_id := claim_id; hl_owner := ht_actor t; hl_claimed_at_ms := now;
                               hl_expires_at_ms := expires_at_ms |}),
              {[claim_id]} ∪ claim_ids)
      | _ => Err (hhe "Human Handoff claim does not follow queued state" [])
      end
  | HtClaimRenewed claim_id lease_duration_ms previous_expires_at_ms =>
      _ ← handoff_validate_lease_duration lease_duration_ms;
      match status with
      | Some (HClaimed claim) =>
          _ ← reject_if (bool_decide (hl_id claim ≠ claim_id)
                         || bool_decide (hl_owner claim ≠ ht_actor t)
                         || negb (hl_expires_at_ms claim =? previous_expires_at_ms)%Z
                         || (hl_expires_at_ms claim <=? now)%Z)
                (hhe "Human Handoff renewal differs from its active claim" []);
          expires_at_ms ← handoff_lease_expiration now lease_duration_ms;
          _ ← reject_if (expires_at_ms <=? hl_expires_at_ms claim)%Z
                (hhe "Human Handoff renewal does not extend its claim" []);
          Ok (set (HClaimed {| hl_id := hl_id claim; hl_owner := hl_owner claim;
                               hl_claimed_at_ms := hl_claimed_at_ms claim;
                               hl_expires_at_ms := expires_at_ms |}), claim_ids)
      | _ => Err (hhe "Human Handoff renewal does not follow claimed state" [])
      end
  | HtClaimReleased claim_id reason_code =>
      _ ← validate_capability_name "Human Handoff release reason" reason_code;
      _ ← validate_projected_owner status claim_id (ht_actor t) now "release";
      Ok (set HQueued, claim_ids)
  | HtClaimExpired claim_id =>
      match status with
      | Some (HClaimed claim) =>
          _ ← reject_if (bool_decide (hl_id claim ≠ claim_id) || (now <? hl_expires_at_ms claim)%Z)
                (hhe "Human Handoff expiration differs from its claim" []);
          Ok (set HQueued, claim_ids)
      | _ => Err (hhe "Human Handoff expiration does not follow claimed state" [])
      end
  | HtResolved claim_id outcome_code summary =>
      _ ← validate_capability_name "Human Handoff outcome" outcome_code;
      _ ← handoff_validate_text "Human Handoff resolution summary" summary;
      _ ← validate_projected_owner status claim_id (ht_actor t) now "resolution";
      Ok (set (HResolved outcome_code summary), claim_ids)
  | HtCancelled reason_code =>
      _ ← reject_if (match status with Some s => handoff_terminal s | None => true end)
            (hhe "Human Handoff cancellation does not follow nonterminal state" []);
      _ ← validate_capability_name "Human Handoff cancellation reason" reason_code;
      Ok (set (HCancelled reason_code), claim_ids)
  end.

Section handoff.
Context `{!Serialize (HandoffAttributed HumanHandoffCreateRequest),
          !Serialize (HandoffAttributed HumanHandoffCommand), !Serialize HumanHandoffCommand,
          !Serialize HumanHandoffWire, sha : !Sha256}.

(** The encoder of a Handoff is the one of the fields it does not skip. *)
#[local] Instance handoff_serialize : Serialize HumanHandoff := λ h, to_json (handoff_wire h).

Definition handoff_encoded_size_for (h : HumanHandoff) (class : HumanHandoffCapacityClass)
    : result Z :=
  size ← handoff_size "aggregate" h MAX_HANDOFF_JSON_BYTES;
  _ ← handoff_materialization_capacity size class;
  Ok size.

Definition handoff_encoded_size (h : HumanHandoff) : result Z :=
  handoff_encoded_size_for h HcSettlement.

Definition handoff_validate_command (c : HumanHandoffCommand) : result () :=
  _ ← handoff_validate_identity "Human Handoff command" (hc_id c);
  _ ← handoff_size "command" c MAX_HANDOFF_COMMAND_JSON_BYTES;
  Ok ().

(** [attributed_digest]. *)
Definition handoff_digest {T} `{Serialize (HandoffAttributed T)} (actor : ActorIdentity)
    (command : T) : result str :=
  _ ← handoff_validate_actor actor;
  let attributed := {| ha_actor := actor; ha_command := command |} in
  size ← handoff_size "command" attributed MAX_HANDOFF_COMMAND_JSON_BYTES;
  _ ← reject_if (size =? 0)%Z (hhe "Human Handoff command encoding is empty" []);
  encoded ← ok_or (to_json attributed) (hhe "cannot encode Human Handoff command" []);
  Ok (lower_sha256 encoded).

(** [transition_digest]. *)
Definition handoff_transition_digest (t : HumanHandoffTransition) : result str :=
  match ht_kind t, handoff_transition_command (ht_kind t) with
  | HtCreated subject queue reason_code priority, _ =>
      handoff_digest (ht_actor t)
        {| hr_command_id := ht_command_id t; hr_subject := subject; hr_queue := queue;
           hr_reason_code := reason_code; hr_priority := priority |}
  | _, Some kind => handoff_digest (ht_actor t) {| hc_id := ht_command_id t; hc_kind := kind |}
  | _, None => Err (hhe "unreachable" [])
  end.

(** One iteration of the loop of [validate]. *)
Definition handoff_replay_step (y : HandoffReplay) (t : HumanHandoffTransition)
    : result HandoffReplay :=
  _ ← reject_if (negb (ht_sequence t =? hy_expected_sequence y)%Z)
        (hhe "Human Handoff transition sequence is not contiguous" []);
  expected ← ok_or (checked_add u64_max (hy_expected_sequence y) 1)
               (hhe "Human Handoff sequence overflow" []);
  _ ← handoff_validate_identity "Human Handoff command" (ht_command_id t);
  _ ← handoff_validate_digest (ht_command_sha256 t);
  _ ← handoff_validate_application_time (ht_applied_at_ms t);
  _ ← reject_if (ht_applied_at_ms t <? hy_previous_time y)%Z
        (hhe "Human Handoff transition time is not monotonic" []);
  _ ← handoff_validate_actor (ht_actor t);
  digest ← handoff_transition_digest t;
  _ ← reject_if (bool_decide (ht_command_sha256 t ≠ digest))
        (hhe "Human Handoff command digest differs from transition content" []);
  _ ← reject_if ((MAX_HANDOFF_WORK_TRANSITIONS <? ht_sequence t)%Z
                 && bool_decide (handoff_transition_class (ht_kind t) = HcWork))
        (hhe "Human Handoff work transition consumed the settlement reserve" []);
  _ ← reject_if (bool_decide (ht_command_id t ∈ hy_command_ids y))
        (hhe "Human Handoff contains duplicate command identities" []);
  next ← handoff_replay_kind t (hy_projection y) (hy_claim_ids y);
  Ok {| hy_expected_sequence := expected; hy_command_ids := {[ht_command_id t]} ∪ hy_command_ids y;
        hy_claim_ids := next.2; hy_projection := next.1; hy_previous_time := ht_applied_at_ms t |}.

(** What the Handoff itself claims to be. *)
Definition handoff_projection (h : HumanHandoff) : HandoffProjection :=
  {| hp_subject := hh_subject h; hp_queue := hh_queue h; hp_reason_code := hh_reason_code h;
     hp_priority := hh_priority h; hp_requested_at_ms := hh_requested_at_ms h;
     hp_status := hh_status h |}.

(** [HumanHandoff::validate]. *)
Definition handoff_validate (h : HumanHandoff) : result () :=
  _ ← validate_subject (hh_subject h);
  _ ← validate_capability_name "Human Handoff queue" (hh_queue h);
  _ ← validate_capability_name "Human Handoff reason" (hh_reason_code h);
  _ ← handoff_validate_application_time (hh_requested_at_ms h);
  _ ← reject_if (bool_decide (hh_transitions h = [])
                 || (MAX_HANDOFF_TRANSITIONS <? len (hh_transitions h))%Z)
        (hhe "Human Handoff must retain 1-{} transitions" [ANum MAX_HANDOFF_TRANSITIONS]);
  y ← fold_m handoff_replay_step handoff_replay_start (hh_transitions h);
  reject_if (bool_decide (hy_projection y ≠ Some (handoff_projection h)))
    (hhe "Human Handoff projection differs from immutable transitions" []).

Definition handoff_with_charge (h : HumanHandoff) (charge : Z) : HumanHandoff :=
  {| hh_subject := hh_subject h; hh_queue := hh_queue h; hh_reason_code := hh_reason_code h;
     hh_priority := hh_priority h; hh_requested_at_ms := hh_requested_at_ms h;
     hh_status := hh_status h; hh_transitions := hh_transitions h; hh_charge := charge |}.

(** [Deserialize for HumanHandoff]. *)
Definition handoff_deserialize (w : HumanHandoffWire) : option HumanHandoff :=
  let handoff :=
    {| hh_subject := hw_subject w; hh_queue := hw_queue w; hh_reason_code := hw_reason_code w;
       hh_priority := hw_priority w; hh_requested_at_ms := hw_requested_at_ms w;
       hh_status := hw_status w; hh_transitions := hw_transitions w; hh_charge := 0 |} in
  match (_ ← handoff_validate handoff; handoff_encoded_size handoff) with
  | Ok charge => Some (handoff_with_charge handoff charge)
  | Err _ => None
  end.

(** * Construction and commands *)

(** [HumanHandoff::new]. *)
Definition HumanHandoff_new (request : HumanHandoffCreateRequest) (applied_at_ms : Z)
    (authority : AuthorityContext) : result HumanHandoff :=
  _ ← handoff_validate_create_request request;
  _ ← handoff_validate_application_time applied_at_ms;
  _ ← authority_validate_current authority "Human Handoff creation authority";
  digest ← handoff_digest (actor authority) request;
  let transition :=
    {| ht_sequence := 1; ht_command_id := hr_command_id request; ht_command_sha256 := digest;
       ht_applied_at_ms := applied_at_ms; ht_actor := actor authority;
       ht_kind := HtCreated (hr_subject request) (hr_queue request) (hr_reason_code request)
                    (hr_priority request) |} in
  let handoff :=
    {| hh_subject := hr_subject request; hh_queue := hr_queue request;
       hh_reason_code := hr_reason_code request; hh_priority := hr_priority request;
       hh_requested_at_ms := applied_at_ms; hh_status := HQueued;
       hh_transitions := [transition]; hh_charge := 0 |} in
  _ ← handoff_validate handoff;
  charge ← handoff_encoded_size handoff;
  Ok (handoff_with_charge handoff charge).

Definition handoff_create_matches (h : HumanHandoff) (request : HumanHandoffCreateRequest)
    (actor : ActorIdentity) : result bool :=
  digest ← handoff_digest actor request;
  Ok (match head (hh_transitions h) with
      | Some t => bool_decide (ht_command_id t = hr_command_id request)
                  && bool_decide (ht_command_sha256 t = digest)
      | None => false
      end).

Definition handoff_recognizes_command (h : HumanHandoff) (c : HumanHandoffCommand)
    (actor : ActorIdentity) : result bool :=
  _ ← handoff_validate_command c;
  _ ← handoff_validate_actor actor;
  digest ← handoff_digest actor c;
  match List.find (λ t, bool_decide (ht_command_id t = hc_id c)) (hh_transitions h) with
  | None => Ok false
  | Some existing =>
      if bool_decide (ht_command_sha256 existing = digest) then Ok true
      else Err (hhe
        "Human Handoff command {} was reused by a different actor or with different content"
        [AStr (hc_id c)])
  end.

(** [HumanHandoff::apply_kind], on the copy [apply] makes: the next status and
    the transition, or the error that discards the copy. *)
Definition handoff_apply_kind (h : HumanHandoff) (kind : HumanHandoffCommandKind) (now : Z)
    (actor : ActorIdentity) : result (HumanHandoffStatus * HumanHandoffTransitionKind) :=
  let status := hh_status h in
  match kind with
  | HkClaim claim_id lease_duration_ms =>
      match status with
      | HQueued =>
          _ ← validate_new_claim_id (hh_transitions h) claim_id;
          _ ← handoff_validate_lease_duration lease_duration_ms;
          expires_at_ms ← handoff_lease_expiration now lease_duration_ms;
          Ok (HClaimed {| hl_id := claim_id; hl_owner := actor; hl_claimed_at_ms := now;
                          hl_expires_at_ms := expires_at_ms |},
              HtClaimed claim_id lease_duration_ms)
      | _ => Err (hhe "Human Handoff must be queued before claim" [])
      end
  | HkRenewClaim claim_id lease_duration_ms =>
      _ ← handoff_validate_lease_duration lease_duration_ms;
      claim ← active_owned_claim status claim_id actor now "renew";
      let previous_expires_at_ms := hl_expires_at_ms claim in
      expires_at_ms ← handoff_lease_expiration now lease_duration_ms;
      _ ← reject_if (expires_at_ms <=? previous_expires_at_ms)%Z
            (hhe "Human Handoff renewal must extend the current lease" []);
      Ok (HClaimed {| hl_id := hl_id claim; hl_owner := hl_owner claim;
                      hl_claimed_at_ms := hl_claimed_at_ms claim;
                      hl_expires_at_ms := expires_at_ms |},
          HtClaimRenewed claim_id lease_duration_ms previous_expires_at_ms)
  | HkReleaseClaim claim_id reason_code =>
      _ ← validate_capability_name "Human Handoff release reason" reason_code;
      _ ← active_owned_claim status claim_id actor now "release";
      Ok (HQueued, HtClaimReleased claim_id reason_code)
  | HkExpireClaim claim_id =>
      match status with
      | HClaimed claim =>
          _ ← reject_if (bool_decide (hl_id claim ≠ claim_id))
                (hhe "Human Handoff expiration does not match the current claim" []);
          _ ← reject_if (now <? hl_expires_at_ms claim)%Z
                (hhe "Human Handoff claim is not expired" []);
          Ok (HQueued, HtClaimExpired claim_id)
      | _ => Err (hhe "Human Handoff has no current claim to expire" [])
      end
  | HkResolve claim_id outcome_code summary =>
      _ ← validate_capability_name "Human Handoff outcome" outcome_code;
      _ ← handoff_validate_text "Human Handoff resolution summary" summary;
      _ ← active_owned_claim status claim_id actor now "resolve";
      Ok (HResolved outcome_code summary, HtResolved claim_id outcome_code summary)
  | HkCancel reason_code =>
      _ ← reject_if (handoff_terminal status)
            (hhe "terminal Human Handoff cannot be cancelled" []);
      _ ← validate_capability_name "Human Handoff cancellation reason" reason_code;
      Ok (HCancelled reason_code, HtCancelled reason_code)
  end.

(** The copy with its new status and transition. *)
Definition handoff_push (h : HumanHandoff) (s : HumanHandoffStatus) (t : HumanHandoffTransition)
    : HumanHandoff :=
  {| hh_subject := hh_subject h; hh_queue := hh_queue h; hh_reason_code := hh_reason_code h;
     hh_priority := hh_priority h; hh_requested_at_ms := hh_requested_at_ms h; hh_status := s;
     hh_transitions := hh_transitions h ++ [t]; hh_charge := hh_charge h |}.

(** [HumanHandoff::apply]. *)
Definition handoff_apply (command : HumanHandoffCommand) (applied_at_ms : Z)
    (authority : AuthorityContext) : M HumanHandoff HumanHandoffApplyOutcome :=
  self ← get;
  recognized ← lift (handoff_recognizes_command self command (actor authority));
  if (recognized : bool) then mret HandoffDuplicate else
  _ ← lift (handoff_validate_application_time applied_at_ms);
  _ ← lift (authority_validate_current authority "Human Handoff command authority");
  let class := handoff_command_class (hc_kind command) in
  _ ← lift (handoff_transition_capacity (len (hh_transitions self)) class);
  _ ← lift (reject_if (match vec_last (hh_transitions self) with
                       | Some t => (applied_at_ms <? ht_applied_at_ms t)%Z
                       | None => false
                       end)
              (hhe "Human Handoff application time cannot move backwards" []));
  digest ← lift (handoff_digest (actor authority) command);
  p ← lift (handoff_apply_kind self (hc_kind command) applied_at_ms (actor authority));
  sequence ← lift (ok_or (checked_add u64_max (len (hh_transitions self)) 1)
                     (hhe "Human Handoff sequence overflow" []));
  let next := handoff_push self p.1
    {| ht_sequence := sequence; ht_command_id := hc_id command; ht_command_sha256 := digest;
       ht_applied_at_ms := applied_at_ms; ht_actor := actor authority; ht_kind := p.2 |} in
  _ ← lift (handoff_validate next);
  charge ← lift (handoff_encoded_size_for next class);
  _ ← put (handoff_with_charge next charge);
  mret HandoffApplied.
End handoff.
