(* ===== verification/HandoffSafety.v ===== *)
(** Replaying the transitions of a Human Handoff
    (src/src/human_handoff/mod.rs): the life cycle as a state machine, and that
    the loop of [validate] and the guards of [apply] both follow it.

    The properties of the Human Handoff (src/src/human_handoff/mod.rs): its
    commands are the moves of the life cycle, one actor owns a case at a time,
    claims fence their owners, and an open case can always be cancelled. *)

From Stdlib Require Import ZArith Lia.
From stdpp Require Import sorting base tactics list gmap relations numbers strings option.
From stdpp Require Import list.
From S2P Require Import Prelude Kernel Digest Json Handoff.

(** * The life cycle *)

(** The claim [t] makes. *)
Definition new_claim (t : HumanHandoffTransition) (id : HumanHandoffClaimId) (expires_at_ms : Z)
    : HumanHandoffClaim :=
  {| hl_id := id; hl_owner := ht_actor t; hl_claimed_at_ms := ht_applied_at_ms t;
     hl_expires_at_ms := expires_at_ms |}.

Definition renewed_claim (claim : HumanHandoffClaim) (expires_at_ms : Z) : HumanHandoffClaim :=
  {| hl_id := hl_id claim; hl_owner := hl_owner claim;
     hl_claimed_at_ms := hl_claimed_at_ms claim; hl_expires_at_ms := expires_at_ms |}.

(** The actor of [t] owns [claim] when [t] is applied. *)
Definition owns (t : HumanHandoffTransition) (claim : HumanHandoffClaim) : Prop :=
  ht_actor t = hl_owner claim ∧ (ht_applied_at_ms t < hl_expires_at_ms claim)%Z.

(** One transition of a case: from a queue to an owner, back, or to its end. *)
Inductive handoff_moves (t : HumanHandoffTransition)
    : HumanHandoffStatus → HumanHandoffStatus → Prop :=
| hm_claim id duration :
    ht_kind t = HtClaimed id duration → (ht_applied_at_ms t + duration ≤ u64_max)%Z →
    handoff_moves t HQueued (HClaimed (new_claim t id (ht_applied_at_ms t + duration)))
| hm_renew claim duration :
    ht_kind t = HtClaimRenewed (hl_id claim) duration (hl_expires_at_ms claim) → owns t claim →
    (hl_expires_at_ms claim < ht_applied_at_ms t + duration ≤ u64_max)%Z →
    handoff_moves t (HClaimed claim)
      (HClaimed (renewed_claim claim (ht_applied_at_ms t + duration)))
| hm_release claim reason :
    ht_kind t = HtClaimReleased (hl_id claim) reason → owns t claim →
    handoff_moves t (HClaimed claim) HQueued
| hm_expire claim :
    ht_kind t = HtClaimExpired (hl_id claim) → (hl_expires_at_ms claim ≤ ht_applied_at_ms t)%Z →
    handoff_moves t (HClaimed claim) HQueued
| hm_resolve claim outcome summary :
    ht_kind t = HtResolved (hl_id claim) outcome summary → owns t claim →
    handoff_moves t (HClaimed claim) (HResolved outcome summary)
| hm_cancel s reason :
    ht_kind t = HtCancelled reason → handoff_terminal s = false →
    handoff_moves t s (HCancelled reason).

Lemma moves_from_open t s s' : handoff_moves t s s' → handoff_terminal s = false.
Proof. by destruct 1. Qed.

(** ** The texts of a transition *)

(** What is checked of a transition besides the state it meets; [used] are the
    claim identities before it. *)
Definition handoff_texts (k : HumanHandoffTransitionKind) (used : gset str) : Prop :=
  match k with
  | HtCreated _ _ _ _ => False
  | HtClaimed id duration =>
      handoff_validate_identity "Human Handoff claim" id = Ok () ∧
      handoff_validate_lease_duration duration = Ok () ∧ id ∉ used
  | HtClaimRenewed _ duration _ => handoff_validate_lease_duration duration = Ok ()
  | HtClaimReleased _ reason => capability_name_valid reason = true
  | HtClaimExpired _ => True
  | HtResolved _ outcome summary =>
      capability_name_valid outcome = true ∧
      handoff_validate_text "Human Handoff resolution summary" summary = Ok ()
  | HtCancelled reason => capability_name_valid reason = true
  end.

Definition used_after (t : HumanHandoffTransition) (used : gset str) : gset str :=
  match ht_kind t with HtClaimed id _ => {[id]} ∪ used | _ => used end.

#[local] Arguments validate_projected_owner : simpl never.

Lemma active_owned_claim_ok s id actor now action claim :
  active_owned_claim s id actor now action = Ok claim ↔
  s = HClaimed claim ∧ hl_id claim = id ∧ hl_owner claim = actor ∧ (now < hl_expires_at_ms claim)%Z.
Proof.
  unfold active_owned_claim. split.
  - intros Ha. destruct s; try done. inv_ok. bool_hyps. subst.
    repeat match goal with H : ¬ (_ ≠ _) |- _ => apply dec_stable in H end. done.
  - intros (-> & <- & <- & Hlt). rewrite !bool_decide_eq_false_2 by (intros Hn; by apply Hn).
    simpl. by rewrite (proj2 (Z.leb_gt _ _) Hlt).
Qed.

Lemma projected_owner_ok s id actor now action u :
  validate_projected_owner s id actor now action = Ok u ↔
  ∃ claim, s = Some (HClaimed claim) ∧ hl_id claim = id ∧ hl_owner claim = actor ∧
    (now < hl_expires_at_ms claim)%Z.
Proof.
  unfold validate_projected_owner. destruct s as [[|claim| |]|]; try naive_solver.
  rewrite reject_if_ok. split.
  - intros Hu. bool_hyps. repeat match goal with H : ¬ (_ ≠ _) |- _ => apply dec_stable in H end. eauto.
  - intros (c & [= ->] & <- & <- & Hlt). rewrite !bool_decide_eq_false_2 by (intros Hn; by apply Hn).
    by rewrite (proj2 (Z.leb_gt _ _) Hlt).
Qed.

Lemma handoff_expiration_ok now duration e :
  handoff_lease_expiration now duration = Ok e ↔ e = (now + duration)%Z ∧ (now + duration ≤ u64_max)%Z.
Proof.
  unfold handoff_lease_expiration, checked_add. destruct (Z.leb_spec (now + duration) u64_max); simpl;
    split; [intros [= <-]; lia|by intros [-> _]|done|lia].
Qed.

(** The loop accepts exactly the moves of the life cycle with valid texts. *)
Lemma handoff_replay_kind_iff t q used p' used' :
  handoff_replay_kind t (Some q) used = Ok (p', used') → ht_sequence t ≠ 1%Z →
  ∃ s, p' = Some (hp_with_status q s) ∧ used' = used_after t used ∧
    handoff_texts (ht_kind t) used ∧ handoff_moves t (hp_status q) s.
Proof.
  unfold handoff_replay_kind, used_after, handoff_texts. intros Hk Hseq.
  destruct (ht_kind t) as [sub qu rs pr|id dur|id dur prev|id rs|id|id oc sm|rs] eqn:Ek; simpl in Hk.
  - by destruct (Z.eqb_spec (ht_sequence t) 1).
  - destruct (hp_status q); try done. inv_ok. simplify_eq.
    match goal with H : handoff_lease_expiration _ _ = _ |- _ =>
      apply handoff_expiration_ok in H as [-> ?] end. bool_hyps.
    eexists. split_and!; [done..|]. by apply hm_claim.
  - inv_ok. destruct (hp_status q) as [|claim| |]; try done. inv_ok. simplify_eq.
    match goal with H : handoff_lease_expiration _ _ = _ |- _ =>
      apply handoff_expiration_ok in H as [-> ?] end. bool_hyps.
    repeat match goal with H : ¬ (_ ≠ _) |- _ => apply dec_stable in H end. subst.
    eexists. split_and!; [done..|]. apply hm_renew; [done| |lia]. by split.
  - inv_ok. simplify_eq.
    match goal with H : validate_projected_owner _ _ _ _ _ = _ |- _ =>
      apply projected_owner_ok in H as (claim & [= ->] & <- & Ho & ?) end.
    match goal with H : validate_capability_name _ _ = _ |- _ => apply validate_capability_name_ok in H end.
    eexists. split_and!; [done..|]. eapply hm_release; [done|]. by split.
  - destruct (hp_status q) as [|claim| |]; try done. inv_ok. simplify_eq. bool_hyps.
    match goal with H : ¬ (_ ≠ _) |- _ => apply dec_stable in H end. subst.
    eexists. split_and!; [done..|]. by eapply hm_expire.
  - inv_ok. simplify_eq.
    match goal with H : validate_projected_owner _ _ _ _ _ = _ |- _ =>
      apply projected_owner_ok in H as (claim & [= ->] & <- & Ho & ?) end.
    match goal with H : validate_capability_name _ _ = _ |- _ => apply validate_capability_name_ok in H end.
    eexists. split_and!; [done..|]. eapply hm_resolve; [done|]. by split.
  - inv_ok. simplify_eq.
    match goal with H : validate_capability_name _ _ = _ |- _ => apply validate_capability_name_ok in H end.
    eexists. split_and!; [done..|]. by eapply hm_cancel.
Qed.

(** The life cycle and the texts determine the loop. *)
Lemma handoff_replay_kind_moves t q used s :
  handoff_moves t (hp_status q) s → handoff_texts (ht_kind t) used →
  handoff_replay_kind t (Some q) used = Ok (Some (hp_with_status q s), used_after t used).
Proof.
  assert (∀ kind n, capability_name_valid n = true → validate_capability_name kind n = Ok ()) as Hname
    by (intros; by apply validate_capability_name_ok).
  assert (∀ claim action, owns t claim → validate_projected_owner (Some (HClaimed claim)) (hl_id claim)
    (ht_actor t) (ht_applied_at_ms t) action = Ok ()) as Hown.
  { intros claim action [Ho Hlt]. apply projected_owner_ok. exists claim. by rewrite Ho. }
  intros Hm Ht. unfold handoff_replay_kind, used_after. unfold handoff_texts in Ht.
  inversion Hm as [id d Hk Hle Hs|claim d Hk [Ho Hlt] Hle Hs|claim r Hk Ho Hs|claim Hk Hle Hs|
    claim oc sm Hk Ho Hs|st r Hk Hn Hs E]; rewrite Hk in *; cbn [fmap option_fmap option_map].
  - rewrite <-Hs. destruct Ht as (-> & -> & Hnew). simpl. rewrite bool_decide_eq_false_2 by done. simpl.
    rewrite (proj2 (handoff_expiration_ok _ _ _) (conj eq_refl Hle)). done.
  - rewrite <-Hs, Ht. simpl. rewrite !bool_decide_eq_false_2 by (intros Hx; by apply Hx).
    rewrite Z.eqb_refl, (proj2 (Z.leb_gt _ _) Hlt). simpl.
    rewrite (proj2 (handoff_expiration_ok _ _ _) (conj eq_refl (proj2 Hle))). simpl.
    by rewrite (proj2 (Z.leb_gt _ _) (proj1 Hle)).
  - rewrite <-Hs, Hname by done. simpl. by rewrite Hown.
  - rewrite <-Hs. rewrite bool_decide_eq_false_2 by (intros Hx; by apply Hx).
    by rewrite (proj2 (Z.ltb_ge _ _) Hle).
  - rewrite <-Hs. destruct Ht as [Ht1 Ht2]. rewrite Hname by done. simpl. rewrite Ht2. simpl. by rewrite Hown.
  - rewrite Hn. simpl. by rewrite Hname.
Qed.

Section replay.
Context `{!Serialize (HandoffAttributed HumanHandoffCreateRequest),
          !Serialize (HandoffAttributed HumanHandoffCommand), !Serialize HumanHandoffCommand,
          !Serialize HumanHandoffWire, sha : !Sha256}.

Abbreviation handoff_replayed := (replays handoff_replay_step handoff_replay_start).

(** * What the loop computes *)

(** The parts of a successful iteration. *)
Record handoff_step_facts (y : HandoffReplay) (t : HumanHandoffTransition) (y' : HandoffReplay)
    : Prop := {
  hf_sequence : ht_sequence t = hy_expected_sequence y;
  hf_next : hy_expected_sequence y' = (hy_expected_sequence y + 1)%Z;
  hf_time : (hy_previous_time y ≤ ht_applied_at_ms t)%Z;
  hf_time' : hy_previous_time y' = ht_applied_at_ms t;
  hf_digest : handoff_transition_digest t = Ok (ht_command_sha256 t);
  hf_reserve : (MAX_HANDOFF_WORK_TRANSITIONS < ht_sequence t)%Z →
               handoff_transition_class (ht_kind t) = HcSettlement;
  hf_fresh : ht_command_id t ∉ hy_command_ids y;
  hf_commands : hy_command_ids y' = {[ht_command_id t]} ∪ hy_command_ids y;
  hf_kind : handoff_replay_kind t (hy_projection y) (hy_claim_ids y)
            = Ok (hy_projection y', hy_claim_ids y');
}.

Lemma handoff_replay_step_ok y t y' :
  handoff_replay_step y t = Ok y' → handoff_step_facts y t y'.
Proof.
  unfold handoff_replay_step. intros Hs. inv_ok.
  match goal with H : checked_add _ _ _ = _ |- _ => apply checked_add_Some in H as [-> _] end.
  bool_hyps. subst y'.
  match goal with H : ¬ (_ ≠ _) |- _ => apply dec_stable in H end.
  match goal with H : (_ && _) = false |- _ => rename H into Hw end.
  match goal with H : handoff_replay_kind _ _ _ = Ok ?p |- _ => destruct p end.
  split; simpl; try congruence.
  intros Hlt. rewrite (proj2 (Z.ltb_lt _ _) Hlt) in Hw. simpl in Hw. bool_hyps.
  by destruct (handoff_transition_class _).
Qed.

Record handoff_replay_inv (l : list HumanHandoffTransition) (y : HandoffReplay) : Prop := {
  hi_sequence : hy_expected_sequence y = (len l + 1)%Z;
  hi_commands : ∀ id, id ∈ hy_command_ids y ↔ ∃ t, t ∈ l ∧ ht_command_id t = id;
  hi_claims : ∀ id, id ∈ hy_claim_ids y ↔ ∃ t, t ∈ l ∧ claims_under id t = true;
  hi_time : hy_previous_time y = default 0%Z (ht_applied_at_ms <$> vec_last l);
  hi_created : is_Some (hy_projection y) ↔ l ≠ [];
}.

Lemma used_after_spec t used id : id ∈ used_after t used ↔ id ∈ used ∨ claims_under id t = true.
Proof.
  unfold used_after, claims_under. destruct (ht_kind t); try naive_solver.
  rewrite elem_of_union, elem_of_singleton, bool_decide_eq_true. naive_solver.
Qed.

(** One iteration creates the case or moves it. *)
Lemma handoff_step_cases l y t y' :
  handoff_replay_inv l y → handoff_replay_step y t = Ok y' →
  (l = [] ∧ ∃ sub qu rs pr, ht_kind t = HtCreated sub qu rs pr ∧ hy_claim_ids y' = hy_claim_ids y ∧
     hy_projection y' = Some {| hp_subject := sub; hp_queue := qu; hp_reason_code := rs;
       hp_priority := pr; hp_requested_at_ms := ht_applied_at_ms t; hp_status := HQueued |}) ∨
  (l ≠ [] ∧ ∃ q s, hy_projection y = Some q ∧ hy_projection y' = Some (hp_with_status q s) ∧
     hy_claim_ids y' = used_after t (hy_claim_ids y) ∧ handoff_texts (ht_kind t) (hy_claim_ids y) ∧
     handoff_moves t (hp_status q) s).
Proof.
  intros [I1 I2 I3 I4 I5] [S1 S2 S3 S4 S5 S6 S7 S8 S9]%handoff_replay_step_ok.
  destruct l as [|t0 l].
  - left. split; [done|]. rewrite I1 in S1. unfold len in S1. simpl in S1.
    destruct (hy_projection y) as [q|]; [by destruct (proj1 I5 ltac:(eauto))|].
    unfold handoff_replay_kind, validate_projected_owner in S9.
    destruct (ht_kind t) as [sub qu rs pr|id d|id d pv|id rs|id|id oc sm|rs]; simpl in S9;
      [rewrite S1 in S9; simpl in S9|..]; inv_ok; [|done..]. simplify_eq. by eexists _, _, _, _.
  - right. split; [done|]. destruct (proj2 I5) as [q Hq]; [done|]. rewrite Hq in S9.
    apply handoff_replay_kind_iff in S9 as (s & Hp & Hu & Ht & Hm); [by eexists q, s|].
    rewrite S1, I1. unfold len. simpl. lia.
Qed.

Lemma handoff_replayed_inv l y : handoff_replayed l y → handoff_replay_inv l y.
Proof.
  revert l y. apply replays_ind.
  - split; try done; simpl; try (intros id; rewrite elem_of_empty;
      (split; [done|by intros (? & ?%elem_of_nil & _)])). split; [by intros []|done].
  - intros l t y y' _ Hi Hs. pose proof (handoff_step_cases _ _ _ _ Hi Hs) as Hc.
    destruct Hi as [I1 I2 I3 I4 I5]. apply handoff_replay_step_ok in Hs as [S1 S2 S3 S4 S5 S6 S7 S8 S9].
    split.
    + rewrite S2, I1. unfold len. rewrite length_app. simpl. lia.
    + intros id. rewrite elem_of_snoc_ex, S8, <-I2. set_solver.
    + intros id. rewrite elem_of_snoc_ex, <-I3.
      destruct Hc as [(_ & sub & qu & rs & pr & Ek & -> & _)|(_ & q & s & _ & _ & -> & _)].
      * unfold claims_under. rewrite Ek. naive_solver.
      * apply used_after_spec.
    + by rewrite S4, last_snoc.
    + split; [intros _; by destruct l|]. intros _.
      destruct Hc as [(_ & sub & qu & rs & pr & _ & _ & ->)|(_ & q & s & _ & -> & _)]; eauto.
Qed.

(** ** The validator *)

(** The checks of [validate] on the fixed fields. *)
Definition handoff_header (h : HumanHandoff) : Prop :=
  validate_subject (hh_subject h) = Ok () ∧
  validate_capability_name "Human Handoff queue" (hh_queue h) = Ok () ∧
  validate_capability_name "Human Handoff reason" (hh_reason_code h) = Ok () ∧
  handoff_validate_application_time (hh_requested_at_ms h) = Ok ().

Record valid_handoff (h : HumanHandoff) (y : HandoffReplay) : Prop := {
  vh_header : handoff_header h;
  vh_length : (1 ≤ len (hh_transitions h) ≤ MAX_HANDOFF_TRANSITIONS)%Z;
  vh_replay : handoff_replayed (hh_transitions h) y;
  vh_projection : hy_projection y = Some (handoff_projection h);
}.

Lemma handoff_validate_iff h : handoff_validate h = Ok () ↔ ∃ y, valid_handoff h y.
Proof.
  unfold handoff_validate. split.
  - intros Hv. inv_ok. bool_hyps.
    match goal with H : fold_m _ _ _ = Ok ?y |- _ => exists y end.
    match goal with H : ¬ (_ ≠ Some (handoff_projection h)) |- _ => apply dec_stable in H end.
    split; [by split_and!|split; [|done]|done|done].
    destruct (hh_transitions h); [done|]. unfold len. simpl. lia.
  - intros [y [(H1 & H2 & H3 & H4) [L1 L2] Hr Hp]]. rewrite H1, H2, H3, H4. simpl.
    rewrite (bool_decide_eq_false_2 (hh_transitions h = [])) by (intros E; by rewrite E in L1).
    rewrite (proj2 (Z.ltb_ge _ _) L2). simpl. unfold replays in Hr. rewrite Hr. simpl. rewrite Hp.
    rewrite bool_decide_eq_false_2 by (intros Hn; by apply Hn). done.
Qed.

(** ** The guards of [apply_kind] follow the life cycle *)

Lemma new_claim_id_ok l y id u :
  handoff_replay_inv l y → validate_new_claim_id l id = Ok u →
  handoff_validate_identity "Human Handoff claim" id = Ok () ∧ id ∉ hy_claim_ids y.
Proof.
  intros Hi He. unfold validate_new_claim_id in He. inv_ok. split; [done|].
  intros Hin%(hi_claims _ _ Hi)%existsb_iff. congruence.
Qed.

Lemma handoff_apply_kind_moves h y kind now a s t :
  handoff_replay_inv (hh_transitions h) y →
  handoff_apply_kind h kind now a = Ok (s, ht_kind t) → ht_applied_at_ms t = now → ht_actor t = a →
  handoff_transition_command (ht_kind t) = Some kind ∧ handoff_texts (ht_kind t) (hy_claim_ids y) ∧
  handoff_moves t (hh_status h) s.
Proof.
  intros Hi Ha <- <-. unfold handoff_apply_kind in Ha. unfold handoff_texts.
  destruct kind as [id d|id d|id rs|id|id oc sm|rs]; inv_ok;
    try (destruct (hh_status h) eqn:Est; try done; inv_ok);
    repeat match goal with
    | H : active_owned_claim _ _ _ _ _ = _ |- _ => apply active_owned_claim_ok in H as (? & <- & ? & ?)
    | H : handoff_lease_expiration _ _ = _ |- _ => apply handoff_expiration_ok in H as [-> ?]
    | H : validate_capability_name _ _ = _ |- _ => apply validate_capability_name_ok in H
    | H : validate_new_claim_id _ _ = _ |- _ => apply (new_claim_id_ok _ _ _ _ Hi) in H as [? ?]
    end; simplify_eq; bool_hyps;
    repeat match goal with H : ¬ (_ ≠ _) |- _ => apply dec_stable in H end; subst;
    match goal with H : _ = ht_kind t |- _ => symmetry in H; rename H into Ek end; rewrite Ek.
  - split_and!; try done. by apply hm_claim.
  - split_and!; try done. apply hm_renew; [done|by split|lia].
  - split_and!; try done. eapply hm_release; [done|by split].
  - split_and!; try done. by eapply hm_expire.
  - split_and!; try done. eapply hm_resolve; [done|by split].
  - split_and!; try done. by eapply hm_cancel.
  - split_and!; try done. by eapply hm_cancel.
Qed.
End replay.

(** * The history of a case *)

(** The transitions lead, move by move, from the queue to the status. *)
Inductive lifecycle : list HumanHandoffTransition → HumanHandoffStatus → Prop :=
| lc_created t subject queue reason priority :
    ht_kind t = HtCreated subject queue reason priority → lifecycle [t] HQueued
| lc_moved l t s s' : lifecycle l s → handoff_moves t s s' → lifecycle (l ++ [t]) s'.

(** [t] extends the claim [claim]. *)
Definition renews (claim : HumanHandoffClaim) (t : HumanHandoffTransition) : Prop :=
  ht_actor t = hl_owner claim ∧ ∃ duration prior, ht_kind t = HtClaimRenewed (hl_id claim) duration prior.

(** When the lease that [t] granted ends. *)
Definition lease_end (t : HumanHandoffTransition) : option Z :=
  match ht_kind t with
  | HtClaimed _ duration | HtClaimRenewed _ duration _ => Some (ht_applied_at_ms t + duration)%Z
  | _ => None
  end.

(** The transitions end with the claim and its renewals, all by its owner; the
    last of them grants the current lease. *)
Definition held (l : list HumanHandoffTransition) (claim : HumanHandoffClaim) : Prop :=
  ∃ l1 t l2 duration, l = l1 ++ t :: l2 ∧ ht_kind t = HtClaimed (hl_id claim) duration ∧
    ht_actor t = hl_owner claim ∧ ht_applied_at_ms t = hl_claimed_at_ms claim ∧
    Forall (renews claim) l2 ∧ (vec_last l ≫= lease_end) = Some (hl_expires_at_ms claim).

(** The transitions end with the case in its queue. *)
Definition in_queue (l : list HumanHandoffTransition) : Prop :=
  ∃ l0 t, l = l0 ++ [t] ∧
    match ht_kind t with
    | HtCreated _ _ _ _ | HtClaimReleased _ _ | HtClaimExpired _ => True
    | _ => False
    end.

(** What the transitions tell of each status. *)
Definition handoff_follows (l : list HumanHandoffTransition) (s : HumanHandoffStatus) : Prop :=
  match s with
  | HQueued => in_queue l
  | HClaimed claim => held l claim
  | HResolved outcome summary =>
      ∃ l0 t id, l = l0 ++ [t] ∧ ht_kind t = HtResolved id outcome summary
  | HCancelled reason => ∃ l0 t, l = l0 ++ [t] ∧ ht_kind t = HtCancelled reason
  end.

Lemma lifecycle_follows l s : lifecycle l s → handoff_follows l s.
Proof.
  induction 1 as [t sub qu rs pr Hk|l t s s' _ IH Hm]; simpl.
  - exists [], t. by rewrite Hk.
  - destruct Hm as [id d Hk _|claim d Hk [Ho _] _|claim rs Hk _|claim Hk _|claim oc sm Hk _|s rs Hk _]; simpl.
    + exists l, t, [], d. split_and!; try done. by rewrite last_snoc; simpl; unfold lease_end; rewrite Hk.
    + destruct IH as (l1 & c & l2 & d0 & -> & K1 & K2 & K3 & K4 & _).
      exists l1, c, (l2 ++ [t]), d0. split_and!; try done.
      * by rewrite <-(assoc_L (++)).
      * apply Forall_app. split; [done|]. constructor; [|done]. split; [done|]. eauto.
      * rewrite last_snoc. simpl. unfold lease_end. by rewrite Hk.
    + exists l, t. by rewrite Hk.
    + exists l, t. by rewrite Hk.
    + eauto 10.
    + eauto 10.
Qed.

(** A history, cut after one of its transitions. *)
Lemma lifecycle_prefix l l2 s :
  l ≠ [] → lifecycle (l ++ l2) s →
  ∃ s0, lifecycle l s0 ∧ ((l2 = [] ∧ s0 = s) ∨ handoff_terminal s0 = false).
Proof.
  intros Hl. revert s. induction l2 as [|u l2 IH] using rev_ind; intros s H.
  - rewrite app_nil_r in H. eauto.
  - rewrite app_assoc in H. inversion H as [t sub qu rs pr Hk E|l' t s0 s' Hl' Hm E].
    + exfalso. apply (f_equal length) in E. rewrite !length_app in E. simpl in E.
      destruct l; [done|simpl in E; lia].
    + apply app_inj_tail in E as [-> ->]. apply IH in Hl' as (s1 & K1 & [[-> ->]|Ht]); [|eauto].
      exists s0. split; [done|right]. by eapply moves_from_open.
Qed.

Lemma lifecycle_cut l1 t l2 s :
  lifecycle (l1 ++ t :: l2) s →
  (l1 = [] ∧ ∃ sub qu rs pr, ht_kind t = HtCreated sub qu rs pr) ∨
  ∃ s1 s2, lifecycle l1 s1 ∧ handoff_moves t s1 s2 ∧ (l2 = [] ∨ handoff_terminal s2 = false).
Proof.
  intros H. rewrite cons_middle, app_assoc in H.
  apply lifecycle_prefix in H as (s2 & H & Hs); [|by destruct l1].
  inversion H as [t' sub qu rs pr Hk E|l t' s1 s' Hl Hm E].
  - destruct l1 as [|? []]; [|done..]. injection E as ->. left. eauto 10.
  - apply app_inj_tail in E as [-> ->]. right. exists s1, s2. naive_solver.
Qed.

Section safety.
Context `{!Serialize (HandoffAttributed HumanHandoffCreateRequest),
          !Serialize (HandoffAttributed HumanHandoffCommand), !Serialize HumanHandoffCommand,
          !Serialize HumanHandoffWire, sha : !Sha256}.

Abbreviation handoff_replayed := (replays handoff_replay_step handoff_replay_start).

Lemma replayed_lifecycle l y q :
  handoff_replayed l y → hy_projection y = Some q → lifecycle l (hp_status q).
Proof.
  intros Hl. revert q. revert l y Hl.
  refine (replays_ind _ _ (λ l y, ∀ q, hy_projection y = Some q → lifecycle l (hp_status q)) _ _); [done|].
  intros l t y y' Hl IH Hs q Hq. pose proof (handoff_replayed_inv _ _ Hl) as Hi.
  destruct (handoff_step_cases _ _ _ _ Hi Hs)
    as [(-> & sub & qu & rs & pr & Hk & _ & Hq')|(_ & q0 & s & Hq0 & Hq' & _ & _ & Hm)].
  - rewrite Hq in Hq'. injection Hq' as ->. by eapply lc_created.
  - rewrite Hq in Hq'. injection Hq' as ->. eapply lc_moved; [by apply IH|done].
Qed.

Lemma valid_lifecycle h : handoff_validate h = Ok () → lifecycle (hh_transitions h) (hh_status h).
Proof. intros [y [_ _ Hr Hp]]%handoff_validate_iff. exact (replayed_lifecycle _ _ _ Hr Hp). Qed.

(** A claim uses a new identity. *)
Lemma replayed_claim_fresh l1 t l2 y id d :
  handoff_replayed (l1 ++ t :: l2) y → ht_kind t = HtClaimed id d →
  ∀ u, u ∈ l1 → claims_under id u = false.
Proof.
  intros (y1 & y2 & Hl & Hs & _)%replays_cut Hk u Hu.
  pose proof (handoff_replayed_inv _ _ Hl) as Hi.
  destruct (handoff_step_cases _ _ _ _ Hi Hs)
    as [(-> & _)|(_ & q & s & _ & _ & _ & Ht & _)]; [by apply not_elem_of_nil in Hu|].
  rewrite Hk in Ht. destruct Ht as (_ & _ & Hn). apply not_true_is_false. intros Hc.
  apply Hn, (hi_claims _ _ Hi). eauto.
Qed.

(** C13: One actor owns a case at a time.  In the history of a valid Handoff a
    claim is made only when the case is in its queue, under a new identity;
    only the owner of the current claim renews, releases or resolves it, and
    strictly before its lease ends; it is expired only at or after that time;
    and nothing follows a resolution or a cancellation. *)
Theorem handoff_single_owner (h : HumanHandoff) (l1 l2 : list HumanHandoffTransition)
    (t : HumanHandoffTransition) (Hv : handoff_validate h = Ok ())
    (Hl : hh_transitions h = l1 ++ t :: l2) :
  match ht_kind t with
  | HtCreated _ _ _ _ => l1 = []
  | HtClaimed id _ => in_queue l1 ∧ ∀ u, u ∈ l1 → claims_under id u = false
  | HtClaimRenewed id _ _ | HtClaimReleased id _ =>
      ∃ claim, held l1 claim ∧ hl_id claim = id ∧ owns t claim
  | HtClaimExpired id =>
      ∃ claim, held l1 claim ∧ hl_id claim = id ∧ (hl_expires_at_ms claim ≤ ht_applied_at_ms t)%Z
  | HtResolved id _ _ => l2 = [] ∧ ∃ claim, held l1 claim ∧ hl_id claim = id ∧ owns t claim
  | HtCancelled _ => l2 = []
  end.
Proof.
  pose proof (valid_lifecycle h Hv) as Hlc. apply handoff_validate_iff in Hv as [y [_ _ Hr _]].
  rewrite Hl in Hlc, Hr.
  apply lifecycle_cut in Hlc as [[-> (sub & qu & rs & pr & ->)]|(s1 & s2 & H1 & Hm & Hend)]; [done|].
  apply lifecycle_follows in H1.
  destruct Hm as [id d Hk _|claim d Hk Ho _|claim rs Hk Ho|claim Hk Hle|claim oc sm Hk Ho|s rs Hk _];
    rewrite Hk; simpl in *; try (destruct Hend as [->|Hend]; [|done]); eauto.
  split; [done|]. by eapply replayed_claim_fresh.
Qed.

(** ** Inversion of [apply] *)

(** The transition and the Handoff [apply] commits, before its charge. *)
Definition next_transition (h : HumanHandoff) (k : HumanHandoffTransitionKind)
    (c : HumanHandoffCommand) (digest : str) (now : Z) (a : AuthorityContext)
    : HumanHandoffTransition :=
  {| ht_sequence := len (hh_transitions h) + 1; ht_command_id := hc_id c;
     ht_command_sha256 := digest; ht_applied_at_ms := now; ht_actor := actor a; ht_kind := k |}.
Definition next_handoff (h : HumanHandoff) (p : HumanHandoffStatus * HumanHandoffTransitionKind)
    (c : HumanHandoffCommand) (digest : str) (now : Z) (a : AuthorityContext) : HumanHandoff :=
  handoff_push h p.1 (next_transition h p.2 c digest now a).

(** The guards [apply] evaluates before it builds the next Handoff. *)
Record handoff_admitted (h : HumanHandoff) (c : HumanHandoffCommand) (now : Z)
    (a : AuthorityContext) (digest : str) (p : HumanHandoffStatus * HumanHandoffTransitionKind)
    : Prop := {
  hd_new : handoff_recognizes_command h c (actor a) = Ok false;
  hd_time : now ≠ 0%Z;
  hd_authority : authority_validate_current a "Human Handoff command authority" = Ok ();
  hd_capacity : handoff_transition_capacity (len (hh_transitions h))
                  (handoff_command_class (hc_kind c)) = Ok ();
  hd_monotone : ∀ t, vec_last (hh_transitions h) = Some t → (ht_applied_at_ms t ≤ now)%Z;
  hd_digest : handoff_digest (actor a) c = Ok digest;
  hd_kind : handoff_apply_kind h (hc_kind c) now (actor a) = Ok p;
}.

Lemma handoff_apply_applied c now a h h' :
  handoff_apply c now a h = (h', Ok HandoffApplied) →
  ∃ digest p charge, handoff_admitted h c now a digest p ∧
    handoff_validate (next_handoff h p c digest now a) = Ok () ∧
    handoff_encoded_size_for (next_handoff h p c digest now a) (handoff_command_class (hc_kind c))
    = Ok charge ∧
    h' = handoff_with_charge (next_handoff h p c digest now a) charge.
Proof.
  unfold handoff_apply. intros Ha. inv_M.
  match goal with b : bool |- _ => destruct b; inv_M; [done|] end.
  inv_ok.
  match goal with H : checked_add _ _ _ = _ |- _ => apply checked_add_Some in H as [-> _] end.
  match goal with p : (HumanHandoffStatus * HumanHandoffTransitionKind)%type |- _ => rename p into pk end.
  unfold handoff_validate_application_time in *. inv_ok. bool_hyps.
  match goal with H : handoff_digest _ _ = Ok ?d |- _ => exists d, pk end.
  match goal with H : handoff_encoded_size_for _ _ = Ok ?n |- _ => exists n end.
  apply mret_eq in Ha as [-> _]. split_and!; [|done..]. split; try done.
  intros t Hl. rewrite Hl in *. by bool_hyps.
Qed.

Lemma handoff_apply_other c now a h h' res :
  handoff_apply c now a h = (h', res) → res ≠ Ok HandoffApplied → h' = h.
Proof.
  unfold handoff_apply. intros Ha Hn. destruct res as [o|x].
  - inv_M. match goal with b : bool |- _ => destruct b; inv_M; [done|] end. done.
  - inv_M_err; try done. match goal with b : bool |- _ => destruct b; inv_M_err; done end.
Qed.

(** An admitted command is a move of the life cycle. *)
Lemma admitted_moves h c now a digest p :
  handoff_validate h = Ok () → handoff_admitted h c now a digest p →
  let t := next_transition h p.2 c digest now a in
  ∃ y, valid_handoff h y ∧ handoff_transition_command p.2 = Some (hc_kind c) ∧
    handoff_texts p.2 (hy_claim_ids y) ∧ handoff_moves t (hh_status h) p.1.
Proof.
  intros [y Hy]%handoff_validate_iff Had t. exists y. split; [done|]. destruct p as [s k].
  eapply (handoff_apply_kind_moves h y _ _ _ s t);
    [by apply handoff_replayed_inv, vh_replay|exact (hd_kind _ _ _ _ _ _ Had)|done|done].
Qed.

(** ** The validator accepts what the guards accept *)

Lemma handoff_recognizes_false h c actor :
  handoff_recognizes_command h c actor = Ok false →
  handoff_validate_identity "Human Handoff command" (hc_id c) = Ok () ∧
  ∀ t, t ∈ hh_transitions h → ht_command_id t ≠ hc_id c.
Proof.
  unfold handoff_recognizes_command, handoff_validate_command. intros Hr. inv_ok. split; [done|].
  destruct (List.find _ _) as [t|] eqn:E; [by destruct (bool_decide _)|].
  intros t Hin%list_elem_of_In Hid. pose proof (find_none _ _ E t Hin) as Hn. simpl in Hn.
  by bool_hyps.
Qed.

Lemma handoff_digest_lower `{!Sha256Laws, Serialize (HandoffAttributed T)} actor (x : T) d :
  handoff_digest actor x = Ok d → is_lower_sha256 d = true ∧ handoff_validate_actor actor = Ok ().
Proof.
  unfold handoff_digest. intros Hx. inv_ok. subst d. split; [apply lower_sha256_lower|done].
Qed.

Lemma handoff_capacity_ok n class :
  handoff_transition_capacity n class = Ok () →
  (n < MAX_HANDOFF_TRANSITIONS)%Z ∧ (class = HcWork → (n < MAX_HANDOFF_WORK_TRANSITIONS)%Z).
Proof.
  unfold handoff_transition_capacity. intros Hc. inv_ok.
  match goal with H : _ && _ = false |- _ => rename H into Hw end. bool_hyps. split; [done|].
  intros ->. rewrite bool_decide_eq_true_2 in Hw by done. simpl in Hw. by bool_hyps.
Qed.

Lemma command_class_transition k kind :
  handoff_transition_command k = Some kind → handoff_transition_class k = handoff_command_class kind.
Proof. destruct k; by intros [= <-]. Qed.

Lemma handoff_next_digest k kind (t : HumanHandoffTransition) c a d :
  handoff_transition_command k = Some kind → ht_kind t = k → hc_kind c = kind → ht_actor t = actor a →
  ht_command_id t = hc_id c → handoff_digest (actor a) c = Ok d → handoff_transition_digest t = Ok d.
Proof.
  intros Hk Et Ek Ea Ec Hd. unfold handoff_transition_digest. rewrite Et, Hk, Ea, Ec, <-Ek.
  destruct k; by destruct c.
Qed.

Lemma handoff_next_valid `{!Sha256Laws} h c now a digest p :
  handoff_validate h = Ok () → (0 < now)%Z → handoff_admitted h c now a digest p →
  handoff_validate (next_handoff h p c digest now a) = Ok ().
Proof.
  intros Hv Hnow Had. destruct (admitted_moves _ _ _ _ _ _ Hv Had) as (y & [Hh Hlen Hr Hp] & Hc & Ht & Hm).
  destruct Had as [A1 A2 A3 A4 A5 A6 A7]. destruct p as [s k]. simpl in *.
  pose proof (handoff_replayed_inv _ _ Hr) as Hi. apply handoff_recognizes_false in A1 as [R1 R2].
  destruct (handoff_digest_lower _ _ _ A6) as [Hlow Hact]. apply handoff_capacity_ok in A4 as [C1 C2].
  set (t := next_transition h k c digest now a) in *.
  assert (hy_previous_time y ≤ now)%Z as Hprev.
  { rewrite (hi_time _ _ Hi). destruct (vec_last (hh_transitions h)) as [t0|] eqn:El; simpl; [|lia].
    by apply A5. }
  assert (hc_id c ∉ hy_command_ids y) as Hnew.
  { intros (t0 & Ht0 & E)%(hi_commands _ _ Hi). by eapply R2. }
  apply handoff_validate_iff.
  assert (∃ y', handoff_replay_step y t = Ok y' ∧
    hy_projection y' = Some (hp_with_status (handoff_projection h) s)) as (y' & Hstep & Hy').
  { unfold handoff_replay_step. cbn [ht_sequence ht_command_id ht_command_sha256 ht_applied_at_ms
      ht_actor ht_kind t next_transition]. rewrite (hi_sequence _ _ Hi), Z.eqb_refl. unfold checked_add.
    unfold MAX_HANDOFF_TRANSITIONS, MAX_HANDOFF_WORK_TRANSITIONS, HANDOFF_SETTLEMENT_TRANSITION_RESERVE in *.
    rewrite (proj2 (Z.leb_le _ u64_max)) by (unfold u64_max; lia). simpl.
    rewrite R1. unfold handoff_validate_digest, handoff_validate_application_time.
    rewrite Hlow, (proj2 (Z.eqb_neq now 0)), (proj2 (Z.ltb_ge _ _) Hprev), Hact by done. simpl.
    fold t. change (next_transition h k c digest now a) with t.
    rewrite (handoff_next_digest k _ t c a digest Hc eq_refl eq_refl eq_refl eq_refl A6). simpl.
    rewrite (bool_decide_eq_false_2 (digest ≠ digest)) by (intros Hn; by apply Hn).
    assert ((4096 <? len (hh_transitions h) + 1)%Z && bool_decide (handoff_transition_class k = HcWork)
      = false) as ->.
    { rewrite (command_class_transition _ _ Hc).
      destruct (handoff_command_class (hc_kind c)); [|by rewrite andb_false_r].
      rewrite (proj2 (Z.ltb_ge _ _)); [done|]. specialize (C2 eq_refl). lia. }
    rewrite (bool_decide_eq_false_2 (hc_id c ∈ _)) by done. simpl. rewrite Hp.
    rewrite (handoff_replay_kind_moves t (handoff_projection h) _ s Hm Ht). simpl. eauto. }
  exists y'. split; [done| |apply replays_snoc; eauto|done].
  simpl. unfold len in *. rewrite length_app. simpl. unfold MAX_HANDOFF_TRANSITIONS in *. lia.
Qed.

(** [apply] is total on what its guards admit. *)
Lemma handoff_apply_admitted `{!Sha256Laws} h c now a digest p charge :
  handoff_validate h = Ok () → (0 < now)%Z → handoff_admitted h c now a digest p →
  handoff_encoded_size_for (next_handoff h p c digest now a) (handoff_command_class (hc_kind c))
  = Ok charge →
  handoff_apply c now a h
  = (handoff_with_charge (next_handoff h p c digest now a) charge, Ok HandoffApplied).
Proof.
  intros Hv Hnow Had Hsize. pose proof (handoff_next_valid _ _ _ _ _ _ Hv Hnow Had) as Hn.
  destruct Had as [A1 A2 A3 A4 A5 A6 A7].
  unfold handoff_apply, handoff_validate_application_time, mbind, M_bind, lift, get, put, mret, M_ret.
  rewrite A1, (proj2 (Z.eqb_neq now 0)) by done. simpl. rewrite A3, A4.
  replace (match vec_last (hh_transitions h) with
           | Some t => (now <? ht_applied_at_ms t)%Z | None => false end) with false.
  2: { destruct (vec_last (hh_transitions h)) as [t|]; [|done]. symmetry. apply Z.ltb_ge. by apply A5. }
  simpl. rewrite A6, A7. simpl. apply handoff_capacity_ok in A4 as [A4 _].
  unfold checked_add, MAX_HANDOFF_TRANSITIONS, MAX_HANDOFF_WORK_TRANSITIONS,
    HANDOFF_SETTLEMENT_TRANSITION_RESERVE in *.
  rewrite (proj2 (Z.leb_le _ u64_max)) by (unfold u64_max; lia). simpl.
  unfold next_handoff, next_transition in Hn, Hsize. by rewrite Hn, Hsize.
Qed.

(** ** The reserve for settlements *)

(** The most transitions a case of each status can have. *)
Definition most_transitions (s : HumanHandoffStatus) : Z :=
  match s with
  | HClaimed _ => MAX_HANDOFF_WORK_TRANSITIONS
  | HQueued => MAX_HANDOFF_WORK_TRANSITIONS + 1
  | HResolved _ _ | HCancelled _ => MAX_HANDOFF_TRANSITIONS
  end.

Lemma replayed_length l y q :
  handoff_replayed l y → hy_projection y = Some q → (len l ≤ most_transitions (hp_status q))%Z.
Proof.
  intros Hl. revert q. revert l y Hl.
  refine (replays_ind _ _
    (λ l y, ∀ q, hy_projection y = Some q → (len l ≤ most_transitions (hp_status q))%Z) _ _); [done|].
  intros l t y y' Hl IH Hs q Hq. pose proof (handoff_replayed_inv _ _ Hl) as Hi.
  destruct (handoff_replay_step_ok _ _ _ Hs) as [Hseq _ _ _ _ Hres _ _ _].
  rewrite (hi_sequence _ _ Hi) in Hseq. replace (len (l ++ [t])) with (len l + 1)%Z
    by (unfold len; rewrite length_app; simpl; lia).
  destruct (handoff_step_cases _ _ _ _ Hi Hs)
    as [(-> & sub & qu & rs & pr & _ & _ & Hq')|(_ & q0 & s & Hq0 & Hq' & _ & _ & Hm)];
    rewrite Hq in Hq'; injection Hq' as ->; [done|].
  specialize (IH q0 Hq0). simpl. rewrite Hseq in Hres.
  unfold most_transitions, MAX_HANDOFF_TRANSITIONS, HANDOFF_SETTLEMENT_TRANSITION_RESERVE in *.
  destruct Hm as [id d Hk|claim d Hk|claim rs Hk|claim Hk|claim oc sm Hk|s rs Hk Ho];
    rewrite Hk in Hres; simpl in *; try lia;
    try (destruct (Z.lt_ge_cases MAX_HANDOFF_WORK_TRANSITIONS (len l + 1)) as [Hx|]; [|lia];
         by specialize (Hres Hx)).
  destruct s; simpl in *; (done || lia).
Qed.

Lemma valid_length h :
  handoff_validate h = Ok () → (len (hh_transitions h) ≤ most_transitions (hh_status h))%Z.
Proof. intros [y [_ _ Hr Hp]]%handoff_validate_iff. exact (replayed_length _ _ _ Hr Hp). Qed.

Lemma apply_kind_open h k now actor p :
  handoff_apply_kind h k now actor = Ok p → handoff_terminal (hh_status h) = false.
Proof.
  unfold handoff_apply_kind. intros Hk. destruct k; inv_ok;
    repeat match goal with
    | H : active_owned_claim _ _ _ _ _ = _ |- _ => apply active_owned_claim_ok in H as (-> & _)
    end; try done; by destruct (hh_status h).
Qed.

Lemma settlement_capacity h class :
  handoff_validate h = Ok () → handoff_terminal (hh_status h) = false → class = HcSettlement →
  handoff_transition_capacity (len (hh_transitions h)) class = Ok ().
Proof.
  intros Hl%valid_length Ht ->. unfold handoff_transition_capacity.
  rewrite (bool_decide_eq_false_2 (HcSettlement = HcWork)) by done. rewrite (proj2 (Z.leb_gt MAX_HANDOFF_TRANSITIONS _)); [done|].
  unfold most_transitions, MAX_HANDOFF_TRANSITIONS, HANDOFF_SETTLEMENT_TRANSITION_RESERVE in *.
  destruct (hh_status h); simpl in *; (done || lia).
Qed.

(** The number of transitions never keeps a case open: whatever its history, a
    new settlement command (a release, an expiry, a resolution or a
    cancellation) that its status admits is applied when its result fits its
    encoding; in particular an open case can always be cancelled, by any
    authority. *)
Theorem handoff_can_settle (laws : Sha256Laws) (h : HumanHandoff) (c : HumanHandoffCommand) (now : Z)
    (a : AuthorityContext) (digest : str) (p : HumanHandoffStatus * HumanHandoffTransitionKind)
    (charge : Z) (Hv : handoff_validate h = Ok ()) (Hnow : (0 < now)%Z)
    (Hmonotone : ∀ t, vec_last (hh_transitions h) = Some t → (ht_applied_at_ms t ≤ now)%Z)
    (Hauthority : authority_validate_current a "Human Handoff command authority" = Ok ())
    (Hnew : handoff_recognizes_command h c (actor a) = Ok false)
    (Hclass : handoff_command_class (hc_kind c) = HcSettlement)
    (Hkind : handoff_apply_kind h (hc_kind c) now (actor a) = Ok p ∨
             ∃ reason, hc_kind c = HkCancel reason ∧ handoff_terminal (hh_status h) = false ∧
               capability_name_valid reason = true ∧ p = (HCancelled reason, HtCancelled reason))
    (Hdigest : handoff_digest (actor a) c = Ok digest)
    (Hsize : handoff_encoded_size_for (next_handoff h p c digest now a) HcSettlement = Ok charge) :
  ∃ h', handoff_apply c now a h = (h', Ok HandoffApplied) ∧ hh_status h' = p.1 ∧
    handoff_validate h' = Ok ().
Proof.
  assert (handoff_apply_kind h (hc_kind c) now (actor a) = Ok p) as Hk.
  { destruct Hkind as [Hk|(reason & -> & Ht & Hr & ->)]; [done|]. simpl. rewrite Ht. simpl.
    by rewrite (proj2 (validate_capability_name_ok _ _ ()) Hr). }
  assert (handoff_admitted h c now a digest p) as Had.
  { split; try done; [lia|]. by apply settlement_capacity, Hclass; [|eapply apply_kind_open]. }
  eexists. split; [by apply handoff_apply_admitted; [..|rewrite Hclass]|].
  split; [done|]. exact (handoff_next_valid _ _ _ _ _ _ Hv Hnow Had).
Qed.

(** ** Refinement of the life cycle *)

(** C14: [apply] implements the life cycle: a valid case has lived its history; a
    command that applies appends the one transition it names, stamped with its
    identity, time and actor, whose move leads from the status before it to
    the status after it, and keeps the case valid and its fixed fields; every
    other outcome leaves the case as it was. *)
Theorem handoff_apply_refines (h h' : HumanHandoff) (c : HumanHandoffCommand) (now : Z)
    (a : AuthorityContext) (res : result HumanHandoffApplyOutcome)
    (Hv : handoff_validate h = Ok ()) (Ha : handoff_apply c now a h = (h', res)) :
  lifecycle (hh_transitions h) (hh_status h) ∧ handoff_validate h' = Ok () ∧
  match res with
  | Ok HandoffApplied =>
      ∃ t, hh_transitions h' = hh_transitions h ++ [t] ∧
        handoff_moves t (hh_status h) (hh_status h') ∧
        handoff_transition_command (ht_kind t) = Some (hc_kind c) ∧
        ht_command_id t = hc_id c ∧ ht_applied_at_ms t = now ∧ ht_actor t = actor a ∧
        (∀ u, u ∈ hh_transitions h → ht_command_id u ≠ hc_id c) ∧
        hp_with_status (handoff_projection h') (hh_status h) = handoff_projection h
  | _ => h' = h
  end.
Proof.
  split; [by apply valid_lifecycle|]. destruct res as [[]|x].
  - apply handoff_apply_applied in Ha as (d & [s k] & n & Had & Hv' & _ & ->). split; [exact Hv'|].
    destruct (admitted_moves _ _ _ _ _ _ Hv Had) as (_ & _ & Hc & _ & Hm).
    exists (next_transition h k c d now a). split_and!; try done.
    exact (proj2 (handoff_recognizes_false _ _ _ (hd_new _ _ _ _ _ _ Had))).
  - by apply handoff_apply_other in Ha as ->.
  - by apply handoff_apply_other in Ha as ->.
Qed.

(** ** Fencing and idempotence *)

(** One call of [apply], with any command, clock and authority. *)
Definition handoff_step (h h' : HumanHandoff) : Prop :=
  ∃ c now a res, handoff_apply c now a h = (h', res).

(** The claim a command of the owner names. *)
Definition owner_claim (k : HumanHandoffCommandKind) : option HumanHandoffClaimId :=
  match k with
  | HkRenewClaim id _ | HkReleaseClaim id _ | HkResolve id _ _ => Some id
  | _ => None
  end.

(** The claim was made and is no longer the current one. *)
Definition claim_settled (h : HumanHandoff) (id : HumanHandoffClaimId) : Prop :=
  existsb (claims_under id) (hh_transitions h) = true ∧
  ∀ claim, hh_status h = HClaimed claim → hl_id claim ≠ id.

Lemma handoff_called h h' :
  handoff_step h h' → h' = h ∨
  ∃ c now a digest p charge, handoff_admitted h c now a digest p ∧
    handoff_validate (next_handoff h p c digest now a) = Ok () ∧
    h' = handoff_with_charge (next_handoff h p c digest now a) charge.
Proof.
  intros (c & now & a & res & Ha). destruct res as [[]|x].
  - apply handoff_apply_applied in Ha as (d & p & n & Had & Hv & _ & ->). right. eauto 10.
  - left. by eapply handoff_apply_other.
  - left. by eapply handoff_apply_other.
Qed.

Lemma owner_command_claim h k now actor p id :
  handoff_apply_kind h k now actor = Ok p → owner_claim k = Some id →
  ∃ claim, hh_status h = HClaimed claim ∧ hl_id claim = id ∧ hl_owner claim = actor ∧
    (now < hl_expires_at_ms claim)%Z.
Proof.
  unfold handoff_apply_kind. intros Hk Hw. destruct k; simplify_eq/=; inv_ok;
    match goal with H : active_owned_claim _ _ _ _ _ = _ |- _ => apply active_owned_claim_ok in H end;
    eauto.
Qed.

Lemma expire_command_claim h id now actor p :
  handoff_apply_kind h (HkExpireClaim id) now actor = Ok p →
  ∃ claim, hh_status h = HClaimed claim ∧ hl_id claim = id ∧ (hl_expires_at_ms claim ≤ now)%Z ∧
    p.1 = HQueued.
Proof.
  simpl. intros Hk. destruct (hh_status h) as [|claim| |]; try done. inv_ok. bool_hyps. subst.
  match goal with H : ¬ (_ ≠ _) |- _ => apply dec_stable in H end. eauto.
Qed.

(** A claim, or no new one. *)
Lemma apply_kind_claim h k now actor s t claim :
  handoff_apply_kind h k now actor = Ok (s, t) → s = HClaimed claim →
  (∃ claim0, hh_status h = HClaimed claim0 ∧ hl_id claim0 = hl_id claim) ∨
  validate_new_claim_id (hh_transitions h) (hl_id claim) = Ok ().
Proof.
  unfold handoff_apply_kind. intros Hk ->. destruct k; inv_ok; try discriminate.
  - destruct (hh_status h); try done. inv_ok. subst. simpl. by right.
  - match goal with H : active_owned_claim _ _ _ _ _ = _ |- _ => apply active_owned_claim_ok in H as (-> & _) end.
    subst. left. eauto.
  - by destruct (hh_status h); inv_ok.
Qed.

Lemma claim_settled_step h h' id : claim_settled h id → handoff_step h h' → claim_settled h' id.
Proof.
  intros [Hs Hc] [->|(c & now & a & d & [s k] & n & Had & _ & ->)]%handoff_called; [by split|].
  pose proof (hd_kind _ _ _ _ _ _ Had) as Hk. split; simpl.
  - by rewrite existsb_app, Hs.
  - intros claim -> E. destruct (apply_kind_claim _ _ _ _ _ _ _ Hk eq_refl) as [(l0 & Hl0 & E0)|Hn].
    + apply (Hc _ Hl0). congruence.
    + unfold validate_new_claim_id in Hn. inv_ok. rewrite E in *. congruence.
Qed.

(** Claims fence their owners: renewing, releasing and resolving take effect
    only for the owner of the current claim and strictly before its lease
    ends, expiring only at or after that time and back to the queue; a claim
    that was released, expired or replaced is refused then and ever after; and
    no call changes a resolved or cancelled case. *)
Theorem handoff_fencing (h : HumanHandoff) :
  (∀ c now a h' id, handoff_apply c now a h = (h', Ok HandoffApplied) →
     owner_claim (hc_kind c) = Some id →
     ∃ claim, hh_status h = HClaimed claim ∧ hl_id claim = id ∧ hl_owner claim = actor a ∧
       (now < hl_expires_at_ms claim)%Z) ∧
  (∀ c now a h' id, handoff_apply c now a h = (h', Ok HandoffApplied) →
     hc_kind c = HkExpireClaim id →
     ∃ claim, hh_status h = HClaimed claim ∧ hl_id claim = id ∧ (hl_expires_at_ms claim ≤ now)%Z ∧
       hh_status h' = HQueued) ∧
  (∀ id h1, claim_settled h id → rtc handoff_step h h1 →
     ∀ c now a h2, owner_claim (hc_kind c) = Some id ∨ hc_kind c = HkExpireClaim id →
       handoff_apply c now a h1 ≠ (h2, Ok HandoffApplied)) ∧
  (handoff_terminal (hh_status h) = true → ∀ h1, rtc handoff_step h h1 → h1 = h).
Proof.
  split_and!.
  - intros c now a h' id (d & p & n & Had & _)%handoff_apply_applied Hw.
    by eapply owner_command_claim, Hw; apply (hd_kind _ _ _ _ _ _ Had).
  - intros c now a h' id (d & p & n & Had & _ & _ & ->)%handoff_apply_applied Hk.
    pose proof (hd_kind _ _ _ _ _ _ Had) as Ha. rewrite Hk in Ha. by apply expire_command_claim in Ha.
  - intros id h1 Hl Hsteps c now a h2 Hc (d & p & n & Had & _)%handoff_apply_applied.
    assert (claim_settled h1 id) as [_ Hno].
    { induction Hsteps as [|h h0 h1 Hs _ IH]; [done|]. eauto using claim_settled_step. }
    pose proof (hd_kind _ _ _ _ _ _ Had) as Hk. destruct Hc as [Hw|Hx].
    + destruct (owner_command_claim _ _ _ _ _ _ Hk Hw) as (claim & Hst & E & _). by eapply Hno.
    + rewrite Hx in Hk. apply expire_command_claim in Hk as (claim & Hst & E & _). by eapply Hno.
  - intros Ht h1 Hsteps. induction Hsteps as [|h h0 h1 Hs _ IH]; [done|].
    apply handoff_called in Hs as [->|(c & now & a & d & p & n & Had & _)]; [auto|].
    pose proof (apply_kind_open _ _ _ _ _ (hd_kind _ _ _ _ _ _ Had)). congruence.
Qed.
End safety.
