(* ===== verification/HandoffCoordinator.v ===== *)
(** The atomic persistence and the queues of Human Handoffs, from
    src/src/human_handoff/coordinator.rs: revisioned snapshots, the
    [HumanHandoffCoordinator] trait, its in-memory and its SQLite
    implementation, queue pages, the scan for expired claims and the schema
    check; and the engine of src/src/human_handoff/engine.rs. *)

From Stdlib Require Import ZArith Lia.
From stdpp Require Import sorting base tactics list gmap relations numbers strings option.
From stdpp Require Import list.
From S2P Require Import Prelude Kernel Digest Json Sqlite Pairs Handoff.

Definition HUMAN_HANDOFF_SCHEMA_VERSION : Z := 1.
Definition MAX_HANDOFF_PAGE : Z := 256.
Definition MAX_HANDOFF_STATUS_BYTES : Z := 9.

Record HumanHandoffCursor := {
  qc_priority : Z;
  qc_requested_at_ms : Z;
  qc_handoff_id : HumanHandoffId;
}.

#[global] Instance HumanHandoffCursor_eq : EqDecision HumanHandoffCursor.
Proof. solve_decision. Defined.

Record HumanHandoffSnapshot := {
  hs_id : HumanHandoffId;
  hs_tenant_id : option str;
  hs_revision : Z;
  hs_handoff : HumanHandoff;
}.

#[global] Instance HumanHandoffSnapshot_eq : EqDecision HumanHandoffSnapshot.
Proof. solve_decision. Defined.

Record HumanHandoffPage := {
  hq_handoffs : list HumanHandoffSnapshot;
  hq_next_cursor : option HumanHandoffCursor;
  hq_has_more : bool;
}.

Record HumanHandoffCommandResult := {
  hcr_snapshot : HumanHandoffSnapshot;
  hcr_outcome : HumanHandoffApplyOutcome;
}.

Record HumanHandoffDueClaim := {
  hdc_handoff_id : HumanHandoffId;
  hdc_tenant_id : option str;
  hdc_revision : Z;
  hdc_claim_id : HumanHandoffClaimId;
  hdc_expires_at_ms : Z;
}.

Record HumanHandoffDueScanPage := {
  hdp_due : list HumanHandoffDueClaim;
  hdp_next_after_handoff_id : option HumanHandoffId;
  hdp_has_more : bool;
  hdp_scanned : Z;
}.

(** * The trait *)

Class HumanHandoffCoordinator (W : Type) := {
  handoff_create_as :
    HumanHandoffId → HumanHandoffCreateRequest → Z → AuthorityContext → M W HumanHandoffSnapshot;
  handoff_load_as : HumanHandoffId → AuthorityContext → M W (option HumanHandoffSnapshot);
  handoff_list_queued_as :
    str → option HumanHandoffCursor → Z → AuthorityContext → M W HumanHandoffPage;
  handoff_scan_due_as :
    Z → option HumanHandoffId → Z → AuthorityContext → M W HumanHandoffDueScanPage;
  handoff_apply_as :
    HumanHandoffId → Z → HumanHandoffCommand → Z → AuthorityContext → M W HumanHandoffCommandResult;
}.

(** The trait's default methods: the unscoped operations act as the local
    process, and a coordinator without temporal discovery refuses to scan. *)
Definition handoff_scan_unsupported {W} (at_ms : Z) (after : option HumanHandoffId) (scan_limit : Z)
    (authority : AuthorityContext) : M W HumanHandoffDueScanPage :=
  lift (Err (hhe "Human Handoff Coordinator does not support temporal discovery" [])).

Section defaults.
Context {W : Type} `{HumanHandoffCoordinator W}.
Definition handoff_create (handoff_id : HumanHandoffId) (request : HumanHandoffCreateRequest)
    (applied_at_ms : Z) : M W HumanHandoffSnapshot :=
  handoff_create_as handoff_id request applied_at_ms local_process.
Definition handoff_load (handoff_id : HumanHandoffId) : M W (option HumanHandoffSnapshot) :=
  handoff_load_as handoff_id local_process.
Definition handoff_list_queued (queue : str) (after : option HumanHandoffCursor) (limit : Z)
    : M W HumanHandoffPage := handoff_list_queued_as queue after limit local_process.
Definition handoff_scan_due (at_ms : Z) (after : option HumanHandoffId) (scan_limit : Z)
    : M W HumanHandoffDueScanPage := handoff_scan_due_as at_ms after scan_limit local_process.
Definition handoff_apply_local (handoff_id : HumanHandoffId) (expected_revision : Z)
    (command : HumanHandoffCommand) (applied_at_ms : Z) : M W HumanHandoffCommandResult :=
  handoff_apply_as handoff_id expected_revision command applied_at_ms local_process.
End defaults.

(** * Shared checks *)

Definition validate_handoff_access (handoff_id : HumanHandoffId) (authority : AuthorityContext)
    : result () :=
  _ ← authority_validate_current authority "Human Handoff Coordinator authority";
  handoff_validate_identity "Human Handoff" handoff_id.

Definition validate_handoff_list (queue : str) (after : option HumanHandoffCursor) (limit : Z)
    (authority : AuthorityContext) : result () :=
  _ ← authority_validate_current authority "Human Handoff list authority";
  _ ← handoff_validate_application_time
        (match after with Some cursor => qc_requested_at_ms cursor | None => 1 end);
  _ ← validate_capability_name "Human Handoff queue" queue;
  _ ← match after with
      | Some cursor =>
          _ ← handoff_validate_identity "Human Handoff cursor" (qc_handoff_id cursor);
          _ ← i64_try_from (qc_requested_at_ms cursor)
                (hhe "Human Handoff cursor time exceeds SQLite" []);
          Ok ()
      | None => Ok ()
      end;
  reject_if (negb (in_range 1 MAX_HANDOFF_PAGE limit))
    (hhe "Human Handoff page limit must be 1-{}" [ANum MAX_HANDOFF_PAGE]).

Definition handoff_validate_due_scan (at_ms : Z) (after_handoff_id : option HumanHandoffId)
    (scan_limit : Z) (authority : AuthorityContext) : result () :=
  _ ← authority_validate_current authority "Human Handoff temporal scan authority";
  _ ← handoff_validate_application_time at_ms;
  _ ← match after_handoff_id with
      | Some handoff_id => handoff_validate_identity "Human Handoff scan cursor" handoff_id
      | None => Ok ()
      end;
  reject_if (negb (in_range 1 MAX_HANDOFF_PAGE scan_limit))
    (hhe "Human Handoff scan limit must be 1-{}" [ANum MAX_HANDOFF_PAGE]).

Definition handoff_validate_expected_revision (revision : Z) : result () :=
  reject_if (revision =? 0)%Z (hhe "Human Handoff revision must be positive" []).

(** What the [filter_map] of [due_page_from_scan] keeps of one snapshot. *)
Definition due_claim (at_ms : Z) (s : HumanHandoffSnapshot) : option HumanHandoffDueClaim :=
  match hh_status (hs_handoff s) with
  | HClaimed claim =>
      if (hl_expires_at_ms claim <=? at_ms)%Z
      then Some {| hdc_handoff_id := hs_id s; hdc_tenant_id := hs_tenant_id s;
                   hdc_revision := hs_revision s; hdc_claim_id := hl_id claim;
                   hdc_expires_at_ms := hl_expires_at_ms claim |}
      else None
  | _ => None
  end.

Definition handoff_due_page (visited : list HumanHandoffSnapshot) (scan_limit at_ms : Z)
    : HumanHandoffDueScanPage :=
  let has_more := (scan_limit <? len visited)%Z in
  let visited := take (Z.to_nat scan_limit) visited in
  {| hdp_due := omap (due_claim at_ms) visited;
     hdp_next_after_handoff_id := hs_id <$> vec_last visited;
     hdp_has_more := has_more;
     hdp_scanned := len visited |}.

Definition handoff_cursor (s : HumanHandoffSnapshot) : HumanHandoffCursor :=
  {| qc_priority := hh_priority (hs_handoff s);
     qc_requested_at_ms := hh_requested_at_ms (hs_handoff s);
     qc_handoff_id := hs_id s |}.

(** [page_from_candidates]. *)
Definition handoff_page (candidates : list HumanHandoffSnapshot) (limit : Z) : HumanHandoffPage :=
  let has_more := (limit <? len candidates)%Z in
  let candidates := take (Z.to_nat limit) candidates in
  {| hq_handoffs := candidates; hq_next_cursor := handoff_cursor <$> vec_last candidates;
     hq_has_more := has_more |}.

Definition handoff_comes_after (s : HumanHandoffSnapshot) (cursor : HumanHandoffCursor) : bool :=
  let priority := hh_priority (hs_handoff s) in
  let time := hh_requested_at_ms (hs_handoff s) in
  (priority <? qc_priority cursor)%Z
  || (priority =? qc_priority cursor)%Z
     && ((qc_requested_at_ms cursor <? time)%Z
         || (time =? qc_requested_at_ms cursor)%Z
            && negb (str_leb (hs_id s) (qc_handoff_id cursor))).

(** Priority descending, request time ascending, identity ascending. *)
Definition cursor_order (l r : HumanHandoffCursor) : comparison :=
  then_with (qc_priority r ?= qc_priority l)%Z
    (then_with (qc_requested_at_ms l ?= qc_requested_at_ms r)%Z
       (str_cmp (qc_handoff_id l) (qc_handoff_id r))).

Definition queue_order (l r : HumanHandoffSnapshot) : comparison :=
  cursor_order (handoff_cursor l) (handoff_cursor r).

(** Not after, in the order of the cursors. *)
Definition cursor_le {A} (cursor : A → HumanHandoffCursor) (x y : A) : Prop :=
  cursor_order (cursor x) (cursor y) ≠ Gt.
#[global] Instance cursor_le_dec {A} (cursor : A → HumanHandoffCursor) :
  RelDecision (cursor_le cursor).
Proof. intros x y. unfold cursor_le. apply _. Defined.

(** The sort of [sort_by(queue_order)] and of [ORDER BY]. *)
Definition cursor_sort {A} (cursor : A → HumanHandoffCursor) : list A → list A :=
  merge_sort (cursor_le cursor).
Definition queue_sort : list HumanHandoffSnapshot → list HumanHandoffSnapshot :=
  cursor_sort handoff_cursor.

Definition handoff_status_name (s : HumanHandoffStatus) : str :=
  match s with
  | HQueued => lit "queued"
  | HClaimed _ => lit "claimed"
  | HResolved _ _ => lit "resolved"
  | HCancelled _ => lit "cancelled"
  end.

Definition handoff_key (handoff_id : HumanHandoffId) (tenant : option str) : str * HumanHandoffId :=
  (tenant_storage_key tenant, handoff_id).

Definition missing_handoff (handoff_id : HumanHandoffId) : HarnessError :=
  hhe "Human Handoff {} does not exist" [AStr handoff_id].
Definition handoff_differs (handoff_id : HumanHandoffId) : HarnessError :=
  hhe "Human Handoff {} already exists with different actor or creation content" [AStr handoff_id].

(** [matches!(snapshot.handoff.status(), Queued)], in the queue. *)
Definition queued_in (queue : str) (s : HumanHandoffSnapshot) : bool :=
  bool_decide (hh_queue (hs_handoff s) = queue)
  && match hh_status (hs_handoff s) with HQueued => true | _ => false end.

(** [after.is_none_or(|cursor| comes_after(snapshot, cursor))]. *)
Definition after_page (after : option HumanHandoffCursor) (s : HumanHandoffSnapshot) : bool :=
  match after with Some cursor => handoff_comes_after s cursor | None => true end.

(** * The stores *)

Abbreviation MemoryHandoffs := (gmap (str * HumanHandoffId) HumanHandoffSnapshot).

(** A row of [human_handoffs]; its primary key is the key of the map. *)
Record HandoffRow := {
  hx_schema_version : Z;
  hx_revision : Z;
  hx_queue : str;
  hx_priority : Z;
  hx_requested_at_ms : Z;
  hx_status : str;
  hx_handoff_json : str;
}.

Abbreviation HandoffTable := (gmap (str * str) HandoffRow).
Abbreviation SqliteHandoffs := (Connection HandoffTable).

(** [sql_error]. *)
Definition handoff_sql (m : message) : HarnessError := Prelude.HumanHandoff m.

Definition handoff_sql_revision (revision : Z) : result Z :=
  i64_try_from revision (hhe "Handoff revision exceeds SQLite" []).
Definition handoff_sql_time (value : Z) : result Z :=
  i64_try_from value (hhe "Handoff time exceeds SQLite" []).

Section coordinator.
Context `{!Serialize (HandoffAttributed HumanHandoffCreateRequest),
          !Serialize (HandoffAttributed HumanHandoffCommand), !Serialize HumanHandoffCommand,
          !Serialize HumanHandoffWire, !Deserialize HumanHandoffWire, sha : !Sha256}.

(** * [MemoryHumanHandoffCoordinator] *)

Definition mem_handoff_create_as (handoff_id : HumanHandoffId) (request : HumanHandoffCreateRequest)
    (applied_at_ms : Z) (authority : AuthorityContext) : M MemoryHandoffs HumanHandoffSnapshot :=
  _ ← lift (validate_handoff_access handoff_id authority);
  handoffs ← (get : M MemoryHandoffs MemoryHandoffs);
  let key := handoff_key handoff_id (tenant_id authority) in
  match handoffs !! key with
  | Some existing =>
      matches ← lift (handoff_create_matches (hs_handoff existing) request (actor authority));
      if (matches : bool) then mret existing else lift (Err (handoff_differs handoff_id))
  | None =>
      handoff ← lift (HumanHandoff_new request applied_at_ms authority);
      let snapshot := {| hs_id := handoff_id; hs_tenant_id := tenant_id authority;
                         hs_revision := 1; hs_handoff := handoff |} in
      _ ← put (<[key := snapshot]> handoffs);
      mret snapshot
  end.

Definition mem_handoff_load_as (handoff_id : HumanHandoffId) (authority : AuthorityContext)
    : M MemoryHandoffs (option HumanHandoffSnapshot) :=
  _ ← lift (validate_handoff_access handoff_id authority);
  handoffs ← (get : M MemoryHandoffs MemoryHandoffs);
  mret (handoffs !! handoff_key handoff_id (tenant_id authority)).

Definition mem_handoff_list_queued_as (queue : str) (after : option HumanHandoffCursor) (limit : Z)
    (authority : AuthorityContext) : M MemoryHandoffs HumanHandoffPage :=
  _ ← lift (validate_handoff_list queue after limit authority);
  let tenant := tenant_storage_key (tenant_id authority) in
  handoffs ← (get : M MemoryHandoffs MemoryHandoffs);
  let candidates := List.filter (λ s,
    bool_decide (tenant_storage_key (hs_tenant_id s) = tenant)
    && queued_in queue s && after_page after s) (pairs_iter handoffs).*2 in
  mret (handoff_page (queue_sort candidates) limit).

Definition mem_handoff_scan_due_as (at_ms : Z) (after_handoff_id : option HumanHandoffId)
    (scan_limit : Z) (authority : AuthorityContext) : M MemoryHandoffs HumanHandoffDueScanPage :=
  _ ← lift (handoff_validate_due_scan at_ms after_handoff_id scan_limit authority);
  handoffs ← (get : M MemoryHandoffs MemoryHandoffs);
  let visited := take (Z.to_nat (saturating_add usize_max scan_limit 1))
    (range_after handoffs (tenant_storage_key (tenant_id authority)) after_handoff_id) in
  mret (handoff_due_page visited scan_limit at_ms).

(** [handoff.apply(..)] on a copy of the Handoff. *)
Definition handoff_apply_copy (handoff : HumanHandoff) (command : HumanHandoffCommand)
    (applied_at_ms : Z) (authority : AuthorityContext)
    : result (HumanHandoff * HumanHandoffApplyOutcome) :=
  match handoff_apply command applied_at_ms authority handoff with
  | (handoff', Ok outcome) => Ok (handoff', outcome)
  | (_, Err e) => Err e
  end.

Definition mem_handoff_apply_as (handoff_id : HumanHandoffId) (expected_revision : Z)
    (command : HumanHandoffCommand) (applied_at_ms : Z) (authority : AuthorityContext)
    : M MemoryHandoffs HumanHandoffCommandResult :=
  _ ← lift (validate_handoff_access handoff_id authority);
  _ ← lift (handoff_validate_expected_revision expected_revision);
  let key := handoff_key handoff_id (tenant_id authority) in
  handoffs ← (get : M MemoryHandoffs MemoryHandoffs);
  current ← lift (ok_or (handoffs !! key) (missing_handoff handoff_id));
  recognized ← lift (handoff_recognizes_command (hs_handoff current) command (actor authority));
  if (recognized : bool)
  then mret {| hcr_snapshot := current; hcr_outcome := HandoffDuplicate |}
  else
    _ ← lift (reject_if (negb (hs_revision current =? expected_revision)%Z)
                (HumanHandoffConflict handoff_id expected_revision (hs_revision current)));
    p ← lift (handoff_apply_copy (hs_handoff current) command applied_at_ms authority);
    revision ← lift (ok_or (checked_add u64_max (hs_revision current) 1)
                       (hhe "Human Handoff revision overflow" []));
    let saved := {| hs_id := hs_id current; hs_tenant_id := hs_tenant_id current;
                    hs_revision := revision; hs_handoff := p.1 |} in
    _ ← put (<[key := saved]> handoffs);
    mret {| hcr_snapshot := saved; hcr_outcome := p.2 |}.

#[global] Instance MemoryHumanHandoffCoordinator : HumanHandoffCoordinator MemoryHandoffs := {|
  handoff_create_as := mem_handoff_create_as;
  handoff_load_as := mem_handoff_load_as;
  handoff_list_queued_as := mem_handoff_list_queued_as;
  handoff_scan_due_as := mem_handoff_scan_due_as;
  handoff_apply_as := mem_handoff_apply_as;
|}.

(** * [SqliteHumanHandoffCoordinator] *)

Definition encode_handoff (handoff : HumanHandoff) : result str :=
  _ ← handoff_validate handoff;
  encoded ← ok_or (to_json (handoff_wire handoff)) (hhe "cannot encode Human Handoff" []);
  _ ← reject_if (MAX_HANDOFF_JSON_BYTES <? str_len encoded)%Z
        (hhe "Human Handoff exceeds {} encoded bytes" [ANum MAX_HANDOFF_JSON_BYTES]);
  Ok encoded.

(** The bounded texts of the columns, in column order. *)
Definition read_handoff_columns (row : HandoffRow) : result () :=
  let text maximum kind value := bounded_text handoff_sql maximum kind value in
  _ ← text MAX_HANDOFF_QUEUE_BYTES "Human Handoff queue"%string (hx_queue row);
  _ ← text MAX_HANDOFF_STATUS_BYTES "Human Handoff status"%string (hx_status row);
  _ ← text MAX_HANDOFF_JSON_BYTES "Human Handoff"%string (hx_handoff_json row);
  Ok ().

(** A row of the paging queries, which also select the identity. *)
Definition read_handoff_row (p : HumanHandoffId * HandoffRow) : result (HumanHandoffId * HandoffRow) :=
  _ ← bounded_text handoff_sql MAX_HANDOFF_IDENTITY_BYTES "Human Handoff identity"%string p.1;
  _ ← read_handoff_columns p.2;
  Ok p.

(** [decode_snapshot]. *)
Definition decode_handoff_row (tenant : option str) (p : HumanHandoffId * HandoffRow)
    : result HumanHandoffSnapshot :=
  let row := p.2 in
  _ ← reject_if (negb (hx_schema_version row =? HUMAN_HANDOFF_SCHEMA_VERSION)%Z)
        (hhe "Human Handoff {} uses unsupported schema {}" [AStr p.1; ANum (hx_schema_version row)]);
  revision ← u64_try_from (hx_revision row) (hhe "invalid Handoff revision" []);
  _ ← handoff_validate_expected_revision revision;
  _ ← reject_if (negb (in_range 0 255 (hx_priority row))) (hhe "invalid Handoff priority" []);
  requested_at_ms ← u64_try_from (hx_requested_at_ms row) (hhe "invalid Handoff request time" []);
  wire ← ok_or (from_json (hx_handoff_json row) : option HumanHandoffWire)
           (hhe "decode Human Handoff: {}" []);
  handoff ← ok_or (handoff_deserialize wire) (hhe "decode Human Handoff: {}" []);
  _ ← handoff_validate handoff;
  _ ← reject_if (bool_decide (hh_queue handoff ≠ hx_queue row)
                 || negb (hh_priority handoff =? hx_priority row)%Z
                 || negb (hh_requested_at_ms handoff =? requested_at_ms)%Z
                 || bool_decide (handoff_status_name (hh_status handoff) ≠ hx_status row))
        (hhe "Human Handoff SQLite projection differs from aggregate" []);
  Ok {| hs_id := p.1; hs_tenant_id := tenant; hs_revision := revision; hs_handoff := handoff |}.

(** [load_snapshot]. *)
Definition load_handoff_snapshot (handoff_id : HumanHandoffId) (tenant : option str)
    : M SqliteHandoffs (option HumanHandoffSnapshot) :=
  t ← (select handoff_sql : M SqliteHandoffs HandoffTable);
  match t !! handoff_key handoff_id tenant with
  | None => mret None
  | Some row =>
      _ ← lift (read_handoff_columns row);
      snapshot ← lift (decode_handoff_row tenant (handoff_id, row));
      mret (Some snapshot)
  end.

(** [INSERT INTO human_handoffs]: the constraints of the table, then the new
    table. *)
Definition insert_handoff (key : str * HumanHandoffId) (row : HandoffRow) (t : HandoffTable)
    : option HandoffTable :=
  match t !! key with
  | Some _ => None
  | None =>
      if (0 <? hx_revision row)%Z && in_range 0 255 (hx_priority row)
         && (0 <? hx_requested_at_ms row)%Z
      then Some (<[key := row]> t) else None
  end.

Definition sql_handoff_create_as (handoff_id : HumanHandoffId) (request : HumanHandoffCreateRequest)
    (applied_at_ms : Z) (authority : AuthorityContext) : M SqliteHandoffs HumanHandoffSnapshot :=
  _ ← lift (validate_handoff_access handoff_id authority);
  transaction handoff_sql (
    loaded ← load_handoff_snapshot handoff_id (tenant_id authority);
    match loaded with
    | Some existing =>
        matches ← lift (handoff_create_matches (hs_handoff existing) request (actor authority));
        if (matches : bool) then mret existing else lift (Err (handoff_differs handoff_id))
    | None =>
        handoff ← lift (HumanHandoff_new request applied_at_ms authority);
        encoded ← lift (encode_handoff handoff);
        requested_at_ms ← lift (handoff_sql_time (hh_requested_at_ms handoff));
        s ← (get : M SqliteHandoffs SqliteHandoffs);
        t ← lift (ok_or (insert_handoff (handoff_key handoff_id (tenant_id authority))
               {| hx_schema_version := HUMAN_HANDOFF_SCHEMA_VERSION; hx_revision := 1;
                  hx_queue := hh_queue handoff; hx_priority := hh_priority handoff;
                  hx_requested_at_ms := requested_at_ms;
                  hx_status := handoff_status_name (hh_status handoff);
                  hx_handoff_json := encoded |} (rows s))
               (handoff_sql (fmt "constraint failed" [])));
        _ ← store handoff_sql t;
        mret {| hs_id := handoff_id; hs_tenant_id := tenant_id authority; hs_revision := 1;
                hs_handoff := handoff |}
    end).

Definition sql_handoff_load_as (handoff_id : HumanHandoffId) (authority : AuthorityContext)
    : M SqliteHandoffs (option HumanHandoffSnapshot) :=
  _ ← lift (validate_handoff_access handoff_id authority);
  load_handoff_snapshot handoff_id (tenant_id authority).

(** The key [ORDER BY priority DESC, requested_at_ms ASC, handoff_id ASC]
    sorts by. *)
Definition row_cursor (p : HumanHandoffId * HandoffRow) : HumanHandoffCursor :=
  {| qc_priority := hx_priority p.2; qc_requested_at_ms := hx_requested_at_ms p.2;
     qc_handoff_id := p.1 |}.

(** The parameters the cursor binds. *)
Definition cursor_parameters (after : option HumanHandoffCursor) : result (Z * Z * Z * str) :=
  match after with
  | Some cursor =>
      time ← i64_try_from (qc_requested_at_ms cursor)
               (hhe "Human Handoff cursor time exceeds SQLite" []);
      Ok (1%Z, qc_priority cursor, time, qc_handoff_id cursor)
  | None => Ok (0%Z, 0%Z, 0%Z, [])
  end.

(** The condition on the cursor; [has_cursor] is zero without one. *)
Definition row_after (has_cursor priority time : Z) (id : str) (p : HumanHandoffId * HandoffRow)
    : bool :=
  (has_cursor =? 0)%Z || (hx_priority p.2 <? priority)%Z
  || (hx_priority p.2 =? priority)%Z && (time <? hx_requested_at_ms p.2)%Z
  || (hx_priority p.2 =? priority)%Z && (hx_requested_at_ms p.2 =? time)%Z
     && negb (str_leb p.1 id).

(** The rows of one tenant. *)
Definition tenant_rows (t : HandoffTable) (tenant : str) : list (HumanHandoffId * HandoffRow) :=
  (λ p : (str * str) * HandoffRow, (p.1.2, p.2)) <$>
    List.filter (λ p, bool_decide (p.1.1 = tenant)) (pairs_iter t).

(** Every selected row is read, then every row is decoded. *)
Definition decode_handoff_rows (authority : AuthorityContext)
    (l : list (HumanHandoffId * HandoffRow)) : M SqliteHandoffs (list HumanHandoffSnapshot) :=
  rows ← lift (collect read_handoff_row l);
  lift (collect (decode_handoff_row (tenant_id authority)) rows).

Definition sql_handoff_list_queued_as (queue : str) (after : option HumanHandoffCursor) (limit : Z)
    (authority : AuthorityContext) : M SqliteHandoffs HumanHandoffPage :=
  _ ← lift (validate_handoff_list queue after limit authority);
  fetch ← lift (ok_or (checked_add usize_max limit 1) (hhe "Human Handoff page overflow" []));
  cursor ← lift (cursor_parameters after);
  let '(has_cursor, priority, time, id) := cursor in
  _ ← lift (i64_try_from fetch (hhe "Human Handoff page limit overflow" []));
  t ← (select handoff_sql : M SqliteHandoffs HandoffTable);
  let selected := List.filter (λ p,
    bool_decide (hx_queue p.2 = queue) && bool_decide (hx_status p.2 = lit "queued")
    && row_after has_cursor priority time id p)
    (tenant_rows t (tenant_storage_key (tenant_id authority))) in
  candidates ← decode_handoff_rows authority
                 (take (Z.to_nat fetch) (cursor_sort row_cursor selected));
  mret (handoff_page candidates limit).

Definition sql_handoff_scan_due_as (at_ms : Z) (after_handoff_id : option HumanHandoffId)
    (scan_limit : Z) (authority : AuthorityContext) : M SqliteHandoffs HumanHandoffDueScanPage :=
  _ ← lift (handoff_validate_due_scan at_ms after_handoff_id scan_limit authority);
  fetch ← lift (ok_or (checked_add usize_max scan_limit 1)
                  (hhe "Human Handoff scan limit overflow" []));
  _ ← lift (i64_try_from fetch (hhe "Human Handoff scan limit exceeds SQLite" []));
  t ← (select handoff_sql : M SqliteHandoffs HandoffTable);
  let selected := List.filter (λ p, negb (str_leb p.1 (default [] after_handoff_id)))
    (tenant_rows t (tenant_storage_key (tenant_id authority))) in
  visited ← decode_handoff_rows authority (take (Z.to_nat fetch) selected);
  mret (handoff_due_page visited scan_limit at_ms).

(** [UPDATE .. WHERE key AND revision = expected]. *)
Definition update_handoff (key : str * HumanHandoffId) (expected next : Z) (status json : str)
    (t : HandoffTable) : HandoffTable * Z :=
  match t !! key with
  | Some row =>
      if (hx_revision row =? expected)%Z
      then (<[key := {| hx_schema_version := hx_schema_version row; hx_revision := next;
                        hx_queue := hx_queue row; hx_priority := hx_priority row;
                        hx_requested_at_ms := hx_requested_at_ms row; hx_status := status;
                        hx_handoff_json := json |}]> t, 1%Z)
      else (t, 0%Z)
  | None => (t, 0%Z)
  end.

(** The body of the transaction of [apply_as]. *)
Definition handoff_apply_body (handoff_id : HumanHandoffId) (expected_revision : Z)
    (command : HumanHandoffCommand) (applied_at_ms : Z) (authority : AuthorityContext)
    : M SqliteHandoffs HumanHandoffCommandResult :=
  loaded ← load_handoff_snapshot handoff_id (tenant_id authority);
  current ← lift (ok_or loaded (missing_handoff handoff_id));
  recognized ← lift (handoff_recognizes_command (hs_handoff current) command (actor authority));
  if (recognized : bool)
  then mret {| hcr_snapshot := current; hcr_outcome := HandoffDuplicate |}
  else
    _ ← lift (reject_if (negb (hs_revision current =? expected_revision)%Z)
                (HumanHandoffConflict handoff_id expected_revision (hs_revision current)));
    p ← lift (handoff_apply_copy (hs_handoff current) command applied_at_ms authority);
    revision ← lift (ok_or (checked_add u64_max (hs_revision current) 1)
                       (hhe "Human Handoff revision overflow" []));
    encoded ← lift (encode_handoff p.1);
    next_sql ← lift (handoff_sql_revision revision);
    current_sql ← lift (handoff_sql_revision (hs_revision current));
    s ← (get : M SqliteHandoffs SqliteHandoffs);
    let u := update_handoff (handoff_key handoff_id (tenant_id authority)) current_sql next_sql
               (handoff_status_name (hh_status p.1)) encoded (rows s) in
    _ ← store handoff_sql u.1;
    _ ← lift (reject_if (negb (u.2 =? 1)%Z)
                (hhe "Human Handoff atomic update changed an unexpected row count" []));
    mret {| hcr_snapshot := {| hs_id := handoff_id; hs_tenant_id := hs_tenant_id current;
                               hs_revision := revision; hs_handoff := p.1 |};
            hcr_outcome := p.2 |}.

Definition sql_handoff_apply_as (handoff_id : HumanHandoffId) (expected_revision : Z)
    (command : HumanHandoffCommand) (applied_at_ms : Z) (authority : AuthorityContext)
    : M SqliteHandoffs HumanHandoffCommandResult :=
  _ ← lift (validate_handoff_access handoff_id authority);
  _ ← lift (handoff_validate_expected_revision expected_revision);
  transaction handoff_sql
    (handoff_apply_body handoff_id expected_revision command applied_at_ms authority).

#[global] Instance SqliteHumanHandoffCoordinator : HumanHandoffCoordinator SqliteHandoffs := {|
  handoff_create_as := sql_handoff_create_as;
  handoff_load_as := sql_handoff_load_as;
  handoff_list_queued_as := sql_handoff_list_queued_as;
  handoff_scan_due_as := sql_handoff_scan_due_as;
  handoff_apply_as := sql_handoff_apply_as;
|}.
End coordinator.

(** * The tables of the database file *)

Record HandoffDatabase := {
  hdb_meta : option (list (Z * Z));
  hdb_handoffs : option HandoffTable;
}.

Definition handoff_status_names : list str :=
  [lit "queued"; lit "claimed"; lit "resolved"; lit "cancelled"].

Definition invalid_handoff_row (p : (str * HumanHandoffId) * HandoffRow) : bool :=
  let out_of maximum s := (str_len s =? 0)%Z || (maximum <? str_len s)%Z in
  negb (hx_schema_version p.2 =? HUMAN_HANDOFF_SCHEMA_VERSION)%Z || (hx_revision p.2 <=? 0)%Z
  || (128 <? str_len p.1.1)%Z
  || out_of MAX_HANDOFF_IDENTITY_BYTES p.1.2
  || out_of MAX_HANDOFF_QUEUE_BYTES (hx_queue p.2)
  || negb (in_range 0 255 (hx_priority p.2)) || (hx_requested_at_ms p.2 <=? 0)%Z
  || negb (bool_decide (hx_status p.2 ∈ handoff_status_names))
  || (MAX_HANDOFF_JSON_BYTES <? str_len (hx_handoff_json p.2))%Z.

Definition handoff_validate_store (meta : list (Z * Z)) (t : HandoffTable)
    : M (Connection HandoffDatabase) () :=
  _ ← sql_call handoff_sql;
  _ ← lift (reject_if (bool_decide (meta ≠ [(1, HUMAN_HANDOFF_SCHEMA_VERSION)%Z]))
              (hhe "SQLite Human Handoff store schema is unknown or malformed" []));
  _ ← sql_call handoff_sql;
  lift (reject_if (negb (len (List.filter invalid_handoff_row (pairs_iter t)) =? 0)%Z)
          (hhe "SQLite Human Handoff store contains invalid row metadata" [])).

(** The two [table_exists] queries. *)
Definition handoff_tables_exist : M (Connection HandoffDatabase) HandoffDatabase :=
  _ ← sql_call handoff_sql;
  select handoff_sql.

Definition partial_handoff_store : HarnessError := hhe "SQLite Human Handoff store is partial" [].

Definition handoff_initialize_or_validate : M (Connection HandoffDatabase) () :=
  db ← handoff_tables_exist;
  match hdb_meta db, hdb_handoffs db with
  | None, None =>
      transaction handoff_sql (store handoff_sql
        {| hdb_meta := Some [(1, HUMAN_HANDOFF_SCHEMA_VERSION)%Z]; hdb_handoffs := Some ∅ |})
  | Some meta, Some t => handoff_validate_store meta t
  | _, _ => lift (Err partial_handoff_store)
  end.

Definition handoff_validate_existing_store : M (Connection HandoffDatabase) () :=
  db ← handoff_tables_exist;
  match hdb_meta db, hdb_handoffs db with
  | None, None => mret ()
  | Some meta, Some t => handoff_validate_store meta t
  | _, _ => lift (Err partial_handoff_store)
  end.

(** The durable settings, then the last batch of them. *)
Definition handoff_configure_connection (mode : str) : M (Connection HandoffDatabase) () :=
  _ ← require_wal handoff_sql mode;
  sql_call handoff_sql.

(** [SqliteHumanHandoffCoordinator::open] and [validate_existing]. *)
Definition handoff_sqlite_open (has_parent : bool) (mode : str)
    : M (Connection HandoffDatabase) SqliteHandoffs :=
  _ ← open_file handoff_sql has_parent;
  _ ← handoff_configure_connection mode;
  _ ← handoff_initialize_or_validate;
  c ← (get : M (Connection HandoffDatabase) (Connection HandoffDatabase));
  mret ({| rows := default ∅ (hdb_handoffs (rows c)); faults := faults c |} : SqliteHandoffs).

Definition handoff_validate_existing : M (Connection HandoffDatabase) () :=
  _ ← open_read_only handoff_sql;
  _ ← sql_call handoff_sql;
  handoff_validate_existing_store.

(** * The engine, src/src/human_handoff/engine.rs *)

(** [HumanHandoffSubjectResolver], whose state [V] is not the coordinator's. *)
Class HumanHandoffSubjectResolver (V : Type) :=
  subject_exists : HumanHandoffSubject → AuthorityContext → M V bool.

(** A call of one of the two shared parts of the engine. *)
Definition on_coordinator {W V A} (m : M W A) : M (W * V) A := λ s,
  let (w, r) := m s.1 in ((w, s.2), r).
Definition on_subjects {W V A} (m : M V A) : M (W * V) A := λ s,
  let (v, r) := m s.2 in ((s.1, v), r).

Section engine.
Context {W V : Type} `{!HumanHandoffCoordinator W, !HumanHandoffSubjectResolver V}.

Definition handoff_engine_create_as (handoff_id : HumanHandoffId) (request : HumanHandoffCreateRequest)
    (applied_at_ms : Z) (authority : AuthorityContext) : M (W * V) HumanHandoffSnapshot :=
  exists_subject ← on_subjects (subject_exists (hr_subject request) authority);
  _ ← lift (reject_if (negb exists_subject)
              (hhe "Human Handoff subject does not exist in the authority boundary" []));
  on_coordinator (handoff_create_as handoff_id request applied_at_ms authority).
Definition handoff_engine_load_as (handoff_id : HumanHandoffId) (authority : AuthorityContext)
    : M (W * V) (option HumanHandoffSnapshot) :=
  on_coordinator (handoff_load_as handoff_id authority).
Definition handoff_engine_list_queued_as (queue : str) (after : option HumanHandoffCursor) (limit : Z)
    (authority : AuthorityContext) : M (W * V) HumanHandoffPage :=
  on_coordinator (handoff_list_queued_as queue after limit authority).
Definition handoff_engine_scan_due_as (at_ms : Z) (after : option HumanHandoffId) (scan_limit : Z)
    (authority : AuthorityContext) : M (W * V) HumanHandoffDueScanPage :=
  on_coordinator (handoff_scan_due_as at_ms after scan_limit authority).
Definition handoff_engine_apply_as (handoff_id : HumanHandoffId) (expected_revision : Z)
    (command : HumanHandoffCommand) (applied_at_ms : Z) (authority : AuthorityContext)
    : M (W * V) HumanHandoffCommandResult :=
  on_coordinator (handoff_apply_as handoff_id expected_revision command applied_at_ms authority).

(** The unscoped operations act as the local process. *)
Definition handoff_engine_create (handoff_id : HumanHandoffId) (request : HumanHandoffCreateRequest)
    (applied_at_ms : Z) : M (W * V) HumanHandoffSnapshot :=
  handoff_engine_create_as handoff_id request applied_at_ms local_process.
Definition handoff_engine_load (handoff_id : HumanHandoffId) : M (W * V) (option HumanHandoffSnapshot) :=
  handoff_engine_load_as handoff_id local_process.
Definition handoff_engine_list_queued (queue : str) (after : option HumanHandoffCursor) (limit : Z)
    : M (W * V) HumanHandoffPage := handoff_engine_list_queued_as queue after limit local_process.
Definition handoff_engine_scan_due (at_ms : Z) (after : option HumanHandoffId) (scan_limit : Z)
    : M (W * V) HumanHandoffDueScanPage := handoff_engine_scan_due_as at_ms after scan_limit local_process.
Definition handoff_engine_apply (handoff_id : HumanHandoffId) (expected_revision : Z)
    (command : HumanHandoffCommand) (applied_at_ms : Z) : M (W * V) HumanHandoffCommandResult :=
  handoff_engine_apply_as handoff_id expected_revision command applied_at_ms local_process.
End engine.
