(* ===== verification/HandoffStores.v ===== *)
(** The order of the Human Handoff queues
    (src/src/human_handoff/coordinator.rs): the key the coordinators sort by is
    a total order, and the page that continues from a cursor holds exactly the
    cases the earlier pages left out.

    The contract of a Human Handoff Coordinator, and the proof that the
    in-memory and the SQLite coordinator of
    src/src/human_handoff/coordinator.rs meet it, the latter for every schedule
    of statement failures. *)

From Stdlib Require Import ZArith Lia.
From stdpp Require Import sorting base tactics list gmap relations numbers strings option.
From stdpp Require Import list.
From S2P Require Import Prelude Ordering Kernel Digest Json Sqlite Pairs Handoff HandoffSafety HandoffCoordinator.

(** * The order of the cursors *)

(** Strictly before, in the queue. *)
Definition before (l r : HumanHandoffCursor) : Prop :=
  (qc_priority r < qc_priority l)%Z ∨
  qc_priority r = qc_priority l ∧
    ((qc_requested_at_ms l < qc_requested_at_ms r)%Z ∨
     qc_requested_at_ms l = qc_requested_at_ms r ∧
       str_leb (qc_handoff_id r) (qc_handoff_id l) = false).

Lemma cursor_order_lt l r : cursor_order l r = Lt ↔ before l r.
Proof.
  unfold cursor_order, then_with, before.
  destruct (Z.compare_spec (qc_priority r) (qc_priority l)) as [E|E|E]; [|split; auto; lia|split; [done|lia]].
  destruct (Z.compare_spec (qc_requested_at_ms l) (qc_requested_at_ms r)) as [F|F|F];
    [rewrite str_cmp_lt|..]; split; try done; try (intros [?|[_ [?|[? ?]]]]; lia || done); eauto.
Qed.

Lemma cursor_order_eq l r : cursor_order l r = Eq ↔ l = r.
Proof.
  unfold cursor_order, then_with. destruct l as [p t i], r as [p' t' i']. simpl.
  destruct (Z.compare_spec p' p) as [->|E|E]; [|split; [done|intros [=]; lia]..].
  destruct (Z.compare_spec t t') as [->|E|E]; [|split; [done|intros [=]; lia]..].
  rewrite (cmp_eq (cmp := str_cmp)). naive_solver.
Qed.

Lemma cursor_order_flip l r : cursor_order r l = CompOpp (cursor_order l r).
Proof.
  unfold cursor_order. rewrite (Z.compare_antisym (qc_priority r)),
    (Z.compare_antisym (qc_requested_at_ms l)), (cmp_flip (cmp := str_cmp) (qc_handoff_id l)).
  destruct (_ ?= _)%Z; simpl; [|done..]. destruct (_ ?= _)%Z; simpl; done.
Qed.

Lemma cursor_order_gt l r : cursor_order l r = Gt ↔ before r l.
Proof. rewrite <-cursor_order_lt, (cursor_order_flip l r). by destruct (cursor_order l r). Qed.

#[global] Instance before_trans : Transitive before.
Proof.
  intros a b c [Hab|[E1 [Hab|[E2 Hab]]]] [Hbc|[E3 [Hbc|[E4 Hbc]]]]; unfold before; try lia.
  right. split; [congruence|right]. split; [congruence|]. apply not_true_is_false. intros H.
  destruct (str_leb_total (qc_handoff_id b) (qc_handoff_id a)); [congruence|].
  assert (str_leb (qc_handoff_id c) (qc_handoff_id b) = true) by (by eapply str_leb_trans). congruence.
Qed.

Lemma before_irrefl c : ¬ before c c.
Proof. unfold before. rewrite str_leb_refl. intros [?|[_ [?|[_ ?]]]]; lia || done. Qed.

Lemma before_cases l r : before l r ∨ l = r ∨ before r l.
Proof.
  rewrite <-cursor_order_lt, <-cursor_order_gt, <-cursor_order_eq.
  destruct (cursor_order l r); auto.
Qed.

Lemma cursor_le_iff {A} (cursor : A → HumanHandoffCursor) x y :
  cursor_le cursor x y ↔ ¬ before (cursor y) (cursor x).
Proof. unfold cursor_le. by rewrite cursor_order_gt. Qed.

#[global] Instance cursor_total_cmp : TotalCmp cursor_order.
Proof.
  split; [apply cursor_order_eq|apply cursor_order_flip|].
  intros a b c. rewrite !cursor_order_lt. apply before_trans.
Qed.

Lemma comes_after_iff s c : handoff_comes_after s c = true ↔ before c (handoff_cursor s).
Proof.
  unfold handoff_comes_after, before, handoff_cursor. simpl.
  rewrite orb_true_iff, andb_true_iff, orb_true_iff, andb_true_iff, negb_true_iff, !Z.ltb_lt, !Z.eqb_eq.
  naive_solver.
Qed.

(** * Sorting by the cursor *)

Section sort.
Context {A : Type} (cursor : A → HumanHandoffCursor).
Implicit Types l : list A.

Lemma cursor_sort_perm l : cursor_sort cursor l ≡ₚ l.
Proof. exact (key_sort_perm cursor_order cursor l). Qed.

Lemma cursor_sort_sorted l : StronglySorted (cursor_le cursor) (cursor_sort cursor l).
Proof. exact (key_sort_sorted cursor_order cursor l). Qed.

(** With distinct cursors there is one sorted arrangement. *)
Lemma cursor_sorted_unique l l' :
  StronglySorted (cursor_le cursor) l → StronglySorted (cursor_le cursor) l' →
  NoDup (cursor <$> l) → l ≡ₚ l' → l = l'.
Proof. exact (key_sorted_unique cursor_order cursor l l'). Qed.

(** A sorted list with distinct cursors is strictly sorted. *)
Lemma cursor_sorted_strict l :
  StronglySorted (cursor_le cursor) l → NoDup (cursor <$> l) →
  StronglySorted (λ x y, before (cursor x) (cursor y)) l.
Proof.
  intros Hs Hnd. pose proof (key_sorted_strict cursor_order cursor l Hs Hnd) as H.
  clear Hs Hnd. induction H as [|x k _ IH Hx]; constructor; [by apply IH|].
  eapply Forall_impl; [exact Hx|]. intros y. by apply cursor_order_lt.
Qed.
End sort.

Lemma cursor_sort_Forall2 {A B} (f : A → HumanHandoffCursor) (g : B → HumanHandoffCursor)
    (P : A → B → Prop) (HP : ∀ x y, P x y → f x = g y) l k :
  NoDup (g <$> k) → Forall2 P l k → Forall2 P (cursor_sort f l) (cursor_sort g k).
Proof. exact (key_sort_Forall2 cursor_order f g P HP l k). Qed.

(** * The queue of a tenant *)

Abbreviation Handoffs := (gmap (str * HumanHandoffId) HumanHandoffSnapshot).

(** The queued cases of a queue after a cursor, in queue order. *)
Definition queued_after (v : Handoffs) (tenant queue : str) (after : option HumanHandoffCursor)
    : list HumanHandoffSnapshot :=
  queue_sort (List.filter (λ s, queued_in queue s && after_page after s) (values_after v tenant None)).

Lemma elem_of_queued_after v tenant queue after sn :
  sn ∈ queued_after v tenant queue after ↔
  (∃ id, v !! (tenant, id) = Some sn) ∧ queued_in queue sn = true ∧ after_page after sn = true.
Proof.
  unfold queued_after, queue_sort. rewrite cursor_sort_perm, list_elem_of_In, filter_In,
    <-list_elem_of_In, elem_of_values_after, andb_true_iff. naive_solver.
Qed.

Section queue.
Context (v : Handoffs) (Hself : self_keyed hs_id v).

Lemma values_cursors tenant after : NoDup (handoff_cursor <$> values_after v tenant after).
Proof using Hself.
  apply (NoDup_fmap_1 qc_handoff_id). rewrite <-list_fmap_compose.
  exact (values_after_ids hs_id v tenant after Hself).
Qed.

Lemma filtered_cursors tenant after (p : HumanHandoffSnapshot → bool) :
  NoDup (handoff_cursor <$> List.filter p (values_after v tenant after)).
Proof using Hself.
  eapply sublist_NoDup; [apply (values_cursors tenant after)|]. apply fmap_sublist, filter_sublist.
Qed.

Lemma queued_after_strict tenant queue after :
  StronglySorted (λ x y, before (handoff_cursor x) (handoff_cursor y))
    (queued_after v tenant queue after).
Proof using Hself.
  apply cursor_sorted_strict; [apply cursor_sort_sorted|]. unfold queued_after, queue_sort.
  rewrite cursor_sort_perm. apply filtered_cursors.
Qed.

(** Continuing after the last case of a page gives exactly the rest. *)
Lemma queued_after_cursor tenant queue after visited rest sn :
  queued_after v tenant queue after = (visited ++ [sn]) ++ rest →
  queued_after v tenant queue (Some (handoff_cursor sn)) = rest.
Proof using Hself.
  intros E. pose proof (queued_after_strict tenant queue after) as Hs. rewrite E in Hs.
  pose proof Hs as (Hx & Hs1 & Hrest)%StronglySorted_app. apply StronglySorted_app in Hs1 as (Hy & _ & _).
  assert (sn ∈ queued_after v tenant queue after) as Hsn by (rewrite E; set_solver).
  apply elem_of_queued_after in Hsn as (_ & _ & Ha).
  assert (rest = List.filter (λ s, handoff_comes_after s (handoff_cursor sn))
    (queued_after v tenant queue after)) as Hrest_eq.
  { rewrite E, !List.filter_app, (filter_none _ visited), (filter_all _ rest).
    - simpl. destruct (handoff_comes_after sn _) eqn:F; [|done].
      apply comes_after_iff in F. by apply before_irrefl in F.
    - intros x Hin. apply comes_after_iff. apply Hx; [set_solver|done].
    - intros x Hin. apply not_true_is_false. rewrite comes_after_iff. intros H.
      eapply before_irrefl, before_trans; [exact H|]. apply Hy; [done|set_solver]. }
  apply (cursor_sorted_unique handoff_cursor).
  - apply cursor_sort_sorted.
  - rewrite Hrest_eq. apply StronglySorted_filter, cursor_sort_sorted.
  - unfold queued_after, queue_sort. rewrite cursor_sort_perm. apply filtered_cursors.
  - rewrite Hrest_eq. unfold queued_after, queue_sort. rewrite cursor_sort_perm.
    rewrite (filter_perm _ _ _ (cursor_sort_perm _ _)), filter_filter_and.
    erewrite filter_ext; [done|]. intros s. simpl. destruct (handoff_comes_after s _) eqn:F; simpl;
      [|by rewrite andb_false_r].
    rewrite andb_true_r. destruct after as [c|]; simpl; [|by rewrite andb_true_r].
    assert (handoff_comes_after s c = true) as ->; [|by rewrite andb_true_r].
    apply comes_after_iff. simpl in Ha. apply comes_after_iff in Ha, F. by etrans.
Qed.
End queue.

Definition first_handoff (id : HumanHandoffId) (a : AuthorityContext) (h : HumanHandoff)
    : HumanHandoffSnapshot :=
  {| hs_id := id; hs_tenant_id := tenant_id a; hs_revision := 1; hs_handoff := h |}.

Definition next_handoff_snapshot (cur : HumanHandoffSnapshot) (h : HumanHandoff)
    : HumanHandoffSnapshot :=
  {| hs_id := hs_id cur; hs_tenant_id := hs_tenant_id cur; hs_revision := hs_revision cur + 1;
     hs_handoff := h |}.

Section laws.
Context `{!Serialize (HandoffAttributed HumanHandoffCreateRequest),
          !Serialize (HandoffAttributed HumanHandoffCommand), !Serialize HumanHandoffCommand,
          !Serialize HumanHandoffWire, sha : !Sha256}.

(** A stored Handoff: valid, and charged for its encoding. *)
Definition handoff_ok (h : HumanHandoff) : Prop :=
  handoff_validate h = Ok () ∧ handoff_encoded_size h = Ok (hh_charge h).

Definition handoff_stored_ok (key : str * HumanHandoffId) (sn : HumanHandoffSnapshot) : Prop :=
  hs_id sn = key.2 ∧ hs_tenant_id sn = key_tenant key.1 ∧
  tenant_storage_key (key_tenant key.1) = key.1 ∧ handoff_ok (hs_handoff sn) ∧
  hs_revision sn = len (hh_transitions (hs_handoff sn)) ∧
  key.2 ≠ [] ∧ (str_len key.2 ≤ MAX_HANDOFF_IDENTITY_BYTES)%Z.

Class HandoffLaws (W : Type) `{!HumanHandoffCoordinator W} := {
  hc_inv : W → Prop;
  hc_view : W → Handoffs;
  hc_stored s key sn : hc_inv s → hc_view s !! key = Some sn → handoff_stored_ok key sn;
  hc_create_law id req now a s s' r :
    hc_inv s → handoff_create_as id req now a s = (s', r) → hc_inv s' ∧
    match r with
    | Ok sn => validate_handoff_access id a = Ok () ∧
        ((hc_view s !! handoff_key id (tenant_id a) = Some sn ∧
          handoff_create_matches (hs_handoff sn) req (actor a) = Ok true ∧ hc_view s' = hc_view s) ∨
         (hc_view s !! handoff_key id (tenant_id a) = None ∧
          ∃ h, HumanHandoff_new req now a = Ok h ∧ sn = first_handoff id a h ∧
            hc_view s' = <[handoff_key id (tenant_id a) := sn]> (hc_view s)))
    | Err _ => hc_view s' = hc_view s
    end;
  hc_load_law id a s s' r :
    hc_inv s → handoff_load_as id a s = (s', r) →
    hc_inv s' ∧ hc_view s' = hc_view s ∧
    ∀ o, r = Ok o → validate_handoff_access id a = Ok () ∧
      o = hc_view s !! handoff_key id (tenant_id a);
  hc_list_law queue after limit a s s' r :
    hc_inv s → handoff_list_queued_as queue after limit a s = (s', r) →
    hc_inv s' ∧ hc_view s' = hc_view s ∧
    ∀ page, r = Ok page → validate_handoff_list queue after limit a = Ok () ∧
      page = handoff_page (take (Z.to_nat (limit + 1))
        (queued_after (hc_view s) (tenant_storage_key (tenant_id a)) queue after)) limit;
  hc_scan_law at_ms after limit a s s' r :
    hc_inv s → handoff_scan_due_as at_ms after limit a s = (s', r) →
    hc_inv s' ∧ hc_view s' = hc_view s ∧
    ∀ page, r = Ok page → handoff_validate_due_scan at_ms after limit a = Ok () ∧
      page = handoff_due_page (take (Z.to_nat (limit + 1))
        (values_after (hc_view s) (tenant_storage_key (tenant_id a)) after)) limit at_ms;
  hc_apply_law id rev c now a s s' r :
    hc_inv s → handoff_apply_as id rev c now a s = (s', r) → hc_inv s' ∧
    match r with
    | Ok res => validate_handoff_access id a = Ok () ∧
        ∃ cur, hc_view s !! handoff_key id (tenant_id a) = Some cur ∧
        ((handoff_recognizes_command (hs_handoff cur) c (actor a) = Ok true ∧
          hc_view s' = hc_view s ∧
          res = {| hcr_snapshot := cur; hcr_outcome := HandoffDuplicate |}) ∨
         (hs_revision cur = rev ∧
          ∃ h, handoff_apply c now a (hs_handoff cur) = (h, Ok HandoffApplied) ∧
          res = {| hcr_snapshot := next_handoff_snapshot cur h; hcr_outcome := HandoffApplied |} ∧
          hc_view s' = <[handoff_key id (tenant_id a) := next_handoff_snapshot cur h]> (hc_view s)))
    | Err _ => hc_view s' = hc_view s
    end;
}.

(** ** Handoffs the domain methods produce can be stored *)

Lemma new_handoff_ok req now a h :
  HumanHandoff_new req now a = Ok h →
  handoff_ok h ∧ hh_queue h = hr_queue req ∧ hh_priority h = hr_priority req ∧
  len (hh_transitions h) = 1%Z ∧ hh_requested_at_ms h = now ∧ hh_status h = HQueued ∧
  hh_subject h = hr_subject req.
Proof. unfold HumanHandoff_new. intros Hn. inv_ok. by subst h. Qed.

Lemma encoded_for_settlement h class n :
  handoff_encoded_size_for h class = Ok n → handoff_encoded_size h = Ok n.
Proof.
  unfold handoff_encoded_size, handoff_encoded_size_for, handoff_materialization_capacity.
  intros He. inv_ok. subst.
  match goal with H : handoff_size _ _ _ = _ |- _ => rewrite H end. simpl.
  match goal with H : (_ <? _)%Z = false |- _ => rewrite H end. done.
Qed.

Lemma apply_handoff_ok c now a h h' :
  handoff_apply c now a h = (h', Ok HandoffApplied) →
  handoff_ok h' ∧ hh_queue h' = hh_queue h ∧ hh_priority h' = hh_priority h ∧
  hh_requested_at_ms h' = hh_requested_at_ms h ∧
  len (hh_transitions h') = (len (hh_transitions h) + 1)%Z.
Proof.
  intros (d & p & n & _ & Hv & He & ->)%handoff_apply_applied.
  apply encoded_for_settlement in He. split; [by split|]. split_and!; try done.
  simpl. unfold len. rewrite length_app. simpl. lia.
Qed.

Lemma handoff_apply_copy_applied c now a h p :
  handoff_apply_copy h c now a = Ok p → handoff_recognizes_command h c (actor a) = Ok false →
  handoff_apply c now a h = (p.1, Ok HandoffApplied) ∧ p.2 = HandoffApplied.
Proof.
  unfold handoff_apply_copy. intros Ha Hr.
  destruct (handoff_apply c now a h) as [h' [[]|x]] eqn:E; inv_ok; subst.
  - done.
  - exfalso. unfold handoff_apply in E. inv_M.
    match goal with b : bool |- _ => destruct b; [congruence|] end. by inv_M.
Qed.

Lemma identity_nonempty kind id :
  handoff_validate_identity kind id = Ok () →
  id ≠ [] ∧ (str_len id ≤ MAX_HANDOFF_IDENTITY_BYTES)%Z.
Proof. unfold handoff_validate_identity. intros Hv. inv_ok. bool_hyps. split; [by intros ->|done]. Qed.

Lemma handoff_access_key id a :
  validate_handoff_access id a = Ok () →
  key_tenant (tenant_storage_key (tenant_id a)) = tenant_id a ∧ id ≠ [] ∧
  (str_len id ≤ MAX_HANDOFF_IDENTITY_BYTES)%Z.
Proof.
  unfold validate_handoff_access. intros Hv. inv_ok.
  split; [by eapply key_tenant_of|by eapply identity_nonempty].
Qed.

Lemma stored_first_handoff id req now a h :
  validate_handoff_access id a = Ok () → HumanHandoff_new req now a = Ok h →
  handoff_stored_ok (handoff_key id (tenant_id a)) (first_handoff id a h).
Proof.
  intros (K1 & K2 & K3)%handoff_access_key (H1 & _ & _ & H2 & _)%new_handoff_ok.
  split_and!; simpl; congruence.
Qed.

Lemma stored_next_handoff key cur c now a h :
  handoff_stored_ok key cur → handoff_apply c now a (hs_handoff cur) = (h, Ok HandoffApplied) →
  handoff_stored_ok key (next_handoff_snapshot cur h).
Proof.
  intros (K1 & K2 & K3 & K4 & K5 & K6 & K7) (H1 & _ & _ & _ & H2)%apply_handoff_ok.
  split_and!; simpl; congruence.
Qed.

Lemma handoff_list_facts queue after limit a :
  validate_handoff_list queue after limit a = Ok () →
  (1 ≤ limit ≤ MAX_HANDOFF_PAGE)%Z ∧ key_tenant (tenant_storage_key (tenant_id a)) = tenant_id a.
Proof.
  unfold validate_handoff_list, in_range. intros Hv. inv_ok. bool_hyps.
  split; [done|by eapply key_tenant_of].
Qed.

Lemma handoff_scan_facts at_ms after limit a :
  handoff_validate_due_scan at_ms after limit a = Ok () →
  (1 ≤ limit ≤ MAX_HANDOFF_PAGE)%Z ∧ key_tenant (tenant_storage_key (tenant_id a)) = tenant_id a.
Proof.
  unfold handoff_validate_due_scan, in_range. intros Hv. inv_ok. bool_hyps.
  split; [done|by eapply key_tenant_of].
Qed.

Lemma stored_self_keyed (v : Handoffs) : map_Forall handoff_stored_ok v → self_keyed hs_id v.
Proof. intros Hv key sn Hk. by destruct (Hv key sn Hk). Qed.

(** The values after a cursor, among all values of the tenant. *)
Lemma values_after_filter (v : Handoffs) tenant after :
  map_Forall handoff_stored_ok v →
  values_after v tenant after
  = List.filter (λ sn, negb (str_leb (hs_id sn) (default [] after))) (values_after v tenant None).
Proof.
  intros Hv. unfold values_after. rewrite filter_snd, filter_filter_and. f_equal.
  apply filter_ext_in. intros [[t i] sn] Hin%list_elem_of_In%elem_of_pairs_iter.
  destruct (Hv _ _ Hin) as (K1 & _ & _ & _ & _ & K6 & _). unfold in_scope. simpl in *. rewrite K1.
  destruct (bool_decide (t = tenant)); simpl; [|by rewrite andb_false_r]. rewrite andb_true_r.
  destruct after as [c|]; simpl; [done|]. by destruct i.
Qed.

(** A page of all candidates, or of one more than fits. *)
Lemma handoff_page_take l limit :
  (1 ≤ limit)%Z → handoff_page (take (Z.to_nat (limit + 1)) l) limit = handoff_page l limit.
Proof.
  intros Hl. destruct (page_cut limit l Hl) as (T1 & T2 & _). unfold handoff_page. rewrite T1.
  f_equal. apply eq_iff_eq_true. rewrite T2, Z.ltb_lt. unfold len.
  rewrite <-length_zero_iff_nil, length_drop. lia.
Qed.
End laws.

(** * The in-memory coordinator *)

Section memory.
Context `{!Serialize (HandoffAttributed HumanHandoffCreateRequest),
          !Serialize (HandoffAttributed HumanHandoffCommand), !Serialize HumanHandoffCommand,
          !Serialize HumanHandoffWire, sha : !Sha256}.

(** The in-memory filter selects the tenant by the snapshots, in key order. *)
Lemma mem_queued_values (v : MemoryHandoffs) tenant (p : HumanHandoffSnapshot → bool) :
  map_Forall handoff_stored_ok v →
  List.filter (λ s, bool_decide (tenant_storage_key (hs_tenant_id s) = tenant) && p s) (pairs_iter v).*2
  = List.filter p (values_after v tenant None).
Proof.
  intros Hv. unfold values_after. rewrite !filter_snd, filter_filter_and. f_equal.
  apply filter_ext_in. intros [[t i] sn] Hin%list_elem_of_In%elem_of_pairs_iter.
  destruct (Hv _ _ Hin) as (_ & K2 & K3 & _). unfold in_scope. simpl in *. rewrite K2, K3.
  by rewrite andb_true_r, andb_comm.
Qed.

#[global] Program Instance MemoryHandoffLaws : HandoffLaws MemoryHandoffs := {|
  hc_inv s := map_Forall handoff_stored_ok s;
  hc_view s := s;
|}.
Next Obligation. intros s key sn Hi Hk. by apply Hi. Qed.
Next Obligation.
  intros id req now a s s' r Hi Hc; simpl in Hc; unfold mem_handoff_create_as in Hc.
  destruct r as [sn|e].
  - inv_M. inv_ok. destruct (_ !! handoff_key id _) as [ex|] eqn:E; inv_M.
    + match goal with b : bool |- _ => destruct b end; [|by inv_M]. inv_M.
      split; [done|]. split; [done|]. by left.
    + split; [|split; [done|]; right; eauto].
      apply map_Forall_insert_2; [|done]. by eapply stored_first_handoff.
  - inv_M_err; try done. destruct (_ !! handoff_key id _) as [ex|] eqn:E; inv_M_err; try done.
    match goal with b : bool |- _ => destruct b end; inv_M_err; done.
Qed.
Next Obligation.
  intros id a s s' [o|e] Hi Hl; simpl in Hl; unfold mem_handoff_load_as in Hl.
  - inv_M. inv_ok. split_and!; [done|done|]. by intros o' [= <-].
  - inv_M_err; done.
Qed.
Next Obligation.
  intros queue after limit a s s' [p|e] Hi Hl; simpl in Hl; unfold mem_handoff_list_queued_as in Hl.
  - inv_M. inv_ok. split_and!; [done|done|]. intros p' [= <-]. split; [done|].
    match goal with H : validate_handoff_list _ _ _ _ = _ |- _ => apply handoff_list_facts in H as [[? _] _] end.
    rewrite handoff_page_take by done. f_equal. unfold queued_after. f_equal.
    rewrite <-mem_queued_values by done. apply filter_ext. intros sn. by rewrite andb_assoc.
  - inv_M_err; done.
Qed.
Next Obligation.
  intros at_ms after limit a s s' [p|e] Hi Hl; simpl in Hl; unfold mem_handoff_scan_due_as in Hl.
  - inv_M. inv_ok. split_and!; [done|done|]. intros p' [= <-]. split; [done|].
    match goal with H : handoff_validate_due_scan _ _ _ _ = _ |- _ =>
      apply handoff_scan_facts in H as [? _] end.
    rewrite range_after_values. do 3 f_equal.
    unfold saturating_add, MAX_HANDOFF_PAGE, usize_max, u64_max in *. lia.
  - inv_M_err; done.
Qed.
Next Obligation.
  intros id rev c now a s s' r Hi Ha; simpl in Ha; unfold mem_handoff_apply_as in Ha.
  destruct r as [res|e].
  - inv_M. match goal with b : bool |- _ => destruct b end; inv_M; inv_ok.
    { split; [done|]. split; [done|]. eexists. split; [done|]. by left. }
    bool_hyps.
    match goal with H : checked_add _ _ _ = _ |- _ => apply checked_add_Some in H as [-> _] end.
    match goal with H : handoff_apply_copy _ _ _ _ = Ok _ |- _ =>
      apply handoff_apply_copy_applied in H as [Hap ->]; [|done] end.
    match goal with H : _ !! _ = Some ?cur |- _ => rename cur into sn; rename H into Hcur end.
    pose proof (stored_next_handoff _ _ _ _ _ _ (Hi _ _ Hcur) Hap) as Hst.
    split; [by apply map_Forall_insert_2|]. split; [done|]. exists sn. split; [done|]. right.
    split; [done|]. by eauto.
  - inv_M_err; try done. match goal with b : bool |- _ => destruct b end; inv_M_err; done.
Qed.
End memory.

(** * The SQLite coordinator *)

Section sqlite.
Context `{!Serialize (HandoffAttributed HumanHandoffCreateRequest),
          !Serialize (HandoffAttributed HumanHandoffCommand), !Serialize HumanHandoffCommand,
          !Serialize HumanHandoffWire, !Deserialize HumanHandoffWire, !Codec HumanHandoffWire,
          sha : !Sha256}.

(** ** The codec of stored rows *)

Lemma handoff_deserialize_wire h : handoff_ok h → handoff_deserialize (handoff_wire h) = Some h.
Proof.
  intros [Hv He]. destruct h as [sub q rs pr rq st ts n]. unfold handoff_deserialize. simpl.
  change (handoff_validate _) with (handoff_validate {| hh_subject := sub; hh_queue := q;
    hh_reason_code := rs; hh_priority := pr; hh_requested_at_ms := rq; hh_status := st;
    hh_transitions := ts; hh_charge := n |}).
  change (handoff_encoded_size _) with (handoff_encoded_size {| hh_subject := sub; hh_queue := q;
    hh_reason_code := rs; hh_priority := pr; hh_requested_at_ms := rq; hh_status := st;
    hh_transitions := ts; hh_charge := n |}).
  rewrite Hv. simpl. by rewrite He.
Qed.

(** The row that stores a Handoff. *)
Definition handoff_row_of (h : HumanHandoff) (revision : Z) (json : str) : HandoffRow :=
  {| hx_schema_version := HUMAN_HANDOFF_SCHEMA_VERSION; hx_revision := revision;
     hx_queue := hh_queue h; hx_priority := hh_priority h;
     hx_requested_at_ms := hh_requested_at_ms h;
     hx_status := handoff_status_name (hh_status h); hx_handoff_json := json |}.

(** The columns agree with the decoded Handoff. *)
Record handoff_row_matches (tenant : option str) (id : HumanHandoffId) (row : HandoffRow)
    (sn : HumanHandoffSnapshot) : Prop := {
  hm_id : hs_id sn = id;
  hm_tenant : hs_tenant_id sn = tenant;
  hm_row : row = handoff_row_of (hs_handoff sn) (hs_revision sn) (hx_handoff_json row);
  hm_priority : (0 ≤ hh_priority (hs_handoff sn) ≤ 255)%Z;
  hm_requested : (0 ≤ hh_requested_at_ms (hs_handoff sn))%Z;
}.

Lemma decode_handoff_row_ok tenant id row sn :
  decode_handoff_row tenant (id, row) = Ok sn → handoff_row_matches tenant id row sn.
Proof.
  unfold decode_handoff_row, in_range. intros Hl. inv_ok. bool_hyps. subst sn. simpl in *.
  repeat match goal with
  | H : ¬ (_ ≠ _) |- _ => apply dec_stable in H
  | H : u64_try_from _ _ = _ |- _ => apply u64_try_from_ok in H as [-> ?]
  end.
  split; simpl; try done; [|lia|lia]. destruct row; unfold handoff_row_of; simpl in *. congruence.
Qed.

Lemma handoff_text_bounds h :
  handoff_validate h = Ok () →
  (str_len (hh_queue h) ≤ MAX_HANDOFF_QUEUE_BYTES)%Z ∧
  (str_len (handoff_status_name (hh_status h)) ≤ MAX_HANDOFF_STATUS_BYTES)%Z.
Proof.
  intros [y [(_ & Hq & _) _ _ _]]%handoff_validate_iff.
  apply validate_capability_name_ok in Hq. unfold capability_name_valid in Hq. bool_hyps.
  unfold MAX_HANDOFF_QUEUE_BYTES. split; [lia|]. by destruct (hh_status h).
Qed.

(** An encoded Handoff is read back. *)
Lemma handoff_row_encoded tenant id h rev json :
  handoff_ok h → encode_handoff h = Ok json → (1 ≤ rev)%Z → (0 ≤ hh_priority h ≤ 255)%Z →
  (0 ≤ hh_requested_at_ms h)%Z →
  read_handoff_columns (handoff_row_of h rev json) = Ok () ∧
  decode_handoff_row tenant (id, handoff_row_of h rev json)
  = Ok {| hs_id := id; hs_tenant_id := tenant; hs_revision := rev; hs_handoff := h |}.
Proof.
  intros Hok He Hrev Hp Hrq. destruct (handoff_text_bounds h (proj1 Hok)) as [B1 B2].
  unfold encode_handoff in He. inv_ok. bool_hyps. subst json.
  unfold read_handoff_columns, bounded_text. simpl.
  rewrite !(proj2 (Z.ltb_ge _ _)) by done. split; [done|]. unfold decode_handoff_row. simpl.
  unfold u64_try_from, handoff_validate_expected_revision, in_range.
  rewrite (proj2 (Z.leb_le 0 rev)) by lia. simpl. rewrite (proj2 (Z.eqb_neq rev 0)) by lia. simpl.
  rewrite (proj2 (Z.leb_le 0 (hh_priority h))), (proj2 (Z.leb_le (hh_priority h) 255)) by lia. simpl.
  rewrite (proj2 (Z.leb_le 0 _)) by done. simpl.
  match goal with H : to_json _ = Some _ |- _ => rewrite (codec_roundtrip _ _ H) end. simpl.
  rewrite (handoff_deserialize_wire h Hok). simpl. rewrite (proj1 Hok). simpl.
  rewrite !Z.eqb_refl, !bool_decide_eq_false_2 by (intros Hn; by apply Hn). done.
Qed.

(** ** The view of a table *)

Definition handoff_row_view (key : str * HumanHandoffId) (row : HandoffRow)
    : option HumanHandoffSnapshot :=
  match decode_handoff_row (key_tenant key.1) (key.2, row) with Ok sn => Some sn | Err _ => None end.

Definition handoff_row_ok (key : str * HumanHandoffId) (row : HandoffRow) : Prop :=
  read_handoff_columns row = Ok () ∧
  ∃ sn, handoff_row_view key row = Some sn ∧ handoff_stored_ok key sn.

Definition sql_handoffs_view (s : SqliteHandoffs) : Handoffs := map_imap handoff_row_view (rows s).
Definition sql_handoffs_inv (s : SqliteHandoffs) : Prop := map_Forall handoff_row_ok (rows s).

Lemma handoff_row_view_Some key row sn :
  handoff_row_view key row = Some sn ↔ decode_handoff_row (key_tenant key.1) (key.2, row) = Ok sn.
Proof. unfold handoff_row_view. destruct (decode_handoff_row _ _); split; congruence. Qed.

Lemma sql_handoffs_lookup s key : sql_handoffs_view s !! key = rows s !! key ≫= handoff_row_view key.
Proof. unfold sql_handoffs_view. apply map_lookup_imap. Qed.

Lemma sql_handoffs_same s s' :
  rows s' = rows s → sql_handoffs_inv s →
  sql_handoffs_inv s' ∧ sql_handoffs_view s' = sql_handoffs_view s.
Proof. unfold sql_handoffs_inv, sql_handoffs_view. by intros ->. Qed.

Lemma sql_handoffs_insert s s' key row sn :
  rows s' = <[key := row]> (rows s) → read_handoff_columns row = Ok () →
  handoff_row_view key row = Some sn → handoff_stored_ok key sn → sql_handoffs_inv s →
  sql_handoffs_inv s' ∧ sql_handoffs_view s' = <[key := sn]> (sql_handoffs_view s).
Proof.
  intros E Hr Hv Hok Hi. split.
  - unfold sql_handoffs_inv. rewrite E. apply map_Forall_insert_2; [|done]. split; [done|]. by exists sn.
  - apply map_eq. intros k. rewrite sql_handoffs_lookup, E. destruct (decide (k = key)) as [->|Hne].
    + by rewrite !lookup_insert_eq.
    + rewrite !lookup_insert_ne by done. by rewrite sql_handoffs_lookup.
Qed.

Lemma sql_handoff_row s key row :
  sql_handoffs_inv s → rows s !! key = Some row →
  ∃ sn, sql_handoffs_view s !! key = Some sn ∧ handoff_stored_ok key sn ∧
    handoff_row_matches (key_tenant key.1) key.2 row sn.
Proof.
  intros Hi Hr. destruct (Hi _ _ Hr) as (_ & sn & Hv & Hok). exists sn.
  rewrite sql_handoffs_lookup, Hr. split; [done|]. split; [done|].
  by apply handoff_row_view_Some, decode_handoff_row_ok in Hv.
Qed.

Lemma sql_handoffs_stored s : sql_handoffs_inv s → map_Forall handoff_stored_ok (sql_handoffs_view s).
Proof.
  intros Hi key sn Hv. rewrite sql_handoffs_lookup in Hv. apply bind_Some in Hv as (row & Hr & Hv).
  destruct (Hi _ _ Hr) as (_ & sn' & Hv' & Hok). congruence.
Qed.

Lemma load_handoff_ok id a s s' r :
  sql_handoffs_inv s → validate_handoff_access id a = Ok () →
  load_handoff_snapshot id (tenant_id a) s = (s', r) →
  rows s' = rows s ∧ ∀ o, r = Ok o → o = sql_handoffs_view s !! handoff_key id (tenant_id a).
Proof.
  intros Hi (Hk & _)%handoff_access_key Hl. unfold load_handoff_snapshot in Hl. unfold mbind at 1, M_bind in Hl.
  destruct (select _ s) as [s1 [t|e]] eqn:Es; apply select_rows in Es as [Hs Ht].
  2: { injection Hl as <- <-. done. }
  specialize (Ht t eq_refl) as ->. rewrite sql_handoffs_lookup. unfold handoff_row_view, handoff_key in *.
  simpl. rewrite Hk. destruct (rows s !! _) as [row|] eqn:Er; simpl.
  - unfold lift, mbind, M_bind in Hl. destruct (read_handoff_columns row) as [u|e];
      [|injection Hl as <- <-; done].
    destruct (decode_handoff_row (tenant_id a) (id, row)) as [sn|e] eqn:Ed; injection Hl as <- <-; [|done].
    split; [done|]. by intros o [= <-].
  - injection Hl as <- <-. split; [done|]. by intros o [= <-].
Qed.

(** ** Creation and commands *)

Lemma insert_handoff_ok key row t t' :
  insert_handoff key row t = Some t' →
  (0 ≤ hx_priority row ≤ 255)%Z ∧ (0 < hx_requested_at_ms row)%Z ∧ t' = <[key := row]> t.
Proof.
  unfold insert_handoff, in_range. destruct (t !! key); [done|].
  destruct (_ && _ && _) eqn:E; [|done]. bool_hyps. intros [= <-]. split_and!; lia || done.
Qed.

Lemma sql_handoff_create_law id req now a s s' r :
  sql_handoffs_inv s → sql_handoff_create_as id req now a s = (s', r) → sql_handoffs_inv s' ∧
  match r with
  | Ok sn => validate_handoff_access id a = Ok () ∧
      ((sql_handoffs_view s !! handoff_key id (tenant_id a) = Some sn ∧
        handoff_create_matches (hs_handoff sn) req (actor a) = Ok true ∧
        sql_handoffs_view s' = sql_handoffs_view s) ∨
       (sql_handoffs_view s !! handoff_key id (tenant_id a) = None ∧
        ∃ h, HumanHandoff_new req now a = Ok h ∧ sn = first_handoff id a h ∧
          sql_handoffs_view s' = <[handoff_key id (tenant_id a) := sn]> (sql_handoffs_view s)))
  | Err _ => sql_handoffs_view s' = sql_handoffs_view s
  end.
Proof.
  intros Hi Hc. unfold sql_handoff_create_as in Hc. destruct r as [sn|e].
  2: { inv_M_err; [done|]. apply transaction_err in Hc. by apply sql_handoffs_same. }
  inv_M. inv_ok. match goal with H : validate_handoff_access _ _ = _ |- _ => rename H into Hv end.
  apply transaction_ok in Hc as (s1 & s2 & Hs1 & Hc & Hs2).
  destruct (sql_handoffs_same _ _ Hs1 Hi) as [Hi1 Hv1]. inv_M.
  match goal with H : load_handoff_snapshot _ _ _ = _ |- _ =>
    apply load_handoff_ok in H as [Hs3 Hl]; [|done..]; specialize (Hl _ eq_refl) as -> end.
  rewrite Hv1 in Hc. destruct (sql_handoffs_view s !! _) as [ex|] eqn:E; inv_M.
  { match goal with b : bool |- _ => destruct b end; [|by inv_M]. inv_M.
    destruct (sql_handoffs_same s s') as [? ?]; [congruence|done|]. split; [done|]. split; [done|]. by left. }
  inv_ok. unfold handoff_sql_time in *.
  match goal with H : HumanHandoff_new _ _ _ = Ok ?h |- _ => rename h into nh; rename H into Hnew end.
  match goal with H : i64_try_from _ _ = _ |- _ => apply i64_try_from_ok in H as [-> _] end.
  match goal with H : insert_handoff _ _ _ = Some _ |- _ =>
    apply insert_handoff_ok in H as (Hpr & Hrq & ->) end.
  match goal with H : store _ _ _ = _ |- _ => apply store_ok in H as Hst end. simpl in Hpr, Hrq.
  match goal with H : encode_handoff _ = Ok ?j |- _ => rename H into He end.
  rewrite Hs3, Hs1 in Hst. rewrite Hst in Hs2.
  pose proof (new_handoff_ok _ _ _ _ Hnew) as (N1 & _).
  pose proof (handoff_access_key _ _ Hv) as (K1 & _).
  destruct (handoff_row_encoded (tenant_id a) id nh 1 _ N1 He) as [R1 R2]; [lia..|].
  destruct (sql_handoffs_insert s s' _ _ (first_handoff id a nh) Hs2) as [? ?]; [exact R1| | |done|].
  - apply handoff_row_view_Some. simpl. by rewrite K1.
  - by eapply stored_first_handoff.
  - split; [done|]. split; [done|]. right. eauto.
Qed.

Lemma sql_handoff_apply_law id rev c now a s s' r :
  sql_handoffs_inv s → sql_handoff_apply_as id rev c now a s = (s', r) → sql_handoffs_inv s' ∧
  match r with
  | Ok res => validate_handoff_access id a = Ok () ∧
      ∃ cur, sql_handoffs_view s !! handoff_key id (tenant_id a) = Some cur ∧
      ((handoff_recognizes_command (hs_handoff cur) c (actor a) = Ok true ∧
        sql_handoffs_view s' = sql_handoffs_view s ∧
        res = {| hcr_snapshot := cur; hcr_outcome := HandoffDuplicate |}) ∨
       (hs_revision cur = rev ∧
        ∃ h, handoff_apply c now a (hs_handoff cur) = (h, Ok HandoffApplied) ∧
        res = {| hcr_snapshot := next_handoff_snapshot cur h; hcr_outcome := HandoffApplied |} ∧
        sql_handoffs_view s'
        = <[handoff_key id (tenant_id a) := next_handoff_snapshot cur h]> (sql_handoffs_view s)))
  | Err _ => sql_handoffs_view s' = sql_handoffs_view s
  end.
Proof.
  intros Hi Ha. unfold sql_handoff_apply_as in Ha. destruct r as [res|e].
  2: { inv_M_err; [done|done|]. apply transaction_err in Ha. by apply sql_handoffs_same. }
  inv_M. inv_ok. match goal with H : validate_handoff_access _ _ = _ |- _ => rename H into Hv end.
  apply transaction_ok in Ha as (s1 & s2 & Hs1 & Ha & Hs2).
  destruct (sql_handoffs_same _ _ Hs1 Hi) as [Hi1 Hv1]. unfold handoff_apply_body in Ha. inv_M.
  match goal with H : load_handoff_snapshot _ _ _ = _ |- _ =>
    apply load_handoff_ok in H as [Hs3 Hl]; [|done..]; specialize (Hl _ eq_refl) as -> end.
  inv_ok. match goal with H : sql_handoffs_view s1 !! _ = Some ?c |- _ =>
    rewrite Hv1 in H; rename c into cur; rename H into Hcur end.
  match goal with b : bool |- _ => destruct b end; inv_M.
  { destruct (sql_handoffs_same s s') as [? ?]; [congruence|done|]. split; [done|]. split; [done|].
    exists cur. split; [done|]. by left. }
  inv_ok. bool_hyps. unfold handoff_sql_revision in *.
  repeat match goal with
  | H : i64_try_from _ _ = _ |- _ => apply i64_try_from_ok in H as [-> _]
  | H : checked_add _ _ _ = _ |- _ => apply checked_add_Some in H as [-> _]
  | H : store _ _ _ = _ |- _ => apply store_ok in H as Hst
  end.
  match goal with H : handoff_apply_copy _ _ _ _ = Ok ?p |- _ =>
    destruct p as [nh o]; apply handoff_apply_copy_applied in H as [Hap Ho]; [|done];
    simpl in Hap, Ho; subst o end.
  match goal with H : encode_handoff _ = Ok ?j |- _ => rename H into He; simpl in He end.
  pose proof Hcur as Hcur'. rewrite sql_handoffs_lookup in Hcur'. apply bind_Some in Hcur' as (row & Hrow & _).
  destruct (sql_handoff_row _ _ _ Hi Hrow) as (cur' & Hview' & Hst_ok & [M1 M2 M3 M4 M5]).
  rewrite Hcur in Hview'. injection Hview' as <-.
  pose proof (stored_next_handoff _ _ _ _ _ _ Hst_ok Hap) as Hst'.
  destruct (apply_handoff_ok _ _ _ _ _ Hap) as (A1 & A2 & A3 & A4 & A5).
  pose proof (handoff_access_key _ _ Hv) as (K1 & _).
  destruct Hst_ok as (_ & _ & _ & [S4 _] & S5 & _). simpl in M1, M2. rewrite K1 in M2.
  pose proof (handoff_validate_iff (hs_handoff cur)) as [[y Hy] _]; [done|].
  pose proof (vh_length _ _ Hy) as Hlen.
  unfold update_handoff in *. rewrite Hs3, Hs1, Hrow in *.
  assert (hx_revision row = hs_revision cur) as Erev by (by rewrite M3).
  rewrite Erev, Z.eqb_refl in *. simpl in Hst. rewrite Hst in Hs2.
  destruct (handoff_row_encoded (tenant_id a) id nh (hs_revision cur + 1) _ A1 He) as [R1 R2]; [lia..|].
  destruct (sql_handoffs_insert s s' _ _ (next_handoff_snapshot cur nh) Hs2) as [? ?].
  - rewrite M3. simpl. rewrite <-A2, <-A3, <-A4. exact R1.
  - apply handoff_row_view_Some. simpl. rewrite K1, M3. simpl. rewrite <-A2, <-A3, <-A4.
    unfold next_handoff_snapshot. rewrite M1, M2. exact R2.
  - done.
  - done.
  - split; [done|]. split; [done|]. exists cur. split; [done|]. right. split; [done|].
    exists nh. split_and!; [done| |done]. unfold next_handoff_snapshot. by rewrite M1.
Qed.

(** ** Pages *)

(** Decoding the rows of one tenant gives the Handoffs of the view. *)
Definition row_reads (a : AuthorityContext) (p : HumanHandoffId * HandoffRow)
    (sn : HumanHandoffSnapshot) : Prop :=
  read_handoff_row p = Ok p ∧ decode_handoff_row (tenant_id a) p = Ok sn.

Lemma tenant_rows_read s (a : AuthorityContext) :
  sql_handoffs_inv s → key_tenant (tenant_storage_key (tenant_id a)) = tenant_id a →
  Forall2 (row_reads a) (tenant_rows (rows s) (tenant_storage_key (tenant_id a)))
    (values_after (sql_handoffs_view s) (tenant_storage_key (tenant_id a)) None).
Proof.
  intros Hi Hk. unfold tenant_rows, values_after, sql_handoffs_view. rewrite pairs_iter_imap.
  assert (∀ p, p ∈ pairs_iter (rows s) → handoff_row_ok p.1 p.2) as Hall
    by (intros [k row] Hin%elem_of_pairs_iter; by apply Hi).
  induction (pairs_iter (rows s)) as [|[[tn i] row] l IH]; [constructor|].
  destruct (Hall (tn, i, row) ltac:(left)) as (Hr & sn & Hv & _ & _ & _ & _ & _ & K6 & K7). simpl in *.
  rewrite Hv. simpl. unfold in_scope at 1. simpl. rewrite andb_true_r.
  specialize (IH ltac:(intros; apply Hall; by right)).
  destruct (bool_decide (tn = _)) eqn:Es; simpl; [|done].
  apply handoff_row_view_Some in Hv. simpl in Hv. bool_hyps. subst tn. rewrite Hk in Hv.
  unfold fmap in *. simpl. constructor; [|done]. split; [|done].
  unfold read_handoff_row, bounded_text. simpl. rewrite (proj2 (Z.ltb_ge _ _)) by done. simpl.
  by rewrite Hr.
Qed.

Lemma row_reads_cursor a p sn : row_reads a p sn → row_cursor p = handoff_cursor sn.
Proof.
  destruct p as [i row]. intros (_ & Hd). apply decode_handoff_row_ok in Hd as [M1 _ M3 _ _].
  unfold row_cursor, handoff_cursor. simpl. rewrite M3. simpl. by rewrite M1.
Qed.

Lemma row_reads_filter a (f : HumanHandoffId * HandoffRow → bool) (g : HumanHandoffSnapshot → bool) l k :
  (∀ p sn, row_reads a p sn → f p = g sn) → Forall2 (row_reads a) l k →
  Forall2 (row_reads a) (List.filter f l) (List.filter g k).
Proof.
  intros Hfg. induction 1 as [|p sn l k Hp _ IH]; simpl; [constructor|].
  rewrite (Hfg p sn Hp). destruct (g sn); [by constructor|done].
Qed.

Lemma decode_rows_read a l k s s' r :
  Forall2 (row_reads a) l k → decode_handoff_rows a l s = (s', r) → s' = s ∧ ∀ x, r = Ok x → x = k.
Proof.
  intros HF Hd. unfold decode_handoff_rows in Hd. destruct r as [x|e].
  2: { inv_M_err; done. }
  inv_M. split; [done|]. intros x' [= <-].
  match goal with H : collect read_handoff_row _ = Ok _ |- _ => apply collect_ok in H as Hread end.
  match goal with H : collect (decode_handoff_row _) _ = Ok _ |- _ => apply collect_ok in H as Hdec end.
  clear -HF Hread Hdec. revert x Hdec. generalize dependent l. intros l HF. revert a0.
  induction HF as [|p sn l k (Hp & Hq) _ IH]; intros rs Hread x Hdec;
    inversion Hread; subst; inversion Hdec; subst; [done|].
  assert (y = p) by congruence. subst. f_equal; [congruence|]. by eapply IH.
Qed.

(** The query selects the queued cases after the cursor. *)
Lemma row_queued a queue after has_cursor priority time id p sn :
  cursor_parameters after = Ok (has_cursor, priority, time, id) → row_reads a p sn →
  (bool_decide (hx_queue p.2 = queue) && bool_decide (hx_status p.2 = lit "queued")
   && row_after has_cursor priority time id p) = queued_in queue sn && after_page after sn.
Proof.
  destruct p as [i row]. intros Hc (_ & Hd). apply decode_handoff_row_ok in Hd as [M1 _ M3 _ _].
  unfold row_after, queued_in, after_page, handoff_comes_after. simpl. rewrite M3. simpl. rewrite M1.
  assert (bool_decide (handoff_status_name (hh_status (hs_handoff sn)) = lit "queued")
    = match hh_status (hs_handoff sn) with HQueued => true | _ => false end) as ->
    by (by destruct (hh_status (hs_handoff sn))).
  f_equal. unfold cursor_parameters in Hc. destruct after as [c|]; inv_ok; simplify_eq; [|done].
  match goal with H : i64_try_from _ _ = _ |- _ => apply i64_try_from_ok in H as [-> _] end. simpl.
  by rewrite <-orb_assoc, <-andb_assoc, <-andb_orb_distrib_r.
Qed.

Lemma selected_queue s (a : AuthorityContext) queue after has_cursor priority time id n :
  sql_handoffs_inv s → key_tenant (tenant_storage_key (tenant_id a)) = tenant_id a →
  cursor_parameters after = Ok (has_cursor, priority, time, id) →
  Forall2 (row_reads a)
    (take n (cursor_sort row_cursor (List.filter (λ p,
      bool_decide (hx_queue p.2 = queue) && bool_decide (hx_status p.2 = lit "queued")
      && row_after has_cursor priority time id p)
      (tenant_rows (rows s) (tenant_storage_key (tenant_id a))))))
    (take n (queued_after (sql_handoffs_view s) (tenant_storage_key (tenant_id a)) queue after)).
Proof.
  intros Hi Hk Hc. apply Forall2_take, cursor_sort_Forall2.
  - intros p sn. apply row_reads_cursor.
  - by apply filtered_cursors, stored_self_keyed, sql_handoffs_stored.
  - apply row_reads_filter; [|by apply tenant_rows_read]. intros p sn. by apply row_queued.
Qed.

Lemma sql_handoff_list_law queue after limit a s s' r :
  sql_handoffs_inv s → sql_handoff_list_queued_as queue after limit a s = (s', r) →
  rows s' = rows s ∧ ∀ page, r = Ok page → validate_handoff_list queue after limit a = Ok () ∧
    page = handoff_page (take (Z.to_nat (limit + 1))
      (queued_after (sql_handoffs_view s) (tenant_storage_key (tenant_id a)) queue after)) limit.
Proof.
  intros Hi Hl. unfold sql_handoff_list_queued_as in Hl.
  destruct (validate_handoff_list queue after limit a) as [[]|e] eqn:Hv; [|by injection Hl as <- <-].
  pose proof (handoff_list_facts _ _ _ _ Hv) as [_ Hk].
  destruct r as [page|e].
  - inv_M. inv_ok. match goal with H : checked_add _ _ _ = _ |- _ => apply checked_add_Some in H as [-> _] end.
    match goal with x : (Z * Z * Z * str)%type |- _ => destruct x as [[[hc pr] tm] id] end. inv_M.
    match goal with H : select _ _ = _ |- _ => apply select_rows in H as [Hs Hsel];
      specialize (Hsel _ eq_refl) as -> end.
    match goal with H : decode_handoff_rows _ _ _ = _ |- _ =>
      eapply decode_rows_read in H as [-> Hr]; [|by apply selected_queue] end.
    split; [done|]. intros p [= <-]. split; [done|]. by rewrite (Hr _ eq_refl).
  - inv_M_err; try done.
    match goal with x : (Z * Z * Z * str)%type |- _ => destruct x as [[[hc pr] tm] id] end.
    inv_M_err; try done; split; try done;
      match goal with H : select _ _ = _ |- _ => apply select_rows in H as [Hs Hsel]; try done;
        specialize (Hsel _ eq_refl) as -> end;
      match goal with H : decode_handoff_rows _ _ _ = _ |- _ =>
        eapply decode_rows_read in H as [-> _]; [done|by apply selected_queue] end.
Qed.

Lemma sql_handoff_scan_law at_ms after limit a s s' r :
  sql_handoffs_inv s → sql_handoff_scan_due_as at_ms after limit a s = (s', r) →
  rows s' = rows s ∧ ∀ page, r = Ok page → handoff_validate_due_scan at_ms after limit a = Ok () ∧
    page = handoff_due_page (take (Z.to_nat (limit + 1))
      (values_after (sql_handoffs_view s) (tenant_storage_key (tenant_id a)) after)) limit at_ms.
Proof.
  intros Hi Hl. unfold sql_handoff_scan_due_as in Hl.
  destruct (handoff_validate_due_scan at_ms after limit a) as [[]|e] eqn:Hv; [|by injection Hl as <- <-].
  pose proof (handoff_scan_facts _ _ _ _ Hv) as [_ Hk].
  assert (∀ n, Forall2 (row_reads a)
    (take n (List.filter (λ p, negb (str_leb p.1 (default [] after)))
      (tenant_rows (rows s) (tenant_storage_key (tenant_id a)))))
    (take n (values_after (sql_handoffs_view s) (tenant_storage_key (tenant_id a)) after))) as HF.
  { intros n. apply Forall2_take. rewrite values_after_filter by (by apply sql_handoffs_stored).
    apply row_reads_filter; [|by apply tenant_rows_read].
    intros [i row] sn (_ & Hd). apply decode_handoff_row_ok in Hd as [M1 _ _ _ _]. simpl. by subst i. }
  destruct r as [page|e].
  - inv_M. inv_ok. match goal with H : checked_add _ _ _ = _ |- _ => apply checked_add_Some in H as [-> _] end.
    match goal with H : select _ _ = _ |- _ => apply select_rows in H as [Hs Hsel];
      specialize (Hsel _ eq_refl) as -> end.
    match goal with H : decode_handoff_rows _ _ _ = _ |- _ =>
      eapply decode_rows_read in H as [-> Hr]; [|apply HF] end.
    split; [done|]. intros p [= <-]. split; [done|]. by rewrite (Hr _ eq_refl).
  - inv_M_err; try done; split; try done;
      match goal with H : select _ _ = _ |- _ => apply select_rows in H as [Hs Hsel]; try done;
        specialize (Hsel _ eq_refl) as -> end;
      match goal with H : decode_handoff_rows _ _ _ = _ |- _ =>
        eapply decode_rows_read in H as [-> _]; [done|apply HF] end.
Qed.

#[global] Program Instance SqliteHandoffLaws : HandoffLaws SqliteHandoffs := {|
  hc_inv := sql_handoffs_inv;
  hc_view := sql_handoffs_view;
|}.
Next Obligation. intros s key sn Hi Hv. by apply (sql_handoffs_stored s Hi). Qed.
Next Obligation. intros id req now a s s' r Hi Hc. exact (sql_handoff_create_law _ _ _ _ _ _ _ Hi Hc). Qed.
Next Obligation.
  intros id a s s' r Hi Hl. simpl in Hl. unfold sql_handoff_load_as in Hl.
  unfold mbind at 1, M_bind, lift in Hl.
  destruct (validate_handoff_access id a) as [[]|e] eqn:Hv; [|injection Hl as <- <-; done].
  apply load_handoff_ok in Hl as [Hs Hr]; [|done..]. destruct (sql_handoffs_same _ _ Hs Hi).
  split_and!; [done|done|]. intros o Ho. split; [done|]. by apply Hr.
Qed.
Next Obligation.
  intros queue after limit a s s' r Hi Hl. simpl in Hl. apply sql_handoff_list_law in Hl as [Hs Hr]; [|done].
  destruct (sql_handoffs_same _ _ Hs Hi). by split_and!.
Qed.
Next Obligation.
  intros at_ms after limit a s s' r Hi Hl. simpl in Hl. apply sql_handoff_scan_law in Hl as [Hs Hr]; [|done].
  destruct (sql_handoffs_same _ _ Hs Hi). by split_and!.
Qed.
Next Obligation. intros id rev c now a s s' r Hi Hc. exact (sql_handoff_apply_law _ _ _ _ _ _ _ _ Hi Hc). Qed.
End sqlite.
