(* ===== verification/HandoffClients.v ===== *)
(** Clients of a Human Handoff Coordinator, proved against the contract
    [HandoffLaws] and so true of the in-memory and of the SQLite coordinator
    (src/src/human_handoff/coordinator.rs): how stored cases evolve, the pages
    workers discover work with, and the engine of
    src/src/human_handoff/engine.rs. *)

From Stdlib Require Import ZArith Lia.
From stdpp Require Import sorting base tactics list gmap relations numbers strings option.
From stdpp Require Import list.
From S2P Require Import Prelude Kernel Digest Json Sqlite Pairs Handoff HandoffSafety HandoffCoordinator HandoffStores.

Section clients.
Context `{!Serialize (HandoffAttributed HumanHandoffCreateRequest),
          !Serialize (HandoffAttributed HumanHandoffCommand), !Serialize HumanHandoffCommand,
          !Serialize HumanHandoffWire, sha : !Sha256}.
Context {W : Type} `{!HumanHandoffCoordinator W, !HandoffLaws W}.

(** One call of the coordinator, by anyone, successful or not. *)
Inductive hh_step (s : W) : W → Prop :=
| hh_create id req now a s' r : handoff_create_as id req now a s = (s', r) → hh_step s s'
| hh_load id a s' r : handoff_load_as id a s = (s', r) → hh_step s s'
| hh_list queue after limit a s' r :
    handoff_list_queued_as queue after limit a s = (s', r) → hh_step s s'
| hh_scan at_ms after limit a s' r :
    handoff_scan_due_as at_ms after limit a s = (s', r) → hh_step s s'
| hh_apply id rev c now a s' r : handoff_apply_as id rev c now a s = (s', r) → hh_step s s'.

Definition hh_execution (s : W) : Prop :=
  ∃ s0, hc_inv s0 ∧ hc_view s0 = ∅ ∧ rtc hh_step s0 s.

(** How one call may change a stored case: the call of the applied command
    gave the revision it changes. *)
Definition case_evolves (cur cur' : HumanHandoffSnapshot) : Prop :=
  cur' = cur ∨
  hs_revision cur' = (hs_revision cur + 1)%Z ∧ hs_id cur' = hs_id cur ∧
  hs_tenant_id cur' = hs_tenant_id cur ∧
  ∃ c now a, handoff_apply c now a (hs_handoff cur) = (hs_handoff cur', Ok HandoffApplied).

Definition cases_evolve (s s' : W) : Prop := ∀ key,
  (∀ cur, hc_view s !! key = Some cur →
     ∃ cur', hc_view s' !! key = Some cur' ∧ case_evolves cur cur') ∧
  (∀ cur', hc_view s !! key = None → hc_view s' !! key = Some cur' →
     hs_revision cur' = 1%Z ∧ ∃ req now a, key.1 = tenant_storage_key (tenant_id a) ∧
       HumanHandoff_new req now a = Ok (hs_handoff cur')).

Lemma cases_evolve_same s s' : hc_view s' = hc_view s → cases_evolve s s'.
Proof.
  intros E key. rewrite E. split; [|intros cur' H1 H2; congruence]. intros cur Hc. exists cur.
  split; [done|by left].
Qed.

Lemma cases_evolve_insert s s' key cur' :
  hc_view s' = <[key := cur']> (hc_view s) →
  (∀ cur, hc_view s !! key = Some cur → case_evolves cur cur') →
  (hc_view s !! key = None → hs_revision cur' = 1%Z ∧
     ∃ req now a, key.1 = tenant_storage_key (tenant_id a) ∧
       HumanHandoff_new req now a = Ok (hs_handoff cur')) →
  cases_evolve s s'.
Proof.
  intros E H1 H2 k. rewrite E. destruct (decide (k = key)) as [->|Hne].
  - rewrite lookup_insert_eq. split; [eauto|]. intros c Hn [= <-]. auto.
  - rewrite lookup_insert_ne by done. split; [|congruence]. intros cur Hc. exists cur.
    split; [done|by left].
Qed.

Lemma hh_step_evolves s s' : hc_inv s → hh_step s s' → hc_inv s' ∧ cases_evolve s s'.
Proof.
  intros Hi. destruct 1 as [id req now a s' r Hc|id a s' r Hl|q af li a s' r Hl
    |at_ms af li a s' r Hl|id rev c now a s' r Ha].
  - apply hc_create_law in Hc as [Hi' Hr]; [|done]. split; [done|].
    destruct r as [sn|e]; [|by apply cases_evolve_same].
    destruct Hr as [_ [(_ & _ & Hv)|(Hn & h & Hnew & -> & Hv)]]; [by apply cases_evolve_same|].
    eapply cases_evolve_insert; [exact Hv|congruence|]. intros _. split; [done|]. by exists req, now, a.
  - apply hc_load_law in Hl as (Hi' & Hv & _); [|done]. split; [done|by apply cases_evolve_same].
  - apply hc_list_law in Hl as (Hi' & Hv & _); [|done]. split; [done|by apply cases_evolve_same].
  - apply hc_scan_law in Hl as (Hi' & Hv & _); [|done]. split; [done|by apply cases_evolve_same].
  - apply hc_apply_law in Ha as [Hi' Hr]; [|done]. split; [done|].
    destruct r as [res|e]; [|by apply cases_evolve_same].
    destruct Hr as (_ & cur & Hcur & [(_ & Hv & _)|(_ & h & Hap & _ & Hv)]);
      [by apply cases_evolve_same|].
    eapply cases_evolve_insert; [exact Hv| |congruence]. intros cur0 E. rewrite Hcur in E.
    injection E as <-. right. split_and!; eauto.
Qed.

Lemma hh_execution_inv s : hh_execution s → hc_inv s.
Proof.
  intros (s0 & Hi & _ & Hs). induction Hs as [s0|s0 s1 s2 Hs _ IH]; [done|].
  by destruct (hh_step_evolves _ _ Hi Hs); auto.
Qed.

Lemma hc_self_keyed s : hc_inv s → self_keyed hs_id (hc_view s).
Proof. intros Hi key sn Hk. by destruct (hc_stored _ _ _ Hi Hk). Qed.

(** Cases are never lost, forged or overwritten: whatever clients do, a call
    keeps every stored case, changes at most the named case of the caller's
    tenant, by one command that applied to its current state and advances its
    revision by one, and only when the caller expected the current revision;
    otherwise the call reports the conflict and changes nothing.  Every stored
    case is valid, has lived its transitions, and its revision counts them. *)
Theorem handoff_no_lost_update (s s' : W) (He : hh_execution s) (Hs : hh_step s s') :
  cases_evolve s s' ∧
  (∀ key sn, hc_view s' !! key = Some sn →
     handoff_validate (hs_handoff sn) = Ok () ∧
     lifecycle (hh_transitions (hs_handoff sn)) (hh_status (hs_handoff sn)) ∧
     hs_revision sn = len (hh_transitions (hs_handoff sn)) ∧
     hs_id sn = key.2 ∧ tenant_storage_key (hs_tenant_id sn) = key.1) ∧
  (∀ id rev c now a res, handoff_apply_as id rev c now a s = (s', res) →
     (∀ key, key ≠ handoff_key id (tenant_id a) → hc_view s' !! key = hc_view s !! key) ∧
     ∀ cur, hc_view s !! handoff_key id (tenant_id a) = Some cur →
       hc_view s' !! handoff_key id (tenant_id a) ≠ Some cur →
       hs_revision cur = rev ∧
       ∃ saved, hc_view s' !! handoff_key id (tenant_id a) = Some saved ∧
         res = Ok {| hcr_snapshot := saved; hcr_outcome := HandoffApplied |} ∧
         handoff_apply c now a (hs_handoff cur) = (hs_handoff saved, Ok HandoffApplied)).
Proof.
  apply hh_execution_inv in He as Hi. destruct (hh_step_evolves _ _ Hi Hs) as [Hi' Hev].
  split_and!; [done|..].
  - intros key sn Hv. destruct (hc_stored _ _ _ Hi' Hv) as (K1 & K2 & K3 & [K4 _] & K5 & _).
    split_and!; try done; [by apply valid_lifecycle|by rewrite K2].
  - intros id rev c now a res Ha. apply hc_apply_law in Ha as [_ Hr]; [|done].
    destruct res as [res|e]; [|rewrite Hr; split; [done|congruence]].
    destruct Hr as (_ & cur & Hcur & [(_ & Hv & _)|(Hrev & h & Hap & -> & Hv)]);
      [rewrite Hv; split; [done|congruence]|].
    rewrite Hv. split; [intros key Hn; by rewrite lookup_insert_ne|].
    intros cur0 E _. rewrite Hcur in E. injection E as <-. split; [done|].
    eexists. rewrite lookup_insert_eq. split; [done|]. by split.
Qed.

(** C15: Queue discovery is exact: a page holds the first queued cases of the
    queue after the cursor, all of the caller's tenant, by priority, then
    request time, then identity, at most the limit; it says whether there are
    more; and continuing from its cursor gives exactly the cases it left out.
    A due scan reports exactly the expired claims of the cases it visited, and
    its cursor continues with the cases it did not visit. *)
Theorem handoff_queue_exact (s s' : W) (limit : Z) (a : AuthorityContext) (Hi : hc_inv s) :
  let tenant := tenant_storage_key (tenant_id a) in
  (∀ queue after page, handoff_list_queued_as queue after limit a s = (s', Ok page) →
     let remaining := queued_after (hc_view s) tenant queue in
     StronglySorted (λ x y, before (handoff_cursor x) (handoff_cursor y)) (remaining after) ∧
     (∀ sn, sn ∈ remaining after ↔
        (∃ id, hc_view s !! (tenant, id) = Some sn) ∧ hh_queue (hs_handoff sn) = queue ∧
        hh_status (hs_handoff sn) = HQueued ∧
        ∀ c, after = Some c → before c (handoff_cursor sn)) ∧
     ∃ rest, remaining after = hq_handoffs page ++ rest ∧
       (len (hq_handoffs page) ≤ limit)%Z ∧ (hq_has_more page = true ↔ rest ≠ []) ∧
       (rest ≠ [] → hq_handoffs page ≠ []) ∧
       ∀ cursor, hq_next_cursor page = Some cursor → remaining (Some cursor) = rest) ∧
  (∀ at_ms after page, handoff_scan_due_as at_ms after limit a s = (s', Ok page) →
     let sweep after := values_after (hc_view s) tenant after in
     ∃ visited rest, sweep after = visited ++ rest ∧ hdp_due page = omap (due_claim at_ms) visited ∧
       (hdp_has_more page = true ↔ rest ≠ []) ∧ (rest ≠ [] → visited ≠ []) ∧
       ∀ cursor, hdp_next_after_handoff_id page = Some cursor → sweep (Some cursor) = rest).
Proof.
  intros tenant. pose proof (hc_self_keyed s Hi) as Hk. split.
  - intros queue after page Hl remaining. apply hc_list_law in Hl as (_ & _ & Hp); [|done].
    destruct (Hp page eq_refl) as [Hv ->]. clear Hp. destruct (handoff_list_facts _ _ _ _ Hv) as [[Hlim _] _].
    fold tenant (remaining after). split_and!.
    + by apply queued_after_strict.
    + intros sn. unfold remaining. rewrite elem_of_queued_after. unfold queued_in.
      rewrite andb_true_iff, bool_decide_eq_true.
      assert (after_page after sn = true ↔ ∀ c, after = Some c → before c (handoff_cursor sn)) as ->.
      { destruct after as [c|]; simpl; [|done]. rewrite comes_after_iff. naive_solver. }
      destruct (hh_status (hs_handoff sn)); naive_solver.
    + destruct (page_cut limit (remaining after) Hlim) as (T1 & T2 & T3 & T4 & _).
      unfold handoff_page. cbn [hq_handoffs hq_next_cursor hq_has_more]. rewrite T1.
      exists (drop (Z.to_nat limit) (remaining after)).
      split_and!; [by rewrite take_drop|done|done|done|]. intros cursor Hc.
      destruct (vec_last _) as [sn|] eqn:El; [|done]. injection Hc as <-.
      apply vec_last_Some_snoc in El as [l El].
      eapply (queued_after_cursor _ Hk _ _ after l _ sn). by rewrite <-El, take_drop.
  - intros at_ms after page Hl sweep. apply hc_scan_law in Hl as (_ & _ & Hp); [|done].
    destruct (Hp page eq_refl) as [Hv ->]. clear Hp. destruct (handoff_scan_facts _ _ _ _ Hv) as [[Hlim _] _].
    fold tenant (sweep after). destruct (page_cut limit (sweep after) Hlim) as (T1 & T2 & T3 & _).
    exists (take (Z.to_nat limit) (sweep after)), (drop (Z.to_nat limit) (sweep after)).
    unfold handoff_due_page. cbn [hdp_due hdp_has_more hdp_next_after_handoff_id]. rewrite T1.
    split_and!; [by rewrite take_drop|done|done|done|]. intros cursor Hc.
    destruct (vec_last _) as [sn|] eqn:El; [|done]. injection Hc as <-.
    apply vec_last_Some_snoc in El as [l El].
    eapply (values_after_cursor hs_id _ _ after l _ sn Hk). by rewrite <-El, take_drop.
Qed.

(** The engine opens a case only for a subject its resolver found in the
    caller's authority boundary, and changes no case otherwise. *)
Theorem engine_requires_subject {V} `{!HumanHandoffSubjectResolver V} (s s' : W * V)
    (id : HumanHandoffId) (req : HumanHandoffCreateRequest) (now : Z) (a : AuthorityContext)
    (r : result HumanHandoffSnapshot) (Hi : hc_inv s.1)
    (Hc : handoff_engine_create_as id req now a s = (s', r)) :
  hc_inv s'.1 ∧ cases_evolve s.1 s'.1 ∧
  (hc_view s'.1 ≠ hc_view s.1 ∨ (∃ sn, r = Ok sn) →
     (subject_exists (hr_subject req) a s.2).2 = Ok true).
Proof.
  unfold handoff_engine_create_as, mbind, M_bind, on_subjects in Hc.
  destruct (subject_exists _ a s.2) as [v [b|e]].
  2: { injection Hc as <- <-. split_and!; [done|by apply cases_evolve_same|]. naive_solver. }
  unfold lift, on_coordinator in Hc. destruct b; simpl in Hc.
  - destruct (handoff_create_as id req now a s.1) as [w r0] eqn:E. injection Hc as <- <-.
    destruct (hh_step_evolves s.1 w Hi) as [? ?]; [by eapply hh_create|]. done.
  - injection Hc as <- <-. split_and!; [done|by apply cases_evolve_same|]. naive_solver.
Qed.
End clients.
