(* ===== verification/HandoffDemo.v ===== *)
(** A concrete Human Handoff on which the Handoff theorems are exercised: its
    first claim expires, its second one resolves it; and a small store with
    two queued cases, under a codec that encodes every value as the two bytes
    of an empty JSON object, and a constant digest. *)

From Stdlib Require Import ZArith Lia.
From stdpp Require Import sorting base tactics list gmap relations numbers strings option.
From stdpp Require Import list.
From S2P Require Import Prelude Kernel Digest Json Sqlite Pairs TaskMessages Handoff HandoffSafety HandoffCoordinator HandoffStores HandoffClients.

#[local] Existing Instance demo_json.
#[local] Instance handoff_sha : Sha256 := λ _, repeat 171%N 32.
Lemma handoff_sha_laws : Sha256Laws.
Proof.
  split; [done|]. intros s b Hb. apply list_elem_of_In, repeat_spec in Hb as ->. lia.
Qed.

Definition demo_handoff_request (priority : Z) : HumanHandoffCreateRequest :=
  {| hr_command_id := lit "create-1"; hr_subject := HsThread (lit "thread-1");
     hr_queue := lit "support"; hr_reason_code := lit "agent.escalation"; hr_priority := priority |}.

Definition demo_handoff_get (r : result HumanHandoff) : HumanHandoff :=
  match r with
  | Ok h => h
  | Err _ =>
      {| hh_subject := HsThread []; hh_queue := []; hh_reason_code := []; hh_priority := 0;
         hh_requested_at_ms := 0; hh_status := HQueued; hh_transitions := []; hh_charge := 0 |}
  end.

Definition demo_handoff : HumanHandoff :=
  demo_handoff_get (HumanHandoff_new (demo_handoff_request 3) 100 local_process).

Definition demo_handoff_command (id : string) (kind : HumanHandoffCommandKind)
    : HumanHandoffCommand := {| hc_id := lit id; hc_kind := kind |}.

Definition demo_hclaim : HumanHandoffCommand :=
  demo_handoff_command "claim-1" (HkClaim (lit "c1") 1000).
Definition demo_hexpire : HumanHandoffCommand :=
  demo_handoff_command "expire-1" (HkExpireClaim (lit "c1")).
Definition demo_hreclaim : HumanHandoffCommand :=
  demo_handoff_command "claim-2" (HkClaim (lit "c2") 1000).
Definition demo_hresolve : HumanHandoffCommand :=
  demo_handoff_command "resolve-1" (HkResolve (lit "c2") (lit "answered") (lit "Called back.")).
Definition demo_hcancel : HumanHandoffCommand :=
  demo_handoff_command "cancel-1" (HkCancel (lit "withdrawn")).

Definition demo_handoff_apply (c : HumanHandoffCommand) (now : Z) (h : HumanHandoff) : HumanHandoff :=
  (handoff_apply c now local_process h).1.

Definition demo_hclaimed : HumanHandoff := demo_handoff_apply demo_hclaim 200 demo_handoff.
Definition demo_hexpired : HumanHandoff := demo_handoff_apply demo_hexpire 1200 demo_hclaimed.
Definition demo_hreclaimed : HumanHandoff := demo_handoff_apply demo_hreclaim 1300 demo_hexpired.
Definition demo_hresolved : HumanHandoff := demo_handoff_apply demo_hresolve 1400 demo_hreclaimed.

(** The demonstration exercises the branches it is meant to. *)
Lemma demo_handoff_runs :
  is_ok (HumanHandoff_new (demo_handoff_request 3) 100 local_process) = true ∧
  hh_status demo_hexpired = HQueued ∧
  hh_status demo_hresolved = HResolved (lit "answered") (lit "Called back.") ∧
  length (hh_transitions demo_hresolved) = 5%nat ∧
  is_ok (handoff_apply demo_hexpire 1199 local_process demo_hclaimed).2 = false ∧
  is_ok (handoff_apply demo_hresolve 1199 local_process demo_hclaimed).2 = false ∧
  is_ok (handoff_apply demo_hcancel 1500 local_process demo_hresolved).2 = false.
Proof. vm_compute. split_and!; reflexivity. Qed.

Lemma demo_handoff_valid : handoff_validate demo_handoff = Ok ().
Proof. vm_compute. reflexivity. Qed.
Lemma demo_hclaimed_valid : handoff_validate demo_hclaimed = Ok ().
Proof. vm_compute. reflexivity. Qed.
Lemma demo_hresolved_valid : handoff_validate demo_hresolved = Ok ().
Proof. vm_compute. reflexivity. Qed.
Lemma demo_hclaim_applied :
  handoff_apply demo_hclaim 200 local_process demo_handoff = (demo_hclaimed, Ok HandoffApplied).
Proof. vm_compute. reflexivity. Qed.

(** ** Witnesses *)

Lemma handoff_single_owner_witness :
  ∃ l1 t l2, hh_transitions demo_hresolved = l1 ++ t :: l2 ∧
    ht_kind t = HtResolved (lit "c2") (lit "answered") (lit "Called back.") ∧
    l2 = [] ∧ ∃ claim, held l1 claim ∧ hl_id claim = lit "c2" ∧ owns t claim.
Proof.
  destruct (hh_transitions demo_hresolved !! 4%nat) as [t|] eqn:Et;
    [|exfalso; vm_compute in Et; discriminate Et].
  assert (ht_kind t = HtResolved (lit "c2") (lit "answered") (lit "Called back.")) as Ek.
  { vm_compute in Et. injection Et as <-. reflexivity. }
  pose proof (eq_sym (take_drop_middle _ _ _ Et)) as El.
  pose proof (handoff_single_owner demo_hresolved _ _ _ demo_hresolved_valid El) as H.
  rewrite Ek in H. eexists _, t, _. split; [exact El|]. split; [exact Ek|]. exact H.
Defined.

Lemma handoff_apply_refines_witness :
  ∃ t, hh_transitions demo_hclaimed = hh_transitions demo_handoff ++ [t] ∧
    handoff_moves t (hh_status demo_handoff) (hh_status demo_hclaimed).
Proof.
  destruct (handoff_apply_refines demo_handoff demo_hclaimed demo_hclaim 200 local_process
    (Ok HandoffApplied) demo_handoff_valid demo_hclaim_applied) as (_ & _ & t & Ht & Hm & _).
  exists t. split; [exact Ht|exact Hm].
Defined.

Lemma handoff_can_settle_witness :
  ∃ h', handoff_apply demo_hcancel 300 local_process demo_hclaimed = (h', Ok HandoffApplied) ∧
    hh_status h' = HCancelled (lit "withdrawn").
Proof.
  destruct (handoff_can_settle handoff_sha_laws demo_hclaimed demo_hcancel 300 local_process
    (lower_sha256 (lit "{}")) (HCancelled (lit "withdrawn"), HtCancelled (lit "withdrawn")) 2
    demo_hclaimed_valid) as (h' & Ha & Hs & _).
  - lia.
  - intros t Ht. vm_compute in Ht. injection Ht as <-. simpl. lia.
  - vm_compute. reflexivity.
  - vm_compute. reflexivity.
  - reflexivity.
  - right. exists (lit "withdrawn"). repeat split; vm_compute; reflexivity.
  - vm_compute. reflexivity.
  - vm_compute. reflexivity.
  - exists h'. split; [exact Ha|exact Hs].
Defined.

Lemma handoff_fencing_witness :
  demo_handoff_apply demo_hcancel 1500 demo_hresolved = demo_hresolved.
Proof.
  destruct (handoff_fencing demo_hresolved) as (_ & _ & _ & H).
  apply H; [vm_compute; reflexivity|]. apply rtc_once.
  eexists demo_hcancel, 1500%Z, local_process, _. apply surjective_pairing.
Defined.

(** *** Stores *)

Definition demo_handoffs0 : MemoryHandoffs := ∅.
Definition demo_handoffs1 : MemoryHandoffs :=
  (handoff_create_as (lit "h1") (demo_handoff_request 3) 100 local_process demo_handoffs0).1.
Definition demo_handoffs2 : MemoryHandoffs :=
  (handoff_create_as (lit "h2") (demo_handoff_request 7) 150 local_process demo_handoffs1).1.

Lemma demo_handoffs_execution : hh_execution demo_handoffs2.
Proof.
  exists demo_handoffs0. split_and!; [apply map_Forall_empty|done|].
  eapply rtc_l; [eapply (hh_create demo_handoffs0 (lit "h1") (demo_handoff_request 3) 100 local_process);
    apply surjective_pairing|].
  apply rtc_once. eapply (hh_create demo_handoffs1 (lit "h2") (demo_handoff_request 7) 150 local_process).
  apply surjective_pairing.
Qed.

Lemma demo_handoffs_inv : hc_inv demo_handoffs2.
Proof. apply hh_execution_inv, demo_handoffs_execution. Qed.

(** The more urgent case comes first, one per page. *)
Lemma demo_queue_call :
  succeeds (λ page, bool_decide (hs_id <$> hq_handoffs page = [lit "h2"]) && hq_has_more page
      && bool_decide (is_Some (hq_next_cursor page)))
    (handoff_list_queued_as (lit "support") None 1 local_process demo_handoffs2) = true.
Proof. vm_compute. reflexivity. Qed.

Lemma demo_happly_call :
  succeeds (λ res, bool_decide (hs_revision (hcr_snapshot res) = 2%Z))
    (handoff_apply_as (lit "h1") 1 demo_hclaim 200 local_process demo_handoffs2) = true.
Proof. vm_compute. reflexivity. Qed.

Lemma handoff_no_lost_update_witness :
  ∃ s' res, handoff_apply_as (lit "h1") 1 demo_hclaim 200 local_process demo_handoffs2 = (s', Ok res) ∧
    cases_evolve demo_handoffs2 s' ∧
    hc_view s' !! handoff_key (lit "h2") None = hc_view demo_handoffs2 !! handoff_key (lit "h2") None.
Proof.
  destruct (succeeds_with _ _ demo_happly_call) as (res & E & _).
  eexists _, res. split; [exact E|].
  destruct (handoff_no_lost_update demo_handoffs2 _ demo_handoffs_execution
    (hh_apply demo_handoffs2 (lit "h1") 1 demo_hclaim 200 local_process _ _ E)) as (Hev & _ & H).
  split; [exact Hev|]. apply (proj1 (H _ _ _ _ _ _ E)). vm_compute. discriminate.
Defined.

Lemma handoff_queue_exact_witness :
  ∃ s' page rest cursor, handoff_list_queued_as (lit "support") None 1 local_process demo_handoffs2
      = (s', Ok page) ∧
    queued_after (hc_view demo_handoffs2) [] (lit "support") None = hq_handoffs page ++ rest ∧
    rest ≠ [] ∧ hq_next_cursor page = Some cursor ∧
    queued_after (hc_view demo_handoffs2) [] (lit "support") (Some cursor) = rest.
Proof.
  destruct (succeeds_with _ _ demo_queue_call) as (page & E & Hp).
  destruct (handoff_queue_exact demo_handoffs2
    (handoff_list_queued_as (lit "support") None 1 local_process demo_handoffs2).1 1 local_process
    demo_handoffs_inv) as [H _].
  destruct (H (lit "support") None page E) as (_ & _ & rest & Hr & _ & Hm & _ & Hc).
  apply andb_true_iff in Hp as [[_ Hmore]%andb_true_iff Hcur%bool_decide_eq_true].
  destruct (hq_next_cursor page) as [cursor|] eqn:Ec.
  - eexists _, page, rest, cursor. split; [exact E|]. split; [exact Hr|].
    split; [exact (proj1 Hm Hmore)|]. split; [exact Ec|]. exact (Hc _ eq_refl).
  - exfalso. destruct Hcur as [? Hcur]. discriminate Hcur.
Defined.

(** A resolver that knows one Thread. *)
#[local] Instance demo_resolver : HumanHandoffSubjectResolver () :=
  λ subject _ v, (v, Ok (bool_decide (subject = HsThread (lit "thread-1")))).

Lemma demo_engine_call :
  succeeds (λ sn, bool_decide (hs_id sn = lit "h3"))
    (handoff_engine_create_as (lit "h3") (demo_handoff_request 1) 100 local_process (demo_handoffs2, ())) = true.
Proof. vm_compute. reflexivity. Qed.

Lemma engine_requires_subject_witness :
  (subject_exists (hr_subject (demo_handoff_request 1)) local_process ()).2 = Ok true.
Proof.
  destruct (succeeds_with _ _ demo_engine_call) as (sn & E & _).
  destruct (engine_requires_subject (demo_handoffs2, ()) _ (lit "h3") (demo_handoff_request 1) 100
    local_process _ demo_handoffs_inv E) as (_ & _ & H).
  apply H. right. by exists sn.
Defined.
