(* ===== verification/Futures.v ===== *)
(** Futures as finite trees of calls.

    An async function that awaits, or calls objects it shares with others, is
    a [prog]: a node is a call and branches over its answers.  This file has
    the paths of a future, what holds along every path, and the runs of one
    future against a world that others change between its calls.  The type of
    calls and their answers are a parameter. *)

From Stdlib Require Import ZArith Lia.
From stdpp Require Import base tactics list gmap relations numbers strings option.
From stdpp Require Import list.
From S2P Require Import Prelude.

(** How an awaited future ends: it panics when it is built, loses to the
    cancellation token, resolves, panics while it is polled, or its time
    elapses. *)
Inductive raced (A : Type) :=
| RcPanicked
| RcCancelled
| RcReturned (r : result A)
| RcIsolated
| RcElapsed.
Arguments RcPanicked {A}.
Arguments RcCancelled {A}.
Arguments RcReturned {A} r.
Arguments RcIsolated {A}.
Arguments RcElapsed {A}.

(** A race against the token is lost only when the token is raised. *)
Definition fair_race {A} (cancelled : bool) (r : raced A) : Prop :=
  r = RcCancelled → cancelled = true.

(** * Programs *)

Inductive prog {call : Type} (answer : call → Type) (A : Type) :=
| Done (a : A)
| Await (c : call) (k : answer c → prog answer A).
Arguments Done {call answer A} a.
Arguments Await {call answer A} c k.

#[global] Instance prog_ret {call} {answer : call → Type} : MRet (prog answer) := @Done call answer.
#[global] Instance prog_bind {call} {answer : call → Type} : MBind (prog answer) := λ A B f,
  fix bind p := match p with Done a => f a | Await c k => Await c (λ r, bind (k r)) end.

Definition await {call} {answer : call → Type} (c : call) : prog answer (answer c) := Await c Done.

(** A step of a future that ends it with [?]. *)
Definition or_fail {call} {answer : call → Type} {A B} (r : result A)
    (k : A → prog answer (result B)) : prog answer (result B) :=
  match r with Ok a => k a | Err e => mret (Err e) end.

(** A call with its answer. *)
Record item {call : Type} {answer : call → Type} := {
  it_call : call;
  it_answer : answer it_call;
}.
Arguments item {call} answer.

Notation "c ↦ᵣ r" := {| it_call := c; it_answer := r |} (at level 60).

(** * Paths of a future *)

Section paths.
Context {call : Type} {answer : call → Type}.

Abbreviation prog := (prog answer).
Abbreviation item := (item answer).

(** The calls [l] lead from [p] to [q]. *)
Fixpoint follows {A} (p : prog A) (l : list item) (q : prog A) : Prop :=
  match l with
  | [] => q = p
  | i :: l =>
      match p with
      | Done _ => False
      | Await c k => ∃ r, i = (c ↦ᵣ r) ∧ follows (k r) l q
      end
  end.

Lemma follows_nil {A} (p : prog A) : follows p [] p.
Proof. by destruct p. Qed.

Lemma follows_done {A} (a : A) l q : follows (Done a) l q → l = [] ∧ q = Done a.
Proof. by destruct l. Qed.

Lemma follows_await {A} c (k : answer c → prog A) l a :
  follows (Await c k) l (Done a) → ∃ r l', l = (c ↦ᵣ r) :: l' ∧ follows (k r) l' (Done a).
Proof. destruct l as [|i l]; [done|]. intros (r & -> & H). eauto. Qed.

Lemma follows_cons_inv {A} (p : prog A) i l q :
  follows p (i :: l) q → ∃ c k r, p = Await c k ∧ i = (c ↦ᵣ r) ∧ follows (k r) l q.
Proof. destruct p as [b|c k]; [done|]. intros (r & -> & H). by exists c, k, r. Qed.

Lemma follows_nil_inv {A} (p q : prog A) : follows p [] q → q = p.
Proof. by destruct p. Qed.

Lemma follows_app {A} (p q : prog A) l1 l2 s :
  follows p l1 q → follows q l2 s → follows p (l1 ++ l2) s.
Proof.
  revert p. induction l1 as [|i l1 IH]; intros p H1 H2.
  - destruct p; simpl in H1; by subst.
  - destruct p as [a|c k]; [done|]. destruct H1 as (r & -> & H1). simpl. exists r. eauto.
Qed.

Lemma follows_snoc {A} (p : prog A) l c k r :
  follows p l (Await c k) → follows p (l ++ [c ↦ᵣ r]) (k r).
Proof. intros H. eapply follows_app; [done|]. simpl. exists r. split; [done|apply follows_nil]. Qed.

(** A complete path of [p ≫= f] goes through a result of [p]. *)
Lemma follows_bind {A B} (p : prog A) (f : A → prog B) l b :
  follows (p ≫= f) l (Done b) →
  ∃ a l1 l2, l = l1 ++ l2 ∧ follows p l1 (Done a) ∧ follows (f a) l2 (Done b).
Proof.
  revert l. induction p as [a|c k IH]; intros l H; [by exists a, [], l|].
  destruct l as [|i l]; [done|]. destruct H as (r & -> & H).
  destruct (IH r l H) as (a & l1 & l2 & -> & H1 & H2).
  exists a, ((c ↦ᵣ r) :: l1), l2. split; [done|]. split; [by exists r|done].
Qed.

(** * Programs every path of which keeps a property *)

(** Every path of [p] after the calls [l] keeps [I], and ends with [Q]. *)
Fixpoint safe {A} (I : list item → Prop) (Q : list item → A → Prop) (p : prog A) (l : list item)
    : Prop :=
  I l ∧ match p with Done a => Q l a | Await c k => ∀ r, safe I Q (k r) (l ++ [c ↦ᵣ r]) end.

Lemma safe_here {A} I Q (p : prog A) l : safe I Q p l → I l.
Proof. by destruct p; intros [H _]. Qed.

Lemma safe_follows {A} I Q (p q : prog A) l new :
  safe I Q p l → follows p new q → safe I Q q (l ++ new).
Proof.
  revert p l. induction new as [|i new IH]; intros p l Hs Hf.
  - apply follows_nil_inv in Hf as ->. by rewrite app_nil_r.
  - apply follows_cons_inv in Hf as (c & k & r & -> & -> & Hf). destruct Hs as [_ Hs].
    rewrite cons_middle, app_assoc. by apply (IH (k r)).
Qed.

Lemma safe_bind {A B} I Q (p : prog A) (f : A → prog B) l :
  safe I (λ l a, safe I Q (f a) l) p l → safe I Q (p ≫= f) l.
Proof.
  revert l. induction p as [a|c k IH]; intros l; [by intros [_ H]|].
  intros [Hl Hs]. split; [done|]. intros r. by apply IH.
Qed.

Lemma safe_mono {A} I (Q Q' : list item → A → Prop) p l :
  safe I Q p l → (∀ l a, Q l a → Q' l a) → safe I Q' p l.
Proof.
  intros Hs HQ. revert l Hs. induction p as [a|c k IH]; intros l [Hl Hs]; (split; [done|]); eauto.
Qed.

(** The calls of [p] all satisfy [C]. *)
Fixpoint always {A} (C : call → Prop) (p : prog A) : Prop :=
  match p with Done _ => True | Await c k => C c ∧ ∀ r, always C (k r) end.

Lemma always_bind {A B} C (p : prog A) (f : A → prog B) :
  always C p → (∀ a, always C (f a)) → always C (p ≫= f).
Proof. intros Hp Hf. induction p as [a|c k IH]; [apply Hf|]. destruct Hp as [Hc Hp]. split; [done|].
  intros r. by apply IH. Qed.

(** Every path of [p] ends with [Q]. *)
Fixpoint ends {A} (Q : A → Prop) (p : prog A) : Prop :=
  match p with Done a => Q a | Await c k => ∀ r, ends Q (k r) end.

Lemma ends_bind {A B} (Q : B → Prop) (p : prog A) (f : A → prog B) :
  ends (λ a, ends Q (f a)) p → ends Q (p ≫= f).
Proof. induction p as [a|c k IH]; [done|]. intros H r. by apply IH. Qed.

Lemma ends_mono {A} (Q Q' : A → Prop) p : (∀ b, Q b → Q' b) → ends Q p → ends Q' p.
Proof. intros H. induction p as [b|c k IH]; simpl; auto. Qed.

Lemma ends_any {A} (Q : A → Prop) p : (∀ a, Q a) → ends Q p.
Proof. intros H. induction p as [a|c k IH]; simpl; auto. Qed.

Lemma ends_follows {A} (Q : A → Prop) p l a : ends Q p → follows p l (Done a) → Q a.
Proof.
  revert p. induction l as [|i l IH]; intros p Hp Hf.
  - apply follows_nil_inv in Hf as <-. exact Hp.
  - apply follows_cons_inv in Hf as (c & k & r & -> & -> & Hf). exact (IH _ (Hp r) Hf).
Qed.

(** No path of [p] has more than [n] calls. *)
Fixpoint within {A} (n : nat) (p : prog A) {struct p} : Prop :=
  match p with
  | Done _ => True
  | Await _ k => match n with O => False | S n => ∀ r, within n (k r) end
  end.

Lemma within_le {A} n m (p : prog A) : (n ≤ m)%nat → within n p → within m p.
Proof.
  revert n m. induction p as [a|c k IH]; intros n m Hle; [done|].
  destruct n; [by intros []|]. destruct m; [lia|]. intros H r. apply (IH r n); [lia|apply H].
Qed.

Lemma within_bind {A B} n m (p : prog A) (f : A → prog B) :
  within n p → (∀ a, within m (f a)) → within (n + m) (p ≫= f).
Proof.
  intros Hp Hf. revert n Hp. induction p as [a|c k IH]; intros n Hp.
  - eapply within_le; [|apply Hf]. lia.
  - destruct n; [done|]. intros r. by apply IH.
Qed.

Lemma within_follows {A} n (p q : prog A) l : within n p → follows p l q → (length l ≤ n)%nat.
Proof.
  revert p n. induction l as [|i l IH]; intros p n Hp Hf; simpl; [lia|].
  destruct p as [a|c k]; [done|]. destruct n; [done|]. destruct Hf as (r & -> & Hf).
  specialize (IH _ n (Hp r) Hf). lia.
Qed.

End paths.

#[global] Arguments follows : simpl never.

(** A complete path, call by call. *)
Ltac follow_step H :=
  first
  [ apply follows_done in H as [-> H]; injection H as H
  | apply follows_await in H as (? & ? & -> & H)
  | match type of H with
    | follows (match ?r with _ => _ end) _ _ => destruct r eqn:?
    | follows (match ?r with _ => _ end ≫= _) _ _ => destruct r eqn:?
    end
  | progress cbn [mbind prog_bind await mret prog_ret] in H
  | progress unfold mret, prog_ret, await in H ].
(** * Runs in an environment *)

Section runs.
Context {call : Type} {answer : call → Type} {W : Type}.
Context (environment : W → W → Prop) (handles : W → ∀ c : call, answer c → W → Prop).

(** One future runs to its end, while others change the world between its
    calls. *)
Inductive runs {A} : prog answer A → W → list (item answer) → W → A → Prop :=
| run_done a w w' : rtc environment w w' → runs (Done a) w [] w' a
| run_call c k r w w1 w2 l w' a :
    rtc environment w w1 → handles w1 c r w2 → runs (k r) w2 l w' a →
    runs (Await c k) w ((c ↦ᵣ r) :: l) w' a.

Lemma runs_follows {A} (p : prog answer A) w l w' a : runs p w l w' a → follows p l (Done a).
Proof. induction 1; [apply follows_nil|]. by eexists. Qed.

(** The steps of the world in a run: those of others, and the calls. *)
Definition moves (w w' : W) : Prop := environment w w' ∨ ∃ c r, handles w c r w'.

Lemma environment_moves w w' : rtc environment w w' → rtc moves w w'.
Proof. apply rtc_subrel. by left. Qed.

Lemma call_moves w c r w' : handles w c r w' → moves w w'.
Proof. right. eauto. Qed.

Lemma runs_moves {A} (p : prog answer A) w l w' a : runs p w l w' a → rtc moves w w'.
Proof.
  induction 1 as [a w w' H|c k r w w1 w2 l w' a H1 H2 _ IH]; [by apply environment_moves|].
  etrans; [by apply environment_moves|]. eapply rtc_l; [by eapply call_moves|done].
Qed.

(** The call of a run, between the worlds before and after it. *)
Lemma runs_call {A} (p : prog answer A) w l w' a i :
  runs p w l w' a → i ∈ l →
  ∃ w1 w2, rtc moves w w1 ∧ handles w1 (it_call i) (it_answer i) w2 ∧ rtc moves w2 w'.
Proof.
  induction 1 as [a w w' H|c k r w w1 w2 l w' a H1 H2 H3 IH]; intros Hi.
  - by apply not_elem_of_nil in Hi.
  - pose proof (environment_moves _ _ H1) as M1. apply elem_of_cons in Hi as [->|Hi].
    + exists w1, w2. split_and!; [done|exact H2|by eapply runs_moves].
    + destruct (IH Hi) as (u & v & G1 & G2 & G3). exists u, v. split_and!; [|done..].
      etrans; [exact M1|]. eapply rtc_l; [by eapply call_moves|done].
Qed.
End runs.
