(* ===== verification/Workers.v ===== *)
(** A bounded set of workers over a work list, as the sweeps of the executor
    and of the reconciler keep it (src/src/effect/executor.rs and
    src/src/effect/reconciler.rs, the loops of [run_once_as] and
    [spawn_prepared]): a queue, a [JoinSet] and the reports so far.  In any
    order in which workers finish, stop or are still running, at most the
    limit runs, none is lost, and the reports come in the order of the list. *)

From Stdlib Require Import ZArith Lia.
From stdpp Require Import sorting base tactics list gmap fin_maps relations numbers strings option.
From stdpp Require Import list.
From S2P Require Import Prelude Futures.

(** * The loop *)

(** The variables of the loop: the queue, the [JoinSet] and the fallbacks,
    both by task identity, and the reports so far. *)
Record Sweep {call : Type} {answer : call → Type} {P A : Type} := {
  sw_pending : list (nat * P);
  sw_next_task : nat;
  sw_workers : gmap nat (nat * prog answer A);
  sw_fallbacks : gmap nat (nat * A);
  sw_attempts : list (nat * A);
}.
Arguments Sweep {call} answer P A.

Definition index_le {A} (a b : nat * A) : Prop := (a.1 ≤ b.1)%nat.
#[global] Instance index_le_dec {A} (a b : nat * A) : Decision (index_le a b).
Proof. unfold index_le. apply _. Defined.

Section loop.
Context {call : Type} {answer : call → Type} {P A : Type}.
Context (run : P → prog answer A) (fallback : P → A).

Abbreviation Sweep := (Sweep answer P A).

(** [spawn_prepared]. *)
Definition spawn (index : nat) (prepared : P) (s : Sweep) : Sweep :=
  {| sw_pending := sw_pending s; sw_next_task := S (sw_next_task s);
     sw_workers := <[sw_next_task s := (index, run prepared)]> (sw_workers s);
     sw_fallbacks := <[sw_next_task s := (index, fallback prepared)]> (sw_fallbacks s);
     sw_attempts := sw_attempts s |}.

(** [if let Some((index, prepared)) = pending.pop_front() { spawn }]. *)
Definition spawn_next (s : Sweep) : Sweep :=
  match sw_pending s with
  | [] => s
  | (index, prepared) :: pending =>
      spawn index prepared
        {| sw_pending := pending; sw_next_task := sw_next_task s; sw_workers := sw_workers s;
           sw_fallbacks := sw_fallbacks s; sw_attempts := sw_attempts s |}
  end.

(** The first workers. *)
Definition pool_start (max_concurrency : Z) (prepared : list P) : Sweep :=
  Nat.iter (Z.to_nat max_concurrency) spawn_next
    {| sw_pending := imap pair prepared; sw_next_task := 0; sw_workers := ∅; sw_fallbacks := ∅;
       sw_attempts := [] |}.

(** One iteration of the loop: the task [task_id] leaves the [JoinSet], with
    its report or, when it panicked, without; [lost] is the error of a task
    without a fallback. *)
Definition pool_join (lost : HarnessError) (task_id : nat) (joined : option A) (s : Sweep)
    : result Sweep :=
  fallback ← ok_or (sw_fallbacks s !! task_id) lost;
  let attempt :=
    match sw_workers s !! task_id, joined with
    | Some (index, _), Some attempt => (index, attempt)
    | _, _ => fallback
    end in
  Ok (spawn_next
        {| sw_pending := sw_pending s; sw_next_task := sw_next_task s;
           sw_workers := delete task_id (sw_workers s);
           sw_fallbacks := delete task_id (sw_fallbacks s);
           sw_attempts := sw_attempts s ++ [attempt] |}).

(** The reports, sorted by index. *)
Definition pool_reports (s : Sweep) : list A := (merge_sort index_le (sw_attempts s)).*2.

(** A worker has gone on to [p]. *)
Definition with_worker (task index : nat) (p : prog answer A) (s : Sweep) : Sweep :=
  {| sw_pending := sw_pending s; sw_next_task := sw_next_task s;
     sw_workers := <[task := (index, p)]> (sw_workers s);
     sw_fallbacks := sw_fallbacks s; sw_attempts := sw_attempts s |}.

(** A worker may leave the set: with its report, or without when it panicked. *)
Definition leaves (p : prog answer A) (joined : option A) : Prop :=
  joined = None ∨ ∃ a, p = Done a ∧ joined = Some a.

(** A step of the loop, whatever the calls answer. *)
Inductive pool_step (lost : HarnessError) (s : Sweep) : Sweep → Prop :=
| pool_call task index c k r :
    sw_workers s !! task = Some (index, Await c k) →
    pool_step lost s (with_worker task index (k r) s)
| pool_joined task index p joined s' :
    sw_workers s !! task = Some (index, p) → leaves p joined →
    pool_join lost task joined s = Ok s' → pool_step lost s s'.
End loop.

(** ** A work list of one *)

Section one.
Context {call : Type} {answer : call → Type} {P A : Type}.
Context (run : P → prog answer A) (fallback : P → A).

Lemma spawn_iter_one (pe : P) k :
  Nat.iter (S k) (spawn_next run fallback)
    {| sw_pending := [(0%nat, pe)]; sw_next_task := 0; sw_workers := ∅; sw_fallbacks := ∅;
       sw_attempts := [] |} =
  {| sw_pending := []; sw_next_task := 1; sw_workers := {[0%nat := (0%nat, run pe)]};
     sw_fallbacks := {[0%nat := (0%nat, fallback pe)]}; sw_attempts := [] |}.
Proof. induction k as [|k IH]; [done|]. by rewrite Nat.iter_succ, IH. Qed.

Lemma pool_start_one max (pe : P) : (1 ≤ max)%Z →
  pool_start run fallback max [pe] =
  {| sw_pending := []; sw_next_task := 1; sw_workers := {[0%nat := (0%nat, run pe)]};
     sw_fallbacks := {[0%nat := (0%nat, fallback pe)]}; sw_attempts := [] |}.
Proof.
  intros H. unfold pool_start. assert (∃ k, Z.to_nat max = S k) as [k ->]
    by (exists (Z.to_nat (max - 1)); lia). apply spawn_iter_one.
Qed.

(** The loop once its only worker has reported. *)
Definition idle (a : A) : Workers.Sweep answer P A :=
  {| sw_pending := []; sw_next_task := 1; sw_workers := ∅; sw_fallbacks := ∅;
     sw_attempts := [(0%nat, a)] |}.

Lemma pool_follow lost (s : Workers.Sweep answer P A) task index p l a :
  sw_workers s !! task = Some (index, p) → follows p l (Done a) →
  rtc (pool_step run fallback lost) s (with_worker task index (Done a) s).
Proof.
  revert s l. induction p as [b|c k IH]; intros s l Hw Hf.
  - apply follows_done in Hf as [-> [= ->]]. destruct s. unfold with_worker. simpl in *.
    by rewrite insert_id.
  - apply follows_await in Hf as (r & l' & -> & Hf). eapply rtc_l; [by eapply pool_call with (r := r)|].
    assert (with_worker task index (Done a) s
            = with_worker task index (Done a) (with_worker task index (k r) s)) as ->.
    { unfold with_worker. simpl. by rewrite insert_insert_eq. }
    eapply IH; [|done]. apply lookup_insert_eq.
Qed.

Lemma pool_one lost max (pe : P) l a : (1 ≤ max)%Z → follows (run pe) l (Done a) →
  rtc (pool_step run fallback lost) (pool_start run fallback max [pe]) (idle a).
Proof.
  intros H Hf. rewrite pool_start_one by done. etrans.
  { eapply (pool_follow _ _ 0 0); [apply lookup_singleton_eq|done]. }
  apply rtc_once. eapply (pool_joined _ _ _ _ 0 0 _ (Some a)); [apply lookup_insert_eq| |done].
  right. by exists a.
Qed.
End one.

(** ** Maps whose values carry an index *)

Definition indices {V} (m : gmap nat (nat * V)) : list nat := (map_to_list m).*2.*1.

Lemma indices_insert {V} (m : gmap nat (nat * V)) k v :
  m !! k = None → indices (<[k := v]> m) ≡ₚ v.1 :: indices m.
Proof. intros H. unfold indices. by rewrite map_to_list_insert. Qed.

Lemma indices_delete {V} (m : gmap nat (nat * V)) k v :
  m !! k = Some v → indices m ≡ₚ v.1 :: indices (delete k m).
Proof. intros H. unfold indices. rewrite <-(map_to_list_delete _ _ _ H). done. Qed.

Lemma indices_update {V} (m : gmap nat (nat * V)) k i v v' :
  m !! k = Some (i, v) → indices (<[k := (i, v')]> m) ≡ₚ indices m.
Proof.
  intros H. rewrite (indices_delete _ _ _ H), <-insert_delete_eq.
  rewrite indices_insert; [done|]. apply lookup_delete_eq.
Qed.

Lemma indices_empty {V} : indices (∅ : gmap nat (nat * V)) = [].
Proof. unfold indices. by rewrite map_to_list_empty. Qed.

Lemma sorted_indices {V} (l : list (nat * V)) :
  StronglySorted index_le l → StronglySorted le l.*1.
Proof.
  induction 1 as [|y l _ IH Hy]; simpl; constructor; [done|]. apply Forall_fmap.
  eapply Forall_impl; [exact Hy|]. done.
Qed.

(** A list sorted by an index that runs through [0 .. n-1] is in order. *)
Lemma sorted_seq l n : l ≡ₚ seq 0 n → StronglySorted le l → l = seq 0 n.
Proof.
  intros Hp Hs. apply (StronglySorted_unique le); [done| |done].
  clear. generalize 0%nat. induction n as [|n IH]; intros k; simpl; constructor; [auto|].
  apply Forall_forall. intros x Hx%elem_of_seq. lia.
Qed.

(** * The invariant of the loop *)

Section pool.
Context {call : Type} {answer : call → Type} {P A : Type}.
Context (run : P → prog answer A) (fallback : P → A) (names : P → A → Prop).
Context (run_names : ∀ p, ends (names p) (run p)) (fallback_names : ∀ p, names p (fallback p)).

Abbreviation Sweep := (Sweep answer P A).

(** The variables of the loop, for a work list [l] and up to [k] workers. *)
Record pool_inv (l : list P) (k : nat) (sw : Sweep) : Prop := {
  po_indices : (sw_pending sw).*1 ++ indices (sw_workers sw) ++ (sw_attempts sw).*1
               ≡ₚ seq 0 (length l);
  po_pending idx pe : (idx, pe) ∈ sw_pending sw → l !! idx = Some pe;
  po_workers task idx p : sw_workers sw !! task = Some (idx, p) →
    (task < sw_next_task sw)%nat ∧ ∃ pe, l !! idx = Some pe ∧ ends (names pe) p ∧
    sw_fallbacks sw !! task = Some (idx, fallback pe);
  po_attempts idx att : (idx, att) ∈ sw_attempts sw → ∃ pe, l !! idx = Some pe ∧ names pe att;
  po_bound : (size (sw_workers sw) ≤ k)%nat;
  po_busy : sw_pending sw ≠ [] → size (sw_workers sw) = k;
}.

Lemma spawn_next_pool l k sw :
  pool_inv l k sw → pool_inv l (S k) (spawn_next run fallback sw).
Proof.
  intros [P1 P2 P3 P4 P5 P6]. unfold spawn_next.
  destruct (sw_pending sw) as [|[idx pe] rest] eqn:Ep.
  { split; rewrite ?Ep; [done..|lia|done]. }
  assert (sw_workers sw !! sw_next_task sw = None) as Hn.
  { destruct (sw_workers sw !! sw_next_task sw) as [[i p]|] eqn:E; [|done].
    destruct (P3 _ _ _ E). lia. }
  specialize (P6 ltac:(done)). split; simpl.
  - rewrite indices_insert by done. rewrite <-P1. simpl. by rewrite <-Permutation_middle.
  - intros idx' pe' Hin. apply P2. by right.
  - intros task idx' p. destruct (decide (task = sw_next_task sw)) as [->|Hne].
    + rewrite !lookup_insert_eq. intros [= <- <-]. split; [lia|]. exists pe.
      split_and!; [apply P2; by left|apply run_names|done].
    + rewrite !lookup_insert_ne by done. intros Hw. destruct (P3 _ _ _ Hw). split; [lia|done].
  - exact P4.
  - rewrite map_size_insert_None by done. lia.
  - intros _. rewrite map_size_insert_None by done. lia.
Qed.

Lemma imap_pair_fst {V} (l : list V) n : (imap (λ i y, ((n + i)%nat, y)) l).*1 = seq n (length l).
Proof.
  revert n. induction l as [|y l IH]; intros n; [done|]. simpl. f_equal; [lia|].
  rewrite <-IH. f_equal. apply imap_ext. intros i z _. simpl. f_equal. lia.
Qed.

Lemma pool_start_inv max l :
  pool_inv l (Z.to_nat max) (pool_start run fallback max l).
Proof.
  unfold pool_start. induction (Z.to_nat _) as [|k IH]; simpl; [|by apply spawn_next_pool].
  split; simpl.
  - assert (indices (∅ : gmap nat (nat * prog answer A)) = []) as -> by apply indices_empty.
    rewrite !app_nil_r. by rewrite <-(imap_pair_fst l 0).
  - intros idx pe (i & y & [= -> ->] & H)%elem_of_lookup_imap. done.
  - intros task idx p. by rewrite lookup_empty.
  - intros idx att H. by apply not_elem_of_nil in H.
  - done.
  - done.
Qed.

Lemma pool_work l k sw task idx c (f : answer c → prog answer A) r :
  pool_inv l k sw → sw_workers sw !! task = Some (idx, Await c f) →
  pool_inv l k (with_worker task idx (f r) sw).
Proof.
  intros [P1 P2 P3 P4 P5 P6] Hw. split; simpl; [|done| |done| |].
  - by rewrite (indices_update _ _ _ _ _ Hw).
  - intros task' idx' p. destruct (decide (task' = task)) as [->|Hne].
    + rewrite lookup_insert_eq. intros [= <- <-].
      destruct (P3 _ _ _ Hw) as (Hlt & pe & Hl & He & Hf). split; [done|]. exists pe.
      split_and!; [done|apply (He r)|done].
    + rewrite lookup_insert_ne by done. apply P3.
  - by rewrite map_size_insert_Some by eauto.
  - by rewrite map_size_insert_Some by eauto.
Qed.

(** A worker that leaves the set: its report, or its fallback, joins the
    reports, and the next Effect of the queue takes its place. *)
Lemma pool_join_inv lost l k sw task idx p joined :
  pool_inv l (S k) sw → sw_workers sw !! task = Some (idx, p) →
  leaves p joined →
  ∃ sw', pool_join run fallback lost task joined sw = Ok sw' ∧ pool_inv l (S k) sw'.
Proof.
  intros [P1 P2 P3 P4 P5 P6] Hw Hj. destruct (P3 _ _ _ Hw) as (Hlt & pe & Hl & He & Hf).
  unfold pool_join. rewrite Hf, Hw. simpl. eexists. split; [done|].
  apply spawn_next_pool. assert (is_Some (sw_workers sw !! task)) as Hsome by eauto.
  pose proof (map_size_delete_Some _ _ Hsome) as Hs.
  pose proof (map_size_ne_0_lookup_2 _ _ Hsome) as Hne.
  assert (∃ att, match joined with Some att => (idx, att) | None => (idx, fallback pe) end
                 = (idx, att) ∧ names pe att) as (att & Ha & Hnames).
  { destruct joined as [att|].
    - destruct Hj as [|(att' & -> & [= ->])]; [done|]. by exists att'.
    - eexists. split; [done|]. apply fallback_names. }
  rewrite Ha. split; simpl.
  - rewrite fmap_app. simpl. rewrite <-P1, (indices_delete _ _ _ Hw). simpl.
    by rewrite (assoc_L app (indices _)), <-Permutation_cons_append, Permutation_middle.
  - exact P2.
  - intros task' idx' p'. rewrite !lookup_delete_Some. intros [Hn Hw'].
    destruct (P3 _ _ _ Hw') as (Hlt' & pe' & H1 & H2 & H3). split; [done|]. exists pe'.
    split_and!; [done..|]. by apply lookup_delete_Some.
  - intros idx' att' [Hin|Hin]%elem_of_app; [by apply P4|].
    apply list_elem_of_singleton in Hin as [= -> ->]. by exists pe.
  - lia.
  - intros Hp. specialize (P6 Hp). lia.
Qed.

(** The reports of an idle pool, sorted. *)
Lemma pool_reports_inv l0 k sw :
  pool_inv l0 (S k) sw → sw_workers sw = ∅ → Forall2 names l0 (pool_reports sw).
Proof.
  unfold pool_reports.
  intros [P1 P2 P3 P4 P5 P6] Hw.
  assert (sw_pending sw = []) as Ep.
  { destruct (sw_pending sw); [done|]. specialize (P6 ltac:(done)). by rewrite Hw, map_size_empty in P6. }
  rewrite Ep, Hw in P1. unfold indices in P1. rewrite map_to_list_empty in P1. simpl in P1. simpl.
  set (l := merge_sort index_le (sw_attempts sw)).
  assert (l ≡ₚ sw_attempts sw) as Hp by apply merge_sort_Permutation.
  assert (l.*1 = seq 0 (length l0)) as Hl.
  { apply sorted_seq; [by rewrite Hp|]. apply sorted_indices, StronglySorted_merge_sort.
    - intros x y z. unfold index_le. lia.
    - intros x y. unfold index_le. lia. }
  apply Forall2_same_length_lookup. split.
  - by rewrite length_fmap, <-(length_fmap fst), Hl, length_seq.
  - intros i pe att Hpe (ia & -> & Hi)%list_lookup_fmap_Some.
    assert (l.*1 !! i = Some ia.1) as Hi1 by (by rewrite list_lookup_fmap, Hi).
    rewrite Hl in Hi1. apply lookup_seq in Hi1 as [Hi1 _]. simpl in Hi1.
    destruct ia as [idx att]. simpl in *. subst idx.
    destruct (P4 i att) as (pe' & Hpe' & Hn).
    { rewrite <-Hp. by eapply list_elem_of_lookup_2. }
    by simplify_eq.
Qed.

Lemma pool_step_inv lost l k s s' :
  pool_inv l (S k) s → pool_step run fallback lost s s' → pool_inv l (S k) s'.
Proof.
  intros Hi [task idx c f r Hw|task idx p joined s'' Hw Hj Hs]; [by eapply pool_work|].
  destruct (pool_join_inv lost _ _ _ _ _ _ _ Hi Hw Hj) as (s2 & E & Hi'). rewrite Hs in E. injection E as ->. done.
Qed.

(** Whatever the calls answer and in whatever order the workers end. *)
Lemma pool_steps_inv lost max l s :
  (1 ≤ max)%Z → rtc (pool_step run fallback lost) (pool_start run fallback max l) s →
  pool_inv l (Z.to_nat max) s.
Proof.
  intros Hmax Hs. assert (∃ k, Z.to_nat max = S k) as [k Hk] by (exists (Z.to_nat (max - 1)); lia).
  pose proof (pool_start_inv max l) as H0. rewrite Hk in *. revert H0.
  induction Hs as [s|s s1 s2 Hst _ IH]; [done|]. intros Hi. apply IH. by eapply pool_step_inv.
Qed.
End pool.
