(* ===== verification/Executor.v ===== *)
(** The governed executor of src/src/effect/executor.rs: one bounded sweep over
    the pending Effects of a tenant.  Each eligible Effect is authorized by the
    host's policy, claimed, admitted by the dispatch governor, handed to its
    connector and settled.

    A future is a [prog]: a finite tree whose nodes are the calls it awaits or
    makes on objects it shares with others (the clock, the cancellation token,
    the policy, the ledger, the governor, the connector) and whose branches are
    their answers.  What those calls do is said in ExecutorPaths. *)

From Stdlib Require Import ZArith Lia.
From stdpp Require Import sorting base tactics list gmap numbers strings option.
From stdpp Require Import list.
From S2P Require Import Prelude Kernel Digest Json Sqlite Pairs Effect EffectCoordinator Governor Futures Workers.

(** * Constants *)

Definition EFFECT_EXECUTOR_API_VERSION : Z := 1.
Definition MAX_CONNECTORS : Z := 256.
Definition MAX_OPERATIONS_PER_CONNECTOR : Z := 256.
Definition MAX_CONNECTOR_DESCRIPTOR_BYTES : Z := 65536.
Definition MAX_EXECUTOR_SCAN_LIMIT : Z := 256.
Definition MAX_EXECUTOR_CONCURRENCY : Z := 64.
Definition MIN_POLICY_TIMEOUT_MS : Z := 1.
Definition MAX_POLICY_TIMEOUT_MS : Z := 60000.
Definition MIN_EXECUTION_TIMEOUT_MS : Z := 1.
Definition MAX_EXECUTION_TIMEOUT_MS : Z := 604800000.
Definition MIN_LEASE_DURATION_MS : Z := 1000.
Definition MAX_LEASE_DURATION_MS : Z := 604800000.
Definition MAX_RETRY_AFTER_MS : Z := 604800000.
Definition DEFAULT_SCAN_LIMIT : Z := 64.
Definition DEFAULT_CONCURRENCY : Z := 8.
Definition DEFAULT_POLICY_TIMEOUT_MS : Z := 5000.
Definition DEFAULT_GOVERNOR_TIMEOUT_MS : Z := 5000.
Definition DEFAULT_GOVERNOR_RETRY_AFTER_MS : Z := 5000.
Definition DEFAULT_EXECUTION_TIMEOUT_MS : Z := 240000.
Definition DEFAULT_SETTLEMENT_RESERVE_MS : Z := 30000.
Definition DEFAULT_LEASE_DURATION_MS : Z := 300000.

(** * Data *)

Inductive EffectIdempotencyContract := TargetEnforced | ConnectorEnforced.

Record EffectConnectorDescriptor := {
  cd_capability : str;
  cd_api_version : Z;
  cd_operations : gset str;
  cd_idempotency : EffectIdempotencyContract;
}.

(** The cancellation token of a request, which its future raises when it
    settles or is dropped, is the connector's to observe and has no field. *)
Record EffectExecutionRequest := {
  xr_effect_id : EffectId;
  xr_authority : AuthorityContext;
  xr_operation : EffectOperation;
  xr_idempotency_key : str;
  xr_input : Json;
  xr_input_sha256 : str;
  xr_attempt : Z;
  xr_lease_id : EffectLeaseId;
  xr_lease_expires_at_ms : Z;
}.

Inductive EffectExecutionOutcome :=
| XoApplied (receipt : EffectReceipt)
| XoNotApplied (reason_code : str) (retry_after_ms : option Z)
| XoUnknown (reason_code : str).

(** A connector is an object of the host; the number is its reference. *)
Record RegisteredEffectConnector := {
  rg_origin : CapabilityOrigin;
  rg_descriptor : EffectConnectorDescriptor;
  rg_connector : nat;
}.

Definition EffectConnectorRegistry : Type := gmap str RegisteredEffectConnector.

Record EffectExecutionPolicyRequest := {
  pr_effect_id : EffectId;
  pr_authority : AuthorityContext;
  pr_operation : EffectOperation;
  pr_input : Json;
  pr_input_sha256 : str;
  pr_connector_origin : CapabilityOrigin;
  pr_idempotency : EffectIdempotencyContract;
}.

Inductive EffectExecutionDecision :=
| XdAllow
| XdDeny (reason_code : str).

(** The implementations of [EffectExecutionPolicy]: the two of the crate, and
    those of the host. *)
Inductive EffectExecutionPolicy :=
| DenyAllEffectExecutions
| AllowListEffectExecutionPolicy (allowed : gset (str * str))
| HostPolicy (reference : nat).

Record EffectExecutorConfig := {
  xc_scan_limit : Z;
  xc_max_concurrency : Z;
  xc_policy_timeout_ms : Z;
  xc_governor_timeout_ms : Z;
  xc_governor_retry_after_ms : Z;
  xc_execution_timeout_ms : Z;
  xc_settlement_reserve_ms : Z;
  xc_lease_duration_ms : Z;
}.

Record EffectExecutorRunRequest := {
  rr_cycle_id : str;
  rr_after : option EffectPageCursor;
}.

Inductive EffectExecutorAttemptOutcome :=
| AoConnectorUnavailable
| AoPolicyDenied (reason_code : str)
| AoPolicyUnavailable
| AoCancelledBeforeClaim
| AoClaimFenced (actual_revision : Z)
| AoClaimFailed
| AoClaimAlreadyCommitted
| AoClockUnavailableAfterClaim
| AoGovernorUnavailable (retry_at_ms : Z)
| AoRateLimited (retry_at_ms : Z)
| AoCircuitOpen (retry_at_ms : Z)
| AoApplied
| AoRejected (reason_code : str)
| AoRetryScheduled (reason_code : str) (retry_at_ms : Z)
| AoUnknown (reason_code : str)
| AoSettlementFenced (actual_revision : Z)
| AoSettlementFailed
| AoAttemptFailed.

Record EffectExecutorAttempt := {
  xa_effect_id : EffectId;
  xa_observed_revision : Z;
  xa_attempt : Z;
  xa_lease_id : option EffectLeaseId;
  xa_governor_settlement_failed : bool;
  xa_outcome : EffectExecutorAttemptOutcome;
}.

Record EffectExecutorRunReport := {
  xp_scanned_at_ms : Z;
  xp_scanned : Z;
  xp_eligible : Z;
  xp_has_more : bool;
  xp_next_after : option EffectPageCursor;
  xp_attempts : list EffectExecutorAttempt;
}.

(** The engine, the clock and the governor object of an executor are the
    shared objects its calls reach; the policy of [ConfiguredDispatchGovernor]
    is [xe_governor]. *)
Record EffectExecutor := {
  xe_connectors : EffectConnectorRegistry;
  xe_policy : EffectExecutionPolicy;
  xe_governor : option EffectDispatchGovernorPolicy;
  xe_config : EffectExecutorConfig;
}.

Record PreparedEffect := {
  pe_snapshot : EffectSnapshot;
  pe_attempt : Z;
  pe_lease_id : EffectLeaseId;
  pe_claim_command_id : EffectCommandId;
}.

Record EffectSettlementContext := {
  sx_cycle_id : str;
  sx_prepared : PreparedEffect;
  sx_claimed : EffectSnapshot;
  sx_lease : EffectLease;
  sx_authority : AuthorityContext;
}.

Record ExecutionIdentity := {
  xi_purpose : str;
  xi_cycle_id : str;
  xi_actor : ActorIdentity;
  xi_tenant_id : option str;
  xi_effect_id : str;
  xi_revision : Z;
  xi_attempt : Z;
  xi_lease_id : option str;
}.

#[global] Instance EffectIdempotencyContract_eq : EqDecision EffectIdempotencyContract.
Proof. solve_decision. Defined.
#[global] Instance EffectExecutionOutcome_eq : EqDecision EffectExecutionOutcome.
Proof. solve_decision. Defined.
#[global] Instance EffectExecutorAttemptOutcome_eq : EqDecision EffectExecutorAttemptOutcome.
Proof. solve_decision. Defined.
#[global] Instance EffectExecutorAttempt_eq : EqDecision EffectExecutorAttempt.
Proof. solve_decision. Defined.

(** * Configuration *)

Definition default_config : EffectExecutorConfig :=
  {| xc_scan_limit := DEFAULT_SCAN_LIMIT; xc_max_concurrency := DEFAULT_CONCURRENCY;
     xc_policy_timeout_ms := DEFAULT_POLICY_TIMEOUT_MS;
     xc_governor_timeout_ms := DEFAULT_GOVERNOR_TIMEOUT_MS;
     xc_governor_retry_after_ms := DEFAULT_GOVERNOR_RETRY_AFTER_MS;
     xc_execution_timeout_ms := DEFAULT_EXECUTION_TIMEOUT_MS;
     xc_settlement_reserve_ms := DEFAULT_SETTLEMENT_RESERVE_MS;
     xc_lease_duration_ms := DEFAULT_LEASE_DURATION_MS |}.

(** [EffectExecutorConfig::validate]. *)
Definition config_validate (c : EffectExecutorConfig) : result () :=
  _ ← reject_if (negb (in_range 1 MAX_EXECUTOR_SCAN_LIMIT (xc_scan_limit c)))
        (eff "Effect Executor scan_limit must be 1-{}" [ANum MAX_EXECUTOR_SCAN_LIMIT]);
  _ ← reject_if (negb (in_range 1 MAX_EXECUTOR_CONCURRENCY (xc_max_concurrency c)))
        (eff "Effect Executor max_concurrency must be 1-{}" [ANum MAX_EXECUTOR_CONCURRENCY]);
  _ ← reject_if (negb (in_range MIN_POLICY_TIMEOUT_MS MAX_POLICY_TIMEOUT_MS (xc_policy_timeout_ms c)))
        (eff "Effect Executor policy_timeout_ms must be {}-{}"
          [ANum MIN_POLICY_TIMEOUT_MS; ANum MAX_POLICY_TIMEOUT_MS]);
  _ ← reject_if (negb (in_range MIN_POLICY_TIMEOUT_MS MAX_POLICY_TIMEOUT_MS (xc_governor_timeout_ms c)))
        (eff "Effect Executor governor_timeout_ms must be {}-{}"
          [ANum MIN_POLICY_TIMEOUT_MS; ANum MAX_POLICY_TIMEOUT_MS]);
  _ ← reject_if (MAX_RETRY_AFTER_MS <? xc_governor_retry_after_ms c)%Z
        (eff "Effect Executor governor_retry_after_ms must be 0-{}" [ANum MAX_RETRY_AFTER_MS]);
  _ ← reject_if (negb (in_range MIN_EXECUTION_TIMEOUT_MS MAX_EXECUTION_TIMEOUT_MS
                         (xc_execution_timeout_ms c)))
        (eff "Effect Executor execution_timeout_ms must be {}-{}"
          [ANum MIN_EXECUTION_TIMEOUT_MS; ANum MAX_EXECUTION_TIMEOUT_MS]);
  _ ← reject_if (negb (in_range MIN_LEASE_DURATION_MS MAX_LEASE_DURATION_MS (xc_lease_duration_ms c)))
        (eff "Effect Executor lease_duration_ms must be {}-{}"
          [ANum MIN_LEASE_DURATION_MS; ANum MAX_LEASE_DURATION_MS]);
  required ← ok_or (checked_add u64_max (xc_execution_timeout_ms c) (xc_settlement_reserve_ms c))
               (eff "Effect Executor lease budget overflow" []);
  reject_if (xc_lease_duration_ms c <=? required)%Z
    (eff "Effect Executor lease must outlive execution timeout plus settlement reserve" []).

(** * Futures *)

Inductive call :=
| CaNow
| CaIsCancelled
| CaList (status : option str) (after : option EffectPageCursor) (limit : Z)
    (authority : AuthorityContext)
| CaAuthorize (timeout_ms : Z) (policy : EffectExecutionPolicy)
    (request : EffectExecutionPolicyRequest)
| CaApply (effect_id : EffectId) (expected_revision : Z) (command : EffectCommand)
    (applied_at_ms : Z) (authority : AuthorityContext)
| CaAdmit (timeout_ms : Z) (request : EffectDispatchAdmissionRequest)
    (authority : AuthorityContext)
| CaSettle (timeout_ms : Z) (admission_id : EffectLeaseId)
    (settlement : EffectDispatchSettlement) (settled_at_ms : Z) (authority : AuthorityContext)
| CaExecute (timeout_ms : Z) (connector : nat) (request : EffectExecutionRequest).

(** The answer to a call; a clock that panics answers [None]. *)
Definition answer (c : call) : Type :=
  match c with
  | CaNow => option (result Z)
  | CaIsCancelled => bool
  | CaList _ _ _ _ => result EffectPage
  | CaAuthorize _ _ _ => raced EffectExecutionDecision
  | CaApply _ _ _ _ _ => result EffectCommandResult
  | CaAdmit _ _ _ => raced EffectDispatchAdmissionDecision
  | CaSettle _ _ _ _ _ => raced ()
  | CaExecute _ _ _ => raced EffectExecutionOutcome
  end.

Abbreviation prog := (Futures.prog answer).
Abbreviation Sweep := (Workers.Sweep answer PreparedEffect EffectExecutorAttempt).

(** * The connector registry *)

Section executor.
Context `{!Serialize EffectConnectorDescriptor, !Serialize ExecutionIdentity,
          !Serialize EffectDispatchGovernorPolicy, sha : !Sha256}.

Definition descriptor_bound_error (error : BoundedJsonError) : HarnessError :=
  let detail :=
    match error with
    | LimitExceeded => "exceeds its encoded-byte limit"
    | CannotEncode => "cannot be encoded"
    end in
  eff "Effect Connector descriptor {}; limit is {} bytes"
    [ALit detail; ANum MAX_CONNECTOR_DESCRIPTOR_BYTES].

Definition validate_connector_descriptor (d : EffectConnectorDescriptor) : result () :=
  _ ← map_err to_effect (validate_capability_name "Effect Connector capability" (cd_capability d));
  _ ← reject_if (negb (cd_api_version d =? EFFECT_EXECUTOR_API_VERSION)%Z)
        (eff "Effect Connector {} requires API {}, received {}"
          [AStr (cd_capability d); ANum EFFECT_EXECUTOR_API_VERSION; ANum (cd_api_version d)]);
  _ ← reject_if (bool_decide (cd_operations d = ∅)
                 || (MAX_OPERATIONS_PER_CONNECTOR <? Z.of_nat (size (cd_operations d)))%Z)
        (eff "Effect Connector operations must contain 1-{} entries"
          [ANum MAX_OPERATIONS_PER_CONNECTOR]);
  _ ← fold_m (λ _ operation,
        map_err to_effect (validate_capability_name "Effect Connector operation" operation))
        () (bs_iter (cd_operations d));
  match bounded_serialized_size d MAX_CONNECTOR_DESCRIPTOR_BYTES with
  | inr _ => Ok ()
  | inl e => Err (descriptor_bound_error e)
  end.

(** [EffectConnectorRegistry::register]; [descriptor] is the answer of the
    connector, [None] when it panicked.  An error leaves the registry as it
    was. *)
Definition register (origin : CapabilityOrigin) (connector : nat)
    (descriptor : option EffectConnectorDescriptor) : M EffectConnectorRegistry () :=
  _ ← lift (validate_capability_origin origin);
  connectors ← (get : M EffectConnectorRegistry EffectConnectorRegistry);
  _ ← lift (reject_if (MAX_CONNECTORS <=? Z.of_nat (size connectors))%Z
              (eff "Effect Connector registry exceeds {} entries" [ANum MAX_CONNECTORS]));
  descriptor ← lift (capture_capability_metadata "Effect Connector descriptor" descriptor);
  _ ← lift (validate_connector_descriptor descriptor);
  _ ← lift (reject_if (bool_decide (is_Some (connectors !! cd_capability descriptor)))
              (DuplicateCapability (cd_capability descriptor)));
  put (<[cd_capability descriptor :=
          {| rg_origin := origin; rg_descriptor := descriptor; rg_connector := connector |}]> connectors).

(** [capabilities] and [resolve]. *)
Definition registered_capabilities (r : EffectConnectorRegistry) : list str := bt_keys r.
Definition resolve (r : EffectConnectorRegistry) (operation : EffectOperation)
    : option RegisteredEffectConnector :=
  match r !! eo_capability operation with
  | Some registered =>
      if bool_decide (eo_operation operation ∈ cd_operations (rg_descriptor registered))
      then Some registered else None
  | None => None
  end.

(** * Policies and clock *)

(** [AllowListEffectExecutionPolicy::allow]. *)
Definition allow (allowed : gset (str * str)) (capability operation : str)
    : result (gset (str * str)) :=
  _ ← map_err to_effect (validate_capability_name "Effect Policy capability" capability);
  _ ← map_err to_effect (validate_capability_name "Effect Policy operation" operation);
  Ok ({[(capability, operation)]} ∪ allowed).

(** [authorize] of the policies of the crate; [host] answers for the others. *)
Definition authorize (host : nat → EffectExecutionPolicyRequest → result EffectExecutionDecision)
    (p : EffectExecutionPolicy) (request : EffectExecutionPolicyRequest)
    : result EffectExecutionDecision :=
  match p with
  | DenyAllEffectExecutions => Ok (XdDeny (lit "policy.denied"))
  | AllowListEffectExecutionPolicy allowed =>
      Ok (if bool_decide ((eo_capability (pr_operation request),
                           eo_operation (pr_operation request)) ∈ allowed)
          then XdAllow else XdDeny (lit "policy.denied"))
  | HostPolicy reference => host reference request
  end.

(** [SystemEffectExecutorClock::now_ms]: milliseconds since the epoch as a
    [u128], [None] when the clock is before the epoch. *)
Definition system_now_ms (since_epoch : option Z) : result Z :=
  millis ← ok_or since_epoch (eff "Effect Executor clock precedes epoch" []);
  if (millis <=? u64_max)%Z then Ok millis else Err (eff "Effect Executor clock exceeds u64" []).

(** * Construction *)

Definition EffectExecutor_new (connectors : EffectConnectorRegistry) : result EffectExecutor :=
  _ ← config_validate default_config;
  Ok {| xe_connectors := connectors; xe_policy := DenyAllEffectExecutions;
        xe_governor := None; xe_config := default_config |}.
Definition with_policy (policy : EffectExecutionPolicy) (x : EffectExecutor) : EffectExecutor :=
  {| xe_connectors := xe_connectors x; xe_policy := policy; xe_governor := xe_governor x;
     xe_config := xe_config x |}.
Definition with_dispatch_governor (policy : EffectDispatchGovernorPolicy) (x : EffectExecutor)
    : result EffectExecutor :=
  _ ← gp_validate policy;
  Ok {| xe_connectors := xe_connectors x; xe_policy := xe_policy x; xe_governor := Some policy;
        xe_config := xe_config x |}.
Definition with_config (config : EffectExecutorConfig) (x : EffectExecutor)
    : result EffectExecutor :=
  _ ← config_validate config;
  Ok {| xe_connectors := xe_connectors x; xe_policy := xe_policy x;
        xe_governor := xe_governor x; xe_config := config |}.

(** * Identities *)

Definition execution_digest (value : ExecutionIdentity) : result str :=
  encoded ← ok_or (to_json value) (eff "cannot encode Effect execution identity" []);
  Ok (lower_sha256 encoded).

Definition execution_identities (cycle_id : str) (snapshot : EffectSnapshot) (attempt : Z)
    (authority : AuthorityContext) : result (EffectLeaseId * EffectCommandId) :=
  digest ← execution_digest
    {| xi_purpose := lit "claim"; xi_cycle_id := cycle_id; xi_actor := actor authority;
       xi_tenant_id := tenant_id authority; xi_effect_id := es_id snapshot;
       xi_revision := es_revision snapshot; xi_attempt := attempt; xi_lease_id := None |};
  Ok (lit "executor-lease-" ++ digest, lit "executor-claim-" ++ digest).

Definition settlement_command_id (cycle_id : str) (effect_id : EffectId) (revision : Z)
    (lease_id : EffectLeaseId) (purpose : str) (authority : AuthorityContext)
    : result EffectCommandId :=
  digest ← execution_digest
    {| xi_purpose := purpose; xi_cycle_id := cycle_id; xi_actor := actor authority;
       xi_tenant_id := tenant_id authority; xi_effect_id := effect_id;
       xi_revision := revision; xi_attempt := 0; xi_lease_id := Some lease_id |};
  Ok (lit "executor-settle-" ++ digest).

Definition validate_run_request (request : EffectExecutorRunRequest) (authority : AuthorityContext)
    : result () :=
  _ ← map_err to_effect (authority_validate_current authority "Effect Executor authority");
  _ ← eff_validate_identity "Effect Executor cycle" (rr_cycle_id request);
  match rr_after request with
  | Some after => eff_validate_identity "Effect Executor cursor" (pc_effect_id after)
  | None => Ok ()
  end.

(** * Outcomes *)

Definition valid_governor_decision (d : EffectDispatchAdmissionDecision) (admitted_at_ms : Z)
    : bool :=
  match d with
  | AdAllow | AdAllowProbe => true
  | AdRateLimited retry_at_ms | AdCircuitOpen retry_at_ms =>
      (admitted_at_ms <=? retry_at_ms)%Z && is_ok (eff_validate_application_time retry_at_ms)
  end.

Definition normalize_connector_outcome (outcome : EffectExecutionOutcome) (settled_at_ms : Z)
    : EffectExecutionOutcome :=
  let valid :=
    match outcome with
    | XoApplied receipt => is_ok (validate_receipt receipt settled_at_ms)
    | XoNotApplied reason_code retry_after_ms =>
        is_ok (validate_capability_name "Effect Connector not-applied reason" reason_code)
        && match retry_after_ms with
           | Some delay => (delay <=? MAX_RETRY_AFTER_MS)%Z
           | None => true
           end
    | XoUnknown reason_code =>
        is_ok (validate_capability_name "Effect Connector uncertainty reason" reason_code)
    end in
  if (valid : bool) then outcome else XoUnknown (lit "connector.invalid_outcome").

Definition report_settlement (outcome : EffectExecutionOutcome) (status : EffectStatus)
    : EffectExecutorAttemptOutcome :=
  match outcome, status with
  | XoApplied _, EsApplied _ _ => AoApplied
  | XoNotApplied reason_code None, EsRejected _ durable_reason =>
      if bool_decide (reason_code = durable_reason) then AoRejected reason_code
      else AoSettlementFailed
  | XoNotApplied reason_code (Some _), EsPending _ not_before_ms =>
      AoRetryScheduled reason_code not_before_ms
  | XoUnknown reason_code, EsUnknown _ _ durable_reason =>
      if bool_decide (reason_code = durable_reason) then AoUnknown reason_code
      else AoSettlementFailed
  | _, _ => AoSettlementFailed
  end.

(** * Futures of the executor *)

Definition trusted_now : prog (result Z) :=
  value ← await CaNow;
  mret (value ← default (Err (eff "Effect Executor clock panicked" [])) value;
        _ ← eff_validate_application_time value;
        Ok value).

(** * One attempt *)

Section attempt.
Context (x : EffectExecutor) (cycle_id : str) (prepared : PreparedEffect)
  (authority : AuthorityContext).

(** The report of an attempt that returns before its Claim ([base]), and the
    report that names the lease. *)
Definition base (outcome : EffectExecutorAttemptOutcome) : EffectExecutorAttempt :=
  {| xa_effect_id := es_id (pe_snapshot prepared);
     xa_observed_revision := es_revision (pe_snapshot prepared);
     xa_attempt := pe_attempt prepared; xa_lease_id := None;
     xa_governor_settlement_failed := false; xa_outcome := outcome |}.
Definition leased (outcome : EffectExecutorAttemptOutcome) : EffectExecutorAttempt :=
  {| xa_effect_id := es_id (pe_snapshot prepared);
     xa_observed_revision := es_revision (pe_snapshot prepared);
     xa_attempt := pe_attempt prepared; xa_lease_id := Some (pe_lease_id prepared);
     xa_governor_settlement_failed := false; xa_outcome := outcome |}.
Definition xa_with_outcome (outcome : EffectExecutorAttemptOutcome) (a : EffectExecutorAttempt)
    : EffectExecutorAttempt :=
  {| xa_effect_id := xa_effect_id a; xa_observed_revision := xa_observed_revision a;
     xa_attempt := xa_attempt a; xa_lease_id := xa_lease_id a;
     xa_governor_settlement_failed := xa_governor_settlement_failed a; xa_outcome := outcome |}.
Definition xa_with_settlement_failed (failed : bool) (a : EffectExecutorAttempt)
    : EffectExecutorAttempt :=
  {| xa_effect_id := xa_effect_id a; xa_observed_revision := xa_observed_revision a;
     xa_attempt := xa_attempt a; xa_lease_id := xa_lease_id a;
     xa_governor_settlement_failed := failed; xa_outcome := xa_outcome a |}.

Definition policy_request (registered : RegisteredEffectConnector) : EffectExecutionPolicyRequest :=
  let effect := es_effect (pe_snapshot prepared) in
  {| pr_effect_id := es_id (pe_snapshot prepared); pr_authority := authority;
     pr_operation := ef_operation effect; pr_input := ef_input effect;
     pr_input_sha256 := ef_input_sha256 effect; pr_connector_origin := rg_origin registered;
     pr_idempotency := cd_idempotency (rg_descriptor registered) |}.

(** [execute_prepared], up to the second test for cancellation: the connector
    and the policy's permission. *)
Definition authorize_prepared : prog (EffectExecutorAttemptOutcome + RegisteredEffectConnector) :=
  match resolve (xe_connectors x) (ef_operation (es_effect (pe_snapshot prepared))) with
  | None => mret (inl AoConnectorUnavailable)
  | Some registered =>
      cancelled ← await CaIsCancelled;
      if (cancelled : bool) then mret (inl AoCancelledBeforeClaim)
      else
        decision ← await (CaAuthorize (xc_policy_timeout_ms (xe_config x)) (xe_policy x)
                            (policy_request registered));
        match (decision : raced EffectExecutionDecision) with
        | RcCancelled => mret (inl AoCancelledBeforeClaim)
        | RcReturned (Ok (XdDeny reason_code)) =>
            if is_ok (validate_capability_name "Effect Policy denial reason" reason_code)
            then mret (inl (AoPolicyDenied reason_code))
            else mret (inl AoPolicyUnavailable)
        | RcReturned (Ok XdAllow) =>
            cancelled ← await CaIsCancelled;
            if (cancelled : bool) then mret (inl AoCancelledBeforeClaim)
            else mret (inr registered)
        | _ => mret (inl AoPolicyUnavailable)
        end
  end.

(** The Claim, and the checks of what it committed. *)
Definition claim_prepared : prog (EffectExecutorAttempt + EffectSnapshot * EffectLease) :=
  claim_time ← trusted_now;
  match (claim_time : result Z) with
  | Err _ => mret (inl (base AoClaimFailed))
  | Ok claim_time =>
      let claim :=
        {| ec_id := pe_claim_command_id prepared;
           ec_kind := EcClaim (pe_lease_id prepared) (xc_lease_duration_ms (xe_config x)) |} in
      claimed ← await (CaApply (es_id (pe_snapshot prepared)) (es_revision (pe_snapshot prepared))
                         claim claim_time authority);
      match (claimed : result EffectCommandResult) with
      | Err (EffectConflict _ _ actual) => mret (inl (leased (AoClaimFenced actual)))
      | Err _ => mret (inl (leased AoClaimFailed))
      | Ok claimed =>
          match ecr_outcome claimed with
          | EffDuplicate => mret (inl (leased AoClaimAlreadyCommitted))
          | EffApplied =>
              match ef_status (es_effect (ecr_snapshot claimed)) with
              | EsClaimed lease =>
                  if bool_decide (el_id lease ≠ pe_lease_id prepared)
                     || bool_decide (el_owner lease ≠ actor authority)
                     || negb (el_attempt lease =? pe_attempt prepared)%Z
                     || negb (es_revision (ecr_snapshot claimed)
                              =? saturating_add u64_max (es_revision (pe_snapshot prepared)) 1)%Z
                  then mret (inl (leased AoClaimFailed))
                  else mret (inr (ecr_snapshot claimed, lease))
              | _ => mret (inl (leased AoClaimFailed))
              end
          end
      end
  end.

(** The command of a settlement and what the attempt reports of it: the end of
    [settle_at] and of [settle_invalid_outcome]. *)
Definition apply_settlement_command (claimed : EffectSnapshot) (lease : EffectLease)
    (purpose : str) (kind : EffectCommandKind) (outcome : EffectExecutionOutcome)
    (settled_at_ms : Z) : prog EffectExecutorAttempt :=
  match settlement_command_id cycle_id (es_id (pe_snapshot prepared)) (es_revision claimed)
          (el_id lease) purpose authority with
  | Err _ => mret (leased AoSettlementFailed)
  | Ok command_id =>
      result ← await (CaApply (es_id (pe_snapshot prepared)) (es_revision claimed)
                        {| ec_id := command_id; ec_kind := kind |} settled_at_ms authority);
      match (result : Prelude.result EffectCommandResult) with
      | Ok result =>
          mret (leased (report_settlement outcome (ef_status (es_effect (ecr_snapshot result)))))
      | Err (EffectConflict _ _ actual) => mret (leased (AoSettlementFenced actual))
      | Err _ => mret (leased AoSettlementFailed)
      end
  end.

Definition settle_invalid_outcome (claimed : EffectSnapshot) (lease : EffectLease)
    (settled_at_ms : Z) : prog EffectExecutorAttempt :=
  apply_settlement_command claimed lease (lit "invalid-outcome")
    (EcRecordUnknown (el_id lease) (lit "connector.invalid_outcome"))
    (XoUnknown (lit "connector.invalid_outcome")) settled_at_ms.

Definition settle_at (claimed : EffectSnapshot) (lease : EffectLease)
    (outcome : EffectExecutionOutcome) (absolute_retry_at_ms : option Z) (settled_at_ms : Z)
    : prog EffectExecutorAttempt :=
  match outcome with
  | XoApplied receipt =>
      apply_settlement_command claimed lease (lit "applied")
        (EcRecordApplied (el_id lease) receipt) outcome settled_at_ms
  | XoNotApplied reason_code retry_after_ms =>
      let not_applied retry_at_ms :=
        apply_settlement_command claimed lease (lit "not-applied")
          (EcRecordNotApplied (el_id lease) reason_code retry_at_ms) outcome settled_at_ms in
      match absolute_retry_at_ms, retry_after_ms with
      | Some retry_at_ms, _ => not_applied (Some (Z.max retry_at_ms settled_at_ms))
      | None, Some delay =>
          match checked_add u64_max settled_at_ms delay with
          | Some value => not_applied (Some value)
          | None => settle_invalid_outcome claimed lease settled_at_ms
          end
      | None, None => not_applied None
      end
  | XoUnknown reason_code =>
      apply_settlement_command claimed lease (lit "unknown")
        (EcRecordUnknown (el_id lease) reason_code) outcome settled_at_ms
  end.

Definition settle (claimed : EffectSnapshot) (lease : EffectLease)
    (outcome : EffectExecutionOutcome) : prog EffectExecutorAttempt :=
  settled_at_ms ← trusted_now;
  match (settled_at_ms : result Z) with
  | Err _ => mret (leased AoClockUnavailableAfterClaim)
  | Ok settled_at_ms =>
      settle_at claimed lease (normalize_connector_outcome outcome settled_at_ms) None settled_at_ms
  end.

Definition settle_governor_denial (claimed : EffectSnapshot) (lease : EffectLease)
    (reason_code : str) (retry_at_ms : Z) (governed_outcome : EffectExecutorAttemptOutcome)
    : prog EffectExecutorAttempt :=
  settled_at_ms ← trusted_now;
  match (settled_at_ms : result Z) with
  | Err _ => mret (leased AoClockUnavailableAfterClaim)
  | Ok settled_at_ms =>
      attempt ← settle_at claimed lease (XoNotApplied reason_code (Some 0%Z)) (Some retry_at_ms)
                  settled_at_ms;
      mret (match xa_outcome attempt with
            | AoRetryScheduled _ _ => xa_with_outcome governed_outcome attempt
            | _ => attempt
            end)
  end.

Definition settle_governor (settlement : EffectDispatchSettlement) (settled_at_ms : Z) : prog bool :=
  answered ← await (CaSettle (xc_governor_timeout_ms (xe_config x)) (pe_lease_id prepared)
                      settlement settled_at_ms authority);
  mret (match (answered : raced ()) with RcReturned (Ok _) => true | _ => false end).

(** The admission of the dispatch: [governed], or the report that ends the
    attempt. *)
Definition admit_prepared (claimed : EffectSnapshot) (lease : EffectLease)
    : prog (EffectExecutorAttempt + option EffectDispatchGovernorPolicy) :=
  match xe_governor x with
  | None => mret (inr None)
  | Some configured =>
      admitted_at_ms ← trusted_now;
      match (admitted_at_ms : result Z) with
      | Err _ => mret (inl (leased AoClockUnavailableAfterClaim))
      | Ok admitted_at_ms =>
          let request :=
            {| dr_admission_id := pe_lease_id prepared;
               dr_operation := ef_operation (es_effect (pe_snapshot prepared));
               dr_policy := configured; dr_admitted_at_ms := admitted_at_ms |} in
          answered ← await (CaAdmit (xc_governor_timeout_ms (xe_config x)) request authority);
          let decision :=
            match (answered : raced EffectDispatchAdmissionDecision) with
            | RcReturned (Ok decision) =>
                if valid_governor_decision decision admitted_at_ms then Some decision else None
            | _ => None
            end in
          match decision with
          | Some AdAllow | Some AdAllowProbe => mret (inr (Some configured))
          | Some (AdRateLimited retry_at_ms) =>
              attempt ← settle_governor_denial claimed lease (lit "governor.rate_limited")
                          retry_at_ms (AoRateLimited retry_at_ms);
              mret (inl attempt)
          | Some (AdCircuitOpen retry_at_ms) =>
              attempt ← settle_governor_denial claimed lease (lit "governor.circuit_open")
                          retry_at_ms (AoCircuitOpen retry_at_ms);
              mret (inl attempt)
          | None =>
              let retry_at_ms :=
                default admitted_at_ms (checked_add u64_max admitted_at_ms
                  (xc_governor_retry_after_ms (xe_config x))) in
              attempt ← settle_governor_denial claimed lease (lit "governor.unavailable")
                          retry_at_ms (AoGovernorUnavailable retry_at_ms);
              mret (inl attempt)
          end
      end
  end.

(** Cancellation between the admission and the dispatch. *)
Definition abandon_prepared (governed : option EffectDispatchGovernorPolicy)
    (claimed : EffectSnapshot) (lease : EffectLease) : prog EffectExecutorAttempt :=
  failed ← match governed with
           | None => mret false
           | Some _ =>
               settled_at_ms ← trusted_now;
               match (settled_at_ms : result Z) with
               | Ok settled_at_ms => settled ← settle_governor DsAbandoned settled_at_ms;
                                     mret (negb settled)
               | Err _ => mret true
               end
           end;
  attempt ← settle claimed lease
              (XoNotApplied (lit "executor.cancelled_before_dispatch") (Some 0%Z));
  mret (xa_with_settlement_failed failed attempt).

Definition execution_request (lease : EffectLease) : EffectExecutionRequest :=
  let effect := es_effect (pe_snapshot prepared) in
  {| xr_effect_id := es_id (pe_snapshot prepared); xr_authority := authority;
     xr_operation := ef_operation effect; xr_idempotency_key := ef_idempotency_key effect;
     xr_input := ef_input effect; xr_input_sha256 := ef_input_sha256 effect;
     xr_attempt := pe_attempt prepared; xr_lease_id := pe_lease_id prepared;
     xr_lease_expires_at_ms := el_expires_at_ms lease |}.

(** What the dispatch itself reports. *)
Definition dispatch_outcome (answered : raced EffectExecutionOutcome)
    : EffectExecutionOutcome * EffectDispatchSettlement :=
  match answered with
  | RcCancelled => (XoUnknown (lit "executor.cancelled_after_dispatch"), DsAbandoned)
  | RcReturned (Ok outcome) => (outcome, DsHealthy)
  | RcElapsed => (XoUnknown (lit "connector.timeout"), DsAvailabilityFailure)
  | _ => (XoUnknown (lit "connector.failed"), DsAvailabilityFailure)
  end.

Definition is_invalid_outcome (outcome : EffectExecutionOutcome) : bool :=
  match outcome with
  | XoUnknown reason_code => bool_decide (reason_code = lit "connector.invalid_outcome")
  | _ => false
  end.

(** The settlement of what a dispatch reported, with the governor and then
    with the ledger. *)
Definition settle_dispatched (governed : option EffectDispatchGovernorPolicy)
    (claimed : EffectSnapshot) (lease : EffectLease) (outcome : EffectExecutionOutcome)
    (dispatch_settlement : EffectDispatchSettlement) : prog EffectExecutorAttempt :=
  settled_at_ms ← trusted_now;
  match (settled_at_ms : result Z) with
  | Err _ =>
      mret (xa_with_settlement_failed (bool_decide (is_Some governed))
              (leased AoClockUnavailableAfterClaim))
  | Ok settled_at_ms =>
      let normalized := normalize_connector_outcome outcome settled_at_ms in
      let dispatch_settlement :=
        if bool_decide (dispatch_settlement = DsHealthy) && is_invalid_outcome normalized
        then DsAvailabilityFailure else dispatch_settlement in
      failed ← match governed with
               | None => mret false
               | Some _ => settled ← settle_governor dispatch_settlement settled_at_ms;
                           mret (negb settled)
               end;
      attempt ← settle_at claimed lease normalized None settled_at_ms;
      mret (xa_with_settlement_failed failed attempt)
  end.

(** The entry into the connector. *)
Definition dispatch_prepared (registered : RegisteredEffectConnector)
    (governed : option EffectDispatchGovernorPolicy) (claimed : EffectSnapshot)
    (lease : EffectLease) : prog EffectExecutorAttempt :=
  answered ← await (CaExecute (xc_execution_timeout_ms (xe_config x)) (rg_connector registered)
                      (execution_request lease));
  let '(outcome, dispatch_settlement) := dispatch_outcome answered in
  settle_dispatched governed claimed lease outcome dispatch_settlement.

(** [execute_prepared]. *)
Definition execute_prepared : prog EffectExecutorAttempt :=
  authorized ← authorize_prepared;
  match (authorized : EffectExecutorAttemptOutcome + RegisteredEffectConnector) with
  | inl outcome => mret (base outcome)
  | inr registered =>
      fenced ← claim_prepared;
      match (fenced : EffectExecutorAttempt + EffectSnapshot * EffectLease) with
      | inl attempt => mret attempt
      | inr (claimed, lease) =>
          cancelled ← await CaIsCancelled;
          if (cancelled : bool)
          then settle claimed lease
                 (XoNotApplied (lit "executor.cancelled_before_dispatch") (Some 0%Z))
          else
            admitted ← admit_prepared claimed lease;
            match (admitted : EffectExecutorAttempt + option EffectDispatchGovernorPolicy) with
            | inl attempt => mret attempt
            | inr governed =>
                cancelled ← await CaIsCancelled;
                if (cancelled : bool) then abandon_prepared governed claimed lease
                else dispatch_prepared registered governed claimed lease
            end
      end
  end.
End attempt.

(** * The sweep *)

Record SweepPlan := {
  sp_scanned_at_ms : Z;
  sp_page : EffectPage;
  sp_prepared : list PreparedEffect;
}.

(** One iteration of the loop of [run_once_as] over the page. *)
Definition prepare_snapshot (cycle_id : str) (authority : AuthorityContext) (scanned_at_ms : Z)
    (prepared : list PreparedEffect) (snapshot : EffectSnapshot) : result (list PreparedEffect) :=
  match ef_status (es_effect snapshot) with
  | EsPending next_attempt not_before_ms =>
      if (not_before_ms <=? scanned_at_ms)%Z then
        ids ← execution_identities cycle_id snapshot next_attempt authority;
        Ok (prepared ++ [{| pe_snapshot := snapshot; pe_attempt := next_attempt;
                            pe_lease_id := ids.1; pe_claim_command_id := ids.2 |}])
      else Ok prepared
  | _ => Err (eff "Effect Executor pending scan returned non-pending state" [])
  end.

Section scan.
Context `{!Serialize Json, !Serialize (AttributedCommand EffectCreateRequest),
          !Serialize (AttributedCommand EffectCommand), !Serialize EffectCommand,
          !Serialize EffectWire}.

(** [run_once_as], up to the work list. *)
Definition scan_pending (x : EffectExecutor) (request : EffectExecutorRunRequest)
    (authority : AuthorityContext) : prog (result SweepPlan) :=
  let limit := xc_scan_limit (xe_config x) in
  or_fail (validate_run_request request authority) (λ _,
  or_fail (config_validate (xe_config x)) (λ _,
  scanned_at_ms ← trusted_now;
  or_fail scanned_at_ms (λ scanned_at_ms,
  page ← await (CaList (Some (lit "pending")) (rr_after request) limit authority);
  or_fail page (λ page,
  or_fail (validate_effect_page "Effect Executor" page (rr_after request) limit authority StatePending)
    (λ _,
  or_fail (fold_m (prepare_snapshot (rr_cycle_id request) authority scanned_at_ms) []
             (pg_effects page)) (λ prepared,
  mret (Ok {| sp_scanned_at_ms := scanned_at_ms; sp_page := page; sp_prepared := prepared |}))))))).
End scan.

Section sweep.
Context (x : EffectExecutor) (cycle_id : str) (authority : AuthorityContext).

(** [spawn_prepared]: the future of a worker and its fallback. *)
Definition worker (prepared : PreparedEffect) : prog EffectExecutorAttempt :=
  execute_prepared x cycle_id prepared authority.
Definition worker_fallback (prepared : PreparedEffect) : EffectExecutorAttempt :=
  base prepared AoAttemptFailed.

(** The worker loop of [run_once_as]. *)
Definition sweep_start (prepared : list PreparedEffect) : Sweep :=
  pool_start worker worker_fallback (xc_max_concurrency (xe_config x)) prepared.
Definition sweep_join (task_id : nat) (joined : option EffectExecutorAttempt) (s : Sweep)
    : result Sweep :=
  pool_join worker worker_fallback (eff "Effect Executor lost a worker identity" [])
    task_id joined s.

(** The report of a sweep whose [JoinSet] is empty. *)
Definition sweep_report (plan : SweepPlan) (s : Sweep) : EffectExecutorRunReport :=
  {| xp_scanned_at_ms := sp_scanned_at_ms plan; xp_scanned := len (pg_effects (sp_page plan));
     xp_eligible := len (sp_prepared plan); xp_has_more := pg_has_more (sp_page plan);
     xp_next_after := if pg_has_more (sp_page plan) then pg_next_cursor (sp_page plan) else None;
     xp_attempts := pool_reports s |}.
End sweep.
End executor.
