(* ===== verification/ExecutorPaths.v ===== *)
(** What the calls of the executor do, and how sweeps interleave.

    Any number of sweeps, of executors with any configuration in any process,
    share one ledger and one governor; other clients of both act in between.
    A step is one call of one future, the end of a worker, or an action of the
    environment; the trace records the calls of the executors with their
    answers.

    The paths of one attempt of the executor (src/src/effect/executor.rs,
    [execute_prepared]): what has happened before a connector is entered, that
    it is entered at most once, and what the report of an attempt says about
    its calls. *)

From Stdlib Require Import ZArith Lia.
From stdpp Require Import sorting base tactics list gmap relations numbers strings option.
From stdpp Require Import list.
From S2P Require Import Prelude Kernel Digest Json Sqlite Pairs Effect EffectSafety EffectCoordinator EffectStores EffectClients Governor Futures Workers Executor.

Abbreviation item := (Futures.item answer).

(** A complete path of the executor's futures, call by call. *)
Ltac follow H := repeat first [follow_step H | progress cbn [trusted_now] in H | progress unfold trusted_now in H].

(** * The objects the calls reach *)

Section steps.
Context `{!Serialize EffectConnectorDescriptor, !Serialize ExecutionIdentity,
          !Serialize EffectDispatchGovernorPolicy, !Serialize Json,
          !Serialize (AttributedCommand EffectCreateRequest),
          !Serialize (AttributedCommand EffectCommand), !Serialize EffectCommand,
          !Serialize EffectWire, sha : !Sha256}.
Context {W G : Type} `{!EffectCoordinator W, !EffectDispatchGovernor G}.

Record XWorld := {
  xw_effects : W;
  xw_governor : G;
}.

(** A call under a time limit, without a race: its answer is the operation's;
    or the answer is lost, whether the operation took place or not. *)
Definition limited {S A} (m : M S A) (s : S) (r : raced A) (s' : S) : Prop :=
  match r with
  | RcReturned a => m s = (s', a)
  | RcCancelled => False
  | _ => s' = s ∨ ∃ a, m s = (s', a)
  end.

(** What a call does and answers.  Times are unsigned. *)
Definition handles (cancelled : bool) (w : XWorld) (c : call) : answer c → XWorld → Prop :=
  match c with
  | CaNow => λ r w', w' = w ∧ ∀ v, r = Some (Ok v) → (0 ≤ v ≤ u64_max)%Z
  | CaIsCancelled => λ r w', w' = w ∧ r = cancelled
  | CaList status after limit a => λ r w',
      eff_list_as status after limit a (xw_effects w) = (xw_effects w', r)
      ∧ xw_governor w' = xw_governor w
  | CaAuthorize _ policy request => λ r w', w' = w ∧ fair_race cancelled r ∧
      ∀ d, r = RcReturned d → ∃ host, d = authorize host policy request
  | CaApply id revision command now a => λ r w',
      (0 ≤ now)%Z ∧ eff_apply_as id revision command now a (xw_effects w) = (xw_effects w', r)
      ∧ xw_governor w' = xw_governor w
  | CaAdmit _ request a => λ r w', xw_effects w' = xw_effects w ∧
      limited (admit_as request a) (xw_governor w) r (xw_governor w')
  | CaSettle _ id settlement at_ms a => λ r w', xw_effects w' = xw_effects w ∧
      limited (settle_as id settlement at_ms a) (xw_governor w) r (xw_governor w')
  | CaExecute _ _ _ => λ r w', w' = w ∧ fair_race cancelled r
  end.

(** Other clients of the ledger and of the governor. *)
Inductive environment (w : XWorld) : XWorld → Prop :=
| env_effects w' :
    ec_step (xw_effects w) (xw_effects w') → xw_governor w' = xw_governor w → environment w w'
| env_admit request a w' r :
    xw_effects w' = xw_effects w →
    admit_as request a (xw_governor w) = (xw_governor w', r) → environment w w'
| env_settle id settlement at_ms a w' r :
    xw_effects w' = xw_effects w →
    settle_as id settlement at_ms a (xw_governor w) = (xw_governor w', r) → environment w w'.

(** * Sweeps *)

Inductive stage :=
| Scanning (p : prog (result SweepPlan))
| Working (plan : SweepPlan) (s : Sweep)
| Returned (r : result EffectExecutorRunReport)
| Dropped.

(** One call of [run_once_as]. *)
Record running := {
  rn_executor : EffectExecutor;
  rn_cycle_id : str;
  rn_authority : AuthorityContext;
  rn_cancelled : bool;
  rn_stage : stage;
}.

Definition rn_at (st : stage) (t : running) : running :=
  {| rn_executor := rn_executor t; rn_cycle_id := rn_cycle_id t; rn_authority := rn_authority t;
     rn_cancelled := rn_cancelled t; rn_stage := st |}.
Definition rn_cancel (t : running) : running :=
  {| rn_executor := rn_executor t; rn_cycle_id := rn_cycle_id t; rn_authority := rn_authority t;
     rn_cancelled := true; rn_stage := rn_stage t |}.
Record XState := {
  xs_world : XWorld;
  xs_sweeps : gmap nat running;
}.

Definition xs_run (i : nat) (t : running) (w : XWorld) (s : XState) : XState :=
  {| xs_world := w; xs_sweeps := <[i := t]> (xs_sweeps s) |}.

(** The future that made a call: the sweep itself, or one of its workers. *)
Definition future : Type := nat * option nat.

Inductive x_step (s : XState) : list (future * item) → XState → Prop :=
| x_environment w' :
    environment (xs_world s) w' →
    x_step s [] {| xs_world := w'; xs_sweeps := xs_sweeps s |}
| x_call i x request a :
    xs_sweeps s !! i = None →
    x_step s [] (xs_run i {| rn_executor := x; rn_cycle_id := rr_cycle_id request;
                             rn_authority := a; rn_cancelled := false;
                             rn_stage := Scanning (scan_pending x request a) |} (xs_world s) s)
| x_cancel i t :
    xs_sweeps s !! i = Some t → x_step s [] (xs_run i (rn_cancel t) (xs_world s) s)
| x_drop i t :
    xs_sweeps s !! i = Some t → x_step s [] (xs_run i (rn_at Dropped t) (xs_world s) s)
| x_scan i t c k r w' :
    xs_sweeps s !! i = Some t → rn_stage t = Scanning (Await c k) →
    handles (rn_cancelled t) (xs_world s) c r w' →
    x_step s [((i, None), c ↦ᵣ r)] (xs_run i (rn_at (Scanning (k r)) t) w' s)
| x_scan_failed i t e :
    xs_sweeps s !! i = Some t → rn_stage t = Scanning (Done (Err e)) →
    x_step s [] (xs_run i (rn_at (Returned (Err e)) t) (xs_world s) s)
| x_scanned i t plan :
    xs_sweeps s !! i = Some t → rn_stage t = Scanning (Done (Ok plan)) →
    x_step s [] (xs_run i (rn_at (Working plan (sweep_start (rn_executor t) (rn_cycle_id t)
                                   (rn_authority t) (sp_prepared plan))) t) (xs_world s) s)
| x_work i t plan sw task index c k r w' :
    xs_sweeps s !! i = Some t → rn_stage t = Working plan sw →
    sw_workers sw !! task = Some (index, Await c k) →
    handles (rn_cancelled t) (xs_world s) c r w' →
    x_step s [((i, Some task), c ↦ᵣ r)]
      (xs_run i (rn_at (Working plan (with_worker task index (k r) sw)) t) w' s)
| x_join i t plan sw task index p joined sw' :
    xs_sweeps s !! i = Some t → rn_stage t = Working plan sw →
    sw_workers sw !! task = Some (index, p) →
    leaves p joined →
    sweep_join (rn_executor t) (rn_cycle_id t) (rn_authority t) task joined sw = Ok sw' →
    x_step s [] (xs_run i (rn_at (Working plan sw') t) (xs_world s) s)
| x_return i t plan sw :
    xs_sweeps s !! i = Some t → rn_stage t = Working plan sw → sw_workers sw = ∅ →
    x_step s [] (xs_run i (rn_at (Returned (Ok (sweep_report plan sw))) t) (xs_world s) s).

Inductive x_steps (s : XState) : list (future * item) → XState → Prop :=
| x_steps_nil : x_steps s [] s
| x_steps_snoc tr new s1 s2 :
    x_steps s tr s1 → x_step s1 new s2 → x_steps s (tr ++ new) s2.

(** The start: no sweep has been called. *)
Definition x_initial (w : XWorld) : XState := {| xs_world := w; xs_sweeps := ∅ |}.

(** The calls of one future. *)
Definition items_of (f : future) (tr : list (future * item)) : list item :=
  (filter (λ e, e.1 = f) tr).*2.

Lemma items_of_app f tr tr' : items_of f (tr ++ tr') = items_of f tr ++ items_of f tr'.
Proof. unfold items_of. by rewrite filter_app, fmap_app. Qed.
Lemma items_of_self f i : items_of f [(f, i)] = [i].
Proof. unfold items_of. by rewrite filter_cons_True. Qed.
Lemma items_of_other f f' i : f' ≠ f → items_of f [(f', i)] = [].
Proof. intros H. unfold items_of. by rewrite filter_cons_False. Qed.

End steps.

(** * Observations on a call and its answer *)

Definition request_of (i : item) : option EffectExecutionRequest :=
  match it_call i with CaExecute _ _ request => Some request | _ => None end.

Definition connector_of (i : item) : option (nat * EffectExecutionRequest) :=
  match it_call i with CaExecute _ c request => Some (c, request) | _ => None end.

Definition outcome_of (i : item) : option (raced EffectExecutionOutcome) :=
  let '(c ↦ᵣ r) := i in
  match c as c return answer c → option (raced EffectExecutionOutcome) with
  | CaExecute _ _ _ => λ r, Some r
  | _ => λ _, None
  end r.

Definition token_of (i : item) : option bool :=
  let '(c ↦ᵣ r) := i in
  match c as c return answer c → option bool with
  | CaIsCancelled => λ r, Some r
  | _ => λ _, None
  end r.

Definition policy_of (i : item)
    : option (EffectExecutionPolicy * EffectExecutionPolicyRequest * raced EffectExecutionDecision) :=
  let '(c ↦ᵣ r) := i in
  match c as c return answer c →
    option (EffectExecutionPolicy * EffectExecutionPolicyRequest * raced EffectExecutionDecision) with
  | CaAuthorize _ policy request => λ r, Some (policy, request, r)
  | _ => λ _, None
  end r.

Definition listing_of (i : item) : option (AuthorityContext * result EffectPage) :=
  let '(c ↦ᵣ r) := i in
  match c as c return answer c → option (AuthorityContext * result EffectPage) with
  | CaList _ _ _ a => λ r, Some (a, r)
  | _ => λ _, None
  end r.

Record applied := {
  ap_id : EffectId;
  ap_revision : Z;
  ap_command : EffectCommand;
  ap_at_ms : Z;
  ap_authority : AuthorityContext;
  ap_result : result EffectCommandResult;
}.

Definition apply_of (i : item) : option applied :=
  let '(c ↦ᵣ r) := i in
  match c as c return answer c → option applied with
  | CaApply id revision command now a => λ r,
      Some {| ap_id := id; ap_revision := revision; ap_command := command; ap_at_ms := now;
              ap_authority := a; ap_result := r |}
  | _ => λ _, None
  end r.

Definition admit_of (i : item)
    : option (EffectDispatchAdmissionRequest * raced EffectDispatchAdmissionDecision) :=
  let '(c ↦ᵣ r) := i in
  match c as c return answer c →
    option (EffectDispatchAdmissionRequest * raced EffectDispatchAdmissionDecision) with
  | CaAdmit _ request _ => λ r, Some (request, r)
  | _ => λ _, None
  end r.

(** * Quiet calls: nothing enters a connector *)

Definition quiet (l : list item) : Prop := omap request_of l = [].
Definition is_quiet (c : call) : Prop := match c with CaExecute _ _ _ => False | _ => True end.

Lemma quiet_app l l' : quiet (l ++ l') ↔ quiet l ∧ quiet l'.
Proof. unfold quiet. rewrite omap_app. split; [apply app_eq_nil|]. by intros [-> ->]. Qed.

Section paths.
Context `{!Serialize EffectConnectorDescriptor, !Serialize ExecutionIdentity,
          !Serialize EffectDispatchGovernorPolicy, sha : !Sha256}.
Context (x : EffectExecutor) (cycle_id : str) (prepared : PreparedEffect) (a : AuthorityContext).

(** A freshly committed Claim of the attempt that [prepared] stands for. *)
Record claimed_as (ap : applied) (claimed : EffectSnapshot) (lease : EffectLease) : Prop := {
  cl_id : ap_id ap = es_id (pe_snapshot prepared);
  cl_revision : ap_revision ap = es_revision (pe_snapshot prepared);
  cl_authority : ap_authority ap = a;
  cl_command : ap_command ap =
    {| ec_id := pe_claim_command_id prepared;
       ec_kind := EcClaim (pe_lease_id prepared) (xc_lease_duration_ms (xe_config x)) |};
  cl_result : ap_result ap = Ok {| ecr_snapshot := claimed; ecr_outcome := EffApplied |};
  cl_status : ef_status (es_effect claimed) = EsClaimed lease;
  cl_lease : el_id lease = pe_lease_id prepared;
  cl_owner : el_owner lease = actor a;
  cl_attempt : el_attempt lease = pe_attempt prepared;
  cl_next : es_revision claimed = saturating_add u64_max (es_revision (pe_snapshot prepared)) 1;
}.

(** What the calls [l] of the attempt contain when it enters the connector
    [c] with [request]. *)
Record entered (l : list item) (c : nat) (request : EffectExecutionRequest) : Prop := {
  en_first : quiet l;
  en_live : true ∉ omap token_of l;
  en_allowed : ∃ rg,
    resolve (xe_connectors x) (ef_operation (es_effect (pe_snapshot prepared))) = Some rg ∧
    c = rg_connector rg ∧
    (xe_policy x, policy_request prepared a rg, RcReturned (Ok XdAllow)) ∈ omap policy_of l;
  en_claimed : ∃ ap claimed lease, ap ∈ omap apply_of l ∧ claimed_as ap claimed lease ∧
    request = execution_request prepared a lease;
  en_governed : ∀ policy, xe_governor x = Some policy → ∃ r d,
    (r, RcReturned (Ok d)) ∈ omap admit_of l ∧ dr_admission_id r = pe_lease_id prepared ∧
    dr_operation r = ef_operation (es_effect (pe_snapshot prepared)) ∧ dr_policy r = policy ∧
    (d = AdAllow ∨ d = AdAllowProbe);
}.

(** Every entry so far was a first and permitted one. *)
Definition gated (l : list item) : Prop := ∀ l1 i l2 c request,
  l = l1 ++ i :: l2 → connector_of i = Some (c, request) → entered l1 c request ∧ quiet l2.

Lemma gated_snoc l i : gated l → request_of i = None → gated (l ++ [i]).
Proof.
  intros Hg Hi l1 j l2 c request E Hj.
  destruct l2 as [|k l2 _] using rev_ind.
  - apply app_inj_tail in E as [-> ->]. unfold request_of, connector_of in *. by destruct (it_call j).
  - rewrite app_comm_cons, app_assoc in E. apply app_inj_tail in E as [-> ->].
    destruct (Hg l1 j l2 c request eq_refl Hj) as [He Hq]. split; [done|].
    apply quiet_app. split; [done|]. unfold quiet. simpl. by rewrite Hi.
Qed.

Lemma gated_quiet l : quiet l → gated l.
Proof.
  intros Hq l1 i l2 c request -> Hi. apply quiet_app in Hq as [_ Hq]. unfold quiet in Hq.
  simpl in Hq. unfold request_of, connector_of in *. destruct (it_call i); naive_solver.
Qed.

Lemma gated_entry l i c request :
  quiet l → connector_of i = Some (c, request) → entered l c request → gated (l ++ [i]).
Proof.
  intros Hq Hi He l1 j l2 c' request' E Hj. destruct l2 as [|k l2 _] using rev_ind.
  - apply app_inj_tail in E as [-> ->]. split; [by simplify_eq|done].
  - rewrite app_comm_cons, app_assoc in E. apply app_inj_tail in E as [-> ->].
    apply quiet_app in Hq as [_ Hq]. unfold quiet in Hq. simpl in Hq.
    unfold request_of, connector_of in *. destruct (it_call j); naive_solver.
Qed.

(** A program without entries only appends quiet calls. *)
Lemma safe_quiet {A} (p : prog A) (Q : list item → A → Prop) l0 l :
  gated (l0 ++ l) → always is_quiet p → quiet l →
  (∀ l' b, follows p l' (Done b) → quiet (l ++ l') → Q (l0 ++ l ++ l') b) →
  safe gated Q p (l0 ++ l).
Proof.
  revert l. induction p as [b|c k IH]; intros l Hg Hq Hl HQ.
  - split; [done|]. specialize (HQ [] b eq_refl). rewrite app_nil_r in HQ. auto.
  - destruct Hq as [Hc Hk]. split; [done|]. intros r. rewrite <-app_assoc.
    assert (request_of (c ↦ᵣ r) = None) as Hn by (unfold request_of; simpl; by destruct c).
    assert (quiet (l ++ [c ↦ᵣ r])) as Hq'
      by (apply quiet_app; split; [done|unfold quiet; simpl; by rewrite Hn]).
    apply IH; [|done|done|].
    + rewrite app_assoc. by apply gated_snoc.
    + intros l' b Hf Hq2. rewrite <-app_assoc in *. apply HQ; [by exists r|done].
Qed.

(** ** Paths of the parts *)

Definition early (o : EffectExecutorAttemptOutcome) : bool :=
  match o with
  | AoConnectorUnavailable | AoPolicyDenied _ | AoPolicyUnavailable | AoCancelledBeforeClaim => true
  | _ => false
  end.

Lemma authorize_paths l r :
  follows (authorize_prepared x prepared a) l (Done r) →
  omap apply_of l = [] ∧
  match r with
  | inl o => early o = true
  | inr rg => resolve (xe_connectors x) (ef_operation (es_effect (pe_snapshot prepared))) = Some rg ∧
      true ∉ omap token_of l ∧
      (xe_policy x, policy_request prepared a rg, RcReturned (Ok XdAllow)) ∈ omap policy_of l
  end.
Proof.
  unfold authorize_prepared. intros H. destruct (resolve _ _) as [rg|] eqn:Er; follow H.
  all: subst; cbn; try done.
  split_and!; [done..|set_solver|set_solver].
Qed.

Lemma claim_paths l r :
  follows (claim_prepared x prepared a) l (Done r) →
  omap token_of l = [] ∧
  match r with
  | inl att => xa_outcome att = AoClaimFailed ∨ xa_outcome att = AoClaimAlreadyCommitted ∨
      ∃ actual, xa_outcome att = AoClaimFenced actual
  | inr (claimed, lease) => ∃ ap, ap ∈ omap apply_of l ∧ claimed_as ap claimed lease
  end.
Proof.
  unfold claim_prepared. intros H. follow H.
  all: subst; cbn; split; [done|]; eauto.
  bool_hyps. eexists. split; [by left|]. destruct a1. simpl in *; subst. split; try done; by apply dec_stable.
Qed.

(** ** Settlement *)

(** A command of the attempt was answered with a status that satisfies [P]. *)
Definition durable (P : EffectStatus → Prop) (l : list item) : Prop := ∃ ap res,
  ap ∈ omap apply_of l ∧ ap_id ap = es_id (pe_snapshot prepared) ∧ ap_authority ap = a ∧
  ap_result ap = Ok res ∧ P (ef_status (es_effect (ecr_snapshot res))).

(** What the report of a settlement of [o] rests on. *)
Definition settled_report (o : EffectExecutionOutcome) (l : list item)
    (att : EffectExecutorAttempt) : Prop :=
  match xa_outcome att with
  | AoApplied => (∃ receipt, o = XoApplied receipt) ∧
      durable (λ s, ∃ k receipt, s = EsApplied k receipt) l
  | AoRejected reason => o = XoNotApplied reason None ∧ durable (λ s, ∃ k, s = EsRejected k reason) l
  | AoUnknown reason => durable (λ s, ∃ k lid, s = EsUnknown k lid reason) l
  | AoRetryScheduled reason retry_at_ms => (∃ delay, o = XoNotApplied reason (Some delay)) ∧
      durable (λ s, ∃ k, s = EsPending k retry_at_ms) l
  | AoClockUnavailableAfterClaim | AoSettlementFenced _ | AoSettlementFailed => True
  | _ => False
  end.

Lemma durable_app P l l' : durable P l ∨ durable P l' → durable P (l ++ l').
Proof.
  intros [(ap & res & H & ?)|(ap & res & H & ?)]; exists ap, res; (split; [|done]);
    rewrite omap_app; apply elem_of_app; auto.
Qed.

Lemma settled_report_app o l l' att : settled_report o l' att → settled_report o (l ++ l') att.
Proof. unfold settled_report. destruct (xa_outcome att); naive_solver eauto using durable_app. Qed.

Lemma settlement_paths claimed lease purpose kind o now l att :
  follows (apply_settlement_command cycle_id prepared a claimed lease purpose kind o now) l (Done att) →
  settled_report o l att ∧ (∀ reason, xa_outcome att = AoUnknown reason → o = XoUnknown reason).
Proof.
  unfold apply_settlement_command. intros H. follow H.
  all: subst; try done.
  unfold settled_report. simpl.
  match goal with |- context [report_settlement o (ef_status (es_effect (ecr_snapshot ?r)))] =>
    assert (∀ P : EffectStatus → Prop, P (ef_status (es_effect (ecr_snapshot r))) →
      durable P [CaApply (es_id (pe_snapshot prepared)) (es_revision claimed)
        {| ec_id := a0; ec_kind := kind |} now a ↦ᵣ Ok r]) as Hd
      by (intros P HP; eexists _, _; split; [by left|done]);
    revert Hd; generalize (ef_status (es_effect (ecr_snapshot r)))
  end.
  intros s Hd. destruct o as [rc|reason [delay|]|reason], s; simpl; try (split; [|done]; by eauto 10).
  - destruct (bool_decide_reflect (reason = reason_code)) as [->|]; simpl; (split; [|done]); eauto 10.
  - destruct (bool_decide_reflect (reason = reason_code)) as [->|]; simpl; (split; [|by intros ? [= <-]]);
      eauto 10.
Qed.

Lemma settled_invalid o l att :
  settled_report (XoUnknown (lit "connector.invalid_outcome")) l att → settled_report o l att.
Proof. unfold settled_report. destruct (xa_outcome att); naive_solver. Qed.

Lemma settle_at_paths claimed lease o absolute now l att :
  follows (settle_at cycle_id prepared a claimed lease o absolute now) l (Done att) →
  settled_report o l att.
Proof.
  unfold settle_at. intros H.
  destruct o as [rc|reason [delay|]|reason], absolute as [at_ms|];
    repeat match type of H with follows (match ?c with _ => _ end) _ _ => destruct c eqn:? end;
    apply settlement_paths in H as [H _]; auto using settled_invalid.
Qed.

Lemma normalized_cases o now :
  normalize_connector_outcome o now = o ∨
  normalize_connector_outcome o now = XoUnknown (lit "connector.invalid_outcome").
Proof.
  unfold normalize_connector_outcome. cbn zeta.
  match goal with |- context [if ?b then _ else _] => destruct b end; auto.
Qed.

Lemma settled_normalized o now l att :
  settled_report (normalize_connector_outcome o now) l att → settled_report o l att.
Proof. destruct (normalized_cases o now) as [-> | ->]; auto using settled_invalid. Qed.

Lemma settle_paths claimed lease o l att :
  follows (settle cycle_id prepared a claimed lease o) l (Done att) → settled_report o l att.
Proof.
  unfold settle. intros H.
  unfold trusted_now, await in H. cbn [mbind prog_bind mret prog_ret] in H.
  apply follows_await in H as (r & l' & -> & H). cbn [mbind prog_bind mret prog_ret] in H.
  match type of H with follows (match ?c with _ => _ end) _ _ => destruct c as [now|] end.
  - apply settle_at_paths in H. apply (settled_report_app _ [_]).
    by eapply settled_normalized.
  - apply follows_done in H as [-> [= ->]]. done.
Qed.

(** A denial is reported as such, or as the failure of its settlement. *)
Definition denied_report (att : EffectExecutorAttempt) : Prop :=
  match xa_outcome att with
  | AoClockUnavailableAfterClaim | AoSettlementFenced _ | AoSettlementFailed
  | AoGovernorUnavailable _ | AoRateLimited _ | AoCircuitOpen _ => True
  | _ => False
  end.

Lemma denial_paths claimed lease reason retry_at_ms o l att :
  follows (settle_governor_denial cycle_id prepared a claimed lease reason retry_at_ms o) l (Done att) →
  (∃ t, o = AoGovernorUnavailable t ∨ o = AoRateLimited t ∨ o = AoCircuitOpen t) → denied_report att.
Proof.
  unfold settle_governor_denial. intros H Ho.
  unfold trusted_now, await in H. cbn [mbind prog_bind mret prog_ret] in H.
  apply follows_await in H as (r & l' & -> & H). cbn [mbind prog_bind mret prog_ret] in H.
  match type of H with follows (match ?c with _ => _ end) _ _ => destruct c as [now|] end.
  2: { by apply follows_done in H as [-> [= ->]]. }
  apply follows_bind in H as (att' & l1 & l2 & -> & H & H2).
  apply settlement_paths in H as [H Hu]. apply follows_done in H2 as [-> [= ->]].
  unfold settled_report in H. unfold denied_report.
  destruct (xa_outcome att') eqn:E; simpl; rewrite ?E; try done.
  - by destruct H as [[? [=]] _].
  - by destruct H as [[=] _].
  - destruct Ho as (t & [-> | [-> | ->]]); done.
  - by specialize (Hu _ eq_refl).
Qed.

Lemma admit_paths claimed lease l r :
  follows (admit_prepared x cycle_id prepared a claimed lease) l (Done r) →
  match r with
  | inl att => denied_report att
  | inr governed => omap token_of l = [] ∧ governed = xe_governor x ∧
      ∀ policy, xe_governor x = Some policy → ∃ q d,
        (q, RcReturned (Ok d)) ∈ omap admit_of l ∧ dr_admission_id q = pe_lease_id prepared ∧
        dr_operation q = ef_operation (es_effect (pe_snapshot prepared)) ∧ dr_policy q = policy ∧
        (d = AdAllow ∨ d = AdAllowProbe)
  end.
Proof.
  unfold admit_prepared. intros H. destruct (xe_governor x) as [configured|] eqn:Eg.
  2: { apply follows_done in H as [-> [= ->]]. done. }
  unfold trusted_now, await in H. cbn [mbind prog_bind mret prog_ret] in H.
  apply follows_await in H as (r0 & l' & -> & H). cbn [mbind prog_bind mret prog_ret] in H.
  match type of H with follows (match ?c with _ => _ end) _ _ => destruct c as [now|] end.
  2: { by apply follows_done in H as [-> [= ->]]. }
  cbn [mbind prog_bind mret prog_ret] in H. apply follows_await in H as (r1 & l2 & -> & H).
  cbn [mbind prog_bind mret prog_ret] in H.
  assert (∀ reason t o, (∃ t', o = AoGovernorUnavailable t' ∨ o = AoRateLimited t' ∨ o = AoCircuitOpen t') →
    follows (settle_governor_denial cycle_id prepared a claimed lease reason t o
             ≫= λ att, Done (inl att)) l2 (Done r) →
    ∃ att, r = inl att ∧ denied_report att) as Hden.
  { intros reason t o Ho Hf.
    apply follows_bind in Hf as (att & l3 & l4 & -> & Hf & Hf2).
    apply follows_done in Hf2 as [-> [= ->]]. eauto using denial_paths. }
  match type of H with follows (match ?d with _ => _ end) _ _ => set (dec := d) in H end.
  assert (∀ d, dec = Some d → r1 = RcReturned (Ok d)) as Hdec.
  { intros d Hd. subst dec. destruct r1 as [| |[d'|e]| |]; try done.
    destruct (valid_governor_decision d' now); congruence. }
  destruct dec as [[| |t|t]|].
  1, 2: specialize (Hdec _ eq_refl); subst r1; apply follows_done in H as [-> [= ->]];
    split; [done|]; split; [done|]; intros policy [= <-]; eexists _, _; split; [by left|auto].
  all: apply Hden in H as (att & -> & Hatt); [done|eauto].
Qed.

(** ** The report of an attempt *)

(** The connector answered [o] to the entry of the attempt. *)
Definition answered (o : EffectExecutionOutcome) (l : list item) : Prop :=
  RcReturned (Ok o) ∈ omap outcome_of l.

(** What the calls [l] of a finished attempt say for its report. *)
Definition honest (l : list item) (att : EffectExecutorAttempt) : Prop :=
  match xa_outcome att with
  | AoConnectorUnavailable | AoPolicyDenied _ | AoPolicyUnavailable | AoCancelledBeforeClaim
  | AoClaimFenced _ | AoClaimFailed | AoClaimAlreadyCommitted
  | AoGovernorUnavailable _ | AoRateLimited _ | AoCircuitOpen _ => quiet l
  | AoApplied => (∃ receipt, answered (XoApplied receipt) l) ∧
      durable (λ s, ∃ k receipt, s = EsApplied k receipt) l
  | AoRejected reason => answered (XoNotApplied reason None) l ∧
      durable (λ s, ∃ k, s = EsRejected k reason) l
  | AoUnknown reason => durable (λ s, ∃ k lid, s = EsUnknown k lid reason) l
  | AoRetryScheduled reason retry_at_ms =>
      (quiet l ∧ reason = lit "executor.cancelled_before_dispatch" ∨
       ∃ delay, answered (XoNotApplied reason (Some delay)) l) ∧
      durable (λ s, ∃ k, s = EsPending k retry_at_ms) l
  | AoClockUnavailableAfterClaim | AoSettlementFenced _ | AoSettlementFailed => True
  | AoAttemptFailed => False
  end.

Lemma always_trusted_now : always is_quiet trusted_now.
Proof. done. Qed.

Lemma always_settlement claimed lease purpose kind o now :
  always is_quiet (apply_settlement_command cycle_id prepared a claimed lease purpose kind o now).
Proof.
  unfold apply_settlement_command. destruct (settlement_command_id _ _ _ _ _ _); [|done].
  split; [done|]. intros [res|[]]; done.
Qed.

Lemma always_settle_at claimed lease o absolute now :
  always is_quiet (settle_at cycle_id prepared a claimed lease o absolute now).
Proof.
  unfold settle_at. destruct o as [rc|reason [d|]|reason], absolute; try apply always_settlement.
  destruct (checked_add _ _ _); apply always_settlement.
Qed.

Lemma always_settle claimed lease o : always is_quiet (settle cycle_id prepared a claimed lease o).
Proof.
  apply always_bind; [done|]. intros [now|e]; [apply always_settle_at|done].
Qed.

Lemma always_denial claimed lease reason t o :
  always is_quiet (settle_governor_denial cycle_id prepared a claimed lease reason t o).
Proof.
  apply always_bind; [done|]. intros [now|e]; [|done].
  apply always_bind; [apply always_settle_at|done].
Qed.

Lemma always_admit claimed lease : always is_quiet (admit_prepared x cycle_id prepared a claimed lease).
Proof.
  unfold admit_prepared. destruct (xe_governor x) as [configured|]; [|done].
  apply always_bind; [done|]. intros [now|e]; [|done].
  apply always_bind; [done|]. intros r. cbn zeta.
  match goal with |- always _ (match ?d with _ => _ end) => destruct d as [[| |t|t]|] end;
    try done; (apply always_bind; [apply always_denial|done]).
Qed.

Lemma always_claim : always is_quiet (claim_prepared x prepared a).
Proof.
  apply always_bind; [done|]. intros [now|e]; [|done]. split; [done|].
  intros [res|[]]; try done. simpl. destruct (ecr_outcome res); [|done].
  destruct (ef_status _); try done. by destruct (_ || _).
Qed.

Lemma always_authorize : always is_quiet (authorize_prepared x prepared a).
Proof.
  unfold authorize_prepared. destruct (resolve _ _); [|done]. split; [done|]. intros [|]; [done|].
  split; [done|]. intros [| |[[|reason]|]| |]; try done.
  - split; [done|]. by intros [].
  - simpl. by destruct (is_ok _).
Qed.

Lemma always_abandon governed claimed lease :
  always is_quiet (abandon_prepared x cycle_id prepared a governed claimed lease).
Proof.
  apply always_bind.
  - destruct governed as [p|]; [|done]. apply always_bind; [done|]. intros [now|e]; [|done].
    by split.
  - intros failed. apply always_bind; [apply always_settle|done].
Qed.

Lemma safe_before {A} (p : prog A) (Q : list item → A → Prop) l :
  quiet l → always is_quiet p →
  (∀ l' b, follows p l' (Done b) → quiet (l ++ l') → Q (l ++ l') b) → safe gated Q p l.
Proof. intros Hl Hp HQ. apply (safe_quiet p Q [] l); [by apply gated_quiet|done..]. Qed.

(** A settlement reports no more than what happened. *)
Lemma honest_settled o l0 l att :
  settled_report o l att →
  (∀ receipt, o = XoApplied receipt → answered o l0) →
  (∀ reason, o = XoNotApplied reason None → answered o l0) →
  (∀ reason delay, o = XoNotApplied reason (Some delay) →
     quiet (l0 ++ l) ∧ reason = lit "executor.cancelled_before_dispatch" ∨ answered o l0) →
  honest (l0 ++ l) att.
Proof.
  unfold settled_report, honest. intros H H1 H2 H3.
  assert (∀ o', answered o' l0 → answered o' (l0 ++ l)) as Happ
    by (intros o' Ho; unfold answered in *; rewrite omap_app; set_solver).
  destruct (xa_outcome att); try done.
  - destruct H as [[rc ->] Hd]. split; [|apply durable_app; auto]. exists rc. eauto.
  - destruct H as [-> Hd]. split; [|apply durable_app; auto]. eauto.
  - destruct H as [[d ->] Hd]. split; [|apply durable_app; auto].
    destruct (H3 _ _ eq_refl); [by left|right; eauto].
  - apply durable_app. auto.
Qed.

Lemma honest_ext l att att' : xa_outcome att' = xa_outcome att → honest l att → honest l att'.
Proof. unfold honest. by intros ->. Qed.

Lemma honest_cancelled l0 l att :
  settled_report (XoNotApplied (lit "executor.cancelled_before_dispatch") (Some 0%Z)) l att →
  quiet (l0 ++ l) → honest (l0 ++ l) att.
Proof.
  intros H Hq. eapply honest_settled; [exact H|done|done|].
  intros reason delay E. left. split; [done|]. by injection E as <- <-.
Qed.

Lemma dispatch_answered r o ds :
  dispatch_outcome r = (o, ds) → r = RcReturned (Ok o) ∨ ∃ reason, o = XoUnknown reason.
Proof. destruct r as [| |[o'|]| |]; intros [= <- <-]; eauto. Qed.

Lemma always_settle_dispatched governed claimed lease o ds :
  always is_quiet (settle_dispatched x cycle_id prepared a governed claimed lease o ds).
Proof.
  apply always_bind; [done|]. intros [now|e]; [|done]. cbn zeta.
  apply always_bind; [destruct governed as [p|]; [by split|done]|]. intros failed.
  apply always_bind; [apply always_settle_at|done].
Qed.

Lemma settle_dispatched_paths governed claimed lease o ds l att :
  follows (settle_dispatched x cycle_id prepared a governed claimed lease o ds) l (Done att) →
  settled_report o l att.
Proof.
  intros Hf. apply follows_bind in Hf as (now & l1 & l2 & -> & _ & Hf). apply settled_report_app.
  destruct now as [now|e]; [|apply follows_done in Hf as [-> [= ->]]; done].
  cbn zeta in Hf. apply follows_bind in Hf as (failed & l3 & l4 & -> & _ & Hf).
  apply settled_report_app. apply follows_bind in Hf as (att' & l5 & l6 & -> & Hf & Hf2).
  apply follows_done in Hf2 as [-> [= ->]]. rewrite app_nil_r.
  apply settle_at_paths, settled_normalized in Hf. done.
Qed.

(** What happens in the connector and after it. *)
Lemma dispatch_safe rg governed claimed lease l :
  quiet l → entered l (rg_connector rg) (execution_request prepared a lease) →
  safe gated honest (dispatch_prepared x cycle_id prepared a rg governed claimed lease) l.
Proof.
  intros Hq He. split; [by apply gated_quiet|]. intros r.
  set (i := _ ↦ᵣ r).
  change (safe gated honest (let '(o, ds) := dispatch_outcome r in
    settle_dispatched x cycle_id prepared a governed claimed lease o ds) (l ++ [i])).
  destruct (dispatch_outcome r) as [o ds] eqn:Ed. rewrite <-(app_nil_r (l ++ [i])).
  apply safe_quiet; [|apply always_settle_dispatched|done|].
  - rewrite app_nil_r. by eapply gated_entry.
  - intros l' att Hf%settle_dispatched_paths _.
    assert (∀ o', r = RcReturned (Ok o') → answered o' (l ++ [i])) as Ha
      by (intros o' ->; unfold answered; rewrite omap_app; set_solver).
    apply dispatch_answered in Ed as Hr.
    eapply honest_settled; [exact Hf|..]; intros; simplify_eq; destruct Hr as [Hr|[? Hr]]; try done; auto.
Qed.

(** ** The whole attempt *)

Lemma entered_before l1 l2 l3 rg ap claimed lease :
  quiet (l1 ++ l2 ++ l3) →
  resolve (xe_connectors x) (ef_operation (es_effect (pe_snapshot prepared))) = Some rg →
  (xe_policy x, policy_request prepared a rg, RcReturned (Ok XdAllow)) ∈ omap policy_of l1 →
  true ∉ omap token_of l1 → true ∉ omap token_of l2 → true ∉ omap token_of l3 →
  ap ∈ omap apply_of l2 → claimed_as ap claimed lease →
  (∀ policy, xe_governor x = Some policy → ∃ q d,
     (q, RcReturned (Ok d)) ∈ omap admit_of l3 ∧ dr_admission_id q = pe_lease_id prepared ∧
     dr_operation q = ef_operation (es_effect (pe_snapshot prepared)) ∧ dr_policy q = policy ∧
     (d = AdAllow ∨ d = AdAllowProbe)) →
  entered (l1 ++ l2 ++ l3) (rg_connector rg) (execution_request prepared a lease).
Proof.
  intros Hq Hr Hp H1 H2 H3 Ha Hc Hg. split; [done|..].
  - rewrite !omap_app. set_solver.
  - exists rg. split_and!; [done..|]. rewrite !omap_app. set_solver.
  - exists ap, claimed, lease. split_and!; [|done..]. rewrite !omap_app. set_solver.
  - intros policy Hpol. destruct (Hg policy Hpol) as (q & d & Hd & ?). exists q, d.
    split; [|done]. rewrite !omap_app. set_solver.
Qed.

Lemma execute_safe : safe gated honest (execute_prepared x cycle_id prepared a) [].
Proof.
  apply safe_bind, safe_before; [done|apply always_authorize|]. intros l1 [o|rg] Hf1 Hq1; change ([] ++ l1) with l1 in *.
  { apply authorize_paths in Hf1 as [_ He]. split; [by apply gated_quiet|].
    unfold honest. simpl. by destruct o. }
  apply authorize_paths in Hf1 as (_ & Hr & Ht1 & Hp).
  apply safe_bind, safe_before; [done|apply always_claim|]. intros l2 [att|[claimed lease]] Hf2 Hq2.
  { apply claim_paths in Hf2 as [_ He]. split; [by apply gated_quiet|].
    unfold honest. by destruct He as [-> |[-> |[act ->]]]. }
  apply claim_paths in Hf2 as (Ht2 & ap & Hap & Hc).
  apply safe_bind, safe_before; [done|done|]. intros l3 cancelled Hf3 Hq3.
  apply follows_await in Hf3 as (b & l3' & -> & Hf3). apply follows_done in Hf3 as [-> [= ->]].
  destruct b; cbv beta match.
  { apply safe_before; [done|apply always_settle|]. intros l' att Hs Hq.
    eapply honest_cancelled; [by eapply settle_paths|done]. }
  apply safe_bind, safe_before; [done|apply always_admit|]. intros l4 [att|governed] Hf4 Hq4.
  { apply admit_paths in Hf4. split; [by apply gated_quiet|].
    unfold honest, denied_report in *. by destruct (xa_outcome att). }
  apply admit_paths in Hf4 as (Ht4 & -> & Hg).
  apply safe_bind, safe_before; [done|done|]. intros l5 cancelled Hf5 Hq5.
  apply follows_await in Hf5 as (b & l5' & -> & Hf5). apply follows_done in Hf5 as [-> [= ->]].
  destruct b; cbv beta match.
  { apply safe_before; [done|apply always_abandon|]. intros l' att Hs Hq.
    apply follows_bind in Hs as (failed & l6 & l7 & -> & _ & Hs).
    apply follows_bind in Hs as (att' & l8 & l9 & -> & Hs & Hd). apply follows_done in Hd as [-> [= ->]].
    apply (honest_ext _ att'); [done|]. apply honest_cancelled; [|done].
    rewrite app_nil_r. by eapply settled_report_app, settle_paths. }
  apply dispatch_safe; [done|]. rewrite <-!(assoc_L (++)) in *.
  eapply entered_before; try done.
  - rewrite Ht2. set_solver.
  - rewrite !omap_app, Ht4. set_solver.
  - intros policy Hpol. destruct (Hg policy Hpol) as (q & d & Hd & ?). exists q, d. split; [|done].
    rewrite !omap_app. set_solver.
Qed.

(** ** Reports name the attempt *)

Definition names (att : EffectExecutorAttempt) : Prop :=
  xa_effect_id att = es_id (pe_snapshot prepared) ∧
  xa_observed_revision att = es_revision (pe_snapshot prepared) ∧
  xa_attempt att = pe_attempt prepared ∧
  (xa_lease_id att = None ∨ xa_lease_id att = Some (pe_lease_id prepared)).

Lemma base_names o : names (base prepared o).
Proof. unfold names. simpl. auto. Qed.
Lemma leased_names o : names (leased prepared o).
Proof. unfold names. simpl. auto. Qed.

Lemma settlement_names claimed lease purpose kind o now :
  ends names (apply_settlement_command cycle_id prepared a claimed lease purpose kind o now).
Proof.
  unfold apply_settlement_command. destruct (settlement_command_id _ _ _ _ _ _); [|apply leased_names].
  intros [res|[]]; apply leased_names.
Qed.

Lemma settle_at_names claimed lease o absolute now :
  ends names (settle_at cycle_id prepared a claimed lease o absolute now).
Proof.
  unfold settle_at. destruct o as [rc|reason [d|]|reason], absolute; try apply settlement_names.
  destruct (checked_add _ _ _); apply settlement_names.
Qed.

(** What reads the clock and ends in [names] either way. *)
Lemma now_names (f : result Z → prog EffectExecutorAttempt) :
  (∀ r, ends names (f r)) → ends names (trusted_now ≫= f).
Proof. intros H. apply ends_bind, ends_any, H. Qed.

Lemma settle_names claimed lease o : ends names (settle cycle_id prepared a claimed lease o).
Proof. apply now_names. intros [now|]; [apply settle_at_names|apply leased_names]. Qed.

Lemma denial_names claimed lease reason t o :
  ends names (settle_governor_denial cycle_id prepared a claimed lease reason t o).
Proof.
  apply now_names. intros [now|]; [|apply leased_names].
  apply ends_bind. eapply ends_mono, settle_at_names. intros att Hn. simpl. by destruct (xa_outcome att).
Qed.

(** A report ends the attempt early, or the attempt goes on. *)
Definition names_early {R} (r : EffectExecutorAttempt + R) : Prop :=
  match r with inl att => names att | inr _ => True end.

Lemma ends_early {R} (p : prog (EffectExecutorAttempt + R)) (f : R → prog EffectExecutorAttempt) :
  ends names_early p → (∀ v, ends names (f v)) →
  ends names (p ≫= λ r, match r with inl att => mret att | inr v => f v end).
Proof.
  intros Hp Hf. apply ends_bind. eapply ends_mono, Hp. intros [att|v] H; [exact H|apply Hf].
Qed.

Lemma claim_names : ends names_early (claim_prepared x prepared a).
Proof.
  apply ends_bind, ends_any. intros [now|]; [|apply base_names].
  intros [res|[]]; simpl; try apply leased_names.
  destruct (ecr_outcome res); [|apply leased_names].
  destruct (ef_status _); try apply leased_names. destruct (_ || _); [apply leased_names|done].
Qed.

Lemma admit_names claimed lease :
  ends names_early (admit_prepared x cycle_id prepared a claimed lease).
Proof.
  unfold admit_prepared. destruct (xe_governor x) as [configured|]; [|done].
  apply ends_bind, ends_any. intros [now|]; [|apply leased_names]. intros r.
  match goal with |- ends _ ?p => change p with (p : prog (EffectExecutorAttempt + option EffectDispatchGovernorPolicy)) end.
  cbn [mbind prog_bind await mret prog_ret]. cbn zeta.
  match goal with |- ends _ (match ?d with _ => _ end) => destruct d as [[| |t|t]|] end;
    try done; (apply ends_bind; eapply ends_mono, denial_names; done).
Qed.

Lemma dispatch_names rg governed claimed lease :
  ends names (dispatch_prepared x cycle_id prepared a rg governed claimed lease).
Proof.
  intros r. change (ends names (let '(o, ds) := dispatch_outcome r in
    settle_dispatched x cycle_id prepared a governed claimed lease o ds)).
  destruct (dispatch_outcome r) as [o ds]. apply now_names. intros [now|]; [|apply leased_names].
  cbn zeta. apply ends_bind, ends_any. intros failed. apply ends_bind.
  eapply ends_mono, settle_at_names. done.
Qed.

Lemma execute_names : ends names (execute_prepared x cycle_id prepared a).
Proof.
  apply ends_bind, ends_any. intros [o|rg]; [apply base_names|].
  apply ends_early; [apply claim_names|]. intros [claimed lease].
  apply ends_bind, ends_any. intros [|]; [apply settle_names|].
  apply ends_early; [apply admit_names|]. intros governed.
  apply ends_bind, ends_any. intros [|]; [|apply dispatch_names].
  apply ends_bind, ends_any. intros failed. apply ends_bind. eapply ends_mono, settle_names. done.
Qed.
End paths.
