(* ===== verification/ExecutorSafety.v ===== *)
(** Executions of the executor (src/src/effect/executor.rs): sweeps of any
    number of executors over one ledger, with other clients in between.  No
    attempt enters a connector twice, every entry is permitted and carries the
    durable Effect's content, and reports say what the ledger holds.  Proved
    against the contract [EffectLaws] of a coordinator. *)

From Stdlib Require Import ZArith Lia.
From stdpp Require Import sorting base tactics list gmap relations numbers strings option.
From stdpp Require Import list.
From S2P Require Import Prelude Kernel Digest Json Sqlite Pairs Effect EffectSafety EffectCoordinator EffectStores EffectClients Governor Futures Workers Executor ExecutorPaths.

Section safety.
Context `{!Serialize EffectConnectorDescriptor, !Serialize ExecutionIdentity,
          !Serialize EffectDispatchGovernorPolicy, !Serialize Json,
          !Serialize (AttributedCommand EffectCreateRequest),
          !Serialize (AttributedCommand EffectCommand), !Serialize EffectCommand,
          !Serialize EffectWire, sha : !Sha256}.
Context {W G : Type} `{!EffectCoordinator W, !EffectDispatchGovernor G, !EffectLaws W}.

Abbreviation state := (@XState W G).
Lemma environment_evolves (w w' : XWorld) :
  ec_inv (xw_effects w) → environment w w' →
  ec_inv (xw_effects w') ∧ effect_evolves (xw_effects w) (xw_effects w').
Proof.
  intros Hi [w1 Hs _|q a w1 r -> _|id st t a w1 r -> _]; [by apply ec_step_evolves|..];
    (split; [done|by apply effect_evolves_same]).
Qed.

Lemma handles_evolves b (w w' : XWorld) c r :
  ec_inv (xw_effects w) → handles b w c r w' →
  ec_inv (xw_effects w') ∧ effect_evolves (xw_effects w) (xw_effects w').
Proof.
  intros Hi Hh.
  assert (∀ w1, w1 = xw_effects w → ec_inv w1 ∧ effect_evolves (xw_effects w) w1) as Hsame
    by (intros w1 ->; split; [done|by apply effect_evolves_same]).
  destruct c; simpl in Hh; destruct Hh as [Hh Hh'];
    try (rewrite Hh; apply Hsame; done); try (apply Hsame; congruence).
  - apply ec_step_evolves; [done|]. eapply ec_list, Hh.
  - destruct Hh' as [Hh' _]. apply ec_step_evolves; [done|]. by eapply ec_apply, Hh'.
Qed.

(** ** Fresh claims *)

Definition claim_result (ap : applied) : option ((str * EffectId) * Z) :=
  match ec_kind (ap_command ap), ap_result ap with
  | EcClaim _ _, Ok res =>
      match ecr_outcome res, ef_status (es_effect (ecr_snapshot res)) with
      | EffApplied, EsClaimed lease =>
          Some (effect_key (ap_id ap) (tenant_id (ap_authority ap)), el_attempt lease)
      | _, _ => None
      end
  | _, _ => None
  end.

(** The Claims that committed, with the future that made each. *)
Definition claim_of (e : future * item) : option (future * ((str * EffectId) * Z)) :=
  match apply_of e.2 with
  | Some ap => pair e.1 <$> claim_result ap
  | None => None
  end.

(** The entries into connectors: tenant, Effect and attempt. *)
Definition entry_of (e : future * item) : option ((str * EffectId) * Z) :=
  match request_of e.2 with
  | Some request => Some (effect_key (xr_effect_id request) (tenant_id (xr_authority request)),
                          xr_attempt request)
  | None => None
  end.

(** A Claim that commits has the number after all the claims before it. *)
Lemma claim_attempt c now a e e' lid dur lease :
  eff_apply c now a e = (e', Ok EffApplied) → ec_kind c = EcClaim lid dur →
  ef_status e' = EsClaimed lease →
  el_attempt lease = (claims (ef_transitions e) + 1)%Z ∧ claims (ef_transitions e') = el_attempt lease.
Proof.
  intros (d & [s k] & n & Had & Hv & _ & ->)%eff_apply_applied Hk Hs.
  pose proof (valid_follows _ Hv) as Hf. simpl in Hs. simpl in Hf. rewrite Hs in Hf. destruct Hf as [Ha _].
  pose proof (eff_apply_kind_command _ _ _ _ _ _ (ea_kind _ _ _ _ _ _ Had)) as Hc. rewrite Hk in Hc.
  simpl in *. rewrite Ha. split; [|done].
  rewrite claims_snoc. unfold is_claim. simpl. destruct k; simpl in *; try case_match; simplify_eq; done.
Qed.

(** ** What the trace says about the ledger *)

Record ledger_inv (tr : list (future * item)) (w : W) : Prop := {
  li_inv : ec_inv w;
  li_reached f i ap res :
    (f, i) ∈ tr → apply_of i = Some ap → ap_result ap = Ok res →
    reached (ec_view w) (effect_key (ap_id ap) (tenant_id (ap_authority ap)))
      (es_effect (ecr_snapshot res));
  li_listed f i a page sn :
    (f, i) ∈ tr → listing_of i = Some (a, Ok page) → sn ∈ pg_effects page →
    reached (ec_view w) (effect_key (es_id sn) (tenant_id a)) (es_effect sn);
  li_claims : NoDup (omap claim_of tr).*2;
  li_bound f key k :
    (f, (key, k)) ∈ omap claim_of tr →
    ∃ cur, ec_view w !! key = Some cur ∧ (k ≤ claims (ef_transitions (es_effect cur)))%Z;
}.

Lemma bound_evolves (w w' : W) key k :
  effect_evolves w w' →
  (∃ cur, ec_view w !! key = Some cur ∧ (k ≤ claims (ef_transitions (es_effect cur)))%Z) →
  ∃ cur, ec_view w' !! key = Some cur ∧ (k ≤ claims (ef_transitions (es_effect cur)))%Z.
Proof.
  intros Hev (cur & Hc & Hk). destruct (Hev key) as [Hm _].
  destruct (Hm cur Hc) as (cur' & Hc' & _ & [->|(_ & c & now & a & Hnow & Ha)]); [by exists cur|].
  exists cur'. split; [done|]. etrans; [exact Hk|]. apply steps_claims, rtc_once.
  by exists c, now, a, (Ok EffApplied).
Qed.

Lemma ledger_inv_evolves tr (w w' : W) :
  ec_inv w' → effect_evolves w w' → ledger_inv tr w → ledger_inv tr w'.
Proof.
  intros Hi Hev [_ H1 H2 H3 H4]. split; [done|..]; [|..]; intros;
    eauto using reached_evolves, bound_evolves.
Qed.

Lemma apply_handled b (w w' : XWorld) id rev c now a res :
  ec_inv (xw_effects w) → handles b w (CaApply id rev c now a) (Ok res) w' →
  reached (ec_view (xw_effects w')) (effect_key id (tenant_id a)) (es_effect (ecr_snapshot res)) ∧
  ∀ k, claim_result {| ap_id := id; ap_revision := rev; ap_command := c; ap_at_ms := now;
         ap_authority := a; ap_result := Ok res |} = Some k →
    k.1 = effect_key id (tenant_id a) ∧
    (∀ cur, ec_view (xw_effects w) !! k.1 = Some cur →
       claims (ef_transitions (es_effect cur)) < k.2)%Z ∧
    (∃ cur, ec_view (xw_effects w') !! k.1 = Some cur ∧ k.2 ≤ claims (ef_transitions (es_effect cur)))%Z.
Proof.
  intros Hi (Hnow & Hh & _). apply ec_apply_law in Hh as [Hi' (_ & cur & Hcur & Hr)]; [|done].
  destruct Hr as [(_ & Hv & ->)|(_ & e & Ha & -> & Hv)]; simpl.
  - rewrite Hv. split; [by apply reached_here|]. unfold claim_result. simpl. by destruct (ec_kind c).
  - assert (ec_view (xw_effects w') !! effect_key id (tenant_id a) = Some (next_effect_snapshot cur e))
      as Hn by (rewrite Hv; apply lookup_insert_eq).
    split; [exact (reached_here _ _ _ Hi' Hn)|].
    intros k Hk. unfold claim_result in Hk. simpl in Hk.
    destruct (ec_kind c) as [lid dur| | | | | | | |] eqn:Ek; try done.
    destruct (ef_status e) as [|lease| | | |] eqn:Es; try done. injection Hk as <-. simpl.
    destruct (claim_attempt _ _ _ _ _ _ _ _ Ha Ek Es) as [H1 H2]. split_and!; [done| |].
    + intros cur' E. rewrite Hcur in E. injection E as <-. lia.
    + exists (next_effect_snapshot cur e). split; [done|]. simpl. lia.
Qed.

Lemma list_handled b (w w' : XWorld) st after limit a page sn :
  ec_inv (xw_effects w) → handles b w (CaList st after limit a) (Ok page) w' → sn ∈ pg_effects page →
  reached (ec_view (xw_effects w')) (effect_key (es_id sn) (tenant_id a)) (es_effect sn).
Proof.
  intros Hi [Hh _] Hsn. apply ec_list_law in Hh as (Hi' & Hv & Hp); [|done].
  destruct (Hp _ eq_refl) as [_ ->]. apply elem_of_take_sub, elem_of_take_sub in Hsn.
  apply list_elem_of_In, filter_In in Hsn as [Hl%list_elem_of_In _].
  apply elem_of_values_after in Hl as (id & Hk & _). rewrite <-Hv in Hk.
  destruct (ec_stored _ _ _ Hi' Hk) as (K1 & _). simpl in K1. subst id.
  exact (reached_here _ _ _ Hi' Hk).
Qed.

Lemma claims_of_snoc tr f i :
  omap claim_of (tr ++ [(f, i)]) =
  omap claim_of tr ++ match claim_of (f, i) with Some k => [k] | None => [] end.
Proof. rewrite omap_app. simpl. by destruct (claim_of (f, i)). Qed.

Lemma claim_of_apply f i k :
  claim_of (f, i) = Some k →
  ∃ ap res, apply_of i = Some ap ∧ ap_result ap = Ok res ∧ claim_result ap = Some k.2 ∧ k.1 = f.
Proof.
  unfold claim_of. simpl. destruct (apply_of i) as [ap|]; [|done].
  destruct (claim_result ap) as [kk|] eqn:E; [|done]. intros [= <-]. exists ap.
  destruct (ap_result ap) as [res|] eqn:Er; [by exists res|].
  unfold claim_result in E. rewrite Er in E. by destruct (ec_kind _).
Qed.

Lemma apply_of_call b c (r : answer c) (w w' : XWorld) ap :
  apply_of (c ↦ᵣ r) = Some ap → handles b w c r w' →
  handles b w (CaApply (ap_id ap) (ap_revision ap) (ap_command ap) (ap_at_ms ap) (ap_authority ap))
    (ap_result ap) w'.
Proof. destruct c; try done. by intros [= <-]. Qed.

Lemma listing_of_call b c (r : answer c) (w w' : XWorld) a page :
  listing_of (c ↦ᵣ r) = Some (a, page) → handles b w c r w' →
  ∃ st after limit, handles b w (CaList st after limit a) page w'.
Proof. destruct c; try done. intros [= <- <-]. eauto. Qed.

Lemma ledger_inv_call b tr (w w' : XWorld) f c r :
  ledger_inv tr (xw_effects w) → handles b w c r w' →
  ledger_inv (tr ++ [(f, c ↦ᵣ r)]) (xw_effects w').
Proof.
  intros Hl Hh. destruct (handles_evolves _ _ _ _ _ (li_inv _ _ Hl) Hh) as [Hi' Hev].
  destruct (ledger_inv_evolves _ _ _ Hi' Hev Hl) as [_ H1 H2 H3 H4].
  pose proof (λ ap E, apply_of_call _ _ _ _ _ ap E Hh) as Hap.
  split; [done|..].
  - intros f' i ap res [Hin|[= -> ->]%list_elem_of_singleton]%elem_of_app Ha Hr; [eauto|].
    apply Hap in Ha as Hc. rewrite Hr in Hc.
    by destruct (apply_handled _ _ _ _ _ _ _ _ _ (li_inv _ _ Hl) Hc).
  - intros f' i a page sn [Hin|[= -> ->]%list_elem_of_singleton]%elem_of_app Ha Hsn; [eauto|].
    destruct (listing_of_call _ _ _ _ _ _ _ Ha Hh) as (st & after & limit & Hc).
    eapply list_handled, Hsn; [|done]. apply Hl.
  - rewrite claims_of_snoc, fmap_app. destruct (claim_of _) as [k|] eqn:Ek; [|by rewrite app_nil_r].
    apply claim_of_apply in Ek as (ap & res & Ha & Hr & Hk & _). apply Hap in Ha as Hc. rewrite Hr in Hc.
    destruct (apply_handled _ _ _ _ _ _ _ _ _ (li_inv _ _ Hl) Hc) as [_ Hf].
    destruct (Hf k.2) as (_ & Hlt & _); [by destruct ap; simpl in *; subst|].
    apply NoDup_app. split_and!; [done| |apply NoDup_singleton].
    intros kk Hin ->%list_elem_of_singleton. apply list_elem_of_fmap in Hin as ([f0 [key n]] & E & Hin).
    simpl in E. destruct (li_bound _ _ Hl _ _ _ Hin) as (cur & Hcur & Hle). rewrite E in Hlt.
    specialize (Hlt cur Hcur). simpl in Hlt. lia.
  - intros f' key k Hin. rewrite claims_of_snoc in Hin. apply elem_of_app in Hin as [Hin|Hin]; [eauto|].
    destruct (claim_of _) as [kk|] eqn:Ek; [|by apply not_elem_of_nil in Hin].
    apply list_elem_of_singleton in Hin as <-.
    apply claim_of_apply in Ek as (ap & res & Ha & Hr & Hk & _). apply Hap in Ha as Hc. rewrite Hr in Hc.
    destruct (apply_handled _ _ _ _ _ _ _ _ _ (li_inv _ _ Hl) Hc) as [_ Hf].
    by destruct (Hf (key, k)) as (_ & _ & ?); [destruct ap; simpl in *; subst|].
Qed.

(** ** What the trace says about the futures *)

(** [pe] was listed for the authority [a]. *)
Definition listed (w : W) (a : AuthorityContext) (pe : PreparedEffect) : Prop :=
  reached (ec_view w) (effect_key (es_id (pe_snapshot pe)) (tenant_id a)) (es_effect (pe_snapshot pe)).

(** The calls of [f] are a path of an attempt on a listed Effect, to [p]. *)
Definition attempting (tr : list (future * item)) (w : W) (f : future) (x : EffectExecutor)
    (cycle_id : str) (a : AuthorityContext) (pe : PreparedEffect) (p : prog EffectExecutorAttempt)
    : Prop :=
  listed w a pe ∧ follows (execute_prepared x cycle_id pe a) (items_of f tr) p.

(** A report is the fallback, or the result of a future. *)
Definition reported (tr : list (future * item)) (w : W) (f : nat → future) (t : running)
    (tasks : nat → Prop) (att : EffectExecutorAttempt) : Prop :=
  xa_outcome att = AoAttemptFailed ∨
  ∃ task pe, tasks task ∧ attempting tr w (f task) (rn_executor t) (rn_cycle_id t)
    (rn_authority t) pe (Done att).

(** The worker loop, whose workers are attempts on listed Effects. *)
Record working_inv (tr : list (future * item)) (w : W) (i : nat) (t : running) (sw : Sweep)
    : Prop := {
  wi_pending idx pe : (idx, pe) ∈ sw_pending sw → listed w (rn_authority t) pe;
  wi_fresh task : (sw_next_task sw ≤ task)%nat → items_of (i, Some task) tr = [];
  wi_workers task idx p : sw_workers sw !! task = Some (idx, p) →
    (task < sw_next_task sw)%nat ∧ ∃ pe, attempting tr w (i, Some task) (rn_executor t)
      (rn_cycle_id t) (rn_authority t) pe p;
  wi_attempts idx att : (idx, att) ∈ sw_attempts sw →
    reported tr w (λ task, (i, Some task)) t
      (λ task, (task < sw_next_task sw)%nat ∧ sw_workers sw !! task = None) att;
  wi_fallbacks task idx att :
    sw_fallbacks sw !! task = Some (idx, att) → xa_outcome att = AoAttemptFailed;
}.

Definition sweep_inv (tr : list (future * item)) (w : W) (i : nat) (t : running) : Prop :=
  match rn_stage t with
  | Scanning p =>
      (∃ after, follows (scan_pending (rn_executor t)
         {| rr_cycle_id := rn_cycle_id t; rr_after := after |} (rn_authority t)) (items_of (i, None) tr) p) ∧
      ∀ task, items_of (i, Some task) tr = []
  | Working plan sw => working_inv tr w i t sw
  | Returned (Ok report) =>
      ∀ att, att ∈ xp_attempts report → reported tr w (λ task, (i, Some task)) t (λ _, True) att
  | Returned (Err _) | Dropped => True
  end.

Record futures_inv (tr : list (future * item)) (s : state) : Prop := {
  fi_sweeps i t : xs_sweeps s !! i = Some t → sweep_inv tr (xw_effects (xs_world s)) i t;
  fi_fresh i : xs_sweeps s !! i = None → ∀ o, items_of (i, o) tr = [];
  fi_attempts i task : items_of (i, Some task) tr = [] ∨
    ∃ t pe p, xs_sweeps s !! i = Some t ∧ attempting tr (xw_effects (xs_world s)) (i, Some task)
      (rn_executor t) (rn_cycle_id t) (rn_authority t) pe p;
  fi_scans i : omap request_of (items_of (i, None) tr) = [];
}.

Lemma attempting_evolves tr tr' (w w' : W) f x cycle_id a pe p :
  effect_evolves w w' → items_of f tr' = items_of f tr →
  attempting tr w f x cycle_id a pe p → attempting tr' w' f x cycle_id a pe p.
Proof. intros Hev E [H1 H2]. split; [by eapply reached_evolves|by rewrite E]. Qed.

Lemma reported_evolves tr tr' (w w' : W) f t (P P' : nat → Prop) att :
  effect_evolves w w' → (∀ task, P task → P' task ∧ items_of (f task) tr' = items_of (f task) tr) →
  reported tr w f t P att → reported tr' w' f t P' att.
Proof.
  intros Hev HP [H|(task & pe & Ht & H)]; [by left|right]. destruct (HP task Ht). exists task, pe.
  eauto using attempting_evolves.
Qed.

Lemma working_inv_evolves tr tr' (w w' : W) i t sw :
  effect_evolves w w' → (∀ o, items_of (i, o) tr' = items_of (i, o) tr) →
  working_inv tr w i t sw → working_inv tr' w' i t sw.
Proof.
  intros Hev E [H1 H2 H3 H4 H5]. split.
  - intros. eapply reached_evolves; [done|]. by eapply H1.
  - intros. rewrite E. auto.
  - intros task idx p Hw. destruct (H3 _ _ _ Hw) as [? [pe Hp]]. split; [done|]. exists pe.
    eapply attempting_evolves; [exact Hev|apply E|exact Hp].
  - intros idx att Ha. eapply reported_evolves; [done| |by eapply H4]. auto.
  - done.
Qed.

Lemma sweep_inv_evolves tr tr' (w w' : W) i t :
  effect_evolves w w' → (∀ o, items_of (i, o) tr' = items_of (i, o) tr) →
  sweep_inv tr w i t → sweep_inv tr' w' i t.
Proof.
  unfold sweep_inv. intros Hev E. destruct (rn_stage t) as [p|plan sw|[report|]|]; try done.
  - intros [[after H] H2]. split; [exists after; by rewrite E|]. intros. by rewrite E.
  - by apply working_inv_evolves.
  - intros H att Ha. eapply reported_evolves; [done| |by apply H]. auto.
Qed.

Lemma spawn_next_inv tr (w : W) i t sw :
  working_inv tr w i t sw →
  working_inv tr w i t (spawn_next (worker (rn_executor t) (rn_cycle_id t) (rn_authority t)) worker_fallback sw).
Proof.
  intros [H1 H2 H3 H4 H5]. unfold spawn_next.
  destruct (sw_pending sw) as [|[idx pe] rest] eqn:Ep; [split; rewrite ?Ep; auto|].
  split; simpl.
  - intros idx' pe' Hin. apply (H1 idx'). rewrite ?Ep. by right.
  - intros task Hle. apply H2. lia.
  - intros task idx' p. destruct (decide (task = sw_next_task sw)) as [->|Hne].
    + rewrite lookup_insert_eq. intros [= <- <-]. split; [lia|]. exists pe.
      split; [apply (H1 idx); rewrite ?Ep; by left|]. rewrite H2 by done. apply follows_nil.
    + rewrite lookup_insert_ne by done. intros Hw. destruct (H3 _ _ _ Hw). split; [lia|done].
  - intros idx' att Ha. eapply reported_evolves; [by apply effect_evolves_same| |by eapply H4].
    intros task [Hlt Hn]. simpl. split; [|done]. split; [lia|]. rewrite lookup_insert_ne by lia. done.
  - intros task idx' att. destruct (decide (task = sw_next_task sw)) as [->|Hne].
    + rewrite lookup_insert_eq. by intros [= <- <-].
    + rewrite lookup_insert_ne by done. apply H5.
Qed.

Lemma spawn_iter_inv n tr (w : W) i t sw :
  working_inv tr w i t sw → working_inv tr w i t
    (Nat.iter n (spawn_next (worker (rn_executor t) (rn_cycle_id t) (rn_authority t)) worker_fallback) sw).
Proof. intros H. induction n; simpl; auto using spawn_next_inv. Qed.

Lemma prepared_listed cycle_id a now l : ∀ acc r,
  fold_m (prepare_snapshot cycle_id a now) acc l = Ok r →
  ∀ pe, pe ∈ r → pe ∈ acc ∨ pe_snapshot pe ∈ l.
Proof.
  induction l as [|sn l IH]; intros acc r Hf pe Hpe; [simpl in Hf; simplify_eq; auto|].
  simpl in Hf. destruct (prepare_snapshot _ _ _ _ _) as [acc'|] eqn:E; [|done].
  destruct (IH _ _ Hf _ Hpe) as [Hin|Hin]; [|right; by right].
  unfold prepare_snapshot in E. destruct (ef_status _) as [n nb| | | | |]; try done.
  destruct (nb <=? now)%Z; inv_ok; subst; [|auto].
  apply elem_of_app in Hin as [?|Hin]; [auto|]. apply list_elem_of_singleton in Hin as ->. right. by left.
Qed.

(** The work list of a scan comes from the page it was answered. *)
Lemma scan_paths x request a l plan :
  follows (scan_pending x request a) l (Done (Ok plan)) →
  ∃ i, i ∈ l ∧ listing_of i = Some (a, Ok (sp_page plan)) ∧
    ∀ pe, pe ∈ sp_prepared plan → pe_snapshot pe ∈ pg_effects (sp_page plan).
Proof.
  unfold scan_pending, or_fail. intros H. follow H.
  all: try done.
  subst. eexists. split; [by right; left|]. split; [done|]. intros pe Hpe. simpl in *.
  match goal with E : fold_m _ _ _ = Ok _ |- _ => destruct (prepared_listed _ _ _ _ _ _ E _ Hpe) as [Hn|] end;
    [by apply not_elem_of_nil in Hn|done].
Qed.

Lemma scan_quiet x request a : always is_quiet (scan_pending x request a).
Proof.
  unfold scan_pending, or_fail.
  destruct (validate_run_request _ _); [|done]. destruct (config_validate _); [|done].
  apply always_bind; [done|]. intros [now|]; [|done]. apply always_bind; [done|]. intros [page|]; [|done].
  destruct (validate_effect_page _ _ _ _ _ _); [|done]. by destruct (fold_m _ _ _).
Qed.

Lemma futures_update tr new (s : state) i t w' :
  futures_inv tr s → effect_evolves (xw_effects (xs_world s)) (xw_effects w') →
  (∀ j o, j ≠ i → items_of (j, o) (tr ++ new) = items_of (j, o) tr) →
  sweep_inv (tr ++ new) (xw_effects w') i t →
  (∀ task, items_of (i, Some task) (tr ++ new) = [] ∨
     ∃ pe p, attempting (tr ++ new) (xw_effects w') (i, Some task) (rn_executor t) (rn_cycle_id t)
       (rn_authority t) pe p) →
  omap request_of (items_of (i, None) (tr ++ new)) = [] →
  futures_inv (tr ++ new) (xs_run i t w' s).
Proof.
  intros [F1 F2 F3 F4] Hev Hne Hs Ha Hq. split; simpl.
  - intros j tj. destruct (decide (j = i)) as [->|Hj].
    + rewrite lookup_insert_eq. by intros [= <-].
    + rewrite lookup_insert_ne by done. intros Hj'. eapply sweep_inv_evolves; [done|auto|by apply F1].
  - intros j. destruct (decide (j = i)) as [->|Hj]; [by rewrite lookup_insert_eq|].
    rewrite lookup_insert_ne by done. intros Hn o. rewrite Hne by done. auto.
  - intros j task. destruct (decide (j = i)) as [->|Hj].
    + destruct (Ha task) as [|(pe & p & H)]; [by left|right]. exists t, pe, p. by rewrite lookup_insert_eq.
    + rewrite Hne, lookup_insert_ne by done.
      destruct (F3 j task) as [|(tj & pe & p & Hj' & H)]; [by left|right]. exists tj, pe, p.
      split; [done|]. eapply attempting_evolves; [exact Hev|by apply Hne|exact H].
  - intros j. destruct (decide (j = i)) as [->|Hj]; [done|]. by rewrite Hne.
Qed.

(** A step of a sweep that calls nothing. *)
Lemma futures_quiet tr (s : state) i t t' :
  futures_inv tr s → xs_sweeps s !! i = Some t →
  (rn_executor t', rn_cycle_id t', rn_authority t') = (rn_executor t, rn_cycle_id t, rn_authority t) →
  (sweep_inv tr (xw_effects (xs_world s)) i t → sweep_inv tr (xw_effects (xs_world s)) i t') →
  futures_inv (tr ++ []) (xs_run i t' (xs_world s) s).
Proof.
  intros HF Ht [= E1 E2 E3] Hs. apply futures_update; rewrite ?app_nil_r;
    [done|by apply effect_evolves_same|done|by apply Hs, HF| |apply HF].
  intros task. destruct (fi_attempts _ _ HF i task) as [|(t0 & pe & p & Ht0 & H)]; [by left|right].
  simplify_eq. exists pe, p. by rewrite E1, E2, E3.
Qed.

Lemma items_snoc f g i tr :
  items_of f (tr ++ [(g, i)]) = items_of f tr ++ (if decide (g = f) then [i] else []).
Proof.
  rewrite items_of_app. destruct (decide (g = f)) as [->|]; [by rewrite items_of_self|].
  by rewrite items_of_other.
Qed.

Lemma futures_scan tr (s : state) i t c k r w' :
  futures_inv tr s → xs_sweeps s !! i = Some t → rn_stage t = Scanning (Await c k) →
  effect_evolves (xw_effects (xs_world s)) (xw_effects w') →
  futures_inv (tr ++ [((i, None), c ↦ᵣ r)]) (xs_run i (rn_at (Scanning (k r)) t) w' s).
Proof.
  intros HF Ht Hs Hev. pose proof (fi_sweeps _ _ HF _ _ Ht) as Hi. unfold sweep_inv in Hi. rewrite Hs in Hi.
  destruct Hi as [[after Hf] Hn].
  assert (follows (scan_pending (rn_executor t)
    {| rr_cycle_id := rn_cycle_id t; rr_after := after |} (rn_authority t))
    (items_of (i, None) (tr ++ [((i, None), c ↦ᵣ r)])) (k r)) as Hf'.
  { rewrite items_snoc, decide_True by done. by apply follows_snoc. }
  apply futures_update; [done|done|..].
  - intros j o Hj. rewrite items_snoc, decide_False by congruence. by rewrite app_nil_r.
  - unfold sweep_inv. simpl. split; [by exists after|]. intros task.
    rewrite items_snoc, decide_False by done. by rewrite app_nil_r.
  - intros task. left. rewrite items_snoc, decide_False by done. by rewrite app_nil_r.
  - pose proof (scan_quiet (rn_executor t)
      {| rr_cycle_id := rn_cycle_id t; rr_after := after |} (rn_authority t)) as Hq.
    revert Hf' Hq. generalize (k r). generalize (scan_pending (rn_executor t)
      {| rr_cycle_id := rn_cycle_id t; rr_after := after |} (rn_authority t)).
    generalize (items_of (i, None) (tr ++ [((i, None), c ↦ᵣ r)])).
    induction l as [|it l IH]; intros p q Hf' Hq; [done|].
    apply follows_cons_inv in Hf' as (c' & k' & r' & -> & -> & Hf'). destruct Hq as [Hc Hq].
    simpl. unfold request_of at 1. simpl. destruct c'; try done; by eapply IH.
Qed.

Lemma futures_scanned tr (s : state) i t plan :
  ledger_inv tr (xw_effects (xs_world s)) →
  futures_inv tr s → xs_sweeps s !! i = Some t → rn_stage t = Scanning (Done (Ok plan)) →
  futures_inv (tr ++ []) (xs_run i (rn_at (Working plan (sweep_start (rn_executor t) (rn_cycle_id t)
    (rn_authority t) (sp_prepared plan))) t) (xs_world s) s).
Proof.
  intros Hl HF Ht Hs. eapply futures_quiet; [done|done|done|]. unfold sweep_inv. rewrite Hs. simpl.
  intros [[after (it & Hin & Hli & Hpl)%scan_paths] Hn].
  unfold sweep_start, pool_start. apply (spawn_iter_inv _ _ _ i (rn_at (Working plan _) t)). split; simpl.
  - intros idx pe (j & y & [= -> ->] & Hpe)%elem_of_lookup_imap. apply list_elem_of_lookup_2, Hpl in Hpe.
    unfold items_of in Hin. apply list_elem_of_fmap in Hin as ([f it'] & -> & [_ Hin]%list_elem_of_filter).
    by eapply li_listed.
  - auto.
  - intros task idx p. by rewrite lookup_empty.
  - intros idx att Ha. by apply not_elem_of_nil in Ha.
  - intros task idx p. by rewrite lookup_empty.
Qed.

Lemma futures_work tr (s : state) i t plan sw task idx c k r w' :
  futures_inv tr s → xs_sweeps s !! i = Some t → rn_stage t = Working plan sw →
  sw_workers sw !! task = Some (idx, Await c k) →
  effect_evolves (xw_effects (xs_world s)) (xw_effects w') →
  futures_inv (tr ++ [((i, Some task), c ↦ᵣ r)])
    (xs_run i (rn_at (Working plan (with_worker task idx (k r) sw)) t) w' s).
Proof.
  intros HF Ht Hs Hw Hev. pose proof (fi_sweeps _ _ HF _ _ Ht) as Hi. unfold sweep_inv in Hi. rewrite Hs in Hi.
  destruct Hi as [H1 H2 H3 H4 H5]. destruct (H3 _ _ _ Hw) as [Hlt [pe [Hpe Hf]]].
  set (tr' := tr ++ [((i, Some task), c ↦ᵣ r)]).
  assert (∀ f, f ≠ (i, Some task) → items_of f tr' = items_of f tr) as Hother
    by (intros f Hne; unfold tr'; rewrite items_snoc, decide_False by congruence; by rewrite app_nil_r).
  assert (attempting tr' (xw_effects w') (i, Some task) (rn_executor t) (rn_cycle_id t)
    (rn_authority t) pe (k r)) as Hnew.
  { split; [by eapply reached_evolves|]. unfold tr'. rewrite items_snoc, decide_True by done.
    by apply follows_snoc. }
  apply futures_update; [done|done|..].
  - intros j o Hj. apply Hother. congruence.
  - split; simpl.
    + intros. eapply reached_evolves; [done|]. by eapply H1.
    + intros task' Hle. rewrite Hother by (intros [=]; lia). auto.
    + intros task' idx' p. destruct (decide (task' = task)) as [->|Hne].
      * rewrite lookup_insert_eq. intros [= <- <-]. eauto.
      * rewrite lookup_insert_ne by done. intros Hw'. destruct (H3 _ _ _ Hw') as [? [pe' Hp]].
        split; [done|]. exists pe'. eapply attempting_evolves; [done|apply Hother; congruence|done].
    + intros idx' att Ha. eapply reported_evolves; [done| |by eapply H4]. intros task' [Hlt' Hn].
      assert (task' ≠ task) by congruence.
      split; [split; [done|by rewrite lookup_insert_ne]|]. apply Hother. congruence.
    + done.
  - intros task'. destruct (decide (task' = task)) as [->|Hne]; [right; simpl; eauto 10|].
    destruct (fi_attempts _ _ HF i task') as [|(t0 & pe' & p & Ht0 & H)].
    + left. rewrite Hother by congruence. done.
    + right. simplify_eq. exists pe', p. eapply attempting_evolves; [done|apply Hother; congruence|done].
  - rewrite Hother by done. apply HF.
Qed.

Lemma futures_join tr (s : state) i t plan sw task idx p joined sw' :
  futures_inv tr s → xs_sweeps s !! i = Some t → rn_stage t = Working plan sw →
  sw_workers sw !! task = Some (idx, p) → leaves p joined →
  sweep_join (rn_executor t) (rn_cycle_id t) (rn_authority t) task joined sw = Ok sw' →
  futures_inv (tr ++ []) (xs_run i (rn_at (Working plan sw') t) (xs_world s) s).
Proof.
  intros HF Ht Hs Hw Hj Hsj. eapply futures_quiet; [done|done|done|]. unfold sweep_inv. rewrite Hs. simpl.
  intros [H1 H2 H3 H4 H5]. destruct (H3 _ _ _ Hw) as [Hlt [pe Hp]]. unfold sweep_join, pool_join in Hsj.
  rewrite Hw in Hsj. destruct (sw_fallbacks sw !! task) as [fb|] eqn:Ef; [|done]. simpl in Hsj.
  injection Hsj as <-. apply (spawn_next_inv _ _ i (rn_at (Working plan _) t)). split; simpl.
  - exact H1.
  - exact H2.
  - intros task' idx' p'. destruct (decide (task' = task)) as [->|Hne]; [by rewrite lookup_delete_eq|].
    rewrite lookup_delete_ne by done. apply H3.
  - intros idx' att [Ha|Ha]%elem_of_app.
    + eapply reported_evolves; [by apply effect_evolves_same| |by eapply H4]. intros task' [Hlt' Hn].
      split; [|done]. split; [done|]. by apply lookup_delete_None; right.
    + apply list_elem_of_singleton in Ha. destruct Hj as [->|(a & -> & ->)].
      * left. destruct fb as [idx'' fb]. injection Ha as <- <-. by eapply H5.
      * injection Ha as <- <-. right. exists task, pe. split; [|done]. split; [done|].
        apply lookup_delete_eq.
  - intros task' idx' att. destruct (decide (task' = task)) as [->|Hne]; [by rewrite lookup_delete_eq|].
    rewrite lookup_delete_ne by done. apply H5.
Qed.

Lemma futures_return tr (s : state) i t plan sw :
  futures_inv tr s → xs_sweeps s !! i = Some t → rn_stage t = Working plan sw →
  futures_inv (tr ++ []) (xs_run i (rn_at (Returned (Ok (sweep_report plan sw))) t) (xs_world s) s).
Proof.
  intros HF Ht Hs. eapply futures_quiet; [done|done|done|]. unfold sweep_inv. rewrite Hs. simpl.
  intros Hi att Ha. apply list_elem_of_fmap in Ha as ([idx att'] & -> & Hin). simpl.
  rewrite merge_sort_Permutation in Hin. eapply reported_evolves; [by apply effect_evolves_same| |].
  2: { exact (wi_attempts _ _ _ _ _ Hi _ _ Hin). }
  done.
Qed.

(** ** Executions *)

Definition executor_inv (tr : list (future * item)) (s : state) : Prop :=
  ledger_inv tr (xw_effects (xs_world s)) ∧ futures_inv tr s.

Lemma executor_inv_step tr s new s' :
  executor_inv tr s → x_step s new s' → executor_inv (tr ++ new) s'.
Proof.
  intros [Hl HF] Hs. pose proof (li_inv _ _ Hl) as Hi.
  assert (effect_evolves (xw_effects (xs_world s)) (xw_effects (xs_world s))) as Hsame
    by (by apply effect_evolves_same).
  destruct Hs as [w' Hw|i x req a Hn|i t Ht|i t Ht|i t c k r w' Ht Hst Hh|i t e Ht Hst
    |i t plan Ht Hst|i t plan sw task idx c k r w' Ht Hst Hw Hh
    |i t plan sw task idx p j sw' Ht Hst Hw Hj Hsj|i t plan sw Ht Hst Hw].
  - destruct (environment_evolves _ _ Hi Hw) as [Hi' Hev]. rewrite app_nil_r.
    split; [by eapply ledger_inv_evolves|]. destruct HF as [F1 F2 F3 F4]. split; simpl; [|done| |done].
    + intros i t Ht. eapply sweep_inv_evolves; [done|done|by apply F1].
    + intros i task. destruct (F3 i task) as [|(t & pe & p & Ht & H)]; [by left|right].
      exists t, pe, p. split; [done|]. by eapply attempting_evolves.
  - split; [by rewrite app_nil_r|]. apply futures_update; rewrite ?app_nil_r; try done.
    + unfold sweep_inv. simpl. split; [exists (rr_after req)|].
      * rewrite (fi_fresh _ _ HF _ Hn). destruct req. apply follows_nil.
      * intros. by apply (fi_fresh _ _ HF).
    + intros task. left. by apply (fi_fresh _ _ HF).
    + apply HF.
  - split; [by rewrite app_nil_r|]. eapply futures_quiet; [done|done|done|]. unfold sweep_inv. simpl.
    destruct (rn_stage t) as [p|plan sw|[report|]|]; try done. by intros [].
  - split; [by rewrite app_nil_r|]. by eapply futures_quiet.
  - destruct (handles_evolves _ _ _ _ _ Hi Hh) as [_ Hev].
    split; [by eapply ledger_inv_call|by apply futures_scan].
  - split; [by rewrite app_nil_r|]. by eapply futures_quiet.
  - split; [by rewrite app_nil_r|]. by apply futures_scanned.
  - destruct (handles_evolves _ _ _ _ _ Hi Hh) as [_ Hev].
    split; [by eapply ledger_inv_call|by eapply futures_work].
  - split; [by rewrite app_nil_r|]. by eapply futures_join.
  - split; [by rewrite app_nil_r|]. by eapply futures_return.
Qed.

Lemma executor_inv_steps w tr s :
  ec_inv (xw_effects w) → x_steps (x_initial w) tr s → executor_inv tr s.
Proof.
  intros Hi Hs. remember (x_initial w) as s0 eqn:E0. induction Hs as [|tr new s1 s2 Hs IH Hst].
  - subst s0. split.
    + split; [done|..]; [intros ???? Hin|intros ????? Hin|constructor|intros ??? Hin];
        by apply not_elem_of_nil in Hin.
    + split; [done|done|by left|done].
  - eapply executor_inv_step; [by apply IH|done].
Qed.

(** ** Entries *)

Lemma NoDup_omap_cut {A B} (f : A → option B) l :
  (∀ l1 x l2 y l3 k, l = l1 ++ x :: l2 ++ y :: l3 → f x = Some k → f y = Some k → False) →
  NoDup (omap f l).
Proof.
  induction l as [|x l IH]; intros H; [constructor|].
  assert (NoDup (omap f l)) as Hn.
  { apply IH. intros l1 y l2 z l3 k -> Hy Hz. by eapply (H (x :: l1)). }
  simpl. destruct (f x) as [k|] eqn:Ex; [|done]. constructor; [|done].
  intros (y & Hy & Ey)%list_elem_of_omap. apply list_elem_of_split in Hy as (l1 & l2 & ->).
  by eapply (H []).
Qed.

Lemma NoDup_snd_unique {A B} (l : list (A * B)) a b c :
  NoDup l.*2 → (a, c) ∈ l → (b, c) ∈ l → a = b.
Proof.
  induction l as [|[x y] l IH]; [by intros _ ?%not_elem_of_nil|].
  intros [Hn Hd]%NoDup_cons H1 H2. simpl in Hn.
  assert (∀ z, (z, y) ∈ l → False) as Hno
    by (intros z Hz; apply Hn, list_elem_of_fmap; by exists (z, y)).
  apply elem_of_cons in H1 as [[= -> ->]|H1]; apply elem_of_cons in H2 as [[= -> ]|H2]; try done;
    subst; try (by exfalso; eauto). by apply IH.
Qed.

Lemma items_of_cons f i tr : items_of f ((f, i) :: tr) = i :: items_of f tr.
Proof. change ((f, i) :: tr) with ([(f, i)] ++ tr). by rewrite items_of_app, items_of_self. Qed.

(** Whoever enters a connector is the attempt of a sweep, was allowed to, and
    holds a fresh Claim. *)
Lemma entry_cases tr (s : state) tr1 f i tr2 c request :
  executor_inv tr s → tr = tr1 ++ (f, i) :: tr2 → connector_of i = Some (c, request) →
  ∃ j task t pe, f = (j, Some task) ∧ xs_sweeps s !! j = Some t ∧
    listed (xw_effects (xs_world s)) (rn_authority t) pe ∧
    entered (rn_executor t) pe (rn_authority t) (items_of f tr1) c request ∧
    quiet (items_of f tr2).
Proof.
  intros [Hl HF] -> Hi. destruct f as [j [task|]].
  - destruct (fi_attempts _ _ HF j task) as [Hn|(t & pe & p & Ht & Hpe & Hf)].
    { rewrite items_of_app, items_of_cons in Hn. by destruct (items_of _ tr1). }
    exists j, task, t, pe. split_and!; [done..| |].
    all: pose proof (safe_follows _ _ _ _ _ _ (execute_safe _ _ _ _) Hf) as Hg;
      apply safe_here in Hg; rewrite items_of_app, items_of_cons in Hg;
      by destruct (Hg _ _ _ _ _ eq_refl Hi).
  - pose proof (fi_scans _ _ HF j) as Hn. rewrite items_of_app, items_of_cons, omap_app in Hn.
    apply app_eq_nil in Hn as [_ Hn]. simpl in Hn. unfold connector_of, request_of in *.
    by destruct (it_call i).
Qed.

Lemma items_of_elem f i (tr : list (future * item)) : i ∈ items_of f tr → (f, i) ∈ tr.
Proof. unfold items_of. intros ([f' i'] & -> & [<- Hin]%list_elem_of_filter)%list_elem_of_fmap. done. Qed.

(** The fresh Claim of an entry is in the trace. *)
Lemma entry_claim (tr : list (future * item)) f x pe a l c request :
  entered x pe a l c request → (∀ i, i ∈ l → (f, i) ∈ tr) →
  (f, (effect_key (xr_effect_id request) (tenant_id (xr_authority request)), xr_attempt request))
    ∈ omap claim_of tr ∧
  xr_effect_id request = es_id (pe_snapshot pe) ∧ xr_authority request = a.
Proof.
  intros [_ _ _ (ap & claimed & lease & Hap & Hc & ->) _] Hin. split; [|done].
  apply list_elem_of_omap in Hap as (i & Hi & Hap). apply list_elem_of_omap. exists (f, i).
  split; [auto|]. unfold claim_of. simpl. rewrite Hap. unfold claim_result.
  destruct Hc as [H1 H2 H3 H4 H5 H6 H7 H8 H9 H10]. rewrite H4, H5. simpl. rewrite H6. simpl.
  by rewrite H1, H3, H9.
Qed.

(** C9: at most one dispatch per attempt: whatever executors share the
    ledger, however their sweeps interleave with each other and with other
    clients, whenever they are cancelled, dropped or repeated, no two entries
    into connectors are for the same tenant, Effect and attempt. *)
Theorem executor_at_most_once (w : XWorld) (tr : list (future * item)) (s : state)
    (Hw : ec_inv (xw_effects w)) (Hs : x_steps (x_initial w) tr s) :
  NoDup (omap entry_of tr).
Proof.
  pose proof (executor_inv_steps _ _ _ Hw Hs) as Hi. apply NoDup_omap_cut.
  intros tr1 [f1 i1] tr2 [f2 i2] tr3 k E H1 H2.
  assert (∀ i, is_Some (request_of i) → ∃ c q, connector_of i = Some (c, q) ∧ request_of i = Some q) as Hc
    by (intros [[] r] [? [=]]; unfold connector_of; simpl; eauto).
  unfold entry_of in H1, H2. simpl in H1, H2.
  destruct (request_of i1) as [q1|] eqn:R1; [|done]. destruct (request_of i2) as [q2|] eqn:R2; [|done].
  destruct (Hc i1) as (c1 & q1' & C1 & E1); [eauto|]. destruct (Hc i2) as (c2 & q2' & C2 & E2); [eauto|].
  rewrite R1 in E1. rewrite R2 in E2. injection E1 as <-. injection E2 as <-.
  destruct (entry_cases _ _ _ _ _ _ _ _ Hi E C1) as (j1 & k1 & t1 & pe1 & _ & _ & _ & En1 & Hq1).
  assert (tr = (tr1 ++ (f1, i1) :: tr2) ++ (f2, i2) :: tr3) as E' by (by rewrite <-(assoc_L (++))).
  destruct (entry_cases _ _ _ _ _ _ _ _ Hi E' C2) as (j2 & k2 & t2 & pe2 & _ & _ & _ & En2 & _).
  destruct (entry_claim tr f1 _ _ _ _ _ _ En1) as [K1 _].
  { intros i Hin%items_of_elem. rewrite E. set_solver. }
  destruct (entry_claim tr f2 _ _ _ _ _ _ En2) as [K2 _].
  { intros i Hin%items_of_elem. rewrite E'. set_solver. }
  rewrite <-H1 in H2. apply (inj Some) in H2. rewrite H2 in K2. destruct Hi as [Hl _].
  pose proof (NoDup_snd_unique _ _ _ _ (li_claims _ _ Hl) K1 K2) as ->.
  rewrite items_of_app, items_of_cons in Hq1. apply quiet_app in Hq1 as [_ Hq1].
  unfold quiet in Hq1. simpl in Hq1. by rewrite R2 in Hq1.
Qed.

Lemma steps_content e e' :
  rtc eff_step e e' → ef_operation e' = ef_operation e ∧
  ef_idempotency_key e' = ef_idempotency_key e ∧ ef_input e' = ef_input e ∧
  ef_input_sha256 e' = ef_input_sha256 e.
Proof.
  induction 1 as [|e e1 e2 Hs _ (-> & -> & -> & ->)]; [done|].
  by apply eff_step_cases in Hs as [->|(c & now & a & d & p & n & _ & _ & _ & ->)].
Qed.

Lemma claimed_by_steps e e' lid k :
  rtc eff_step e e' → claimed_by (ef_transitions e) lid k → claimed_by (ef_transitions e') lid k.
Proof.
  intros ([ts ->] & _)%eff_steps_extend (t & d & Ht & Hk). exists t, d. split; [set_solver|done].
Qed.

(** C10: every dispatch is permitted and authentic: whatever happens around
    it, a connector is entered only by an attempt of a sweep that found it
    registered for exactly the Effect's operation, has the policy's [Allow]
    for this request, freshly committed the Claim of this attempt under its
    own lease and, when its executor has a governor, the governor's
    admission of this lease, with the cancellation token not raised at any
    test; and what the connector is handed is the content of the durable
    Effect, which records that Claim. *)
Theorem executor_entry_permitted (w : XWorld) (tr : list (future * item)) (s : state)
    (tr1 tr2 : list (future * item)) (f : future) (i : item) (c : nat) (request : EffectExecutionRequest)
    (Hw : ec_inv (xw_effects w)) (Hs : x_steps (x_initial w) tr s)
    (E : tr = tr1 ++ (f, i) :: tr2) (Hc : connector_of i = Some (c, request)) :
  ∃ j task t pe cur, f = (j, Some task) ∧ xs_sweeps s !! j = Some t ∧
    entered (rn_executor t) pe (rn_authority t) (items_of f tr1) c request ∧
    ec_view (xw_effects (xs_world s))
      !! effect_key (xr_effect_id request) (tenant_id (xr_authority request)) = Some cur ∧
    ef_operation (es_effect cur) = xr_operation request ∧
    ef_idempotency_key (es_effect cur) = xr_idempotency_key request ∧
    ef_input (es_effect cur) = xr_input request ∧
    ef_input_sha256 (es_effect cur) = xr_input_sha256 request ∧
    claimed_by (ef_transitions (es_effect cur)) (xr_lease_id request) (xr_attempt request).
Proof.
  pose proof (executor_inv_steps _ _ _ Hw Hs) as Hi.
  destruct (entry_cases _ _ _ _ _ _ _ _ Hi E Hc) as (j & task & t & pe & -> & Ht & Hpe & He & _).
  destruct Hpe as (cur & Hcur & Hsteps & _).
  destruct (steps_content _ _ Hsteps) as (C1 & C2 & C3 & C4).
  exists j, task, t, pe, cur. split; [done|]. split; [done|]. split; [done|].
  destruct (en_claimed _ _ _ _ _ _ He) as (ap & claimed & lease & Hap & Hcl & ->). simpl.
  split_and!; [done..|].
  apply list_elem_of_omap in Hap as (it & Hit%items_of_elem & Hap).
  destruct Hcl as [H1 H2 H3 H4 H5 H6 H7 H8 H9 H10].
  assert ((((j, Some task), it) : future * item) ∈ tr) as Hin by (rewrite E; set_solver).
  destruct (li_reached _ _ (proj1 Hi) _ _ _ _ Hin Hap H5) as (cur' & Hcur' & Hsteps' & Hval).
  rewrite H1, H3 in Hcur'. rewrite Hcur in Hcur'. injection Hcur' as <-. simpl in Hsteps', Hval.
  eapply claimed_by_steps; [exact Hsteps'|]. apply valid_follows in Hval. rewrite H6 in Hval.
  destruct Hval as [_ Hval]. by rewrite H7, H9 in Hval.
Qed.

(** ** Reports *)

(** A status a command of the attempt was answered with lies in the past of
    the stored Effect. *)
Lemma durable_reached tr (s : state) f pe a P :
  ledger_inv tr (xw_effects (xs_world s)) → durable pe a P (items_of f tr) →
  ∃ e, P (ef_status e) ∧ reached (ec_view (xw_effects (xs_world s)))
    (effect_key (es_id (pe_snapshot pe)) (tenant_id a)) e.
Proof.
  intros Hl (ap & res & Hap & H1 & H2 & H3 & HP).
  apply list_elem_of_omap in Hap as (it & Hit%items_of_elem & Hap).
  exists (es_effect (ecr_snapshot res)). split; [done|]. rewrite <-H1, <-H2. by eapply li_reached.
Qed.

(** What the ledger holds for a report. *)
Definition ledger_agrees (w : W) (key : str * EffectId) (o : EffectExecutorAttemptOutcome) : Prop :=
  match o with
  | AoApplied => ∃ cur k receipt, ec_view w !! key = Some cur ∧
      ef_status (es_effect cur) = EsApplied k receipt
  | AoRejected reason => ∃ cur k, ec_view w !! key = Some cur ∧
      ef_status (es_effect cur) = EsRejected k reason
  | AoUnknown reason => ∃ e k lid, reached (ec_view w) key e ∧ ef_status e = EsUnknown k lid reason
  | AoRetryScheduled _ retry_at_ms => ∃ e k, reached (ec_view w) key e ∧
      ef_status e = EsPending k retry_at_ms
  | _ => True
  end.

Lemma honest_agrees tr (s : state) f pe a att :
  ledger_inv tr (xw_effects (xs_world s)) → honest pe a (items_of f tr) att →
  ledger_agrees (xw_effects (xs_world s)) (effect_key (es_id (pe_snapshot pe)) (tenant_id a))
    (xa_outcome att).
Proof.
  intros Hl. unfold honest, ledger_agrees. destruct (xa_outcome att); try done.
  - intros [_ (e & (k & rc & Hst) & Hr)%(durable_reached _ _ _ _ _ _ Hl)].
    destruct (reached_terminal _ _ _ Hr) as (cur & ? & <-); [by rewrite Hst|]. eauto.
  - intros [_ (e & (k & Hst) & Hr)%(durable_reached _ _ _ _ _ _ Hl)].
    destruct (reached_terminal _ _ _ Hr) as (cur & ? & <-); [by rewrite Hst|]. eauto.
  - intros [_ (e & (k & Hst) & Hr)%(durable_reached _ _ _ _ _ _ Hl)]. eauto.
  - intros (e & (k & lid & Hst) & Hr)%(durable_reached _ _ _ _ _ _ Hl). eauto.
Qed.

(** C23: reports are honest: every attempt in the report of a sweep is the
    fallback of a worker that stopped, or names an Effect that was listed and
    says what happened: an outcome before the dispatch means no connector was
    entered; [Applied] and [Rejected] mean the connector answered so and the
    ledger holds that status for good; [Unknown] and [RetryScheduled] mean
    the ledger went through that status. *)
Theorem executor_reports_honest (w : XWorld) (tr : list (future * item)) (s : state)
    (j : nat) (t : running) (report : EffectExecutorRunReport) (att : EffectExecutorAttempt)
    (Hw : ec_inv (xw_effects w)) (Hs : x_steps (x_initial w) tr s)
    (Ht : xs_sweeps s !! j = Some t) (Hr : rn_stage t = Returned (Ok report))
    (Hatt : att ∈ xp_attempts report) :
  xa_outcome att = AoAttemptFailed ∨
  ∃ task pe, listed (xw_effects (xs_world s)) (rn_authority t) pe ∧ names pe att ∧
    honest pe (rn_authority t) (items_of (j, Some task) tr) att ∧
    ledger_agrees (xw_effects (xs_world s)) (effect_key (xa_effect_id att) (tenant_id (rn_authority t)))
      (xa_outcome att).
Proof.
  pose proof (executor_inv_steps _ _ _ Hw Hs) as [Hl HF].
  pose proof (fi_sweeps _ _ HF _ _ Ht) as Hsw. unfold sweep_inv in Hsw. rewrite Hr in Hsw.
  destruct (Hsw _ Hatt) as [|(task & pe & _ & Hpe & Hf)]; [by left|right]. exists task, pe.
  pose proof (safe_follows _ _ _ _ _ _ (execute_safe _ _ _ _) Hf) as [_ Hh].
  pose proof (ends_follows _ _ _ _ (execute_names _ _ _ _) Hf) as Hn.
  split_and!; [done..|]. destruct Hn as (-> & _). by eapply honest_agrees.
Qed.
End safety.
