(* ===== verification/ExecutorSweep.v ===== *)
(** The worker loop of a sweep (src/src/effect/executor.rs, [run_once_as] and
    [spawn_prepared]): in any order in which workers finish, stop or are
    still running, at most [max_concurrency] run, none is lost, and the report
    lists one attempt per eligible Effect, in the order of the page.

    The executor as its host builds it (src/src/effect/executor.rs):
    registries grow by [register] alone, and every way to configure an
    executor keeps it well formed and denies until a policy is given. *)

From stdpp Require Import sorting base tactics list gmap fin_maps relations numbers strings option.
From Stdlib Require Import ZArith Lia.
From stdpp Require Import sorting base tactics list gmap fin_maps numbers strings option.
From stdpp Require Import list.
From S2P Require Import Prelude Kernel Digest Json Sqlite Pairs Effect EffectSafety EffectCoordinator EffectStores EffectClients Governor Futures Workers Executor ExecutorPaths ExecutorSafety.

(** An Effect of the page whose next attempt is due. *)
Definition due (now : Z) (snapshot : EffectSnapshot) : Prop :=
  match ef_status (es_effect snapshot) with
  | EsPending _ not_before_ms => (not_before_ms ≤ now)%Z
  | _ => False
  end.
#[global] Instance due_dec now snapshot : Decision (due now snapshot).
Proof. unfold due. destruct (ef_status _); apply _. Defined.

Section sweep.
Context `{!Serialize EffectConnectorDescriptor, !Serialize ExecutionIdentity,
          !Serialize EffectDispatchGovernorPolicy, !Serialize Json,
          !Serialize (AttributedCommand EffectCreateRequest),
          !Serialize (AttributedCommand EffectCommand), !Serialize EffectCommand,
          !Serialize EffectWire, sha : !Sha256}.

(** ** The work list *)

Lemma prepare_due cycle_id a now l : ∀ acc r,
  fold_m (prepare_snapshot cycle_id a now) acc l = Ok r →
  pe_snapshot <$> r = (pe_snapshot <$> acc) ++ filter (due now) l.
Proof.
  induction l as [|sn l IH]; intros acc r Hf; [simpl in Hf; simplify_eq; by rewrite app_nil_r|].
  simpl in Hf. destruct (prepare_snapshot _ _ _ _ _) as [acc'|] eqn:E; [|done].
  rewrite (IH _ _ Hf). unfold prepare_snapshot in E.
  destruct (ef_status (es_effect sn)) as [n nb| | | | |] eqn:Est; try done.
  destruct (nb <=? now)%Z eqn:Enb; inv_ok; subst.
  - rewrite filter_cons_True by (unfold due; rewrite Est; lia).
    by rewrite fmap_app, <-(assoc_L (++)).
  - rewrite filter_cons_False; [done|]. unfold due. rewrite Est. lia.
Qed.

(** A plan, from a valid configuration and a page of the scan. *)
Definition planned (x : EffectExecutor) (plan : SweepPlan) : Prop :=
  config_validate (xe_config x) = Ok () ∧
  pe_snapshot <$> sp_prepared plan =
    filter (due (sp_scanned_at_ms plan)) (pg_effects (sp_page plan)).

Lemma scan_ends x request a :
  ends (λ r, ∀ plan, r = Ok plan → planned x plan) (scan_pending x request a).
Proof.
  unfold scan_pending, or_fail.
  destruct (validate_run_request _ _); [|done]. destruct (config_validate _) as [[]|] eqn:Ec; [|done].
  apply ends_bind, ends_any. intros [now|]; [|done].
  apply ends_bind, ends_any. intros [page|]; [|done].
  destruct (validate_effect_page _ _ _ _ _ _); [|done]. destruct (fold_m _ _ _) eqn:Ef; [|done].
  intros plan [= <-]. split; [done|]. exact (prepare_due _ _ _ _ _ _ Ef).
Qed.

Lemma config_concurrency c :
  config_validate c = Ok () → (1 ≤ xc_max_concurrency c ≤ MAX_EXECUTOR_CONCURRENCY)%Z.
Proof. unfold config_validate. intros H. inv_ok. bool_hyps. unfold in_range in *. lia. Qed.

(** ** The number of calls *)

Lemma within_now : within 1 trusted_now.
Proof. done. Qed.

Section attempt.
Context (x : EffectExecutor) (cycle_id : str) (prepared : PreparedEffect) (a : AuthorityContext).

Lemma within_apply claimed lease purpose kind o now :
  within 1 (apply_settlement_command cycle_id prepared a claimed lease purpose kind o now).
Proof.
  unfold apply_settlement_command. destruct (settlement_command_id _ _ _ _ _ _); [|done].
  by intros [res|[]].
Qed.

Lemma within_settle_at claimed lease o absolute now :
  within 1 (settle_at cycle_id prepared a claimed lease o absolute now).
Proof.
  unfold settle_at, settle_invalid_outcome.
  repeat first [apply within_apply | done | case_match].
Qed.

Lemma within_settle claimed lease o : within 2 (settle cycle_id prepared a claimed lease o).
Proof.
  apply (within_bind 1 1); [done|]. intros [now|]; [apply within_settle_at|done].
Qed.

Lemma within_denial claimed lease reason t o :
  within 2 (settle_governor_denial cycle_id prepared a claimed lease reason t o).
Proof.
  apply (within_bind 1 1); [done|]. intros [now|]; [|done].
  apply (within_bind 1 0); [apply within_settle_at|done].
Qed.

Lemma within_settle_governor settlement now :
  within 1 (settle_governor x prepared a settlement now).
Proof. by apply (within_bind 1 0). Qed.

Lemma within_admit claimed lease : within 4 (admit_prepared x cycle_id prepared a claimed lease).
Proof.
  unfold admit_prepared. destruct (xe_governor x) as [policy|]; [|done].
  apply (within_bind 1 3); [done|]. intros [now|]; [|done].
  apply (within_bind 1 2); [done|]. intros r.
  repeat first [done | apply (within_bind 2 0); [apply within_denial|done] | case_match].
Qed.

Lemma within_authorize : within 3 (authorize_prepared x prepared a).
Proof.
  unfold authorize_prepared. destruct (resolve _ _); [|done]. apply (within_bind 1 2); [done|].
  intros []; [done|]. apply (within_bind 1 1); [done|]. intros [| |[[|reason]|]| |]; try done.
  - apply (within_bind 1 0); [done|]. by intros [].
  - by destruct (is_ok _).
Qed.

Lemma within_claim : within 2 (claim_prepared x prepared a).
Proof.
  unfold claim_prepared. apply (within_bind 1 1); [done|]. intros [now|]; [|done].
  apply (within_bind 1 0); [done|]. intros r. repeat first [done | case_match].
Qed.

Lemma within_dispatch registered governed claimed lease :
  within 4 (dispatch_prepared x cycle_id prepared a registered governed claimed lease).
Proof.
  unfold dispatch_prepared. apply (within_bind 1 3); [done|]. intros r.
  destruct (dispatch_outcome r) as [o ds]. apply (within_bind 1 2); [done|]. intros [now|]; [|done].
  apply (within_bind 1 1); [|intros; apply (within_bind 1 0); [apply within_settle_at|done]].
  destruct governed; [|done]. apply (within_bind 1 0); [apply within_settle_governor|done].
Qed.

Lemma within_abandon governed claimed lease :
  within 4 (abandon_prepared x cycle_id prepared a governed claimed lease).
Proof.
  unfold abandon_prepared.
  apply (within_bind 2 2); [|intros; apply (within_bind 2 0); [apply within_settle|done]].
  destruct governed; [|done]. apply (within_bind 1 1); [done|]. intros [now|]; [|done].
  apply (within_bind 1 0); [apply within_settle_governor|done].
Qed.

Lemma within_execute : within 15 (execute_prepared x cycle_id prepared a).
Proof.
  unfold execute_prepared. apply (within_bind 3 12); [apply within_authorize|].
  intros [o|registered]; [done|]. apply (within_bind 2 10); [apply within_claim|].
  intros [att|[claimed lease]]; [done|]. apply (within_bind 1 9); [done|].
  intros []; [eapply within_le; [|apply within_settle]; lia|].
  apply (within_bind 4 5); [apply within_admit|]. intros [att|governed]; [done|].
  apply (within_bind 1 4); [done|]. intros []; [apply within_abandon|apply within_dispatch].
Qed.
End attempt.

Lemma within_scan x request a : within 2 (scan_pending x request a).
Proof.
  unfold scan_pending, or_fail. destruct (validate_run_request _ _); [|done].
  destruct (config_validate _); [|done]. apply (within_bind 1 1); [done|]. intros [now|]; [|done].
  apply (within_bind 1 0); [done|]. intros [page|]; [|done].
  destruct (validate_effect_page _ _ _ _ _ _); [|done]. by destruct (fold_m _ _ _).
Qed.
End sweep.

Section theorems.
Context `{!Serialize EffectConnectorDescriptor, !Serialize ExecutionIdentity,
          !Serialize EffectDispatchGovernorPolicy, !Serialize Json,
          !Serialize (AttributedCommand EffectCreateRequest),
          !Serialize (AttributedCommand EffectCommand), !Serialize EffectCommand,
          !Serialize EffectWire, sha : !Sha256}.
Context {W G : Type} `{!EffectCoordinator W, !EffectDispatchGovernor G, !EffectLaws W}.

Abbreviation state := (@XState W G).

(** The plan of a sweep, whose page answered its call to the ledger. *)
Definition scanned (tr : list (future * item)) (i : nat) (t : running) (plan : SweepPlan) : Prop :=
  planned (rn_executor t) plan ∧
  ∃ it, (((i, None), it) : future * item) ∈ tr ∧
    listing_of it = Some (rn_authority t, Ok (sp_page plan)).

(** What the steps keep of a sweep, whatever the calls answer. *)
Definition sweep_ok (tr : list (future * item)) (i : nat) (t : running) : Prop :=
  match rn_stage t with
  | Scanning p => ends (λ r, ∀ plan, r = Ok plan → planned (rn_executor t) plan) p
  | Working plan sw => scanned tr i t plan ∧
      pool_inv worker_fallback names (sp_prepared plan) (Z.to_nat (xc_max_concurrency (xe_config (rn_executor t)))) sw
  | Returned (Ok report) => ∃ plan, scanned tr i t plan ∧
      Forall2 names (sp_prepared plan) (xp_attempts report) ∧
      xp_scanned_at_ms report = sp_scanned_at_ms plan ∧
      xp_scanned report = len (pg_effects (sp_page plan)) ∧
      xp_eligible report = len (sp_prepared plan)
  | Returned (Err _) | Dropped => True
  end.

Definition sweeps_ok (tr : list (future * item)) (s : state) : Prop :=
  ∀ i t, xs_sweeps s !! i = Some t → sweep_ok tr i t.

Lemma scanned_app tr new i t t' plan :
  rn_executor t' = rn_executor t → rn_authority t' = rn_authority t →
  scanned tr i t plan → scanned (tr ++ new) i t' plan.
Proof. unfold scanned. intros -> -> [H (it & Hit & ?)]. split; [done|]. exists it. set_solver. Qed.

Lemma sweep_ok_app tr new i t : sweep_ok tr i t → sweep_ok (tr ++ new) i t.
Proof.
  unfold sweep_ok. destruct (rn_stage t) as [p|plan sw|[report|e]|]; try done.
  - intros [? ?]. split; [by eapply scanned_app|done].
  - intros (plan & ? & ?). exists plan. split; [by eapply scanned_app|done].
Qed.

Lemma sweeps_run tr new (s : state) i t w' :
  sweeps_ok tr s → sweep_ok (tr ++ new) i t → sweeps_ok (tr ++ new) (xs_run i t w' s).
Proof.
  intros Hs Ht j tj. unfold xs_run. simpl. destruct (decide (j = i)) as [->|].
  - rewrite lookup_insert_eq. by intros [= <-].
  - rewrite lookup_insert_ne by done. intros Hj. apply sweep_ok_app. by apply Hs.
Qed.

Lemma planned_concurrency x plan :
  planned x plan → ∃ k, Z.to_nat (xc_max_concurrency (xe_config x)) = S k.
Proof.
  intros [Hc _]. apply config_concurrency in Hc.
  exists (Z.to_nat (xc_max_concurrency (xe_config x) - 1)). lia.
Qed.

Lemma join_ok tr i t plan sw task idx p joined :
  sweep_ok tr i t → rn_stage t = Working plan sw → sw_workers sw !! task = Some (idx, p) →
  leaves p joined →
  ∃ sw', sweep_join (rn_executor t) (rn_cycle_id t) (rn_authority t) task joined sw = Ok sw' ∧
    pool_inv worker_fallback names (sp_prepared plan) (Z.to_nat (xc_max_concurrency (xe_config (rn_executor t)))) sw'.
Proof.
  unfold sweep_ok. intros Hok Hst. rewrite Hst in Hok. destruct Hok as [[Hpl _] Hp].
  destruct (planned_concurrency _ _ Hpl) as [k Hk]. rewrite Hk in *.
  exact (λ Hw Hj, pool_join_inv (worker (rn_executor t) (rn_cycle_id t) (rn_authority t)) worker_fallback names
    (λ pe, execute_names _ _ pe _) (λ pe, base_names pe _) 
    (eff "Effect Executor lost a worker identity" []) _ _ _ _ _ _ _ Hp Hw Hj).
Qed.

(** The end of a scan: its path has the call that was answered the page. *)
Lemma scan_done tr (s : state) i t plan :
  futures_inv tr s → sweep_ok tr i t → xs_sweeps s !! i = Some t →
  rn_stage t = Scanning (Done (Ok plan)) → scanned tr i t plan.
Proof.
  intros HF Hok Ht Hst. pose proof (fi_sweeps _ _ HF _ _ Ht) as Hsw.
  unfold sweep_inv, sweep_ok in *. rewrite Hst in Hsw, Hok. split; [by apply (Hok plan)|].
  destruct Hsw as [[after Hf] _]. destruct (scan_paths _ _ _ _ _ Hf) as (it & Hit & Hl & _).
  exists it. split; [by apply items_of_elem|done].
Qed.

Lemma sweeps_step tr s new s' :
  futures_inv tr s → sweeps_ok tr s → x_step s new s' → sweeps_ok (tr ++ new) s'.
Proof.
  intros HF Hs Hst. destruct Hst as [w' Hw|i x req a Hn|i t Ht|i t Ht|i t c k r w' Ht Hst Hh|i t e Ht Hst
    |i t plan Ht Hst|i t plan sw task idx c k r w' Ht Hst Hw Hh
    |i t plan sw task idx p j sw' Ht Hst Hw Hj Hsj|i t plan sw Ht Hst Hw]; [by rewrite app_nil_r|..];
    try pose proof (Hs _ _ Ht) as Hok; apply sweeps_run; rewrite ?app_nil_r; try done.
  - apply scan_ends.
  - unfold sweep_ok in *. rewrite Hst in Hok. apply (Hok r).
  - pose proof (scan_done _ _ _ _ _ HF Hok Ht Hst). split; [done|].
    apply (pool_start_inv _ _ names (λ pe, execute_names _ _ pe _)).
  - unfold sweep_ok in *. rewrite Hst in Hok. destruct Hok.
    split; [by eapply scanned_app|by eapply pool_work].
  - destruct (join_ok _ _ _ _ _ _ _ _ _ Hok Hst Hw Hj) as (sw2 & E & Hp). rewrite Hsj in E.
    injection E as <-. unfold sweep_ok in *. rewrite Hst in Hok. by destruct Hok.
  - unfold sweep_ok in *. rewrite Hst in Hok. destruct Hok as [Hpl Hp]. simpl. exists plan.
    destruct (planned_concurrency _ _ (proj1 Hpl)) as [k Hk]. rewrite Hk in Hp.
    split_and!; [done|by eapply pool_reports_inv|done..].
Qed.

Lemma sweeps_steps w tr (s : state) :
  ec_inv (xw_effects w) → x_steps (x_initial w) tr s → sweeps_ok tr s.
Proof.
  intros Hw Hs. remember (x_initial w) as s0 eqn:E0. induction Hs as [|tr new s1 s2 Hs IH Hst].
  - subst s0. by intros i t.
  - subst s0. eapply sweeps_step; [|by apply IH|done]. by destruct (executor_inv_steps _ _ _ Hw Hs).
Qed.

(** C24: a sweep is complete and bounded: at any time at most
    [max_concurrency] of its workers run, every worker that ends or panics
    can be joined, and once it returns its report has exactly one attempt
    for each Effect that was due in the page the ledger answered, in the
    order of the page, whatever order the workers ended in. *)
Theorem executor_sweep_complete (w : XWorld) (tr : list (future * item)) (s : state)
    (i : nat) (t : running) (Hw : ec_inv (xw_effects w))
    (Hs : x_steps (x_initial w) tr s) (Ht : xs_sweeps s !! i = Some t) :
  match rn_stage t with
  | Working plan sw =>
      (Z.of_nat (size (sw_workers sw)) ≤ xc_max_concurrency (xe_config (rn_executor t)))%Z ∧
      ∀ task index p joined, sw_workers sw !! task = Some (index, p) →
        leaves p joined →
        is_ok (sweep_join (rn_executor t) (rn_cycle_id t) (rn_authority t) task joined sw) = true
  | Returned (Ok report) => ∃ it page, (((i, None), it) : future * item) ∈ tr ∧
      listing_of it = Some (rn_authority t, Ok page) ∧
      let eligible := filter (due (xp_scanned_at_ms report)) (pg_effects page) in
      xp_scanned report = len (pg_effects page) ∧ xp_eligible report = len eligible ∧
      xa_effect_id <$> xp_attempts report = es_id <$> eligible ∧
      xa_observed_revision <$> xp_attempts report = es_revision <$> eligible
  | _ => True
  end.
Proof.
  pose proof (sweeps_steps _ _ _ Hw Hs _ _ Ht) as Hok. pose proof Hok as Hok'. unfold sweep_ok in Hok.
  destruct (rn_stage t) as [p|plan sw|[report|e]|] eqn:Est; try done.
  - destruct Hok as [[Hpl _] Hp]. split.
    + pose proof (po_bound _ _ _ _ _ Hp). apply proj1, config_concurrency in Hpl. lia.
    + intros task idx p joined Hwk Hj.
      by destruct (join_ok _ _ _ _ _ _ _ _ _ Hok' Est Hwk Hj) as (sw' & -> & _).
  - destruct Hok as (plan & [[_ Hpl] (it & Hit & Hl)] & Hn & -> & Hsc & ->).
    exists it, (sp_page plan). split; [done|]. split; [done|]. cbv zeta. rewrite <-Hpl.
    split; [done|]. split.
    { unfold len. by rewrite length_fmap. }
    split; symmetry; rewrite <-list_fmap_compose; apply list_eq_Forall2, Forall2_fmap;
      (eapply Forall2_impl; [exact Hn|]); by intros pe att (? & ? & _).
Qed.

(** no future runs on: whatever its calls are answered, an attempt makes
    at most fifteen of them, its entry into the connector and its settlements
    included. *)
Theorem executor_calls_bounded (w : XWorld) (tr : list (future * item)) (s : state)
    (i task : nat) (Hw : ec_inv (xw_effects w)) (Hs : x_steps (x_initial w) tr s) :
  (length (items_of (i, Some task) tr) ≤ 15)%nat.
Proof.
  pose proof (executor_inv_steps _ _ _ Hw Hs) as [_ HF].
  destruct (fi_attempts _ _ HF i task) as [->|(t & pe & p & _ & _ & Hf)]; [simpl; lia|].
  by eapply within_follows; [apply within_execute|].
Qed.
End theorems.

Section registry.
Context `{!Serialize EffectConnectorDescriptor}.

(** Every entry was validated and is filed under its own capability. *)
Record registry_ok (r : EffectConnectorRegistry) : Prop := {
  ro_entries capability registered : r !! capability = Some registered →
    cd_capability (rg_descriptor registered) = capability ∧
    validate_connector_descriptor (rg_descriptor registered) = Ok () ∧
    validate_capability_origin (rg_origin registered) = Ok ();
  ro_size : (Z.of_nat (size r) ≤ MAX_CONNECTORS)%Z;
}.

Lemma registry_empty : registry_ok ∅.
Proof. by split. Qed.

(** What a registration does. *)
Lemma register_ok origin connector answer r r' :
  register origin connector answer r = (r', Ok ()) →
  ∃ d, answer = Some d ∧ r !! cd_capability d = None ∧
    validate_connector_descriptor d = Ok () ∧ validate_capability_origin origin = Ok () ∧
    (Z.of_nat (size r) < MAX_CONNECTORS)%Z ∧
    r' = <[cd_capability d := {| rg_origin := origin; rg_descriptor := d; rg_connector := connector |}]> r.
Proof.
  unfold register. intros H. inv_M.
  repeat match goal with x : () |- _ => destruct x end.
  unfold capture_capability_metadata in *. destruct answer as [d|]; [|done]. inv_ok. subst.
  bool_hyps. simplify_eq. eexists.
  split_and!; [done|by apply eq_None_not_Some|done..].
Qed.

Lemma register_err origin connector answer r r' e :
  register origin connector answer r = (r', Err e) → r' = r.
Proof. unfold register. intros H. by inv_M_err. Qed.

Lemma register_registry origin connector answer r r' res :
  register origin connector answer r = (r', res) → registry_ok r → registry_ok r' ∧ r ⊆ r'.
Proof.
  destruct res as [[]|e]; intros H Hr; [|by apply register_err in H as ->].
  destruct (register_ok _ _ _ _ _ H) as (d & -> & Hn & Hd & Ho & Hsz & ->).
  unfold EffectConnectorRegistry in *. split; [|by apply insert_subseteq].
  destruct Hr as [H1 H2]. split; unfold EffectConnectorRegistry in *.
  - intros capability registered. destruct (decide (capability = cd_capability d)) as [->|Hne].
    + rewrite lookup_insert_eq. by intros [= <-].
    + rewrite lookup_insert_ne by done. apply H1.
  - rewrite map_size_insert_None by done. lia.
Qed.
End registry.

Section built.
Context `{!Serialize EffectConnectorDescriptor, !Serialize EffectDispatchGovernorPolicy, sha : !Sha256}.

(** The registries and the executors the interface can make. *)
Inductive registered : EffectConnectorRegistry → Prop :=
| registered_new : registered ∅
| registered_more origin connector answer r r' res :
    registered r → register origin connector answer r = (r', res) → registered r'.

Inductive built : EffectExecutor → Prop :=
| built_new connectors x : registered connectors → EffectExecutor_new connectors = Ok x → built x
| built_policy policy x : built x → built (with_policy policy x)
| built_governor policy x x' : built x → with_dispatch_governor policy x = Ok x' → built x'
| built_config config x x' : built x → with_config config x = Ok x' → built x'.

Lemma registered_ok r : registered r → registry_ok r.
Proof.
  induction 1 as [|origin connector answer r r' res _ IH H]; [apply registry_empty|].
  by destruct (register_registry _ _ _ _ _ _ H IH).
Qed.

(** every executor the interface can build is well formed: its
    registry files at most [MAX_CONNECTORS] connectors, each under the
    capability of its own validated descriptor, its configuration keeps the
    lease longer than the execution timeout and the settlement reserve
    together, and its governor's policy is valid; [resolve] finds only a
    connector that declares the operation. *)
Theorem executor_well_formed (x : EffectExecutor) (Hb : built x) :
  registry_ok (xe_connectors x) ∧
  (xc_execution_timeout_ms (xe_config x) + xc_settlement_reserve_ms (xe_config x)
     < xc_lease_duration_ms (xe_config x))%Z ∧
  (1 ≤ xc_max_concurrency (xe_config x) ≤ MAX_EXECUTOR_CONCURRENCY)%Z ∧
  (1 ≤ xc_scan_limit (xe_config x) ≤ MAX_EXECUTOR_SCAN_LIMIT)%Z ∧
  (∀ policy, xe_governor x = Some policy → gp_validate policy = Ok ()) ∧
  ∀ operation found, resolve (xe_connectors x) operation = Some found →
    cd_capability (rg_descriptor found) = eo_capability operation ∧
    eo_operation operation ∈ cd_operations (rg_descriptor found).
Proof.
  assert (registry_ok (xe_connectors x) ∧ config_validate (xe_config x) = Ok () ∧
    ∀ policy, xe_governor x = Some policy → gp_validate policy = Ok ()) as (Hr & Hc & Hg).
  { induction Hb as [connectors x Hr E|policy x _ IH|policy x x' _ IH E|config x x' _ IH E].
    - unfold EffectExecutor_new in E. inv_ok. subst. split_and!; [by apply registered_ok|done|done].
    - done.
    - unfold with_dispatch_governor in E. inv_ok. subst. destruct IH as (? & ? & _).
      split_and!; [done|done|]. simpl. intros p [= <-].
      repeat match goal with u : () |- _ => destruct u end. done.
    - unfold with_config in E. inv_ok. subst. destruct IH as (? & _ & ?). split_and!; [done| |done].
      simpl. repeat match goal with u : () |- _ => destruct u end. done. }
  unfold config_validate in Hc. inv_ok. bool_hyps. unfold in_range in *.
  split_and!; try done; try lia.
  - unfold checked_add in *. case_match; simplify_eq. lia.
  - intros operation found. unfold resolve. destruct (_ !! _) as [registered|] eqn:E; [|done].
    case_bool_decide; [|done]. intros [= <-]. split; [|done]. by apply (ro_entries _ Hr _ _ E).
Qed.
End built.
