(* ===== verification/ExecutorDemo.v ===== *)
(** A concrete sweep on which the executor theorems are exercised: an
    executor with an allow-list, a governor and one connector finds a pending
    Effect in the in-memory store, claims it, is admitted, dispatches it and
    records that it was applied. *)

From Stdlib Require Import ZArith Lia.
From stdpp Require Import sorting base tactics list gmap relations numbers strings option.
From stdpp Require Import list.
From S2P Require Import Prelude Kernel Digest Json Sqlite Pairs TaskMessages Effect EffectSafety EffectCoordinator EffectStores EffectClients EffectDemo Governor GovernorSafety GovernorDemo Futures Workers Executor ExecutorPaths ExecutorSafety ExecutorSweep.

#[local] Existing Instance demo_json.
#[local] Existing Instance effect_sha.
#[local] Existing Instance gov_demo_policy_json.

Abbreviation world := (@XWorld MemoryEffects GovernorState).
Abbreviation state := (@XState MemoryEffects GovernorState).

(** * A driver: calls answered without loss, at 700, by a connector that
    applies everything *)

Definition serve (w : world) (c : call) : answer c * world :=
  match c with
  | CaNow => (Some (Ok 700%Z), w)
  | CaIsCancelled => (false, w)
  | CaList status after limit a =>
      let '(s, r) := eff_list_as status after limit a (xw_effects w) in
      (r, {| xw_effects := s; xw_governor := xw_governor w |})
  | CaAuthorize _ policy request =>
      (RcReturned (authorize (λ _ _, Ok XdAllow) policy request), w)
  | CaApply id revision command now a =>
      let '(s, r) := eff_apply_as id revision command now a (xw_effects w) in
      (r, {| xw_effects := s; xw_governor := xw_governor w |})
  | CaAdmit _ request a =>
      let '(s, r) := admit_as request a (xw_governor w) in
      (RcReturned r, {| xw_effects := xw_effects w; xw_governor := s |})
  | CaSettle _ id settlement at_ms a =>
      let '(s, r) := settle_as id settlement at_ms a (xw_governor w) in
      (RcReturned r, {| xw_effects := xw_effects w; xw_governor := s |})
  | CaExecute _ _ _ => (RcReturned (Ok (XoApplied demo_receipt)), w)
  end.

Definition timely (c : call) : bool :=
  match c with CaApply _ _ _ now _ => (0 <=? now)%Z | _ => true end.

Lemma serve_handles w c : timely c = true → handles false w c (serve w c).1 (serve w c).2.
Proof.
  destruct c; simpl; intros Ht.
  - split; [done|]. intros v [= <-]. unfold u64_max. lia.
  - done.
  - by destruct (mem_eff_list_as _ _ _ _ _).
  - split; [done|]. split; [done|]. intros d [= <-]. by eexists.
  - destruct (mem_eff_apply_as _ _ _ _ _ _). simpl. split; [lia|done].
  - by destruct (mem_admit_as _ _ _) eqn:E.
  - by destruct (mem_settle_as _ _ _ _ _) eqn:E.
  - done.
Qed.

Fixpoint drive {A} (p : prog A) (w : world) : option (list item * world * A) :=
  match p with
  | Done a => Some ([], w, a)
  | Await c k =>
      if timely c then
        match drive (k (serve w c).1) (serve w c).2 with
        | Some (l, w', a) => Some ((c ↦ᵣ (serve w c).1) :: l, w', a)
        | None => None
        end
      else None
  end.

Lemma drive_scan {s0 s : state} {tr i t w} (p : prog (result SweepPlan)) l w' a :
  x_steps s0 tr s → xs_sweeps s !! i = Some t → rn_cancelled t = false →
  rn_stage t = Scanning p → xs_world s = w → drive p w = Some (l, w', a) →
  ∃ s', x_steps s0 (tr ++ (pair (i, None) <$> l)) s' ∧
    xs_sweeps s' !! i = Some (rn_at (Scanning (Done a)) t) ∧ xs_world s' = w'.
Proof.
  revert s w tr t l. induction p as [b|c k IH]; intros s w tr t l Hs Ht Hc Hst <- Hd.
  - injection Hd as <- <- <-. exists s. simpl. rewrite app_nil_r. split_and!; [done| |done].
    rewrite Ht. destruct t; simpl in *; by subst.
  - cbn [drive] in Hd. destruct (timely c) eqn:E; [|done].
    destruct (drive _ _) as [[[l' w''] b]|] eqn:Ed; [|done]. injection Hd as <- <- <-.
    pose proof (serve_handles (xs_world s) c E) as Hh.
    destruct (IH (serve (xs_world s) c).1 (xs_run i (rn_at (Scanning (k (serve (xs_world s) c).1)) t)
                 (serve (xs_world s) c).2 s) (serve (xs_world s) c).2 (tr ++ [((i, None), c ↦ᵣ (serve (xs_world s) c).1)])
               (rn_at (Scanning (k (serve (xs_world s) c).1)) t) l')
      as (s' & H1 & H2 & H3); [|by apply lookup_insert_eq|done|done|reflexivity|exact Ed|].
    + eapply x_steps_snoc; [exact Hs|]. apply x_scan; [done|done|]. by rewrite Hc.
    + exists s'. split_and!; [|done|done]. by rewrite <-(assoc_L (++)) in H1.
Qed.

Lemma drive_work {s0 s : state} {tr i t w} plan sw task index (p : prog EffectExecutorAttempt) l w' a :
  x_steps s0 tr s → xs_sweeps s !! i = Some t → rn_cancelled t = false →
  rn_stage t = Working plan sw → sw_workers sw !! task = Some (index, p) →
  xs_world s = w → drive p w = Some (l, w', a) →
  ∃ s' sw', x_steps s0 (tr ++ (pair (i, Some task) <$> l)) s' ∧
    xs_sweeps s' !! i = Some (rn_at (Working plan sw') t) ∧ xs_world s' = w' ∧
    sw' = with_worker task index (Done a) sw.
Proof.
  revert s w tr t l sw. induction p as [b|c k IH]; intros s w tr t l sw Hs Ht Hc Hst Hw <- Hd.
  - injection Hd as <- <- <-. exists s, sw. simpl. rewrite app_nil_r. split_and!; [done| |done|].
    + rewrite Ht. destruct t; simpl in *; by subst.
    + unfold with_worker. rewrite insert_id by done. by destruct sw.
  - cbn [drive] in Hd. destruct (timely c) eqn:E; [|done].
    destruct (drive _ _) as [[[l' w''] b]|] eqn:Ed; [|done]. injection Hd as <- <- <-.
    pose proof (serve_handles (xs_world s) c E) as Hh.
    destruct (IH (serve (xs_world s) c).1 (xs_run i (rn_at (Working plan (with_worker task index
                   (k (serve (xs_world s) c).1) sw)) t) (serve (xs_world s) c).2 s)
                 (serve (xs_world s) c).2 (tr ++ [((i, Some task), c ↦ᵣ (serve (xs_world s) c).1)])
               (rn_at (Working plan (with_worker task index (k (serve (xs_world s) c).1) sw)) t) l'
               (with_worker task index (k (serve (xs_world s) c).1) sw))
      as (s' & sw' & H1 & H2 & H3 & H4);
      [|by apply lookup_insert_eq|done|done|apply lookup_insert_eq|reflexivity|exact Ed|].
    + eapply x_steps_snoc; [exact Hs|]. eapply x_work; [done|done|done|]. by rewrite Hc.
    + exists s', sw'. split_and!; [|done|done|].
      * by rewrite <-(assoc_L (++)) in H1.
      * rewrite H4. unfold with_worker. simpl. by rewrite insert_insert_eq.
Qed.

(** A sweep with one Effect on its page, from its call to its report. *)
Lemma one_worker_run x request a (w0 : world) l1 w1 plan pe l2 w2 att :
  drive (scan_pending x request a) w0 = Some (l1, w1, Ok plan) →
  sp_prepared plan = [pe] → (1 ≤ xc_max_concurrency (xe_config x))%Z →
  drive (execute_prepared x (rr_cycle_id request) pe a) w1 = Some (l2, w2, att) →
  ∃ s : state, x_steps (x_initial w0)
      ((pair (0%nat, None) <$> l1) ++ (pair (0%nat, Some 0%nat) <$> l2)) s ∧
    xs_sweeps s !! 0%nat = Some {| rn_executor := x; rn_cycle_id := rr_cycle_id request;
      rn_authority := a; rn_cancelled := false;
      rn_stage := Returned (Ok (sweep_report plan (idle att))) |}.
Proof.
  intros D1 Hpe Hmax D2.
  pose proof (x_steps_snoc _ _ _ _ _ (x_steps_nil _)
    (x_call (x_initial w0 : state) 0 x request a (lookup_empty _))) as H0.
  destruct (drive_scan _ _ _ _ H0 (lookup_insert_eq _ _ _) eq_refl eq_refl eq_refl D1)
    as (s1 & H1 & E1 & W1).
  pose proof (x_steps_snoc _ _ _ _ _ H1 (x_scanned _ 0 _ plan E1 eq_refl)) as H2.
  cbn [rn_executor rn_cycle_id rn_authority rn_at] in H2. rewrite Hpe in H2.
  unfold sweep_start in H2. rewrite pool_start_one in H2 by exact Hmax.
  destruct (drive_work plan _ 0 0 _ _ _ _ H2 (lookup_insert_eq _ _ _) eq_refl eq_refl
    (lookup_singleton_eq _ _) W1 D2) as (s3 & sw3 & H3 & E3 & W3 & ->).
  pose proof (x_steps_snoc _ _ _ _ _ H3 (x_join _ 0 _ plan _ 0 0 _ (Some att) (idle att) E3 eq_refl
    (lookup_insert_eq _ _ _) (or_intror (ex_intro _ _ (conj eq_refl eq_refl))) eq_refl)) as H4.
  rewrite !app_nil_r in H4. eexists. split.
  - rewrite <-(app_nil_r (_ ++ _)). eapply x_steps_snoc; [exact H4|].
    eapply (x_return _ 0 _ plan (idle att)); [apply lookup_insert_eq|reflexivity|reflexivity].
  - apply lookup_insert_eq.
Qed.

Definition is_driven {A} (r : option A) : bool := if r is Some _ then true else false.
Lemma driven {A} (d : A) r : is_driven r = true → r = Some (default d r).
Proof. by destruct r. Qed.

(** * The execution *)

Definition demo_descriptor : EffectConnectorDescriptor :=
  {| cd_capability := lit "mail"; cd_api_version := EFFECT_EXECUTOR_API_VERSION;
     cd_operations := {[lit "send"]}; cd_idempotency := TargetEnforced |}.
Definition demo_registry : EffectConnectorRegistry :=
  (register (TrustedExtension (lit "mail-pack")) 0 (Some demo_descriptor) ∅).1.
Definition demo_denying : EffectExecutor :=
  {| xe_connectors := demo_registry; xe_policy := DenyAllEffectExecutions; xe_governor := None;
     xe_config := default_config |}.
Definition demo_permitting : EffectExecutor :=
  with_policy (AllowListEffectExecutionPolicy {[(lit "mail", lit "send")]}) demo_denying.
Definition demo_executor : EffectExecutor :=
  match with_dispatch_governor gov_demo_policy demo_permitting with
  | Ok x => x | Err _ => demo_denying
  end.
Definition demo_run : EffectExecutorRunRequest :=
  {| rr_cycle_id := lit "cycle-1"; rr_after := None |}.

Definition demo_running (st : stage) : running :=
  {| rn_executor := demo_executor; rn_cycle_id := lit "cycle-1"; rn_authority := local_process;
     rn_cancelled := false; rn_stage := st |}.

Definition demo_world : world := {| xw_effects := demo_stored; xw_governor := gov_empty |}.

Definition demo_no_plan : SweepPlan :=
  {| sp_scanned_at_ms := 0; sp_page := {| pg_effects := []; pg_next_cursor := None; pg_has_more := false |};
     sp_prepared := [] |}.
Definition demo_scan : list item * world * result SweepPlan :=
  default ([], demo_world, Ok demo_no_plan)
    (drive (scan_pending demo_executor demo_run local_process) demo_world).
Definition demo_plan : SweepPlan :=
  match demo_scan.2 with Ok plan => plan | Err _ => demo_no_plan end.
Definition demo_prepared : PreparedEffect :=
  default {| pe_snapshot := {| es_id := []; es_tenant_id := None; es_revision := 0; es_effect := demo_effect |};
             pe_attempt := 0; pe_lease_id := []; pe_claim_command_id := [] |}
    (head (sp_prepared demo_plan)).
Definition demo_failed : EffectExecutorAttempt := base demo_prepared AoAttemptFailed.
Definition demo_attempt : list item * world * EffectExecutorAttempt :=
  default ([], demo_world, demo_failed)
    (drive (execute_prepared demo_executor (lit "cycle-1") demo_prepared local_process) demo_scan.1.2).
Definition demo_calls : list item := demo_attempt.1.1.
Definition demo_trace : list (future * item) :=
  (pair (0%nat, None) <$> demo_scan.1.1) ++ (pair (0%nat, Some 0%nat) <$> demo_calls).

(** The demonstration exercises the branches it is meant to. *)
Lemma demo_attempt_applied :
  is_ok (config_validate default_config) = true ∧ length (sp_prepared demo_plan) = 1%nat ∧
  xa_outcome demo_attempt.2 = AoApplied ∧ length demo_trace = 15%nat ∧
  length (omap entry_of demo_trace) = 1%nat.
Proof. vm_compute. split_and!; reflexivity. Qed.

Lemma demo_scan_driven :
  is_driven (drive (scan_pending demo_executor demo_run local_process) demo_world) = true.
Proof. vm_compute. reflexivity. Qed.
Lemma demo_attempt_driven :
  is_driven (drive (execute_prepared demo_executor (lit "cycle-1") demo_prepared local_process)
               demo_scan.1.2) = true.
Proof. vm_compute. reflexivity. Qed.
Lemma demo_scan_planned : is_ok demo_scan.2 = true.
Proof. vm_compute. reflexivity. Qed.

Definition demo_report : EffectExecutorRunReport := sweep_report demo_plan (idle demo_attempt.2).

Lemma demo_sweep_execution :
  ∃ s : state, x_steps (x_initial demo_world) demo_trace s ∧
    xs_sweeps s !! 0%nat = Some (demo_running (Returned (Ok demo_report))).
Proof.
  apply (one_worker_run demo_executor demo_run local_process demo_world demo_scan.1.1 demo_scan.1.2
    demo_plan demo_prepared demo_calls demo_attempt.1.2 demo_attempt.2).
  - rewrite (driven ([], demo_world, Ok demo_no_plan) _ demo_scan_driven). fold demo_scan.
    pose proof demo_scan_planned as Hok. unfold demo_plan.
    destruct demo_scan as [[l w] [plan|e]]; [done|discriminate Hok].
  - destruct demo_attempt_applied as (_ & H & _). unfold demo_prepared.
    by destruct (sp_prepared demo_plan) as [|pe []].
  - vm_compute. discriminate.
  - change (rr_cycle_id demo_run) with (lit "cycle-1").
    rewrite (driven ([], demo_world, demo_failed) _ demo_attempt_driven). fold demo_attempt.
    unfold demo_calls. by destruct demo_attempt as [[l w] att].
Qed.

(** ** Witnesses *)

Lemma demo_world_inv : ec_inv (xw_effects demo_world).
Proof. exact demo_stored_inv. Qed.

(** The demonstration enters a connector, once. *)
Lemma executor_at_most_once_witness :
  length (omap entry_of demo_trace) = 1%nat ∧ NoDup (omap entry_of demo_trace).
Proof.
  split; [exact (proj2 (proj2 (proj2 (proj2 demo_attempt_applied))))|].
  destruct demo_sweep_execution as (s & Hs & _).
  exact (executor_at_most_once demo_world demo_trace s demo_world_inv Hs).
Defined.

Lemma idle_report plan att : xp_attempts (sweep_report plan (idle att)) = [att].
Proof. reflexivity. Qed.

Lemma demo_outcome : xa_outcome demo_attempt.2 = AoApplied.
Proof. exact (proj1 (proj2 (proj2 demo_attempt_applied))). Qed.

Lemma executor_reports_honest_witness :
  ∃ s cur k receipt, x_steps (x_initial demo_world) demo_trace s ∧
    ec_view (xw_effects (xs_world s)) !! effect_key (xa_effect_id demo_attempt.2) None = Some cur ∧
    ef_status (es_effect cur) = EsApplied k receipt.
Proof.
  destruct demo_sweep_execution as (s & Hs & Ht).
  destruct (executor_reports_honest demo_world demo_trace s 0 _ demo_report demo_attempt.2
    demo_world_inv Hs Ht eq_refl) as [E|(task & pe & _ & _ & _ & H)].
  - unfold demo_report. rewrite idle_report. apply list_elem_of_here.
  - exfalso. rewrite demo_outcome in E. discriminate E.
  - rewrite demo_outcome in H.
    destruct H as (cur & k & receipt & Hcur & Hst). by exists s, cur, k, receipt.
Defined.

Lemma executor_sweep_complete_witness :
  ∃ it page, (((0%nat, None), it) : future * item) ∈ demo_trace ∧
    listing_of it = Some (local_process, Ok page) ∧
    xa_effect_id <$> xp_attempts demo_report =
      es_id <$> filter (due (xp_scanned_at_ms demo_report)) (pg_effects page).
Proof.
  destruct demo_sweep_execution as (s & Hs & Ht).
  destruct (executor_sweep_complete demo_world demo_trace s 0 _ demo_world_inv Hs Ht)
    as (it & page & Hit & Hl & _ & _ & H & _).
  exists it, page. split; [exact Hit|]. split; [exact Hl|exact H].
Defined.

Lemma executor_calls_bounded_witness :
  length (items_of (0%nat, Some 0%nat) demo_trace) = 13%nat ∧
  (length (items_of (0%nat, Some 0%nat) demo_trace) ≤ 15)%nat.
Proof.
  split; [vm_compute; reflexivity|]. destruct demo_sweep_execution as (s & Hs & _).
  exact (executor_calls_bounded demo_world demo_trace s 0 0 demo_world_inv Hs).
Defined.

(** The first entry into a connector in a trace. *)
Fixpoint first_entry (tr : list (future * item))
    : option (list (future * item) * future * item * list (future * item)) :=
  match tr with
  | [] => None
  | (f, i) :: tr =>
      if bool_decide (is_Some (connector_of i)) then Some ([], f, i, tr)
      else '(l, g, j, r) ← first_entry tr; Some ((f, i) :: l, g, j, r)
  end.

Lemma first_entry_some tr l f i r :
  first_entry tr = Some (l, f, i, r) → tr = l ++ (f, i) :: r ∧ is_Some (connector_of i).
Proof.
  revert l. induction tr as [|[g j] tr IH]; intros l H; [done|]. simpl in H. case_bool_decide.
  - injection H as <- <- <- <-. done.
  - destruct (first_entry tr) as [[[[l' g'] j'] r']|]; [|done]. injection H as <- <- <- <-.
    destruct (IH l' eq_refl) as [-> ?]. done.
Qed.

Lemma demo_entry : is_driven (first_entry demo_trace) = true.
Proof. vm_compute. reflexivity. Qed.

(** The connector is entered with the governor's admission of the lease. *)
Lemma executor_entry_permitted_witness :
  ∃ s request cur, x_steps (x_initial demo_world) demo_trace s ∧
    ec_view (xw_effects (xs_world s))
      !! effect_key (xr_effect_id request) (tenant_id (xr_authority request)) = Some cur ∧
    claimed_by (ef_transitions (es_effect cur)) (xr_lease_id request) (xr_attempt request).
Proof.
  destruct demo_sweep_execution as (s & Hs & _).
  destruct (first_entry demo_trace) as [[[[l f] i] r]|] eqn:E;
    [|exfalso; pose proof demo_entry as Hd; rewrite E in Hd; discriminate Hd].
  destruct (first_entry_some _ _ _ _ _ E) as [Htr [[c request] Hc]].
  destruct (executor_entry_permitted demo_world demo_trace s l r f i c request demo_world_inv Hs Htr Hc)
    as (j & task & t & pe & cur & _ & _ & _ & Hcur & _ & _ & _ & _ & Hcl).
  exists s, request, cur. split; [exact Hs|]. split; [exact Hcur|exact Hcl].
Defined.

Lemma demo_denying_built : built demo_denying.
Proof.
  apply (built_new demo_registry); [|reflexivity].
  eapply registered_more; [apply registered_new|apply surjective_pairing].
Qed.
Lemma demo_policy_valid : is_ok (with_dispatch_governor gov_demo_policy demo_permitting) = true.
Proof. vm_compute. reflexivity. Qed.

Lemma demo_executor_built : built demo_executor.
Proof.
  pose proof demo_policy_valid as Hok. unfold demo_executor.
  destruct (with_dispatch_governor gov_demo_policy demo_permitting) as [x|e] eqn:E; [|discriminate Hok].
  exact (built_governor _ _ _ (built_policy _ _ demo_denying_built) E).
Qed.

Lemma executor_well_formed_witness :
  size (xe_connectors demo_executor) = 1%nat ∧ registry_ok (xe_connectors demo_executor).
Proof.
  split; [vm_compute; reflexivity|]. exact (proj1 (executor_well_formed demo_executor demo_executor_built)).
Defined.
