(* ===== verification/Reconciler.v ===== *)
(** The reconciler of src/src/effect/reconciler.rs: one bounded sweep over the
    unknown Effects of a tenant.  Each is authorized by the host's policy,
    looked up read-only at its connector, and settled when the connector
    proves that the attempt was applied or not.

    A future is a [prog] of Futures.v over the calls [rec_call]. *)

From Stdlib Require Import ZArith Lia.
From stdpp Require Import sorting base tactics list gmap numbers strings option.
From stdpp Require Import list.
From S2P Require Import Prelude Kernel Digest Json Sqlite Pairs Effect EffectCoordinator Futures Workers.

(** * Limits *)

Definition EFFECT_RECONCILER_API_VERSION : Z := 1.
Definition REC_MAX_CONNECTORS : Z := 256.
Definition REC_MAX_OPERATIONS_PER_CONNECTOR : Z := 256.
Definition MAX_DESCRIPTOR_BYTES : Z := 65536.
Definition MAX_SCAN_LIMIT : Z := 256.
Definition MAX_CONCURRENCY : Z := 64.
Definition REC_MIN_POLICY_TIMEOUT_MS : Z := 1.
Definition REC_MAX_POLICY_TIMEOUT_MS : Z := 60000.
Definition MIN_LOOKUP_TIMEOUT_MS : Z := 1.
Definition MAX_LOOKUP_TIMEOUT_MS : Z := 604800000.
Definition REC_MAX_RETRY_AFTER_MS : Z := 604800000.
Definition REC_DEFAULT_SCAN_LIMIT : Z := 64.
Definition REC_DEFAULT_CONCURRENCY : Z := 8.
Definition REC_DEFAULT_POLICY_TIMEOUT_MS : Z := 5000.
Definition DEFAULT_LOOKUP_TIMEOUT_MS : Z := 60000.

(** * Data *)

Inductive EffectReconciliationContract := AuthoritativeReadOnly.

Record EffectReconciliationConnectorDescriptor := {
  rd_capability : str;
  rd_api_version : Z;
  rd_operations : gset str;
  rd_contract : EffectReconciliationContract;
}.

(** The cancellation token of a request, which its future raises when it
    settles or is dropped, is the connector's to observe and has no field. *)
Record EffectReconciliationRequest := {
  qr_effect_id : EffectId;
  qr_authority : AuthorityContext;
  qr_operation : EffectOperation;
  qr_idempotency_key : str;
  qr_input : Json;
  qr_input_sha256 : str;
  qr_attempt : Z;
  qr_lease_id : EffectLeaseId;
}.

Inductive EffectReconciliationOutcome :=
| RoApplied (receipt : EffectReceipt)
| RoNotApplied (reason_code : str) (retry_after_ms : option Z)
| RoStillUnknown (reason_code : str).

(** A connector is an object of the host; the number is its reference. *)
Record RegisteredEffectReconciliationConnector := {
  rrg_origin : CapabilityOrigin;
  rrg_descriptor : EffectReconciliationConnectorDescriptor;
  rrg_connector : nat;
}.

Definition EffectReconciliationConnectorRegistry : Type :=
  gmap str RegisteredEffectReconciliationConnector.

Record EffectReconciliationPolicyRequest := {
  qp_effect_id : EffectId;
  qp_authority : AuthorityContext;
  qp_operation : EffectOperation;
  qp_input : Json;
  qp_input_sha256 : str;
  qp_attempt : Z;
  qp_lease_id : EffectLeaseId;
  qp_connector_origin : CapabilityOrigin;
  qp_contract : EffectReconciliationContract;
}.

Inductive EffectReconciliationDecision :=
| RxAllow
| RxDeny (reason_code : str).

(** The implementations of [EffectReconciliationPolicy]: the two of the crate,
    and those of the host. *)
Inductive EffectReconciliationPolicy :=
| DenyAllEffectReconciliations
| AllowListEffectReconciliationPolicy (allowed : gset (str * str))
| HostReconciliationPolicy (reference : nat).

Record EffectReconcilerConfig := {
  rc_scan_limit : Z;
  rc_max_concurrency : Z;
  rc_policy_timeout_ms : Z;
  rc_lookup_timeout_ms : Z;
}.

Record EffectReconcilerRunRequest := {
  qq_cycle_id : str;
  qq_after : option EffectPageCursor;
}.

Inductive EffectReconcilerAttemptOutcome :=
| RaConnectorUnavailable
| RaPolicyDenied (reason_code : str)
| RaPolicyUnavailable
| RaCancelledBeforeLookup
| RaCancelledDuringLookup
| RaLookupUnavailable
| RaInvalidEvidence
| RaStillUnknown (reason_code : str)
| RaClockUnavailable
| RaApplied
| RaRejected (reason_code : str)
| RaRetryScheduled (reason_code : str) (retry_at_ms : Z)
| RaAlreadyReconciled
| RaSettlementFenced (actual_revision : Z)
| RaSettlementFailed
| RaAttemptFailed.

Record EffectReconcilerAttempt := {
  ra_effect_id : EffectId;
  ra_observed_revision : Z;
  ra_attempt : Z;
  ra_lease_id : EffectLeaseId;
  ra_outcome : EffectReconcilerAttemptOutcome;
}.

Record EffectReconcilerRunReport := {
  rp_scanned_at_ms : Z;
  rp_scanned : Z;
  rp_has_more : bool;
  rp_next_after : option EffectPageCursor;
  rp_attempts : list EffectReconcilerAttempt;
}.

(** The engine and the clock of a reconciler are the shared objects its calls
    reach. *)
Record EffectReconciler := {
  re_connectors : EffectReconciliationConnectorRegistry;
  re_policy : EffectReconciliationPolicy;
  re_config : EffectReconcilerConfig;
}.

Record PreparedReconciliation := {
  pq_snapshot : EffectSnapshot;
  pq_attempt : Z;
  pq_lease_id : EffectLeaseId;
}.

Record ReconciliationIdentity := {
  ri_purpose : str;
  ri_cycle_id : str;
  ri_actor : ActorIdentity;
  ri_tenant_id : option str;
  ri_effect_id : str;
  ri_revision : Z;
  ri_attempt : Z;
  ri_lease_id : str;
  ri_evidence_sha256 : str;
}.

#[global] Instance EffectReconciliationOutcome_eq : EqDecision EffectReconciliationOutcome.
Proof. solve_decision. Defined.
#[global] Instance EffectReconcilerAttemptOutcome_eq : EqDecision EffectReconcilerAttemptOutcome.
Proof. solve_decision. Defined.

(** * Configuration *)

Definition rec_default_config : EffectReconcilerConfig :=
  {| rc_scan_limit := REC_DEFAULT_SCAN_LIMIT; rc_max_concurrency := REC_DEFAULT_CONCURRENCY;
     rc_policy_timeout_ms := REC_DEFAULT_POLICY_TIMEOUT_MS;
     rc_lookup_timeout_ms := DEFAULT_LOOKUP_TIMEOUT_MS |}.

(** [EffectReconcilerConfig::validate]. *)
Definition rec_config_validate (c : EffectReconcilerConfig) : result () :=
  _ ← reject_if (negb (in_range 1 MAX_SCAN_LIMIT (rc_scan_limit c)))
        (eff "Effect Reconciler scan_limit must be 1-{}" [ANum MAX_SCAN_LIMIT]);
  _ ← reject_if (negb (in_range 1 MAX_CONCURRENCY (rc_max_concurrency c)))
        (eff "Effect Reconciler max_concurrency must be 1-{}" [ANum MAX_CONCURRENCY]);
  _ ← reject_if (negb (in_range REC_MIN_POLICY_TIMEOUT_MS REC_MAX_POLICY_TIMEOUT_MS
                         (rc_policy_timeout_ms c)))
        (eff "Effect Reconciler policy_timeout_ms must be {}-{}"
          [ANum REC_MIN_POLICY_TIMEOUT_MS; ANum REC_MAX_POLICY_TIMEOUT_MS]);
  reject_if (negb (in_range MIN_LOOKUP_TIMEOUT_MS MAX_LOOKUP_TIMEOUT_MS (rc_lookup_timeout_ms c)))
    (eff "Effect Reconciler lookup_timeout_ms must be {}-{}"
      [ANum MIN_LOOKUP_TIMEOUT_MS; ANum MAX_LOOKUP_TIMEOUT_MS]).

(** * Futures *)

Inductive rec_call :=
| QaNow
| QaIsCancelled
| QaList (status : option str) (after : option EffectPageCursor) (limit : Z)
    (authority : AuthorityContext)
| QaAuthorize (timeout_ms : Z) (policy : EffectReconciliationPolicy)
    (request : EffectReconciliationPolicyRequest)
| QaQuery (timeout_ms : Z) (connector : nat) (request : EffectReconciliationRequest)
| QaApply (effect_id : EffectId) (expected_revision : Z) (command : EffectCommand)
    (applied_at_ms : Z) (authority : AuthorityContext).

(** The answer to a call; a clock that panics answers [None]. *)
Definition rec_answer (c : rec_call) : Type :=
  match c with
  | QaNow => option (result Z)
  | QaIsCancelled => bool
  | QaList _ _ _ _ => result EffectPage
  | QaAuthorize _ _ _ => raced EffectReconciliationDecision
  | QaQuery _ _ _ => raced EffectReconciliationOutcome
  | QaApply _ _ _ _ _ => result EffectCommandResult
  end.

Abbreviation rec_prog := (prog rec_answer).

(** * The connector registry *)

Section reconciler.
Context `{!Serialize EffectReconciliationConnectorDescriptor, !Serialize ReconciliationIdentity,
          !Serialize EffectReconciliationOutcome, sha : !Sha256}.

Definition rec_descriptor_bound_error (error : BoundedJsonError) : HarnessError :=
  let detail :=
    match error with
    | LimitExceeded => "exceeds its encoded-byte limit"
    | CannotEncode => "cannot be encoded"
    end in
  eff "Effect Reconciliation Connector descriptor {}; limit is {} bytes"
    [ALit detail; ANum MAX_DESCRIPTOR_BYTES].

Definition validate_descriptor (d : EffectReconciliationConnectorDescriptor) : result () :=
  _ ← map_err to_effect
        (validate_capability_name "Effect Reconciliation Connector capability" (rd_capability d));
  _ ← reject_if (negb (rd_api_version d =? EFFECT_RECONCILER_API_VERSION)%Z)
        (eff "Effect Reconciliation Connector {} requires API {}, received {}"
          [AStr (rd_capability d); ANum EFFECT_RECONCILER_API_VERSION; ANum (rd_api_version d)]);
  _ ← reject_if (bool_decide (rd_operations d = ∅)
                 || (REC_MAX_OPERATIONS_PER_CONNECTOR <? Z.of_nat (size (rd_operations d)))%Z)
        (eff "Effect Reconciliation Connector operations must contain 1-{} entries"
          [ANum REC_MAX_OPERATIONS_PER_CONNECTOR]);
  _ ← fold_m (λ _ operation,
        map_err to_effect
          (validate_capability_name "Effect Reconciliation Connector operation" operation))
        () (bs_iter (rd_operations d));
  match bounded_serialized_size d MAX_DESCRIPTOR_BYTES with
  | inr _ => Ok ()
  | inl e => Err (rec_descriptor_bound_error e)
  end.

(** [EffectReconciliationConnectorRegistry::register]; [descriptor] is the
    answer of the connector, [None] when it panicked. *)
Definition rec_register (origin : CapabilityOrigin) (connector : nat)
    (descriptor : option EffectReconciliationConnectorDescriptor)
    : M EffectReconciliationConnectorRegistry () :=
  _ ← lift (validate_capability_origin origin);
  connectors ← (get : M EffectReconciliationConnectorRegistry _);
  _ ← lift (reject_if (REC_MAX_CONNECTORS <=? Z.of_nat (size connectors))%Z
              (eff "Effect Reconciliation Connector registry exceeds {} entries"
                 [ANum REC_MAX_CONNECTORS]));
  descriptor ← lift (capture_capability_metadata
                       "Effect Reconciliation Connector descriptor" descriptor);
  _ ← lift (validate_descriptor descriptor);
  _ ← lift (reject_if (bool_decide (is_Some (connectors !! rd_capability descriptor)))
              (DuplicateCapability (rd_capability descriptor)));
  put (<[rd_capability descriptor :=
          {| rrg_origin := origin; rrg_descriptor := descriptor;
             rrg_connector := connector |}]> connectors).

(** [capabilities] and [resolve]. *)
Definition rec_capabilities (r : EffectReconciliationConnectorRegistry) : list str := bt_keys r.
Definition rec_resolve (r : EffectReconciliationConnectorRegistry) (operation : EffectOperation)
    : option RegisteredEffectReconciliationConnector :=
  match r !! eo_capability operation with
  | Some registered =>
      if bool_decide (eo_operation operation ∈ rd_operations (rrg_descriptor registered))
      then Some registered else None
  | None => None
  end.

(** * Policies *)

(** [AllowListEffectReconciliationPolicy::allow]. *)
Definition rec_allow (allowed : gset (str * str)) (capability operation : str)
    : result (gset (str * str)) :=
  _ ← map_err to_effect
        (validate_capability_name "Effect Reconciliation Policy capability" capability);
  _ ← map_err to_effect
        (validate_capability_name "Effect Reconciliation Policy operation" operation);
  Ok ({[(capability, operation)]} ∪ allowed).

(** [authorize] of the policies of the crate; [host] answers for the others. *)
Definition rec_authorize
    (host : nat → EffectReconciliationPolicyRequest → result EffectReconciliationDecision)
    (p : EffectReconciliationPolicy) (request : EffectReconciliationPolicyRequest)
    : result EffectReconciliationDecision :=
  match p with
  | DenyAllEffectReconciliations => Ok (RxDeny (lit "policy.denied"))
  | AllowListEffectReconciliationPolicy allowed =>
      Ok (if bool_decide ((eo_capability (qp_operation request),
                           eo_operation (qp_operation request)) ∈ allowed)
          then RxAllow else RxDeny (lit "policy.denied"))
  | HostReconciliationPolicy reference => host reference request
  end.

(** [SystemEffectReconcilerClock::now_ms]: milliseconds since the epoch as a
    [u128], [None] when the clock is before the epoch. *)
Definition rec_system_now_ms (since_epoch : option Z) : result Z :=
  millis ← ok_or since_epoch (eff "Effect Reconciler clock precedes epoch" []);
  if (millis <=? u64_max)%Z then Ok millis else Err (eff "Effect Reconciler clock exceeds u64" []).

(** * Construction *)

Definition EffectReconciler_new (connectors : EffectReconciliationConnectorRegistry)
    : result EffectReconciler :=
  _ ← rec_config_validate rec_default_config;
  Ok {| re_connectors := connectors; re_policy := DenyAllEffectReconciliations;
        re_config := rec_default_config |}.
Definition rec_with_policy (policy : EffectReconciliationPolicy) (x : EffectReconciler)
    : EffectReconciler :=
  {| re_connectors := re_connectors x; re_policy := policy; re_config := re_config x |}.
Definition rec_with_config (config : EffectReconcilerConfig) (x : EffectReconciler)
    : result EffectReconciler :=
  _ ← rec_config_validate config;
  Ok {| re_connectors := re_connectors x; re_policy := re_policy x; re_config := config |}.

(** * Validators *)

Definition rec_validate_run_request (request : EffectReconcilerRunRequest)
    (authority : AuthorityContext) : result () :=
  _ ← map_err to_effect (authority_validate_current authority "Effect Reconciler authority");
  _ ← eff_validate_identity "Effect Reconciler cycle" (qq_cycle_id request);
  match qq_after request with
  | Some after => eff_validate_identity "Effect Reconciler cursor" (pc_effect_id after)
  | None => Ok ()
  end.

(** [validate_outcome]: [true] is [Ok]. *)
Definition validate_outcome (outcome : EffectReconciliationOutcome) : bool :=
  match outcome with
  | RoApplied _ => true
  | RoNotApplied reason_code retry_after_ms =>
      is_ok (validate_capability_name "Effect Reconciliation Connector not-applied reason" reason_code)
      && match retry_after_ms with
         | Some delay => (delay <=? REC_MAX_RETRY_AFTER_MS)%Z
         | None => true
         end
  | RoStillUnknown reason_code =>
      is_ok (validate_capability_name "Effect Reconciliation Connector uncertainty reason" reason_code)
  end.

Definition rec_report_settlement (outcome : EffectReconciliationOutcome) (status : EffectStatus)
    : EffectReconcilerAttemptOutcome :=
  match outcome, status with
  | RoApplied _, EsApplied _ _ => RaApplied
  | RoNotApplied reason_code None, EsRejected _ durable_reason =>
      if bool_decide (reason_code = durable_reason) then RaRejected reason_code
      else RaSettlementFailed
  | RoNotApplied reason_code (Some _), EsPending _ not_before_ms =>
      RaRetryScheduled reason_code not_before_ms
  | _, _ => RaSettlementFailed
  end.

Definition rec_trusted_now : rec_prog (result Z) :=
  value ← await QaNow;
  mret (value ← default (Err (eff "Effect Reconciler clock panicked" [])) value;
        _ ← eff_validate_application_time value;
        Ok value).

(** * One attempt *)

Section attempt.
Context (x : EffectReconciler) (cycle_id : str) (prepared : PreparedReconciliation)
  (authority : AuthorityContext).

(** [PreparedReconciliation::report]. *)
Definition rec_report (outcome : EffectReconcilerAttemptOutcome) : EffectReconcilerAttempt :=
  {| ra_effect_id := es_id (pq_snapshot prepared);
     ra_observed_revision := es_revision (pq_snapshot prepared);
     ra_attempt := pq_attempt prepared; ra_lease_id := pq_lease_id prepared;
     ra_outcome := outcome |}.

Definition reconciliation_command_id (purpose : str) (outcome : EffectReconciliationOutcome)
    : result EffectCommandId :=
  evidence ← ok_or (to_json outcome) (eff "cannot encode Effect reconciliation evidence" []);
  encoded ← ok_or (to_json
    {| ri_purpose := purpose; ri_cycle_id := cycle_id; ri_actor := actor authority;
       ri_tenant_id := tenant_id authority; ri_effect_id := es_id (pq_snapshot prepared);
       ri_revision := es_revision (pq_snapshot prepared); ri_attempt := pq_attempt prepared;
       ri_lease_id := pq_lease_id prepared; ri_evidence_sha256 := lower_sha256 evidence |})
    (eff "cannot encode Effect reconciliation identity" []);
  Ok (lit "reconciler-settle-" ++ lower_sha256 encoded).

(** The command that settles the evidence, with its purpose; or the report of
    evidence that cannot be settled. *)
Definition settlement_of (outcome : EffectReconciliationOutcome) (settled_at_ms : Z)
    : EffectReconcilerAttemptOutcome + str * EffectCommandKind :=
  match outcome with
  | RoApplied receipt =>
      if is_ok (validate_receipt receipt settled_at_ms)
      then inr (lit "applied",
                EcReconcileApplied (pq_lease_id prepared) (pq_attempt prepared) receipt)
      else inl RaInvalidEvidence
  | RoNotApplied reason_code retry_after_ms =>
      let not_applied retry_at_ms :=
        inr (lit "not-applied",
             EcReconcileNotApplied (pq_lease_id prepared) (pq_attempt prepared) reason_code
               retry_at_ms) in
      match retry_after_ms with
      | Some delay =>
          match checked_add u64_max settled_at_ms delay with
          | Some value => not_applied (Some value)
          | None => inl RaInvalidEvidence
          end
      | None => not_applied None
      end
  | RoStillUnknown _ => inl RaSettlementFailed
  end.

(** [settle]. *)
Definition rec_settle (outcome : EffectReconciliationOutcome) : rec_prog EffectReconcilerAttempt :=
  settled_at_ms ← rec_trusted_now;
  match (settled_at_ms : result Z) with
  | Err _ => mret (rec_report RaClockUnavailable)
  | Ok settled_at_ms =>
      match settlement_of outcome settled_at_ms with
      | inl failed => mret (rec_report failed)
      | inr (purpose, kind) =>
          match reconciliation_command_id purpose outcome with
          | Err _ => mret (rec_report RaSettlementFailed)
          | Ok command_id =>
              result ← await (QaApply (es_id (pq_snapshot prepared))
                                (es_revision (pq_snapshot prepared))
                                {| ec_id := command_id; ec_kind := kind |} settled_at_ms authority);
              match (result : Prelude.result EffectCommandResult) with
              | Ok result =>
                  match ecr_outcome result with
                  | EffDuplicate => mret (rec_report RaAlreadyReconciled)
                  | EffApplied =>
                      mret (rec_report (rec_report_settlement outcome
                              (ef_status (es_effect (ecr_snapshot result)))))
                  end
              | Err (EffectConflict _ _ actual) => mret (rec_report (RaSettlementFenced actual))
              | Err _ => mret (rec_report RaSettlementFailed)
              end
          end
      end
  end.

Definition rec_policy_request (registered : RegisteredEffectReconciliationConnector)
    : EffectReconciliationPolicyRequest :=
  let effect := es_effect (pq_snapshot prepared) in
  {| qp_effect_id := es_id (pq_snapshot prepared); qp_authority := authority;
     qp_operation := ef_operation effect; qp_input := ef_input effect;
     qp_input_sha256 := ef_input_sha256 effect; qp_attempt := pq_attempt prepared;
     qp_lease_id := pq_lease_id prepared; qp_connector_origin := rrg_origin registered;
     qp_contract := rd_contract (rrg_descriptor registered) |}.

Definition query_request : EffectReconciliationRequest :=
  let effect := es_effect (pq_snapshot prepared) in
  {| qr_effect_id := es_id (pq_snapshot prepared); qr_authority := authority;
     qr_operation := ef_operation effect; qr_idempotency_key := ef_idempotency_key effect;
     qr_input := ef_input effect; qr_input_sha256 := ef_input_sha256 effect;
     qr_attempt := pq_attempt prepared; qr_lease_id := pq_lease_id prepared |}.

(** [reconcile_prepared], up to the second test for cancellation: the
    connector and the policy's permission. *)
Definition rec_authorize_prepared
    : rec_prog (EffectReconcilerAttemptOutcome + RegisteredEffectReconciliationConnector) :=
  match rec_resolve (re_connectors x) (ef_operation (es_effect (pq_snapshot prepared))) with
  | None => mret (inl RaConnectorUnavailable)
  | Some registered =>
      cancelled ← await QaIsCancelled;
      if (cancelled : bool) then mret (inl RaCancelledBeforeLookup)
      else
        decision ← await (QaAuthorize (rc_policy_timeout_ms (re_config x)) (re_policy x)
                            (rec_policy_request registered));
        match (decision : raced EffectReconciliationDecision) with
        | RcCancelled => mret (inl RaCancelledBeforeLookup)
        | RcReturned (Ok (RxDeny reason_code)) =>
            if is_ok (validate_capability_name "Effect Reconciliation Policy denial reason" reason_code)
            then mret (inl (RaPolicyDenied reason_code))
            else mret (inl RaPolicyUnavailable)
        | RcReturned (Ok RxAllow) =>
            cancelled ← await QaIsCancelled;
            if (cancelled : bool) then mret (inl RaCancelledBeforeLookup)
            else mret (inr registered)
        | _ => mret (inl RaPolicyUnavailable)
        end
  end.

(** [reconcile_prepared]. *)
Definition reconcile_prepared : rec_prog EffectReconcilerAttempt :=
  authorized ← rec_authorize_prepared;
  match (authorized : EffectReconcilerAttemptOutcome + RegisteredEffectReconciliationConnector) with
  | inl outcome => mret (rec_report outcome)
  | inr registered =>
      answered ← await (QaQuery (rc_lookup_timeout_ms (re_config x)) (rrg_connector registered)
                          query_request);
      match (answered : raced EffectReconciliationOutcome) with
      | RcCancelled => mret (rec_report RaCancelledDuringLookup)
      | RcReturned (Ok outcome) =>
          if validate_outcome outcome then
            match outcome with
            | RoStillUnknown reason_code => mret (rec_report (RaStillUnknown reason_code))
            | _ => rec_settle outcome
            end
          else mret (rec_report RaInvalidEvidence)
      | _ => mret (rec_report RaLookupUnavailable)
      end
  end.
End attempt.
End reconciler.

(** * The sweep *)

Record ReconcilePlan := {
  rs_scanned_at_ms : Z;
  rs_page : EffectPage;
  rs_prepared : list PreparedReconciliation;
}.

(** [PreparedReconciliation::try_from]. *)
Definition prepare_reconciliation (snapshot : EffectSnapshot) : result PreparedReconciliation :=
  match ef_status (es_effect snapshot) with
  | EsUnknown attempt lease_id _ =>
      Ok {| pq_snapshot := snapshot; pq_attempt := attempt; pq_lease_id := lease_id |}
  | _ => Err (eff "Effect Reconciler unknown scan returned non-unknown state" [])
  end.

Section sweep.
Context `{!Serialize ReconciliationIdentity, !Serialize EffectReconciliationOutcome, sha : !Sha256}.
Context `{!Serialize Json, !Serialize (AttributedCommand EffectCreateRequest),
          !Serialize (AttributedCommand EffectCommand), !Serialize EffectCommand,
          !Serialize EffectWire}.

(** [run_once_as], up to the work list. *)
Definition scan_unknown (x : EffectReconciler) (request : EffectReconcilerRunRequest)
    (authority : AuthorityContext) : rec_prog (result ReconcilePlan) :=
  let limit := rc_scan_limit (re_config x) in
  or_fail (rec_validate_run_request request authority) (λ _,
  or_fail (rec_config_validate (re_config x)) (λ _,
  scanned_at_ms ← rec_trusted_now;
  or_fail scanned_at_ms (λ scanned_at_ms,
  page ← await (QaList (Some (lit "unknown")) (qq_after request) limit authority);
  or_fail page (λ page,
  or_fail (validate_effect_page "Effect Reconciler" page (qq_after request) limit authority StateUnknown)
    (λ _,
  or_fail (fold_m (λ acc snapshot, p ← prepare_reconciliation snapshot; Ok (acc ++ [p])) []
             (pg_effects page)) (λ prepared,
  mret (Ok {| rs_scanned_at_ms := scanned_at_ms; rs_page := page; rs_prepared := prepared |}))))))).

(** The worker loop of [run_once_as], with the future of a worker and its
    fallback ([spawn_prepared]). *)
Abbreviation RecSweep := (Workers.Sweep rec_answer PreparedReconciliation EffectReconcilerAttempt).

Definition rec_worker (x : EffectReconciler) (cycle_id : str) (authority : AuthorityContext)
    (prepared : PreparedReconciliation) : rec_prog EffectReconcilerAttempt :=
  reconcile_prepared x cycle_id prepared authority.
Definition rec_fallback (prepared : PreparedReconciliation) : EffectReconcilerAttempt :=
  rec_report prepared RaAttemptFailed.
Definition rec_lost : HarnessError := eff "Effect Reconciler lost a worker identity" [].

Definition rec_sweep_start (x : EffectReconciler) (cycle_id : str) (authority : AuthorityContext)
    (prepared : list PreparedReconciliation) : RecSweep :=
  pool_start (rec_worker x cycle_id authority) rec_fallback (rc_max_concurrency (re_config x)) prepared.
Definition rec_sweep_join (x : EffectReconciler) (cycle_id : str) (authority : AuthorityContext)
    (task_id : nat) (joined : option EffectReconcilerAttempt) (s : RecSweep) : result RecSweep :=
  pool_join (rec_worker x cycle_id authority) rec_fallback rec_lost task_id joined s.

(** The report of a sweep whose [JoinSet] is empty. *)
Definition rec_sweep_report (plan : ReconcilePlan) (s : RecSweep) : EffectReconcilerRunReport :=
  {| rp_scanned_at_ms := rs_scanned_at_ms plan; rp_scanned := len (pg_effects (rs_page plan));
     rp_has_more := pg_has_more (rs_page plan);
     rp_next_after := if pg_has_more (rs_page plan) then pg_next_cursor (rs_page plan) else None;
     rp_attempts := pool_reports s |}.
End sweep.
