(* ===== verification/ReconcilerSafety.v ===== *)
(** What a reconciliation does (src/src/effect/reconciler.rs): the paths of one
    attempt, and its runs over a ledger that others change between its calls.
    A connector is asked only with the policy's permission, at most one command
    follows and it carries the connector's evidence for exactly the observed
    attempt; reports agree with the ledger; an attempt is settled once; and
    the sweep reports every Effect of its page. *)

From Stdlib Require Import ZArith Lia.
From stdpp Require Import sorting base tactics list gmap relations numbers strings option.
From stdpp Require Import list.
From S2P Require Import Prelude Kernel Digest Json Sqlite Pairs Effect EffectSafety EffectCoordinator EffectStores EffectClients Futures Workers Reconciler.

Abbreviation item := (Futures.item rec_answer).

(** * Observations *)

Definition looked_up (i : item) : bool :=
  match it_call i with QaQuery _ _ _ => true | _ => false end.
Definition applies (i : item) : bool :=
  match it_call i with QaApply _ _ _ _ _ => true | _ => false end.

(** The outcomes of an attempt that did not ask its connector. *)
Definition unasked (o : EffectReconcilerAttemptOutcome) : bool :=
  match o with
  | RaConnectorUnavailable | RaPolicyDenied _ | RaPolicyUnavailable | RaCancelledBeforeLookup => true
  | _ => false
  end.

(** The outcomes of an attempt that asked, and sent no command. *)
Definition unsettled (o : EffectReconcilerAttemptOutcome) : bool :=
  match o with
  | RaCancelledDuringLookup | RaLookupUnavailable | RaInvalidEvidence | RaStillUnknown _
  | RaClockUnavailable | RaSettlementFailed => true
  | _ => false
  end.

(** The outcome reported of the answer to the command. *)
Definition reported_of (outcome : EffectReconciliationOutcome) (r : result EffectCommandResult)
    : EffectReconcilerAttemptOutcome :=
  match r with
  | Ok res =>
      match ecr_outcome res with
      | EffDuplicate => RaAlreadyReconciled
      | EffApplied => rec_report_settlement outcome (ef_status (es_effect (ecr_snapshot res)))
      end
  | Err (EffectConflict _ _ actual) => RaSettlementFenced actual
  | Err _ => RaSettlementFailed
  end.

Section paths.
Context `{!Serialize ReconciliationIdentity, !Serialize EffectReconciliationOutcome, sha : !Sha256}.
Context (x : EffectReconciler) (cycle_id : str) (pq : PreparedReconciliation) (a : AuthorityContext).

(** The calls that come before a lookup. *)
Definition permitted (registered : RegisteredEffectReconciliationConnector) : list item :=
  [ QaIsCancelled ↦ᵣ false;
    QaAuthorize (rc_policy_timeout_ms (re_config x)) (re_policy x)
      (rec_policy_request pq a registered) ↦ᵣ RcReturned (Ok RxAllow);
    QaIsCancelled ↦ᵣ false ].

Definition lookup_of (registered : RegisteredEffectReconciliationConnector)
    (r : raced EffectReconciliationOutcome) : item :=
  QaQuery (rc_lookup_timeout_ms (re_config x)) (rrg_connector registered) (query_request pq a) ↦ᵣ r.

Definition command_item (id : EffectCommandId) (kind : EffectCommandKind) (now : Z)
    (r : result EffectCommandResult) : item :=
  QaApply (es_id (pq_snapshot pq)) (es_revision (pq_snapshot pq)) {| ec_id := id; ec_kind := kind |}
    now a ↦ᵣ r.

(** The attempt had no permission; it asked and learned nothing it could
    settle; or it settled the evidence of its connector with one command. *)
Inductive attempt_path (l : list item) (o : EffectReconcilerAttemptOutcome) : Prop :=
| path_unasked :
    Forall (λ i, looked_up i = false ∧ applies i = false) l → unasked o = true → attempt_path l o
| path_unsettled registered r now :
    rec_resolve (re_connectors x) (ef_operation (es_effect (pq_snapshot pq))) = Some registered →
    l = permitted registered ++ lookup_of registered r :: now →
    Forall (λ i, looked_up i = false ∧ applies i = false) now → unsettled o = true →
    (∀ reason, o = RaStillUnknown reason → r = RcReturned (Ok (RoStillUnknown reason))) →
    attempt_path l o
| path_settled registered outcome clock now purpose kind id r :
    rec_resolve (re_connectors x) (ef_operation (es_effect (pq_snapshot pq))) = Some registered →
    validate_outcome outcome = true → settlement_of pq outcome now = inr (purpose, kind) →
    l = permitted registered ++ [ lookup_of registered (RcReturned (Ok outcome));
          QaNow ↦ᵣ clock; command_item id kind now r ] →
    o = reported_of outcome r → attempt_path l o.

Ltac follow H :=
  repeat first [follow_step H | progress cbn [rec_trusted_now] in H | progress unfold rec_trusted_now in H].

Lemma settlement_unsettled outcome now o : settlement_of pq outcome now = inl o → unsettled o = true ∧
  ∀ reason, o ≠ RaStillUnknown reason.
Proof. unfold settlement_of. intros H. repeat case_match; by simplify_eq. Qed.

Lemma rec_settle_paths outcome l att :
  follows (rec_settle cycle_id pq a outcome) l (Done att) →
  (Forall (λ i, looked_up i = false ∧ applies i = false) l ∧ unsettled (ra_outcome att) = true ∧
   ∀ reason, ra_outcome att ≠ RaStillUnknown reason) ∨
  ∃ clock now purpose kind id r, settlement_of pq outcome now = inr (purpose, kind) ∧
    l = [QaNow ↦ᵣ clock; command_item id kind now r] ∧ ra_outcome att = reported_of outcome r.
Proof.
  unfold rec_settle. intros H. follow H.
  all: try (left; subst; split; [by repeat constructor|]; simpl; by eauto using settlement_unsettled).
  all: right; subst; do 6 eexists; split_and!; [eassumption|reflexivity|]; simpl.
  all: repeat match goal with E : ecr_outcome _ = _ |- _ => rewrite E end; done.
Qed.

Lemma rec_authorize_paths l r :
  follows (rec_authorize_prepared x pq a) l (Done r) →
  (Forall (λ i, looked_up i = false ∧ applies i = false) l ∧
   ∀ o, r = inl o → unasked o = true) ∧
  ∀ registered, r = inr registered →
    rec_resolve (re_connectors x) (ef_operation (es_effect (pq_snapshot pq))) = Some registered ∧
    l = permitted registered.
Proof.
  unfold rec_authorize_prepared. intros H. follow H.
  all: (split; [split; [by repeat constructor|]; intros; by simplify_eq|]; intros; by simplify_eq).
Qed.

Lemma reconcile_paths l att :
  follows (reconcile_prepared x cycle_id pq a) l (Done att) → attempt_path l (ra_outcome att).
Proof.
  intros (r & l1 & l2 & -> & [[Hq Ho] Hp]%rec_authorize_paths & H)%follows_bind.
  destruct r as [o|registered].
  - follow H. subst. rewrite app_nil_r. by apply path_unasked; [|apply Ho].
  - destruct (Hp _ eq_refl) as [Hr ->]. apply follows_await in H as (r & l & -> & H).
    destruct r as [| |[outcome|e]| |].
    all: try (follow H; subst; by eapply path_unsettled with (now := [])).
    destruct (validate_outcome outcome) eqn:Hv; [|follow H; subst; by eapply path_unsettled with (now := [])].
    destruct outcome as [receipt|reason retry|reason].
    3: { follow H. subst. eapply path_unsettled with (now := []); [done..|]. by intros ? [= ->]. }
    all: apply rec_settle_paths in H as [(Hn & Hu & Hs)|(clock & now & purpose & kind & id & r & Hs & -> & Ho')];
      [by eapply path_unsettled; [..|intros ? E; destruct (Hs _ E)]|by eapply path_settled].
Qed.

(** ** Reports name the attempt *)

Definition rec_names (att : EffectReconcilerAttempt) : Prop :=
  att = rec_report pq (ra_outcome att).

Lemma rec_report_names o : rec_names (rec_report pq o).
Proof. done. Qed.

Lemma reconcile_names : ends rec_names (reconcile_prepared x cycle_id pq a).
Proof.
  apply ends_bind, ends_any. intros [o|registered]; [done|]. intros [| |[outcome|e]| |]; simpl; try done.
  destruct (validate_outcome outcome); [|done].
  assert (ends rec_names (rec_settle cycle_id pq a outcome)) as Hs.
  { apply ends_bind, ends_any. intros [now|]; [|done].
    destruct (settlement_of pq outcome now) as [|[purpose kind]]; [done|].
    destruct (reconciliation_command_id _ _ _ _ _); [|done].
    intros [res|[]]; simpl; try done. by destruct (ecr_outcome res). }
  by destruct outcome.
Qed.

Lemma within_reconcile : within 6 (reconcile_prepared x cycle_id pq a).
Proof.
  apply (within_bind 3 3).
  - unfold rec_authorize_prepared. destruct (rec_resolve _ _); [|done]. apply (within_bind 1 2); [done|].
    intros []; [done|]. apply (within_bind 1 1); [done|]. intros [| |[[|reason]|]| |]; try done.
    + apply (within_bind 1 0); [done|]. by intros [].
    + by destruct (is_ok _).
  - intros [o|registered]; [done|]. apply (within_bind 1 2); [done|]. intros [| |[outcome|e]| |]; try done.
    destruct (validate_outcome outcome); [|done].
    assert (within 2 (rec_settle cycle_id pq a outcome)) as Hs.
    { apply (within_bind 1 1); [done|]. intros [now|]; [|done].
      destruct (settlement_of pq outcome now) as [|[purpose kind]]; [done|].
      destruct (reconciliation_command_id _ _ _ _ _); [|done]. apply (within_bind 1 0); [done|].
      intros [res|[]]; try done. by destruct (ecr_outcome res). }
    by destruct outcome.
Qed.
End paths.

(** The place of the only item of a list with a property. *)
Lemma unique_split {A} (f : A → bool) (l l1 l2 k1 k2 : list A) i j :
  l = l1 ++ i :: l2 → l = k1 ++ j :: k2 → f i = true → Forall (λ y, f y = false) k1 →
  Forall (λ y, f y = false) k2 → l1 = k1 ∧ i = j ∧ l2 = k2.
Proof.
  intros -> E Hi H1 H2. revert k1 E H1. induction l1 as [|y l1 IH]; intros [|z k1] E H1; simpl in E.
  - by injection E as <- <-.
  - injection E as <- _. apply Forall_cons in H1 as [H1 _]. congruence.
  - injection E as <- E. rewrite <-E in H2. apply Forall_app in H2 as [_ [H2 _]%Forall_cons]. congruence.
  - injection E as <- E. apply Forall_cons in H1 as [_ H1]. destruct (IH _ E H1) as (-> & -> & ->). done.
Qed.

(** * Runs over a ledger *)

Record RecWorld {W : Type} := {
  rw_effects : W;
  rw_cancelled : bool;
}.
Arguments RecWorld W : clear implicits.

Section safety.
Context `{!Serialize ReconciliationIdentity, !Serialize EffectReconciliationOutcome}.
Context `{!Serialize Json, !Serialize (AttributedCommand EffectCreateRequest),
          !Serialize (AttributedCommand EffectCommand), !Serialize EffectCommand,
          !Serialize EffectWire, sha : !Sha256}.
Context {W : Type} `{!EffectCoordinator W, !EffectLaws W}.

Abbreviation world := (RecWorld W).
Abbreviation view := (gmap (str * EffectId) EffectSnapshot).

(** What a call does and answers.  Times are unsigned. *)
Definition rec_handles (w : world) (c : rec_call) : rec_answer c → world → Prop :=
  match c with
  | QaNow => λ r w', w' = w ∧ ∀ v, r = Some (Ok v) → (0 ≤ v ≤ u64_max)%Z
  | QaIsCancelled => λ r w', w' = w ∧ r = rw_cancelled w
  | QaList status after limit a => λ r w',
      eff_list_as status after limit a (rw_effects w) = (rw_effects w', r)
      ∧ rw_cancelled w' = rw_cancelled w
  | QaAuthorize _ policy request => λ r w', w' = w ∧ fair_race (rw_cancelled w) r ∧
      ∀ d, r = RcReturned d → ∃ host, d = rec_authorize host policy request
  | QaQuery _ _ _ => λ r w', w' = w ∧ fair_race (rw_cancelled w) r
  | QaApply id revision command now a => λ r w',
      (0 ≤ now)%Z ∧ eff_apply_as id revision command now a (rw_effects w) = (rw_effects w', r)
      ∧ rw_cancelled w' = rw_cancelled w
  end.

(** Other clients of the ledger (executors and other reconcilers among them),
    and the token of this sweep. *)
Inductive rec_environment (w : world) : world → Prop :=
| rec_env_effects w' :
    ec_step (rw_effects w) (rw_effects w') → rw_cancelled w' = rw_cancelled w → rec_environment w w'
| rec_env_cancel : rec_environment w {| rw_effects := rw_effects w; rw_cancelled := true |}.

Definition rec_step : world → world → Prop := moves rec_environment rec_handles.

Lemma rec_step_effects w w' : rec_step w w' → rtc ec_step (rw_effects w) (rw_effects w').
Proof.
  intros [[w1 Hs _|]|(c & r & Hh)]; [by apply rtc_once|done|].
  destruct c; simpl in Hh; try (destruct Hh as [-> _]; done).
  - apply rtc_once. eapply ec_list, Hh.
  - destruct Hh as (Hnow & Hh & _). apply rtc_once. by eapply ec_apply, Hh.
Qed.

Lemma rec_steps_effects w w' : rtc rec_step w w' → rtc ec_step (rw_effects w) (rw_effects w').
Proof. induction 1; [done|]. etrans; [by apply rec_step_effects|done]. Qed.

Lemma rec_steps_inv w w' : ec_inv (rw_effects w) → rtc rec_step w w' → ec_inv (rw_effects w').
Proof.
  intros Hi Hs%rec_steps_effects. revert Hi. induction Hs as [s|s s1 s2 H _ IH]; [done|].
  intros Hi. apply IH. by destruct (ec_step_evolves _ _ Hi H).
Qed.

Lemma rec_steps_reached w w' key e :
  ec_inv (rw_effects w) → rtc rec_step w w' → reached (ec_view (rw_effects w)) key e →
  reached (ec_view (rw_effects w')) key e.
Proof. intros Hi Hs%rec_steps_effects Hr. by destruct (ec_steps_reached _ _ _ _ Hi Hs Hr). Qed.

(** ** Reconciling commands *)

(** The attempt a command reconciles. *)
Definition reconciles (c : EffectCommandKind) : option (EffectLeaseId * Z) :=
  match c with
  | EcReconcileApplied lid k _ | EcReconcileNotApplied lid k _ _ => Some (lid, k)
  | _ => None
  end.

(** The status a reconciling command leaves. *)
Lemma reconcile_status e c now actor s t lid k :
  eff_apply_kind e c now actor = Ok (s, t) → reconciles c = Some (lid, k) →
  (∃ reason, ef_status e = EsUnknown k lid reason) ∧
  ((∃ receipt, c = EcReconcileApplied lid k receipt ∧ s = EsApplied k receipt) ∨
   (∃ reason, c = EcReconcileNotApplied lid k reason None ∧ s = EsRejected k reason) ∨
   (∃ reason t, c = EcReconcileNotApplied lid k reason (Some t) ∧ s = EsPending (k + 1) t)).
Proof.
  unfold eff_apply_kind. intros Ha Hc.
  destruct c as [| | | | | |lid' k' receipt|lid' k' reason rt|]; try done; injection Hc as -> ->; inv_ok; subst.
  - split; [by eapply validate_unknown_ok|]. left. eauto.
  - split; [by eapply validate_unknown_ok|]. right.
    match goal with H : settled_not_applied _ _ _ = _ |- _ => apply settled_ok in H as Hs end.
    destruct rt as [t'|]; [right; destruct Hs as [-> _]|left; subst]; eauto.
Qed.

(** The attempt [k] has been settled. *)
Definition past (k : Z) (e : Effect) : Prop :=
  eff_terminal (ef_status e) = true ∨ (k < claims (ef_transitions e))%Z ∨
  ∃ nb, ef_status e = EsPending (k + 1) nb.

Lemma past_not_unknown k e lid reason :
  eff_validate e = Ok () → past k e → ef_status e ≠ EsUnknown k lid reason.
Proof.
  intros Hv%valid_follows Hp E. rewrite E in Hv. destruct Hv as [-> _].
  destruct Hp as [Ht|[Hlt|[nb Hp]]]; [by rewrite E in Ht|lia|congruence].
Qed.

Lemma past_step k e e' :
  (1 ≤ k)%Z → eff_validate e = Ok () → past k e → eff_step e e' → past k e'.
Proof.
  intros Hk Hv Hp Hs. destruct Hp as [Ht|[Hlt|[nb Hp]]].
  - left. by rewrite (terminal_steps e e' Ht (rtc_once _ _ Hs)).
  - right; left. pose proof (steps_claims _ _ (rtc_once _ _ Hs)). lia.
  - apply eff_step_cases in Hs as [->|(c & now & a & d & [s t] & n & _ & Had & Hv' & ->)];
      [right; right; by eexists|].
    apply valid_follows in Hv. rewrite Hp in Hv. destruct Hv as [Hn _].
    pose proof (ea_kind _ _ _ _ _ _ Had) as Hkind. unfold eff_apply_kind in Hkind. rewrite Hp in Hkind.
    apply valid_follows in Hv'. right; left. simpl.
    destruct (ec_kind c); simpl in Hkind; inv_ok; simplify_eq; try done.
    + rewrite claims_snoc. simpl. lia.
    + destruct (k + 1)%Z as [|[| |]|] eqn:E; try done. lia.
Qed.

Lemma past_steps k e e' :
  (1 ≤ k)%Z → eff_validate e = Ok () → past k e → rtc eff_step e e' → past k e'.
Proof.
  intros Hk Hv Hp Hs. induction Hs as [e|e e1 e2 Hs _ IH]; [done|].
  apply IH; [by eapply eff_step_validate|by eapply past_step].
Qed.

Lemma unknown_positive e k lid reason :
  eff_validate e = Ok () → ef_status e = EsUnknown k lid reason → (1 ≤ k)%Z.
Proof.
  intros Hv%valid_follows E. rewrite E in Hv. destruct Hv as (-> & (t & d & Ht & Hk) & _).
  unfold claims, len. apply list_elem_of_In in Ht.
  assert (t ∈ List.filter is_claim (ef_transitions e)) as Hin.
  { apply list_elem_of_In, filter_In. split; [done|]. unfold is_claim. by rewrite Hk. }
  destruct (List.filter is_claim (ef_transitions e)); [by apply not_elem_of_nil in Hin|simpl; lia].
Qed.

(** A reconciling command that commits: what it found, and what the Effect
    has become. *)
Lemma reconcile_commits (w w' : world) id rev c now a res lid k :
  ec_inv (rw_effects w) → rec_handles w (QaApply id rev c now a) (Ok res) w' →
  reconciles (ec_kind c) = Some (lid, k) → ecr_outcome res = EffApplied →
  ∃ cur reason, ec_view (rw_effects w) !! effect_key id (tenant_id a) = Some cur ∧
    es_revision cur = rev ∧ ef_status (es_effect cur) = EsUnknown k lid reason ∧
    let e := es_effect (ecr_snapshot res) in
    reached (ec_view (rw_effects w')) (effect_key id (tenant_id a)) e ∧ (1 ≤ k)%Z ∧ past k e ∧
    ((∃ receipt, ec_kind c = EcReconcileApplied lid k receipt ∧ ef_status e = EsApplied k receipt) ∨
     (∃ rs, ec_kind c = EcReconcileNotApplied lid k rs None ∧ ef_status e = EsRejected k rs) ∨
     (∃ rs t, ec_kind c = EcReconcileNotApplied lid k rs (Some t) ∧ ef_status e = EsPending (k + 1) t)).
Proof.
  intros Hi (Hnow & Hh & _) Hc Ho. apply ec_apply_law in Hh as [Hi' (_ & cur & Hcur & Hr)]; [|done].
  destruct Hr as [(_ & _ & ->)|(Hrev & e & Ha & -> & Hv)]; [done|].
  pose proof Ha as (d & [s t] & n & Had & _ & _ & He)%eff_apply_applied.
  destruct (reconcile_status _ _ _ _ _ _ _ _ (ea_kind _ _ _ _ _ _ Had) Hc) as [[reason Hu] Hs].
  assert (ef_status e = s) as Hes by (by rewrite He).
  assert (ec_view (rw_effects w') !! effect_key id (tenant_id a) = Some (next_effect_snapshot cur e))
    as Hn by (rewrite Hv; apply lookup_insert_eq).
  exists cur, reason. cbv zeta. simpl. rewrite Hes. split_and!; try done.
  - exact (reached_here _ _ _ Hi' Hn).
  - apply (unknown_positive (es_effect cur) k lid reason); [eapply stored_valid; [exact Hi|exact Hcur]|exact Hu].
  - destruct Hs as [(rc & _ & ->)|[(rs & _ & ->)|(rs & t' & _ & ->)]]; unfold past; rewrite Hes; eauto.
Qed.

(** C11: An uncertain attempt is settled once: after one reconciling command
    of an attempt has committed, no reconciler (whatever its host, cycle,
    actor or observed revision) commits another one for the same attempt, now
    or later. *)
Theorem reconciler_settles_once (w1 w1' w2 w2' : world) (id : EffectId) (rev1 rev2 : Z)
    (c1 c2 : EffectCommand) (now1 now2 : Z) (a1 a2 : AuthorityContext)
    (res1 res2 : EffectCommandResult) (lid1 lid2 : EffectLeaseId) (k : Z)
    (Hi : ec_inv (rw_effects w1))
    (H1 : rec_handles w1 (QaApply id rev1 c1 now1 a1) (Ok res1) w1')
    (K1 : reconciles (ec_kind c1) = Some (lid1, k)) (O1 : ecr_outcome res1 = EffApplied)
    (Hs : rtc rec_step w1' w2) (Ha : tenant_id a2 = tenant_id a1)
    (H2 : rec_handles w2 (QaApply id rev2 c2 now2 a2) (Ok res2) w2')
    (K2 : reconciles (ec_kind c2) = Some (lid2, k)) :
  ecr_outcome res2 = EffDuplicate ∧ ec_view (rw_effects w2') = ec_view (rw_effects w2).
Proof.
  destruct (reconcile_commits _ _ _ _ _ _ _ _ _ _ Hi H1 K1 O1) as (_ & _ & _ & _ & _ & Hr & Hk & Hp & _).
  assert (ec_inv (rw_effects w1')) as Hi1.
  { eapply rec_steps_inv; [exact Hi|]. apply rtc_once. right. by eexists _, _. }
  pose proof (rec_steps_inv _ _ Hi1 Hs) as Hi2.
  destruct (rec_steps_reached _ _ _ _ Hi1 Hs Hr) as (cur & Hcur & Hst & Hv).
  destruct (ecr_outcome res2) eqn:O2.
  - exfalso. destruct (reconcile_commits _ _ _ _ _ _ _ _ _ _ Hi2 H2 K2 O2)
      as (cur' & reason & Hcur' & _ & Hu & _).
    rewrite Ha, Hcur in Hcur'. injection Hcur' as <-.
    apply (past_not_unknown k (es_effect cur) lid2 reason); [by eapply stored_valid| |done].
    by eapply past_steps.
  - split; [done|]. destruct H2 as (_ & Hh & _). apply ec_apply_law in Hh as [_ (_ & cur' & _ & Hr2)]; [|done].
    destruct Hr2 as [(_ & Hview & _)|(_ & e & _ & -> & _)]; [done|]. by simpl in O2.
Qed.

(** ** One attempt over the ledger *)

(** The command of a settlement, spelled out. *)
Definition settles (pq : PreparedReconciliation) (outcome : EffectReconciliationOutcome) (now : Z)
    (kind : EffectCommandKind) : Prop :=
  match outcome with
  | RoApplied receipt =>
      kind = EcReconcileApplied (pq_lease_id pq) (pq_attempt pq) receipt ∧
      is_ok (validate_receipt receipt now) = true
  | RoNotApplied reason None =>
      kind = EcReconcileNotApplied (pq_lease_id pq) (pq_attempt pq) reason None
  | RoNotApplied reason (Some delay) =>
      (now + delay ≤ u64_max)%Z ∧ (delay ≤ REC_MAX_RETRY_AFTER_MS)%Z ∧
      kind = EcReconcileNotApplied (pq_lease_id pq) (pq_attempt pq) reason (Some (now + delay)%Z)
  | RoStillUnknown _ => False
  end.

Lemma settlement_settles pq outcome now purpose kind :
  validate_outcome outcome = true → settlement_of pq outcome now = inr (purpose, kind) →
  settles pq outcome now kind.
Proof.
  unfold settlement_of, settles, checked_add. intros Hv H.
  destruct outcome as [receipt|reason [delay|]|]; [|simpl in Hv|..].
  - destruct (is_ok _); by simplify_eq.
  - apply andb_true_iff in Hv as [_ Hv].
    destruct (now + delay <=? u64_max)%Z eqn:E; [|done]. simplify_eq. split_and!; [lia|lia|done].
  - by simplify_eq.
  - done.
Qed.

Lemma settles_reconciles pq outcome now kind :
  settles pq outcome now kind → reconciles kind = Some (pq_lease_id pq, pq_attempt pq).
Proof. unfold settles. destruct outcome as [|? [|]|]; naive_solver. Qed.

Section attempt.
Context (x : EffectReconciler) (cycle_id : str) (pq : PreparedReconciliation) (a : AuthorityContext).
Context (w w' : world) (l : list item) (att : EffectReconcilerAttempt).
Context (Hrun : runs rec_environment rec_handles (reconcile_prepared x cycle_id pq a) w l w' att).

Lemma run_permission registered rest :
  l = permitted x pq a registered ++ rest →
  ∃ host, rec_authorize host (re_policy x) (rec_policy_request pq a registered) = Ok RxAllow.
Proof.
  intros ->. edestruct (runs_call rec_environment rec_handles _ _ _ _ _
    (QaAuthorize (rc_policy_timeout_ms (re_config x)) (re_policy x) (rec_policy_request pq a registered)
      ↦ᵣ RcReturned (Ok RxAllow)) Hrun) as (w1 & w2 & _ & (_ & _ & Hh) & _); [set_solver|].
  destruct (Hh _ eq_refl) as [host E]. by exists host.
Qed.

Lemma run_path : attempt_path x pq a l (ra_outcome att).
Proof. eapply reconcile_paths, runs_follows, Hrun. Qed.

(** What a connector found, and what the policy has permitted, come before a
    command. *)
Lemma run_lookup i :
  i ∈ l → looked_up i = true → ∃ registered r rest,
    rec_resolve (re_connectors x) (ef_operation (es_effect (pq_snapshot pq))) = Some registered ∧
    l = permitted x pq a registered ++ i :: rest ∧ i = lookup_of x pq a registered r ∧
    Forall (λ i, looked_up i = false) rest.
Proof.
  intros Hin Hq. destruct run_path as [HF _|registered r now Hr -> HF _ _|registered outcome clock now purpose kind id r Hr _ _ -> _].
  - rewrite Forall_forall in HF. destruct (HF _ Hin). congruence.
  - exists registered, r, now. apply elem_of_app in Hin as [Hin|[->|Hin]%elem_of_cons].
    + unfold permitted in Hin. repeat (apply elem_of_cons in Hin as [->|Hin]; [done|]).
      by apply not_elem_of_nil in Hin.
    + split_and!; [done..|]. eapply Forall_impl; [exact HF|]. by intros ? [].
    + rewrite Forall_forall in HF. destruct (HF _ Hin). congruence.
  - exists registered, (RcReturned (Ok outcome)). eexists.
    assert (i = lookup_of x pq a registered (RcReturned (Ok outcome))) as ->; [|split_and!; [done..|by repeat constructor]].
    unfold permitted in Hin. simpl in Hin.
    repeat (apply elem_of_cons in Hin as [->|Hin]; [done|]). by apply not_elem_of_nil in Hin.
Qed.
End attempt.

(** C12: A reconciliation only follows evidence: a connector is asked once, the one
    the registry resolves, with the observed Effect, and with the policy's
    permission for exactly this attempt; and a command is sent, at most one
    and last, only after the connector's answer has been validated: it
    settles the attempt that was observed, at the observed revision, with
    what the connector said. *)
Theorem reconciler_evidence (x : EffectReconciler) (cycle_id : str) (pq : PreparedReconciliation)
    (a : AuthorityContext) (w w' : world) (l l1 l2 : list item) (att : EffectReconcilerAttempt) (i : item)
    (Hrun : runs rec_environment rec_handles (reconcile_prepared x cycle_id pq a) w l w' att)
    (Hl : l = l1 ++ i :: l2) :
  match it_call i with
  | QaQuery timeout connector request => ∃ registered host,
      rec_resolve (re_connectors x) (ef_operation (es_effect (pq_snapshot pq))) = Some registered ∧
      connector = rrg_connector registered ∧ request = query_request pq a ∧
      timeout = rc_lookup_timeout_ms (re_config x) ∧
      rec_authorize host (re_policy x) (rec_policy_request pq a registered) = Ok RxAllow ∧
      l1 = permitted x pq a registered ∧ Forall (λ j, looked_up j = false) l2
  | QaApply id revision command now b => ∃ registered outcome clock,
      id = es_id (pq_snapshot pq) ∧ revision = es_revision (pq_snapshot pq) ∧ b = a ∧
      l1 = permitted x pq a registered
           ++ [lookup_of x pq a registered (RcReturned (Ok outcome)); QaNow ↦ᵣ clock] ∧
      l2 = [] ∧ validate_outcome outcome = true ∧ settles pq outcome now (ec_kind command)
  | _ => True
  end.
Proof.
  assert (i ∈ l) as Hin by (subst; set_solver).
  destruct (it_call i) as [| | | |timeout connector request|id revision command now b] eqn:Ec; try done.
  - assert (looked_up i = true) as Hq by (unfold looked_up; by rewrite Ec).
    destruct (run_lookup _ _ _ _ _ _ _ _ Hrun i Hin Hq) as (registered & r & rest & Hr & El & -> & Hrest).
    injection Ec as <- <- <-. destruct (run_permission _ _ _ _ _ _ _ _ Hrun registered _ El) as [host Hh].
    exists registered, host. destruct (unique_split looked_up _ _ _ _ _ _ _ Hl El Hq) as (-> & _ & ->);
      [by repeat constructor|done|]. by split_and!.
  - assert (applies i = true) as Hq by (unfold applies; by rewrite Ec).
    destruct (run_path _ _ _ _ _ _ _ _ Hrun)
      as [HF _|registered r rest _ -> HF _ _|registered outcome clock now' purpose kind id' r _ Hv Hs El _].
    + rewrite Forall_forall in HF. destruct (HF _ Hin). congruence.
    + exfalso. assert (Forall (λ i, applies i = false) (permitted x pq a registered ++ lookup_of x pq a registered r :: rest)) as HF'.
      { apply Forall_app. split; [by repeat constructor|]. constructor; [done|].
        eapply Forall_impl; [exact HF|]. by intros ? []. }
      rewrite Forall_forall in HF'. specialize (HF' _ Hin). congruence.
    + exists registered, outcome, clock.
      rewrite (assoc_L (++) _ [_; _] [_] : _ ++ [_; _; _] = _) in El.
      destruct (unique_split applies _ _ _ _ _ _ _ Hl El Hq) as (-> & -> & ->); [by repeat constructor..|].
      injection Ec as <- <- <- <- <-. split_and!; [done..|]. by eapply settlement_settles.
Qed.

(** A report agrees with the ledger and with the connector: an attempt
    reported as applied or rejected was answered so, and is stored so for
    good; a scheduled retry has been stored with its time, and the stored
    Effect is what later commands have made of it; one that is still unknown
    was answered so, and no command was sent. *)
Theorem reconciler_reports_honest (x : EffectReconciler) (cycle_id : str)
    (pq : PreparedReconciliation) (a : AuthorityContext) (w w' : world) (l : list item)
    (att : EffectReconcilerAttempt) (Hi : ec_inv (rw_effects w))
    (Hrun : runs rec_environment rec_handles (reconcile_prepared x cycle_id pq a) w l w' att) :
  let key := effect_key (es_id (pq_snapshot pq)) (tenant_id a) in
  let answered outcome := ∃ registered,
    rec_resolve (re_connectors x) (ef_operation (es_effect (pq_snapshot pq))) = Some registered ∧
    lookup_of x pq a registered (RcReturned (Ok outcome)) ∈ l in
  rec_names pq att ∧
  match ra_outcome att with
  | RaApplied => ∃ receipt cur, answered (RoApplied receipt) ∧
      ec_view (rw_effects w') !! key = Some cur ∧
      ef_status (es_effect cur) = EsApplied (pq_attempt pq) receipt
  | RaRejected reason => ∃ cur, answered (RoNotApplied reason None) ∧
      ec_view (rw_effects w') !! key = Some cur ∧
      ef_status (es_effect cur) = EsRejected (pq_attempt pq) reason
  | RaRetryScheduled reason at_ms => ∃ delay now e, answered (RoNotApplied reason (Some delay)) ∧
      at_ms = (now + delay)%Z ∧ (at_ms ≤ u64_max)%Z ∧
      ef_status e = EsPending (pq_attempt pq + 1) at_ms ∧ reached (ec_view (rw_effects w')) key e
  | RaStillUnknown reason => answered (RoStillUnknown reason) ∧
      Forall (λ i, applies i = false) l
  | _ => True
  end.
Proof.
  cbv zeta. pose proof (runs_follows _ _ _ _ _ _ _ Hrun) as Hf. split.
  { eapply ends_follows; [apply reconcile_names|exact Hf]. }
  destruct (run_path _ _ _ _ _ _ _ _ Hrun)
    as [HF Ho|registered r rest Hr El HF Ho Hs|registered outcome clock now purpose kind id r Hr Hv Hs El Ho].
  - by destruct (ra_outcome att).
  - destruct (ra_outcome att); try done. split.
    + exists registered. split; [done|]. rewrite El, <-(Hs _ eq_refl). set_solver.
    + subst l. apply Forall_app. split; [by repeat constructor|]. constructor; [done|].
      eapply Forall_impl; [exact HF|]. by intros ? [].
  - apply (settlement_settles _ _ _ _ _ Hv) in Hs.
    assert (lookup_of x pq a registered (RcReturned (Ok outcome)) ∈ l) as Ha by (subst l; set_solver).
    assert (command_item pq a id kind now r ∈ l) as Hc by (subst l; set_solver).
    rewrite Ho. destruct r as [res|[]]; try done. simpl.
    destruct (ecr_outcome res) eqn:Eo; [|done].
    destruct (runs_call _ _ _ _ _ _ _ _ Hrun Hc) as (w1 & w2 & S1 & H & S2).
    pose proof (rec_steps_inv _ _ Hi S1) as Hi1.
    destruct (reconcile_commits _ _ _ _ _ _ _ _ _ _ Hi1 H (settles_reconciles _ _ _ _ Hs) Eo)
      as (_ & _ & _ & _ & _ & Hreach & _ & _ & Hst).
    assert (ec_inv (rw_effects w2)) as Hi2.
    { eapply rec_steps_inv; [exact Hi1|]. apply rtc_once. right. by eexists _, _. }
    pose proof (rec_steps_reached _ _ _ _ Hi2 S2 Hreach) as Hreach'.
    unfold settles in Hs. simpl in Hst.
    destruct Hst as [(rc & K & E)|[(rs & K & E)|(rs & t & K & E)]]; rewrite E in *;
      destruct outcome as [receipt|reason [delay|]|reason]; simpl; try done;
      repeat match goal with H : _ ∧ _ |- _ => destruct H end; simplify_eq.
    + destruct (reached_terminal _ _ _ Hreach') as (cur & Hcur & He); [by rewrite E|].
      exists rc, cur. rewrite He. split_and!; [by exists registered|done|done].
    + destruct (reached_terminal _ _ _ Hreach') as (cur & Hcur & He); [by rewrite E|].
      rewrite bool_decide_eq_true_2 by done. exists cur. rewrite He. split_and!; [by exists registered|done|done].
    + exists delay, now, (es_effect (ecr_snapshot res)). split_and!; [by exists registered|done..].
Qed.
End safety.

(** * The sweep *)

Section sweep.
Context `{!Serialize ReconciliationIdentity, !Serialize EffectReconciliationOutcome}.
Context `{!Serialize Json, !Serialize (AttributedCommand EffectCreateRequest),
          !Serialize (AttributedCommand EffectCommand), !Serialize EffectCommand,
          !Serialize EffectWire, sha : !Sha256}.
Context (x : EffectReconciler) (request : EffectReconcilerRunRequest) (a : AuthorityContext).

Abbreviation cycle := (qq_cycle_id request).

(** The uncertain attempt of a listed Effect. *)
Definition prepares (pq : PreparedReconciliation) (snapshot : EffectSnapshot) : Prop :=
  pq_snapshot pq = snapshot ∧
  ∃ reason, ef_status (es_effect snapshot) = EsUnknown (pq_attempt pq) (pq_lease_id pq) reason.

Lemma prepare_all l : ∀ acc r,
  fold_m (λ acc snapshot, p ← prepare_reconciliation snapshot; Ok (acc ++ [p])) acc l = Ok r →
  ∃ r', r = acc ++ r' ∧ Forall2 prepares r' l.
Proof.
  induction l as [|sn l IH]; intros acc r Hf; simpl in Hf.
  - simplify_eq. exists []. by rewrite app_nil_r.
  - unfold prepare_reconciliation in Hf at 1. destruct (ef_status (es_effect sn)) eqn:Est; try done.
    simpl in Hf. apply IH in Hf as (r' & -> & H). eexists (_ :: r'). rewrite <-(assoc_L (++)).
    split; [done|]. constructor; [|done]. split; [done|]. simpl. eauto.
Qed.

(** A plan, from a valid configuration and a page of the scan. *)
Definition rec_planned (plan : ReconcilePlan) : Prop :=
  rec_config_validate (re_config x) = Ok () ∧
  validate_effect_page "Effect Reconciler" (rs_page plan) (qq_after request)
    (rc_scan_limit (re_config x)) a StateUnknown = Ok () ∧
  Forall2 prepares (rs_prepared plan) (pg_effects (rs_page plan)).

Lemma scan_unknown_planned :
  ends (λ r, ∀ plan, r = Ok plan → rec_planned plan) (scan_unknown x request a).
Proof.
  unfold scan_unknown, or_fail.
  destruct (rec_validate_run_request _ _); [|done]. destruct (rec_config_validate _) as [[]|] eqn:Ec; [|done].
  apply ends_bind, ends_any. intros [now|]; [|done].
  apply ends_bind, ends_any. intros [page|]; [|done].
  destruct (validate_effect_page _ _ _ _ _ _) as [[]|] eqn:Ev; [|done]. destruct (fold_m _ _ _) eqn:Ef; [|done].
  intros plan [= <-]. split_and!; [done..|]. by apply prepare_all in Ef as (r' & -> & H).
Qed.

Lemma rec_config_concurrency c : rec_config_validate c = Ok () → (1 ≤ rc_max_concurrency c)%Z.
Proof.
  unfold rec_config_validate. intros H. inv_ok. bool_hyps. unfold in_range in *. lia.
Qed.

(** A sweep reports its whole page: from any valid plan, in whatever order the
    workers run, finish or panic, at most [max_concurrency] run, a worker that
    leaves is always known, and when none is left the report has one attempt
    for every unknown Effect of the page, in the page's order, each naming
    the attempt that was observed. *)
Theorem reconciler_sweep_complete (l : list item) (plan : ReconcilePlan)
    (s : Workers.Sweep rec_answer PreparedReconciliation EffectReconcilerAttempt)
    (Hscan : follows (scan_unknown x request a) l (Done (Ok plan)))
    (Hs : rtc (pool_step (rec_worker x cycle a) rec_fallback rec_lost)
            (rec_sweep_start x cycle a (rs_prepared plan)) s) :
  (Z.of_nat (size (sw_workers s)) ≤ rc_max_concurrency (re_config x))%Z ∧
  (∀ task index p joined, sw_workers s !! task = Some (index, p) → leaves p joined →
     is_ok (rec_sweep_join x cycle a task joined s) = true) ∧
  (sw_workers s = ∅ →
     let report := rec_sweep_report plan s in
     rp_scanned report = len (rp_attempts report) ∧
     Forall2 (λ att snapshot,
         ra_effect_id att = es_id snapshot ∧ ra_observed_revision att = es_revision snapshot ∧
         ∃ reason, ef_status (es_effect snapshot) = EsUnknown (ra_attempt att) (ra_lease_id att) reason)
       (rp_attempts report) (pg_effects (rs_page plan))).
Proof.
  pose proof (ends_follows _ _ _ _ scan_unknown_planned Hscan plan eq_refl) as (Hc & _ & Hp).
  apply rec_config_concurrency in Hc.
  assert (∃ k, Z.to_nat (rc_max_concurrency (re_config x)) = S k) as [k Hk]
    by (exists (Z.to_nat (rc_max_concurrency (re_config x) - 1)); lia).
  pose proof (pool_steps_inv (rec_worker x cycle a) rec_fallback rec_names
    (λ pq, reconcile_names x cycle pq a) (λ pq, rec_report_names pq RaAttemptFailed)
    rec_lost _ _ _ Hc Hs) as Hpool. rewrite Hk in Hpool. split_and!.
  - pose proof (po_bound _ _ _ _ _ Hpool). lia.
  - intros task index p joined Hw Hj.
    destruct (pool_join_inv (rec_worker x cycle a) rec_fallback rec_names
      (λ pq, reconcile_names x cycle pq a) (λ pq, rec_report_names pq RaAttemptFailed)
      rec_lost _ _ _ _ _ _ _ Hpool Hw Hj) as (s' & E & _).
    unfold rec_sweep_join. by rewrite E.
  - intros Hidle. cbv zeta. pose proof (pool_reports_inv _ _ _ _ _ Hpool Hidle) as Hn.
    pose proof (Forall2_length _ _ _ Hn). pose proof (Forall2_length _ _ _ Hp).
    unfold rec_sweep_report, len. simpl. split; [lia|].
    apply Forall2_flip. apply (Forall2_trans (flip prepares) rec_names _ _ (rs_prepared plan));
      [|by apply Forall2_flip|exact Hn].
    intros sn pq att [<- Hu] Hnm. unfold rec_names in Hnm. unfold flip. revert Hnm.
    generalize (ra_outcome att). by intros o ->.
Qed.
End sweep.
