(* ===== verification/ReconcilerDemo.v ===== *)
(** A concrete sweep on which the reconciler theorems are exercised: an Effect
    whose attempt is unknown is found in the in-memory store, looked up with
    the permission of an allow-list, and settled as applied. *)

From Stdlib Require Import ZArith Lia.
From stdpp Require Import sorting base tactics list gmap relations numbers strings option.
From stdpp Require Import list.
From S2P Require Import Prelude Kernel Digest Json Sqlite Pairs TaskMessages Effect EffectSafety EffectCoordinator EffectStores EffectClients EffectDemo Futures Workers Reconciler ReconcilerSafety.

#[local] Existing Instance demo_json.
#[local] Existing Instance effect_sha.

Abbreviation world := (RecWorld MemoryEffects).

(** * A driver: calls answered without loss, at 700, by a connector that has
    found the receipt *)

Definition rec_serve (w : world) (c : rec_call) : rec_answer c * world :=
  match c with
  | QaNow => (Some (Ok 700%Z), w)
  | QaIsCancelled => (false, w)
  | QaList status after limit a =>
      let '(s, r) := eff_list_as status after limit a (rw_effects w) in
      (r, {| rw_effects := s; rw_cancelled := rw_cancelled w |})
  | QaAuthorize _ policy request =>
      (RcReturned (rec_authorize (λ _ _, Ok RxAllow) policy request), w)
  | QaQuery _ _ _ => (RcReturned (Ok (RoApplied demo_receipt)), w)
  | QaApply id revision command now a =>
      let '(s, r) := eff_apply_as id revision command now a (rw_effects w) in
      (r, {| rw_effects := s; rw_cancelled := rw_cancelled w |})
  end.

Definition rec_timely (w : world) (c : rec_call) : bool :=
  match c with
  | QaApply _ _ _ now _ => (0 <=? now)%Z
  | QaIsCancelled => negb (rw_cancelled w)
  | _ => true
  end.

Lemma rec_serve_handles w c :
  rec_timely w c = true → rec_handles w c (rec_serve w c).1 (rec_serve w c).2.
Proof.
  destruct c; simpl; intros Ht.
  - split; [done|]. intros v [= <-]. unfold u64_max. lia.
  - split; [done|]. by apply negb_true_iff in Ht.
  - by destruct (mem_eff_list_as _ _ _ _ _).
  - split; [done|]. split; [done|]. intros d [= <-]. by eexists.
  - done.
  - destruct (mem_eff_apply_as _ _ _ _ _ _). simpl. split; [lia|done].
Qed.

Fixpoint rec_drive {A} (p : rec_prog A) (w : world) : option (list item * world * A) :=
  match p with
  | Done a => Some ([], w, a)
  | Await c k =>
      if rec_timely w c then
        match rec_drive (k (rec_serve w c).1) (rec_serve w c).2 with
        | Some (l, w', a) => Some ((c ↦ᵣ (rec_serve w c).1) :: l, w', a)
        | None => None
        end
      else None
  end.

Lemma rec_drive_runs {A} (p : rec_prog A) w l w' a :
  rec_drive p w = Some (l, w', a) → runs rec_environment rec_handles p w l w' a.
Proof.
  revert w l. induction p as [b|c k IH]; intros w l Hd; cbn [rec_drive] in Hd.
  - injection Hd as <- <- <-. by constructor.
  - destruct (rec_timely w c) eqn:E; [|done].
    destruct (rec_drive _ _) as [[[l' w''] b]|] eqn:Ed; [|done]. injection Hd as <- <- <-.
    econstructor; [apply rtc_refl|by apply rec_serve_handles|by apply IH].
Qed.

Definition rec_driven {A} (r : option A) : bool := if r is Some _ then true else false.
Lemma driven_default {A} (d : A) r : rec_driven r = true → r = Some (default d r).
Proof. by destruct r. Qed.

(** * The reconciliation *)

Definition rec_claimed : MemoryEffects :=
  (eff_apply_as (lit "e1") 1 demo_claim 200 local_process demo_stored).1.
Definition rec_uncertain : MemoryEffects :=
  (eff_apply_as (lit "e1") 2 demo_unknown 300 local_process rec_claimed).1.
Definition rec_world : world := {| rw_effects := rec_uncertain; rw_cancelled := false |}.

Definition rec_demo_descriptor : EffectReconciliationConnectorDescriptor :=
  {| rd_capability := lit "mail"; rd_api_version := EFFECT_RECONCILER_API_VERSION;
     rd_operations := {[lit "send"]}; rd_contract := AuthoritativeReadOnly |}.
Definition rec_demo_registry : EffectReconciliationConnectorRegistry :=
  (rec_register (TrustedExtension (lit "mail-pack")) 0 (Some rec_demo_descriptor) ∅).1.
Definition rec_demo_default : EffectReconciler :=
  {| re_connectors := rec_demo_registry; re_policy := DenyAllEffectReconciliations;
     re_config := rec_default_config |}.
Definition rec_demo : EffectReconciler :=
  rec_with_policy (AllowListEffectReconciliationPolicy {[(lit "mail", lit "send")]}) rec_demo_default.
Definition rec_demo_run : EffectReconcilerRunRequest :=
  {| qq_cycle_id := lit "cycle-1"; qq_after := None |}.

Definition rec_no_plan : ReconcilePlan :=
  {| rs_scanned_at_ms := 0; rs_page := {| pg_effects := []; pg_next_cursor := None; pg_has_more := false |};
     rs_prepared := [] |}.
Definition rec_demo_scan : list item * world * result ReconcilePlan :=
  default ([], rec_world, Ok rec_no_plan)
    (rec_drive (scan_unknown rec_demo rec_demo_run local_process) rec_world).
Definition rec_demo_plan : ReconcilePlan :=
  match rec_demo_scan.2 with Ok plan => plan | Err _ => rec_no_plan end.
Definition rec_demo_prepared : PreparedReconciliation :=
  default {| pq_snapshot := {| es_id := []; es_tenant_id := None; es_revision := 0; es_effect := demo_effect |};
             pq_attempt := 0; pq_lease_id := [] |} (head (rs_prepared rec_demo_plan)).
Definition rec_demo_attempt : list item * world * EffectReconcilerAttempt :=
  default ([], rec_world, rec_fallback rec_demo_prepared)
    (rec_drive (reconcile_prepared rec_demo (lit "cycle-1") rec_demo_prepared local_process) rec_demo_scan.1.2).

(** The demonstration exercises the branches it is meant to. *)
Lemma rec_demo_branches :
  length (rs_prepared rec_demo_plan) = 1%nat ∧ ra_outcome rec_demo_attempt.2 = RaApplied ∧
  length rec_demo_attempt.1.1 = 6%nat.
Proof. vm_compute. split_and!; reflexivity. Qed.

Lemma rec_scan_driven :
  rec_driven (rec_drive (scan_unknown rec_demo rec_demo_run local_process) rec_world) = true.
Proof. vm_compute. reflexivity. Qed.
Lemma rec_attempt_driven :
  rec_driven (rec_drive (reconcile_prepared rec_demo (lit "cycle-1") rec_demo_prepared local_process)
                rec_demo_scan.1.2) = true.
Proof. vm_compute. reflexivity. Qed.
Lemma rec_scan_planned : is_ok rec_demo_scan.2 = true.
Proof. vm_compute. reflexivity. Qed.

Lemma rec_demo_scanned :
  runs rec_environment rec_handles (scan_unknown rec_demo rec_demo_run local_process) rec_world
    rec_demo_scan.1.1 rec_demo_scan.1.2 (Ok rec_demo_plan).
Proof.
  apply rec_drive_runs. rewrite (driven_default ([], rec_world, Ok rec_no_plan) _ rec_scan_driven).
  fold rec_demo_scan. pose proof rec_scan_planned as Hok. unfold rec_demo_plan.
  destruct rec_demo_scan as [[l w] [plan|e]]; [done|discriminate Hok].
Qed.

Lemma rec_demo_attempted :
  runs rec_environment rec_handles
    (reconcile_prepared rec_demo (lit "cycle-1") rec_demo_prepared local_process) rec_demo_scan.1.2
    rec_demo_attempt.1.1 rec_demo_attempt.1.2 rec_demo_attempt.2.
Proof.
  apply rec_drive_runs.
  rewrite (driven_default ([], rec_world, rec_fallback rec_demo_prepared) _ rec_attempt_driven).
  fold rec_demo_attempt. by destruct rec_demo_attempt as [[l w] att].
Qed.

(** ** The ledger of the demonstration *)

Lemma rec_claim_call : is_ok (eff_apply_as (lit "e1") 1 demo_claim 200 local_process demo_stored).2 = true.
Proof. vm_compute. reflexivity. Qed.

Lemma apply_inv id revision c now a (m : MemoryEffects) :
  ec_inv m → ec_inv (eff_apply_as id revision c now a m).1.
Proof.
  intros Hi. destruct (eff_apply_as _ _ _ _ _ _) as [s r] eqn:E.
  apply ec_apply_law in E as [Hi' _]; [exact Hi'|exact Hi].
Qed.

Lemma rec_world_inv : ec_inv (rw_effects rec_world).
Proof. apply apply_inv, apply_inv. exact demo_stored_inv. Qed.

Lemma rec_scanned_inv : ec_inv (rw_effects rec_demo_scan.1.2).
Proof.
  eapply rec_steps_inv; [exact rec_world_inv|]. eapply runs_moves, rec_demo_scanned.
Qed.

(** ** Witnesses *)

(** The lookup and the settlement of the demonstration are its fourth and
    sixth calls. *)
Lemma rec_demo_places :
  looked_up (default (QaNow ↦ᵣ None) (rec_demo_attempt.1.1 !! 3%nat)) = true ∧
  applies (default (QaNow ↦ᵣ None) (rec_demo_attempt.1.1 !! 5%nat)) = true.
Proof. vm_compute. split; reflexivity. Qed.

Lemma place {A} (f : A → bool) (d : A) (l : list A) n :
  f d = false → f (default d (l !! n)) = true →
  ∃ i, l = take n l ++ i :: drop (S n) l ∧ f i = true.
Proof.
  intros Hd Hf. destruct (l !! n) as [i|] eqn:E; [|simpl in Hf; congruence].
  exists i. split; [|exact Hf]. by rewrite take_drop_middle.
Qed.

(** The command settles what the connector of the registry has found. *)
Lemma reconciler_evidence_witness :
  ∃ registered outcome clock now kind r,
    rec_demo_attempt.1.1 =
      (permitted rec_demo rec_demo_prepared local_process registered
         ++ [lookup_of rec_demo rec_demo_prepared local_process registered (RcReturned (Ok outcome));
             QaNow ↦ᵣ clock]) ++ [r] ∧
    settles rec_demo_prepared outcome now kind.
Proof.
  destruct (place applies (QaNow ↦ᵣ None) _ 5 eq_refl (proj2 rec_demo_places)) as (j & Hj & Qj).
  pose proof (reconciler_evidence _ _ _ _ _ _ _ _ _ _ j rec_demo_attempted Hj) as H.
  unfold applies in Qj. destruct (it_call j); try discriminate Qj.
  destruct H as (registered & outcome & clock & _ & _ & _ & El & Er & _ & Hs).
  rewrite El, Er in Hj. exists registered, outcome, clock, applied_at_ms, (ec_kind command), j.
  split; [exact Hj|exact Hs].
Defined.

Lemma reconciler_reports_honest_witness :
  ∃ receipt cur,
    ec_view (rw_effects rec_demo_attempt.1.2)
      !! effect_key (es_id (pq_snapshot rec_demo_prepared)) (tenant_id local_process) = Some cur ∧
    ef_status (es_effect cur) = EsApplied (pq_attempt rec_demo_prepared) receipt.
Proof.
  pose proof (reconciler_reports_honest _ _ _ _ _ _ _ _ rec_scanned_inv rec_demo_attempted) as [_ H].
  rewrite (proj1 (proj2 rec_demo_branches)) in H. destruct H as (receipt & cur & _ & H1 & H2).
  exists receipt, cur. split; [exact H1|exact H2].
Defined.

Lemma rec_demo_one : rs_prepared rec_demo_plan = [rec_demo_prepared].
Proof.
  destruct rec_demo_branches as (H & _). unfold rec_demo_prepared.
  by destruct (rs_prepared rec_demo_plan) as [|pq []].
Qed.

Lemma reconciler_sweep_complete_witness :
  ra_outcome rec_demo_attempt.2 = RaApplied ∧
  Forall2 (λ att snapshot, ra_effect_id att = es_id snapshot)
    (rp_attempts (rec_sweep_report rec_demo_plan (idle rec_demo_attempt.2)))
    (pg_effects (rs_page rec_demo_plan)).
Proof.
  split; [exact (proj1 (proj2 rec_demo_branches))|].
  destruct (reconciler_sweep_complete rec_demo rec_demo_run local_process _ rec_demo_plan
    (idle rec_demo_attempt.2) (runs_follows _ _ _ _ _ _ _ rec_demo_scanned)) as (_ & _ & H).
  - rewrite rec_demo_one. unfold rec_sweep_start. eapply pool_one; [vm_compute; discriminate|].
    exact (runs_follows _ _ _ _ _ _ _ rec_demo_attempted).
  - destruct (H eq_refl) as [_ HF]. eapply Forall2_impl; [exact HF|]. by intros ? ? [].
Defined.

(** The settlement of the demonstration, sent again. *)
Definition rec_command : EffectCommand :=
  match rec_demo_attempt.1.1 !! 5%nat with
  | Some {| it_call := QaApply _ _ command _ _ |} => command
  | _ => demo_reconcile
  end.
Definition rec_apply (w : world) : rec_answer (QaApply (lit "e1") 3 rec_command 700 local_process) * world :=
  rec_serve w (QaApply (lit "e1") 3 rec_command 700 local_process).
Definition rec_once : world := (rec_apply rec_world).2.

Definition rec_done : EffectCommandResult :=
  {| ecr_snapshot := {| es_id := []; es_tenant_id := None; es_revision := 0; es_effect := demo_effect |};
     ecr_outcome := EffDuplicate |}.
Definition rec_result (w : world) : EffectCommandResult :=
  match (rec_apply w).1 with Ok res => res | Err _ => rec_done end.

Lemma rec_applied_twice :
  is_ok (rec_apply rec_world).1 = true ∧ is_ok (rec_apply rec_once).1 = true ∧
  ecr_outcome (rec_result rec_world) = EffApplied ∧
  reconciles (ec_kind rec_command) = Some (lit "l1", 1%Z).
Proof. vm_compute. split_and!; reflexivity. Qed.

Lemma rec_apply_handles w :
  is_ok (rec_apply w).1 = true →
  rec_handles w (QaApply (lit "e1") 3 rec_command 700 local_process) (Ok (rec_result w)) (rec_apply w).2.
Proof.
  intros Hok. pose proof (rec_serve_handles w (QaApply (lit "e1") 3 rec_command 700 local_process) eq_refl) as H.
  fold (rec_apply w) in H. unfold rec_result. destruct (rec_apply w) as [[res|e] w']; [exact H|discriminate Hok].
Qed.

Lemma reconciler_settles_once_witness :
  ecr_outcome (rec_result rec_world) = EffApplied ∧ ecr_outcome (rec_result rec_once) = EffDuplicate.
Proof.
  destruct rec_applied_twice as (H1 & H2 & Ho & Hk). split; [exact Ho|].
  destruct (reconciler_settles_once _ _ _ _ _ _ _ _ _ _ _ _ _ _ _ _ _ _ rec_world_inv
    (rec_apply_handles _ H1) Hk Ho (rtc_refl _ _) eq_refl (rec_apply_handles _ H2) Hk) as [H _].
  exact H.
Defined.
