(* ===== verification/Approval.v ===== *)
(** The records of the durable Approval Inbox, src/src/approval/mod.rs, with
    the kernel types a request is made of (src/src/kernel/types.rs): their
    validation, and the transitions of one record.

    [now_ms()] is an argument of what reads the clock.  The encoding of
    requests and records is serde's, a [Serialize] instance. *)

From Stdlib Require Import ZArith Lia.
From stdpp Require Import base tactics list gmap numbers strings option.
From stdpp Require Import list.
From S2P Require Import Prelude Kernel Digest Json.

(** * Constants *)

Definition APPROVAL_INBOX_SCHEMA_VERSION : Z := 3.
Definition PREVIOUS_APPROVAL_INBOX_SCHEMA_VERSION : Z := 2.
Definition MAX_APPROVAL_RECORD_BYTES : Z := 525312.
Definition MAX_APPROVAL_REASON_BYTES : Z := 4096.
Definition APPROVAL_TERMINAL_RECORD_RESERVE_BYTES : Z := MAX_APPROVAL_REASON_BYTES + 1024.
Definition MAX_APPROVAL_PAGE : Z := 16.
Definition MAX_APPROVALS_PER_TURN : Z := 256.

(** * Kernel types *)

Abbreviation ApprovalId := str (only parsing).
Abbreviation ThreadId := str (only parsing).
Abbreviation TurnId := str (only parsing).
Abbreviation ApprovalActor := ActorIdentity (only parsing).

Inductive RiskLevel := RiskLow | RiskMedium | RiskHigh | RiskCritical.

Inductive ApprovalDecision :=
| DecisionApprove
| DecisionDeny (reason : str).

Record ToolDescriptor := {
  td_name : str;
  td_description : str;
  td_input_schema : Json;
}.

Record ToolAuthorization := {
  ta_thread_id : ThreadId;
  ta_turn_id : TurnId;
  ta_call_id : str;
  ta_descriptor : ToolDescriptor;
  ta_origin : CapabilityOrigin;
  ta_input : Json;
}.

Record ApprovalRequest := {
  aq_id : ApprovalId;
  aq_requested_by : ApprovalActor;
  aq_authorization : ToolAuthorization;
  aq_reason : str;
  aq_risk : RiskLevel;
}.

#[global] Instance RiskLevel_eq : EqDecision RiskLevel.
Proof. solve_decision. Defined.
#[global] Instance ApprovalDecision_eq : EqDecision ApprovalDecision.
Proof. solve_decision. Defined.
#[global] Instance ToolDescriptor_eq : EqDecision ToolDescriptor.
Proof. solve_decision. Defined.
#[global] Instance ToolAuthorization_eq : EqDecision ToolAuthorization.
Proof. solve_decision. Defined.
#[global] Instance ApprovalRequest_eq : EqDecision ApprovalRequest.
Proof. solve_decision. Defined.

(** * Records *)

Inductive ApprovalRecordStatus :=
| RecordPending
| RecordSettled (decision : ApprovalDecision) (decided_by : ApprovalActor)
| RecordOrphaned (reason : str).

Record ApprovalRecord := {
  rec_schema_version : Z;
  rec_request : ApprovalRequest;
  rec_tenant_id : option str;
  rec_status : ApprovalRecordStatus;
  rec_revision : Z;
  rec_requested_at_ms : Z;
  rec_settled_at_ms : option Z;
}.

#[global] Instance ApprovalRecordStatus_eq : EqDecision ApprovalRecordStatus.
Proof. solve_decision. Defined.
#[global] Instance ApprovalRecord_eq : EqDecision ApprovalRecord.
Proof. solve_decision. Defined.

(** [matches!(record.status, Pending)]. *)
Definition record_pending (r : ApprovalRecord) : bool :=
  match rec_status r with RecordPending => true | _ => false end.

Definition approval_status_name (s : ApprovalRecordStatus) : str :=
  match s with
  | RecordPending => lit "pending"
  | RecordSettled _ _ => lit "settled"
  | RecordOrphaned _ => lit "orphaned"
  end.

(** [HarnessError::Approval(format!(..))]. *)
Definition apv (template : string) (args : list arg) : HarnessError := Prelude.Approval (fmt template args).

(** [.map_err(|error| HarnessError::Approval(error.to_string()))]. *)
Definition into_approval (e : HarnessError) : HarnessError := Prelude.Approval (error_text e).

(** * Validation *)

Definition approval_validate_identity (kind : string) (value : str) : result () :=
  reject_if (str_is_empty value || (256 <? str_len value)%Z || any_control value)
    (apv "{} identity must be 1-256 non-control bytes" [ALit kind]).

Definition approval_validate_reason (kind : string) (reason : str) : result () :=
  reject_if (trim_is_empty reason || (MAX_APPROVAL_REASON_BYTES <? str_len reason)%Z
             || any_control reason)
    (apv "{} reason must be 1-{} non-control bytes" [ALit kind; ANum MAX_APPROVAL_REASON_BYTES]).

Definition validate_decision (decision : ApprovalDecision) : result () :=
  match decision with
  | DecisionApprove => Ok ()
  | DecisionDeny reason => approval_validate_reason "denial" reason
  end.

Definition validate_record_actor (kind : string) (actor : ApprovalActor) : result () :=
  actor_validate_shape actor kind.
Definition validate_current_actor (kind : string) (actor : ApprovalActor) : result () :=
  actor_validate_current actor kind.

Definition approval_validate_authority (authority : AuthorityContext) : result () :=
  map_err into_approval (authority_validate_current authority "approval authority").

Definition approval_validate_page (limit : Z) : result () :=
  reject_if (negb (in_range 1 MAX_APPROVAL_PAGE limit))
    (apv "approval page limit must be 1-{}" [ANum MAX_APPROVAL_PAGE]).

Definition approval_json_error (kind : string) (maximum : Z) (error : BoundedJsonError)
    : HarnessError :=
  match error with
  | LimitExceeded => apv "{} exceeds {} bytes" [ALit kind; ANum maximum]
  | CannotEncode => apv "{} cannot be encoded" [ALit kind]
  end.

(** A bounded result, with its error translated. *)
Definition bounded_result {A} (r : bounded A) (e : BoundedJsonError → HarnessError) : result A :=
  match r with inl x => Err (e x) | inr a => Ok a end.

Section records.
Context `{!Serialize ApprovalRequest, !Serialize ApprovalRecord}.

Definition validate_request (request : ApprovalRequest) : result () :=
  let authorization := aq_authorization request in
  let descriptor := ta_descriptor authorization in
  _ ← approval_validate_identity "approval" (aq_id request);
  _ ← validate_record_actor "approval requester" (aq_requested_by request);
  _ ← approval_validate_identity "thread" (ta_thread_id authorization);
  _ ← approval_validate_identity "turn" (ta_turn_id authorization);
  _ ← approval_validate_identity "tool call" (ta_call_id authorization);
  _ ← validate_capability_name "approval Tool" (td_name descriptor);
  _ ← approval_validate_reason "Policy" (aq_reason request);
  _ ← reject_if (trim_is_empty (td_description descriptor))
        (apv "approval Tool description is empty" []);
  _ ← for_each (λ p : string * Json,
         bounded_result (validate_value_shape p.2)
           (λ _, apv "{} exceeds the supported JSON depth or node count" [ALit p.1]))
        [("approval Tool input schema"%string, td_input_schema descriptor);
         ("approval Tool input"%string, ta_input authorization)];
  _ ← bounded_result (bounded_serialized_size request MAX_APPROVAL_RECORD_BYTES)
        (approval_json_error "approval request" MAX_APPROVAL_RECORD_BYTES);
  Ok ().

Definition validate_current_request (request : ApprovalRequest) : result () :=
  _ ← validate_request request;
  validate_current_actor "approval requester" (aq_requested_by request).

Definition validate_submission_authority (request : ApprovalRequest) (authority : AuthorityContext)
    : result () :=
  _ ← approval_validate_authority authority;
  reject_if (bool_decide (aq_requested_by request ≠ actor authority))
    (apv "approval requester does not match submitting authority" []).

(** The [match] of [validate_record] on the lifecycle. *)
Definition validate_lifecycle (r : ApprovalRecord) : result () :=
  match rec_status r, rec_settled_at_ms r with
  | RecordPending, None => Ok ()
  | RecordSettled decision decided_by, Some _ =>
      _ ← validate_decision decision;
      _ ← validate_record_actor "approval settler" decided_by;
      reject_if (bool_decide (aq_requested_by (rec_request r) = decided_by)
                 && bool_decide (decided_by ≠ UnattributedLegacy))
        (apv "approval requester and settler identities are equal" [])
  | RecordOrphaned reason, Some _ => approval_validate_reason "orphan" reason
  | _, _ => Err (apv "approval status and settlement timestamp disagree" [])
  end.

(** The byte ceiling of a record: a pending one keeps the terminal reserve. *)
Definition record_ceiling (r : ApprovalRecord) : Z :=
  if record_pending r then MAX_APPROVAL_RECORD_BYTES - APPROVAL_TERMINAL_RECORD_RESERVE_BYTES
  else MAX_APPROVAL_RECORD_BYTES.

Definition validate_record (r : ApprovalRecord) : result () :=
  _ ← reject_if (negb (rec_schema_version r =? APPROVAL_INBOX_SCHEMA_VERSION)%Z
                 || (rec_revision r =? 0)%Z)
        (apv "approval record has unsupported schema or revision" []);
  _ ← validate_request (rec_request r);
  _ ← match rec_tenant_id r with
      | Some tenant => map_err into_approval (validate_tenant_id tenant)
      | None => Ok ()
      end;
  _ ← reject_if (bool_decide (aq_requested_by (rec_request r) = UnattributedLegacy) && record_pending r)
        (apv "legacy unattributed approval request cannot remain pending" []);
  _ ← validate_lifecycle r;
  _ ← bounded_result (bounded_serialized_size r (record_ceiling r))
        (approval_json_error "approval record lifecycle" (record_ceiling r));
  Ok ().

(** * Transitions of a record *)

Definition new_record (request : ApprovalRequest) (tenant : option str) (now_ms : Z)
    : ApprovalRecord :=
  {| rec_schema_version := APPROVAL_INBOX_SCHEMA_VERSION;
     rec_request := request;
     rec_tenant_id := tenant;
     rec_status := RecordPending;
     rec_revision := 1;
     rec_requested_at_ms := now_ms;
     rec_settled_at_ms := None |}.

Definition matching_request (existing : ApprovalRecord) (request : ApprovalRequest)
    (tenant : option str) : result ApprovalRecord :=
  if bool_decide (rec_request existing = request) && bool_decide (rec_tenant_id existing = tenant)
  then Ok existing
  else Err (apv "approval {} was reused with different content" [AStr (aq_id request)]).

(** The terminal successor of a record. *)
Definition terminal_record (r : ApprovalRecord) (revision : Z) (status : ApprovalRecordStatus)
    (now_ms : Z) : ApprovalRecord :=
  {| rec_schema_version := rec_schema_version r;
     rec_request := rec_request r;
     rec_tenant_id := rec_tenant_id r;
     rec_status := status;
     rec_revision := revision;
     rec_requested_at_ms := rec_requested_at_ms r;
     rec_settled_at_ms := Some now_ms |}.

(** [settle_record]; the state is the record behind the reference. *)
Definition settle_record (expected_revision : Z) (decision : ApprovalDecision)
    (decided_by : ApprovalActor) (now_ms : Z) : M ApprovalRecord ApprovalRecord :=
  record ← (get : M ApprovalRecord ApprovalRecord);
  let id := aq_id (rec_request record) in
  _ ← lift (reject_if (negb (rec_revision record =? expected_revision)%Z)
              (ApprovalConflict id expected_revision (rec_revision record)));
  _ ← lift (reject_if (negb (record_pending record)) (apv "approval {} is already terminal" [AStr id]));
  _ ← lift (validate_current_actor "approval settler" decided_by);
  _ ← lift (reject_if (bool_decide (aq_requested_by (rec_request record) = decided_by))
              (apv "approval {} requester cannot settle the same request" [AStr id]));
  revision ← lift (ok_or (checked_add u64_max (rec_revision record) 1)
                     (apv "approval revision overflow" []));
  let candidate := terminal_record record revision (RecordSettled decision decided_by) now_ms in
  _ ← lift (validate_record candidate);
  _ ← put candidate;
  mret candidate.

(** [orphan_record], likewise. *)
Definition orphan_record (reason : str) (now_ms : Z) : M ApprovalRecord () :=
  record ← (get : M ApprovalRecord ApprovalRecord);
  if negb (record_pending record) then mret ()
  else
    revision ← lift (ok_or (checked_add u64_max (rec_revision record) 1)
                       (apv "approval revision overflow" []));
    let candidate := terminal_record record revision (RecordOrphaned reason) now_ms in
    _ ← lift (validate_record candidate);
    put candidate.

(** The records of the Turn of a request, in its tenant. *)
Definition same_turn (request : ApprovalRequest) (tenant : option str) (r : ApprovalRecord) : bool :=
  bool_decide (rec_tenant_id r = tenant)
  && bool_decide (ta_thread_id (aq_authorization (rec_request r))
                  = ta_thread_id (aq_authorization request))
  && bool_decide (ta_turn_id (aq_authorization (rec_request r))
                  = ta_turn_id (aq_authorization request)).

Definition turn_exceeded : HarnessError :=
  apv "Turn exceeds {} approval records" [ANum MAX_APPROVALS_PER_TURN].

Definition enforce_turn_capacity (records : list ApprovalRecord) (request : ApprovalRequest)
    (tenant : option str) : result () :=
  reject_if (MAX_APPROVALS_PER_TURN <=? len (List.filter (same_turn request tenant) records))%Z
    turn_exceeded.

(** * Encoding *)

Definition encode_record (record : ApprovalRecord) : result str :=
  _ ← validate_record record;
  bounded_result (to_bounded_json_vec record MAX_APPROVAL_RECORD_BYTES)
    (approval_json_error "approval record" MAX_APPROVAL_RECORD_BYTES).

Definition decode_record `{!Deserialize ApprovalRecord} (encoded : str) : result ApprovalRecord :=
  _ ← reject_if (MAX_APPROVAL_RECORD_BYTES <? str_len encoded)%Z
        (apv "stored approval record exceeds {} bytes" [ANum MAX_APPROVAL_RECORD_BYTES]);
  record ← ok_or (from_json encoded) (apv "{}" []);
  _ ← validate_record record;
  Ok record.
End records.
