(* ===== verification/ApprovalInbox.v ===== *)
(** The Approval Inboxes of src/src/approval/mod.rs: the trait with its default
    methods, the in-memory inbox, the SQLite inbox with the validation of its
    store.

    The loop of [slice::binary_search_by] that [pending_as] calls is the one
    of Rust's standard library.  Every statement of the SQLite inbox may
    fail, see Sqlite.v. *)

From Stdlib Require Import ZArith Lia.
From stdpp Require Import sorting base tactics list gmap numbers strings option.
From stdpp Require Import list.
From S2P Require Import Prelude Ordering Kernel Digest Json Sqlite Approval.

(** * Binary search *)

(** [slice::binary_search_by]: the bounds of the search are [base] and
    [base + size]; every step halves the size. *)
Fixpoint binary_search_loop {A} (fuel : nat) (f : A → comparison) (l : list A) (base size : nat)
    : nat :=
  match fuel with
  | O => base
  | S fuel =>
      if (size <=? 1)%nat then base
      else
        let half := Nat.div2 size in
        let mid := (base + half)%nat in
        let base := match f <$> l !! mid with Some Gt => base | _ => mid end in
        binary_search_loop fuel f l base (size - half)
  end.

(** [inl i] is [Ok(i)], a match; [inr i] is [Err(i)], the insertion point. *)
Definition binary_search_by {A} (f : A → comparison) (l : list A) : nat + nat :=
  match l with
  | [] => inr 0%nat
  | _ =>
      let base := binary_search_loop (length l) f l 0 (length l) in
      match f <$> l !! base with
      | Some Eq => inl base
      | Some Lt => inr (S base)
      | _ => inr base
      end
  end.

(** [Vec::insert]. *)
Definition vec_insert {A} (i : nat) (x : A) (l : list A) : list A := take i l ++ x :: drop i l.

(** * The trait *)

Class ApprovalInbox (W : Type) := {
  approval_submit_as : ApprovalRequest → Z → AuthorityContext → M W ApprovalRecord;
  approval_get_as : ApprovalId → AuthorityContext → M W (option ApprovalRecord);
  approval_pending_as : Z → AuthorityContext → M W (list ApprovalRecord);
  approval_settle_as : ApprovalId → Z → ApprovalDecision → Z → AuthorityContext → M W ApprovalRecord;
  approval_orphan_turn_as : ThreadId → TurnId → str → (nat → Z) → AuthorityContext → M W Z;
}.

Section defaults.
Context {W : Type} `{!ApprovalInbox W}.

Definition approval_submit (request : ApprovalRequest) (now_ms : Z) : M W ApprovalRecord :=
  authority ← lift (AuthorityContext_new (aq_requested_by request) None);
  approval_submit_as request now_ms authority.

Definition approval_get (id : ApprovalId) : M W (option ApprovalRecord) :=
  approval_get_as id local_process.

Definition approval_pending (limit : Z) : M W (list ApprovalRecord) :=
  approval_pending_as limit local_process.

Definition approval_settle (id : ApprovalId) (expected_revision : Z) (decision : ApprovalDecision)
    (decided_by : ApprovalActor) (now_ms : Z) : M W ApprovalRecord :=
  authority ← lift (AuthorityContext_new decided_by None);
  approval_settle_as id expected_revision decision now_ms authority.

Definition approval_orphan_turn (thread : ThreadId) (turn : TurnId) (reason : str) (clock : nat → Z)
    : M W Z :=
  approval_orphan_turn_as thread turn reason clock local_process.
End defaults.

Definition missing_approval (id : ApprovalId) : HarnessError :=
  apv "approval {} does not exist" [AStr id].

(** The order of the pending pages, [(requested_at_ms, id)]. *)
Definition pending_cmp (k k' : Z * ApprovalId) : comparison :=
  then_with (k.1 ?= k'.1)%Z (str_cmp k.2 k'.2).
Definition pending_key (r : ApprovalRecord) : Z * ApprovalId :=
  (rec_requested_at_ms r, aq_id (rec_request r)).

(** The filter of [pending_as]. *)
Definition pending_of (tenant : option str) (r : ApprovalRecord) : bool :=
  bool_decide (rec_tenant_id r = tenant) && record_pending r.

(** The filter of [orphan_turn_as]. *)
Definition pending_in_turn (tenant : option str) (thread : ThreadId) (turn : TurnId)
    (r : ApprovalRecord) : bool :=
  bool_decide (rec_tenant_id r = tenant)
  && bool_decide (ta_thread_id (aq_authorization (rec_request r)) = thread)
  && bool_decide (ta_turn_id (aq_authorization (rec_request r)) = turn)
  && record_pending r.

(** The bounded selection of the in-memory [pending_as], one record. *)
Definition select_pending (limit : Z) (selected : list ApprovalRecord) (record : ApprovalRecord)
    : list ApprovalRecord :=
  let position :=
    match binary_search_by (λ existing, pending_cmp (pending_key existing) (pending_key record))
            selected with
    | inl i | inr i => i
    end in
  if (Z.of_nat position <? limit)%Z
  then
    let selected := vec_insert position record selected in
    if (limit <? len selected)%Z then take (pred (length selected)) selected else selected
  else selected.

(** * [MemoryApprovalInbox] *)

Abbreviation MemoryApprovals := (gmap ApprovalId ApprovalRecord).

Section inbox.
Context `{!Serialize ApprovalRequest, !Serialize ApprovalRecord}.

Definition mem_approval_submit_as (request : ApprovalRequest) (now_ms : Z)
    (authority : AuthorityContext) : M MemoryApprovals ApprovalRecord :=
  _ ← lift (validate_current_request request);
  _ ← lift (validate_submission_authority request authority);
  records ← (get : M MemoryApprovals MemoryApprovals);
  match records !! aq_id request with
  | Some existing => lift (matching_request existing request (tenant_id authority))
  | None =>
      _ ← lift (enforce_turn_capacity (bt_values records) request (tenant_id authority));
      let record := new_record request (tenant_id authority) now_ms in
      _ ← lift (validate_record record);
      _ ← put (<[aq_id (rec_request record) := record]> records);
      mret record
  end.

(** [.filter(|record| record.tenant_id() == authority.tenant_id())]. *)
Definition in_tenant (tenant : option str) (o : option ApprovalRecord) : option ApprovalRecord :=
  r ← o; if bool_decide (rec_tenant_id r = tenant) then Some r else None.

Definition mem_approval_get_as (id : ApprovalId) (authority : AuthorityContext)
    : M MemoryApprovals (option ApprovalRecord) :=
  _ ← lift (approval_validate_identity "approval" id);
  _ ← lift (approval_validate_authority authority);
  records ← (get : M MemoryApprovals MemoryApprovals);
  mret (in_tenant (tenant_id authority) (records !! id)).

Definition mem_approval_pending_as (limit : Z) (authority : AuthorityContext)
    : M MemoryApprovals (list ApprovalRecord) :=
  _ ← lift (approval_validate_page limit);
  _ ← lift (approval_validate_authority authority);
  records ← (get : M MemoryApprovals MemoryApprovals);
  mret (fold_left (select_pending limit)
          (List.filter (pending_of (tenant_id authority)) (bt_values records)) []).

Definition mem_approval_settle_as (id : ApprovalId) (expected_revision : Z)
    (decision : ApprovalDecision) (now_ms : Z) (authority : AuthorityContext)
    : M MemoryApprovals ApprovalRecord :=
  _ ← lift (approval_validate_identity "approval" id);
  _ ← lift (validate_decision decision);
  _ ← lift (approval_validate_authority authority);
  records ← (get : M MemoryApprovals MemoryApprovals);
  record ← lift (ok_or (in_tenant (tenant_id authority) (records !! id)) (missing_approval id));
  let settled := settle_record expected_revision decision (actor authority) now_ms record in
  _ ← put (<[id := settled.1]> records);
  lift settled.2.

(** The loop of [orphan_turn_as] over the records, in key order; [clock i] is
    what [now_ms()] returns at the [i]-th record it orphans. *)
Fixpoint mem_orphan_loop (reason : str) (clock : nat → Z) (i : nat)
    (l : list (ApprovalId * ApprovalRecord)) (changed : Z) : M MemoryApprovals Z :=
  match l with
  | [] => mret changed
  | (key, record) :: l =>
      let orphaned := orphan_record reason (clock i) record in
      _ ← modify (<[key := orphaned.1]>);
      _ ← lift orphaned.2;
      mem_orphan_loop reason clock (S i) l (saturating_add usize_max changed 1)
  end.

Definition mem_approval_orphan_turn_as (thread : ThreadId) (turn : TurnId) (reason : str)
    (clock : nat → Z) (authority : AuthorityContext) : M MemoryApprovals Z :=
  _ ← lift (approval_validate_identity "thread" thread);
  _ ← lift (approval_validate_identity "turn" turn);
  _ ← lift (approval_validate_reason "orphan" reason);
  _ ← lift (approval_validate_authority authority);
  records ← (get : M MemoryApprovals MemoryApprovals);
  mem_orphan_loop reason clock 0
    (List.filter (λ p : ApprovalId * ApprovalRecord, pending_in_turn (tenant_id authority) thread turn p.2)
       (bt_iter records)) 0.

#[global] Instance MemoryApprovalInbox : ApprovalInbox MemoryApprovals := {|
  approval_submit_as := mem_approval_submit_as;
  approval_get_as := mem_approval_get_as;
  approval_pending_as := mem_approval_pending_as;
  approval_settle_as := mem_approval_settle_as;
  approval_orphan_turn_as := mem_approval_orphan_turn_as;
|}.
End inbox.

(** * [SqliteApprovalInbox] *)

(** A row of [approval_records]; its primary key is the key of the map. *)
Record ApprovalRow := {
  ax_tenant_id : option str;
  ax_thread_id : str;
  ax_turn_id : str;
  ax_status : str;
  ax_revision : Z;
  ax_requested_at_ms : Z;
  ax_record_json : str;
}.

Abbreviation ApprovalTable := (gmap str ApprovalRow).
Abbreviation SqliteApprovals := (Connection ApprovalTable).

Definition approval_to_sql_u64 (kind : string) (value : Z) : result Z :=
  i64_try_from value (apv "{} exceeds SQLite INTEGER" [ALit kind]).

(** The columns [read_indexed_record] returns. *)
Record IndexedRecord := {
  ix_status : str;
  ix_revision : Z;
  ix_tenant_id : option str;
  ix_thread_id : str;
  ix_turn_id : str;
  ix_encoded : str;
}.

Definition read_indexed_record (row : ApprovalRow) : result IndexedRecord :=
  let text maximum kind value := bounded_text Prelude.Approval maximum kind value in
  status ← text 8%Z "stored approval status"%string (ax_status row);
  tenant ← bounded_optional_text Prelude.Approval 128 "stored approval tenant identity"
             (ax_tenant_id row);
  thread ← text 256%Z "stored approval Thread identity"%string (ax_thread_id row);
  turn ← text 256%Z "stored approval Turn identity"%string (ax_turn_id row);
  encoded ← text MAX_APPROVAL_RECORD_BYTES "stored approval record"%string (ax_record_json row);
  Ok {| ix_status := status; ix_revision := ax_revision row; ix_tenant_id := tenant;
        ix_thread_id := thread; ix_turn_id := turn; ix_encoded := encoded |}.

Section sqlite.
Context `{!Serialize ApprovalRequest, !Serialize ApprovalRecord, !Deserialize ApprovalRecord}.

Definition decode_indexed_record (indexed : IndexedRecord) : result ApprovalRecord :=
  record ← decode_record (ix_encoded indexed);
  revision ← u64_try_from (ix_revision indexed) (apv "invalid stored approval revision" []);
  let authorization := aq_authorization (rec_request record) in
  _ ← reject_if (bool_decide (ix_status indexed ≠ approval_status_name (rec_status record))
                 || negb (revision =? rec_revision record)%Z
                 || bool_decide (ix_tenant_id indexed ≠ rec_tenant_id record)
                 || bool_decide (ix_thread_id indexed ≠ ta_thread_id authorization)
                 || bool_decide (ix_turn_id indexed ≠ ta_turn_id authorization))
        (apv "approval record indexes do not match its body" []);
  Ok record.

(** [WHERE approval_id = ?1 AND tenant_id IS ?2]. *)
Definition approval_row_of (id : ApprovalId) (tenant : option str) (t : ApprovalTable) : option ApprovalRow :=
  row ← t !! id; if bool_decide (ax_tenant_id row = tenant) then Some row else None.

(** The query by identity, [read_indexed_record], [optional]. *)
Definition query_indexed (id : ApprovalId) (tenant : option str)
    : M SqliteApprovals (option IndexedRecord) :=
  t ← (select Prelude.Approval : M SqliteApprovals ApprovalTable);
  match approval_row_of id tenant t with
  | None => mret None
  | Some row => indexed ← lift (read_indexed_record row); mret (Some indexed)
  end.

(** The [CHECK] constraints of the table. *)
Definition approval_row_checks (row : ApprovalRow) : bool :=
  bool_decide (ax_status row ∈ [lit "pending"; lit "settled"; lit "orphaned"])
  && (0 <? ax_revision row)%Z.

(** [INSERT INTO approval_records]: the new table, or a violated constraint. *)
Definition insert_approval (id : ApprovalId) (row : ApprovalRow) (t : ApprovalTable)
    : option ApprovalTable :=
  match t !! id with
  | Some _ => None
  | None => if approval_row_checks row then Some (<[id := row]> t) else None
  end.

Definition approval_constraint : HarnessError := apv "constraint failed" [].

(** [UPDATE approval_records SET status, revision, record_json] of the row of
    an identity and tenant that satisfies the rest of the [WHERE] clause: the
    new table and the number of changed rows. *)
Definition update_approval (id : ApprovalId) (tenant : option str) (where_ : ApprovalRow → bool)
    (status : str) (revision : Z) (json : str) (t : ApprovalTable)
    : option (ApprovalTable * Z) :=
  match approval_row_of id tenant t with
  | Some row =>
      if where_ row
      then
        let row' := {| ax_tenant_id := ax_tenant_id row; ax_thread_id := ax_thread_id row;
                       ax_turn_id := ax_turn_id row; ax_status := status; ax_revision := revision;
                       ax_requested_at_ms := ax_requested_at_ms row; ax_record_json := json |} in
        if approval_row_checks row' then Some (<[id := row']> t, 1%Z) else None
      else Some (t, 0%Z)
  | None => Some (t, 0%Z)
  end.

Definition sql_approval_submit_as (request : ApprovalRequest) (now_ms : Z)
    (authority : AuthorityContext) : M SqliteApprovals ApprovalRecord :=
  _ ← lift (validate_current_request request);
  _ ← lift (validate_submission_authority request authority);
  transaction_return Prelude.Approval
    (found ← query_indexed (aq_id request) (tenant_id authority);
     match found with
     | Some indexed =>
         existing ← lift (decode_indexed_record indexed);
         record ← lift (matching_request existing request (tenant_id authority));
         mret (inl record)
     | None =>
         let authorization := aq_authorization request in
         t ← (select Prelude.Approval : M SqliteApprovals ApprovalTable);
         let count := len (List.filter (λ row,
           bool_decide (ax_tenant_id row = tenant_id authority)
           && bool_decide (ax_thread_id row = ta_thread_id authorization)
           && bool_decide (ax_turn_id row = ta_turn_id authorization)) (bt_values t)) in
         _ ← lift (reject_if (MAX_APPROVALS_PER_TURN <=? count)%Z turn_exceeded);
         let record := new_record request (tenant_id authority) now_ms in
         encoded ← lift (encode_record record);
         revision ← lift (approval_to_sql_u64 "approval revision" (rec_revision record));
         requested ← lift (approval_to_sql_u64 "approval timestamp" (rec_requested_at_ms record));
         let row := {| ax_tenant_id := rec_tenant_id record;
                       ax_thread_id := ta_thread_id authorization;
                       ax_turn_id := ta_turn_id authorization;
                       ax_status := lit "pending"; ax_revision := revision;
                       ax_requested_at_ms := requested; ax_record_json := encoded |} in
         t' ← lift (ok_or (insert_approval (aq_id (rec_request record)) row t) approval_constraint);
         _ ← store Prelude.Approval t';
         mret (inr record)
     end).

Definition sql_approval_get_as (id : ApprovalId) (authority : AuthorityContext)
    : M SqliteApprovals (option ApprovalRecord) :=
  _ ← lift (approval_validate_identity "approval" id);
  _ ← lift (approval_validate_authority authority);
  found ← query_indexed id (tenant_id authority);
  match found with
  | None => mret None
  | Some indexed => record ← lift (decode_indexed_record indexed); mret (Some record)
  end.

(** The key of [ORDER BY requested_at_ms, approval_id]. *)
Definition row_pending_key (p : ApprovalId * ApprovalRow) : Z * ApprovalId :=
  (ax_requested_at_ms p.2, p.1).

(** One row of the page. *)
Definition read_pending_row (p : ApprovalId * ApprovalRow) : result ApprovalRecord :=
  indexed ← read_indexed_record p.2;
  record ← decode_indexed_record indexed;
  _ ← reject_if (negb (record_pending record))
        (apv "pending approval index returned a terminal record" []);
  Ok record.

Definition sql_approval_pending_as (limit : Z) (authority : AuthorityContext)
    : M SqliteApprovals (list ApprovalRecord) :=
  _ ← lift (approval_validate_page limit);
  _ ← lift (approval_validate_authority authority);
  _ ← sql_call Prelude.Approval;
  limit ← lift (i64_try_from limit (apv "approval page exceeds SQLite INTEGER" []));
  t ← (select Prelude.Approval : M SqliteApprovals ApprovalTable);
  let page := take (Z.to_nat limit) (key_sort pending_cmp row_pending_key
    (List.filter (λ p : ApprovalId * ApprovalRow, bool_decide (ax_tenant_id p.2 = tenant_id authority)
                      && bool_decide (ax_status p.2 = lit "pending")) (bt_iter t))) in
  lift (collect read_pending_row page).

Definition sql_approval_settle_as (id : ApprovalId) (expected_revision : Z)
    (decision : ApprovalDecision) (now_ms : Z) (authority : AuthorityContext)
    : M SqliteApprovals ApprovalRecord :=
  _ ← lift (approval_validate_identity "approval" id);
  _ ← lift (validate_decision decision);
  _ ← lift (approval_validate_authority authority);
  transaction Prelude.Approval
    (found ← query_indexed id (tenant_id authority);
     indexed ← lift (ok_or found (missing_approval id));
     record ← lift (decode_indexed_record indexed);
     let settling := settle_record expected_revision decision (actor authority) now_ms record in
     settled ← lift settling.2;
     encoded ← lift (encode_record settled);
     revision ← lift (approval_to_sql_u64 "approval revision" (rec_revision settled));
     expected ← lift (approval_to_sql_u64 "expected approval revision" expected_revision);
     t ← (select Prelude.Approval : M SqliteApprovals ApprovalTable);
     updated ← lift (ok_or (update_approval id (tenant_id authority)
                  (λ row, (ax_revision row =? expected)%Z && bool_decide (ax_status row = lit "pending"))
                  (lit "settled") revision encoded t) approval_constraint);
     _ ← store Prelude.Approval updated.1;
     _ ← lift (reject_if (negb (updated.2 =? 1)%Z)
                 (ApprovalConflict id expected_revision (rec_revision settling.1)));
     mret settled).

(** The [for] over the selected identities. *)
Fixpoint sql_orphan_loop (reason : str) (tenant : option str) (clock : nat → Z) (i : nat)
    (ids : list ApprovalId) (changed : Z) : M SqliteApprovals Z :=
  match ids with
  | [] => mret changed
  | id :: ids =>
      found ← query_indexed id tenant;
      indexed ← lift (ok_or found (apv "approval {} disappeared during orphaning" [AStr id]));
      record ← lift (decode_indexed_record indexed);
      let orphaned := orphan_record reason (clock i) record in
      _ ← lift orphaned.2;
      let record := orphaned.1 in
      encoded ← lift (encode_record record);
      revision ← lift (approval_to_sql_u64 "approval revision" (rec_revision record));
      t ← (select Prelude.Approval : M SqliteApprovals ApprovalTable);
      updated ← lift (ok_or (update_approval (aq_id (rec_request record)) tenant
                   (λ row, bool_decide (ax_status row = lit "pending"))
                   (lit "orphaned") revision encoded t) approval_constraint);
      _ ← store Prelude.Approval updated.1;
      sql_orphan_loop reason tenant clock (S i) ids (saturating_add usize_max changed updated.2)
  end.

Definition sql_approval_orphan_turn_as (thread : ThreadId) (turn : TurnId) (reason : str)
    (clock : nat → Z) (authority : AuthorityContext) : M SqliteApprovals Z :=
  _ ← lift (approval_validate_identity "thread" thread);
  _ ← lift (approval_validate_identity "turn" turn);
  _ ← lift (approval_validate_reason "orphan" reason);
  _ ← lift (approval_validate_authority authority);
  transaction Prelude.Approval
    (_ ← sql_call Prelude.Approval;
     t ← (select Prelude.Approval : M SqliteApprovals ApprovalTable);
     ids ← lift (collect (λ p : ApprovalId * ApprovalRow,
              bounded_text Prelude.Approval 256 "stored approval identity" p.1)
            (take (Z.to_nat MAX_APPROVALS_PER_TURN)
               (List.filter (λ p : ApprovalId * ApprovalRow,
                  bool_decide (ax_tenant_id p.2 = tenant_id authority)
                  && bool_decide (ax_thread_id p.2 = thread)
                  && bool_decide (ax_turn_id p.2 = turn)
                  && bool_decide (ax_status p.2 = lit "pending")) (bt_iter t))));
     sql_orphan_loop reason (tenant_id authority) clock 0 ids 0).

#[global] Instance SqliteApprovalInbox : ApprovalInbox SqliteApprovals := {|
  approval_submit_as := sql_approval_submit_as;
  approval_get_as := sql_approval_get_as;
  approval_pending_as := sql_approval_pending_as;
  approval_settle_as := sql_approval_settle_as;
  approval_orphan_turn_as := sql_approval_orphan_turn_as;
|}.
End sqlite.

(** * Opening and validating a store *)

(** The two tables of the database file, when they exist: the columns of
    [approval_records] by name and type with its rows, and the entries of
    [approval_inbox_metadata]. *)
Record ApprovalDatabase := {
  adb_records : option (list (str * str) * ApprovalTable);
  adb_metadata : option (gmap str Z);
}.

Definition approval_migration_required : HarnessError :=
  apv "SQLite Approval Inbox migration required; run `yh approval-migrate <database> <backup>` before opening this store" [].

Definition approval_database_columns : list (str * str) :=
  [ (lit "approval_id", lit "TEXT"); (lit "tenant_id", lit "TEXT"); (lit "thread_id", lit "TEXT");
    (lit "turn_id", lit "TEXT"); (lit "status", lit "TEXT"); (lit "revision", lit "INTEGER");
    (lit "requested_at_ms", lit "INTEGER"); (lit "record_json", lit "TEXT") ].

(** [metadata_schema_sql]: the table, and its row unless there is one. *)
Definition metadata_schema (metadata : option (gmap str Z)) : gmap str Z :=
  let entries := default ∅ metadata in
  match entries !! lit "record_schema" with
  | Some _ => entries
  | None => <[lit "record_schema" := APPROVAL_INBOX_SCHEMA_VERSION]> entries
  end.

Definition approval_validate_current_metadata : M (Connection ApprovalDatabase) () :=
  db ← (select Prelude.Approval : M (Connection ApprovalDatabase) ApprovalDatabase);
  metadata ← lift (ok_or (adb_metadata db) (apv "no such table: approval_inbox_metadata" []));
  _ ← sql_call Prelude.Approval;
  let entries := Z.of_nat (size metadata) in
  let schema := metadata !! lit "record_schema" in
  _ ← lift (reject_if ((entries =? 1)%Z
              && bool_decide (schema = Some PREVIOUS_APPROVAL_INBOX_SCHEMA_VERSION))
              approval_migration_required);
  _ ← lift (reject_if (negb (entries =? 1)%Z
              || bool_decide (schema ≠ Some APPROVAL_INBOX_SCHEMA_VERSION))
              (apv "unsupported SQLite Approval Inbox metadata; expected record schema {}"
                 [ANum APPROVAL_INBOX_SCHEMA_VERSION]));
  _ ← sql_call Prelude.Approval;
  let tenant_columns := List.filter (λ c : str * str,
    bool_decide (c = (lit "tenant_id", lit "TEXT"))) (default [] (fst <$> adb_records db)) in
  lift (reject_if (negb (len tenant_columns =? 1)%Z)
    (apv "SQLite Approval Inbox schema is partial: missing tenant_id projection" [])).

(** [table_exists] of the two tables. *)
Definition records_table_exists : M (Connection ApprovalDatabase) bool :=
  db ← (select Prelude.Approval : M (Connection ApprovalDatabase) ApprovalDatabase);
  mret (bool_decide (is_Some (adb_records db))).
Definition metadata_table_exists : M (Connection ApprovalDatabase) bool :=
  db ← (select Prelude.Approval : M (Connection ApprovalDatabase) ApprovalDatabase);
  mret (bool_decide (is_Some (adb_metadata db))).

Definition approval_validate_or_bootstrap_store : M (Connection ApprovalDatabase) () :=
  records ← records_table_exists;
  metadata ← metadata_table_exists;
  match (records : bool), (metadata : bool) with
  | false, true => lift (Err (apv "SQLite Approval Inbox is partial: metadata exists without records" []))
  | false, false => mret ()
  | true, false => lift (Err approval_migration_required)
  | true, true => approval_validate_current_metadata
  end.

(** [SqliteApprovalInbox::open]; [CREATE INDEX] names columns of the table. *)
Definition approval_sqlite_open (has_parent : bool) (mode : str)
    : M (Connection ApprovalDatabase) SqliteApprovals :=
  _ ← open_file Prelude.Approval has_parent;
  _ ← require_wal Prelude.Approval mode;
  _ ← approval_validate_or_bootstrap_store;
  c ← (get : M (Connection ApprovalDatabase) (Connection ApprovalDatabase));
  let table := default (approval_database_columns, ∅) (adb_records (rows c)) in
  _ ← lift (reject_if (negb (forallb (λ n, bool_decide (lit n ∈ table.1.*1))
               ["tenant_id"; "status"; "requested_at_ms"; "approval_id"; "thread_id"; "turn_id"]%string))
              (apv "no such column" []));
  _ ← store Prelude.Approval {| adb_records := Some table;
                                adb_metadata := Some (metadata_schema (adb_metadata (rows c))) |};
  _ ← approval_validate_current_metadata;
  c ← (get : M (Connection ApprovalDatabase) (Connection ApprovalDatabase));
  mret {| rows := table.2; faults := faults c |}.

(** [SqliteApprovalInbox::validate_existing]. *)
Definition approval_validate_existing : M (Connection ApprovalDatabase) () :=
  _ ← open_read_only Prelude.Approval;
  _ ← sql_call Prelude.Approval;
  approval_validate_or_bootstrap_store.
