(* ===== verification/ApprovalStores.v ===== *)
(** The pending pages of the Approval Inboxes: the binary search of Rust's
    standard library finds the insertion point, and the bounded selection of
    the in-memory inbox is the first records of the sorted list.

    The contract of an Approval Inbox, and the proof that the in-memory and the
    SQLite inbox of src/src/approval/mod.rs meet it, the latter for every
    schedule of statement failures. *)

From Stdlib Require Import ZArith Lia.
From stdpp Require Import sorting base tactics list gmap relations numbers strings option.
From stdpp Require Import list.
From S2P Require Import Prelude Ordering Kernel Digest Json Sqlite Approval ApprovalInbox.

#[global] Instance pending_total_cmp : TotalCmp pending_cmp.
Proof. apply then_total_cmp; [apply _..|]. intros [a b] [c d]. simpl. congruence. Qed.

(** * Binary search *)

Section search.
Context {A : Type} (f : A → comparison) (l1 l2 : list A).
Context (H1 : ∀ x, x ∈ l1 → f x = Lt) (H2 : ∀ x, x ∈ l2 → f x = Gt).

Lemma search_probe i : (i < length (l1 ++ l2))%nat →
  f <$> (l1 ++ l2) !! i = Some (if decide (i < length l1)%nat then Lt else Gt).
Proof using H1 H2.
  intros Hi. destruct (decide (i < length l1)%nat) as [Hlt|Hge].
  - rewrite lookup_app_l by done. destruct (lookup_lt_is_Some_2 l1 i Hlt) as [x Hx]. rewrite Hx. simpl.
    f_equal. apply H1. by eapply list_elem_of_lookup_2.
  - rewrite lookup_app_r by lia. rewrite length_app in Hi.
    destruct (lookup_lt_is_Some_2 l2 (i - length l1)) as [x Hx]; [lia|]. rewrite Hx. simpl.
    f_equal. apply H2. by eapply list_elem_of_lookup_2.
Qed.

(** The loop ends with one candidate: the last element before the insertion
    point, or the first element of the slice. *)
Lemma binary_search_loop_spec fuel base size :
  (1 ≤ size ≤ S fuel)%nat → (base + size ≤ length (l1 ++ l2))%nat →
  (base = 0 ∨ base < length l1)%nat → (length l1 ≤ base + size)%nat →
  let b := binary_search_loop fuel f (l1 ++ l2) base size in
  (b < length (l1 ++ l2))%nat ∧ (b = 0 ∨ b < length l1)%nat ∧ (length l1 ≤ b + 1)%nat.
Proof using H1 H2.
  revert base size. induction fuel as [|fuel IH]; intros base size Hs Hb Hbase Hp; cbn [binary_search_loop]; cbv zeta; [split_and!; lia|].
  destruct (Nat.leb_spec size 1) as [Hle|Hgt]; [split_and!; lia|].
  assert (1 ≤ Nat.div2 size ∧ 2 * Nat.div2 size ≤ size)%nat as [Hh1 Hh2].
  { rewrite Nat.div2_div. pose proof (Nat.div_mod_eq size 2).
    pose proof (Nat.mod_upper_bound size 2). lia. }
  rewrite search_probe by lia. destruct (decide (base + Nat.div2 size < length l1)%nat).
  all: apply IH; lia.
Qed.

(** The search returns the insertion point of an absent key. *)
Lemma binary_search_absent : binary_search_by f (l1 ++ l2) = inr (length l1).
Proof using H1 H2.
  unfold binary_search_by. destruct (l1 ++ l2) as [|x l] eqn:E.
  { apply app_eq_nil in E as [-> ->]. done. }
  rewrite <-E. assert (length (l1 ++ l2) = S (length l)) as El by (by rewrite E).
  pose proof (binary_search_loop_spec (length (l1 ++ l2)) 0 (length (l1 ++ l2))) as H.
  rewrite length_app in *. destruct H as (Hb & Hb0 & Hp); [lia..|].
  rewrite search_probe by (rewrite length_app; lia). destruct (decide _); f_equal; lia.
Qed.
End search.

(** * The bounded selection *)

(** The oldest pending records of a tenant, in page order. *)
Definition oldest_pending (tenant : option str) (v : MemoryApprovals) : list ApprovalRecord :=
  key_sort pending_cmp pending_key (List.filter (pending_of tenant) (bt_values v)).

Lemma select_pending_insert limit (l : list ApprovalRecord) r :
  (0 ≤ limit)%Z → StronglySorted (key_not_after pending_cmp pending_key) l →
  NoDup (pending_key <$> r :: l) →
  select_pending limit (take (Z.to_nat limit) l) r
  = take (Z.to_nat limit) (key_sort pending_cmp pending_key (r :: l)).
Proof.
  intros Hlim Hs Hnd. pose proof Hnd as Hnd'. rewrite fmap_cons in Hnd'.
  apply NoDup_cons in Hnd' as [Hn _].
  destruct (key_sorted_split _ pending_key l r Hs Hn) as (l1 & l2 & -> & H1 & H2).
  rewrite (key_sort_insert pending_cmp pending_key l1 l2 r) by done. set (n := Z.to_nat limit).
  rewrite take_app. unfold select_pending. rewrite (binary_search_absent _ (take n l1)).
  2: { intros x Hx. apply H1. by eapply elem_of_take_sub. }
  2: { intros x Hx%elem_of_take_sub. apply cmp_gt; [apply _|]. by apply H2. }
  rewrite length_take, take_app.
  destruct (decide (length l1 < n)%nat) as [Hlt|Hge].
  - rewrite (take_ge l1) by lia. rewrite Nat.min_r by lia.
    rewrite (proj2 (Z.ltb_lt _ _)) by lia. unfold vec_insert.
    rewrite take_app_length, drop_app_length.
    assert (∃ k, n - length l1 = S k)%nat as [k Hk] by (exists (n - length l1 - 1)%nat; lia).
    rewrite Hk. cbn [take]. unfold len. rewrite length_app. cbn [length]. rewrite length_take.
    destruct (decide (S k ≤ length l2)%nat).
    + rewrite (proj2 (Z.ltb_lt _ _)) by lia. rewrite Nat.min_l by lia.
      replace (pred (length l1 + S (S k)))%nat with (length l1 + S k)%nat by lia.
      rewrite take_app, take_ge by lia. f_equal.
      replace (length l1 + S k - length l1)%nat with (S k) by lia. cbn [take]. f_equal.
      rewrite take_take. f_equal. lia.
    + rewrite (proj2 (Z.ltb_ge _ _)) by lia. by rewrite !(take_ge l2) by lia.
  - rewrite Nat.min_l by lia. rewrite (proj2 (Z.ltb_ge _ _)) by lia.
    replace (n - length l1)%nat with 0%nat by lia. rewrite !take_0. done.
Qed.

Lemma select_pending_fold limit (l acc : list ApprovalRecord) :
  (0 ≤ limit)%Z → NoDup (pending_key <$> l ++ acc) →
  fold_left (select_pending limit) l (take (Z.to_nat limit) (key_sort pending_cmp pending_key acc))
  = take (Z.to_nat limit) (key_sort pending_cmp pending_key (l ++ acc)).
Proof.
  intros Hlim. revert acc. induction l as [|r l IH]; intros acc Hnd; [done|]. simpl.
  assert (NoDup (pending_key <$> l ++ (r :: acc))) as Hnd'.
  { eapply (NoDup_Permutation_proper _ (pending_key <$> r :: l ++ acc)); [|exact Hnd].
    apply fmap_Permutation. symmetry. apply Permutation_middle. }
  assert (NoDup (pending_key <$> r :: acc)) as Hnd2.
  { rewrite fmap_app in Hnd'. by apply NoDup_app in Hnd' as (_ & _ & ?). }
  rewrite select_pending_insert; [|done|apply key_sort_sorted, _|].
  2: { rewrite fmap_cons, key_sort_perm. done. }
  assert (∀ a b : list ApprovalRecord, NoDup (pending_key <$> a) → a ≡ₚ b →
    key_sort pending_cmp pending_key a = key_sort pending_cmp pending_key b) as Heq.
  { intros a b Ha Hab. apply (key_sorted_unique pending_cmp pending_key);
      [apply key_sort_sorted, _..|by rewrite key_sort_perm|by rewrite !key_sort_perm]. }
  rewrite (Heq (r :: key_sort pending_cmp pending_key acc) (r :: acc)).
  - rewrite (IH (r :: acc) Hnd'). f_equal. apply Heq; [done|]. symmetry. apply Permutation_middle.
  - rewrite fmap_cons, key_sort_perm. done.
  - by rewrite key_sort_perm.
Qed.

(** Self-keyed records have distinct page keys. *)
Definition keyed_by_id (v : MemoryApprovals) : Prop :=
  map_Forall (λ id r, aq_id (rec_request r) = id) v.

Lemma pending_keys_distinct v (f : ApprovalRecord → bool) :
  keyed_by_id v → NoDup (pending_key <$> List.filter f (bt_values v)).
Proof.
  intros Hv. apply (NoDup_fmap_1 snd). rewrite <-list_fmap_compose.
  assert (bt_values v ≡ₚ (map_to_list v).*2) as Hp by apply bt_values_perm.
  rewrite (filter_perm _ _ _ Hp). clear Hp.
  assert (∀ l : list (ApprovalId * ApprovalRecord), NoDup l.*1 →
    (∀ p, p ∈ l → aq_id (rec_request p.2) = p.1) →
    NoDup ((snd ∘ pending_key) <$> List.filter f l.*2)) as H.
  { intros l. induction l as [|[id r] l IH]; [constructor|]. simpl. intros [Hn Hnd]%NoDup_cons Hall.
    assert (NoDup ((snd ∘ pending_key) <$> List.filter f l.*2)) as Hl
      by (apply IH; [done|intros; apply Hall; by right]).
    unfold fmap in *. simpl. destruct (f r); [|done]. simpl. constructor; [|done].
    intros (r' & Hr' & Hin)%list_elem_of_fmap. apply list_elem_of_In, filter_In in Hin as [Hin _].
    apply list_elem_of_In, list_elem_of_fmap in Hin as ([id' r''] & -> & Hin).
    apply Hn. unfold pending_key in Hr'. simpl in Hr'.
    pose proof (Hall _ ltac:(left)) as E1. pose proof (Hall (id', r'') ltac:(by right)) as E2. simpl in *.
    rewrite E1, E2 in Hr'. subst id'. apply list_elem_of_fmap. by exists (id, r''). }
  apply H; [apply NoDup_fst_map_to_list|]. intros [id r] Hin%elem_of_map_to_list. exact (Hv _ _ Hin).
Qed.

(** What the in-memory [pending_as] selects. *)
Lemma select_pending_all (limit : Z) (tenant : option str) (v : MemoryApprovals) :
  (0 ≤ limit)%Z → keyed_by_id v →
  fold_left (select_pending limit) (List.filter (pending_of tenant) (bt_values v)) []
  = take (Z.to_nat limit) (oldest_pending tenant v).
Proof.
  intros Hlim Hv. unfold oldest_pending.
  pose proof (select_pending_fold limit (List.filter (pending_of tenant) (bt_values v)) [] Hlim) as H.
  rewrite app_nil_r in H. change (key_sort pending_cmp pending_key []) with (@nil ApprovalRecord) in H.
  rewrite take_nil in H. apply H. by apply pending_keys_distinct.
Qed.

(** * Transitions of a record *)

Section transitions.
Context `{!Serialize ApprovalRequest, !Serialize ApprovalRecord}.

(** The record of a settlement, and of an orphaning. *)
Definition settled_record (cur : ApprovalRecord) (d : ApprovalDecision) (by_ : ApprovalActor) (now : Z)
    : ApprovalRecord :=
  terminal_record cur (rec_revision cur + 1) (RecordSettled d by_) now.
Definition orphaned_record (cur : ApprovalRecord) (reason : str) (now : Z) : ApprovalRecord :=
  terminal_record cur (rec_revision cur + 1) (RecordOrphaned reason) now.

Lemma settle_record_ok rev d by_ now cur cur' r :
  settle_record rev d by_ now cur = (cur', Ok r) →
  cur' = r ∧ r = settled_record cur d by_ now ∧ rec_revision cur = rev ∧ record_pending cur = true ∧
  aq_requested_by (rec_request cur) ≠ by_ ∧ validate_current_actor "approval settler" by_ = Ok () ∧
  validate_record r = Ok ().
Proof.
  unfold settle_record, settled_record. intros H. inv_M. inv_ok. bool_hyps.
  match goal with H : checked_add _ _ _ = _ |- _ => apply checked_add_Some in H as [-> _] end.
  by split_and!.
Qed.

Lemma settle_record_err rev d by_ now cur cur' e :
  settle_record rev d by_ now cur = (cur', Err e) → cur' = cur.
Proof. unfold settle_record. intros H. inv_M_err; inv_M; done. Qed.

Lemma orphan_record_ok reason now cur cur' u :
  record_pending cur = true → orphan_record reason now cur = (cur', Ok u) →
  cur' = orphaned_record cur reason now ∧ validate_record cur' = Ok ().
Proof.
  unfold orphan_record, orphaned_record. intros Hp H. inv_M. rewrite Hp in *. simpl in *. inv_M. inv_ok.
  match goal with H : checked_add _ _ _ = _ |- _ => apply checked_add_Some in H as [-> _] end.
  by split_and!.
Qed.

Lemma orphan_record_err reason now cur cur' e :
  orphan_record reason now cur = (cur', Err e) → cur' = cur.
Proof.
  unfold orphan_record. intros H. inv_M_err. inv_M. destruct (negb _); inv_M_err; done.
Qed.

(** When nothing else refuses, the validation of the result decides. *)
Lemma settle_record_validates rev d by_ now cur :
  rec_revision cur = rev → (rev < u64_max)%Z → record_pending cur = true →
  validate_current_actor "approval settler" by_ = Ok () → aq_requested_by (rec_request cur) ≠ by_ →
  settle_record rev d by_ now cur =
  match validate_record (settled_record cur d by_ now) with
  | Ok _ => (settled_record cur d by_ now, Ok (settled_record cur d by_ now))
  | Err e => (cur, Err e)
  end.
Proof.
  intros <- Hlt Hp Ha Hne. unfold settle_record, mbind, M_bind, lift, get, put, mret, M_ret.
  rewrite Z.eqb_refl, Hp, Ha, bool_decide_eq_false_2 by done. simpl. unfold checked_add.
  rewrite (proj2 (Z.leb_le _ _)) by lia. simpl. fold (settled_record cur d by_ now).
  by destruct (validate_record _).
Qed.

Lemma orphan_record_validates reason now cur :
  (rec_revision cur < u64_max)%Z → record_pending cur = true →
  orphan_record reason now cur =
  match validate_record (orphaned_record cur reason now) with
  | Ok _ => (orphaned_record cur reason now, Ok ())
  | Err e => (cur, Err e)
  end.
Proof.
  intros Hlt Hp. unfold orphan_record, mbind, M_bind, lift, get, put, mret, M_ret.
  rewrite Hp. simpl. unfold checked_add. rewrite (proj2 (Z.leb_le _ _)) by lia. simpl.
  fold (orphaned_record cur reason now). by destruct (validate_record _).
Qed.

(** ** What a stored record satisfies *)

Definition approval_stored_ok (id : ApprovalId) (r : ApprovalRecord) : Prop :=
  aq_id (rec_request r) = id ∧ validate_record r = Ok () ∧
  rec_revision r = (if record_pending r then 1 else 2)%Z ∧
  aq_requested_by (rec_request r) ≠ UnattributedLegacy.

(** Every record is valid, and no Turn has more records than it may. *)
Definition approvals_ok (v : MemoryApprovals) : Prop :=
  map_Forall approval_stored_ok v ∧
  ∀ request tenant, (count_values (same_turn request tenant) v ≤ MAX_APPROVALS_PER_TURN)%Z.

Lemma approvals_keyed (v : MemoryApprovals) : approvals_ok v → keyed_by_id v.
Proof. intros [Hv _] id r Hr. by destruct (Hv id r Hr). Qed.

Lemma current_actor_attributed kind a u : validate_current_actor kind a = Ok u → a ≠ UnattributedLegacy.
Proof.
  unfold validate_current_actor, actor_validate_current, validate_current_message.
  intros H ->. by destruct (validate_shape_message UnattributedLegacy kind).
Qed.

Lemma new_record_stored request tenant now :
  validate_current_request request = Ok () → validate_record (new_record request tenant now) = Ok () →
  approval_stored_ok (aq_id request) (new_record request tenant now).
Proof.
  unfold validate_current_request. intros Hr Hv. inv_ok. split_and!; [done|done|done|].
  by eapply current_actor_attributed.
Qed.

Lemma terminal_stored id cur status now :
  approval_stored_ok id cur → record_pending cur = true →
  let r := terminal_record cur (rec_revision cur + 1) status now in
  record_pending r = false → validate_record r = Ok () → approval_stored_ok id r.
Proof. intros (K1 & _ & K3 & K4) Hp r Hr Hv. unfold approval_stored_ok. rewrite Hr. rewrite Hp in K3. split_and!; try done. simpl. by rewrite K3. Qed.

(** ** Changes that keep a store well-formed *)

Lemma approvals_ok_empty : approvals_ok ∅.
Proof. split; [apply map_Forall_empty|]. intros request tenant. vm_compute. done. Qed.

Lemma approvals_ok_new (v : MemoryApprovals) request tenant now :
  approvals_ok v → v !! aq_id request = None → validate_current_request request = Ok () →
  validate_record (new_record request tenant now) = Ok () →
  (count_values (same_turn request tenant) v < MAX_APPROVALS_PER_TURN)%Z →
  approvals_ok (<[aq_id request := new_record request tenant now]> v).
Proof.
  intros [Hv Hc] Hn Hr Hw Hlt. split.
  - apply map_Forall_insert_2; [by apply new_record_stored|done].
  - intros request' tenant'. rewrite count_values_insert_new by done.
    destruct (same_turn request' tenant' (new_record request tenant now)) eqn:E.
    2: { rewrite Z.add_0_r. apply Hc. }
    unfold same_turn in E. apply andb_true_iff in E as [[E1 E2]%andb_true_iff E3].
    apply bool_decide_eq_true in E1, E2, E3. simpl in *.
    assert (same_turn request' tenant' = same_turn request tenant) as ->; [|lia].
    unfold same_turn. by rewrite E1, E2, E3.
Qed.

Lemma approvals_ok_terminal (v : MemoryApprovals) id cur status now :
  approvals_ok v → v !! id = Some cur → record_pending cur = true →
  let r := terminal_record cur (rec_revision cur + 1) status now in
  record_pending r = false → validate_record r = Ok () → approvals_ok (<[id := r]> v).
Proof.
  intros [Hv Hc] Hl Hp r Hr Hw. split.
  - apply map_Forall_insert_2; [|done]. apply (terminal_stored id cur status now); [by apply Hv|done..].
  - intros request tenant. by rewrite (count_values_insert _ v id cur).
Qed.

Lemma stored_record_tenant (v : MemoryApprovals) id r tenant :
  in_tenant tenant (v !! id) = Some r ↔ v !! id = Some r ∧ rec_tenant_id r = tenant.
Proof.
  unfold in_tenant. destruct (v !! id) as [r0|]; simpl; [|naive_solver].
  case_bool_decide; naive_solver.
Qed.

(** * The contract *)

(** How orphaning the pending records of a Turn changes the record of one
    identity; a failed call may have stopped [part] of the way. *)
Definition orphans (tenant : option str) (thread : ThreadId) (turn : TurnId) (reason : str)
    (part : bool) (o o' : option ApprovalRecord) : Prop :=
  match o with
  | None => o' = None
  | Some r =>
      if pending_in_turn tenant thread turn r
      then (∃ now, o' = Some (orphaned_record r reason now)) ∨ part = true ∧ o' = Some r
      else o' = Some r
  end.

Class ApprovalLaws (W : Type) `{!ApprovalInbox W} := {
  ai_inv : W → Prop;
  ai_view : W → MemoryApprovals;
  ai_stored s : ai_inv s → approvals_ok (ai_view s);
  ai_submit_law request now a s s' r :
    ai_inv s → approval_submit_as request now a s = (s', r) → ai_inv s' ∧
    match r with
    | Ok record =>
        validate_current_request request = Ok () ∧ validate_submission_authority request a = Ok () ∧
        ((ai_view s !! aq_id request = Some record ∧ rec_request record = request ∧
          rec_tenant_id record = tenant_id a ∧ ai_view s' = ai_view s) ∨
         (ai_view s !! aq_id request = None ∧
          (count_values (same_turn request (tenant_id a)) (ai_view s) < MAX_APPROVALS_PER_TURN)%Z ∧
          record = new_record request (tenant_id a) now ∧
          ai_view s' = <[aq_id request := record]> (ai_view s)))
    | Err _ => ai_view s' = ai_view s
    end;
  ai_get_law id a s s' r :
    ai_inv s → approval_get_as id a s = (s', r) →
    ai_inv s' ∧ ai_view s' = ai_view s ∧
    ∀ o, r = Ok o → o = in_tenant (tenant_id a) (ai_view s !! id);
  ai_pending_law limit a s s' r :
    ai_inv s → approval_pending_as limit a s = (s', r) →
    ai_inv s' ∧ ai_view s' = ai_view s ∧
    ∀ page, r = Ok page → (1 ≤ limit ≤ MAX_APPROVAL_PAGE)%Z ∧
      page = take (Z.to_nat limit) (oldest_pending (tenant_id a) (ai_view s));
  ai_settle_law id rev d now a s s' r :
    ai_inv s → approval_settle_as id rev d now a s = (s', r) → ai_inv s' ∧
    match r with
    | Ok record => ∃ cur, ai_view s !! id = Some cur ∧ rec_tenant_id cur = tenant_id a ∧
        settle_record rev d (actor a) now cur = (record, Ok record) ∧
        ai_view s' = <[id := record]> (ai_view s)
    | Err _ => ai_view s' = ai_view s
    end;
  ai_orphan_law thread turn reason clock a s s' r :
    ai_inv s → approval_orphan_turn_as thread turn reason clock a s = (s', r) → ai_inv s' ∧
    match r with
    | Ok n => n = count_values (pending_in_turn (tenant_id a) thread turn) (ai_view s) ∧
        ∀ id, orphans (tenant_id a) thread turn reason false (ai_view s !! id) (ai_view s' !! id)
    | Err _ => ∀ id, orphans (tenant_id a) thread turn reason true (ai_view s !! id) (ai_view s' !! id)
    end;
}.

Lemma orphans_refl tenant thread turn reason o : orphans tenant thread turn reason true o o.
Proof. destruct o as [r|]; simpl; [|done]. destruct (pending_in_turn _ _ _ _); auto. Qed.

(** * The in-memory inbox *)

Lemma mem_orphan_loop_spec (reason : str) (clock : nat → Z) (l : list (ApprovalId * ApprovalRecord)) (i : nat) (changed : Z)
    (m m' : MemoryApprovals) r :
  approvals_ok m → NoDup l.*1 → (∀ id rec, (id, rec) ∈ l → m !! id = Some rec ∧ record_pending rec = true) →
  mem_orphan_loop reason clock i l changed m = (m', r) →
  approvals_ok m' ∧ (∀ id, id ∉ l.*1 → m' !! id = m !! id) ∧
  (∀ id rec, (id, rec) ∈ l →
     (∃ now, m' !! id = Some (orphaned_record rec reason now)) ∨
     (is_ok r = false ∧ m' !! id = Some rec)) ∧
  ∀ n, r = Ok n → (0 ≤ changed)%Z → (changed + len l ≤ usize_max)%Z → n = (changed + len l)%Z.
Proof.
  revert i changed m. induction l as [|[key rec] l IH]; intros i changed m Hm Hnd Hl Hr.
  { simpl in Hr. injection Hr as <- <-. split_and!; [done|done|by intros ?? ?%elem_of_nil|].
    intros n [= <-] _ _. unfold len. simpl. lia. }
  simpl in Hr, Hnd. apply NoDup_cons in Hnd as [Hn Hnd].
  destruct (Hl key rec ltac:(left)) as [Hkey Hp].
  unfold mbind, M_bind, modify, lift in Hr.
  destruct (orphan_record reason (clock i) rec) as [rec' [[]|e]] eqn:E; cbn [fst snd] in Hr.
  - apply orphan_record_ok in E as [-> Hv]; [|done].
    assert (approvals_ok (<[key := orphaned_record rec reason (clock i)]> m)) as Hm1
      by (by apply approvals_ok_terminal).
    apply IH in Hr as (I1 & I2 & I3 & I4); [|done|done|].
    2: { intros id r0 Hin. rewrite lookup_insert_ne; [by apply Hl; right|].
         intros ->. apply Hn. apply list_elem_of_fmap. by exists (id, r0). }
    split_and!; [done|..].
    + intros id Hid. rewrite fmap_cons, not_elem_of_cons in Hid. destruct Hid as [Hne Hid].
      rewrite I2 by done. by rewrite lookup_insert_ne by (intros ->; done).
    + intros id r0 [[= -> ->]|Hin]%elem_of_cons; [|by apply I3]. left. exists (clock i).
      rewrite I2 by done. by rewrite lookup_insert_eq.
    + intros n Hn' Hc Hlen. unfold len in *. simpl in *. rewrite (I4 n Hn'); unfold saturating_add; lia.
  - apply orphan_record_err in E as ->. injection Hr as <- <-.
    rewrite (insert_id m key rec Hkey). split_and!; [done|done| |done].
    intros id r0 Hin. right. split; [done|]. by apply Hl.
Qed.

Lemma orphan_candidates (m : MemoryApprovals) (tenant : option str) (thread turn : str) :
  let l := List.filter (λ p : ApprovalId * ApprovalRecord, pending_in_turn tenant thread turn p.2) (bt_iter m) in
  NoDup l.*1 ∧ (∀ id rec, (id, rec) ∈ l ↔ m !! id = Some rec ∧ pending_in_turn tenant thread turn rec = true) ∧
  len l = count_values (pending_in_turn tenant thread turn) m.
Proof.
  intros l. split_and!.
  - eapply sublist_NoDup; [exact (NoDup_bt_keys m)|]. unfold bt_keys, l. apply fmap_sublist, filter_sublist.
  - intros id rec. unfold l. rewrite list_elem_of_In, filter_In, <-list_elem_of_In, elem_of_bt_iter. done.
  - unfold count_values, bt_values, l. rewrite filter_snd. unfold len. by rewrite length_fmap.
Qed.

Lemma pending_in_turn_pending tenant thread turn r :
  pending_in_turn tenant thread turn r = true → record_pending r = true.
Proof. unfold pending_in_turn. intros H. by bool_hyps. Qed.

(** Orphaning a Turn touches at most as many records as a Turn has. *)
Lemma pending_in_turn_bound (m : MemoryApprovals) tenant thread turn :
  approvals_ok m → (count_values (pending_in_turn tenant thread turn) m ≤ MAX_APPROVALS_PER_TURN)%Z.
Proof.
  intros [_ Hc]. destruct (List.filter (pending_in_turn tenant thread turn) (bt_values m)) as [|r l] eqn:E.
  - unfold count_values. rewrite E. done.
  - assert (r ∈ List.filter (pending_in_turn tenant thread turn) (bt_values m)) as Hin
      by (rewrite E; left).
    apply list_elem_of_In, filter_In in Hin as [_ Hin]. unfold pending_in_turn in Hin. bool_hyps.
    etrans; [|apply (Hc (rec_request r) tenant)]. unfold count_values, len.
    assert (∀ k : list ApprovalRecord, length (List.filter (pending_in_turn tenant thread turn) k)
      ≤ length (List.filter (same_turn (rec_request r) tenant) k))%nat as Hle; [|specialize (Hle (bt_values m)); lia].
    intros k. induction k as [|x k IH]; simpl; [done|].
    destruct (pending_in_turn tenant thread turn x) eqn:Ex; simpl.
    + assert (same_turn (rec_request r) tenant x = true) as ->; [|simpl; lia].
      unfold pending_in_turn in Ex. bool_hyps. unfold same_turn. rewrite !bool_decide_eq_true_2 by congruence. done.
    + destruct (same_turn _ _ x); simpl; lia.
Qed.
End transitions.

(** * The in-memory instance *)

Section memory.
Context `{!Serialize ApprovalRequest, !Serialize ApprovalRecord}.

Lemma matching_request_ok existing request tenant r :
  matching_request existing request tenant = Ok r →
  r = existing ∧ rec_request existing = request ∧ rec_tenant_id existing = tenant.
Proof.
  unfold matching_request. do 2 (case_bool_decide; simpl; [|done]). by intros [= <-].
Qed.

Lemma mem_orphan_law (thread turn reason : str) (clock : nat → Z) (a : AuthorityContext)
    (s s' : MemoryApprovals) r :
  approvals_ok s → mem_approval_orphan_turn_as thread turn reason clock a s = (s', r) →
  approvals_ok s' ∧
  match r with
  | Ok n => n = count_values (pending_in_turn (tenant_id a) thread turn) s ∧
      ∀ id, orphans (tenant_id a) thread turn reason false (s !! id) (s' !! id)
  | Err _ => ∀ id, orphans (tenant_id a) thread turn reason true (s !! id) (s' !! id)
  end.
Proof.
  intros Hs H. unfold mem_approval_orphan_turn_as in H. unfold mbind, M_bind, lift in H.
  destruct (approval_validate_identity "thread" thread), (approval_validate_identity "turn" turn),
    (approval_validate_reason "orphan" reason), (approval_validate_authority a);
    try (injection H as <- <-; split; [done|intros id; apply orphans_refl]).
  unfold get in H. destruct (orphan_candidates s (tenant_id a) thread turn) as (C1 & C2 & C3).
  apply mem_orphan_loop_spec in H as (L1 & L2 & L3 & L4); [|done|exact C1|].
  2: { intros id rec Hin. apply C2 in Hin as [? ?]. split; [done|]. by eapply pending_in_turn_pending. }
  split; [done|].
  assert (∀ id, orphans (tenant_id a) thread turn reason (negb (is_ok r)) (s !! id) (s' !! id)) as Hall.
  { intros id. destruct (s !! id) as [rec|] eqn:E.
    - simpl. destruct (pending_in_turn (tenant_id a) thread turn rec) eqn:Ep.
      + destruct (L3 id rec) as [?|[-> ?]]; [by apply C2|by left|by right].
      + rewrite L2; [done|]. intros ([id' rec'] & -> & Hin)%list_elem_of_fmap.
        apply C2 in Hin as [Hin Hp]. simpl in E. congruence.
    - simpl. rewrite L2; [done|]. intros ([id' rec'] & -> & Hin)%list_elem_of_fmap.
      apply C2 in Hin as [Hin _]. simpl in E. congruence. }
  destruct r as [n|e]; [|done]. split; [|done].
  pose proof (pending_in_turn_bound s (tenant_id a) thread turn Hs) as Hb.
  rewrite (L4 n eq_refl), C3; [lia|done|]. rewrite C3. unfold MAX_APPROVALS_PER_TURN, usize_max, u64_max in *. lia.
Qed.

#[global] Program Instance MemoryApprovalLaws : ApprovalLaws MemoryApprovals := {|
  ai_inv s := approvals_ok s;
  ai_view s := s;
|}.
Next Obligation. done. Qed.
Next Obligation.
  intros request now a s s' r Hi H; simpl in H; unfold mem_approval_submit_as in H.
  destruct r as [rec|e].
  - inv_M. inv_ok. destruct (_ !! aq_id request) as [ex|] eqn:E; inv_M.
    + match goal with H : matching_request _ _ _ = _ |- _ => apply matching_request_ok in H as (-> & ? & ?) end.
      split; [done|]. split; [done|]. split; [done|]. by left.
    + inv_ok. match goal with H : enforce_turn_capacity _ _ _ = _ |- _ =>
        unfold enforce_turn_capacity in H; inv_ok; bool_hyps end.
      split; [by apply approvals_ok_new|]. split; [done|]. split; [done|]. right. by split_and!.
  - inv_M_err; try done. destruct (_ !! aq_id request) as [ex|] eqn:E; inv_M_err; done.
Qed.
Next Obligation.
  intros id a s s' [o|e] Hi H; simpl in H; unfold mem_approval_get_as in H.
  - inv_M. split_and!; [done|done|]. by intros o' [= <-].
  - inv_M_err; done.
Qed.
Next Obligation.
  intros limit a s s' [p|e] Hi H; simpl in H; unfold mem_approval_pending_as in H.
  - inv_M. split_and!; [done|done|]. intros p' [= <-].
    match goal with H : approval_validate_page _ = _ |- _ =>
      unfold approval_validate_page, in_range in H; inv_ok; bool_hyps end.
    split; [done|]. apply select_pending_all; [lia|by apply approvals_keyed].
  - inv_M_err; done.
Qed.
Next Obligation.
  intros id rev d now a s s' r Hi H; simpl in H; unfold mem_approval_settle_as in H.
  destruct r as [rec|e].
  - inv_M. inv_ok. match goal with H : in_tenant _ _ = _ |- _ => apply stored_record_tenant in H as [Hl Ht] end.
    destruct (settle_record rev d (actor a) now _) as [cur' [x|x]] eqn:E; [|done].
    apply settle_record_ok in E as E'. destruct E' as (-> & Ex & _ & Hp & _ & _ & Hv). simpl in *.
    match goal with H : Ok _ = Ok _ |- _ => injection H as -> end. rewrite Ex in Hv |- *.
    split; [by eapply approvals_ok_terminal|]. eexists. split; [exact Hl|]. rewrite <-Ex. by split_and!.
  - inv_M_err; try done. inv_M. inv_ok.
    match goal with H : in_tenant _ _ = _ |- _ => apply stored_record_tenant in H as [Hl _] end.
    destruct (settle_record rev d (actor a) now _) as [cur' [x|x]] eqn:E; [done|].
    apply settle_record_err in E as ->. simpl. by rewrite insert_id.
Qed.
Next Obligation. intros thread turn reason clock a s s' r Hi H. exact (mem_orphan_law thread turn reason clock a s s' r Hi H). Qed.
End memory.

(** * The SQLite inbox *)

Section sqlite.
Context `{!Serialize ApprovalRequest, !Serialize ApprovalRecord, !Deserialize ApprovalRecord,
          !Codec ApprovalRecord}.

(** ** The codec of stored rows *)

Definition load_approval_row (row : ApprovalRow) : result ApprovalRecord :=
  indexed ← read_indexed_record row; decode_indexed_record indexed.

(** The row that stores a record. *)
Definition row_of_record (r : ApprovalRecord) (json : str) : ApprovalRow :=
  {| ax_tenant_id := rec_tenant_id r;
     ax_thread_id := ta_thread_id (aq_authorization (rec_request r));
     ax_turn_id := ta_turn_id (aq_authorization (rec_request r));
     ax_status := approval_status_name (rec_status r); ax_revision := rec_revision r;
     ax_requested_at_ms := rec_requested_at_ms r; ax_record_json := json |}.

Lemma read_indexed_ok row ix :
  read_indexed_record row = Ok ix →
  ix = {| ix_status := ax_status row; ix_revision := ax_revision row; ix_tenant_id := ax_tenant_id row;
          ix_thread_id := ax_thread_id row; ix_turn_id := ax_turn_id row; ix_encoded := ax_record_json row |}.
Proof.
  unfold read_indexed_record, bounded_optional_text, bounded_text. intros H.
  destruct (ax_tenant_id row); inv_ok; by subst.
Qed.

(** The columns of a readable row agree with its record. *)
Lemma load_approval_row_ok row r :
  load_approval_row row = Ok r →
  ax_status row = approval_status_name (rec_status r) ∧ ax_revision row = rec_revision r ∧
  ax_tenant_id row = rec_tenant_id r ∧
  ax_thread_id row = ta_thread_id (aq_authorization (rec_request r)) ∧
  ax_turn_id row = ta_turn_id (aq_authorization (rec_request r)) ∧ validate_record r = Ok ().
Proof.
  unfold load_approval_row. intros H. apply bind_ok in H as (ix & ->%read_indexed_ok & H).
  unfold decode_indexed_record, decode_record in H. inv_ok. bool_hyps. subst. simpl in *.
  match goal with H : u64_try_from _ _ = _ |- _ => apply u64_try_from_ok in H as [-> _] end.
  repeat match goal with H : ¬ (_ ≠ _) |- _ => apply dec_stable in H end. by split_and!.
Qed.

Lemma validate_identity_bound kind value :
  approval_validate_identity kind value = Ok () → (str_len value ≤ 256)%Z.
Proof. unfold approval_validate_identity. intros H. inv_ok. by bool_hyps. Qed.

(** An encoded record is read back. *)
Lemma load_approval_row_encoded r json :
  encode_record r = Ok json → (1 ≤ rec_revision r)%Z → load_approval_row (row_of_record r json) = Ok r.
Proof.
  unfold encode_record, bounded_result. intros H Hrev. inv_ok.
  match goal with H : validate_record _ = _ |- _ => rename H into Hv end.
  rewrite to_bounded_json_vec_exact in H by (unfold MAX_APPROVAL_RECORD_BYTES, usize_max, u64_max; lia).
  destruct (to_json r) as [text|] eqn:Et; [|done].
  destruct (Z.leb_spec (str_len text) MAX_APPROVAL_RECORD_BYTES) as [Hlen|]; [|done]. injection H as ->.
  pose proof Hv as Hv'. unfold validate_record, validate_request in Hv'. inv_ok.
  unfold load_approval_row, read_indexed_record, bounded_text, row_of_record. cbn [ax_status ax_tenant_id ax_thread_id ax_turn_id ax_record_json ax_revision].
  assert (8 <? str_len (approval_status_name (rec_status r)) = false)%Z as ->
    by (by destruct (rec_status r)).
  assert (bounded_optional_text Approval 128 "stored approval tenant identity" (rec_tenant_id r)
    = Ok (rec_tenant_id r)) as Ht.
  { unfold bounded_optional_text, bounded_text. destruct (rec_tenant_id r) as [t|]; [|done].
    match goal with H : map_err _ (validate_tenant_id t) = _ |- _ =>
      unfold validate_tenant_id in H; destruct (str_is_empty t || (128 <? str_len t)%Z || _) eqn:E; [done|] end.
    bool_hyps. by rewrite (proj2 (Z.ltb_ge _ _)). }
  simpl. rewrite Ht. simpl.
  repeat match goal with H : approval_validate_identity _ _ = _ |- _ => apply validate_identity_bound in H end.
  rewrite !(proj2 (Z.ltb_ge _ _)) by done. simpl. unfold decode_indexed_record, decode_record. simpl.
  rewrite (proj2 (Z.ltb_ge _ _)) by done. simpl. rewrite (codec_roundtrip _ _ Et). simpl. rewrite Hv. simpl.
  unfold u64_try_from. rewrite (proj2 (Z.leb_le 0 _)) by lia. simpl.
  rewrite Z.eqb_refl, !bool_decide_eq_false_2 by (intros Hn; by apply Hn). done.
Qed.

(** ** The view of a table *)

Definition approval_row_view (_ : ApprovalId) (row : ApprovalRow) : option ApprovalRecord :=
  match load_approval_row row with Ok r => Some r | Err _ => None end.

Definition approval_row_ok (id : ApprovalId) (row : ApprovalRow) : Prop :=
  ∃ r, load_approval_row row = Ok r ∧ aq_id (rec_request r) = id ∧ ax_requested_at_ms row = rec_requested_at_ms r.

Definition sql_approvals_view (s : SqliteApprovals) : MemoryApprovals :=
  map_imap approval_row_view (rows s).
Definition sql_approvals_inv (s : SqliteApprovals) : Prop :=
  map_Forall approval_row_ok (rows s) ∧ approvals_ok (sql_approvals_view s).

Lemma sql_approvals_lookup s id : sql_approvals_view s !! id = rows s !! id ≫= approval_row_view id.
Proof. unfold sql_approvals_view. apply map_lookup_imap. Qed.

Lemma sql_approvals_row s id row :
  sql_approvals_inv s → rows s !! id = Some row →
  ∃ r, load_approval_row row = Ok r ∧ sql_approvals_view s !! id = Some r ∧
    ax_requested_at_ms row = rec_requested_at_ms r ∧ aq_id (rec_request r) = id.
Proof.
  intros [Hi _] Hr. destruct (Hi _ _ Hr) as (r & Hl & Hid & Ht). exists r.
  rewrite sql_approvals_lookup, Hr. simpl. unfold approval_row_view. by rewrite Hl.
Qed.

Lemma sql_approvals_none s id :
  sql_approvals_inv s → rows s !! id = None ↔ sql_approvals_view s !! id = None.
Proof.
  intros Hi. rewrite sql_approvals_lookup. split; [by intros ->|]. intros Hn.
  destruct (rows s !! id) as [row|] eqn:E; [|done].
  destruct (sql_approvals_row s id row Hi E) as (r & Hl & _). simpl in Hn.
  unfold approval_row_view in Hn. by rewrite Hl in Hn.
Qed.

Lemma sql_approvals_same s s' :
  rows s' = rows s → sql_approvals_inv s →
  sql_approvals_inv s' ∧ sql_approvals_view s' = sql_approvals_view s.
Proof. unfold sql_approvals_inv, sql_approvals_view. by intros ->. Qed.

(** Storing the row of a record changes the view in one place. *)
Lemma sql_approvals_insert s s' id r json :
  rows s' = <[id := row_of_record r json]> (rows s) → encode_record r = Ok json →
  (1 ≤ rec_revision r)%Z → aq_id (rec_request r) = id → sql_approvals_inv s →
  approvals_ok (<[id := r]> (sql_approvals_view s)) →
  sql_approvals_inv s' ∧ sql_approvals_view s' = <[id := r]> (sql_approvals_view s).
Proof.
  intros E He Hrev Hid [Hi _] Hok. pose proof (load_approval_row_encoded r json He Hrev) as Hl.
  assert (sql_approvals_view s' = <[id := r]> (sql_approvals_view s)) as Hv.
  { apply map_eq. intros k. rewrite sql_approvals_lookup, E. destruct (decide (k = id)) as [->|Hne].
    - rewrite !lookup_insert_eq. simpl. unfold approval_row_view. by rewrite Hl.
    - rewrite !lookup_insert_ne by done. by rewrite sql_approvals_lookup. }
  split; [|done]. split; [|by rewrite Hv]. rewrite E. apply map_Forall_insert_2; [|done].
  by exists r.
Qed.

(** The rows that satisfy a condition are the records that satisfy it. *)
Lemma sql_count s (f : ApprovalRow → bool) (g : ApprovalRecord → bool) :
  sql_approvals_inv s → (∀ row r, load_approval_row row = Ok r → f row = g r) →
  len (List.filter f (bt_values (rows s))) = count_values g (sql_approvals_view s).
Proof.
  intros Hi Hfg. unfold count_values, bt_values.
  assert (Forall2 (λ (p : str * ApprovalRow) (q : str * ApprovalRecord), p.1 = q.1 ∧ approval_row_view p.1 p.2 = Some q.2)
    (bt_iter (rows s)) (bt_iter (sql_approvals_view s))) as HF.
  { apply bt_iter_imap. intros k v Hk. destruct (sql_approvals_row s k v Hi Hk) as (r & Hl & _).
    exists r. unfold approval_row_view. by rewrite Hl. }
  unfold len. f_equal. rewrite !filter_snd, !length_fmap. eapply Forall2_length, filter_Forall2, HF.
  intros [k row] [k' r] [_ Hv]. simpl in *. unfold approval_row_view in Hv.
  destruct (load_approval_row row) as [r0|] eqn:El; [|done]. injection Hv as <-. by apply Hfg.
Qed.

(** ** Queries *)

Lemma query_indexed_ok s s' id (tenant : option str) r :
  sql_approvals_inv s → query_indexed id tenant s = (s', r) →
  rows s' = rows s ∧
  (∀ o, r = Ok o → match o with
   | None => in_tenant tenant (sql_approvals_view s !! id) = None
   | Some ix => ∃ row rec, rows s !! id = Some row ∧ read_indexed_record row = Ok ix ∧
       decode_indexed_record ix = Ok rec ∧ in_tenant tenant (sql_approvals_view s !! id) = Some rec
   end).
Proof.
  intros Hi H. unfold query_indexed in H. unfold mbind at 1, M_bind in H.
  destruct (select Approval s) as [s1 [t|e]] eqn:Es; apply select_rows in Es as [Hs Ht].
  2: { injection H as <- <-. done. }
  specialize (Ht t eq_refl) as ->. unfold approval_row_of in H.
  destruct (rows s !! id) as [row|] eqn:Er; simpl in H.
  2: { injection H as <- <-. split; [done|]. intros o [= <-].
    by rewrite (proj1 (sql_approvals_none s id Hi) Er). }
  destruct (sql_approvals_row s id row Hi Er) as (rec & Hl & Hv & _).
  pose proof (load_approval_row_ok _ _ Hl) as (_ & _ & Ht & _). rewrite Hv.
  unfold in_tenant. simpl. rewrite <-Ht. case_bool_decide as Eq; simpl in H.
  - unfold load_approval_row in Hl. unfold mbind, M_bind, lift in H.
    destruct (read_indexed_record row) as [ix|e] eqn:Eix; injection H as <- <-; [|done].
    split; [done|]. intros o [= <-]. exists row, rec. simpl in Hl. by split_and!.
  - injection H as <- <-. split; [done|]. by intros o [= <-].
Qed.

(** The row of a stored record is updated in place. *)
Lemma update_approval_ok id tenant where_ status rev json t p row :
  update_approval id tenant where_ status rev json t = Some p → t !! id = Some row →
  ax_tenant_id row = tenant → where_ row = true →
  p = (<[id := {| ax_tenant_id := ax_tenant_id row; ax_thread_id := ax_thread_id row;
                  ax_turn_id := ax_turn_id row; ax_status := status; ax_revision := rev;
                  ax_requested_at_ms := ax_requested_at_ms row; ax_record_json := json |}]> t, 1%Z).
Proof.
  unfold update_approval, approval_row_of. intros H Hr Ht Hw. rewrite Hr in H. simpl in H.
  rewrite bool_decide_eq_true_2 in H by done. rewrite Hw in H.
  destruct (approval_row_checks _); [|done]. congruence.
Qed.

Lemma insert_approval_ok id row t t' :
  insert_approval id row t = Some t' → t !! id = None ∧ t' = <[id := row]> t.
Proof.
  unfold insert_approval. destruct (t !! id); [done|]. destruct (approval_row_checks row); [|done].
  by intros [= <-].
Qed.

Lemma sql_get_law id a s s' r :
  sql_approvals_inv s → sql_approval_get_as id a s = (s', r) →
  rows s' = rows s ∧ ∀ o, r = Ok o → o = in_tenant (tenant_id a) (sql_approvals_view s !! id).
Proof.
  intros Hi H. unfold sql_approval_get_as in H. destruct r as [o|e].
  - inv_M. match goal with H : query_indexed _ _ _ = _ |- _ => apply query_indexed_ok in H as [Hs Hq];
      [|done]; specialize (Hq _ eq_refl) end.
    destruct a2 as [ix|]; inv_M; [|split; [done|]; by intros o' [= <-]].
    destruct Hq as (row & rec & _ & _ & Hd & Hin). split; [done|]. intros o' [= <-]. rewrite Hin. congruence.
  - inv_M_err; try done.
    + apply query_indexed_ok in H as [Hs _]; done.
    + match goal with H : query_indexed _ _ _ = _ |- _ => apply query_indexed_ok in H as [Hs Hq]; [|done] end.
      destruct a2; inv_M_err; done.
Qed.

Lemma sql_submit_law request now a s s' r :
  sql_approvals_inv s → sql_approval_submit_as request now a s = (s', r) → sql_approvals_inv s' ∧
  match r with
  | Ok record =>
      validate_current_request request = Ok () ∧ validate_submission_authority request a = Ok () ∧
      ((sql_approvals_view s !! aq_id request = Some record ∧ rec_request record = request ∧
        rec_tenant_id record = tenant_id a ∧ sql_approvals_view s' = sql_approvals_view s) ∨
       (sql_approvals_view s !! aq_id request = None ∧
        (count_values (same_turn request (tenant_id a)) (sql_approvals_view s) < MAX_APPROVALS_PER_TURN)%Z ∧
        record = new_record request (tenant_id a) now ∧
        sql_approvals_view s' = <[aq_id request := record]> (sql_approvals_view s)))
  | Err _ => sql_approvals_view s' = sql_approvals_view s
  end.
Proof.
  intros Hi H. unfold sql_approval_submit_as in H. destruct r as [rec|e].
  2: { inv_M_err; [done|done|]. apply transaction_return_err in H. by apply sql_approvals_same. }
  inv_M. match goal with H : validate_current_request _ = Ok ?u |- _ => destruct u; rename H into Hreq end.
  match goal with H : validate_submission_authority _ _ = Ok ?u |- _ => destruct u; rename H into Hauth end.
  apply transaction_return_ok in H as (s1 & s2 & Hs1 & [[H Hs2]|[H Hs2]]);
    destruct (sql_approvals_same _ _ Hs1 Hi) as [Hi1 Hv1]; inv_M;
    match goal with H : query_indexed _ _ _ = _ |- _ => apply query_indexed_ok in H as [Hs3 Hq];
      [|done]; specialize (Hq _ eq_refl) end;
    match goal with o : option IndexedRecord |- _ => destruct o as [ix|] end; inv_M.
  all: try discriminate.
  - destruct Hq as (row & rec0 & _ & _ & Hd & Hin). rewrite Hd in *. inv_ok. subst.
    match goal with H : matching_request _ _ _ = _ |- _ => apply matching_request_ok in H as (-> & ? & ?) end.
    destruct (sql_approvals_same s s' Hs2 Hi) as [? ?]. split; [done|]. split; [done|]. split; [done|].
    left. rewrite Hv1 in Hin. apply stored_record_tenant in Hin as [? ?]. simplify_eq. by split_and!.
  - match goal with H : select _ _ = _ |- _ => apply select_rows in H as [Hs4 Hsel];
      specialize (Hsel _ eq_refl) as -> end.
    match goal with H : store _ _ _ = _ |- _ => apply store_ok in H as Hst end.
    inv_ok. unfold approval_to_sql_u64 in *.
    repeat match goal with H : i64_try_from _ _ = _ |- _ => apply i64_try_from_ok in H as [-> _] end.
    match goal with H : insert_approval _ _ _ = Some _ |- _ => apply insert_approval_ok in H as [Hn ->] end.
    match goal with H : encode_record _ = Ok ?j |- _ => rename H into He; rename j into json end.
    match goal with H : inr _ = inr _ |- _ => injection H as H; subst rec | _ => idtac end.
    bool_hyps.
    match goal with H : (len _ < _)%Z |- _ => rename H into Hlt end.
    rewrite Hs3, Hs1 in Hlt, Hn, Hst. rewrite Hst in Hs2.
    rewrite (sql_count s _ (same_turn request (tenant_id a))) in Hlt; [|done|].
    2: { intros row r (_ & _ & -> & -> & -> & _)%load_approval_row_ok. done. }
    pose proof (proj1 (sql_approvals_none s _ Hi) Hn) as Hnv.
    assert (validate_record (new_record request (tenant_id a) now) = Ok ()) as Hw
      by (unfold encode_record in He; by inv_ok).
    destruct (sql_approvals_insert s s' (aq_id request) (new_record request (tenant_id a) now) json)
      as [? ?]; [done|done|done|done|done|apply approvals_ok_new; try done; apply Hi|].
    split; [done|]. split; [done|]. split; [done|]. right. by split_and!.
Qed.

(** Storing the terminal successor of a pending record. *)
Lemma sql_terminal_update s s' id (tenant : option str) cur status now json where_ p revision :
  let r := terminal_record cur (rec_revision cur + 1) status now in
  sql_approvals_inv s → sql_approvals_view s !! id = Some cur → rec_tenant_id cur = tenant →
  record_pending cur = true → encode_record r = Ok json →
  update_approval id tenant where_ (approval_status_name status) revision json (rows s) = Some p →
  (∀ row, ax_status row = lit "pending" → ax_revision row = rec_revision cur → where_ row = true) →
  revision = rec_revision r → rows s' = p.1 → record_pending r = false →
  sql_approvals_inv s' ∧ sql_approvals_view s' = <[id := r]> (sql_approvals_view s) ∧ p.2 = 1%Z.
Proof.
  intros r Hi Hcur Hten Hp He Hu Hw Hrev Hs' Hr.
  destruct (rows s !! id) as [row|] eqn:Hrow.
  2: { apply (sql_approvals_none s id Hi) in Hrow. congruence. }
  destruct (sql_approvals_row s id row Hi Hrow) as (r0 & Hl & Hv0 & Ht0 & Hid).
  rewrite Hcur in Hv0. injection Hv0 as <-.
  apply load_approval_row_ok in Hl as (L1 & L2 & L3 & L4 & L5 & L6).
  eapply update_approval_ok in Hu; [|exact Hrow|congruence|].
  2: { apply Hw; [|done]. rewrite L1. unfold record_pending in Hp. by destruct (rec_status cur). }
  subst p revision. simpl in Hs'. destruct (proj1 (proj2 Hi) id cur Hcur) as (K1 & _ & K3 & _).
  rewrite Hp in K3. assert (validate_record r = Ok ()) as Hv by (unfold encode_record in He; by inv_ok).
  destruct (sql_approvals_insert s s' id r json) as [I1 I2].
  - rewrite Hs'. f_equal. unfold row_of_record. simpl. congruence.
  - done.
  - simpl. lia.
  - done.
  - done.
  - apply approvals_ok_terminal; try done. apply Hi.
  - done.
Qed.

Lemma sql_settle_law id rev d now a s s' r :
  sql_approvals_inv s → sql_approval_settle_as id rev d now a s = (s', r) → sql_approvals_inv s' ∧
  match r with
  | Ok record => ∃ cur, sql_approvals_view s !! id = Some cur ∧ rec_tenant_id cur = tenant_id a ∧
      settle_record rev d (actor a) now cur = (record, Ok record) ∧
      sql_approvals_view s' = <[id := record]> (sql_approvals_view s)
  | Err _ => sql_approvals_view s' = sql_approvals_view s
  end.
Proof.
  intros Hi H. unfold sql_approval_settle_as in H. destruct r as [rec|e].
  2: { inv_M_err; [done..|]. apply transaction_err in H. by apply sql_approvals_same. }
  inv_M. apply transaction_ok in H as (s1 & s2 & Hs1 & H & Hs2).
  destruct (sql_approvals_same _ _ Hs1 Hi) as [Hi1 Hv1]. inv_M. inv_ok.
  match goal with H : query_indexed _ _ _ = _ |- _ => apply query_indexed_ok in H as [Hs3 Hq];
    [|done]; specialize (Hq _ eq_refl) end.
  subst. destruct Hq as (row & cur & Hrow & _ & Hd & Hin). rewrite Hd in *. inv_ok. subst.
  rewrite Hv1 in Hin. apply stored_record_tenant in Hin as [Hcur Hten]. rewrite Hs1 in Hrow.
  match goal with H : select _ _ = _ |- _ => apply select_rows in H as [Hs4 Hsel];
    specialize (Hsel _ eq_refl) as -> end.
  match goal with H : store _ _ _ = _ |- _ => apply store_ok in H as Hst end.
  unfold approval_to_sql_u64 in *.
  repeat match goal with H : i64_try_from _ _ = _ |- _ => apply i64_try_from_ok in H as [-> _] end.
  match goal with H : (settle_record rev d (actor a) now ?c).2 = _ |- _ =>
    destruct (settle_record rev d (actor a) now c) as [cur' [x|x]] eqn:E; [|done]; injection H as -> end.
  apply settle_record_ok in E as E'. destruct E' as (-> & Ex & Hrev & Hp & _ & _ & Hv).
  match goal with H : encode_record _ = Ok ?j |- _ => rename H into He end.
  match goal with H : update_approval _ _ _ _ _ _ _ = _ |- _ => rename H into Hu end.
  rewrite Hs3, Hs1 in Hu. rewrite Hst in Hs2. rewrite Ex in He, Hu, Hv.
  destruct (sql_terminal_update s s' id (tenant_id a) _ (RecordSettled d (actor a)) now _ _ _ _
    Hi Hcur Hten Hp He Hu) as (U1 & U2 & _); [|done|done|done|].
  { intros row' -> ->. by rewrite Hrev, Z.eqb_refl. }
  split; [done|]. eexists. split; [exact Hcur|]. split; [done|]. split; [done|]. by rewrite Ex.
Qed.

(** ** Orphaning *)

Lemma sql_orphan_loop_spec reason (tenant : option str) clock ids i changed s s' n :
  sql_approvals_inv s → NoDup ids →
  (∀ id, id ∈ ids → ∃ rec, sql_approvals_view s !! id = Some rec ∧ rec_tenant_id rec = tenant ∧ record_pending rec = true) →
  sql_orphan_loop reason tenant clock i ids changed s = (s', Ok n) →
  sql_approvals_inv s' ∧ (∀ id, id ∉ ids → sql_approvals_view s' !! id = sql_approvals_view s !! id) ∧
  (∀ id rec, id ∈ ids → sql_approvals_view s !! id = Some rec →
     ∃ now, sql_approvals_view s' !! id = Some (orphaned_record rec reason now)) ∧
  ((0 ≤ changed)%Z → (changed + len ids ≤ usize_max)%Z → n = (changed + len ids)%Z).
Proof.
  revert i changed s. induction ids as [|id ids IH]; intros i changed s Hi Hnd Hl H; simpl in H.
  { inv_M. split_and!; [done|done|by intros ?? ?%elem_of_nil|]. unfold len. simpl. lia. }
  apply NoDup_cons in Hnd as [Hn Hnd]. inv_M. inv_ok.
  match goal with H : query_indexed _ _ _ = _ |- _ => apply query_indexed_ok in H as [Hs3 Hq];
    [|done]; specialize (Hq _ eq_refl) end.
  subst. destruct Hq as (row & cur & Hrow & _ & Hd & Hin). rewrite Hd in *. inv_ok. subst.
  apply stored_record_tenant in Hin as [Hcur Hten].
  destruct (Hl id ltac:(left)) as (rec & Hrec & _ & Hp).
  rewrite Hcur in Hrec. injection Hrec as <-.
  match goal with H : select _ _ = _ |- _ => apply select_rows in H as [Hs4 Hsel];
    specialize (Hsel _ eq_refl) as -> end.
  match goal with H : store _ _ _ = _ |- _ => apply store_ok in H as Hst end.
  unfold approval_to_sql_u64 in *.
  repeat match goal with H : i64_try_from _ _ = _ |- _ => apply i64_try_from_ok in H as [-> _] end.
  match goal with H : (orphan_record reason (clock i) ?c).2 = Ok ?u |- _ =>
    destruct (orphan_record reason (clock i) c) as [cur' [[]|x]] eqn:E; [|done] end.
  apply orphan_record_ok in E as [-> Hv]; [|done]. cbn [fst snd] in *.
  match goal with H : encode_record _ = Ok ?j |- _ => rename H into He end.
  match goal with H : update_approval _ _ _ _ _ _ _ = Some ?p |- _ => rename H into Hu; rename p into up end.
  match goal with H : rows ?sa = up.1 |- _ => rename sa into sn end.
  destruct (sql_approvals_row _ _ _ Hi Hrow) as (r0 & _ & Hv0 & _ & Hid).
  rewrite Hcur in Hv0. injection Hv0 as <-. simpl in Hu. rewrite Hid, Hs3 in Hu.
  destruct (sql_terminal_update s sn id _ _ (RecordOrphaned reason) (clock i) _ _ _ _
    Hi Hcur Hten Hp He Hu) as (U1 & U2 & U3); [|done|done|done|].
  { intros row' -> _. done. }
  apply IH in H as (I1 & I2 & I3 & I4); [|done|done|].
  2: { intros id' Hin. rewrite U2, lookup_insert_ne by (by intros ->). apply Hl. by right. }
  split_and!; [done|..].
  - intros id' Hn'. rewrite not_elem_of_cons in Hn'. destruct Hn' as [Hne Hn'].
    rewrite I2, U2 by done. by rewrite lookup_insert_ne.
  - intros id' rec [->|Hin]%elem_of_cons Hrec'.
    + rewrite Hcur in Hrec'. injection Hrec' as <-. exists (clock i).
      rewrite I2, U2 by done. by rewrite lookup_insert_eq.
    + apply I3; [done|]. rewrite U2, lookup_insert_ne; [done|]. by intros ->.
  - intros Hc Hlen. rewrite U3 in I4. unfold len, saturating_add in *. simpl in *. rewrite I4; lia.
Qed.

(** The rows of the orphaning query, and the records they hold. *)
Definition turn_row (tenant : option str) (thread : ThreadId) (turn : TurnId) (row : ApprovalRow) : bool :=
  bool_decide (ax_tenant_id row = tenant) && bool_decide (ax_thread_id row = thread)
  && bool_decide (ax_turn_id row = turn) && bool_decide (ax_status row = lit "pending").

Lemma turn_row_record (tenant : option str) thread turn row r :
  load_approval_row row = Ok r → turn_row tenant thread turn row = pending_in_turn tenant thread turn r.
Proof.
  intros (L1 & _ & L3 & L4 & L5 & _)%load_approval_row_ok. unfold turn_row, pending_in_turn, record_pending.
  rewrite L1, L3, L4, L5. f_equal. by destruct (rec_status r).
Qed.

(** The limit of the query never cuts a Turn. *)
Lemma sql_orphan_ids s (tenant : option str) (thread turn : str) ids :
  sql_approvals_inv s →
  collect (λ p : ApprovalId * ApprovalRow, bounded_text Prelude.Approval 256 "stored approval identity" p.1)
    (take (Z.to_nat MAX_APPROVALS_PER_TURN)
       (List.filter (λ p : ApprovalId * ApprovalRow, turn_row tenant thread turn p.2) (bt_iter (rows s)))) = Ok ids →
  NoDup ids ∧ len ids = count_values (pending_in_turn tenant thread turn) (sql_approvals_view s) ∧
  ∀ id, id ∈ ids ↔ ∃ rec, sql_approvals_view s !! id = Some rec ∧ pending_in_turn tenant thread turn rec = true.
Proof.
  intros Hi Hc. set (l := List.filter _ (bt_iter (rows s))) in Hc.
  assert (len l = count_values (pending_in_turn tenant thread turn) (sql_approvals_view s)) as Hlen.
  { rewrite <-(sql_count s (turn_row tenant thread turn)) by (done || apply turn_row_record).
    unfold bt_values, l. rewrite filter_snd. unfold len. by rewrite length_fmap. }
  pose proof (pending_in_turn_bound (sql_approvals_view s) tenant thread turn (proj2 Hi)) as Hb.
  rewrite take_ge in Hc by (unfold len in *; lia).
  assert (ids = l.*1) as ->.
  { apply collect_ok in Hc. clear -Hc. induction Hc as [|p id l ids Hp _ IH]; [done|].
    unfold bounded_text in Hp. inv_ok. subst. unfold fmap in *. simpl. by f_equal. }
  split_and!.
  - eapply sublist_NoDup; [exact (NoDup_bt_keys (rows s))|].
    unfold bt_keys, l. apply fmap_sublist, filter_sublist.
  - rewrite <-Hlen. unfold len. by rewrite length_fmap.
  - intros id. rewrite list_elem_of_fmap. split.
    + intros ([id' row] & -> & Hin). apply list_elem_of_In, filter_In in Hin as [Hin Hf].
      apply list_elem_of_In, elem_of_bt_iter in Hin.
      destruct (sql_approvals_row s id' row Hi Hin) as (rec & Hl & Hv & _). exists rec. split; [done|].
      simpl in Hf. by rewrite <-(turn_row_record _ _ _ _ _ Hl).
    + intros (rec & Hv & Hp). pose proof Hv as Hv'. rewrite sql_approvals_lookup in Hv'.
      apply bind_Some in Hv' as (row & Hrow & _). exists (id, row). split; [done|].
      apply list_elem_of_In, filter_In. split; [by apply list_elem_of_In, elem_of_bt_iter|].
      destruct (sql_approvals_row s id row Hi Hrow) as (rec' & Hl & Hv' & _).
      simpl. rewrite (turn_row_record _ _ _ _ _ Hl). congruence.
Qed.

Lemma sql_orphan_law thread turn reason clock a s s' r :
  sql_approvals_inv s → sql_approval_orphan_turn_as thread turn reason clock a s = (s', r) →
  sql_approvals_inv s' ∧
  match r with
  | Ok n => n = count_values (pending_in_turn (tenant_id a) thread turn) (sql_approvals_view s) ∧
      ∀ id, orphans (tenant_id a) thread turn reason false
        (sql_approvals_view s !! id) (sql_approvals_view s' !! id)
  | Err _ => ∀ id, orphans (tenant_id a) thread turn reason true
      (sql_approvals_view s !! id) (sql_approvals_view s' !! id)
  end.
Proof.
  intros Hi H. unfold sql_approval_orphan_turn_as in H. destruct r as [n|e].
  2: { assert (rows s' = rows s) as Hs by (inv_M_err; [done..|by apply transaction_err in H]).
       destruct (sql_approvals_same _ _ Hs Hi) as [? ->]. split; [done|]. intros id. apply orphans_refl. }
  inv_M. apply transaction_ok in H as (s1 & s2 & Hs1 & H & Hs2). inv_M.
  match goal with H : sql_call _ _ = _ |- _ => apply sql_call_rows in H as Hs3 end.
  match goal with H : select _ _ = _ |- _ => apply select_rows in H as [Hs4 Hsel];
    specialize (Hsel _ eq_refl) as -> end.
  match goal with H : collect _ _ = Ok _ |- _ => rename H into Hids end.
  rewrite Hs3, Hs1 in *. destruct (sql_approvals_same s _ Hs4 Hi) as [Hi4 Hv4].
  destruct (sql_orphan_ids s (tenant_id a) thread turn _ Hi Hids) as (O1 & O2 & O3).
  apply sql_orphan_loop_spec in H as (L1 & L2 & L3 & L4); [|done|done|].
  2: { intros id (rec & Hv & Hp)%O3. exists rec. rewrite Hv4. unfold pending_in_turn in Hp. by bool_hyps. }
  rewrite Hv4 in *. destruct (sql_approvals_same _ _ Hs2 L1) as [? ->]. split; [done|].
  pose proof (pending_in_turn_bound (sql_approvals_view s) (tenant_id a) thread turn (proj2 Hi)) as Hb.
  rewrite L4; [|done|rewrite O2; unfold MAX_APPROVALS_PER_TURN, usize_max, u64_max in *; lia].
  split; [by rewrite O2|]. intros id. destruct (sql_approvals_view s !! id) as [rec|] eqn:E; simpl.
  - destruct (pending_in_turn (tenant_id a) thread turn rec) eqn:Ep.
    + left. apply L3; [|done]. apply O3. eauto.
    + rewrite L2; [done|]. intros (rec' & Hv & Hp)%O3. congruence.
  - rewrite L2; [done|]. intros (rec' & Hv & Hp)%O3. congruence.
Qed.

(** ** Pages *)

(** A row and the record it holds. *)
Definition row_holds (p : ApprovalId * ApprovalRow) (r : ApprovalRecord) : Prop :=
  load_approval_row p.2 = Ok r ∧ aq_id (rec_request r) = p.1 ∧ ax_requested_at_ms p.2 = rec_requested_at_ms r.

Lemma sql_rows_hold s :
  sql_approvals_inv s → Forall2 row_holds (bt_iter (rows s)) (bt_values (sql_approvals_view s)).
Proof.
  intros Hi. unfold bt_values. apply Forall2_fmap_r.
  assert (∀ k v, rows s !! k = Some v → is_Some (approval_row_view k v)) as Hall.
  { intros k v Hk. destruct (sql_approvals_row s k v Hi Hk) as (r & Hl & _).
    exists r. unfold approval_row_view. by rewrite Hl. }
  pose proof (bt_iter_imap approval_row_view (rows s) Hall) as HF.
  assert (∀ k row, (k, row) ∈ bt_iter (rows s) → rows s !! k = Some row) as Hrows
    by (intros k row; apply elem_of_bt_iter).
  clear Hall. unfold sql_approvals_view. induction HF as [|[k row] [k' r] l l' [E Hv] _ IH]; constructor;
    [|apply IH; intros; apply Hrows; by right].
  pose proof (Hrows k row ltac:(left)) as Hin. simpl in *. destruct (sql_approvals_row s k row Hi Hin) as (r' & Hl & _ & Ht & Hid).
  unfold approval_row_view in Hv. rewrite Hl in Hv. injection Hv as ->. by split_and!.
Qed.

(** The pending query selects the rows of the pending page. *)
Lemma sql_pending_rows s (tenant : option str) :
  sql_approvals_inv s →
  Forall2 row_holds
    (key_sort pending_cmp row_pending_key (List.filter (λ p : ApprovalId * ApprovalRow,
       bool_decide (ax_tenant_id p.2 = tenant) && bool_decide (ax_status p.2 = lit "pending"))
       (bt_iter (rows s))))
    (oldest_pending tenant (sql_approvals_view s)).
Proof.
  intros Hi. apply key_sort_Forall2; [apply _|..].
  - intros p r (_ & Hid & Ht). unfold row_pending_key, pending_key. by rewrite Hid, Ht.
  - apply pending_keys_distinct, approvals_keyed, Hi.
  - apply filter_Forall2; [|by apply sql_rows_hold]. intros p r (Hp & _).
    unfold pending_of, record_pending. apply load_approval_row_ok in Hp as (-> & _ & -> & _). f_equal.
    by destruct (rec_status r).
Qed.

Lemma read_pending_rows l k page :
  Forall2 row_holds l k → Forall2 (λ p r, read_pending_row p = Ok r) l page → page = k.
Proof.
  intros HF. revert page. induction HF as [|p r l k (Hp & _) _ IH]; intros page Hr;
    inversion Hr as [|? r' ? page' Hr' Hrest]; subst; [done|]. f_equal; [|by apply IH].
  unfold read_pending_row in Hr'. unfold load_approval_row in Hp. inv_ok. congruence.
Qed.

Lemma sql_pending_law limit a s s' r :
  sql_approvals_inv s → sql_approval_pending_as limit a s = (s', r) →
  rows s' = rows s ∧ ∀ page, r = Ok page → (1 ≤ limit ≤ MAX_APPROVAL_PAGE)%Z ∧
    page = take (Z.to_nat limit) (oldest_pending (tenant_id a) (sql_approvals_view s)).
Proof.
  intros Hi H. unfold sql_approval_pending_as in H. destruct r as [page|e].
  2: { split; [|done]. inv_M_err; try done;
       repeat match goal with
       | H : sql_call _ _ = _ |- _ => apply sql_call_rows in H
       | H : select _ _ = _ |- _ => apply select_rows in H as [H _]
       end; congruence. }
  inv_M. match goal with H : sql_call _ _ = _ |- _ => apply sql_call_rows in H as Hs1 end.
  match goal with H : i64_try_from _ _ = _ |- _ => apply i64_try_from_ok in H as [-> _] end.
  match goal with H : select _ _ = _ |- _ => apply select_rows in H as [Hs2 Hsel];
    specialize (Hsel _ eq_refl) as -> end.
  split; [congruence|]. intros page' [= <-].
  match goal with H : approval_validate_page _ = _ |- _ =>
    unfold approval_validate_page, in_range in H; inv_ok; bool_hyps end.
  split; [done|]. rewrite Hs1 in *.
  match goal with H : collect _ _ = Ok _ |- _ => apply collect_ok in H as Hc end.
  eapply read_pending_rows; [|exact Hc]. by apply Forall2_take, sql_pending_rows.
Qed.

#[global] Program Instance SqliteApprovalLaws : ApprovalLaws SqliteApprovals := {|
  ai_inv := sql_approvals_inv;
  ai_view := sql_approvals_view;
|}.
Next Obligation. intros s Hi. apply Hi. Qed.
Next Obligation. intros request now a s s' r Hi H. exact (sql_submit_law _ _ _ _ _ _ Hi H). Qed.
Next Obligation.
  intros id a s s' r Hi H. destruct (sql_get_law _ _ _ _ _ Hi H) as [Hs Hr].
  destruct (sql_approvals_same _ _ Hs Hi). by split_and!.
Qed.
Next Obligation.
  intros limit a s s' r Hi H. destruct (sql_pending_law _ _ _ _ _ Hi H) as [Hs Hr].
  destruct (sql_approvals_same _ _ Hs Hi). by split_and!.
Qed.
Next Obligation. intros id rev d now a s s' r Hi H. exact (sql_settle_law _ _ _ _ _ _ _ _ Hi H). Qed.
Next Obligation. intros thread turn reason clock a s s' r Hi H. exact (sql_orphan_law _ _ _ _ _ _ _ _ Hi H). Qed.
End sqlite.
