(* ===== verification/ApprovalHandler.v ===== *)
(** The ports of src/src/runtime/policy.rs, with the policy and the handler
    that deny by default, and the polling handler of src/src/approval/mod.rs
    that settles a request through a durable inbox.

    A handler may sleep, and others use the inbox meanwhile: an operation that
    waits takes the list of what happens to the state during its successive
    sleeps, and answers [None] when it is still asleep at the end of the list. *)

From Stdlib Require Import ZArith Lia.
From stdpp Require Import base tactics list gmap numbers strings option.
From stdpp Require Import list.
From S2P Require Import Prelude Kernel Digest Json Sqlite Approval ApprovalInbox.

(** * Policies *)

Inductive PolicyDecision :=
| PolicyAllow
| PolicyDeny (reason : str)
| PolicyAsk (reason : str) (risk : RiskLevel).

Class PolicyEngine (P : Type) := {
  authorize : P → ToolAuthorization → AuthorityContext → result PolicyDecision;
}.

Record AllowListPolicy := { allowed : gset str }.

Definition deny_by_default : AllowListPolicy := {| allowed := ∅ |}.

Definition policy_allow (tool_name : str) (p : AllowListPolicy) : AllowListPolicy :=
  {| allowed := {[tool_name]} ∪ allowed p |}.

Definition allow_list_authorize (p : AllowListPolicy) (request : ToolAuthorization)
    (_ : AuthorityContext) : result PolicyDecision :=
  if bool_decide (td_name (ta_descriptor request) ∈ allowed p)
  then Ok PolicyAllow
  else Ok (PolicyDeny (lit "tool is not present in the runtime allow list")).

#[global] Instance AllowListPolicyEngine : PolicyEngine AllowListPolicy := {|
  authorize := allow_list_authorize;
|}.

(** * The handler port *)

(** An operation that may sleep: the state after it, and its answer. *)
Definition waiting (W A : Type) : Type := list (W → W) → W → W * option (result A).

Definition at_once {W A} (m : M W A) : waiting W A := λ _ w,
  match m w with (w', r) => (w', Some r) end.

Class ApprovalHandler (H W : Type) := {
  handler_decide : H → ApprovalRequest → Z → waiting W ApprovalDecision;
  handler_decide_as : H → ApprovalRequest → Z → AuthorityContext → waiting W ApprovalDecision;
  supports_durable_wait : H → bool;
  submit_wait_as : H → ApprovalRequest → Z → AuthorityContext → M W ApprovalRecord;
  get_wait_as : H → ApprovalId → AuthorityContext → M W (option ApprovalRecord);
  abandon_turn : H → ThreadId → TurnId → str → (nat → Z) → M W ();
  abandon_turn_as : H → ThreadId → TurnId → str → (nat → Z) → AuthorityContext → M W ();
}.

Section defaults.
Context {W : Type}.

Definition tenant_aware_required : HarnessError :=
  InvalidConfiguration (fmt "tenant-scoped approvals require a tenant-aware approval handler" []).
Definition durable_wait_unsupported : HarnessError :=
  InvalidConfiguration (fmt "approval handler does not support durable waits" []).

(** [authority.tenant_id().is_some()]. *)
Definition tenant_scoped (authority : AuthorityContext) : bool :=
  match tenant_id authority with Some _ => true | None => false end.

Definition default_decide_as (decide : ApprovalRequest → Z → waiting W ApprovalDecision)
    (request : ApprovalRequest) (now_ms : Z) (authority : AuthorityContext)
    : waiting W ApprovalDecision := λ env w,
  if tenant_scoped authority then (w, Some (Err tenant_aware_required))
  else decide request now_ms env w.

Definition default_supports_durable_wait : bool := false.

Definition default_submit_wait_as (_ : ApprovalRequest) (_ : Z) (_ : AuthorityContext)
    : M W ApprovalRecord :=
  lift (Err durable_wait_unsupported).

Definition default_get_wait_as (_ : ApprovalId) (_ : AuthorityContext)
    : M W (option ApprovalRecord) :=
  lift (Err durable_wait_unsupported).

Definition default_abandon_turn (_ : ThreadId) (_ : TurnId) (_ : str) (_ : nat → Z) : M W () :=
  mret ().

Definition default_abandon_turn_as (abandon : ThreadId → TurnId → str → (nat → Z) → M W ())
    (thread : ThreadId) (turn : TurnId) (reason : str) (clock : nat → Z)
    (authority : AuthorityContext) : M W () :=
  if tenant_scoped authority then lift (Err tenant_aware_required)
  else abandon thread turn reason clock.

(** * [DenyAllApprovals] *)

Inductive DenyAllApprovals := DenyAll.

Definition deny_all_decide (_ : DenyAllApprovals) (_ : ApprovalRequest) (_ : Z)
    : waiting W ApprovalDecision :=
  at_once (mret (DecisionDeny (lit "no approval handler is configured"))).

Definition deny_all_decide_as (h : DenyAllApprovals) (request : ApprovalRequest) (now_ms : Z)
    (_ : AuthorityContext) : waiting W ApprovalDecision :=
  deny_all_decide h request now_ms.

#[global] Instance DenyAllHandler : ApprovalHandler DenyAllApprovals W := {|
  handler_decide := deny_all_decide;
  handler_decide_as := deny_all_decide_as;
  supports_durable_wait := λ _, default_supports_durable_wait;
  submit_wait_as := λ _, default_submit_wait_as;
  get_wait_as := λ _, default_get_wait_as;
  abandon_turn := λ _, default_abandon_turn;
  abandon_turn_as := λ _, default_abandon_turn_as default_abandon_turn;
|}.
End defaults.

(** * [InboxApprovalHandler] *)

(** Durations, in nanoseconds. *)
Definition from_millis (n : Z) : Z := n * 1000000.
Definition as_millis (d : Z) : Z := d / 1000000.
Definition MIN_POLL_INTERVAL : Z := from_millis 10.
Definition MAX_POLL_INTERVAL : Z := from_millis 60000.

(** The inbox it polls is the state of its operations. *)
Record InboxApprovalHandler := { poll_interval : Z }.

Definition InboxApprovalHandler_new (interval : Z) : result InboxApprovalHandler :=
  _ ← reject_if (negb (in_range MIN_POLL_INTERVAL MAX_POLL_INTERVAL interval))
        (InvalidConfiguration (fmt "approval poll interval must be {}-{} milliseconds"
           [ANum (as_millis MIN_POLL_INTERVAL); ANum (as_millis MAX_POLL_INTERVAL)]));
  Ok {| poll_interval := interval |}.

Section inbox_handler.
Context {W : Type} `{!ApprovalInbox W}.

(** The [loop] of [decide_as]: every iteration on a pending record sleeps
    once, then reloads it. *)
Fixpoint decide_loop (authority : AuthorityContext) (env : list (W → W)) (record : ApprovalRecord)
    (w : W) : W * option (result ApprovalDecision) :=
  match rec_status record with
  | RecordPending =>
      match env with
      | [] => (w, None)
      | others :: env =>
          match approval_get_as (aq_id (rec_request record)) authority (others w) with
          | (w', Ok (Some record')) => decide_loop authority env record' w'
          | (w', Ok None) =>
              (w', Some (Err (apv "approval disappeared while awaiting settlement" [])))
          | (w', Err e) => (w', Some (Err e))
          end
      end
  | RecordSettled decision _ => (w, Some (Ok decision))
  | RecordOrphaned reason => (w, Some (Err (apv "approval request was orphaned: {}" [AStr reason])))
  end.

Definition inbox_decide_as (_ : InboxApprovalHandler) (request : ApprovalRequest) (now_ms : Z)
    (authority : AuthorityContext) : waiting W ApprovalDecision := λ env w,
  match approval_submit_as request now_ms authority w with
  | (w', Ok record) => decide_loop authority env record w'
  | (w', Err e) => (w', Some (Err e))
  end.

Definition inbox_decide (h : InboxApprovalHandler) (request : ApprovalRequest) (now_ms : Z)
    : waiting W ApprovalDecision := λ env w,
  match AuthorityContext_new (aq_requested_by request) None with
  | Ok authority => inbox_decide_as h request now_ms authority env w
  | Err e => (w, Some (Err e))
  end.

Definition inbox_abandon_turn_as (_ : InboxApprovalHandler) (thread : ThreadId) (turn : TurnId)
    (reason : str) (clock : nat → Z) (authority : AuthorityContext) : M W () :=
  _ ← approval_orphan_turn_as thread turn reason clock authority;
  mret ().

#[global] Instance InboxHandler : ApprovalHandler InboxApprovalHandler W := {|
  handler_decide := inbox_decide;
  handler_decide_as := inbox_decide_as;
  supports_durable_wait := λ _, true;
  submit_wait_as := λ _, approval_submit_as;
  get_wait_as := λ _, approval_get_as;
  abandon_turn := λ h thread turn reason clock,
    inbox_abandon_turn_as h thread turn reason clock local_process;
  abandon_turn_as := inbox_abandon_turn_as;
|}.
End inbox_handler.
