(* ===== verification/ApprovalClients.v ===== *)
(** Clients of an Approval Inbox, proved against the contract [ApprovalLaws] and
    so true of the in-memory and of the SQLite inbox of
    src/src/approval/mod.rs: how stored requests evolve, the pending pages, and
    the handler that waits for a settlement. *)

From Stdlib Require Import ZArith Lia.
From stdpp Require Import sorting base tactics list gmap relations numbers strings option.
From stdpp Require Import list.
From S2P Require Import Prelude Ordering Kernel Digest Json Sqlite Approval ApprovalInbox ApprovalStores ApprovalHandler.

Section clients.
Context `{!Serialize ApprovalRequest, !Serialize ApprovalRecord}.
Context {W : Type} `{!ApprovalInbox W, !ApprovalLaws W}.

(** One call of the inbox, by anyone, successful or not. *)
Inductive ap_step (s : W) : W → Prop :=
| ap_submit request now a s' r : approval_submit_as request now a s = (s', r) → ap_step s s'
| ap_get id a s' r : approval_get_as id a s = (s', r) → ap_step s s'
| ap_pending limit a s' r : approval_pending_as limit a s = (s', r) → ap_step s s'
| ap_settle id rev d now a s' r : approval_settle_as id rev d now a s = (s', r) → ap_step s s'
| ap_orphan thread turn reason clock a s' r :
    approval_orphan_turn_as thread turn reason clock a s = (s', r) → ap_step s s'.

Definition ap_execution (s : W) : Prop :=
  ∃ s0, ai_inv s0 ∧ ai_view s0 = ∅ ∧ rtc ap_step s0 s.

(** How a stored request may change: a pending one is decided, by an
    attributed actor of its tenant other than its requester, or orphaned. *)
Inductive record_evolves (cur : ApprovalRecord) : ApprovalRecord → Prop :=
| evolves_same : record_evolves cur cur
| evolves_settled d now a :
    record_pending cur = true → rec_tenant_id cur = tenant_id a →
    aq_requested_by (rec_request cur) ≠ actor a → actor a ≠ UnattributedLegacy →
    record_evolves cur (settled_record cur d (actor a) now)
| evolves_orphaned reason now :
    record_pending cur = true → record_evolves cur (orphaned_record cur reason now).

Definition inbox_evolves (s s' : W) : Prop := ∀ id,
  (∀ cur, ai_view s !! id = Some cur →
     ∃ cur', ai_view s' !! id = Some cur' ∧ record_evolves cur cur') ∧
  (∀ cur', ai_view s !! id = None → ai_view s' !! id = Some cur' →
     ∃ request now a, aq_id request = id ∧ aq_requested_by request = actor a ∧
       cur' = new_record request (tenant_id a) now).

Lemma inbox_evolves_same s s' : ai_view s' = ai_view s → inbox_evolves s s'.
Proof.
  intros E id. rewrite E. split; [|congruence]. intros cur Hc. exists cur. split; [done|constructor].
Qed.

Lemma inbox_evolves_insert s s' id cur' :
  ai_view s' = <[id := cur']> (ai_view s) →
  (∀ cur, ai_view s !! id = Some cur → record_evolves cur cur') →
  (ai_view s !! id = None → ∃ request now a, aq_id request = id ∧
     aq_requested_by request = actor a ∧ cur' = new_record request (tenant_id a) now) →
  inbox_evolves s s'.
Proof.
  intros E H1 H2 k. rewrite E. destruct (decide (k = id)) as [->|Hne].
  - rewrite lookup_insert_eq. split; [eauto|]. intros c Hn [= <-]. auto.
  - rewrite lookup_insert_ne by done. split; [|congruence]. intros cur Hc. exists cur.
    split; [done|constructor].
Qed.

Lemma inbox_evolves_orphans s s' tenant thread turn reason part :
  (∀ id, orphans tenant thread turn reason part (ai_view s !! id) (ai_view s' !! id)) →
  inbox_evolves s s'.
Proof.
  intros H id. specialize (H id). destruct (ai_view s !! id) as [r|] eqn:E; simpl in H.
  - split; [|done]. intros cur [= <-]. destruct (pending_in_turn tenant thread turn r) eqn:Ep.
    + destruct H as [[now ->]|[_ ->]]; eexists; (split; [done|constructor]).
      by eapply pending_in_turn_pending.
    + exists r. split; [done|constructor].
  - split; [done|]. intros cur' _ Hc. congruence.
Qed.

Lemma ap_step_evolves s s' : ai_inv s → ap_step s s' → ai_inv s' ∧ inbox_evolves s s'.
Proof.
  intros Hi. destruct 1 as [request now a s' r H|id a s' r H|limit a s' r H|id rev d now a s' r H
    |thread turn reason clock a s' r H].
  - apply ai_submit_law in H as [Hi' Hr]; [|done]. split; [done|].
    destruct r as [rec|e]; [|by apply inbox_evolves_same].
    destruct Hr as (_ & Ha & [(_ & _ & _ & Hv)|(Hn & _ & -> & Hv)]); [by apply inbox_evolves_same|].
    eapply inbox_evolves_insert; [exact Hv|congruence|]. intros _. exists request, now, a.
    unfold validate_submission_authority in Ha. inv_ok. bool_hyps. split_and!; [done| |done].
    match goal with H : ¬ (_ ≠ _) |- _ => by apply dec_stable in H end.
  - apply ai_get_law in H as (Hi' & Hv & _); [|done]. split; [done|by apply inbox_evolves_same].
  - apply ai_pending_law in H as (Hi' & Hv & _); [|done]. split; [done|by apply inbox_evolves_same].
  - apply ai_settle_law in H as [Hi' Hr]; [|done]. split; [done|].
    destruct r as [rec|e]; [|by apply inbox_evolves_same].
    destruct Hr as (cur & Hcur & Ht & Hs & Hv).
    apply settle_record_ok in Hs as (_ & Ex & _ & Hp & Hne & Hact & _). rewrite Ex in Hv.
    eapply inbox_evolves_insert; [exact Hv| |congruence]. intros cur0 E. rewrite Hcur in E.
    injection E as <-. constructor; try done. by eapply current_actor_attributed.
  - apply ai_orphan_law in H as [Hi' Hr]; [|done]. split; [done|].
    destruct r as [n|e]; [destruct Hr as [_ Hr]|]; by eapply inbox_evolves_orphans.
Qed.

Lemma ap_steps_inv s s' : ai_inv s → rtc ap_step s s' → ai_inv s'.
Proof. intros Hi Hs. induction Hs as [s|s s1 s2 H _ IH]; [done|]. by destruct (ap_step_evolves _ _ Hi H); auto. Qed.

Lemma ap_execution_inv s : ap_execution s → ai_inv s.
Proof. intros (s0 & Hi & _ & Hs). by eapply ap_steps_inv. Qed.

(** What any number of calls does to a stored record. *)
Lemma ap_steps_record s s' id cur :
  ai_inv s → rtc ap_step s s' → ai_view s !! id = Some cur →
  ∃ cur', ai_view s' !! id = Some cur' ∧ record_evolves cur cur'.
Proof.
  intros Hi Hs. revert cur. induction Hs as [s|s s1 s2 H _ IH]; intros cur Hc.
  { exists cur. split; [done|constructor]. }
  destruct (ap_step_evolves _ _ Hi H) as [Hi1 Hev]. destruct (proj1 (Hev id) cur Hc) as (c1 & Hc1 & E1).
  destruct (IH Hi1 c1 Hc1) as (c2 & Hc2 & E2). exists c2. split; [done|].
  destruct E1 as [|d now a ? ? ? ?|reason now ?]; [done| |].
  - inversion E2; subst; [by constructor|done..].
  - inversion E2; subst; [by constructor|done..].
Qed.

(** C16: A decision is final and never the requester's own: whatever clients do
    afterwards, a decided or orphaned request stays exactly as it is, and a
    pending request keeps its content, tenant and submission time, and can
    only become terminal once, settled by an attributed actor of its own
    tenant that is not its requester, or orphaned.  No client can settle a
    terminal request. *)
Theorem approval_settled_once (s s' : W) (id : ApprovalId) (cur : ApprovalRecord)
    (He : ap_execution s) (Hs : rtc ap_step s s') (Hc : ai_view s !! id = Some cur) :
  ∃ cur', ai_view s' !! id = Some cur' ∧ record_evolves cur cur' ∧
    rec_request cur' = rec_request cur ∧ rec_tenant_id cur' = rec_tenant_id cur ∧
    rec_requested_at_ms cur' = rec_requested_at_ms cur ∧
    (record_pending cur = false → cur' = cur ∧
       ∀ rev d now a s'' rec, approval_settle_as id rev d now a s' ≠ (s'', Ok rec)) ∧
    (∀ d by_, rec_status cur' = RecordSettled d by_ →
       rec_revision cur' = 2%Z ∧ by_ ≠ aq_requested_by (rec_request cur') ∧
       validate_decision d = Ok ()).
Proof.
  apply ap_execution_inv in He as Hi. destruct (ap_steps_record s s' id cur Hi Hs Hc) as (cur' & Hc' & Hev).
  exists cur'. split; [done|]. split; [done|].
  assert (rec_request cur' = rec_request cur ∧ rec_tenant_id cur' = rec_tenant_id cur ∧
    rec_requested_at_ms cur' = rec_requested_at_ms cur) as (E1 & E2 & E3) by (by destruct Hev).
  split; [done|]. split; [done|]. split; [done|]. pose proof (ap_steps_inv s s' Hi Hs) as Hi'. split.
  - intros Hp. assert (cur' = cur) as -> by (destruct Hev; [done|congruence..]). split; [done|].
    intros rev d now a s'' rec Hr. apply ai_settle_law in Hr as [_ (c & Hc2 & _ & Hset & _)]; [|done].
    apply settle_record_ok in Hset as (_ & _ & _ & Hp' & _). congruence.
  - intros d by_ Hst. destruct (ai_stored s' Hi') as [Hok _].
    destruct (Hok id cur' Hc') as (_ & Hv & Hrev & Hleg). unfold record_pending in Hrev. rewrite Hst in Hrev.
    split; [done|]. unfold validate_record in Hv. inv_ok. unfold validate_lifecycle in *. rewrite Hst in *.
    destruct (rec_settled_at_ms cur') as [t|]; [|done]. inv_ok. bool_hyps. split; [|done].
    intros ->. match goal with H : _ && _ = false |- _ => apply andb_false_iff in H as [H|H] end; bool_hyps;
      [done|]. apply Hleg. by apply dec_stable.
Qed.

(** A Turn never holds more than 256 approval requests, settled ones included,
    whatever its clients do, and the submission that would exceed it is
    refused and stores nothing. *)
Theorem approval_turn_capacity (s : W) (request : ApprovalRequest) (a : AuthorityContext)
    (He : ap_execution s) :
  (count_values (same_turn request (tenant_id a)) (ai_view s) ≤ MAX_APPROVALS_PER_TURN)%Z ∧
  (count_values (same_turn request (tenant_id a)) (ai_view s) = MAX_APPROVALS_PER_TURN →
   ai_view s !! aq_id request = None →
   ∀ now s' r, approval_submit_as request now a s = (s', r) → is_ok r = false ∧ ai_view s' = ai_view s).
Proof.
  apply ap_execution_inv in He as Hi. split; [by apply ai_stored|].
  intros Hc Hn now s' r Hr. apply ai_submit_law in Hr as [_ Hr]; [|done].
  destruct r as [rec|e]; [|done]. destruct Hr as (_ & _ & [(E & _)|(_ & Hlt & _)]); [congruence|lia].
Qed.

(** A pending page holds exactly the oldest pending requests of the caller's
    tenant, by submission time and then identity, at most the limit: every
    other pending request of the tenant comes after all of them, and a page
    with room left out nothing. *)
Theorem approval_page_oldest (s s' : W) (limit : Z) (a : AuthorityContext) (page : list ApprovalRecord)
    (Hi : ai_inv s) (Hp : approval_pending_as limit a s = (s', Ok page)) :
  ai_view s' = ai_view s ∧ (len page ≤ limit)%Z ∧
  StronglySorted (key_before pending_cmp pending_key) page ∧
  (∀ r, r ∈ page → ai_view s !! aq_id (rec_request r) = Some r ∧ pending_of (tenant_id a) r = true) ∧
  (∀ id r, ai_view s !! id = Some r → pending_of (tenant_id a) r = true → r ∉ page →
     len page = limit ∧ ∀ r', r' ∈ page → key_before pending_cmp pending_key r' r).
Proof.
  apply ai_pending_law in Hp as (_ & Hv & Hp); [|done]. destruct (Hp page eq_refl) as [Hl ->]. clear Hp.
  pose proof (approvals_keyed _ (ai_stored s Hi)) as Hk.
  set (l := oldest_pending (tenant_id a) (ai_view s)). set (n := Z.to_nat limit).
  assert (StronglySorted (key_before pending_cmp pending_key) l) as Hs.
  { apply key_sorted_strict; [apply _|apply key_sort_sorted, _|].
    unfold l, oldest_pending. rewrite key_sort_perm. by apply pending_keys_distinct. }
  assert (∀ r, r ∈ l ↔ (∃ id, ai_view s !! id = Some r) ∧ pending_of (tenant_id a) r = true) as Hmem.
  { intros r. unfold l, oldest_pending. rewrite key_sort_perm, list_elem_of_In, filter_In,
      <-list_elem_of_In, elem_of_bt_values. done. }
  rewrite <-(take_drop n l) in Hs. apply StronglySorted_app in Hs as (H12 & Hs1 & _).
  split; [done|]. split; [unfold len; rewrite length_take; lia|]. split; [done|]. split.
  - intros r Hr%elem_of_take_sub%Hmem. destruct Hr as [[id Hr] Hp]. split; [|done].
    by rewrite (Hk id r Hr).
  - intros id r Hr Hp Hn. assert (r ∈ l) as Hin by (apply Hmem; eauto).
    rewrite <-(take_drop n l) in Hin. apply elem_of_app in Hin as [?|Hin]; [done|]. split.
    + unfold len. rewrite length_take. destruct (decide (n ≤ length l)%nat); [lia|].
      rewrite drop_ge in Hin by lia. by apply elem_of_nil in Hin.
    + intros r' Hr'. by apply H12.
Qed.

(** Abandoning a Turn leaves nothing to act on: every pending request of the
    Turn in the caller's tenant is orphaned with the given reason, they are
    counted, no other request changes, and from then on none of them can be
    settled. *)
Theorem approval_abandoned_turn (s s1 s2 : W) (thread : ThreadId) (turn : TurnId) (reason : str)
    (clock : nat → Z) (a : AuthorityContext) (n : Z) (Hi : ai_inv s)
    (Ho : approval_orphan_turn_as thread turn reason clock a s = (s1, Ok n)) (Hs : rtc ap_step s1 s2) :
  n = count_values (pending_in_turn (tenant_id a) thread turn) (ai_view s) ∧
  (∀ id r, ai_view s !! id = Some r → pending_in_turn (tenant_id a) thread turn r = false →
     ai_view s1 !! id = Some r) ∧
  (∀ id r, ai_view s !! id = Some r → pending_in_turn (tenant_id a) thread turn r = true →
     ∃ now, ai_view s2 !! id = Some (orphaned_record r reason now) ∧
       ∀ rev d now' b s3 rec, approval_settle_as id rev d now' b s2 ≠ (s3, Ok rec)).
Proof.
  apply ai_orphan_law in Ho as [Hi1 [Hn Hall]]; [|done]. split; [done|]. split.
  - intros id r Hr Hp. specialize (Hall id). rewrite Hr in Hall. simpl in Hall. by rewrite Hp in Hall.
  - intros id r Hr Hp. specialize (Hall id). rewrite Hr in Hall. simpl in Hall. rewrite Hp in Hall.
    destruct Hall as [[now Hnow]|[? _]]; [|done]. exists now.
    destruct (ap_steps_record s1 s2 id _ Hi1 Hs Hnow) as (cur' & Hc' & Hev).
    assert (cur' = orphaned_record r reason now) as -> by (by inversion Hev). split; [done|].
    intros rev d now' b s3 rec Hr'. apply ai_settle_law in Hr' as [_ (c & Hc2 & _ & Hset & _)];
      [|by eapply ap_steps_inv].
    apply settle_record_ok in Hset as (_ & _ & _ & Hp' & _). rewrite Hc' in Hc2. by injection Hc2 as <-.
Qed.

(** * The waiting handler *)

(** What may happen during the sleeps: calls of the inbox, by anyone. *)
Definition environment (env : list (W → W)) : Prop :=
  Forall (λ f, ∀ w, rtc ap_step w (f w)) env.

Lemma decide_loop_settled a env record w w' d :
  environment env → ai_inv w →
  (∃ cur, ai_view w !! aq_id (rec_request record) = Some cur ∧ record_evolves record cur ∧
     rec_tenant_id record = tenant_id a) →
  decide_loop a env record w = (w', Some (Ok d)) →
  ai_inv w' ∧ ∃ rec by_, ai_view w' !! aq_id (rec_request record) = Some rec ∧
    rec_status rec = RecordSettled d by_ ∧ rec_tenant_id rec = tenant_id a ∧ record_evolves record rec.
Proof.
  intros He. revert record w. induction He as [|f env Hf _ IH]; intros record w Hi (cur & Hcur & Hev & Ht) Hd;
    simpl in Hd; destruct (rec_status record) as [|d0 by_|reason] eqn:Est; try done.
  - injection Hd as <- <-. split; [done|]. exists cur, by_. split; [done|].
    assert (record_pending record = false) as Hp by (unfold record_pending; by rewrite Est).
    inversion Hev; subst; [|congruence..]. by split_and!.
  - destruct (approval_get_as _ a (f w)) as [w1 [[r1|]|e]] eqn:E; try done.
    pose proof (ap_steps_inv w (f w) Hi (Hf w)) as Hif.
    apply ai_get_law in E as (Hi1 & Hv1 & Hr1); [|done]. specialize (Hr1 _ eq_refl).
    symmetry in Hr1. apply stored_record_tenant in Hr1 as [Hr1 Ht1].
    destruct (ap_steps_record w (f w) _ cur Hi (Hf w) Hcur) as (cur1 & Hc1 & Hev1).
    rewrite Hr1 in Hc1. injection Hc1 as <-.
    assert (record_evolves record r1) as Hev'.
    { inversion Hev; subst; [done|..]; inversion Hev1; subst; done. }
    assert (rec_request r1 = rec_request record) as Eq by (by destruct Hev').
    apply IH in Hd as [Hi' (rec & by_ & R1 & R2 & R3 & R4)]; [|done|].
    2: { exists r1. rewrite Hv1, Eq. split; [done|]. split; [constructor|done]. }
    split; [done|]. exists rec, by_. rewrite <-Eq. split_and!; try done.
    inversion Hev'; subst; [done|..]; inversion R4; subst; done.
  - injection Hd as <- <-. split; [done|]. exists cur, by_. split; [done|].
    assert (record_pending record = false) as Hp by (unfold record_pending; by rewrite Est).
    inversion Hev; subst; [|congruence..]. by split_and!.
Qed.

(** C17: The handler never makes a decision up: what it returns for a request is
    the decision durably recorded for exactly that request in the caller's
    tenant, and it was made by an actor other than the requester, whatever
    other clients did while the handler slept. *)
Theorem handler_decision_durable (h : InboxApprovalHandler) (request : ApprovalRequest) (now : Z)
    (a : AuthorityContext) (env : list (W → W)) (w w' : W) (d : ApprovalDecision)
    (Hi : ai_inv w) (He : environment env)
    (Hd : inbox_decide_as h request now a env w = (w', Some (Ok d))) :
  ∃ rec by_, ai_view w' !! aq_id request = Some rec ∧ rec_request rec = request ∧
    rec_tenant_id rec = tenant_id a ∧ rec_status rec = RecordSettled d by_ ∧
    by_ ≠ aq_requested_by request ∧ validate_decision d = Ok ().
Proof.
  unfold inbox_decide_as in Hd. destruct (approval_submit_as request now a w) as [w1 [r|e]] eqn:E; [|done].
  apply ai_submit_law in E as (Hi1 & _ & _ & Hr); [|done].
  assert (ai_view w1 !! aq_id request = Some r ∧ rec_request r = request ∧ rec_tenant_id r = tenant_id a)
    as (R1 & R2 & R3).
  { destruct Hr as [(? & ? & ? & ->)|(_ & _ & -> & ->)]; [done|]. by rewrite lookup_insert_eq. }
  apply decide_loop_settled in Hd as [Hi' (rec & by_ & S1 & S2 & S3 & S4)]; [|done|done|].
  2: { exists r. rewrite R2. split; [done|]. split; [constructor|done]. }
  rewrite R2 in S1. exists rec, by_. assert (rec_request rec = request) as Eq by (by destruct S4).
  split; [done|]. split; [done|]. split; [done|]. split; [done|].
  destruct (proj1 (ai_stored w' Hi') _ _ S1) as (_ & Hv & _ & Hleg).
  unfold validate_record in Hv. inv_ok. unfold validate_lifecycle in *. rewrite S2 in *.
  destruct (rec_settled_at_ms rec) as [t|]; [|done]. inv_ok. bool_hyps. split; [|done].
  rewrite Eq in *. intros ->.
  match goal with H : _ && _ = false |- _ => apply andb_false_iff in H as [H|H] end; bool_hyps; [done|].
  apply Hleg. by apply dec_stable.
Qed.
End clients.

(** ** The in-memory handler always hears of a decision *)

Section waiting.
Context `{!Serialize ApprovalRequest, !Serialize ApprovalRecord}.

(** What the handler answers, given the status of the request. *)
Definition answer (s : ApprovalRecordStatus) : option (result ApprovalDecision) :=
  match s with
  | RecordPending => None
  | RecordSettled d _ => Some (Ok d)
  | RecordOrphaned reason => Some (Err (apv "approval request was orphaned: {}" [AStr reason]))
  end.

(** The inbox after all the sleeps. *)
Definition after (env : list (MemoryApprovals → MemoryApprovals)) (w : MemoryApprovals) : MemoryApprovals :=
  fold_left (λ w f, f w) env w.

(** The contract of the in-memory inbox, on records. *)
Lemma mem_steps_record (w w' : MemoryApprovals) (id : ApprovalId) (cur : ApprovalRecord) :
  approvals_ok w → rtc ap_step w w' → w !! id = Some cur →
  approvals_ok w' ∧ ∃ cur', w' !! id = Some cur' ∧ record_evolves cur cur'.
Proof.
  intros Hi Hs Hc. split; [exact (ap_steps_inv (W := MemoryApprovals) w w' Hi Hs)|].
  exact (ap_steps_record (W := MemoryApprovals) w w' id cur Hi Hs Hc).
Qed.

Lemma after_steps (env : list (MemoryApprovals → MemoryApprovals)) (w : MemoryApprovals) :
  environment env → rtc ap_step w (after env w).
Proof.
  intros He. revert w. induction He as [|f env Hf _ IH]; intros w; [done|].
  etrans; [apply Hf|apply IH].
Qed.

Lemma mem_decide_loop (a : AuthorityContext) (env : list (MemoryApprovals → MemoryApprovals))
    (record : ApprovalRecord) (w : MemoryApprovals) (id : ApprovalId) :
  environment env → approvals_ok w → w !! id = Some record → rec_tenant_id record = tenant_id a →
  approval_validate_identity "approval" id = Ok () → approval_validate_authority a = Ok () →
  ∃ rec, after env w !! id = Some rec ∧ (decide_loop a env record w).2 = answer (rec_status rec).
Proof.
  intros He. revert record w. induction He as [|f env Hf Henv IH]; intros record w Hi Hr Ht Hid Ha.
  { exists record. split; [done|]. simpl. by destruct (rec_status record). }
  pose proof (proj1 (proj1 Hi id record Hr)) as Eid.
  destruct (record_pending record) eqn:Ep.
  - destruct (mem_steps_record w (f w) id record Hi (Hf w) Hr) as (Hi1 & r1 & Hr1 & Hev).
    assert (rec_tenant_id r1 = tenant_id a) as Ht1 by (by destruct Hev).
    destruct (IH r1 (f w)) as (rec & R1 & R2); [done..|].
    exists rec. split; [done|]. simpl. unfold record_pending in Ep. destruct (rec_status record); try done.
    rewrite Eid. simpl. unfold mem_approval_get_as, mbind, M_bind, lift, get, mret, M_ret.
    rewrite Hid, Ha. simpl in Hr1. rewrite (proj2 (stored_record_tenant (f w) id r1 (tenant_id a))) by done.
    done.
  - assert (environment (f :: env)) as Hall by (by constructor).
    destruct (mem_steps_record w _ id record Hi (after_steps _ w Hall) Hr) as (_ & rec & R1 & R2).
    exists rec. split; [done|]. assert (rec = record) as -> by (inversion R2; [done|congruence..]).
    unfold record_pending in Ep. simpl. by destruct (rec_status record).
Qed.

(** C18: Waiting ends exactly when the request is decided: over the in-memory inbox
    and whatever other clients do while the handler sleeps, it is still
    waiting after the last sleep exactly when the request is still pending
    then; otherwise it has answered, with the recorded decision, or with the
    reason the request was orphaned. *)
Theorem handler_hears_decision (h : InboxApprovalHandler) (request : ApprovalRequest) (now : Z)
    (a : AuthorityContext) (env : list (MemoryApprovals → MemoryApprovals))
    (w w1 : MemoryApprovals) (r : ApprovalRecord)
    (Hi : approvals_ok w) (He : environment env)
    (Hs : mem_approval_submit_as request now a w = (w1, Ok r)) :
  ∃ rec, after env w1 !! aq_id request = Some rec ∧ rec_request rec = request ∧
    (inbox_decide_as h request now a env w).2 = answer (rec_status rec).
Proof.
  destruct (ai_submit_law (ApprovalLaws := MemoryApprovalLaws) request now a w w1 (Ok r) Hi Hs) as (Hi1 & Hreq & Hauth & Hr).
  assert (w1 !! aq_id request = Some r ∧ rec_request r = request ∧ rec_tenant_id r = tenant_id a)
    as (R1 & R2 & R3).
  { simpl in Hr. destruct Hr as [(? & ? & ? & ->)|(_ & _ & -> & ->)]; [done|]. by rewrite lookup_insert_eq. }
  assert (approval_validate_identity "approval" (aq_id request) = Ok ()) as Hid.
  { unfold validate_current_request, validate_request in Hreq. by inv_ok. }
  assert (approval_validate_authority a = Ok ()) as Ha
    by (unfold validate_submission_authority in Hauth; by inv_ok).
  destruct (mem_decide_loop a env r w1 (aq_id request)) as (rec & Hrec & Hans); try done.
  destruct (mem_steps_record w1 _ _ r Hi1 (after_steps env w1 He) R1) as (_ & rec' & Hrec' & Hev).
  rewrite Hrec in Hrec'. injection Hrec' as <-.
  exists rec. split; [done|]. split; [by destruct Hev|].
  unfold inbox_decide_as. simpl. by rewrite Hs.
Qed.
End waiting.
