(* ===== verification/ApprovalDemo.v ===== *)
(** A small inbox on which the Approval theorems are exercised, and the two
    records that show what the terminal reserve does not cover.

    The encoding writes the status of a record as serde_json does, with its
    quotes and backslashes escaped, after a number of bytes that stands for
    the other fields: ten, or 519,000 for the request called [big]. *)

From Stdlib Require Import ZArith Lia.
From stdpp Require Import sorting base tactics list gmap relations numbers strings option.
From stdpp Require Import list.
From S2P Require Import Prelude Ordering Kernel Digest Json Sqlite Approval ApprovalInbox ApprovalStores ApprovalHandler ApprovalClients.

(** JSON escaping of a text without control characters. *)
Definition json_escape (s : str) : str :=
  flat_map (λ c, if (c =? 34)%N || (c =? 92)%N then [92%N; c] else [c]) s.

Definition quoted (s : str) : str := [34%N] ++ json_escape s ++ [34%N].

Definition demo_status (s : ApprovalRecordStatus) : str :=
  match s with
  | RecordPending => lit "pending"
  | RecordSettled DecisionApprove _ => lit "settled:approve"
  | RecordSettled (DecisionDeny reason) _ => lit "settled:deny:" ++ quoted reason
  | RecordOrphaned reason => lit "orphaned:" ++ quoted reason
  end.

Definition demo_size (id : ApprovalId) : Z := if bool_decide (id = lit "big") then 519000 else 10.

#[local] Instance demo_request_json : Serialize ApprovalRequest := λ _, Some (lit "{}").
#[local] Instance demo_record_json : Serialize ApprovalRecord := λ r,
  Some (repeat 120%N (Z.to_nat (demo_size (aq_id (rec_request r)))) ++ demo_status (rec_status r)).

Definition alice : ActorIdentity := Authenticated (lit "corp") (lit "alice").
Definition bob : ActorIdentity := Authenticated (lit "corp") (lit "bob").
Definition as_alice : AuthorityContext := {| actor := alice; tenant_id := None |}.
Definition as_bob : AuthorityContext := {| actor := bob; tenant_id := None |}.

Definition demo_approval (id : string) : ApprovalRequest :=
  {| aq_id := lit id; aq_requested_by := alice;
     aq_authorization :=
       {| ta_thread_id := lit "thread"; ta_turn_id := lit "turn"; ta_call_id := lit "call";
          ta_descriptor := {| td_name := lit "fixture.tool"; td_description := lit "fixture tool";
                              td_input_schema := JObject [] |};
          ta_origin := BuiltIn; ta_input := JObject [] |};
     aq_reason := lit "policy"; aq_risk := RiskHigh |}.

Definition demo_submit (id : string) (now : Z) (s : MemoryApprovals) : MemoryApprovals :=
  (mem_approval_submit_as (demo_approval id) now as_alice s).1.
Definition demo_settle (id : string) (s : MemoryApprovals) : MemoryApprovals :=
  (mem_approval_settle_as (lit id) 1 DecisionApprove 300 as_bob s).1.

(** Two requests; the first one is settled. *)
Definition inbox_two : MemoryApprovals := demo_submit "a2" 200 (demo_submit "a1" 100 ∅).
Definition inbox_settled : MemoryApprovals := demo_settle "a1" inbox_two.

Lemma demo_approval_runs :
  is_ok (mem_approval_submit_as (demo_approval "a1") 100 as_alice ∅).2 = true ∧
  is_ok (mem_approval_settle_as (lit "a1") 1 DecisionApprove 300 as_alice inbox_two).2 = false ∧
  is_ok (mem_approval_settle_as (lit "a1") 1 DecisionApprove 300 as_bob inbox_two).2 = true ∧
  is_ok (mem_approval_settle_as (lit "a1") 1 DecisionApprove 300 as_bob inbox_settled).2 = false ∧
  (mem_approval_orphan_turn_as (lit "thread") (lit "turn") (lit "gone") (λ _, 400%Z) as_bob inbox_settled).2
    = Ok 1%Z ∧
  (length <$> match (mem_approval_pending_as 16 as_bob inbox_two).2 with Ok l => Some l | Err _ => None end)
    = Some 2%nat.
Proof. vm_compute. split_and!; reflexivity. Qed.

Lemma demo_submit_step (id : string) (now : Z) (s : MemoryApprovals) : ap_step s (demo_submit id now s).
Proof.
  destruct (mem_approval_submit_as (demo_approval id) now as_alice s) as [s' r] eqn:E.
  unfold demo_submit. rewrite E. by eapply ap_submit.
Qed.

Lemma demo_settle_step (id : string) (s : MemoryApprovals) : ap_step s (demo_settle id s).
Proof.
  destruct (mem_approval_settle_as (lit id) 1 DecisionApprove 300 as_bob s) as [s' r] eqn:E.
  unfold demo_settle. rewrite E. by eapply ap_settle.
Qed.

Lemma inbox_two_steps : rtc ap_step (∅ : MemoryApprovals) inbox_two.
Proof. eapply rtc_l; [apply demo_submit_step|]. apply rtc_once, demo_submit_step. Qed.

Lemma inbox_two_execution : ap_execution (W := MemoryApprovals) inbox_two.
Proof. exists ∅. split; [exact approvals_ok_empty|]. split; [reflexivity|]. exact inbox_two_steps. Qed.

Lemma inbox_two_ok : approvals_ok inbox_two.
Proof. exact (ap_execution_inv (W := MemoryApprovals) inbox_two inbox_two_execution). Qed.

Lemma inbox_two_inv : ai_inv (W := MemoryApprovals) inbox_two.
Proof. exact inbox_two_ok. Qed.

Definition demo_record : ApprovalRecord := new_record (demo_approval "a1") None 100.

(** ** Witnesses *)

Lemma approval_settled_once_witness :
  ∃ cur', inbox_settled !! lit "a1" = Some cur' ∧ rec_request cur' = demo_approval "a1".
Proof.
  destruct (approval_settled_once (W := MemoryApprovals) inbox_two inbox_settled (lit "a1") demo_record)
    as (cur' & Hc & _ & Hr & _).
  - exact inbox_two_execution.
  - apply rtc_once, demo_settle_step.
  - vm_compute. reflexivity.
  - exists cur'. split; [exact Hc|exact Hr].
Defined.

Lemma approval_turn_capacity_witness :
  (count_values (same_turn (demo_approval "a3") None) inbox_two ≤ 256)%Z.
Proof.
  exact (proj1 (approval_turn_capacity (W := MemoryApprovals) inbox_two (demo_approval "a3") as_alice
    inbox_two_execution)).
Defined.

Lemma approval_page_oldest_witness :
  ∃ page, mem_approval_pending_as 1 as_bob inbox_two = (inbox_two, Ok page) ∧ (len page ≤ 1)%Z.
Proof.
  destruct (mem_approval_pending_as 1 as_bob inbox_two) as [s' [page|e]] eqn:E;
    [|exfalso; vm_compute in E; discriminate E].
  destruct (approval_page_oldest (W := MemoryApprovals) inbox_two s' 1 as_bob page inbox_two_inv E)
    as (Hv & Hl & _).
  exists page. split; [|exact Hl]. f_equal. exact Hv.
Defined.

Lemma approval_abandoned_turn_witness :
  ∃ now, (mem_approval_orphan_turn_as (lit "thread") (lit "turn") (lit "gone") (λ _, 400%Z) as_bob inbox_two).1
    !! lit "a1" = Some (orphaned_record demo_record (lit "gone") now).
Proof.
  destruct (mem_approval_orphan_turn_as (lit "thread") (lit "turn") (lit "gone") (λ _, 400%Z) as_bob inbox_two)
    as [s1 [n|e]] eqn:E; [|exfalso; vm_compute in E; discriminate E].
  destruct (approval_abandoned_turn (W := MemoryApprovals) inbox_two s1 s1 (lit "thread") (lit "turn")
    (lit "gone") (λ _, 400%Z) as_bob n inbox_two_inv E (rtc_refl _ _)) as (_ & _ & H).
  destruct (H (lit "a1") demo_record) as (now & Hnow & _); [vm_compute; reflexivity..|].
  exists now. exact Hnow.
Defined.

Definition demo_handler : InboxApprovalHandler := {| poll_interval := from_millis 10 |}.

Lemma demo_sleeps : environment [λ s, s; demo_settle "a2"].
Proof.
  constructor; [intros w; apply rtc_refl|]. constructor; [|constructor].
  intros w. apply rtc_once, demo_settle_step.
Qed.

Lemma handler_decision_durable_witness :
  ∃ rec by_, (inbox_decide_as demo_handler (demo_approval "a2") 200 as_alice
      [λ s, s; demo_settle "a2"] inbox_two).1 !! lit "a2" = Some rec ∧
    rec_status rec = RecordSettled DecisionApprove by_ ∧ by_ ≠ alice.
Proof.
  destruct (inbox_decide_as demo_handler (demo_approval "a2") 200 as_alice [λ s, s; demo_settle "a2"] inbox_two)
    as [w' o] eqn:E.
  assert (o = Some (Ok DecisionApprove)) as Ho by (vm_compute in E; injection E as _ <-; reflexivity).
  subst o.
  destruct (handler_decision_durable (W := MemoryApprovals) demo_handler (demo_approval "a2") 200 as_alice
    [λ s, s; demo_settle "a2"] inbox_two w' DecisionApprove inbox_two_inv demo_sleeps E)
    as (rec & by_ & H1 & _ & _ & H2 & H3 & _).
  exists rec, by_. split; [exact H1|]. split; [exact H2|exact H3].
Defined.

Lemma handler_hears_decision_witness :
  (inbox_decide_as demo_handler (demo_approval "a2") 200 as_alice [λ s, s; demo_settle "a2"] inbox_two).2
  = Some (Ok DecisionApprove).
Proof.
  destruct (mem_approval_submit_as (demo_approval "a2") 200 as_alice inbox_two) as [w1 [r|e]] eqn:E;
    [|exfalso; vm_compute in E; discriminate E].
  destruct (handler_hears_decision demo_handler (demo_approval "a2") 200 as_alice
    [λ s, s; demo_settle "a2"] inbox_two w1 r inbox_two_ok demo_sleeps E) as (rec & Hr & _ & Ha).
  rewrite Ha. assert (w1 = inbox_two) as -> by (vm_compute in E |- *; injection E as <- _; reflexivity).
  vm_compute in Hr. injection Hr as <-. reflexivity.
Defined.

(** ** The terminal reserve and escaped reasons *)

Lemma str_len_repeat c n : char_len c = 1%Z → str_len (repeat c n) = Z.of_nat n.
Proof. intros Hc. induction n as [|n IH]; [done|]. simpl. rewrite Hc, IH. lia. Qed.

(** A maximum reason, all quotes. *)
Definition quotes : str := repeat 34%N 4096.
Definition letters : str := repeat 120%N 4096.

Definition big_record : ApprovalRecord := new_record (demo_approval "big") None 100.

Lemma demo_record_size r maximum :
  (0 ≤ maximum ≤ usize_max)%Z →
  bounded_serialized_size r maximum =
  (let n := (demo_size (aq_id (rec_request r)) + str_len (demo_status (rec_status r)))%Z in
   if (n <=? maximum)%Z then inr n else inl LimitExceeded).
Proof.
  intros Hm. unfold bounded_serialized_size. unfold to_json, demo_record_json.
  rewrite bounded_size_pieces by done. simpl concat. rewrite app_nil_r, str_len_app.
  rewrite str_len_repeat by reflexivity. rewrite Z2Nat.id; [done|].
  unfold demo_size. case_bool_decide; lia.
Qed.

Lemma demo_validate_record r :
  validate_record r =
  (_ ← reject_if (negb (rec_schema_version r =? APPROVAL_INBOX_SCHEMA_VERSION)%Z
                 || (rec_revision r =? 0)%Z)
        (apv "approval record has unsupported schema or revision" []);
   _ ← validate_request (rec_request r);
   _ ← match rec_tenant_id r with
      | Some tenant => map_err into_approval (validate_tenant_id tenant)
      | None => Ok ()
      end;
   _ ← reject_if (bool_decide (aq_requested_by (rec_request r) = UnattributedLegacy) && record_pending r)
        (apv "legacy unattributed approval request cannot remain pending" []);
   _ ← validate_lifecycle r;
   reject_if (negb (demo_size (aq_id (rec_request r)) + str_len (demo_status (rec_status r))
                    <=? record_ceiling r)%Z)
     (approval_json_error "approval record lifecycle" (record_ceiling r) LimitExceeded)).
Proof.
  unfold validate_record. rewrite demo_record_size.
  2: { unfold record_ceiling, MAX_APPROVAL_RECORD_BYTES, APPROVAL_TERMINAL_RECORD_RESERVE_BYTES,
         MAX_APPROVAL_REASON_BYTES, usize_max, u64_max. destruct (record_pending r); lia. }
  simpl. destruct (_ <=? record_ceiling r)%Z; reflexivity.
Qed.

Definition reserve_error : HarnessError :=
  approval_json_error "approval record lifecycle" MAX_APPROVAL_RECORD_BYTES LimitExceeded.

Lemma big_quotes_orphan now : orphan_record quotes now big_record = (big_record, Err reserve_error).
Proof.
  rewrite orphan_record_validates by (vm_compute; reflexivity). rewrite demo_validate_record.
  vm_compute. reflexivity.
Qed.

Lemma small_quotes_orphan now :
  orphan_record quotes now demo_record = (orphaned_record demo_record quotes now, Ok ()).
Proof.
  rewrite orphan_record_validates by (vm_compute; reflexivity). rewrite demo_validate_record.
  replace (_ ← _; _) with (Ok ()); [reflexivity|]. vm_compute. reflexivity.
Qed.

(** The bytes a pending record keeps free for its terminal form,
    [APPROVAL_TERMINAL_RECORD_RESERVE_BYTES], cover a reason of the maximum
    length whose characters are encoded as they are, but not one whose
    characters are escaped: a valid pending record can neither be denied nor
    orphaned with a valid reason made of quotes. *)
Theorem terminal_reserve_short :
  validate_record big_record = Ok () ∧
  validate_decision (DecisionDeny quotes) = Ok () ∧ approval_validate_reason "orphan" quotes = Ok () ∧
  settle_record 1 (DecisionDeny quotes) bob 300 big_record = (big_record, Err reserve_error) ∧
  orphan_record quotes 300 big_record = (big_record, Err reserve_error) ∧
  is_ok (settle_record 1 (DecisionDeny letters) bob 300 big_record).2 = true.
Proof.
  split_and!.
  - rewrite demo_validate_record. vm_compute. reflexivity.
  - vm_compute. reflexivity.
  - vm_compute. reflexivity.
  - rewrite settle_record_validates by (done || (vm_compute; reflexivity)). rewrite demo_validate_record.
    vm_compute. reflexivity.
  - apply big_quotes_orphan.
  - rewrite settle_record_validates by (done || (vm_compute; reflexivity)). rewrite demo_validate_record.
    replace (_ ← _; _) with (Ok ()); [reflexivity|]. vm_compute. reflexivity.
Qed.

(** A small request, and the large one, in the same Turn. *)
Definition inbox_big : MemoryApprovals :=
  <[lit "big" := big_record]> (<[lit "a1" := demo_record]> ∅).

Lemma inbox_big_ok : approvals_ok inbox_big.
Proof.
  unfold inbox_big, big_record, demo_record.
  apply (approvals_ok_new _ (demo_approval "big") None 100).
  - apply (approvals_ok_new _ (demo_approval "a1") None 100); [exact approvals_ok_empty|..];
      vm_compute; reflexivity.
  - vm_compute. reflexivity.
  - vm_compute. reflexivity.
  - rewrite demo_validate_record. vm_compute. reflexivity.
  - vm_compute. reflexivity.
Qed.

Lemma inbox_big_turn :
  List.filter (λ p : ApprovalId * ApprovalRecord,
    pending_in_turn (tenant_id as_bob) (lit "thread") (lit "turn") p.2) (bt_iter inbox_big)
  = [(lit "a1", demo_record); (lit "big", big_record)].
Proof. vm_compute. reflexivity. Qed.

(** Orphaning a Turn with two pending records, of which the second refuses. *)
Lemma mem_orphan_second_refuses (thread turn reason : str) (clock : nat → Z) (a : AuthorityContext)
    (s : MemoryApprovals) (k1 k2 : ApprovalId) (r1 r1' r2 : ApprovalRecord) (e : HarnessError) :
  approval_validate_identity "thread" thread = Ok () → approval_validate_identity "turn" turn = Ok () →
  approval_validate_reason "orphan" reason = Ok () → approval_validate_authority a = Ok () →
  List.filter (λ p : ApprovalId * ApprovalRecord, pending_in_turn (tenant_id a) thread turn p.2) (bt_iter s)
    = [(k1, r1); (k2, r2)] →
  orphan_record reason (clock 0%nat) r1 = (r1', Ok ()) →
  orphan_record reason (clock 1%nat) r2 = (r2, Err e) →
  mem_approval_orphan_turn_as thread turn reason clock a s = (<[k2 := r2]> (<[k1 := r1']> s), Err e).
Proof.
  intros H1 H2 H3 H4 Hf E1 E2. unfold mem_approval_orphan_turn_as, mbind, M_bind, lift, get.
  rewrite H1, H2, H3, H4, Hf. cbn [mem_orphan_loop]. unfold mbind, M_bind, lift, modify.
  rewrite E1. cbn [fst snd]. rewrite E2. done.
Qed.

(** The in-memory inbox does not undo a failed orphaning: when a later record
    of the Turn is refused, the call reports the error, but the records before
    it stay orphaned.  The SQLite inbox rolls the transaction back. *)
Theorem memory_orphan_partial :
  ∃ s', mem_approval_orphan_turn_as (lit "thread") (lit "turn") quotes (λ _, 400%Z) as_bob inbox_big
        = (s', Err reserve_error) ∧
    s' !! lit "a1" = Some (orphaned_record demo_record quotes 400) ∧
    s' !! lit "big" = Some big_record.
Proof.
  exists (<[lit "big" := big_record]> (<[lit "a1" := orphaned_record demo_record quotes 400]> inbox_big)).
  split; [|split; [|by rewrite lookup_insert_eq]].
  - refine (mem_orphan_second_refuses _ _ _ _ _ _ _ _ demo_record _ _ _ _ _ _ _ inbox_big_turn
      (small_quotes_orphan 400) (big_quotes_orphan 400)); vm_compute; reflexivity.
  - rewrite lookup_insert_ne by (vm_compute; congruence). by rewrite lookup_insert_eq.
Qed.
