(* ===== verification/Journal.v ===== *)
(** The data of the State journal: the kernel types (src/src/kernel/types.rs)
    of a Turn's items, of the evidence an Agent Loop wait leaves in them, and of
    the events a Thread is made of, with the receipt of a completed Turn
    (src/src/completion.rs). *)

From Stdlib Require Import ZArith Lia.
From stdpp Require Import base tactics list gmap numbers strings option.
From stdpp Require Import list.
From S2P Require Import Prelude Kernel Digest Json Approval ApprovalHandler.

Abbreviation ItemId := str (only parsing).
Abbreviation EventId := str (only parsing).
Abbreviation CheckpointId := str (only parsing).
Abbreviation SteeringId := str (only parsing).
Abbreviation ToolCallBatchId := str (only parsing).
Abbreviation AgentLoopWaitId := str (only parsing).
Abbreviation AgentLoopResumeCommandId := str (only parsing).
Abbreviation AgentLoopClaimId := str (only parsing).
Abbreviation AgentLoopWorkerId := str (only parsing).
Abbreviation AgentLoopCloseCommandId := str (only parsing).
Abbreviation AgentLoopDenyCommandId := str (only parsing).

#[global] Instance AuthorityContext_eq : EqDecision AuthorityContext.
Proof. solve_decision. Defined.
#[global] Instance PolicyDecision_eq : EqDecision PolicyDecision.
Proof. solve_decision. Defined.

(** * Turns and their ends *)

Inductive TurnStatus :=
| TurnIsRunning
| TurnIsCompleted
| TurnIsFailed
| TurnIsCancelled
| TurnIsTimedOut
| TurnIsInterrupted.

Inductive TurnStopReason := StopCancelled | StopTimedOut.

Inductive ExecutionPhase :=
| PhaseContext
| PhaseModel
| PhasePolicy
| PhaseApproval
| PhaseTool
| PhaseEffect
| PhaseVerification
| PhaseEvaluation.

Inductive MemoryContextRecordStatus := MemoryLoaded | MemoryDegraded.

Inductive VerificationOutcome :=
| VerificationPassed (summary : option str)
| VerificationFailed (reason : str) (retryable : bool).

#[global] Instance TurnStatus_eq : EqDecision TurnStatus.
Proof. solve_decision. Defined.
#[global] Instance TurnStopReason_eq : EqDecision TurnStopReason.
Proof. solve_decision. Defined.
#[global] Instance ExecutionPhase_eq : EqDecision ExecutionPhase.
Proof. solve_decision. Defined.
#[global] Instance MemoryContextRecordStatus_eq : EqDecision MemoryContextRecordStatus.
Proof. solve_decision. Defined.
#[global] Instance VerificationOutcome_eq : EqDecision VerificationOutcome.
Proof. solve_decision. Defined.

(** * Completion receipts *)

Inductive CompletionRequirementStatus := NotRequired | Satisfied.
Inductive CompletionAssurance := RuntimeMeasured | DeploymentBound.

Record CompletionContract := {
  cc_artifact : CompletionRequirementStatus;
  cc_effect : CompletionRequirementStatus;
  cc_business_delivery : CompletionRequirementStatus;
}.

Record CompletionGeneration := {
  cg_format_version : Z;
  cg_model_request_sha256 : str;
  cg_model_route_sha256 : str;
  cg_tool_view_sha256 : str;
  cg_verifier_manifest_sha256 : str;
  cg_runtime_governance_sha256 : str;
  cg_execution_binding_sha256 : option str;
  cg_assurance : CompletionAssurance;
  cg_generation_sha256 : str;
}.

Record CompletionReceipt := {
  rc_format_version : Z;
  rc_authority : AuthorityContext;
  rc_source_thread_id : ThreadId;
  rc_turn_id : TurnId;
  rc_candidate_item_id : ItemId;
  rc_candidate_sha256 : str;
  rc_turn_evidence_sha256 : str;
  rc_verifier_results_sha256 : str;
  rc_verifier_count : Z;
  rc_generation : CompletionGeneration;
  rc_contract : CompletionContract;
}.

#[global] Instance CompletionRequirementStatus_eq : EqDecision CompletionRequirementStatus.
Proof. solve_decision. Defined.
#[global] Instance CompletionAssurance_eq : EqDecision CompletionAssurance.
Proof. solve_decision. Defined.
#[global] Instance CompletionContract_eq : EqDecision CompletionContract.
Proof. solve_decision. Defined.
#[global] Instance CompletionGeneration_eq : EqDecision CompletionGeneration.
Proof. solve_decision. Defined.
#[global] Instance CompletionReceipt_eq : EqDecision CompletionReceipt.
Proof. solve_decision. Defined.

(** * Agent Loop waits *)

Inductive WaitKind :=
| WaitApproval (request : ApprovalRequest) (model_request_sha256 : str).

Record TurnWaitEnvelope := {
  we_wait_id : AgentLoopWaitId;
  we_revision : Z;
  we_thread_id : ThreadId;
  we_turn_id : TurnId;
  we_tenant_id : option str;
  we_requested_by : ApprovalActor;
  we_server_started_at_ms : Z;
  we_expires_at_ms : option Z;
  we_remaining_active_timeout_ms : option Z;
  we_completion_generation : CompletionGeneration;
  we_wait_kind : WaitKind;
  we_envelope_sha256 : str;
}.

Record ApprovalSettlementEvidence := {
  as_inbox_schema_version : Z;
  as_request : ApprovalRequest;
  as_tenant_id : option str;
  as_decision : ApprovalDecision;
  as_decided_by : ApprovalActor;
  as_inbox_revision : Z;
  as_requested_at_ms : Z;
  as_settled_at_ms : Z;
}.

Record ResumeEvidence := {
  re_wait_id : AgentLoopWaitId;
  re_previous_revision : Z;
  re_revision : Z;
  re_command_id : AgentLoopResumeCommandId;
  re_command_sha256 : str;
  re_settlement : ApprovalSettlementEvidence;
  re_accepted_at_ms : Z;
}.

Record ExecutionClaimEvidence := {
  xe_wait_id : AgentLoopWaitId;
  xe_previous_revision : Z;
  xe_revision : Z;
  xe_resume_command_id : AgentLoopResumeCommandId;
  xe_claim_id : AgentLoopClaimId;
  xe_worker_id : AgentLoopWorkerId;
  xe_claim_sha256 : str;
  xe_claimed_at_ms : Z;
}.

Record WaitClosureEvidence := {
  wc_wait_id : AgentLoopWaitId;
  wc_previous_revision : Z;
  wc_revision : Z;
  wc_command_id : AgentLoopCloseCommandId;
  wc_status : TurnStatus;
  wc_reason : TurnStopReason;
  wc_command_sha256 : str;
  wc_closed_at_ms : Z;
}.

Record WaitDenialEvidence := {
  wd_wait_id : AgentLoopWaitId;
  wd_previous_revision : Z;
  wd_revision : Z;
  wd_command_id : AgentLoopDenyCommandId;
  wd_command_sha256 : str;
  wd_settlement : ApprovalSettlementEvidence;
  wd_denied_at_ms : Z;
}.

Inductive AgentLoopExecution :=
| ExecWaiting (envelope : TurnWaitEnvelope)
| ExecReady (envelope : TurnWaitEnvelope) (resume : ResumeEvidence)
| ExecExecuting (envelope : TurnWaitEnvelope) (resume : ResumeEvidence)
    (claim : ExecutionClaimEvidence).

Definition exec_envelope (x : AgentLoopExecution) : TurnWaitEnvelope :=
  match x with
  | ExecWaiting envelope | ExecReady envelope _ | ExecExecuting envelope _ _ => envelope
  end.
Definition exec_wait_id (x : AgentLoopExecution) : AgentLoopWaitId :=
  match x with
  | ExecWaiting envelope | ExecReady envelope _ | ExecExecuting envelope _ _ => we_wait_id envelope
  end.
Definition exec_revision (x : AgentLoopExecution) : Z :=
  match x with
  | ExecWaiting envelope => we_revision envelope
  | ExecReady _ resume => re_revision resume
  | ExecExecuting _ _ claim => xe_revision claim
  end.

#[global] Instance WaitKind_eq : EqDecision WaitKind.
Proof. solve_decision. Defined.
#[global] Instance TurnWaitEnvelope_eq : EqDecision TurnWaitEnvelope.
Proof. solve_decision. Defined.
#[global] Instance ApprovalSettlementEvidence_eq : EqDecision ApprovalSettlementEvidence.
Proof. solve_decision. Defined.
#[global] Instance ResumeEvidence_eq : EqDecision ResumeEvidence.
Proof. solve_decision. Defined.
#[global] Instance ExecutionClaimEvidence_eq : EqDecision ExecutionClaimEvidence.
Proof. solve_decision. Defined.
#[global] Instance WaitClosureEvidence_eq : EqDecision WaitClosureEvidence.
Proof. solve_decision. Defined.
#[global] Instance WaitDenialEvidence_eq : EqDecision WaitDenialEvidence.
Proof. solve_decision. Defined.

(** * Items *)

Record ToolCallBatch := {
  tb_id : ToolCallBatchId;
  tb_index : Z;
  tb_size : Z;
}.

Record ModelContinuation := {
  mc_format : str;
  mc_items : list Json;
}.

Record ConnectorEvidenceClaim := {
  ccl_source : str;
  ccl_resource : str;
  ccl_version : str;
  ccl_observed_at_ms : Z;
  ccl_valid_until_ms : option Z;
  ccl_idempotency_key : option str;
}.

Record ConnectorEvidence := {
  ce_connector : str;
  ce_connector_origin : CapabilityOrigin;
  ce_authority : AuthorityContext;
  ce_output_sha256 : str;
  ce_claim : ConnectorEvidenceClaim;
}.

Record InvocationContextEvidence := {
  ic_source : str;
  ic_reference : str;
  ic_source_sha256 : str;
  ic_content_sha256 : str;
  ic_estimated_tokens : Z;
  ic_serialized_bytes : Z;
}.

Inductive ItemKind :=
| UserMessage (content : str)
| ItemExecutionBinding (bound_by : ActorIdentity) (binding : ExecutionBinding)
| SteeringQueued (steering_id : SteeringId) (submitted_by : ActorIdentity) (content : str)
| SteeringApplied (steering_id : SteeringId) (content : str)
| AssistantMessage (model_id : option str) (model_origin : option CapabilityOrigin)
    (model_request_sha256 : option str) (content : str)
| ProviderContinuation (model_id : str) (model_origin : CapabilityOrigin)
    (continuation : ModelContinuation)
| ToolCall (model_id : option str) (model_origin : option CapabilityOrigin) (call_id name : str)
    (input : Json) (batch : option ToolCallBatch)
| ItemPolicyDecision (call_id : str) (tool_origin : option CapabilityOrigin)
    (decision : PolicyDecision)
| ApprovalRequested (approval_id : ApprovalId) (call_id tool reason : str) (risk : RiskLevel)
    (requested_by : option ApprovalActor) (tool_origin : option CapabilityOrigin)
    (model_request_sha256 : option str)
| ItemApprovalDecision (approval_id : ApprovalId) (call_id : str) (decision : ApprovalDecision)
| AgentLoopWaitStarted (envelope : TurnWaitEnvelope)
| AgentLoopResumeAccepted (evidence : ResumeEvidence)
| AgentLoopReadyClaimed (evidence : ExecutionClaimEvidence)
| AgentLoopWaitClosed (evidence : WaitClosureEvidence)
| AgentLoopWaitDenied (evidence : WaitDenialEvidence)
| ToolResult (call_id : str) (output : Json) (is_error : bool)
    (connector_evidence : list ConnectorEvidence)
| MemoryContext (provider : str) (status : MemoryContextRecordStatus) (references : list str)
    (packed_tokens : Z) (warnings : list str)
| ConversationContext (included_turns : list TurnId) (dropped_turns estimated_tokens : Z)
| ConversationSummary (compactor : str) (covered_turns : list TurnId) (older_omitted_turns : Z)
    (source_sha256 content_sha256 : str) (estimated_tokens serialized_bytes : Z)
| InvocationContext (submitted_by : ActorIdentity) (blocks : list InvocationContextEvidence)
| RuntimeError (message : str)
| TurnStopped (reason : TurnStopReason) (phase : ExecutionPhase)
| VerificationResult (verifier : str) (candidate_item_id : option ItemId)
    (verifier_origin : option CapabilityOrigin) (verifier_binding_sha256 : option str)
    (outcome : VerificationOutcome).

Record Item := {
  it_id : ItemId;
  it_created_at_ms : Z;
  it_kind : ItemKind;
}.

#[global] Instance ToolCallBatch_eq : EqDecision ToolCallBatch.
Proof. solve_decision. Defined.
#[global] Instance ModelContinuation_eq : EqDecision ModelContinuation.
Proof. solve_decision. Defined.
#[global] Instance ConnectorEvidenceClaim_eq : EqDecision ConnectorEvidenceClaim.
Proof. solve_decision. Defined.
#[global] Instance ConnectorEvidence_eq : EqDecision ConnectorEvidence.
Proof. solve_decision. Defined.
#[global] Instance InvocationContextEvidence_eq : EqDecision InvocationContextEvidence.
Proof. solve_decision. Defined.
#[global] Instance ItemKind_eq : EqDecision ItemKind.
Proof. solve_decision. Defined.
#[global] Instance Item_eq : EqDecision Item.
Proof. solve_decision. Defined.

(** * Threads *)

Record Checkpoint := {
  cp_id : CheckpointId;
  cp_thread_id : ThreadId;
  cp_turn_id : option TurnId;
  cp_target_sequence : Z;
  cp_created_at_ms : Z;
  cp_label : option str;
}.

Record ThreadLineage := {
  tl_parent_thread_id : ThreadId;
  tl_parent_through_sequence : Z;
  tl_parent_stream_version : Z;
  tl_parent_events_sha256 : str;
}.

Record ThreadImportOrigin := {
  io_source_thread_id : ThreadId;
  io_source_stream_version : Z;
  io_source_last_sequence : Z;
  io_source_events_sha256 : str;
  io_source_lineage : option ThreadLineage;
}.

Record Turn := {
  tn_id : TurnId;
  tn_thread_id : ThreadId;
  tn_status : TurnStatus;
  tn_items : list Item;
  tn_completion_receipt : option CompletionReceipt;
}.

Record Thread := {
  th_id : ThreadId;
  th_tenant_id : option str;
  th_name : option str;
  th_lineage : option ThreadLineage;
  th_import_origin : option ThreadImportOrigin;
  th_created_at_ms : Z;
  th_turns : list Turn;
  th_checkpoints : list Checkpoint;
}.

#[global] Instance Checkpoint_eq : EqDecision Checkpoint.
Proof. solve_decision. Defined.
#[global] Instance ThreadLineage_eq : EqDecision ThreadLineage.
Proof. solve_decision. Defined.
#[global] Instance ThreadImportOrigin_eq : EqDecision ThreadImportOrigin.
Proof. solve_decision. Defined.
#[global] Instance Turn_eq : EqDecision Turn.
Proof. solve_decision. Defined.
#[global] Instance Thread_eq : EqDecision Thread.
Proof. solve_decision. Defined.

(** * Events *)

Inductive StateEvent :=
| EvThreadCreated (created_at_ms : Z) (tenant_id : option str)
| EvThreadNamed (name : option str)
| EvThreadForked (lineage : ThreadLineage)
| EvThreadImported (origin : ThreadImportOrigin)
| EvTurnStarted (turn_id : TurnId)
| EvItemAppended (turn_id : TurnId) (item : Item)
| EvToolCallsAppended (turn_id : TurnId) (calls : list Item)
| EvWaitStarted (turn_id : TurnId) (approval_requested transition : Item)
| EvAcceptResume (turn_id : TurnId) (approval_decision transition : Item)
| EvClaimReady (turn_id : TurnId) (transition : Item)
| EvWaitClosed (turn_id : TurnId) (stopped transition : Item) (status : TurnStatus)
| EvDenyWait (turn_id : TurnId) (approval_decision transition : Item)
| EvTurnCompleted (turn_id : TurnId) (receipt : CompletionReceipt)
| EvTurnFinished (turn_id : TurnId) (status : TurnStatus)
| EvCheckpointCreated (checkpoint : Checkpoint).

Record PendingEvent := {
  pe_event_id : EventId;
  pe_thread_id : ThreadId;
  pe_expected_stream_version : Z;
  pe_expected_stream_recovery_bytes : Z;
  pe_recorded_at_ms : Z;
  pe_event : StateEvent;
}.

Record NewStreamEvent := {
  ne_event_id : EventId;
  ne_schema_version : Z;
  ne_recorded_at_ms : Z;
  ne_event : StateEvent;
}.

Record StoredEvent := {
  se_schema_version : Z;
  se_sequence : Z;
  se_event_id : EventId;
  se_thread_id : ThreadId;
  se_recorded_at_ms : Z;
  se_event : StateEvent;
}.

#[global] Instance StateEvent_eq : EqDecision StateEvent.
Proof. solve_decision. Defined.
#[global] Instance StoredEvent_eq : EqDecision StoredEvent.
Proof. solve_decision. Defined.

Inductive EventAppendDisposition := DispositionApplied | DispositionDuplicate | DispositionUnknown.

Record EventAppendResult := {
  ear_stored : StoredEvent;
  ear_disposition : EventAppendDisposition;
}.
