(* ===== verification/WaitDue.v ===== *)
(** The due index of Agent Loop waits, src/src/state/wait_due.rs: the live
    projection of one wait, the reducer that maintains it from the events of
    the journal, the pages a due scan returns, and the identities of the
    commands that settle a due wait.

    The commands that settle due Agent Loop waits: the input of their digest
    determines every field it binds, so that two waits share a command only if
    they agree on those fields or SHA-256 collides. *)

From Stdlib Require Import ZArith Lia.
From stdpp Require Import base tactics list gmap numbers strings option.
From stdpp Require Import list.
From S2P Require Import Prelude Ordering Kernel Digest Approval Journal.

(** * Constants and errors *)

Definition MAX_AGENT_LOOP_DUE_SCAN_LIMIT : Z := 256.
Definition MAX_STATE_IDENTITY_BYTES : Z := 256.
Definition TIMEOUT_COMMAND_DOMAIN : str := lit "y-harness.agent-loop.wait-timeout-command.v1".
Definition DENIAL_COMMAND_DOMAIN : str :=
  lit "y-harness.agent-loop.wait-denial-maintenance-command.v1".

Definition invalid_due_message (reason : message) : HarnessError :=
  State (prefixed "Agent Loop due scan " reason).
Definition invalid_due (reason : string) : HarnessError := invalid_due_message (fmt reason []).

Definition state_validate_identity (kind : string) (value : str) : result () :=
  reject_if (str_is_empty value || (MAX_STATE_IDENTITY_BYTES <? str_len value)%Z
             || any_control value)
    (invalid_due_message (fmt "{} identity must be 1-{} non-control bytes"
       [ALit kind; ANum MAX_STATE_IDENTITY_BYTES])).

Definition due_validate_tenant (tenant_id : option str) (reason : string) : result () :=
  match tenant_id with
  | Some tenant => map_err (λ _, invalid_due reason) (validate_tenant_id tenant)
  | None => Ok ()
  end.

(** * Phases *)

Inductive AgentLoopDuePhase := DueWaiting | DueReadyAllow | DueReadyDeny.

#[global] Instance AgentLoopDuePhase_eq : EqDecision AgentLoopDuePhase.
Proof. solve_decision. Defined.

Definition phase_as_wire (p : AgentLoopDuePhase) : str :=
  match p with
  | DueWaiting => lit "waiting"
  | DueReadyAllow => lit "ready_allow"
  | DueReadyDeny => lit "ready_deny"
  end.
Definition phase_as_sql (p : AgentLoopDuePhase) : Z :=
  match p with DueWaiting => 1 | DueReadyAllow => 2 | DueReadyDeny => 3 end.
Definition phase_from_sql (value : Z) : result AgentLoopDuePhase :=
  match value with
  | 1%Z => Ok DueWaiting
  | 2%Z => Ok DueReadyAllow
  | 3%Z => Ok DueReadyDeny
  | _ => Err (invalid_due "projection phase is unsupported")
  end.

(** * Cursors and due waits *)

Record AgentLoopDueCursor := {
  ac_due_at_ms : Z;
  ac_thread_id : ThreadId;
  ac_turn_id : TurnId;
  ac_wait_id : AgentLoopWaitId;
}.

#[global] Instance AgentLoopDueCursor_eq : EqDecision AgentLoopDueCursor.
Proof. solve_decision. Defined.

(** The derived [Ord] of the cursor. *)
Definition cursor_cmp (c d : AgentLoopDueCursor) : comparison :=
  then_with (Z.compare (ac_due_at_ms c) (ac_due_at_ms d))
    (then_with (str_cmp (ac_thread_id c) (ac_thread_id d))
      (then_with (str_cmp (ac_turn_id c) (ac_turn_id d))
        (str_cmp (ac_wait_id c) (ac_wait_id d)))).
Definition cursor_leb (c d : AgentLoopDueCursor) : bool :=
  match cursor_cmp c d with Gt => false | _ => true end.

Definition cursor_validate (c : AgentLoopDueCursor) : result () :=
  _ ← reject_if (ac_due_at_ms c =? 0)%Z (invalid_due "cursor due time must be non-zero");
  _ ← state_validate_identity "cursor Thread" (ac_thread_id c);
  _ ← state_validate_identity "cursor Turn" (ac_turn_id c);
  state_validate_identity "cursor wait" (ac_wait_id c).

Record AgentLoopDueWait := {
  aw_phase : AgentLoopDuePhase;
  aw_tenant_id : option str;
  aw_thread_id : ThreadId;
  aw_turn_id : TurnId;
  aw_wait_id : AgentLoopWaitId;
  aw_revision : Z;
  aw_due_at_ms : Z;
  aw_envelope_sha256 : str;
  aw_wait_started_event_id : EventId;
  aw_current_transition_event_id : EventId;
  aw_expected_stream_version : Z;
  aw_expected_stream_recovery_bytes : Z;
}.

#[global] Instance AgentLoopDueWait_eq : EqDecision AgentLoopDueWait.
Proof. solve_decision. Defined.

Definition due_cursor (due : AgentLoopDueWait) : AgentLoopDueCursor := {|
  ac_due_at_ms := aw_due_at_ms due;
  ac_thread_id := aw_thread_id due;
  ac_turn_id := aw_turn_id due;
  ac_wait_id := aw_wait_id due;
|}.

Definition due_validate (due : AgentLoopDueWait) (at_ms : Z) (expected_tenant_id : option str)
    : result () :=
  _ ← reject_if ((at_ms =? 0)%Z || (aw_due_at_ms due =? 0)%Z || (at_ms <? aw_due_at_ms due)%Z)
        (invalid_due "wait has not reached its server due time");
  _ ← state_validate_identity "Thread" (aw_thread_id due);
  _ ← state_validate_identity "Turn" (aw_turn_id due);
  _ ← state_validate_identity "wait" (aw_wait_id due);
  _ ← due_validate_tenant (aw_tenant_id due) "tenant identity is invalid";
  _ ← reject_if (bool_decide (aw_tenant_id due ≠ expected_tenant_id))
        (invalid_due "tenant projection differs from scan authority");
  let valid_revision :=
    match aw_phase due with
    | DueWaiting => (aw_revision due =? 1)%Z
    | DueReadyAllow | DueReadyDeny => (2 <=? aw_revision due)%Z
    end in
  _ ← reject_if (negb valid_revision) (invalid_due "phase and revision are inconsistent");
  _ ← reject_if (negb (is_lower_sha256 (aw_envelope_sha256 due)))
        (invalid_due "envelope digest is not lowercase SHA-256");
  _ ← state_validate_identity "wait-start event" (aw_wait_started_event_id due);
  _ ← state_validate_identity "current transition event" (aw_current_transition_event_id due);
  let same := bool_decide (aw_current_transition_event_id due = aw_wait_started_event_id due) in
  let valid_transition :=
    match aw_phase due with DueWaiting => same | DueReadyAllow | DueReadyDeny => negb same end in
  _ ← reject_if (negb valid_transition)
        (invalid_due "phase and current transition event are inconsistent");
  reject_if ((aw_expected_stream_version due =? 0)%Z
             || (aw_expected_stream_recovery_bytes due =? 0)%Z)
    (invalid_due "stream version and recovery-byte fences must be non-zero").

(** * The live projection *)

Record AgentLoopWaitProjection := {
  wp_phase : AgentLoopDuePhase;
  wp_tenant_id : option str;
  wp_thread_id : ThreadId;
  wp_turn_id : TurnId;
  wp_wait_id : AgentLoopWaitId;
  wp_revision : Z;
  wp_due_at_ms : option Z;
  wp_approval_id : ApprovalId;
  wp_envelope_sha256 : str;
  wp_wait_started_event_id : EventId;
  wp_current_transition_event_id : EventId;
  wp_resume_command_id : option AgentLoopResumeCommandId;
}.

#[global] Instance AgentLoopWaitProjection_eq : EqDecision AgentLoopWaitProjection.
Proof. solve_decision. Defined.

Definition projection_validate (p : AgentLoopWaitProjection) : result () :=
  _ ← state_validate_identity "projection Thread" (wp_thread_id p);
  _ ← state_validate_identity "projection Turn" (wp_turn_id p);
  _ ← state_validate_identity "projection wait" (wp_wait_id p);
  _ ← state_validate_identity "projection Approval" (wp_approval_id p);
  _ ← state_validate_identity "projection wait-start event" (wp_wait_started_event_id p);
  _ ← state_validate_identity "projection transition event" (wp_current_transition_event_id p);
  _ ← match wp_resume_command_id p with
      | Some command_id => state_validate_identity "projection resume command" command_id
      | None => Ok ()
      end;
  _ ← due_validate_tenant (wp_tenant_id p) "projection tenant is invalid";
  _ ← reject_if (bool_decide (wp_due_at_ms p = Some 0%Z)
                 || negb (is_lower_sha256 (wp_envelope_sha256 p)))
        (invalid_due "projection due time or envelope digest is invalid");
  let same := bool_decide (wp_current_transition_event_id p = wp_wait_started_event_id p) in
  let resumed := bool_decide (is_Some (wp_resume_command_id p)) in
  let consistent :=
    match wp_phase p with
    | DueWaiting => (wp_revision p =? 1)%Z && negb resumed && same
    | DueReadyAllow | DueReadyDeny => (2 <=? wp_revision p)%Z && resumed && negb same
    end in
  _ ← reject_if (negb consistent)
        (invalid_due "projection phase, revision, or transition is inconsistent");
  reject_if (bool_decide (wp_phase p = DueReadyDeny) && bool_decide (wp_due_at_ms p = None))
    (invalid_due "accepted denial must be immediately due").

Record AgentLoopDueIndexKey := {
  dk_tenant_id : option str;
  dk_due_at_ms : Z;
  dk_thread_id : ThreadId;
  dk_turn_id : TurnId;
  dk_wait_id : AgentLoopWaitId;
}.

#[global] Instance AgentLoopDueIndexKey_eq : EqDecision AgentLoopDueIndexKey.
Proof. solve_decision. Defined.

Definition due_index_key (p : AgentLoopWaitProjection) : option AgentLoopDueIndexKey :=
  (λ due_at_ms, {| dk_tenant_id := wp_tenant_id p; dk_due_at_ms := due_at_ms;
                   dk_thread_id := wp_thread_id p; dk_turn_id := wp_turn_id p;
                   dk_wait_id := wp_wait_id p |}) <$> wp_due_at_ms p.

Definition projection_due_wait (p : AgentLoopWaitProjection)
    (expected_stream_version expected_stream_recovery_bytes : Z) : result AgentLoopDueWait :=
  due_at_ms ← ok_or (wp_due_at_ms p) (invalid_due "projection is not scheduled");
  let due := {|
    aw_phase := wp_phase p;
    aw_tenant_id := wp_tenant_id p;
    aw_thread_id := wp_thread_id p;
    aw_turn_id := wp_turn_id p;
    aw_wait_id := wp_wait_id p;
    aw_revision := wp_revision p;
    aw_due_at_ms := due_at_ms;
    aw_envelope_sha256 := wp_envelope_sha256 p;
    aw_wait_started_event_id := wp_wait_started_event_id p;
    aw_current_transition_event_id := wp_current_transition_event_id p;
    aw_expected_stream_version := expected_stream_version;
    aw_expected_stream_recovery_bytes := expected_stream_recovery_bytes;
  |} in
  _ ← due_validate due due_at_ms (wp_tenant_id p);
  Ok due.

(** * The reducer *)

Inductive AgentLoopWaitProjectionChange :=
| ProjectionUnchanged
| ProjectionUpsert (next : AgentLoopWaitProjection)
| ProjectionDelete (previous : AgentLoopWaitProjection).

Definition require_current (current : option AgentLoopWaitProjection) (thread_id : ThreadId)
    (turn_id : TurnId) : result AgentLoopWaitProjection :=
  current ← ok_or current (invalid_due "lifecycle event has no live row");
  _ ← reject_if (bool_decide (wp_thread_id current ≠ thread_id)
                 || bool_decide (wp_turn_id current ≠ turn_id))
        (invalid_due "lifecycle event coordinates differ");
  _ ← projection_validate current;
  Ok current.

Definition settlement_matches_projection (settlement : ApprovalSettlementEvidence)
    (projection : AgentLoopWaitProjection) (source_thread_id : option ThreadId) : bool :=
  bool_decide (aq_id (as_request settlement) = wp_approval_id projection)
  && bool_decide (as_tenant_id settlement = wp_tenant_id projection)
  && bool_decide (ta_thread_id (aq_authorization (as_request settlement))
                  = default (wp_thread_id projection) source_thread_id)
  && bool_decide (ta_turn_id (aq_authorization (as_request settlement)) = wp_turn_id projection).

(** The revision fence every later event of a wait carries. *)
Definition fence_differs (previous : AgentLoopWaitProjection) (wait_id : AgentLoopWaitId)
    (previous_revision revision : Z) : bool :=
  bool_decide (wait_id ≠ wp_wait_id previous)
  || negb (previous_revision =? wp_revision previous)%Z
  || bool_decide (checked_add u64_max (wp_revision previous) 1 ≠ Some revision).

Definition projection_change_raw (stored : StoredEvent)
    (current : option AgentLoopWaitProjection) (source_thread_id : option ThreadId)
    : result AgentLoopWaitProjectionChange :=
  match se_event stored with
  | EvWaitStarted turn_id _ transition =>
      _ ← reject_if (bool_decide (is_Some current))
            (invalid_due "WaitStarted found an existing live row");
      match it_kind transition with
      | AgentLoopWaitStarted envelope =>
          let 'WaitApproval request _ := we_wait_kind envelope in
          _ ← reject_if (bool_decide (default (se_thread_id stored) source_thread_id
                                      ≠ we_thread_id envelope)
                         || bool_decide (turn_id ≠ we_turn_id envelope))
                (invalid_due "WaitStarted coordinates differ");
          Ok (ProjectionUpsert {|
            wp_phase := DueWaiting;
            wp_tenant_id := we_tenant_id envelope;
            wp_thread_id := se_thread_id stored;
            wp_turn_id := turn_id;
            wp_wait_id := we_wait_id envelope;
            wp_revision := we_revision envelope;
            wp_due_at_ms := we_expires_at_ms envelope;
            wp_approval_id := aq_id request;
            wp_envelope_sha256 := we_envelope_sha256 envelope;
            wp_wait_started_event_id := se_event_id stored;
            wp_current_transition_event_id := se_event_id stored;
            wp_resume_command_id := None;
          |})
      | _ => Err (invalid_due "WaitStarted transition kind is invalid")
      end
  | EvAcceptResume turn_id _ transition =>
      previous ← require_current current (se_thread_id stored) turn_id;
      _ ← reject_if (bool_decide (wp_phase previous ≠ DueWaiting))
            (invalid_due "AcceptResume requires Waiting");
      match it_kind transition with
      | AgentLoopResumeAccepted evidence =>
          _ ← reject_if (fence_differs previous (re_wait_id evidence)
                           (re_previous_revision evidence) (re_revision evidence)
                         || negb (settlement_matches_projection (re_settlement evidence)
                                    previous source_thread_id))
                (invalid_due "AcceptResume fence differs");
          let '(phase, due_at_ms) :=
            match as_decision (re_settlement evidence) with
            | DecisionApprove => (DueReadyAllow, wp_due_at_ms previous)
            | DecisionDeny _ => (DueReadyDeny, Some (re_accepted_at_ms evidence))
            end in
          Ok (ProjectionUpsert {|
            wp_phase := phase;
            wp_tenant_id := wp_tenant_id previous;
            wp_thread_id := wp_thread_id previous;
            wp_turn_id := wp_turn_id previous;
            wp_wait_id := wp_wait_id previous;
            wp_revision := re_revision evidence;
            wp_due_at_ms := due_at_ms;
            wp_approval_id := wp_approval_id previous;
            wp_envelope_sha256 := wp_envelope_sha256 previous;
            wp_wait_started_event_id := wp_wait_started_event_id previous;
            wp_current_transition_event_id := se_event_id stored;
            wp_resume_command_id := Some (re_command_id evidence);
          |})
      | _ => Err (invalid_due "AcceptResume transition kind is invalid")
      end
  | EvClaimReady turn_id transition =>
      previous ← require_current current (se_thread_id stored) turn_id;
      match it_kind transition with
      | AgentLoopReadyClaimed evidence =>
          _ ← reject_if (bool_decide (wp_phase previous ≠ DueReadyAllow)
                         || fence_differs previous (xe_wait_id evidence)
                              (xe_previous_revision evidence) (xe_revision evidence)
                         || bool_decide (wp_resume_command_id previous
                                         ≠ Some (xe_resume_command_id evidence)))
                (invalid_due "ClaimReady fence differs");
          Ok (ProjectionDelete previous)
      | _ => Err (invalid_due "ClaimReady transition kind is invalid")
      end
  | EvWaitClosed turn_id _ transition _ =>
      previous ← require_current current (se_thread_id stored) turn_id;
      match it_kind transition with
      | AgentLoopWaitClosed evidence =>
          _ ← reject_if (bool_decide (wp_phase previous = DueReadyDeny)
                         || fence_differs previous (wc_wait_id evidence)
                              (wc_previous_revision evidence) (wc_revision evidence))
                (invalid_due "WaitClosed fence differs");
          Ok (ProjectionDelete previous)
      | _ => Err (invalid_due "WaitClosed transition kind is invalid")
      end
  | EvDenyWait turn_id _ transition =>
      previous ← require_current current (se_thread_id stored) turn_id;
      match it_kind transition with
      | AgentLoopWaitDenied evidence =>
          _ ← reject_if (bool_decide (wp_phase previous = DueReadyAllow)
                         || fence_differs previous (wd_wait_id evidence)
                              (wd_previous_revision evidence) (wd_revision evidence)
                         || negb (settlement_matches_projection (wd_settlement evidence)
                                    previous source_thread_id)
                         || bool_decide (as_decision (wd_settlement evidence) = DecisionApprove))
                (invalid_due "DenyWait fence differs");
          Ok (ProjectionDelete previous)
      | _ => Err (invalid_due "DenyWait transition kind is invalid")
      end
  | EvTurnFinished turn_id _ | EvTurnCompleted turn_id _ =>
      _ ← reject_if (match current with
                     | Some row => bool_decide (wp_turn_id row = turn_id)
                     | None => false
                     end)
            (invalid_due "ordinary terminal event cannot bypass a live wait row");
      Ok ProjectionUnchanged
  | _ => Ok ProjectionUnchanged
  end.

Definition projection_change_inner (stored : StoredEvent)
    (current : option AgentLoopWaitProjection) (source_thread_id : option ThreadId)
    : result AgentLoopWaitProjectionChange :=
  change ← projection_change_raw stored current source_thread_id;
  _ ← match change with
      | ProjectionUpsert row => projection_validate row
      | _ => Ok ()
      end;
  Ok change.

Definition projection_change (stored : StoredEvent) (current : option AgentLoopWaitProjection)
    : result AgentLoopWaitProjectionChange :=
  projection_change_inner stored current None.

Definition projection_change_for_materialized_replay (stored : StoredEvent)
    (current : option AgentLoopWaitProjection) (source_thread_id : option ThreadId)
    : result AgentLoopWaitProjectionChange :=
  projection_change_inner stored current source_thread_id.

(** * Pages *)

Record AgentLoopDueScanPage := {
  adp_due : list AgentLoopDueWait;
  adp_next_cursor : option AgentLoopDueCursor;
  adp_has_more : bool;
  adp_scanned : Z;
}.

Definition validate_scan_limit (scan_limit : Z) : result () :=
  reject_if (negb (in_range 1 MAX_AGENT_LOOP_DUE_SCAN_LIMIT scan_limit))
    (invalid_due_message (fmt "scan limit must be 1-{}" [ANum MAX_AGENT_LOOP_DUE_SCAN_LIMIT])).

(** One round of the loop of [AgentLoopDueScanPage::validate]: the cursors of
    the previous row and of the last returned one. *)
Definition validate_due_row (at_ms : Z) (expected_tenant_id : option str)
    (st : option AgentLoopDueCursor * option AgentLoopDueCursor) (due : AgentLoopDueWait)
    : result (option AgentLoopDueCursor * option AgentLoopDueCursor) :=
  _ ← due_validate due at_ms expected_tenant_id;
  let cursor := due_cursor due in
  _ ← reject_if (match st.1 with Some prior => cursor_leb cursor prior | None => false end)
        (invalid_due "rows are not in advancing index order");
  Ok (Some cursor, Some cursor).

Definition due_page_validate (page : AgentLoopDueScanPage) (at_ms : Z)
    (after : option AgentLoopDueCursor) (scan_limit : Z) (expected_tenant_id : option str)
    : result () :=
  _ ← validate_scan_limit scan_limit;
  _ ← match after with Some after => cursor_validate after | None => Ok () end;
  _ ← reject_if (negb (adp_scanned page =? len (adp_due page))%Z
                 || (scan_limit <? adp_scanned page)%Z)
        (invalid_due "page counts exceed the bounded request");
  _ ← reject_if (negb (eqb (adp_scanned page =? 0)%Z (bool_decide (adp_next_cursor page = None))))
        (invalid_due "page cursor does not match its row count");
  _ ← reject_if (adp_has_more page && negb (adp_scanned page =? scan_limit)%Z)
        (invalid_due "partial page cannot report more rows");
  st ← fold_m (validate_due_row at_ms expected_tenant_id) (after, None) (adp_due page);
  reject_if (bool_decide (adp_next_cursor page ≠ st.2))
    (invalid_due "page cursor is not its last returned row").

Definition validate_due_scan_request (at_ms : Z) (after : option AgentLoopDueCursor)
    (scan_limit : Z) (tenant_id : option str) : result () :=
  _ ← reject_if (at_ms =? 0)%Z (invalid_due "trusted scan time must be non-zero");
  _ ← validate_scan_limit scan_limit;
  _ ← match after with
      | Some after =>
          _ ← cursor_validate after;
          reject_if (at_ms <? ac_due_at_ms after)%Z
            (invalid_due "cursor is later than trusted scan time")
      | None => Ok ()
      end;
  due_validate_tenant tenant_id "scan tenant is invalid".

(** * Command identities *)

Section commands.
Context `{!Sha256Bytes}.

(** [hash_component]: what it appends to the input of the hasher. *)
Definition hash_component (field_type value : list N) (hasher : list N) : result (list N) :=
  field_len ← ok_or (u64_of_len (len field_type))
                (invalid_due "maintenance command field type is too large");
  value_len ← ok_or (u64_of_len (len value))
                (invalid_due "maintenance command field value is too large");
  Ok (hasher ++ be_bytes 8 field_len ++ field_type ++ be_bytes 8 value_len ++ value).

(** The input of the hasher of [maintenance_command_digest]. *)
Definition maintenance_command_input (domain : str) (due : AgentLoopDueWait) : result (list N) :=
  _ ← reject_if (str_is_empty domain || (MAX_STATE_IDENTITY_BYTES <? str_len domain)%Z
                 || negb (forallb (λ c, (c <? 128)%N) domain))
        (invalid_due "maintenance command domain is invalid");
  h ← hash_component (utf8 (lit "domain")) (utf8 domain) [];
  h ← hash_component (utf8 (lit "phase")) (utf8 (phase_as_wire (aw_phase due))) h;
  h ← match aw_tenant_id due with
      | Some tenant_id =>
          h ← hash_component (utf8 (lit "tenant.presence")) (utf8 (lit "some")) h;
          hash_component (utf8 (lit "tenant.value")) (utf8 tenant_id) h
      | None => hash_component (utf8 (lit "tenant.presence")) (utf8 (lit "none")) h
      end;
  h ← hash_component (utf8 (lit "thread")) (utf8 (aw_thread_id due)) h;
  h ← hash_component (utf8 (lit "turn")) (utf8 (aw_turn_id due)) h;
  h ← hash_component (utf8 (lit "wait")) (utf8 (aw_wait_id due)) h;
  h ← hash_component (utf8 (lit "revision.u64be")) (be_bytes 8 (aw_revision due)) h;
  h ← hash_component (utf8 (lit "due_at_ms.u64be")) (be_bytes 8 (aw_due_at_ms due)) h;
  h ← hash_component (utf8 (lit "envelope.sha256")) (utf8 (aw_envelope_sha256 due)) h;
  h ← hash_component (utf8 (lit "wait_started.event")) (utf8 (aw_wait_started_event_id due)) h;
  hash_component (utf8 (lit "current_transition.event"))
    (utf8 (aw_current_transition_event_id due)) h.

Definition maintenance_command_digest (domain : str) (due : AgentLoopDueWait) : result str :=
  input ← maintenance_command_input domain due;
  Ok (concat (hex_byte <$> sha256_of_bytes input)).

Definition deterministic_timeout_command_id (due : AgentLoopDueWait)
    : result AgentLoopCloseCommandId :=
  _ ← reject_if (bool_decide (aw_phase due = DueReadyDeny))
        (invalid_due "accepted denial cannot use the timeout command path");
  _ ← due_validate due (aw_due_at_ms due) (aw_tenant_id due);
  digest ← maintenance_command_digest TIMEOUT_COMMAND_DOMAIN due;
  Ok (lit "agent-loop-timeout-" ++ digest).

Definition deterministic_denial_command_id (due : AgentLoopDueWait)
    : result AgentLoopDenyCommandId :=
  _ ← reject_if (bool_decide (aw_phase due ≠ DueReadyDeny))
        (invalid_due "only an accepted denial can use the denial maintenance path");
  _ ← due_validate due (aw_due_at_ms due) (aw_tenant_id due);
  digest ← maintenance_command_digest DENIAL_COMMAND_DOMAIN due;
  Ok (lit "agent-loop-denial-" ++ digest).

(** [agent_loop_due_command_id] of src/src/state/mod.rs. *)
Definition agent_loop_due_command_id (due : AgentLoopDueWait) : result str :=
  match aw_phase due with
  | DueWaiting | DueReadyAllow => deterministic_timeout_command_id due
  | DueReadyDeny => deterministic_denial_command_id due
  end.
End commands.

(** * The order of the due index *)

#[global] Instance due_cursor_total_cmp : TotalCmp cursor_cmp.
Proof.
  assert (TotalCmp (λ p q : str * str, then_with (str_cmp p.1 q.1) (str_cmp p.2 q.2))) as H1.
  { apply then_total_cmp; [apply _..|]. intros [a b] [c d]. simpl. congruence. }
  assert (TotalCmp (λ p q : str * (str * str), then_with (str_cmp p.1 q.1)
            (then_with (str_cmp p.2.1 q.2.1) (str_cmp p.2.2 q.2.2)))) as H2.
  { apply (then_total_cmp fst snd str_cmp _ (TotalCmp1 := H1)). intros [a b] [c d]. simpl. congruence. }
  apply (then_total_cmp ac_due_at_ms (λ c, (ac_thread_id c, (ac_turn_id c, ac_wait_id c)))
           Z.compare _ (TotalCmp1 := H2)).
  intros [a b c d] [a' b' c' d']. simpl. congruence.
Qed.

Lemma cursor_leb_false c d : cursor_leb c d = false ↔ cursor_cmp d c = Lt.
Proof.
  unfold cursor_leb. rewrite (cmp_flip (cmp:=cursor_cmp) d c). destruct (cursor_cmp d c); simpl; naive_solver.
Qed.

(** * Encodings *)

Lemma prefix_split {A} (l l' r r' : list A) :
  length l = length l' → l ++ r = l' ++ r' → l = l' ∧ r = r'.
Proof. intros Hl E. by apply app_inj_1. Qed.

Lemma be_bytes_length n x : length (be_bytes n x) = n.
Proof. induction n; simpl; congruence. Qed.

Lemma be_bytes_testbit n x y i :
  be_bytes n x = be_bytes n y → (0 ≤ i < 8 * Z.of_nat n)%Z → Z.testbit x i = Z.testbit y i.
Proof.
  induction n as [|n IH]; [lia|]. simpl. intros [= Hb Hr] Hi.
  destruct (Z.lt_decidable i (8 * Z.of_nat n)) as [Hlt|Hge]; [apply IH; [done|lia]|].
  apply Z2N.inj in Hb; try (apply Z.land_nonneg; right; lia).
  assert (Z.testbit (Z.land (Z.shiftr x (8 * Z.of_nat n)) 255) (i - 8 * Z.of_nat n)
          = Z.testbit (Z.land (Z.shiftr y (8 * Z.of_nat n)) 255) (i - 8 * Z.of_nat n)) as Ht by by rewrite Hb.
  rewrite !Z.land_spec, !Z.shiftr_spec in Ht by lia.
  change 255%Z with (Z.ones 8) in Ht. rewrite Z.ones_spec_low in Ht by lia.
  rewrite !andb_true_r in Ht. by replace (i - 8 * Z.of_nat n + 8 * Z.of_nat n)%Z with i in Ht by lia.
Qed.

Lemma be_bytes_inj n x y :
  (0 ≤ x < 2 ^ (8 * Z.of_nat n))%Z → (0 ≤ y < 2 ^ (8 * Z.of_nat n))%Z →
  be_bytes n x = be_bytes n y → x = y.
Proof.
  intros Hx Hy E. apply Z.bits_inj'. intros i Hi.
  destruct (Z.lt_decidable i (8 * Z.of_nat n)) as [Hlt|Hge]; [by eapply be_bytes_testbit|].
  rewrite <-(Z.mod_small x (2 ^ (8 * Z.of_nat n))), <-(Z.mod_small y (2 ^ (8 * Z.of_nat n))) by done.
  by rewrite !Z.mod_pow2_bits_high by lia.
Qed.

Lemma div_mod_eq (a b k : N) : k ≠ 0%N → (a / k = b / k → a mod k = b mod k → a = b)%N.
Proof. intros Hk H1 H2. rewrite (N.div_mod a k), (N.div_mod b k) by done. by rewrite H1, H2. Qed.

Lemma utf8_char_split c d r r' : utf8_char c ++ r = utf8_char d ++ r' → c = d ∧ r = r'.
Proof.
  assert (∀ a b, a / 4096 = b / 4096 → (a / 64) mod 64 = (b / 64) mod 64 → a mod 64 = b mod 64 → a = b)%N as H3.
  { intros a b H1 H2 H3. apply (div_mod_eq a b 64); [done| |done]. apply (div_mod_eq _ _ 64); [done| |done].
    rewrite !N.Div0.div_div. done. }
  assert (∀ a b, a / 262144 = b / 262144 → (a / 4096) mod 64 = (b / 4096) mod 64 →
            (a / 64) mod 64 = (b / 64) mod 64 → a mod 64 = b mod 64 → a = b)%N as H4.
  { intros a b H1 H2 H3' H4. apply H3; [|done..]. apply (div_mod_eq _ _ 64); [done| |done].
    rewrite !N.Div0.div_div. done. }
  unfold utf8_char. intros E.
  destruct (N.ltb_spec c 128), (N.ltb_spec d 128), (N.ltb_spec c 2048), (N.ltb_spec d 2048),
    (N.ltb_spec c 65536), (N.ltb_spec d 65536); simpl in E; try lia;
    repeat match goal with
    | Hc : (?x < 2048)%N |- _ => lazymatch goal with _ : (x / 64 < 32)%N |- _ => fail | _ =>
        assert (x / 64 < 32)%N by (apply N.Div0.div_lt_upper_bound; lia) end
    | Hc : (?x < 65536)%N |- _ => lazymatch goal with _ : (x / 4096 < 16)%N |- _ => fail | _ =>
        assert (x / 4096 < 16)%N by (apply N.Div0.div_lt_upper_bound; lia) end
    end;
    pose proof (N.le_0_l (c / 64)); pose proof (N.le_0_l (d / 64)); pose proof (N.le_0_l (c / 4096));
    pose proof (N.le_0_l (d / 4096)); pose proof (N.le_0_l (c / 262144));
    pose proof (N.le_0_l (d / 262144));
    injection E as; try (exfalso; lia); split; try done.
  - apply (div_mod_eq c d 64); lia.
  - apply H3; lia.
  - apply H4; lia.
Qed.

Lemma utf8_inj s t : utf8 s = utf8 t → s = t.
Proof.
  revert t. induction s as [|c s IH]; intros [|d t]; unfold utf8; simpl; intros E.
  - done.
  - unfold utf8_char in E. by repeat case_match.
  - unfold utf8_char in E. by repeat case_match.
  - apply utf8_char_split in E as [-> E]. f_equal. by apply IH.
Qed.

(** ** Framed fields *)

Definition field (f : list N * list N) : list N :=
  be_bytes 8 (len f.1) ++ f.1 ++ be_bytes 8 (len f.2) ++ f.2.
Definition field_ok (f : list N * list N) : Prop := (len f.1 ≤ u64_max)%Z ∧ (len f.2 ≤ u64_max)%Z.

#[local] Opaque be_bytes.
Lemma Ok_inj {A} (x y : A) : Ok x = Ok y → x = y.
Proof. by intros [= ->]. Qed.

Lemma hash_component_ok t v h h' :
  hash_component t v h = Ok h' → h' = h ++ field (t, v) ∧ field_ok (t, v).
Proof.
  unfold hash_component, u64_of_len, field_ok. cbn [fst snd].
  destruct (Z.leb_spec (len t) u64_max); [|discriminate].
  destruct (Z.leb_spec (len v) u64_max); [|discriminate]. cbn [ok_or].
  intros <-%Ok_inj. done.
Qed.


Lemma framed_split (l l' : list N) r r' :
  (len l ≤ u64_max)%Z → (len l' ≤ u64_max)%Z →
  be_bytes 8 (len l) ++ l ++ r = be_bytes 8 (len l') ++ l' ++ r' → l = l' ∧ r = r'.
Proof.
  intros Hl Hl' [Hn E]%prefix_split; [|by rewrite !be_bytes_length].
  apply be_bytes_inj in Hn; [|unfold len, u64_max in *; lia..].
  apply prefix_split in E; [done|]. unfold len in Hn. lia.
Qed.

Lemma fields_inj l l' :
  Forall field_ok l → Forall field_ok l' → concat (field <$> l) = concat (field <$> l') → l = l'.
Proof.
  intros Hl. revert l'. induction Hl as [|[t v] l [Ht Hv] _ IH]; intros [|[t' v'] l'] Hl' E; [done| | |].
  - simpl in E. unfold field in E. simpl in E. apply (f_equal length) in E; rewrite !length_app, be_bytes_length in E; simpl in E; lia.
  - simpl in E. unfold field in E. simpl in E. apply (f_equal length) in E; rewrite !length_app, be_bytes_length in E; simpl in E; lia.
  - apply Forall_cons in Hl' as [[Ht' Hv'] Hl']. simpl in *. unfold field in E. simpl in E.
    rewrite <-!app_assoc in E. apply framed_split in E as [-> E]; [|done..].
    apply framed_split in E as [-> E]; [|done..]. f_equal. by apply IH.
Qed.

(** ** What a command binds *)

Definition tenant_fields (tenant_id : option str) : list (list N * list N) :=
  match tenant_id with
  | Some tenant_id => [(utf8 (lit "tenant.presence"), utf8 (lit "some"));
                       (utf8 (lit "tenant.value"), utf8 tenant_id)]
  | None => [(utf8 (lit "tenant.presence"), utf8 (lit "none"))]
  end.

Definition command_fields (domain : str) (due : AgentLoopDueWait) : list (list N * list N) :=
  [(utf8 (lit "domain"), utf8 domain); (utf8 (lit "phase"), utf8 (phase_as_wire (aw_phase due)))]
  ++ tenant_fields (aw_tenant_id due) ++
  [(utf8 (lit "thread"), utf8 (aw_thread_id due)); (utf8 (lit "turn"), utf8 (aw_turn_id due));
   (utf8 (lit "wait"), utf8 (aw_wait_id due));
   (utf8 (lit "revision.u64be"), be_bytes 8 (aw_revision due));
   (utf8 (lit "due_at_ms.u64be"), be_bytes 8 (aw_due_at_ms due));
   (utf8 (lit "envelope.sha256"), utf8 (aw_envelope_sha256 due));
   (utf8 (lit "wait_started.event"), utf8 (aw_wait_started_event_id due));
   (utf8 (lit "current_transition.event"), utf8 (aw_current_transition_event_id due))].

Lemma command_input_fields domain due input :
  maintenance_command_input domain due = Ok input →
  input = concat (field <$> command_fields domain due) ∧ Forall field_ok (command_fields domain due).
Proof.
  unfold maintenance_command_input, command_fields. intros Hi.
  destruct (reject_if _ _) as [[]|]; [|done]. unfold mbind in Hi. cbn [result_bind] in Hi.
  destruct (aw_tenant_id due); unfold tenant_fields; simpl app;
  repeat match type of Hi with
  | result_bind _ _ _ (hash_component ?t ?v ?h) = _ =>
      let E := fresh "E" in destruct (hash_component t v h) eqn:E; [|discriminate Hi];
      apply hash_component_ok in E as [-> ?]; cbn [result_bind] in Hi
  | result_bind _ _ _ (result_bind _ _ _ (hash_component ?t ?v ?h)) = _ =>
      let E := fresh "E" in destruct (hash_component t v h) eqn:E; [|discriminate Hi];
      apply hash_component_ok in E as [-> ?]; cbn [result_bind] in Hi
  | hash_component ?t ?v ?h = _ => apply hash_component_ok in Hi as [-> ?]
  end.
  all: split; [unfold fmap; cbn [list_fmap map concat]; rewrite <-!app_assoc, app_nil_r; reflexivity|].
  all: repeat (apply Forall_nil_2 || (apply Forall_cons_2; [assumption|])).
Qed.

(** The fields of a due wait its command binds: all but the stream fences. *)
Definition bound_alike (d d' : AgentLoopDueWait) : Prop :=
  aw_phase d = aw_phase d' ∧ aw_tenant_id d = aw_tenant_id d' ∧
  aw_thread_id d = aw_thread_id d' ∧ aw_turn_id d = aw_turn_id d' ∧
  aw_wait_id d = aw_wait_id d' ∧ aw_revision d = aw_revision d' ∧
  aw_due_at_ms d = aw_due_at_ms d' ∧ aw_envelope_sha256 d = aw_envelope_sha256 d' ∧
  aw_wait_started_event_id d = aw_wait_started_event_id d' ∧
  aw_current_transition_event_id d = aw_current_transition_event_id d'.

Lemma command_input_inj domain domain' d d' input :
  (0 ≤ aw_revision d ≤ u64_max)%Z → (0 ≤ aw_due_at_ms d ≤ u64_max)%Z →
  (0 ≤ aw_revision d' ≤ u64_max)%Z → (0 ≤ aw_due_at_ms d' ≤ u64_max)%Z →
  maintenance_command_input domain d = Ok input → maintenance_command_input domain' d' = Ok input →
  bound_alike d d'.
Proof.
  intros Hr Hd Hr' Hd' [-> Hf]%command_input_fields [E Hf']%command_input_fields.
  apply fields_inj in E; [|done..]. unfold command_fields, tenant_fields in E.
  assert (∀ x y, (0 ≤ x ≤ u64_max)%Z → (0 ≤ y ≤ u64_max)%Z → be_bytes 8 x = be_bytes 8 y → x = y) as Hb.
  { intros x y Hx Hy. unfold u64_max in *. apply be_bytes_inj; simpl; lia. }
  unfold bound_alike.
  destruct (aw_tenant_id d), (aw_tenant_id d'); simpl app in E; try discriminate E;
    repeat match type of E with
    | _ :: _ = _ :: _ => let H1 := fresh in let H2 := fresh in
        pose proof (f_equal (λ l, snd (default ([], []) (head l))) E) as H1; simpl in H1;
        apply (f_equal tail) in E; simpl in E
    end.
  all: split_and!; [destruct (aw_phase d), (aw_phase d'); done|f_equal; by apply utf8_inj|..];
    by (apply utf8_inj || apply Hb).
Qed.

Lemma bound_input domain d d' :
  bound_alike d d' → maintenance_command_input domain d = maintenance_command_input domain d'.
Proof.
  unfold maintenance_command_input. by intros (-> & -> & -> & -> & -> & -> & -> & -> & -> & ->).
Qed.

(** The domain and the prefix the phase of a wait selects. *)
Definition command_domain (d : AgentLoopDueWait) : str :=
  if bool_decide (aw_phase d = DueReadyDeny) then DENIAL_COMMAND_DOMAIN else TIMEOUT_COMMAND_DOMAIN.
Definition command_prefix (d : AgentLoopDueWait) : str :=
  if bool_decide (aw_phase d = DueReadyDeny) then lit "agent-loop-denial-" else lit "agent-loop-timeout-".

Lemma command_id_digest `{!Sha256Bytes} d id :
  agent_loop_due_command_id d = Ok id →
  ∃ input, maintenance_command_input (command_domain d) d = Ok input ∧
    id = command_prefix d ++ concat (hex_byte <$> sha256_of_bytes input).
Proof.
  unfold agent_loop_due_command_id, deterministic_timeout_command_id, deterministic_denial_command_id,
    maintenance_command_digest, command_domain, command_prefix. intros E.
  destruct (aw_phase d) eqn:Ep; repeat (apply bind_ok in E as (? & ? & E); cbv beta in E);
    apply Ok_inj in E as <-;
    match goal with Hm : (_ ≫= _) = Ok _ |- _ =>
      apply bind_ok in Hm as (input & Hi & Hm); cbv beta in Hm; apply Ok_inj in Hm as <- end;
    exists input; (split; [exact Hi|reflexivity]).
Qed.

(** The prefixes have one length, so a command splits into prefix and digest. *)
Lemma command_prefix_split d d' (x y : str) :
  command_prefix d ++ x = command_prefix d' ++ y → command_prefix d = command_prefix d' ∧ x = y.
Proof.
  unfold command_prefix. do 2 case_bool_decide; intros E; try (apply app_inv_head in E; done);
    exfalso; vm_compute in E; discriminate E.
Qed.

(** C33: The command of a due wait is the prefix of its phase and the digest of
    one input, and that input is a faithful record of what the command binds:
    two waits have the same input exactly when they agree on the phase, the
    tenant, the three identities, the revision, the due time, the envelope
    digest and the two events.  So two waits that agree on these have the same
    command (the stream fences are left out, and a benign append does not
    change it), and two waits that do not have the same command only if their
    own two inputs, which differ, have one SHA-256. *)
Theorem maintenance_command_binds `{!Sha256Bytes, !Sha256BytesLaws} d d' id id'
    (Hr : (0 ≤ aw_revision d ≤ u64_max)%Z) (Ht : (0 ≤ aw_due_at_ms d ≤ u64_max)%Z)
    (Hr' : (0 ≤ aw_revision d' ≤ u64_max)%Z) (Ht' : (0 ≤ aw_due_at_ms d' ≤ u64_max)%Z)
    (Hc : agent_loop_due_command_id d = Ok id) (Hc' : agent_loop_due_command_id d' = Ok id') :
  ∃ input input',
    maintenance_command_input (command_domain d) d = Ok input ∧
    maintenance_command_input (command_domain d') d' = Ok input' ∧
    (input = input' ↔ bound_alike d d') ∧
    (id = id' ↔ command_prefix d = command_prefix d' ∧
                sha256_of_bytes input = sha256_of_bytes input') ∧
    (bound_alike d d' → id = id').
Proof.
  apply command_id_digest in Hc as (input & Hi & ->).
  apply command_id_digest in Hc' as (input' & Hi' & ->). exists input, input'.
  assert (bound_alike d d' → command_domain d = command_domain d' ∧ command_prefix d = command_prefix d')
    as Hp by (intros [Hb _]; unfold command_domain, command_prefix; by rewrite Hb).
  assert (input = input' ↔ bound_alike d d') as Hb.
  { split; [intros <-; by eapply command_input_inj|]. intros Hb. destruct (Hp Hb) as [Ed _].
    rewrite Ed, (bound_input _ d d' Hb), Hi' in Hi. by apply Ok_inj in Hi. }
  split; [done|]. split; [done|]. split; [done|]. split.
  - split; [|by intros [-> ->]]. intros [Ep E]%command_prefix_split. split; [done|].
    apply hex_bytes_inj in E; [done|apply Forall_forall; intros ?; apply sha256_of_bytes_bytes..].
  - intros Hbb. destruct (Hp Hbb) as [_ ->]. by rewrite (proj2 Hb Hbb).
Qed.
