(* ===== verification/Completion.v ===== *)
(** Completion receipts, src/src/completion.rs, and the verifier registry whose
    manifest they bind, src/src/verification/mod.rs: the frozen generation of a
    Turn, the digests of its evidence, and the checks under which a receipt
    settles it.

    [serde_json::from_slice] into a [Value] is the [Deserialize] instance of
    [Json], and the SHA-256 of raw bytes is [sha256_of_bytes]. *)

From Stdlib Require Import ZArith Lia.
From stdpp Require Import sorting base tactics list gmap numbers strings option.
From stdpp Require Import list.
From S2P Require Import Prelude Kernel Digest Json Approval ApprovalHandler Journal.

(** * Constants and errors *)

Definition COMPLETION_FORMAT_VERSION : Z := 1.
Definition MAX_COMPLETION_RECEIPT_BYTES : Z := 4096.
Definition MAX_COMPLETION_HASH_INPUT_BYTES : Z := 67108864.
Definition MAX_VERIFIER_DESCRIPTION_BYTES : Z := 4096.
Definition MAX_OUTCOME_MESSAGE_BYTES : Z := 4096.
Definition MAX_CAPABILITY_REGISTRY_ENTRIES : Z := 4096.

(** [b"Y-HARNESS\0COMPLETION\0SHA-256\0V1\0"]. *)
Definition HASH_PREFIX : list N :=
  utf8 (lit "Y-HARNESS") ++ [0%N] ++ utf8 (lit "COMPLETION") ++ [0%N]
  ++ utf8 (lit "SHA-256") ++ [0%N] ++ utf8 (lit "V1") ++ [0%N].
Definition DOMAIN_MODEL_REQUEST : str := lit "model-request".
Definition DOMAIN_MODEL_ROUTE : str := lit "model-route".
Definition DOMAIN_TOOL_VIEW : str := lit "tool-view".
Definition DOMAIN_VERIFIER_BINDING : str := lit "verifier-binding".
Definition DOMAIN_VERIFIER_MANIFEST : str := lit "verifier-manifest".
Definition DOMAIN_RUNTIME_GOVERNANCE : str := lit "runtime-governance".
Definition DOMAIN_EXECUTION_BINDING : str := lit "execution-binding-item".
Definition DOMAIN_CANDIDATE : str := lit "candidate-item".
Definition DOMAIN_TURN_EVIDENCE : str := lit "turn-evidence".
Definition DOMAIN_VERIFIER_RESULTS : str := lit "verifier-results".
Definition DOMAIN_GENERATION : str := lit "generation".
Definition DOMAIN_RECEIPT : str := lit "receipt".

Definition completion_configuration_error (reason : string) : HarnessError :=
  InvalidConfiguration (fmt reason []).
Definition completion_validation_error (reason : string) : HarnessError := State (fmt reason []).

Definition completion_bounded_error (kind : string) (maximum : Z) (error : BoundedJsonError) : HarnessError :=
  InvalidConfiguration
    match error with
    | LimitExceeded => fmt "{} exceeds {} bytes or JSON bounds" [ALit kind; ANum maximum]
    | CannotEncode => fmt "cannot encode {}" [ALit kind]
    end.

(** [map_err] of a bounded JSON result. *)
Definition of_bounded {A} (f : BoundedJsonError → HarnessError) (r : bounded A) : result A :=
  match r with inl e => Err (f e) | inr a => Ok a end.

Definition require_sha256 (kind : string) (value : str) : result () :=
  if is_lower_sha256 value then Ok ()
  else Err (InvalidConfiguration (fmt "{} must be lowercase SHA-256" [ALit kind])).

Definition require_portable_id (kind : string) (value : str) : result () :=
  let valid := negb (str_is_empty value) && (str_len value <=? 128)%Z
    && forallb (λ c, is_ascii_alphanumeric c || one_of "._-/:+" c) value in
  if valid then Ok ()
  else Err (InvalidConfiguration (fmt "{} must be 1-128 portable ASCII bytes" [ALit kind])).

Definition validate_model_id (id : str) : result () :=
  let valid := negb (str_is_empty id) && (str_len id <=? 128)%Z
    && forallb (λ c, is_ascii_alphanumeric c || one_of "._-/:" c) id in
  if valid then Ok ()
  else Err (InvalidCapability
    (fmt "model id {:?} must be 1-128 portable ASCII identity characters" [AStr id])).

Definition validate_registry_growth (kind : string) (current additional : Z) : result () :=
  next ← ok_or (checked_add usize_max current additional)
           (InvalidCapability (fmt "{} registry entry count overflow" [ALit kind]));
  reject_if (MAX_CAPABILITY_REGISTRY_ENTRIES <? next)%Z
    (InvalidCapability (fmt "{} registry exceeds {} entries"
       [ALit kind; ANum MAX_CAPABILITY_REGISTRY_ENTRIES])).

(** * Data *)

Definition v1_no_external_requirements : CompletionContract :=
  {| cc_artifact := NotRequired; cc_effect := NotRequired; cc_business_delivery := NotRequired |}.

Definition contract_validate_v1 (c : CompletionContract) : result () :=
  reject_if (bool_decide (cc_artifact c ≠ NotRequired) || bool_decide (cc_effect c ≠ NotRequired)
             || bool_decide (cc_business_delivery c ≠ NotRequired))
    (completion_configuration_error
       "completion format 1 cannot claim artifact, Effect, or business delivery").

Record VerifierDescriptor := {
  vd_name : str;
  vd_description : str;
}.

Record CompletionVerifierBinding := {
  cvb_name : str;
  cvb_origin : CapabilityOrigin;
  cvb_binding_sha256 : str;
}.

#[global] Instance VerifierDescriptor_eq : EqDecision VerifierDescriptor.
Proof. solve_decision. Defined.
#[global] Instance CompletionVerifierBinding_eq : EqDecision CompletionVerifierBinding.
Proof. solve_decision. Defined.

Definition verification_validate_descriptor (descriptor : VerifierDescriptor) : result () :=
  _ ← validate_capability_name "verifier" (vd_name descriptor);
  reject_if (trim_is_empty (vd_description descriptor)
             || (MAX_VERIFIER_DESCRIPTION_BYTES <? str_len (vd_description descriptor))%Z
             || any_control (vd_description descriptor))
    (InvalidCapability (fmt "verifier {} description must be 1-{} non-control bytes"
       [AStr (vd_name descriptor); ANum MAX_VERIFIER_DESCRIPTION_BYTES])).

Definition verification_validate_outcome (verifier : str) (outcome : VerificationOutcome) : result () :=
  let message :=
    match outcome with
    | VerificationPassed (Some summary) => Some ("summary"%string, summary)
    | VerificationPassed None => None
    | VerificationFailed reason _ => Some ("reason"%string, reason)
    end in
  match message with
  | Some (field, value) =>
      _ ← reject_if (trim_is_empty value)
            (Verification (fmt "{} returned an empty {}" [AStr verifier; ALit field]));
      reject_if (MAX_OUTCOME_MESSAGE_BYTES <? str_len value)%Z
        (Verification (fmt "{} returned a {} larger than {} bytes"
           [AStr verifier; ALit field; ANum MAX_OUTCOME_MESSAGE_BYTES]))
  | None => Ok ()
  end.

(** The payload [compute_sha256] encodes: the generation without its own
    digest. *)
Record GenerationPayload := {
  gp_format_version : Z;
  gp_model_request : str;
  gp_model_route : str;
  gp_tool_view : str;
  gp_verifier_manifest : str;
  gp_runtime_governance : str;
  gp_execution_binding : option str;
  gp_assurance : CompletionAssurance;
}.

(** The encodings the digests are taken of. *)
Class CompletionCodec := {
  codec_value :: Serialize Json;
  codec_parse :: Deserialize Json;
  codec_descriptor :: Serialize (VerifierDescriptor * CapabilityOrigin);
  codec_bindings :: Serialize (list CompletionVerifierBinding);
  codec_payload :: Serialize GenerationPayload;
  codec_receipt :: Serialize CompletionReceipt;
  codec_item :: Serialize Item;
  codec_items :: Serialize (list Item);
  codec_binding :: Serialize ExecutionBinding;
}.

(** * Canonical JSON and its digest *)

(** The order of the keys of an object. *)
Definition object_entry_le (a b : str * Json) : Prop := str_le a.1 b.1.
#[global] Instance object_entry_le_dec : RelDecision object_entry_le := λ a b, _ : Decision (str_le a.1 b.1).

Fixpoint canonicalize_json (value : Json) : Json :=
  match value with
  | JArray values => JArray (map canonicalize_json values)
  | JObject object =>
      JObject (merge_sort object_entry_le (map (λ e, (e.1, canonicalize_json e.2)) object))
  | JNull | JBool _ | JNumber _ | JString _ => value
  end.

Section completion.
Context `{!CompletionCodec, !Sha256Bytes}.

(** [u32::try_from(n).unwrap_or(u32::MAX)] and its 64-bit counterpart. *)
Definition u32_or_max (n : Z) : Z := if (n <=? u32_max)%Z then n else u32_max.
Definition u64_or_max (n : Z) : Z := if (n <=? u64_max)%Z then n else u64_max.

(** The canonical text of a value. *)
Definition canonical_json {T} `{!Serialize T} (value : T) (maximum_bytes : Z) : result str :=
  let failed := completion_bounded_error "completion hash input" maximum_bytes in
  encoded ← of_bounded failed (to_bounded_json_vec value maximum_bytes);
  canonical ← ok_or (from_json (T:=Json) encoded)
    (completion_configuration_error "completion hash input cannot be represented as JSON");
  _ ← of_bounded failed (validate_value_shape canonical);
  of_bounded failed (to_bounded_json_vec (canonicalize_json canonical) maximum_bytes).

(** What [canonical_json_sha256] feeds the hasher. *)
Definition hash_input (domain canonical : str) : list N :=
  HASH_PREFIX ++ be_bytes 4 (u32_or_max (str_len domain)) ++ utf8 domain
  ++ be_bytes 8 (u64_or_max (str_len canonical)) ++ utf8 canonical.

(** [hex_lower]. *)
Definition hex_lower (bytes : list N) : str := concat (hex_pair <$> bytes).

Definition canonical_json_sha256 {T} `{!Serialize T} (domain : str) (value : T)
    (maximum_bytes : Z) : result str :=
  canonical ← canonical_json value maximum_bytes;
  Ok (hex_lower (sha256_of_bytes (hash_input domain canonical))).

(** * Digests of the parts *)

Definition completion_model_request_sha256 {T} `{!Serialize T} (request : T) : result str :=
  canonical_json_sha256 DOMAIN_MODEL_REQUEST request MAX_COMPLETION_HASH_INPUT_BYTES.
Definition completion_model_route_sha256 {T} `{!Serialize T} (route : T) : result str :=
  canonical_json_sha256 DOMAIN_MODEL_ROUTE route MAX_COMPLETION_HASH_INPUT_BYTES.
Definition completion_tool_view_sha256 {T} `{!Serialize T} (tool_view : T) : result str :=
  canonical_json_sha256 DOMAIN_TOOL_VIEW tool_view MAX_COMPLETION_HASH_INPUT_BYTES.
Definition completion_runtime_governance_sha256 {T} `{!Serialize T} (governance : T) : result str :=
  canonical_json_sha256 DOMAIN_RUNTIME_GOVERNANCE governance MAX_COMPLETION_HASH_INPUT_BYTES.

Definition completion_verifier_binding_sha256 (descriptor : VerifierDescriptor)
    (origin : CapabilityOrigin) : result str :=
  _ ← verification_validate_descriptor descriptor;
  _ ← validate_capability_origin origin;
  canonical_json_sha256 DOMAIN_VERIFIER_BINDING (descriptor, origin) MAX_COMPLETION_HASH_INPUT_BYTES.

(** One round of [validate_verifier_manifest]: the previous name. *)
Definition validate_verifier_binding (previous_name : option str) (b : CompletionVerifierBinding)
    : result (option str) :=
  _ ← validate_capability_name "completion verifier" (cvb_name b);
  _ ← validate_capability_origin (cvb_origin b);
  _ ← require_sha256 "completion verifier binding" (cvb_binding_sha256 b);
  _ ← reject_if (match previous_name with Some p => str_leb (cvb_name b) p | None => false end)
        (completion_configuration_error
           "completion verifier manifest must be strictly ordered by name");
  Ok (Some (cvb_name b)).

Definition validate_verifier_manifest (bindings : list CompletionVerifierBinding) : result () :=
  _ ← fold_m validate_verifier_binding None bindings;
  Ok ().

Definition completion_verifier_manifest_sha256 (bindings : list CompletionVerifierBinding)
    : result str :=
  _ ← validate_verifier_manifest bindings;
  canonical_json_sha256 DOMAIN_VERIFIER_MANIFEST bindings MAX_COMPLETION_HASH_INPUT_BYTES.

Definition is_execution_binding (item : Item) : bool :=
  match it_kind item with ItemExecutionBinding _ _ => true | _ => false end.

Definition completion_execution_binding_sha256 (item : Item) : result str :=
  _ ← reject_if (negb (is_execution_binding item))
        (completion_configuration_error "ExecutionBinding digest requires an ExecutionBinding Item");
  canonical_json_sha256 DOMAIN_EXECUTION_BINDING item MAX_COMPLETION_HASH_INPUT_BYTES.

(** [CompletionVerifierBinding::new] and [::from_result]. *)
Definition CompletionVerifierBinding_new (descriptor : VerifierDescriptor)
    (origin : CapabilityOrigin) : result CompletionVerifierBinding :=
  _ ← verification_validate_descriptor descriptor;
  _ ← validate_capability_origin origin;
  binding_sha256 ← completion_verifier_binding_sha256 descriptor origin;
  Ok {| cvb_name := vd_name descriptor; cvb_origin := origin; cvb_binding_sha256 := binding_sha256 |}.

Definition binding_from_result (name : str) (origin : CapabilityOrigin) (binding_sha256 : str)
    : result CompletionVerifierBinding :=
  _ ← validate_capability_name "completion verifier" name;
  _ ← validate_capability_origin origin;
  _ ← require_sha256 "completion verifier binding" binding_sha256;
  Ok {| cvb_name := name; cvb_origin := origin; cvb_binding_sha256 := binding_sha256 |}.

(** * Generations *)

Definition generation_payload (g : CompletionGeneration) : GenerationPayload := {|
  gp_format_version := cg_format_version g;
  gp_model_request := cg_model_request_sha256 g;
  gp_model_route := cg_model_route_sha256 g;
  gp_tool_view := cg_tool_view_sha256 g;
  gp_verifier_manifest := cg_verifier_manifest_sha256 g;
  gp_runtime_governance := cg_runtime_governance_sha256 g;
  gp_execution_binding := cg_execution_binding_sha256 g;
  gp_assurance := cg_assurance g;
|}.

Definition compute_sha256 (g : CompletionGeneration) : result str :=
  canonical_json_sha256 DOMAIN_GENERATION (generation_payload g) MAX_COMPLETION_RECEIPT_BYTES.

Definition generation_validate_components (g : CompletionGeneration) : result () :=
  _ ← reject_if (negb (cg_format_version g =? COMPLETION_FORMAT_VERSION)%Z)
        (completion_configuration_error "unsupported completion generation format");
  _ ← for_each (λ p, require_sha256 p.1 p.2)
        [("completion model request"%string, cg_model_request_sha256 g);
         ("completion model route"%string, cg_model_route_sha256 g);
         ("completion Tool view"%string, cg_tool_view_sha256 g);
         ("completion verifier manifest"%string, cg_verifier_manifest_sha256 g);
         ("completion Runtime governance"%string, cg_runtime_governance_sha256 g)];
  _ ← match cg_execution_binding_sha256 g with
      | Some digest => require_sha256 "completion ExecutionBinding" digest
      | None => Ok ()
      end;
  match cg_assurance g, cg_execution_binding_sha256 g with
  | RuntimeMeasured, None | DeploymentBound, Some _ => Ok ()
  | RuntimeMeasured, Some _ =>
      Err (completion_configuration_error
             "runtime-measured completion cannot carry an ExecutionBinding digest")
  | DeploymentBound, None =>
      Err (completion_configuration_error
             "deployment-bound completion requires an ExecutionBinding digest")
  end.

Definition CompletionGeneration_new (model_request_sha256 model_route_sha256 tool_view_sha256
    verifier_manifest_sha256 runtime_governance_sha256 : str)
    (execution_binding_sha256 : option str) (assurance : CompletionAssurance)
    : result CompletionGeneration :=
  let generation digest := {|
    cg_format_version := COMPLETION_FORMAT_VERSION;
    cg_model_request_sha256 := model_request_sha256;
    cg_model_route_sha256 := model_route_sha256;
    cg_tool_view_sha256 := tool_view_sha256;
    cg_verifier_manifest_sha256 := verifier_manifest_sha256;
    cg_runtime_governance_sha256 := runtime_governance_sha256;
    cg_execution_binding_sha256 := execution_binding_sha256;
    cg_assurance := assurance;
    cg_generation_sha256 := digest;
  |} in
  _ ← generation_validate_components (generation []);
  digest ← compute_sha256 (generation []);
  Ok (generation digest).

Definition generation_validate (g : CompletionGeneration) : result () :=
  _ ← generation_validate_components g;
  _ ← require_sha256 "completion generation" (cg_generation_sha256 g);
  digest ← compute_sha256 g;
  reject_if (bool_decide (digest ≠ cg_generation_sha256 g))
    (completion_configuration_error "completion generation digest does not match its components").

(** * Evidence of a Turn *)

Record DerivedTurnEvidence := {
  de_candidate_sha256 : str;
  de_turn_evidence_sha256 : str;
  de_verifier_results_sha256 : str;
  de_verifier_manifest_sha256 : str;
  de_verifier_count : Z;
  de_model_request_sha256 : str;
}.

Definition is_verification_result (item : Item) : bool :=
  match it_kind item with VerificationResult _ _ _ _ _ => true | _ => false end.

(** [items.iter().position(..)]. *)
Fixpoint position {A} (p : A → bool) (l : list A) : option nat :=
  match l with
  | [] => None
  | x :: l => if p x then Some 0%nat else S <$> position p l
  end.

(** One round of the loop over the suffix: the previous name and the bindings
    so far. *)
Definition derive_binding (candidate_item_id : ItemId)
    (st : option str * list CompletionVerifierBinding) (item : Item)
    : result (option str * list CompletionVerifierBinding) :=
  match it_kind item with
  | VerificationResult verifier (Some result_candidate_id) (Some verifier_origin)
      (Some binding_sha256) (VerificationPassed _) =>
      _ ← reject_if (bool_decide (result_candidate_id ≠ candidate_item_id))
            (completion_validation_error
               "completion verifier result references a different candidate");
      _ ← reject_if (match st.1 with Some previous => str_leb verifier previous | None => false end)
            (completion_validation_error
               "completion verifier results must be strictly ordered by name");
      binding ← binding_from_result verifier verifier_origin binding_sha256;
      Ok (Some verifier, st.2 ++ [binding])
  | _ => Err (completion_validation_error
      "completion suffix requires attributed, candidate-bound passing verifier results")
  end.

Definition derive_turn_evidence (turn : Turn) (candidate_item_id : ItemId)
    : result DerivedTurnEvidence :=
  let items := tn_items turn in
  candidate_index ← ok_or (position (λ item, bool_decide (it_id item = candidate_item_id)) items)
    (completion_validation_error "completion candidate Item does not exist");
  let suffix := drop (S candidate_index) items in
  _ ← reject_if (existsb (λ item, negb (is_verification_result item)) suffix)
        (completion_validation_error
           "only candidate-bound VerificationResult Items may follow the completion candidate");
  candidate ← ok_or (items !! candidate_index)
    (completion_validation_error "completion candidate Item does not exist");
  '(model_id, model_origin, model_request_sha256) ←
    match it_kind candidate with
    | AssistantMessage (Some model_id) (Some model_origin) (Some model_request_sha256) _ =>
        Ok (model_id, model_origin, model_request_sha256)
    | _ => Err (completion_validation_error
        "completion candidate must be an attributed AssistantMessage with a Model request digest")
    end;
  _ ← map_err (λ _, completion_validation_error
        "completion candidate contains an invalid Model identity") (validate_model_id model_id);
  _ ← map_err (λ _, completion_validation_error
        "completion candidate contains an invalid Model origin")
        (validate_capability_origin model_origin);
  _ ← require_sha256 "completion candidate Model request" model_request_sha256;
  st ← fold_m (derive_binding candidate_item_id) (None, []) suffix;
  candidate_sha256 ←
    canonical_json_sha256 DOMAIN_CANDIDATE candidate MAX_COMPLETION_HASH_INPUT_BYTES;
  turn_evidence_sha256 ←
    canonical_json_sha256 DOMAIN_TURN_EVIDENCE (take (S candidate_index) items)
      MAX_COMPLETION_HASH_INPUT_BYTES;
  verifier_results_sha256 ←
    canonical_json_sha256 DOMAIN_VERIFIER_RESULTS suffix MAX_COMPLETION_HASH_INPUT_BYTES;
  verifier_manifest_sha256 ← completion_verifier_manifest_sha256 st.2;
  Ok {| de_candidate_sha256 := candidate_sha256;
        de_turn_evidence_sha256 := turn_evidence_sha256;
        de_verifier_results_sha256 := verifier_results_sha256;
        de_verifier_manifest_sha256 := verifier_manifest_sha256;
        de_verifier_count := len suffix;
        de_model_request_sha256 := model_request_sha256 |}.

Definition validate_execution_binding_authority (bound_by : ActorIdentity)
    (binding : ExecutionBinding) (thread_tenant : option str) (authority : AuthorityContext)
    : result () :=
  _ ← reject_if (bool_decide (bound_by ≠ actor authority)
                 || bool_decide (eb_tenant_id binding ≠ thread_tenant))
        (completion_validation_error
           "completion ExecutionBinding authority or tenant does not match the receipt");
  map_err (λ _, completion_validation_error "completion contains an invalid ExecutionBinding")
    (binding_validate binding).

Definition validate_execution_assurance (items : list Item) (thread_tenant : option str)
    (authority : AuthorityContext) (generation : CompletionGeneration) : result () :=
  match cg_assurance generation, List.filter is_execution_binding items with
  | RuntimeMeasured, [] => Ok ()
  | RuntimeMeasured, _ =>
      Err (completion_validation_error
             "runtime-measured completion cannot contain an ExecutionBinding Item")
  | DeploymentBound, [item] =>
      match it_kind item with
      | ItemExecutionBinding bound_by binding =>
          _ ← validate_execution_binding_authority bound_by binding thread_tenant authority;
          actual ← completion_execution_binding_sha256 item;
          reject_if (bool_decide (cg_execution_binding_sha256 generation ≠ Some actual))
            (completion_validation_error
               "completion generation does not match the exact ExecutionBinding Item")
      | _ => Err (completion_validation_error
          "completion ExecutionBinding selection became inconsistent")
      end
  | DeploymentBound, _ =>
      Err (completion_validation_error
             "deployment-bound completion requires exactly one ExecutionBinding Item")
  end.

(** ** Tools and approvals *)

Inductive RecordedPolicy :=
| RpAllow
| RpDeny
| RpAsk (reason : str) (risk : RiskLevel).

Record CallSettlement := {
  cs_tool : str;
  cs_policy : option RecordedPolicy;
  cs_approval_id : option ApprovalId;
  cs_approval_approved : bool;
  cs_result_is_error : option bool;
}.

Record Settlements := {
  st_calls : gmap str CallSettlement;
  st_approvals : gmap ApprovalId str;
}.

Definition set_call (call_id : str) (call : CallSettlement) (st : Settlements) : Settlements :=
  {| st_calls := <[call_id := call]> (st_calls st); st_approvals := st_approvals st |}.

Definition recorded_policy (decision : PolicyDecision) : RecordedPolicy :=
  match decision with
  | PolicyAllow => RpAllow
  | PolicyDeny _ => RpDeny
  | PolicyAsk reason risk => RpAsk reason risk
  end.

(** One round of [validate_settled_tools_and_approvals]. *)
Definition settle_item (st : Settlements) (item : Item) : result Settlements :=
  match it_kind item with
  | ToolCall _ _ call_id name _ _ =>
      _ ← reject_if (bool_decide (is_Some (st_calls st !! call_id)))
            (completion_validation_error "completion Turn contains duplicate ToolCall identities");
      Ok (set_call call_id
            {| cs_tool := name; cs_policy := None; cs_approval_id := None;
               cs_approval_approved := false; cs_result_is_error := None |} st)
  | ItemPolicyDecision call_id _ decision =>
      call ← ok_or (st_calls st !! call_id)
        (completion_validation_error "completion Turn contains an orphan PolicyDecision");
      _ ← reject_if (bool_decide (is_Some (cs_policy call))
                     || bool_decide (is_Some (cs_result_is_error call)))
            (completion_validation_error
               "completion PolicyDecision is duplicate or follows its ToolResult");
      Ok (set_call call_id
            {| cs_tool := cs_tool call; cs_policy := Some (recorded_policy decision);
               cs_approval_id := cs_approval_id call;
               cs_approval_approved := cs_approval_approved call;
               cs_result_is_error := cs_result_is_error call |} st)
  | ApprovalRequested approval_id call_id tool reason risk _ _ _ =>
      call ← ok_or (st_calls st !! call_id)
        (completion_validation_error "completion Turn contains an orphan ApprovalRequested");
      let policy_matches :=
        match cs_policy call with
        | Some (RpAsk policy_reason policy_risk) =>
            bool_decide (policy_reason = reason) && bool_decide (policy_risk = risk)
        | _ => false
        end in
      _ ← reject_if (negb policy_matches || bool_decide (cs_tool call ≠ tool)
                     || bool_decide (is_Some (cs_approval_id call))
                     || bool_decide (is_Some (cs_result_is_error call)))
            (completion_validation_error
               "completion ApprovalRequested does not uniquely match its Ask decision");
      _ ← reject_if (bool_decide (is_Some (st_approvals st !! approval_id)))
            (completion_validation_error
               "completion Turn contains a duplicate approval identity");
      Ok {| st_calls := <[call_id :=
              {| cs_tool := cs_tool call; cs_policy := cs_policy call;
                 cs_approval_id := Some approval_id;
                 cs_approval_approved := cs_approval_approved call;
                 cs_result_is_error := cs_result_is_error call |}]> (st_calls st);
            st_approvals := <[approval_id := call_id]> (st_approvals st) |}
  | ItemApprovalDecision approval_id call_id decision =>
      _ ← reject_if (bool_decide (st_approvals st !! approval_id ≠ Some call_id))
            (completion_validation_error
               "completion Turn contains an orphan or mismatched ApprovalDecision");
      call ← ok_or (st_calls st !! call_id)
        (completion_validation_error "completion ApprovalDecision references an unknown ToolCall");
      _ ← reject_if (bool_decide (cs_approval_id call ≠ Some approval_id)
                     || cs_approval_approved call
                     || bool_decide (is_Some (cs_result_is_error call)))
            (completion_validation_error
               "completion Turn contains duplicate ApprovalDecision evidence");
      match decision with
      | DecisionApprove =>
          Ok (set_call call_id
                {| cs_tool := cs_tool call; cs_policy := cs_policy call;
                   cs_approval_id := cs_approval_id call; cs_approval_approved := true;
                   cs_result_is_error := cs_result_is_error call |} st)
      | DecisionDeny _ =>
          Err (completion_validation_error
                 "a denied approval cannot produce successful Turn completion")
      end
  | ToolResult call_id _ is_error _ =>
      call ← ok_or (st_calls st !! call_id)
        (completion_validation_error "completion Turn contains an orphan ToolResult");
      _ ← reject_if (bool_decide (is_Some (cs_result_is_error call)))
            (completion_validation_error
               "completion Turn contains duplicate ToolResult evidence");
      _ ← match cs_policy call with
          | Some RpAllow =>
              if bool_decide (cs_approval_id call = None) then Ok ()
              else Err (completion_validation_error
                "ToolResult was recorded before its required Policy or approval settlement")
          | Some (RpAsk _ _) =>
              if bool_decide (is_Some (cs_approval_id call)) && cs_approval_approved call then Ok ()
              else Err (completion_validation_error
                "ToolResult was recorded before its required Policy or approval settlement")
          | Some RpDeny =>
              Err (completion_validation_error
                "a denied Policy decision cannot precede a completing ToolResult")
          | None =>
              if is_error && bool_decide (cs_approval_id call = None) then Ok ()
              else Err (completion_validation_error
                "ToolResult was recorded before its required Policy or approval settlement")
          end;
      Ok (set_call call_id
            {| cs_tool := cs_tool call; cs_policy := cs_policy call;
               cs_approval_id := cs_approval_id call;
               cs_approval_approved := cs_approval_approved call;
               cs_result_is_error := Some is_error |} st)
  | _ => Ok st
  end.

(** The loop over the calls at the end. *)
Definition check_settlement (call : CallSettlement) : result () :=
  result_is_error ← ok_or (cs_result_is_error call)
    (completion_validation_error "every completion ToolCall requires exactly one ToolResult");
  match cs_policy call with
  | Some RpAllow =>
      reject_if (bool_decide (is_Some (cs_approval_id call)))
        (completion_validation_error "an Allow decision cannot carry approval evidence")
  | Some (RpAsk _ _) =>
      reject_if (negb (bool_decide (is_Some (cs_approval_id call)) && cs_approval_approved call))
        (completion_validation_error
           "an Ask decision requires one matching approved settlement")
  | Some RpDeny =>
      Err (completion_validation_error
             "a denied Policy decision cannot produce successful Turn completion")
  | None =>
      reject_if (negb (result_is_error && bool_decide (cs_approval_id call = None)))
        (completion_validation_error
           "a successful ToolResult requires one unique PolicyDecision")
  end.

Definition validate_settled_tools_and_approvals (items : list Item) : result () :=
  st ← fold_m settle_item {| st_calls := ∅; st_approvals := ∅ |} items;
  for_each check_settlement (bt_values (st_calls st)).

(** * Receipts *)

Inductive SourcePlacement := Direct | Inherited.

Definition validate_receipt_shape (receipt : CompletionReceipt) : result () :=
  _ ← reject_if (negb (rc_format_version receipt =? COMPLETION_FORMAT_VERSION)%Z)
        (completion_validation_error "unsupported completion receipt format");
  _ ← authority_validate_current (rc_authority receipt) "completion receipt authority";
  _ ← require_portable_id "completion source Thread identity" (rc_source_thread_id receipt);
  _ ← require_portable_id "completion Turn identity" (rc_turn_id receipt);
  _ ← require_portable_id "completion candidate Item identity" (rc_candidate_item_id receipt);
  _ ← for_each (λ p, require_sha256 p.1 p.2)
        [("completion candidate"%string, rc_candidate_sha256 receipt);
         ("completion Turn evidence"%string, rc_turn_evidence_sha256 receipt);
         ("completion verifier results"%string, rc_verifier_results_sha256 receipt)];
  _ ← generation_validate (rc_generation receipt);
  _ ← contract_validate_v1 (rc_contract receipt);
  _ ← of_bounded (completion_bounded_error "completion receipt" MAX_COMPLETION_RECEIPT_BYTES)
        (to_bounded_json_vec receipt MAX_COMPLETION_RECEIPT_BYTES);
  Ok ().

Definition validate_receipt_against_items (turn : Turn) (thread_tenant : option str)
    (receipt : CompletionReceipt) (placement : SourcePlacement) : result () :=
  _ ← validate_receipt_shape receipt;
  _ ← authority_validate_current (rc_authority receipt) "completion receipt authority";
  _ ← reject_if (bool_decide (tenant_id (rc_authority receipt) ≠ thread_tenant))
        (completion_validation_error "completion receipt tenant differs from its Thread");
  _ ← reject_if (bool_decide (rc_turn_id receipt ≠ tn_id turn))
        (completion_validation_error
           "completion receipt Turn identity differs from its projected Turn");
  _ ← reject_if (match placement with
                 | Direct => bool_decide (rc_source_thread_id receipt ≠ tn_thread_id turn)
                 | Inherited => false
                 end)
        (completion_validation_error
           "direct completion receipt source Thread differs from its Turn");
  _ ← validate_settled_tools_and_approvals (tn_items turn);
  _ ← validate_execution_assurance (tn_items turn) thread_tenant (rc_authority receipt)
        (rc_generation receipt);
  evidence ← derive_turn_evidence turn (rc_candidate_item_id receipt);
  _ ← reject_if (bool_decide (de_candidate_sha256 evidence ≠ rc_candidate_sha256 receipt)
                 || bool_decide (de_turn_evidence_sha256 evidence ≠ rc_turn_evidence_sha256 receipt)
                 || bool_decide (de_verifier_results_sha256 evidence
                                 ≠ rc_verifier_results_sha256 receipt)
                 || negb (de_verifier_count evidence =? rc_verifier_count receipt)%Z)
        (completion_validation_error "completion receipt does not match current Turn evidence");
  _ ← reject_if (bool_decide (de_model_request_sha256 evidence
                              ≠ cg_model_request_sha256 (rc_generation receipt)))
        (completion_validation_error
           "completion candidate Model request differs from its generation");
  reject_if (bool_decide (de_verifier_manifest_sha256 evidence
                          ≠ cg_verifier_manifest_sha256 (rc_generation receipt)))
    (completion_validation_error "completion verifier suffix differs from its frozen manifest").

Definition validate_turn_completion_receipt (turn : Turn) (thread_tenant : option str)
    (receipt : CompletionReceipt) : result () :=
  _ ← reject_if (bool_decide (tn_status turn ≠ TurnIsRunning)
                 || bool_decide (is_Some (tn_completion_receipt turn)))
        (completion_validation_error "completion receipt requires an unsettled running Turn");
  validate_receipt_against_items turn thread_tenant receipt Direct.

Definition validate_projected_turn_completion_receipt (turn : Turn) (thread_tenant : option str)
    (receipt : CompletionReceipt) : result () :=
  _ ← reject_if (bool_decide (tn_status turn ≠ TurnIsCompleted)
                 || bool_decide (tn_completion_receipt turn ≠ Some receipt))
        (completion_validation_error
           "projected completed Turn must retain the exact completion receipt");
  validate_receipt_against_items turn thread_tenant receipt Direct.

Definition validate_inherited_projected_turn_completion_receipt (turn : Turn)
    (thread_tenant : option str) (receipt : CompletionReceipt) : result () :=
  _ ← reject_if (bool_decide (tn_status turn ≠ TurnIsCompleted)
                 || bool_decide (tn_completion_receipt turn ≠ Some receipt))
        (completion_validation_error
           "inherited completed Turn must retain the exact source completion receipt");
  validate_receipt_against_items turn thread_tenant receipt Inherited.

Definition build_completion_receipt (turn : Turn) (authority : AuthorityContext)
    (candidate_item_id : ItemId) (generation : CompletionGeneration)
    (contract : CompletionContract) : result CompletionReceipt :=
  evidence ← derive_turn_evidence turn candidate_item_id;
  _ ← reject_if (u32_max <? de_verifier_count evidence)%Z
        (completion_validation_error "completion verifier count exceeds u32");
  let receipt := {|
    rc_format_version := COMPLETION_FORMAT_VERSION;
    rc_authority := authority;
    rc_source_thread_id := tn_thread_id turn;
    rc_turn_id := tn_id turn;
    rc_candidate_item_id := candidate_item_id;
    rc_candidate_sha256 := de_candidate_sha256 evidence;
    rc_turn_evidence_sha256 := de_turn_evidence_sha256 evidence;
    rc_verifier_results_sha256 := de_verifier_results_sha256 evidence;
    rc_verifier_count := de_verifier_count evidence;
    rc_generation := generation;
    rc_contract := contract;
  |} in
  _ ← validate_turn_completion_receipt turn (tenant_id authority) receipt;
  Ok receipt.

Definition completion_receipt_sha256 (receipt : CompletionReceipt) : result str :=
  _ ← validate_receipt_shape receipt;
  canonical_json_sha256 DOMAIN_RECEIPT receipt MAX_COMPLETION_RECEIPT_BYTES.

(** * The verifier registry *)

(** A registered verifier; the executable one is the host's. *)
Record RegisteredVerifier := {
  rv_descriptor : VerifierDescriptor;
  rv_origin : CapabilityOrigin;
  rv_completion_binding : CompletionVerifierBinding;
}.

Definition VerificationRegistry : Type := gmap str RegisteredVerifier.

(** [register]; [answer] is what the provider's [descriptor()] returned, [None]
    when it panicked. *)
Definition verification_register (origin : CapabilityOrigin) (answer : option VerifierDescriptor)
    : M VerificationRegistry () :=
  verifiers ← get;
  _ ← lift (validate_capability_origin origin);
  _ ← lift (validate_registry_growth "verifier" (Z.of_nat (size (verifiers : VerificationRegistry))) 1);
  descriptor ← lift (capture_capability_metadata "verifier descriptor" answer);
  _ ← lift (verification_validate_descriptor descriptor);
  _ ← lift (reject_if (bool_decide (is_Some ((verifiers : VerificationRegistry) !! vd_name descriptor)))
        (DuplicateCapability (vd_name descriptor)));
  completion_binding ← lift (CompletionVerifierBinding_new descriptor origin);
  put (<[vd_name descriptor := {| rv_descriptor := descriptor; rv_origin := origin;
                                  rv_completion_binding := completion_binding |}]> verifiers).

Definition verification_descriptors (r : VerificationRegistry) : list VerifierDescriptor :=
  rv_descriptor <$> bt_values r.
Definition completion_bindings (r : VerificationRegistry) : list CompletionVerifierBinding :=
  rv_completion_binding <$> bt_values r.
End completion.
