(* ===== verification/CompletionSafety.v ===== *)
(** What a valid completion receipt means: which journals of a Turn count as
    settled, what the suffix of verifier results is, and that a receipt is
    determined by the Turn and determines its evidence up to a collision. *)

From Stdlib Require Import ZArith Lia.
From stdpp Require Import sorting base tactics list gmap numbers strings option.
From stdpp Require Import list.
From S2P Require Import Prelude Kernel Digest Json Approval ApprovalHandler Journal WaitDue Completion.

(** * Settled Tool calls *)

(** What an item says about the Tool call [call_id]. *)
Inductive call_step :=
| StCall (tool : str)
| StPolicy (policy : RecordedPolicy)
| StRequest (approval_id : ApprovalId) (tool reason : str) (risk : RiskLevel)
| StDecision (approval_id : ApprovalId) (approved : bool)
| StResult (is_error : bool).

Definition item_step (item : Item) : option (str * call_step) :=
  match it_kind item with
  | ToolCall _ _ call_id name _ _ => Some (call_id, StCall name)
  | ItemPolicyDecision call_id _ decision => Some (call_id, StPolicy (recorded_policy decision))
  | ApprovalRequested approval_id call_id tool reason risk _ _ _ =>
      Some (call_id, StRequest approval_id tool reason risk)
  | ItemApprovalDecision approval_id call_id decision =>
      Some (call_id, StDecision approval_id
              (match decision with DecisionApprove => true | DecisionDeny _ => false end))
  | ToolResult call_id _ is_error _ => Some (call_id, StResult is_error)
  | _ => None
  end.

Definition call_steps (call_id : str) (items : list Item) : list call_step :=
  omap (λ item, match item_step item with
                | Some (c, s) => if decide (c = call_id) then Some s else None
                | None => None
                end) items.

Definition requested_ids (items : list Item) : list ApprovalId :=
  omap (λ item, match it_kind item with
                | ApprovalRequested approval_id _ _ _ _ _ _ _ => Some approval_id
                | _ => None
                end) items.

(** The histories of a Tool call that completion admits: none; executed under
    an Allow; executed under an Ask whose one request, with the same reason
    and risk, was approved; or failed before any policy decision. *)
Inductive settled_call : list call_step → Prop :=
| settled_absent : settled_call []
| settled_allowed tool is_error :
    settled_call [StCall tool; StPolicy RpAllow; StResult is_error]
| settled_approved tool reason risk approval_id is_error :
    settled_call [StCall tool; StPolicy (RpAsk reason risk);
                  StRequest approval_id tool reason risk; StDecision approval_id true;
                  StResult is_error]
| settled_failed tool : settled_call [StCall tool; StResult true].

#[global] Instance RecordedPolicy_eq : EqDecision RecordedPolicy.
Proof. solve_decision. Defined.

(** The record of one call as an automaton over its history. *)
Definition result_admitted (call : CallSettlement) (is_error : bool) : bool :=
  match cs_policy call with
  | Some RpAllow => bool_decide (cs_approval_id call = None)
  | Some (RpAsk _ _) => bool_decide (is_Some (cs_approval_id call)) && cs_approval_approved call
  | Some RpDeny => false
  | None => is_error && bool_decide (cs_approval_id call = None)
  end.

Definition step_admitted (call : CallSettlement) (s : call_step) : Prop :=
  cs_result_is_error call = None ∧
  match s with
  | StCall _ => False
  | StPolicy _ => cs_policy call = None
  | StRequest _ tool reason risk =>
      cs_policy call = Some (RpAsk reason risk) ∧ cs_tool call = tool ∧ cs_approval_id call = None
  | StDecision a approved =>
      cs_approval_id call = Some a ∧ cs_approval_approved call = false ∧ approved = true
  | StResult is_error => result_admitted call is_error = true
  end.
#[global] Instance step_admitted_dec call s : Decision (step_admitted call s).
Proof. destruct s; apply _. Defined.

Definition step_call (call : CallSettlement) (s : call_step) : CallSettlement :=
  {| cs_tool := cs_tool call;
     cs_policy := match s with StPolicy p => Some p | _ => cs_policy call end;
     cs_approval_id := match s with StRequest a _ _ _ => Some a | _ => cs_approval_id call end;
     cs_approval_approved :=
       match s with StDecision _ _ => true | _ => cs_approval_approved call end;
     cs_result_is_error := match s with StResult e => Some e | _ => cs_result_is_error call end |}.

Definition next_call (o : option CallSettlement) (s : call_step) : option CallSettlement :=
  match o, s with
  | None, StCall name =>
      Some {| cs_tool := name; cs_policy := None; cs_approval_id := None;
              cs_approval_approved := false; cs_result_is_error := None |}
  | None, _ => None
  | Some call, _ => if decide (step_admitted call s) then Some (step_call call s) else None
  end.

Fixpoint run_call (o : option CallSettlement) (l : list call_step) : option (option CallSettlement) :=
  match l with
  | [] => Some o
  | s :: l => c ← next_call o s; run_call (Some c) l
  end.

Lemma run_call_app o l k : run_call o (l ++ k) = o' ← run_call o l; run_call o' k.
Proof.
  revert o. induction l as [|s l IH]; intros o; simpl; [done|].
  destruct (next_call o s); simpl; [apply IH|done].
Qed.

Definition call_done (o : option CallSettlement) : Prop :=
  match o with Some call => check_settlement call = Ok () | None => True end.

Lemma next_call_Some call s c' :
  next_call (Some call) s = Some c' ↔ step_admitted call s ∧ c' = step_call call s.
Proof. simpl. destruct (decide _); naive_solver. Qed.

Lemma settled_call_run l :
  settled_call l ↔ ∃ o, run_call None l = Some o ∧ call_done o.
Proof.
  split.
  - destruct 1 as [| |tool reason risk aid err|]; try (by eexists);
      simpl; repeat (rewrite decide_True by (by split_and!); simpl); by eexists.
  - intros (o & Hr & Hd).
    destruct l as [|[tool| | | |] l]; simpl in Hr; try done; [constructor|].
    destruct l as [|s l]; simpl in Hr; [by injection Hr as <-|].
    destruct (decide _) as [(_ & Hs)|]; [|done]. simpl in Hr.
    destruct s as [|p|a t r k|a b|e]; simpl in *; try done; try (by destruct Hs).
    + destruct l as [|s l]; simpl in Hr; [by injection Hr as <-|].
      destruct (decide _) as [(_ & Hs2)|]; [|done]. simpl in Hr.
      destruct s as [|q|a t r k|a b|e]; simpl in *; try done; try (by destruct Hs2).
      * destruct Hs2 as ([= ->] & -> & _).
        destruct l as [|s l]; simpl in Hr; [by injection Hr as <-|].
        destruct (decide _) as [(_ & Hs3)|]; [|done]. simpl in Hr.
        destruct s as [|q|a' t' r' k'|a' b|e]; simpl in *; try done; try (by destruct Hs3 as (? & ? & ?)).
        destruct Hs3 as ([= <-] & _ & ->).
        destruct l as [|s l]; simpl in Hr; [by injection Hr as <-|].
        destruct (decide _) as [(_ & Hs4)|]; [|done]. simpl in Hr.
        destruct s as [|q|a' t' r' k'|a' b|e]; simpl in *; try done; try (by destruct Hs4 as (? & ? & ?)).
        destruct l as [|s l]; simpl in Hr; [constructor|].
        destruct (decide _) as [(? & _)|]; done.
      * unfold result_admitted in Hs2. simpl in Hs2. destruct p; try done.
        destruct l as [|s l]; simpl in Hr; [constructor|]. destruct (decide _) as [(? & _)|]; done.
    + unfold result_admitted in Hs. simpl in Hs. destruct e; [|done].
      destruct l as [|s l]; simpl in Hr; [constructor|]. destruct (decide _) as [(? & _)|]; done.
Qed.

(** The approvals map only ever adds to what the automata decide. *)
Definition approvals_admit (st : Settlements) (c : str) (s : call_step) : Prop :=
  match s with
  | StRequest a _ _ _ => st_approvals st !! a = None
  | StDecision a _ => st_approvals st !! a = Some c
  | _ => True
  end.
Definition after_step (st : Settlements) (c : str) (s : call_step) (call : CallSettlement) : Settlements :=
  {| st_calls := <[c := call]> (st_calls st);
     st_approvals := match s with
                     | StRequest a _ _ _ => <[a := c]> (st_approvals st)
                     | _ => st_approvals st
                     end |}.

Lemma settle_item_other st x : item_step x = None → settle_item st x = Ok st.
Proof. unfold item_step, settle_item. by destruct (it_kind x). Qed.

Lemma reject_bind {A} b e (f : () → result A) y :
  (reject_if b e ≫= f) = Ok y ↔ b = false ∧ f () = Ok y.
Proof. destruct b; simpl; naive_solver. Qed.
Lemma ok_bind {A B} (a : A) (f : A → result B) : (Ok a ≫= f) = f a.
Proof. done. Qed.

Lemma settle_item_step st x c s st' :
  item_step x = Some (c, s) →
  settle_item st x = Ok st' ↔
  ∃ call, next_call (st_calls st !! c) s = Some call ∧ approvals_admit st c s ∧
    st' = after_step st c s call.
Proof.
  unfold item_step, settle_item. destruct (it_kind x); intros [= <- <-];
    destruct (st_calls st !! call_id) as [call|] eqn:E; simpl ok_or;
    try setoid_rewrite next_call_Some; unfold step_admitted; simpl next_call.
  all: try (split; [done|by intros (? & ? & _)]).
  all: rewrite ?reject_bind, ?orb_false_iff, ?bool_decide_eq_false, ?negb_false_iff.
  - naive_solver.
  - unfold after_step, set_call. naive_solver.
  - rewrite ok_bind, reject_bind, orb_false_iff, !bool_decide_eq_false, <-!eq_None_not_Some.
    unfold after_step, set_call, step_call. simpl. naive_solver.
  - rewrite ok_bind, !reject_bind, !orb_false_iff, !bool_decide_eq_false, <-!eq_None_not_Some, negb_false_iff.
    unfold after_step, set_call, step_call. simpl.
    assert (match cs_policy call with
            | Some (RpAsk r k) => bool_decide (r = reason) && bool_decide (k = risk)
            | _ => false
            end = true ↔ cs_policy call = Some (RpAsk reason risk)) as ->.
    { destruct (cs_policy call) as [[| |r k]|]; try naive_solver.
      rewrite andb_true_iff, !bool_decide_eq_true. naive_solver. }
    split; [|naive_solver]. intros ([[[? ?%dec_stable] ?] ?] & ? & [= <-]). naive_solver.
  - rewrite ok_bind, reject_bind, !orb_false_iff, !bool_decide_eq_false, <-!eq_None_not_Some.
    unfold after_step, set_call, step_call. simpl. split.
    + intros (?%dec_stable & [[?%dec_stable ?] ?] & Hd). destruct decision; [|done]. injection Hd as <-.
      eexists. by split_and!.
    + intros (? & [(? & ? & ? & ?) ->] & ? & ->). destruct decision; [|done].
      split_and!; [tauto|tauto|done|done|done].
  - naive_solver.
  - rewrite ok_bind, reject_bind, bool_decide_eq_false, <-!eq_None_not_Some.
    unfold after_step, set_call, step_call, result_admitted. simpl.
    destruct (cs_policy call) as [[]|];
      [destruct (bool_decide (cs_approval_id call = None)) eqn:Eb|
       |destruct (bool_decide _ && _) eqn:Eb|destruct (is_error && _) eqn:Eb]; simpl; naive_solver.
Qed.

(** ** The loop over the items *)

Definition requests (items : list Item) : list (ApprovalId * str) :=
  omap (λ item, match item_step item with
                | Some (c, StRequest a _ _ _) => Some (a, c)
                | _ => None
                end) items.

Definition tracked (st : Settlements) (items : list Item) : Prop :=
  (∀ c, run_call None (call_steps c items) = Some (st_calls st !! c)) ∧
  (∀ a c, st_approvals st !! a = Some c ↔ (a, c) ∈ requests items) ∧
  NoDup (requests items).*1.

Lemma call_steps_snoc c items x :
  call_steps c (items ++ [x]) = call_steps c items ++
    match item_step x with
    | Some (c', s) => if decide (c' = c) then [s] else []
    | None => []
    end.
Proof.
  unfold call_steps. rewrite omap_app. f_equal. simpl.
  destruct (item_step x) as [[c' s]|]; [|done]. by destruct (decide (c' = c)).
Qed.

Lemma requests_snoc items x :
  requests (items ++ [x]) = requests items ++
    match item_step x with Some (c, StRequest a _ _ _) => [(a, c)] | _ => [] end.
Proof.
  unfold requests. rewrite omap_app. f_equal. simpl. by destruct (item_step x) as [[c' []]|].
Qed.

Lemma requested_requests items a c :
  (a, c) ∈ requests items → ∃ tool reason risk, StRequest a tool reason risk ∈ call_steps c items.
Proof.
  intros (x & Hx & E)%list_elem_of_omap. destruct (item_step x) as [[c' []]|] eqn:Es; try done.
  injection E as -> ->. do 3 eexists. apply list_elem_of_omap. exists x. split; [done|].
  rewrite Es. by rewrite decide_True.
Qed.

(** The record a history leads to names an approval that was requested. *)
Lemma run_call_approval l : ∀ o call a,
  run_call o l = Some (Some call) → cs_approval_id call = Some a →
  (∃ c0, o = Some c0 ∧ cs_approval_id c0 = Some a) ∨
  ∃ tool reason risk, StRequest a tool reason risk ∈ l.
Proof.
  induction l as [|s l IH]; intros o call a Hr Ha; simpl in Hr.
  - injection Hr as ->. left. by exists call.
  - destruct (next_call o s) as [c1|] eqn:En; [|done]. simpl in Hr.
    destruct (IH _ _ _ Hr Ha) as [(c0 & [= <-] & Hc)|(t & r & k & Hin)].
    + destruct o as [c|]; [|destruct s; try done; by injection En as <-].
      apply next_call_Some in En as [_ ->]. destruct s; simpl in Hc; try (left; by exists c).
      injection Hc as ->. right. do 3 eexists. by left.
    + right. exists t, r, k. by right.
Qed.

Lemma tracked_step st items x st' :
  tracked st items → settle_item st x = Ok st' → tracked st' (items ++ [x]).
Proof.
  intros (Hr & Ha & Hn) E. destruct (item_step x) as [[c s]|] eqn:Es.
  2: { rewrite (settle_item_other _ _ Es) in E. injection E as <-. split_and!.
       - intros c. by rewrite call_steps_snoc, Es, app_nil_r.
       - intros a c. by rewrite requests_snoc, Es, app_nil_r.
       - by rewrite requests_snoc, Es, app_nil_r. }
  rewrite (settle_item_step _ _ _ _ _ Es) in E. destruct E as (call & En & Had & ->). split_and!.
  - intros c'. rewrite call_steps_snoc, Es, run_call_app, Hr. simpl.
    destruct (decide (c = c')) as [->|Hne]; simpl; [|by rewrite lookup_insert_ne].
    by rewrite En, lookup_insert_eq.
  - intros a c'. rewrite requests_snoc, Es. unfold after_step. simpl.
    destruct s as [| |a' t r k| |]; rewrite ?app_nil_r; try apply Ha.
    rewrite elem_of_app, list_elem_of_singleton, <-Ha. simpl in Had.
    destruct (decide (a' = a)) as [->|Hne]; [rewrite lookup_insert_eq, Had|rewrite lookup_insert_ne by done];
      naive_solver.
  - rewrite requests_snoc, Es. destruct s as [| |a t r k| |]; rewrite ?app_nil_r; try done.
    rewrite fmap_app. simpl. apply NoDup_app. split_and!; [done| |apply NoDup_singleton].
    intros a' Ha' ->%list_elem_of_singleton. apply list_elem_of_fmap in Ha' as ([a' c'] & -> & Hin).
    apply Ha in Hin. simpl in *. congruence.
Qed.

Lemma settle_tracked items st :
  fold_m settle_item {| st_calls := ∅; st_approvals := ∅ |} items = Ok st → tracked st items.
Proof.
  revert st. induction items as [|x items IH] using rev_ind; intros st E.
  - injection E as <-. split_and!; [done| |constructor].
    intros a c. simpl. rewrite lookup_empty. split; [done|by intros ?%elem_of_nil].
  - rewrite fold_m_app in E. destruct (fold_m _ _ items) as [st0|] eqn:E0; [|done].
    simpl in E. destruct (settle_item st0 x) as [st1|] eqn:E1; [|done]. injection E as <-.
    eapply tracked_step; [by apply IH|done].
Qed.

Lemma prefix_run o l k o' : run_call o (l ++ k) = Some o' → ∃ o1, run_call o l = Some o1.
Proof. rewrite run_call_app. destruct (run_call o l) as [o1|]; [by eexists|done]. Qed.

Lemma settle_complete items st0 :
  tracked st0 [] → (∀ c, ∃ o, run_call None (call_steps c items) = Some o) →
  NoDup (requests items).*1 →
  ∃ st, fold_m settle_item st0 items = Ok st ∧ tracked st items.
Proof.
  intros H0. induction items as [|x items IH] using rev_ind; intros Hr Hn; [by eexists|].
  destruct IH as (st & E & Ht).
  { intros c. destruct (Hr c) as [o Ho]. rewrite call_steps_snoc in Ho. by eapply prefix_run. }
  { rewrite requests_snoc, fmap_app in Hn. by apply NoDup_app in Hn as [? _]. }
  assert (∃ st', settle_item st x = Ok st') as [st' E'].
  { destruct (item_step x) as [[c s]|] eqn:Es; [|by rewrite (settle_item_other _ _ Es); eexists].
    destruct Ht as (Hc & Ha & _). destruct (Hr c) as [o Ho].
    rewrite call_steps_snoc, Es, decide_True, run_call_app, Hc in Ho by done. simpl in Ho.
    destruct (next_call (st_calls st !! c) s) as [call|] eqn:En; [|done].
    eexists. apply (settle_item_step _ _ _ _ _ Es). exists call. split; [done|]. split; [|done].
    destruct s as [| |a t r k|a ok|]; simpl; try done.
    - apply eq_None_not_Some. intros [c' Hc']. apply Ha in Hc'.
      rewrite requests_snoc, Es, fmap_app in Hn. apply NoDup_app in Hn as (_ & Hd & _).
      apply (Hd a); [|by left]. by apply (list_elem_of_fmap_2 fst _ (a, c')).
    - destruct (st_calls st !! c) as [c0|] eqn:Ec; [|done].
      apply next_call_Some in En as [(_ & Hid & _) _]. specialize (Hc c). rewrite Ec in Hc.
      destruct (run_call_approval _ _ _ _ Hc Hid) as [(? & ? & _)|(t & r & k & Hin)]; [done|].
      apply list_elem_of_omap in Hin as (y & Hy & Ey). apply Ha.
      destruct (item_step y) as [[c' s']|] eqn:Esy; [|done].
      destruct (decide (c' = c)) as [->|]; [|done]. injection Ey as ->.
      apply list_elem_of_omap. exists y. split; [done|]. by rewrite Esy. }
  exists st'. rewrite fold_m_app, E. simpl. rewrite E'. split; [done|]. by eapply tracked_step.
Qed.

Lemma requests_ids items : (requests items).*1 = requested_ids items.
Proof.
  unfold requests, requested_ids. induction items as [|x items IH]; [done|]. simpl.
  unfold item_step. unfold omap, fmap in *. destruct (it_kind x); simpl; try exact IH. by f_equal.
Qed.

(** C38: The journal of a Turn is settled exactly when the history of every Tool
    call in it is one of: executed under an Allow; executed under an Ask whose
    single request, for the same tool, reason and risk, was approved; or failed
    before any policy decision; and no approval identity was requested twice.
    Nothing else, no denied, unanswered, doubly answered or orphaned evidence,
    passes the check. *)
Theorem completion_settled_exact items :
  validate_settled_tools_and_approvals items = Ok () ↔
  (∀ call_id, settled_call (call_steps call_id items)) ∧ NoDup (requested_ids items).
Proof.
  rewrite <-requests_ids. unfold validate_settled_tools_and_approvals. split.
  - intros E. destruct (fold_m _ _ items) as [st|] eqn:Ef; [|done]. simpl in E.
    apply settle_tracked in Ef as (Hr & Ha & Hn). split; [|done].
    intros c. apply settled_call_run. exists (st_calls st !! c). split; [apply Hr|].
    destruct (st_calls st !! c) as [call|] eqn:Ec; [|done]. simpl.
    rewrite for_each_ok in E. apply E. by apply elem_of_bt_values; exists c.
  - intros [Hs Hn].
    destruct (settle_complete items {| st_calls := ∅; st_approvals := ∅ |}) as (st & E & Hr & _).
    { split_and!; [done| |constructor]. intros a c. simpl. rewrite lookup_empty.
      split; [done|by intros ?%elem_of_nil]. }
    { intros c. destruct (proj1 (settled_call_run _) (Hs c)) as (o & Ho & _). by exists o. }
    { done. }
    rewrite E. simpl. apply for_each_ok. intros call Hc. apply elem_of_bt_values in Hc as [c Hc].
    destruct (proj1 (settled_call_run _) (Hs c)) as (o & Ho & Hd). rewrite Hr, Hc in Ho.
    by injection Ho as <-.
Qed.

(** * Digests *)

Section receipts.
Context `{!CompletionCodec, !Sha256Bytes, !Sha256BytesLaws}.






(** * What a receipt says *)

(** A verifier result that completion counts: it passed, for this candidate. *)
Definition verifier_passed (candidate : ItemId) (item : Item) (b : CompletionVerifierBinding) : Prop :=
  ∃ summary, it_kind item = VerificationResult (cvb_name b) (Some candidate) (Some (cvb_origin b))
                              (Some (cvb_binding_sha256 b)) (VerificationPassed summary).

Definition binding_valid (b : CompletionVerifierBinding) : Prop :=
  validate_capability_name "completion verifier" (cvb_name b) = Ok () ∧
  validate_capability_origin (cvb_origin b) = Ok () ∧
  is_lower_sha256 (cvb_binding_sha256 b) = true.

Lemma require_sha256_ok kind v u : require_sha256 kind v = Ok u ↔ is_lower_sha256 v = true.
Proof. unfold require_sha256. destruct u, (is_lower_sha256 v); split; congruence. Qed.

Lemma derive_binding_ok id prev acc item r :
  derive_binding id (prev, acc) item = Ok r ↔
  ∃ b, verifier_passed id item b ∧ binding_valid b ∧ (∀ p, prev = Some p → str_lt p (cvb_name b)) ∧
    r = (Some (cvb_name b), acc ++ [b]).
Proof.
  unfold derive_binding, verifier_passed, binding_valid, binding_from_result. split.
  - intros E. destruct (it_kind item) as [| | | | | | | | | | | | | | | | | | | | | |v [c|] [o|] [sh|] [su|]]; try done.
    apply reject_bind in E as [Hc%bool_decide_eq_false%dec_stable E]. apply reject_bind in E as [Hp E].
    inv_ok. subst. match goal with Hx : require_sha256 _ _ = _ |- _ => apply require_sha256_ok in Hx end.
    eexists {| cvb_name := v; cvb_origin := o; cvb_binding_sha256 := sh |}.
    split_and!; [by eexists|done..| |done]. intros p ->. exact Hp.
  - intros (b & (su & ->) & (V1 & V2 & V3) & Hp & ->). rewrite bool_decide_eq_false_2 by tauto. simpl.
    rewrite V1, V2. simpl. unfold require_sha256. rewrite V3. simpl.
    destruct prev as [p|]; [|by destruct b]. rewrite (Hp p eq_refl). by destruct b.
Qed.

Lemma derive_loop id l : ∀ prev acc r,
  fold_m (derive_binding id) (prev, acc) l = Ok r ↔
  ∃ bs, Forall2 (verifier_passed id) l bs ∧ Forall binding_valid bs ∧
    StronglySorted str_lt (cvb_name <$> bs) ∧
    (∀ p, prev = Some p → Forall (λ b, str_lt p (cvb_name b)) bs) ∧
    r = (match last (cvb_name <$> bs) with Some n => Some n | None => prev end, acc ++ bs).
Proof.
  induction l as [|x l IH]; intros prev acc r; simpl.
  - split.
    + intros [= <-]. exists []. split_and!; [constructor..| |by rewrite app_nil_r]. intros; constructor.
    + intros (bs & HF & _ & _ & _ & ->). apply Forall2_nil_inv_l in HF as ->. by rewrite app_nil_r.
  - split.
    + intros E. destruct (derive_binding id (prev, acc) x) as [[p1 a1]|] eqn:E1; [|done].
      apply derive_binding_ok in E1 as (b & Hb & Hv & Hp & [= -> ->]).
      apply IH in E as (bs & HF & HV & HS & Hlt & ->). exists (b :: bs).
      split_and!; [by constructor|by constructor| | |].
      * constructor; [done|]. apply Forall_fmap. by apply Hlt.
      * intros p Ep. specialize (Hp p Ep). constructor; [done|].
        eapply Forall_impl; [by apply Hlt|]. intros b' Hb'. simpl in Hb'. by etrans.
      * rewrite <-app_assoc, fmap_cons, last_cons. by destruct (last (cvb_name <$> bs)).
    + intros (bs & HF & HV & HS & Hlt & ->). destruct bs as [|b bs]; [by inversion HF|].
      apply Forall2_cons in HF as [Hb HF]. apply Forall_cons in HV as [Hv HV].
      rewrite fmap_cons in HS. apply StronglySorted_inv in HS as [HS Hn]. rewrite Forall_fmap in Hn.
      assert (derive_binding id (prev, acc) x = Ok (Some (cvb_name b), acc ++ [b])) as ->.
      { apply derive_binding_ok. exists b. split_and!; [done..| |done].
        intros p Hp. by apply Hlt, Forall_cons in Hp as [? _]. }
      apply IH. exists bs. split_and!; [done..| |].
      * intros p [= <-]. exact Hn.
      * rewrite <-app_assoc, fmap_cons, last_cons. by destruct (last (cvb_name <$> bs)).
Qed.

Lemma manifest_valid bs :
  Forall binding_valid bs → StronglySorted str_lt (cvb_name <$> bs) →
  validate_verifier_manifest bs = Ok ().
Proof.
  intros HV HS. unfold validate_verifier_manifest.
  assert (∀ prev, (∀ p, prev = Some p → Forall (λ b, str_lt p (cvb_name b)) bs) →
    ∃ o, fold_m validate_verifier_binding prev bs = Ok o) as Hl.
  { induction HV as [|b bs (V1 & V2 & V3) _ IH]; intros prev Hp; [by eexists|].
    rewrite fmap_cons in HS. apply StronglySorted_inv in HS as [HS Hn]. rewrite Forall_fmap in Hn. simpl.
    unfold validate_verifier_binding. rewrite V1, V2. simpl. unfold require_sha256. rewrite V3. simpl.
    destruct prev as [p|]; [specialize (Hp p eq_refl); apply Forall_cons in Hp as [Hp _]; rewrite Hp|];
      simpl; (apply IH; [done|]; intros ? [= <-]; exact Hn). }
  destruct (Hl None) as [o ->]; [done|]. done.
Qed.

Lemma position_Some {A} (p : A → bool) l i :
  position p l = Some i ↔ ∃ before x after, l = before ++ x :: after ∧ length before = i ∧
    p x = true ∧ Forall (λ y, p y = false) before.
Proof.
  revert i. induction l as [|y l IH]; intros i; simpl.
  - split; [done|]. by intros ([] & ? & ? & ? & _).
  - destruct (p y) eqn:Ep.
    + split; [intros [= <-]; by exists [], y, l|].
      intros (before & x & after & El & <- & Hx & Hb). destruct before as [|z before]; [done|].
      injection El as <- _. apply Forall_cons in Hb as [? _]. congruence.
    + split.
      * intros Hi. destruct (position p l) as [j|]; [|done]. injection Hi as <-.
        destruct (proj1 (IH j) eq_refl) as (before & x & after & -> & <- & Hx & Hb).
        exists (y :: before), x, after. split_and!; [done..|by constructor].
      * intros (before & x & after & El & <- & Hx & Hb). destruct before as [|z before].
        { injection El as <- <-. congruence. }
        injection El as <- ->. apply Forall_cons in Hb as [_ Hb].
        rewrite (proj2 (IH (length before))); [done|]. by exists before, x, after.
Qed.

(** The evidence a receipt describes. *)
Definition evidence_holds (turn : Turn) (r : CompletionReceipt) : Prop :=
  let id := rc_candidate_item_id r in let g := rc_generation r in
  ∃ before candidate suffix bindings model origin content,
    tn_items turn = before ++ candidate :: suffix ∧
    it_id candidate = id ∧ Forall (λ item, it_id item ≠ id) before ∧
    it_kind candidate
      = AssistantMessage (Some model) (Some origin) (Some (cg_model_request_sha256 g)) content ∧
    validate_model_id model = Ok () ∧ validate_capability_origin origin = Ok () ∧
    Forall2 (verifier_passed id) suffix bindings ∧ Forall binding_valid bindings ∧
    StronglySorted str_lt (cvb_name <$> bindings) ∧ len suffix = rc_verifier_count r ∧
    canonical_json_sha256 DOMAIN_CANDIDATE candidate MAX_COMPLETION_HASH_INPUT_BYTES
      = Ok (rc_candidate_sha256 r) ∧
    canonical_json_sha256 DOMAIN_TURN_EVIDENCE (before ++ [candidate])
      MAX_COMPLETION_HASH_INPUT_BYTES = Ok (rc_turn_evidence_sha256 r) ∧
    canonical_json_sha256 DOMAIN_VERIFIER_RESULTS suffix MAX_COMPLETION_HASH_INPUT_BYTES
      = Ok (rc_verifier_results_sha256 r) ∧
    canonical_json_sha256 DOMAIN_VERIFIER_MANIFEST bindings MAX_COMPLETION_HASH_INPUT_BYTES
      = Ok (cg_verifier_manifest_sha256 g).

(** The assurance level a generation claims. *)
Definition assurance_holds (items : list Item) (tenant : option str) (r : CompletionReceipt) : Prop :=
  match cg_assurance (rc_generation r) with
  | RuntimeMeasured => List.filter is_execution_binding items = []
  | DeploymentBound => ∃ item binding, List.filter is_execution_binding items = [item] ∧
      it_kind item = ItemExecutionBinding (actor (rc_authority r)) binding ∧
      eb_tenant_id binding = tenant ∧ binding_validate binding = Ok () ∧
      ∃ digest, cg_execution_binding_sha256 (rc_generation r) = Some digest ∧
        canonical_json_sha256 DOMAIN_EXECUTION_BINDING item MAX_COMPLETION_HASH_INPUT_BYTES = Ok digest
  end.

Lemma assurance_exact items tenant r :
  validate_execution_assurance items tenant (rc_authority r) (rc_generation r) = Ok () ↔
  assurance_holds items tenant r.
Proof.
  unfold validate_execution_assurance, assurance_holds, validate_execution_binding_authority.
  destruct (cg_assurance _); [destruct (List.filter _ _); naive_solver|].
  destruct (List.filter is_execution_binding items) as [|item [|? ?]] eqn:Ef; try naive_solver.
  assert (is_execution_binding item = true) as Hi.
  { assert (In item (List.filter is_execution_binding items)) as Hin by (rewrite Ef; by left).
    by apply List.filter_In in Hin as [_ ?]. }
  assert (completion_execution_binding_sha256 item
    = canonical_json_sha256 DOMAIN_EXECUTION_BINDING item MAX_COMPLETION_HASH_INPUT_BYTES) as ->.
  { unfold completion_execution_binding_sha256. by rewrite Hi. }
  unfold is_execution_binding in Hi.
  destruct (it_kind item) as [|by_ b| | | | | | | | | | | | | | | | | | | | |] eqn:Ek; try done. split.
  - intros E. apply bind_ok in E as ([] & E1 & E). apply reject_bind in E1 as [E1 Hb%map_err_ok].
    apply orb_false_iff in E1 as [Ha%bool_decide_eq_false%dec_stable Ht%bool_decide_eq_false%dec_stable].
    apply bind_ok in E as (d & Hd & E). apply reject_if_ok, bool_decide_eq_false, dec_stable in E.
    exists item, b. subst. split_and!; [done|exact Ek|done|done|]. by exists d.
  - intros (? & b' & [= <-] & E2 & Ht & Hb & d & Hg & Hd). rewrite Ek in E2. injection E2 as -> ->.
    rewrite !bool_decide_eq_false_2 by tauto. cbn [orb]. rewrite Hb, Hd.
    unfold reject_if, mbind. cbn [result_bind map_err]. by rewrite bool_decide_eq_false_2 by tauto.
Qed.

(** What the digests of a receipt are compared with. *)
Definition evidence_matches (r : CompletionReceipt) (ev : DerivedTurnEvidence) : Prop :=
  de_candidate_sha256 ev = rc_candidate_sha256 r ∧
  de_turn_evidence_sha256 ev = rc_turn_evidence_sha256 r ∧
  de_verifier_results_sha256 ev = rc_verifier_results_sha256 r ∧
  de_verifier_count ev = rc_verifier_count r ∧
  de_model_request_sha256 ev = cg_model_request_sha256 (rc_generation r) ∧
  de_verifier_manifest_sha256 ev = cg_verifier_manifest_sha256 (rc_generation r).

Lemma passed_suffix id suffix bs :
  Forall2 (verifier_passed id) suffix bs →
  existsb (λ item, negb (is_verification_result item)) suffix = false.
Proof.
  induction 1 as [|x b l k (su & Hx) _ IH]; [done|]. simpl. unfold is_verification_result. by rewrite Hx.
Qed.

Lemma take_middle {A} (before after : list A) x :
  take (S (length before)) (before ++ x :: after) = before ++ [x] ∧
  drop (S (length before)) (before ++ x :: after) = after ∧
  (before ++ x :: after) !! length before = Some x.
Proof.
  split_and!.
  - by rewrite (cons_middle x), app_assoc, take_app_length' by (rewrite length_app; simpl; lia).
  - by rewrite (cons_middle x), app_assoc, drop_app_length' by (rewrite length_app; simpl; lia).
  - by rewrite lookup_app_r, Nat.sub_diag by lia.
Qed.

Lemma derive_exact turn r :
  is_lower_sha256 (cg_model_request_sha256 (rc_generation r)) = true →
  (∃ ev, derive_turn_evidence turn (rc_candidate_item_id r) = Ok ev ∧ evidence_matches r ev) ↔
  evidence_holds turn r.
Proof.
  intros Hsha. set (id := rc_candidate_item_id r). unfold derive_turn_evidence, evidence_matches, evidence_holds.
  fold id. split.
  - intros (ev & E & M).
    apply bind_ok in E as (i & (before & candidate & suffix & El & <- & Hid & Hb)%ok_or_ok%position_Some & E).
    rewrite El in E. destruct (take_middle before suffix candidate) as (T1 & T2 & T3). rewrite T1, T2, T3 in E.
    apply bind_ok in E as (_ & _ & E). apply bind_ok in E as (? & [= <-] & E).
    apply bind_ok in E as ([[model origin] req] & Ek & E).
    destruct (it_kind candidate) as [| | | |[m|] [o|] [rq|] content| | | | | | | | | | | | | | | | | |] eqn:Ec; try done.
    injection Ek as -> -> ->.
    apply bind_ok in E as ([] & Hm%map_err_ok & E). apply bind_ok in E as ([] & Ho%map_err_ok & E).
    apply bind_ok in E as (_ & _ & E). apply bind_ok in E as (st & Hst & E).
    apply bind_ok in E as (d1 & E1 & E). apply bind_ok in E as (d2 & E2 & E).
    apply bind_ok in E as (d3 & E3 & E). apply bind_ok in E as (d4 & E4 & E).
    apply Ok_inj in E as <-. simpl in M. destruct M as (-> & -> & -> & Hn & -> & ->).
    apply derive_loop in Hst as (bs & HF & HV & HS & _ & ->).
    apply bind_ok in E4 as (_ & _ & E4). simpl in E4.
    exists before, candidate, suffix, bs, model, origin, content.
    split_and!; try done.
    + by apply bool_decide_eq_true in Hid.
    + eapply Forall_impl; [exact Hb|]. intros x Hx. by apply bool_decide_eq_false in Hx.
  - intros (before & candidate & suffix & bs & model & origin & content & El & Hid & Hb & Ec & Hm & Ho & HF
      & HV & HS & Hn & E1 & E2 & E3 & E4).
    assert (position (λ item, bool_decide (it_id item = id)) (tn_items turn) = Some (length before)) as ->.
    { apply position_Some. exists before, candidate, suffix. split_and!; [done..|by apply bool_decide_eq_true|].
      eapply Forall_impl; [exact Hb|]. intros x Hx. by apply bool_decide_eq_false. }
    simpl ok_or. rewrite ok_bind, El. destruct (take_middle before suffix candidate) as (-> & -> & ->).
    rewrite (passed_suffix _ _ _ HF). simpl. rewrite Ec. simpl. rewrite Hm, Ho. simpl.
    unfold require_sha256. rewrite Hsha. simpl.
    assert (fold_m (derive_binding id) (None, []) suffix
      = Ok (match last (cvb_name <$> bs) with Some n => Some n | None => None end, bs)) as ->.
    { apply derive_loop. exists bs. split_and!; [done..| |reflexivity]. by intros ? [=]. }
    simpl. rewrite E1. simpl. rewrite E2. simpl. rewrite E3. simpl.
    unfold completion_verifier_manifest_sha256. rewrite manifest_valid by done. simpl. rewrite E4. simpl.
    eexists. split; [reflexivity|]. by split_and!.
Qed.

Lemma shape_request_sha256 r :
  validate_receipt_shape r = Ok () → is_lower_sha256 (cg_model_request_sha256 (rc_generation r)) = true.
Proof.
  unfold validate_receipt_shape. intros E. do 6 apply bind_ok in E as (? & _ & E).
  apply bind_ok in E as (? & Hg & _). unfold generation_validate in Hg.
  apply bind_ok in Hg as (? & Hc & _). unfold generation_validate_components in Hc.
  apply bind_ok in Hc as (? & _ & Hc). apply bind_ok in Hc as (? & Hf & _).
  apply for_each_ok with (x := ("completion model request"%string, cg_model_request_sha256 (rc_generation r))) in Hf;
    [|by left]. by apply require_sha256_ok in Hf.
Qed.

Lemma receipt_valid_iff turn tenant r placement :
  validate_receipt_against_items turn tenant r placement = Ok () ↔
  validate_receipt_shape r = Ok () ∧ tenant_id (rc_authority r) = tenant ∧
  rc_turn_id r = tn_id turn ∧ (placement = Direct → rc_source_thread_id r = tn_thread_id turn) ∧
  validate_settled_tools_and_approvals (tn_items turn) = Ok () ∧
  assurance_holds (tn_items turn) tenant r ∧ evidence_holds turn r.
Proof.
  unfold validate_receipt_against_items. split.
  - intros E. apply bind_ok in E as ([] & Hs & E). apply bind_ok in E as (_ & _ & E).
    apply reject_bind in E as [Ht%bool_decide_eq_false%dec_stable E].
    apply reject_bind in E as [Hi%bool_decide_eq_false%dec_stable E].
    apply reject_bind in E as [Hp E]. apply bind_ok in E as ([] & Hst & E).
    apply bind_ok in E as ([] & Ha & E). apply bind_ok in E as (ev & Hev & E).
    apply reject_bind in E as [Hm E]. apply reject_bind in E as [Hq E]. apply reject_if_ok in E.
    rewrite !orb_false_iff, !bool_decide_eq_false, negb_false_iff, Z.eqb_eq in Hm.
    apply bool_decide_eq_false, dec_stable in Hq, E.
    split_and!; [done..| |done| |].
    + intros ->. by apply bool_decide_eq_false, dec_stable in Hp.
    + by apply assurance_exact.
    + apply derive_exact; [by apply shape_request_sha256|]. exists ev. split; [done|].
      destruct Hm as [[[?%dec_stable ?%dec_stable] ?%dec_stable] ?]. by split_and!.
  - intros (Hs & Ht & Hi & Hp & Hst & Ha & He).
    apply derive_exact in He as (ev & Hev & M1 & M2 & M3 & M4 & M5 & M6); [|by apply shape_request_sha256].
    rewrite Hs. simpl.
    assert (authority_validate_current (rc_authority r) "completion receipt authority" = Ok ()) as ->.
    { unfold validate_receipt_shape in Hs. apply bind_ok in Hs as (? & _ & Hs).
      by apply bind_ok in Hs as ([] & ? & _). }
    simpl. rewrite (bool_decide_eq_false_2 (tenant_id _ ≠ _)) by tauto. simpl.
    rewrite (bool_decide_eq_false_2 (rc_turn_id r ≠ _)) by tauto. simpl.
    replace (match placement with Direct => _ | Inherited => false end) with false
      by (destruct placement; [rewrite bool_decide_eq_false_2; [done|rewrite Hp by done; tauto]|done]).
    simpl. rewrite Hst. simpl. rewrite (proj2 (assurance_exact _ _ _) Ha). simpl. rewrite Hev. simpl.
    rewrite M1, M2, M3, M4, M5, M6, !bool_decide_eq_false_2, Z.eqb_refl by tauto. done.
Qed.

(** C39: A receipt settles a Turn exactly when it is well formed, is of the
    Turn, its tenant and, unless inherited, its Thread; the Tool calls of the
    journal are settled; the generation's assurance holds of the journal; and
    the journal ends in the receipt's candidate, an attributed message of the
    generation's model request, followed only by passing results for that
    candidate of the verifiers of the generation's manifest, in strict name
    order, with all the recorded digests. *)
Theorem completion_receipt_exact turn tenant r placement :
  validate_receipt_against_items turn tenant r placement = Ok () ↔
  validate_receipt_shape r = Ok () ∧ tenant_id (rc_authority r) = tenant ∧
  rc_turn_id r = tn_id turn ∧ (placement = Direct → rc_source_thread_id r = tn_thread_id turn) ∧
  validate_settled_tools_and_approvals (tn_items turn) = Ok () ∧
  assurance_holds (tn_items turn) tenant r ∧ evidence_holds turn r.
Proof. apply receipt_valid_iff. Qed.


(** * The verifier registry *)

Definition verifier_registered_ok (key : str) (v : RegisteredVerifier) : Prop :=
  vd_name (rv_descriptor v) = key ∧ cvb_name (rv_completion_binding v) = key ∧
  cvb_origin (rv_completion_binding v) = rv_origin v ∧ binding_valid (rv_completion_binding v).
Definition verifier_registry_ok (r : VerificationRegistry) : Prop := map_Forall verifier_registered_ok r.

Lemma hex_lower_sha256 l : is_lower_sha256 (hex_lower (sha256_of_bytes l)) = true.
Proof.
  unfold hex_lower. assert (hex_pair <$> sha256_of_bytes l = hex_byte <$> sha256_of_bytes l) as ->.
  { apply list_fmap_ext. intros i b Hb. apply hex_pair_byte.
    apply (sha256_of_bytes_bytes l). by eapply list_elem_of_lookup_2. }
  unfold is_lower_sha256. destruct (hex_bytes_lower (sha256_of_bytes l)) as [-> ->].
  - intros b. apply sha256_of_bytes_bytes.
  - unfold len. by rewrite sha256_of_bytes_length.
Qed.

Lemma str_le_strict_keys (l : list str) : StronglySorted str_le l → NoDup l → StronglySorted str_lt l.
Proof.
  induction 1 as [|a l Hs IH Ha]; intros Hn; constructor; apply NoDup_cons in Hn as [Hx Hn]; [by apply IH|].
  rewrite Forall_forall in Ha |- *. intros b Hb. specialize (Ha b Hb). unfold str_lt.
  apply not_true_is_false. intros Hba. apply Hx. replace a with b; [done|].
  by apply (anti_symm str_le).
Qed.

(** Registration is by name and never replaces: it adds one verifier under its
    valid name or changes nothing; and the manifest of a registry is one that
    completion accepts, in strict name order. *)
Theorem verification_registry_manifest origin answer (r r' : VerificationRegistry) res
    (Hr : verifier_registry_ok r) (Hc : verification_register origin answer r = (r', res)) :
  verifier_registry_ok r' ∧ validate_verifier_manifest (completion_bindings r') = Ok () ∧
  match res with
  | Ok _ => ∃ d v, answer = Some d ∧ r !! vd_name d = None ∧ rv_descriptor v = d ∧ rv_origin v = origin ∧
      r' = <[vd_name d := v]> r
  | Err _ => r' = r
  end.
Proof.
  assert (∀ m, verifier_registry_ok m → validate_verifier_manifest (completion_bindings m) = Ok ()) as Hm.
  { intros m Hk. assert (∀ p, p ∈ bt_iter m → verifier_registered_ok p.1 p.2) as Hp.
    { intros [k v] Hin%elem_of_bt_iter. by apply Hk. }
    apply manifest_valid; unfold completion_bindings, bt_values.
    - rewrite !Forall_fmap. apply Forall_forall. intros p Hin. by destruct (Hp p Hin) as (_ & _ & _ & ?).
    - replace (cvb_name <$> (rv_completion_binding <$> (bt_iter m).*2)) with (bt_keys m).
      + apply str_le_strict_keys; [|apply NoDup_bt_keys]. unfold bt_keys.
        assert (StronglySorted key_le (bt_iter m)) as Hs by (apply Sorted_StronglySorted; [apply _|apply Sorted_bt_iter]).
        clear Hp. induction Hs as [|a l Hs IH Ha]; simpl; [constructor|]. constructor; [exact IH|].
        rewrite Forall_fmap. eapply Forall_impl; [exact Ha|done].
      + unfold bt_keys. rewrite <-!list_fmap_compose. apply list_fmap_ext. intros i p Hi.
        apply list_elem_of_lookup_2, Hp in Hi as (_ & <- & _). done. }
  assert (verifier_registry_ok r' ∧ match res with
    | Ok _ => ∃ d v, answer = Some d ∧ r !! vd_name d = None ∧ rv_descriptor v = d ∧ rv_origin v = origin ∧
        r' = <[vd_name d := v]> r
    | Err _ => r' = r
    end) as [Hr' Hres]; [|split_and!; auto].
  unfold verification_register in Hc. unfold mbind, M_bind, get, lift, put in Hc.
  destruct (validate_capability_origin origin) as [[]|] eqn:Eo; [|by injection Hc as <- <-].
  destruct (validate_registry_growth _ _ _) as [[]|]; [|by injection Hc as <- <-].
  destruct answer as [d|]; [|by injection Hc as <- <-]. simpl in Hc.
  destruct (verification_validate_descriptor d) as [[]|] eqn:Ed; [|by injection Hc as <- <-].
  destruct (r !! vd_name d) as [v|] eqn:El; simpl in Hc; [by injection Hc as <- <-|].
  destruct (CompletionVerifierBinding_new d origin) as [b|] eqn:Eb; [|by injection Hc as <- <-].
  injection Hc as <- <-. split.
  - apply map_Forall_insert_2; [|done]. unfold CompletionVerifierBinding_new in Eb.
    apply bind_ok in Eb as (_ & _ & Eb). apply bind_ok in Eb as (_ & _ & Eb).
    apply bind_ok in Eb as (sha & Esha & [= <-]). split_and!; [done..|]. simpl.
    unfold completion_verifier_binding_sha256, canonical_json_sha256 in Esha.
    apply bind_ok in Esha as (_ & _ & Esha). apply bind_ok in Esha as (_ & _ & Esha).
    apply bind_ok in Esha as (text & _ & [= <-]).
    split_and!; [|done|apply hex_lower_sha256]. simpl.
    unfold verification_validate_descriptor in Ed. apply bind_ok in Ed as ([] & Ed & _).
    by rewrite validate_capability_name_ok in Ed |- *.
  - refine (ex_intro _ d (ex_intro _ _ (conj eq_refl (conj El (conj _ (conj _ eq_refl)))))); done.
Qed.
End receipts.
