(* ===== verification/CompletionDemo.v ===== *)
(** A concrete Turn settled by a receipt, and its copy in another Thread settled
    by the same receipt, under a codec that writes Items by their identities and
    a checksum for SHA-256; and a registry of one verifier. *)

From Stdlib Require Import ZArith Lia.
From stdpp Require Import sorting base tactics list gmap numbers strings option.
From stdpp Require Import list.
From S2P Require Import Prelude Kernel Digest Json Approval ApprovalHandler Journal WaitDue Completion CompletionSafety.

(** A text parses to the string of itself, so a value is its encoding. *)
#[local] Instance demo_value : Serialize Json := λ j,
  match j with JString s => Some s | _ => Some (lit "null") end.
#[local] Instance demo_parse : Deserialize Json := λ s, Some (JString s).
#[local] Instance demo_text_item : Serialize Item := λ i, Some (it_id i ++ lit ";").
#[local] Instance demo_text_items : Serialize (list Item) := λ l,
  Some (concat ((λ i, it_id i ++ lit ";") <$> l)).
#[local] Instance demo_text_bindings : Serialize (list CompletionVerifierBinding) := λ l,
  Some (concat ((λ b, cvb_name b ++ cvb_binding_sha256 b ++ lit ";") <$> l)).
#[local] Instance demo_text_descriptor : Serialize (VerifierDescriptor * CapabilityOrigin) := λ p,
  Some (vd_name p.1 ++ lit ":" ++ vd_description p.1).
#[local] Instance demo_text_payload : Serialize GenerationPayload := λ p,
  Some (gp_verifier_manifest p ++ gp_runtime_governance p).
#[local] Instance demo_text_receipt : Serialize CompletionReceipt := λ r,
  Some (rc_turn_evidence_sha256 r ++ rc_verifier_results_sha256 r).
#[local] Instance demo_text_binding : Serialize ExecutionBinding := λ _, Some (lit "binding").
#[local] Instance demo_codec : CompletionCodec := {|
  codec_value := _; codec_parse := _; codec_descriptor := _; codec_bindings := _;
  codec_payload := _; codec_receipt := _; codec_item := _; codec_items := _; codec_binding := _ |}.

(** Thirty-two checksums of the input, one byte each. *)
Definition checksum_round (i acc b : N) : N := ((acc * 31 + b + i) mod 251)%N.
#[local] Instance checksum_sha : Sha256Bytes := λ l,
  (λ i, fold_left (checksum_round (N.of_nat i)) l (N.of_nat i)) <$> seq 0 32.

Lemma checksum_bound i l acc : (acc < 256)%N → (fold_left (checksum_round i) l acc < 256)%N.
Proof.
  revert acc. induction l as [|c l IH]; intros acc Hb; [done|]. simpl. apply IH.
  unfold checksum_round. pose proof (N.mod_lt (acc * 31 + c + i) 251). lia.
Qed.

#[local] Instance checksum_sha_laws : Sha256BytesLaws.
Proof.
  split; [intros l; unfold sha256_of_bytes, checksum_sha; by rewrite length_fmap, length_seq|].
  intros l b (i & -> & Hi)%list_elem_of_fmap. apply checksum_bound.
  apply elem_of_seq in Hi. lia.
Qed.

Definition some_digest : str := hex_lower (repeat 171%N 32).
Definition demo_get {A} (d : A) (r : result A) : A := match r with Ok a => a | Err _ => d end.
Definition demo_binding : CompletionVerifierBinding :=
  demo_get {| cvb_name := []; cvb_origin := BuiltIn; cvb_binding_sha256 := [] |}
    (CompletionVerifierBinding_new
       {| vd_name := lit "required-output"; vd_description := lit "Requires an output" |} BuiltIn).
Definition no_generation : CompletionGeneration := {|
  cg_format_version := 0; cg_model_request_sha256 := []; cg_model_route_sha256 := [];
  cg_tool_view_sha256 := []; cg_verifier_manifest_sha256 := []; cg_runtime_governance_sha256 := [];
  cg_execution_binding_sha256 := None; cg_assurance := RuntimeMeasured; cg_generation_sha256 := [] |}.
Definition demo_generation : CompletionGeneration :=
  demo_get no_generation (CompletionGeneration_new some_digest some_digest some_digest
    (demo_get [] (completion_verifier_manifest_sha256 [demo_binding])) some_digest None RuntimeMeasured).

Definition demo_item (id : string) (kind : ItemKind) : Item :=
  {| it_id := lit id; it_created_at_ms := 10; it_kind := kind |}.
Definition demo_items : list Item := [
  demo_item "i1" (UserMessage (lit "hello"));
  demo_item "i2" (ToolCall None None (lit "c1") (lit "search") JNull None);
  demo_item "i3" (ItemPolicyDecision (lit "c1") None (PolicyAsk (lit "network") RiskMedium));
  demo_item "i4" (ApprovalRequested (lit "a1") (lit "c1") (lit "search") (lit "network") RiskMedium
                    None None None);
  demo_item "i5" (ItemApprovalDecision (lit "a1") (lit "c1") DecisionApprove);
  demo_item "i6" (ToolResult (lit "c1") JNull false []);
  demo_item "i7" (AssistantMessage (Some (lit "model")) (Some BuiltIn) (Some some_digest)
                    (lit "done"));
  demo_item "i8" (VerificationResult (lit "required-output") (Some (lit "i7")) (Some BuiltIn)
                    (Some (cvb_binding_sha256 demo_binding)) (VerificationPassed None)) ].
Definition demo_turn : Turn := {|
  tn_id := lit "t1"; tn_thread_id := lit "th1"; tn_status := TurnIsRunning; tn_items := demo_items;
  tn_completion_receipt := None |}.

Lemma demo_completion_receipt_built :
  is_ok (build_completion_receipt demo_turn local_process (lit "i7") demo_generation
    v1_no_external_requirements) = true.
Proof. vm_compute. reflexivity. Qed.

(** Without the approval the journal is not settled. *)
Lemma demo_unapproved :
  is_ok (validate_settled_tools_and_approvals demo_items) = true ∧
  is_ok (validate_settled_tools_and_approvals (take 4 demo_items ++ drop 5 demo_items)) = false.
Proof. split; vm_compute; reflexivity. Qed.

Definition demo_completion_receipt : CompletionReceipt :=
  demo_get
    {| rc_format_version := 0; rc_authority := local_process; rc_source_thread_id := [];
       rc_turn_id := []; rc_candidate_item_id := []; rc_candidate_sha256 := [];
       rc_turn_evidence_sha256 := []; rc_verifier_results_sha256 := []; rc_verifier_count := 0;
       rc_generation := demo_generation; rc_contract := v1_no_external_requirements |}
    (build_completion_receipt demo_turn local_process (lit "i7") demo_generation
       v1_no_external_requirements).


(** The Turn as a fork of its Thread inherits it, with the same Items, and the
    Turn with its first Item replaced. *)
Definition demo_turn_inherited : Turn := {|
  tn_id := lit "t1"; tn_thread_id := lit "th2"; tn_status := TurnIsRunning; tn_items := demo_items;
  tn_completion_receipt := None |}.
Definition demo_turn_edited : Turn := {|
  tn_id := lit "t1"; tn_thread_id := lit "th1"; tn_status := TurnIsRunning;
  tn_items := demo_item "i0" (UserMessage (lit "hello")) :: tail demo_items;
  tn_completion_receipt := None |}.


(** Neither a direct placement in the other Thread nor an edited journal is
    settled by the receipt. *)
Lemma demo_completion_receipt_refused :
  is_ok (validate_receipt_against_items demo_turn_inherited None demo_completion_receipt Direct) = false ∧
  is_ok (validate_receipt_against_items demo_turn_edited None demo_completion_receipt Direct) = false.
Proof. split; vm_compute; reflexivity. Qed.


Lemma verification_registry_manifest_witness :
  ∃ r', verification_register BuiltIn
      (Some {| vd_name := lit "required-output"; vd_description := lit "Requires an output" |}) ∅ = (r', Ok ()) ∧
    verifier_registry_ok r' ∧ validate_verifier_manifest (completion_bindings r') = Ok ().
Proof.
  destruct (verification_register BuiltIn
    (Some {| vd_name := lit "required-output"; vd_description := lit "Requires an output" |}) ∅) as [r' res] eqn:E.
  assert (res = Ok ()) as -> by (vm_compute in E; by injection E as _ <-).
  exists r'. split; [reflexivity|].
  destruct (verification_registry_manifest _ _ _ _ _ (map_Forall_empty _) E) as (H1 & H2 & _).
  split; [exact H1|exact H2].
Defined.
