(* ===== verification/StateWait.v ===== *)
(** Durable Agent Loop waits, src/src/state/mod.rs: the evidence of a wait, of
    its resumption, claim, closure and denial, how each is validated, and the
    execution a Turn's items project to. *)

From Stdlib Require Import ZArith Lia.
From stdpp Require Import base tactics list gmap numbers strings option.
From stdpp Require Import list.
From S2P Require Import Prelude Kernel Digest Json Approval ApprovalHandler Journal WaitDue Completion.

(** * Constants and errors *)

Definition MAX_STATE_EVENT_BYTES : Z := 8388608.
Definition MAX_AGENT_LOOP_WAIT_MS : Z := 86400000.

Definition ste (template : string) (args : list arg) : HarnessError := State (fmt template args).

(** [HarnessError::State(error.to_string())]. *)
Definition into_state (e : HarnessError) : HarnessError := State (error_text e).

Definition state_completion_error (error : HarnessError) : HarnessError :=
  match error with State _ => error | _ => into_state error end.

Definition state_json_error (kind : string) (maximum : Z) (error : BoundedJsonError)
    : HarnessError :=
  match error with
  | LimitExceeded => ste "{} exceeds {} bytes" [ALit kind; ANum maximum]
  | CannotEncode => ste "cannot encode {}" [ALit kind]
  end.

Definition validate_state_id (kind : string) (value : str) : result () :=
  reject_if (str_is_empty value || (256 <? str_len value)%Z || any_control value)
    (ste "{} identity must be 1-256 non-control bytes" [ALit kind]).

Definition validate_current_state (a : ActorIdentity) (kind : string) : result () :=
  match validate_current_message a kind with inl m => Err (State m) | inr u => Ok u end.

(** [if let Some(tenant_id) = .. { AuthorityContext::validate_tenant(..)? }]. *)
Definition validate_optional_tenant (tenant : option str) : result () :=
  match tenant with Some t => map_err into_state (validate_tenant_id t) | None => Ok () end.

(** * Commands *)

Record AgentLoopWaitStartCommand := {
  ws_wait_id : AgentLoopWaitId;
  ws_request : ApprovalRequest;
  ws_completion_generation : CompletionGeneration;
  ws_wait_ttl : option Z;
  ws_remaining_active_timeout_ms : option Z;
}.

Record AgentLoopWaitCloseCommand := {
  wcc_wait_id : AgentLoopWaitId;
  wcc_expected_revision : Z;
  wcc_command_id : AgentLoopCloseCommandId;
  wcc_status : TurnStatus;
  wcc_reason : TurnStopReason;
}.

Record AgentLoopReadyClaimCommand := {
  rcc_wait_id : AgentLoopWaitId;
  rcc_expected_revision : Z;
  rcc_resume_command_id : AgentLoopResumeCommandId;
  rcc_claim_id : AgentLoopClaimId;
  rcc_worker_id : AgentLoopWorkerId;
}.

(** What a command digest covers, besides its domain: the Thread and the Turn,
    the wait and its revision, the command, and who sent it. *)
Abbreviation SettleCommand :=
  (ThreadId * TurnId * AgentLoopWaitId * Z * str * ApprovalSettlementEvidence * AuthorityContext)%type
  (only parsing).
Abbreviation ClaimCommand :=
  (ThreadId * TurnId * AgentLoopWaitId * Z * AgentLoopResumeCommandId * AgentLoopClaimId
   * AgentLoopWorkerId * AuthorityContext)%type (only parsing).
Abbreviation CloseCommand :=
  (ThreadId * TurnId * AgentLoopWaitId * Z * AgentLoopCloseCommandId * TurnStatus * TurnStopReason
   * AuthorityContext)%type (only parsing).

(** The encodings that evidence digests and bounds are taken of. *)
Class WaitCodec := {
  codec_envelope :: Serialize (str * TurnWaitEnvelope);
  codec_settle :: Serialize (str * SettleCommand);
  codec_claim :: Serialize (str * ClaimCommand);
  codec_close :: Serialize (str * CloseCommand);
  codec_coordinate :: Serialize (str * (str * str * str));
  codec_role :: Serialize (str * (str * str));
  codec_record :: Serialize ApprovalRecord;
  codec_settlement :: Serialize ApprovalSettlementEvidence;
}.

Definition bounded_wait_ttl_ms (wait_ttl : option Z) : result (option Z) :=
  match wait_ttl with
  | None => Ok None
  | Some duration =>
      let milliseconds := as_millis duration in
      _ ← reject_if (u64_max <? milliseconds)%Z (ste "Agent Loop wait duration exceeds u64" []);
      _ ← reject_if (negb (in_range 1 MAX_AGENT_LOOP_WAIT_MS milliseconds))
            (ste "Agent Loop wait duration must be 1-{} milliseconds" [ANum MAX_AGENT_LOOP_WAIT_MS]);
      Ok (Some milliseconds)
  end.

Definition validate_remaining_active_timeout (value : option Z) : result () :=
  reject_if (match value with
             | Some milliseconds => negb (in_range 1 MAX_AGENT_LOOP_WAIT_MS milliseconds)
             | None => false
             end)
    (ste "remaining active timeout must be 1-{} milliseconds" [ANum MAX_AGENT_LOOP_WAIT_MS]).

(** * Approval requests *)

Definition is_object (v : Json) : bool := match v with JObject _ => true | _ => false end.
Definition shape_is_err (v : Json) : bool :=
  match validate_value_shape v with inl _ => true | inr _ => false end.

(** Trimmed, bounded text of a reason. *)
Definition reason_invalid (reason : str) : bool :=
  trim_is_empty reason || (4096 <? str_len reason)%Z || any_control reason.

Definition validate_approval_request_shape (request : ApprovalRequest) : result () :=
  let authorization := aq_authorization request in
  let descriptor := ta_descriptor authorization in
  _ ← validate_state_id "approval" (aq_id request);
  _ ← validate_current_state (aq_requested_by request) "State approval requester";
  _ ← validate_state_id "approval Thread" (ta_thread_id authorization);
  _ ← validate_state_id "approval Turn" (ta_turn_id authorization);
  _ ← validate_state_id "approval Tool call" (ta_call_id authorization);
  _ ← map_err into_state (validate_capability_name "approval Tool" (td_name descriptor));
  _ ← map_err into_state (validate_capability_origin (ta_origin authorization));
  _ ← reject_if (trim_is_empty (td_description descriptor)
                 || (65536 <? str_len (td_description descriptor))%Z
                 || any_control (td_description descriptor)
                 || negb (is_object (td_input_schema descriptor))
                 || shape_is_err (td_input_schema descriptor)
                 || shape_is_err (ta_input authorization))
        (ste "approval Tool descriptor or input violates bounded State shape" []);
  reject_if (reason_invalid (aq_reason request))
    (ste "approval reason must be 1-4096 trimmed non-control bytes" []).

Definition is_call (call_id : str) (item : Item) : bool :=
  match it_kind item with ToolCall _ _ c _ _ _ => bool_decide (c = call_id) | _ => false end.

Definition is_matching_ask (request : ApprovalRequest) (item : Item) : bool :=
  match it_kind item with
  | ItemPolicyDecision call_id (Some tool_origin) (PolicyAsk reason risk) =>
      bool_decide (call_id = ta_call_id (aq_authorization request))
      && bool_decide (tool_origin = ta_origin (aq_authorization request))
      && bool_decide (reason = aq_reason request) && bool_decide (risk = aq_risk request)
  | _ => false
  end.

Definition is_request_of (approval : ApprovalId) (item : Item) : bool :=
  match it_kind item with
  | ApprovalRequested approval_id _ _ _ _ _ _ _ => bool_decide (approval_id = approval)
  | _ => false
  end.

Definition validate_approval_wait_request (thread_id : ThreadId) (turn : Turn)
    (request : ApprovalRequest) (model_request_sha256 : str) (authority : AuthorityContext)
    : result () :=
  let authorization := aq_authorization request in
  _ ← validate_approval_request_shape request;
  _ ← reject_if (bool_decide (aq_requested_by request ≠ actor authority)
                 || bool_decide (ta_thread_id authorization ≠ thread_id)
                 || bool_decide (ta_turn_id authorization ≠ tn_id turn)
                 || negb (is_lower_sha256 model_request_sha256))
        (ste "approval wait requester, Turn coordinates, or Model request digest differ" []);
  '(name, input) ←
    match List.find (is_call (ta_call_id authorization)) (tn_items turn) with
    | Some {| it_kind := ToolCall _ _ _ name input _ |} => Ok (name, input)
    | _ => Err (ste "approval wait has no matching durable ToolCall" [])
    end;
  _ ← reject_if (bool_decide (name ≠ td_name (ta_descriptor authorization))
                 || bool_decide (input ≠ ta_input authorization))
        (ste "approval request differs from its durable ToolCall" []);
  _ ← reject_if (negb (existsb (is_matching_ask request) (tn_items turn)))
        (ste "approval wait has no matching durable Ask PolicyDecision" []);
  reject_if (existsb (is_request_of (aq_id request)) (tn_items turn))
    (ste "approval {} was already recorded" [AStr (aq_id request)]).

Section waits.
Context `{!CompletionCodec, !WaitCodec, !Sha256, !Sha256Bytes}.

(** * Digests and identities *)

Definition state_evidence_sha256 {T} `{!Serialize (str * T)} (domain : string) (value : T)
    : result str :=
  of_bounded (state_json_error "Agent Loop evidence" MAX_STATE_EVENT_BYTES)
    (bounded_serialized_sha256 (lit domain, value) MAX_STATE_EVENT_BYTES).

Inductive AgentLoopLifecycleEvent :=
| LifecycleWaitStarted
| LifecycleResumeAccepted
| LifecycleWaitDenied
| LifecycleWaitClosed
| LifecycleReadyClaimed.

Definition lifecycle_domain (e : AgentLoopLifecycleEvent) : string :=
  match e with
  | LifecycleWaitStarted => "y-harness.agent-loop.event.wait-started.v1"
  | LifecycleResumeAccepted => "y-harness.agent-loop.event.resume-accepted.v1"
  | LifecycleWaitDenied => "y-harness.agent-loop.event.wait-denied.v1"
  | LifecycleWaitClosed => "y-harness.agent-loop.event.wait-closed.v1"
  | LifecycleReadyClaimed => "y-harness.agent-loop.event.ready-claimed.v1"
  end.

Definition agent_loop_lifecycle_event_id (event : AgentLoopLifecycleEvent) (thread_id : ThreadId)
    (turn_id : TurnId) (stable_identity : str) : result EventId :=
  digest ← state_evidence_sha256 (lifecycle_domain event) (thread_id, turn_id, stable_identity);
  Ok (lit "agent-loop-event-v1-" ++ digest).

Definition agent_loop_maintenance_item_id (event_id : EventId) (role : string) : result ItemId :=
  digest ← state_evidence_sha256 "y-harness.agent-loop.maintenance-item.v1" (event_id, lit role);
  Ok (lit "agent-loop-maintenance-item-v1-" ++ digest).

(** [envelope.envelope_sha256.clear()]. *)
Definition unsigned_envelope (e : TurnWaitEnvelope) : TurnWaitEnvelope := {|
  we_wait_id := we_wait_id e; we_revision := we_revision e; we_thread_id := we_thread_id e;
  we_turn_id := we_turn_id e; we_tenant_id := we_tenant_id e; we_requested_by := we_requested_by e;
  we_server_started_at_ms := we_server_started_at_ms e; we_expires_at_ms := we_expires_at_ms e;
  we_remaining_active_timeout_ms := we_remaining_active_timeout_ms e;
  we_completion_generation := we_completion_generation e; we_wait_kind := we_wait_kind e;
  we_envelope_sha256 := [];
|}.

Definition wait_envelope_sha256 (envelope : TurnWaitEnvelope) : result str :=
  state_evidence_sha256 "y-harness.agent-loop.wait-envelope.v1" (unsigned_envelope envelope).

Definition resume_command_sha256 (thread_id : ThreadId) (turn_id : TurnId)
    (wait_id : AgentLoopWaitId) (expected_revision : Z) (command_id : AgentLoopResumeCommandId)
    (settlement : ApprovalSettlementEvidence) (authority : AuthorityContext) : result str :=
  state_evidence_sha256 (T:=SettleCommand) "y-harness.agent-loop.resume-command.v1"
    (thread_id, turn_id, wait_id, expected_revision, command_id, settlement, authority).

Definition execution_claim_sha256 (thread_id : ThreadId) (turn_id : TurnId)
    (command : AgentLoopReadyClaimCommand) (authority : AuthorityContext) : result str :=
  state_evidence_sha256 (T:=ClaimCommand) "y-harness.agent-loop.execution-claim.v1"
    (thread_id, turn_id, rcc_wait_id command, rcc_expected_revision command,
     rcc_resume_command_id command, rcc_claim_id command, rcc_worker_id command, authority).

Definition wait_close_command_sha256 (thread_id : ThreadId) (turn_id : TurnId)
    (command : AgentLoopWaitCloseCommand) (authority : AuthorityContext) : result str :=
  state_evidence_sha256 (T:=CloseCommand) "y-harness.agent-loop.wait-close-command.v1"
    (thread_id, turn_id, wcc_wait_id command, wcc_expected_revision command,
     wcc_command_id command, wcc_status command, wcc_reason command, authority).

Definition wait_denial_command_sha256 (thread_id : ThreadId) (turn_id : TurnId)
    (wait_id : AgentLoopWaitId) (expected_revision : Z) (command_id : AgentLoopDenyCommandId)
    (settlement : ApprovalSettlementEvidence) (authority : AuthorityContext) : result str :=
  state_evidence_sha256 (T:=SettleCommand) "y-harness.agent-loop.wait-denial-command.v1"
    (thread_id, turn_id, wait_id, expected_revision, command_id, settlement, authority).

(** * Envelopes and settlements *)

Definition validate_wait_envelope (envelope : TurnWaitEnvelope) : result () :=
  _ ← validate_state_id "Agent Loop wait" (we_wait_id envelope);
  _ ← validate_state_id "Agent Loop wait Thread" (we_thread_id envelope);
  _ ← validate_state_id "Agent Loop wait Turn" (we_turn_id envelope);
  _ ← reject_if (negb (we_revision envelope =? 1)%Z || (we_server_started_at_ms envelope =? 0)%Z)
        (ste "new Agent Loop wait requires revision one and non-zero server time" []);
  _ ← validate_current_state (we_requested_by envelope) "Agent Loop wait requester";
  _ ← validate_optional_tenant (we_tenant_id envelope);
  _ ← validate_remaining_active_timeout (we_remaining_active_timeout_ms envelope);
  _ ← match we_expires_at_ms envelope with
      | Some expires_at_ms =>
          let lifetime :=
            match checked_sub expires_at_ms (we_server_started_at_ms envelope) with
            | Some lifetime =>
                if in_range 1 MAX_AGENT_LOOP_WAIT_MS lifetime then Some lifetime else None
            | None => None
            end in
          _ ← ok_or lifetime (ste "Agent Loop wait expiry violates its server-time bound" []);
          Ok ()
      | None => Ok ()
      end;
  _ ← map_err state_completion_error (generation_validate (we_completion_generation envelope));
  _ ← match we_wait_kind envelope with
      | WaitApproval request model_request_sha256 =>
          _ ← validate_approval_request_shape request;
          reject_if (str_is_empty (aq_id request)
                     || bool_decide (aq_requested_by request ≠ we_requested_by envelope)
                     || bool_decide (ta_thread_id (aq_authorization request)
                                     ≠ we_thread_id envelope)
                     || bool_decide (ta_turn_id (aq_authorization request) ≠ we_turn_id envelope)
                     || negb (is_lower_sha256 model_request_sha256)
                     || bool_decide (model_request_sha256
                          ≠ cg_model_request_sha256 (we_completion_generation envelope)))
            (ste "Agent Loop wait Approval coordinates do not match its envelope" [])
      end;
  let mismatch := ste "Agent Loop wait envelope digest mismatch" [] in
  _ ← reject_if (negb (is_lower_sha256 (we_envelope_sha256 envelope))) mismatch;
  digest ← wait_envelope_sha256 envelope;
  reject_if (bool_decide (digest ≠ we_envelope_sha256 envelope)) mismatch.

Definition validate_approval_settlement_shape (settlement : ApprovalSettlementEvidence)
    : result () :=
  _ ← of_bounded (state_json_error "Approval settlement evidence" MAX_APPROVAL_RECORD_BYTES)
        (bounded_serialized_size settlement MAX_APPROVAL_RECORD_BYTES);
  _ ← validate_approval_request_shape (as_request settlement);
  _ ← validate_current_state (as_decided_by settlement) "Approval settlement actor";
  _ ← validate_optional_tenant (as_tenant_id settlement);
  _ ← reject_if (negb (as_inbox_schema_version settlement =? APPROVAL_INBOX_SCHEMA_VERSION)%Z
                 || (as_inbox_revision settlement <? 2)%Z
                 || (as_requested_at_ms settlement =? 0)%Z
                 || (as_settled_at_ms settlement <? as_requested_at_ms settlement)%Z
                 || bool_decide (as_decided_by settlement
                                 = aq_requested_by (as_request settlement)))
        (ste "Approval settlement evidence violates schema, revision, time, or actor separation" []);
  match as_decision settlement with
  | DecisionDeny reason =>
      reject_if (reason_invalid reason)
        (ste "Approval denial reason must be 1-4096 trimmed non-control bytes" [])
  | DecisionApprove => Ok ()
  end.

Definition approval_settlement_evidence (record : ApprovalRecord)
    : result ApprovalSettlementEvidence :=
  _ ← of_bounded (state_json_error "Approval Inbox settlement" MAX_APPROVAL_RECORD_BYTES)
        (bounded_serialized_size record MAX_APPROVAL_RECORD_BYTES);
  _ ← reject_if (negb (rec_schema_version record =? APPROVAL_INBOX_SCHEMA_VERSION)%Z
                 || (rec_revision record <? 2)%Z)
        (ste "resume requires a current, terminal Approval Inbox revision" []);
  '(decision, decided_by) ←
    match rec_status record with
    | RecordSettled decision decided_by => Ok (decision, decided_by)
    | _ => Err (ste "resume requires a settled Approval Inbox record" [])
    end;
  settled_at_ms ← ok_or (rec_settled_at_ms record)
    (ste "settled Approval Inbox record has no settlement time" []);
  let evidence := {|
    as_inbox_schema_version := rec_schema_version record;
    as_request := rec_request record;
    as_tenant_id := rec_tenant_id record;
    as_decision := decision;
    as_decided_by := decided_by;
    as_inbox_revision := rec_revision record;
    as_requested_at_ms := rec_requested_at_ms record;
    as_settled_at_ms := settled_at_ms;
  |} in
  _ ← validate_approval_settlement_shape evidence;
  Ok evidence.

Definition is_deny (decision : ApprovalDecision) : bool :=
  match decision with DecisionDeny _ => true | DecisionApprove => false end.

Definition approval_denial_settlement_evidence (record : ApprovalRecord)
    : result ApprovalSettlementEvidence :=
  settlement ← approval_settlement_evidence record;
  _ ← reject_if (negb (is_deny (as_decision settlement)))
        (ste "atomic wait denial requires a settled Deny decision" []);
  Ok settlement.

Definition wait_request (envelope : TurnWaitEnvelope) : ApprovalRequest :=
  match we_wait_kind envelope with WaitApproval request _ => request end.

Definition validate_approval_settlement (envelope : TurnWaitEnvelope)
    (settlement : ApprovalSettlementEvidence) : result () :=
  _ ← validate_approval_settlement_shape settlement;
  reject_if (bool_decide (as_request settlement ≠ wait_request envelope)
             || bool_decide (as_tenant_id settlement ≠ we_tenant_id envelope))
    (ste "Approval Inbox settlement differs from the exact durable wait" []).

Definition validate_wait_resume_authority (envelope : TurnWaitEnvelope) (wait_id : AgentLoopWaitId)
    (expected_revision : Z) (authority : AuthorityContext) : result () :=
  reject_if (bool_decide (we_wait_id envelope ≠ wait_id)
             || negb (we_revision envelope =? 1)%Z
             || negb (expected_revision =? we_revision envelope)%Z
             || bool_decide (we_requested_by envelope ≠ actor authority)
             || bool_decide (we_tenant_id envelope ≠ tenant_id authority))
    (ste "Agent Loop wait identity, revision, requester, or tenant differs" []).

Definition validate_wait_current_authority (envelope : TurnWaitEnvelope)
    (wait_id : AgentLoopWaitId) (expected_revision current_revision : Z)
    (authority : AuthorityContext) : result () :=
  reject_if (bool_decide (we_wait_id envelope ≠ wait_id)
             || negb (expected_revision =? current_revision)%Z
             || bool_decide (we_requested_by envelope ≠ actor authority)
             || bool_decide (we_tenant_id envelope ≠ tenant_id authority))
    (ste "Agent Loop wait identity, current revision, requester, or tenant differs" []).

Definition validate_wait_close_status (status : TurnStatus) (reason : TurnStopReason) : result () :=
  match status, reason with
  | TurnIsCancelled, StopCancelled | TurnIsTimedOut, StopTimedOut => Ok ()
  | _, _ => Err (ste "wait closure requires exactly Cancelled/cancelled or TimedOut/timed_out" [])
  end.

Definition validate_wait_not_expired (envelope : TurnWaitEnvelope) (server_now_ms : Z) : result () :=
  reject_if (match we_expires_at_ms envelope with
             | Some expires_at_ms => (expires_at_ms <=? server_now_ms)%Z
             | None => false
             end)
    (ste "Agent Loop wait {} expired" [AStr (we_wait_id envelope)]).

(** * Evidence *)

(** [AuthorityContext::new(envelope.requested_by, envelope.tenant_id)]. *)
Definition envelope_authority (envelope : TurnWaitEnvelope) : result AuthorityContext :=
  map_err into_state (AuthorityContext_new (we_requested_by envelope) (we_tenant_id envelope)).

Definition validate_resume_evidence (envelope : TurnWaitEnvelope) (evidence : ResumeEvidence)
    : result () :=
  _ ← validate_state_id "Agent Loop resume command" (re_command_id evidence);
  _ ← validate_approval_settlement envelope (re_settlement evidence);
  _ ← reject_if (bool_decide (re_wait_id evidence ≠ we_wait_id envelope)
                 || negb (re_previous_revision evidence =? we_revision envelope)%Z
                 || negb (re_revision evidence
                          =? saturating_add u64_max (we_revision envelope) 1)%Z
                 || (re_accepted_at_ms evidence <? we_server_started_at_ms envelope)%Z
                 || (re_accepted_at_ms evidence <? as_settled_at_ms (re_settlement evidence))%Z
                 || negb (is_lower_sha256 (re_command_sha256 evidence)))
        (ste "Agent Loop resume evidence violates wait revision, time, or digest shape" []);
  authority ← envelope_authority envelope;
  expected ← resume_command_sha256 (we_thread_id envelope) (we_turn_id envelope)
               (we_wait_id envelope) (re_previous_revision evidence) (re_command_id evidence)
               (re_settlement evidence) authority;
  reject_if (bool_decide (expected ≠ re_command_sha256 evidence))
    (ste "Agent Loop resume command digest mismatch" []).

Definition validate_wait_closure_evidence (envelope : TurnWaitEnvelope)
    (evidence : WaitClosureEvidence) : result () :=
  _ ← validate_state_id "Agent Loop close command" (wc_command_id evidence);
  _ ← validate_wait_close_status (wc_status evidence) (wc_reason evidence);
  next_revision ← ok_or (checked_add u64_max (wc_previous_revision evidence) 1)
    (ste "Agent Loop closure revision overflow" []);
  _ ← reject_if (bool_decide (wc_wait_id evidence ≠ we_wait_id envelope)
                 || (wc_previous_revision evidence =? 0)%Z
                 || negb (wc_revision evidence =? next_revision)%Z
                 || (wc_closed_at_ms evidence <? we_server_started_at_ms envelope)%Z
                 || negb (is_lower_sha256 (wc_command_sha256 evidence)))
        (ste "Agent Loop closure evidence violates wait revision, time, or digest shape" []);
  _ ← reject_if (bool_decide (wc_status evidence = TurnIsTimedOut)
                 && match we_expires_at_ms envelope with
                    | Some expires_at_ms => (wc_closed_at_ms evidence <? expires_at_ms)%Z
                    | None => true
                    end)
        (ste "TimedOut wait closure requires an elapsed server expiry" []);
  authority ← envelope_authority envelope;
  expected ← wait_close_command_sha256 (we_thread_id envelope) (we_turn_id envelope)
    {| wcc_wait_id := we_wait_id envelope;
       wcc_expected_revision := wc_previous_revision evidence;
       wcc_command_id := wc_command_id evidence;
       wcc_status := wc_status evidence;
       wcc_reason := wc_reason evidence |} authority;
  reject_if (bool_decide (expected ≠ wc_command_sha256 evidence))
    (ste "Agent Loop wait closure command digest mismatch" []).

Definition validate_wait_denial_evidence (envelope : TurnWaitEnvelope)
    (evidence : WaitDenialEvidence) : result () :=
  _ ← validate_state_id "Agent Loop denial command" (wd_command_id evidence);
  _ ← validate_approval_settlement envelope (wd_settlement evidence);
  _ ← reject_if (negb (is_deny (as_decision (wd_settlement evidence))))
        (ste "Agent Loop denial evidence does not contain a Deny settlement" []);
  next_revision ← ok_or (checked_add u64_max (wd_previous_revision evidence) 1)
    (ste "Agent Loop denial revision overflow" []);
  _ ← reject_if (bool_decide (wd_wait_id evidence ≠ we_wait_id envelope)
                 || (wd_previous_revision evidence =? 0)%Z
                 || negb (wd_revision evidence =? next_revision)%Z
                 || (wd_denied_at_ms evidence <? we_server_started_at_ms envelope)%Z
                 || (wd_denied_at_ms evidence <? as_settled_at_ms (wd_settlement evidence))%Z
                 || negb (is_lower_sha256 (wd_command_sha256 evidence)))
        (ste "Agent Loop denial evidence violates wait revision, time, or digest shape" []);
  authority ← envelope_authority envelope;
  expected ← wait_denial_command_sha256 (we_thread_id envelope) (we_turn_id envelope)
               (we_wait_id envelope) (wd_previous_revision evidence) (wd_command_id evidence)
               (wd_settlement evidence) authority;
  reject_if (bool_decide (expected ≠ wd_command_sha256 evidence))
    (ste "Agent Loop wait denial command digest mismatch" []).

Definition validate_claim_evidence (envelope : TurnWaitEnvelope) (resume : ResumeEvidence)
    (evidence : ExecutionClaimEvidence) : result () :=
  _ ← validate_state_id "Agent Loop claim" (xe_claim_id evidence);
  _ ← validate_state_id "Agent Loop worker" (xe_worker_id evidence);
  _ ← reject_if (bool_decide (xe_wait_id evidence ≠ we_wait_id envelope)
                 || negb (xe_previous_revision evidence =? re_revision resume)%Z
                 || negb (xe_revision evidence =? saturating_add u64_max (re_revision resume) 1)%Z
                 || bool_decide (xe_resume_command_id evidence ≠ re_command_id resume)
                 || (xe_claimed_at_ms evidence <? re_accepted_at_ms resume)%Z
                 || negb (is_lower_sha256 (xe_claim_sha256 evidence)))
        (ste "Agent Loop claim evidence violates ready revision, worker, time, or digest shape" []);
  authority ← envelope_authority envelope;
  expected ← execution_claim_sha256 (we_thread_id envelope) (we_turn_id envelope)
    {| rcc_wait_id := we_wait_id envelope;
       rcc_expected_revision := xe_previous_revision evidence;
       rcc_resume_command_id := xe_resume_command_id evidence;
       rcc_claim_id := xe_claim_id evidence;
       rcc_worker_id := xe_worker_id evidence |} authority;
  reject_if (bool_decide (expected ≠ xe_claim_sha256 evidence))
    (ste "Agent Loop execution claim digest mismatch" []).

(** * Adjacent items *)

Definition approval_requested_matches_envelope (item : Item) (envelope : TurnWaitEnvelope) : bool :=
  match we_wait_kind envelope, it_kind item with
  | WaitApproval request model_request_sha256,
    ApprovalRequested approval_id call_id tool reason risk (Some requested_by) (Some tool_origin)
      (Some recorded_model_request_sha256) =>
      bool_decide (approval_id = aq_id request)
      && bool_decide (call_id = ta_call_id (aq_authorization request))
      && bool_decide (tool = td_name (ta_descriptor (aq_authorization request)))
      && bool_decide (reason = aq_reason request)
      && bool_decide (risk = aq_risk request)
      && bool_decide (requested_by = aq_requested_by request)
      && bool_decide (tool_origin = ta_origin (aq_authorization request))
      && bool_decide (recorded_model_request_sha256 = model_request_sha256)
  | _, _ => false
  end.

(** An [ApprovalDecision] item that records a settlement. *)
Definition decision_matches (item : Item) (settlement : ApprovalSettlementEvidence) : bool :=
  match it_kind item with
  | ItemApprovalDecision approval_id call_id decision =>
      bool_decide (approval_id = aq_id (as_request settlement))
      && bool_decide (call_id = ta_call_id (aq_authorization (as_request settlement)))
      && bool_decide (decision = as_decision settlement)
  | _ => false
  end.

Definition approval_decision_matches_resume (item : Item) (evidence : ResumeEvidence) : bool :=
  decision_matches item (re_settlement evidence).

Definition approval_decision_matches_denial (item : Item) (evidence : WaitDenialEvidence) : bool :=
  decision_matches item (wd_settlement evidence)
  && match it_kind item with
     | ItemApprovalDecision _ _ decision => is_deny decision
     | _ => false
     end.

Definition turn_stopped_matches_closure (item : Item) (evidence : WaitClosureEvidence) : bool :=
  (it_created_at_ms item =? wc_closed_at_ms evidence)%Z
  && match it_kind item with
     | TurnStopped reason phase =>
         bool_decide (reason = wc_reason evidence) && bool_decide (phase = PhaseApproval)
     | _ => false
     end.

(** * The execution of a Turn *)

Definition is_result_of (call_id : str) (item : Item) : bool :=
  match it_kind item with ToolResult c _ _ _ => bool_decide (c = call_id) | _ => false end.

(** [items[claim_index + 1..before_index]]. *)
Definition items_between (items : list Item) (claim_index before_index : nat) : list Item :=
  take (before_index - S claim_index) (drop (S claim_index) items).

Definition require_new_wait_boundary_at (turn : Turn) (execution : AgentLoopExecution)
    (claim_index : option nat) (before_index : nat) : result () :=
  match execution with
  | ExecExecuting envelope _ _ =>
      let settled :=
        match claim_index with
        | Some claim_index =>
            existsb (is_result_of (ta_call_id (aq_authorization (wait_request envelope))))
              (items_between (tn_items turn) claim_index before_index)
        | None => false
        end in
      reject_if (negb settled)
        (ste "claimed Agent Loop execution has no authoritative ToolResult; unknown effect cannot be replayed" [])
  | _ => Err (ste "turn {} already has an open Waiting or Ready execution" [AStr (tn_id turn)])
  end.

(** [items.iter().rposition(..)]. *)
Definition rposition {A} (p : A → bool) (l : list A) : option nat :=
  (λ i, length l - S i)%nat <$> position p (rev l).

Definition require_new_wait_boundary (turn : Turn) (execution : AgentLoopExecution) : result () :=
  let claim_index :=
    rposition (λ item,
      match it_kind item, execution with
      | AgentLoopReadyClaimed evidence, ExecExecuting _ _ claim =>
          bool_decide (xe_claim_id evidence = xe_claim_id claim)
      | _, _ => false
      end) (tn_items turn) in
  require_new_wait_boundary_at turn execution claim_index (length (tn_items turn)).

(** The variables of the loop over the items. *)
Record ExecutionCursor := {
  xc_execution : option AgentLoopExecution;
  xc_claim_index : option nat;
  xc_closed : bool;
}.

Definition execution_start : ExecutionCursor :=
  {| xc_execution := None; xc_claim_index := None; xc_closed := false |}.
Definition execution_at (execution : AgentLoopExecution) (claim_index : option nat)
    : ExecutionCursor :=
  {| xc_execution := Some execution; xc_claim_index := claim_index; xc_closed := false |}.
Definition execution_end : ExecutionCursor :=
  {| xc_execution := None; xc_claim_index := None; xc_closed := true |}.

(** [index.checked_sub(1).and_then(|previous| turn.items.get(previous))]. *)
Definition preceding (turn : Turn) (index : nat) : option Item :=
  match index with O => None | S previous => tn_items turn !! previous end.
Definition preceded_by (p : Item → bool) (turn : Turn) (index : nat) : bool :=
  match preceding turn index with Some item => p item | None => false end.

(** The envelope, revision and time of the live wait that a closure or a
    denial consumes. *)
Definition live_wait (execution : option AgentLoopExecution) (accepted : ResumeEvidence → result ())
    (no_wait executing : string) : result (TurnWaitEnvelope * Z * Z) :=
  match execution with
  | None => Err (ste no_wait [])
  | Some (ExecWaiting envelope) =>
      Ok (envelope, we_revision envelope, we_server_started_at_ms envelope)
  | Some (ExecReady envelope resume) =>
      _ ← accepted resume;
      Ok (envelope, re_revision resume, re_accepted_at_ms resume)
  | Some (ExecExecuting _ _ _) => Err (ste executing [])
  end.

Definition execution_step (turn : Turn) (c : ExecutionCursor) (entry : nat * Item)
    : result ExecutionCursor :=
  let (index, item) := entry in
  _ ← reject_if (xc_closed c)
        (ste "Turn history contains an Item after its Agent Loop wait terminal transition" []);
  match it_kind item with
  | AgentLoopWaitStarted envelope =>
      _ ← validate_wait_envelope envelope;
      _ ← reject_if (bool_decide (we_turn_id envelope ≠ tn_id turn))
            (ste "Agent Loop wait envelope Turn differs from its projection" []);
      _ ← reject_if (negb (preceded_by (λ requested,
                        approval_requested_matches_envelope requested envelope) turn index))
            (ste "Agent Loop wait transition lacks its adjacent ApprovalRequested evidence" []);
      _ ← match xc_execution c with
          | Some current => require_new_wait_boundary_at turn current (xc_claim_index c) index
          | None => Ok ()
          end;
      Ok (execution_at (ExecWaiting envelope) None)
  | AgentLoopResumeAccepted evidence =>
      match xc_execution c with
      | Some (ExecWaiting envelope) =>
          _ ← validate_resume_evidence envelope evidence;
          _ ← reject_if (negb (preceded_by (λ decision,
                            approval_decision_matches_resume decision evidence) turn index))
                (ste "Agent Loop resume transition lacks its adjacent ApprovalDecision evidence" []);
          Ok (execution_at (ExecReady envelope evidence) (xc_claim_index c))
      | _ => Err (ste "Agent Loop resume transition does not follow Waiting" [])
      end
  | AgentLoopReadyClaimed evidence =>
      match xc_execution c with
      | Some (ExecReady envelope resume) =>
          _ ← reject_if (is_deny (as_decision (re_settlement resume)))
                (ste "an Agent Loop Ready state with an accepted Deny settlement cannot be claimed" []);
          _ ← validate_claim_evidence envelope resume evidence;
          Ok (execution_at (ExecExecuting envelope resume evidence) (Some index))
      | _ => Err (ste "Agent Loop claim transition does not follow Ready" [])
      end
  | AgentLoopWaitClosed evidence =>
      '(envelope, current_revision, preceding_transition_ms) ←
        live_wait (xc_execution c)
          (λ resume, reject_if (is_deny (as_decision (re_settlement resume)))
             (ste "an Agent Loop Ready state with an accepted Deny settlement cannot be closed" []))
          "Agent Loop closure transition has no live Waiting or Ready execution"
          "Agent Loop closure cannot settle an Executing claim";
      _ ← reject_if (negb (it_created_at_ms item =? wc_closed_at_ms evidence)%Z
                     || negb (wc_previous_revision evidence =? current_revision)%Z
                     || (wc_closed_at_ms evidence <? preceding_transition_ms)%Z)
            (ste "Agent Loop closure does not consume the current wait revision and time" []);
      _ ← validate_wait_closure_evidence envelope evidence;
      _ ← reject_if (negb (preceded_by (λ stopped,
                        turn_stopped_matches_closure stopped evidence) turn index))
            (ste "Agent Loop closure transition lacks its adjacent TurnStopped evidence" []);
      Ok execution_end
  | AgentLoopWaitDenied evidence =>
      '(envelope, current_revision, preceding_transition_ms) ←
        live_wait (xc_execution c)
          (λ resume, reject_if (bool_decide (re_settlement resume ≠ wd_settlement evidence))
             (ste "Agent Loop denial differs from the accepted Ready settlement" []))
          "Agent Loop denial transition has no live Waiting or Ready execution"
          "Agent Loop denial cannot settle an Executing claim";
      _ ← reject_if (negb (it_created_at_ms item =? wd_denied_at_ms evidence)%Z
                     || negb (wd_previous_revision evidence =? current_revision)%Z
                     || (wd_denied_at_ms evidence <? preceding_transition_ms)%Z)
            (ste "Agent Loop denial does not consume the current wait revision and time" []);
      _ ← validate_wait_denial_evidence envelope evidence;
      _ ← reject_if (negb (preceded_by (λ decision,
                        approval_decision_matches_denial decision evidence) turn index))
            (ste "Agent Loop denial transition lacks its adjacent ApprovalDecision evidence" []);
      Ok execution_end
  | _ => Ok c
  end.

Definition agent_loop_execution_projection (turn : Turn) : result (option AgentLoopExecution) :=
  c ← fold_m (execution_step turn) execution_start (imap pair (tn_items turn));
  Ok (xc_execution c).

(** * Retries *)

Definition wait_start_matches (envelope : TurnWaitEnvelope) (request : ApprovalRequest)
    (generation : CompletionGeneration) (wait_ttl_ms remaining_active_timeout_ms : option Z)
    (authority : AuthorityContext) : bool :=
  let lifetime :=
    expiry ← we_expires_at_ms envelope;
    checked_sub expiry (we_server_started_at_ms envelope) in
  match we_wait_kind envelope with
  | WaitApproval recorded model_request_sha256 =>
      bool_decide (recorded = request)
      && bool_decide (model_request_sha256 = cg_model_request_sha256 generation)
  end
  && bool_decide (we_completion_generation envelope = generation)
  && bool_decide (we_tenant_id envelope = tenant_id authority)
  && bool_decide (we_requested_by envelope = actor authority)
  && bool_decide (lifetime = wait_ttl_ms)
  && bool_decide (we_remaining_active_timeout_ms envelope = remaining_active_timeout_ms).

(** One round of [wait_envelope_for_id]: the envelope found so far. *)
Definition wait_envelope_step (turn : Turn) (wait_id : AgentLoopWaitId)
    (found : option TurnWaitEnvelope) (item : Item) : result (option TurnWaitEnvelope) :=
  match it_kind item with
  | AgentLoopWaitStarted envelope =>
      if bool_decide (we_wait_id envelope ≠ wait_id) then Ok found
      else
        _ ← validate_wait_envelope envelope;
        _ ← reject_if (bool_decide (is_Some found))
              (ste "turn {} contains duplicate Agent Loop wait {}" [AStr (tn_id turn); AStr wait_id]);
        Ok (Some envelope)
  | _ => Ok found
  end.

Definition wait_envelope_for_id (turn : Turn) (wait_id : AgentLoopWaitId)
    : result (option TurnWaitEnvelope) :=
  fold_m (wait_envelope_step turn wait_id) None (tn_items turn).

(** One round of the two retry checks on closed and denied waits. *)
Definition close_retry_step (command_id : AgentLoopCloseCommandId) (command_sha256 : str)
    (status : TurnStatus) (reason : TurnStopReason) (matched : bool) (item : Item) : result bool :=
  match it_kind item with
  | AgentLoopWaitClosed evidence =>
      if bool_decide (wc_command_id evidence ≠ command_id) then Ok matched
      else
        _ ← reject_if (bool_decide (wc_command_sha256 evidence ≠ command_sha256)
                       || bool_decide (wc_status evidence ≠ status)
                       || bool_decide (wc_reason evidence ≠ reason))
              (ste "Agent Loop close command {} was reused with different content"
                 [AStr command_id]);
        Ok true
  | _ => Ok matched
  end.

Definition wait_close_retry_matches (turn : Turn) (command_id : AgentLoopCloseCommandId)
    (command_sha256 : str) (status : TurnStatus) (reason : TurnStopReason) : result bool :=
  fold_m (close_retry_step command_id command_sha256 status reason) false (tn_items turn).

Definition denial_retry_step (command_id : AgentLoopDenyCommandId) (command_sha256 : str)
    (settlement : ApprovalSettlementEvidence) (matched : bool) (item : Item) : result bool :=
  match it_kind item with
  | AgentLoopWaitDenied evidence =>
      if bool_decide (wd_command_id evidence ≠ command_id) then Ok matched
      else
        _ ← reject_if (bool_decide (wd_command_sha256 evidence ≠ command_sha256)
                       || bool_decide (wd_settlement evidence ≠ settlement))
              (ste "Agent Loop denial command {} was reused with different content"
                 [AStr command_id]);
        Ok true
  | _ => Ok matched
  end.

Definition wait_denial_retry_matches (turn : Turn) (command_id : AgentLoopDenyCommandId)
    (command_sha256 : str) (settlement : ApprovalSettlementEvidence) : result bool :=
  fold_m (denial_retry_step command_id command_sha256 settlement) false (tn_items turn).

Definition resume_retry_matches (execution : AgentLoopExecution)
    (command_id : AgentLoopResumeCommandId) (command_sha256 : str) : bool :=
  match execution with
  | ExecReady _ resume | ExecExecuting _ resume _ =>
      bool_decide (re_command_id resume = command_id)
      && bool_decide (re_command_sha256 resume = command_sha256)
  | ExecWaiting _ => false
  end.

Definition claim_retry_matches (execution : AgentLoopExecution) (claim_id : AgentLoopClaimId)
    (claim_sha256 : str) : bool :=
  match execution with
  | ExecExecuting _ _ claim =>
      bool_decide (xe_claim_id claim = claim_id) && bool_decide (xe_claim_sha256 claim = claim_sha256)
  | _ => false
  end.
End waits.
