(* ===== verification/StateEvent.v ===== *)
(** Events of the State journal, src/src/state/mod.rs: what an event and its
    items must satisfy before they are stored or believed, by schema version,
    their encoding, and the charge of a stream. *)

From Stdlib Require Import ZArith Lia.
From stdpp Require Import base tactics list gmap numbers strings option.
From stdpp Require Import list.
From S2P Require Import Prelude Kernel Digest Json Approval ApprovalHandler Journal WaitDue Completion StateWait.

(** * Constants *)

Definition STATE_EVENT_SCHEMA_VERSION : Z := 16.
Definition MAX_STATE_EVENT_PAGE : Z := 10000.
Definition MAX_STATE_EVENT_PAGE_RECOVERY_BYTES : Z := 16777216.
Definition MAX_THREAD_SUMMARY_PAGE : Z := 64.
Definition MAX_THREAD_NAME_BYTES : Z := 256.
Definition MAX_CHECKPOINT_LABEL_BYTES : Z := 4096.
Definition STATE_THREAD_RECOVERY_BYTE_LIMIT : Z := 67108864.
Definition STATE_EVENT_RECOVERY_OVERHEAD_BYTES : Z := 512.
Definition STATE_TERMINAL_RECOVERY_BYTE_RESERVE : Z := 1048576.
Definition STATE_THREAD_EVENT_LIMIT : Z := 1000000.
Definition STATE_TERMINAL_EVENT_RESERVE : Z := 1.
Definition MAX_STATE_RECOVERY_EVENTS : Z := STATE_THREAD_EVENT_LIMIT.
Definition MAX_STEERING_CONTENT_BYTES : Z := 1048576.
Definition MAX_INVOCATION_CONTEXT_BLOCKS : Z := 64.
Definition MAX_INVOCATION_CONTEXT_REFERENCE_BYTES : Z := 4096.
Definition MAX_INVOCATION_CONTEXT_BLOCK_BYTES : Z := 1048576.
Definition MAX_INVOCATION_CONTEXT_TOTAL_BYTES : Z := 1061184.
Definition MAX_TOOL_CALLS_PER_BATCH : Z := 64.
Definition MAX_CONNECTOR_EVIDENCE_PER_RESULT : Z := 64.
Definition MAX_CONNECTOR_RESOURCE_BYTES : Z := 2048.
Definition MAX_CONNECTOR_VERSION_BYTES : Z := 512.
Definition MAX_CONNECTOR_IDEMPOTENCY_KEY_BYTES : Z := 512.
Definition MAX_MODEL_CONTINUATION_ITEMS : Z := 64.
Definition MAX_MODEL_CONTINUATION_BYTES : Z := 1048576.

Class StateCodec := {
  codec_event :: Serialize StateEvent;
  codec_event_parse :: Deserialize StateEvent;
  codec_continuation :: Serialize ModelContinuation;
}.

(** [s.trim() != s]. *)
Definition trim_changes (s : str) : bool :=
  match s with
  | [] => false
  | c :: _ => is_whitespace c || match vec_last s with Some d => is_whitespace d | None => false end
  end.

(** * Kernel evidence *)

Definition validate_connector_text (kind : string) (value : str) (maximum : Z) : result () :=
  reject_if (str_is_empty value || (maximum <? str_len value)%Z || trim_changes value
             || any_control value)
    (InvalidConfiguration (fmt "{} must be 1-{} trimmed non-control bytes" [ALit kind; ANum maximum])).

Definition claim_validate (c : ConnectorEvidenceClaim) : result () :=
  _ ← validate_portable_coordinate "Connector evidence source" (ccl_source c);
  _ ← validate_connector_text "Connector evidence resource" (ccl_resource c)
        MAX_CONNECTOR_RESOURCE_BYTES;
  _ ← validate_connector_text "Connector evidence version" (ccl_version c)
        MAX_CONNECTOR_VERSION_BYTES;
  _ ← reject_if ((ccl_observed_at_ms c =? 0)%Z
                 || match ccl_valid_until_ms c with
                    | Some valid_until_ms => (valid_until_ms <? ccl_observed_at_ms c)%Z
                    | None => false
                    end)
        (InvalidConfiguration (fmt "Connector evidence requires a non-zero observation time and a non-decreasing freshness boundary" []));
  match ccl_idempotency_key c with
  | Some idempotency_key =>
      validate_connector_text "Connector evidence idempotency key" idempotency_key
        MAX_CONNECTOR_IDEMPOTENCY_KEY_BYTES
  | None => Ok ()
  end.

Definition connector_evidence_validate (e : ConnectorEvidence) : result () :=
  _ ← validate_capability_name "Connector Tool" (ce_connector e);
  _ ← validate_capability_origin (ce_connector_origin e);
  _ ← authority_validate_current (ce_authority e) "Connector evidence authority";
  _ ← reject_if (negb (is_lower_sha256 (ce_output_sha256 e)))
        (InvalidConfiguration
           (fmt "Connector evidence output digest must be lowercase SHA-256" []));
  claim_validate (ce_claim e).

Definition model_error (template : string) (args : list arg) : HarnessError :=
  Model (fmt template args).

Definition continuation_validate `{!Serialize ModelContinuation} (c : ModelContinuation)
    : result () :=
  let valid_format := negb (str_is_empty (mc_format c)) && (str_len (mc_format c) <=? 64)%Z
    && forallb (λ ch, is_ascii_lowercase ch || is_ascii_digit ch || one_of "_-." ch)
         (mc_format c) in
  _ ← reject_if (negb valid_format)
        (model_error "model continuation format must be 1-64 lowercase portable ASCII bytes" []);
  _ ← reject_if (bool_decide (mc_items c = []) || (MAX_MODEL_CONTINUATION_ITEMS <? len (mc_items c))%Z)
        (model_error "model continuation must contain 1-{} items" [ANum MAX_MODEL_CONTINUATION_ITEMS]);
  _ ← for_each (λ item, of_bounded (λ _,
          model_error "model continuation exceeds the supported JSON depth or node count" [])
          (validate_value_shape item)) (mc_items c);
  _ ← of_bounded (λ failure,
          match failure with
          | LimitExceeded => model_error "model continuation exceeds {} bytes"
              [ANum MAX_MODEL_CONTINUATION_BYTES]
          | CannotEncode => model_error "cannot encode model continuation" []
          end) (bounded_serialized_size c MAX_MODEL_CONTINUATION_BYTES);
  Ok ().

(** * Parts of events *)

Definition validate_thread_lineage (lineage : ThreadLineage) : result () :=
  _ ← validate_state_id "parent thread" (tl_parent_thread_id lineage);
  reject_if ((tl_parent_through_sequence lineage =? 0)%Z
             || (tl_parent_stream_version lineage =? 0)%Z
             || (tl_parent_through_sequence lineage <? tl_parent_stream_version lineage)%Z
             || negb (is_lower_sha256 (tl_parent_events_sha256 lineage)))
    (ste "Thread lineage contains an invalid boundary or SHA-256" []).

Definition validate_thread_import_origin (origin : ThreadImportOrigin) : result () :=
  _ ← validate_state_id "source thread" (io_source_thread_id origin);
  _ ← reject_if ((io_source_stream_version origin =? 0)%Z
                 || (io_source_last_sequence origin =? 0)%Z
                 || (io_source_last_sequence origin <? io_source_stream_version origin)%Z
                 || negb (is_lower_sha256 (io_source_events_sha256 origin)))
        (ste "Thread import origin contains an invalid boundary or SHA-256" []);
  match io_source_lineage origin with
  | Some lineage => validate_thread_lineage lineage
  | None => Ok ()
  end.

Definition validate_checkpoint_label (label : option str) : result () :=
  reject_if (match label with
             | Some label => trim_is_empty label || (MAX_CHECKPOINT_LABEL_BYTES <? str_len label)%Z
             | None => false
             end)
    (ste "checkpoint label must be 1-{} bytes" [ANum MAX_CHECKPOINT_LABEL_BYTES]).

Definition validate_thread_name (name : option str) : result () :=
  reject_if (match name with
             | Some name => str_is_empty name || (MAX_THREAD_NAME_BYTES <? str_len name)%Z
                            || trim_changes name || any_control name
             | None => false
             end)
    (ste "Thread name must be 1-{} trimmed non-control bytes" [ANum MAX_THREAD_NAME_BYTES]).

Definition validate_steering_content (content : str) : result () :=
  reject_if (trim_is_empty content || (MAX_STEERING_CONTENT_BYTES <? str_len content)%Z)
    (ste "steering content must be 1-{} bytes" [ANum MAX_STEERING_CONTENT_BYTES]).

(** * Items *)

Section items.
Context `{!CompletionCodec, !WaitCodec, !StateCodec, !Sha256, !Sha256Bytes}.

(** One record of [validate_connector_evidence_records]: the claims seen. *)
Definition connector_record_step (output_sha256 : str) (claims : list (str * str * str))
    (record : ConnectorEvidence) : result (list (str * str * str)) :=
  let claim := (ccl_source (ce_claim record), ccl_resource (ce_claim record),
                ccl_version (ce_claim record)) in
  _ ← map_err into_state (connector_evidence_validate record);
  _ ← reject_if (bool_decide (ce_output_sha256 record ≠ output_sha256))
        (ste "Connector evidence digest differs from its Tool output" []);
  _ ← reject_if (bool_decide (claim ∈ claims))
        (ste "Tool result contains duplicate Connector evidence" []);
  Ok (claim :: claims).

Definition validate_connector_evidence_records (output : Json) (is_error : bool)
    (evidence : list ConnectorEvidence) : result () :=
  match evidence with
  | [] => Ok ()
  | _ =>
      _ ← reject_if is_error (ste "failed Tool result cannot retain Connector evidence" []);
      _ ← reject_if (MAX_CONNECTOR_EVIDENCE_PER_RESULT <? len evidence)%Z
            (ste "Tool result exceeds {} Connector evidence records"
               [ANum MAX_CONNECTOR_EVIDENCE_PER_RESULT]);
      output_sha256 ←
        of_bounded (state_json_error "Connector evidence output" MAX_STATE_EVENT_BYTES)
          (bounded_serialized_sha256 output MAX_STATE_EVENT_BYTES);
      _ ← fold_m (connector_record_step output_sha256) [] evidence;
      Ok ()
  end.

(** One covered Turn of a summary: the Turns seen. *)
Definition covered_turn_step (seen : gset str) (turn_id : TurnId) : result (gset str) :=
  _ ← validate_state_id "conversation summary Turn" turn_id;
  _ ← reject_if (bool_decide (turn_id ∈ seen))
        (ste "conversation summary evidence contains duplicate Turns" []);
  Ok ({[turn_id]} ∪ seen).

(** One block of an invocation context: the references seen and the totals. *)
Definition context_block_step (c : list (str * str) * Z * Z) (block : InvocationContextEvidence)
    : result (list (str * str) * Z * Z) :=
  let '(seen, total_bytes, total_tokens) := c in
  _ ← map_err into_state (validate_capability_name "Turn context source" (ic_source block));
  _ ← reject_if (trim_is_empty (ic_reference block)
                 || (MAX_INVOCATION_CONTEXT_REFERENCE_BYTES <? str_len (ic_reference block))%Z
                 || any_control (ic_reference block)
                 || bool_decide ((ic_source block, ic_reference block) ∈ seen))
        (ste "Turn context evidence contains an invalid or duplicate source reference" []);
  _ ← reject_if (negb (is_lower_sha256 (ic_source_sha256 block))
                 || negb (is_lower_sha256 (ic_content_sha256 block))
                 || negb (in_range 1 MAX_INVOCATION_CONTEXT_BLOCK_BYTES (ic_estimated_tokens block))
                 || negb (in_range 1 MAX_INVOCATION_CONTEXT_BLOCK_BYTES (ic_serialized_bytes block)))
        (ste "Turn context evidence violates bounded provenance" []);
  total_bytes ← ok_or (checked_add usize_max total_bytes (ic_serialized_bytes block))
    (ste "Turn context evidence size overflow" []);
  total_tokens ← ok_or (checked_add usize_max total_tokens (ic_estimated_tokens block))
    (ste "Turn context evidence token overflow" []);
  Ok ((ic_source block, ic_reference block) :: seen, total_bytes, total_tokens).

(** The shape of one item alone. *)
Definition validate_state_item (item : Item) : result () :=
  match it_kind item with
  | AssistantMessage model_id model_origin model_request_sha256 _ =>
      match model_id, model_origin, model_request_sha256 with
      | Some model_id, Some model_origin, model_request_sha256 =>
          _ ← map_err into_state (validate_model_id model_id);
          _ ← map_err into_state (validate_capability_origin model_origin);
          reject_if (match model_request_sha256 with
                     | Some digest => negb (is_lower_sha256 digest)
                     | None => false
                     end)
            (ste "assistant candidate requires a lowercase Model request SHA-256" [])
      | None, None, None => Ok ()
      | _, _, _ =>
          Err (ste "assistant candidate attribution must be wholly present or legacy-compatible" [])
      end
  | VerificationResult verifier candidate_item_id verifier_origin verifier_binding_sha256 outcome =>
      _ ← map_err into_state (validate_capability_name "verification result" verifier);
      _ ← map_err into_state (verification_validate_outcome verifier outcome);
      match candidate_item_id, verifier_origin, verifier_binding_sha256 with
      | Some candidate_item_id, Some verifier_origin, Some binding_sha256 =>
          _ ← validate_state_id "verification candidate item" candidate_item_id;
          _ ← map_err into_state (validate_capability_origin verifier_origin);
          reject_if (negb (is_lower_sha256 binding_sha256))
            (ste "verification result requires a lowercase binding SHA-256" [])
      | None, None, None => Ok ()
      | _, _, _ =>
          Err (ste "verification result binding evidence must be wholly present or absent" [])
      end
  | ItemExecutionBinding bound_by binding =>
      _ ← validate_current_state bound_by "State execution binding actor";
      map_err into_state (binding_validate binding)
  | SteeringQueued steering_id submitted_by content =>
      _ ← validate_state_id "steering" steering_id;
      _ ← validate_current_state submitted_by "State steering actor";
      validate_steering_content content
  | SteeringApplied steering_id content =>
      _ ← validate_state_id "steering" steering_id;
      validate_steering_content content
  | ProviderContinuation model_id model_origin continuation =>
      _ ← map_err into_state (validate_model_id model_id);
      _ ← map_err into_state (validate_capability_origin model_origin);
      map_err into_state (continuation_validate continuation)
  | ToolResult _ output is_error connector_evidence =>
      validate_connector_evidence_records output is_error connector_evidence
  | ConversationSummary compactor covered_turns older_omitted_turns source_sha256 content_sha256
      estimated_tokens serialized_bytes =>
      _ ← map_err into_state (validate_capability_name "conversation compactor" compactor);
      _ ← reject_if (bool_decide (covered_turns = []) || (256 <? len covered_turns)%Z)
            (ste "conversation summary evidence must cover 1-256 Turns" []);
      _ ← fold_m covered_turn_step ∅ covered_turns;
      reject_if ((MAX_STATE_RECOVERY_EVENTS <? older_omitted_turns)%Z
                 || negb (is_lower_sha256 source_sha256) || negb (is_lower_sha256 content_sha256)
                 || negb (in_range 1 1048576 estimated_tokens)
                 || negb (in_range 1 1048576 serialized_bytes))
        (ste "conversation summary evidence violates bounded provenance" [])
  | InvocationContext submitted_by blocks =>
      _ ← validate_current_state submitted_by "State Turn context submitter";
      _ ← reject_if (bool_decide (blocks = []) || (MAX_INVOCATION_CONTEXT_BLOCKS <? len blocks)%Z)
            (ste "Turn context evidence must contain 1-{} blocks"
               [ANum MAX_INVOCATION_CONTEXT_BLOCKS]);
      '(_, total_bytes, total_tokens) ← fold_m context_block_step ([], 0%Z, 0%Z) blocks;
      reject_if ((MAX_INVOCATION_CONTEXT_TOTAL_BYTES <? total_bytes)%Z
                 || (MAX_INVOCATION_CONTEXT_BLOCK_BYTES <? total_tokens)%Z)
        (ste "Turn context evidence exceeds its aggregate byte or token bound" [])
  | ItemPolicyDecision _ (Some tool_origin) _ =>
      map_err into_state (validate_capability_origin tool_origin)
  | ApprovalRequested _ _ _ _ _ requested_by tool_origin model_request_sha256 =>
      match requested_by, tool_origin, model_request_sha256 with
      | Some requested_by, Some tool_origin, Some model_request_sha256 =>
          _ ← map_err into_state (actor_validate_current requested_by "State approval requester");
          _ ← map_err into_state (validate_capability_origin tool_origin);
          reject_if (negb (is_lower_sha256 model_request_sha256))
            (ste "approval continuation requires a lowercase Model request SHA-256" [])
      | None, None, None => Ok ()
      | _, _, _ =>
          Err (ste "approval continuation evidence must be wholly present or absent" [])
      end
  | AgentLoopWaitStarted envelope => validate_wait_envelope envelope
  | AgentLoopResumeAccepted evidence =>
      _ ← validate_state_id "Agent Loop wait" (re_wait_id evidence);
      _ ← validate_state_id "Agent Loop resume command" (re_command_id evidence);
      _ ← validate_approval_settlement_shape (re_settlement evidence);
      reject_if ((re_previous_revision evidence =? 0)%Z
                 || negb (re_revision evidence
                          =? saturating_add u64_max (re_previous_revision evidence) 1)%Z
                 || (re_accepted_at_ms evidence =? 0)%Z
                 || negb (is_lower_sha256 (re_command_sha256 evidence)))
        (ste "Agent Loop resume transition has invalid revision, time, or digest" [])
  | AgentLoopReadyClaimed evidence =>
      _ ← validate_state_id "Agent Loop wait" (xe_wait_id evidence);
      _ ← validate_state_id "Agent Loop resume command" (xe_resume_command_id evidence);
      _ ← validate_state_id "Agent Loop claim" (xe_claim_id evidence);
      _ ← validate_state_id "Agent Loop worker" (xe_worker_id evidence);
      reject_if ((xe_previous_revision evidence =? 0)%Z
                 || negb (xe_revision evidence
                          =? saturating_add u64_max (xe_previous_revision evidence) 1)%Z
                 || (xe_claimed_at_ms evidence =? 0)%Z
                 || negb (is_lower_sha256 (xe_claim_sha256 evidence)))
        (ste "Agent Loop claim transition has invalid revision, time, or digest" [])
  | AgentLoopWaitClosed evidence =>
      _ ← validate_state_id "Agent Loop wait" (wc_wait_id evidence);
      _ ← validate_state_id "Agent Loop close command" (wc_command_id evidence);
      _ ← validate_wait_close_status (wc_status evidence) (wc_reason evidence);
      next_revision ← ok_or (checked_add u64_max (wc_previous_revision evidence) 1)
        (ste "Agent Loop closure revision overflow" []);
      reject_if ((wc_previous_revision evidence =? 0)%Z
                 || negb (wc_revision evidence =? next_revision)%Z
                 || (wc_closed_at_ms evidence =? 0)%Z
                 || negb (is_lower_sha256 (wc_command_sha256 evidence)))
        (ste "Agent Loop closure transition has invalid revision, time, or digest" [])
  | AgentLoopWaitDenied evidence =>
      _ ← validate_state_id "Agent Loop wait" (wd_wait_id evidence);
      _ ← validate_state_id "Agent Loop denial command" (wd_command_id evidence);
      _ ← validate_approval_settlement_shape (wd_settlement evidence);
      next_revision ← ok_or (checked_add u64_max (wd_previous_revision evidence) 1)
        (ste "Agent Loop denial revision overflow" []);
      reject_if ((wd_previous_revision evidence =? 0)%Z
                 || negb (wd_revision evidence =? next_revision)%Z
                 || (wd_denied_at_ms evidence =? 0)%Z
                 || negb (is_deny (as_decision (wd_settlement evidence)))
                 || negb (is_lower_sha256 (wd_command_sha256 evidence)))
        (ste "Agent Loop denial transition has invalid settlement, revision, time, or digest" [])
  | _ => Ok ()
  end.

(** One call of a batch: its identity, once known, and the calls seen. *)
Definition batch_item_step (size : Z) (c : option ToolCallBatchId * gset str) (entry : nat * Item)
    : result (option ToolCallBatchId * gset str) :=
  let '(batch_id, call_ids) := c in
  let '(index, item) := entry in
  _ ← validate_state_id "item" (it_id item);
  _ ← validate_state_item item;
  match it_kind item with
  | ToolCall _ _ call_id _ _ (Some batch) =>
      _ ← validate_state_id "Tool-call batch" (tb_id batch);
      _ ← reject_if (negb (tb_index batch =? Z.of_nat index)%Z
                     || negb (tb_size batch =? size)%Z
                     || bool_decide (default (tb_id batch) batch_id ≠ tb_id batch)
                     || bool_decide (call_id ∈ call_ids))
            (ste "Tool-call batch order, size, identity, or correlation is inconsistent" []);
      Ok (Some (default (tb_id batch) batch_id), {[call_id]} ∪ call_ids)
  | _ => Err (ste "Tool-call batch contains a non-batched Item" [])
  end.

Definition validate_tool_call_batch_items (calls : list Item) : result () :=
  _ ← reject_if (negb (in_range 2 MAX_TOOL_CALLS_PER_BATCH (len calls)))
        (ste "Tool-call batch must contain 2-{} calls" [ANum MAX_TOOL_CALLS_PER_BATCH]);
  _ ← fold_m (batch_item_step (len calls)) (None, ∅) (imap pair calls);
  Ok ().

(** * Events *)

Definition validate_state_event (event : StateEvent) : result () :=
  match event with
  | EvThreadCreated _ tenant_id => validate_optional_tenant tenant_id
  | EvThreadNamed name => validate_thread_name name
  | EvThreadForked lineage => validate_thread_lineage lineage
  | EvThreadImported origin => validate_thread_import_origin origin
  | EvTurnStarted turn_id | EvTurnFinished turn_id _ => validate_state_id "turn" turn_id
  | EvTurnCompleted turn_id receipt =>
      _ ← validate_state_id "turn" turn_id;
      _ ← validate_state_id "completion receipt source thread" (rc_source_thread_id receipt);
      _ ← validate_state_id "completion receipt turn" (rc_turn_id receipt);
      _ ← reject_if (bool_decide (rc_turn_id receipt ≠ turn_id))
            (ste "completion event Turn differs from its receipt" []);
      _ ← map_err state_completion_error (completion_receipt_sha256 receipt);
      Ok ()
  | EvItemAppended turn_id item =>
      _ ← validate_state_id "turn" turn_id;
      _ ← validate_state_id "item" (it_id item);
      validate_state_item item
  | EvToolCallsAppended turn_id calls =>
      _ ← validate_state_id "turn" turn_id;
      validate_tool_call_batch_items calls
  | EvWaitStarted turn_id approval_requested transition =>
      _ ← validate_state_id "turn" turn_id;
      _ ← validate_state_id "item" (it_id approval_requested);
      _ ← validate_state_id "item" (it_id transition);
      _ ← validate_state_item approval_requested;
      _ ← validate_state_item transition;
      match it_kind transition with
      | AgentLoopWaitStarted envelope =>
          reject_if (bool_decide (it_id approval_requested = it_id transition)
                     || negb (it_created_at_ms approval_requested =? it_created_at_ms transition)%Z
                     || bool_decide (we_turn_id envelope ≠ turn_id)
                     || negb (approval_requested_matches_envelope approval_requested envelope))
            (ste "WaitStarted items or envelope correlation differ" [])
      | _ => Err (ste "WaitStarted transition has the wrong Item kind" [])
      end
  | EvAcceptResume turn_id approval_decision transition =>
      _ ← validate_state_id "turn" turn_id;
      _ ← validate_state_id "item" (it_id approval_decision);
      _ ← validate_state_id "item" (it_id transition);
      _ ← validate_state_item approval_decision;
      _ ← validate_state_item transition;
      match it_kind transition with
      | AgentLoopResumeAccepted evidence =>
          reject_if (bool_decide (it_id approval_decision = it_id transition)
                     || negb (it_created_at_ms approval_decision =? it_created_at_ms transition)%Z
                     || negb (approval_decision_matches_resume approval_decision evidence))
            (ste "ResumeAccepted items or settlement correlation differ" [])
      | _ => Err (ste "ResumeAccepted transition has the wrong Item kind" [])
      end
  | EvClaimReady turn_id transition =>
      _ ← validate_state_id "turn" turn_id;
      _ ← validate_state_id "item" (it_id transition);
      _ ← validate_state_item transition;
      match it_kind transition with
      | AgentLoopReadyClaimed _ => Ok ()
      | _ => Err (ste "ReadyClaimed transition has the wrong Item kind" [])
      end
  | EvWaitClosed turn_id stopped transition status =>
      _ ← validate_state_id "turn" turn_id;
      _ ← validate_state_id "item" (it_id stopped);
      _ ← validate_state_id "item" (it_id transition);
      _ ← validate_state_item stopped;
      _ ← validate_state_item transition;
      match it_kind transition with
      | AgentLoopWaitClosed evidence =>
          _ ← validate_wait_close_status status (wc_reason evidence);
          reject_if (bool_decide (it_id stopped = it_id transition)
                     || negb (it_created_at_ms stopped =? it_created_at_ms transition)%Z
                     || bool_decide (status ≠ wc_status evidence)
                     || negb (turn_stopped_matches_closure stopped evidence))
            (ste "WaitClosed items, reason, status, or time correlation differ" [])
      | _ => Err (ste "WaitClosed transition has the wrong Item kind" [])
      end
  | EvDenyWait turn_id approval_decision transition =>
      _ ← validate_state_id "turn" turn_id;
      _ ← validate_state_id "item" (it_id approval_decision);
      _ ← validate_state_id "item" (it_id transition);
      _ ← validate_state_item approval_decision;
      _ ← validate_state_item transition;
      match it_kind transition with
      | AgentLoopWaitDenied evidence =>
          reject_if (bool_decide (it_id approval_decision = it_id transition)
                     || negb (it_created_at_ms approval_decision =? it_created_at_ms transition)%Z
                     || negb (it_created_at_ms approval_decision =? wd_denied_at_ms evidence)%Z
                     || negb (approval_decision_matches_denial approval_decision evidence))
            (ste "WaitDenied items, decision, or time correlation differ" [])
      | _ => Err (ste "WaitDenied transition has the wrong Item kind" [])
      end
  | EvCheckpointCreated checkpoint =>
      _ ← validate_state_id "checkpoint" (cp_id checkpoint);
      _ ← validate_state_id "checkpoint thread" (cp_thread_id checkpoint);
      _ ← match cp_turn_id checkpoint with
          | Some turn_id => validate_state_id "checkpoint turn" turn_id
          | None => Ok ()
          end;
      validate_checkpoint_label (cp_label checkpoint)
  end.

(** ** Schema versions *)

(** [HarnessError::State(format!("schema-{schema_version} ..."))]. *)
Definition schema_error (version : Z) (reason : string) : HarnessError :=
  ste (String.append "schema-{} " reason) [ANum version].

Definition is_wait_transition (kind : ItemKind) : bool :=
  match kind with
  | AgentLoopWaitStarted _ | AgentLoopResumeAccepted _ | AgentLoopReadyClaimed _
  | AgentLoopWaitClosed _ | AgentLoopWaitDenied _ => true
  | _ => false
  end.

Definition present {A} (o : option A) : bool := match o with Some _ => true | None => false end.

Definition validate_state_item_schema (kind : ItemKind) (schema_version : Z) : result () :=
  match kind with
  | AssistantMessage model_id model_origin model_request_sha256 _ =>
      let attributed := present model_id && present model_origin in
      _ ← reject_if ((15 <=? schema_version)%Z && negb (attributed && present model_request_sha256))
            (schema_error schema_version
               "assistant candidate requires Model identity, origin, and request digest");
      _ ← reject_if ((schema_version <? 15)%Z && present model_request_sha256)
            (schema_error schema_version
               "assistant candidate cannot contain a Model request digest");
      reject_if (negb (eqb (present model_id) (present model_origin)))
        (schema_error schema_version "assistant candidate has partial Model attribution")
  | VerificationResult _ candidate_item_id verifier_origin verifier_binding_sha256 _ =>
      let binding_fields := [present candidate_item_id; present verifier_origin;
                             present verifier_binding_sha256] in
      _ ← reject_if ((15 <=? schema_version)%Z && existsb negb binding_fields)
            (schema_error schema_version
               "verification result requires candidate, origin, and binding digest");
      reject_if ((schema_version <? 15)%Z && existsb id binding_fields)
        (schema_error schema_version
           "verification result cannot contain completion binding evidence")
  | ItemExecutionBinding _ _ =>
      reject_if (schema_version <? 13)%Z
        (schema_error schema_version "cannot contain execution binding evidence")
  | ToolResult _ _ _ connector_evidence =>
      reject_if (negb (bool_decide (connector_evidence = [])) && (schema_version <? 14)%Z)
        (schema_error schema_version "cannot contain Connector evidence")
  | SteeringQueued _ _ _ | SteeringApplied _ _ =>
      reject_if (schema_version <? 6)%Z
        (schema_error schema_version "cannot contain Turn steering evidence")
  | ProviderContinuation _ _ _ =>
      reject_if (schema_version <? 5)%Z
        (schema_error schema_version "cannot contain Provider continuation evidence")
  | InvocationContext _ _ =>
      reject_if (schema_version <? 11)%Z
        (schema_error schema_version "cannot contain Turn context evidence")
  | ItemPolicyDecision _ tool_origin _ =>
      _ ← reject_if ((4 <=? schema_version)%Z && negb (present tool_origin))
            (schema_error schema_version "Policy decision requires Tool origin evidence");
      reject_if ((schema_version <? 4)%Z && present tool_origin)
        (schema_error schema_version "Policy decision cannot contain Tool origin evidence")
  | ApprovalRequested _ _ _ _ _ requested_by tool_origin model_request_sha256 =>
      let has_continuation :=
        present requested_by && present tool_origin && present model_request_sha256 in
      _ ← reject_if ((3 <=? schema_version)%Z && negb has_continuation)
            (schema_error schema_version "approval request requires continuation evidence");
      reject_if ((schema_version <? 3)%Z && has_continuation)
        (schema_error schema_version "approval request cannot contain continuation evidence")
  | AgentLoopWaitStarted _ | AgentLoopResumeAccepted _ | AgentLoopReadyClaimed _
  | AgentLoopWaitClosed _ | AgentLoopWaitDenied _ =>
      reject_if (schema_version <? 16)%Z
        (schema_error schema_version "cannot contain Agent Loop transition evidence")
  | _ => Ok ()
  end.

Definition is_batched_call (kind : ItemKind) : bool :=
  match kind with ToolCall _ _ _ _ _ (Some _) => true | _ => false end.

Definition validate_state_event_schema (event : StateEvent) (schema_version : Z) : result () :=
  let waits := reject_if (schema_version <? 16)%Z
    (schema_error schema_version "cannot contain Agent Loop wait transitions") in
  match event with
  | EvThreadCreated _ (Some _) =>
      reject_if (schema_version <? 12)%Z
        (schema_error schema_version "cannot contain a Thread tenant")
  | EvThreadNamed _ =>
      reject_if (schema_version <? 8)%Z (schema_error schema_version "cannot contain a Thread name")
  | EvThreadForked _ =>
      reject_if (schema_version <? 9)%Z
        (schema_error schema_version "cannot contain Thread fork lineage")
  | EvThreadImported _ =>
      reject_if (schema_version <? 10)%Z
        (schema_error schema_version "cannot contain Thread import provenance")
  | EvTurnCompleted _ _ =>
      reject_if (schema_version <? 15)%Z
        (schema_error schema_version "cannot contain an atomic CompletionReceipt")
  | EvTurnFinished _ TurnIsCompleted =>
      reject_if (15 <=? schema_version)%Z
        (schema_error schema_version "completion requires an atomic CompletionReceipt")
  | EvToolCallsAppended _ calls =>
      _ ← reject_if (schema_version <? 7)%Z
            (schema_error schema_version "cannot contain an atomic Tool-call batch");
      for_each (λ call, validate_state_item_schema (it_kind call) schema_version) calls
  | EvItemAppended _ item =>
      _ ← reject_if (is_batched_call (it_kind item))
            (ste "batched Tool calls require one atomic ToolCallsAppended event" []);
      _ ← reject_if (is_wait_transition (it_kind item))
            (ste "Agent Loop transitions require their atomic State event" []);
      validate_state_item_schema (it_kind item) schema_version
  | EvWaitStarted _ first transition | EvAcceptResume _ first transition
  | EvWaitClosed _ first transition _ | EvDenyWait _ first transition =>
      _ ← waits;
      _ ← validate_state_item_schema (it_kind first) schema_version;
      validate_state_item_schema (it_kind transition) schema_version
  | EvClaimReady _ transition =>
      _ ← waits;
      validate_state_item_schema (it_kind transition) schema_version
  | _ => Ok ()
  end.

Definition is_summary (kind : ItemKind) : bool :=
  match kind with ConversationSummary _ _ _ _ _ _ _ => true | _ => false end.

Definition validate_stored_schema (stored : StoredEvent) : result () :=
  _ ← reject_if (negb (in_range 1 STATE_EVENT_SCHEMA_VERSION (se_schema_version stored)))
        (ste "unsupported state schema version {}" [ANum (se_schema_version stored)]);
  _ ← reject_if ((se_schema_version stored =? 1)%Z
                 && match se_event stored with
                    | EvItemAppended _ item => is_summary (it_kind item)
                    | _ => false
                    end)
        (ste "schema-1 State event cannot contain conversation summary evidence" []);
  validate_state_event_schema (se_event stored) (se_schema_version stored).

(** ** Encoding *)

Record EncodedStateEvent := {
  en_json : str;
  en_recovery_bytes : Z;
}.

Definition event_values (item : Item) : option Json :=
  match it_kind item with
  | ToolCall _ _ _ _ input _ => Some input
  | ToolResult _ output _ _ => Some output
  | _ => None
  end.

Definition validate_state_event_json_shape (event : StateEvent) : result () :=
  let items :=
    match event with
    | EvItemAppended _ item => [item]
    | EvToolCallsAppended _ calls => calls
    | _ => []
    end in
  for_each (λ item,
    reject_if (match event_values item with Some value => shape_is_err value | None => false end)
      (ste "state event JSON exceeds the supported depth or node count" [])) items.

(** A [str] is UTF-8, and the length of a vector fits [u64]. *)
Definition encode_state_event (event : StateEvent) : result EncodedStateEvent :=
  _ ← validate_state_event_json_shape event;
  encoded ← of_bounded (state_json_error "state event" MAX_STATE_EVENT_BYTES)
              (to_bounded_json_vec event MAX_STATE_EVENT_BYTES);
  recovery_bytes ← ok_or (checked_add u64_max (str_len encoded) STATE_EVENT_RECOVERY_OVERHEAD_BYTES)
    (ste "state event recovery charge overflow" []);
  Ok {| en_json := encoded; en_recovery_bytes := recovery_bytes |}.

Definition stored_event_recovery_bytes (event : StoredEvent) : result Z :=
  encoded ← encode_state_event (se_event event);
  Ok (en_recovery_bytes encoded).

Definition add_recovery_bytes (total increment : Z) : result Z :=
  ok_or (checked_add u64_max total increment) (ste "stream recovery charge overflow" []).

(** * Pending and stored events *)

(** The events that settle a Turn, for which the reserves are kept. *)
Definition is_terminal_event (event : StateEvent) : bool :=
  match event with
  | EvTurnFinished _ _ | EvTurnCompleted _ _ | EvWaitClosed _ _ _ _ | EvDenyWait _ _ _ => true
  | _ => false
  end.

Definition recovery_limit (event : StateEvent) : Z :=
  if is_terminal_event event then STATE_THREAD_RECOVERY_BYTE_LIMIT
  else saturating_sub STATE_THREAD_RECOVERY_BYTE_LIMIT STATE_TERMINAL_RECOVERY_BYTE_RESERVE.

Definition validate_pending_event (pending : PendingEvent) : result EncodedStateEvent :=
  _ ← validate_state_id "event" (pe_event_id pending);
  _ ← validate_state_id "thread" (pe_thread_id pending);
  _ ← reject_if (MAX_STATE_RECOVERY_EVENTS <=? pe_expected_stream_version pending)%Z
        (ste "Thread reached its {}-event retention boundary" [ANum MAX_STATE_RECOVERY_EVENTS]);
  _ ← reject_if ((saturating_sub STATE_THREAD_EVENT_LIMIT STATE_TERMINAL_EVENT_RESERVE
                  <=? pe_expected_stream_version pending)%Z
                 && negb (is_terminal_event (pe_event pending)))
        (ste "Thread has only its terminal-settlement event reserve remaining" []);
  _ ← validate_state_event (pe_event pending);
  _ ← validate_state_event_schema (pe_event pending) STATE_EVENT_SCHEMA_VERSION;
  encoded ← encode_state_event (pe_event pending);
  next_recovery_bytes ←
    ok_or (checked_add u64_max (pe_expected_stream_recovery_bytes pending)
             (en_recovery_bytes encoded))
      (ste "stream recovery charge overflow" []);
  _ ← reject_if (recovery_limit (pe_event pending) <? next_recovery_bytes)%Z
        (ste "Thread reached its {}-byte recovery boundary"
           [ANum STATE_THREAD_RECOVERY_BYTE_LIMIT]);
  Ok encoded.

Definition validate_stored_event (stored : StoredEvent) : result Z :=
  _ ← validate_stored_schema stored;
  _ ← validate_state_id "event" (se_event_id stored);
  _ ← validate_state_id "thread" (se_thread_id stored);
  _ ← validate_state_event (se_event stored);
  encoded ← encode_state_event (se_event stored);
  Ok (en_recovery_bytes encoded).

Definition validate_append_result (pending : PendingEvent) (stored : StoredEvent) : result () :=
  _ ← validate_stored_event stored;
  reject_if (negb (se_schema_version stored =? STATE_EVENT_SCHEMA_VERSION)%Z
             || (se_sequence stored =? 0)%Z
             || bool_decide (se_event_id stored ≠ pe_event_id pending)
             || bool_decide (se_thread_id stored ≠ pe_thread_id pending)
             || negb (se_recorded_at_ms stored =? pe_recorded_at_ms pending)%Z
             || bool_decide (se_event stored ≠ pe_event pending))
    (ste "Event Store returned an append result that does not match the pending event" []).

(** The variables of the loop of [validate_stored_events]. *)
Record StoredCursor := {
  sc_previous_sequence : Z;
  sc_event_ids : gset str;
  sc_recovery_bytes : Z;
}.

Definition validate_stored_step (thread_id : ThreadId) (c : StoredCursor) (stored : StoredEvent)
    : result StoredCursor :=
  event_bytes ← validate_stored_event stored;
  recovery_bytes ← add_recovery_bytes (sc_recovery_bytes c) event_bytes;
  _ ← reject_if (bool_decide (se_thread_id stored ≠ thread_id))
        (ste "Event Store returned an event from another thread" []);
  _ ← reject_if (se_sequence stored <=? sc_previous_sequence c)%Z
        (ste "Event Store returned non-increasing event sequences" []);
  _ ← reject_if (bool_decide (se_event_id stored ∈ sc_event_ids c))
        (ste "Event Store returned duplicate event identities" []);
  Ok {| sc_previous_sequence := se_sequence stored;
        sc_event_ids := {[se_event_id stored]} ∪ sc_event_ids c;
        sc_recovery_bytes := recovery_bytes |}.

Definition validate_stored_events (thread_id : ThreadId) (events : list StoredEvent)
    (after_sequence : Z) (limit max_recovery_bytes : option Z) : result Z :=
  _ ← reject_if (match limit with Some limit => (limit <? len events)%Z | None => false end)
        (ste "Event Store returned more events than requested" []);
  _ ← reject_if (negb (present limit) && (MAX_STATE_RECOVERY_EVENTS <? len events)%Z)
        (ste "Thread exceeds {} recoverable events" [ANum MAX_STATE_RECOVERY_EVENTS]);
  c ← fold_m (validate_stored_step thread_id)
        {| sc_previous_sequence := after_sequence; sc_event_ids := ∅; sc_recovery_bytes := 0 |}
        events;
  _ ← reject_if (match max_recovery_bytes with
                 | Some maximum => (maximum <? sc_recovery_bytes c)%Z
                 | None => false
                 end)
        (ste "Event Store returned more recovery bytes than requested" []);
  _ ← reject_if (negb (present limit)
                 && (STATE_THREAD_RECOVERY_BYTE_LIMIT <? sc_recovery_bytes c)%Z)
        (ste "Thread exceeds its {}-byte recovery boundary" [ANum STATE_THREAD_RECOVERY_BYTE_LIMIT]);
  Ok (sc_recovery_bytes c).

Definition remember_event_ids (event_ids : gset str) (events : list StoredEvent)
    : result (gset str) :=
  fold_m (λ event_ids event,
    _ ← reject_if (bool_decide (se_event_id event ∈ event_ids))
          (ste "Event Store returned a duplicate event identity across pages" []);
    Ok ({[se_event_id event]} ∪ event_ids)) event_ids events.

Definition validate_stream_version (actual : Z) (pending : PendingEvent) : result () :=
  reject_if (negb (actual =? pe_expected_stream_version pending)%Z)
    (StateConflict (pe_thread_id pending) (pe_expected_stream_version pending) actual).

Definition validate_stream_recovery_bytes (actual : Z) (pending : PendingEvent) : result () :=
  reject_if (negb (actual =? pe_expected_stream_recovery_bytes pending)%Z)
    (ste "stream recovery charge mismatch: expected {}, found {}"
       [ANum (pe_expected_stream_recovery_bytes pending); ANum actual]).

Definition is_creation (event : StateEvent) : bool :=
  match event with EvThreadCreated _ _ => true | _ => false end.

Definition validate_thread_existence (thread_exists : bool) (pending : PendingEvent) : result () :=
  match is_creation (pe_event pending), thread_exists with
  | true, true => Err (ste "thread {} already exists" [AStr (pe_thread_id pending)])
  | true, false | false, true => Ok ()
  | false, false => Err (ste "thread {} does not exist" [AStr (pe_thread_id pending)])
  end.

Definition matching_existing (existing : StoredEvent) (pending : PendingEvent)
    : result StoredEvent :=
  if bool_decide (se_thread_id existing = pe_thread_id pending)
     && (se_recorded_at_ms existing =? pe_recorded_at_ms pending)%Z
     && bool_decide (se_event existing = pe_event pending)
  then Ok existing
  else Err (ste "event id {} was reused with different content" [AStr (pe_event_id pending)]).

Definition validate_event_page_limit (limit : Z) : result () :=
  reject_if (negb (in_range 1 MAX_STATE_EVENT_PAGE limit))
    (ste "event page limit must be 1-{}" [ANum MAX_STATE_EVENT_PAGE]).

Definition validate_event_page_request (limit max_recovery_bytes : Z) : result () :=
  _ ← validate_event_page_limit limit;
  reject_if ((max_recovery_bytes =? 0)%Z
             || (MAX_STATE_EVENT_PAGE_RECOVERY_BYTES <? max_recovery_bytes)%Z)
    (ste "event page recovery budget must be 1-{} bytes"
       [ANum MAX_STATE_EVENT_PAGE_RECOVERY_BYTES]).

Definition validate_thread_summary_page_request (before_sequence : option Z) (limit : Z)
    : result () :=
  _ ← reject_if ((limit =? 0)%Z || (MAX_THREAD_SUMMARY_PAGE + 1 <? limit)%Z)
        (ste "Thread store page limit must be 1-{}" [ANum (MAX_THREAD_SUMMARY_PAGE + 1)]);
  reject_if (bool_decide (before_sequence = Some 0%Z))
    (ste "Thread page cursor must be greater than zero" []).
End items.
