(* ===== verification/StateProjection.v ===== *)
(** The projection of a Thread's journal, src/src/state/mod.rs: replaying
    stored events into a Thread, and the checks on the whole projection. *)

From Stdlib Require Import ZArith Lia.
From stdpp Require Import base tactics list gmap numbers strings option.
From stdpp Require Import list.
From S2P Require Import Prelude Kernel Digest Json Approval ApprovalHandler Journal WaitDue Completion StateWait StateEvent.

(** * Updating a Thread *)

Definition set_turns (thread : Thread) (turns : list Turn) : Thread := {|
  th_id := th_id thread; th_tenant_id := th_tenant_id thread; th_name := th_name thread;
  th_lineage := th_lineage thread; th_import_origin := th_import_origin thread;
  th_created_at_ms := th_created_at_ms thread; th_turns := turns;
  th_checkpoints := th_checkpoints thread;
|}.
Definition set_name (thread : Thread) (name : option str) : Thread := {|
  th_id := th_id thread; th_tenant_id := th_tenant_id thread; th_name := name;
  th_lineage := th_lineage thread; th_import_origin := th_import_origin thread;
  th_created_at_ms := th_created_at_ms thread; th_turns := th_turns thread;
  th_checkpoints := th_checkpoints thread;
|}.
Definition set_lineage (thread : Thread) (lineage : ThreadLineage) : Thread := {|
  th_id := th_id thread; th_tenant_id := th_tenant_id thread; th_name := th_name thread;
  th_lineage := Some lineage; th_import_origin := th_import_origin thread;
  th_created_at_ms := th_created_at_ms thread; th_turns := th_turns thread;
  th_checkpoints := th_checkpoints thread;
|}.
Definition set_import_origin (thread : Thread) (origin : ThreadImportOrigin) : Thread := {|
  th_id := th_id thread; th_tenant_id := th_tenant_id thread; th_name := th_name thread;
  th_lineage := th_lineage thread; th_import_origin := Some origin;
  th_created_at_ms := th_created_at_ms thread; th_turns := th_turns thread;
  th_checkpoints := th_checkpoints thread;
|}.
Definition push_checkpoint (thread : Thread) (checkpoint : Checkpoint) : Thread := {|
  th_id := th_id thread; th_tenant_id := th_tenant_id thread; th_name := th_name thread;
  th_lineage := th_lineage thread; th_import_origin := th_import_origin thread;
  th_created_at_ms := th_created_at_ms thread; th_turns := th_turns thread;
  th_checkpoints := th_checkpoints thread ++ [checkpoint];
|}.

Definition with_turn_status (turn : Turn) (status : TurnStatus) : Turn := {|
  tn_id := tn_id turn; tn_thread_id := tn_thread_id turn; tn_status := status;
  tn_items := tn_items turn; tn_completion_receipt := tn_completion_receipt turn;
|}.
Definition push_items (turn : Turn) (items : list Item) : Turn := {|
  tn_id := tn_id turn; tn_thread_id := tn_thread_id turn; tn_status := tn_status turn;
  tn_items := tn_items turn ++ items; tn_completion_receipt := tn_completion_receipt turn;
|}.
Definition complete_with (turn : Turn) (receipt : CompletionReceipt) : Turn := {|
  tn_id := tn_id turn; tn_thread_id := tn_thread_id turn; tn_status := TurnIsCompleted;
  tn_items := tn_items turn; tn_completion_receipt := Some receipt;
|}.

Definition has_id (turn_id : TurnId) (turn : Turn) : bool := bool_decide (tn_id turn = turn_id).

(** [turns.iter().find(|turn| &turn.id == turn_id)]. *)
Definition find_turn (thread : Thread) (turn_id : TurnId) : option Turn :=
  List.find (has_id turn_id) (th_turns thread).

(** [turns.iter_mut().find(..)] and what is then done to the Turn. *)
Fixpoint update_turn (turn_id : TurnId) (unknown : HarnessError) (f : Turn → result Turn)
    (turns : list Turn) : result (list Turn) :=
  match turns with
  | [] => Err unknown
  | turn :: turns =>
      if has_id turn_id turn then turn' ← f turn; Ok (turn' :: turns)
      else turns' ← update_turn turn_id unknown f turns; Ok (turn :: turns')
  end.

Definition is_running (turn : Turn) : bool := bool_decide (tn_status turn = TurnIsRunning).

(** * Checks on a projected Thread *)

Section projection.
Context `{!CompletionCodec, !WaitCodec, !StateCodec, !Sha256, !Sha256Bytes}.

Definition execution_bindings (turn : Turn) : list ExecutionBinding :=
  omap (λ item, match it_kind item with
                | ItemExecutionBinding _ binding => Some binding
                | _ => None
                end) (tn_items turn).

Definition validate_turn_binding (thread : Thread) (turn : Turn) : result () :=
  match execution_bindings turn with
  | [] => Ok ()
  | binding :: bindings =>
      _ ← reject_if (negb (bool_decide (bindings = [])))
            (ste "turn {} contains multiple execution bindings" [AStr (tn_id turn)]);
      reject_if (bool_decide (eb_tenant_id binding ≠ th_tenant_id thread))
        (ste "turn {} execution binding tenant differs from its Thread" [AStr (tn_id turn)])
  end.

Definition validate_execution_binding_projection (thread : Thread) : result () :=
  for_each (validate_turn_binding thread) (th_turns thread).

(** ** Connector evidence *)

Inductive ConnectorAuthorization :=
| AuthorizationMissing
| AuthorizationAllowed
| AuthorizationDenied
| AuthorizationAskPending
| AuthorizationAskApproved.

#[global] Instance ConnectorAuthorization_eq : EqDecision ConnectorAuthorization.
Proof. solve_decision. Defined.

Record ConnectorExecutionProvenance := {
  cx_connector : option str;
  cx_origin : option CapabilityOrigin;
  cx_authorization : ConnectorAuthorization;
  cx_pending_approval : option ApprovalId;
  cx_call_ambiguous : bool;
  cx_policy_ambiguous : bool;
  cx_approval_invalid : bool;
}.

Definition default_provenance : ConnectorExecutionProvenance := {|
  cx_connector := None; cx_origin := None; cx_authorization := AuthorizationMissing;
  cx_pending_approval := None; cx_call_ambiguous := false; cx_policy_ambiguous := false;
  cx_approval_invalid := false;
|}.

(** What an item does to the entry of the call it is about. *)
Definition provenance_step (kind : ItemKind) (p : ConnectorExecutionProvenance)
    : ConnectorExecutionProvenance :=
  let invalid := {|
    cx_connector := cx_connector p; cx_origin := cx_origin p;
    cx_authorization := cx_authorization p; cx_pending_approval := cx_pending_approval p;
    cx_call_ambiguous := cx_call_ambiguous p; cx_policy_ambiguous := cx_policy_ambiguous p;
    cx_approval_invalid := true |} in
  match kind with
  | ToolCall _ _ _ name _ _ => {|
      cx_connector := Some name; cx_origin := cx_origin p;
      cx_authorization := cx_authorization p; cx_pending_approval := cx_pending_approval p;
      cx_call_ambiguous := present (cx_connector p) || cx_call_ambiguous p;
      cx_policy_ambiguous := cx_policy_ambiguous p; cx_approval_invalid := cx_approval_invalid p |}
  | ItemPolicyDecision _ (Some origin) decision => {|
      cx_connector := cx_connector p; cx_origin := Some origin;
      cx_authorization :=
        match decision with
        | PolicyAllow => AuthorizationAllowed
        | PolicyDeny _ => AuthorizationDenied
        | PolicyAsk _ _ => AuthorizationAskPending
        end;
      cx_pending_approval := cx_pending_approval p; cx_call_ambiguous := cx_call_ambiguous p;
      cx_policy_ambiguous := present (cx_origin p) || cx_policy_ambiguous p;
      cx_approval_invalid := cx_approval_invalid p |}
  | ApprovalRequested approval_id _ tool _ _ _ tool_origin _ =>
      if bool_decide (cx_authorization p = AuthorizationAskPending)
         && bool_decide (cx_pending_approval p = None)
         && bool_decide (cx_connector p = Some tool) && bool_decide (cx_origin p = tool_origin)
      then {|
        cx_connector := cx_connector p; cx_origin := cx_origin p;
        cx_authorization := cx_authorization p; cx_pending_approval := Some approval_id;
        cx_call_ambiguous := cx_call_ambiguous p; cx_policy_ambiguous := cx_policy_ambiguous p;
        cx_approval_invalid := cx_approval_invalid p |}
      else invalid
  | ItemApprovalDecision approval_id _ decision =>
      if bool_decide (cx_authorization p = AuthorizationAskPending)
         && bool_decide (cx_pending_approval p = Some approval_id)
      then {|
        cx_connector := cx_connector p; cx_origin := cx_origin p;
        cx_authorization :=
          match decision with
          | DecisionApprove => AuthorizationAskApproved
          | DecisionDeny _ => AuthorizationDenied
          end;
        cx_pending_approval := cx_pending_approval p; cx_call_ambiguous := cx_call_ambiguous p;
        cx_policy_ambiguous := cx_policy_ambiguous p; cx_approval_invalid := cx_approval_invalid p |}
      else invalid
  | _ => p
  end.

(** The call an item with an entry in the provenance is about. *)
Definition provenance_call (kind : ItemKind) : option str :=
  match kind with
  | ToolCall _ _ call_id _ _ _ | ItemPolicyDecision call_id (Some _) _
  | ApprovalRequested _ call_id _ _ _ _ _ _ | ItemApprovalDecision _ call_id _ => Some call_id
  | _ => None
  end.

Definition record_connector_execution_provenance
    (provenance : gmap str ConnectorExecutionProvenance) (item : Item)
    : gmap str ConnectorExecutionProvenance :=
  match provenance_call (it_kind item) with
  | Some call_id =>
      <[call_id := provenance_step (it_kind item) (default default_provenance (provenance !! call_id))]>
        provenance
  | None => provenance
  end.

Definition validate_connector_evidence_provenance (thread_tenant_id : option str) (call_id : str)
    (evidence : list ConnectorEvidence) (provenance : option ConnectorExecutionProvenance)
    : result () :=
  let unknown := ste "Connector evidence references unknown Tool call {}" [AStr call_id] in
  provenance ← ok_or provenance unknown;
  connector ← ok_or (cx_connector provenance) unknown;
  _ ← reject_if (cx_call_ambiguous provenance)
        (ste "Connector evidence Tool call {} is ambiguous" [AStr call_id]);
  origin ← ok_or (cx_origin provenance)
    (ste "Connector evidence lacks Policy origin for Tool call {}" [AStr call_id]);
  _ ← reject_if (cx_policy_ambiguous provenance)
        (ste "Connector evidence Policy origin for Tool call {} is ambiguous" [AStr call_id]);
  _ ← reject_if (cx_approval_invalid provenance
                 || negb (bool_decide (cx_authorization provenance = AuthorizationAllowed)
                          || bool_decide (cx_authorization provenance = AuthorizationAskApproved)))
        (ste "Connector evidence Tool call {} lacks an authorized execution path" [AStr call_id]);
  for_each (λ record,
    reject_if (bool_decide (ce_connector record ≠ connector)
               || bool_decide (ce_connector_origin record ≠ origin)
               || bool_decide (tenant_id (ce_authority record) ≠ thread_tenant_id))
      (ste "Connector evidence for Tool call {} differs from registered execution provenance"
         [AStr call_id])) evidence.

(** One item of [validate_connector_evidence_projection]. *)
Definition connector_item_step (thread : Thread)
    (provenance : gmap str ConnectorExecutionProvenance) (item : Item)
    : result (gmap str ConnectorExecutionProvenance) :=
  let provenance := record_connector_execution_provenance provenance item in
  match it_kind item with
  | ToolResult call_id _ _ connector_evidence =>
      _ ← (if bool_decide (connector_evidence = []) then Ok ()
           else validate_connector_evidence_provenance (th_tenant_id thread) call_id
                  connector_evidence (provenance !! call_id));
      Ok provenance
  | _ => Ok provenance
  end.

Definition validate_turn_connectors (thread : Thread) (turn : Turn) : result () :=
  _ ← fold_m (connector_item_step thread) ∅ (tn_items turn);
  Ok ().

Definition validate_connector_evidence_projection (thread : Thread) : result () :=
  for_each (validate_turn_connectors thread) (th_turns thread).

(** ** Steering *)

(** The steering identities of the Thread, and the queue of the Turn. *)
Definition steering_item_step (c : gset str * list (SteeringId * str)) (item : Item)
    : result (gset str * list (SteeringId * str)) :=
  let '(all_ids, queued) := c in
  match it_kind item with
  | SteeringQueued steering_id _ content =>
      _ ← reject_if (bool_decide (steering_id ∈ all_ids))
            (ste "duplicate steering identity {}" [AStr steering_id]);
      Ok ({[steering_id]} ∪ all_ids, queued ++ [(steering_id, content)])
  | SteeringApplied steering_id content =>
      match queued with
      | [] => Err (ste "applied steering {} has no earlier queue record" [AStr steering_id])
      | (queued_id, queued_content) :: queued =>
          _ ← reject_if (bool_decide (queued_id ≠ steering_id))
                (ste "applied steering {} violates queue order" [AStr steering_id]);
          _ ← reject_if (bool_decide (queued_content ≠ content))
                (ste "applied steering {} changed its queued content" [AStr steering_id]);
          Ok (all_ids, queued)
      end
  | _ => Ok c
  end.

Definition validate_turn_steering (all_ids : gset str) (turn : Turn) : result (gset str) :=
  '(all_ids, queued) ← fold_m steering_item_step (all_ids, []) (tn_items turn);
  _ ← reject_if (bool_decide (tn_status turn = TurnIsCompleted)
                 && negb (bool_decide (queued = [])))
        (ste "completed turn {} contains unapplied steering" [AStr (tn_id turn)]);
  Ok all_ids.

Definition validate_steering_projection (thread : Thread) : result () :=
  _ ← fold_m validate_turn_steering ∅ (th_turns thread);
  Ok ().

(** One item of [pending_steering]. *)
Definition pending_steering_step (c : gset str * list (SteeringId * str)) (item : Item)
    : result (gset str * list (SteeringId * str)) :=
  let '(seen, queued) := c in
  match it_kind item with
  | SteeringQueued steering_id _ content =>
      _ ← reject_if (bool_decide (steering_id ∈ seen))
            (ste "duplicate steering identity {}" [AStr steering_id]);
      Ok ({[steering_id]} ∪ seen, queued ++ [(steering_id, content)])
  | SteeringApplied steering_id _ =>
      match queued with
      | [] => Err (ste "applied steering {} has no earlier queue record" [AStr steering_id])
      | (queued_id, _) :: queued =>
          _ ← reject_if (bool_decide (queued_id ≠ steering_id))
                (ste "applied steering {} violates queue order" [AStr steering_id]);
          Ok (seen, queued)
      end
  | _ => Ok c
  end.

Definition pending_steering (turn : Turn) : result (list (SteeringId * str)) :=
  '(_, queued) ← fold_m pending_steering_step (∅, []) (tn_items turn);
  Ok queued.

Definition has_pending_steering (turn : Turn) : result bool :=
  queued ← pending_steering turn;
  Ok (negb (bool_decide (queued = []))).

(** ** Tool-call batches *)

Definition item_batch (item : Item) : option ToolCallBatch :=
  match it_kind item with ToolCall _ _ _ _ _ batch => batch | _ => None end.

(** The [while] loop over the items of one Turn; [skip] is the number of items
    of the current batch still to pass. *)
Fixpoint batch_loop (skip : nat) (batch_ids : gset str) (items : list Item) : result (gset str) :=
  match items with
  | [] => Ok batch_ids
  | item :: rest =>
      match skip with
      | S skip => batch_loop skip batch_ids rest
      | O =>
          match item_batch item with
          | None => batch_loop 0 batch_ids rest
          | Some batch =>
              _ ← reject_if (negb (tb_index batch =? 0)%Z
                             || bool_decide (tb_id batch ∈ batch_ids))
                    (ste "Tool-call batch projection starts out of order or reuses an identity" []);
              _ ← reject_if (len items <? tb_size batch)%Z
                    (ste "Tool-call batch projection is truncated" []);
              _ ← validate_tool_call_batch_items (take (Z.to_nat (tb_size batch)) items);
              batch_loop (pred (Z.to_nat (tb_size batch))) ({[tb_id batch]} ∪ batch_ids) rest
          end
      end
  end.

Definition validate_tool_call_batch_projection (thread : Thread) : result () :=
  _ ← fold_m (λ batch_ids turn, batch_loop 0 batch_ids (tn_items turn)) ∅ (th_turns thread);
  Ok ().

(** ** Agent Loop executions *)

Definition wait_envelopes (turn : Turn) : list TurnWaitEnvelope :=
  omap (λ item, match it_kind item with
                | AgentLoopWaitStarted envelope => Some envelope
                | _ => None
                end) (tn_items turn).

Definition validate_wait_placement (thread : Thread) (turn : Turn) (envelope : TurnWaitEnvelope)
    : result () :=
  _ ← reject_if (bool_decide (we_tenant_id envelope ≠ th_tenant_id thread))
        (ste "turn {} Agent Loop wait tenant differs from its Thread" [AStr (tn_id turn)]);
  let inherited_terminal :=
    negb (is_running turn) && (present (th_lineage thread) || present (th_import_origin thread)) in
  reject_if (bool_decide (we_thread_id envelope ≠ th_id thread) && negb inherited_terminal)
    (ste "turn {} Agent Loop wait Thread differs without terminal materialization provenance"
       [AStr (tn_id turn)]).

Definition validate_turn_execution (thread : Thread) (turn : Turn) : result () :=
  _ ← agent_loop_execution_projection turn;
  for_each (validate_wait_placement thread turn) (wait_envelopes turn).

Definition validate_agent_loop_execution_projection (thread : Thread) : result () :=
  for_each (validate_turn_execution thread) (th_turns thread).

(** ** Completion receipts *)

Definition validate_projected_completion_placement (thread : Thread) (turn : Turn)
    (receipt : CompletionReceipt) : result () :=
  if bool_decide (rc_source_thread_id receipt = tn_thread_id turn) then
    map_err state_completion_error
      (validate_projected_turn_completion_receipt turn (th_tenant_id thread) receipt)
  else
    _ ← reject_if (negb (present (th_lineage thread)) && negb (present (th_import_origin thread)))
          (ste "turn {} contains a completion receipt from another Thread without fork or import provenance"
             [AStr (tn_id turn)]);
    map_err state_completion_error
      (validate_inherited_projected_turn_completion_receipt turn (th_tenant_id thread) receipt).

Definition validate_turn_receipt (thread : Thread) (turn : Turn) : result () :=
  match tn_completion_receipt turn with
  | Some receipt => validate_projected_completion_placement thread turn receipt
  | None => Ok ()
  end.

(** What [apply_events] checks of the Thread it has built. *)
Definition validate_projection (thread : Thread) : result () :=
  _ ← for_each (validate_turn_receipt thread) (th_turns thread);
  _ ← validate_execution_binding_projection thread;
  _ ← validate_connector_evidence_projection thread;
  _ ← validate_steering_projection thread;
  _ ← validate_tool_call_batch_projection thread;
  validate_agent_loop_execution_projection thread.

(** * Replay *)

(** The Thread so far, and the identities it holds. *)
Record ProjectionCursor := {
  pj_thread : option Thread;
  pj_turn_ids : gset str;
  pj_item_ids : gset str;
  pj_checkpoint_ids : gset str;
}.

Definition set_thread (c : ProjectionCursor) (thread : Thread) : ProjectionCursor := {|
  pj_thread := Some thread; pj_turn_ids := pj_turn_ids c; pj_item_ids := pj_item_ids c;
  pj_checkpoint_ids := pj_checkpoint_ids c;
|}.

Definition projection_thread (thread : option Thread) : result Thread :=
  ok_or thread (ste "event precedes thread creation" []).

Definition insert_item_id (item_ids : gset str) (item : Item) : result (gset str) :=
  _ ← reject_if (bool_decide (it_id item ∈ item_ids)) (ste "duplicate item {}" [AStr (it_id item)]);
  Ok ({[it_id item]} ∪ item_ids).

(** [append_projected_items], with the identities after it. *)
Definition append_projected_items (c : ProjectionCursor) (turn_id : TurnId) (items : list Item)
    : result ProjectionCursor :=
  item_ids ← fold_m insert_item_id (pj_item_ids c) items;
  thread ← projection_thread (pj_thread c);
  turns ← update_turn turn_id (ste "item references unknown turn {}" [AStr turn_id])
            (λ turn,
               _ ← reject_if (negb (is_running turn))
                     (ste "item appended after turn {} finished" [AStr turn_id]);
               Ok (push_items turn items)) (th_turns thread);
  Ok {| pj_thread := Some (set_turns thread turns); pj_turn_ids := pj_turn_ids c;
        pj_item_ids := item_ids; pj_checkpoint_ids := pj_checkpoint_ids c |}.

(** [let _ = agent_loop_execution_projection(turn)?] after a transition. *)
Definition check_execution (c : ProjectionCursor) (turn_id : TurnId) (unknown : HarnessError)
    : result () :=
  thread ← projection_thread (pj_thread c);
  turn ← ok_or (find_turn thread turn_id) unknown;
  _ ← agent_loop_execution_projection turn;
  Ok ().

(** A Turn that ends with its wait. *)
Definition end_with_wait (c : ProjectionCursor) (turn_id : TurnId) (unknown open : HarnessError)
    (status : TurnStatus) : result ProjectionCursor :=
  thread ← projection_thread (pj_thread c);
  turns ← update_turn turn_id unknown
            (λ turn,
               execution ← agent_loop_execution_projection turn;
               _ ← reject_if (present execution) open;
               Ok (with_turn_status turn status)) (th_turns thread);
  Ok (set_thread c (set_turns thread turns)).

Definition is_open_wait (execution : option AgentLoopExecution) : bool :=
  match execution with Some (ExecWaiting _) | Some (ExecReady _ _) => true | _ => false end.

(** A Thread with nothing in it but its creation. *)
Definition is_bare (thread : Thread) : bool :=
  negb (present (th_lineage thread)) && negb (present (th_import_origin thread))
  && negb (present (th_name thread)) && bool_decide (th_turns thread = [])
  && bool_decide (th_checkpoints thread = []).

(** One round of [apply_events]. *)
Definition apply_event (c : ProjectionCursor) (stored : StoredEvent) : result ProjectionCursor :=
  _ ← validate_stored_schema stored;
  match se_event stored with
  | EvThreadCreated created_at_ms tenant_id =>
      _ ← reject_if (present (pj_thread c)) (ste "thread has multiple creation events" []);
      _ ← validate_optional_tenant tenant_id;
      Ok (set_thread c {|
        th_id := se_thread_id stored; th_tenant_id := tenant_id; th_name := None;
        th_lineage := None; th_import_origin := None; th_created_at_ms := created_at_ms;
        th_turns := []; th_checkpoints := [] |})
  | EvThreadNamed name =>
      _ ← validate_thread_name name;
      thread ← projection_thread (pj_thread c);
      Ok (set_thread c (set_name thread name))
  | EvThreadForked lineage =>
      _ ← validate_thread_lineage lineage;
      _ ← reject_if (bool_decide (tl_parent_thread_id lineage = se_thread_id stored))
            (ste "Thread cannot be forked from itself" []);
      thread ← projection_thread (pj_thread c);
      _ ← reject_if (negb (is_bare thread))
            (ste "Thread fork lineage must immediately follow creation" []);
      Ok (set_thread c (set_lineage thread lineage))
  | EvThreadImported origin =>
      _ ← validate_thread_import_origin origin;
      thread ← projection_thread (pj_thread c);
      _ ← reject_if (negb (is_bare thread))
            (ste "Thread import provenance must immediately follow creation" []);
      Ok (set_thread c (set_import_origin thread origin))
  | EvTurnStarted turn_id =>
      _ ← reject_if (bool_decide (turn_id ∈ pj_turn_ids c))
            (ste "duplicate turn {}" [AStr turn_id]);
      thread ← projection_thread (pj_thread c);
      _ ← reject_if (existsb is_running (th_turns thread))
            (ste "thread contains overlapping running turns" []);
      let turn := {| tn_id := turn_id; tn_thread_id := se_thread_id stored;
                     tn_status := TurnIsRunning; tn_items := []; tn_completion_receipt := None |} in
      Ok {| pj_thread := Some (set_turns thread (th_turns thread ++ [turn]));
            pj_turn_ids := {[turn_id]} ∪ pj_turn_ids c; pj_item_ids := pj_item_ids c;
            pj_checkpoint_ids := pj_checkpoint_ids c |}
  | EvItemAppended turn_id item => append_projected_items c turn_id [item]
  | EvToolCallsAppended turn_id calls => append_projected_items c turn_id calls
  | EvWaitStarted turn_id approval_requested transition =>
      c ← append_projected_items c turn_id [approval_requested; transition];
      _ ← check_execution c turn_id (ste "wait references unknown Turn" []);
      Ok c
  | EvAcceptResume turn_id approval_decision transition =>
      c ← append_projected_items c turn_id [approval_decision; transition];
      _ ← check_execution c turn_id (ste "resume references unknown Turn" []);
      Ok c
  | EvClaimReady turn_id transition =>
      c ← append_projected_items c turn_id [transition];
      _ ← check_execution c turn_id (ste "claim references unknown Turn" []);
      Ok c
  | EvWaitClosed turn_id stopped transition status =>
      c ← append_projected_items c turn_id [stopped; transition];
      end_with_wait c turn_id
        (ste "wait closure references unknown turn {}" [AStr turn_id])
        (ste "wait closure did not close turn {} execution" [AStr turn_id]) status
  | EvDenyWait turn_id approval_decision transition =>
      c ← append_projected_items c turn_id [approval_decision; transition];
      end_with_wait c turn_id
        (ste "wait denial references unknown turn {}" [AStr turn_id])
        (ste "wait denial did not close turn {} execution" [AStr turn_id]) TurnIsFailed
  | EvTurnFinished turn_id status =>
      _ ← reject_if (bool_decide (status = TurnIsRunning))
            (ste "turn finish event contains running status" []);
      thread ← projection_thread (pj_thread c);
      turns ← update_turn turn_id (ste "finish references unknown turn {}" [AStr turn_id])
        (λ turn,
           _ ← reject_if (negb (is_running turn))
                 (ste "turn {} has multiple terminal events" [AStr turn_id]);
           execution ← agent_loop_execution_projection turn;
           _ ← reject_if (is_open_wait execution)
                 (ste "cannot finish turn {} with an open Waiting or Ready execution" [AStr turn_id]);
           Ok (with_turn_status turn status)) (th_turns thread);
      Ok (set_thread c (set_turns thread turns))
  | EvTurnCompleted turn_id receipt =>
      thread ← projection_thread (pj_thread c);
      turns ← update_turn turn_id (ste "completion references unknown turn {}" [AStr turn_id])
        (λ turn,
           _ ← reject_if (negb (is_running turn))
                 (ste "turn {} has multiple terminal events" [AStr turn_id]);
           pending ← has_pending_steering turn;
           _ ← reject_if pending
                 (ste "cannot complete turn {} with unapplied steering" [AStr turn_id]);
           execution ← agent_loop_execution_projection turn;
           _ ← reject_if (is_open_wait execution)
                 (ste "cannot complete turn {} with an open Waiting or Ready execution"
                    [AStr turn_id]);
           _ ← validate_projected_completion_placement thread (complete_with turn receipt) receipt;
           Ok (complete_with turn receipt)) (th_turns thread);
      Ok (set_thread c (set_turns thread turns))
  | EvCheckpointCreated checkpoint =>
      _ ← reject_if (bool_decide (cp_id checkpoint ∈ pj_checkpoint_ids c))
            (ste "duplicate checkpoint {}" [AStr (cp_id checkpoint)]);
      thread ← projection_thread (pj_thread c);
      _ ← reject_if (bool_decide (cp_thread_id checkpoint ≠ se_thread_id stored))
            (ste "checkpoint thread does not match event thread" []);
      _ ← reject_if (se_sequence stored <=? cp_target_sequence checkpoint)%Z
            (ste "checkpoint target must precede its event" []);
      Ok {| pj_thread := Some (push_checkpoint thread checkpoint);
            pj_turn_ids := pj_turn_ids c; pj_item_ids := pj_item_ids c;
            pj_checkpoint_ids := {[cp_id checkpoint]} ∪ pj_checkpoint_ids c |}
  end.

Definition thread_turns (thread : option Thread) : list Turn :=
  match thread with Some thread => th_turns thread | None => [] end.
Definition thread_checkpoints (thread : option Thread) : list Checkpoint :=
  match thread with Some thread => th_checkpoints thread | None => [] end.

(** The identities [apply_events] collects before it starts. *)
Definition projection_start (thread : option Thread) : ProjectionCursor := {|
  pj_thread := thread;
  pj_turn_ids := list_to_set (tn_id <$> thread_turns thread);
  pj_item_ids := list_to_set (it_id <$> (thread_turns thread ≫= tn_items));
  pj_checkpoint_ids := list_to_set (cp_id <$> thread_checkpoints thread);
|}.

Definition apply_events (thread : option Thread) (events : list StoredEvent)
    : result (option Thread) :=
  c ← fold_m apply_event (projection_start thread) events;
  _ ← match pj_thread c with Some thread => validate_projection thread | None => Ok () end;
  Ok (pj_thread c).

Definition project_events (events : list StoredEvent) : result (option Thread) :=
  apply_events None events.

Definition validate_thread_authority (thread : Thread) (authority : AuthorityContext)
    : result () :=
  _ ← authority_validate_current authority "Thread access authority";
  reject_if (bool_decide (th_tenant_id thread ≠ tenant_id authority))
    (ste "Event Store tenant projection differs from authoritative Thread creation" []).
End projection.
