(* ===== verification/StateReplay.v ===== *)
(** Replaying a journal, src/src/state/mod.rs [apply_events]: the invariants of
    a projected Thread, that a replay may be cut anywhere, and that what a
    Thread has recorded never changes. *)

From Stdlib Require Import ZArith Lia.
From stdpp Require Import base tactics list gmap numbers strings option.
From stdpp Require Import list.
From S2P Require Import Prelude Kernel Digest Json Approval ApprovalHandler Journal WaitDue Completion StateWait StateEvent StateProjection.

Section replay.
Context `{!CompletionCodec, !WaitCodec, !StateCodec, !Sha256, !Sha256Bytes}.

(** * Updating one Turn *)

Lemma update_turn_ok turn_id unknown f turns turns' :
  update_turn turn_id unknown f turns = Ok turns' ↔
  ∃ pre t t' post, turns = pre ++ t :: post ∧ turns' = pre ++ t' :: post ∧ tn_id t = turn_id ∧
    f t = Ok t' ∧ Forall (λ u, tn_id u ≠ turn_id) pre.
Proof.
  revert turns'. induction turns as [|u turns IH]; intros turns'; simpl.
  { split; [done|]. intros (pre & t & t' & post & E & _). by destruct pre. }
  unfold has_id. case_bool_decide as Hu.
  - split.
    + intros E. inv_ok. subst. by exists [], u, a, turns.
    + intros (pre & t & t' & post & E & -> & Ht & Hf & Hp). destruct pre as [|v pre].
      * injection E as -> ->. simpl. by rewrite Hf.
      * injection E as -> ->. by inversion_clear Hp.
  - split.
    + intros E. apply bind_ok in E as (l & E & E2). injection E2 as <-.
      apply IH in E as (pre & t & t' & post & -> & -> & Ht & Hf & Hp).
      exists (u :: pre), t, t', post. split_and!; [done..|]. by constructor.
    + intros (pre & t & t' & post & E & -> & Ht & Hf & Hp). destruct pre as [|v pre].
      * injection E as -> ->. done.
      * injection E as -> ->. inversion_clear Hp.
        rewrite (proj2 (IH (pre ++ t' :: post))); [done|]. by exists pre, t, t', post.
Qed.

Lemma insert_item_ids items ids ids' :
  fold_m insert_item_id ids items = Ok ids' ↔
  NoDup (it_id <$> items) ∧ (∀ x, x ∈ (it_id <$> items) → x ∉ ids) ∧
  ids' = list_to_set (it_id <$> items) ∪ ids.
Proof.
  revert ids. induction items as [|x items IH]; intros ids; simpl.
  { split; [intros [= <-]; split_and!; [constructor|by intros ? ?%elem_of_nil|set_solver]|].
    intros (_ & _ & ->). f_equal. set_solver. }
  unfold insert_item_id at 1. case_bool_decide as Hx; simpl.
  { split; [done|]. intros (_ & Hall & _). by destruct (Hall (it_id x) (list_elem_of_here _ _)). }
  rewrite IH, NoDup_cons. split.
  - intros (Hn & Hf & ->). split_and!; [|done| |set_solver].
    + intros Hin. apply (Hf _ Hin). set_solver.
    + intros y [->|Hy]%elem_of_cons; [done|]. specialize (Hf y Hy). set_solver.
  - intros ([Hxn Hn] & Hf & ->). split_and!; [done| |set_solver].
    intros y Hy [->%elem_of_singleton|Hy2]%elem_of_union; [done|].
    by apply (Hf y); [right|].
Qed.

(** * What one event does *)

(** The effect of an event on the projection: the creation of the Thread, a
    change of its name or provenance, a new Turn, more items or a new status
    of a running Turn, or a checkpoint. *)
Inductive effect (stored : StoredEvent) (c : ProjectionCursor) : ProjectionCursor → Prop :=
| effect_create created_at_ms tenant :
    se_event stored = EvThreadCreated created_at_ms tenant → pj_thread c = None →
    effect stored c (set_thread c {|
      th_id := se_thread_id stored; th_tenant_id := tenant; th_name := None; th_lineage := None;
      th_import_origin := None; th_created_at_ms := created_at_ms; th_turns := [];
      th_checkpoints := [] |})
| effect_edit thread thread' :
    pj_thread c = Some thread → th_id thread' = th_id thread →
    th_tenant_id thread' = th_tenant_id thread →
    th_created_at_ms thread' = th_created_at_ms thread →
    th_turns thread' = th_turns thread → th_checkpoints thread' = th_checkpoints thread →
    (th_lineage thread' = th_lineage thread ∧ th_import_origin thread' = th_import_origin thread
     ∨ is_bare thread = true) →
    effect stored c (set_thread c thread')
| effect_start thread turn_id :
    se_event stored = EvTurnStarted turn_id → pj_thread c = Some thread →
    turn_id ∉ pj_turn_ids c → existsb is_running (th_turns thread) = false →
    effect stored c
      {| pj_thread := Some (set_turns thread (th_turns thread ++
           [{| tn_id := turn_id; tn_thread_id := se_thread_id stored; tn_status := TurnIsRunning;
               tn_items := []; tn_completion_receipt := None |}]));
         pj_turn_ids := {[turn_id]} ∪ pj_turn_ids c; pj_item_ids := pj_item_ids c;
         pj_checkpoint_ids := pj_checkpoint_ids c |}
| effect_turn thread pre t t' post items :
    pj_thread c = Some thread → th_turns thread = pre ++ t :: post → is_running t = true →
    tn_id t' = tn_id t → tn_thread_id t' = tn_thread_id t → tn_items t' = tn_items t ++ items →
    (is_running t' = true → tn_completion_receipt t' = tn_completion_receipt t) →
    NoDup (it_id <$> items) → (∀ x, x ∈ (it_id <$> items) → x ∉ pj_item_ids c) →
    effect stored c
      {| pj_thread := Some (set_turns thread (pre ++ t' :: post));
         pj_turn_ids := pj_turn_ids c; pj_item_ids := list_to_set (it_id <$> items) ∪ pj_item_ids c;
         pj_checkpoint_ids := pj_checkpoint_ids c |}
| effect_checkpoint thread checkpoint :
    pj_thread c = Some thread → cp_id checkpoint ∉ pj_checkpoint_ids c →
    effect stored c
      {| pj_thread := Some (push_checkpoint thread checkpoint);
         pj_turn_ids := pj_turn_ids c; pj_item_ids := pj_item_ids c;
         pj_checkpoint_ids := {[cp_id checkpoint]} ∪ pj_checkpoint_ids c |}.

Lemma append_projected_items_ok c turn_id items c' :
  append_projected_items c turn_id items = Ok c' →
  ∃ thread pre t post, pj_thread c = Some thread ∧ th_turns thread = pre ++ t :: post ∧
    tn_id t = turn_id ∧ is_running t = true ∧ Forall (λ u, tn_id u ≠ turn_id) pre ∧
    NoDup (it_id <$> items) ∧ (∀ x, x ∈ (it_id <$> items) → x ∉ pj_item_ids c) ∧
    c' = {| pj_thread := Some (set_turns thread (pre ++ push_items t items :: post));
            pj_turn_ids := pj_turn_ids c;
            pj_item_ids := list_to_set (it_id <$> items) ∪ pj_item_ids c;
            pj_checkpoint_ids := pj_checkpoint_ids c |}.
Proof.
  unfold append_projected_items, projection_thread. intros E. inv_ok. subst.
  match goal with Hx : fold_m _ _ _ = Ok _ |- _ => apply insert_item_ids in Hx as (Hn & Hf & ->) end.
  match goal with Hx : update_turn _ _ _ _ = Ok _ |- _ =>
    apply update_turn_ok in Hx as (pre & t & t' & post & Ht & -> & Hi & Hu & Hp) end.
  inv_ok. bool_hyps. subst. by exists a0, pre, t, post.
Qed.

(** The items a transition appends, with the status it ends the Turn in. *)
Lemma end_with_wait_ok c turn_id unknown open status c' thread pre t post :
  end_with_wait c turn_id unknown open status = Ok c' →
  pj_thread c = Some thread → th_turns thread = pre ++ t :: post → tn_id t = turn_id →
  Forall (λ u, tn_id u ≠ turn_id) pre →
  agent_loop_execution_projection t = Ok None ∧
  c' = set_thread c (set_turns thread (pre ++ with_turn_status t status :: post)).
Proof.
  unfold end_with_wait, projection_thread. intros E Hc Ht Hi Hp. rewrite Hc in E. simpl in E.
  apply bind_ok in E as (turns & E & E2). injection E2 as <-.
  apply update_turn_ok in E as (pre' & u & u' & post' & Hu & -> & Hui & Hf & Hp').
  assert (pre' = pre ∧ u = t ∧ post' = post) as (-> & -> & ->).
  { rewrite Ht in Hu. clear -Hu Hi Hui Hp Hp'. revert pre' Hu Hp'.
    induction pre as [|x pre IH]; intros [|y pre'] Hu Hp'; simpl in Hu; simplify_eq; try done.
    - inversion_clear Hp'. done.
    - inversion_clear Hp. done.
    - inversion_clear Hp. inversion_clear Hp'. by destruct (IH ltac:(done) pre' ltac:(done) ltac:(done)) as (-> & ? & ?). }
  inv_ok. subst. match goal with Hx : present ?o = false |- _ => destruct o; [done|] end. done.
Qed.

Lemma apply_event_effect c stored c' : apply_event c stored = Ok c' → effect stored c c'.
Proof.
  unfold apply_event, projection_thread. intros E. apply bind_ok in E as ([] & _ & E).
  assert (∀ turn_id items c1, append_projected_items c turn_id items = Ok c1 → effect stored c c1) as Happ.
  { intros turn_id items c1 Ha.
    apply append_projected_items_ok in Ha as (th & pre & t & post & Hc & Ht & Hi & Hr & Hp & Hn & Hf & ->).
    by apply (effect_turn stored c th pre t (push_items t items) post items). }
  assert (∀ turn_id items unknown open status c1 c2,
    append_projected_items c turn_id items = Ok c1 →
    end_with_wait c1 turn_id unknown open status = Ok c2 → effect stored c c2) as Hend.
  { intros turn_id items unknown open status c1 c2 Ha He.
    apply append_projected_items_ok in Ha as (th & pre & t & post & Hc & Ht & Hi & Hr & Hp & Hn & Hf & ->).
    destruct (end_with_wait_ok _ _ _ _ _ _ _ pre (push_items t items) post He eq_refl eq_refl Hi Hp) as [_ ->].
    by apply (effect_turn stored c th pre t (with_turn_status (push_items t items) status) post items). }
  destruct (se_event stored) as [created tenant|name|lineage|origin|turn_id|turn_id item|turn_id calls
    |turn_id i1 i2|turn_id i1 i2|turn_id i2|turn_id i1 i2 status|turn_id i1 i2|turn_id receipt|turn_id status
    |checkpoint] eqn:Ee.
  - inv_ok. subst. destruct (pj_thread c) eqn:Hc; [done|]. by eapply effect_create.
  - inv_ok. subst. eapply effect_edit; try done. by left.
  - inv_ok. bool_hyps. subst. eapply effect_edit; try done. by right.
  - inv_ok. bool_hyps. subst. eapply effect_edit; try done. by right.
  - inv_ok. bool_hyps. subst. by eapply effect_start.
  - eauto.
  - eauto.
  - apply bind_ok in E as (c1 & Ha & E). inv_ok. subst. eauto.
  - apply bind_ok in E as (c1 & Ha & E). inv_ok. subst. eauto.
  - apply bind_ok in E as (c1 & Ha & E). inv_ok. subst. eauto.
  - apply bind_ok in E as (c1 & Ha & E). by eapply Hend.
  - apply bind_ok in E as (c1 & Ha & E). by eapply Hend.
  - inv_ok. match goal with Hx : update_turn _ _ _ _ = Ok _ |- _ =>
      apply update_turn_ok in Hx as (pre & t & t' & post & Ht & -> & Hi & Hu & Hp) end.
    inv_ok. bool_hyps. subst.
    pose proof (effect_turn stored c _ pre t (complete_with t receipt) post [] ltac:(eassumption) Ht
      ltac:(assumption) eq_refl eq_refl) as Hx. simpl in Hx. rewrite app_nil_r, (left_id_L ∅ (∪)) in Hx.
    apply Hx; [done..|constructor|by intros ? ?%elem_of_nil].
  - inv_ok. match goal with Hx : update_turn _ _ _ _ = Ok _ |- _ =>
      apply update_turn_ok in Hx as (pre & t & t' & post & Ht & -> & Hi & Hu & Hp) end.
    inv_ok. bool_hyps. subst.
    pose proof (effect_turn stored c _ pre t (with_turn_status t status) post [] ltac:(eassumption) Ht
      ltac:(assumption) eq_refl eq_refl) as Hx. simpl in Hx. rewrite app_nil_r, (left_id_L ∅ (∪)) in Hx.
    apply Hx; [done..|constructor|by intros ? ?%elem_of_nil].
  - inv_ok. bool_hyps. subst. by eapply effect_checkpoint.
Qed.

(** * The invariant of a projected Thread *)

(** Identities are unique, a running Turn is the last one, and a Turn keeps a
    receipt only once it is settled. *)
Record thread_ok (thread : Thread) : Prop := {
  to_turns : NoDup (tn_id <$> th_turns thread);
  to_items : NoDup (it_id <$> (th_turns thread ≫= tn_items));
  to_checkpoints : NoDup (cp_id <$> th_checkpoints thread);
  to_running : ∀ pre t post, th_turns thread = pre ++ t :: post → is_running t = true →
    post = [] ∧ tn_completion_receipt t = None;
}.

Definition cursor_ok (c : ProjectionCursor) : Prop :=
  c = projection_start (pj_thread c) ∧
  match pj_thread c with Some thread => thread_ok thread | None => True end.

Lemma projection_start_ok thread :
  (match thread with Some thread => thread_ok thread | None => True end) →
  cursor_ok (projection_start thread).
Proof. done. Qed.

Lemma items_of_turns pre t post :
  (pre ++ t :: post) ≫= tn_items = (pre ≫= tn_items) ++ tn_items t ++ (post ≫= tn_items).
Proof. by rewrite bind_app. Qed.

Lemma items_pushed pre t t' post items :
  tn_items t' = tn_items t ++ items →
  it_id <$> ((pre ++ t' :: post) ≫= tn_items)
  ≡ₚ (it_id <$> items) ++ (it_id <$> ((pre ++ t :: post) ≫= tn_items)).
Proof. intros E. rewrite !items_of_turns, E, !fmap_app. solve_Permutation. Qed.

Lemma effect_cursor_ok stored c c' : cursor_ok c → effect stored c c' → cursor_ok c'.
Proof.
  intros [Hs Hok] He.
  destruct He as [created tenant Ee Hc|thread thread' Hc Hi Hn Hcr Ht Hcp Hl|thread turn_id Ee Hc Hf Hr
    |thread pre t t' post items Hc Ht Hr Hi Hth Hit Hrc Hn Hf|thread checkpoint Hc Hf];
    rewrite Hs, Hc; unfold cursor_ok, projection_start; simpl; rewrite Hc in Hok.
  - split; [done|]. constructor; simpl; [constructor..|by intros []].
  - rewrite Ht, Hcp. split; [done|]. destruct Hok as [H1' H2' H3' H4'].
    constructor; by rewrite ?Ht, ?Hcp.
  - rewrite Hs, Hc in Hf. simpl in Hf. split.
    + unfold set_thread. f_equal.
      * rewrite fmap_app, list_to_set_app_L. simpl. set_solver.
      * by rewrite bind_app, fmap_app, app_nil_r.
    + destruct Hok as [H1' H2' H3' H4']. constructor; simpl.
      * rewrite fmap_app. apply NoDup_app. split_and!; [done| |apply NoDup_singleton].
        intros x Hx ->%list_elem_of_singleton. apply Hf. by apply elem_of_list_to_set.
      * by rewrite bind_app, app_nil_r.
      * done.
      * intros pre t post E Ht. destruct post as [|u post _] using rev_ind.
        { apply app_inj_tail in E as [_ <-]. done. }
        rewrite app_comm_cons, app_assoc in E. apply app_inj_tail in E as [E _].
        rewrite E, existsb_app in Hr. simpl in Hr. by rewrite Ht, orb_true_r in Hr.
  - rewrite Hs, Hc in Hf. simpl in Hf. split.
    + unfold set_thread. f_equal.
      * rewrite Ht, !fmap_app. simpl. by rewrite Hi.
      * rewrite Ht. pose proof (items_pushed pre t t' post items Hit) as Hp.
        apply leibniz_equiv. rewrite Hp, list_to_set_app. done.
    + destruct Hok as [H1' H2' H3' H4']. rewrite Ht in *. constructor; simpl.
      * rewrite fmap_app in *. simpl in *. by rewrite Hi.
      * rewrite (items_pushed pre t t' post items Hit). apply NoDup_app. split_and!; [done| |done].
        intros x Hx Hin. apply (Hf x Hx). by apply elem_of_list_to_set.
      * done.
      * destruct (H4' pre t post eq_refl Hr) as [-> Hrec].
        intros pre2 u post2 E Hu. destruct post2 as [|v post2 _] using rev_ind.
        { apply app_inj_tail in E as [_ <-]. split; [done|]. by rewrite Hrc. }
        rewrite app_comm_cons, app_assoc in E. apply app_inj_tail in E as [E _].
        exfalso. destruct (H4' pre2 u (post2 ++ [t])) as [Hnil _]; [|done|by destruct post2].
        by rewrite E, <-app_assoc, app_comm_cons.
  - rewrite Hs, Hc in Hf. simpl in Hf. split.
    + unfold set_thread. f_equal. rewrite fmap_app, list_to_set_app_L. simpl. set_solver.
    + destruct Hok as [H1' H2' H3' H4']. constructor; simpl; [done|done| |done].
      rewrite fmap_app. apply NoDup_app. split_and!; [done| |apply NoDup_singleton].
      intros x Hx ->%list_elem_of_singleton. apply Hf. by apply elem_of_list_to_set.
Qed.

Lemma replay_cursor_ok events c c' :
  cursor_ok c → fold_m apply_event c events = Ok c' → cursor_ok c'.
Proof.
  intros Hc. apply fold_m_inv; [done|]. intros c1 stored c2 _ H1' E.
  eapply effect_cursor_ok; [done|]. by apply apply_event_effect.
Qed.

(** * Replay is incremental *)

Lemma apply_events_ok thread events thread' :
  apply_events thread events = Ok thread' ↔
  ∃ c, fold_m apply_event (projection_start thread) events = Ok c ∧ pj_thread c = thread' ∧
    match thread' with Some thread => validate_projection thread = Ok () | None => True end.
Proof.
  unfold apply_events. split.
  - intros E. apply bind_ok in E as (c & Hc & E). apply bind_ok in E as ([] & Hv & E).
    injection E as <-. exists c. split_and!; [done|done|]. by destruct (pj_thread c).
  - intros (c & -> & <- & Hv). simpl. destruct (pj_thread c); simpl; [|done]. by rewrite Hv.
Qed.

Lemma project_events_ok events thread : project_events events = Ok (Some thread) → thread_ok thread.
Proof.
  intros E. apply apply_events_ok in E as (c & Hc & Ht & _).
  apply replay_cursor_ok in Hc as [_ Hok]; [|done]. by rewrite Ht in Hok.
Qed.

Lemma apply_events_cut events events' thread thread1 :
  (match thread with Some thread => thread_ok thread | None => True end) →
  apply_events thread events = Ok thread1 →
  apply_events thread (events ++ events') = apply_events thread1 events'.
Proof.
  intros Hok E. apply apply_events_ok in E as (c & Hc & Ht & _).
  destruct (replay_cursor_ok events (projection_start thread) c) as [Hs _]; [done|done|].
  unfold apply_events. rewrite fold_m_app, Hc. simpl. by rewrite Hs, Ht.
Qed.

(** * What is recorded stays *)

(** A later state of a Turn: a settled Turn is the same, a running one has the
    same items first. *)
Definition turn_extends (t t' : Turn) : Prop :=
  tn_id t' = tn_id t ∧ tn_thread_id t' = tn_thread_id t ∧ tn_items t `prefix_of` tn_items t' ∧
  (is_running t = false → t' = t).

Record thread_extends (thread thread' : Thread) : Prop := {
  te_id : th_id thread' = th_id thread;
  te_tenant : th_tenant_id thread' = th_tenant_id thread;
  te_created : th_created_at_ms thread' = th_created_at_ms thread;
  te_turns : ∃ old new, th_turns thread' = old ++ new ∧ Forall2 turn_extends (th_turns thread) old;
  te_checkpoints : th_checkpoints thread `prefix_of` th_checkpoints thread';
  te_provenance :
    th_lineage thread ≠ None ∨ th_import_origin thread ≠ None ∨ th_turns thread ≠ [] →
    th_lineage thread' = th_lineage thread ∧ th_import_origin thread' = th_import_origin thread;
}.

#[global] Instance turn_extends_refl : Reflexive turn_extends.
Proof. intros t. by split_and!. Qed.
#[global] Instance turn_extends_trans : Transitive turn_extends.
Proof.
  intros t u v (I1 & T1 & P1 & R1) (I2 & T2 & P2 & R2). split_and!; [congruence..|by etrans|].
  intros Hr. specialize (R1 Hr) as ->. by apply R2.
Qed.

Lemma turns_extend_same (l : list Turn) : ∃ old new, l = old ++ new ∧ Forall2 turn_extends l old.
Proof. exists l, []. rewrite app_nil_r. by split. Qed.

#[global] Instance thread_extends_refl : Reflexive thread_extends.
Proof. intros t. constructor; [done..| |done|done]. apply turns_extend_same. Qed.

#[global] Instance thread_extends_trans : Transitive thread_extends.
Proof.
  intros t u v [I1 T1 C1 (o1 & n1 & E1 & F1) K1 P1] [I2 T2 C2 (o2 & n2 & E2 & F2) K2 P2].
  constructor; [congruence..| |by etrans|].
  - rewrite E1 in F2. apply Forall2_app_inv_l in F2 as (p & q & Fp & _ & ->).
    exists p, (q ++ n2). rewrite E2, <-app_assoc. split; [done|]. by eapply transitivity.
  - intros Hf. destruct (P1 Hf) as [L1 M1]. rewrite <-L1, <-M1. apply P2.
    rewrite L1, M1. destruct Hf as [Hf|[Hf|Hf]]; [by left|by right; left|do 2 right].
    rewrite E1. intros Hn. apply app_eq_nil in Hn as [-> _]. by inversion F1.
Qed.

Lemma effect_extends stored c c' thread :
  effect stored c c' → pj_thread c = Some thread →
  ∃ thread', pj_thread c' = Some thread' ∧ thread_extends thread thread'.
Proof.
  intros He Hth. destruct He as [created tenant Ee Hc|th th' Hc Hi Hn Hcr Ht Hcp Hl|th turn_id Ee Hc Hf Hr
    |th pre t t' post items Hc Ht Hr Hi Hti Hit Hrc Hn Hf|th checkpoint Hc Hf];
    rewrite Hth in Hc; simplify_eq; simpl; (eexists; split; [done|]).
  - constructor; rewrite ?Ht, ?Hcp; [done..|apply turns_extend_same|done|].
    intros Hb. destruct Hl as [?|Hb']; [done|]. exfalso. unfold is_bare in Hb'. bool_hyps.
    destruct Hb as [Hb|[Hb|Hb]]; [|by destruct (th_import_origin th)|done].
    by destruct (th_lineage th).
  - constructor; simpl; [done..| |done|done]. by eexists _, _.
  - constructor; simpl; [done..| |done|done]. exists (pre ++ t' :: post), []. rewrite app_nil_r, Ht.
    split; [done|]. apply Forall2_app; [done|]. constructor; [|done].
    split_and!; [done|done|by exists items|by rewrite Hr].
  - constructor; simpl; [done..|apply turns_extend_same|by exists [checkpoint]|done].
Qed.

Lemma replay_step_extends events c c' thread :
  fold_m apply_event c events = Ok c' → pj_thread c = Some thread →
  ∃ thread', pj_thread c' = Some thread' ∧ thread_extends thread thread'.
Proof.
  revert c thread. induction events as [|stored events IH]; intros c thread E Hc.
  { injection E as <-. by exists thread. }
  cbn [fold_m] in E. apply bind_ok in E as (c1 & E1 & E).
  destruct (effect_extends stored c c1 thread) as (t1 & Hc1 & Hx1); [by apply apply_event_effect|done|].
  destruct (IH c1 t1 E Hc1) as (t2 & Hc2 & Hx2). exists t2. split; [done|]. by etrans.
Qed.

Lemma replay_extends events tail thread later :
  project_events events = Ok (Some thread) → project_events (events ++ tail) = Ok later →
  ∃ thread', later = Some thread' ∧ thread_extends thread thread'.
Proof.
  intros E E'. unfold project_events in *.
  rewrite (apply_events_cut _ _ _ (Some thread)) in E' by done.
  apply apply_events_ok in E' as (c & Hc & <- & _).
  destruct (replay_step_extends tail (projection_start (Some thread)) c thread Hc) as (t & Ht & Hx); [done|].
  by exists t.
Qed.

(** Every Turn of a projected Thread has an execution. *)
Lemma projected_execution events thread turn :
  project_events events = Ok (Some thread) → turn ∈ th_turns thread →
  ∃ execution, agent_loop_execution_projection turn = Ok execution.
Proof.
  intros E Ht. apply apply_events_ok in E as (c & _ & _ & Hv).
  unfold validate_projection, validate_agent_loop_execution_projection in Hv. inv_ok.
  pose proof (proj1 (for_each_ok _ _ _) Hv turn Ht) as Hturn.
  unfold validate_turn_execution in Hturn. inv_ok. eauto.
Qed.
End replay.
