(* ===== verification/StateLoop.v ===== *)
(** What the projected execution of a Turn means, src/src/state/mod.rs
    [agent_loop_execution_projection]: how claims, resumptions and the end of a
    wait follow each other in the items of a Turn. *)

From Stdlib Require Import ZArith Lia.
From stdpp Require Import base tactics list gmap numbers strings option.
From stdpp Require Import list.
From S2P Require Import Prelude Kernel Digest Json Approval ApprovalHandler Journal WaitDue Completion StateWait StateEvent.

(** The item at [i] is a transition of a wait, with its kind. *)
Definition transition_at (items : list Item) (i : nat) (kind : ItemKind) : Prop :=
  ∃ item, items !! i = Some item ∧ it_kind item = kind ∧ is_wait_transition kind = true.

(** No transition strictly between [i] and [j]. *)
Definition calm (items : list Item) (i j : nat) : Prop :=
  ∀ k kind, (i < k < j)%nat → ¬ transition_at items k kind.

(** A result of the Tool call [call_id] strictly between [i] and [j]. *)
Definition result_between (items : list Item) (call_id : str) (i j : nat) : Prop :=
  ∃ k item, (i < k < j)%nat ∧ items !! k = Some item ∧ is_result_of call_id item = true.

Definition wait_call (envelope : TurnWaitEnvelope) : str :=
  ta_call_id (aq_authorization (wait_request envelope)).

Section loop.
Context `{!CompletionCodec, !WaitCodec, !StateCodec, !Sha256, !Sha256Bytes}.

(** The wait that a claim at [c] executes: it started at [s], an approval of
    its own request by someone else was accepted at [r], and nothing happened
    to it in between. *)
Definition claim_justified (items : list Item) (c : nat) (claim : ExecutionClaimEvidence)
    (envelope : TurnWaitEnvelope) : Prop :=
  ∃ s r resume, (s < r < c)%nat ∧
    transition_at items s (AgentLoopWaitStarted envelope) ∧
    transition_at items r (AgentLoopResumeAccepted resume) ∧ calm items s r ∧ calm items r c ∧
    as_decision (re_settlement resume) = DecisionApprove ∧
    as_request (re_settlement resume) = wait_request envelope ∧
    as_decided_by (re_settlement resume) ≠ aq_requested_by (wait_request envelope) ∧
    xe_wait_id claim = we_wait_id envelope ∧ xe_resume_command_id claim = re_command_id resume ∧
    we_revision envelope = 1%Z ∧ re_revision resume = 2%Z ∧ xe_revision claim = 3%Z.

Lemma settlement_shape_ok s :
  validate_approval_settlement_shape s = Ok () → as_decided_by s ≠ aq_requested_by (as_request s).
Proof. unfold validate_approval_settlement_shape. intros E. inv_ok. bool_hyps. done. Qed.

Lemma approval_settlement_ok envelope s :
  validate_approval_settlement envelope s = Ok () →
  validate_approval_settlement_shape s = Ok () ∧ as_request s = wait_request envelope ∧
  as_tenant_id s = we_tenant_id envelope.
Proof.
  unfold validate_approval_settlement. intros E. inv_ok. bool_hyps.
  split_and!; [done|by apply dec_stable..].
Qed.

Lemma wait_envelope_ok e :
  validate_wait_envelope e = Ok () → we_revision e = 1%Z ∧ (we_server_started_at_ms e ≠ 0)%Z.
Proof. unfold validate_wait_envelope. intros E. inv_ok. bool_hyps. done. Qed.

Lemma resume_evidence_ok envelope evidence :
  validate_resume_evidence envelope evidence = Ok () →
  validate_approval_settlement envelope (re_settlement evidence) = Ok () ∧
  re_wait_id evidence = we_wait_id envelope ∧
  re_revision evidence = saturating_add u64_max (we_revision envelope) 1.
Proof.
  unfold validate_resume_evidence. intros E. inv_ok. bool_hyps. split_and!; [done|by apply dec_stable|done].
Qed.

Lemma claim_evidence_ok envelope resume evidence :
  validate_claim_evidence envelope resume evidence = Ok () →
  xe_wait_id evidence = we_wait_id envelope ∧ xe_resume_command_id evidence = re_command_id resume ∧
  xe_revision evidence = saturating_add u64_max (re_revision resume) 1.
Proof.
  unfold validate_claim_evidence. intros E. inv_ok. bool_hyps. split_and!; [by apply dec_stable..|done].
Qed.

(** ** The invariant of the loop *)

(** Where the execution of the cursor is in the items seen so far. *)
Definition placed (items : list Item) (c : ExecutionCursor) : Prop :=
  let n := length items in
  match xc_execution c with
  | None =>
      if xc_closed c then
        ∃ i kind, S i = n ∧ transition_at items i kind ∧
          (∀ e, kind ≠ AgentLoopReadyClaimed e)
      else ∀ i kind, ¬ transition_at items i kind
  | Some (ExecWaiting envelope) =>
      ∃ s, transition_at items s (AgentLoopWaitStarted envelope) ∧ calm items s n ∧
        we_revision envelope = 1%Z
  | Some (ExecReady envelope resume) =>
      ∃ s r, (s < r)%nat ∧ transition_at items s (AgentLoopWaitStarted envelope) ∧
        transition_at items r (AgentLoopResumeAccepted resume) ∧ calm items s r ∧ calm items r n ∧
        we_revision envelope = 1%Z ∧ re_revision resume = 2%Z ∧
        as_request (re_settlement resume) = wait_request envelope ∧
        as_decided_by (re_settlement resume) ≠ aq_requested_by (wait_request envelope)
  | Some (ExecExecuting envelope resume claim) =>
      ∃ i, xc_claim_index c = Some i ∧ transition_at items i (AgentLoopReadyClaimed claim) ∧
        calm items i n ∧ claim_justified items i claim envelope
  end ∧
  (xc_closed c = true → xc_execution c = None).

(** What holds of every claim and every end of a wait among the items. *)
Definition claims_ok (items : list Item) : Prop :=
  (∀ i claim, transition_at items i (AgentLoopReadyClaimed claim) →
     ∃ envelope, claim_justified items i claim envelope ∧
       ∀ j kind, (i < j)%nat → transition_at items j kind →
         result_between items (wait_call envelope) i j) ∧
  (∀ i e, transition_at items i (AgentLoopWaitClosed e) → S i = length items) ∧
  (∀ i e, transition_at items i (AgentLoopWaitDenied e) → S i = length items).

Lemma transition_app items item i kind :
  transition_at (items ++ [item]) i kind ↔
  transition_at items i kind ∨ i = length items ∧ it_kind item = kind ∧ is_wait_transition kind = true.
Proof.
  unfold transition_at. split.
  - intros (x & Hx & Hk & Hw). apply lookup_app_Some in Hx as [Hx|[Hl Hx]]; [left; by exists x|].
    apply list_lookup_singleton_Some in Hx as [Hi ->]. right. split_and!; [lia|done|done].
  - intros [(x & Hx & Hk & Hw)|(-> & Hk & Hw)].
    + exists x. split_and!; [by apply lookup_app_l_Some|done|done].
    + exists item. split_and!; [by rewrite lookup_app_r, Nat.sub_diag|done|done].
Qed.

Lemma transition_lt items i kind : transition_at items i kind → (i < length items)%nat.
Proof. intros (x & Hx & _). by eapply lookup_lt_Some. Qed.

Lemma calm_app items item i j : (j ≤ length items)%nat → calm items i j → calm (items ++ [item]) i j.
Proof.
  intros Hj Hq k kind Hk [Ht|(-> & _)]%transition_app; [by eapply Hq|lia].
Qed.

Lemma calm_pass items item i :
  calm items i (length items) → is_wait_transition (it_kind item) = false →
  calm (items ++ [item]) i (length (items ++ [item])).
Proof.
  intros Hq Hw k kind Hk [Ht|(-> & Hi & Hw')]%transition_app.
  - eapply Hq; [|done]. apply transition_lt in Ht. lia.
  - congruence.
Qed.

Lemma calm_new items item :
  calm (items ++ [item]) (length items) (length (items ++ [item])).
Proof. intros k kind. rewrite length_app. simpl. lia. Qed.

Lemma justified_app items item i claim envelope :
  (i ≤ length items)%nat → claim_justified items i claim envelope →
  claim_justified (items ++ [item]) i claim envelope.
Proof.
  intros Hi (s & r & resume & Hsr & Hs & Hr & Q1 & Q2 & Hrest). exists s, r, resume.
  split_and!; [lia|lia|by apply transition_app; left|by apply transition_app; left|
    by apply calm_app; [lia|]|by apply calm_app; [lia|]|..]; apply Hrest.
Qed.

Lemma result_app items item call_id i j :
  result_between items call_id i j → result_between (items ++ [item]) call_id i j.
Proof.
  intros (k & x & Hk & Hx & Hr). exists k, x. split_and!; [lia|lia|by apply lookup_app_l_Some|done].
Qed.

(** The rules for one more item: one that is not a transition, and one that is
    a transition, not a claim, and that finds the results it must. *)
Lemma claims_pass items item :
  claims_ok items → (∀ i kind, transition_at items i kind →
    (∃ e, kind = AgentLoopWaitClosed e) ∨ (∃ e, kind = AgentLoopWaitDenied e) → False) →
  (∀ i claim envelope, transition_at items i (AgentLoopReadyClaimed claim) →
     claim_justified items i claim envelope → is_wait_transition (it_kind item) = true →
     result_between (items ++ [item]) (wait_call envelope) i (length items)) →
  (∀ claim, it_kind item = AgentLoopReadyClaimed claim →
     ∃ envelope, claim_justified (items ++ [item]) (length items) claim envelope) →
  claims_ok (items ++ [item]).
Proof.
  intros (Hc & Hx & Hd) Hopen Hres Hnew. split_and!.
  - intros i claim [Ht|(-> & Hk & _)]%transition_app.
    + destruct (Hc i claim Ht) as (envelope & Hj & Hl). exists envelope.
      split; [apply justified_app; [apply transition_lt in Ht; lia|done]|].
      intros j kind Hij [Htj|(-> & Hk & Hw)]%transition_app.
      * by eapply result_app, Hl.
      * eapply Hres; [done..|by rewrite Hk].
    + destruct (Hnew claim Hk) as [envelope Hj]. exists envelope. split; [done|].
      intros j kind Hj2 Ht%transition_lt. rewrite length_app in Ht. simpl in Ht. lia.
  - intros i e [Ht|(-> & _)]%transition_app; [|rewrite length_app; simpl; lia].
    exfalso. eapply Hopen; [done|eauto].
  - intros i e [Ht|(-> & _)]%transition_app; [|rewrite length_app; simpl; lia].
    exfalso. eapply Hopen; [done|eauto].
Qed.

Lemma transition_kind items i kind kind' :
  transition_at items i kind → transition_at items i kind' → kind = kind'.
Proof. intros (x & Hx & <- & _) (y & Hy & <- & _). by simplify_eq. Qed.

Lemma last_after items s i kind kind' :
  transition_at items s kind → calm items s (length items) → transition_at items i kind' →
  (i < s)%nat ∨ i = s ∧ kind' = kind.
Proof.
  intros Hs Hq Hi. destruct (lt_eq_lt_dec i s) as [[?| ->]|Hlt]; [by left| |].
  - right. split; [done|by eapply transition_kind].
  - destruct (Hq i kind'); [|done]. split; [done|by eapply transition_lt].
Qed.

Lemma calm_last items i j c kind kind' :
  transition_at items i kind → calm items i c → transition_at items j kind' → calm items j c →
  (i < c)%nat → (j < c)%nat → i = j.
Proof.
  intros Hi Qi Hj Qj Hic Hjc. destruct (lt_eq_lt_dec i j) as [[Hlt| ->]|Hlt]; [|done|].
  - by destruct (Qi j kind').
  - by destruct (Qj i kind).
Qed.

Lemma justified_wait items i claim claim' envelope envelope' :
  claim_justified items i claim envelope → claim_justified items i claim' envelope' →
  envelope = envelope'.
Proof.
  intros (s & r & e & Hl & Hs & Hr & Q1 & Q2 & _) (s' & r' & e' & Hl' & Hs' & Hr' & Q1' & Q2' & _).
  assert (r = r') as -> by (eapply calm_last; [exact Hr|done|exact Hr'|done|lia|lia]).
  assert (s = s') as -> by (eapply calm_last; [exact Hs|done|exact Hs'|done|lia|lia]).
  by injection (transition_kind _ _ _ _ Hs Hs').
Qed.

(** A claim is the last transition only while it executes. *)
Lemma placed_claim items c i claim :
  placed items c → xc_closed c = false → transition_at items i (AgentLoopReadyClaimed claim) →
  (∃ j kind, (i < j)%nat ∧ transition_at items j kind) ∨
  (∃ envelope resume claim', xc_execution c = Some (ExecExecuting envelope resume claim') ∧
     xc_claim_index c = Some i ∧ claim_justified items i claim' envelope).
Proof.
  intros [Hp _] Hcl Hi. destruct (xc_execution c) as [[envelope|envelope resume|envelope resume claim']|].
  - destruct Hp as (s & Hs & Hq & _). destruct (last_after _ _ _ _ _ Hs Hq Hi) as [?|[_ [=]]]; eauto.
  - destruct Hp as (s & r & _ & _ & Hr & _ & Hq & _).
    destruct (last_after _ _ _ _ _ Hr Hq Hi) as [?|[_ [=]]]; eauto.
  - destruct Hp as (k & Hk & Ht & Hq & Hj).
    destruct (last_after _ _ _ _ _ Ht Hq Hi) as [?|[-> _]]; [eauto|].
    right. by exists envelope, resume, claim'.
  - rewrite Hcl in Hp. by destruct (Hp i (AgentLoopReadyClaimed claim)).
Qed.

(** No wait has ended while the loop goes on. *)
Lemma placed_open items c i kind :
  placed items c → claims_ok items → xc_closed c = false → transition_at items i kind →
  (∃ e, kind = AgentLoopWaitClosed e) ∨ (∃ e, kind = AgentLoopWaitDenied e) → False.
Proof.
  intros [Hp _] (_ & Hx & Hd) Hcl Hi Hk.
  assert (∀ s kind', transition_at items s kind' → calm items s (length items) →
    kind' = kind) as Hlast.
  { intros s kind' Hs Hq. destruct (last_after _ _ _ _ _ Hs Hq Hi) as [Hlt|[_ ->]]; [|done].
    apply transition_lt in Hs. destruct Hk as [[e ->]|[e ->]]; [apply Hx in Hi|apply Hd in Hi]; lia. }
  destruct (xc_execution c) as [[envelope|envelope resume|envelope resume claim]|].
  - destruct Hp as (s & Hs & Hq & _). specialize (Hlast _ _ Hs Hq) as <-. naive_solver.
  - destruct Hp as (s & r & _ & _ & Hr & _ & Hq & _). specialize (Hlast _ _ Hr Hq) as <-. naive_solver.
  - destruct Hp as (k & _ & Ht & Hq & _). specialize (Hlast _ _ Ht Hq) as <-. naive_solver.
  - rewrite Hcl in Hp. by destruct (Hp i kind).
Qed.

(** ** One item *)

Lemma boundary_result turn execution claim_index n :
  require_new_wait_boundary_at turn execution claim_index n = Ok () →
  ∃ envelope resume claim i, execution = ExecExecuting envelope resume claim ∧
    claim_index = Some i ∧ result_between (tn_items turn) (wait_call envelope) i n.
Proof.
  unfold require_new_wait_boundary_at. destruct execution as [| |envelope resume claim]; [done..|].
  intros E. inv_ok. bool_hyps. destruct claim_index as [i|]; [|done].
  exists envelope, resume, claim, i. split_and!; [done..|].
  match goal with Hex : existsb _ _ = true |- _ => apply existsb_exists in Hex as (x & Hx & Hr) end.
  apply list_elem_of_In, list_elem_of_lookup in Hx as [k Hk]. unfold items_between in Hk.
  pose proof (lookup_lt_Some _ _ _ Hk) as Hlt. rewrite length_take in Hlt.
  rewrite lookup_take_lt in Hk by lia. rewrite lookup_drop in Hk.
  exists (S i + k)%nat, x. split_and!; [lia|lia|done|done].
Qed.

Lemma placed_pass items item c :
  placed items c → is_wait_transition (it_kind item) = false → xc_closed c = false →
  placed (items ++ [item]) c.
Proof.
  intros [Hp Hcl] Hw Hc. split; [|done].
  destruct (xc_execution c) as [[envelope|envelope resume|envelope resume claim]|].
  - destruct Hp as (s & Hs & Hq & Hv). exists s. split_and!; [|by apply calm_pass|done].
    by apply transition_app; left.
  - destruct Hp as (s & r & Hl & Hs & Hr & Q1 & Q2 & Hrest). exists s, r.
    split_and!; [done|by apply transition_app; left|by apply transition_app; left| |by apply calm_pass|..];
      try apply Hrest.
    apply calm_app; [|done]. apply transition_lt in Hr. lia.
  - destruct Hp as (i & Hi & Ht & Hq & Hj). exists i.
    split_and!; [done|by apply transition_app; left|by apply calm_pass|].
    apply justified_app; [|done]. apply transition_lt in Ht. lia.
  - rewrite Hc in *. intros i kind [Ht|(_ & <- & Hk)]%transition_app; [by eapply Hp|congruence].
Qed.

Lemma step_pass items item c :
  placed items c → claims_ok items → xc_closed c = false → is_wait_transition (it_kind item) = false →
  placed (items ++ [item]) c ∧ claims_ok (items ++ [item]).
Proof.
  intros Hp Hok Hc Hw. split; [by apply placed_pass|]. apply claims_pass; [done| | |].
  - intros i kind. by eapply placed_open.
  - congruence.
  - intros claim Hk. by rewrite Hk in Hw.
Qed.

(** A transition keeps [claims_ok] when the claim that still executes has its
    result, and a new claim is justified. *)
Lemma step_claims items item c :
  placed items c → claims_ok items → xc_closed c = false →
  (∀ envelope resume claim i, xc_execution c = Some (ExecExecuting envelope resume claim) →
     xc_claim_index c = Some i →
     result_between items (wait_call envelope) i (length items)) →
  (∀ claim, it_kind item = AgentLoopReadyClaimed claim →
     ∃ envelope, claim_justified (items ++ [item]) (length items) claim envelope) →
  claims_ok (items ++ [item]).
Proof.
  intros Hp Hok Hc Hres Hnew. apply claims_pass; [done| | |done].
  - intros i kind. by eapply placed_open.
  - intros i claim envelope Hi Hj _.
    destruct (placed_claim _ _ _ _ Hp Hc Hi) as [(j & kind & Hij & Ht)|(envelope' & resume & claim' & He & Hx & Hj')].
    + destruct Hok as (Hall & _). destruct (Hall i claim Hi) as (envelope' & Hj' & Hlater).
      assert (envelope' = envelope) as -> by by eapply justified_wait.
      pose proof (transition_lt _ _ _ Ht).
      destruct (Hlater j kind Hij Ht) as (k & x & Hk & Hx & Hr). exists k, x.
      split_and!; [lia|lia|by apply lookup_app_l_Some|done].
    + assert (envelope' = envelope) as -> by by eapply justified_wait.
      eapply result_app, Hres; [done..].
Qed.

Lemma not_executing_ok (c : ExecutionCursor) (P : TurnWaitEnvelope → nat → Prop) :
  (∀ envelope resume claim, xc_execution c ≠ Some (ExecExecuting envelope resume claim)) →
  ∀ envelope resume claim i, xc_execution c = Some (ExecExecuting envelope resume claim) →
    xc_claim_index c = Some i → P envelope i.
Proof. intros Hn envelope resume claim i He. by destruct (Hn envelope resume claim). Qed.

Lemma transition_new items item kind :
  it_kind item = kind → is_wait_transition kind = true →
  transition_at (items ++ [item]) (length items) kind.
Proof. intros <- Hw. apply transition_app. by right. Qed.

Lemma transition_old items item i kind :
  transition_at items i kind → transition_at (items ++ [item]) i kind.
Proof. intros. apply transition_app. by left. Qed.

Lemma started_step items item c envelope :
  placed items c → claims_ok items → xc_closed c = false →
  it_kind item = AgentLoopWaitStarted envelope → we_revision envelope = 1%Z →
  (∀ envelope resume claim i, xc_execution c = Some (ExecExecuting envelope resume claim) →
     xc_claim_index c = Some i →
     result_between items (wait_call envelope) i (length items)) →
  placed (items ++ [item]) (execution_at (ExecWaiting envelope) None) ∧ claims_ok (items ++ [item]).
Proof.
  intros Hp Hok Hc Hk Hv Hres. split.
  - split; [|done]. simpl. exists (length items).
    split_and!; [by apply transition_new|by apply calm_new|done].
  - eapply step_claims; [done..|]. intros claim Hk'. congruence.
Qed.

Lemma resumed_step items item c envelope resume index :
  placed items c → claims_ok items → xc_closed c = false →
  it_kind item = AgentLoopResumeAccepted resume → xc_execution c = Some (ExecWaiting envelope) →
  re_revision resume = saturating_add u64_max (we_revision envelope) 1 →
  as_request (re_settlement resume) = wait_request envelope →
  as_decided_by (re_settlement resume) ≠ aq_requested_by (wait_request envelope) →
  placed (items ++ [item]) (execution_at (ExecReady envelope resume) index) ∧ claims_ok (items ++ [item]).
Proof.
  intros Hp Hok Hc Hk He Hv Hq Hd. split.
  - split; [|done]. destruct Hp as [Hp _]. rewrite He in Hp. destruct Hp as (s & Hs & Hqs & H1').
    simpl. exists s, (length items).
    split_and!; [by eapply transition_lt|by apply transition_old|by apply transition_new|
      by apply calm_app|by apply calm_new|done|by rewrite Hv, H1'|done|done].
  - eapply step_claims; [done..| |intros claim Hk'; congruence].
    apply (not_executing_ok c (λ e i, result_between items (wait_call e) i (length items))).
    intros ???. by rewrite He.
Qed.

Lemma claimed_step items item c envelope resume claim :
  placed items c → claims_ok items → xc_closed c = false →
  it_kind item = AgentLoopReadyClaimed claim → xc_execution c = Some (ExecReady envelope resume) →
  is_deny (as_decision (re_settlement resume)) = false →
  xe_wait_id claim = we_wait_id envelope → xe_resume_command_id claim = re_command_id resume →
  xe_revision claim = saturating_add u64_max (re_revision resume) 1 →
  placed (items ++ [item]) (execution_at (ExecExecuting envelope resume claim) (Some (length items)))
  ∧ claims_ok (items ++ [item]).
Proof.
  intros Hp Hok Hc Hk He Hdeny Hw Hcmd Hv.
  assert (claim_justified (items ++ [item]) (length items) claim envelope) as Hj.
  { destruct Hp as [Hp _]. rewrite He in Hp.
    destruct Hp as (s & r & Hl & Hs & Hr & Q1 & Q2 & Hv1 & Hv2 & Hq & Hd).
    exists s, r, resume. pose proof (transition_lt _ _ _ Hr).
    split_and!; [lia|lia|by apply transition_old|by apply transition_old|apply calm_app; [lia|done]|
      by apply calm_app| |done..|by rewrite Hv, Hv2].
    by destruct (as_decision _). }
  split.
  - split; [|done]. simpl. exists (length items).
    split_and!; [done|by apply transition_new|by apply calm_new|done].
  - eapply step_claims; [done..| |].
    + apply (not_executing_ok c (λ e i, result_between items (wait_call e) i (length items))).
      intros ???. by rewrite He.
    + intros claim' Hk'. rewrite Hk in Hk'. injection Hk' as <-. by exists envelope.
Qed.

Lemma ended_step items item c :
  placed items c → claims_ok items → xc_closed c = false →
  is_wait_transition (it_kind item) = true → (∀ e, it_kind item ≠ AgentLoopReadyClaimed e) →
  (∀ envelope resume claim, xc_execution c ≠ Some (ExecExecuting envelope resume claim)) →
  placed (items ++ [item]) execution_end ∧ claims_ok (items ++ [item]).
Proof.
  intros Hp Hok Hc Hw Hn He. split.
  - split; [|done]. simpl. exists (length items), (it_kind item).
    split_and!; [by rewrite length_app; simpl; lia|by apply transition_new|done].
  - eapply step_claims; [done..| |intros claim Hk; by destruct (Hn claim)].
    by apply (not_executing_ok c (λ e i, result_between items (wait_call e) i (length items))).
Qed.

Lemma live_wait_ok execution accepted no_wait executing w :
  live_wait execution accepted no_wait executing = Ok w →
  ∀ envelope resume claim, execution ≠ Some (ExecExecuting envelope resume claim).
Proof. by destruct execution as [[]|]. Qed.

Lemma result_take items call_id i n :
  result_between items call_id i n → result_between (take n items) call_id i n.
Proof.
  intros (k & x & Hk & Hx & Hr). exists k, x. split_and!; [lia|lia|by rewrite lookup_take_lt; [|lia]|done].
Qed.

Lemma execution_step_ok turn c n item c' :
  tn_items turn !! n = Some item →
  placed (take n (tn_items turn)) c → claims_ok (take n (tn_items turn)) →
  execution_step turn c (n, item) = Ok c' →
  placed (take (S n) (tn_items turn)) c' ∧ claims_ok (take (S n) (tn_items turn)).
Proof.
  intros Hn Hp Hok E. rewrite (take_S_r _ _ _ Hn).
  assert (length (take n (tn_items turn)) = n) as Hl.
  { rewrite length_take. apply lookup_lt_Some in Hn. lia. }
  unfold execution_step in E. apply bind_ok in E as ([] & Hc%reject_if_ok & E).
  destruct (it_kind item) eqn:Hk; try (injection E as <-; apply step_pass; [done..|by rewrite Hk]).
  - inv_ok. subst. match goal with Hx : validate_wait_envelope _ = Ok _ |- _ =>
      apply wait_envelope_ok in Hx as [Hv _] end.
    apply (started_step _ _ c); [done..|].
    intros e0 r0 cl0 i He Hi.
    match goal with Hx : match xc_execution c with _ => _ end = Ok _ |- _ => rewrite He, Hi in Hx;
      apply boundary_result in Hx as (e1 & r1 & cl1 & j & Hex & Hij & Hres) end.
    simplify_eq. rewrite Hl. by apply result_take.
  - destruct (xc_execution c) as [[]|] eqn:He; try done. inv_ok. subst.
    match goal with Hx : validate_resume_evidence _ _ = Ok _ |- _ =>
      apply resume_evidence_ok in Hx as (Hs & _ & Hv) end.
    apply approval_settlement_ok in Hs as (Hsh & Hreq & _). apply settlement_shape_ok in Hsh.
    apply (resumed_step _ _ c); [done..|by rewrite <-Hreq].
  - destruct (xc_execution c) as [[]|] eqn:He; try done. inv_ok. subst.
    match goal with Hx : validate_claim_evidence _ _ _ = Ok _ |- _ =>
      apply claim_evidence_ok in Hx as (H1' & H2' & H3') end.
    rewrite <-Hl at 2. by apply (claimed_step _ _ c).
  - apply bind_ok in E as ([[? ?] ?] & Hw & E). inv_ok. subst. pose proof (live_wait_ok _ _ _ _ _ Hw).
    apply (ended_step _ _ c); rewrite ?Hk; done.
  - apply bind_ok in E as ([[? ?] ?] & Hw & E). inv_ok. subst. pose proof (live_wait_ok _ _ _ _ _ Hw).
    apply (ended_step _ _ c); rewrite ?Hk; done.
Qed.

Lemma execution_start_ok : placed [] execution_start ∧ claims_ok [].
Proof.
  assert (∀ i kind, ¬ transition_at [] i kind) as Hn by by intros i kind (x & Hx & _).
  split; [by split|]. split_and!; intros i e Hi; by destruct (Hn i _ Hi).
Qed.

Lemma imap_pair_take (l : list Item) n item :
  l !! n = Some item → take (S n) (imap pair l) = take n (imap pair l) ++ [(n, item)].
Proof. intros Hn. apply take_S_r. by rewrite list_lookup_imap, Hn. Qed.

Lemma execution_loop_ok turn n c :
  (n ≤ length (tn_items turn))%nat →
  fold_m (execution_step turn) execution_start (take n (imap pair (tn_items turn))) = Ok c →
  placed (take n (tn_items turn)) c ∧ claims_ok (take n (tn_items turn)).
Proof.
  revert c. induction n as [|n IH]; intros c Hn E.
  { injection E as <-. apply execution_start_ok. }
  destruct (lookup_lt_is_Some_2 (tn_items turn) n) as [item Hi]; [lia|].
  rewrite (imap_pair_take _ _ _ Hi), fold_m_app in E. apply bind_ok in E as (c1 & E1 & E2).
  destruct (IH c1) as [Hp Hok]; [lia|done|]. simpl in E2. apply bind_ok in E2 as (c2 & E2 & [= <-]).
  by eapply execution_step_ok.
Qed.

Lemma execution_claims turn execution :
  agent_loop_execution_projection turn = Ok execution →
  ∃ c, xc_execution c = execution ∧ placed (tn_items turn) c ∧ claims_ok (tn_items turn).
Proof.
  unfold agent_loop_execution_projection. intros E. apply bind_ok in E as (c & E & [= <-]).
  exists c. split; [done|]. rewrite <-(firstn_all (tn_items turn)) at 1.
  destruct (execution_loop_ok turn (length (tn_items turn)) c) as [Hp Hok]; [done| |].
  { by rewrite take_ge; [|by rewrite length_imap]. }
  by rewrite firstn_all in *.
Qed.
End loop.
