(* ===== verification/StateIndex.v ===== *)
(** The live-wait row of a Thread and its journal: the reducer of
    src/src/state/wait_due.rs run over a journal gives the row of the wait that
    src/src/state/mod.rs projects the journal to. *)

From Stdlib Require Import ZArith Lia.
From stdpp Require Import base tactics list gmap numbers strings option.
From stdpp Require Import list.
From S2P Require Import Prelude Kernel Digest Json Approval ApprovalHandler Journal WaitDue Completion StateWait StateEvent StateProjection StateReplay StateLoop.

(** What the store keeps for a Thread after a change of its row. *)
Definition apply_wait_change (row : option AgentLoopWaitProjection)
    (change : AgentLoopWaitProjectionChange) : option AgentLoopWaitProjection :=
  match change with
  | ProjectionUnchanged => row
  | ProjectionUpsert next => Some next
  | ProjectionDelete _ => None
  end.

(** [projection_change] and the change of the row. *)
Definition wait_row_step (row : option AgentLoopWaitProjection) (stored : StoredEvent)
    : result (option AgentLoopWaitProjection) :=
  change ← projection_change stored row;
  Ok (apply_wait_change row change).

Definition wait_row (events : list StoredEvent) : result (option AgentLoopWaitProjection) :=
  fold_m wait_row_step None events.

(** [turns.iter().find(|turn| turn.status == TurnStatus::Running)]. *)
Definition running_turn (turns : list Turn) : option Turn := List.find is_running turns.

(** The row of a Turn of the Thread whose execution is open, given the events
    that recorded the wait. *)
Definition open_wait_row (thread_id : ThreadId) (turn_id : TurnId)
    (execution : option AgentLoopExecution) (row : option AgentLoopWaitProjection) : Prop :=
  match execution with
  | Some (ExecWaiting envelope) => ∃ started,
      row = Some {|
        wp_phase := DueWaiting; wp_tenant_id := we_tenant_id envelope; wp_thread_id := thread_id;
        wp_turn_id := turn_id; wp_wait_id := we_wait_id envelope; wp_revision := we_revision envelope;
        wp_due_at_ms := we_expires_at_ms envelope; wp_approval_id := aq_id (wait_request envelope);
        wp_envelope_sha256 := we_envelope_sha256 envelope; wp_wait_started_event_id := started;
        wp_current_transition_event_id := started; wp_resume_command_id := None |}
  | Some (ExecReady envelope resume) => ∃ started accepted,
      row = Some {|
        wp_phase := if is_deny (as_decision (re_settlement resume)) then DueReadyDeny else DueReadyAllow;
        wp_tenant_id := we_tenant_id envelope; wp_thread_id := thread_id;
        wp_turn_id := turn_id; wp_wait_id := we_wait_id envelope; wp_revision := re_revision resume;
        wp_due_at_ms := if is_deny (as_decision (re_settlement resume))
                        then Some (re_accepted_at_ms resume) else we_expires_at_ms envelope;
        wp_approval_id := aq_id (wait_request envelope);
        wp_envelope_sha256 := we_envelope_sha256 envelope; wp_wait_started_event_id := started;
        wp_current_transition_event_id := accepted;
        wp_resume_command_id := Some (re_command_id resume) |}
  | _ => row = None
  end.

Section index.
Context `{!CompletionCodec, !WaitCodec, !StateCodec, !Sha256, !Sha256Bytes}.

(** The row belongs to the open execution of the running Turn; there is none
    without one. *)
Definition row_agrees (thread_id : ThreadId) (turns : list Turn)
    (row : option AgentLoopWaitProjection) : Prop :=
  match running_turn turns with
  | Some turn => ∃ execution, agent_loop_execution_projection turn = Ok execution ∧
                   open_wait_row thread_id (tn_id turn) execution row
  | None => row = None
  end.

(** * The loop over a longer Turn *)

Definition execution_loop (turn : Turn) : result ExecutionCursor :=
  fold_m (execution_step turn) execution_start (imap pair (tn_items turn)).

Lemma items_between_app items items' i n :
  (n ≤ length items)%nat → items_between (items ++ items') i n = items_between items i n.
Proof.
  intros Hn. unfold items_between. destruct (decide (S i ≤ length items)%nat) as [Hi|Hi].
  - rewrite drop_app_le, take_app_le; [done| |done]. rewrite length_drop. lia.
  - by replace (n - S i)%nat with 0%nat by lia.
Qed.

Lemma execution_step_local t t' items c n item :
  tn_id t' = tn_id t → tn_items t' = tn_items t ++ items → (n ≤ length (tn_items t))%nat →
  execution_step t' c (n, item) = execution_step t c (n, item).
Proof.
  intros Hid Hit Hn. unfold execution_step.
  assert (∀ p, preceded_by p t' n = preceded_by p t n) as Hp.
  { intros p. unfold preceded_by, preceding. destruct n as [|n]; [done|].
    by rewrite Hit, lookup_app_l by lia. }
  assert (∀ e i, require_new_wait_boundary_at t' e i n = require_new_wait_boundary_at t e i n) as Hb.
  { intros e i. unfold require_new_wait_boundary_at. destruct e; rewrite ?Hid; [done..|].
    destruct i as [i|]; [|done]. by rewrite Hit, items_between_app. }
  destruct (reject_if (xc_closed c) _) as [[]|]; simpl; [|done].
  destruct (it_kind item); rewrite ?Hid, ?Hp; try done.
  destruct (xc_execution c); [by rewrite Hb|done].
Qed.

Lemma imap_pair_app (l k : list Item) :
  imap pair (l ++ k) = imap pair l ++ imap (λ i, pair (length l + i)%nat) k.
Proof. by rewrite imap_app. Qed.

(** The loop over pushed items goes on from the loop over the old ones. *)
Lemma execution_loop_push t t' items :
  tn_id t' = tn_id t → tn_items t' = tn_items t ++ items →
  execution_loop t' =
    c ← execution_loop t;
    fold_m (execution_step t') c (imap (λ i, pair (length (tn_items t) + i)%nat) items).
Proof.
  intros Hid Hit. unfold execution_loop. rewrite Hit, imap_pair_app, fold_m_app. f_equal.
  assert (∀ l c, (∀ n x, (n, x) ∈ l → (n ≤ length (tn_items t))%nat) →
    fold_m (execution_step t') c l = fold_m (execution_step t) c l) as Hl.
  { intros l. induction l as [|[n x] l IH]; intros c Hin; cbn [fold_m]; [done|].
    rewrite (execution_step_local t t' items) by (try done; apply (Hin n x); by left).
    destruct (execution_step t c (n, x)) as [c'|]; cbn; [|done]. apply IH.
    intros m y Hy. apply (Hin m y). by right. }
  apply Hl. intros n x (i & Hi)%list_elem_of_lookup.
  rewrite list_lookup_imap in Hi. apply fmap_Some in Hi as (y & Hy & [= -> ->]).
  apply lookup_lt_Some in Hy. lia.
Qed.

Lemma projection_loop t execution :
  agent_loop_execution_projection t = Ok execution ↔
  ∃ c, execution_loop t = Ok c ∧ xc_execution c = execution.
Proof.
  unfold agent_loop_execution_projection, execution_loop. split.
  - intros E. apply bind_ok in E as (c & E & [= <-]). by exists c.
  - intros (c & -> & <-). done.
Qed.

(** * The running Turn *)

(** A running Turn of the cursor, with its loop, has the row. *)
Definition row_live (thread_id : ThreadId) (turns : list Turn)
    (row : option AgentLoopWaitProjection) : Prop :=
  match running_turn turns with
  | Some turn => ∃ c, execution_loop turn = Ok c ∧ xc_closed c = false ∧
                   open_wait_row thread_id (tn_id turn) (xc_execution c) row
  | None => row = None
  end.

Lemma row_live_agrees thread_id turns row :
  row_live thread_id turns row → row_agrees thread_id turns row.
Proof.
  unfold row_live, row_agrees. destruct (running_turn turns) as [turn|]; [|done].
  intros (c & Hc & _ & Hrow). exists (xc_execution c). split; [|done]. apply projection_loop. by exists c.
Qed.

Lemma running_turn_app pre t :
  Forall (λ u, is_running u = false) pre →
  running_turn (pre ++ [t]) = if is_running t then Some t else None.
Proof. unfold running_turn. induction 1 as [|u pre Hu Hp IH]; simpl; [done|]. by rewrite Hu. Qed.

Lemma running_turn_last thread pre t post :
  thread_ok thread → th_turns thread = pre ++ t :: post → is_running t = true →
  post = [] ∧ Forall (λ u, is_running u = false) pre.
Proof.
  intros Hok Ht Hr. destruct (to_running _ Hok pre t post Ht Hr) as [-> _]. split; [done|].
  apply Forall_forall. intros u Hu. apply list_elem_of_split in Hu as (l & k & ->).
  destruct (is_running u) eqn:Hru; [|done].
  destruct (to_running _ Hok l u (k ++ [t])) as [Hn _]; [|done|by destruct k].
  by rewrite Ht, <-app_assoc.
Qed.

(** The Turn an event appends to is the running one and the last one. *)
Lemma append_running c turn_id items c' :
  cursor_ok c → append_projected_items c turn_id items = Ok c' →
  ∃ thread pre t, pj_thread c = Some thread ∧ th_turns thread = pre ++ [t] ∧ tn_id t = turn_id ∧
    is_running t = true ∧ Forall (λ u, is_running u = false) pre ∧
    Forall (λ u, tn_id u ≠ turn_id) pre ∧ running_turn (th_turns thread) = Some t ∧
    pj_thread c' = Some (set_turns thread (pre ++ [push_items t items])).
Proof.
  intros [_ Hok] E. apply append_projected_items_ok in E
    as (thread & pre & t & post & Hc & Ht & Hi & Hr & Hp & _ & _ & ->).
  rewrite Hc in Hok. destruct (running_turn_last _ _ _ _ Hok Ht Hr) as [-> Hpre].
  exists thread, pre, t. split_and!; [done..| |done]. by rewrite Ht, running_turn_app, Hr.
Qed.

Lemma find_turn_last thread pre t turn_id :
  th_turns thread = pre ++ [t] → tn_id t = turn_id → Forall (λ u, tn_id u ≠ turn_id) pre →
  find_turn thread turn_id = Some t.
Proof.
  unfold find_turn. intros -> Hi Hp. induction Hp as [|u pre Hu Hp IH]; simpl; unfold has_id.
  - by rewrite bool_decide_true.
  - by rewrite bool_decide_false.
Qed.

(** ** What an event adds to the loop *)

Definition passes (items : list Item) : Prop :=
  Forall (λ item, is_wait_transition (it_kind item) = false) items.

Lemma execution_step_pass t c n item :
  xc_closed c = false → is_wait_transition (it_kind item) = false →
  execution_step t c (n, item) = Ok c.
Proof. unfold execution_step. intros ->. by destruct (it_kind item). Qed.

Lemma execution_loop_pass t c k items :
  xc_closed c = false → passes items →
  fold_m (execution_step t) c (imap (λ i, pair (k + i)%nat) items) = Ok c.
Proof.
  intros Hc Hp. revert k. induction Hp as [|item items Hi Hp IH]; intros k; [done|].
  rewrite imap_cons. cbn [fold_m]. rewrite execution_step_pass by done. cbn.
  erewrite imap_ext; [apply (IH (S k))|]. intros i x _. simpl. f_equal. lia.
Qed.

Lemma push_passes t c items :
  execution_loop t = Ok c → xc_closed c = false → passes items →
  execution_loop (push_items t items) = Ok c.
Proof.
  intros E Hc Hp. rewrite (execution_loop_push t _ items) by done. rewrite E. cbn.
  by apply execution_loop_pass.
Qed.

(** The items before a transition pass, and the transition is one more round. *)
Lemma push_transition t c items transition c' :
  execution_loop t = Ok c → xc_closed c = false → passes items →
  execution_loop (push_items t (items ++ [transition])) = Ok c' →
  ∃ n, execution_step (push_items t (items ++ [transition])) c (n, transition) = Ok c'.
Proof.
  intros E Hc Hp E'. rewrite (execution_loop_push t _ (items ++ [transition])) in E' by done.
  rewrite E in E'. cbn in E'. rewrite imap_app, fold_m_app, execution_loop_pass in E' by done.
  cbn [mbind result_bind] in E'. simpl in E'. eexists.
  apply bind_ok in E' as (c2 & E' & [= <-]). exact E'.
Qed.

Lemma step_started t c n item envelope c' :
  it_kind item = AgentLoopWaitStarted envelope → execution_step t c (n, item) = Ok c' →
  c' = execution_at (ExecWaiting envelope) None.
Proof. unfold execution_step. intros -> E. by inv_ok. Qed.

Lemma step_resumed t c n item resume c' :
  it_kind item = AgentLoopResumeAccepted resume → execution_step t c (n, item) = Ok c' →
  ∃ envelope, xc_execution c = Some (ExecWaiting envelope) ∧
    c' = execution_at (ExecReady envelope resume) (xc_claim_index c).
Proof.
  unfold execution_step. intros -> E. apply bind_ok in E as ([] & _ & E).
  destruct (xc_execution c) as [[envelope| |]|]; try done. exists envelope. inv_ok. by subst.
Qed.

Lemma step_claimed t c n item claim c' :
  it_kind item = AgentLoopReadyClaimed claim → execution_step t c (n, item) = Ok c' →
  ∃ envelope resume, c' = execution_at (ExecExecuting envelope resume claim) (Some n).
Proof.
  unfold execution_step. intros -> E. apply bind_ok in E as ([] & _ & E).
  destruct (xc_execution c) as [[|envelope resume|]|]; try done. exists envelope, resume. inv_ok. by subst.
Qed.

(** * One event *)

Lemma wait_row_step_ok row stored row' :
  wait_row_step row stored = Ok row' →
  ∃ change, projection_change_raw stored row None = Ok change ∧ row' = apply_wait_change row change.
Proof.
  unfold wait_row_step, projection_change, projection_change_inner. intros E. inv_ok. subst. eauto.
Qed.

(** The events that are validated before they are stored; every event of the
    stream is about its Thread. *)
Definition stream_event (thread_id : ThreadId) (stored : StoredEvent) : Prop :=
  se_thread_id stored = thread_id ∧ validate_state_event (se_event stored) = Ok ().

Definition row_tracks (thread_id : ThreadId) (c : ProjectionCursor)
    (row : option AgentLoopWaitProjection) : Prop :=
  match pj_thread c with
  | Some thread => th_id thread = thread_id ∧ row_live thread_id (th_turns thread) row
  | None => row = None
  end.

(** Items that pass leave the row. *)
Lemma tracks_passes thread_id c turn_id items c' row :
  cursor_ok c → row_tracks thread_id c row → passes items →
  append_projected_items c turn_id items = Ok c' → row_tracks thread_id c' row.
Proof.
  intros Hok Hrow Hp E.
  destruct (append_running _ _ _ _ Hok E) as (thread & pre & t & Hc & Ht & Hi & Hr & Hpre & _ & Hrun & Hc').
  unfold row_tracks in *. rewrite Hc in Hrow. destruct Hrow as [Hid Hl]. rewrite Hc'. split; [done|].
  unfold row_live in *. rewrite Hrun in Hl. simpl. rewrite running_turn_app by done.
  change (is_running (push_items t items)) with (is_running t). rewrite Hr.
  destruct Hl as (x & Hx & Hcl & Hrow). exists x. by split_and!; [apply push_passes|..].
Qed.

(** A transition that goes on: its loop is one round further, and the row of
    the new execution is the new row. *)
Lemma tracks_transition thread_id c turn_id items transition c' unknown row row' :
  cursor_ok c → row_tracks thread_id c row → passes items →
  append_projected_items c turn_id (items ++ [transition]) = Ok c' →
  check_execution c' turn_id unknown = Ok () →
  (∀ t x n x', execution_step t x (n, transition) = Ok x' →
     open_wait_row thread_id turn_id (xc_execution x) row →
     xc_closed x' = false ∧ open_wait_row thread_id turn_id (xc_execution x') row') →
  row_tracks thread_id c' row'.
Proof.
  intros Hok Hrow Hp E Hcheck Hstep.
  destruct (append_running _ _ _ _ Hok E) as (thread & pre & t & Hc & Ht & Hi & Hr & Hpre & Hids & Hrun & Hc').
  unfold row_tracks in *. rewrite Hc in Hrow. destruct Hrow as [Hid Hl]. rewrite Hc'. split; [done|].
  unfold row_live in *. rewrite Hrun in Hl. simpl. rewrite running_turn_app by done.
  change (is_running (push_items t _)) with (is_running t). rewrite Hr.
  destruct Hl as (x & Hx & Hcl & Hrow). rewrite Hi in Hrow. unfold check_execution in Hcheck.
  rewrite Hc' in Hcheck. simpl in Hcheck.
  rewrite (find_turn_last _ pre (push_items t (items ++ [transition]))) in Hcheck by done.
  simpl in Hcheck. apply bind_ok in Hcheck as (e & He & _). apply projection_loop in He as (x' & Hx' & _).
  destruct (push_transition _ _ _ _ _ Hx Hcl Hp Hx') as [n Hn].
  destruct (Hstep _ _ _ _ Hn Hrow) as [Hcl' Hrow']. exists x'. split_and!; [done..|]. simpl. by rewrite Hi.
Qed.

(** A Turn that ends leaves none running. *)
Lemma tracks_ended thread_id c c' turn_id items unknown open status row :
  cursor_ok c → row_tracks thread_id c row → status ≠ TurnIsRunning →
  (c1 ← append_projected_items c turn_id items; end_with_wait c1 turn_id unknown open status) = Ok c' →
  row_tracks thread_id c' None.
Proof.
  intros Hok Hrow Hs E. apply bind_ok in E as (c1 & E & He).
  destruct (append_running _ _ _ _ Hok E) as (thread & pre & t & Hc & Ht & Hi & Hr & Hpre & Hids & Hrun & Hc1).
  unfold row_tracks in *. rewrite Hc in Hrow. destruct Hrow as [Hid _].
  destruct (end_with_wait_ok _ _ _ _ _ _ _ pre (push_items t items) [] He Hc1 eq_refl Hi Hids) as [_ ->].
  simpl. split; [done|]. unfold row_live. rewrite running_turn_app by done.
  unfold is_running. simpl. by rewrite bool_decide_false.
Qed.

(** An event that settles the running Turn without its wait found no open
    execution, so no row. *)
Lemma tracks_settled thread_id c thread turn_id f turns row unknown :
  cursor_ok c → row_tracks thread_id c row → pj_thread c = Some thread →
  update_turn turn_id unknown f (th_turns thread) = Ok turns →
  (∀ t t', f t = Ok t' → is_running t = true ∧ is_running t' = false ∧
     ∃ e, agent_loop_execution_projection t = Ok e ∧ is_open_wait e = false) →
  row_live thread_id turns row.
Proof.
  intros [_ Hok] Hrow Hc E Hf. rewrite Hc in Hok.
  apply update_turn_ok in E as (pre & t & t' & post & Ht & -> & Hi & Hu & _).
  destruct (Hf _ _ Hu) as (Hr & Hr' & e & He & Ho).
  destruct (running_turn_last _ _ _ _ Hok Ht Hr) as [-> Hpre].
  unfold row_tracks in Hrow. rewrite Hc in Hrow. destruct Hrow as [_ Hl]. unfold row_live in *.
  rewrite Ht, running_turn_app in Hl by done. rewrite Hr in Hl. rewrite running_turn_app by done. rewrite Hr'.
  destruct Hl as (x & Hx & _ & Hrow). apply projection_loop in He as (x' & Hx' & He).
  rewrite Hx in Hx'. injection Hx' as <-. rewrite He in Hrow. by destruct e as [[]|].
Qed.

Lemma batch_passes calls : validate_tool_call_batch_items calls = Ok () → passes calls.
Proof.
  unfold validate_tool_call_batch_items. intros E.
  apply bind_ok in E as ([] & _ & E). apply bind_ok in E as (st' & E & _). revert E.
  generalize (len calls), (@None ToolCallBatchId, ∅ : gset str). intros size st E. revert E.
  assert (∀ k, fold_m (batch_item_step size) st (imap (λ i, pair (k + i)%nat) calls) = Ok st' →
    passes calls) as Hk; [|by apply (Hk 0%nat)].
  revert st. induction calls as [|call calls IH]; intros st k E; [constructor|].
  rewrite imap_cons in E. cbn [fold_m] in E. apply bind_ok in E as (st1 & E1 & E2). constructor.
  - unfold batch_item_step in E1. destruct st as [b ids]. inv_ok.
    by destruct (it_kind call).
  - apply (IH st1 (S k)). erewrite imap_ext; [exact E2|]. intros i x _. simpl. f_equal. lia.
Qed.

Lemma requested_passes item envelope :
  approval_requested_matches_envelope item envelope = true → passes [item].
Proof.
  unfold approval_requested_matches_envelope. intros E. repeat constructor.
  destruct (we_wait_kind envelope). by destruct (it_kind item).
Qed.

Lemma decision_passes item settlement : decision_matches item settlement = true → passes [item].
Proof. unfold decision_matches. intros E. repeat constructor. by destruct (it_kind item). Qed.

Lemma wait_started_tracks thread_id c turn_id first transition c' row row' stored envelope :
  cursor_ok c → row_tracks thread_id c row → passes [first] →
  se_thread_id stored = thread_id → se_event stored = EvWaitStarted turn_id first transition →
  it_kind transition = AgentLoopWaitStarted envelope → wait_row_step row stored = Ok row' →
  append_projected_items c turn_id [first; transition] = Ok c' →
  check_execution c' turn_id (ste "wait references unknown Turn" []) = Ok () →
  row_tracks thread_id c' row'.
Proof.
  intros Hok Hrow Hp Hid Hev Hk Hw E Hcheck.
  apply wait_row_step_ok in Hw as (change & Hch & ->).
  apply (tracks_transition _ c turn_id [first] transition c' _ row _ Hok Hrow Hp E Hcheck).
  intros t x n x' Hstep _. rewrite (step_started _ _ _ _ _ _ Hk Hstep). split; [done|]. simpl.
  unfold projection_change_raw in Hch. rewrite Hev, Hk in Hch. unfold wait_request.
  destruct (we_wait_kind envelope) as [request digest]. inv_ok. subst. by eexists.
Qed.

Lemma resume_tracks thread_id c turn_id first transition c' row row' stored resume :
  cursor_ok c → row_tracks thread_id c row → passes [first] →
  se_event stored = EvAcceptResume turn_id first transition →
  it_kind transition = AgentLoopResumeAccepted resume → wait_row_step row stored = Ok row' →
  append_projected_items c turn_id [first; transition] = Ok c' →
  check_execution c' turn_id (ste "resume references unknown Turn" []) = Ok () →
  row_tracks thread_id c' row'.
Proof.
  intros Hok Hrow Hp Hev Hk Hw E Hcheck.
  apply wait_row_step_ok in Hw as (change & Hch & ->).
  apply (tracks_transition _ c turn_id [first] transition c' _ row _ Hok Hrow Hp E Hcheck).
  intros t x n x' Hstep Hx. destruct (step_resumed _ _ _ _ _ _ Hk Hstep) as (envelope & He & ->).
  rewrite He in Hx. destruct Hx as (started & Hx). split; [done|]. simpl.
  unfold projection_change_raw in Hch. rewrite Hev, Hk, Hx in Hch.
  apply bind_ok in Hch as (previous & Hprev & Hch).
  assert (row = Some previous) as Hr by (unfold require_current in Hprev; inv_ok; by subst).
  rewrite Hx in Hr. injection Hr as <-. exists started, (se_event_id stored).
  destruct (as_decision (re_settlement resume)) eqn:Hd; inv_ok; by subst.
Qed.

Lemma claim_tracks thread_id c turn_id transition c' row row' stored claim :
  cursor_ok c → row_tracks thread_id c row →
  se_event stored = EvClaimReady turn_id transition →
  it_kind transition = AgentLoopReadyClaimed claim → wait_row_step row stored = Ok row' →
  append_projected_items c turn_id [transition] = Ok c' →
  check_execution c' turn_id (ste "claim references unknown Turn" []) = Ok () →
  row_tracks thread_id c' row'.
Proof.
  intros Hok Hrow Hev Hk Hw E Hcheck.
  apply wait_row_step_ok in Hw as (change & Hch & ->).
  apply (tracks_transition _ c turn_id [] transition c' _ row _ Hok Hrow (Forall_nil_2 _) E Hcheck).
  intros t x n x' Hstep Hx. destruct (step_claimed _ _ _ _ _ _ Hk Hstep) as (envelope & resume & ->).
  split; [done|]. simpl. unfold projection_change_raw in Hch. rewrite Hev, Hk in Hch. inv_ok. by subst.
Qed.

(** Events that leave the Turns leave the row. *)
Lemma tracks_same thread_id c c' thread thread' row :
  row_tracks thread_id c row → pj_thread c = Some thread → pj_thread c' = Some thread' →
  th_id thread' = th_id thread → th_turns thread' = th_turns thread → row_tracks thread_id c' row.
Proof. unfold row_tracks. intros Hrow Hc Hc' Hi Ht. rewrite Hc in Hrow. by rewrite Hc', Hi, Ht. Qed.

Lemma quiet_event stored row row' :
  match se_event stored with
  | EvWaitStarted _ _ _ | EvAcceptResume _ _ _ | EvClaimReady _ _ | EvWaitClosed _ _ _ _
  | EvDenyWait _ _ _ => False
  | _ => True
  end →
  wait_row_step row stored = Ok row' → row' = row.
Proof.
  intros He E. apply wait_row_step_ok in E as (change & Hch & ->).
  unfold projection_change_raw in Hch. destruct (se_event stored); try done; inv_ok; by subst.
Qed.

Lemma ended_row stored row row' :
  match se_event stored with EvWaitClosed _ _ _ _ | EvDenyWait _ _ _ => True | _ => False end →
  wait_row_step row stored = Ok row' → row' = None.
Proof.
  intros He E. apply wait_row_step_ok in E as (change & Hch & ->).
  unfold projection_change_raw in Hch. destruct (se_event stored); try done;
    destruct (it_kind _); inv_ok; by subst.
Qed.

Lemma started_tracks thread_id c turn thread row ids :
  th_id thread = thread_id → row_tracks thread_id c row → pj_thread c = Some thread →
  existsb is_running (th_turns thread) = false → is_running turn = true → tn_items turn = [] →
  row_tracks thread_id {| pj_thread := Some (set_turns thread (th_turns thread ++ [turn]));
    pj_turn_ids := ids; pj_item_ids := pj_item_ids c; pj_checkpoint_ids := pj_checkpoint_ids c |} row.
Proof.
  intros Hid Hrow Hc Hex Hr Hit.
  assert (Forall (λ u, is_running u = false) (th_turns thread)) as Hpre.
  { apply Forall_forall. intros u Hu. destruct (is_running u) eqn:Hru; [|done].
    enough (existsb is_running (th_turns thread) = true) as Hx by congruence.
    apply existsb_exists. exists u. split; [by apply list_elem_of_In|done]. }
  unfold row_tracks in *. rewrite Hc in Hrow. destruct Hrow as [_ Hl]. simpl. split; [done|].
  unfold row_live in *. rewrite running_turn_app, Hr by done.
  assert (running_turn (th_turns thread) = None) as Hn.
  { unfold running_turn. clear -Hpre. induction Hpre as [|u l Hu Hl' IH]; simpl; [done|]. by rewrite Hu. }
  rewrite Hn in Hl. subst. exists execution_start. split_and!; [|done|done].
  unfold execution_loop. by rewrite Hit.
Qed.

Lemma index_step thread_id c stored c' row row' :
  cursor_ok c → row_tracks thread_id c row → stream_event thread_id stored →
  apply_event c stored = Ok c' → wait_row_step row stored = Ok row' → row_tracks thread_id c' row'.
Proof.
  intros Hok Hrow [Hid Hv] E Hw. unfold apply_event, projection_thread in E.
  apply bind_ok in E as ([] & Hschema & E).
  destruct (se_event stored) as [created tenant|name|lineage|origin|turn_id|turn_id item|turn_id calls
    |turn_id i1 i2|turn_id i1 i2|turn_id i2|turn_id i1 i2 status|turn_id i1 i2|turn_id receipt|turn_id status
    |checkpoint] eqn:Ee.
  all: try (pose proof (quiet_event stored row row' ltac:(by rewrite Ee) Hw) as ->).
  - inv_ok. subst. unfold row_tracks in *. destruct (pj_thread c); [done|]. by subst.
  - inv_ok. subst. by eapply tracks_same.
  - inv_ok. subst. by eapply tracks_same.
  - inv_ok. subst. by eapply tracks_same.
  - inv_ok. subst. eapply started_tracks; try done.
    unfold row_tracks in Hrow.
    match goal with Hx : pj_thread c = Some _ |- _ => rewrite Hx in Hrow end. apply Hrow.
  - eapply tracks_passes; [done..| |done]. unfold validate_stored_schema in Hschema.
    rewrite Ee in Hschema. inv_ok. simpl in Hschema. inv_ok. constructor; [done|constructor].
  - eapply tracks_passes; [done..| |done]. simpl in Hv. inv_ok. by apply batch_passes.
  - simpl in Hv. apply bind_ok in E as (c1 & Ha & E). apply bind_ok in E as ([] & Hcheck & [= <-]).
    destruct (it_kind i2) as [] eqn:Hk; inv_ok; try done. bool_hyps.
    eapply wait_started_tracks; try done. by eapply requested_passes.
  - simpl in Hv. apply bind_ok in E as (c1 & Ha & E). apply bind_ok in E as ([] & Hcheck & [= <-]).
    destruct (it_kind i2) as [] eqn:Hk; inv_ok; try done. bool_hyps.
    eapply resume_tracks; try done. by eapply decision_passes.
  - simpl in Hv. apply bind_ok in E as (c1 & Ha & E). apply bind_ok in E as ([] & Hcheck & [= <-]).
    destruct (it_kind i2) as [] eqn:Hk; inv_ok; try done. by eapply claim_tracks.
  - rewrite (ended_row stored row row' ltac:(by rewrite Ee) Hw). eapply tracks_ended; [done..| |done].
    simpl in Hv. destruct (it_kind i2); inv_ok; try done.
    intros ->. match goal with Hx : validate_wait_close_status _ _ = Ok _ |- _ => done end.
  - rewrite (ended_row stored row row' ltac:(by rewrite Ee) Hw). eapply (tracks_ended _ c c'); [exact Hok|exact Hrow| |exact E]. done.
  - inv_ok. subst. match goal with Hx : pj_thread c = Some ?th |- _ =>
      pose proof Hrow as Hrow2; unfold row_tracks in Hrow; rewrite Hx in Hrow; split; [apply Hrow|];
      eapply (tracks_settled _ c th); [done..|] end.
    intros t t' Hf. cbv beta in Hf. inv_ok. bool_hyps. subst. split_and!; [done|done|eauto].
  - inv_ok. subst. match goal with Hx : pj_thread c = Some ?th |- _ =>
      pose proof Hrow as Hrow2; unfold row_tracks in Hrow; rewrite Hx in Hrow; split; [apply Hrow|];
      eapply (tracks_settled _ c th); [done..|] end.
    intros t t' Hf. cbv beta in Hf. inv_ok. bool_hyps. subst. split_and!; [done| |eauto].
    unfold is_running. simpl. by rewrite bool_decide_false.
  - inv_ok. subst. by eapply tracks_same.
Qed.

Lemma wait_row_tracks_from thread_id events c c' row row' :
  cursor_ok c → row_tracks thread_id c row → Forall (stream_event thread_id) events →
  fold_m apply_event c events = Ok c' → fold_m wait_row_step row events = Ok row' →
  row_tracks thread_id c' row'.
Proof.
  intros Hok Hrow Hv. revert c row Hok Hrow.
  induction Hv as [|stored events Hs Hv IH]; intros c row Hok Hrow E Hr.
  { injection E as <-. by injection Hr as <-. }
  cbn [fold_m] in E, Hr. apply bind_ok in E as (c1 & E1 & E). apply bind_ok in Hr as (r1 & Hr1 & Hr).
  apply (IH c1 r1); [|by eapply index_step|done|done].
  eapply effect_cursor_ok; [done|]. by apply apply_event_effect.
Qed.

Lemma wait_row_exact thread_id events thread row :
  Forall (stream_event thread_id) events → project_events events = Ok (Some thread) →
  wait_row events = Ok row → th_id thread = thread_id ∧ row_agrees thread_id (th_turns thread) row.
Proof.
  intros Hv E Hr. apply apply_events_ok in E as (c & Hc & Ht & _).
  pose proof (wait_row_tracks_from _ _ _ _ None _ (projection_start_ok None I) eq_refl Hv Hc Hr) as Hrow. unfold row_tracks in Hrow. rewrite Ht in Hrow.
  destruct Hrow as [Hi Hl]. split; [done|]. by apply row_live_agrees.
Qed.
End index.
