(* ===== verification/StateSafety.v ===== *)
(** What a State journal promises, src/src/state/mod.rs: replaying it may be cut
    anywhere, what it has recorded stays, every claim of an Agent Loop wait is
    justified, and the live-wait row of the due index is the wait it projects
    to. *)

From Stdlib Require Import ZArith Lia.
From stdpp Require Import base tactics list gmap numbers strings option.
From stdpp Require Import list.
From S2P Require Import Prelude Kernel Digest Json Approval ApprovalHandler Journal WaitDue Completion StateWait StateEvent StateProjection StateReplay StateLoop StateIndex.

Section safety.
Context `{!CompletionCodec, !WaitCodec, !StateCodec, !Sha256, !Sha256Bytes}.

(** C36: a replay of the journal may be cut anywhere: the rest of the events,
    applied to what the first ones project to, gives exactly what all of them
    project to, errors included. So a projection that is kept with its place in
    the journal (a snapshot) and the tail after it are as good as the journal,
    although [apply_events] sees only the identities of the kept Thread and
    checks the whole Thread once more. *)
Theorem journal_replay_incremental events tail thread :
  project_events events = Ok thread →
  project_events (events ++ tail) = apply_events thread tail.
Proof.
  intros E. apply apply_events_cut; [done|exact E].
Qed.

(** C35: what a journal has recorded stays. When the events so far project to a
    Thread and more events are appended, and the whole still projects, then it
    projects to the same Thread later on: its identity, tenant and creation
    time are the same, its Turns come first and in the same order, a settled
    Turn is exactly as it was (its items, its status and its receipt), a running
    Turn has only gained items at its end, Checkpoints are only added, and
    provenance is fixed from the first Turn on. In both, Turn, Item and
    Checkpoint identities are unique and only the last Turn may be running. *)
Theorem journal_immutable events tail thread later :
  project_events events = Ok (Some thread) → project_events (events ++ tail) = Ok later →
  ∃ thread', later = Some thread' ∧ thread_ok thread ∧ thread_ok thread' ∧
    thread_extends thread thread'.
Proof.
  intros E E'. destruct (replay_extends events tail thread later E E') as (thread' & -> & Hx).
  exists thread'. split_and!; [done|by eapply project_events_ok|by eapply project_events_ok|done].
Qed.

(** C34: in a Thread a journal projects to, every claim of an Agent Loop wait is
    justified: the wait started at revision one, somebody other than its
    requester approved exactly the request it waits for, nothing happened to
    the wait between its start, the resumption and the claim, and the claim
    names that wait and that resumption, at the next revisions. A claim is
    followed by no other transition before a result of its Tool call, so the
    effect it authorizes is not run twice and not forgotten, and after a wait was
    closed or denied the Turn records nothing more. *)
Theorem agent_loop_claims_safe events thread turn :
  project_events events = Ok (Some thread) → turn ∈ th_turns thread →
  claims_ok (tn_items turn).
Proof.
  intros E Ht. destruct (projected_execution events thread turn E Ht) as [execution He].
  by destruct (execution_claims turn execution He) as (c & _ & _ & Hok).
Qed.

(** C37: the row that the due index keeps for a Thread is the wait its journal
    projects to. When the events of the stream, each validated as the store
    does, both project to a Thread and pass the reducer of the index, then the
    row carries the wait, revision, due time, approval and envelope of the open
    execution of the running Turn, in the phase its resumption decides; and
    there is no row exactly when no wait is open, that is, when no Turn runs, or
    it does not wait, or its claim executes. *)
Theorem wait_row_agrees thread_id events thread row :
  Forall (stream_event thread_id) events → project_events events = Ok (Some thread) →
  wait_row events = Ok row → th_id thread = thread_id ∧ row_agrees thread_id (th_turns thread) row.
Proof. apply wait_row_exact. Qed.
End safety.
