(* ===== verification/StateStore.v ===== *)
(** The in-memory Event Store, src/src/state/mod.rs [MemoryEventStore]: one
    journal for all Threads with its indexes, the atomic append, the atomic
    creation of a derived stream, bounded pages and the due scan. *)

From Stdlib Require Import ZArith Lia.
From stdpp Require Import sorting base tactics list gmap numbers strings option.
From stdpp Require Import list.
From S2P Require Import Prelude Kernel Ordering Digest Json Approval ApprovalHandler Journal WaitDue Completion StateWait StateEvent StateProjection StateReplay StateLoop StateIndex.

(** * Data *)

#[global] Instance due_key_countable : Countable AgentLoopDueIndexKey :=
  inj_countable'
    (λ k, (dk_tenant_id k, dk_due_at_ms k, dk_thread_id k, dk_turn_id k, dk_wait_id k))
    (λ t, {| dk_tenant_id := t.1.1.1.1; dk_due_at_ms := t.1.1.1.2; dk_thread_id := t.1.1.2;
             dk_turn_id := t.1.2; dk_wait_id := t.2 |})
    (λ k, match k with Build_AgentLoopDueIndexKey _ _ _ _ _ => eq_refl end).

(** The fields of [MemoryStoreData] but the snapshots, a disposable cache. *)
Record MemoryStoreData := {
  ms_events : list StoredEvent;
  ms_event_positions : gmap str nat;
  ms_stream_versions : gmap str Z;
  ms_stream_recovery_bytes : gmap str Z;
  ms_stream_tenants : gmap str (option str);
  ms_stream_names : gmap str str;
  ms_stream_lineages : gmap str ThreadLineage;
  ms_agent_loop_waits : gmap str AgentLoopWaitProjection;
  ms_agent_loop_due : gset AgentLoopDueIndexKey;
}.

Definition MemoryEventStore_new : MemoryStoreData := {|
  ms_events := []; ms_event_positions := ∅; ms_stream_versions := ∅;
  ms_stream_recovery_bytes := ∅; ms_stream_tenants := ∅; ms_stream_names := ∅;
  ms_stream_lineages := ∅; ms_agent_loop_waits := ∅; ms_agent_loop_due := ∅;
|}.

Record ThreadSummary := {
  ts_thread_id : ThreadId;
  ts_tenant_id : option str;
  ts_name : option str;
  ts_lineage : option ThreadLineage;
  ts_last_sequence : Z;
  ts_updated_at_ms : Z;
  ts_stream_version : Z;
}.

(** [BTreeSet::remove] and [insert] of the key of a row, if it has one. *)
Definition remove_key (key : option AgentLoopDueIndexKey) (due : gset AgentLoopDueIndexKey)
    : gset AgentLoopDueIndexKey :=
  match key with Some key => due ∖ {[key]} | None => due end.
Definition insert_key (key : option AgentLoopDueIndexKey) (due : gset AgentLoopDueIndexKey)
    : gset AgentLoopDueIndexKey :=
  match key with Some key => {[key]} ∪ due | None => due end.

(** [apply_memory_wait_projection]: the rows and the due index after a change. *)
Definition apply_memory_wait_projection
    (waits : gmap str AgentLoopWaitProjection) (due : gset AgentLoopDueIndexKey)
    (change : AgentLoopWaitProjectionChange)
    : gmap str AgentLoopWaitProjection * gset AgentLoopDueIndexKey :=
  match change with
  | ProjectionUnchanged => (waits, due)
  | ProjectionUpsert next =>
      let due := remove_key (previous ← waits !! wp_thread_id next; due_index_key previous) due in
      (<[wp_thread_id next := next]> waits, insert_key (due_index_key next) due)
  | ProjectionDelete previous =>
      (delete (wp_thread_id previous) waits, remove_key (due_index_key previous) due)
  end.

(** [positions.insert(event.event_id, first + offset)] for each event. *)
Fixpoint insert_positions (first : nat) (events : list StoredEvent) (positions : gmap str nat)
    : gmap str nat :=
  match events with
  | [] => positions
  | event :: events => insert_positions (S first) events (<[se_event_id event := first]> positions)
  end.

Section store.
Context `{!CompletionCodec, !WaitCodec, !StateCodec, !Sha256, !Sha256Bytes}.

(** * Append *)

Definition name_change (event : StateEvent) (thread_id : ThreadId) (names : gmap str str)
    : gmap str str :=
  match event with
  | EvThreadNamed (Some name) => <[thread_id := name]> names
  | EvThreadNamed None => delete thread_id names
  | _ => names
  end.
Definition lineage_change (event : StateEvent) (thread_id : ThreadId)
    (lineages : gmap str ThreadLineage) : gmap str ThreadLineage :=
  match event with EvThreadForked lineage => <[thread_id := lineage]> lineages | _ => lineages end.
Definition tenant_change (event : StateEvent) (thread_id : ThreadId)
    (tenants : gmap str (option str)) : gmap str (option str) :=
  match event with EvThreadCreated _ tenant => <[thread_id := tenant]> tenants | _ => tenants end.

Definition append_classified (pending : PendingEvent) : M MemoryStoreData EventAppendResult :=
  encoded ← lift (validate_pending_event pending);
  data ← get;
  match ms_event_positions data !! pe_event_id pending with
  | Some position =>
      existing ← lift (ok_or (ms_events data !! position)
                         (ste "Memory Event Store identity index is corrupt" []));
      stored ← lift (matching_existing existing pending);
      mret {| ear_stored := stored; ear_disposition := DispositionDuplicate |}
  | None =>
      let thread_id := pe_thread_id pending in
      let actual_stream_version := default 0%Z (ms_stream_versions data !! thread_id) in
      _ ← lift (validate_stream_version actual_stream_version pending);
      let actual_recovery_bytes := default 0%Z (ms_stream_recovery_bytes data !! thread_id) in
      _ ← lift (validate_stream_recovery_bytes actual_recovery_bytes pending);
      _ ← lift (validate_thread_existence (0 <? actual_stream_version)%Z pending);
      next_stream_version ← lift (ok_or (checked_add u64_max actual_stream_version 1)
                                    (ste "stream version overflow" []));
      next_recovery_bytes ←
        lift (ok_or (checked_add u64_max actual_recovery_bytes (en_recovery_bytes encoded))
                (ste "stream recovery charge overflow" []));
      next_sequence ← lift (ok_or (checked_add u64_max (len (ms_events data)) 1)
                              (ste "global sequence overflow" []));
      let stored := {|
        se_schema_version := STATE_EVENT_SCHEMA_VERSION; se_sequence := next_sequence;
        se_event_id := pe_event_id pending; se_thread_id := thread_id;
        se_recorded_at_ms := pe_recorded_at_ms pending; se_event := pe_event pending |} in
      wait_change ← lift (projection_change stored (ms_agent_loop_waits data !! thread_id));
      let rows := apply_memory_wait_projection (ms_agent_loop_waits data) (ms_agent_loop_due data)
                    wait_change in
      _ ← put {|
        ms_events := ms_events data ++ [stored];
        ms_event_positions :=
          <[pe_event_id pending := length (ms_events data)]> (ms_event_positions data);
        ms_stream_versions := <[thread_id := next_stream_version]> (ms_stream_versions data);
        ms_stream_recovery_bytes :=
          <[thread_id := next_recovery_bytes]> (ms_stream_recovery_bytes data);
        ms_stream_tenants := tenant_change (pe_event pending) thread_id (ms_stream_tenants data);
        ms_stream_names := name_change (pe_event pending) thread_id (ms_stream_names data);
        ms_stream_lineages := lineage_change (pe_event pending) thread_id (ms_stream_lineages data);
        ms_agent_loop_waits := rows.1;
        ms_agent_loop_due := rows.2 |};
      mret {| ear_stored := stored; ear_disposition := DispositionApplied |}
  end.

Definition mem_append (pending : PendingEvent) : M MemoryStoreData StoredEvent :=
  result ← append_classified pending;
  mret (ear_stored result).

(** * Atomic creation of a derived stream *)

(** The variables of the loop of [validate_new_stream]. *)
Record NewStreamCursor := {
  nc_event_ids : gset str;
  nc_encoded : list EncodedStateEvent;
  nc_recovery_bytes : Z;
  nc_synthetic : list StoredEvent;
}.

Definition stored_new (thread_id : ThreadId) (sequence : Z) (new : NewStreamEvent) : StoredEvent := {|
  se_schema_version := ne_schema_version new; se_sequence := sequence;
  se_event_id := ne_event_id new; se_thread_id := thread_id;
  se_recorded_at_ms := ne_recorded_at_ms new; se_event := ne_event new |}.

Definition is_checkpoint (event : StateEvent) : bool :=
  match event with EvCheckpointCreated _ => true | _ => false end.
Definition is_provenance (event : StateEvent) : bool :=
  match event with EvThreadForked _ | EvThreadImported _ => true | _ => false end.
Definition event_at (p : StateEvent → bool) (events : list NewStreamEvent) (index : nat) : bool :=
  match events !! index with Some new => p (ne_event new) | None => false end.

Definition new_stream_step (thread_id : ThreadId) (c : NewStreamCursor)
    (entry : nat * NewStreamEvent) : result NewStreamCursor :=
  let '(index, new) := entry in
  _ ← validate_state_id "event" (ne_event_id new);
  _ ← reject_if (bool_decide (ne_event_id new ∈ nc_event_ids c))
        (ste "atomic stream contains duplicate Event identities" []);
  _ ← reject_if (negb (in_range 1 STATE_EVENT_SCHEMA_VERSION (ne_schema_version new)))
        (ste "unsupported State event schema {}" [ANum (ne_schema_version new)]);
  _ ← reject_if (is_checkpoint (ne_event new))
        (ste "materialized history cannot copy recovery Checkpoints" []);
  _ ← validate_state_event (ne_event new);
  _ ← validate_state_event_schema (ne_event new) (ne_schema_version new);
  event ← encode_state_event (ne_event new);
  recovery_bytes ← ok_or (checked_add u64_max (nc_recovery_bytes c) (en_recovery_bytes event))
    (ste "stream recovery charge overflow" []);
  Ok {| nc_event_ids := {[ne_event_id new]} ∪ nc_event_ids c;
        nc_encoded := nc_encoded c ++ [event];
        nc_recovery_bytes := recovery_bytes;
        nc_synthetic := nc_synthetic c ++ [stored_new thread_id (Z.of_nat index + 1) new] |}.

Definition GENERAL_EVENT_LIMIT : Z :=
  saturating_sub STATE_THREAD_EVENT_LIMIT STATE_TERMINAL_EVENT_RESERVE.
Definition GENERAL_RECOVERY_LIMIT : Z :=
  saturating_sub STATE_THREAD_RECOVERY_BYTE_LIMIT STATE_TERMINAL_RECOVERY_BYTE_RESERVE.

Definition validate_new_stream (thread_id : ThreadId) (events : list NewStreamEvent)
    : result (list EncodedStateEvent) :=
  _ ← validate_state_id "thread" thread_id;
  _ ← reject_if ((len events <? 2)%Z || negb (event_at is_creation events 0)
                 || negb (event_at is_provenance events 1))
        (ste "atomic materialized stream must begin with creation then provenance" []);
  _ ← reject_if (GENERAL_EVENT_LIMIT <? len events)%Z
        (ste "materialized Thread exceeds its {}-event general boundary" [ANum GENERAL_EVENT_LIMIT]);
  c ← fold_m (new_stream_step thread_id)
        {| nc_event_ids := ∅; nc_encoded := []; nc_recovery_bytes := 0; nc_synthetic := [] |}
        (imap pair events);
  _ ← reject_if (GENERAL_RECOVERY_LIMIT <? nc_recovery_bytes c)%Z
        (ste "materialized Thread exceeds its {}-byte general recovery boundary"
           [ANum GENERAL_RECOVERY_LIMIT]);
  thread ← project_events (nc_synthetic c);
  projected ← ok_or thread (ste "atomic stream has no Thread projection" []);
  _ ← reject_if (bool_decide (th_id projected ≠ thread_id)
                 || eqb (present (th_lineage projected)) (present (th_import_origin projected)))
        (ste "atomic materialized stream projection is inconsistent" []);
  _ ← reject_if (existsb is_running (th_turns projected))
        (ste "atomic materialized stream cannot end with a running Turn" []);
  Ok (nc_encoded c).

(** The last name given, the first lineage, and the tenant of the creation. *)
Definition final_stream_name (events : list StoredEvent) : option str :=
  foldl (λ name stored, match se_event stored with EvThreadNamed given => given | _ => name end)
    None events.
Definition final_stream_lineage (events : list StoredEvent) : option ThreadLineage :=
  head (omap (λ stored, match se_event stored with
                        | EvThreadForked lineage => Some lineage | _ => None end) events).
Definition final_stream_tenant (events : list StoredEvent) : result (option str) :=
  match events with
  | {| se_event := EvThreadCreated _ tenant_id |} :: _ => Ok tenant_id
  | _ => Err (ste "Thread stream does not begin with creation" [])
  end.

(** One event of the stored stream: the sequence before it and the events. *)
Definition store_new_step (thread_id : ThreadId) (c : Z * list StoredEvent) (new : NewStreamEvent)
    : result (Z * list StoredEvent) :=
  sequence ← ok_or (checked_add u64_max c.1 1) (ste "global sequence overflow" []);
  Ok (sequence, c.2 ++ [stored_new thread_id sequence new]).

Definition sum_recovery (encoded : list EncodedStateEvent) : result Z :=
  fold_m (λ total event, ok_or (checked_add u64_max total (en_recovery_bytes event))
                           (ste "stream recovery charge overflow" [])) 0%Z encoded.

Definition insert_some {V} (key : str) (value : option V) (m : gmap str V) : gmap str V :=
  match value with Some value => <[key := value]> m | None => m end.

Definition create_stream_atomic (thread_id : ThreadId) (events : list NewStreamEvent)
    : M MemoryStoreData (list StoredEvent) :=
  encoded ← lift (validate_new_stream thread_id events);
  data ← get;
  let actual := default 0%Z (ms_stream_versions data !! thread_id) in
  _ ← lift (reject_if (negb (actual =? 0)%Z) (StateConflict thread_id 0 actual));
  _ ← lift (reject_if (existsb (λ new, present (ms_event_positions data !! ne_event_id new)) events)
              (ste "atomic stream contains an Event identity already used by another stream" []));
  '(_, stored) ← lift (fold_m (store_new_step thread_id) (len (ms_events data), []) events);
  recovery_bytes ← lift (sum_recovery encoded);
  tenant_id ← lift (final_stream_tenant stored);
  _ ← lift (reject_if (present (ms_agent_loop_waits data !! thread_id))
              (ste "atomic stream target has an orphaned live-wait projection" []));
  _ ← put {|
    ms_events := ms_events data ++ stored;
    ms_event_positions :=
      insert_positions (length (ms_events data)) stored (ms_event_positions data);
    ms_stream_versions := <[thread_id := len stored]> (ms_stream_versions data);
    ms_stream_recovery_bytes := <[thread_id := recovery_bytes]> (ms_stream_recovery_bytes data);
    ms_stream_tenants := <[thread_id := tenant_id]> (ms_stream_tenants data);
    ms_stream_names := insert_some thread_id (final_stream_name stored) (ms_stream_names data);
    ms_stream_lineages :=
      insert_some thread_id (final_stream_lineage stored) (ms_stream_lineages data);
    ms_agent_loop_waits := ms_agent_loop_waits data;
    ms_agent_loop_due := ms_agent_loop_due data |};
  mret stored.

(** * Reads *)

Definition of_thread (thread_id : ThreadId) (event : StoredEvent) : bool :=
  bool_decide (se_thread_id event = thread_id).

Fixpoint event_page_loop (max_recovery_bytes recovery_bytes : Z) (page events : list StoredEvent)
    : result (list StoredEvent) :=
  match events with
  | [] => Ok page
  | event :: events =>
      event_bytes ← stored_event_recovery_bytes event;
      next ← ok_or (checked_add u64_max recovery_bytes event_bytes)
        (ste "event page charge overflow" []);
      if (max_recovery_bytes <? next)%Z then
        if bool_decide (page = []) then
          Err (ste "next State event exceeds the requested page byte budget" [])
        else Ok page
      else event_page_loop max_recovery_bytes next (page ++ [event]) events
  end.

Definition events_page (data : MemoryStoreData) (thread_id : ThreadId)
    (after_sequence limit max_recovery_bytes : Z) : result (list StoredEvent) :=
  _ ← validate_event_page_request limit max_recovery_bytes;
  event_page_loop max_recovery_bytes 0 []
    (take (Z.to_nat limit)
       (List.filter (λ event, of_thread thread_id event && (after_sequence <? se_sequence event)%Z)
          (ms_events data))).

(** The loop of [thread_summaries_page] over the events, latest first. *)
Fixpoint summaries_loop (data : MemoryStoreData) (tenant_id : option str)
    (before_sequence : option Z) (limit : Z) (seen : gset str) (page : list ThreadSummary)
    (events : list StoredEvent) : result (list ThreadSummary) :=
  match events with
  | [] => Ok page
  | event :: events =>
      let thread_id := se_thread_id event in
      let seen' := {[thread_id]} ∪ seen in
      if bool_decide (thread_id ∈ seen)
         || match before_sequence with Some before => (before <=? se_sequence event)%Z | None => false end
         || bool_decide (ms_stream_tenants data !! thread_id ≠ Some tenant_id)
      then summaries_loop data tenant_id before_sequence limit seen' page events
      else
        stream_version ← ok_or (ms_stream_versions data !! thread_id)
          (ste "Thread stream metadata is missing" []);
        let page := page ++ [{|
          ts_thread_id := thread_id; ts_tenant_id := tenant_id;
          ts_name := ms_stream_names data !! thread_id;
          ts_lineage := ms_stream_lineages data !! thread_id;
          ts_last_sequence := se_sequence event; ts_updated_at_ms := se_recorded_at_ms event;
          ts_stream_version := stream_version |}] in
        if (len page =? limit)%Z then Ok page
        else summaries_loop data tenant_id before_sequence limit seen' page events
  end.

Definition thread_summaries_page (data : MemoryStoreData) (tenant_id : option str)
    (before_sequence : option Z) (limit : Z) : result (list ThreadSummary) :=
  _ ← validate_thread_summary_page_request before_sequence limit;
  summaries_loop data tenant_id before_sequence limit ∅ [] (rev (ms_events data)).

Definition thread_accessible (data : MemoryStoreData) (thread_id : ThreadId)
    (tenant_id : option str) : result bool :=
  Ok (bool_decide (ms_stream_tenants data !! thread_id = Some tenant_id)).

Definition event_by_id (data : MemoryStoreData) (event_id : EventId) : result (option StoredEvent) :=
  match ms_event_positions data !! event_id with
  | None => Ok None
  | Some position =>
      event ← ok_or (ms_events data !! position)
        (ste "Memory Event Store identity index is corrupt" []);
      Ok (Some event)
  end.

(** ** The due scan *)

(** The derived [Ord] of an option and of the key. *)
Definition option_cmp {A} (cmp : A → A → comparison) (a b : option A) : comparison :=
  match a, b with
  | None, None => Eq | None, Some _ => Lt | Some _, None => Gt | Some a, Some b => cmp a b
  end.
Definition due_key_cmp (k l : AgentLoopDueIndexKey) : comparison :=
  then_with (option_cmp str_cmp (dk_tenant_id k) (dk_tenant_id l))
    (then_with (Z.compare (dk_due_at_ms k) (dk_due_at_ms l))
      (then_with (str_cmp (dk_thread_id k) (dk_thread_id l))
        (then_with (str_cmp (dk_turn_id k) (dk_turn_id l))
          (str_cmp (dk_wait_id k) (dk_wait_id l))))).

(** [agent_loop_due.range((start, Unbounded))]. *)
Definition due_range (data : MemoryStoreData) (tenant_id : option str)
    (after : option AgentLoopDueCursor) : list AgentLoopDueIndexKey :=
  List.filter (λ key,
    match after with
    | Some after => match due_key_cmp key {|
          dk_tenant_id := tenant_id; dk_due_at_ms := ac_due_at_ms after;
          dk_thread_id := ac_thread_id after; dk_turn_id := ac_turn_id after;
          dk_wait_id := ac_wait_id after |} with Gt => true | _ => false end
    | None => match due_key_cmp key {|
          dk_tenant_id := tenant_id; dk_due_at_ms := 0; dk_thread_id := []; dk_turn_id := [];
          dk_wait_id := [] |} with Lt => false | _ => true end
    end)
    (key_sort due_key_cmp id (elements (ms_agent_loop_due data))).

Definition due_row (data : MemoryStoreData) (key : AgentLoopDueIndexKey) : result AgentLoopDueWait :=
  projection ← ok_or (ms_agent_loop_waits data !! dk_thread_id key)
    (ste "Memory Agent Loop due index has no live projection" []);
  _ ← reject_if (bool_decide (due_index_key projection ≠ Some key))
        (ste "Memory Agent Loop due index differs from its live projection" []);
  stream_version ← ok_or (ms_stream_versions data !! dk_thread_id key)
    (ste "Memory Agent Loop due row has no stream version" []);
  recovery_bytes ← ok_or (ms_stream_recovery_bytes data !! dk_thread_id key)
    (ste "Memory Agent Loop due row has no recovery fence" []);
  projection_due_wait projection stream_version recovery_bytes.

Fixpoint due_loop (data : MemoryStoreData) (tenant_id : option str) (at_ms scan_limit : Z)
    (due : list AgentLoopDueWait) (keys : list AgentLoopDueIndexKey)
    : result (list AgentLoopDueWait) :=
  match keys with
  | [] => Ok due
  | key :: keys =>
      if bool_decide (dk_tenant_id key ≠ tenant_id) || (at_ms <? dk_due_at_ms key)%Z then Ok due
      else
        row ← due_row data key;
        let due := due ++ [row] in
        if (scan_limit <? len due)%Z then Ok due
        else due_loop data tenant_id at_ms scan_limit due keys
  end.

Definition store_scan_due (data : MemoryStoreData) (tenant_id : option str) (at_ms : Z)
    (after : option AgentLoopDueCursor) (scan_limit : Z) : result AgentLoopDueScanPage :=
  _ ← validate_due_scan_request at_ms after scan_limit tenant_id;
  due ← due_loop data tenant_id at_ms scan_limit [] (due_range data tenant_id after);
  let has_more := (scan_limit <? len due)%Z in
  let due := if has_more then take (pred (length due)) due else due in
  let page := {| adp_due := due; adp_next_cursor := due_cursor <$> last due;
                 adp_has_more := has_more; adp_scanned := len due |} in
  _ ← due_page_validate page at_ms after scan_limit tenant_id;
  Ok page.

(** * Reading a whole stream *)

(** The variables of the loop of [StateEngine::checked_events]. *)
Record CheckedEvents := {
  ck_after_sequence : Z;
  ck_recovery_bytes : Z;
  ck_event_ids : gset str;
  ck_events : list StoredEvent;
}.

Definition SNAPSHOT_TAIL_PAGE : Z := 1000.

(** One round: [None] when the page is empty. *)
Definition checked_events_round (data : MemoryStoreData) (thread_id : ThreadId) (c : CheckedEvents)
    : result (option CheckedEvents) :=
  page ← events_page data thread_id (ck_after_sequence c) SNAPSHOT_TAIL_PAGE
           MAX_STATE_EVENT_PAGE_RECOVERY_BYTES;
  page_recovery_bytes ← validate_stored_events thread_id page (ck_after_sequence c)
    (Some SNAPSHOT_TAIL_PAGE) (Some MAX_STATE_EVENT_PAGE_RECOVERY_BYTES);
  if bool_decide (page = []) then Ok None
  else
    recovery_bytes ← ok_or (checked_add u64_max (ck_recovery_bytes c) page_recovery_bytes)
      (ste "stream recovery charge overflow" []);
    _ ← reject_if (STATE_THREAD_RECOVERY_BYTE_LIMIT <? recovery_bytes)%Z
          (ste "Thread exceeds its {}-byte recovery boundary" [ANum STATE_THREAD_RECOVERY_BYTE_LIMIT]);
    event_ids ← remember_event_ids (ck_event_ids c) page;
    let events := ck_events c ++ page in
    _ ← reject_if (MAX_STATE_RECOVERY_EVENTS <? len events)%Z
          (ste "Thread exceeds {} recoverable events" [ANum MAX_STATE_RECOVERY_EVENTS]);
    Ok (Some {| ck_after_sequence := match last page with
                                     | Some event => se_sequence event
                                     | None => ck_after_sequence c end;
                ck_recovery_bytes := recovery_bytes; ck_event_ids := event_ids;
                ck_events := events |}).

(** The loop; [None] when the fuel runs out. *)
Fixpoint checked_events_loop (fuel : nat) (data : MemoryStoreData) (thread_id : ThreadId)
    (c : CheckedEvents) : option (result CheckedEvents) :=
  match fuel with
  | O => None
  | S fuel =>
      match checked_events_round data thread_id c with
      | Err e => Some (Err e)
      | Ok None => Some (Ok c)
      | Ok (Some c) => checked_events_loop fuel data thread_id c
      end
  end.

Definition checked_events (fuel : nat) (data : MemoryStoreData) (thread_id : ThreadId)
    : option (result CheckedEvents) :=
  match validate_state_id "thread" thread_id with
  | Err e => Some (Err e)
  | Ok _ => checked_events_loop fuel data thread_id
      {| ck_after_sequence := 0; ck_recovery_bytes := 0; ck_event_ids := ∅; ck_events := [] |}
  end.

(** * The invariant of the store *)

(** The journal of one Thread. *)
Definition stream (data : MemoryStoreData) (thread_id : ThreadId) : list StoredEvent :=
  List.filter (of_thread thread_id) (ms_events data).

(** The recovery charge of a stored event. *)
Definition event_charge (event : StoredEvent) : Z :=
  match stored_event_recovery_bytes event with Ok n => n | Err _ => 0 end.

(** The history of the live-wait row of a Thread: the reducer over the events
    appended after a derived stream was materialized, which has no open wait. *)
Definition row_history (thread_id : ThreadId) (events : list StoredEvent)
    (row : option AgentLoopWaitProjection) : Prop :=
  ∃ base rest, events = base ++ rest ∧ wait_row rest = Ok row ∧
    (base = [] ∨ ∃ thread, project_events base = Ok (Some thread) ∧ th_id thread = thread_id ∧
                           existsb is_running (th_turns thread) = false).

(** What the creation at the head of a journal says. *)
Definition created_for (tenant : option (option str)) (events : list StoredEvent) : Prop :=
  match events with
  | [] => tenant = None
  | event :: rest =>
      (∃ at_ms owner, se_event event = EvThreadCreated at_ms owner ∧ tenant = Some owner) ∧
      Forall (λ event, is_creation (se_event event) = false) rest
  end.

Record store_ok (data : MemoryStoreData) : Prop := {
  so_position id i :
    ms_event_positions data !! id = Some i ↔
    ∃ event, ms_events data !! i = Some event ∧ se_event_id event = id;
  so_sequence i event :
    ms_events data !! i = Some event → se_sequence event = (Z.of_nat i + 1)%Z;
  so_valid event : event ∈ ms_events data → is_ok (validate_stored_event event) = true;
  so_version thread_id :
    ms_stream_versions data !! thread_id
    = (if bool_decide (stream data thread_id = []) then None else Some (len (stream data thread_id)));
  so_recovery thread_id :
    ms_stream_recovery_bytes data !! thread_id
    = (if bool_decide (stream data thread_id = []) then None
       else Some (sum_z event_charge (stream data thread_id)));
  so_bounds thread_id :
    (len (stream data thread_id) ≤ MAX_STATE_RECOVERY_EVENTS)%Z ∧
    (sum_z event_charge (stream data thread_id) ≤ STATE_THREAD_RECOVERY_BYTE_LIMIT)%Z;
  so_created thread_id :
    created_for (ms_stream_tenants data !! thread_id) (stream data thread_id);
  so_rows thread_id :
    row_history thread_id (stream data thread_id) (ms_agent_loop_waits data !! thread_id);
  so_row_thread thread_id row :
    ms_agent_loop_waits data !! thread_id = Some row → wp_thread_id row = thread_id;
  so_due key :
    key ∈ ms_agent_loop_due data ↔
    ∃ thread_id row, ms_agent_loop_waits data !! thread_id = Some row ∧ due_index_key row = Some key;
}.

Lemma new_store_ok : store_ok MemoryEventStore_new.
Proof.
  constructor; simpl; try done.
  - intros id i. rewrite lookup_empty. split; [done|]. by intros (e & He & _).
  - by intros e ?%elem_of_nil.
  - intros thread_id. exists [], []. split_and!; [done|done|by left].
  - intros key. split; [set_solver|]. by intros (t & r & E & _).
Qed.

(** ** What validation gives *)

Lemma validate_stored_event_eq event :
  is_ok (validate_stored_event event) = true →
  validate_stored_event event = Ok (event_charge event) ∧
  stored_event_recovery_bytes event = Ok (event_charge event) ∧
  validate_stored_schema event = Ok () ∧ validate_state_event (se_event event) = Ok () ∧
  validate_state_id "thread" (se_thread_id event) = Ok ().
Proof.
  unfold event_charge, stored_event_recovery_bytes, validate_stored_event. intros E.
  destruct (validate_stored_schema event) as [[]|]; [simpl in *|done].
  destruct (validate_state_id "event" _) as [[]|]; [simpl in *|done].
  destruct (validate_state_id "thread" _) as [[]|]; [simpl in *|done].
  destruct (validate_state_event _) as [[]|]; [simpl in *|done].
  by destruct (encode_state_event _) as [encoded|]; simpl in *.
Qed.

Lemma pending_stored_valid pending encoded sequence :
  validate_pending_event pending = Ok encoded →
  let stored := {| se_schema_version := STATE_EVENT_SCHEMA_VERSION; se_sequence := sequence;
                   se_event_id := pe_event_id pending; se_thread_id := pe_thread_id pending;
                   se_recorded_at_ms := pe_recorded_at_ms pending; se_event := pe_event pending |} in
  is_ok (validate_stored_event stored) = true ∧ event_charge stored = en_recovery_bytes encoded ∧
  (pe_expected_stream_version pending < MAX_STATE_RECOVERY_EVENTS)%Z ∧
  (pe_expected_stream_recovery_bytes pending + en_recovery_bytes encoded
   ≤ STATE_THREAD_RECOVERY_BYTE_LIMIT)%Z.
Proof.
  unfold validate_pending_event. intros E. inv_ok. subst. bool_hyps.
  match goal with Hx : checked_add _ _ _ = Some _ |- _ => apply checked_add_Some in Hx as [-> _] end.
  simpl. unfold event_charge, stored_event_recovery_bytes, validate_stored_event, validate_stored_schema. simpl.
  repeat match goal with Hx : _ = Ok _ |- _ => rewrite Hx; simpl; clear Hx end.
  split_and!; [done|done|lia|].
  unfold recovery_limit in *. destruct (is_terminal_event _); [lia|].
  unfold saturating_sub, STATE_TERMINAL_RECOVERY_BYTE_RESERVE, STATE_THREAD_RECOVERY_BYTE_LIMIT in *. lia.
Qed.

(** ** Append *)

Definition stored_pending (pending : PendingEvent) (sequence : Z) : StoredEvent := {|
  se_schema_version := STATE_EVENT_SCHEMA_VERSION; se_sequence := sequence;
  se_event_id := pe_event_id pending; se_thread_id := pe_thread_id pending;
  se_recorded_at_ms := pe_recorded_at_ms pending; se_event := pe_event pending |}.

(** The store after an append. *)
Definition appended (pending : PendingEvent) (encoded : EncodedStateEvent)
    (change : AgentLoopWaitProjectionChange) (data : MemoryStoreData) : MemoryStoreData :=
  let thread_id := pe_thread_id pending in
  let rows := apply_memory_wait_projection (ms_agent_loop_waits data) (ms_agent_loop_due data) change in
  {| ms_events := ms_events data ++ [stored_pending pending (len (ms_events data) + 1)];
     ms_event_positions := <[pe_event_id pending := length (ms_events data)]> (ms_event_positions data);
     ms_stream_versions :=
       <[thread_id := pe_expected_stream_version pending + 1]>%Z (ms_stream_versions data);
     ms_stream_recovery_bytes :=
       <[thread_id := pe_expected_stream_recovery_bytes pending + en_recovery_bytes encoded]>%Z
         (ms_stream_recovery_bytes data);
     ms_stream_tenants := tenant_change (pe_event pending) thread_id (ms_stream_tenants data);
     ms_stream_names := name_change (pe_event pending) thread_id (ms_stream_names data);
     ms_stream_lineages := lineage_change (pe_event pending) thread_id (ms_stream_lineages data);
     ms_agent_loop_waits := rows.1; ms_agent_loop_due := rows.2 |}.

Lemma append_ok pending data data' res :
  append_classified pending data = (data', Ok res) →
  (data' = data ∧ ear_disposition res = DispositionDuplicate ∧
   ∃ i, ms_event_positions data !! pe_event_id pending = Some i ∧
        ms_events data !! i = Some (ear_stored res) ∧
        matching_existing (ear_stored res) pending = Ok (ear_stored res)) ∨
  (∃ encoded change,
     validate_pending_event pending = Ok encoded ∧
     ms_event_positions data !! pe_event_id pending = None ∧
     default 0%Z (ms_stream_versions data !! pe_thread_id pending)
       = pe_expected_stream_version pending ∧
     default 0%Z (ms_stream_recovery_bytes data !! pe_thread_id pending)
       = pe_expected_stream_recovery_bytes pending ∧
     validate_thread_existence (0 <? pe_expected_stream_version pending)%Z pending = Ok () ∧
     projection_change (stored_pending pending (len (ms_events data) + 1))
       (ms_agent_loop_waits data !! pe_thread_id pending) = Ok change ∧
     data' = appended pending encoded change data ∧ ear_disposition res = DispositionApplied ∧
     ear_stored res = stored_pending pending (len (ms_events data) + 1)).
Proof.
  unfold append_classified. intros E. inv_M.
  destruct (ms_event_positions data !! pe_event_id pending) as [i|] eqn:Hp.
  - left. inv_M. inv_ok. subst. split_and!; [done|done|]. exists i. split; [done|].
    unfold matching_existing in *. destruct (_ && _ && _) eqn:Hm; [|done]. inv_ok. subst. simpl.
    by rewrite Hm.
  - right. inv_M. inv_ok. subst. unfold validate_stream_version, validate_stream_recovery_bytes in *.
    inv_ok. bool_hyps.
    repeat match goal with Hx : checked_add _ _ _ = Some _ |- _ => apply checked_add_Some in Hx as [-> _] end.
    match goal with Hx : default 0%Z (ms_stream_versions data !! _) = _ |- _ => rewrite !Hx in * end.
    match goal with Hx : default 0%Z (ms_stream_recovery_bytes data !! _) = _ |- _ => rewrite !Hx in * end.
    eexists _, _. split_and!; done.
Qed.

Lemma append_err pending data data' e :
  append_classified pending data = (data', Err e) → data' = data.
Proof.
  unfold append_classified. intros E. inv_M_err; try done.
  destruct (ms_event_positions data !! pe_event_id pending) as [i|] eqn:Hp; inv_M_err; done.
Qed.

Lemma stream_appended pending encoded change data thread_id :
  stream (appended pending encoded change data) thread_id
  = stream data thread_id
    ++ (if bool_decide (pe_thread_id pending = thread_id)
        then [stored_pending pending (len (ms_events data) + 1)] else []).
Proof. unfold stream. simpl. rewrite List.filter_app. simpl. unfold of_thread. simpl. by case_bool_decide. Qed.

(** The rows and the due index agree after a change of the row of a Thread. *)
Lemma change_rows data thread_id change waits due :
  store_ok data →
  (match change with
   | ProjectionUpsert next => wp_thread_id next = thread_id
   | ProjectionDelete previous => ms_agent_loop_waits data !! thread_id = Some previous
   | ProjectionUnchanged => True
   end) →
  apply_memory_wait_projection (ms_agent_loop_waits data) (ms_agent_loop_due data) change = (waits, due) →
  waits !! thread_id = apply_wait_change (ms_agent_loop_waits data !! thread_id) change ∧
  (∀ other, other ≠ thread_id → waits !! other = ms_agent_loop_waits data !! other) ∧
  (∀ other row, waits !! other = Some row → wp_thread_id row = other) ∧
  (∀ key, key ∈ due ↔ ∃ other row, waits !! other = Some row ∧ due_index_key row = Some key).
Proof.
  intros Hok Hch E. pose proof (so_row_thread _ Hok) as Hrow. pose proof (so_due _ Hok) as Hdue.
  assert (∀ row key, due_index_key row = Some key → dk_thread_id key = wp_thread_id row) as Hkey.
  { intros row key. unfold due_index_key. destruct (wp_due_at_ms row); simpl; [|done]. by intros [= <-]. }
  destruct change as [|next|previous]; simpl in E; injection E as <- <-; simpl.
  - split_and!; [done|done|done|done].
  - rewrite Hch. split_and!.
    + by rewrite lookup_insert_eq.
    + intros other Ho. by rewrite lookup_insert_ne.
    + intros other row [[<- <-]|[_ Hr]]%lookup_insert_Some; [done|by apply Hrow].
    + intros key.
      assert (key ∈ remove_key (ms_agent_loop_waits data !! thread_id ≫= due_index_key)
                (ms_agent_loop_due data)
              ↔ ∃ other row, other ≠ thread_id ∧ ms_agent_loop_waits data !! other = Some row ∧
                  due_index_key row = Some key) as Hrem.
      { destruct (ms_agent_loop_waits data !! thread_id) as [old|] eqn:Hold; simpl.
        - destruct (due_index_key old) as [oldkey|] eqn:Hok2; simpl.
          + rewrite elem_of_difference, Hdue, not_elem_of_singleton. split.
            * intros [(o & r & Ho & Hr) Hne]. exists o, r. split_and!; [|done|done].
              intros ->. rewrite Hold in Ho. injection Ho as <-. congruence.
            * intros (o & r & Hne & Ho & Hr). split; [eauto|]. intros ->.
              apply Hne. rewrite <-(Hrow o r Ho), <-(Hkey _ _ Hr), (Hkey _ _ Hok2). by apply Hrow.
          + rewrite Hdue. split.
            * intros (o & r & Ho & Hr). exists o, r. split_and!; [|done|done]. intros ->. congruence.
            * intros (o & r & _ & Ho & Hr). eauto.
        - rewrite Hdue. split.
          + intros (o & r & Ho & Hr). exists o, r. split_and!; [|done|done]. intros ->. congruence.
          + intros (o & r & _ & Ho & Hr). eauto. }
      assert (key ∈ insert_key (due_index_key next)
                (remove_key (ms_agent_loop_waits data !! thread_id ≫= due_index_key) (ms_agent_loop_due data))
              ↔ due_index_key next = Some key ∨
                key ∈ remove_key (ms_agent_loop_waits data !! thread_id ≫= due_index_key) (ms_agent_loop_due data)) as ->.
      { destruct (due_index_key next) as [k|]; simpl; [|naive_solver].
        rewrite elem_of_union, elem_of_singleton. naive_solver. }
      rewrite Hrem. split.
      * intros [Hn|(o & r & Hne & Ho & Hr)].
        -- exists thread_id, next. by rewrite lookup_insert_eq.
        -- exists o, r. by rewrite lookup_insert_ne.
      * intros (o & r & [[<- <-]|[Hne Ho]]%lookup_insert_Some & Hr); [by left|]. right. exists o, r. split_and!; [congruence|done|done].
  - pose proof (Hrow _ _ Hch) as Hpt. rewrite Hpt. split_and!.
    + by rewrite lookup_delete_eq.
    + intros other Ho. by rewrite lookup_delete_ne.
    + intros other row [_ Hr]%lookup_delete_Some. by apply Hrow.
    + intros key. destruct (due_index_key previous) as [k|] eqn:Hk; simpl.
      * rewrite elem_of_difference, Hdue, not_elem_of_singleton. split.
        -- intros [(o & r & Ho & Hr) Hne]. exists o, r. rewrite lookup_delete_ne; [done|].
           intros ->. rewrite Hch in Ho. injection Ho as <-. congruence.
        -- intros (o & r & [Hne Ho]%lookup_delete_Some & Hr). split; [eauto|]. intros ->.
           apply Hne. rewrite <-(Hrow o r Ho), <-(Hkey _ _ Hr), (Hkey _ _ Hk). done.
      * rewrite Hdue. split.
        -- intros (o & r & Ho & Hr). exists o, r. rewrite lookup_delete_ne; [done|]. intros ->. congruence.
        -- intros (o & r & [Hne Ho]%lookup_delete_Some & Hr). eauto.
Qed.

Lemma change_thread stored row change :
  projection_change stored row = Ok change →
  match change with
  | ProjectionUpsert next => wp_thread_id next = se_thread_id stored
  | ProjectionDelete previous => row = Some previous
  | ProjectionUnchanged => True
  end.
Proof.
  unfold projection_change, projection_change_inner. intros E. inv_ok. subst.
  assert (∀ thread_id turn_id previous, require_current row thread_id turn_id = Ok previous →
    row = Some previous ∧ wp_thread_id previous = thread_id) as Hreq.
  { unfold require_current. intros t u previous Ex. inv_ok. bool_hyps. subst. split; [done|by apply dec_stable]. }
  unfold projection_change_raw in *.
  destruct (se_event stored); inv_ok; subst; try done;
    try (match goal with Hx : require_current _ _ _ = Ok _ |- _ => apply Hreq in Hx as [-> Hx] end);
    destruct (it_kind _); try done;
    repeat match goal with
    | Hx : (let 'WaitApproval _ _ := ?w in _) = Ok _ |- _ => destruct w
    | Hx : context [match as_decision ?s with _ => _ end] |- _ => destruct (as_decision s)
    end; inv_ok; by subst.
Qed.

Lemma row_history_snoc thread_id events row stored change :
  row_history thread_id events row → projection_change stored row = Ok change →
  row_history thread_id (events ++ [stored]) (apply_wait_change row change).
Proof.
  intros (base & rest & -> & Hr & Hb) Hc. exists base, (rest ++ [stored]).
  split_and!; [by rewrite app_assoc| |done]. unfold wait_row in *. rewrite fold_m_app, Hr. simpl.
  unfold wait_row_step. by rewrite Hc.
Qed.

Lemma positions_appended data stored :
  store_ok data → ms_event_positions data !! se_event_id stored = None → ∀ id i,
  <[se_event_id stored := length (ms_events data)]> (ms_event_positions data) !! id = Some i ↔
  ∃ event, (ms_events data ++ [stored]) !! i = Some event ∧ se_event_id event = id.
Proof.
  intros Hok Hnew id i. rewrite lookup_insert_Some. split.
  - intros [[<- <-]|[Hne (e & He & Hid)%(so_position _ Hok)]].
    + exists stored. by rewrite lookup_app_r, Nat.sub_diag by done.
    + exists e. split; [by apply lookup_app_l_Some|done].
  - intros (e & [He|[Hl He]]%lookup_app_Some & <-).
    + right. split; [|apply (so_position _ Hok); by exists e]. intros Heq.
      enough (ms_event_positions data !! se_event_id stored = Some i) by congruence.
      apply (so_position _ Hok). by exists e.
    + apply list_lookup_singleton_Some in He as [Hi ->]. left. split; [done|lia].
Qed.

Lemma stream_valid data thread_id event :
  store_ok data → event ∈ stream data thread_id →
  is_ok (validate_stored_event event) = true ∧ se_thread_id event = thread_id.
Proof.
  intros Hok He. unfold stream in He. apply list_elem_of_In, filter_In in He as [He Ht].
  unfold of_thread in Ht. bool_hyps. split; [|done]. by apply (so_valid _ Hok), list_elem_of_In.
Qed.

Lemma version_default data thread_id :
  store_ok data → default 0%Z (ms_stream_versions data !! thread_id) = len (stream data thread_id).
Proof. intros Hok. rewrite (so_version _ Hok). case_bool_decide as Hs; [by rewrite Hs|done]. Qed.
Lemma recovery_default data thread_id :
  store_ok data →
  default 0%Z (ms_stream_recovery_bytes data !! thread_id) = sum_z event_charge (stream data thread_id).
Proof. intros Hok. rewrite (so_recovery _ Hok). case_bool_decide as Hs; [by rewrite Hs|done]. Qed.

Lemma sum_z_one {A} (f : A → Z) x : sum_z f [x] = f x.
Proof. unfold sum_z. simpl. lia. Qed.

Lemma created_snoc data thread_id stored :
  store_ok data →
  (is_creation (se_event stored) = bool_decide (stream data thread_id = [])) →
  created_for (tenant_change (se_event stored) thread_id (ms_stream_tenants data) !! thread_id)
    (stream data thread_id ++ [stored]).
Proof.
  intros Hok Hc. pose proof (so_created _ Hok thread_id) as Hcr.
  destruct (stream data thread_id) as [|event rest]; simpl in *.
  - destruct (se_event stored); try done. simpl.
    rewrite lookup_insert_eq. split; [eauto|constructor].
  - destruct Hcr as [(a & o & He & Ht) Hf]. split.
    + exists a, o. split; [done|]. by destruct (se_event stored).
    + apply Forall_app. split; [done|]. by repeat constructor.
Qed.

Lemma appended_ok pending encoded change data :
  store_ok data → validate_pending_event pending = Ok encoded →
  ms_event_positions data !! pe_event_id pending = None →
  default 0%Z (ms_stream_versions data !! pe_thread_id pending) = pe_expected_stream_version pending →
  default 0%Z (ms_stream_recovery_bytes data !! pe_thread_id pending)
    = pe_expected_stream_recovery_bytes pending →
  validate_thread_existence (0 <? pe_expected_stream_version pending)%Z pending = Ok () →
  projection_change (stored_pending pending (len (ms_events data) + 1))
    (ms_agent_loop_waits data !! pe_thread_id pending) = Ok change →
  store_ok (appended pending encoded change data).
Proof.
  intros Hok Hv Hnew Hver Hrec Hex Hch.
  set (stored := stored_pending pending (len (ms_events data) + 1)) in *.
  destruct (pending_stored_valid pending encoded (len (ms_events data) + 1) Hv) as (Hvalid & Hcharge & Hmax & Hlim).
  change (event_charge stored = en_recovery_bytes encoded) in Hcharge.
  rewrite version_default in Hver by done. rewrite recovery_default in Hrec by done.
  destruct (apply_memory_wait_projection (ms_agent_loop_waits data) (ms_agent_loop_due data) change)
    as [waits due] eqn:Hrows.
  destruct (change_rows data (pe_thread_id pending) change waits due Hok) as (Hw1 & Hw2 & Hw3 & Hw4);
    [by pose proof (change_thread _ _ _ Hch); destruct change|done|].
  assert (∀ t, t ≠ pe_thread_id pending → stream (appended pending encoded change data) t = stream data t) as Hother.
  { intros t Ht. rewrite stream_appended, bool_decide_false by done. apply app_nil_r. }
  pose proof (stream_appended pending encoded change data (pe_thread_id pending)) as Hsame.
  rewrite bool_decide_true in Hsame by done. fold stored in Hsame.
  constructor.
  - by apply (positions_appended data stored).
  - simpl. intros i e [He|[Hl He]]%lookup_app_Some; [by eapply so_sequence|].
    apply list_lookup_singleton_Some in He as [Hi <-]. simpl. unfold len. lia.
  - simpl. intros e [He| ->%list_elem_of_singleton]%elem_of_app; [by eapply so_valid|done].
  - intros t. destruct (decide (t = pe_thread_id pending)) as [->|Ht].
    + rewrite Hsame, bool_decide_false by (by destruct (stream data _)). simpl. rewrite lookup_insert_eq.
      f_equal. rewrite <-Hver. unfold len. rewrite length_app. simpl. lia.
    + rewrite Hother by done. simpl. rewrite lookup_insert_ne by done. apply (so_version _ Hok).
  - intros t. destruct (decide (t = pe_thread_id pending)) as [->|Ht].
    + rewrite Hsame, bool_decide_false by (by destruct (stream data _)). simpl. rewrite lookup_insert_eq.
      f_equal. rewrite <-Hrec, sum_z_app, sum_z_one, Hcharge. lia.
    + rewrite Hother by done. simpl. rewrite lookup_insert_ne by done. apply (so_recovery _ Hok).
  - intros t. destruct (decide (t = pe_thread_id pending)) as [->|Ht].
    + rewrite Hsame, sum_z_app, sum_z_one, Hcharge.
      unfold len in *. rewrite length_app. simpl. lia.
    + rewrite Hother by done. apply (so_bounds _ Hok).
  - intros t. destruct (decide (t = pe_thread_id pending)) as [->|Ht].
    + rewrite Hsame. apply created_snoc; [done|]. simpl. unfold validate_thread_existence in Hex.
      destruct (is_creation (pe_event pending)), (0 <? pe_expected_stream_version pending)%Z eqn:Hz;
        try done; bool_hyps; symmetry.
      * apply bool_decide_eq_true. unfold len in Hver. destruct (stream data _); [done|simpl in *; lia].
      * apply bool_decide_eq_false. intros Hn. rewrite Hn in Hver. unfold len in Hver. simpl in Hver. lia.
    + rewrite Hother by done. simpl.
      assert (tenant_change (pe_event pending) (pe_thread_id pending) (ms_stream_tenants data) !! t
              = ms_stream_tenants data !! t) as ->; [|apply (so_created _ Hok)].
      destruct (pe_event pending); simpl; try done. by rewrite lookup_insert_ne.
  - intros t. simpl. rewrite Hrows. simpl. destruct (decide (t = pe_thread_id pending)) as [->|Ht].
    + rewrite Hsame, Hw1. apply row_history_snoc; [apply (so_rows _ Hok)|done].
    + rewrite Hother, Hw2 by done. apply (so_rows _ Hok).
  - simpl. rewrite Hrows. exact Hw3.
  - simpl. rewrite Hrows. exact Hw4.
Qed.

(** ** Atomic creation *)

(** [new] may be stored in a stream of [thread_id]. *)
Definition new_valid (thread_id : ThreadId) (new : NewStreamEvent) (encoded : EncodedStateEvent) : Prop :=
  validate_state_id "event" (ne_event_id new) = Ok () ∧ is_checkpoint (ne_event new) = false ∧
  validate_state_event (ne_event new) = Ok () ∧ encode_state_event (ne_event new) = Ok encoded.

Definition stored_from (thread_id : ThreadId) (first : Z) (events : list NewStreamEvent)
    : list StoredEvent :=
  imap (λ i new, stored_new thread_id (first + Z.of_nat i) new) events.

Lemma stored_from_cons thread_id first new events :
  stored_from thread_id first (new :: events)
  = stored_new thread_id first new :: stored_from thread_id (first + 1) events.
Proof.
  unfold stored_from. rewrite imap_cons. f_equal; [f_equal; lia|]. apply imap_ext. intros i x _. simpl.
  f_equal. lia.
Qed.

Lemma new_stream_fold thread_id events : ∀ c c' k,
  fold_m (new_stream_step thread_id) c (imap (λ i, pair (k + i)%nat) events) = Ok c' →
  ∃ encoded, Forall2 (new_valid thread_id) events encoded ∧ nc_encoded c' = nc_encoded c ++ encoded ∧
    nc_recovery_bytes c' = (nc_recovery_bytes c + sum_z en_recovery_bytes encoded)%Z ∧
    nc_synthetic c' = nc_synthetic c ++ stored_from thread_id (Z.of_nat k + 1) events ∧
    NoDup (ne_event_id <$> events) ∧ (∀ id, id ∈ (ne_event_id <$> events) → id ∉ nc_event_ids c).
Proof.
  induction events as [|new events IH]; intros c c' k E.
  { injection E as <-. exists []. rewrite !app_nil_r. unfold sum_z. simpl.
    split_and!; [constructor|done|lia|done|constructor|by intros ? ?%elem_of_nil]. }
  rewrite imap_cons in E. cbn [fold_m] in E. apply bind_ok in E as (c1 & E1 & E2).
  erewrite imap_ext in E2; [apply (IH c1 c' (S k)) in E2|intros i x _; simpl; f_equal; lia].
  destruct E2 as (encoded & Hf & He & Hr & Hs & Hn & Hfr).
  unfold new_stream_step in E1. inv_ok. bool_hyps. subst.
  match goal with Hx : checked_add _ _ _ = Some _ |- _ => apply checked_add_Some in Hx as [-> _] end.
  simpl in *. eexists (_ :: encoded). split_and!.
  - constructor; [|done]. by split_and!.
  - by rewrite He, <-app_assoc.
  - rewrite Hr. unfold sum_z. simpl. lia.
  - rewrite Hs, stored_from_cons, <-app_assoc. simpl. do 3 f_equal; [do 2 f_equal; lia|f_equal; lia].
  - apply NoDup_cons. split; [|done]. intros Hin. apply (Hfr _ Hin). set_solver.
  - intros id [->|Hin]%elem_of_cons; [done|]. specialize (Hfr _ Hin). set_solver.
Qed.

Lemma store_new_fold thread_id events : ∀ c c',
  fold_m (store_new_step thread_id) c events = Ok c' →
  c'.2 = c.2 ++ stored_from thread_id (c.1 + 1) events.
Proof.
  induction events as [|new events IH]; intros c c' E.
  { injection E as <-. by rewrite app_nil_r. }
  cbn [fold_m] in E. apply bind_ok in E as (c1 & E1 & E2). apply IH in E2. rewrite E2.
  unfold store_new_step in E1. inv_ok. subst.
  match goal with Hx : checked_add _ _ _ = Some _ |- _ => apply checked_add_Some in Hx as [-> _] end.
  simpl. by rewrite stored_from_cons, <-app_assoc.
Qed.

(** A replay looks at sequences only for Checkpoints. *)
Lemma apply_event_new c thread_id s s' new :
  is_checkpoint (ne_event new) = false →
  apply_event c (stored_new thread_id s new) = apply_event c (stored_new thread_id s' new).
Proof. intros Hc. unfold apply_event. simpl. by destruct (ne_event new). Qed.

Lemma project_from thread_id events s s' :
  Forall (λ new, is_checkpoint (ne_event new) = false) events →
  project_events (stored_from thread_id s events) = project_events (stored_from thread_id s' events).
Proof.
  intros Hf. unfold project_events, apply_events.
  assert (∀ c, fold_m apply_event c (stored_from thread_id s events)
               = fold_m apply_event c (stored_from thread_id s' events)) as ->; [|done].
  revert s s'. induction Hf as [|new events Hn Hf IH]; intros s s' c; [done|].
  rewrite !stored_from_cons. cbn [fold_m]. rewrite (apply_event_new c thread_id s s' new Hn).
  destruct (apply_event c _); [|done]. apply IH.
Qed.

Lemma replay_schema events : ∀ c c',
  fold_m apply_event c events = Ok c' → Forall (λ e, validate_stored_schema e = Ok ()) events.
Proof.
  induction events as [|e events IH]; intros c c' E; [constructor|].
  cbn [fold_m] in E. apply bind_ok in E as (c1 & E1 & E2). constructor; [|by eapply IH].
  unfold apply_event in E1. by apply bind_ok in E1 as ([] & Hs & _).
Qed.

(** Only the first event of a journal that projects creates the Thread. *)
Lemma replay_created events : ∀ c c' thread,
  pj_thread c = Some thread → fold_m apply_event c events = Ok c' →
  Forall (λ e, is_creation (se_event e) = false) events.
Proof.
  induction events as [|e events IH]; intros c c' thread Hc E; [constructor|].
  cbn [fold_m] in E. apply bind_ok in E as (c1 & E1 & E2).
  destruct (effect_extends e c c1 thread) as (t1 & Hc1 & _); [by apply apply_event_effect|done|].
  constructor; [|by eapply IH]. unfold apply_event in E1. apply bind_ok in E1 as ([] & _ & E1).
  destruct (se_event e); try done. rewrite Hc in E1. by inv_ok.
Qed.

Lemma project_created events thread :
  project_events events = Ok (Some thread) →
  match events with
  | [] => False
  | event :: rest => is_creation (se_event event) = true ∧
                     Forall (λ e, is_creation (se_event e) = false) rest
  end.
Proof.
  intros E. apply apply_events_ok in E as (c & Hc & Ht & _). destruct events as [|event rest].
  { injection Hc as <-. done. }
  cbn [fold_m] in Hc. apply bind_ok in Hc as (c1 & E1 & E2).
  assert (∃ t, pj_thread c1 = Some t ∧ is_creation (se_event event) = true) as (t & Ht1 & Hcr).
  { apply apply_event_effect in E1. destruct E1 as [? ? He _| | | |]; try done. rewrite He. by eexists. }
  split; [done|]. by eapply replay_created.
Qed.

Lemma insert_positions_lookup events : ∀ first positions id i,
  NoDup (se_event_id <$> events) →
  insert_positions first events positions !! id = Some i ↔
  (∃ j e, events !! j = Some e ∧ se_event_id e = id ∧ i = (first + j)%nat) ∨
  id ∉ (se_event_id <$> events) ∧ positions !! id = Some i.
Proof.
  induction events as [|event events IH]; intros first positions id i Hn; simpl.
  { split; [intros Hp; right; split; [by intros ?%elem_of_nil|done]|].
    by intros [(j & e & Hj & _)|[_ Hp]]; [|]. }
  apply NoDup_cons in Hn as [Hne Hn]. rewrite (IH _ _ _ _ Hn), lookup_insert_Some, not_elem_of_cons.
  split.
  - intros [(j & e & Hj & He & ->)|[Hid [[<- <-]|[Hne' Hp]]]].
    + left. exists (S j), e. split_and!; [done|done|lia].
    + left. exists 0%nat, event. split_and!; [done|done|lia].
    + by right.
  - intros [(j & e & Hj & He & ->)|[[Hne' Hid] Hp]].
    + destruct j as [|j]; simpl in Hj.
      * injection Hj as <-. right. split; [by rewrite <-He|]. left. split; [done|lia].
      * left. exists j, e. split_and!; [done|done|lia].
    + right. split; [done|]. right. by split.
Qed.

Lemma stored_from_ids thread_id first events :
  se_event_id <$> stored_from thread_id first events = ne_event_id <$> events.
Proof.
  revert first. induction events as [|new events IH]; intros first; [done|].
  rewrite stored_from_cons. simpl. by rewrite IH.
Qed.

Lemma stored_from_length thread_id first events :
  length (stored_from thread_id first events) = length events.
Proof. unfold stored_from. by rewrite length_imap. Qed.

Lemma stored_from_lookup thread_id first events i e :
  stored_from thread_id first events !! i = Some e →
  ∃ new, events !! i = Some new ∧ e = stored_new thread_id (first + Z.of_nat i) new.
Proof.
  unfold stored_from. rewrite list_lookup_imap. intros (new & Hn & ->)%fmap_Some. by exists new.
Qed.

(** The events of an accepted stream, wherever they are stored. *)
Lemma stored_from_valid thread_id first events encoded :
  validate_state_id "thread" thread_id = Ok () → Forall2 (new_valid thread_id) events encoded →
  Forall (λ e, validate_stored_schema e = Ok ()) (stored_from thread_id first events) →
  Forall (λ e, is_ok (validate_stored_event e) = true) (stored_from thread_id first events) ∧
  sum_z event_charge (stored_from thread_id first events) = sum_z en_recovery_bytes encoded.
Proof.
  intros Ht Hf. revert first. induction Hf as [|new enc events encoded (Hid & Hc & Hv & He) Hf IH];
    intros first Hs; [done|].
  rewrite stored_from_cons in *. inversion_clear Hs as [|? ? Hs1 Hs2]. destruct (IH _ Hs2) as [IH1 IH2].
  split.
  - constructor; [|done]. unfold validate_stored_event. rewrite Hs1. simpl. by rewrite Hid, Ht, Hv, He.
  - change (event_charge (stored_new thread_id first new) + sum_z event_charge (stored_from thread_id (first + 1) events)
            = en_recovery_bytes enc + sum_z en_recovery_bytes encoded)%Z.
    rewrite IH2. f_equal. unfold event_charge, stored_event_recovery_bytes. simpl. by rewrite He.
Qed.

Lemma new_valid_checkpoints thread_id events encoded :
  Forall2 (new_valid thread_id) events encoded →
  Forall (λ new, is_checkpoint (ne_event new) = false) events.
Proof. induction 1 as [|new enc events encoded (_ & Hc & _) _ IH]; by constructor. Qed.

(** What an accepted new stream is. *)
Record new_stream_ok (thread_id : ThreadId) (events : list NewStreamEvent)
    (encoded : list EncodedStateEvent) (stored : list StoredEvent) : Prop := {
  ns_ids : NoDup (se_event_id <$> stored);
  ns_valid : Forall (λ e, is_ok (validate_stored_event e) = true) stored;
  ns_thread : Forall (λ e, se_thread_id e = thread_id) stored;
  ns_charge : sum_z event_charge stored = sum_z en_recovery_bytes encoded;
  ns_length : length stored = length events;
  ns_bounds : (len stored ≤ MAX_STATE_RECOVERY_EVENTS)%Z ∧
              (sum_z en_recovery_bytes encoded ≤ STATE_THREAD_RECOVERY_BYTE_LIMIT)%Z;
  ns_projects : ∃ thread, project_events stored = Ok (Some thread) ∧ th_id thread = thread_id ∧
                          existsb is_running (th_turns thread) = false;
}.

Lemma validate_new_stream_ok thread_id events encoded first :
  validate_new_stream thread_id events = Ok encoded →
  new_stream_ok thread_id events encoded (stored_from thread_id first events) ∧
  Forall2 (new_valid thread_id) events encoded.
Proof.
  unfold validate_new_stream. intros E. inv_ok. subst. bool_hyps.
  match goal with Hx : fold_m (new_stream_step _) _ _ = Ok _ |- _ =>
    apply (new_stream_fold thread_id events _ _ 0) in Hx as (encoded & Hf & He & Hr & Hs & Hn & _) end.
  simpl in *.
  match goal with Hx : project_events _ = Ok _ |- _ => rename Hx into Hproj end.
  rewrite Hs in Hproj.
  rewrite (project_from thread_id events _ first) in Hproj
    by by eapply new_valid_checkpoints.
  destruct (stored_from_valid thread_id first events encoded) as [Hval Hch]; [done|done| |].
  { apply apply_events_ok in Hproj as (c & Hc & _). by eapply replay_schema. }
  split; [|by rewrite He].
  unfold GENERAL_EVENT_LIMIT, GENERAL_RECOVERY_LIMIT, saturating_sub, STATE_THREAD_EVENT_LIMIT,
    STATE_TERMINAL_EVENT_RESERVE, STATE_THREAD_RECOVERY_BYTE_LIMIT, STATE_TERMINAL_RECOVERY_BYTE_RESERVE in *.
  constructor.
  - by rewrite stored_from_ids.
  - done.
  - apply Forall_forall. intros e (i & Hi)%list_elem_of_lookup. by apply stored_from_lookup in Hi as (new & _ & ->).
  - by rewrite He.
  - apply stored_from_length.
  - unfold len in *. rewrite stored_from_length, He. unfold MAX_STATE_RECOVERY_EVENTS,
      STATE_THREAD_EVENT_LIMIT, STATE_THREAD_RECOVERY_BYTE_LIMIT. split; lia.
  - eexists. split; [done|]. split; [by apply dec_stable|done].
Qed.

(** The store after the creation of a stream. *)
Definition materialized (thread_id : ThreadId) (stored : list StoredEvent) (recovery_bytes : Z)
    (tenant_id : option str) (data : MemoryStoreData) : MemoryStoreData := {|
  ms_events := ms_events data ++ stored;
  ms_event_positions := insert_positions (length (ms_events data)) stored (ms_event_positions data);
  ms_stream_versions := <[thread_id := len stored]> (ms_stream_versions data);
  ms_stream_recovery_bytes := <[thread_id := recovery_bytes]> (ms_stream_recovery_bytes data);
  ms_stream_tenants := <[thread_id := tenant_id]> (ms_stream_tenants data);
  ms_stream_names := insert_some thread_id (final_stream_name stored) (ms_stream_names data);
  ms_stream_lineages := insert_some thread_id (final_stream_lineage stored) (ms_stream_lineages data);
  ms_agent_loop_waits := ms_agent_loop_waits data;
  ms_agent_loop_due := ms_agent_loop_due data |}.

Lemma sum_recovery_ok encoded : ∀ r, sum_recovery encoded = Ok r → r = sum_z en_recovery_bytes encoded.
Proof.
  assert (∀ s r, fold_m (λ total event, ok_or (checked_add u64_max total (en_recovery_bytes event))
                    (ste "stream recovery charge overflow" [])) s encoded = Ok r →
                 r = (s + sum_z en_recovery_bytes encoded)%Z) as Hs.
  { induction encoded as [|e encoded IH]; intros s r E.
    - injection E as <-. unfold sum_z. simpl. lia.
    - cbn [fold_m] in E. apply bind_ok in E as (s1 & E1 & E2). inv_ok.
      apply checked_add_Some in E1 as [-> _]. rewrite (IH _ _ E2). unfold sum_z. simpl. lia. }
  intros r E. apply Hs in E. lia.
Qed.

Lemma create_ok thread_id events data data' stored :
  create_stream_atomic thread_id events data = (data', Ok stored) →
  ∃ encoded tenant_id, validate_new_stream thread_id events = Ok encoded ∧
    default 0%Z (ms_stream_versions data !! thread_id) = 0%Z ∧
    (∀ id, id ∈ (ne_event_id <$> events) → ms_event_positions data !! id = None) ∧
    stored = stored_from thread_id (len (ms_events data) + 1) events ∧
    final_stream_tenant stored = Ok tenant_id ∧ ms_agent_loop_waits data !! thread_id = None ∧
    data' = materialized thread_id stored (sum_z en_recovery_bytes encoded) tenant_id data.
Proof.
  unfold create_stream_atomic. intros E. inv_M.
  match goal with Hx : (let '(_, _) := ?p in _) _ = _ |- _ => destruct p as [sequence l] end.
  inv_M. inv_ok. bool_hyps.
  match goal with Hx : fold_m (store_new_step _) _ _ = Ok _ |- _ =>
    apply store_new_fold in Hx; simpl in Hx end. subst.
  match goal with Hx : sum_recovery _ = Ok _ |- _ => apply sum_recovery_ok in Hx; subst end.
  eexists _, _. split_and!; try done.
  - intros id (new & -> & Hin)%list_elem_of_fmap.
    match goal with Hx : existsb _ _ = false |- _ => rename Hx into Hex end.
    destruct (ms_event_positions data !! ne_event_id new) as [i|] eqn:Hp; [|done].
    exfalso. rewrite <-not_true_iff_false, existsb_exists in Hex. apply Hex. exists new.
    split; [by apply list_elem_of_In|by rewrite Hp].
  - match goal with Hx : present ?o = false |- _ => by destruct o end.
Qed.

Lemma create_err thread_id events data data' e :
  create_stream_atomic thread_id events data = (data', Err e) → data' = data.
Proof.
  unfold create_stream_atomic. intros E. inv_M_err; try done.
  match goal with Hx : (let '(_, _) := ?p in _) _ = _ |- _ => destruct p as [sequence l] end.
  inv_M_err; done.
Qed.

Lemma stream_materialized thread_id stored r tenant data other :
  Forall (λ e, se_thread_id e = thread_id) stored →
  stream (materialized thread_id stored r tenant data) other
  = stream data other ++ (if bool_decide (thread_id = other) then stored else []).
Proof.
  intros Hf. unfold stream. simpl. rewrite List.filter_app. f_equal.
  induction Hf as [|e stored He Hf IH]; simpl; [by case_bool_decide|].
  rewrite IH. unfold of_thread. rewrite He. by case_bool_decide.
Qed.

Lemma materialized_ok thread_id events encoded tenant_id data :
  store_ok data → validate_new_stream thread_id events = Ok encoded →
  default 0%Z (ms_stream_versions data !! thread_id) = 0%Z →
  (∀ id, id ∈ (ne_event_id <$> events) → ms_event_positions data !! id = None) →
  let stored := stored_from thread_id (len (ms_events data) + 1) events in
  final_stream_tenant stored = Ok tenant_id → ms_agent_loop_waits data !! thread_id = None →
  store_ok (materialized thread_id stored (sum_z en_recovery_bytes encoded) tenant_id data).
Proof.
  intros Hok Hv Hver Hfresh stored Hten Hwait.
  destruct (validate_new_stream_ok _ _ _ (len (ms_events data) + 1) Hv) as [Hns _]. fold stored in Hns.
  rewrite version_default in Hver by done.
  assert (stream data thread_id = []) as Hempty.
  { destruct (stream data thread_id); [done|]. unfold len in Hver. simpl in Hver. lia. }
  set (data' := materialized thread_id stored (sum_z en_recovery_bytes encoded) tenant_id data).
  assert (∀ t, t ≠ thread_id → stream data' t = stream data t) as Hother.
  { intros t Ht. unfold data'. rewrite stream_materialized by apply Hns.
    rewrite bool_decide_false by done. apply app_nil_r. }
  assert (stream data' thread_id = stored) as Hsame.
  { unfold data'. rewrite stream_materialized by apply Hns. by rewrite bool_decide_true, Hempty. }
  destruct (ns_projects _ _ _ _ Hns) as (thread & Hproj & Hid & Hrun).
  assert (stored ≠ []) as Hne by by (intros Hn; rewrite Hn in Hproj).
  assert (∀ t : str, t ≠ thread_id → ms_stream_versions data' !! t = ms_stream_versions data !! t ∧
    ms_stream_recovery_bytes data' !! t = ms_stream_recovery_bytes data !! t ∧
    ms_stream_tenants data' !! t = ms_stream_tenants data !! t) as Hkeep.
  { intros t Ht. simpl. by rewrite !lookup_insert_ne by done. }
  constructor.
  - intros id i. simpl. rewrite insert_positions_lookup by apply Hns. split.
    + intros [(j & e & Hj & He & ->)|[_ (e & He & Hi)%(so_position _ Hok)]].
      * exists e. split; [|done]. rewrite lookup_app_r by lia. by replace (_ + j - _)%nat with j by lia.
      * exists e. split; [by apply lookup_app_l_Some|done].
    + intros (e & [He|[Hl He]]%lookup_app_Some & Hi).
      * assert (ms_event_positions data !! id = Some i) as Hp by (apply (so_position _ Hok); by exists e).
        right. split; [|done]. unfold stored. rewrite stored_from_ids. intros Hin%Hfresh. congruence.
      * left. exists (i - length (ms_events data))%nat, e. split_and!; [done|done|lia].
  - intros i e. simpl. intros [He|[Hl He]]%lookup_app_Some; [by eapply so_sequence|].
    apply stored_from_lookup in He as (new & _ & ->). simpl. unfold len. lia.
  - intros e. simpl. intros [He|He]%elem_of_app; [by eapply so_valid|].
    exact (proj1 (Forall_forall _ _) (ns_valid _ _ _ _ Hns) e He).
  - intros t. destruct (decide (t = thread_id)) as [->|Ht].
    + rewrite Hsame, bool_decide_false by done. apply lookup_insert_eq.
    + rewrite Hother, (proj1 (Hkeep t Ht)) by done. apply (so_version _ Hok).
  - intros t. destruct (decide (t = thread_id)) as [->|Ht].
    + rewrite Hsame, bool_decide_false, (ns_charge _ _ _ _ Hns) by done. apply lookup_insert_eq.
    + rewrite Hother, (proj1 (proj2 (Hkeep t Ht))) by done. apply (so_recovery _ Hok).
  - intros t. destruct (decide (t = thread_id)) as [->|Ht].
    + rewrite Hsame, (ns_charge _ _ _ _ Hns). apply (ns_bounds _ _ _ _ Hns).
    + rewrite Hother by done. apply (so_bounds _ Hok).
  - intros t. destruct (decide (t = thread_id)) as [->|Ht].
    + rewrite Hsame. simpl. rewrite lookup_insert_eq. apply project_created in Hproj.
      destruct stored as [|[] rest]; [done|]. destruct Hproj as [Hcr Hrest]. simpl in *.
      destruct se_event; try done. injection Hten as ->. split; [eauto|done].
    + rewrite Hother, (proj2 (proj2 (Hkeep t Ht))) by done. apply (so_created _ Hok).
  - intros t. destruct (decide (t = thread_id)) as [->|Ht].
    + rewrite Hsame. simpl. rewrite Hwait. exists stored, []. rewrite app_nil_r.
      split_and!; [done|done|]. right. by exists thread.
    + rewrite Hother by done. apply (so_rows _ Hok).
  - apply (so_row_thread _ Hok).
  - apply (so_due _ Hok).
Qed.

(** * Runs of the store *)

(** One mutating call, by any client. *)
Inductive store_step (data : MemoryStoreData) : MemoryStoreData → Prop :=
| step_append pending data' r :
    append_classified pending data = (data', r) → store_step data data'
| step_create thread_id events data' r :
    create_stream_atomic thread_id events data = (data', r) → store_step data data'.

Lemma store_step_ok data data' : store_ok data → store_step data data' → store_ok data'.
Proof.
  intros Hok [pending ? r E|thread_id events ? r E].
  - destruct r as [res|e]; [|by rewrite (append_err _ _ _ _ E)].
    destruct (append_ok _ _ _ _ E) as [[-> _]|(encoded & change & H1' & H2' & H3' & H4' & H5' & H6' & -> & _)];
      [done|]. by apply appended_ok.
  - destruct r as [stored|e]; [|by rewrite (create_err _ _ _ _ _ E)].
    destruct (create_ok _ _ _ _ _ E) as (encoded & tenant & H1' & H2' & H3' & -> & H4' & H5' & ->).
    by eapply materialized_ok.
Qed.

Lemma store_reachable_ok data : rtc store_step MemoryEventStore_new data → store_ok data.
Proof.
  intros Hr. pose proof new_store_ok as Hok. induction Hr as [|d d1 d2 Hs _ IH]; [done|].
  apply IH. by eapply store_step_ok.
Qed.

(** ** Rows *)

Lemma stream_events_valid data thread_id :
  store_ok data → Forall (stream_event thread_id) (stream data thread_id).
Proof.
  intros Hok. apply Forall_forall. intros e He. destruct (stream_valid _ _ _ Hok He) as [Hv Ht].
  split; [done|]. by destruct (validate_stored_event_eq e Hv) as (_ & _ & _ & Hev & _).
Qed.

Lemma store_row_agrees data thread_id thread :
  store_ok data → project_events (stream data thread_id) = Ok (Some thread) →
  th_id thread = thread_id ∧
  row_agrees thread_id (th_turns thread) (ms_agent_loop_waits data !! thread_id).
Proof.
  intros Hok E. pose proof (stream_events_valid data thread_id Hok) as Hv.
  destruct (so_rows _ Hok thread_id) as (base & rest & Hs & Hr & Hb). rewrite Hs in E, Hv.
  apply Forall_app in Hv as [_ Hv]. apply apply_events_ok in E as (c & Hc & Ht & _).
  rewrite fold_m_app in Hc. apply bind_ok in Hc as (c1 & Hc1 & Hc).
  assert (cursor_ok c1) as Hok1 by by apply (replay_cursor_ok base (projection_start None)).
  assert (row_tracks thread_id c1 None) as Hrow1.
  { destruct Hb as [->|(t & Hp & Hid & Hrun)]; [by injection Hc1 as <-|].
    apply apply_events_ok in Hp as (c2 & Hc2 & Ht2 & _). assert (c2 = c1) as -> by congruence.
    unfold row_tracks. rewrite Ht2. split; [done|]. unfold row_live.
    destruct (running_turn (th_turns t)) as [u|] eqn:Hu; [|done].
    unfold running_turn in Hu. apply List.find_some in Hu as [Hin Hu]. exfalso.
    rewrite <-not_true_iff_false, existsb_exists in Hrun. apply Hrun. by exists u. }
  pose proof (wait_row_tracks_from _ _ _ _ _ _ Hok1 Hrow1 Hv Hc Hr) as Hrow.
  unfold row_tracks in Hrow. rewrite Ht in Hrow. destruct Hrow as [Hid Hl]. split; [done|].
  by apply row_live_agrees.
Qed.

(** ** Reading a stream back *)

Lemma event_charge_bounds event :
  is_ok (validate_stored_event event) = true →
  (0 ≤ event_charge event ≤ MAX_STATE_EVENT_BYTES + STATE_EVENT_RECOVERY_OVERHEAD_BYTES)%Z.
Proof.
  intros Hv. destruct (validate_stored_event_eq event Hv) as (_ & E & _).
  unfold stored_event_recovery_bytes, encode_state_event in E. inv_ok. subst. simpl in *.
  match goal with Hx : checked_add _ _ _ = Some _ |- _ => apply checked_add_Some in Hx as [-> _] end.
  match goal with Hx : of_bounded _ _ = Ok _ |- _ =>
    rewrite to_bounded_json_vec_exact in Hx by done; rename Hx into Hb end.
  destruct (to_json (se_event event)) as [text|]; [|done].
  destruct (str_len text <=? MAX_STATE_EVENT_BYTES)%Z eqn:Hl; [|done]. injection Hb as <-. bool_hyps.
  pose proof (str_len_nonneg text). rewrite <-E. unfold STATE_EVENT_RECOVERY_OVERHEAD_BYTES. lia.
Qed.

Definition all_valid (events : list StoredEvent) : Prop :=
  Forall (λ e, is_ok (validate_stored_event e) = true) events.

Lemma charge_nonneg events : all_valid events → (0 ≤ sum_z event_charge events)%Z.
Proof.
  intros Hv. apply sum_z_nonneg. intros e He. apply event_charge_bounds.
  exact (proj1 (Forall_forall _ _) Hv e He).
Qed.

(** A page is a prefix of what is left within the budget, and not empty when
    something is left. *)
Lemma page_loop_prefix maximum events :
  (maximum + MAX_STATE_EVENT_BYTES + STATE_EVENT_RECOVERY_OVERHEAD_BYTES ≤ u64_max)%Z →
  (MAX_STATE_EVENT_BYTES + STATE_EVENT_RECOVERY_OVERHEAD_BYTES ≤ maximum)%Z →
  all_valid events → ∀ used page, (0 ≤ used)%Z → (page = [] → used = 0%Z) →
  (used ≤ maximum)%Z →
  ∃ prefix, event_page_loop maximum used page events = Ok (page ++ prefix) ∧ prefix `prefix_of` events ∧
    (used + sum_z event_charge prefix ≤ maximum)%Z ∧ (page = [] → events ≠ [] → prefix ≠ []).
Proof.
  intros Hm Hmin Hv. induction Hv as [|e events He Hv IH]; intros used page Hu Hp Hle; cbn [event_page_loop].
  { exists []. rewrite app_nil_r. split_and!; [done|done|unfold sum_z; simpl; lia|done]. }
  pose proof (event_charge_bounds e He) as Hb.
  destruct (validate_stored_event_eq e He) as (_ & -> & _). cbn [mbind result_bind].
  assert (used + event_charge e ≤ maximum ∨ page ≠ [])%Z as Hroom.
  { destruct (decide (page = [])) as [Hn|]; [|by right]. left. rewrite (Hp Hn). lia. }
  unfold checked_add. destruct (Z.leb_spec (used + event_charge e) u64_max) as [H64|H64]; simpl.
  - destruct (Z.ltb_spec maximum (used + event_charge e)) as [Hover|Hfit].
    + destruct Hroom as [|Hpn]; [lia|]. rewrite bool_decide_false by done. exists [].
      rewrite app_nil_r. split_and!; [done|apply prefix_nil|unfold sum_z; simpl; lia|done].
    + destruct (IH (used + event_charge e)%Z (page ++ [e])) as (prefix & -> & Hpre & Hsum & _);
        [lia|by destruct page|lia|].
      exists (e :: prefix). rewrite <-app_assoc. split_and!; [done|by apply prefix_cons| |done].
      unfold sum_z in *. simpl. lia.
  - lia.
Qed.

Definition seq_before (a b : StoredEvent) : Prop := (se_sequence a < se_sequence b)%Z.

Lemma sequences_sorted l k :
  (∀ i e, l !! i = Some e → se_sequence e = (k + Z.of_nat i + 1)%Z) →
  StronglySorted seq_before l ∧ Forall (λ e, k < se_sequence e)%Z l.
Proof.
  revert k. induction l as [|e l IH]; intros k Hk; [split; constructor|].
  assert (se_sequence e = k + 1)%Z as He by (rewrite (Hk 0%nat e eq_refl); lia).
  destruct (IH (k + 1)%Z) as [Hs Hf].
  { intros i x Hx. rewrite (Hk (S i) x Hx). lia. }
  split; constructor; [done| |lia|].
  - eapply Forall_impl; [exact Hf|]. intros x Hx. unfold seq_before. simpl in *. lia.
  - eapply Forall_impl; [exact Hf|]. intros x Hx. simpl in *. lia.
Qed.

Lemma filter_fmap_NoDup {A B} (f : A → B) (p : A → bool) l :
  NoDup (f <$> l) → NoDup (f <$> List.filter p l).
Proof.
  induction l as [|x l IH]; simpl; [done|]. intros [Hx Hn]%NoDup_cons.
  destruct (p x); [|by apply IH]. simpl. apply NoDup_cons. split; [|by apply IH].
  intros (y & E & Hy)%list_elem_of_fmap. apply Hx. apply list_elem_of_fmap. exists y. split; [done|].
  apply list_elem_of_In, filter_In in Hy as [Hy _]. by apply list_elem_of_In.
Qed.

Lemma stream_sorted data thread_id :
  store_ok data →
  StronglySorted seq_before (stream data thread_id) ∧
  Forall (λ e, 0 < se_sequence e)%Z (stream data thread_id) ∧
  NoDup (se_event_id <$> stream data thread_id).
Proof.
  intros Hok. destruct (sequences_sorted (ms_events data) 0) as [Hs Hf].
  { intros i e He. rewrite (so_sequence _ Hok i e He). lia. }
  split_and!; [by apply StronglySorted_filter| |].
  { apply Forall_forall. intros e He. apply list_elem_of_In, filter_In in He as [He _].
    apply (proj1 (Forall_forall _ _) Hf). by apply list_elem_of_In. }
  apply filter_fmap_NoDup.
  apply NoDup_alt. intros i j id Hi Hj. rewrite list_lookup_fmap in Hi, Hj.
  apply fmap_Some in Hi as (a & Ha & ->). apply fmap_Some in Hj as (b & Hb & Hab).
  assert (ms_event_positions data !! se_event_id a = Some i) as Hpi by (apply (so_position _ Hok); by exists a).
  assert (ms_event_positions data !! se_event_id a = Some j) as Hpj
    by (apply (so_position _ Hok); exists b; by rewrite Hab).
  congruence.
Qed.

Definition after_of (events : list StoredEvent) : Z :=
  match last events with Some event => se_sequence event | None => 0 end.

Lemma after_bound events e :
  StronglySorted seq_before events → e ∈ events → (se_sequence e ≤ after_of events)%Z.
Proof.
  unfold after_of. induction events as [|x events _] using rev_ind; [by intros _ ?%elem_of_nil|].
  rewrite last_snoc. intros Hs [He| ->%list_elem_of_singleton]%elem_of_app; [|lia].
  apply StronglySorted_app in Hs as (Hs & _ & _). specialize (Hs e x He). unfold seq_before in Hs.
  enough (se_sequence e < se_sequence x)%Z by lia. apply Hs. by left.
Qed.

Lemma filter_after read tail :
  StronglySorted seq_before (read ++ tail) → Forall (λ e, 0 < se_sequence e)%Z (read ++ tail) →
  List.filter (λ e, after_of read <? se_sequence e)%Z (read ++ tail) = tail.
Proof.
  intros Hs Hpos. rewrite List.filter_app. apply StronglySorted_app in Hs as (Hlt & Hr & Ht).
  assert (List.filter (λ e, after_of read <? se_sequence e)%Z read = []) as ->.
  { apply filter_none. intros e He. apply Z.ltb_ge. by apply after_bound. }
  simpl. apply filter_all. intros e He. apply Z.ltb_lt. unfold after_of.
  destruct (last read) as [x|] eqn:Hl.
  - apply (Hlt x e); [|done]. apply last_Some_elem_of. done.
  - apply Forall_app in Hpos as [_ Hpos]. exact (proj1 (Forall_forall _ _) Hpos e He).
Qed.

Lemma filter_and {A} (f g : A → bool) l :
  List.filter (λ x, f x && g x) l = List.filter g (List.filter f l).
Proof.
  induction l as [|x l IH]; simpl; [done|]. destruct (f x); simpl; [|done]. by rewrite IH.
Qed.

(** A page of the stream passes the checks on what a store returned. *)
Lemma stored_fold thread_id page : ∀ c,
  all_valid page → Forall (λ e, se_thread_id e = thread_id) page → StronglySorted seq_before page →
  Forall (λ e, sc_previous_sequence c < se_sequence e)%Z page → NoDup (se_event_id <$> page) →
  (∀ id, id ∈ (se_event_id <$> page) → id ∉ sc_event_ids c) → (0 ≤ sc_recovery_bytes c)%Z →
  (sc_recovery_bytes c + sum_z event_charge page ≤ u64_max)%Z →
  ∃ c', fold_m (validate_stored_step thread_id) c page = Ok c' ∧
    sc_recovery_bytes c' = (sc_recovery_bytes c + sum_z event_charge page)%Z.
Proof.
  induction page as [|e page IH]; intros c Hv Ht Hs Hprev Hn Hf H0' Hmax.
  { exists c. split; [done|]. unfold sum_z. simpl. lia. }
  inversion_clear Hv as [|? ? Hve Hv']. inversion_clear Ht as [|? ? Hte Ht'].
  inversion_clear Hs as [|? ? Hs' Hse]. inversion_clear Hprev as [|? ? Hpe Hprev'].
  apply NoDup_cons in Hn as [Hne Hn]. pose proof (event_charge_bounds e Hve) as Hb.
  pose proof (charge_nonneg page Hv') as Hp.
  assert (sum_z event_charge (e :: page) = event_charge e + sum_z event_charge page)%Z as Hsum by done.
  destruct (IH {| sc_previous_sequence := se_sequence e;
                  sc_event_ids := {[se_event_id e]} ∪ sc_event_ids c;
                  sc_recovery_bytes := sc_recovery_bytes c + event_charge e |})
    as (c' & Hc' & Hr); simpl; try done; try lia.
  { intros id Hid [->%elem_of_singleton|Hin]%elem_of_union; [done|]. apply (Hf id); [by right|done]. }
  exists c'. simpl in *. split; [|lia]. unfold validate_stored_step at 1.
  destruct (validate_stored_event_eq e Hve) as (-> & _). simpl.
  unfold add_recovery_bytes, checked_add.
  rewrite (proj2 (Z.leb_le (sc_recovery_bytes c + event_charge e) u64_max)) by lia. simpl.
  rewrite (bool_decide_false (se_thread_id e ≠ thread_id)) by (by intros []).
  rewrite (proj2 (Z.leb_gt (se_sequence e) (sc_previous_sequence c))) by lia. simpl.
  rewrite (bool_decide_false (se_event_id e ∈ sc_event_ids c)) by (apply Hf; by left). exact Hc'.
Qed.

Lemma remember_ok page : ∀ ids,
  NoDup (se_event_id <$> page) → (∀ id, id ∈ (se_event_id <$> page) → id ∉ ids) →
  remember_event_ids ids page = Ok (list_to_set (se_event_id <$> page) ∪ ids).
Proof.
  unfold remember_event_ids. induction page as [|e page IH]; intros ids Hn Hf; cbn [fold_m].
  { f_equal. set_solver. }
  apply NoDup_cons in Hn as [Hne Hn].
  rewrite (bool_decide_false (se_event_id e ∈ ids)) by (apply Hf; by left). simpl.
  rewrite IH; [f_equal; set_solver|done|].
  intros id Hid [->%elem_of_singleton|Hin]%elem_of_union; [done|]. apply (Hf id); [by right|done].
Qed.

(** The loop has read a prefix of the stream. *)
Definition has_read (data : MemoryStoreData) (thread_id : ThreadId) (c : CheckedEvents) : Prop :=
  ck_events c `prefix_of` stream data thread_id ∧ ck_after_sequence c = after_of (ck_events c) ∧
  ck_recovery_bytes c = sum_z event_charge (ck_events c) ∧
  ck_event_ids c = list_to_set (se_event_id <$> ck_events c).

Lemma last_page_after c page :
  page ≠ [] → match last page with Some event => se_sequence event | None => ck_after_sequence c end
              = after_of (ck_events c ++ page).
Proof.
  intros Hp. unfold after_of. destruct page as [|e page _] using rev_ind; [done|].
  by rewrite app_assoc, !last_snoc.
Qed.

(** The next page: a prefix of what is left, not empty when something is. *)
Lemma next_page data thread_id c tail :
  store_ok data → has_read data thread_id c → stream data thread_id = ck_events c ++ tail →
  ∃ page, events_page data thread_id (ck_after_sequence c) SNAPSHOT_TAIL_PAGE
            MAX_STATE_EVENT_PAGE_RECOVERY_BYTES = Ok page ∧ page `prefix_of` tail ∧
    (sum_z event_charge page ≤ MAX_STATE_EVENT_PAGE_RECOVERY_BYTES)%Z ∧
    (len page ≤ SNAPSHOT_TAIL_PAGE)%Z ∧ (tail ≠ [] → page ≠ []).
Proof.
  intros Hok (_ & Ha & _) Hs. destruct (stream_sorted _ thread_id Hok) as (Hsort & Hpos & _).
  rewrite Hs in Hsort, Hpos. unfold events_page. simpl.
  rewrite filter_and. change (List.filter (of_thread thread_id) (ms_events data)) with (stream data thread_id).
  rewrite Ha, Hs, filter_after by done.
  assert (all_valid (ck_events c ++ tail)) as Hv.
  { rewrite <-Hs. apply Forall_forall. intros e He. by destruct (stream_valid _ _ _ Hok He). }
  apply Forall_app in Hv as [_ Hv].
  destruct (page_loop_prefix MAX_STATE_EVENT_PAGE_RECOVERY_BYTES (take (Z.to_nat SNAPSHOT_TAIL_PAGE) tail))
    with (used := 0%Z) (page := @nil StoredEvent) as (page & Hp & Hpre & Hsum & Hne); try done.
  { by apply Forall_take. }
  exists page. split_and!; [done| |lia| |].
  - etrans; [exact Hpre|]. exists (drop (Z.to_nat SNAPSHOT_TAIL_PAGE) tail). by rewrite take_drop.
  - apply prefix_length in Hpre. rewrite length_take in Hpre. unfold len, SNAPSHOT_TAIL_PAGE in *. lia.
  - intros Ht. apply Hne; [done|]. by destruct tail.
Qed.

(** A segment of the stream, with its events valid and in order. *)
Lemma stream_segment data thread_id read page rest :
  store_ok data → stream data thread_id = read ++ page ++ rest →
  all_valid page ∧ Forall (λ e, se_thread_id e = thread_id) page ∧ StronglySorted seq_before page ∧
  Forall (λ e, after_of read < se_sequence e)%Z page ∧ NoDup (se_event_id <$> page) ∧
  (∀ id, id ∈ (se_event_id <$> page) → id ∉ (list_to_set (se_event_id <$> read) : gset str)).
Proof.
  intros Hok Hs. destruct (stream_sorted _ thread_id Hok) as (Hsort & Hpos & Hn).
  assert (∀ e, e ∈ page → is_ok (validate_stored_event e) = true ∧ se_thread_id e = thread_id) as He.
  { intros e He. apply (stream_valid _ _ _ Hok). rewrite Hs. set_solver. }
  rewrite Hs, app_assoc in Hsort, Hpos. rewrite Hs, !fmap_app in Hn.
  apply StronglySorted_app in Hsort as (_ & Hsort & _). apply Forall_app in Hpos as [Hpos _].
  pose proof (filter_after _ _ Hsort Hpos) as Hfilter.
  apply StronglySorted_app in Hsort as (_ & _ & Hsort).
  apply NoDup_app in Hn as (_ & Hdisj & Hn). apply NoDup_app in Hn as (Hn & _ & _).
  split_and!; [|by apply Forall_forall; intros e Hin; apply He|done| |done|].
  - apply Forall_forall. intros e Hin. by apply He.
  - apply Forall_forall. intros e Hin. rewrite <-Hfilter in Hin.
    apply list_elem_of_In, filter_In in Hin as [_ Hin]. by apply Z.ltb_lt.
  - intros id Hid Hin%elem_of_list_to_set. apply (Hdisj id Hin). apply elem_of_app. by left.
Qed.

(** The counts and charges of what was read stay within the bounds. *)
Lemma segment_bounds data thread_id read page rest :
  store_ok data → stream data thread_id = read ++ page ++ rest →
  (0 ≤ sum_z event_charge read)%Z ∧ (0 ≤ sum_z event_charge page)%Z ∧
  (sum_z event_charge read + sum_z event_charge page ≤ STATE_THREAD_RECOVERY_BYTE_LIMIT)%Z ∧
  (len (read ++ page) ≤ MAX_STATE_RECOVERY_EVENTS)%Z.
Proof.
  intros Hok Hs. destruct (so_bounds _ Hok thread_id) as [Hmax Hlim].
  assert (all_valid (stream data thread_id)) as Hv.
  { apply Forall_forall. intros e He. by destruct (stream_valid _ _ _ Hok He). }
  rewrite Hs in *. rewrite !sum_z_app in Hlim. unfold len in *. rewrite !length_app in Hmax.
  rewrite length_app. apply Forall_app in Hv as [H1' Hv]. apply Forall_app in Hv as [H2' H3'].
  pose proof (charge_nonneg _ H1'). pose proof (charge_nonneg _ H2'). pose proof (charge_nonneg _ H3'). lia.
Qed.

Lemma page_accepted data thread_id read page rest :
  store_ok data → stream data thread_id = read ++ page ++ rest →
  (sum_z event_charge page ≤ MAX_STATE_EVENT_PAGE_RECOVERY_BYTES)%Z →
  (len page ≤ SNAPSHOT_TAIL_PAGE)%Z →
  validate_stored_events thread_id page (after_of read) (Some SNAPSHOT_TAIL_PAGE)
    (Some MAX_STATE_EVENT_PAGE_RECOVERY_BYTES) = Ok (sum_z event_charge page).
Proof.
  intros Hok Hs Hsum Hlen. destruct (stream_segment _ _ _ _ _ Hok Hs) as (Hv & Ht & Hsort & Hpos & Hn & _).
  destruct (stored_fold thread_id page {| sc_previous_sequence := after_of read; sc_event_ids := ∅;
    sc_recovery_bytes := 0 |}) as (c & Hfold & Hc); simpl; try done.
  { unfold MAX_STATE_EVENT_PAGE_RECOVERY_BYTES, u64_max in *. lia. }
  unfold validate_stored_events. rewrite (proj2 (Z.ltb_ge SNAPSHOT_TAIL_PAGE (len page))) by done.
  simpl. rewrite Hfold. simpl in *. rewrite Hc, (proj2 (Z.ltb_ge _ _)) by done. done.
Qed.

Lemma read_round data thread_id c tail :
  store_ok data → has_read data thread_id c → stream data thread_id = ck_events c ++ tail →
  (tail = [] ∧ checked_events_round data thread_id c = Ok None) ∨
  ∃ c', checked_events_round data thread_id c = Ok (Some c') ∧ has_read data thread_id c' ∧
    (length (ck_events c) < length (ck_events c'))%nat.
Proof.
  intros Hok Hread Hs. destruct (next_page _ _ _ _ Hok Hread Hs) as (page & Hp & [rest Ht] & Hsum & Hlen & Hne).
  destruct Hread as (_ & Ha & Hr & Hids). rewrite Ht in Hs.
  pose proof (page_accepted _ _ _ _ _ Hok Hs Hsum Hlen) as Hacc.
  destruct (segment_bounds _ _ _ _ _ Hok Hs) as (Hb1 & Hb2 & Hb3 & Hb4).
  destruct (stream_segment _ _ _ _ _ Hok Hs) as (_ & _ & _ & _ & Hn & Hfr).
  unfold checked_events_round. rewrite Hp. cbn [mbind result_bind]. rewrite Ha, Hacc. cbn [mbind result_bind].
  case_bool_decide as Hpage.
  { left. split; [|done]. destruct tail; [done|]. by destruct (Hne ltac:(done)). }
  right. rewrite Hr, Hids. unfold checked_add.
  rewrite (proj2 (Z.leb_le (sum_z event_charge (ck_events c) + sum_z event_charge page) u64_max))
    by (unfold STATE_THREAD_RECOVERY_BYTE_LIMIT, u64_max in *; lia).
  simpl. rewrite (proj2 (Z.ltb_ge _ _)) by done. simpl. rewrite (remember_ok page _ Hn Hfr). simpl.
  rewrite (proj2 (Z.ltb_ge _ _)) by done. simpl. eexists. split; [done|]. simpl. split.
  - split_and!; simpl.
    + exists rest. by rewrite Hs, app_assoc.
    + rewrite <-Ha. by apply last_page_after.
    + by rewrite sum_z_app.
    + rewrite fmap_app. apply leibniz_equiv. rewrite list_to_set_app. set_solver.
  - rewrite length_app. destruct page; [done|]. simpl. lia.
Qed.

Lemma checked_events_loop_ok fuel data thread_id : ∀ c,
  store_ok data → has_read data thread_id c →
  (length (stream data thread_id) - length (ck_events c) < fuel)%nat →
  ∃ c', checked_events_loop fuel data thread_id c = Some (Ok c') ∧
    ck_events c' = stream data thread_id ∧
    ck_recovery_bytes c' = sum_z event_charge (stream data thread_id).
Proof.
  induction fuel as [|fuel IH]; intros c Hok Hread Hf; [lia|]. simpl.
  pose proof Hread as ([tail Hs] & _ & Hr & _).
  destruct (read_round _ _ _ _ Hok Hread Hs) as [[-> ->]|(c' & -> & Hread' & Hl)].
  - exists c. rewrite app_nil_r in Hs. by rewrite Hs.
  - apply IH; [done|done|]. destruct Hread' as ([tail' Hs'] & _).
    rewrite Hs', length_app in *. lia.
Qed.
Lemma read_start_ok data thread_id :
  has_read data thread_id
    {| ck_after_sequence := 0; ck_recovery_bytes := 0; ck_event_ids := ∅; ck_events := [] |}.
Proof. split_and!; [apply prefix_nil|done|done|done]. Qed.

Lemma checked_events_ok fuel data thread_id :
  store_ok data → validate_state_id "thread" thread_id = Ok () →
  (length (stream data thread_id) < fuel)%nat →
  ∃ c, checked_events fuel data thread_id = Some (Ok c) ∧ ck_events c = stream data thread_id ∧
    ck_recovery_bytes c = sum_z event_charge (stream data thread_id).
Proof.
  intros Hok Hid Hf. unfold checked_events. rewrite Hid.
  apply checked_events_loop_ok; [done|apply read_start_ok|simpl; lia].
Qed.

End store.
