(* ===== verification/Temporal.v ===== *)
(** The temporal driver, src/src/temporal/mod.rs: one host-driven tick scans
    the Workflow Runs, the Human Handoffs, the Effects and the Agent Loop waits
    for what is due, then settles every due fence it found through the engine
    that owns it.

    The engines share their stores with other clients: the state of a tick is
    the four stores, and [await] is what the others do to them whenever the
    tick suspends, before each scan and before each command.  The State engine
    is its two operations the driver calls, the class [StateWaits], which
    StateEngine implements. *)

From Stdlib Require Import ZArith Lia.
From stdpp Require Import base tactics list gmap numbers strings option.
From stdpp Require Import list.
From S2P Require Import Prelude Kernel Digest TaskGraph TaskCoordinator Workflow WorkflowCoordinator WorkflowEngine Effect EffectCoordinator Handoff HandoffCoordinator Approval Journal WaitDue.

(** * Constants and data *)

Definition TEMPORAL_DRIVER_API_VERSION : Z := 3.
Definition MAX_TEMPORAL_SCAN_LIMIT : Z := 256.
Definition MAX_TEMPORAL_IDENTITY_BYTES : Z := 256.

Record TemporalTickCursor := {
  tc_workflow_after_run_id : option WorkflowRunId;
  tc_handoff_after_handoff_id : option HumanHandoffId;
  tc_effect_after_effect_id : option EffectId;
  tc_agent_loop_wait_after : option AgentLoopDueCursor;
}.

Record TemporalTickRequest := {
  tq_at_ms : Z;
  tq_scan_limit : Z;
  tq_cursor : TemporalTickCursor;
}.

Record TemporalScanProgress := {
  ts_scanned : Z;
  ts_due : Z;
  ts_has_more : bool;
}.

Inductive TemporalTarget :=
| TargetWorkflowWait (run_id : WorkflowRunId) (revision : Z) (wait_id : WorkflowWaitId)
    (due_at_ms : Z)
| TargetHumanHandoffClaim (handoff_id : HumanHandoffId) (revision : Z)
    (claim_id : HumanHandoffClaimId) (expires_at_ms : Z)
| TargetEffectLease (effect_id : EffectId) (revision : Z) (lease_id : EffectLeaseId)
    (attempt : Z) (expires_at_ms : Z)
| TargetAgentLoopWait (phase : AgentLoopDuePhase) (thread_id : ThreadId) (turn_id : TurnId)
    (wait_id : AgentLoopWaitId) (revision observed_stream_version due_at_ms : Z).

Inductive TemporalAttemptOutcome :=
| AttemptApplied
| AttemptDuplicate
| AttemptFenced (actual_revision : Z)
| AttemptStreamFenced (actual_stream_version : Z)
| AttemptFailed.

Record TemporalAttempt := {
  ta_target : TemporalTarget;
  ta_command_id : str;
  ta_outcome : TemporalAttemptOutcome;
}.

Record TemporalTickReport := {
  tr_at_ms : Z;
  tr_workflows : TemporalScanProgress;
  tr_human_handoffs : TemporalScanProgress;
  tr_effects : TemporalScanProgress;
  tr_agent_loop_waits : TemporalScanProgress;
  tr_next_cursor : TemporalTickCursor;
  tr_attempts : list TemporalAttempt;
}.

(** Which engines are installed. *)
Record TemporalDriver := {
  td_workflows : bool;
  td_human_handoffs : bool;
  td_effects : bool;
  td_state : bool;
}.

Definition TemporalDriver_new : TemporalDriver :=
  {| td_workflows := false; td_human_handoffs := false; td_effects := false; td_state := false |}.
Definition with_workflow_engine (d : TemporalDriver) : TemporalDriver :=
  {| td_workflows := true; td_human_handoffs := td_human_handoffs d;
     td_effects := td_effects d; td_state := td_state d |}.
Definition with_human_handoff_engine (d : TemporalDriver) : TemporalDriver :=
  {| td_workflows := td_workflows d; td_human_handoffs := true;
     td_effects := td_effects d; td_state := td_state d |}.
Definition with_effect_engine (d : TemporalDriver) : TemporalDriver :=
  {| td_workflows := td_workflows d; td_human_handoffs := td_human_handoffs d;
     td_effects := true; td_state := td_state d |}.
Definition with_state_engine (d : TemporalDriver) : TemporalDriver :=
  {| td_workflows := td_workflows d; td_human_handoffs := td_human_handoffs d;
     td_effects := td_effects d; td_state := true |}.

(** * Checks *)

Definition temporal (reason : string) : HarnessError := Temporal (fmt reason []).

Definition invalid_scan_message (kind : string) (reason : message) : HarnessError :=
  Temporal (prefixed (String.append kind " temporal scan ") reason).
Definition invalid_scan (kind reason : string) : HarnessError :=
  invalid_scan_message kind (fmt reason []).

Definition validate_temporal_identity (kind : string) (value : str) : result () :=
  reject_if (trim_is_empty value || (MAX_TEMPORAL_IDENTITY_BYTES <? str_len value)%Z
             || any_control value)
    (Temporal (fmt "{} identity must be 1-{} non-control bytes"
       [ALit kind; ANum MAX_TEMPORAL_IDENTITY_BYTES])).

Definition validate_optional_identity (kind : string) (value : option str) : result () :=
  match value with Some value => validate_temporal_identity kind value | None => Ok () end.

Definition validate_agent_loop_wait_cursor (cursor : AgentLoopDueCursor) : result () :=
  _ ← reject_if (ac_due_at_ms cursor =? 0)%Z
        (invalid_scan "Agent Loop wait" "cursor due time must be positive");
  _ ← validate_temporal_identity "Agent Loop Thread continuation" (ac_thread_id cursor);
  _ ← validate_temporal_identity "Agent Loop Turn continuation" (ac_turn_id cursor);
  validate_temporal_identity "Agent Loop wait continuation" (ac_wait_id cursor).

Definition temporal_validate_request (request : TemporalTickRequest) (authority : AuthorityContext)
    : result () :=
  _ ← map_err (λ error, Temporal (error_text error))
        (authority_validate_current authority "Temporal Driver authority");
  _ ← reject_if (tq_at_ms request =? 0)%Z (temporal "application time must be positive");
  _ ← reject_if (negb (in_range 1 MAX_TEMPORAL_SCAN_LIMIT (tq_scan_limit request)))
        (Temporal (fmt "scan limit must be 1-{}" [ANum MAX_TEMPORAL_SCAN_LIMIT]));
  let cursor := tq_cursor request in
  _ ← validate_optional_identity "Workflow continuation" (tc_workflow_after_run_id cursor);
  _ ← validate_optional_identity "Human Handoff continuation" (tc_handoff_after_handoff_id cursor);
  _ ← validate_optional_identity "Effect continuation" (tc_effect_after_effect_id cursor);
  match tc_agent_loop_wait_after cursor with
  | Some after => validate_agent_loop_wait_cursor after
  | None => Ok ()
  end.

Definition validate_installed_cursors (driver : TemporalDriver) (cursor : TemporalTickCursor)
    : result () :=
  _ ← reject_if (negb (td_workflows driver)
                 && bool_decide (is_Some (tc_workflow_after_run_id cursor)))
        (temporal "Workflow cursor supplied without a Workflow Engine");
  _ ← reject_if (negb (td_human_handoffs driver)
                 && bool_decide (is_Some (tc_handoff_after_handoff_id cursor)))
        (temporal "Human Handoff cursor supplied without a Human Handoff Engine");
  _ ← reject_if (negb (td_effects driver)
                 && bool_decide (is_Some (tc_effect_after_effect_id cursor)))
        (temporal "Effect cursor supplied without an Effect Engine");
  reject_if (negb (td_state driver)
             && bool_decide (is_Some (tc_agent_loop_wait_after cursor)))
    (temporal "Agent Loop wait cursor supplied without a State Engine").

Definition validate_scan_progress (kind : string) (scanned due : Z)
    (has_more has_continuation : bool) (scan_limit : Z) : result () :=
  _ ← reject_if ((scan_limit <? scanned)%Z || (scanned <? due)%Z)
        (invalid_scan kind "reported counts exceed the request");
  _ ← reject_if (((scanned =? 0)%Z && has_continuation)
                 || (negb (scanned =? 0)%Z && negb has_continuation))
        (invalid_scan kind "continuation does not match the visited count");
  reject_if (has_more && negb (scanned =? scan_limit)%Z)
    (invalid_scan kind "partial page cannot report another page").

(** [next.as_str() <= after.as_str()], of an optional bound. *)
Definition not_after (value : str) (bound : option str) : bool :=
  match bound with Some bound => str_leb value bound | None => false end.
(** [next.is_none_or(|next| value > next)]. *)
Definition exceeds (value : str) (next : option str) : bool :=
  match next with Some next => negb (str_leb value next) | None => true end.

Definition validate_continuation (kind continuation : string) (next after : option str)
    : result () :=
  match next with
  | Some next =>
      _ ← validate_temporal_identity continuation next;
      reject_if (not_after next after) (invalid_scan kind "continuation did not advance")
  | None => Ok ()
  end.

Definition validate_workflow_due (page : WorkflowDueScanPage) (request : TemporalTickRequest)
    (authority : AuthorityContext) (previous : option str) (due : WorkflowDueWait)
    : result (option str) :=
  _ ← validate_temporal_identity "Workflow Run" (dw_run_id due);
  _ ← validate_temporal_identity "Workflow wait" (dw_wait_id due);
  _ ← reject_if (bool_decide (dw_tenant_id due ≠ tenant_id authority))
        (invalid_scan "Workflow" "tenant projection mismatch");
  _ ← reject_if ((dw_revision due =? 0)%Z || (dw_due_at_ms due =? 0)%Z
                 || (tq_at_ms request <? dw_due_at_ms due)%Z)
        (invalid_scan "Workflow" "due fence is not currently eligible");
  _ ← reject_if (not_after (dw_run_id due) previous)
        (invalid_scan "Workflow" "due identities are not ordered");
  _ ← reject_if (exceeds (dw_run_id due) (sp_next_after_run_id page))
        (invalid_scan "Workflow" "due identity exceeds the visited page");
  Ok (Some (dw_run_id due)).

Definition validate_workflow_scan_page (page : WorkflowDueScanPage)
    (request : TemporalTickRequest) (authority : AuthorityContext) : result () :=
  let after := tc_workflow_after_run_id (tq_cursor request) in
  _ ← validate_scan_progress "Workflow" (sp_scanned page) (len (sp_due page)) (sp_has_more page)
        (bool_decide (is_Some (sp_next_after_run_id page))) (tq_scan_limit request);
  _ ← validate_continuation "Workflow" "Workflow continuation" (sp_next_after_run_id page) after;
  _ ← fold_m (validate_workflow_due page request authority) after (sp_due page);
  Ok ().

Definition validate_handoff_due (page : HumanHandoffDueScanPage) (request : TemporalTickRequest)
    (authority : AuthorityContext) (previous : option str) (due : HumanHandoffDueClaim)
    : result (option str) :=
  _ ← validate_temporal_identity "Human Handoff" (hdc_handoff_id due);
  _ ← validate_temporal_identity "Human Handoff claim" (hdc_claim_id due);
  _ ← reject_if (bool_decide (hdc_tenant_id due ≠ tenant_id authority))
        (invalid_scan "Human Handoff" "tenant projection mismatch");
  _ ← reject_if ((hdc_revision due =? 0)%Z || (hdc_expires_at_ms due =? 0)%Z
                 || (tq_at_ms request <? hdc_expires_at_ms due)%Z)
        (invalid_scan "Human Handoff" "claim is not currently expired");
  _ ← reject_if (not_after (hdc_handoff_id due) previous)
        (invalid_scan "Human Handoff" "due identities are not ordered");
  _ ← reject_if (exceeds (hdc_handoff_id due) (hdp_next_after_handoff_id page))
        (invalid_scan "Human Handoff" "due identity exceeds the visited page");
  Ok (Some (hdc_handoff_id due)).

Definition validate_handoff_scan_page (page : HumanHandoffDueScanPage)
    (request : TemporalTickRequest) (authority : AuthorityContext) : result () :=
  let after := tc_handoff_after_handoff_id (tq_cursor request) in
  _ ← validate_scan_progress "Human Handoff" (hdp_scanned page) (len (hdp_due page))
        (hdp_has_more page) (bool_decide (is_Some (hdp_next_after_handoff_id page)))
        (tq_scan_limit request);
  _ ← validate_continuation "Human Handoff" "Human Handoff continuation"
        (hdp_next_after_handoff_id page) after;
  _ ← fold_m (validate_handoff_due page request authority) after (hdp_due page);
  Ok ().

Definition validate_effect_due (page : EffectDueScanPage) (request : TemporalTickRequest)
    (authority : AuthorityContext) (previous : option str) (due : EffectDueLease)
    : result (option str) :=
  _ ← validate_temporal_identity "Effect" (dl_effect_id due);
  _ ← validate_temporal_identity "Effect lease" (dl_lease_id due);
  _ ← reject_if (bool_decide (dl_tenant_id due ≠ tenant_id authority))
        (invalid_scan "Effect" "tenant projection mismatch");
  _ ← reject_if ((dl_revision due =? 0)%Z || (dl_attempt due =? 0)%Z
                 || (dl_expires_at_ms due =? 0)%Z
                 || (tq_at_ms request <? dl_expires_at_ms due)%Z)
        (invalid_scan "Effect" "lease is not currently expired");
  _ ← reject_if (not_after (dl_effect_id due) previous)
        (invalid_scan "Effect" "due identities are not ordered");
  _ ← reject_if (exceeds (dl_effect_id due) (edp_next_after_effect_id page))
        (invalid_scan "Effect" "due identity exceeds the visited page");
  Ok (Some (dl_effect_id due)).

Definition validate_effect_scan_page (page : EffectDueScanPage)
    (request : TemporalTickRequest) (authority : AuthorityContext) : result () :=
  let after := tc_effect_after_effect_id (tq_cursor request) in
  _ ← validate_scan_progress "Effect" (edp_scanned page) (len (edp_due page))
        (edp_has_more page) (bool_decide (is_Some (edp_next_after_effect_id page)))
        (tq_scan_limit request);
  _ ← validate_continuation "Effect" "Effect continuation" (edp_next_after_effect_id page) after;
  _ ← fold_m (validate_effect_due page request authority) after (edp_due page);
  Ok ().

Definition validate_agent_loop_wait_scan_page (page : AgentLoopDueScanPage)
    (request : TemporalTickRequest) (authority : AuthorityContext) : result () :=
  map_err (λ error, invalid_scan_message "Agent Loop wait" (error_text error))
    (due_page_validate page (tq_at_ms request) (tc_agent_loop_wait_after (tq_cursor request))
       (tq_scan_limit request) (tenant_id authority)).

(** * Targets, progress and empty pages *)

Definition workflow_target (due : WorkflowDueWait) : TemporalTarget :=
  TargetWorkflowWait (dw_run_id due) (dw_revision due) (dw_wait_id due) (dw_due_at_ms due).
Definition handoff_target (due : HumanHandoffDueClaim) : TemporalTarget :=
  TargetHumanHandoffClaim (hdc_handoff_id due) (hdc_revision due) (hdc_claim_id due)
    (hdc_expires_at_ms due).
Definition effect_target (due : EffectDueLease) : TemporalTarget :=
  TargetEffectLease (dl_effect_id due) (dl_revision due) (dl_lease_id due) (dl_attempt due)
    (dl_expires_at_ms due).
Definition agent_loop_wait_target (due : AgentLoopDueWait) : TemporalTarget :=
  TargetAgentLoopWait (aw_phase due) (aw_thread_id due) (aw_turn_id due) (aw_wait_id due)
    (aw_revision due) (aw_expected_stream_version due) (aw_due_at_ms due).

Definition progress (page : WorkflowDueScanPage) : TemporalScanProgress :=
  {| ts_scanned := sp_scanned page; ts_due := len (sp_due page); ts_has_more := sp_has_more page |}.
Definition handoff_progress (page : HumanHandoffDueScanPage) : TemporalScanProgress :=
  {| ts_scanned := hdp_scanned page; ts_due := len (hdp_due page);
     ts_has_more := hdp_has_more page |}.
Definition effect_progress (page : EffectDueScanPage) : TemporalScanProgress :=
  {| ts_scanned := edp_scanned page; ts_due := len (edp_due page);
     ts_has_more := edp_has_more page |}.
Definition agent_loop_wait_progress (page : AgentLoopDueScanPage) : TemporalScanProgress :=
  {| ts_scanned := adp_scanned page; ts_due := len (adp_due page);
     ts_has_more := adp_has_more page |}.

Definition empty_workflow_page : WorkflowDueScanPage :=
  {| sp_due := []; sp_next_after_run_id := None; sp_has_more := false; sp_scanned := 0 |}.
Definition empty_handoff_page : HumanHandoffDueScanPage :=
  {| hdp_due := []; hdp_next_after_handoff_id := None; hdp_has_more := false; hdp_scanned := 0 |}.
Definition empty_effect_page : EffectDueScanPage :=
  {| edp_due := []; edp_next_after_effect_id := None; edp_has_more := false; edp_scanned := 0 |}.
Definition empty_agent_loop_wait_page : AgentLoopDueScanPage :=
  {| adp_due := []; adp_next_cursor := None; adp_has_more := false; adp_scanned := 0 |}.

(** * The tick *)

(** The two operations of [StateEngine] the driver uses. *)
Class StateWaits (J : Type) := {
  state_scan_due_as : Z → option AgentLoopDueCursor → Z → AuthorityContext →
    M J AgentLoopDueScanPage;
  state_settle_due_as : AgentLoopDueWait → Z → AuthorityContext → M J EventAppendResult;
}.

(** Where a tick suspends: before a scan, and before its [i]th command to one
    engine. *)
Inductive TickSource := SourceWorkflow | SourceHandoff | SourceEffect | SourceAgentLoop.
Inductive TickPoint :=
| BeforeScan (source : TickSource)
| BeforeCommand (source : TickSource) (i : nat).

(** [f(..).await] whose error is a value: the [match] on its answer. *)
Definition command_settled {S A B} (f : result A → B) (m : M S A) : M S B := λ s,
  let (s', r) := m s in (s', Ok (f r)).

(** The [for] loop over the commands of one source. *)
Fixpoint attempt_each {S C} (attempt : nat → C → M S TemporalAttempt) (i : nat) (commands : list C)
    : M S (list TemporalAttempt) :=
  match commands with
  | [] => mret []
  | command :: commands =>
      a ← attempt i command;
      attempts ← attempt_each attempt (Datatypes.S i) commands;
      mret (a :: attempts)
  end.

Section driver.
Context `{!Serialize ExecutionBinding, !Serialize (TaskId * TaskRecord),
          !Serialize TaskMessage, !Serialize TaskAttemptBinding}.
Context `{!Serialize WorkflowCreateRequest, !Serialize WorkflowCommand,
          !Serialize WorkflowRunWire, sha : !Sha256, semver : !SemverOrder}.
Context {ser_command : Serialize (str * ActorIdentity * str * str)} {sha_bytes : Sha256Bytes}.
Context {T W H V E J : Type} `{!TaskCoordinator T, !WorkflowCoordinator W}.
Context `{!HumanHandoffCoordinator H, !HumanHandoffSubjectResolver V}.
Context `{!EffectCoordinator E, !StateWaits J}.
Context (wf_await : nat → T * W → T * W).

Record TemporalStores := {
  st_workflows : T * W;
  st_human_handoffs : H * V;
  st_effects : E;
  st_state : J;
}.

Context (await : TickPoint → TemporalStores → TemporalStores).

Definition on_workflow_engine {A} (m : M (T * W) A) : M TemporalStores A := λ s,
  let (w, r) := m (st_workflows s) in
  ({| st_workflows := w; st_human_handoffs := st_human_handoffs s; st_effects := st_effects s;
      st_state := st_state s |}, r).
Definition on_handoff_engine {A} (m : M (H * V) A) : M TemporalStores A := λ s,
  let (h, r) := m (st_human_handoffs s) in
  ({| st_workflows := st_workflows s; st_human_handoffs := h; st_effects := st_effects s;
      st_state := st_state s |}, r).
Definition on_effect_engine {A} (m : M E A) : M TemporalStores A := λ s,
  let (e, r) := m (st_effects s) in
  ({| st_workflows := st_workflows s; st_human_handoffs := st_human_handoffs s; st_effects := e;
      st_state := st_state s |}, r).
Definition on_state_engine {A} (m : M J A) : M TemporalStores A := λ s,
  let (j, r) := m (st_state s) in
  ({| st_workflows := st_workflows s; st_human_handoffs := st_human_handoffs s;
      st_effects := st_effects s; st_state := j |}, r).

Definition suspend (p : TickPoint) : M TemporalStores () := λ s, (await p s, Ok ()).

(** ** Scans *)

Definition scan_workflows (driver : TemporalDriver) (request : TemporalTickRequest)
    (authority : AuthorityContext) : M TemporalStores WorkflowDueScanPage :=
  if td_workflows driver then
    _ ← suspend (BeforeScan SourceWorkflow);
    on_workflow_engine (engine_scan_due_as (tq_at_ms request)
      (tc_workflow_after_run_id (tq_cursor request)) (tq_scan_limit request) authority)
  else mret empty_workflow_page.

Definition scan_handoffs (driver : TemporalDriver) (request : TemporalTickRequest)
    (authority : AuthorityContext) : M TemporalStores HumanHandoffDueScanPage :=
  if td_human_handoffs driver then
    _ ← suspend (BeforeScan SourceHandoff);
    on_handoff_engine (handoff_engine_scan_due_as (tq_at_ms request)
      (tc_handoff_after_handoff_id (tq_cursor request)) (tq_scan_limit request) authority)
  else mret empty_handoff_page.

Definition scan_effects (driver : TemporalDriver) (request : TemporalTickRequest)
    (authority : AuthorityContext) : M TemporalStores EffectDueScanPage :=
  if td_effects driver then
    _ ← suspend (BeforeScan SourceEffect);
    on_effect_engine (eff_scan_due_as (tq_at_ms request)
      (tc_effect_after_effect_id (tq_cursor request)) (tq_scan_limit request) authority)
  else mret empty_effect_page.

Definition scan_agent_loop_waits (driver : TemporalDriver) (request : TemporalTickRequest)
    (authority : AuthorityContext) : M TemporalStores AgentLoopDueScanPage :=
  if td_state driver then
    _ ← suspend (BeforeScan SourceAgentLoop);
    on_state_engine (state_scan_due_as (tq_at_ms request)
      (tc_agent_loop_wait_after (tq_cursor request)) (tq_scan_limit request) authority)
  else mret empty_agent_loop_wait_page.

(** ** Command identities *)

Definition temporal_command_id (kind : string) (actor : ActorIdentity)
    (aggregate_id fence_id : str) : result str :=
  encoded ← ok_or (to_json (lit kind, actor, aggregate_id, fence_id))
              (temporal "cannot encode temporal command identity");
  Ok (lit "temporal-" ++ lit kind ++ lit "-" ++ lower_sha256 encoded).

Definition workflow_command (authority : AuthorityContext) (due : WorkflowDueWait)
    : result (WorkflowDueWait * str * WorkflowCommand) :=
  id ← temporal_command_id "workflow-wake" (actor authority) (dw_run_id due) (dw_wait_id due);
  Ok (due, id, {| cmd_id := id; cmd_kind := WakeDue (dw_wait_id due) |}).

Definition handoff_command (authority : AuthorityContext) (due : HumanHandoffDueClaim)
    : result (HumanHandoffDueClaim * str * HumanHandoffCommand) :=
  id ← temporal_command_id "handoff-expire" (actor authority) (hdc_handoff_id due)
         (hdc_claim_id due);
  Ok (due, id, {| hc_id := id; hc_kind := HkExpireClaim (hdc_claim_id due) |}).

Definition effect_command (authority : AuthorityContext) (due : EffectDueLease)
    : result (EffectDueLease * str * EffectCommand) :=
  id ← temporal_command_id "effect-expire" (actor authority) (dl_effect_id due) (dl_lease_id due);
  Ok (due, id, {| ec_id := id; ec_kind := EcExpireLease (dl_lease_id due) |}).

Definition agent_loop_wait_command (due : AgentLoopDueWait) : result (AgentLoopDueWait * str) :=
  id ← agent_loop_due_command_id due;
  Ok (due, id).

(** ** Attempts *)

Definition workflow_outcome (r : result WorkflowCommandResult) : TemporalAttemptOutcome :=
  match r with
  | Ok res =>
      match wcr_outcome res with Applied => AttemptApplied | Duplicate => AttemptDuplicate end
  | Err (WorkflowConflict _ _ actual) => AttemptFenced actual
  | Err _ => AttemptFailed
  end.

Definition attempt_workflow (request : TemporalTickRequest) (authority : AuthorityContext)
    (i : nat) (c : WorkflowDueWait * str * WorkflowCommand) : M TemporalStores TemporalAttempt :=
  let '(due, command_id, command) := c in
  _ ← suspend (BeforeCommand SourceWorkflow i);
  command_settled (λ r, {| ta_target := workflow_target due; ta_command_id := command_id;
                   ta_outcome := workflow_outcome r |})
    (on_workflow_engine (engine_apply_as wf_await (dw_run_id due) (dw_revision due) command
       (tq_at_ms request) authority)).

Definition handoff_outcome (r : result HumanHandoffCommandResult) : TemporalAttemptOutcome :=
  match r with
  | Ok res =>
      match hcr_outcome res with
      | HandoffApplied => AttemptApplied
      | HandoffDuplicate => AttemptDuplicate
      end
  | Err (HumanHandoffConflict _ _ actual) => AttemptFenced actual
  | Err _ => AttemptFailed
  end.

Definition attempt_handoff (request : TemporalTickRequest) (authority : AuthorityContext)
    (i : nat) (c : HumanHandoffDueClaim * str * HumanHandoffCommand)
    : M TemporalStores TemporalAttempt :=
  let '(due, command_id, command) := c in
  _ ← suspend (BeforeCommand SourceHandoff i);
  command_settled (λ r, {| ta_target := handoff_target due; ta_command_id := command_id;
                   ta_outcome := handoff_outcome r |})
    (on_handoff_engine (handoff_engine_apply_as (hdc_handoff_id due) (hdc_revision due) command
       (tq_at_ms request) authority)).

Definition effect_outcome (r : result EffectCommandResult) : TemporalAttemptOutcome :=
  match r with
  | Ok res =>
      match ecr_outcome res with
      | EffApplied => AttemptApplied
      | EffDuplicate => AttemptDuplicate
      end
  | Err (EffectConflict _ _ actual) => AttemptFenced actual
  | Err _ => AttemptFailed
  end.

Definition attempt_effect (request : TemporalTickRequest) (authority : AuthorityContext)
    (i : nat) (c : EffectDueLease * str * EffectCommand) : M TemporalStores TemporalAttempt :=
  let '(due, command_id, command) := c in
  _ ← suspend (BeforeCommand SourceEffect i);
  command_settled (λ r, {| ta_target := effect_target due; ta_command_id := command_id;
                   ta_outcome := effect_outcome r |})
    (on_effect_engine (eff_apply_as (dl_effect_id due) (dl_revision due) command
       (tq_at_ms request) authority)).

Definition agent_loop_wait_outcome (r : result EventAppendResult) : TemporalAttemptOutcome :=
  match r with
  | Ok res =>
      match ear_disposition res with
      | DispositionApplied => AttemptApplied
      | DispositionDuplicate => AttemptDuplicate
      | DispositionUnknown => AttemptFailed
      end
  | Err (StateConflict _ _ actual) => AttemptStreamFenced actual
  | Err _ => AttemptFailed
  end.

Definition attempt_agent_loop_wait (request : TemporalTickRequest) (authority : AuthorityContext)
    (i : nat) (c : AgentLoopDueWait * str) : M TemporalStores TemporalAttempt :=
  let '(due, command_id) := c in
  _ ← suspend (BeforeCommand SourceAgentLoop i);
  command_settled (λ r, {| ta_target := agent_loop_wait_target due; ta_command_id := command_id;
                   ta_outcome := agent_loop_wait_outcome r |})
    (on_state_engine (state_settle_due_as due (tq_at_ms request) authority)).

(** ** The whole tick *)

Record TickPages := {
  tp_workflows : WorkflowDueScanPage;
  tp_handoffs : HumanHandoffDueScanPage;
  tp_effects : EffectDueScanPage;
  tp_waits : AgentLoopDueScanPage;
}.

Record TickCommands := {
  tk_workflows : list (WorkflowDueWait * str * WorkflowCommand);
  tk_handoffs : list (HumanHandoffDueClaim * str * HumanHandoffCommand);
  tk_effects : list (EffectDueLease * str * EffectCommand);
  tk_waits : list (AgentLoopDueWait * str);
}.

(** What runs before the first command: the checks and the four scans. *)
Definition tick_scan (driver : TemporalDriver) (request : TemporalTickRequest)
    (authority : AuthorityContext) : M TemporalStores TickPages :=
  _ ← lift (temporal_validate_request request authority);
  _ ← lift (validate_installed_cursors driver (tq_cursor request));
  workflow_page ← scan_workflows driver request authority;
  handoff_page ← scan_handoffs driver request authority;
  effect_page ← scan_effects driver request authority;
  agent_loop_wait_page ← scan_agent_loop_waits driver request authority;
  _ ← lift (validate_workflow_scan_page workflow_page request authority);
  _ ← lift (validate_handoff_scan_page handoff_page request authority);
  _ ← lift (validate_effect_scan_page effect_page request authority);
  _ ← lift (validate_agent_loop_wait_scan_page agent_loop_wait_page request authority);
  mret {| tp_workflows := workflow_page; tp_handoffs := handoff_page; tp_effects := effect_page;
          tp_waits := agent_loop_wait_page |}.

Definition tick_commands (pages : TickPages) (authority : AuthorityContext) : result TickCommands :=
  workflow_commands ← collect (workflow_command authority) (sp_due (tp_workflows pages));
  handoff_commands ← collect (handoff_command authority) (hdp_due (tp_handoffs pages));
  effect_commands ← collect (effect_command authority) (edp_due (tp_effects pages));
  agent_loop_wait_commands ← collect agent_loop_wait_command (adp_due (tp_waits pages));
  Ok {| tk_workflows := workflow_commands; tk_handoffs := handoff_commands;
        tk_effects := effect_commands; tk_waits := agent_loop_wait_commands |}.

Definition tick_attempts (driver : TemporalDriver) (request : TemporalTickRequest)
    (authority : AuthorityContext) (commands : TickCommands)
    : M TemporalStores (list TemporalAttempt) :=
  w ← (if td_workflows driver
       then attempt_each (attempt_workflow request authority) 0 (tk_workflows commands)
       else mret []);
  h ← (if td_human_handoffs driver
       then attempt_each (attempt_handoff request authority) 0 (tk_handoffs commands)
       else mret []);
  e ← (if td_effects driver
       then attempt_each (attempt_effect request authority) 0 (tk_effects commands)
       else mret []);
  s ← (if td_state driver
       then attempt_each (attempt_agent_loop_wait request authority) 0 (tk_waits commands)
       else mret []);
  mret (w ++ h ++ e ++ s).

Definition tick_next_cursor (pages : TickPages) : TemporalTickCursor := {|
  tc_workflow_after_run_id :=
    if sp_has_more (tp_workflows pages) then sp_next_after_run_id (tp_workflows pages) else None;
  tc_handoff_after_handoff_id :=
    if hdp_has_more (tp_handoffs pages) then hdp_next_after_handoff_id (tp_handoffs pages) else None;
  tc_effect_after_effect_id :=
    if edp_has_more (tp_effects pages) then edp_next_after_effect_id (tp_effects pages) else None;
  tc_agent_loop_wait_after :=
    if adp_has_more (tp_waits pages) then adp_next_cursor (tp_waits pages) else None;
|}.

Definition tick_report (request : TemporalTickRequest) (pages : TickPages)
    (attempts : list TemporalAttempt) : TemporalTickReport := {|
  tr_at_ms := tq_at_ms request;
  tr_workflows := progress (tp_workflows pages);
  tr_human_handoffs := handoff_progress (tp_handoffs pages);
  tr_effects := effect_progress (tp_effects pages);
  tr_agent_loop_waits := agent_loop_wait_progress (tp_waits pages);
  tr_next_cursor := tick_next_cursor pages;
  tr_attempts := attempts;
|}.

Definition tick_as (driver : TemporalDriver) (request : TemporalTickRequest)
    (authority : AuthorityContext) : M TemporalStores TemporalTickReport :=
  pages ← tick_scan driver request authority;
  commands ← lift (tick_commands pages authority);
  attempts ← tick_attempts driver request authority commands;
  mret (tick_report request pages attempts).

Definition tick (driver : TemporalDriver) (request : TemporalTickRequest)
    : M TemporalStores TemporalTickReport := tick_as driver request local_process.
End driver.
Arguments TemporalStores : clear implicits.
