(* ===== verification/TemporalSafety.v ===== *)
(** What one tick of the temporal driver (src/src/temporal/mod.rs) may report
    and do: the checks every page passes, the report made of them, and the
    effect of a tick on the stores its engines share with other clients. *)

From Stdlib Require Import ZArith Lia.
From stdpp Require Import sorting base tactics list gmap relations numbers strings option.
From stdpp Require Import list.
From S2P Require Import Prelude Ordering Kernel Digest Pairs TaskGraph TaskCoordinator Workflow WorkflowSafety WorkflowCoordinator WorkflowStores WorkflowEngine Effect EffectSafety EffectCoordinator EffectStores Handoff HandoffSafety HandoffCoordinator HandoffStores Approval Journal WaitDue Temporal.

(** * Pages that pass *)

(** A loop over due entries that remembers the previous identity. *)
Section due_loop.
Context {A K : Type} (f : option K → A → result (option K)) (key : A → K) (lt : K → K → Prop)
  (ok : A → Prop) `{!Transitive lt}.
Context (f_ok : ∀ prev x o, f prev x = Ok o →
  ok x ∧ (∀ b, prev = Some b → lt b (key x)) ∧ o = Some (key x)).

Lemma due_loop_ok l : ∀ prev o, fold_m f prev l = Ok o →
  Forall ok l ∧ StronglySorted (λ x y, lt (key x) (key y)) l ∧
  (∀ b, prev = Some b → Forall (λ x, lt b (key x)) l).
Proof using Type*.
  induction l as [|x l IH]; intros prev o Hl; simpl in Hl.
  { split_and!; [constructor..|]. intros; constructor. }
  destruct (f prev x) as [o'|] eqn:E; [|done]. apply f_ok in E as (Hx & Hp & ->).
  apply IH in Hl as (H1 & H2 & H3). split_and!; [by constructor|constructor; [done|by apply H3]|].
  intros b Hb. specialize (Hp b Hb). constructor; [done|].
  eapply Forall_impl; [by apply H3|]. intros y Hy. by etrans.
Qed.
End due_loop.

Lemma not_after_lt value b : not_after value (Some b) = false ↔ str_lt b value.
Proof. done. Qed.

(** What the driver checked about one reported fence. *)
Definition fence_ok (request : TemporalTickRequest) (authority : AuthorityContext)
    (tenant : option str) (revision due_at_ms : Z) : Prop :=
  tenant = tenant_id authority ∧ revision ≠ 0%Z ∧ (due_at_ms ≠ 0 ∧ due_at_ms ≤ tq_at_ms request)%Z.

Lemma validate_scan_progress_ok kind scanned due more cont limit u :
  validate_scan_progress kind scanned due more cont limit = Ok u →
  (due ≤ scanned ≤ limit)%Z ∧ (cont = true ↔ scanned ≠ 0%Z) ∧ (more = true → scanned = limit).
Proof.
  unfold validate_scan_progress. intros Hv. inv_ok. bool_hyps. split; [lia|].
  destruct cont, more, (Z.eqb_spec scanned 0), (Z.eqb_spec scanned limit); simpl in *; naive_solver.
Qed.

Section pages.
Context (request : TemporalTickRequest) (authority : AuthorityContext).

Lemma validate_workflow_page_ok page u :
  validate_workflow_scan_page page request authority = Ok u →
  Forall (λ due, fence_ok request authority (dw_tenant_id due) (dw_revision due) (dw_due_at_ms due))
    (sp_due page) ∧
  StronglySorted (λ d e, str_lt (dw_run_id d) (dw_run_id e)) (sp_due page) ∧
  (len (sp_due page) ≤ tq_scan_limit request)%Z ∧
  (∀ after, tc_workflow_after_run_id (tq_cursor request) = Some after →
     Forall (λ d, str_lt after (dw_run_id d)) (sp_due page)) ∧
  validate_optional_identity "Workflow continuation" (sp_next_after_run_id page) = Ok ().
Proof.
  unfold validate_workflow_scan_page. intros Hv. inv_ok.
  match goal with H : validate_scan_progress _ _ _ _ _ _ = _ |- _ =>
    apply validate_scan_progress_ok in H as (? & _) end.
  match goal with H : fold_m _ _ _ = _ |- _ =>
    eapply (due_loop_ok _ dw_run_id str_lt) in H as (H1 & H2 & H3) end.
  - split_and!; [exact H1|exact H2|lia|exact H3|].
    unfold validate_continuation in *. destruct (sp_next_after_run_id page); [|done]. by inv_ok.
  - apply _.
  - intros prev x o Hx. unfold validate_workflow_due in Hx. inv_ok. bool_hyps. subst. unfold fence_ok. split_and!; try done; try lia; [by apply dec_stable|].
    intros b ->. done.
Qed.

Lemma validate_handoff_page_ok page u :
  validate_handoff_scan_page page request authority = Ok u →
  Forall (λ due, fence_ok request authority (hdc_tenant_id due) (hdc_revision due)
                   (hdc_expires_at_ms due)) (hdp_due page) ∧
  StronglySorted (λ d e, str_lt (hdc_handoff_id d) (hdc_handoff_id e)) (hdp_due page) ∧
  (len (hdp_due page) ≤ tq_scan_limit request)%Z ∧
  (∀ after, tc_handoff_after_handoff_id (tq_cursor request) = Some after →
     Forall (λ d, str_lt after (hdc_handoff_id d)) (hdp_due page)) ∧
  validate_optional_identity "Human Handoff continuation" (hdp_next_after_handoff_id page) = Ok ().
Proof.
  unfold validate_handoff_scan_page. intros Hv. inv_ok.
  match goal with H : validate_scan_progress _ _ _ _ _ _ = _ |- _ =>
    apply validate_scan_progress_ok in H as (? & _) end.
  match goal with H : fold_m _ _ _ = _ |- _ =>
    eapply (due_loop_ok _ hdc_handoff_id str_lt) in H as (H1 & H2 & H3) end.
  - split_and!; [exact H1|exact H2|lia|exact H3|].
    unfold validate_continuation in *. destruct (hdp_next_after_handoff_id page); [|done]. by inv_ok.
  - apply _.
  - intros prev x o Hx. unfold validate_handoff_due in Hx. inv_ok. bool_hyps. subst. unfold fence_ok. split_and!; try done; try lia; [by apply dec_stable|].
    intros b ->. done.
Qed.

Lemma validate_effect_page_ok page u :
  validate_effect_scan_page page request authority = Ok u →
  Forall (λ due, fence_ok request authority (dl_tenant_id due) (dl_revision due)
                   (dl_expires_at_ms due) ∧ dl_attempt due ≠ 0%Z) (edp_due page) ∧
  StronglySorted (λ d e, str_lt (dl_effect_id d) (dl_effect_id e)) (edp_due page) ∧
  (len (edp_due page) ≤ tq_scan_limit request)%Z ∧
  (∀ after, tc_effect_after_effect_id (tq_cursor request) = Some after →
     Forall (λ d, str_lt after (dl_effect_id d)) (edp_due page)) ∧
  validate_optional_identity "Effect continuation" (edp_next_after_effect_id page) = Ok ().
Proof.
  unfold validate_effect_scan_page. intros Hv. inv_ok.
  match goal with H : validate_scan_progress _ _ _ _ _ _ = _ |- _ =>
    apply validate_scan_progress_ok in H as (? & _) end.
  match goal with H : fold_m _ _ _ = _ |- _ =>
    eapply (due_loop_ok _ dl_effect_id str_lt) in H as (H1 & H2 & H3) end.
  - split_and!; [exact H1|exact H2|lia|exact H3|].
    unfold validate_continuation in *. destruct (edp_next_after_effect_id page); [|done]. by inv_ok.
  - apply _.
  - intros prev x o Hx. unfold validate_effect_due in Hx. inv_ok. bool_hyps. subst. unfold fence_ok. split_and!; try done; try lia; [by apply dec_stable|].
    intros b ->. done.
Qed.
End pages.

Lemma validate_wait_page_ok request authority page u :
  validate_agent_loop_wait_scan_page page request authority = Ok u →
  Forall (λ due, due_validate due (tq_at_ms request) (tenant_id authority) = Ok ()) (adp_due page) ∧
  StronglySorted (λ d e, cursor_cmp (due_cursor d) (due_cursor e) = Lt) (adp_due page) ∧
  (len (adp_due page) ≤ tq_scan_limit request)%Z ∧
  (∀ after, tc_agent_loop_wait_after (tq_cursor request) = Some after →
     Forall (λ d, cursor_cmp after (due_cursor d) = Lt) (adp_due page)).
Proof.
  unfold validate_agent_loop_wait_scan_page, due_page_validate. intros Hv. inv_ok. bool_hyps.
  match goal with H : fold_m _ _ _ = _ |- _ => rename H into Hf end.
  assert (∀ l st st', fold_m (validate_due_row (tq_at_ms request) (tenant_id authority)) st l = Ok st' →
    ∃ o, fold_m (λ prev x, fst <$> validate_due_row (tq_at_ms request) (tenant_id authority)
                               (prev, None) x) st.1 l = Ok o) as Hfst.
  { intros l. induction l as [|x l IH]; intros [p q] st' Hl; simpl in *; [eauto|].
    unfold validate_due_row in *. simpl in *.
    destruct (due_validate _ _ _); simpl in *; [|done].
    destruct (match p with Some _ => _ | None => _ end); simpl in *; [done|]. by apply IH in Hl. }
  apply Hfst in Hf as [o Hf].
  eapply (due_loop_ok _ due_cursor (λ c d, cursor_cmp c d = Lt)) in Hf as (HA & HB & HC).
  - split_and!; [exact HA|exact HB|lia|exact HC].
  - intros a b c. apply cmp_trans.
  - intros prev x o' Hx. unfold validate_due_row in Hx. simpl in Hx.
    destruct (due_validate x _ _) as [[]|] eqn:E; simpl in Hx; [|done].
    destruct prev as [p|]; simpl in Hx; [destruct (cursor_leb _ _) eqn:El; simpl in Hx; [done|]|];
      injection Hx as <-; (split_and!; [done| |done]).
    + intros b [= <-]. by apply cursor_leb_false.
    + done.
Qed.

(** A validated due wait. *)
Lemma due_validate_ok due at_ms tenant u :
  due_validate due at_ms tenant = Ok u →
  (aw_due_at_ms due ≠ 0 ∧ aw_due_at_ms due ≤ at_ms)%Z ∧ aw_tenant_id due = tenant ∧
  (aw_phase due = DueWaiting ↔ aw_revision due = 1%Z) ∧ aw_expected_stream_version due ≠ 0%Z.
Proof.
  unfold due_validate. intros Hv. inv_ok. bool_hyps. split_and!; try done.
  - by apply dec_stable.
  - destruct (aw_phase due); bool_hyps; split; intros; try done; lia.
Qed.

(** * The report *)

Lemma Forall2_both {A B} (P : A → Prop) (Q : A → B → Prop) l k :
  Forall P l → Forall2 Q l k → Forall2 (λ x y, P x ∧ Q x y) l k.
Proof. intros HP HQ. induction HQ; inversion HP; subst; constructor; auto. Qed.

Lemma Forall2_after {A B K} (o : option K) (P : K → A → Prop) (Q : A → B → Prop) l k :
  (∀ c, o = Some c → Forall (P c) l) → Forall2 Q l k →
  Forall2 (λ x y, (∀ c, o = Some c → P c x) ∧ Q x y) l k.
Proof.
  intros HP. apply Forall2_both. destruct o as [c|].
  - eapply Forall_impl; [by apply HP|]. by intros x Hx c' [= <-].
  - apply Forall_forall. done.
Qed.

Definition target_rank (t : TemporalTarget) : Z :=
  match t with
  | TargetWorkflowWait _ _ _ _ => 0
  | TargetHumanHandoffClaim _ _ _ _ => 1
  | TargetEffectLease _ _ _ _ _ => 2
  | TargetAgentLoopWait _ _ _ _ _ _ _ => 3
  end.

(** Source first, then identity; Agent Loop waits by their place in the due
    index. *)
Definition target_before (t u : TemporalTarget) : Prop :=
  (target_rank t < target_rank u)%Z ∨
  match t, u with
  | TargetWorkflowWait x _ _ _, TargetWorkflowWait y _ _ _
  | TargetHumanHandoffClaim x _ _ _, TargetHumanHandoffClaim y _ _ _
  | TargetEffectLease x _ _ _ _, TargetEffectLease y _ _ _ _ => str_lt x y
  | TargetAgentLoopWait _ th tn w _ _ due, TargetAgentLoopWait _ th' tn' w' _ _ due' =>
      cursor_cmp {| ac_due_at_ms := due; ac_thread_id := th; ac_turn_id := tn; ac_wait_id := w |}
        {| ac_due_at_ms := due'; ac_thread_id := th'; ac_turn_id := tn'; ac_wait_id := w' |} = Lt
  | _, _ => False
  end.

(** The fence was due at the time of the tick, and beyond its cursor. *)
Definition target_eligible (request : TemporalTickRequest) (t : TemporalTarget) : Prop :=
  let at_ms := tq_at_ms request in
  let cursor := tq_cursor request in
  match t with
  | TargetWorkflowWait run_id revision _ due =>
      revision ≠ 0%Z ∧ (due ≠ 0 ∧ due ≤ at_ms)%Z ∧
      ∀ after, tc_workflow_after_run_id cursor = Some after → str_lt after run_id
  | TargetHumanHandoffClaim handoff_id revision _ expires =>
      revision ≠ 0%Z ∧ (expires ≠ 0 ∧ expires ≤ at_ms)%Z ∧
      ∀ after, tc_handoff_after_handoff_id cursor = Some after → str_lt after handoff_id
  | TargetEffectLease effect_id revision _ attempt expires =>
      revision ≠ 0%Z ∧ attempt ≠ 0%Z ∧ (expires ≠ 0 ∧ expires ≤ at_ms)%Z ∧
      ∀ after, tc_effect_after_effect_id cursor = Some after → str_lt after effect_id
  | TargetAgentLoopWait phase th tn w revision version due =>
      (phase = DueWaiting ↔ revision = 1%Z) ∧ version ≠ 0%Z ∧ (due ≠ 0 ∧ due ≤ at_ms)%Z ∧
      ∀ after, tc_agent_loop_wait_after cursor = Some after →
        cursor_cmp after {| ac_due_at_ms := due; ac_thread_id := th; ac_turn_id := tn;
                            ac_wait_id := w |} = Lt
  end.

(** What one attempt is about: its fence and its command. *)
Definition attempt_plan (a : TemporalAttempt) : TemporalTarget * str := (ta_target a, ta_command_id a).

Lemma attempt_each_plan {S C} (attempt : nat → C → M S TemporalAttempt) (g : C → TemporalTarget * str) :
  (∀ i c s, ∃ s' a, attempt i c s = (s', Ok a) ∧ attempt_plan a = g c) →
  ∀ l i s, ∃ s' attempts, attempt_each attempt i l s = (s', Ok attempts) ∧
    attempt_plan <$> attempts = g <$> l.
Proof.
  intros Ha l. induction l as [|c l IH]; intros i s; simpl; [by exists s, []|].
  destruct (Ha i c s) as (s1 & a & E & Ep). destruct (IH (Datatypes.S i) s1) as (s2 & as' & E' & Ep').
  exists s2, (a :: as'). unfold mbind, M_bind. rewrite E, E'. split; [done|]. by rewrite !fmap_cons, Ep, Ep'.
Qed.

Section tick.
Context `{!Serialize ExecutionBinding, !Serialize (TaskId * TaskRecord),
          !Serialize TaskMessage, !Serialize TaskAttemptBinding}.
Context `{!Serialize WorkflowCreateRequest, !Serialize WorkflowCommand,
          !Serialize WorkflowRunWire, sha : !Sha256, semver : !SemverOrder}.
Context {ser_command : Serialize (str * ActorIdentity * str * str)} {sha_bytes : Sha256Bytes}.
Context {T W H V E J : Type} `{!TaskCoordinator T, !WorkflowCoordinator W}.
Context `{!HumanHandoffCoordinator H, !HumanHandoffSubjectResolver V}.
Context `{!EffectCoordinator E, !StateWaits J}.
Context (wf_await : nat → T * W → T * W).
Context (await : TickPoint → TemporalStores T W H V E J → TemporalStores T W H V E J).
Implicit Types (driver : TemporalDriver) (request : TemporalTickRequest)
  (authority : AuthorityContext) (pages : TickPages) (commands : TickCommands)
  (report : TemporalTickReport).

(** The fences and commands of a tick, in the order it attempts them. *)
Definition tick_plan driver commands : list (TemporalTarget * str) :=
  (if td_workflows driver
   then (λ c, (workflow_target c.1.1, c.1.2)) <$> tk_workflows commands else []) ++
  (if td_human_handoffs driver
   then (λ c, (handoff_target c.1.1, c.1.2)) <$> tk_handoffs commands else []) ++
  (if td_effects driver
   then (λ c, (effect_target c.1.1, c.1.2)) <$> tk_effects commands else []) ++
  (if td_state driver
   then (λ c, (agent_loop_wait_target c.1, c.2)) <$> tk_waits commands else []).

(** No attempt fails the tick. *)
Lemma tick_attempts_plan driver request authority commands s :
  ∃ s' attempts, tick_attempts wf_await await driver request authority commands s
                 = (s', Ok attempts) ∧ attempt_plan <$> attempts = tick_plan driver commands.
Proof.
  unfold tick_attempts, tick_plan.
  assert (∀ (b : bool) C (f : nat → C → M (TemporalStores T W H V E J) TemporalAttempt) g l s,
    (∀ i c s, ∃ s' a, f i c s = (s', Ok a) ∧ attempt_plan a = g c) →
    ∃ s' l', (if b then attempt_each f 0 l else mret []) s = (s', Ok l') ∧
             attempt_plan <$> l' = if b then g <$> l else []) as Hb.
  { intros [] C f g l s0 Hf; [by apply attempt_each_plan|]. by exists s0, []. }
  destruct (Hb (td_workflows driver) _ (attempt_workflow wf_await await request authority)
    (λ c, (workflow_target c.1.1, c.1.2)) (tk_workflows commands) s)
    as (s1 & l1 & E1 & P1).
  { intros i [[due id] c] s0. unfold attempt_workflow, command_settled, suspend, mbind, M_bind.
    destruct (on_workflow_engine _ _) as [s1 r]. by eexists s1, _. }
  destruct (Hb (td_human_handoffs driver) _ (attempt_handoff await request authority)
    (λ c, (handoff_target c.1.1, c.1.2)) (tk_handoffs commands) s1)
    as (s2 & l2 & E2 & P2).
  { intros i [[due id] c] s0. unfold attempt_handoff, command_settled, suspend, mbind, M_bind.
    destruct (on_handoff_engine _ _) as [s2 r]. by eexists s2, _. }
  destruct (Hb (td_effects driver) _ (attempt_effect await request authority)
    (λ c, (effect_target c.1.1, c.1.2)) (tk_effects commands) s2)
    as (s3 & l3 & E3 & P3).
  { intros i [[due id] c] s0. unfold attempt_effect, command_settled, suspend, mbind, M_bind.
    destruct (on_effect_engine _ _) as [s3 r]. by eexists s3, _. }
  destruct (Hb (td_state driver) _ (attempt_agent_loop_wait await request authority)
    (λ c, (agent_loop_wait_target c.1, c.2)) (tk_waits commands) s3)
    as (s4 & l4 & E4 & P4).
  { intros i [due id] s0. unfold attempt_agent_loop_wait, command_settled, suspend, mbind, M_bind.
    destruct (on_state_engine _ _) as [s4 r]. by eexists s4, _. }
  exists s4, (l1 ++ l2 ++ l3 ++ l4). unfold mbind, M_bind. rewrite E1, E2, E3, E4.
  split; [done|]. by rewrite !fmap_app, P1, P2, P3, P4.
Qed.

(** The command of a fence: its identity names the actor, the aggregate and
    the fence. *)
Definition target_command request authority (t : TemporalTarget) (id : str) : Prop :=
  match t with
  | TargetWorkflowWait run_id _ wait_id _ =>
      temporal_command_id "workflow-wake" (actor authority) run_id wait_id = Ok id
  | TargetHumanHandoffClaim handoff_id _ claim_id _ =>
      temporal_command_id "handoff-expire" (actor authority) handoff_id claim_id = Ok id
  | TargetEffectLease effect_id _ lease_id _ _ =>
      temporal_command_id "effect-expire" (actor authority) effect_id lease_id = Ok id
  | TargetAgentLoopWait _ _ _ _ _ _ _ =>
      ∃ due, agent_loop_wait_target due = t ∧
        due_validate due (tq_at_ms request) (tenant_id authority) = Ok () ∧
        agent_loop_due_command_id due = Ok id
  end.

Definition entry_ok request authority (rank : Z) (p : TemporalTarget * str) : Prop :=
  target_rank p.1 = rank ∧ target_eligible request p.1 ∧ target_command request authority p.1 p.2.

Definition plan_ok request authority (rank n : Z) (plan : list (TemporalTarget * str)) : Prop :=
  Forall (entry_ok request authority rank) plan ∧
  StronglySorted target_before plan.*1 ∧ len plan = n ∧ (n ≤ tq_scan_limit request)%Z.

(** One source: its due entries, and the commands made of them. *)
Lemma source_plan_ok {D C} request authority rank (due : list D) (commands : list C)
    (target : D → TemporalTarget) (due_of : C → D) (id_of : C → str) (before : D → D → Prop) :
  Forall2 (λ d c, due_of c = d ∧ entry_ok request authority rank (target d, id_of c)) due commands →
  StronglySorted before due → (∀ d e, before d e → target_before (target d) (target e)) →
  (len due ≤ tq_scan_limit request)%Z →
  plan_ok request authority rank (len due) ((λ c, (target (due_of c), id_of c)) <$> commands).
Proof.
  intros HF Hs Hb Hl. assert (due_of <$> commands = due) as Ed.
  { clear -HF. induction HF as [|d c ? ? [<- _] _ IH]; [done|]. by rewrite fmap_cons, IH. }
  split_and!; [| | |done].
  - clear -HF. induction HF as [|d c ? ? [<- ?] _ IH]; [constructor|]. by constructor.
  - rewrite <-list_fmap_compose. change (_ ∘ _) with (target ∘ due_of).
    rewrite list_fmap_compose, Ed. by eapply StronglySorted_fmap.
  - unfold len. rewrite length_fmap, <-Ed. by rewrite length_fmap.
Qed.

Lemma plans_ok request authority n0 n1 n2 n3 p0 p1 p2 p3 :
  plan_ok request authority 0 n0 p0 → plan_ok request authority 1 n1 p1 →
  plan_ok request authority 2 n2 p2 → plan_ok request authority 3 n3 p3 →
  let plan := p0 ++ p1 ++ p2 ++ p3 in
  Forall (λ p, ∃ rank, entry_ok request authority rank p) plan ∧
  StronglySorted target_before plan.*1.
Proof.
  intros (F0 & S0 & _) (F1 & S1 & _) (F2 & S2 & _) (F3 & S3 & _) plan.
  assert (∀ r p x, Forall (entry_ok request authority r) p → x ∈ p.*1 → target_rank x = r) as Hr.
  { intros r p x HF (q & -> & Hq)%list_elem_of_fmap. by apply (proj1 (Forall_forall _ _) HF) in Hq as (? & _). }
  split.
  - subst plan. rewrite !Forall_app. split_and!; eapply Forall_impl; eauto.
  - subst plan. rewrite !fmap_app, !StronglySorted_app.
    split_and!; try done; intros x y Hx Hy; left;
      repeat match goal with Hx : _ ∈ _ ++ _ |- _ => apply elem_of_app in Hx as [Hx|Hx] end;
      repeat match goal with
      | Hx : _ ∈ p0.*1 |- _ => apply (Hr _ _ _ F0) in Hx
      | Hx : _ ∈ p1.*1 |- _ => apply (Hr _ _ _ F1) in Hx
      | Hx : _ ∈ p2.*1 |- _ => apply (Hr _ _ _ F2) in Hx
      | Hx : _ ∈ p3.*1 |- _ => apply (Hr _ _ _ F3) in Hx
      end; lia.
Qed.

(** The pages a tick went on with. *)
Definition pages_checked driver request authority pages : Prop :=
  temporal_validate_request request authority = Ok () ∧
  validate_workflow_scan_page (tp_workflows pages) request authority = Ok () ∧
  validate_handoff_scan_page (tp_handoffs pages) request authority = Ok () ∧
  validate_effect_scan_page (tp_effects pages) request authority = Ok () ∧
  validate_agent_loop_wait_scan_page (tp_waits pages) request authority = Ok () ∧
  (td_workflows driver = false → tp_workflows pages = empty_workflow_page) ∧
  (td_human_handoffs driver = false → tp_handoffs pages = empty_handoff_page) ∧
  (td_effects driver = false → tp_effects pages = empty_effect_page) ∧
  (td_state driver = false → tp_waits pages = empty_agent_loop_wait_page).

Lemma tick_scan_checked driver request authority s s' pages :
  tick_scan await driver request authority s = (s', Ok pages) →
  pages_checked driver request authority pages.
Proof.
  unfold tick_scan. intros Ht. inv_M. unfold pages_checked. simpl.
  repeat match goal with u : () |- _ => destruct u end. split_and!; try done; intros Hd;
  [ unfold scan_workflows in *|unfold scan_handoffs in *|unfold scan_effects in *
  | unfold scan_agent_loop_waits in *]; rewrite Hd in *; by inv_M.
Qed.

Lemma tick_as_ok driver request authority s s' report :
  tick_as wf_await await driver request authority s = (s', Ok report) →
  ∃ s1 pages commands attempts,
    tick_scan await driver request authority s = (s1, Ok pages) ∧
    tick_commands pages authority = Ok commands ∧
    tick_attempts wf_await await driver request authority commands s1 = (s', Ok attempts) ∧
    report = tick_report request pages attempts.
Proof. unfold tick_as. intros Ht. inv_M. by do 4 eexists. Qed.

Lemma uninstalled_nil {D C B} (installed : bool) (due : list D) (l : list C) (P : D → C → Prop)
    (g : C → B) :
  (installed = false → due = []) → Forall2 P due l → (if installed then g <$> l else []) = g <$> l.
Proof. destruct installed; [done|]. intros Hd HF. rewrite (Hd eq_refl) in HF. by inversion HF. Qed.

Lemma tick_plan_ok driver request authority pages commands :
  pages_checked driver request authority pages → tick_commands pages authority = Ok commands →
  ∃ p0 p1 p2 p3, tick_plan driver commands = p0 ++ p1 ++ p2 ++ p3 ∧
    plan_ok request authority 0 (len (sp_due (tp_workflows pages))) p0 ∧
    plan_ok request authority 1 (len (hdp_due (tp_handoffs pages))) p1 ∧
    plan_ok request authority 2 (len (edp_due (tp_effects pages))) p2 ∧
    plan_ok request authority 3 (len (adp_due (tp_waits pages))) p3.
Proof.
  intros (_ & Vw & Vh & Ve & Vs & Ew & Eh & Ee & Es) Hc. unfold tick_commands in Hc. inv_ok. subst commands.
  repeat match goal with Hc : collect _ _ = Ok _ |- _ => apply collect_ok in Hc end.
  apply validate_workflow_page_ok in Vw as (W1 & W2 & W3 & W4 & _).
  apply validate_handoff_page_ok in Vh as (H1' & H2' & H3' & H4' & _).
  apply validate_effect_page_ok in Ve as (E1 & E2 & E3 & E4 & _).
  apply validate_wait_page_ok in Vs as (S1 & S2 & S3 & S4).
  unfold tick_plan. simpl.
  rewrite (uninstalled_nil (td_workflows driver) (sp_due (tp_workflows pages)) _ _ _
             ltac:(intros Hd; by rewrite Ew) ltac:(eassumption)).
  rewrite (uninstalled_nil (td_human_handoffs driver) (hdp_due (tp_handoffs pages)) _ _ _
             ltac:(intros Hd; by rewrite Eh) ltac:(eassumption)).
  rewrite (uninstalled_nil (td_effects driver) (edp_due (tp_effects pages)) _ _ _
             ltac:(intros Hd; by rewrite Ee) ltac:(eassumption)).
  rewrite (uninstalled_nil (td_state driver) (adp_due (tp_waits pages)) _ _ _
             ltac:(intros Hd; by rewrite Es) ltac:(eassumption)).
  do 4 eexists. split; [done|]. split_and!.
  - eapply (source_plan_ok _ _ _ _ _ workflow_target (λ c, c.1.1) (λ c, c.1.2)); [|exact W2|by right|done].
    eapply Forall2_impl; [eapply Forall2_both; [exact W1|eapply Forall2_after; [exact W4|eassumption]]|].
    intros d c ((_ & Hrev & Hdue) & Hafter & Hd). unfold workflow_command in Hd. inv_ok. subst c. by split_and!.
  - eapply (source_plan_ok _ _ _ _ _ handoff_target (λ c, c.1.1) (λ c, c.1.2)); [|exact H2'|by right|done].
    eapply Forall2_impl; [eapply Forall2_both; [exact H1'|eapply Forall2_after; [exact H4'|eassumption]]|].
    intros d c ((_ & Hrev & Hdue) & Hafter & Hd). unfold handoff_command in Hd. inv_ok. subst c. by split_and!.
  - eapply (source_plan_ok _ _ _ _ _ effect_target (λ c, c.1.1) (λ c, c.1.2)); [|exact E2|by right|done].
    eapply Forall2_impl; [eapply Forall2_both; [exact E1|eapply Forall2_after; [exact E4|eassumption]]|].
    intros d c (((_ & Hrev & Hdue) & Ha) & Hafter & Hd). unfold effect_command in Hd. inv_ok. subst c. by split_and!.
  - eapply (source_plan_ok _ _ _ _ _ agent_loop_wait_target fst snd); [|exact S2|by right|done].
    eapply Forall2_impl; [eapply Forall2_both; [exact S1|eapply Forall2_after; [exact S4|eassumption]]|].
    intros d c (Hv & Hafter & Hd). unfold agent_loop_wait_command in Hd. inv_ok. subst c.
    destruct (due_validate_ok _ _ _ _ Hv) as (D1 & _ & D2 & D3).
    refine (conj eq_refl (conj eq_refl (conj (conj D2 (conj D3 (conj D1 Hafter))) _))). exists d. simpl. by split_and!.
Qed.
(** The four scans of a tick: each installed engine answers once, in the order
    of the sources, after its await, with the cursor and limit of the request;
    a source that is not installed has an empty page. *)
Definition scans_answered driver request authority (s s4 : TemporalStores T W H V E J) pages : Prop :=
  let at_ms := tq_at_ms request in let limit := tq_scan_limit request in
  let cursor := tq_cursor request in
  ∃ s1 s2 s3,
    (if td_workflows driver then
       on_workflow_engine (engine_scan_due_as at_ms (tc_workflow_after_run_id cursor) limit authority)
         (await (BeforeScan SourceWorkflow) s) = (s1, Ok (tp_workflows pages))
     else s1 = s ∧ tp_workflows pages = empty_workflow_page) ∧
    (if td_human_handoffs driver then
       on_handoff_engine (handoff_engine_scan_due_as at_ms (tc_handoff_after_handoff_id cursor) limit
         authority) (await (BeforeScan SourceHandoff) s1) = (s2, Ok (tp_handoffs pages))
     else s2 = s1 ∧ tp_handoffs pages = empty_handoff_page) ∧
    (if td_effects driver then
       on_effect_engine (eff_scan_due_as at_ms (tc_effect_after_effect_id cursor) limit authority)
         (await (BeforeScan SourceEffect) s2) = (s3, Ok (tp_effects pages))
     else s3 = s2 ∧ tp_effects pages = empty_effect_page) ∧
    (if td_state driver then
       on_state_engine (state_scan_due_as at_ms (tc_agent_loop_wait_after cursor) limit authority)
         (await (BeforeScan SourceAgentLoop) s3) = (s4, Ok (tp_waits pages))
     else s4 = s3 ∧ tp_waits pages = empty_agent_loop_wait_page).

Lemma tick_scan_answered driver request authority s s4 pages :
  tick_scan await driver request authority s = (s4, Ok pages) →
  scans_answered driver request authority s s4 pages.
Proof.
  unfold tick_scan. intros Ht. inv_M. unfold scans_answered. simpl.
  unfold scan_workflows, scan_handoffs, scan_effects, scan_agent_loop_waits, suspend in *.
  do 3 eexists. split; [|split; [|split]];
    match goal with |- if ?b then _ else _ => destruct b end;
    match goal with
    | Hs : ?m ?s = (_, Ok ?p) |- context [Ok ?p] => exact Hs
    | Hs : mret ?q ?s = (_, Ok ?p) |- _ ∧ ?p = _ => injection Hs as <- <-; done
    end.
Qed.

(** One attempt for each due entry, in their order: its fence and its command. *)
Definition attempts_of {D} (target : D → TemporalTarget) (command : D → result str)
    (due : list D) (attempts : list TemporalAttempt) : Prop :=
  Forall2 (λ d a, ta_target a = target d ∧ command d = Ok (ta_command_id a)) due attempts.

Lemma plan_attempts_of {D C} (target : D → TemporalTarget) (command : D → result str)
    (make : D → result C) (g : C → TemporalTarget * str) due (cs : list C) attempts :
  (∀ d c, make d = Ok c → (g c).1 = target d ∧ command d = Ok (g c).2) →
  Forall2 (λ d c, make d = Ok c) due cs → attempt_plan <$> attempts = g <$> cs →
  attempts_of target command due attempts.
Proof.
  intros Hg HF. revert attempts. induction HF as [|d c due cs Hd _ IH]; intros attempts Ep.
  - apply fmap_nil_inv in Ep as ->. constructor.
  - destruct attempts as [|a attempts]; [done|]. rewrite !fmap_cons in Ep. injection Ep as Ec Ep.
    constructor; [|by apply IH]. destruct (Hg d c Hd) as [H1' H2']. rewrite <-Ec in H1', H2'. done.
Qed.

(** The attempts of a tick, source by source. *)
Definition attempts_exact authority pages (attempts : list TemporalAttempt) : Prop :=
  let who := actor authority in
  ∃ w h e a, attempts = w ++ h ++ e ++ a ∧
    attempts_of workflow_target
      (λ d, temporal_command_id "workflow-wake" who (dw_run_id d) (dw_wait_id d))
      (sp_due (tp_workflows pages)) w ∧
    attempts_of handoff_target
      (λ d, temporal_command_id "handoff-expire" who (hdc_handoff_id d) (hdc_claim_id d))
      (hdp_due (tp_handoffs pages)) h ∧
    attempts_of effect_target
      (λ d, temporal_command_id "effect-expire" who (dl_effect_id d) (dl_lease_id d))
      (edp_due (tp_effects pages)) e ∧
    attempts_of agent_loop_wait_target agent_loop_due_command_id (adp_due (tp_waits pages)) a.

Lemma tick_attempts_exact driver request authority pages commands attempts :
  pages_checked driver request authority pages → tick_commands pages authority = Ok commands →
  attempt_plan <$> attempts = tick_plan driver commands → attempts_exact authority pages attempts.
Proof.
  intros (_ & _ & _ & _ & _ & Ew & Eh & Ee & Es) Hc Hp. unfold tick_commands in Hc. inv_ok. subst commands.
  repeat match goal with Hc : collect _ _ = Ok _ |- _ => apply collect_ok in Hc end.
  unfold tick_plan in Hp. simpl in Hp.
  rewrite (uninstalled_nil (td_workflows driver) (sp_due (tp_workflows pages)) _ _ _
             ltac:(intros Hd; by rewrite Ew) ltac:(eassumption)) in Hp.
  rewrite (uninstalled_nil (td_human_handoffs driver) (hdp_due (tp_handoffs pages)) _ _ _
             ltac:(intros Hd; by rewrite Eh) ltac:(eassumption)) in Hp.
  rewrite (uninstalled_nil (td_effects driver) (edp_due (tp_effects pages)) _ _ _
             ltac:(intros Hd; by rewrite Ee) ltac:(eassumption)) in Hp.
  rewrite (uninstalled_nil (td_state driver) (adp_due (tp_waits pages)) _ _ _
             ltac:(intros Hd; by rewrite Es) ltac:(eassumption)) in Hp.
  apply fmap_app_inv in Hp as (w & x & Pw & Hp & ->).
  apply symmetry, fmap_app_inv in Hp as (h & y & Ph & Hp & ->).
  apply symmetry, fmap_app_inv in Hp as (e & z & Pe & Pa & ->).
  exists w, h, e, z. split; [done|]. split_and!.
  - eapply (plan_attempts_of _ _ (workflow_command authority)); [|eassumption|by symmetry].
    intros d c Hd. unfold workflow_command in Hd. by inv_ok; subst c.
  - eapply (plan_attempts_of _ _ (handoff_command authority)); [|eassumption|by symmetry].
    intros d c Hd. unfold handoff_command in Hd. by inv_ok; subst c.
  - eapply (plan_attempts_of _ _ (effect_command authority)); [|eassumption|by symmetry].
    intros d c Hd. unfold effect_command in Hd. by inv_ok; subst c.
  - eapply (plan_attempts_of _ _ agent_loop_wait_command); [|eassumption|by symmetry].
    intros d c Hd. unfold agent_loop_wait_command in Hd. by inv_ok; subst c.
Qed.

(** The scanned pages agree with the report, and their due entries are due
    fences beyond the cursor, in order and at most the limit per source. *)
Lemma plan_report driver request authority pages commands attempts :
  pages_checked driver request authority pages → tick_commands pages authority = Ok commands →
  attempt_plan <$> attempts = tick_plan driver commands →
  StronglySorted target_before (ta_target <$> attempts) ∧
  (∀ a, a ∈ attempts → target_eligible request (ta_target a)) ∧
  (len (sp_due (tp_workflows pages)) ≤ tq_scan_limit request ∧
   len (hdp_due (tp_handoffs pages)) ≤ tq_scan_limit request ∧
   len (edp_due (tp_effects pages)) ≤ tq_scan_limit request ∧
   len (adp_due (tp_waits pages)) ≤ tq_scan_limit request)%Z.
Proof.
  intros Hs Hc Hp. destruct (tick_plan_ok _ _ _ _ _ Hs Hc) as (p0 & p1 & p2 & p3 & E' & P0 & P1 & P2 & P3).
  destruct (plans_ok _ _ _ _ _ _ _ _ _ _ P0 P1 P2 P3) as [HF HS]. rewrite <-E', <-Hp in *.
  split; [by rewrite <-list_fmap_compose in HS|]. split.
  - intros a Hin. assert (attempt_plan a ∈ attempt_plan <$> attempts) as Hin' by (by apply list_elem_of_fmap_2).
    by apply (proj1 (Forall_forall _ _) HF) in Hin' as (_ & _ & ? & ?).
  - destruct P0 as (_ & _ & _ & ?), P1 as (_ & _ & _ & ?), P2 as (_ & _ & _ & ?), P3 as (_ & _ & _ & ?).
    by split_and!.
Qed.

(** C31: A report is exactly what the engines answered in this tick: each
    installed engine's scan was called once, at the request's time, cursor and
    limit, and answered a page; the attempts of the report are, source after
    source, one for each due entry of that page, in the page's order, with the
    entry's fence and the command identity built for it, and nothing else; the
    report counts and continues from these pages.  Every attempted fence was
    due at the time of the tick and beyond its cursor, the fences are strictly
    ordered by source and identity, so none is attempted twice, and no source
    has more than the scan limit. *)
Theorem temporal_report_exact driver request authority (s s' : TemporalStores T W H V E J)
    report (Ht : tick_as wf_await await driver request authority s = (s', Ok report)) :
  tr_at_ms report = tq_at_ms request ∧
  ∃ s1 pages,
    scans_answered driver request authority s s1 pages ∧
    attempts_exact authority pages (tr_attempts report) ∧
    tr_workflows report = progress (tp_workflows pages) ∧
    tr_human_handoffs report = handoff_progress (tp_handoffs pages) ∧
    tr_effects report = effect_progress (tp_effects pages) ∧
    tr_agent_loop_waits report = agent_loop_wait_progress (tp_waits pages) ∧
    tr_next_cursor report = tick_next_cursor pages ∧
    StronglySorted target_before (ta_target <$> tr_attempts report) ∧
    (∀ a, a ∈ tr_attempts report → target_eligible request (ta_target a)) ∧
    (len (sp_due (tp_workflows pages)) ≤ tq_scan_limit request ∧
     len (hdp_due (tp_handoffs pages)) ≤ tq_scan_limit request ∧
     len (edp_due (tp_effects pages)) ≤ tq_scan_limit request ∧
     len (adp_due (tp_waits pages)) ≤ tq_scan_limit request)%Z.
Proof.
  apply tick_as_ok in Ht as (s1 & pages & commands & attempts & Hs & Hc & Ha & ->).
  pose proof (tick_scan_answered _ _ _ _ _ _ Hs) as Hans. apply tick_scan_checked in Hs.
  destruct (tick_attempts_plan driver request authority commands s1) as (s2 & as' & Ha' & Hp).
  rewrite Ha in Ha'. injection Ha' as <- <-. split; [done|]. exists s1, pages.
  split; [done|]. split; [by eapply tick_attempts_exact|]. do 5 (split; [done|]).
  by eapply plan_report.
Qed.
End tick.
