(* ===== verification/TemporalRuns.v ===== *)
(** What a tick of the temporal driver (src/src/temporal/mod.rs) does to the
    stores it shares, proved against the contracts of the coordinators and so
    true of the in-memory and of the SQLite ones: its attempts advance what
    was due and nothing else, and a sweep of ticks leaves nothing due out. *)

From Stdlib Require Import ZArith Lia.
From stdpp Require Import sorting base tactics list gmap relations numbers strings option.
From stdpp Require Import list.
From S2P Require Import Prelude Ordering Kernel Digest Json Pairs TaskGraph TaskCoordinator Workflow WorkflowSafety WorkflowCoordinator WorkflowStores WorkflowClients WorkflowEngine Effect EffectSafety EffectCoordinator EffectStores Handoff HandoffSafety HandoffCoordinator HandoffStores Approval Journal WaitDue Temporal TemporalSafety.

(** * The contract of the State engine *)

(** What the clients of a State engine can observe of its journal: the rows of
    the live waits, and that a fence was reported due and is still the row's,
    or that its stream has grown since; and what other clients of the journal
    may do while a call is suspended. *)
Class StateWaitsModel (J : Type) := {
  sw_inv : J → Prop;
  sw_view : J → gmap ThreadId AgentLoopWaitProjection;
  sw_reported : AgentLoopDueWait → J → Prop;
  sw_others : J → J → Prop;
}.

Section contract.
Context {J : Type} `{!StateWaitsModel J}.

Definition sw_keeps (s s1 : J) : Prop :=
  sw_inv s → sw_inv s1 ∧ ∀ due, sw_reported due s → sw_reported due s1.

(** Steps that are not of the call itself, or that change nothing. *)
Definition sw_move (s s1 : J) : Prop :=
  sw_others s s1 ∨ sw_view s1 = sw_view s ∧ sw_keeps s s1.
Definition sw_moves : J → J → Prop := rtc sw_move.

(** The fence was the row's, and its row is gone. *)
Definition sw_settled (due : AgentLoopDueWait) (s s1 : J) : Prop :=
  ∃ p version bytes, sw_view s !! aw_thread_id due = Some p ∧
    projection_due_wait p version bytes = Ok due ∧
    sw_view s1 = delete (aw_thread_id due) (sw_view s).

(** What the one change of a settlement is, by its answer. An append that
    failed, not on a version conflict, may still have committed. *)
Definition sw_answered (due : AgentLoopDueWait) (at_ms : Z) (a : AuthorityContext)
    (r : result EventAppendResult) (s s1 : J) : Prop :=
  let settled := due_validate due at_ms (tenant_id a) = Ok () ∧
                 (sw_reported due s → sw_settled due s s1) in
  match r with
  | Ok res =>
      match ear_disposition res with
      | DispositionApplied => settled
      | DispositionDuplicate => sw_view s1 = sw_view s
      | DispositionUnknown => False
      end
  | Err (StateConflict _ _ _) => sw_view s1 = sw_view s
  | Err _ => sw_view s1 = sw_view s ∨ settled
  end.
End contract.

Class StateWaitsLaws (J : Type) `{!StateWaits J, !StateWaitsModel J} := {
  sw_others_law s s1 : sw_others s s1 → sw_keeps s s1;
  sw_scan_law at_ms after limit a s s' r :
    sw_inv s → state_scan_due_as at_ms after limit a s = (s', r) → sw_moves s s' ∧
    ∀ page, r = Ok page →
      due_page_validate page at_ms after limit (tenant_id a) = Ok () ∧
      ∀ due, due ∈ adp_due page → sw_reported due s';
  sw_settle_law due at_ms a s s' r :
    sw_inv s → state_settle_due_as due at_ms a s = (s', r) →
    ∃ s1 s2, sw_moves s s1 ∧ sw_keeps s1 s2 ∧ sw_moves s2 s' ∧ sw_answered due at_ms a r s1 s2;
}.

Lemma sw_moves_keeps {J} `{StateWaitsLaws J} (s s1 : J) : sw_moves s s1 → sw_keeps s s1.
Proof.
  induction 1 as [s|s s1 s2 Hm _ IH]; [done|]. intros Hs.
  assert (sw_keeps s s1) as Hk by (destruct Hm as [Ho|[_ Hk]]; [by apply sw_others_law|done]).
  destruct (Hk Hs) as [Hs1 Hd]. destruct (IH Hs1) as [Hs2 Hd']. split; [done|auto].
Qed.

(** * Commands that settle a due fence *)

Section commands.
Context `{!Serialize WorkflowCreateRequest, !Serialize WorkflowCommand,
          !Serialize WorkflowRunWire, sha : !Sha256, semver : !SemverOrder}.

Lemma wake_applied c now a r r' wid :
  cmd_kind c = WakeDue wid → wf_apply c now a r = (r', Ok Applied) →
  ∃ w, wr_status r = WfWaiting w ∧ wait_id w = wid ∧ is_ok (wake_reason w now) = true ∧
    wr_status r' = WfRunning.
Proof.
  intros Hk (d & [r1 k] & n & Had & _ & _ & ->)%apply_applied.
  pose proof (ad_kind _ _ _ _ _ _ Had) as Ha. rewrite Hk in Ha. simpl in Ha.
  destruct (wr_status r) as [|w| | |] eqn:Ew; try done. inv_ok. bool_hyps.
  match goal with H : ¬ (_ ≠ _) |- _ => apply dec_stable in H end.
  exists w. split_and!; try done.
  - match goal with H : wake_reason _ _ = Ok _ |- _ => by rewrite H end.
  - by simplify_eq/=.
Qed.
End commands.

Section runs.
Context `{!Serialize ExecutionBinding, !Serialize (TaskId * TaskRecord),
          !Serialize TaskMessage, !Serialize TaskAttemptBinding}.
Context `{!Serialize WorkflowCreateRequest, !Serialize WorkflowCommand,
          !Serialize WorkflowRunWire, sha : !Sha256, semver : !SemverOrder}.
Context `{!Serialize (HandoffAttributed HumanHandoffCreateRequest),
          !Serialize (HandoffAttributed HumanHandoffCommand), !Serialize HumanHandoffCommand,
          !Serialize HumanHandoffWire}.
Context `{!Serialize Json, !Serialize (AttributedCommand EffectCreateRequest),
          !Serialize (AttributedCommand EffectCommand), !Serialize EffectCommand,
          !Serialize EffectWire}.
Context {ser_command : Serialize (str * ActorIdentity * str * str)} {sha_bytes : Sha256Bytes}.
Context {T W H V E J : Type} `{!TaskCoordinator T, !WorkflowCoordinator W}.
Context `{!HumanHandoffCoordinator H, !HumanHandoffSubjectResolver V}.
Context `{!EffectCoordinator E, !StateWaits J, !StateWaitsModel J}.
Context `{!WorkflowLaws W, !HandoffLaws H, !EffectLaws E, !StateWaitsLaws J}.
Context (wf_await : nat → T * W → T * W).

Abbreviation Stores := (TemporalStores T W H V E J).
Context (await : TickPoint → Stores → Stores).
Implicit Types (s : Stores) (driver : TemporalDriver) (request : TemporalTickRequest)
  (authority : AuthorityContext) (report : TemporalTickReport).

Definition runs_view s := wc_view (st_workflows s).2.
Definition handoffs_view s := hc_view (st_human_handoffs s).1.
Definition effects_view s := ec_view (st_effects s).
Definition waits_view s := sw_view (st_state s).

Definition stores_ok s : Prop :=
  wc_inv (st_workflows s).2 ∧ hc_inv (st_human_handoffs s).1 ∧ ec_inv (st_effects s) ∧
  sw_inv (st_state s).

(** Nothing a client can read differs. *)
Definition same_stores s s1 : Prop :=
  (st_workflows s1).1 = (st_workflows s).1 ∧ runs_view s1 = runs_view s ∧
  (st_human_handoffs s1).2 = (st_human_handoffs s).2 ∧ handoffs_view s1 = handoffs_view s ∧
  effects_view s1 = effects_view s ∧ waits_view s1 = waits_view s.

(** Nothing but the aggregates of one engine differs. *)
Definition same_except (source : TickSource) s s1 : Prop :=
  (st_workflows s1).1 = (st_workflows s).1 ∧ (st_human_handoffs s1).2 = (st_human_handoffs s).2 ∧
  (source ≠ SourceWorkflow → runs_view s1 = runs_view s) ∧
  (source ≠ SourceHandoff → handoffs_view s1 = handoffs_view s) ∧
  (source ≠ SourceEffect → effects_view s1 = effects_view s) ∧
  (source ≠ SourceAgentLoop → waits_view s1 = waits_view s).

(** What an attempt that reports [AttemptApplied] did: it advanced the
    aggregate it names, which was at the revision the report shows and whose
    fence was due. *)
Definition advanced request authority (a : TemporalAttempt) s s1 : Prop :=
  let now := tq_at_ms request in
  match ta_target a with
  | TargetWorkflowWait run_id revision wid _ =>
      same_except SourceWorkflow s s1 ∧
      ∃ cur run w, runs_view s !! run_key run_id (tenant_id authority) = Some cur ∧
        ws_revision cur = revision ∧ wr_status (ws_run cur) = WfWaiting w ∧ wait_id w = wid ∧
        is_ok (wake_reason w now) = true ∧ wr_status run = WfRunning ∧
        runs_view s1 = <[run_key run_id (tenant_id authority) := next_run_snapshot cur run]>
                         (runs_view s)
  | TargetHumanHandoffClaim handoff_id revision claim_id _ =>
      same_except SourceHandoff s s1 ∧
      ∃ cur h claim, handoffs_view s !! handoff_key handoff_id (tenant_id authority) = Some cur ∧
        hs_revision cur = revision ∧ hh_status (hs_handoff cur) = HClaimed claim ∧
        hl_id claim = claim_id ∧ (hl_expires_at_ms claim ≤ now)%Z ∧ hh_status h = HQueued ∧
        handoffs_view s1 = <[handoff_key handoff_id (tenant_id authority)
                             := next_handoff_snapshot cur h]> (handoffs_view s)
  | TargetEffectLease effect_id revision lease_id _ _ =>
      same_except SourceEffect s s1 ∧
      ∃ cur e lease, effects_view s !! effect_key effect_id (tenant_id authority) = Some cur ∧
        es_revision cur = revision ∧ ef_status (es_effect cur) = EsClaimed lease ∧
        el_id lease = lease_id ∧ (el_expires_at_ms lease ≤ now)%Z ∧
        ef_status e = EsUnknown (el_attempt lease) lease_id (lit "lease.expired") ∧
        effects_view s1 = <[effect_key effect_id (tenant_id authority)
                            := next_effect_snapshot cur e]> (effects_view s)
  | TargetAgentLoopWait _ thread_id _ wid revision _ due =>
      same_except SourceAgentLoop s s1 ∧
      ∃ p, waits_view s !! thread_id = Some p ∧ wp_wait_id p = wid ∧ wp_revision p = revision ∧
        wp_due_at_ms p = Some due ∧ wp_tenant_id p = tenant_id authority ∧ (due ≤ now)%Z ∧
        waits_view s1 = delete thread_id (waits_view s)
  end.

(** A failed attempt on an Agent Loop wait may have settled it: its append may
    have committed and its answer been lost. *)
Definition attempted request authority (a : TemporalAttempt) s s1 : Prop :=
  match ta_outcome a, ta_target a with
  | AttemptApplied, _ => advanced request authority a s s1
  | AttemptFailed, TargetAgentLoopWait _ _ _ _ _ _ _ =>
      same_stores s s1 ∨ advanced request authority a s s1
  | _, _ => same_stores s s1
  end.

Definition with_state s (j : J) : Stores := {|
  st_workflows := st_workflows s; st_human_handoffs := st_human_handoffs s;
  st_effects := st_effects s; st_state := j |}.

(** The steps of a tick: what other clients do while it is suspended, between
    its calls or inside a call of its State engine, calls that change nothing,
    and its attempts. *)
Inductive tick_runs (att : TemporalAttempt → Stores → Stores → Prop)
    : Stores → list TemporalAttempt → Stores → Prop :=
| runs_done s : tick_runs att s [] s
| runs_others p s l s' : tick_runs att (await p s) l s' → tick_runs att s l s'
| runs_state_others s j l s' :
    sw_others (st_state s) j → tick_runs att (with_state s j) l s' → tick_runs att s l s'
| runs_quiet s s1 l s' : same_stores s s1 → tick_runs att s1 l s' → tick_runs att s l s'
| runs_attempt s a s1 l s' :
    att a s s1 → tick_runs att s1 l s' → tick_runs att s (a :: l) s'.

(** ** The calls of a tick *)

Lemma same_stores_refl s : same_stores s s.
Proof. done. Qed.

Lemma quiet_runs att s s1 : same_stores s s1 → tick_runs att s [] s1.
Proof. intros Hs. eapply runs_quiet; [exact Hs|constructor]. Qed.

Lemma tick_runs_app att s1 s2 s3 l l' :
  tick_runs att s1 l s2 → tick_runs att s2 l' s3 →
  tick_runs att s1 (l ++ l') s3.
Proof.
  induction 1; intros H2; [done|by eapply runs_others; eauto|by eapply runs_state_others; eauto
    |by eapply runs_quiet; eauto|]. simpl. eapply runs_attempt; eauto.
Qed.

Lemma with_state_eta s : with_state s (st_state s) = s.
Proof. by destruct s. Qed.

(** The moves of a call of the State engine are steps of the tick. *)
Lemma moves_run att s j :
  sw_moves (st_state s) j → tick_runs att s [] (with_state s j).
Proof.
  intros Hm. rewrite <-(with_state_eta s) at 1. induction Hm as [j|j j1 j2 Hm _ IH]; [constructor|].
  destruct Hm as [Ho|[Hv _]].
  - by eapply (runs_state_others _ (with_state s j)).
  - eapply (runs_quiet _ (with_state s j) (with_state s j1)); [|exact IH].
    unfold same_stores, waits_view. by simpl.
Qed.

Context (await_ok : ∀ p s, stores_ok s → stores_ok (await p s)).

(** The others leave what was reported due so. *)
Definition await_keeps (due : AgentLoopDueWait) : Prop :=
  ∀ p s, stores_ok s → sw_reported due (st_state s) → sw_reported due (st_state (await p s)).
Definition keeps s s1 : Prop :=
  ∀ due, await_keeps due → sw_reported due (st_state s) → sw_reported due (st_state s1).

Lemma keeps_trans s1 s2 s3 : keeps s1 s2 → keeps s2 s3 → keeps s1 s3.
Proof. intros H12 H23 due Ha Hd. by apply H23, H12. Qed.

Lemma keeps_suspend p s : stores_ok s → keeps s (await p s).
Proof. intros Hs due Ha. by apply Ha. Qed.

Lemma keeps_same s s1 : st_state s1 = st_state s → keeps s s1.
Proof. intros Hst due _ Hd. by rewrite Hst. Qed.

(** A computation of the tick that attempts nothing. *)
Definition quiet {A} att (m : M Stores A) : Prop :=
  ∀ s s' r, stores_ok s → m s = (s', r) →
    stores_ok s' ∧ tick_runs att s [] s' ∧ keeps s s'.

Lemma quiet_bind {A B} att (m : M Stores A) (k : A → M Stores B) :
  quiet att m → (∀ a, quiet att (k a)) →
  quiet att (m ≫= k).
Proof.
  intros Hm Hk s s' r Hs Hr. unfold mbind, M_bind in Hr.
  destruct (m s) as [s1 [a|e]] eqn:Em; apply Hm in Em as (Hs1 & H1' & K1); try done.
  - apply Hk in Hr as (Hs' & H2' & K2); [|done]. split; [done|].
    split; [by eapply (tick_runs_app _ _ _ _ [] [])|by eapply keeps_trans].
  - by injection Hr as <- <-.
Qed.

Lemma quiet_lift {A} att (r : result A) : quiet att (lift r).
Proof. intros s s' r' Hs [= <- <-]. split; [done|]. split; [constructor|by apply keeps_same]. Qed.

Lemma quiet_ret {A} att (a : A) : quiet att (mret a).
Proof. apply (quiet_lift att (Ok a)). Qed.

Lemma quiet_suspend att p : quiet att (suspend await p).
Proof.
  intros s s' r Hs [= <- <-]. split; [by apply await_ok|].
  split; [eapply runs_others; constructor|by apply keeps_suspend].
Qed.

Lemma scan_workflows_quiet att driver request authority :
  quiet att (scan_workflows await driver request authority).
Proof.
  unfold scan_workflows. destruct (td_workflows driver); [|apply quiet_ret].
  apply quiet_bind; [apply quiet_suspend|]. intros _ s s' r (Hw & Hh & He & Hj) Hr.
  unfold on_workflow_engine, engine_scan_due_as, on_workflows in Hr.
  destruct (wf_scan_due_as _ _ _ _ _) as [w' r'] eqn:E'. injection Hr as <- <-.
  apply wc_scan_law in E' as (Hw' & Hv & _); [|done]. split; [by split_and!|].
  split; [by apply quiet_runs|by apply keeps_same].
Qed.

Lemma scan_handoffs_quiet att driver request authority :
  quiet att (scan_handoffs await driver request authority).
Proof.
  unfold scan_handoffs. destruct (td_human_handoffs driver); [|apply quiet_ret].
  apply quiet_bind; [apply quiet_suspend|]. intros _ s s' r (Hw & Hh & He & Hj) Hr.
  unfold on_handoff_engine, handoff_engine_scan_due_as, on_coordinator in Hr.
  destruct (handoff_scan_due_as _ _ _ _ _) as [h' r'] eqn:E'. injection Hr as <- <-.
  apply hc_scan_law in E' as (Hw' & Hv & _); [|done]. split; [by split_and!|].
  split; [by apply quiet_runs|by apply keeps_same].
Qed.

Lemma scan_effects_quiet att driver request authority :
  quiet att (scan_effects await driver request authority).
Proof.
  unfold scan_effects. destruct (td_effects driver); [|apply quiet_ret].
  apply quiet_bind; [apply quiet_suspend|]. intros _ s s' r (Hw & Hh & He & Hj) Hr.
  unfold on_effect_engine in Hr.
  destruct (eff_scan_due_as _ _ _ _ _) as [e' r'] eqn:E'. injection Hr as <- <-.
  apply ec_scan_law in E' as (Hw' & Hv & _); [|done]. split; [by split_and!|].
  split; [by apply quiet_runs|by apply keeps_same].
Qed.

Lemma scan_waits_quiet att driver request authority :
  quiet att (scan_agent_loop_waits await driver request authority).
Proof.
  unfold scan_agent_loop_waits. destruct (td_state driver); [|apply quiet_ret].
  apply quiet_bind; [apply quiet_suspend|]. intros _ s s' r (Hw & Hh & He & Hj) Hr.
  unfold on_state_engine in Hr.
  destruct (state_scan_due_as _ _ _ _ _) as [j' r'] eqn:E'. injection Hr as <- <-.
  destruct (sw_scan_law _ _ _ _ _ _ _ Hj E') as [Hm _]. destruct (sw_moves_keeps _ _ Hm Hj) as [Hj' Hk].
  split; [by split_and!|]. split; [by apply moves_run|]. intros d _. apply Hk.
Qed.

Lemma tick_scan_quiet att driver request authority :
  quiet att (tick_scan await driver request authority).
Proof.
  unfold tick_scan.
  repeat match goal with |- quiet _ (_ ≫= _) => apply quiet_bind; [|intros ?] end;
    eauto using quiet_lift, quiet_ret, scan_workflows_quiet, scan_handoffs_quiet, scan_effects_quiet, scan_waits_quiet.
Qed.

(** The due fences of a scan are reported when it ends. *)
Lemma tick_scan_reported driver request authority s s' pages due :
  stores_ok s → tick_scan await driver request authority s = (s', Ok pages) →
  due ∈ adp_due (tp_waits pages) → sw_reported due (st_state s').
Proof.
  intros Hs Hsc Hd. unfold tick_scan in Hsc. inv_M. simpl in Hd.
  match goal with Hx : scan_workflows _ _ _ _ _ = _ |- _ =>
    apply (scan_workflows_quiet (λ _ _ _, True) driver request authority) in Hx as (H1' & _); [|exact Hs] end.
  match goal with Hx : scan_handoffs _ _ _ _ _ = _ |- _ =>
    apply (scan_handoffs_quiet (λ _ _ _, True) driver request authority) in Hx as (H2' & _); [|exact H1'] end.
  match goal with Hx : scan_effects _ _ _ _ _ = _ |- _ =>
    apply (scan_effects_quiet (λ _ _ _, True) driver request authority) in Hx as (H3' & _); [|exact H2'] end.
  match goal with Hx : scan_agent_loop_waits _ _ _ _ _ = _ |- _ => rename Hx into Hw end.
  unfold scan_agent_loop_waits in Hw. destruct (td_state driver); [|inv_M; subst; by apply elem_of_nil in Hd].
  inv_M. match goal with Hx : suspend _ _ _ = _ |- _ =>
    apply (quiet_suspend (λ _ _ _, True)) in Hx as ((_ & _ & _ & Hj) & _); [|exact H3'] end.
  match goal with Hx : on_state_engine _ _ = _ |- _ => unfold on_state_engine in Hx; rename Hx into Hr end.
  destruct (state_scan_due_as _ _ _ _ _) as [j' r'] eqn:E'. injection Hr as <- ->.
  apply sw_scan_law in E' as [_ Hp]; [|exact Hj]. simpl. by apply (Hp _ eq_refl).
Qed.

(** ** Attempts *)

(** Nobody unreports a fence. *)
Definition reports_kept : Prop := ∀ due, await_keeps due.

(** What an attempt did when it may not be known who settled a fence. *)
Definition attempted_if request authority (a : TemporalAttempt) s s1 : Prop :=
  match ta_target a with
  | TargetAgentLoopWait _ _ _ _ _ _ _ =>
      same_except SourceAgentLoop s s1 ∧ (reports_kept → attempted request authority a s s1)
  | _ => attempted request authority a s s1
  end.

Abbreviation runs request authority := (tick_runs (attempted_if request authority)).

(** An attempt, on one of the fences [D] when it is on a wait. *)
Definition one_attempt (D : list AgentLoopDueWait) request authority (m : M Stores TemporalAttempt)
    : Prop :=
  ∀ s s' a, stores_ok s → m s = (s', Ok a) →
    stores_ok s' ∧ keeps s s' ∧
    ((reports_kept → ∀ due, due ∈ D → sw_reported due (st_state s)) →
     runs request authority s [a] s').

Lemma attempt_each_runs {C} D request authority (attempt : nat → C → M Stores TemporalAttempt) :
  ∀ l, (∀ i c, c ∈ l → one_attempt D request authority (attempt i c)) →
  ∀ i s s' attempts, stores_ok s → attempt_each attempt i l s = (s', Ok attempts) →
    stores_ok s' ∧ keeps s s' ∧
    ((reports_kept → ∀ due, due ∈ D → sw_reported due (st_state s)) →
     runs request authority s attempts s').
Proof.
  intros l. induction l as [|c l IH]; intros Ha i s s' attempts Hs Hr; simpl in Hr.
  - inv_M. split; [done|]. split; [by apply keeps_same|constructor].
  - inv_M. match goal with Hx : attempt _ _ _ = _ |- _ => apply Ha in Hx as (HsA & KA & HA); [|by left|done] end.
    match goal with Hx : attempt_each _ _ _ _ = _ |- _ => apply IH in Hx as (HsB & KB & HB); [|by intros; apply Ha; right|done] end.
    split; [done|]. split; [by eapply keeps_trans|]. intros HD.
    change (?a :: ?l) with ([a] ++ l). eapply tick_runs_app; [by apply HA|]. apply HB.
      intros Hk due Hin. by apply KA; [|apply HD].
Qed.

(** An attempt suspends, calls its engine once, and reports the answer. *)
Lemma one_attempt_call {A} D request authority p (m : M Stores A) (f : result A → TemporalAttempt) :
  (∀ s s' r, stores_ok s → m s = (s', r) → stores_ok s' ∧ keeps s s' ∧
     ((reports_kept → ∀ due, due ∈ D → sw_reported due (st_state s)) →
      runs request authority s [f r] s')) →
  one_attempt D request authority (_ ← suspend await p; command_settled f m).
Proof.
  intros Hm s s' a Hs Hr. unfold mbind, M_bind, suspend, command_settled in Hr.
  destruct (m (await p s)) as [s1 r] eqn:Em. injection Hr as <- <-.
  apply Hm in Em as (Hs1 & K1 & H1'); [|by apply await_ok]. pose proof (keeps_suspend p s Hs) as K0.
  split; [done|]. split; [by eapply keeps_trans|]. intros HD. eapply runs_others, H1'.
  intros Hk due Hin. apply K0; [apply Hk|by apply HD].
Qed.

Lemma attempted_runs request authority a s s1 :
  attempted_if request authority a s s1 → runs request authority s [a] s1.
Proof. intros Ha. eapply runs_attempt; [exact Ha|constructor]. Qed.

Lemma attempt_workflow_runs D request authority i c :
  (∃ due id, c = (due, id, {| cmd_id := id; cmd_kind := WakeDue (dw_wait_id due) |})) →
  one_attempt D request authority (attempt_workflow wf_await await request authority i c).
Proof.
  intros (due & id & ->). apply one_attempt_call. intros s s' r (Hw & Hh & He & Hj) Hr.
  unfold on_workflow_engine, engine_apply_as, on_workflows in Hr. simpl in Hr.
  destruct (wf_apply_as _ _ _ _ _ _) as [w' r'] eqn:E'. injection Hr as <- <-.
  apply wc_apply_law in E' as [Hw' Hv]; [|done]. split; [by split_and!|].
  split; [by apply keeps_same|]. intros _. apply attempted_runs.
  destruct r' as [res|[]]; try done.
  destruct Hv as (_ & cur & Hc & [(_ & Hv & ->)|(Hrev & run & Hap & -> & Hv)]); [done|].
  unfold attempted_if, attempted. simpl. unfold advanced. simpl. split; [by split_and!|].
  eapply wake_applied in Hap as (w & Hst & Hid & Hd & Hrun); [|done].
  by exists cur, run, w.
Qed.

Lemma attempt_handoff_runs D request authority i c :
  (∃ due id, c = (due, id, {| hc_id := id; hc_kind := HkExpireClaim (hdc_claim_id due) |})) →
  one_attempt D request authority (attempt_handoff await request authority i c).
Proof.
  intros (due & id & ->). apply one_attempt_call. intros s s' r (Hw & Hh & He & Hj) Hr.
  unfold on_handoff_engine, handoff_engine_apply_as, on_coordinator in Hr.
  destruct (handoff_apply_as _ _ _ _ _ _) as [h' r'] eqn:E'. injection Hr as <- <-.
  apply hc_apply_law in E' as [Hh' Hv]; [|done]. split; [by split_and!|].
  split; [by apply keeps_same|]. intros _. apply attempted_runs.
  destruct r' as [res|[]]; try done.
  destruct Hv as (_ & cur & Hc & [(_ & Hv & ->)|(Hrev & h & Hap & -> & Hv)]); [done|].
  unfold attempted_if, attempted. simpl. unfold advanced. simpl. split; [by split_and!|].
  apply (proj1 (proj2 (handoff_fencing (hs_handoff cur)))) with (id := hdc_claim_id due) in Hap
    as (claim & ? & ? & ? & ?); [|done].
  by exists cur, h, claim.
Qed.

Lemma attempt_effect_runs D request authority i c :
  (∃ due id, c = (due, id, {| ec_id := id; ec_kind := EcExpireLease (dl_lease_id due) |})) →
  one_attempt D request authority (attempt_effect await request authority i c).
Proof.
  intros (due & id & ->). apply one_attempt_call. intros s s' r (Hw & Hh & He & Hj) Hr.
  unfold on_effect_engine in Hr.
  destruct (eff_apply_as _ _ _ _ _ _) as [e' r'] eqn:E'. injection Hr as <- <-.
  apply ec_apply_law in E' as [He' Hv]; [|done]. split; [by split_and!|].
  split; [by apply keeps_same|]. intros _. apply attempted_runs.
  destruct r' as [res|[]]; try done.
  destruct Hv as (_ & cur & Hc & [(_ & Hv & ->)|(Hrev & e & Hap & -> & Hv)]); [done|].
  unfold attempted_if, attempted. simpl. unfold advanced. simpl. split; [by split_and!|].
  apply eff_apply_applied in Hap as (d & p & n & Had & _ & _ & ->).
  pose proof (ea_kind _ _ _ _ _ _ Had) as Ha. apply expire_command_lease in Ha as (lease & ? & ? & ? & ?).
  by eexists cur, (eff_with_charge (next_effect (es_effect cur) p _ d _ authority) n), lease.
Qed.

(** A settlement of a reported fence is what the report of its attempt says. *)
Lemma settled_advanced request authority due s j :
  sw_settled due (st_state s) j → due_validate due (tq_at_ms request) (tenant_id authority) = Ok () →
  ∀ a, ta_target a = agent_loop_wait_target due → advanced request authority a s (with_state s j).
Proof.
  intros (p & v & b & Hp & Hpd & Hv) Hd a Ht. unfold advanced. rewrite Ht. simpl. split; [by split_and!|].
  exists p. unfold projection_due_wait in Hpd. inv_ok. subst due. simpl in *.
  apply due_validate_ok in Hd as ((? & ?) & Hten & _). by split_and!.
Qed.

Lemma answered_attempted request authority due id s j r :
  sw_answered due (tq_at_ms request) authority r (st_state s) j → sw_reported due (st_state s) →
  attempted request authority {| ta_target := agent_loop_wait_target due; ta_command_id := id;
    ta_outcome := agent_loop_wait_outcome r |} s (with_state s j).
Proof.
  unfold sw_answered. intros Ha Hrep.
  assert (sw_view j = sw_view (st_state s) → same_stores s (with_state s j)) as Hsame.
  { intros Hv. unfold same_stores, waits_view. by simpl. }
  destruct r as [res|e].
  - unfold attempted. simpl. destruct (ear_disposition res); [|by apply Hsame|done].
    destruct Ha as [Hd Hset]. by eapply settled_advanced; [apply Hset|..].
  - unfold attempted. destruct e; simpl in *; try (by apply Hsame);
      (destruct Ha as [Hv|[Hd Hset]]; [left; by apply Hsame|right; by eapply settled_advanced; [apply Hset|..]]).
Qed.

Lemma attempt_wait_runs D request authority i c :
  c.1 ∈ D → one_attempt D request authority (attempt_agent_loop_wait await request authority i c).
Proof.
  destruct c as [due id]. simpl. intros Hin. apply one_attempt_call. intros s s' r (Hw & Hh & He & Hj) Hr.
  unfold on_state_engine in Hr.
  destruct (state_settle_due_as _ _ _ _) as [j' r'] eqn:E'. injection Hr as <- <-.
  apply sw_settle_law in E' as (j1 & j2 & M1 & K2 & M3 & Ha); [|done].
  destruct (sw_moves_keeps _ _ M1 Hj) as [I1 K1]. destruct (K2 I1) as [I2 K2'].
  destruct (sw_moves_keeps _ _ M3 I2) as [I3 K3]. split; [by split_and!|].
  split; [intros d _ Hd; simpl; auto|]. intros HD.
  change [?a] with ([] ++ ([a] ++ [])). eapply tick_runs_app; [by apply moves_run|].
  eapply tick_runs_app; [|by apply (moves_run _ (with_state s j2))].
  apply attempted_runs. split; [by split_and!|]. intros Hk.
  apply (answered_attempted _ _ _ _ (with_state s j1)); [done|]. by apply K1, HD.
Qed.

Lemma collect_made {A B} (f : A → result B) l r c :
  collect f l = Ok r → c ∈ r → ∃ x, x ∈ l ∧ f x = Ok c.
Proof.
  intros HF%collect_ok Hc. apply list_elem_of_lookup in Hc as [i Hi].
  destruct (Forall2_lookup_r _ _ _ _ _ HF Hi) as (x & Hin & Hx). exists x.
  split; [by eapply list_elem_of_lookup_2|done].
Qed.

Lemma tick_attempts_runs request authority driver pages commands s s' attempts :
  stores_ok s → tick_commands pages authority = Ok commands →
  tick_attempts wf_await await driver request authority commands s = (s', Ok attempts) →
  stores_ok s' ∧
  ((reports_kept → ∀ due, due ∈ adp_due (tp_waits pages) → sw_reported due (st_state s)) →
   runs request authority s attempts s').
Proof.
  set (D := adp_due (tp_waits pages)).
  intros Hs Hc Ha. unfold tick_commands in Hc. inv_ok. subst commands. unfold tick_attempts in Ha. simpl in Ha.
  assert (∀ (b : bool) C (f : nat → C → M Stores TemporalAttempt) l s s' r, stores_ok s →
    (if b then attempt_each f 0 l else mret []) s = (s', Ok r) →
    (∀ i c, c ∈ l → one_attempt D request authority (f i c)) →
    stores_ok s' ∧ keeps s s' ∧
    ((reports_kept → ∀ due, due ∈ D → sw_reported due (st_state s)) →
     runs request authority s r s')) as Hb.
  { intros [] C f l s0 s1 r Hs0 Hr Hf; [by eapply attempt_each_runs|]. inv_M.
    split; [done|]. split; [by apply keeps_same|constructor]. }
  inv_M.
  match goal with Hx : (if td_workflows driver then _ else _) _ = _ |- _ =>
    apply Hb in Hx as (O1 & K1 & R1); [|exact Hs|] end.
  2: { intros i c Hin. eapply collect_made in Hin as (due & Hdue & Hd); [|eassumption].
       unfold workflow_command in Hd. inv_ok. subst c. apply attempt_workflow_runs. by do 2 eexists. }
  match goal with Hx : (if td_human_handoffs driver then _ else _) _ = _ |- _ =>
    apply Hb in Hx as (O2 & K2 & R2); [|exact O1|] end.
  2: { intros i c Hin. eapply collect_made in Hin as (due & Hdue & Hd); [|eassumption].
       unfold handoff_command in Hd. inv_ok. subst c. apply attempt_handoff_runs. by do 2 eexists. }
  match goal with Hx : (if td_effects driver then _ else _) _ = _ |- _ =>
    apply Hb in Hx as (O3 & K3 & R3); [|exact O2|] end.
  2: { intros i c Hin. eapply collect_made in Hin as (due & Hdue & Hd); [|eassumption].
       unfold effect_command in Hd. inv_ok. subst c. apply attempt_effect_runs. by do 2 eexists. }
  match goal with Hx : (if td_state driver then _ else _) _ = _ |- _ =>
    apply Hb in Hx as (O4 & K4 & R4); [|exact O3|] end.
  2: { intros i c Hin. eapply collect_made in Hin as (due & Hdue & Hd); [|eassumption].
       apply attempt_wait_runs. unfold agent_loop_wait_command in Hd. by inv_ok; subst c. }
  split; [exact O4|]. intros HD.
  assert (∀ t, keeps s t → reports_kept → ∀ due, due ∈ D → sw_reported due (st_state t)) as HDt.
  { intros t Kt Hk due Hin. apply Kt; [apply Hk|by apply HD]. }
  pose proof (keeps_trans _ _ _ K1 K2) as K12. pose proof (keeps_trans _ _ _ K12 K3) as K123.
  eapply tick_runs_app; [by apply R1|]. eapply tick_runs_app; [by apply R2, HDt|].
  eapply tick_runs_app; [by apply R3, HDt|]. by apply R4, HDt.
Qed.

Lemma tick_accounted driver request authority (s s' : Stores) (r : result TemporalTickReport) :
  stores_ok s → tick_as wf_await await driver request authority s = (s', r) →
  stores_ok s' ∧
  match r with
  | Ok report => runs request authority s (tr_attempts report) s'
  | Err _ => runs request authority s [] s'
  end.
Proof.
  intros Hs Ht. destruct r as [report|e].
  - apply tick_as_ok in Ht as (s1 & pages & commands & attempts & Hp & Hc & Ha & ->).
    apply (tick_scan_quiet (attempted_if request authority) driver request authority) in Hp as Hq; [|done].
    destruct Hq as (Hs1 & H1' & K1).
    eapply tick_attempts_runs in Ha as [Hs2 H2']; [|done|done]. split; [done|].
    change (tr_attempts _) with ([] ++ attempts). eapply tick_runs_app; [exact H1'|]. apply H2'.
    intros _ due Hin. eapply tick_scan_reported; [exact Hs|exact Hp|exact Hin].
  - unfold tick_as in Ht. inv_M_err.
    + apply (tick_scan_quiet (attempted_if request authority) driver request authority) in Ht as (? & ? & _); done.
    + apply (tick_scan_quiet (attempted_if request authority) driver request authority) in H0 as (? & ? & _); done.
    + match goal with Ha : tick_attempts _ _ _ _ _ ?commands ?st = _ |- _ =>
        destruct (tick_attempts_plan wf_await await driver request authority commands st)
          as (s2 & as' & Ha' & _); rewrite Ha' in Ha; discriminate Ha end.
Qed.

(** When nobody unreports a fence, every attempt did what it reports. *)
Lemma runs_attempted request authority s l s' :
  reports_kept → runs request authority s l s' →
  tick_runs (attempted request authority) s l s'.
Proof.
  intros Hk. induction 1 as [| | |s s1 l s' Hq _ IH|s a s1 l s' Ha _ IH];
    [constructor|by eapply runs_others|by eapply runs_state_others|by eapply runs_quiet|].
  eapply runs_attempt; [|exact IH]. unfold attempted_if in Ha.
  destruct (ta_target a); try exact Ha. by apply Ha.
Qed.

(** A tick does what its report says and nothing else, when the others leave
    what was reported due so. *)
Lemma tick_honest driver request authority (s s' : Stores)
    (r : result TemporalTickReport)
    (await_reported : ∀ p s due, stores_ok s → sw_reported due (st_state s) →
       sw_reported due (st_state (await p s)))
    (Hs : stores_ok s)
    (Ht : tick_as wf_await await driver request authority s = (s', r)) :
  stores_ok s' ∧
  match r with
  | Ok report => tick_runs (attempted request authority) s (tr_attempts report) s'
  | Err _ => tick_runs (attempted request authority) s [] s'
  end.
Proof.
  destruct (tick_accounted _ _ _ _ _ _ Hs Ht) as [Hs' Hr]. split; [done|].
  destruct r; (apply runs_attempted; [|exact Hr]); intros due p t Hok; by apply await_reported.
Qed.
End runs.
