(* ===== verification/TemporalSweep.v ===== *)
(** Successive ticks of the temporal driver (src/src/temporal/mod.rs), each
    continuing from the cursor of the one before, proved against the contracts
    of the coordinators: a sweep attempts every fence that is due. *)

From Stdlib Require Import ZArith Lia.
From stdpp Require Import sorting base tactics list gmap relations numbers strings option.
From stdpp Require Import list.
From S2P Require Import Prelude Ordering Kernel Digest Json Pairs TaskGraph TaskCoordinator Workflow WorkflowSafety WorkflowCoordinator WorkflowStores WorkflowClients WorkflowEngine Effect EffectSafety EffectCoordinator EffectStores Handoff HandoffSafety HandoffCoordinator HandoffStores Approval Journal WaitDue Temporal TemporalSafety TemporalRuns.

(** A due entry stays due. *)
Lemma due_entry_later t t' sn d : (t ≤ t')%Z → due_entry t sn = Some d → due_entry t' sn = Some d.
Proof.
  intros Ht. unfold due_entry. destruct (due_wait _) as [[wid due]|]; [|done].
  destruct (Z.leb_spec due t); [|done]. by rewrite (proj2 (Z.leb_le due t')) by lia.
Qed.

Lemma due_claim_later t t' sn d : (t ≤ t')%Z → due_claim t sn = Some d → due_claim t' sn = Some d.
Proof.
  intros Ht. unfold due_claim. destruct (hh_status _) as [|claim| |]; try done.
  destruct (Z.leb_spec (hl_expires_at_ms claim) t); [|done]. by rewrite (proj2 (Z.leb_le _ t')) by lia.
Qed.

Lemma due_lease_later t t' sn d : (t ≤ t')%Z → due_lease t sn = Some d → due_lease t' sn = Some d.
Proof.
  intros Ht. unfold due_lease. destruct (ef_status _) as [|lease| | | |]; try done.
  destruct (Z.leb_spec (el_expires_at_ms lease) t); [|done]. by rewrite (proj2 (Z.leb_le _ t')) by lia.
Qed.

(** A stored value beyond the cursor is on the page, or after it. *)
Lemma page_covers {V} (vid : V → str) v tenant after limit id sn :
  self_keyed vid v → (1 ≤ limit)%Z → v !! (tenant, id) = Some sn → after_cursor after id = true →
  sn ∈ take (Z.to_nat limit) (values_after v tenant after) ∨
  (limit <? len (take (Z.to_nat (limit + 1)) (values_after v tenant after)))%Z = true ∧
  ∃ y, vec_last (take (Z.to_nat limit) (values_after v tenant after)) = Some y ∧
    after_cursor (Some (vid y)) id = true.
Proof.
  intros Hk Hl Hv Ha. set (l := values_after v tenant after).
  assert (sn ∈ l) as Hin by (apply elem_of_values_after; eauto).
  destruct (page_cut limit l Hl) as (_ & Hm & Hne & _).
  rewrite <-(take_drop (Z.to_nat limit) l) in Hin. apply elem_of_app in Hin as [Hin|Hin]; [by left|right].
  assert (drop (Z.to_nat limit) l ≠ []) as Hd by (intros E; rewrite E in Hin; by apply elem_of_nil in Hin).
  split; [by apply Hm|]. destruct (vec_last (take (Z.to_nat limit) l)) as [y|] eqn:Ey.
  2: { apply last_None in Ey. by apply Hne in Ey. }
  exists y. split; [done|]. apply vec_last_Some_snoc in Ey as [l' Ey].
  pose proof (values_after_sorted vid v tenant after Hk) as Hs. fold l in Hs.
  rewrite <-(take_drop (Z.to_nat limit) l), Ey in Hs.
  apply StronglySorted_app in Hs as (Hs & _). destruct (Hs y sn) as [L N]; [set_solver|done|].
  pose proof (Hk _ _ Hv) as Hid. simpl in Hid. rewrite Hid in L, N. simpl. apply negb_true_iff.
  by apply str_leb_strict.
Qed.

Section sweep.
Context `{!Serialize ExecutionBinding, !Serialize (TaskId * TaskRecord),
          !Serialize TaskMessage, !Serialize TaskAttemptBinding}.
Context `{!Serialize WorkflowCreateRequest, !Serialize WorkflowCommand,
          !Serialize WorkflowRunWire, sha : !Sha256, semver : !SemverOrder}.
Context `{!Serialize (HandoffAttributed HumanHandoffCreateRequest),
          !Serialize (HandoffAttributed HumanHandoffCommand), !Serialize HumanHandoffCommand,
          !Serialize HumanHandoffWire}.
Context `{!Serialize Json, !Serialize (AttributedCommand EffectCreateRequest),
          !Serialize (AttributedCommand EffectCommand), !Serialize EffectCommand,
          !Serialize EffectWire}.
Context {ser_command : Serialize (str * ActorIdentity * str * str)} {sha_bytes : Sha256Bytes}.
Context {T W H V E J : Type} `{!TaskCoordinator T, !WorkflowCoordinator W}.
Context `{!HumanHandoffCoordinator H, !HumanHandoffSubjectResolver V}.
Context `{!EffectCoordinator E, !StateWaits J, !StateWaitsModel J}.
Context `{!WorkflowLaws W, !HandoffLaws H, !EffectLaws E, !StateWaitsLaws J}.
Context (wf_await : nat → T * W → T * W).

Abbreviation Stores := (TemporalStores T W H V E J).
Context (await : TickPoint → Stores → Stores) (await_ok : ∀ p s, stores_ok s → stores_ok (await p s)).
Context (driver : TemporalDriver) (authority : AuthorityContext).
Implicit Types (s : Stores) (request : TemporalTickRequest) (report : TemporalTickReport).

Abbreviation tick := (tick_as wf_await await driver).

(** Successive ticks, not before [t]: each request continues from the cursor
    the previous report returned, and the others may act in between. *)
Inductive sweep (t : Z) : TemporalTickRequest → Stores → list TemporalTickReport → Stores → Prop :=
| sweep_last request s s' report :
    (t ≤ tq_at_ms request)%Z → tick request authority s = (s', Ok report) →
    sweep t request s [report] s'
| sweep_next request s s1 report request' reports s' :
    (t ≤ tq_at_ms request)%Z → tick request authority s = (s1, Ok report) →
    tq_cursor request' = tr_next_cursor report →
    sweep t request' s1 reports s' → sweep t request s (report :: reports) s'
| sweep_others request p s reports s' :
    sweep t request (await p s) reports s' → sweep t request s reports s'.

(** A fence that each tick either attempts or leaves for the next one is
    attempted by a sweep whose last tick leaves nothing. *)
Lemma sweep_hits t (P : Stores → Prop) (before : TemporalTickCursor → Prop)
    (more : TemporalTickReport → bool) (hit : TemporalTickReport → Prop) request s reports s' :
  (∀ p s, P s → P (await p s)) →
  (∀ request s s' report, stores_ok s → P s → (t ≤ tq_at_ms request)%Z → before (tq_cursor request) →
     tick request authority s = (s', Ok report) →
     hit report ∨ P s' ∧ more report = true ∧ before (tr_next_cursor report)) →
  sweep t request s reports s' → stores_ok s → P s → before (tq_cursor request) →
  (∀ report, vec_last reports = Some report → more report = false) →
  ∃ report, report ∈ reports ∧ hit report.
Proof.
  intros Hawait Hstep Hsw. induction Hsw as [request s s' report Ht Hr|request s s1 report request' reports s'
    Ht Hr Hc Hsw IH|request p s reports s' Hsw IH]; intros Hs HP Hb Hlast.
  - destruct (Hstep _ _ _ _ Hs HP Ht Hb Hr) as [?|(_ & Hm & _)]; [exists report; split; [by left|done]|].
    rewrite Hlast in Hm by done. done.
  - destruct (Hstep _ _ _ _ Hs HP Ht Hb Hr) as [?|(HP' & _ & Hb')]; [exists report; split; [by left|done]|].
    destruct IH as (report' & Hin & Hh); [|done|by rewrite Hc| |exists report'; split; [by right|done]].
    + by eapply tick_accounted.
    + intros r Hl. apply Hlast. destruct reports; [done|]. by rewrite last_cons_cons.
  - apply IH; [by apply await_ok|by apply Hawait|done..].
Qed.

(** The fences of a plan are attempted. *)
Lemma plan_attempted request s s' report :
  tick request authority s = (s', Ok report) →
  ∃ s1 pages commands, tick_scan await driver request authority s = (s1, Ok pages) ∧
    tick_commands pages authority = Ok commands ∧ tr_next_cursor report = tick_next_cursor pages ∧
    tr_workflows report = progress (tp_workflows pages) ∧
    tr_human_handoffs report = handoff_progress (tp_handoffs pages) ∧
    tr_effects report = effect_progress (tp_effects pages) ∧
    (td_workflows driver = true → ∀ d, d ∈ sp_due (tp_workflows pages) →
       ∃ a, a ∈ tr_attempts report ∧ ta_target a = workflow_target d) ∧
    (td_human_handoffs driver = true → ∀ d, d ∈ hdp_due (tp_handoffs pages) →
       ∃ a, a ∈ tr_attempts report ∧ ta_target a = handoff_target d) ∧
    (td_effects driver = true → ∀ d, d ∈ edp_due (tp_effects pages) →
       ∃ a, a ∈ tr_attempts report ∧ ta_target a = effect_target d).
Proof.
  intros (s1 & pages & commands & attempts & Hs & Hc & Ha & ->)%tick_as_ok.
  assert (∀ p, p ∈ tick_plan driver commands → ∃ a, a ∈ attempts ∧ ta_target a = p.1) as Hpl.
  { intros p Hp.
    destruct (tick_attempts_plan wf_await await driver request authority commands s1) as (s2 & as' & Ha' & Hpl).
    rewrite Ha in Ha'. injection Ha' as <- <-. rewrite <-Hpl in Hp.
    apply list_elem_of_fmap in Hp as (a & -> & Hin). by exists a. }
  assert (∀ {A C} (f : A → result C) l r d, collect f l = Ok r → d ∈ l → ∃ c, c ∈ r ∧ f d = Ok c) as Hco.
  { intros A C f l r d HF%collect_ok Hin. apply list_elem_of_lookup in Hin as [i Hi].
    destruct (Forall2_lookup_l _ _ _ _ _ HF Hi) as (c & Hc' & Hf). exists c. split; [|done].
    by eapply list_elem_of_lookup_2. }
  pose proof Hc as Hcm. unfold tick_commands in Hcm. inv_ok. subst commands.
  exists s1, pages. eexists. split_and!; [exact Hs|exact Hc|done..| | |]; intros Hd d Hin.
  - edestruct Hco as (c & Hinc & Hf); [|exact Hin|]; [eassumption|]. unfold workflow_command in Hf. inv_ok. subst c.
    match type of Hinc with (_, ?id, _) ∈ _ => apply (Hpl (workflow_target d, id)) end.
    unfold tick_plan. rewrite Hd. apply elem_of_app. left. apply list_elem_of_fmap. eexists. by split; [|exact Hinc].
  - edestruct Hco as (c & Hinc & Hf); [|exact Hin|]; [eassumption|]. unfold handoff_command in Hf. inv_ok. subst c.
    match type of Hinc with (_, ?id, _) ∈ _ => apply (Hpl (handoff_target d, id)) end.
    unfold tick_plan. rewrite Hd. apply elem_of_app. right. apply elem_of_app. left.
    apply list_elem_of_fmap. eexists. by split; [|exact Hinc].
  - edestruct Hco as (c & Hinc & Hf); [|exact Hin|]; [eassumption|]. unfold effect_command in Hf. inv_ok. subst c.
    match type of Hinc with (_, ?id, _) ∈ _ => apply (Hpl (effect_target d, id)) end.
    unfold tick_plan. rewrite Hd. do 2 (apply elem_of_app; right). apply elem_of_app. left.
    apply list_elem_of_fmap. eexists. by split; [|exact Hinc].
Qed.

(** ** Workflow waits *)

Definition run_at (id : WorkflowRunId) (cur : WorkflowRunSnapshot) s : Prop :=
  runs_view s !! run_key id (tenant_id authority) = Some cur.

Definition run_attempted (id : WorkflowRunId) (d : WorkflowDueWait) report : Prop :=
  ∃ a due, a ∈ tr_attempts report ∧
    ta_target a = TargetWorkflowWait id (dw_revision d) (dw_wait_id d) due.

Lemma run_kept request l s s' id cur d t :
  (∀ p s, run_at id cur s → run_at id cur (await p s)) → due_entry t cur = Some d →
  tick_runs await (attempted_if await request authority) s l s' → run_at id cur s →
  (∃ a due, a ∈ l ∧ ta_target a = TargetWorkflowWait id (dw_revision d) (dw_wait_id d) due) ∨
  run_at id cur s'.
Proof.
  intros Hk Hd Hr. induction Hr as [s|p s l s' _ IH|s j l s' _ _ IH|s s1 l s' Hq _ IH|s a s1 l s' Ha _ IH]; intros Hc.
  - by right.
  - by apply IH, Hk.
  - by apply IH.
  - apply IH. unfold run_at. destruct Hq as (_ & -> & _). done.
  - assert ((∃ due, ta_target a = TargetWorkflowWait id (dw_revision d) (dw_wait_id d) due) ∨ run_at id cur s1)
      as [[due Ht]|Hc1]; [| left; exists a, due; split; [by left|done] |].
    2: { destruct (IH Hc1) as [(a' & due & Hin & Ht)|?]; [left; exists a', due; split; [by right|done]|by right]. }
    unfold attempted_if, attempted, advanced in Ha. unfold run_at.
    destruct (ta_target a) as [rid rev wid due| | |]; destruct (ta_outcome a);
      try (right; destruct Ha as (_ & -> & _); done); destruct Ha as [(_ & _ & Hw & _) Ha];
      try (right; by rewrite Hw).
    destruct Ha as (cur' & run & w & Hc' & Hrev & Hst & Hwid & _ & _ & ->).
    destruct (decide (rid = id)) as [->|Hn].
    + left. unfold run_at in Hc. rewrite Hc in Hc'. injection Hc' as <-. exists due.
      unfold due_entry, due_wait in Hd. rewrite Hst in Hd.
      destruct w as [? ? ? [e|]|? ?|? ? ? ? ?]; try done;
        destruct (_ <=? _)%Z; try done; injection Hd as <-; simpl in *; congruence.
    + right. rewrite lookup_insert_ne; [done|]. unfold run_key. congruence.
Qed.

(** Where the page of a scan comes from. *)
Lemma tick_scan_runs request s s1 pages :
  td_workflows driver = true → stores_ok s → tick_scan await driver request authority s = (s1, Ok pages) →
  ∃ sa, tick_runs await (attempted_if await request authority) s [] sa ∧ stores_ok sa ∧ (1 ≤ tq_scan_limit request)%Z ∧
    tp_workflows pages = page_from_scan (take (Z.to_nat (tq_scan_limit request + 1))
      (values_after (runs_view sa) (tenant_storage_key (tenant_id authority))
         (tc_workflow_after_run_id (tq_cursor request)))) (tq_scan_limit request) (tq_at_ms request).
Proof.
  intros Hd Hs Hsc. unfold tick_scan, scan_workflows in Hsc. rewrite Hd in Hsc. inv_M. simpl.
  match goal with Hx : suspend _ _ s = _ |- _ =>
    apply (quiet_suspend await await_ok (attempted_if await request authority)) in Hx as (Hsa & Hra & _); [|done] end.
  match goal with Hx : on_workflow_engine _ ?st = _ |- _ => exists st;
    unfold on_workflow_engine, engine_scan_due_as, on_workflows in Hx;
    destruct (wf_scan_due_as _ _ _ _ _) as [w' r'] eqn:E'; injection Hx as <- -> end.
  apply wc_scan_law in E' as (_ & _ & Hp); [|apply Hsa]. destruct (Hp _ eq_refl) as [Hv ->].
  split_and!; [done..| |done]. unfold validate_due_scan, in_range in Hv. inv_ok. by bool_hyps.
Qed.

Lemma run_step request s s' report id cur d t :
  td_workflows driver = true → (∀ p s, run_at id cur s → run_at id cur (await p s)) →
  due_entry t cur = Some d → stores_ok s → run_at id cur s → (t ≤ tq_at_ms request)%Z →
  after_cursor (tc_workflow_after_run_id (tq_cursor request)) id = true →
  tick request authority s = (s', Ok report) →
  run_attempted id d report ∨
  run_at id cur s' ∧ ts_has_more (tr_workflows report) = true ∧
  after_cursor (tc_workflow_after_run_id (tr_next_cursor report)) id = true.
Proof.
  intros Hdr Hk Hd Hs Hc Ht Ha Htick. pose proof Htick as Hruns.
  apply tick_accounted in Hruns as [_ Hruns]; [|done..].
  destruct (run_kept _ _ _ _ _ _ _ _ Hk Hd Hruns Hc) as [(a & due & ?)|Hc']; [left; by exists a, due|].
  apply plan_attempted in Htick as (s1 & pages & commands & Hsc & Hcm & Hnx & Hpr & _ & _ & Hpl & _).
  apply tick_scan_runs in Hsc as (sa & Hra & (Hsa & _) & Hl & Hp); [|done..].
  destruct (run_kept _ _ _ _ _ _ _ _ Hk Hd Hra Hc) as [(? & ? & ?%elem_of_nil & _)|Hca]; [done|].
  assert (self_keyed ws_id (runs_view sa)) as Hself
    by (intros key sn Hkey; by destruct (wc_stored _ _ _ Hsa Hkey)).
  destruct (page_cut (tq_scan_limit request) (values_after (runs_view sa)
    (tenant_storage_key (tenant_id authority)) (tc_workflow_after_run_id (tq_cursor request))) Hl) as (Hcut & _).
  destruct (page_covers ws_id _ _ _ _ _ _ Hself Hl Hca Ha) as [Hin|(Hmore & y & Hy & Hb)].
  - left. destruct (Hpl Hdr d) as (a & Hina & Hta).
    + rewrite Hp. simpl. rewrite Hcut. apply list_elem_of_omap. exists cur. split; [done|].
      by eapply due_entry_later.
    + exists a, (dw_due_at_ms d). split; [done|]. rewrite Hta. unfold workflow_target. f_equal.
      pose proof (wc_stored _ _ _ Hsa Hca) as (Hid & _). simpl in Hid. rewrite <-Hid.
      unfold due_entry in Hd. destruct (due_wait _) as [[]|]; [|done]. destruct (_ <=? _)%Z; [|done].
      by injection Hd as <-.
  - right. split; [done|]. rewrite Hpr, Hnx. unfold tick_next_cursor. simpl. rewrite Hp. simpl.
    rewrite Hmore, Hcut. split; [done|]. by rewrite Hy.
Qed.
(** ** Human Handoff claims *)

Definition case_at (id : HumanHandoffId) (cur : HumanHandoffSnapshot) s : Prop :=
  handoffs_view s !! handoff_key id (tenant_id authority) = Some cur.

Definition case_attempted (id : HumanHandoffId) (d : HumanHandoffDueClaim) report : Prop :=
  ∃ a due, a ∈ tr_attempts report ∧
    ta_target a = TargetHumanHandoffClaim id (hdc_revision d) (hdc_claim_id d) due.

Lemma case_kept request l s s' id cur d t :
  (∀ p s, case_at id cur s → case_at id cur (await p s)) → due_claim t cur = Some d →
  tick_runs await (attempted_if await request authority) s l s' → case_at id cur s →
  (∃ a due, a ∈ l ∧ ta_target a = TargetHumanHandoffClaim id (hdc_revision d) (hdc_claim_id d) due) ∨
  case_at id cur s'.
Proof.
  intros Hk Hd Hr. induction Hr as [s|p s l s' _ IH|s j l s' _ _ IH|s s1 l s' Hq _ IH|s a s1 l s' Ha _ IH]; intros Hc.
  - by right.
  - by apply IH, Hk.
  - by apply IH.
  - apply IH. unfold case_at. destruct Hq as (_ & _ & _ & -> & _). done.
  - assert ((∃ due, ta_target a = TargetHumanHandoffClaim id (hdc_revision d) (hdc_claim_id d) due) ∨ case_at id cur s1)
      as [[due Ht]|Hc1]; [| left; exists a, due; split; [by left|done] |].
    2: { destruct (IH Hc1) as [(a' & due & Hin & Ht)|?]; [left; exists a', due; split; [by right|done]|by right]. }
    unfold attempted_if, attempted, advanced in Ha. unfold case_at.
    destruct (ta_target a) as [|rid rev wid due| |]; destruct (ta_outcome a);
      try (right; destruct Ha as (_ & _ & _ & -> & _); done); destruct Ha as [(_ & _ & _ & Hw & _) Ha];
      try (right; by rewrite Hw).
    destruct Ha as (cur' & h & claim & Hc' & Hrev & Hst & Hwid & _ & _ & ->).
    destruct (decide (rid = id)) as [->|Hn].
    + left. unfold case_at in Hc. rewrite Hc in Hc'. injection Hc' as <-. exists due.
      unfold due_claim in Hd. rewrite Hst in Hd.
      destruct (_ <=? _)%Z; try done; injection Hd as <-; simpl in *; congruence.
    + right. rewrite lookup_insert_ne; [done|]. unfold handoff_key. congruence.
Qed.

(** Where the page of a scan comes from. *)
Lemma tick_scan_cases request s s1 pages :
  td_human_handoffs driver = true → stores_ok s → tick_scan await driver request authority s = (s1, Ok pages) →
  ∃ sa, tick_runs await (attempted_if await request authority) s [] sa ∧ stores_ok sa ∧ (1 ≤ tq_scan_limit request)%Z ∧
    tp_handoffs pages = handoff_due_page (take (Z.to_nat (tq_scan_limit request + 1))
      (values_after (handoffs_view sa) (tenant_storage_key (tenant_id authority))
         (tc_handoff_after_handoff_id (tq_cursor request)))) (tq_scan_limit request) (tq_at_ms request).
Proof.
  intros Hd Hs Hsc. unfold tick_scan in Hsc. inv_M. simpl.
  match goal with Hx : scan_workflows _ _ _ _ s = _ |- _ =>
    apply (scan_workflows_quiet await await_ok (attempted_if await request authority) driver request authority) in Hx as (HsA & HrA & _); [|done] end.
  match goal with Hx : scan_handoffs _ _ _ _ _ = _ |- _ => unfold scan_handoffs in Hx; rewrite Hd in Hx end.
  inv_M.
  match goal with Hx : suspend _ _ _ = _ |- _ =>
    apply (quiet_suspend await await_ok (attempted_if await request authority)) in Hx as (Hsa & Hra & _); [|done] end.
  match goal with Hx : on_handoff_engine _ ?st = _ |- _ => exists st;
    unfold on_handoff_engine, handoff_engine_scan_due_as, on_coordinator in Hx;
    destruct (handoff_scan_due_as _ _ _ _ _) as [w' r'] eqn:E'; injection Hx as <- -> end.
  apply hc_scan_law in E' as (_ & _ & Hp); [|apply Hsa]. destruct (Hp _ eq_refl) as [Hv ->].
  split_and!; [|done| |done].
  - by eapply (tick_runs_app _ _ _ _ _ [] []).
  - unfold handoff_validate_due_scan, in_range in Hv. inv_ok. by bool_hyps.
Qed.

Lemma case_step request s s' report id cur d t :
  td_human_handoffs driver = true → (∀ p s, case_at id cur s → case_at id cur (await p s)) →
  due_claim t cur = Some d → stores_ok s → case_at id cur s → (t ≤ tq_at_ms request)%Z →
  after_cursor (tc_handoff_after_handoff_id (tq_cursor request)) id = true →
  tick request authority s = (s', Ok report) →
  case_attempted id d report ∨
  case_at id cur s' ∧ ts_has_more (tr_human_handoffs report) = true ∧
  after_cursor (tc_handoff_after_handoff_id (tr_next_cursor report)) id = true.
Proof.
  intros Hdr Hk Hd Hs Hc Ht Ha Htick. pose proof Htick as Hruns.
  apply tick_accounted in Hruns as [_ Hruns]; [|done..].
  destruct (case_kept _ _ _ _ _ _ _ _ Hk Hd Hruns Hc) as [(a & due & ?)|Hc']; [left; by exists a, due|].
  apply plan_attempted in Htick as (s1 & pages & commands & Hsc & Hcm & Hnx & _ & Hpr & _ & _ & Hpl & _).
  apply tick_scan_cases in Hsc as (sa & Hra & (_ & Hsa & _) & Hl & Hp); [|done..].
  destruct (case_kept _ _ _ _ _ _ _ _ Hk Hd Hra Hc) as [(? & ? & ?%elem_of_nil & _)|Hca]; [done|].
  assert (self_keyed hs_id (handoffs_view sa)) as Hself
    by (intros key sn Hkey; by destruct (hc_stored _ _ _ Hsa Hkey)).
  destruct (page_cut (tq_scan_limit request) (values_after (handoffs_view sa)
    (tenant_storage_key (tenant_id authority)) (tc_handoff_after_handoff_id (tq_cursor request))) Hl) as (Hcut & _).
  destruct (page_covers hs_id _ _ _ _ _ _ Hself Hl Hca Ha) as [Hin|(Hmore & y & Hy & Hb)].
  - left. destruct (Hpl Hdr d) as (a & Hina & Hta).
    + rewrite Hp. simpl. rewrite Hcut. apply list_elem_of_omap. exists cur. split; [done|].
      by eapply due_claim_later.
    + exists a, (hdc_expires_at_ms d). split; [done|]. rewrite Hta. unfold handoff_target. f_equal.
      pose proof (hc_stored _ _ _ Hsa Hca) as (Hid & _). simpl in Hid. rewrite <-Hid.
      unfold due_claim in Hd. destruct (hh_status _); try done. destruct (_ <=? _)%Z; [|done].
      by injection Hd as <-.
  - right. split; [done|]. rewrite Hpr, Hnx. unfold tick_next_cursor. simpl. rewrite Hp. simpl.
    rewrite Hmore, Hcut. split; [done|]. by rewrite Hy.
Qed.
(** ** Effect leases *)

Definition effect_at (id : EffectId) (cur : EffectSnapshot) s : Prop :=
  effects_view s !! effect_key id (tenant_id authority) = Some cur.

Definition effect_attempted (id : EffectId) (d : EffectDueLease) report : Prop :=
  ∃ a n due, a ∈ tr_attempts report ∧
    ta_target a = TargetEffectLease id (dl_revision d) (dl_lease_id d) n due.

Lemma effect_kept request l s s' id cur d t :
  (∀ p s, effect_at id cur s → effect_at id cur (await p s)) → due_lease t cur = Some d →
  tick_runs await (attempted_if await request authority) s l s' → effect_at id cur s →
  (∃ a n due, a ∈ l ∧ ta_target a = TargetEffectLease id (dl_revision d) (dl_lease_id d) n due) ∨
  effect_at id cur s'.
Proof.
  intros Hk Hd Hr. induction Hr as [s|p s l s' _ IH|s j l s' _ _ IH|s s1 l s' Hq _ IH|s a s1 l s' Ha _ IH]; intros Hc.
  - by right.
  - by apply IH, Hk.
  - by apply IH.
  - apply IH. unfold effect_at. destruct Hq as (_ & _ & _ & _ & -> & _). done.
  - assert ((∃ n due, ta_target a = TargetEffectLease id (dl_revision d) (dl_lease_id d) n due) ∨ effect_at id cur s1)
      as [(n & due & Ht)|Hc1]; [| left; exists a, n, due; split; [by left|done] |].
    2: { destruct (IH Hc1) as [(a' & n & due & Hin & Ht)|?]; [left; exists a', n, due; split; [by right|done]|by right]. }
    unfold attempted_if, attempted, advanced in Ha. unfold effect_at.
    destruct (ta_target a) as [| |rid rev wid n due|]; destruct (ta_outcome a);
      try (right; destruct Ha as (_ & _ & _ & _ & -> & _); done); destruct Ha as [(_ & _ & _ & _ & Hw & _) Ha];
      try (right; by rewrite Hw).
    destruct Ha as (cur' & h & claim & Hc' & Hrev & Hst & Hwid & _ & _ & ->).
    destruct (decide (rid = id)) as [->|Hn].
    + left. unfold effect_at in Hc. rewrite Hc in Hc'. injection Hc' as <-. exists n, due.
      unfold due_lease in Hd. rewrite Hst in Hd.
      destruct (_ <=? _)%Z; try done; injection Hd as <-; simpl in *; congruence.
    + right. rewrite lookup_insert_ne; [done|]. unfold effect_key. congruence.
Qed.

(** Where the page of a scan comes from. *)
Lemma tick_scan_effects request s s1 pages :
  td_effects driver = true → stores_ok s → tick_scan await driver request authority s = (s1, Ok pages) →
  ∃ sa, tick_runs await (attempted_if await request authority) s [] sa ∧ stores_ok sa ∧ (1 ≤ tq_scan_limit request)%Z ∧
    tp_effects pages = due_page_from_scan (take (Z.to_nat (tq_scan_limit request + 1))
      (values_after (effects_view sa) (tenant_storage_key (tenant_id authority))
         (tc_effect_after_effect_id (tq_cursor request)))) (tq_scan_limit request) (tq_at_ms request).
Proof.
  intros Hd Hs Hsc. unfold tick_scan in Hsc. inv_M. simpl.
  match goal with Hx : scan_workflows _ _ _ _ s = _ |- _ =>
    apply (scan_workflows_quiet await await_ok (attempted_if await request authority) driver request authority) in Hx as (HsA & HrA & _); [|done] end.
  match goal with Hx : scan_handoffs _ _ _ _ _ = _ |- _ =>
    apply (scan_handoffs_quiet await await_ok (attempted_if await request authority) driver request authority) in Hx as (HsB & HrB & _); [|done] end.
  match goal with Hx : scan_effects _ _ _ _ _ = _ |- _ => unfold scan_effects in Hx; rewrite Hd in Hx end.
  inv_M.
  match goal with Hx : suspend _ _ _ = _ |- _ =>
    apply (quiet_suspend await await_ok (attempted_if await request authority)) in Hx as (Hsa & Hra & _); [|done] end.
  match goal with Hx : on_effect_engine _ ?st = _ |- _ => exists st;
    unfold on_effect_engine in Hx;
    destruct (eff_scan_due_as _ _ _ _ _) as [w' r'] eqn:E'; injection Hx as <- -> end.
  apply ec_scan_law in E' as (_ & _ & Hp); [|apply Hsa]. destruct (Hp _ eq_refl) as [Hv ->].
  split_and!; [|done| |done].
  - eapply (tick_runs_app _ _ _ _ _ [] []); [exact HrA|]. by eapply (tick_runs_app _ _ _ _ _ [] []).
  - by apply due_scan_limit in Hv as [? _].
Qed.

Lemma effect_step request s s' report id cur d t :
  td_effects driver = true → (∀ p s, effect_at id cur s → effect_at id cur (await p s)) →
  due_lease t cur = Some d → stores_ok s → effect_at id cur s → (t ≤ tq_at_ms request)%Z →
  after_cursor (tc_effect_after_effect_id (tq_cursor request)) id = true →
  tick request authority s = (s', Ok report) →
  effect_attempted id d report ∨
  effect_at id cur s' ∧ ts_has_more (tr_effects report) = true ∧
  after_cursor (tc_effect_after_effect_id (tr_next_cursor report)) id = true.
Proof.
  intros Hdr Hk Hd Hs Hc Ht Ha Htick. pose proof Htick as Hruns.
  apply tick_accounted in Hruns as [_ Hruns]; [|done..].
  destruct (effect_kept _ _ _ _ _ _ _ _ Hk Hd Hruns Hc) as [(a & n & due & ?)|Hc']; [left; by exists a, n, due|].
  apply plan_attempted in Htick as (s1 & pages & commands & Hsc & Hcm & Hnx & _ & _ & Hpr & _ & _ & Hpl).
  apply tick_scan_effects in Hsc as (sa & Hra & (_ & _ & Hsa & _) & Hl & Hp); [|done..].
  destruct (effect_kept _ _ _ _ _ _ _ _ Hk Hd Hra Hc) as [(? & ? & ? & ?%elem_of_nil & _)|Hca]; [done|].
  assert (self_keyed es_id (effects_view sa)) as Hself
    by (intros key sn Hkey; by destruct (ec_stored _ _ _ Hsa Hkey)).
  destruct (page_cut (tq_scan_limit request) (values_after (effects_view sa)
    (tenant_storage_key (tenant_id authority)) (tc_effect_after_effect_id (tq_cursor request))) Hl) as (Hcut & _).
  destruct (page_covers es_id _ _ _ _ _ _ Hself Hl Hca Ha) as [Hin|(Hmore & y & Hy & Hb)].
  - left. destruct (Hpl Hdr d) as (a & Hina & Hta).
    + rewrite Hp. simpl. rewrite Hcut. apply list_elem_of_omap. exists cur. split; [done|].
      by eapply due_lease_later.
    + exists a, (dl_attempt d), (dl_expires_at_ms d). split; [done|]. rewrite Hta. unfold effect_target. f_equal.
      pose proof (ec_stored _ _ _ Hsa Hca) as (Hid & _). simpl in Hid. rewrite <-Hid.
      unfold due_lease in Hd. destruct (ef_status _); try done. destruct (_ <=? _)%Z; [|done].
      by injection Hd as <-.
  - right. split; [done|]. rewrite Hpr, Hnx. unfold tick_next_cursor. simpl. rewrite Hp. simpl.
    rewrite Hmore, Hcut. split; [done|]. by rewrite Hy.
Qed.

(** C32: no missed deadline. Take any sequence of ticks, none before [t], each continuing
    from the cursor the previous report returned, with other clients acting at
    every await in between; a workflow wait, a handoff claim or an effect lease that
    was due at [t] when the sweep started, beyond its cursor, and that the
    other clients leave alone, is the target of an attempt of one of the
    reports, provided the last report says that source has nothing more. *)
Theorem temporal_sweep_complete t request s reports s' id
    (Hsweep : sweep t request s reports s') (Hs : stores_ok s) :
  (∀ cur d, td_workflows driver = true → run_at id cur s → due_entry t cur = Some d →
     (∀ p s, run_at id cur s → run_at id cur (await p s)) →
     after_cursor (tc_workflow_after_run_id (tq_cursor request)) id = true →
     (∀ report, vec_last reports = Some report → ts_has_more (tr_workflows report) = false) →
     ∃ report, report ∈ reports ∧ run_attempted id d report) ∧
  (∀ cur d, td_human_handoffs driver = true → case_at id cur s → due_claim t cur = Some d →
     (∀ p s, case_at id cur s → case_at id cur (await p s)) →
     after_cursor (tc_handoff_after_handoff_id (tq_cursor request)) id = true →
     (∀ report, vec_last reports = Some report → ts_has_more (tr_human_handoffs report) = false) →
     ∃ report, report ∈ reports ∧ case_attempted id d report) ∧
  (∀ cur d, td_effects driver = true → effect_at id cur s → due_lease t cur = Some d →
     (∀ p s, effect_at id cur s → effect_at id cur (await p s)) →
     after_cursor (tc_effect_after_effect_id (tq_cursor request)) id = true →
     (∀ report, vec_last reports = Some report → ts_has_more (tr_effects report) = false) →
     ∃ report, report ∈ reports ∧ effect_attempted id d report).
Proof.
  split_and!; intros cur d Hdr Hc Hd Hk Hb Hlast.
  - eapply (sweep_hits t (run_at id cur)
      (λ c, after_cursor (tc_workflow_after_run_id c) id = true)
      (λ r, ts_has_more (tr_workflows r)) (run_attempted id d)); [done| |done..].
    intros. simpl in *. eapply (run_step request0); eassumption.
  - eapply (sweep_hits t (case_at id cur)
      (λ c, after_cursor (tc_handoff_after_handoff_id c) id = true)
      (λ r, ts_has_more (tr_human_handoffs r)) (case_attempted id d)); [done| |done..].
    intros. simpl in *. eapply (case_step request0); eassumption.
  - eapply (sweep_hits t (effect_at id cur)
      (λ c, after_cursor (tc_effect_after_effect_id c) id = true)
      (λ r, ts_has_more (tr_effects r)) (effect_attempted id d)); [done| |done..].
    intros. simpl in *. eapply (effect_step request0); eassumption.
Qed.
End sweep.
