(* ===== verification/StateEngine.v ===== *)
(** The maintenance of due Agent Loop waits by the State engine,
    src/src/state/mod.rs [StateEngine]: discovery from the due index of its
    Event Store, the evidence of one due fence, its settlement by one guarded
    append, and the heads the engine caches.

    The engine is written against the operations of an Event Store
    ([EventStore]) and proved against their contract ([EventStoreLaws]), which
    the in-memory store meets.  Other clients may use the store, and other
    tasks the engine, wherever it awaits.  Last, a tick of the temporal driver
    over this engine. *)

From Stdlib Require Import ZArith Lia.
From stdpp Require Import sorting base tactics list gmap relations numbers strings option.
From stdpp Require Import list.
From S2P Require Import Prelude Ordering Kernel Digest Json Pairs TaskGraph TaskCoordinator Workflow WorkflowSafety WorkflowCoordinator WorkflowStores WorkflowClients WorkflowEngine Effect EffectSafety EffectCoordinator EffectStores Handoff HandoffSafety HandoffCoordinator HandoffStores Approval ApprovalHandler Journal WaitDue Completion StateWait StateEvent StateProjection StateReplay StateLoop StateIndex StateStore Temporal TemporalSafety TemporalRuns.

(** * Data *)

(** The operations of [EventStore] that wait maintenance uses. *)
Class EventStore (S : Type) := {
  supports_agent_loop_wait_projection : bool;
  append_with_disposition : PendingEvent → M S EventAppendResult;
  store_event_by_id : EventId → M S (option StoredEvent);
  scan_due_agent_loop_waits : option str → Z → option AgentLoopDueCursor → Z →
    M S AgentLoopDueScanPage;
}.

Record StreamHead := {
  sh_stream_version : Z;
  sh_recovery_bytes : Z;
  sh_last_sequence : Z;
  sh_turns : gset TurnId;
  sh_running_turn : option TurnId;
}.

(** The engine, but its optional snapshot maintenance. *)
Record StateEngine (S : Type) := {
  sg_store : S;
  sg_heads : gmap ThreadId StreamHead;
}.
Arguments sg_store {S} s.
Arguments sg_heads {S} s.

Record ExactDueWaitEvidence := {
  xd_envelope : TurnWaitEnvelope;
  xd_resume : option ResumeEvidence;
}.

(** Where one maintenance call awaits. *)
Inductive EnginePoint :=
| BeforeDueScan | BeforeStartEvent | BeforeTransitionEvent | BeforeAppend | BeforeHead.

#[global] Instance EventAppendDisposition_eq : EqDecision EventAppendDisposition.
Proof. solve_decision. Defined.

(** [f(..).await] whose error is matched on. *)
Definition with_answer {S A} (m : M S A) : M S (result A) := λ s, let (s', r) := m s in (s', Ok r).

(** * Heads *)

(** [next.running_turn = None] when it is the Turn that ended. *)
Definition head_turn_ended (turn_id : TurnId) (running : option TurnId) : option TurnId :=
  if bool_decide (running = Some turn_id) then None else running.

(** The Turns of the head after an event. *)
Definition head_turns (event : StateEvent) (turns : gset TurnId) : gset TurnId :=
  match event with EvTurnStarted turn_id => {[turn_id]} ∪ turns | _ => turns end.
Definition head_running (event : StateEvent) (running : option TurnId) : option TurnId :=
  match event with
  | EvTurnStarted turn_id => Some turn_id
  | EvTurnFinished turn_id _ | EvTurnCompleted turn_id _ | EvWaitClosed turn_id _ _ _
  | EvDenyWait turn_id _ _ => head_turn_ended turn_id running
  | _ => running
  end.

(** The head [advance_head] builds on: the cached one at this version, or the
    empty one before the creation. *)
Definition head_base (heads : gmap ThreadId StreamHead) (expected_version expected_recovery_bytes : Z)
    (stored : StoredEvent) : option StreamHead :=
  match heads !! se_thread_id stored with
  | Some head =>
      if (sh_stream_version head =? expected_version)%Z
         && (sh_recovery_bytes head =? expected_recovery_bytes)%Z
      then Some head else None
  | None =>
      if (expected_version =? 0)%Z && (expected_recovery_bytes =? 0)%Z
         && is_creation (se_event stored)
      then Some {| sh_stream_version := 0; sh_recovery_bytes := 0; sh_last_sequence := 0;
                   sh_turns := ∅; sh_running_turn := None |}
      else None
  end.

Definition advance_head (expected_version expected_recovery_bytes event_recovery_bytes : Z)
    (stored : StoredEvent) (heads : gmap ThreadId StreamHead) : gmap ThreadId StreamHead :=
  match head_base heads expected_version expected_recovery_bytes stored,
        checked_add u64_max expected_version 1,
        checked_add u64_max expected_recovery_bytes event_recovery_bytes with
  | Some base, Some stream_version, Some recovery_bytes =>
      <[se_thread_id stored := {|
          sh_stream_version := stream_version;
          sh_recovery_bytes := recovery_bytes;
          sh_last_sequence := se_sequence stored;
          sh_turns := head_turns (se_event stored) (sh_turns base);
          sh_running_turn := head_running (se_event stored) (sh_running_turn base) |}]> heads
  | _, _, _ => heads
  end.

Definition invalidate_head (thread_id : ThreadId) (expected : Z) (heads : gmap ThreadId StreamHead)
    : gmap ThreadId StreamHead :=
  match heads !! thread_id with
  | Some head => if (sh_stream_version head <=? expected)%Z then delete thread_id heads else heads
  | None => heads
  end.

Section engine.
Context `{!CompletionCodec, !WaitCodec, !StateCodec, !Sha256, !Sha256Bytes}.

(** [MemoryEventStore]. *)
#[global] Instance MemoryEventStore : EventStore MemoryStoreData := {|
  supports_agent_loop_wait_projection := true;
  append_with_disposition := append_classified;
  store_event_by_id id := data ← get; lift (event_by_id data id);
  scan_due_agent_loop_waits tenant at_ms after limit :=
    data ← get; lift (store_scan_due data tenant at_ms after limit);
|}.

Context {S : Type} `{!EventStore S}.
Context (engine_await : EnginePoint → StateEngine S → StateEngine S).

(** [self.store.f(..).await]. *)
Definition on_store {A} (p : EnginePoint) (m : M S A) : M (StateEngine S) A := λ s,
  let s := engine_await p s in
  let (store, r) := m (sg_store s) in
  ({| sg_store := store; sg_heads := sg_heads s |}, r).

(** An update of [self.heads], under its lock. *)
Definition on_heads (f : gmap ThreadId StreamHead → gmap ThreadId StreamHead)
    : M (StateEngine S) () := λ s,
  let s := engine_await BeforeHead s in
  ({| sg_store := sg_store s; sg_heads := f (sg_heads s) |}, Ok ()).

(** ** Discovery *)

(** What both operations check first. *)
Definition require_wait_maintenance (authority : AuthorityContext) : result () :=
  _ ← authority_validate_current authority "Agent Loop wait maintenance authority";
  reject_if (negb supports_agent_loop_wait_projection)
    (ste "Event Store does not support bounded Agent Loop wait maintenance" []).

Definition scan_due_agent_loop_waits_as (at_ms : Z) (after : option AgentLoopDueCursor)
    (scan_limit : Z) (authority : AuthorityContext) : M (StateEngine S) AgentLoopDueScanPage :=
  _ ← lift (require_wait_maintenance authority);
  _ ← lift (validate_due_scan_request at_ms after scan_limit (tenant_id authority));
  page ← on_store BeforeDueScan
           (scan_due_agent_loop_waits (tenant_id authority) at_ms after scan_limit);
  _ ← lift (due_page_validate page at_ms after scan_limit (tenant_id authority));
  mret page.

(** ** The evidence of a due fence *)

Definition due_started_envelope (due : AgentLoopDueWait) (wait_started : StoredEvent)
    : result TurnWaitEnvelope :=
  match se_event wait_started with
  | EvWaitStarted turn_id approval_requested {| it_kind := AgentLoopWaitStarted envelope |} =>
      if bool_decide (turn_id = aw_turn_id due) && bool_decide (we_wait_id envelope = aw_wait_id due)
         && approval_requested_matches_envelope approval_requested envelope
      then Ok envelope
      else Err (ste "Agent Loop wait-start event does not match its due fence" [])
  | _ => Err (ste "Agent Loop wait-start event does not match its due fence" [])
  end.

Definition due_accepted_resume (due : AgentLoopDueWait) (current : StoredEvent)
    : result ResumeEvidence :=
  match se_event current with
  | EvAcceptResume turn_id approval_decision {| it_kind := AgentLoopResumeAccepted evidence |} =>
      if bool_decide (turn_id = aw_turn_id due)
         && approval_decision_matches_resume approval_decision evidence
      then Ok evidence
      else Err (ste "Agent Loop transition event does not match its due fence" [])
  | _ => Err (ste "Agent Loop transition event does not match its due fence" [])
  end.

Definition decision_matches_phase (phase : AgentLoopDuePhase) (decision : ApprovalDecision) : bool :=
  match phase, decision with
  | DueReadyAllow, DecisionApprove | DueReadyDeny, DecisionDeny _ => true
  | _, _ => false
  end.

(** The checks on the start event and on the transition event, once loaded. *)
Definition check_started (due : AgentLoopDueWait) (wait_started : StoredEvent)
    : result TurnWaitEnvelope :=
  _ ← validate_stored_event wait_started;
  _ ← reject_if (bool_decide (se_event_id wait_started ≠ aw_wait_started_event_id due)
                 || bool_decide (se_thread_id wait_started ≠ aw_thread_id due))
        (ste "Agent Loop wait-start event differs from its projection" []);
  envelope ← due_started_envelope due wait_started;
  _ ← validate_wait_envelope envelope;
  _ ← reject_if (bool_decide (we_thread_id envelope ≠ aw_thread_id due)
                 || bool_decide (we_turn_id envelope ≠ aw_turn_id due)
                 || bool_decide (we_tenant_id envelope ≠ aw_tenant_id due)
                 || bool_decide (we_envelope_sha256 envelope ≠ aw_envelope_sha256 due))
        (ste "Agent Loop wait envelope differs from its due projection" []);
  Ok envelope.

Definition check_transition (due : AgentLoopDueWait) (wait_started : StoredEvent)
    (envelope : TurnWaitEnvelope) (current : StoredEvent) : result ResumeEvidence :=
  _ ← validate_stored_event current;
  _ ← reject_if (bool_decide (se_event_id current ≠ aw_current_transition_event_id due)
                 || bool_decide (se_thread_id current ≠ aw_thread_id due)
                 || (se_sequence current <=? se_sequence wait_started)%Z)
        (ste "Agent Loop transition event differs from its projection" []);
  resume ← due_accepted_resume due current;
  _ ← validate_resume_evidence envelope resume;
  _ ← reject_if (negb (decision_matches_phase (aw_phase due) (as_decision (re_settlement resume)))
                 || bool_decide (re_wait_id resume ≠ aw_wait_id due)
                 || negb (re_revision resume =? aw_revision due)%Z)
        (ste "Agent Loop resume evidence differs from its due projection" []);
  Ok resume.

Definition load_exact_due_wait_evidence (due : AgentLoopDueWait)
    : M (StateEngine S) ExactDueWaitEvidence :=
  loaded ← on_store BeforeStartEvent (store_event_by_id (aw_wait_started_event_id due));
  wait_started ← lift (ok_or loaded
    (ste "Agent Loop wait projection references a missing start event" []));
  envelope ← lift (check_started due wait_started);
  if bool_decide (aw_phase due = DueWaiting) then
    _ ← lift (reject_if (bool_decide (aw_current_transition_event_id due
                                      ≠ aw_wait_started_event_id due)
                         || negb (aw_revision due =? we_revision envelope)%Z)
          (ste "Waiting Agent Loop projection has an invalid current transition" []));
    mret {| xd_envelope := envelope; xd_resume := None |}
  else
    loaded ← on_store BeforeTransitionEvent
               (store_event_by_id (aw_current_transition_event_id due));
    current ← lift (ok_or loaded
      (ste "Agent Loop wait projection references a missing transition event" []));
    resume ← lift (check_transition due wait_started envelope current);
    mret {| xd_envelope := envelope; xd_resume := Some resume |}.

(** ** Settlement *)

(** The pending event of a wait, or of an approved one, that timed out. *)
Definition timeout_event (due : AgentLoopDueWait) (at_ms : Z) (exact : ExactDueWaitEvidence)
    (frozen_authority : AuthorityContext) : result PendingEvent :=
  expires_at_ms ← ok_or (we_expires_at_ms (xd_envelope exact))
    (ste "Agent Loop timeout projection has no envelope expiry" []);
  _ ← reject_if (negb (expires_at_ms =? aw_due_at_ms due)%Z)
        (ste "Agent Loop timeout projection differs from its envelope expiry" []);
  let preceding_transition_ms :=
    match xd_resume exact with
    | Some resume => re_accepted_at_ms resume
    | None => we_server_started_at_ms (xd_envelope exact)
    end in
  let closed_at_ms := Z.max (aw_due_at_ms due) preceding_transition_ms in
  _ ← reject_if (at_ms <? closed_at_ms)%Z
        (ste "Agent Loop wait transition is later than the trusted maintenance time" []);
  command_id ← deterministic_timeout_command_id due;
  command_sha256 ← wait_close_command_sha256 (aw_thread_id due) (aw_turn_id due)
    {| wcc_wait_id := aw_wait_id due; wcc_expected_revision := aw_revision due;
       wcc_command_id := command_id; wcc_status := TurnIsTimedOut;
       wcc_reason := StopTimedOut |} frozen_authority;
  revision ← ok_or (checked_add u64_max (aw_revision due) 1) (ste "Agent Loop revision overflow" []);
  let evidence := {|
    wc_wait_id := aw_wait_id due; wc_previous_revision := aw_revision due; wc_revision := revision;
    wc_command_id := command_id; wc_status := TurnIsTimedOut; wc_reason := StopTimedOut;
    wc_command_sha256 := command_sha256; wc_closed_at_ms := closed_at_ms |} in
  _ ← validate_wait_closure_evidence (xd_envelope exact) evidence;
  event_id ← agent_loop_lifecycle_event_id LifecycleWaitClosed (aw_thread_id due) (aw_turn_id due)
               command_id;
  stopped_id ← agent_loop_maintenance_item_id event_id "turn-stopped";
  transition_id ← agent_loop_maintenance_item_id event_id "wait-closed";
  Ok {| pe_event_id := event_id; pe_thread_id := aw_thread_id due;
        pe_expected_stream_version := aw_expected_stream_version due;
        pe_expected_stream_recovery_bytes := aw_expected_stream_recovery_bytes due;
        pe_recorded_at_ms := closed_at_ms;
        pe_event := EvWaitClosed (aw_turn_id due)
          {| it_id := stopped_id; it_created_at_ms := closed_at_ms;
             it_kind := TurnStopped StopTimedOut PhaseApproval |}
          {| it_id := transition_id; it_created_at_ms := closed_at_ms;
             it_kind := AgentLoopWaitClosed evidence |}
          TurnIsTimedOut |}.

(** The pending event of an accepted denial. *)
Definition denial_event (due : AgentLoopDueWait) (at_ms : Z) (exact : ExactDueWaitEvidence)
    (frozen_authority : AuthorityContext) : result PendingEvent :=
  resume ← ok_or (xd_resume exact)
    (ste "Agent Loop denial projection has no accepted settlement" []);
  _ ← reject_if (negb (re_accepted_at_ms resume =? aw_due_at_ms due)%Z
                 || negb (is_deny (as_decision (re_settlement resume))))
        (ste "Agent Loop denial projection differs from its accepted settlement" []);
  _ ← reject_if (at_ms <? re_accepted_at_ms resume)%Z
        (ste "Agent Loop denial transition is later than trusted maintenance time" []);
  command_id ← deterministic_denial_command_id due;
  command_sha256 ← wait_denial_command_sha256 (aw_thread_id due) (aw_turn_id due) (aw_wait_id due)
    (aw_revision due) command_id (re_settlement resume) frozen_authority;
  revision ← ok_or (checked_add u64_max (aw_revision due) 1) (ste "Agent Loop revision overflow" []);
  let evidence := {|
    wd_wait_id := aw_wait_id due; wd_previous_revision := aw_revision due; wd_revision := revision;
    wd_command_id := command_id; wd_command_sha256 := command_sha256;
    wd_settlement := re_settlement resume; wd_denied_at_ms := re_accepted_at_ms resume |} in
  _ ← validate_wait_denial_evidence (xd_envelope exact) evidence;
  event_id ← agent_loop_lifecycle_event_id LifecycleWaitDenied (aw_thread_id due) (aw_turn_id due)
               command_id;
  decision_id ← agent_loop_maintenance_item_id event_id "approval-decision";
  transition_id ← agent_loop_maintenance_item_id event_id "wait-denied";
  let request := as_request (re_settlement resume) in
  Ok {| pe_event_id := event_id; pe_thread_id := aw_thread_id due;
        pe_expected_stream_version := aw_expected_stream_version due;
        pe_expected_stream_recovery_bytes := aw_expected_stream_recovery_bytes due;
        pe_recorded_at_ms := re_accepted_at_ms resume;
        pe_event := EvDenyWait (aw_turn_id due)
          {| it_id := decision_id; it_created_at_ms := re_accepted_at_ms resume;
             it_kind := ItemApprovalDecision (aq_id request) (ta_call_id (aq_authorization request))
                          (as_decision (re_settlement resume)) |}
          {| it_id := transition_id; it_created_at_ms := re_accepted_at_ms resume;
             it_kind := AgentLoopWaitDenied evidence |} |}.

Definition settlement_event (due : AgentLoopDueWait) (at_ms : Z) (exact : ExactDueWaitEvidence)
    (frozen_authority : AuthorityContext) : result PendingEvent :=
  match aw_phase due with
  | DueWaiting | DueReadyAllow => timeout_event due at_ms exact frozen_authority
  | DueReadyDeny => denial_event due at_ms exact frozen_authority
  end.

Definition commit_pending_with_disposition (pending : PendingEvent)
    : M (StateEngine S) EventAppendResult :=
  encoded ← lift (validate_pending_event pending);
  answer ← with_answer (on_store BeforeAppend (append_with_disposition pending));
  match answer with
  | Ok result =>
      _ ← lift (validate_append_result pending (ear_stored result));
      _ ← lift (reject_if (bool_decide (ear_disposition result = DispositionUnknown))
                  (ste "Agent Loop wait maintenance requires exact append disposition" []));
      _ ← on_heads (advance_head (pe_expected_stream_version pending)
            (pe_expected_stream_recovery_bytes pending) (en_recovery_bytes encoded)
            (ear_stored result));
      mret result
  | Err (StateConflict t e a) =>
      _ ← on_heads (invalidate_head (pe_thread_id pending) (pe_expected_stream_version pending));
      lift (Err (StateConflict t e a))
  | Err error => lift (Err error)
  end.

(** The snapshot it then schedules is a disposable cache. *)
Definition settle_due_agent_loop_wait_as (due : AgentLoopDueWait) (at_ms : Z)
    (authority : AuthorityContext) : M (StateEngine S) EventAppendResult :=
  _ ← lift (require_wait_maintenance authority);
  _ ← lift (due_validate due at_ms (tenant_id authority));
  exact ← load_exact_due_wait_evidence due;
  frozen_authority ← lift (envelope_authority (xd_envelope exact));
  pending ← lift (settlement_event due at_ms exact frozen_authority);
  _ ← lift (ok_or (checked_add u64_max (aw_expected_stream_version due) 1)
              (ste "cannot schedule snapshot after stream-version overflow" []));
  commit_pending_with_disposition pending.
End engine.

(** * The contract of an Event Store *)

Section laws.
Context `{!CompletionCodec, !WaitCodec, !StateCodec, !Sha256, !Sha256Bytes}.

(** What an append of a pending event does to the rows and the versions. *)
Definition row_committed (pending : PendingEvent) (rows rows' : gmap ThreadId AgentLoopWaitProjection)
    : Prop :=
  ∃ stored change, se_event stored = pe_event pending ∧ se_thread_id stored = pe_thread_id pending ∧
    projection_change stored (rows !! pe_thread_id pending) = Ok change ∧
    rows' !! pe_thread_id pending = apply_wait_change (rows !! pe_thread_id pending) change ∧
    ∀ other, other ≠ pe_thread_id pending → rows' !! other = rows !! other.

Definition is_conflict (e : HarnessError) : bool :=
  match e with StateConflict _ _ _ => true | _ => false end.

(** A store keeps one row of each stream with a live wait and a version of each
    stream. An append is refused, or repeats an event that is there already,
    or commits at the version it expects; when it reports an error other than
    a conflict, or an unknown disposition, it may still have committed. *)
Class EventStoreLaws (S : Type) `{!EventStore S} := {
  es_inv : S → Prop;
  es_rows : S → gmap ThreadId AgentLoopWaitProjection;
  es_version : S → ThreadId → Z;
  es_scan_law tenant at_ms after limit s s' r :
    es_inv s → scan_due_agent_loop_waits tenant at_ms after limit s = (s', r) →
    es_inv s' ∧ es_rows s' = es_rows s ∧ (∀ t, es_version s' t = es_version s t) ∧
    ∀ page due, r = Ok page → due ∈ adp_due page →
      es_version s (aw_thread_id due) = aw_expected_stream_version due ∧
      ∃ p, es_rows s !! aw_thread_id due = Some p ∧
        projection_due_wait p (aw_expected_stream_version due)
          (aw_expected_stream_recovery_bytes due) = Ok due;
  es_read_law id s s' r :
    es_inv s → store_event_by_id id s = (s', r) →
    es_inv s' ∧ es_rows s' = es_rows s ∧ ∀ t, es_version s' t = es_version s t;
  es_append_law pending s s' r :
    es_inv s → append_with_disposition pending s = (s', r) → es_inv s' ∧
    let same := es_rows s' = es_rows s ∧ ∀ t, es_version s' t = es_version s t in
    let committed :=
      es_version s (pe_thread_id pending) = pe_expected_stream_version pending ∧
      row_committed pending (es_rows s) (es_rows s') ∧
      ∀ t, es_version s' t
           = (es_version s t + if bool_decide (t = pe_thread_id pending) then 1 else 0)%Z in
    match r with
    | Ok res =>
        match ear_disposition res with
        | DispositionApplied => committed ∧ validate_append_result pending (ear_stored res) = Ok ()
        | DispositionDuplicate => same
        | DispositionUnknown =>
            same ∨ committed ∧ validate_append_result pending (ear_stored res) = Ok ()
        end
    | Err e => same ∨ committed ∧ is_conflict e = false
    end;
}.
End laws.

(** * Settling a due fence *)

Section settle.
Context `{!CompletionCodec, !WaitCodec, !StateCodec, !Sha256, !Sha256Bytes}.
Context {S : Type} `{!EventStore S, !EventStoreLaws S}.

(** Streams only grow, and a stream that did not grow has its row. *)
Definition store_grows (s s' : S) : Prop := ∀ t,
  (es_version s t ≤ es_version s' t)%Z ∧
  (es_version s' t = es_version s t → es_rows s' !! t = es_rows s !! t).

(** The fence is of a row the store holds at the fence's version. *)
Definition fence_current (due : AgentLoopDueWait) (s : S) : Prop :=
  es_version s (aw_thread_id due) = aw_expected_stream_version due ∧
  ∃ p, es_rows s !! aw_thread_id due = Some p ∧
    projection_due_wait p (aw_expected_stream_version due)
      (aw_expected_stream_recovery_bytes due) = Ok due.

(** It was, and the stream may have grown since. *)
Definition fence_reported (due : AgentLoopDueWait) (s : S) : Prop :=
  (aw_expected_stream_version due < es_version s (aw_thread_id due))%Z ∨ fence_current due s.

Lemma store_grows_refl s : store_grows s s.
Proof. done. Qed.

Lemma store_grows_trans s1 s2 s3 : store_grows s1 s2 → store_grows s2 s3 → store_grows s1 s3.
Proof.
  intros H12 H23 t. destruct (H12 t) as [V12 R12], (H23 t) as [V23 R23]. split; [lia|].
  intros Hv. rewrite R23, R12 by lia. done.
Qed.

Lemma same_grows s s' :
  es_rows s' = es_rows s → (∀ t, es_version s' t = es_version s t) → store_grows s s'.
Proof. intros Hr Hv t. rewrite Hr, Hv. done. Qed.

Lemma reported_grows due s s' : store_grows s s' → fence_reported due s → fence_reported due s'.
Proof.
  intros Hg. destruct (Hg (aw_thread_id due)) as [Hv Hr].
  intros [Hlt|(Hver & p & Hp & Hd)]; [left; lia|].
  destruct (decide (es_version s' (aw_thread_id due) = es_version s (aw_thread_id due))) as [Heq|Hne].
  - right. split; [lia|]. exists p. by rewrite (Hr Heq).
  - left. lia.
Qed.

Context (engine_await : EnginePoint → StateEngine S → StateEngine S).

(** The engine as the client of the temporal driver sees it. *)
#[local] Instance engine_waits : StateWaits (StateEngine S) := {|
  state_scan_due_as := scan_due_agent_loop_waits_as engine_await;
  state_settle_due_as := settle_due_agent_loop_wait_as engine_await;
|}.
#[local] Instance engine_model : StateWaitsModel (StateEngine S) := {|
  sw_inv j := es_inv (sg_store j);
  sw_view j := es_rows (sg_store j);
  sw_reported due j := fence_reported due (sg_store j);
  sw_others j j' := ∃ p, j' = engine_await p j;
|}.

(** Other clients of the store leave it well formed and only grow streams. *)
Context (await_grows : ∀ p j, es_inv (sg_store j) →
  es_inv (sg_store (engine_await p j)) ∧ store_grows (sg_store j) (sg_store (engine_await p j))).

Lemma grows_keeps (j j' : StateEngine S) :
  (es_inv (sg_store j) → es_inv (sg_store j') ∧ store_grows (sg_store j) (sg_store j')) →
  sw_keeps j j'.
Proof.
  intros Hg Hi. destruct (Hg Hi) as [Hi' Hs]. split; [done|]. intros due. by apply reported_grows.
Qed.

Lemma await_moves p j : sw_moves j (engine_await p j).
Proof. apply rtc_once. left. by exists p. Qed.

Lemma heads_moves (s : S) h h' : sw_moves (Build_StateEngine _ s h) (Build_StateEngine _ s h').
Proof. apply rtc_once. right. split; [done|]. apply grows_keeps. intros Hi. by split; [|apply store_grows_refl]. Qed.

Lemma same_moves (s s' : S) h :
  (es_inv s → es_inv s' ∧ es_rows s' = es_rows s ∧ ∀ t, es_version s' t = es_version s t) →
  es_inv s → sw_moves (Build_StateEngine _ s h) (Build_StateEngine _ s' h).
Proof.
  intros Hs Hi. destruct (Hs Hi) as (Hi' & Hr & Hv). apply rtc_once. right. split; [done|].
  apply grows_keeps. intros _. split; [done|]. by apply same_grows.
Qed.

Lemma moves_inv (j j' : StateEngine S) : sw_moves j j' → es_inv (sg_store j) → es_inv (sg_store j').
Proof.
  induction 1 as [|j j1 j2 Hm _ IH]; [done|]. intros Hi. apply IH.
  destruct Hm as [[p ->]|[_ Hk]]; [by apply await_grows|by apply Hk].
Qed.

(** A call that awaits, and changes nothing a client can read. *)
Definition reads {A} (m : M (StateEngine S) A) : Prop :=
  ∀ j j' r, es_inv (sg_store j) → m j = (j', r) → sw_moves j j'.

Lemma reads_lift {A} (r : result A) : reads (lift r).
Proof. intros j j' r' _ [= <- <-]. apply rtc_refl. Qed.
Lemma reads_ret {A} (a : A) : reads (mret a).
Proof. apply (reads_lift (Ok a)). Qed.

Lemma reads_bind {A B} (m : M (StateEngine S) A) (k : A → M (StateEngine S) B) :
  reads m → (∀ a, reads (k a)) → reads (m ≫= k).
Proof.
  intros Hm Hk j j' r Hi E. unfold mbind, M_bind in E. destruct (m j) as [j1 [a|e]] eqn:Em.
  - pose proof (Hm _ _ _ Hi Em) as H1'. apply Hk in E; [|by eapply moves_inv].
    by etrans.
  - injection E as <- <-. by eapply Hm.
Qed.

Lemma reads_event p id : reads (on_store engine_await p (store_event_by_id id)).
Proof.
  intros j j' r Hi E. unfold on_store in E. pose proof (await_moves p j) as Ho.
  pose proof (moves_inv _ _ Ho Hi) as Hi1.
  destruct (store_event_by_id id _) as [s1 r1] eqn:Es. injection E as <- <-.
  etrans; [exact Ho|]. destruct (engine_await p j) as [s h]. simpl in *.
  apply same_moves; [|done]. intros _. by apply es_read_law in Es.
Qed.

Lemma reads_evidence due : reads (load_exact_due_wait_evidence engine_await due).
Proof.
  unfold load_exact_due_wait_evidence.
  apply reads_bind; [apply reads_event|intros loaded]. apply reads_bind; [apply reads_lift|intros started].
  apply reads_bind; [apply reads_lift|intros envelope]. case_bool_decide.
  - apply reads_bind; [apply reads_lift|intros ?]. apply reads_ret.
  - apply reads_bind; [apply reads_event|intros current]. apply reads_bind; [apply reads_lift|intros ?].
    apply reads_bind; [apply reads_lift|intros ?]. apply reads_ret.
Qed.

(** An event that ends a wait deletes its row. *)
Definition ends_wait (event : StateEvent) : bool :=
  match event with EvWaitClosed _ _ _ _ | EvDenyWait _ _ _ => true | _ => false end.

Lemma ends_wait_deletes stored row change :
  ends_wait (se_event stored) = true → projection_change stored row = Ok change →
  ∃ p, change = ProjectionDelete p.
Proof.
  unfold projection_change, projection_change_inner, projection_change_raw. intros He Hc. inv_ok. subst.
  destruct (se_event stored); try done; inv_ok; destruct (it_kind transition); try done; inv_ok;
    subst; by eexists.
Qed.

(** The settlement of a fence is pending at the fence, and ends its wait. *)
Lemma settlement_event_fence due at_ms exact a (pending : PendingEvent) :
  settlement_event due at_ms exact a = Ok pending →
  pe_thread_id pending = aw_thread_id due ∧
  pe_expected_stream_version pending = aw_expected_stream_version due ∧
  ends_wait (pe_event pending) = true.
Proof.
  unfold settlement_event, timeout_event, denial_event. intros E.
  destruct (aw_phase due); inv_ok; by subst.
Qed.

Lemma committed_deletes (due : AgentLoopDueWait) (at_ms : Z) (exact : ExactDueWaitEvidence) (a : AuthorityContext) (pending : PendingEvent) (rows rows' : gmap ThreadId AgentLoopWaitProjection) :
  settlement_event due at_ms exact a = Ok pending → row_committed pending rows rows' →
  rows' = delete (aw_thread_id due) rows.
Proof.
  intros (Ht & _ & Hd)%settlement_event_fence (stored & change & He & _ & Hc & Hrow & Hother).
  rewrite <-He in Hd. destruct (ends_wait_deletes _ _ _ Hd Hc) as [p ->]. rewrite Ht in *. apply map_eq. intros t.
  destruct (decide (t = aw_thread_id due)) as [->|Hne].
  - by rewrite Hrow, lookup_delete_eq.
  - by rewrite Hother, lookup_delete_ne.
Qed.

Lemma committed_grows (pending : PendingEvent) (s s' : S) :
  row_committed pending (es_rows s) (es_rows s') →
  (∀ t, es_version s' t
        = (es_version s t + if bool_decide (t = pe_thread_id pending) then 1 else 0)%Z) →
  store_grows s s'.
Proof.
  intros (stored & change & _ & _ & _ & _ & Hother) Hv t. rewrite Hv. case_bool_decide as Ht.
  - split; lia.
  - split; [lia|]. intros _. by apply Hother.
Qed.

(** The row of a fence at its version is the fence's row. *)
Lemma reported_current due s :
  fence_reported due s → es_version s (aw_thread_id due) = aw_expected_stream_version due →
  fence_current due s.
Proof. intros [Hlt|Hc] Hv; [lia|done]. Qed.

(** The append of a settlement at the fence it was made for settles it. *)
Lemma committed_settles due at_ms exact a (pending : PendingEvent) (s s' : S) h :
  settlement_event due at_ms exact a = Ok pending →
  es_version s (pe_thread_id pending) = pe_expected_stream_version pending →
  row_committed pending (es_rows s) (es_rows s') →
  fence_reported due s →
  sw_settled due (Build_StateEngine _ s h) (Build_StateEngine _ s' h).
Proof.
  intros Hev Hver Hrow Hrep. destruct (settlement_event_fence _ _ _ _ _ Hev) as (Ht & Hv & _).
  apply reported_current in Hrep as (_ & p & Hp & Hd); [|by rewrite <-Ht, <-Hv].
  exists p. do 2 eexists. split; [exact Hp|]. split; [exact Hd|]. by eapply committed_deletes.
Qed.

(** One append of a settlement, as its answer says. *)
Lemma append_answered due at_ms a exact frozen pending p (j j' : StateEngine S) r :
  due_validate due at_ms (tenant_id a) = Ok () →
  settlement_event due at_ms exact frozen = Ok pending → es_inv (sg_store j) →
  on_store engine_await p (append_with_disposition pending) j = (j', r) →
  ∃ j1, sw_moves j j1 ∧ sw_keeps j1 j' ∧
    (∀ e, is_conflict e = false → sw_answered due at_ms a (Err e) j1 j') ∧
    match r with
    | Ok res =>
        match validate_append_result pending (ear_stored res) with
        | Ok _ => ear_disposition res ≠ DispositionUnknown → sw_answered due at_ms a r j1 j'
        | Err e => sw_answered due at_ms a (Err e) j1 j'
        end
    | Err _ => sw_answered due at_ms a r j1 j'
    end.
Proof.
  intros Hdv Hev Hi E. unfold on_store in E. pose proof (await_moves p j) as Ho.
  exists (engine_await p j). split; [done|]. apply moves_inv in Ho; [|done].
  destruct (engine_await p j) as [s h] eqn:Eawait. simpl in *.
  destruct (append_with_disposition pending s) as [s1 r1] eqn:Es. injection E as <- <-.
  apply es_append_law in Es as [Hi' Hlaw]; [|done].
  set (settled := due_validate due at_ms (tenant_id a) = Ok () ∧
    (fence_reported due s → sw_settled due (Build_StateEngine _ s h) (Build_StateEngine _ s1 h))).
  assert (store_grows s s1 ∧ (es_rows s1 = es_rows s ∨ settled)) as [Hg Hor].
  { assert (es_rows s1 = es_rows s ∧ (∀ t, es_version s1 t = es_version s t) →
      store_grows s s1 ∧ (es_rows s1 = es_rows s ∨ settled)) as Hsame.
    { intros [Hr Hv]. split; [by apply same_grows|by left]. }
    assert (es_version s (pe_thread_id pending) = pe_expected_stream_version pending ∧
      row_committed pending (es_rows s) (es_rows s1) ∧
      (∀ t, es_version s1 t = (es_version s t + if bool_decide (t = pe_thread_id pending) then 1 else 0)%Z) →
      store_grows s s1 ∧ (es_rows s1 = es_rows s ∨ settled)) as Hcom.
    { intros (Hver & Hrow & Hvers). split; [by eapply committed_grows|]. right.
      split; [done|]. by eapply committed_settles. }
    destruct r1 as [res|e]; [destruct (ear_disposition res)|].
    - apply Hcom, Hlaw.
    - by apply Hsame.
    - destruct Hlaw as [Hs|[Hc _]]; [by apply Hsame|by apply Hcom].
    - destruct Hlaw as [Hs|[Hc _]]; [by apply Hsame|by apply Hcom]. }
  split; [by apply grows_keeps|]. split.
  { intros e He. destruct e; done || exact Hor. }
  destruct r1 as [res|e].
  - destruct (validate_append_result pending (ear_stored res)) as [u|e] eqn:Hval.
    + intros Hd. simpl. destruct (ear_disposition res); [|by destruct Hlaw|done].
      destruct Hlaw as [(Hver & Hrow & _) _]. split; [done|]. by eapply committed_settles.
    + assert (es_rows s1 = es_rows s) as Hr.
      { destruct (ear_disposition res); [by destruct Hlaw|by destruct Hlaw|].
        destruct Hlaw as [[Hr _]|[_ Hv]]; [done|]. by rewrite Hv in Hval. }
      destruct e; try (by left). exact Hr.
  - destruct e; try exact Hor. destruct Hlaw as [[Hr _]|[_ Hc]]; done.
Qed.

Lemma heads_run f (j j' : StateEngine S) r :
  on_heads engine_await f j = (j', r) → sw_moves j j' ∧ r = Ok ().
Proof.
  unfold on_heads. intros [= <- <-]. split; [|done]. etrans; [apply (await_moves BeforeHead)|].
  destruct (engine_await BeforeHead j) as [s h]. apply heads_moves.
Qed.

(** A call that changes nothing has the answer of any error. *)
Lemma answered_idle due at_ms a e (j : StateEngine S) : sw_answered due at_ms a (Err e) j j.
Proof. destruct e; by try left. Qed.

Lemma commit_answered due at_ms a exact frozen pending (j j' : StateEngine S) r :
  due_validate due at_ms (tenant_id a) = Ok () →
  settlement_event due at_ms exact frozen = Ok pending → es_inv (sg_store j) →
  commit_pending_with_disposition engine_await pending j = (j', r) →
  ∃ j1 j2, sw_moves j j1 ∧ sw_keeps j1 j2 ∧ sw_moves j2 j' ∧ sw_answered due at_ms a r j1 j2.
Proof.
  intros Hdv Hev Hi E. unfold commit_pending_with_disposition in E.
  unfold mbind at 1, M_bind, lift in E. destruct (validate_pending_event pending) as [encoded|e].
  2: { injection E as <- <-. exists j, j. split; [apply rtc_refl|]. split; [done|].
       split; [apply rtc_refl|apply answered_idle]. }
  unfold mbind at 1, M_bind, with_answer in E.
  destruct (on_store engine_await BeforeAppend _ j) as [j2 r2] eqn:Es.
  destruct (append_answered _ _ _ _ _ _ _ _ _ _ Hdv Hev Hi Es) as (j1 & M1 & K2 & Herr & Hr).
  assert (∀ j3 r3, sw_moves j2 j3 → sw_answered due at_ms a r3 j1 j2 → (j3, r3) = (j', r) →
    ∃ j1 j2, sw_moves j j1 ∧ sw_keeps j1 j2 ∧ sw_moves j2 j' ∧ sw_answered due at_ms a r j1 j2) as Hdone.
  { intros j3 r3 M3 Ha [= <- <-]. by exists j1, j2. }
  destruct r2 as [res|e].
  - unfold mbind, M_bind in E. destruct (validate_append_result pending (ear_stored res)) as [[]|e] eqn:Hval.
    2: { exact (Hdone _ _ (rtc_refl _ _) Hr E). }
    destruct (decide (ear_disposition res = DispositionUnknown)) as [Hd|Hd].
    + rewrite bool_decide_true in E by done. refine (Hdone _ _ (rtc_refl _ _) (Herr _ _) E). done.
    + rewrite bool_decide_false in E by done. cbn [reject_if] in E.
      destruct (on_heads engine_await _ j2) as [j3 r3] eqn:Eh. apply heads_run in Eh as [M3 ->].
      exact (Hdone _ _ M3 (Hr Hd) E).
  - destruct e; try exact (Hdone _ _ (rtc_refl _ _) Hr E).
    unfold mbind, M_bind in E. destruct (on_heads engine_await _ j2) as [j3 r3] eqn:Eh.
    apply heads_run in Eh as [M3 ->]. exact (Hdone _ _ M3 Hr E).
Qed.

(** One settlement: moves of others and reads, one append, and moves again. *)
Lemma settle_due_answered due at_ms authority (j j' : StateEngine S) r :
  es_inv (sg_store j) →
  settle_due_agent_loop_wait_as engine_await due at_ms authority j = (j', r) →
  ∃ j1 j2, sw_moves j j1 ∧ sw_keeps j1 j2 ∧ sw_moves j2 j' ∧ sw_answered due at_ms authority r j1 j2.
Proof.
  intros Hi E. unfold settle_due_agent_loop_wait_as in E.
  assert (∀ j3 e, sw_moves j j3 → (j3, Err e) = (j', r) →
    ∃ j1 j2, sw_moves j j1 ∧ sw_keeps j1 j2 ∧ sw_moves j2 j' ∧ sw_answered due at_ms authority r j1 j2)
    as Hfail.
  { intros j3 e M3 [= <- <-]. exists j3, j3. split; [done|]. split; [done|].
    split; [apply rtc_refl|apply answered_idle]. }
  unfold mbind, M_bind, lift in E.
  destruct (require_wait_maintenance authority) as [[]|e]; [|exact (Hfail _ _ (rtc_refl _ _) E)].
  destruct (due_validate due at_ms (tenant_id authority)) as [[]|e] eqn:Hdv;
    [|exact (Hfail _ _ (rtc_refl _ _) E)].
  destruct (load_exact_due_wait_evidence engine_await due j) as [j0 [exact|e]] eqn:Ex;
    apply reads_evidence in Ex as M0; try done; [|exact (Hfail _ _ M0 E)].
  destruct (envelope_authority (xd_envelope exact)) as [frozen|e]; [|exact (Hfail _ _ M0 E)].
  destruct (settlement_event due at_ms exact frozen) as [pending|e] eqn:Hev; [|exact (Hfail _ _ M0 E)].
  destruct (ok_or (checked_add u64_max _ 1) _) as [v|e]; [|exact (Hfail _ _ M0 E)].
  destruct (commit_answered _ _ _ _ _ _ _ _ _ Hdv Hev (moves_inv _ _ M0 Hi) E)
    as (j1 & j2 & M1 & H2' & H3' & H4').
  exists j1, j2. split; [by etrans|done].
Qed.

(** Discovery: every fence of the page is current when the page is made. *)
Lemma scan_due_reported at_ms after limit authority (j j' : StateEngine S) r :
  es_inv (sg_store j) →
  scan_due_agent_loop_waits_as engine_await at_ms after limit authority j = (j', r) →
  sw_moves j j' ∧
  ∀ page, r = Ok page →
    due_page_validate page at_ms after limit (tenant_id authority) = Ok () ∧
    ∀ due, due ∈ adp_due page → fence_current due (sg_store j').
Proof.
  intros Hi E. unfold scan_due_agent_loop_waits_as, mbind, M_bind, lift in E.
  destruct (require_wait_maintenance authority) as [[]|e]; [|injection E as <- <-; by split; [apply rtc_refl|]].
  destruct (validate_due_scan_request _ _ _ _) as [u|e];
    [|injection E as <- <-; by split; [apply rtc_refl|]].
  destruct (on_store engine_await BeforeDueScan _ j) as [j1 r1] eqn:Es.
  unfold on_store in Es. pose proof (await_moves BeforeDueScan j) as Ho.
  pose proof (moves_inv _ _ Ho Hi) as Hi0. destruct (engine_await BeforeDueScan j) as [s h]. simpl in *.
  destruct (scan_due_agent_loop_waits _ _ _ _ s) as [s1 r2] eqn:Esc. injection Es as <- <-.
  apply es_scan_law in Esc as (Hi1 & Hr & Hv & Hp); [|done].
  assert (sw_moves j {| sg_store := s1; sg_heads := h |}) as M1.
  { etrans; [exact Ho|]. by apply same_moves. }
  destruct r2 as [page|e]; [|injection E as <- <-; by split].
  destruct (due_page_validate page _ _ _ _) as [[]|e] eqn:Epv; injection E as <- <-; [|by split].
  split; [done|]. intros page' [= <-]. split; [done|].
  intros due Hin. destruct (Hp page due eq_refl Hin) as (Hver & p & Hrow & Hpd).
  split; simpl; [by rewrite Hv|]. exists p. by rewrite Hr.
Qed.

(** The engine meets its contract, whatever Event Store it is on. *)
#[local] Instance engine_laws : StateWaitsLaws (StateEngine S).
Proof.
  split.
  - intros j j1 [p ->]. apply grows_keeps. apply await_grows.
  - intros at_ms after limit a j j' r Hi E. apply scan_due_reported in E as [M1 Hp]; [|done].
    split; [done|]. intros page Hr. destruct (Hp page Hr) as [Hv Hd]. split; [done|].
    intros due Hin. right. by apply Hd.
  - intros due at_ms a j j' r Hi E. by eapply settle_due_answered.
Qed.
End settle.

(** * A tick over the engine *)

Section tick.
Context {T W H V E S : Type}.
Context `{!CompletionCodec, !WaitCodec, !StateCodec, sha : !Sha256, sha_bytes : !Sha256Bytes}.
Context `{!Serialize ExecutionBinding, !Serialize (TaskId * TaskRecord),
          !Serialize TaskMessage, !Serialize TaskAttemptBinding}.
Context `{!Serialize WorkflowCreateRequest, !Serialize WorkflowCommand,
          !Serialize WorkflowRunWire, semver : !SemverOrder}.
Context `{!Serialize (HandoffAttributed HumanHandoffCreateRequest),
          !Serialize (HandoffAttributed HumanHandoffCommand), !Serialize HumanHandoffCommand,
          !Serialize HumanHandoffWire}.
Context `{!Serialize Json, !Serialize (AttributedCommand EffectCreateRequest),
          !Serialize (AttributedCommand EffectCommand), !Serialize EffectCommand,
          !Serialize EffectWire}.
Context {ser_command : Serialize (str * ActorIdentity * str * str)}.
Context `{!TaskCoordinator T, !WorkflowCoordinator W}.
Context `{!HumanHandoffCoordinator H, !HumanHandoffSubjectResolver V}.
Context `{!EffectCoordinator E, !EventStore S}.
Context `{!WorkflowLaws W, !HandoffLaws H, !EffectLaws E, !EventStoreLaws S}.
Context (wf_await : nat → T * W → T * W).
Context (engine_await : EnginePoint → StateEngine S → StateEngine S).
Context (engine_await_grows : ∀ p j, es_inv (sg_store j) →
  es_inv (sg_store (engine_await p j)) ∧ store_grows (sg_store j) (sg_store (engine_await p j))).

#[local] Instance tick_waits : StateWaits (StateEngine S) := engine_waits engine_await.
#[local] Instance tick_model : StateWaitsModel (StateEngine S) := engine_model engine_await.
#[local] Instance tick_laws : StateWaitsLaws (StateEngine S) :=
  engine_laws engine_await engine_await_grows.

Abbreviation Stores := (TemporalStores T W H V E (StateEngine S)).
Context (await : TickPoint → Stores → Stores).
Context (await_ok : ∀ p s, stores_ok s → stores_ok (await p s)).
Context (await_grows : ∀ p s, stores_ok s →
  store_grows (sg_store (st_state s)) (sg_store (st_state (await p s)))).

(** C30: A tick does what its report says and nothing else, whatever other clients
    do while it is suspended, between its calls or inside a call of its State
    engine: every attempt reported applied advanced the aggregate it names, at
    the revision it names and with its fence due, in the order of the report;
    every other attempt and the scans changed nothing, except that a failed
    attempt on an Agent Loop wait may have settled exactly that wait, as its
    append may have committed and then reported an error; and a tick that fails
    has applied no command at all. *)
Theorem temporal_tick_honest driver request authority (s s' : Stores)
    (r : result TemporalTickReport) (Hs : stores_ok s)
    (Ht : tick_as wf_await await driver request authority s = (s', r)) :
  stores_ok s' ∧
  match r with
  | Ok report => tick_runs await (attempted request authority) s (tr_attempts report) s'
  | Err _ => tick_runs await (attempted request authority) s [] s'
  end.
Proof.
  eapply tick_honest; [exact await_ok| |exact Hs|exact Ht].
  intros p t due Hok. by apply reported_grows, await_grows.
Qed.
End tick.

(** * The in-memory Event Store meets the contract *)

Section memory.
Context `{!CompletionCodec, !WaitCodec, !StateCodec, !Sha256, !Sha256Bytes}.

Definition memory_version (data : MemoryStoreData) (thread_id : ThreadId) : Z :=
  default 0%Z (ms_stream_versions data !! thread_id).

(** The rows of the due scan. *)
Lemma due_row_current data key due :
  due_row data key = Ok due →
  memory_version data (aw_thread_id due) = aw_expected_stream_version due ∧
  ∃ p, ms_agent_loop_waits data !! aw_thread_id due = Some p ∧
    projection_due_wait p (aw_expected_stream_version due)
      (aw_expected_stream_recovery_bytes due) = Ok due.
Proof.
  unfold due_row. intros E. inv_ok. bool_hyps.
  match goal with Hx : ms_agent_loop_waits data !! _ = Some ?p |- _ => rename p into row; rename Hx into Hrow end.
  match goal with Hx : ¬ (due_index_key row ≠ Some key) |- _ => apply dec_stable in Hx; rename Hx into Hkey end.
  match goal with Hx : ms_stream_versions data !! _ = Some _ |- _ => rename Hx into Hver end.
  assert (dk_thread_id key = wp_thread_id row) as Ht.
  { unfold due_index_key in Hkey. destruct (wp_due_at_ms row); simpl in Hkey; [|done].
    by injection Hkey as <-. }
  rewrite Ht in Hrow, Hver. pose proof E as E'. unfold projection_due_wait in E'. inv_ok. subst due.
  simpl in *. unfold memory_version. rewrite Hver. split; [done|]. by exists row.
Qed.

Lemma due_loop_current data tenant at_ms limit keys : ∀ due l,
  due_loop data tenant at_ms limit due keys = Ok l →
  ∀ d, d ∈ l → d ∈ due ∨ ∃ key, due_row data key = Ok d.
Proof.
  induction keys as [|key keys IH]; intros due l E d Hd; simpl in E; [injection E as <-; by left|].
  destruct (_ || _); [injection E as <-; by left|].
  apply bind_ok in E as (row & Hrow & E).
  assert (d ∈ due ++ [row] → d ∈ due ∨ ∃ key, due_row data key = Ok d) as Happ.
  { intros [?| ->%list_elem_of_singleton]%elem_of_app; [by left|right; by exists key]. }
  destruct (_ <? _)%Z; [injection E as <-; by apply Happ|].
  destruct (IH _ _ E d Hd) as [Hin|Hk]; [by apply Happ|by right].
Qed.

Lemma scan_due_current data tenant at_ms after limit page due :
  store_scan_due data tenant at_ms after limit = Ok page → due ∈ adp_due page →
  ∃ key, due_row data key = Ok due.
Proof.
  unfold store_scan_due. intros E Hd. inv_ok. subst page. simpl in Hd.
  match goal with Hx : due_loop _ _ _ _ _ _ = Ok ?l |- _ => rename Hx into Hl; rename l into rows end.
  assert (due ∈ rows) as Hin.
  { destruct (_ <? _)%Z; [|done]. apply list_elem_of_lookup in Hd as [i Hi].
    apply lookup_take_Some in Hi as [Hi _]. by eapply list_elem_of_lookup_2. }
  destruct (due_loop_current _ _ _ _ _ _ _ Hl due Hin) as [Hn|Hk]; [by apply elem_of_nil in Hn|done].
Qed.

(** An append of the memory store, as the contract says it. *)
Lemma appended_committed pending encoded change data :
  store_ok data →
  default 0%Z (ms_stream_versions data !! pe_thread_id pending) = pe_expected_stream_version pending →
  projection_change (stored_pending pending (len (ms_events data) + 1))
    (ms_agent_loop_waits data !! pe_thread_id pending) = Ok change →
  let data' := appended pending encoded change data in
  row_committed pending (ms_agent_loop_waits data) (ms_agent_loop_waits data') ∧
  ∀ t, memory_version data' t
       = (memory_version data t + if bool_decide (t = pe_thread_id pending) then 1 else 0)%Z.
Proof.
  intros Hok Hver Hch data'. split.
  - destruct (apply_memory_wait_projection (ms_agent_loop_waits data) (ms_agent_loop_due data) change)
      as [waits due] eqn:Hrows.
    destruct (change_rows data (pe_thread_id pending) change waits due Hok) as (Hw1 & Hw2 & _);
      [by pose proof (change_thread _ _ _ Hch); destruct change|done|].
    exists (stored_pending pending (len (ms_events data) + 1)), change.
    split; [done|]. split; [done|]. split; [done|]. unfold data'. simpl. rewrite Hrows. by split.
  - intros t. unfold memory_version, data'. simpl. case_bool_decide as Ht.
    + subst t. rewrite lookup_insert_eq, Hver. done.
    + rewrite lookup_insert_ne by done. lia.
Qed.

Lemma stored_pending_accepted pending encoded data :
  validate_pending_event pending = Ok encoded →
  validate_append_result pending (stored_pending pending (len (ms_events data) + 1)) = Ok ().
Proof.
  intros Hv. destruct (pending_stored_valid pending encoded (len (ms_events data) + 1) Hv) as (Hok & _).
  destruct (validate_stored_event_eq _ Hok) as (E & _). unfold stored_pending, validate_append_result.
  rewrite E. cbn [mbind result_bind se_schema_version se_sequence se_event_id se_thread_id se_recorded_at_ms
    se_event]. match goal with |- reject_if ?b _ = _ => assert (b = false) as -> end; [|done].
  repeat apply orb_false_intro; try (apply bool_decide_eq_false; intros Hn; by apply Hn);
    rewrite ?Z.eqb_refl; try done; apply Z.eqb_neq; unfold len; lia.
Qed.

#[global] Program Instance MemoryEventStoreLaws : EventStoreLaws MemoryStoreData := {|
  es_inv := store_ok;
  es_rows := ms_agent_loop_waits;
  es_version := memory_version;
|}.
Next Obligation.
  intros tenant at_ms after limit s s' r Hi E. cbn [scan_due_agent_loop_waits MemoryEventStore] in E.
  unfold mbind, M_bind, get, lift in E. injection E as <- <-.
  split; [done|]. split; [done|]. split; [done|]. intros page due Hp Hd.
  destruct (scan_due_current _ _ _ _ _ _ _ Hp Hd) as [key Hk]. by eapply due_row_current.
Qed.
Next Obligation.
  intros id s s' r Hi E. cbn [store_event_by_id MemoryEventStore] in E.
  unfold mbind, M_bind, get, lift in E. by injection E as <- <-.
Qed.
Next Obligation.
  intros pending s s' r Hi E. cbn [append_with_disposition MemoryEventStore] in E.
  split; [by eapply store_step_ok, step_append|].
  destruct r as [res|e]; [|left; by rewrite (append_err _ _ _ _ E)].
  destruct (append_ok _ _ _ _ E) as [(-> & -> & _)|(encoded & change & Hv & _ & Hver & _ & _ & Hch & -> & -> & Hst)];
    [done|].
  destruct (appended_committed pending encoded change s Hi Hver Hch) as [Hrow Hvers].
  split; [|rewrite Hst; by eapply stored_pending_accepted].
  split; [done|]. split; [done|]. exact Hvers.
Qed.

(** Whatever clients call, streams only grow. *)
Lemma store_step_grows (data data' : MemoryStoreData) :
  store_ok data → store_step data data' → store_grows data data'.
Proof.
  intros Hok [pending ? r E|thread_id events ? r E].
  - destruct r as [res|e]; [|rewrite (append_err _ _ _ _ E); apply store_grows_refl].
    destruct (append_ok _ _ _ _ E)
      as [(-> & _)|(encoded & change & _ & _ & Hver & _ & _ & Hch & -> & _)]; [apply store_grows_refl|].
    destruct (appended_committed pending encoded change data Hok Hver Hch).
    by eapply committed_grows.
  - destruct r as [stored|e]; [|rewrite (create_err _ _ _ _ _ E); apply store_grows_refl].
    destruct (create_ok _ _ _ _ _ E) as (encoded & tenant & _ & Hver & _ & _ & _ & _ & ->).
    intros t. simpl. unfold memory_version. simpl. destruct (decide (t = thread_id)) as [->|Ht].
    + rewrite lookup_insert_eq, Hver. simpl. unfold len. split; [lia|done].
    + by rewrite lookup_insert_ne.
Qed.

(** Any calls of the store's operations are what other clients may do. *)
Lemma store_steps_grow (data data' : MemoryStoreData) :
  rtc store_step data data' → store_ok data → store_ok data' ∧ store_grows data data'.
Proof.
  induction 1 as [d|d d1 d2 Hd _ IH]; intros Hok; [by split; [|apply store_grows_refl]|].
  destruct IH as [Hok2 Hg]; [by eapply store_step_ok|]. split; [done|].
  eapply store_grows_trans; [by apply store_step_grows|done].
Qed.
End memory.
