(* ===== verification/StateDemo.v ===== *)
(** A concrete journal with a wait that is approved, claimed and answered, under
    codecs that encode every value as an empty JSON object and a constant
    digest. *)

From Stdlib Require Import ZArith Lia.
From stdpp Require Import base tactics list gmap numbers strings option.
From stdpp Require Import list.
From S2P Require Import Prelude Kernel Digest Json Approval ApprovalHandler Journal WaitDue Completion StateWait StateEvent StateProjection StateReplay StateLoop StateIndex StateSafety.

#[local] Instance journal_any {T} : Serialize T := λ _, Some (lit "{}").
#[local] Instance journal_parse : Deserialize Json := λ _, Some (JObject []).
#[local] Instance journal_event_parse : Deserialize StateEvent := λ _, None.
#[local] Instance journal_completion_codec : CompletionCodec := {|
  codec_value := _; codec_parse := _; codec_descriptor := _; codec_bindings := _;
  codec_payload := _; codec_receipt := _; codec_item := _; codec_items := _; codec_binding := _ |}.
#[local] Instance journal_wait_codec : WaitCodec := {|
  codec_envelope := _; codec_settle := _; codec_claim := _; codec_close := _; codec_coordinate := _;
  codec_role := _; codec_record := _; codec_settlement := _ |}.
#[local] Instance journal_state_codec : StateCodec := {|
  codec_event := _; codec_event_parse := _; codec_continuation := _ |}.
#[local] Instance journal_sha_bytes : Sha256Bytes := λ _, repeat 171%N 32.
#[local] Instance journal_sha : Sha256 := λ _, repeat 171%N 32.

Definition journal_digest : str := hex_lower (repeat 171%N 32).
Definition requester : ActorIdentity := Authenticated (lit "corp") (lit "alice").
Definition approver : ActorIdentity := Authenticated (lit "corp") (lit "bob").

Definition journal_request : ApprovalRequest := {|
  aq_id := lit "a1"; aq_requested_by := requester;
  aq_authorization := {|
    ta_thread_id := lit "th1"; ta_turn_id := lit "t1"; ta_call_id := lit "c1";
    ta_descriptor := {| td_name := lit "fixture.tool"; td_description := lit "fixture tool";
                        td_input_schema := JObject [] |};
    ta_origin := BuiltIn; ta_input := JObject [] |};
  aq_reason := lit "policy"; aq_risk := RiskHigh |}.

Definition journal_generation : CompletionGeneration := {|
  cg_format_version := 1; cg_model_request_sha256 := journal_digest;
  cg_model_route_sha256 := journal_digest; cg_tool_view_sha256 := journal_digest;
  cg_verifier_manifest_sha256 := journal_digest; cg_runtime_governance_sha256 := journal_digest;
  cg_execution_binding_sha256 := None; cg_assurance := RuntimeMeasured;
  cg_generation_sha256 := journal_digest |}.

Definition journal_envelope : TurnWaitEnvelope := {|
  we_wait_id := lit "w1"; we_revision := 1; we_thread_id := lit "th1"; we_turn_id := lit "t1";
  we_tenant_id := None; we_requested_by := requester; we_server_started_at_ms := 100;
  we_expires_at_ms := Some 1000%Z; we_remaining_active_timeout_ms := None;
  we_completion_generation := journal_generation;
  we_wait_kind := WaitApproval journal_request journal_digest;
  we_envelope_sha256 := journal_digest |}.

Definition journal_settlement : ApprovalSettlementEvidence := {|
  as_inbox_schema_version := 3; as_request := journal_request; as_tenant_id := None;
  as_decision := DecisionApprove; as_decided_by := approver; as_inbox_revision := 2;
  as_requested_at_ms := 100; as_settled_at_ms := 150 |}.

Definition journal_resume : ResumeEvidence := {|
  re_wait_id := lit "w1"; re_previous_revision := 1; re_revision := 2; re_command_id := lit "r1";
  re_command_sha256 := journal_digest; re_settlement := journal_settlement;
  re_accepted_at_ms := 200 |}.

Definition journal_claim : ExecutionClaimEvidence := {|
  xe_wait_id := lit "w1"; xe_previous_revision := 2; xe_revision := 3;
  xe_resume_command_id := lit "r1"; xe_claim_id := lit "x1"; xe_worker_id := lit "worker";
  xe_claim_sha256 := journal_digest; xe_claimed_at_ms := 300 |}.

Definition journal_item (id : string) (at_ms : Z) (kind : ItemKind) : Item :=
  {| it_id := lit id; it_created_at_ms := at_ms; it_kind := kind |}.
Definition requested_item : Item :=
  journal_item "i2" 100 (ApprovalRequested (lit "a1") (lit "c1") (lit "fixture.tool") (lit "policy")
    RiskHigh (Some requester) (Some BuiltIn) (Some journal_digest)).
Definition started_item : Item := journal_item "i3" 100 (AgentLoopWaitStarted journal_envelope).
Definition decided_item : Item :=
  journal_item "i4" 200 (ItemApprovalDecision (lit "a1") (lit "c1") DecisionApprove).
Definition resumed_item : Item := journal_item "i5" 200 (AgentLoopResumeAccepted journal_resume).
Definition claimed_item : Item := journal_item "i6" 300 (AgentLoopReadyClaimed journal_claim).
Definition result_item : Item := journal_item "i7" 400 (ToolResult (lit "c1") JNull false []).

Definition stored_at (sequence : Z) (id : string) (event : StateEvent) : StoredEvent := {|
  se_schema_version := 16; se_sequence := sequence; se_event_id := lit id;
  se_thread_id := lit "th1"; se_recorded_at_ms := 100; se_event := event |}.

(** Up to the resumption, and what follows. *)
Definition journal_head : list StoredEvent := [
  stored_at 1 "e1" (EvThreadCreated 50 None);
  stored_at 2 "e2" (EvTurnStarted (lit "t1"));
  stored_at 3 "e3" (EvItemAppended (lit "t1") (journal_item "i1" 60 (UserMessage (lit "hello"))));
  stored_at 4 "e4" (EvWaitStarted (lit "t1") requested_item started_item);
  stored_at 5 "e5" (EvAcceptResume (lit "t1") decided_item resumed_item) ].
Definition journal_tail : list StoredEvent := [
  stored_at 6 "e6" (EvClaimReady (lit "t1") claimed_item);
  stored_at 7 "e7" (EvItemAppended (lit "t1") result_item) ].

Definition journal_turn (items : list Item) : Turn := {|
  tn_id := lit "t1"; tn_thread_id := lit "th1"; tn_status := TurnIsRunning; tn_items := items;
  tn_completion_receipt := None |}.
Definition journal_thread (items : list Item) : Thread := {|
  th_id := lit "th1"; th_tenant_id := None; th_name := None; th_lineage := None;
  th_import_origin := None; th_created_at_ms := 50; th_turns := [journal_turn items];
  th_checkpoints := [] |}.
Definition head_items : list Item :=
  [journal_item "i1" 60 (UserMessage (lit "hello")); requested_item; started_item; decided_item;
   resumed_item].

Lemma journal_head_projects :
  project_events journal_head = Ok (Some (journal_thread head_items)).
Proof. vm_compute. reflexivity. Qed.

Lemma journal_projects :
  project_events (journal_head ++ journal_tail)
  = Ok (Some (journal_thread (head_items ++ [claimed_item; result_item]))).
Proof. vm_compute. reflexivity. Qed.

Lemma journal_replay_incremental_witness :
  apply_events (Some (journal_thread head_items)) journal_tail
  = Ok (Some (journal_thread (head_items ++ [claimed_item; result_item]))).
Proof.
  rewrite <-(journal_replay_incremental journal_head journal_tail _ journal_head_projects).
  exact journal_projects.
Defined.

Lemma journal_immutable_witness :
  thread_extends (journal_thread head_items) (journal_thread (head_items ++ [claimed_item; result_item])).
Proof.
  destruct (journal_immutable journal_head journal_tail _ _ journal_head_projects journal_projects)
    as (thread' & E & _ & _ & Hx).
  injection E as <-. exact Hx.
Defined.

Lemma agent_loop_claims_safe_witness :
  ∃ envelope, claim_justified (head_items ++ [claimed_item; result_item]) 5 journal_claim envelope.
Proof.
  destruct (agent_loop_claims_safe (journal_head ++ journal_tail) _
    (journal_turn (head_items ++ [claimed_item; result_item])) journal_projects) as (Hc & _ & _).
  { left. }
  destruct (Hc 5%nat journal_claim) as (envelope & Hj & _).
  { exists claimed_item. split; [reflexivity|]. split; reflexivity. }
  exists envelope. exact Hj.
Defined.

Lemma journal_head_row :
  wait_row journal_head = Ok (Some {|
    wp_phase := DueReadyAllow; wp_tenant_id := None; wp_thread_id := lit "th1";
    wp_turn_id := lit "t1"; wp_wait_id := lit "w1"; wp_revision := 2; wp_due_at_ms := Some 1000%Z;
    wp_approval_id := lit "a1"; wp_envelope_sha256 := journal_digest;
    wp_wait_started_event_id := lit "e4"; wp_current_transition_event_id := lit "e5";
    wp_resume_command_id := Some (lit "r1") |}).
Proof. vm_compute. reflexivity. Qed.

Lemma wait_row_agrees_witness :
  ∃ row, wait_row journal_head = Ok (Some row) ∧
    row_agrees (lit "th1") [journal_turn head_items] (Some row).
Proof.
  destruct (wait_row_agrees (lit "th1") journal_head (journal_thread head_items) _
    ltac:(repeat (constructor; [split; [reflexivity|vm_compute; reflexivity]|]); constructor)
    journal_head_projects journal_head_row) as [_ Hrow].
  eexists. split; [exact journal_head_row|exact Hrow].
Defined.

(** An Item that the Thread already has, stored once more, refuses the whole
    journal: the store checks the event, not the identities of its Items. *)
Lemma journal_duplicate_item :
  is_ok (validate_stored_event (stored_at 8 "e8" (EvItemAppended (lit "t1") result_item))) = true ∧
  is_ok (project_events (journal_head ++ journal_tail
           ++ [stored_at 8 "e8" (EvItemAppended (lit "t1") result_item)])) = false.
Proof. split; vm_compute; reflexivity. Qed.
