(* ===== verification/TemporalDemo.v ===== *)
(** Concrete ticks of the temporal driver: over memory stores holding a Run
    whose timed wait is due, a case whose claim expired, an Effect whose
    lease expired and a Turn whose approved wait expired; the commands of due Agent Loop waits; and a cursor of the
    Agent Loop source that its own driver refuses. *)

From Stdlib Require Import ZArith Lia.
From stdpp Require Import sorting base tactics list gmap relations numbers strings option.
From stdpp Require Import list.
From S2P Require Import Prelude Ordering Kernel Digest Json Sqlite Pairs TaskGraph TaskMessages TaskCoordinator TaskStores Workflow WorkflowCoordinator WorkflowStores WorkflowClients WorkflowEngine WorkflowDemo Effect EffectCoordinator EffectStores EffectClients EffectDemo Handoff HandoffCoordinator HandoffStores HandoffClients HandoffDemo Approval Journal WaitDue Completion StateWait StateEvent StateProjection StateReplay StateLoop StateIndex StateSafety StateStore Temporal TemporalSafety TemporalRuns TemporalSweep StateEngine StateDemo.

#[local] Existing Instance demo_json.
#[local] Existing Instance demo_sha.
#[local] Existing Instance demo_sha_laws.
#[local] Existing Instance demo_semver.
#[local] Existing Instance demo_resolver.
#[local] Existing Instance journal_completion_codec.
#[local] Existing Instance journal_state_codec.

(** The journal's codec, but for the role of an Item, so that [demo_sha] tells
    the two Items of a settlement apart. *)
Definition role_text (p : str * (str * str)) : option str := Some (34%N :: p.2.2 ++ [34%N]).
#[local] Instance demo_wait_codec : WaitCodec := {|
  codec_envelope := _; codec_settle := _; codec_claim := _; codec_close := _; codec_coordinate := _;
  codec_role := role_text; codec_record := _; codec_settlement := _ |}.
#[local] Instance demo_sha_bytes : Sha256Bytes := λ _, repeat 171%N 32.
#[local] Instance demo_sha_bytes_laws : Sha256BytesLaws.
Proof.
  split; [done|]. intros s b Hb. apply list_elem_of_In, repeat_spec in Hb as ->. lia.
Qed.

(** * A State engine with a due wait *)

(** The pending event of a stored one, at the end of its stream. *)
Definition pending_at (data : MemoryStoreData) (stored : StoredEvent) : PendingEvent := {|
  pe_event_id := se_event_id stored;
  pe_thread_id := se_thread_id stored;
  pe_expected_stream_version := default 0%Z (ms_stream_versions data !! se_thread_id stored);
  pe_expected_stream_recovery_bytes :=
    default 0%Z (ms_stream_recovery_bytes data !! se_thread_id stored);
  pe_recorded_at_ms := se_recorded_at_ms stored;
  pe_event := se_event stored |}.
Definition append_stored (data : MemoryStoreData) (stored : StoredEvent) : MemoryStoreData :=
  (append_classified (pending_at data stored) data).1.

(** An approved wait that nobody claimed before it expired. *)
Definition demo_journal : MemoryStoreData := foldl append_stored MemoryEventStore_new journal_head.
Definition demo_engine : StateEngine MemoryStoreData := {| sg_store := demo_journal; sg_heads := ∅ |}.

Lemma demo_journal_ok : store_ok demo_journal.
Proof.
  unfold demo_journal. generalize MemoryEventStore_new new_store_ok.
  induction journal_head as [|stored l IH]; intros data Hok; [exact Hok|]. apply IH.
  eapply store_step_ok; [exact Hok|]. by eapply step_append, surjective_pairing.
Qed.

Definition no_others : EnginePoint → StateEngine MemoryStoreData → StateEngine MemoryStoreData :=
  λ _ j, j.
Lemma no_others_grow (p : EnginePoint) (j : StateEngine MemoryStoreData) :
  es_inv (sg_store j) →
  es_inv (sg_store (no_others p j)) ∧ store_grows (sg_store j) (sg_store (no_others p j)).
Proof. intros Hi. split; [exact Hi|apply store_grows_refl]. Qed.

#[local] Instance demo_waits : StateWaits (StateEngine MemoryStoreData) :=
  tick_waits no_others.
#[local] Instance demo_model : StateWaitsModel (StateEngine MemoryStoreData) :=
  tick_model no_others.
#[local] Instance demo_waits_laws : StateWaitsLaws (StateEngine MemoryStoreData) :=
  tick_laws no_others no_others_grow.

(** * Four due aggregates *)

Definition demo_effects : MemoryEffects :=
  (eff_apply_as (lit "e1") 1 demo_claim 200 local_process demo_stored).1.
Definition demo_cases : MemoryHandoffs :=
  (handoff_apply_as (lit "h1") 1 demo_hclaim 200 local_process demo_handoffs2).1.

Abbreviation DemoStores := (TemporalStores MemoryStore MemoryRuns MemoryHandoffs () MemoryEffects (StateEngine MemoryStoreData)).
Definition demo_world : DemoStores := {|
  st_workflows := (demo_graphs, demo_runs_waiting);
  st_human_handoffs := (demo_cases, ());
  st_effects := demo_effects;
  st_state := demo_engine;
|}.
Definition demo_quiet : TickPoint → DemoStores → DemoStores := λ _ s, s.
Definition demo_driver : TemporalDriver :=
  with_state_engine (with_effect_engine (with_human_handoff_engine
    (with_workflow_engine TemporalDriver_new))).
Definition demo_no_cursor : TemporalTickCursor := {|
  tc_workflow_after_run_id := None; tc_handoff_after_handoff_id := None;
  tc_effect_after_effect_id := None; tc_agent_loop_wait_after := None |}.
Definition demo_tick_request : TemporalTickRequest :=
  {| tq_at_ms := 5000; tq_scan_limit := 4; tq_cursor := demo_no_cursor |}.
Abbreviation demo_tick :=
  (tick_as demo_await demo_quiet demo_driver demo_tick_request local_process demo_world).

(** Each of the four fences is settled by one applied command. *)
Lemma demo_tick_report :
  succeeds (λ report, bool_decide (length (tr_attempts report) = 4%nat)
      && forallb (λ a, match ta_outcome a with AttemptApplied => true | _ => false end) (tr_attempts report)
      && negb (ts_has_more (tr_workflows report)) && negb (ts_has_more (tr_human_handoffs report))
      && negb (ts_has_more (tr_effects report))) demo_tick = true.
Proof. vm_compute. reflexivity. Qed.

Lemma demo_world_ok : stores_ok demo_world.
Proof.
  split_and!; [exact demo_runs_waiting_inv| | |exact demo_journal_ok].
  - destruct (succeeds_with _ _ demo_happly_call) as (res & E & _).
    exact (proj1 (hc_apply_law _ _ _ _ _ _ _ _ demo_handoffs_inv E)).
  - exact (proj1 (ec_apply_law _ _ _ _ _ _ _ _ demo_stored_inv
      (surjective_pairing (eff_apply_as (lit "e1") 1 demo_claim 200 local_process demo_stored)))).
Qed.

Lemma demo_quiet_ok (p : TickPoint) (s : DemoStores) : stores_ok s → stores_ok (demo_quiet p s).
Proof. done. Qed.

Lemma demo_quiet_grows (p : TickPoint) (s : DemoStores) : stores_ok s →
  store_grows (sg_store (st_state s)) (sg_store (st_state (demo_quiet p s))).
Proof. intros _. apply store_grows_refl. Qed.

Lemma temporal_tick_honest_witness :
  ∃ s' report, demo_tick = (s', Ok report) ∧ stores_ok s' ∧
    length (tr_attempts report) = 4%nat ∧
    forallb (λ a, match ta_outcome a with AttemptApplied => true | _ => false end)
      (tr_attempts report) = true ∧
    tick_runs demo_quiet (attempted demo_tick_request local_process) demo_world (tr_attempts report) s'.
Proof.
  destruct (succeeds_with _ _ demo_tick_report) as (report & E & H).
  destruct (temporal_tick_honest demo_await no_others no_others_grow demo_quiet demo_quiet_ok
    demo_quiet_grows demo_driver demo_tick_request local_process demo_world _ _ demo_world_ok E)
    as [H1 H2].
  eexists _, report. split; [exact E|]. split; [exact H1|].
  do 3 apply andb_true_iff in H as [H _]. apply andb_true_iff in H as [H3 H4].
  split; [exact (bool_decide_eq_true_1 _ H3)|]. split; [exact H4|exact H2].
Defined.

Lemma temporal_report_exact_witness :
  ∃ s' report s1 pages, demo_tick = (s', Ok report) ∧ length (tr_attempts report) = 4%nat ∧
    scans_answered demo_quiet demo_driver demo_tick_request local_process demo_world s1 pages ∧
    attempts_exact local_process pages (tr_attempts report).
Proof.
  destruct (succeeds_with _ _ demo_tick_report) as (report & E & H).
  destruct (temporal_report_exact demo_await demo_quiet demo_driver demo_tick_request
    local_process demo_world _ report E) as (_ & s1 & pages & H1 & H2 & _).
  eexists _, report, s1, pages. split; [exact E|]. split; [|split; [exact H1|exact H2]].
  do 4 apply andb_true_iff in H as [H _]. exact (bool_decide_eq_true_1 _ H).
Defined.

Definition demo_due_run : WorkflowRunSnapshot :=
  default {| ws_id := []; ws_tenant_id := None; ws_revision := 0; ws_run := demo_run |}
    (wc_view demo_runs_waiting !! run_key demo_run_id None).

Lemma demo_due_run_at : run_at local_process demo_run_id demo_due_run demo_world.
Proof. vm_compute. reflexivity. Qed.

Lemma temporal_sweep_complete_witness :
  ∃ report d, due_entry 5000 demo_due_run = Some d ∧ demo_tick.2 = Ok report ∧
    run_attempted demo_run_id d report.
Proof.
  destruct (succeeds_with _ _ demo_tick_report) as (report & E & H).
  destruct (due_entry 5000 demo_due_run) as [d|] eqn:Ed; [|vm_compute in Ed; discriminate Ed].
  exists report, d. split; [reflexivity|]. split; [exact (f_equal snd E)|].
  pose proof (sweep_last demo_await demo_quiet demo_driver local_process 5000 demo_tick_request
    demo_world _ report (Z.le_refl _) E) as Hsw.
  destruct (temporal_sweep_complete demo_await demo_quiet demo_quiet_ok demo_driver local_process 5000
    demo_tick_request demo_world [report] _ demo_run_id Hsw demo_world_ok) as [Hrun _].
  destruct (Hrun demo_due_run d) as (report' & Hin & Ha);
    [reflexivity|exact demo_due_run_at|exact Ed|intros p s Hs; exact Hs|reflexivity| |].
  - intros report' [= <-]. do 2 apply andb_true_iff in H as [H _].
    apply andb_true_iff in H as [_ H]. by apply negb_true_iff in H.
  - apply list_elem_of_singleton in Hin as ->. exact Ha.
Defined.

(** * Commands of due Agent Loop waits *)

Definition demo_due (thread : string) (version : Z) : AgentLoopDueWait := {|
  aw_phase := DueWaiting; aw_tenant_id := None; aw_thread_id := lit thread;
  aw_turn_id := lit "turn-1"; aw_wait_id := lit "wait-1"; aw_revision := 1;
  aw_due_at_ms := 500; aw_envelope_sha256 := repeat 97%N 64;
  aw_wait_started_event_id := lit "event-1"; aw_current_transition_event_id := lit "event-1";
  aw_expected_stream_version := version; aw_expected_stream_recovery_bytes := 10;
|}.

Lemma demo_due_commands :
  is_ok (agent_loop_due_command_id (demo_due "thread-1" 3)) = true ∧
  is_ok (agent_loop_due_command_id (demo_due "thread-1" 4)) = true.
Proof. split; vm_compute; reflexivity. Qed.

Lemma is_ok_eq {A} (r : result A) : is_ok r = true → ∃ a, r = Ok a.
Proof. destruct r; [by eexists|done]. Qed.

Lemma demo_due_other :
  is_ok (agent_loop_due_command_id (demo_due "thread-2" 3)) = true.
Proof. vm_compute. reflexivity. Qed.

(** A wait keeps its command when its stream grows; the input of the wait of
    another Thread is another one. *)
Lemma maintenance_command_binds_witness :
  (∃ id, agent_loop_due_command_id (demo_due "thread-1" 3) = Ok id ∧
     agent_loop_due_command_id (demo_due "thread-1" 4) = Ok id) ∧
  ∃ input input',
    maintenance_command_input TIMEOUT_COMMAND_DOMAIN (demo_due "thread-1" 3) = Ok input ∧
    maintenance_command_input TIMEOUT_COMMAND_DOMAIN (demo_due "thread-2" 3) = Ok input' ∧
    input ≠ input'.
Proof.
  destruct (is_ok_eq _ (proj1 demo_due_commands)) as [id E].
  destruct (is_ok_eq _ (proj2 demo_due_commands)) as [id' E'].
  destruct (is_ok_eq _ demo_due_other) as [id2 E2]. split.
  - destruct (maintenance_command_binds (demo_due "thread-1" 3) (demo_due "thread-1" 4) id id')
      as (i & i' & _ & _ & _ & _ & Hid); [simpl; unfold u64_max; lia..|exact E|exact E'|].
    exists id. split; [exact E|]. rewrite Hid; [exact E'|]. by split_and!.
  - destruct (maintenance_command_binds (demo_due "thread-1" 3) (demo_due "thread-2" 3) id id2)
      as (i & i' & Hi & Hi' & Hb & _); [simpl; unfold u64_max; lia..|exact E|exact E2|].
    exists i, i'. split; [exact Hi|]. split; [exact Hi'|].
    intros Heq. apply Hb in Heq. destruct Heq as (_ & _ & Ht & _). vm_compute in Ht. discriminate Ht.
Defined.

(** * A continuation its own driver refuses *)

(** A Thread whose identity is one space: the State engine accepts it. *)
Definition demo_blank : AgentLoopDueWait := demo_due " " 3.
Definition demo_blank_page : AgentLoopDueScanPage :=
  {| adp_due := [demo_blank]; adp_next_cursor := Some (due_cursor demo_blank);
     adp_has_more := true; adp_scanned := 1 |}.
Definition demo_blank_request (cursor : TemporalTickCursor) : TemporalTickRequest :=
  {| tq_at_ms := 5000; tq_scan_limit := 1; tq_cursor := cursor |}.
Definition demo_blank_pages : TickPages :=
  {| tp_workflows := empty_workflow_page; tp_handoffs := empty_handoff_page;
     tp_effects := empty_effect_page; tp_waits := demo_blank_page |}.

(** A tick accepts the page, so its report carries that cursor; the next tick,
    which continues from it, is refused, so the waits beyond it are not
    settled by a sweep that continues. *)
Lemma blank_thread_cursor_refused :
  due_validate demo_blank 5000 None = Ok () ∧
  validate_agent_loop_wait_scan_page demo_blank_page (demo_blank_request demo_no_cursor) local_process = Ok () ∧
  is_ok (temporal_validate_request (demo_blank_request (tick_next_cursor demo_blank_pages)) local_process) = false.
Proof. split_and!; vm_compute; reflexivity. Qed.
